(* ===== verification/_CoqProject ===== *)
-Q . S2P
Prelude.v
Decimal.v
Trim.v
TextSearch.v
Paths.v
Utf8.v
PatchParser.v
PatchPrint.v
PatchReparse.v
SeekSequence.v
Replacements.v
FileSystem.v
HostPaths.v
Permissions.v
WritableRoots.v
ApplyPatch.v
Invocation.v
ShellParse.v
CommandSafety.v
ExecPolicy.v
PolicyBuilder.v
PolicyAmend.v
Approval.v
PatchSafety.v
PatchProgress.v
Truncate.v
ResponseItems.v
Normalize.v
History.v
StreamText.v
TaggedLines.v
AssistantText.v
Utf8Stream.v
BTree.v
Toml.v
ConfigLayers.v
Fingerprint.v
Constraint.v
LayerPolicies.v
Requirements.v
Diagnostics.v
ProjectTrust.v
ConfigLoader.v
IpAddr.v
DomainPolicy.v
ProxyConfig.v
ProxyConstraints.v
ProxyState.v
NetworkPolicy.v
ProxyRequests.v
PermissionsToml.v
PermissionProfiles.v
ProxySpec.v
ProxyLoader.v
NetworkApproval.v
AgentPath.v
AgentRegistry.v
TurnItems.v
Compaction.v
Rollout.v
RolloutFork.v
AgentControl.v
CommandOperands.v
CommandSummary.v
Programs.v
Orchestrator.v
Runtimes.v
Bubblewrap.v
PolicyTransforms.v
PermissionGrants.v
McpTools.v
McpServers.v
McpApps.v
McpApproval.v
