(* ===== verification/Prelude.v ===== *)
(** * A verification library for the codex agent

    The agent runs shell commands and applies patches that a language model
    asks for.  This library models the parts of the repository that decide
    what is run and what is written, and what is sent to the model and shown of
    its answers, and proves them correct.

    ** The program and its model

    A request of the model is either a patch or a command.

    - A patch is recognised in a command's arguments ([invocation.rs]), parsed
      ([parser.rs]), verified against the files, shown to the user, and applied
      ([lib.rs], over [seek_sequence.rs]) through the abstract file system
      ([file-system]), with paths resolved by [absolute-path].
    - A command is taken apart ([bash.rs]), each of its commands is looked up in
      the exec policy ([execpolicy]) or, if no rule matches, judged by the
      heuristics ([command_safety]); the result, with the session's settings,
      is "run", "ask" or "refuse" ([core/src/exec_policy.rs]); what the user
      accepts is appended to a policy file ([amend.rs]), which is loaded again
      ([execpolicy/src/parser.rs]) in the next session.
    - A session's configuration is a stack of layers that are merged
      ([config/src/state.rs]); its policy is read from the folders of the layers
      and tightened by the rules of [requirements.toml], which constrain the
      other settings too ([config/src/config_requirements.rs]).
    - What the model says arrives in pieces: the progress of an arriving patch
      is shown ([tools/handlers/apply_patch.rs]), and citations and plans are
      taken out of the text ([utils/stream-parser]).
    - The conversation is recorded with tool outputs cut to a budget
      ([context_manager/history.rs], [utils/output-truncation]), rolled back,
      and paired up before it is sent ([normalize.rs]).
    - A resumed session is rebuilt from its log
      ([session/rollout_reconstruction.rs]), with compacted histories
      ([compact.rs]) as checkpoints.  An agent may start others, which share a
      registry ([core/src/agent]).
    - What a sandboxed command sends to the network goes through a proxy
      ([network-proxy]): each request is judged by the domain policy and the
      mode of the session, within what is managed, on a state that the session
      changes while requests are served.

    - Tools of MCP servers are listed under names for the model
      ([codex-mcp/src/tools.rs]), and a call of one is let through by the
      settings, hooks, the guardian or the user ([core/src/mcp_tool_call.rs]).

    File by file (sources under [src/codex-rs]):

    - [Prelude] : text as lists of Unicode scalar values and the functions of
      [str] and [slice] the code calls (trim, lines, split, strip, sort), the
      [result] monad, generic lemmas.
    - [Paths] : [std::path] on Unix (components, push, pop, file name) and
      [utils/absolute-path]: [resolve_path_against_base] and what it is made of.
    - [Utf8] : encoding, decoding and the errors of [String::from_utf8].
    - [PatchParser] : [apply-patch/src/parser.rs], one definition per function;
      [parse_patch_text] is the parser in the three modes.
    - [PatchPrint] : the grammar in the header of [parser.rs], as a printer.
    - [PatchReparse] : the text recorded with a parsed patch.
    - [SeekSequence] : [apply-patch/src/seek_sequence.rs].
    - [Replacements] : [compute_replacements], [apply_replacements] and the text
      around them, from [apply-patch/src/lib.rs], without effects; the panics
      of [Vec::insert] are [None].
    - [FileSystem] : the trait [ExecutorFileSystem] as the class of that name
      over a state, the laws its clients need as the class [FileSystemLaws],
      the monad [M] of computations that change a state, fail or panic, and a
      file system in memory that is an instance of both classes.
    - [ApplyPatch] : the effects of [apply-patch/src/lib.rs] over that class, and
      [hunks_spec], the pure specification on maps from paths to contents.
    - [Invocation] : [apply-patch/src/invocation.rs].
    - [ShellParse] : [shell-command/src/bash.rs], [shell_detect.rs] and
      [powershell.rs]; a syntax tree is a [Node] with what the code asks of it.
    - [CommandSafety] : [shell-command/src/command_safety].
    - [ExecPolicy] : [execpolicy/src/{decision,rule,policy,executable_name,error}.rs].
    - [PolicyBuilder] : [execpolicy/src/parser.rs].
    - [PolicyAmend] : [execpolicy/src/amend.rs] over the class [PolicyFile].
    - [Approval] : [core/src/exec_policy.rs] and the requirements of
      [core/src/tools/sandboxing.rs].
    - [HostPaths] : what the code asks the operating system about paths (the class
      [Host]), canonical paths and the metadata directories of a root, from
      [utils/absolute-path] and [protocol/src/permissions.rs].
    - [Permissions] : [protocol/src/permissions.rs] with the settings of
      [models.rs] and [protocol.rs]: policies, the access of a path, metadata
      directories, building and extending policies.
    - [WritableRoots] : the roots that sandboxes are configured with, and the
      matcher of denied reads.
    - [PatchSafety] : [core/src/safety.rs], [core/src/apply_patch.rs] and the
      approval cache of [core/src/tools/sandboxing.rs], whose questions and
      answers interleave ([cache_step], [cache_run]).
    - [PatchProgress] : the consumer of an arriving patch, a state machine over
      pieces and times, from [core/src/tools/handlers/apply_patch.rs].
    - [Trim], [TextSearch] : [str::trim], [str::find] and [Iterator::min_by].
    - [StreamText] : the trait [StreamTextParser] as the class of that name, the
      parser of hidden inline tags and the one of citations.
    - [TaggedLines] : the parser of tags on lines of their own, segments up to
      their cuts (a setoid), proposed plans.
    - [AssistantText] : both parsers together.  [Utf8Stream] : bytes, over any
      instance of the class.
    - [Truncate] : [utils/string/src/truncate.rs], [utils/output-truncation] and
      [TruncationPolicy]; 64-bit saturating arithmetic and binary64.
    - [ResponseItems] : the items of a conversation ([protocol/src/models.rs]) and
      the context injected between markers ([core/src/context/],
      [event_mapping.rs]).
    - [Normalize] : [core/src/context_manager/normalize.rs].
    - [History] : [core/src/context_manager/history.rs].
    - [BTree], [Toml] : sorted maps with string keys; TOML values, renamed keys,
      merge, overrides and recorded origins ([config/src/key_aliases.rs],
      [merge.rs], [overrides.rs], [fingerprint.rs]).
    - [ConfigLayers] : [config/src/state.rs]: the stack of configuration layers.
      [Fingerprint] : its origins and versions.
    - [Diagnostics] : [config/src/diagnostics.rs]: where an error of a file is.
      [ProjectTrust] : which projects are trusted ([config/src/loader/mod.rs],
      [git-utils/src/info.rs]).  [ConfigLoader] : the rest of
      [config/src/loader/mod.rs], [layer_io.rs] and [thread_config.rs]: from files
      to a stack of layers and its requirements.
    - [LayerPolicies] : the rules of [requirements.toml]
      ([config/src/requirements_exec_policy.rs]) and the loading of the policy
      from the layers ([core/src/exec_policy.rs]).
    - [Constraint] : [config/src/constraint.rs]: values that pass a validator.
      [Requirements] : [config/src/config_requirements.rs] and [hook_config.rs]:
      the requirements, their merge and the constraints they become, and how
      [core/src/config/mod.rs] applies constraints and denied reads.
    - [Decimal] : printing and parsing numbers.
    - [IpAddr] : addresses and which are public; [DomainPolicy] : hosts, patterns
      and compiled lists; both [network-proxy/src/policy.rs].
    - [ProxyConfig] : [network-proxy/src/config.rs].  [ProxyConstraints] :
      [network-proxy/src/state.rs], with the record [within] of what the checks
      decide.
    - [ProxyState] : [network-proxy/src/runtime.rs]: the state [ConfigState], the
      operations on it as tasks, whose sections under the lock interleave.
    - [NetworkPolicy] : [network-proxy/src/network_policy.rs], over calls on a
      state that anything may change in between; traces, and a logic for what a
      computation adds to its trace ([adds]).
    - [ProxyRequests] : the handlers of [http_proxy.rs], [mitm.rs] and
      [socks5.rs].
    - [PermissionsToml] : [config/src/permissions_toml.rs]: the tables of profiles.
      [PermissionProfiles] : [core/src/config/permissions.rs]: their policies.
      [ProxySpec] : [core/src/config/network_proxy_spec.rs]: the proxy of a
      session.  [ProxyLoader] : [core/src/network_proxy_loader.rs]: a proxy on its
      own, from the layers.
    - [NetworkApproval] : [core/src/tools/network_approval.rs]: the decider of
      the proxy that asks the user; requests are tasks that interleave
      ([conf_step], [conf_run]) and wait for each other's wake-ups.

    - [AgentPath] : [protocol/src/agent_path.rs].  [AgentRegistry] :
      [core/src/agent/registry.rs]: the agents of a session; reservations and
      releases are tasks that interleave ([AgentRegistry.run]), and [sound] is
      their invariant.  [AgentControl] : [core/src/agent/control.rs]: the tree of
      agents over the registry, listing and shutting down.
    - [TurnItems] : [core/src/event_mapping.rs].  [Compaction] :
      [core/src/compact.rs]: the history that replaces a conversation.
    - [Rollout] : [core/src/session/rollout_reconstruction.rs]: a session from its
      log.  [RolloutFork] : [core/src/thread_rollout_truncation.rs]: the part of
      a log that a fork starts from.
    - [CommandOperands], [CommandSummary] : [shell-command/src/parse_command.rs]:
      what the user is told that a command does.
    - [Programs] : programs that make calls of a signature, their runs,
      monitors of the calls and interpretations.  [Orchestrator] :
      [core/src/tools/orchestrator.rs]: from a tool call to its attempts in and
      outside the sandbox, as such a program.  [Runtimes] :
      [core/src/tools/runtimes]: the questions of the tools.
    - [Bubblewrap] : [linux-sandbox/src/bwrap.rs]: the mounts of the Linux sandbox.
    - [PolicyTransforms] : [sandboxing/src/policy_transforms.rs]: permissions on top
      of a policy.  [PermissionGrants] : asking for them, and what a session and
      its turns keep ([core/src/session/mod.rs], [core/src/tools/handlers/mod.rs]);
      requests, answers, reviews and turns are events ([grants_run]).
    - [McpTools] : [codex-mcp/src/tools.rs]: filters and names of tools.
      [McpServers] : [codex-mcp/src/rmcp_client.rs], [connection_manager.rs]: what
      servers list and let be called.  [McpApps] : [core/src/connectors.rs],
      [codex-mcp/src/elicitation.rs], [core/src/mcp_tool_approval_templates.rs]:
      the policy of apps, the requests of servers to the user, and questions.
      [McpApproval] : [core/src/mcp_tool_call.rs] and [mcp_openai_file.rs]: the calls
      of tools, with the files their arguments name, as programs whose runs
      interleave in a session ([session_run]).

    State is passed explicitly: [Fs] (the file system), [World] (file system,
    standard output and error), [PolicyBuilder], [MemFile] or any other
    [PolicyFile], [ExecPolicyManager] (the policy in memory and its file),
    [ContextManager] (the conversation), [AgentRegistry], [ConfigState] and the world around it
    (the proxy) and the records of the stream parsers.
    Asynchronous functions are modelled as the sequence of their effects;
    [ExecPolicyManager]'s updates run under a lock in the code, so that each is
    one step here.

    ** What the theorems show

    - Patches: the parser ends, names existing lines, inverts its grammar and
      agrees with itself across modes and on its own recorded text
      ([parse_patch_total], [parse_print_patch], [parse_modes_agree],
      [parse_patch_reparses]); the search finds the first match of the strictest
      view ([seek_sequence_spec]); the replacement loop is the splice, and never
      panics ([apply_replacements_splice], [derive_new_contents_splice],
      [derive_new_contents_no_panic]); the handlers refine [hunks_spec] on every
      lawful file system ([apply_hunks_to_files_spec], [apply_patch_spec]); what
      is verified is what is applied ([verified_spec], [verified_is_applied]).
    - Paths: resolution gives normal paths and is the run of a stack machine
      ([resolve_path_normal], [resolve_relative_stack]).
    - Commands: the walks over syntax trees end and let nothing unchecked through
      ([word_only_commands_spec], [single_command_prefix_spec]); safe and
      dangerous commands are apart ([safe_not_dangerous]), with exact
      characterisations of the delicate cases ([safe_git_spec],
      [sed_argument_spec]); the summaries of a command stand for runs of its
      segments, and hide none but the few kinds they may
      ([known_summary_spec]).
    - Policy: decisions are the strictest of the matches, for one command and for
      several, under overlays and with resolved programs ([check_strictest],
      [check_multiple_strictest], [merge_overlay_strictens], [match_provenance],
      [compiled_network_domains_spec]); loading keeps the policy well formed and
      honours its examples ([parse_validates]); appending is idempotent
      ([append_allow_prefix_rule_spec]).
    - Approval: the answer is sound ([create_exec_approval_requirement_sound],
      [dangerous_command_not_skipped], [proposed_amendment_sound]) and updates
      of the policy are ordered and monotone ([append_amendment_and_update_spec]).
    - Attempts: whatever is answered, the orchestrator refines its monitor
      ([orchestrator_keeps_rules]), and nothing that is to run in the sandbox
      gets out of it without a yes ([sandbox_left_after_yes],
      [patch_leaves_sandbox_after_yes]).
    - Permissions: the deepest entry decides, whatever the order
      ([resolve_access_spec]); full access is full ([full_disk_access_sound]);
      metadata directories are protected ([metadata_dirs_protected]); the policy
      of a workspace writes only there ([workspace_write_spec]); the roots given
      to sandboxes and the matcher of reads agree with the policy
      ([writable_roots_spec], [read_denied_spec]); a policy that is compiled
      from a profile says what its table says ([compiled_profile_access]).
    - The sandbox of Linux: in the order of its mounts, what may be written is
      below the deepest writable root and nothing else ([mounted_writable]), and
      what is denied is hidden ([mounted_hidden]), where no .git file points out
      of its root ([gitdir_unmasks] shows why).
    - More permissions: a grant gives no more than was granted, nor more to be
      read than was asked for ([intersection_within], with [grant_exceeds_request]
      for what may be written); what is denied stays denied but by an entry
      strictly below ([effective_policy_spec]); and what a tool call uses without
      a question was granted before ([preapproved_was_granted], but for
      [denial_hides_grant]).
    - Patch safety: when a patch is approved, shown or rejected
      ([assess_patch_safety_spec]); what is approved without asking changes only
      files that may be written ([auto_approved_patch_confined], from the
      command line to the files); the cache never invents an approval
      ([cached_approval_sound]).
    - Streams: however a text is cut into pieces, the parsers give what one
      reading of the whole gives ([inline_stream_spec], [tagged_stream_spec],
      [assistant_stream_spec]), bytes included ([utf8_stream_spec]); the last
      progress of a patch is always shown ([progress_events_spec]).
    - Conversation: what is sent is paired, with outputs added and dropped only
      where they must be ([normalize_spec]); rolling back takes
      the last turns ([rollback_spec]); removing keeps the pairs
      ([remove_item_keeps_pairs]); outputs are cut to the budget
      ([truncate_text_spec], [record_items_spec]); injected context is recognised
      ([rendered_fragment_recognised]).

    - Configuration: stacks of layers are well formed and stay so
      ([config_layer_stack_spec]); a setting is that of the highest layer that
      decides its path ([effective_config_spec], over the reference merge of
      [merge_at_path_spec]) and its origin says which ([origins_spec]); legacy
      keys and overrides ([legacy_keys_spec], [cli_overrides_spec]).  Loading
      gives such a stack, each layer with what its file says, or the error of
      one of its parts ([loaded_stack_spec]); the layer of a project is enabled
      exactly if the first entry for it says trusted
      ([project_layers_need_trust], with [root_of_worktree] for work trees); resolving paths loses no setting
      ([resolved_config_spec]); an error is shown where it is
      ([error_underlined], [typed_error_placed]).
    - The policy of a session: which files it is read from, and that
      requirements bind where the files can be read ([loaded_policy_spec],
      [requirements_policy_spec]; [unparsed_rules_drop_requirements] shows what
      happens elsewhere).
    - Requirements: the strongest source decides, and can only be tightened for
      apps ([merge_sources_spec]); the conversion succeeds exactly where it may, and each
      constraint accepts what its requirement allows ([try_from_spec]) and holds
      of what is configured ([apply_requirement_spec]); denied paths cannot be
      read, and denied patterns reach the sandbox ([denied_reads_enforced]).
    - The proxy: comparing patterns is comparing the hosts they stand for
      ([pattern_allows_spec], [compiled_covers]), so that a managed allowlist
      confines ([managed_allowlist_confines]); where it listens
      ([resolve_runtime_spec]); the state stays in order under every
      interleaving ([proxy_state_invariant]); what is allowed is listed and
      public ([host_blocked_safe]), what is denied stays out
      ([denied_host_is_blocked], [blocked_host_not_reached], with the decider
      overriding no more than a missing entry: [evaluate_host_policy_safe]), and
      limited mode only reads ([limited_mode_read_only]); headers between hops
      are not passed on ([remove_hop_by_hop_spec]).
    - Where its settings come from: a session gets them unless they are at odds
      with the requirements ([spec_accepted]), and cannot widen a pinned
      allowlist by anything it does ([pinned_allowlist_confines]); on its own,
      the highest layer decides each setting ([layered_settings_spec]) within
      what managed layers say ([trusted_layers_bind]).
    - Approval of network access: nothing passes without an answer for it, and
      questions are not doubled ([network_approval_sound]); no request is stuck
      ([waiting_request_can_finish]).
    - Tools of MCP servers: each has one name, which is short, and the loop that
      finds it ends ([qualify_tools_spec]), in whatever order servers are asked
      ([qualified_names_stable]); what is listed may be used, and nothing else
      ([listed_tools_confined]); an app that requirements refuse stays out
      ([refused_app_stays_disabled]); a question shows every parameter
      ([rendered_params_complete]); and no call reaches a server without a yes,
      unless the settings ask for none ([mcp_calls_after_yes]).
    - Agents: the count of agents is what it should be and within the limit under
      every interleaving in which no agent is committed twice
      ([committed_twice]), and paths are held once ([registry_slots]); what is
      committed is found and what is released is free ([agent_lifecycle]); names
      are lists of segments ([agent_path_spec]) and nicknames are not given twice
      ([nicknames_distinct]); the search of a subtree ends and finds it
      ([subtree_found]), and closing it takes it away ([tree_shut_down]).
    - Logs: reading a log of turns from its end is replaying it from its beginning,
      and finds the settings and the baseline of the turns that are left
      ([rollout_reconstructed], up to a checkpoint that was rolled back:
      [rolled_back_checkpoint]); forks count the turns that are left
      ([fork_turns_survive]); compaction keeps the newest messages within its
      limit ([compacted_history_spec]) and puts the context where it belongs
      ([insert_initial_context_spec]).

    The examples at the end of the files evaluate the definitions on inputs
    where the code does something surprising.

    ** Fuel

    These loops take fuel.  [parse_hunks] and [parse_chunks] get the number of
    remaining lines, of which each turn consumes one ([parse_patch_total] proves
    that they return); [walk] gets the size of the tree, and each turn removes a
    node ([walk_from_visits]); [from_utf8_fuel] gets the number of bytes, of
    which each turn consumes one ([from_utf8_Ok]); [detect_shell_type_fuel] gets
    the length of the path, which each turn shortens ([detect_shell_type_eq]);
    [ancestors_fuel] gets the number of components ([ancestors_render]);
    [inline_loop] gets the length of the pending text, from which each turn that
    goes on removes a delimiter ([inline_loop_spec]); [merge_toml_values_at_path]
    gets the depth of the overlay, into which each call descends
    ([merge_at_path_spec]); [remove_connection] gets one round more than there
    are headers, and needs one ([remove_connection_once]).  [descend] gets one round more
    than there are threads, each of which it visits at most once
    ([descend_spec]), and [simplify] one more than there are summaries, of which
    each round drops one ([simplify_spec]).  [unique_loop] gets one round more
    than there are tools, each of which has taken one name
    ([qualify_tools_spec], where the hashes of these rounds differ), and
    [list_pages] as many as there are pages ([list_pages_all]); cursors that
    come back keep it going for ever ([returning_cursors_never_end]).  A retry of an
    operation on the proxy's state is a step of its task; undisturbed, three
    steps are enough ([alone_finishes]).

    ** Parameters

    Code outside the repository is a parameter: the bash grammar and its
    queries ([try_parse_shell], [apply_patch_query]), the PowerShell parser
    process, [shlex], the unified diff of [similar], [serde_json] on strings,
    the Starlark evaluator (as the calls a file makes), the compiler of glob
    patterns, the home directory of [dirs] and the process's current directory,
    the readers of XML and JSON ([WireFormats]), the length of an item in JSON
    and the size of an encoded image, the conversions of TOML to JSON and of JSON
    to bytes, the hash, what reading a directory or a file gives, [{:?}], the matcher of
    wildcards in host names, and the name of the host; the parser of TOML, its
    documents and serde's conversions (the classes [TomlErrors] and
    [ConfigCodec]); for the proxy, the globs
    (the class [Globs] with [GlobLaws]), the parser of URLs, lookups of names,
    the reloader, and the libraries that carry requests (the class [Rama]); for
    agents, their threads ([Threads], [Outcomes]); for the Linux sandbox, what
    mounts show (the class [Mounts]) and the files that [rg] finds; for the approval of network access, the wake-ups of [tokio] (the class
    [Notify]); for MCP, what servers answer, SHA-1 ([sha1_hex]), and [serde_json] on the cache and on
    keys.
    What the operating system says about paths is the class [Host], a snapshot;
    [HostOk] says that its directories are absolute, and [NoSymlinks] restricts
    a theorem to hosts without symbolic links.  The theorems on loading the
    configuration are for a file system that does not change meanwhile
    ([Frozen]).  No theorem assumes more of them
    than its statement says.

    ** Not modelled

    Windows ([cfg(windows)]), the other sandbox mechanisms, the processes of the proxy
    (listeners, certificates, upstream connections), the session loop, the
    servers and the interfaces.  Of the parts above, what is left out is said
    with each in the manifest: mostly calls of services, and the conversions
    between policies and the policies of older versions. *)

From stdpp Require Export base tactics decidable option list gmap strings pretty.
From Stdlib Require Export NArith Lia Permutation Sorting.Sorted.
From Stdlib Require Export Ascii.

(** ** Text

    A Rust [char] is its Unicode scalar value, and a [String] or [&str] is the
    sequence of its scalar values. *)

Abbreviation char := N.
Abbreviation str := (list N).

(** ASCII literals of the source. *)
Definition ch (a : ascii) : N := N_of_ascii a.

Fixpoint lit (s : string) : str :=
  match s with
  | EmptyString => []
  | String a s' => ch a :: lit s'
  end.
Arguments lit _%_string : simpl never.
Arguments ch _%_char : simpl never.

Declare Scope str_scope.
Delimit Scope str_scope with str.
Notation "s =? t" := (bool_decide ((s : str) = (t : str))) (at level 70) : str_scope.

Definition NL : N := 10.
Definition CR : N := 13.

(** ** Results *)

Inductive result (E A : Type) : Type :=
| Ok (a : A)
| Err (e : E).
Arguments Ok {E A} a.
Arguments Err {E A} e.

#[global] Instance result_ret {E} : MRet (result E) := fun A a => Ok a.
#[global] Instance result_bind {E} : MBind (result E) := fun A B f m =>
  match m with Ok a => f a | Err e => Err e end.
#[global] Instance result_fmap {E} : FMap (result E) := fun A B f m =>
  match m with Ok a => Ok (f a) | Err e => Err e end.

Definition map_err {E F A} (f : E -> F) (m : result E A) : result F A :=
  match m with Ok a => Ok a | Err e => Err (f e) end.

Definition is_ok {E A} (m : result E A) : bool :=
  match m with Ok _ => true | Err _ => false end.

#[global] Instance result_eq_dec {E A} `{EqDecision E, EqDecision A} :
  EqDecision (result E A).
Proof. solve_decision. Defined.

Lemma result_bind_Ok {E A B} (f : A -> result E B) (m : result E A) b :
  m ≫= f = Ok b -> exists a, m = Ok a /\ f a = Ok b.
Proof. destruct m; simpl; [eauto | discriminate]. Qed.

Lemma result_bind_Err {E A B} (f : A -> result E B) (m : result E A) e :
  m ≫= f = Err e -> m = Err e \/ exists a, m = Ok a /\ f a = Err e.
Proof. destruct m; simpl; intros H; [right; eauto | left; congruence]. Qed.

Lemma map_err_Ok {E F A} (f : E -> F) (m : result E A) a : map_err f m = Ok a -> m = Ok a.
Proof. destruct m; simpl; congruence. Qed.

(** [collect] of an iterator of results: the first error wins. *)
Fixpoint collect {E A} (l : list (result E A)) : result E (list A) :=
  match l with
  | [] => Ok []
  | r :: l' => a ← r; as' ← collect l'; Ok (a :: as')
  end.

(** ** [str] operations of the Rust standard library *)

Fixpoint strip_prefix (p s : str) : option str :=
  match p, s with
  | [], _ => Some s
  | a :: p', b :: s' => if N.eqb a b then strip_prefix p' s' else None
  | _ :: _, [] => None
  end.

Definition starts_with (s p : str) : bool :=
  match strip_prefix p s with Some _ => true | None => false end.

Definition strip_suffix (p s : str) : option str :=
  match strip_prefix (rev p) (rev s) with Some r => Some (rev r) | None => None end.

Definition ends_with (s p : str) : bool :=
  match strip_suffix p s with Some _ => true | None => false end.

(** The [White_Space] property, as [char::is_whitespace] tests it. *)
Definition is_whitespace (c : N) : bool :=
  ((9 <=? c) && (c <=? 13) || (c =? 32) || (c =? 0x85) || (c =? 0xA0) || (c =? 0x1680)
   || (0x2000 <=? c) && (c <=? 0x200A) || (c =? 0x2028) || (c =? 0x2029)
   || (c =? 0x202F) || (c =? 0x205F) || (c =? 0x3000))%N.

Definition is_ascii_digit (c : N) : bool := ((48 <=? c) && (c <=? 57))%N.

Definition to_ascii_lowercase_char (c : N) : N :=
  if ((65 <=? c) && (c <=? 90))%N then (c + 32)%N else c.
Definition to_ascii_lowercase (s : str) : str := map to_ascii_lowercase_char s.
Definition eq_ignore_ascii_case (s t : str) : bool :=
  (to_ascii_lowercase s =? to_ascii_lowercase t)%str.

Fixpoint drop_while (f : N -> bool) (s : str) : str :=
  match s with
  | [] => []
  | c :: s' => if f c then drop_while f s' else s
  end.

Definition trim_start_matches (f : N -> bool) (s : str) : str := drop_while f s.
Definition trim_end_matches (f : N -> bool) (s : str) : str := rev (drop_while f (rev s)).
Definition trim_start (s : str) : str := trim_start_matches is_whitespace s.
Definition trim_end (s : str) : str := trim_end_matches is_whitespace s.
Definition trim (s : str) : str := trim_start (trim_end s).

Definition is_empty {A} (l : list A) : bool := match l with [] => true | _ => false end.

(** [s.split(c)] *)
Fixpoint split_char (c : N) (s : str) : list str :=
  match s with
  | [] => [[]]
  | x :: s' =>
      if N.eqb x c then [] :: split_char c s'
      else match split_char c s' with
           | h :: t => (x :: h) :: t
           | [] => [[x]]
           end
  end.

(** [v.join(sep)] *)
Fixpoint join (sep : str) (l : list str) : str :=
  match l with
  | [] => []
  | [s] => s
  | s :: l' => s ++ sep ++ join sep l'
  end.

(** [s.lines()]: the pieces ended by a line feed lose it, and a carriage
    return just before it; the last piece is kept as it is, unless empty. *)
Definition strip_cr (s : str) : str :=
  match strip_suffix [CR] s with Some r => r | None => s end.

Fixpoint lines_of_pieces (l : list str) : list str :=
  match l with
  | [] => []
  | [last] => if is_empty last then [] else [last]
  | s :: l' => strip_cr s :: lines_of_pieces l'
  end.

Definition lines (s : str) : list str := lines_of_pieces (split_char NL s).

(** [s.contains(c)] and [s.contains(t)] *)
Definition contains_char (s : str) (c : N) : bool := existsb (N.eqb c) s.

Fixpoint contains (s t : str) : bool :=
  starts_with s t || match s with [] => false | _ :: s' => contains s' t end.

(** [s.split_once(c)] and [s.rsplit_once(c)] *)
Fixpoint split_once (c : N) (s : str) : option (str * str) :=
  match s with
  | [] => None
  | x :: s' =>
      if N.eqb x c then Some ([], s')
      else match split_once c s' with Some (a, b) => Some (x :: a, b) | None => None end
  end.

(** [str::find] with a predicate on characters, in characters *)
Fixpoint find_index (f : N -> bool) (s : str) : option nat :=
  match s with
  | [] => None
  | c :: s => if f c then Some 0 else S <$> find_index f s
  end.

(** The last index of a character with the property. *)
Definition rfind_index (f : N -> bool) (s : str) : option nat :=
  (fun i => length s - 1 - i) <$> find_index f (rev s).

Definition rsplit_once (c : N) (s : str) : option (str * str) :=
  match split_once c (rev s) with Some (a, b) => Some (rev b, rev a) | None => None end.

Definition show_nat (n : nat) : str := lit (pretty n).

(** ** Stable sorting, as [slice::sort_by] *)

Section sorting.
Context {A : Type} (leb : A -> A -> bool).

Fixpoint insert_sorted (x : A) (l : list A) : list A :=
  match l with
  | [] => [x]
  | y :: l' => if leb x y then x :: y :: l' else y :: insert_sorted x l'
  end.

Definition sort_by (l : list A) : list A := foldr insert_sorted [] l.

Lemma insert_sorted_perm x l : insert_sorted x l ≡ₚ x :: l.
Proof.
  induction l as [|y l IH]; simpl; [done|].
  destruct (leb x y); [done|]. rewrite IH. constructor.
Qed.

Lemma sort_by_perm l : sort_by l ≡ₚ l.
Proof. induction l as [|x l IH]; simpl; [done|]. by rewrite insert_sorted_perm, IH. Qed.

Context (leb_total : forall x y, leb x y = true \/ leb y x = true)
        (leb_trans : forall x y z, leb x y = true -> leb y z = true -> leb x z = true).

Lemma insert_sorted_sorted x l :
  StronglySorted (fun a b => leb a b = true) l ->
  StronglySorted (fun a b => leb a b = true) (insert_sorted x l).
Proof.
  induction 1 as [|y l Hl IH Hy]; simpl; [repeat constructor|].
  destruct (leb x y) eqn:Hxy.
  - constructor; [by constructor|]. constructor; [done|].
    eapply Forall_impl; [exact Hy|]. eauto.
  - constructor; [done|]. rewrite insert_sorted_perm. constructor; [|done].
    destruct (leb_total x y); congruence.
Qed.

Lemma sort_by_sorted l : StronglySorted (fun a b => leb a b = true) (sort_by l).
Proof. induction l; simpl; [constructor|]. by apply insert_sorted_sorted. Qed.
End sorting.

(** A sorted list is left alone. *)
Lemma insert_sorted_le {A} (leb : A -> A -> bool) x l :
  Forall (fun y => leb x y = true) l -> insert_sorted leb x l = x :: l.
Proof. destruct 1 as [|y l Hy _]; simpl; [done|]. by rewrite Hy. Qed.

Lemma sort_by_id {A} (leb : A -> A -> bool) l :
  StronglySorted (fun a b => leb a b = true) l -> sort_by leb l = l.
Proof.
  induction 1 as [|x l Hl IH Hx]; simpl; [done|].
  rewrite IH. by apply insert_sorted_le.
Qed.

(** ** Lemmas on text *)

Lemma strip_prefix_app p s : strip_prefix p (p ++ s) = Some s.
Proof. induction p as [|a p IH]; simpl; [done|]. by rewrite N.eqb_refl. Qed.

Lemma strip_prefix_Some p s r : strip_prefix p s = Some r <-> s = p ++ r.
Proof.
  split; [|intros ->; apply strip_prefix_app].
  revert s; induction p as [|a p IH]; intros [|b s]; simpl; intros H; simplify_eq; try done.
  destruct (N.eqb_spec a b) as [->|]; [|done]. f_equal. by apply IH.
Qed.

Lemma strip_prefix_None p s : strip_prefix p s = None <-> forall r, s <> p ++ r.
Proof.
  split.
  - intros H r ->. by rewrite strip_prefix_app in H.
  - intros H. destruct (strip_prefix p s) as [r|] eqn:E; [|done].
    apply strip_prefix_Some in E. by destruct (H r).
Qed.

Lemma starts_with_true s p : starts_with s p = true <-> exists r, s = p ++ r.
Proof.
  unfold starts_with. destruct (strip_prefix p s) as [r|] eqn:E.
  - apply strip_prefix_Some in E. split; eauto.
  - split; [done|]. intros [r ->]. by rewrite strip_prefix_app in E.
Qed.

Lemma strip_suffix_Some p s r : strip_suffix p s = Some r <-> s = r ++ p.
Proof.
  unfold strip_suffix. destruct (strip_prefix (rev p) (rev s)) as [q|] eqn:E.
  - apply strip_prefix_Some in E. apply (f_equal (@rev N)) in E.
    rewrite rev_involutive, rev_app_distr, rev_involutive in E. subst s.
    split; [intros [= <-]; done|]. intros H%app_inv_tail. by subst.
  - split; [done|]. intros ->. rewrite rev_app_distr, strip_prefix_app in E. done.
Qed.

Lemma split_char_not_nil c s : split_char c s <> [].
Proof. destruct s; simpl; [done|]. repeat case_match; done. Qed.

Lemma split_char_none c s : c ∉ s -> split_char c s = [s].
Proof.
  induction s as [|x s IH]; simpl; [done|]. intros H.
  rewrite not_elem_of_cons in H. destruct H as [Hx H].
  destruct (N.eqb_spec x c); [by subst|]. by rewrite (IH H).
Qed.

Lemma split_char_app_sep c s t :
  c ∉ s -> split_char c (s ++ c :: t) = s :: split_char c t.
Proof.
  induction s as [|x s IH]; simpl; intros H.
  - by rewrite N.eqb_refl.
  - rewrite not_elem_of_cons in H. destruct H as [Hx H].
    destruct (N.eqb_spec x c); [by subst|]. by rewrite (IH H).
Qed.

(** Splitting what was joined gives the pieces back. *)
Lemma split_char_join c l :
  l <> [] -> Forall (fun s => c ∉ s) l -> split_char c (join [c] l) = l.
Proof.
  induction l as [|s l IH]; [done|]. intros _ [Hs Hl]%Forall_cons.
  destruct l as [|t l]; simpl; [by apply split_char_none|].
  rewrite split_char_app_sep by done. f_equal. by apply IH.
Qed.

Lemma drop_while_id f s :
  match s with [] => True | c :: _ => f c = false end -> drop_while f s = s.
Proof. destruct s; simpl; [done|]. by intros ->. Qed.

Lemma drop_while_idemp f s : drop_while f (drop_while f s) = drop_while f s.
Proof. induction s as [|c s IH]; simpl; [done|]. destruct (f c) eqn:E; [done|]. simpl. by rewrite E. Qed.

Lemma drop_while_suffix f s : exists p, s = p ++ drop_while f s /\ Forall (fun c => f c = true) p.
Proof.
  induction s as [|c s [p [IH Hp]]]; simpl; [by exists []|].
  destruct (f c) eqn:E; [|by exists []]. exists (c :: p). simpl. rewrite <- IH. auto.
Qed.

Lemma split_char_Forall c s : Forall (fun t => c ∉ t) (split_char c s).
Proof.
  induction s as [|x s IH]; simpl; [repeat constructor; by intros ?%elem_of_nil|].
  destruct (N.eqb_spec x c) as [->|Hx].
  - constructor; [by intros ?%elem_of_nil | done].
  - destruct (split_char c s) as [|h t].
    + repeat constructor. intros [->|?%elem_of_nil]%elem_of_cons; done.
    + apply Forall_cons in IH as [Hh Ht]. constructor; [|done].
      intros [->|?]%elem_of_cons; done.
Qed.

Lemma join_app_cons sep l s t :
  join sep (l ++ [s; t]) = join sep (l ++ [s]) ++ sep ++ t.
Proof.
  induction l as [|x l IH]; simpl; [done|].
  destruct l as [|y l]; simpl in *; [by rewrite <- !app_assoc|].
  rewrite IH. by rewrite <- !app_assoc.
Qed.

Lemma join_snoc sep l s : l <> [] -> join sep (l ++ [s]) = join sep l ++ sep ++ s.
Proof.
  intros Hl. destruct (exists_last Hl) as (l' & t & ->).
  rewrite <- app_assoc. apply join_app_cons.
Qed.

(** ** Automation *)

(** Case analysis on every [match] and [if] in sight, with the obvious
    simplifications, as the definitions' proofs need it. *)
Ltac cases :=
  repeat (case_match; simplify_eq/=; try done).

(** Turn boolean hypotheses about [bool_decide], [N.eqb], [Nat.leb]... into
    propositions. *)
Ltac bool_to_prop :=
  repeat match goal with
  | H : bool_decide _ = true |- _ => apply bool_decide_eq_true in H
  | H : bool_decide _ = false |- _ => apply bool_decide_eq_false in H
  | H : _ && _ = true |- _ => apply andb_true_iff in H as [? ?]
  | H : _ || _ = false |- _ => apply orb_false_iff in H as [? ?]
  | H : negb _ = true |- _ => apply negb_true_iff in H
  | H : negb _ = false |- _ => apply negb_false_iff in H
  | H : N.eqb _ _ = true |- _ => apply N.eqb_eq in H
  | H : N.eqb _ _ = false |- _ => apply N.eqb_neq in H
  | H : Nat.eqb _ _ = true |- _ => apply Nat.eqb_eq in H
  | H : Nat.eqb _ _ = false |- _ => apply Nat.eqb_neq in H
  | H : Nat.leb _ _ = true |- _ => apply Nat.leb_le in H
  | H : Nat.leb _ _ = false |- _ => apply Nat.leb_gt in H
  | H : Nat.ltb _ _ = true |- _ => apply Nat.ltb_lt in H
  | H : Nat.ltb _ _ = false |- _ => apply Nat.ltb_ge in H
  end.

Create HintDb text.
#[export] Hint Resolve strip_prefix_app split_char_not_nil split_char_Forall : text.
#[export] Hint Rewrite strip_prefix_app drop_while_idemp : text.

Lemma split_char_app c s t :
  split_char c (s ++ c :: t) = split_char c s ++ split_char c t.
Proof.
  induction s as [|x s IH]; simpl.
  - by rewrite N.eqb_refl.
  - rewrite IH. destruct (N.eqb x c); [done|].
    destruct (split_char c s) eqn:E; [|done]. by apply split_char_not_nil in E.
Qed.

#[global] Arguments strip_prefix : simpl never.
#[global] Arguments strip_suffix : simpl never.
#[global] Arguments starts_with : simpl never.
#[global] Arguments ends_with : simpl never.
#[global] Arguments trim : simpl never.
#[global] Arguments is_whitespace : simpl never.

Lemma bind_list_cons {A B} (f : A -> list B) x l : (x :: l) ≫= f = f x ++ (l ≫= f).
Proof. done. Qed.

(** ** Joining and splitting lines *)

(** A line that [lines] gives back as it is. *)
Definition wf_line (s : str) : Prop := NL ∉ s /\ last s <> Some CR.

#[global] Instance wf_line_dec s : Decision (wf_line s).
Proof. unfold wf_line. apply _. Defined.

Lemma strip_cr_id s : last s <> Some CR -> strip_cr s = s.
Proof.
  unfold strip_cr. intros H. destruct (strip_suffix [CR] s) as [r|] eqn:E; [|done].
  apply strip_suffix_Some in E. subst s. by rewrite last_snoc in H.
Qed.

Lemma lines_join l :
  Forall wf_line l -> last l <> Some [] -> lines (join [NL] l) = l.
Proof.
  intros Hl Hlast. unfold lines. destruct l as [|s l]; [done|].
  rewrite split_char_join; [|done|by eapply Forall_impl; [exact Hl|]; intros ? []].
  revert s Hl Hlast. induction l as [|t l IH]; intros s Hl Hlast.
  - simpl. destruct s; done.
  - apply Forall_cons in Hl as [[_ Hs] Hl]. cbn [lines_of_pieces].
    rewrite strip_cr_id by done. f_equal. apply IH; [done|]. by rewrite last_cons_cons in Hlast.
Qed.

Lemma trim_id s :
  match head s, last s with
  | Some a, Some z => is_whitespace a = false /\ is_whitespace z = false
  | _, _ => True
  end -> trim s = s.
Proof.
  destruct s as [|a s] using rev_ind; [done|]. intros H. rewrite last_snoc in H.
  unfold trim, trim_start, trim_end, trim_start_matches, trim_end_matches.
  assert (drop_while is_whitespace (rev (s ++ [a])) = rev (s ++ [a])) as ->.
  { apply drop_while_id. rewrite rev_app_distr. simpl.
    destruct s; simpl in H; by destruct H. }
  rewrite rev_involutive. apply drop_while_id. destruct s; simpl in *; by destruct H.
Qed.

(** A non-blank character keeps a line from being blank. *)
Lemma trim_not_nil c s : is_whitespace c = false -> trim (c :: s) <> [].
Proof.
  intros Hc. unfold trim, trim_start, trim_end, trim_start_matches, trim_end_matches.
  destruct (drop_while_suffix is_whitespace (rev (c :: s))) as (p & E & Hp).
  simpl rev in E at 1.
  destruct (drop_while is_whitespace (rev (c :: s))) as [|x l] eqn:D.
  - rewrite app_nil_r in E. rewrite <- E in Hp. apply Forall_app in Hp as [_ Hp].
    apply Forall_cons in Hp as [Hp _]. congruence.
  - destruct (exists_last (l := x :: l)) as (l' & y & El); [done|].
    rewrite El in E. rewrite app_assoc in E. apply app_inj_tail in E as [_ <-].
    rewrite El, rev_app_distr. simpl. by rewrite Hc.
Qed.

(** [matches!(s, "a" | "b" | ..)] and [l.contains(&s)] *)
Definition one_of (s : str) (l : list str) : bool := existsb (fun t => bool_decide (s = t)) l.

Lemma one_of_In s l : one_of s l = true <-> s ∈ l.
Proof.
  unfold one_of. rewrite existsb_exists. split.
  - intros (t & Hin & Ht). apply bool_decide_eq_true in Ht as ->. by apply list_elem_of_In.
  - intros H. exists s. split; [by apply list_elem_of_In|]. by apply bool_decide_eq_true.
Qed.
#[global] Arguments one_of : simpl never.

Lemma elem_of_filter_list {A} (f : A -> bool) l x : x ∈ List.filter f l <-> x ∈ l /\ f x = true.
Proof. rewrite !list_elem_of_In. apply filter_In. Qed.

Lemma is_empty_false {A} (l : list A) : is_empty l = false <-> l <> [].
Proof. by destruct l. Qed.

Lemma contains_char_spec s c : contains_char s c = true <-> c ∈ s.
Proof.
  unfold contains_char. rewrite existsb_exists. setoid_rewrite <- list_elem_of_In.
  setoid_rewrite N.eqb_eq. naive_solver.
Qed.

Lemma join_split_char c s : join [c] (split_char c s) = s.
Proof.
  induction s as [|x s IH]; simpl; [done|]. destruct (N.eqb_spec x c) as [->|].
  - destruct (split_char c s) as [|h t] eqn:E; [by apply split_char_not_nil in E|].
    cbn [join] in *. by rewrite <- IH.
  - destruct (split_char c s) as [|h t] eqn:E; [by apply split_char_not_nil in E|].
    rewrite <- IH. by destruct t.
Qed.

(** ** Splitting at a character *)

Lemma split_once_Some c s a b : split_once c s = Some (a, b) -> s = a ++ c :: b.
Proof.
  revert a. induction s as [|x s IH]; intros a; simpl; [done|].
  destruct (N.eqb_spec x c) as [->|]; [by intros [= <- <-]|].
  destruct (split_once c s) as [[a' b']|]; [|done]. intros [= <- <-]. simpl. f_equal. by apply IH.
Qed.

Lemma rsplit_once_Some c s a b : rsplit_once c s = Some (a, b) -> s = a ++ c :: b.
Proof.
  unfold rsplit_once. destruct (split_once c (rev s)) as [[a' b']|] eqn:E; [|done].
  intros [= <- <-]. apply split_once_Some, (f_equal (@rev N)) in E.
  rewrite rev_involutive, rev_app_distr in E. rewrite E. simpl. by rewrite <- app_assoc.
Qed.

(** ** Orders *)

(** [Ord] on [String] *)
Fixpoint str_leb (a b : str) : bool :=
  match a, b with
  | [], _ => true
  | _ :: _, [] => false
  | x :: a, y :: b => if N.eqb x y then str_leb a b else N.leb x y
  end.

(** [Vec::dedup] *)
Fixpoint dedup {A} `{EqDecision A} (l : list A) : list A :=
  match l with
  | [] => []
  | x :: l' =>
      match l' with
      | [] => [x]
      | y :: _ => if bool_decide (x = y) then dedup l' else x :: dedup l'
      end
  end.

Lemma elem_of_vec_dedup {A} `{EqDecision A} (l : list A) x : x ∈ dedup l <-> x ∈ l.
Proof.
  induction l as [|y l IH]; [done|]. destruct l as [|z l]; [done|]. cbn [dedup] in IH |- *.
  destruct (bool_decide_reflect (y = z)) as [->|_].
  - rewrite IH, !elem_of_cons. tauto.
  - rewrite (elem_of_cons _ x y), (elem_of_cons (z :: l) x y). by rewrite IH.
Qed.

Lemma filter_true_all {A} (l : list A) : List.filter (fun _ => true) l = l.
Proof. induction l as [|x l IH]; simpl; [done|]. by rewrite IH. Qed.

Lemma bool_filter_sublist {A} (f : A -> bool) l : List.filter f l `sublist_of` l.
Proof. induction l as [|x l IH]; simpl; [done|]. destruct (f x); by constructor. Qed.

(** The first result of [f] is also the first of a function with fewer. *)
Lemma head_omap_sub {A B} (f g : A -> option B) l r :
  (forall x r', x ∈ l -> g x = Some r' -> f x = Some r') ->
  (forall x, x ∈ l -> f x = Some r -> g x = Some r) ->
  head (omap f l) = Some r -> head (omap g l) = Some r.
Proof.
  intros Hgf Hfg. induction l as [|x l IH]; [done|]. cbn.
  destruct (f x) as [r'|] eqn:Ef.
  - cbn. intros [= ->]. by rewrite (Hfg x (list_elem_of_here _ _) Ef).
  - destruct (g x) as [r'|] eqn:Eg; [by rewrite (Hgf x r' (list_elem_of_here _ _) Eg) in Ef|].
    apply IH; intros; [apply Hgf|apply Hfg]; (done || by right).
Qed.

(** [Iterator::max_by]: the last of the greatest. *)
Definition max_by {A} (leb : A -> A -> bool) (l : list A) : option A :=
  foldl (fun best x => match best with
                       | None => Some x
                       | Some b => if leb b x then Some x else Some b
                       end) None l.

Section max_by.
Context {A : Type} (leb : A -> A -> bool).
Hypothesis leb_refl : forall x, leb x x = true.
Hypothesis leb_trans : forall x y z, leb x y = true -> leb y z = true -> leb x z = true.
Hypothesis leb_total : forall x y, leb x y = false -> leb y x = true.

Lemma max_by_snoc l x :
  max_by leb (l ++ [x]) = match max_by leb l with
                          | None => Some x
                          | Some b => if leb b x then Some x else Some b
                          end.
Proof. unfold max_by. by rewrite foldl_app. Qed.

Lemma max_by_None l : max_by leb l = None <-> l = [].
Proof.
  split; [|by intros ->]. destruct l as [|y l] using rev_ind; [done|]. rewrite max_by_snoc.
  destruct (max_by leb l); [|done]. by destruct (leb _ _).
Qed.

Lemma max_by_Some l m : max_by leb l = Some m -> m ∈ l /\ forall x, x ∈ l -> leb x m = true.
Proof.
  revert m. induction l as [|y l IH] using rev_ind; intros m; [done|]. rewrite max_by_snoc.
  assert (forall b, max_by leb l = Some b -> leb b y = true -> Some y = Some m ->
            m ∈ l ++ [y] /\ forall x, x ∈ l ++ [y] -> leb x m = true) as Hnew.
  { intros b Hb Hle [= <-]. split; [apply elem_of_app; right; by left|].
    intros x [Hx| ->%list_elem_of_singleton]%elem_of_app; [|done].
    destruct (IH b Hb) as [_ Hb']. eauto. }
  destruct (max_by leb l) as [b|] eqn:E.
  - destruct (leb b y) eqn:Ey; [by eauto|]. intros [= <-]. destruct (IH b eq_refl) as [Hin Hb]. split.
    + apply elem_of_app. by left.
    + intros x [Hx| ->%list_elem_of_singleton]%elem_of_app; [auto|]. by apply leb_total.
  - apply max_by_None in E as ->. intros [= <-]. split; [by left|]. by intros x ->%list_elem_of_singleton.
Qed.
End max_by.
