(* ===== verification/Decimal.v ===== *)
(** * Decimal: numbers as text

    The display of numbers and [str::parse] for [u16]. *)

From S2P Require Import Prelude.
Local Open Scope str_scope.

Lemma pretty_N_go_digits x s : Forall (fun c => is_ascii_digit c = true) (lit s) ->
  Forall (fun c => is_ascii_digit c = true) (lit (pretty_N_go x s)).
Proof.
  revert s. induction (N.lt_wf_0 x) as [x _ IH]. intros s Hs.
  destruct (decide (x = 0%N)) as [->|N0]; [by rewrite pretty_N_go_0|].
  rewrite pretty_N_go_step by lia. apply IH; [apply N.div_lt; lia|].
  simpl. constructor; [|done].
  unfold pretty_N_char. assert (x `mod` 10 < 10)%N as H by (apply N.mod_lt; lia). revert H.
  generalize (x `mod` 10)%N. intros m H. repeat case_match; done.
Qed.

Lemma show_N_digits (n : N) : Forall (fun c => is_ascii_digit c = true) (lit (pretty n)).
Proof.
  unfold pretty, pretty_N. destruct (decide _); [by repeat constructor|]. by apply pretty_N_go_digits.
Qed.

(** The value of decimal digits behind a number *)
Definition decimal (n : N) (s : str) : N := fold_left (fun n c => 10 * n + (c - ch "0"))%N s n.

Lemma pretty_char_value m : (m < 10)%N -> (N_of_ascii (pretty_N_char m) - ch "0")%N = m.
Proof.
  intros H. assert (forall k, (k < 10)%nat -> (N_of_ascii (pretty_N_char (N.of_nat k)) - ch "0")%N = N.of_nat k) as Hk.
  { intros k Hk. do 10 (destruct k as [|k]; [reflexivity|]). lia. }
  rewrite <- (N2Nat.id m). apply Hk. lia.
Qed.

Lemma decimal_go x s : decimal 0 (lit (pretty_N_go x s)) = decimal x (lit s).
Proof.
  revert s. induction (N.lt_wf_0 x) as [x _ IH]. intros s.
  destruct (decide (x = 0%N)) as [->|N0]; [by rewrite pretty_N_go_0|].
  rewrite pretty_N_go_step, IH by (try apply N.div_lt; lia). unfold decimal. simpl. f_equal.
  rewrite pretty_char_value by (apply N.mod_lt; lia). symmetry. apply N.div_mod. lia.
Qed.

Lemma decimal_show (n : N) : decimal 0 (lit (pretty n)) = n.
Proof. unfold pretty, pretty_N. destruct (decide _) as [->|N0]; [reflexivity|]. apply decimal_go. Qed.

(** [str::parse::<u16>], which takes a sign in front of digits *)
Definition parse_u16 (s : str) : option N :=
  let digits := match s with c :: s' => if N.eqb c (ch "+") && negb (is_empty s') then s' else s | [] => s end in
  if is_empty digits then None
  else if forallb is_ascii_digit digits then
    let n := decimal 0 digits in if (n <=? 65535)%N then Some n else None
  else None.

Lemma show_N_not_empty (n : N) : lit (pretty n) <> [].
Proof.
  unfold pretty, pretty_N. destruct (decide _) as [->|N0]; [done|]. intros E.
  pose proof (decimal_go n "") as D. rewrite E in D. simpl in D. unfold decimal in D. simpl in D. congruence.
Qed.

Lemma parse_u16_show (n : N) : (n <= 65535)%N -> parse_u16 (lit (pretty n)) = Some n.
Proof.
  intros Hn. pose proof (show_N_digits n) as Hd. pose proof (show_N_not_empty n) as He.
  pose proof (decimal_show n) as Hv. unfold parse_u16. destruct (lit (pretty n)) as [|c s] eqn:E; [done|].
  assert (N.eqb c (ch "+") = false) as ->.
  { apply Forall_cons in Hd as [Hc _]. by destruct (N.eqb_spec c (ch "+")) as [->|]. }
  cbn [andb is_empty]. rewrite (proj2 (forallb_forall _ _)).
  - rewrite Hv. by rewrite (proj2 (N.leb_le n 65535)).
  - intros x Hx. rewrite Forall_forall in Hd. apply Hd. by apply list_elem_of_In.
Qed.
