(* ===== verification/Trim.v ===== *)
(** * Trim: [str::trim] and its two halves

    What [trim_start] and [trim_end] do to a text made of parts. *)

From S2P Require Import Prelude.
Local Open Scope str_scope.

Lemma drop_while_app f s t :
  drop_while f s <> [] -> drop_while f (s ++ t) = drop_while f s ++ t.
Proof. induction s as [|c s IH]; simpl; [done|]. by destruct (f c). Qed.

Lemma trim_start_app s t : trim_start s <> [] -> trim_start (s ++ t) = trim_start s ++ t.
Proof. apply drop_while_app. Qed.

Lemma rev_nil {A} (l : list A) : rev l = [] -> l = [].
Proof. intros H. apply (f_equal (@rev A)) in H. by rewrite rev_involutive in H. Qed.

Lemma trim_end_app s t : trim_end t <> [] -> trim_end (s ++ t) = s ++ trim_end t.
Proof.
  unfold trim_end, trim_end_matches. intros H. rewrite rev_app_distr, drop_while_app.
  - by rewrite rev_app_distr, rev_involutive.
  - intros E. by rewrite E in H.
Qed.

Lemma trim_start_nil s : trim_start s = [] <-> Forall (fun c => is_whitespace c = true) s.
Proof.
  unfold trim_start, trim_start_matches. induction s as [|c s IH]; simpl; [by split|].
  rewrite Forall_cons. destruct (is_whitespace c); [tauto|]. split; [done|]. by intros [].
Qed.

Lemma Forall_rev_iff {A} (P : A -> Prop) l : Forall P (rev l) <-> Forall P l.
Proof. by rewrite <- (Permutation_rev l). Qed.

Lemma trim_end_nil s : trim_end s = [] <-> Forall (fun c => is_whitespace c = true) s.
Proof.
  unfold trim_end, trim_end_matches. rewrite <- Forall_rev_iff, <- trim_start_nil.
  split; [apply rev_nil|]. intros H. unfold trim_start, trim_start_matches in H. by rewrite H.
Qed.

Lemma drop_while_Forall (P : N -> Prop) f s : Forall P s -> Forall P (drop_while f s).
Proof. induction 1 as [|c s Hc Hs IH]; simpl; [done|]. destruct (f c); [done|by constructor]. Qed.

Lemma trim_start_Forall (P : N -> Prop) s : Forall P s -> Forall P (trim_start s).
Proof. apply drop_while_Forall. Qed.

Lemma trim_end_Forall (P : N -> Prop) s : Forall P s -> Forall P (trim_end s).
Proof. intros H. by apply Forall_rev_iff, drop_while_Forall, Forall_rev_iff. Qed.

(** A text whose trimming is not empty keeps something at both ends. *)
Lemma trim_not_nil_sides s : trim s <> [] -> trim_start s <> [] /\ trim_end s <> [].
Proof.
  unfold trim. intros H. split; intros E.
  - apply H. apply trim_start_nil, trim_end_Forall. by apply trim_start_nil.
  - by rewrite E in H.
Qed.

Lemma trim_end_idemp s : trim_end (trim_end s) = trim_end s.
Proof. unfold trim_end, trim_end_matches. by rewrite rev_involutive, drop_while_idemp. Qed.

Lemma trim_of_trim_end s : trim (trim_end s) = trim s.
Proof. unfold trim. by rewrite trim_end_idemp. Qed.

(** The two ends do not interfere. *)
Lemma trim_start_of_trim_end s : trim_start s <> [] ->
  trim_end (trim_start s) = trim_start (trim_end s).
Proof.
  destruct (drop_while_suffix is_whitespace s) as (p & E & Hp). intros Hne.
  fold (trim_start_matches is_whitespace s) in E. fold (trim_start s) in E.
  assert (trim_end (trim_start s) <> []) as Hne'.
  { intros E'. apply Hne. apply trim_end_nil in E'.
    apply trim_start_nil. rewrite E. apply Forall_app. split; [done|]. done. }
  rewrite E at 2. rewrite trim_end_app by done.
  remember (trim_start s) as u eqn:Hu.
  assert (trim_start u = u) as Hid by (subst u; apply drop_while_idemp).
  assert (forall t, t <> [] -> trim_start t = t -> trim_start (p ++ t) = t) as Hskip.
  { clear -Hp. intros t Ht Hid. induction Hp as [|c p Hc Hp IH]; [done|].
    unfold trim_start, trim_start_matches in *. simpl. by rewrite Hc. }
  symmetry. apply Hskip; [done|].
  destruct u as [|c u]; [done|].
  assert (is_whitespace c = false) as Hc.
  { destruct (is_whitespace c) eqn:Ec; [|done]. exfalso.
    unfold trim_start, trim_start_matches in Hid. simpl in Hid. rewrite Ec in Hid.
    apply (f_equal length) in Hid. simpl in Hid.
    destruct (drop_while_suffix is_whitespace u) as (p' & E' & _).
    apply (f_equal length) in E'. rewrite length_app in E'. lia. }
  unfold trim_end, trim_end_matches. cbn [rev].
  destruct (decide (trim_end u = [])) as [Hu0|Hu0].
  - assert (Forall (fun x => is_whitespace x = true) (rev u)) as Hw by (by apply Forall_rev_iff, trim_end_nil).
    assert (drop_while is_whitespace (rev u ++ [c]) = [c]) as ->.
    { clear -Hw Hc. induction Hw as [|x l Hx _ IH]; simpl; [by rewrite Hc|by rewrite Hx]. }
    unfold trim_start, trim_start_matches. simpl. by rewrite Hc.
  - rewrite drop_while_app.
    + rewrite rev_app_distr. unfold trim_start, trim_start_matches. simpl. by rewrite Hc.
    + intros E'. apply Hu0. unfold trim_end, trim_end_matches. by rewrite E'.
Qed.

Lemma trim_of_trim_start s : trim_start s <> [] -> trim (trim_start s) = trim s.
Proof.
  intros H. unfold trim. rewrite trim_start_of_trim_end by done. apply drop_while_idemp.
Qed.

Lemma trim_end_cut s : exists p, s = trim_end s ++ p.
Proof.
  destruct (drop_while_suffix is_whitespace (rev s)) as (p & E & _). exists (rev p).
  apply (f_equal (@rev N)) in E. by rewrite rev_involutive, rev_app_distr in E.
Qed.

Lemma trim_end_app_white s t : trim_end t = [] -> trim_end (s ++ t) = trim_end s.
Proof.
  intros Ht%trim_end_nil%Forall_rev_iff. unfold trim_end, trim_end_matches. f_equal.
  rewrite rev_app_distr. induction Ht as [|c l Hc _ IH]; [done|]. cbn. by rewrite Hc.
Qed.

(** A trimmed text stays a prefix of the trimmed text when it grows. *)
Lemma trim_end_prefix s t : exists r, trim_end (s ++ t) = trim_end s ++ r.
Proof.
  destruct (decide (trim_end t = [])) as [Ht|Ht].
  - exists []. by rewrite app_nil_r, trim_end_app_white.
  - destruct (trim_end_cut s) as [p Hp]. exists (p ++ trim_end t). by rewrite trim_end_app, app_assoc, <- Hp.
Qed.

Lemma trim_idemp s : trim (trim s) = trim s.
Proof.
  destruct (decide (trim_start (trim_end s) = [])) as [E|E]; [unfold trim at 2 3; by rewrite E|].
  change (trim s) with (trim_start (trim_end s)) at 1. by rewrite trim_of_trim_start, trim_of_trim_end.
Qed.
