(* ===== verification/TextSearch.v ===== *)
(** * TextSearch: [str::find] and [Iterator::min_by]

    The search functions of the standard library that the stream parsers use,
    and what they find in a text that grows. *)

From S2P Require Import Prelude.

(** [Iterator::min_by]: the first of the least. *)
Definition min_by {A} (leb : A -> A -> bool) (l : list A) : option A :=
  foldl (fun best x => match best with
                       | None => Some x
                       | Some b => if leb b x then Some b else Some x
                       end) None l.

Section min_by.
Context {A : Type} (leb : A -> A -> bool).
Hypothesis leb_refl : forall x, leb x x = true.
Hypothesis leb_trans : forall x y z, leb x y = true -> leb y z = true -> leb x z = true.
Hypothesis leb_total : forall x y, leb x y = false -> leb y x = true.

Lemma min_by_snoc l x :
  min_by leb (l ++ [x]) = match min_by leb l with
                          | None => Some x
                          | Some b => if leb b x then Some b else Some x
                          end.
Proof. unfold min_by. by rewrite foldl_app. Qed.

Lemma min_by_None l : min_by leb l = None <-> l = [].
Proof.
  split; [|by intros ->]. destruct l as [|y l] using rev_ind; [done|]. rewrite min_by_snoc.
  destruct (min_by leb l); [|done]. by destruct (leb _ _).
Qed.

Lemma min_by_Some l m : min_by leb l = Some m -> m ∈ l /\ forall x, x ∈ l -> leb m x = true.
Proof.
  revert m. induction l as [|y l IH] using rev_ind; intros m; [done|]. rewrite min_by_snoc.
  destruct (min_by leb l) as [b|] eqn:E.
  - destruct (IH b eq_refl) as [Hin Hb]. destruct (leb b y) eqn:Ey; intros [= <-]; (split; [apply elem_of_app; auto using list_elem_of_here|]);
      intros x [Hx| ->%list_elem_of_singleton]%elem_of_app; auto.
    apply (leb_trans _ b); [by apply leb_total|auto].
  - apply min_by_None in E as ->. intros [= <-]. split; [by left|]. by intros x ->%list_elem_of_singleton.
Qed.
End min_by.

(** ** Searching text *)

Lemma ends_with_true s p : ends_with s p = true <-> exists r, s = r ++ p.
Proof.
  unfold ends_with. destruct (strip_suffix p s) as [r|] eqn:E.
  - apply strip_suffix_Some in E. split; eauto.
  - split; [done|]. intros [r Hr]. apply strip_suffix_Some in Hr. congruence.
Qed.

(** [str::find]; positions count scalar values, not bytes. *)
Fixpoint str_find (needle s : str) : option nat :=
  if starts_with s needle then Some 0
  else match s with [] => None | _ :: s => S <$> str_find needle s end.

(** [needle] is in [s] at [i]. *)
Definition occurs (needle s : str) (i : nat) : Prop := exists r, drop i s = needle ++ r.

Section find.
Context (needle : str).
Hypothesis needle_not_nil : needle <> [].

Lemma occurs_length s i : occurs needle s i -> i + length needle <= length s.
Proof.
  intros [r Hr]. apply (f_equal length) in Hr. rewrite length_drop, length_app in Hr.
  destruct needle; [done|]. simpl in *. lia.
Qed.

Lemma str_find_None s : str_find needle s = None <-> forall i, ~ occurs needle s i.
Proof.
  induction s as [|c s IH]; cbn [str_find].
  - destruct (starts_with [] needle) eqn:E.
    + apply starts_with_true in E as [r Hr]. by destruct needle.
    + split; [|done]. intros _ i [r Hr]. rewrite drop_nil in Hr. by destruct needle.
  - destruct (starts_with (c :: s) needle) eqn:E.
    + apply starts_with_true in E. split; [done|]. intros H. by destruct (H 0).
    + rewrite fmap_None, IH. split.
      * intros H [|i]; [|apply H]. intros Ho%starts_with_true. cbn [drop] in Ho. congruence.
      * intros H i. apply (H (S i)).
Qed.

Lemma str_find_Some s i :
  str_find needle s = Some i <-> occurs needle s i /\ forall j, j < i -> ~ occurs needle s j.
Proof.
  revert i. induction s as [|c s IH]; intros i; cbn [str_find].
  - destruct (starts_with [] needle) eqn:E.
    + apply starts_with_true in E as [r Hr]. by destruct needle.
    + split; [done|]. intros [[r Hr] _]. rewrite drop_nil in Hr. by destruct needle.
  - destruct (starts_with (c :: s) needle) eqn:E.
    + apply starts_with_true in E. split.
      * intros [= <-]. split; [done|]. lia.
      * intros [_ H]. destruct i as [|i]; [done|]. destruct (H 0); [lia|done].
    + assert (~ occurs needle (c :: s) 0) as H0
        by (intros Ho%starts_with_true; cbn [drop] in Ho; congruence).
      split.
      * intros (k & Hk & ->)%fmap_Some. apply IH in Hk as [Ho Hk]. split; [done|].
        intros [|j] Hj; [done|]. apply (Hk j). lia.
      * intros [Ho H]. destruct i as [|i]; [done|]. apply fmap_Some. exists i. split; [|done]. apply IH.
        split; [done|]. intros j Hj. apply (H (S j)). lia.
Qed.

(** What comes later does not move what is found. *)
Lemma occurs_app s t i : i + length needle <= length s -> occurs needle (s ++ t) i <-> occurs needle s i.
Proof.
  intros Hi. unfold occurs. rewrite drop_app_le by lia. split; [|intros [r ->]; eexists; by rewrite <- app_assoc].
  intros [r Hr]. exists (drop (length needle) (drop i s)).
  apply (f_equal (take (length needle))) in Hr. rewrite take_app_le, take_app_length in Hr by (rewrite length_drop; lia).
  rewrite <- Hr at 1. by rewrite take_drop.
Qed.

Lemma str_find_app s t i : str_find needle s = Some i -> str_find needle (s ++ t) = Some i.
Proof.
  rewrite !str_find_Some. intros [Ho H]. pose proof (occurs_length _ _ Ho).
  rewrite occurs_app by lia. split; [done|]. intros j Hj. rewrite occurs_app by lia. auto.
Qed.

(** If nothing is found, and no suffix longer than [k] begins the needle, the
    search can skip all but the last [k]. *)
Lemma str_find_skip s t k :
  str_find needle s = None -> k <= length s ->
  (forall j r, needle = drop j s ++ r -> r <> [] -> length (drop j s) <= k) ->
  str_find needle (s ++ t) = (fun i => length s - k + i) <$> str_find needle (drop (length s - k) s ++ t).
Proof.
  intros Hn Hk Hs. rewrite str_find_None in Hn. set (d := length s - k).
  assert (forall i, occurs needle (drop d s ++ t) i <-> occurs needle (s ++ t) (d + i)) as Hshift.
  { intros i. unfold occurs. rewrite <- (drop_app_le s t d) by lia. by rewrite drop_drop. }
  assert (forall j, j < d -> ~ occurs needle (s ++ t) j) as Hbefore.
  { intros j Hj Ho. destruct (decide (j + length needle <= length s)) as [Hle|Hgt].
    { apply (Hn j). by apply (occurs_app s t). }
    destruct Ho as [r Hr]. rewrite drop_app_le in Hr by lia.
    assert (needle = drop j s ++ drop (length (drop j s)) needle) as E.
    { rewrite <- (take_drop (length (drop j s)) needle) at 1. f_equal.
      apply (f_equal (take (length (drop j s)))) in Hr. rewrite take_app_length in Hr. rewrite Hr at 2.
      symmetry. apply take_app_le. rewrite length_drop. lia. }
    assert (length (drop j s) <= k) as Hlen; [|rewrite length_drop in Hlen; lia].
    apply (Hs j _ E). intros Hd. apply (f_equal length) in Hd. rewrite !length_drop in Hd. simpl in Hd. lia. }
  destruct (str_find needle (drop d s ++ t)) as [i|] eqn:E; cbn.
  - apply str_find_Some in E as [Ho Hi]. apply str_find_Some. split; [by apply Hshift|].
    intros j Hj. destruct (decide (j < d)) as [|Hge]; [by apply Hbefore|].
    replace j with (d + (j - d)) by lia. rewrite <- Hshift. apply Hi. lia.
  - rewrite str_find_None in E. apply str_find_None. intros j. destruct (decide (j < d)) as [|Hge]; [by apply Hbefore|].
    replace j with (d + (j - d)) by lia. rewrite <- Hshift. apply E.
Qed.

Lemma str_find_drop s d : str_find needle s = None -> str_find needle (drop d s) = None.
Proof.
  rewrite !str_find_None. intros H i [r Hr]. apply (H (d + i)). exists r. by rewrite <- drop_drop.
Qed.
End find.

(** Of two texts found in one, the one that starts and ends within the other
    is in it. *)
Lemma occurs_inside a b s i j :
  occurs a s i -> occurs b s j -> j <= i -> i + length a <= j + length b -> occurs a b (i - j).
Proof.
  intros [r Hr] [r' Hr'] Hj Hlen. exists (drop (length a) (drop (i - j) b)).
  assert (drop (i - j) b ++ r' = a ++ r) as E.
  { rewrite <- Hr. replace i with (j + (i - j)) at 2 by lia. rewrite <- drop_drop, Hr'. rewrite drop_app_le; [done|lia]. }
  apply (f_equal (take (length a))) in E. rewrite take_app_le, take_app_length in E by (rewrite length_drop; lia).
  rewrite <- E at 1. by rewrite take_drop.
Qed.
