(* ===== verification/Paths.v ===== *)
(** * Paths: [std::path] on Unix and [utils/absolute-path]

    A path is its text.  [components] is the standard library's parse of it;
    an [AbsolutePathBuf] is a path of the shape [render_abs segs] (an
    invariant proved below, not assumed).  [home_dir] (the [dirs] crate) is a
    parameter. *)

From S2P Require Import Prelude.
Local Open Scope str_scope.

(** ** [std::path] *)

Inductive Component : Type :=
| RootDir
| CurDir
| ParentDir
| Normal (s : str).

#[global] Instance component_eq_dec : EqDecision Component.
Proof. solve_decision. Defined.

Definition SEP : N := ch "/".

Definition comp_of_piece (s : str) : option Component :=
  if (s =? []) || (s =? lit ".") then None
  else if s =? lit ".." then Some ParentDir
  else Some (Normal s).

Definition is_absolute (p : str) : bool :=
  match p with c :: _ => N.eqb c SEP | [] => false end.

Definition components (p : str) : list Component :=
  if is_absolute p then RootDir :: omap comp_of_piece (split_char SEP p)
  else match split_char SEP p with
       | h :: t => (if h =? lit "." then [CurDir] else []) ++ omap comp_of_piece (h :: t)
       | [] => []
       end.

Definition as_os_str (c : Component) : str :=
  match c with
  | RootDir => [SEP]
  | CurDir => lit "."
  | ParentDir => lit ".."
  | Normal s => s
  end.

(** The text of a sequence of components. *)
Definition path_of_components (cs : list Component) : str :=
  match cs with
  | RootDir :: cs' => SEP :: join [SEP] (map as_os_str cs')
  | _ => join [SEP] (map as_os_str cs)
  end.

(** [PathBuf::push]; [p.join(q)] is [push p q]. *)
Definition push (buf path : str) : str :=
  if is_absolute path then path
  else match last buf with
       | Some c => if N.eqb c SEP then buf ++ path else buf ++ [SEP] ++ path
       | None => path
       end.

(** [Path::parent], written with single separators. *)
Definition parent (p : str) : option str :=
  match rev (components p) with
  | Normal _ :: r | CurDir :: r | ParentDir :: r => Some (path_of_components (rev r))
  | RootDir :: _ | [] => None
  end.

(** [PathBuf::pop] *)
Definition pop (buf : str) : str :=
  match parent buf with Some p => p | None => buf end.

Definition file_name (p : str) : option str :=
  match last (components p) with Some (Normal s) => Some s | _ => None end.

(** [Path::file_stem]: the file name up to its last dot, unless that dot is
    its first character. *)
Definition file_stem (p : str) : option str :=
  match file_name p with
  | None => None
  | Some f =>
      match rsplit_once (ch ".") f with
      | Some (before, _) => if is_empty before then Some f else Some before
      | None => Some f
      end
  end.

(** [Path::ancestors]: a path and the directories above it. *)
Fixpoint ancestors_fuel (fuel : nat) (p : str) : list str :=
  match fuel with
  | O => [p]
  | S fuel => p :: match parent p with Some q => ancestors_fuel fuel q | None => [] end
  end.
Definition ancestors (p : str) : list str := ancestors_fuel (length (components p)) p.

(** [Path::strip_prefix], as the components that are left. *)
Definition path_strip_prefix (p base : str) : option (list Component) :=
  if bool_decide (take (length (components base)) (components p) = components base)
  then Some (drop (length (components base)) (components p)) else None.

(** [==] on paths, and [Path::starts_with] *)
Definition path_eqb (p q : str) : bool := bool_decide (components p = components q).
Definition path_starts_with (p q : str) : bool :=
  bool_decide (take (length (components q)) (components p) = components q).

(** ** [AbsolutePathBuf] *)

Definition normalize_step (normalized : str) (component : Component) : str :=
  match component with
  | CurDir => normalized
  | ParentDir => pop normalized
  | RootDir | Normal _ => push normalized (as_os_str component)
  end.

Definition normalize_path (path : str) : str :=
  let normalized := foldl normalize_step [] (components path) in
  if is_empty normalized then lit "." else normalized.

Definition path_with_base (path base_path : str) : str :=
  if is_absolute path then path else push base_path path.

Definition absolutize_from (path base_path : str) : str :=
  normalize_path (path_with_base path base_path).

Section home.
Context (home_dir : option str).

Definition maybe_expand_home_directory (path : str) : str :=
  match home_dir, strip_prefix (lit "~") path with
  | Some home, Some rest =>
      if is_empty rest then home
      else match strip_prefix (lit "/") rest with
           | Some rest => push home (trim_start_matches (N.eqb SEP) rest)
           | None => path
           end
  | _, _ => path
  end.

Definition resolve_path_against_base (path base_path : str) : str :=
  absolutize_from (maybe_expand_home_directory path) base_path.

(** [from_absolute_path]; [cwd] is the process's current directory, [None]
    when it cannot be read. *)
Definition from_absolute_path (cwd : option str) (path : str) : option str :=
  let expanded := maybe_expand_home_directory path in
  if is_absolute expanded then Some (normalize_path expanded)
  else absolutize_from expanded <$> cwd.

Definition from_absolute_path_checked (path : str) : result str str :=
  let expanded := maybe_expand_home_directory path in
  if is_absolute expanded then Ok (absolutize_from expanded (lit "/"))
  else Err (lit "path is not absolute: " ++ path).

(** [AbsolutePathBuf::join] *)
Definition abs_join (self path : str) : str := resolve_path_against_base path self.
End home.

(** ** The shape of a normalised absolute path *)

Definition good_seg (s : str) : Prop :=
  s <> [] /\ SEP ∉ s /\ s <> lit "." /\ s <> lit "..".

#[global] Instance good_seg_dec s : Decision (good_seg s).
Proof. unfold good_seg. apply _. Defined.

Definition render_abs (segs : list str) : str := SEP :: join [SEP] segs.

Definition normal_abs (p : str) : Prop :=
  exists segs, Forall good_seg segs /\ p = render_abs segs.

(** What normalisation means on stacks of segments. *)
Definition stack_step (segs : list str) (c : Component) : list str :=
  match c with
  | RootDir => []
  | CurDir => segs
  | ParentDir => removelast segs
  | Normal s => segs ++ [s]
  end.
Definition resolve_stack (segs : list str) (cs : list Component) : list str :=
  foldl stack_step segs cs.

Lemma comp_of_piece_good s : good_seg s -> comp_of_piece s = Some (Normal s).
Proof.
  intros (H1 & _ & H2 & H3). unfold comp_of_piece.
  by rewrite !bool_decide_eq_false_2.
Qed.

Lemma comp_of_piece_Normal s t :
  SEP ∉ s -> comp_of_piece s = Some (Normal t) -> good_seg t /\ t = s.
Proof.
  unfold comp_of_piece. intros Hs H. cases. bool_to_prop. done.
Qed.

Lemma omap_good segs :
  Forall good_seg segs -> omap comp_of_piece segs = map Normal segs.
Proof.
  induction 1 as [|s segs Hs _ IH]; csimpl; [done|].
  by rewrite (comp_of_piece_good _ Hs), IH.
Qed.

Lemma good_no_sep segs : Forall good_seg segs -> Forall (fun s => SEP ∉ s) segs.
Proof. intros H. eapply Forall_impl; [exact H|]. by intros s (_ & ? & _). Qed.

Lemma components_render_abs segs :
  Forall good_seg segs -> components (render_abs segs) = RootDir :: map Normal segs.
Proof.
  intros H. unfold components, render_abs. simpl. f_equal.
  destruct segs as [|s segs]; [done|].
  rewrite split_char_join by (done || by apply good_no_sep). by apply omap_good.
Qed.

(** Every [Normal] component of a path is a good segment. *)
Definition good_component (c : Component) : Prop :=
  match c with Normal s => good_seg s | _ => True end.

Lemma omap_components_good (l : list str) :
  Forall (fun s => SEP ∉ s) l -> Forall good_component (omap comp_of_piece l).
Proof.
  induction 1 as [|s l Hs _ IH]; csimpl; [constructor|].
  destruct (comp_of_piece s) as [c|] eqn:E; [|done]. constructor; [|done].
  destruct c; simpl; [done..|]. by apply comp_of_piece_Normal in E as [? _].
Qed.

Lemma components_good p : Forall good_component (components p).
Proof.
  unfold components. pose proof (split_char_Forall SEP p) as H.
  destruct (is_absolute p); [by constructor; [|apply omap_components_good]|].
  destruct (split_char SEP p) as [|h t]; [constructor|].
  apply Forall_app. split; [|by apply omap_components_good].
  destruct (_ =? _); repeat constructor.
Qed.

(** The root directory occurs only first. *)
Lemma omap_no_root (l : list str) : RootDir ∉ omap comp_of_piece l.
Proof.
  intros (s & _ & H)%list_elem_of_omap. unfold comp_of_piece in H. cases.
Qed.

Lemma is_absolute_components p :
  is_absolute p = true -> exists cs, components p = RootDir :: cs /\ RootDir ∉ cs.
Proof. unfold components. intros ->. eauto using omap_no_root. Qed.

Lemma last_join_not_sep segs :
  Forall good_seg segs -> segs <> [] ->
  exists c, last (join [SEP] segs) = Some c /\ c <> SEP.
Proof.
  intros H Hne. destruct (exists_last Hne) as (l & s & ->).
  apply Forall_app in H as [_ [(Hs & Hsep & _) _]%Forall_cons].
  destruct (exists_last Hs) as (s' & c & ->). exists c.
  split; [|intros ->; set_solver].
  destruct l as [|a l]; [simpl; by rewrite last_snoc|].
  rewrite join_snoc by done. by rewrite !app_assoc, last_snoc.
Qed.

Lemma push_render_abs segs s :
  Forall good_seg segs -> good_seg s ->
  push (render_abs segs) s = render_abs (segs ++ [s]).
Proof.
  intros H (Hs & Hsep & _). unfold push, render_abs.
  destruct s as [|c s]; [done|]. simpl.
  destruct (N.eqb_spec c SEP) as [->|_]; [set_solver|].
  destruct segs as [|a segs]; [done|].
  destruct (last_join_not_sep (a :: segs) H ltac:(done)) as (d & Hd & Hne).
  rewrite last_cons, Hd. destruct (N.eqb_spec d SEP); [done|].
  rewrite join_snoc by done. done.
Qed.

Lemma map_as_os_str_Normal segs : map as_os_str (map Normal segs) = segs.
Proof. induction segs; simpl; congruence. Qed.

Lemma pop_render_abs segs :
  Forall good_seg segs -> pop (render_abs segs) = render_abs (removelast segs).
Proof.
  intros H. unfold pop, parent. rewrite components_render_abs by done. simpl.
  destruct segs as [|a segs] using rev_ind; [done|].
  rewrite map_app, rev_app_distr, removelast_last. simpl.
  rewrite rev_app_distr, rev_involutive. simpl. by rewrite map_as_os_str_Normal.
Qed.

Lemma removelast_Forall {A} (P : A -> Prop) l : Forall P l -> Forall P (removelast l).
Proof.
  intros H. destruct l as [|x l] using rev_ind; [done|].
  rewrite removelast_last. by apply Forall_app in H as [? _].
Qed.

Lemma stack_step_good segs c :
  Forall good_seg segs -> good_component c -> Forall good_seg (stack_step segs c).
Proof.
  destruct c; simpl; intros; [constructor | done | by apply removelast_Forall |].
  apply Forall_app; auto.
Qed.

Lemma resolve_stack_good segs cs :
  Forall good_seg segs -> Forall good_component cs -> Forall good_seg (resolve_stack segs cs).
Proof.
  intros H Hcs. revert segs H. induction Hcs; simpl; intros; [done|].
  eauto using stack_step_good.
Qed.

Lemma normalize_step_render segs c :
  Forall good_seg segs -> good_component c ->
  normalize_step (render_abs segs) c = render_abs (stack_step segs c).
Proof.
  intros H Hc. destruct c; simpl; [done | done | by apply pop_render_abs | by apply push_render_abs].
Qed.

Lemma normalize_fold_render segs cs :
  Forall good_seg segs -> Forall good_component cs ->
  foldl normalize_step (render_abs segs) cs = render_abs (resolve_stack segs cs).
Proof.
  intros H Hcs. revert segs H. induction Hcs as [|c cs Hc _ IH]; simpl; intros segs H; [done|].
  rewrite normalize_step_render by done. auto using stack_step_good.
Qed.

Lemma normalize_path_absolute p :
  is_absolute p = true ->
  normalize_path p = render_abs (resolve_stack [] (components p)).
Proof.
  intros H. unfold normalize_path. pose proof (components_good p) as Hg.
  destruct (is_absolute_components p H) as (cs & E & _). rewrite E in *.
  apply Forall_cons in Hg as [_ Hg]. simpl.
  change (push [] [SEP]) with (render_abs []).
  rewrite (normalize_fold_render []) by done. done.
Qed.

Lemma resolve_stack_app segs cs ds :
  resolve_stack segs (cs ++ ds) = resolve_stack (resolve_stack segs cs) ds.
Proof. apply foldl_app. Qed.

Lemma resolve_stack_Normal segs ss :
  resolve_stack segs (map Normal ss) = segs ++ ss.
Proof.
  revert segs; induction ss as [|s ss IH]; intros segs; simpl; [by rewrite app_nil_r|].
  by rewrite IH, <- app_assoc.
Qed.

(** A relative path's components, up to a leading [.]. *)
Lemma resolve_stack_relative segs p :
  is_absolute p = false ->
  resolve_stack segs (components p) = resolve_stack segs (omap comp_of_piece (split_char SEP p)).
Proof.
  intros H. unfold components. rewrite H.
  destruct (split_char SEP p) as [|h t]; [done|].
  destruct (h =? lit "."); done.
Qed.

Lemma render_abs_absolute segs : is_absolute (render_abs segs) = true.
Proof. done. Qed.

Lemma components_push_relative segs p :
  Forall good_seg segs -> is_absolute p = false ->
  components (push (render_abs segs) p)
  = RootDir :: map Normal segs ++ omap comp_of_piece (split_char SEP p).
Proof.
  intros Hg Hp. unfold push. rewrite Hp.
  destruct segs as [|s segs].
  - done.
  - destruct (last_join_not_sep (s :: segs) Hg ltac:(done)) as (d & Hd & Hne).
    unfold render_abs. rewrite last_cons, Hd. destruct (N.eqb_spec d SEP); [done|].
    unfold components. simpl is_absolute. f_equal.
    change ((SEP :: join [SEP] (s :: segs)) ++ [SEP] ++ p)
      with ((SEP :: join [SEP] (s :: segs)) ++ SEP :: p).
    rewrite split_char_app, omap_app. f_equal.
    pose proof (components_render_abs (s :: segs) Hg) as E.
    unfold components, render_abs in E. simpl is_absolute in E. by injection E.
Qed.

Definition home_ok (home : option str) : Prop :=
  match home with Some h => is_absolute h = true | None => True end.

Lemma push_absolute buf p : is_absolute buf = true -> is_absolute (push buf p) = true.
Proof.
  intros H. unfold push. destruct (is_absolute p) eqn:E; [done|].
  destruct buf as [|c buf]; [done|]. rewrite last_cons.
  by destruct (last buf); case_match.
Qed.

Lemma absolutize_from_normal path base :
  is_absolute base = true -> normal_abs (absolutize_from path base).
Proof.
  intros H. unfold absolutize_from.
  assert (is_absolute (path_with_base path base) = true) as Ha.
  { unfold path_with_base. destruct (is_absolute path) eqn:E; [done|]. by apply push_absolute. }
  rewrite normalize_path_absolute by done.
  eexists. split; [|done].
  apply resolve_stack_good; [constructor|apply components_good].
Qed.

Lemma normal_abs_absolute p : normal_abs p -> is_absolute p = true.
Proof. by intros (segs & _ & ->). Qed.

(** A path that is already in normal form, seen from any base. *)
Lemma absolutize_from_id p base : normal_abs p -> absolutize_from p base = p.
Proof.
  intros (segs & Hg & ->). unfold absolutize_from, path_with_base. simpl is_absolute.
  rewrite normalize_path_absolute, components_render_abs by done. simpl.
  by rewrite resolve_stack_Normal.
Qed.

Lemma expand_absolute home p :
  is_absolute p = true -> maybe_expand_home_directory home p = p.
Proof.
  intros H. unfold maybe_expand_home_directory. destruct home; [|done].
  destruct p as [|c p]; [done|]. simpl in *. apply N.eqb_eq in H as ->. done.
Qed.

#[export] Hint Resolve normal_abs_absolute absolutize_from_normal : paths.

(** Whatever the path, resolving it against an absolute base gives an
    absolute path with no [.], no [..], no empty segment and no doubled
    separator (the invariant the type [AbsolutePathBuf] promises), and
    resolving that result again, against any base, gives it back. *)
Theorem resolve_path_normal (home : option str) (path base base' : str) :
  home_ok home -> is_absolute base = true ->
  let q := resolve_path_against_base home path base in
  normal_abs q /\ resolve_path_against_base home q base' = q.
Proof.
  intros Hh Hb q.
  assert (normal_abs q) as Hq by (apply absolutize_from_normal; done).
  split; [done|]. unfold resolve_path_against_base.
  rewrite expand_absolute by eauto using normal_abs_absolute.
  by apply absolutize_from_id.
Qed.

Lemma resolve_path_normal_witness :
  normal_abs (resolve_path_against_base (Some (lit "/home/u")) (lit "~//a/./../b") (lit "/w")).
Proof.
  exact (proj1 (resolve_path_normal (Some (lit "/home/u")) (lit "~//a/./../b") (lit "/w") (lit "/z")
                  eq_refl eq_refl)).
Defined.

(** Without [..] the stack only grows. *)
Lemma resolve_stack_no_parent segs path :
  is_absolute path = false -> ParentDir ∉ components path ->
  exists more, resolve_stack segs (components path) = segs ++ more.
Proof.
  intros Hp Hnp. rewrite (resolve_stack_relative segs) by done.
  assert (ParentDir ∉ omap comp_of_piece (split_char SEP path)) as Hnp'.
  { revert Hnp. unfold components. rewrite Hp. destruct (split_char SEP path); [done|].
    rewrite not_elem_of_app. tauto. }
  pose proof (omap_no_root (split_char SEP path)) as Hnr.
  revert segs Hnp' Hnr. generalize (omap comp_of_piece (split_char SEP path)). clear.
  intros cs. induction cs as [|c cs IH]; intros segs Hn Hr; simpl.
  - exists []. by rewrite app_nil_r.
  - rewrite not_elem_of_cons in Hn, Hr.
    destruct (IH (stack_step segs c)) as [more ->]; [tauto..|].
    destruct c; simpl; try tauto; eauto. exists (s :: more). by rewrite <- app_assoc.
Qed.

(** Resolving a relative path against a normalised base runs the path's
    components over the stack of the base's segments ([..] pops and stops at
    the root, [.] and empty pieces do nothing, a name is pushed); so a path
    with no [..] stays under the base, with the base's segments first. *)
Theorem resolve_relative_stack (home : option str) (path : str) (segs : list str) :
  Forall good_seg segs -> is_absolute path = false -> strip_prefix (lit "~") path = None ->
  resolve_path_against_base home path (render_abs segs)
    = render_abs (resolve_stack segs (components path))
  /\ (ParentDir ∉ components path ->
      exists more, resolve_stack segs (components path) = segs ++ more
                   /\ path_starts_with (resolve_path_against_base home path (render_abs segs))
                        (render_abs segs) = true).
Proof.
  intros Hg Hp Ht.
  assert (resolve_path_against_base home path (render_abs segs)
          = render_abs (resolve_stack segs (components path))) as Hres.
  { unfold resolve_path_against_base, maybe_expand_home_directory. rewrite Ht.
    replace (match home with Some _ | _ => path end) with path by (by destruct home).
    unfold absolutize_from, path_with_base. rewrite Hp.
    rewrite normalize_path_absolute by (by apply push_absolute).
    rewrite components_push_relative by done.
    rewrite (resolve_stack_relative segs) by done. simpl.
    by rewrite resolve_stack_app, resolve_stack_Normal. }
  split; [done|]. intros Hnp. rewrite Hres.
  pose proof (resolve_stack_good segs (components path) Hg (components_good path)) as Hgood.
  destruct (resolve_stack_no_parent segs path Hp Hnp) as [more Hmore].
  exists more. split; [done|]. unfold path_starts_with.
  rewrite Hmore in *. rewrite !components_render_abs by done.
  apply bool_decide_eq_true. simpl. f_equal.
  rewrite map_app, take_app_length'; done.
Qed.

Lemma resolve_relative_stack_witness :
  resolve_path_against_base None (lit "./x//../y") (render_abs [lit "w"; lit "p"])
  = render_abs [lit "w"; lit "p"; lit "y"].
Proof.
  rewrite (proj1 (resolve_relative_stack None (lit "./x//../y") [lit "w"; lit "p"]
    ltac:(by apply (bool_decide_unpack _)) eq_refl eq_refl)).
  reflexivity.
Defined.

(** ** File names *)

Lemma file_name_no_sep p f : file_name p = Some f -> good_seg f.
Proof.
  unfold file_name. destruct (last (components p)) as [c|] eqn:E; [|done].
  assert (c ∈ components p) as Hin by (apply last_Some in E as [l ->]; set_solver).
  pose proof (components_good p) as Hg. rewrite Forall_forall in Hg. specialize (Hg _ Hin).
  destruct c; try done. by intros [= <-].
Qed.

Lemma file_name_of_seg s : good_seg s -> file_name s = Some s.
Proof.
  intros Hs. unfold file_name, components.
  pose proof Hs as (Hne & Hsep & Hd & _).
  assert (is_absolute s = false) as ->.
  { destruct s as [|c s]; [done|]. simpl. apply N.eqb_neq. intros ->. apply Hsep. by left. }
  rewrite split_char_none by done. rewrite bool_decide_eq_false_2 by done. cbn [app omap list_omap].
  by rewrite comp_of_piece_good.
Qed.

(** The stem of a file name is a prefix of it. *)
Lemma file_stem_prefix p s : file_stem p = Some s ->
  exists r, file_name p = Some (s ++ r) /\ s <> [] /\ SEP ∉ s.
Proof.
  unfold file_stem. destruct (file_name p) as [f|] eqn:E; [|done].
  apply file_name_no_sep in E as (Hne & Hsep & _).
  destruct (rsplit_once (ch ".") f) as [[a b]|] eqn:Er.
  - apply rsplit_once_Some in Er. destruct a as [|x a]; simpl.
    + intros [= <-]. exists []. by rewrite app_nil_r.
    + intros [= <-]. exists (ch "." :: b). subst f. split; [done|]. split; [done|].
      intros Hin. apply Hsep. apply elem_of_app. by left.
  - intros [= <-]. exists []. by rewrite app_nil_r.
Qed.

Lemma file_name_no_sep_id s f : SEP ∉ s -> file_name s = Some f -> f = s.
Proof.
  intros Hsep. unfold file_name, components.
  destruct (is_absolute s) eqn:Ha.
  { destruct s as [|c s]; [done|]. simpl in Ha. apply N.eqb_eq in Ha as ->. exfalso. apply Hsep. by left. }
  rewrite split_char_none by done. cbn [omap list_omap]. unfold comp_of_piece.
  destruct (s =? lit "."), ((s =? []) || _), (s =? lit ".."); cbn; congruence.
Qed.

Lemma split_char_length c s x : x ∈ split_char c s -> length x < length s \/ x = s.
Proof.
  revert x. induction s as [|y s IH]; intros x; cbn [split_char].
  { intros ->%list_elem_of_singleton. by right. }
  assert (forall z, z ∈ split_char c s -> length z < length (y :: s)) as Hz.
  { intros z [H| ->]%IH; simpl; lia. }
  destruct (N.eqb y c).
  - intros [->|Hin]%elem_of_cons; left; [simpl; lia|by apply Hz].
  - destruct (split_char c s) as [|h t] eqn:E; [by apply split_char_not_nil in E|].
    intros [->|Hin]%elem_of_cons; [|left; apply Hz; by right].
    destruct (IH h) as [Hl| ->]; [by left|left; simpl; lia|by right].
Qed.

Lemma file_name_length p f : file_name p = Some f -> length f < length p \/ f = p.
Proof.
  unfold file_name. destruct (last _) as [[]|] eqn:E; try done. intros [= ->].
  apply split_char_length with (c := SEP). apply last_Some in E as [l E].
  assert (Normal f ∈ components p) as Hin by (rewrite E; apply elem_of_app; right; by left).
  clear E. unfold components in Hin.
  assert (Normal f ∈ omap comp_of_piece (split_char SEP p)) as Ho.
  { destruct (is_absolute p); [by apply elem_of_cons in Hin as [?|?]|].
    destruct (split_char SEP p) as [|h t]; [done|].
    apply elem_of_app in Hin as [Hin|?]; [|done]. destruct (h =? lit ".") in Hin; [|by apply elem_of_nil in Hin].
    by apply list_elem_of_singleton in Hin. }
  apply list_elem_of_omap in Ho as (s & Hs & Hc). pose proof (split_char_Forall SEP p) as HF.
  rewrite Forall_forall in HF. apply comp_of_piece_Normal in Hc as [_ ->]; [done|by apply HF].
Qed.

(** A stem is shorter than its path, or all of it. *)
Lemma file_stem_shorter p n : file_stem p = Some n -> length n < length p \/ n = p.
Proof.
  intros (r & Hf & _)%file_stem_prefix. apply file_name_length in Hf as [Hl|Hp].
  - left. rewrite length_app in Hl. lia.
  - rewrite <- Hp, length_app. destruct r; [right; by rewrite app_nil_r|left; simpl; lia].
Qed.

(** ** Comparing normal paths *)

Lemma path_eqb_spec p q : path_eqb p q = true <-> components p = components q.
Proof. unfold path_eqb. apply bool_decide_eq_true. Qed.

Lemma path_eqb_refl p : path_eqb p p = true.
Proof. by apply path_eqb_spec. Qed.

Lemma map_Normal_inj l k : map Normal l = map Normal k -> l = k.
Proof.
  revert k. induction l as [|x l IH]; intros [|y k]; try done. intros [= -> E]. f_equal. by apply IH.
Qed.

Lemma components_normal_inj p q : normal_abs p -> normal_abs q -> components p = components q -> p = q.
Proof.
  intros (a & Ha & ->) (b & Hb & ->). rewrite !components_render_abs by done.
  intros [= E%map_Normal_inj]. by subst.
Qed.

Lemma path_eqb_normal p q : normal_abs p -> normal_abs q -> path_eqb p q = true <-> p = q.
Proof.
  intros Hp Hq. rewrite path_eqb_spec. split; [by apply components_normal_inj|congruence].
Qed.

Lemma path_starts_with_spec p q : path_starts_with p q = true <-> components q `prefix_of` components p.
Proof.
  unfold path_starts_with. rewrite bool_decide_eq_true. split.
  - intros E. exists (drop (length (components q)) (components p)).
    rewrite <- (take_drop (length (components q)) (components p)) at 1. by rewrite E.
  - intros [k E]. by rewrite E, take_app_length.
Qed.

Lemma path_starts_with_refl p : path_starts_with p p = true.
Proof. by apply path_starts_with_spec. Qed.

Lemma path_starts_with_trans p q r :
  path_starts_with p q = true -> path_starts_with q r = true -> path_starts_with p r = true.
Proof. rewrite !path_starts_with_spec. intros. by etransitivity. Qed.

(** Two ancestors of a path are ancestors of each other, and of the same
    depth only if equal. *)
Lemma path_starts_with_chain p q r :
  path_starts_with p q = true -> path_starts_with p r = true ->
  length (components r) <= length (components q) -> path_starts_with q r = true.
Proof.
  rewrite !path_starts_with_spec. intros [k Ek] [l El] Hle. rewrite Ek in El.
  exists (drop (length (components r)) (components q)).
  apply (f_equal (take (length (components q)))) in El as Et.
  rewrite take_app_length in Et. rewrite Et at 1. rewrite take_app_ge by lia. f_equal.
  apply (f_equal (drop (length (components r)))) in Et. rewrite Et, take_app_ge, drop_app_length by lia. done.
Qed.

Lemma path_strip_prefix_Some p q cs :
  path_strip_prefix p q = Some cs <-> components p = components q ++ cs.
Proof.
  unfold path_strip_prefix. case_bool_decide as Ht.
  - split.
    + intros [= <-]. rewrite <- (take_drop (length (components q)) (components p)) at 1. by rewrite Ht.
    + intros ->. f_equal. by rewrite drop_app_length.
  - split; [done|]. intros E. destruct Ht. by rewrite E, take_app_length.
Qed.

Lemma path_starts_with_root p : is_absolute p = true -> path_starts_with p [SEP] = true.
Proof.
  intros (cs & E & _)%is_absolute_components. apply path_starts_with_spec. rewrite E. by exists cs.
Qed.

(** ** Ancestors of normal paths *)

Lemma parent_render_abs segs s :
  Forall good_seg segs -> good_seg s -> parent (render_abs (segs ++ [s])) = Some (render_abs segs).
Proof.
  intros H Hs. pose proof (pop_render_abs (segs ++ [s])) as Hp. unfold pop in Hp.
  rewrite removelast_last in Hp.
  destruct (parent _) as [q|] eqn:E; [rewrite Hp; [done|by apply Forall_app; auto]|].
  unfold parent in E. rewrite components_render_abs in E by (apply Forall_app; auto).
  cbn [rev] in E. rewrite map_app, rev_app_distr in E. done.
Qed.

Lemma ancestors_fuel_render segs fuel :
  Forall good_seg segs -> length segs <= fuel ->
  ancestors_fuel fuel (render_abs segs) = map (fun k => render_abs (take k segs)) (rev (seq 0 (S (length segs)))).
Proof.
  intros H. revert fuel. induction segs as [|s segs IH] using rev_ind; intros fuel Hf.
  { destruct fuel; reflexivity. }
  apply Forall_app in H as [H [Hs _]%Forall_cons]. rewrite length_app in Hf |- *. simpl in Hf.
  destruct fuel as [|fuel]; [lia|]. cbn [ancestors_fuel]. rewrite parent_render_abs by done.
  rewrite IH by (done || lia). replace (length segs + length [s]) with (S (length segs)) by (simpl; lia).
  rewrite (seq_S (S (length segs))), rev_app_distr. cbn [rev app map plus].
  rewrite (firstn_all2 (n := S (length segs))) by (rewrite length_app; simpl; lia). f_equal.
  apply map_ext_in. intros k Hk%in_rev%in_seq. f_equal. symmetry. apply take_app_le. lia.
Qed.

Lemma ancestors_render segs :
  Forall good_seg segs ->
  ancestors (render_abs segs) = map (fun k => render_abs (take k segs)) (rev (seq 0 (S (length segs)))).
Proof.
  intros H. apply ancestors_fuel_render; [done|]. rewrite components_render_abs by done.
  simpl. rewrite length_map. lia.
Qed.

Lemma normal_root : normal_abs [SEP].
Proof. by exists []. Qed.

Lemma from_absolute_path_id home cwd p : normal_abs p -> from_absolute_path home cwd p = Some p.
Proof.
  intros Hp. unfold from_absolute_path. rewrite expand_absolute by by apply normal_abs_absolute.
  rewrite normal_abs_absolute by done. f_equal. pose proof (absolutize_from_id p [] Hp) as E.
  unfold absolutize_from, path_with_base in E. by rewrite normal_abs_absolute in E.
Qed.

(** Joining the rest of a path to its ancestor gives the path back. *)
Lemma from_absolute_path_components home cwd p q :
  is_absolute p = true -> normal_abs q -> components p = components q ->
  from_absolute_path home cwd p = Some q.
Proof.
  intros Hp (segs & Hg & ->) E. unfold from_absolute_path. rewrite expand_absolute by done. rewrite Hp. f_equal.
  rewrite normalize_path_absolute, E, components_render_abs by done. simpl. by rewrite resolve_stack_Normal.
Qed.

Lemma components_push_segs segs ss :
  Forall good_seg segs -> Forall good_seg ss ->
  components (push (render_abs segs) (path_of_components (map Normal ss))) = components (render_abs (segs ++ ss)).
Proof.
  intros H Hs. rewrite (components_render_abs (segs ++ ss)) by (apply Forall_app; auto).
  assert (path_of_components (map Normal ss) = join [SEP] ss) as ->.
  { destruct ss as [|s ss]; [done|].
    change (join [SEP] (map as_os_str (map Normal (s :: ss))) = join [SEP] (s :: ss)).
    by rewrite map_as_os_str_Normal. }
  assert (is_absolute (join [SEP] ss) = false) as Ha.
  { destruct Hs as [|s ss (Hne & Hsep & _) _]; [done|]. destruct s as [|c s]; [done|].
    assert (c <> SEP) by (intros ->; apply Hsep; by left). destruct ss; simpl; by apply N.eqb_neq. }
  rewrite components_push_relative by done. rewrite map_app. do 2 f_equal.
  destruct ss as [|s ss]; [done|]. rewrite split_char_join by (done || by apply good_no_sep).
  by apply omap_good.
Qed.

(** ** Components decide what a path resolves to *)

Lemma components_push base p :
  is_absolute base = true -> is_absolute p = false ->
  components (push base p) = components base ++ omap comp_of_piece (split_char SEP p).
Proof.
  intros Hb Hp. unfold push. rewrite Hp. destruct base as [|c base]; [done|].
  assert (forall q, is_absolute ((c :: base) ++ q) = true) as Ha by done.
  assert (components ((c :: base) ++ SEP :: p)
          = components (c :: base) ++ omap comp_of_piece (split_char SEP p)) as Hsep.
  { unfold components. rewrite Ha, Hb, (split_char_app SEP (c :: base) p), omap_app. reflexivity. }
  destruct (last (c :: base)) as [d|] eqn:El; [|by apply last_None in El].
  destruct (N.eqb_spec d SEP) as [->|_]; [|exact Hsep].
  apply last_Some in El as [l El]. rewrite El in *.
  assert (components ((l ++ [SEP]) ++ p) = components (l ++ SEP :: p)) as -> by by rewrite <- app_assoc.
  unfold components. rewrite Hb.
  assert (is_absolute (l ++ SEP :: p) = true) as ->.
  { destruct l; [done|]. by injection El as <- _. }
  change (l ++ [SEP]) with (l ++ SEP :: []). rewrite (split_char_app SEP l p), (split_char_app SEP l []).
  rewrite !omap_app. cbn. by rewrite app_nil_r.
Qed.

Lemma components_relative p :
  is_absolute p = false ->
  omap comp_of_piece (split_char SEP p) = List.filter (fun c => negb (bool_decide (c = CurDir))) (components p).
Proof.
  intros Hp. unfold components. rewrite Hp.
  assert (forall l, omap comp_of_piece l
            = List.filter (fun c => negb (bool_decide (c = CurDir))) (omap comp_of_piece l)) as Hl.
  { intros l. symmetry. apply forallb_filter_id, forallb_forall. intros c Hc%list_elem_of_In.
    apply list_elem_of_omap in Hc as (x & _ & Hx). unfold comp_of_piece in Hx.
    destruct ((x =? []) || _); [done|]. destruct (x =? lit ".."); by injection Hx as <-. }
  destruct (split_char SEP p) as [|h t]; [done|]. rewrite List.filter_app, <- Hl.
  by destruct (h =? lit ".")%str.
Qed.

Lemma is_absolute_spec p : is_absolute p = true <-> head (components p) = Some RootDir.
Proof.
  split; [by intros (cs & -> & _)%is_absolute_components|]. intros H.
  destruct (is_absolute p) eqn:E; [done|]. exfalso. unfold components in H. rewrite E in H.
  destruct (split_char SEP p) as [|h t]; [done|].
  assert (RootDir ∈ omap comp_of_piece (h :: t)) as Hin; [|by apply omap_no_root in Hin].
  destruct (h =? lit "."); [done|]. cbn [app] in H.
  destruct (omap comp_of_piece (h :: t)); [done|]. injection H as ->. by left.
Qed.

Lemma omap_drop_seps s :
  omap comp_of_piece (split_char SEP (drop_while (N.eqb SEP) s)) = omap comp_of_piece (split_char SEP s).
Proof.
  induction s as [|c s IH]; [done|]. cbn [drop_while]. destruct (N.eqb_spec SEP c) as [<-|]; [|done].
  rewrite IH. by cbn [split_char].
Qed.

Lemma comp_of_piece_inv g s : comp_of_piece g = Some (Normal s) -> g = s /\ g <> [].
Proof. unfold comp_of_piece. intros H. cases; bool_to_prop; (done || by injection H as ->). Qed.

(** A path whose first component is a name begins with it. *)
Lemma components_head_Normal p s cs :
  components p = Normal s :: cs -> p = s \/ exists q, p = s ++ SEP :: q.
Proof.
  intros Hc. assert (is_absolute p = false) as Hp.
  { destruct (is_absolute p) eqn:Hp; [|done]. by destruct (is_absolute_components p Hp) as (? & E & _); rewrite Hc in E. }
  pose proof (join_split_char SEP p) as Hj. unfold components in Hc. rewrite Hp in Hc.
  destruct (split_char SEP p) as [|h t] eqn:E; [done|].
  case_bool_decide as Hd; [done|]. cbn [app omap list_omap] in Hc.
  assert (h <> []) as Hne.
  { intros ->. destruct p as [|x p]; [by injection E as <-|]. cbn in Hp, E. rewrite Hp in E.
    by destruct (split_char SEP p). }
  destruct (comp_of_piece h) as [c|] eqn:Hh.
  - injection Hc as -> _. apply comp_of_piece_inv in Hh as [-> _].
    destruct t as [|g t]; [by left|right]. by eexists.
  - exfalso. revert Hh. unfold comp_of_piece. rewrite !bool_decide_eq_false_2 by done. by case_bool_decide.
Qed.

(** A leading tilde is the first component, alone. *)
Lemma components_expand home p :
  home_ok home ->
  components (maybe_expand_home_directory home p)
  = match home, components p with
    | Some h, Normal s :: cs => if s =? lit "~" then components h ++ cs else components p
    | _, _ => components p
    end.
Proof.
  intros Hh. unfold maybe_expand_home_directory. destruct home as [h|]; [|done]. cbn in Hh.
  destruct (strip_prefix (lit "~") p) as [rest|] eqn:Es.
  - apply strip_prefix_Some in Es as ->. change (lit "~" ++ rest) with (ch "~" :: rest).
    destruct rest as [|d rest].
    { change (components [ch "~"]) with [Normal (lit "~")]. cbn [is_empty].
      rewrite bool_decide_eq_true_2 by done. by rewrite app_nil_r. }
    cbn [is_empty]. change (strip_prefix (lit "/") (d :: rest))
      with (if N.eqb SEP d then Some rest else None).
    destruct (N.eqb_spec SEP d) as [<-|Hd].
    + change (components (ch "~" :: SEP :: rest)) with
        (Normal (lit "~") :: omap comp_of_piece (split_char SEP rest)).
      cbv iota. rewrite bool_decide_eq_true_2 by done. unfold trim_start_matches.
      rewrite components_push, omap_drop_seps; [done|done|].
      clear. induction rest as [|c rest IH]; [done|]. cbn [drop_while].
      destruct (N.eqb_spec SEP c); [done|]. cbn. by apply N.eqb_neq.
    + destruct (components _) as [|[| | |s] cs] eqn:E; try done. case_bool_decide as Hs; [|done].
      subst s. apply components_head_Normal in E as [[=]|[q [= -> _]]]. done.
  - destruct (components p) as [|[| | |s] cs] eqn:E; try done. case_bool_decide as Hs; [|done].
    subst s. by apply components_head_Normal in E as [->|[q ->]].
Qed.

(** Against an absolute base, equal components resolve to equal paths. *)
Lemma resolve_path_components home p q base :
  home_ok home -> is_absolute base = true -> components p = components q ->
  resolve_path_against_base home p base = resolve_path_against_base home q base.
Proof.
  intros Hh Hb Hpq. unfold resolve_path_against_base, absolutize_from.
  set (p' := maybe_expand_home_directory home p). set (q' := maybe_expand_home_directory home q).
  assert (components p' = components q') as E.
  { subst p' q'. rewrite !components_expand by done. by rewrite Hpq. }
  assert (is_absolute p' = is_absolute q') as Ha.
  { apply eq_true_iff_eq. by rewrite !is_absolute_spec, E. }
  unfold path_with_base. rewrite <- Ha. destruct (is_absolute p') eqn:Hp.
  - unfold normalize_path. by rewrite E.
  - unfold normalize_path. rewrite !components_push by done. by rewrite !components_relative, E.
Qed.

(** Whether the path is given against a base or not, the result is normal. *)
Lemma from_absolute_path_normal home cwd p q :
  home_ok home -> (forall d, cwd = Some d -> is_absolute d = true) ->
  from_absolute_path home cwd p = Some q -> normal_abs q.
Proof.
  intros Hh Hc. unfold from_absolute_path. destruct (is_absolute _) eqn:E.
  - intros [= <-]. pose proof (absolutize_from_normal (maybe_expand_home_directory home p) [SEP] eq_refl) as Hn.
    unfold absolutize_from, path_with_base in Hn. by rewrite E in Hn.
  - destruct cwd as [d|]; [|done]. intros [= <-]. apply absolutize_from_normal; auto.
Qed.

(** A name other than the tilde, joined to a normal path, goes at its end. *)
Lemma abs_join_name home segs s :
  Forall good_seg segs -> good_seg s -> head s <> Some (ch "~") ->
  abs_join home (render_abs segs) s = render_abs (segs ++ [s]).
Proof.
  intros H Hs Ht. pose proof Hs as (Hne & Hsep & _). unfold abs_join, resolve_path_against_base.
  assert (maybe_expand_home_directory home s = s) as ->.
  { unfold maybe_expand_home_directory. destruct home; [|done].
    destruct (strip_prefix (lit "~") s) as [r|] eqn:E; [|done].
    apply strip_prefix_Some in E as ->. by destruct Ht. }
  assert (is_absolute s = false) as Ha.
  { destruct s as [|c s]; [done|]. apply N.eqb_neq. intros ->. apply Hsep. by left. }
  unfold absolutize_from, path_with_base. rewrite Ha.
  rewrite normalize_path_absolute by by apply push_absolute.
  rewrite components_push, components_render_abs, split_char_none by done.
  change (omap comp_of_piece [s]) with (match comp_of_piece s with Some c => [c] | None => [] end).
  rewrite comp_of_piece_good by done. cbn [app].
  change (resolve_stack [] (RootDir :: map Normal segs ++ [Normal s]))
    with (resolve_stack [] (map Normal segs ++ map Normal [s])).
  rewrite <- map_app. by rewrite resolve_stack_Normal.
Qed.
