(* ===== verification/Utf8.v ===== *)
(** * UTF-8: [String::into_bytes] and [String::from_utf8]

    The standard library's encoding of text as bytes and its validation, with
    the [valid_up_to] and [error_len] of [Utf8Error]. *)

From S2P Require Import Prelude.
Local Open Scope N_scope.

(** The scalar values a [char] ranges over. *)
Definition is_scalar (c : N) : bool := (c <? 0xD800) || (0xE000 <=? c) && (c <? 0x110000).

Definition len_utf8 (c : N) : nat :=
  if c <? 0x80 then 1%nat else if c <? 0x800 then 2%nat else if c <? 0x10000 then 3%nat else 4%nat.

Definition encode_char (c : N) : list N :=
  if c <? 0x80 then [c]
  else if c <? 0x800 then [0xC0 + c / 64; 0x80 + c mod 64]
  else if c <? 0x10000 then [0xE0 + c / 4096; 0x80 + c / 64 mod 64; 0x80 + c mod 64]
  else [0xF0 + c / 262144; 0x80 + c / 4096 mod 64; 0x80 + c / 64 mod 64; 0x80 + c mod 64].

Definition into_bytes (s : str) : list N := s ≫= encode_char.

(** [s.len()] counts bytes. *)
Definition byte_len (s : str) : nat := sum_list_with len_utf8 s.

Inductive step : Type :=
| Decoded (c : N) (rest : list N)
| Invalid (error_len : nat)
| Incomplete.

Definition is_cont (b : N) : bool := (0x80 <=? b) && (b <? 0xC0).

(** The second byte a three- or four-byte sequence may have after its first. *)
Definition second_ok (b0 b1 : N) : bool :=
  if b0 =? 0xE0 then (0xA0 <=? b1) && (b1 <? 0xC0)
  else if b0 =? 0xED then (0x80 <=? b1) && (b1 <? 0xA0)
  else if b0 =? 0xF0 then (0x90 <=? b1) && (b1 <? 0xC0)
  else if b0 =? 0xF4 then (0x80 <=? b1) && (b1 <? 0x90)
  else is_cont b1.

Definition decode_char (l : list N) : step :=
  match l with
  | [] => Incomplete
  | b0 :: l1 =>
      if b0 <? 0x80 then Decoded b0 l1
      else if b0 <? 0xC2 then Invalid 1
      else if b0 <? 0xE0 then
        match l1 with
        | [] => Incomplete
        | b1 :: l2 =>
            if is_cont b1 then Decoded ((b0 - 0xC0) * 64 + (b1 - 0x80)) l2 else Invalid 1
        end
      else if b0 <? 0xF0 then
        match l1 with
        | [] => Incomplete
        | b1 :: l2 =>
            if negb (second_ok b0 b1) then Invalid 1
            else match l2 with
                 | [] => Incomplete
                 | b2 :: l3 =>
                     if is_cont b2
                     then Decoded ((b0 - 0xE0) * 4096 + (b1 - 0x80) * 64 + (b2 - 0x80)) l3
                     else Invalid 2
                 end
        end
      else if b0 <? 0xF5 then
        match l1 with
        | [] => Incomplete
        | b1 :: l2 =>
            if negb (second_ok b0 b1) then Invalid 1
            else match l2 with
                 | [] => Incomplete
                 | b2 :: l3 =>
                     if negb (is_cont b2) then Invalid 2
                     else match l3 with
                          | [] => Incomplete
                          | b3 :: l4 =>
                              if is_cont b3
                              then Decoded ((b0 - 0xF0) * 262144 + (b1 - 0x80) * 4096
                                            + (b2 - 0x80) * 64 + (b3 - 0x80)) l4
                              else Invalid 3
                          end
                 end
        end
      else Invalid 1
  end.

Record Utf8Error : Type := mkUtf8Error {
  valid_up_to : nat;
  error_len : option nat;
}.

(** One unit of fuel per character. *)
Fixpoint from_utf8_fuel (fuel : nat) (pos : nat) (l : list N) : result Utf8Error str :=
  match fuel with
  | O => Ok []
  | S fuel =>
      match l with
      | [] => Ok []
      | _ =>
          match decode_char l with
          | Decoded c rest =>
              match from_utf8_fuel fuel (pos + (length l - length rest)) rest with
              | Ok s => Ok (c :: s)
              | Err e => Err e
              end
          | Invalid n => Err {| valid_up_to := pos; error_len := Some n |}
          | Incomplete => Err {| valid_up_to := pos; error_len := None |}
          end
      end
  end.

Definition from_utf8 (l : list N) : result Utf8Error str := from_utf8_fuel (length l) 0 l.

(** ** The round trip *)

Ltac n_case :=
  repeat match goal with
  | |- context [N.ltb ?a ?b] => destruct (N.ltb_spec a b); try lia
  | |- context [N.leb ?a ?b] => destruct (N.leb_spec a b); try lia
  | |- context [N.eqb ?a ?b] => destruct (N.eqb_spec a b); try lia
  end.

(** The six-bit digits of a number, as variables [lia] can use. *)
Lemma digits64 c :
  exists q1 q2 q3 r0 r1 r2,
    c = 64 * q1 + r0 /\ q1 = 64 * q2 + r1 /\ q2 = 64 * q3 + r2
    /\ r0 < 64 /\ r1 < 64 /\ r2 < 64
    /\ c / 64 = q1 /\ c / 4096 = q2 /\ c / 262144 = q3
    /\ c mod 64 = r0 /\ c / 64 mod 64 = r1 /\ c / 4096 mod 64 = r2.
Proof.
  exists (c / 64), (c / 64 / 64), (c / 64 / 64 / 64), (c mod 64), (c / 64 mod 64), (c / 64 / 64 mod 64).
  pose proof (N.div_mod c 64). pose proof (N.div_mod (c / 64) 64).
  pose proof (N.div_mod (c / 64 / 64) 64).
  pose proof (N.mod_lt c 64). pose proof (N.mod_lt (c / 64) 64). pose proof (N.mod_lt (c / 64 / 64) 64).
  replace (c / 4096) with (c / 64 / 64) by (by rewrite N.Div0.div_div).
  replace (c / 262144) with (c / 64 / 64 / 64) by (by rewrite !N.Div0.div_div).
  repeat split; auto with lia.
Qed.

Lemma decode_encode_char c rest :
  is_scalar c = true -> decode_char (encode_char c ++ rest) = Decoded c rest.
Proof.
  unfold is_scalar, encode_char. intros Hs.
  assert (c < 0xD800 \/ 0xE000 <= c < 0x110000) as Hc.
  { destruct (N.ltb_spec c 0xD800); [lia|]. destruct (N.leb_spec 0xE000 c); [|done].
    destruct (N.ltb_spec c 0x110000); [lia|done]. }
  clear Hs. destruct (digits64 c) as (q1 & q2 & q3 & r0 & r1 & r2 & ? & ? & ? & ? & ? & ?
                                       & -> & -> & -> & -> & -> & ->).
  destruct (N.ltb_spec c 0x80); [|destruct (N.ltb_spec c 0x800); [|destruct (N.ltb_spec c 0x10000)]];
    cbn -[N.mul N.add N.sub]; unfold second_ok, is_cont; n_case; simpl; f_equal; lia.
Qed.

Lemma encode_char_cons c : exists b l, encode_char c = b :: l.
Proof. unfold encode_char. repeat destruct (N.ltb _ _); eauto. Qed.

Lemma from_utf8_fuel_into_bytes s fuel pos :
  forallb is_scalar s = true -> (length (into_bytes s) <= fuel)%nat ->
  from_utf8_fuel fuel pos (into_bytes s) = Ok s.
Proof.
  revert fuel pos; induction s as [|c s IH]; intros fuel pos Hs Hf; [by destruct fuel|].
  simpl in Hs. apply andb_true_iff in Hs as [Hc Hs]. unfold into_bytes in *. csimpl in *.
  destruct (encode_char_cons c) as (b & l & E).
  destruct fuel as [|fuel]; [rewrite E in Hf; simpl in Hf; lia|].
  cbn [from_utf8_fuel]. pose proof (decode_encode_char c (s ≫= encode_char) Hc) as D.
  rewrite E in *. cbn [app] in *. rewrite D.
  rewrite IH; [done..|]. simpl in Hf. rewrite length_app in Hf. lia.
Qed.

Lemma from_utf8_into_bytes s : forallb is_scalar s = true -> from_utf8 (into_bytes s) = Ok s.
Proof. intros. by apply from_utf8_fuel_into_bytes. Qed.

(** ** Only encodings are accepted *)

Ltac n_hyp :=
  repeat match goal with
  | H : context [N.ltb ?a ?b] |- _ => destruct (N.ltb_spec a b); try discriminate H
  | H : context [N.leb ?a ?b] |- _ => destruct (N.leb_spec a b); try discriminate H
  | H : context [N.eqb ?a ?b] |- _ => destruct (N.eqb_spec a b); try discriminate H
  end.

Lemma decode_char_Decoded l c rest :
  decode_char l = Decoded c rest -> l = encode_char c ++ rest /\ is_scalar c = true.
Proof.
  unfold decode_char. intros H.
  repeat (first [discriminate H | injection H as <- <- | case_match]; try subst);
    unfold second_ok, is_cont in *; n_hyp;
    match goal with |- _ = encode_char ?c ++ _ /\ _ => generalize (digits64 c) end;
    unfold is_scalar, encode_char;
    intros (q1 & q2 & q3 & r0 & r1 & r2 & ? & ? & ? & ? & ? & ? & -> & -> & -> & -> & -> & ->);
    n_case; cbn [app andb orb]; (split; [repeat f_equal; lia|done]).
Qed.

(** A text is what the bytes encode, or the bytes are no text. *)
Lemma from_utf8_Ok l s : from_utf8 l = Ok s -> into_bytes s = l /\ forallb is_scalar s = true.
Proof.
  unfold from_utf8. generalize 0%nat as pos. assert (length l <= length l)%nat as Hle by done. revert Hle.
  generalize (length l) at 2 3 as fuel. intros fuel. revert l s.
  induction fuel as [|fuel IH]; intros l s Hle pos; cbn [from_utf8_fuel].
  { destruct l; simpl in Hle; [|lia]. by intros [= <-]. }
  destruct l as [|b l]; [by intros [= <-]|]. cbn -[decode_char length].
  destruct (decode_char (b :: l)) as [c rest| |] eqn:E; [|done..].
  apply decode_char_Decoded in E as [El Hc].
  destruct (from_utf8_fuel _ _ rest) as [s'|] eqn:Er; [|done]. intros [= <-].
  destruct (encode_char_cons c) as (x & k & Ek). rewrite El, Ek, length_app in Hle. simpl in Hle.
  apply IH in Er as [<- Hs]; [|lia]. rewrite El. split; [done|]. cbn [forallb]. by rewrite Hc.
Qed.
