(* ===== verification/PatchParser.v ===== *)
(** * The patch parser: [apply-patch/src/parser.rs]

    Text to hunks, in the strict, lenient (heredoc) and streaming modes.  The
    two [while] loops of the source take fuel; [parse_patch_total] shows that
    the fuel given is always enough. *)

From S2P Require Import Prelude.
Local Open Scope str_scope.

(** ** Data *)

Definition BEGIN_PATCH_MARKER := lit "*** Begin Patch".
Definition END_PATCH_MARKER := lit "*** End Patch".
Definition ADD_FILE_MARKER := lit "*** Add File: ".
Definition DELETE_FILE_MARKER := lit "*** Delete File: ".
Definition UPDATE_FILE_MARKER := lit "*** Update File: ".
Definition MOVE_TO_MARKER := lit "*** Move to: ".
Definition EOF_MARKER := lit "*** End of File".
Definition CHANGE_CONTEXT_MARKER := lit "@@ ".
Definition EMPTY_CHANGE_CONTEXT_MARKER := lit "@@".

#[global] Arguments BEGIN_PATCH_MARKER : simpl never.
#[global] Arguments END_PATCH_MARKER : simpl never.
#[global] Arguments ADD_FILE_MARKER : simpl never.
#[global] Arguments DELETE_FILE_MARKER : simpl never.
#[global] Arguments UPDATE_FILE_MARKER : simpl never.
#[global] Arguments MOVE_TO_MARKER : simpl never.
#[global] Arguments EOF_MARKER : simpl never.
#[global] Arguments CHANGE_CONTEXT_MARKER : simpl never.
#[global] Arguments EMPTY_CHANGE_CONTEXT_MARKER : simpl never.

Definition PARSE_IN_STRICT_MODE : bool := false.

Inductive ParseError : Type :=
| InvalidPatchError (message : str)
| InvalidHunkError (message : str) (line_number : nat).

Record UpdateFileChunk : Type := mkChunk {
  change_context : option str;
  old_lines : list str;
  new_lines : list str;
  is_end_of_file : bool;
}.

Inductive Hunk : Type :=
| AddFile (path : str) (contents : str)
| DeleteFile (path : str)
| UpdateFile (path : str) (move_path : option str) (chunks : list UpdateFileChunk).

Inductive ParseMode : Type := Strict | Lenient | Streaming.

Record ApplyPatchArgs : Type := mkArgs {
  patch : str;
  hunks : list Hunk;
  workdir : option str;
}.

#[global] Instance parse_error_eq_dec : EqDecision ParseError.
Proof. solve_decision. Defined.
#[global] Instance chunk_eq_dec : EqDecision UpdateFileChunk.
Proof. solve_decision. Defined.
#[global] Instance hunk_eq_dec : EqDecision Hunk.
Proof. solve_decision. Defined.

(** The path a hunk affects: the destination of a rename. *)
Definition hunk_path (h : Hunk) : str :=
  match h with
  | AddFile path _ => path
  | DeleteFile path => path
  | UpdateFile _ (Some path) _ => path
  | UpdateFile path None _ => path
  end.

(** ** Patch boundaries *)

Definition check_start_and_end_lines_strict (first_line last_line : option str)
  : result ParseError unit :=
  let first_line := trim <$> first_line in
  let last_line := trim <$> last_line in
  let bad_last := Err (InvalidPatchError (lit "The last line of the patch must be '*** End Patch'")) in
  match first_line, last_line with
  | Some first, Some last =>
      if (first =? BEGIN_PATCH_MARKER) && (last =? END_PATCH_MARKER) then Ok tt
      else if negb (first =? BEGIN_PATCH_MARKER)
      then Err (InvalidPatchError (lit "The first line of the patch must be '*** Begin Patch'"))
      else bad_last
  | Some first, None =>
      if negb (first =? BEGIN_PATCH_MARKER)
      then Err (InvalidPatchError (lit "The first line of the patch must be '*** Begin Patch'"))
      else bad_last
  | None, _ => bad_last
  end.

(** [&lines[1..lines.len() - 1]] *)
Definition inner_lines (lines : list str) : list str := removelast (tail lines).

Definition check_patch_boundaries_strict (lines : list str)
  : result ParseError (list str * list str) :=
  _ ← check_start_and_end_lines_strict (head lines) (last lines);
  Ok (lines, inner_lines lines).

(** The three spellings of the heredoc's first line. *)
Definition heredoc_opening (first : str) : bool :=
  (first =? lit "<<EOF") || (first =? lit "<<'EOF'")
  || (first =? (lit "<<" ++ [34%N] ++ lit "EOF" ++ [34%N])).

Definition check_patch_boundaries_lenient (original_lines : list str)
  : result ParseError (list str * list str) :=
  match check_patch_boundaries_strict original_lines with
  | Ok lines => Ok lines
  | Err original_parse_error =>
      match original_lines with
      | first :: _ :: _ =>
          match last original_lines with
          | Some last =>
              if heredoc_opening first
                 && ends_with last (lit "EOF")
                 && (4 <=? length original_lines)%nat
              then check_patch_boundaries_strict (inner_lines original_lines)
              else Err original_parse_error
          | None => Err original_parse_error
          end
      | _ => Err original_parse_error
      end
  end.

Definition check_patch_boundaries_streaming (original_lines : list str)
  : result ParseError (list str * list str) :=
  match original_lines with
  | first :: _ =>
      if trim first =? BEGIN_PATCH_MARKER then
        let body_lines :=
          match last original_lines with
          | Some line =>
              if trim line =? END_PATCH_MARKER then inner_lines original_lines
              else tail original_lines
          | None => tail original_lines
          end in
        Ok (original_lines, body_lines)
      else check_patch_boundaries_strict original_lines
  | [] => check_patch_boundaries_strict original_lines
  end.

(** ** One chunk of an update hunk *)

Definition push_old (s : str) (c : UpdateFileChunk) : UpdateFileChunk :=
  mkChunk (change_context c) (old_lines c ++ [s]) (new_lines c) (is_end_of_file c).
Definition push_new (s : str) (c : UpdateFileChunk) : UpdateFileChunk :=
  mkChunk (change_context c) (old_lines c) (new_lines c ++ [s]) (is_end_of_file c).
Definition set_eof (c : UpdateFileChunk) : UpdateFileChunk :=
  mkChunk (change_context c) (old_lines c) (new_lines c) true.

Definition no_lines_error (line_number : nat) : ParseError :=
  InvalidHunkError (lit "Update hunk does not contain any lines") line_number.

(** The [for line in &lines[start_index..]] loop. *)
Fixpoint parse_chunk_lines (lines : list str) (line_number parsed_lines : nat)
    (chunk : UpdateFileChunk) : result ParseError (UpdateFileChunk * nat) :=
  match lines with
  | [] => Ok (chunk, parsed_lines)
  | line :: rest =>
      if line =? EOF_MARKER then
        if (parsed_lines =? 0)%nat then Err (no_lines_error (line_number + 1))
        else Ok (set_eof chunk, (parsed_lines + 1)%nat)
      else
        match line with
        | [] =>
            parse_chunk_lines rest line_number (parsed_lines + 1) (push_new [] (push_old [] chunk))
        | c :: s =>
            if (c =? ch " ")%N then
              parse_chunk_lines rest line_number (parsed_lines + 1) (push_new s (push_old s chunk))
            else if (c =? ch "+")%N then
              parse_chunk_lines rest line_number (parsed_lines + 1) (push_new s chunk)
            else if (c =? ch "-")%N then
              parse_chunk_lines rest line_number (parsed_lines + 1) (push_old s chunk)
            else if (parsed_lines =? 0)%nat then
              Err (InvalidHunkError
                     (lit "Unexpected line found in update hunk: '" ++ line
                      ++ lit "'. Every line should start with ' ' (context line), '+' (added line), or '-' (removed line)")
                     (line_number + 1))
            else Ok (chunk, parsed_lines)
        end
  end.

Definition parse_update_file_chunk (lines : list str) (line_number : nat)
    (allow_missing_context : bool) : result ParseError (UpdateFileChunk * nat) :=
  match lines with
  | [] => Err (no_lines_error line_number)
  | line0 :: _ =>
      '(change_context, start_index) ←
        (if line0 =? EMPTY_CHANGE_CONTEXT_MARKER then Ok (None, 1)
         else match strip_prefix CHANGE_CONTEXT_MARKER line0 with
              | Some context => Ok (Some context, 1)
              | None =>
                  if negb allow_missing_context then
                    Err (InvalidHunkError
                           (lit "Expected update hunk to start with a @@ context marker, got: '"
                            ++ line0 ++ lit "'") line_number)
                  else Ok (None, 0)
              end);
      if (length lines <=? start_index)%nat then Err (no_lines_error (line_number + 1))
      else
        '(chunk, parsed_lines) ←
          parse_chunk_lines (drop start_index lines) line_number 0
            (mkChunk change_context [] [] false);
        Ok (chunk, (parsed_lines + start_index)%nat)
  end.

(** ** One hunk *)

(** The [while !remaining_lines.is_empty()] loop of an update hunk: the chunks
    read and the number of lines consumed. [None]: out of fuel. *)
Fixpoint parse_chunks (fuel : nat) (remaining_lines : list str)
    (line_number parsed_lines : nat) (allow_incomplete : bool) (chunks : list UpdateFileChunk)
  : option (result ParseError (list UpdateFileChunk * nat)) :=
  match remaining_lines with
  | [] => Some (Ok (chunks, parsed_lines))
  | line0 :: rest =>
      match fuel with
      | O => None
      | S fuel =>
          if is_empty (trim line0) then
            parse_chunks fuel rest line_number (parsed_lines + 1) allow_incomplete chunks
          else if starts_with line0 (lit "*") then Some (Ok (chunks, parsed_lines))
          else if allow_incomplete && (line0 =? lit "@") then Some (Ok (chunks, parsed_lines))
          else
            match parse_update_file_chunk remaining_lines (line_number + parsed_lines)
                    (is_empty chunks) with
            | Ok (chunk, chunk_lines) =>
                parse_chunks fuel (drop chunk_lines remaining_lines) line_number
                  (parsed_lines + chunk_lines) allow_incomplete (chunks ++ [chunk])
            | Err (InvalidHunkError m n) =>
                if allow_incomplete && negb (is_empty chunks)
                then Some (Ok (chunks, parsed_lines))
                else Some (Err (InvalidHunkError m n))
            | Err err => Some (Err err)
            end
      end
  end.

(** The [for add_line in &lines[1..]] loop of an add hunk. *)
Fixpoint parse_add_lines (lines : list str) (contents : str) (parsed_lines : nat) : str * nat :=
  match lines with
  | [] => (contents, parsed_lines)
  | add_line :: rest =>
      match strip_prefix (lit "+") add_line with
      | Some line_to_add =>
          parse_add_lines rest (contents ++ line_to_add ++ [NL]) (parsed_lines + 1)
      | None => (contents, parsed_lines)
      end
  end.

(** [lines] is the non-empty slice [line0 :: rest]. *)
Definition parse_one_hunk (line0 : str) (rest : list str) (line_number : nat)
    (allow_incomplete : bool) : option (result ParseError (Hunk * nat)) :=
  let first_line := trim line0 in
  match strip_prefix ADD_FILE_MARKER first_line with
  | Some path =>
      let '(contents, parsed_lines) := parse_add_lines rest [] 1 in
      Some (Ok (AddFile path contents, parsed_lines))
  | None =>
  match strip_prefix DELETE_FILE_MARKER first_line with
  | Some path => Some (Ok (DeleteFile path, 1))
  | None =>
  match strip_prefix UPDATE_FILE_MARKER first_line with
  | Some path =>
      let move_path := match rest with
                       | x :: _ => strip_prefix MOVE_TO_MARKER x
                       | [] => None
                       end in
      let '(remaining_lines, parsed_lines) :=
        match move_path with Some _ => (tail rest, 2) | None => (rest, 1) end in
      match parse_chunks (length remaining_lines) remaining_lines line_number parsed_lines
              allow_incomplete [] with
      | None => None
      | Some (Err err) => Some (Err err)
      | Some (Ok (chunks, parsed_lines)) =>
          if is_empty chunks then
            Some (Err (InvalidHunkError
              (lit "Update file hunk for path '" ++ path ++ lit "' is empty") line_number))
          else Some (Ok (UpdateFile path move_path chunks, parsed_lines))
      end
  | None =>
      Some (Err (InvalidHunkError
        (lit "'" ++ first_line
         ++ lit "' is not a valid hunk header. Valid hunk headers: '*** Add File: {path}', '*** Delete File: {path}', '*** Update File: {path}'")
        line_number))
  end end end.

(** ** The whole patch *)

Fixpoint parse_hunks (fuel : nat) (remaining_lines : list str) (line_number : nat)
    (allow_incomplete : bool) (hunks : list Hunk) : option (result ParseError (list Hunk)) :=
  match remaining_lines with
  | [] => Some (Ok hunks)
  | line0 :: rest =>
      match fuel with
      | O => None
      | S fuel =>
          match parse_one_hunk line0 rest line_number allow_incomplete with
          | None => None
          | Some (Err err) => Some (Err err)
          | Some (Ok (hunk, hunk_lines)) =>
              parse_hunks fuel (drop hunk_lines remaining_lines) (line_number + hunk_lines)
                allow_incomplete (hunks ++ [hunk])
          end
      end
  end.

Definition parse_patch_text (patch : str) (mode : ParseMode)
  : option (result ParseError ApplyPatchArgs) :=
  let lines := lines (trim patch) in
  match (match mode with
         | Strict => check_patch_boundaries_strict lines
         | Lenient => check_patch_boundaries_lenient lines
         | Streaming => check_patch_boundaries_streaming lines
         end) with
  | Err err => Some (Err err)
  | Ok (patch_lines, hunk_lines) =>
      let allow_incomplete := match mode with Streaming => true | _ => false end in
      match parse_hunks (length hunk_lines) hunk_lines 2 allow_incomplete [] with
      | None => None
      | Some (Err err) => Some (Err err)
      | Some (Ok hunks) => Some (Ok (mkArgs (join [NL] patch_lines) hunks None))
      end
  end.

Definition parse_patch (patch : str) : option (result ParseError ApplyPatchArgs) :=
  let mode := if PARSE_IN_STRICT_MODE then Strict else Lenient in
  parse_patch_text patch mode.

Definition parse_patch_streaming (patch : str) : option (result ParseError ApplyPatchArgs) :=
  parse_patch_text patch Streaming.

(** ** Progress: every loop consumes lines, and errors point inside the patch *)

(** The line number of a hunk error lies between [lo] and [hi]. *)
Definition error_between (lo hi : nat) (e : ParseError) : Prop :=
  match e with
  | InvalidPatchError _ => False
  | InvalidHunkError _ n => lo <= n <= hi
  end.

(** A step that either consumed between [lo] and [hi] lines, or failed with a
    line number in [from..to]. *)
Definition consumes {A} (lo hi from to : nat) (r : result ParseError (A * nat)) : Prop :=
  match r with
  | Ok (_, n) => lo <= n <= hi
  | Err e => error_between from to e
  end.

Lemma parse_chunk_lines_consumes lines line_number parsed chunk :
  consumes (if (parsed =? 0)%nat then Nat.min 1 (length lines) else parsed)
    (parsed + length lines) (line_number + 1) (line_number + 1)
    (parse_chunk_lines lines line_number parsed chunk).
Proof.
  revert parsed chunk. induction lines as [|line rest IH]; intros parsed chunk; simpl.
  { destruct (Nat.eqb_spec parsed 0); simpl; lia. }
  assert (forall c', consumes (if (parsed =? 0)%nat then 1 else parsed) (parsed + S (length rest))
            (line_number + 1) (line_number + 1)
            (parse_chunk_lines rest line_number (parsed + 1) c')) as Hrec.
  { intros c'. specialize (IH (parsed + 1) c').
    destruct (Nat.eqb_spec (parsed + 1) 0); [lia|].
    destruct (parse_chunk_lines _ _ _ _) as [[? ?]|]; simpl in *;
      [destruct (Nat.eqb_spec parsed 0); lia|done]. }
  destruct (line =? EOF_MARKER); [|destruct line as [|c s]; [apply Hrec|]].
  - destruct (Nat.eqb_spec parsed 0); simpl; lia.
  - destruct (N.eqb c (ch " ")); [apply Hrec|]. destruct (N.eqb c (ch "+")); [apply Hrec|].
    destruct (N.eqb c (ch "-")); [apply Hrec|].
    destruct (Nat.eqb_spec parsed 0); simpl; lia.
Qed.

Lemma parse_update_file_chunk_consumes lines line_number allow :
  lines <> [] ->
  consumes 1 (length lines) line_number (line_number + 1)
    (parse_update_file_chunk lines line_number allow).
Proof.
  intros Hne. destruct lines as [|line0 rest]; [done|]. unfold parse_update_file_chunk.
  assert (forall ctx start, start <= 1 -> consumes 1 (length (line0 :: rest)) line_number (line_number + 1)
    (if (length (line0 :: rest) <=? start)%nat then Err (no_lines_error (line_number + 1))
     else '(chunk, parsed_lines) ←
            parse_chunk_lines (drop start (line0 :: rest)) line_number 0 (mkChunk ctx [] [] false);
          Ok (chunk, (parsed_lines + start)%nat))) as H.
  { intros ctx start Hs. destruct (Nat.leb_spec (length (line0 :: rest)) start); [simpl; lia|].
    pose proof (parse_chunk_lines_consumes (drop start (line0 :: rest)) line_number 0
                  (mkChunk ctx [] [] false)) as P.
    rewrite length_drop in P.
    destruct (parse_chunk_lines _ _ _ _) as [[c p]|[]]; cbn -[Nat.min Nat.sub] in *; lia. }
  destruct (line0 =? EMPTY_CHANGE_CONTEXT_MARKER); [apply (H None 1); lia|].
  destruct (strip_prefix CHANGE_CONTEXT_MARKER line0) as [ctx|]; [apply (H (Some ctx) 1); lia|].
  destruct allow; [apply (H None 0); lia|]. split; lia.
Qed.

Definition done_within {A} (lo hi from to : nat) (o : option (result ParseError (A * nat))) : Prop :=
  exists r, o = Some r /\ consumes lo hi from to r.

Lemma parse_chunks_done fuel lines line_number parsed allow chunks :
  length lines <= fuel ->
  done_within parsed (parsed + length lines) (line_number + parsed)
    (line_number + parsed + length lines)
    (parse_chunks fuel lines line_number parsed allow chunks).
Proof.
  revert lines parsed chunks. induction fuel as [|fuel IH]; intros [|line0 rest] parsed chunks Hf;
    simpl in Hf; try lia; cbn [parse_chunks]; try (eexists; split; [done|]; simpl; lia).
  destruct (is_empty (trim line0)).
  { destruct (IH rest (parsed + 1) chunks) as (r & -> & Hr); [lia|]. eexists; split; [done|].
    destruct r as [[? ?]|[]]; simpl in *; lia. }
  destruct (starts_with line0 (lit "*")); [eexists; split; [done|]; simpl; lia|].
  destruct (allow && (line0 =? lit "@")); [eexists; split; [done|]; simpl; lia|].
  pose proof (parse_update_file_chunk_consumes (line0 :: rest) (line_number + parsed)
                (is_empty chunks) ltac:(done)) as P.
  destruct (parse_update_file_chunk _ _ _) as [[chunk n]|[m|m n]]; simpl in P; [|done|].
  - destruct (IH (drop n (line0 :: rest)) (parsed + n) (chunks ++ [chunk])) as (r & -> & Hr).
    { rewrite length_drop. simpl. lia. }
    rewrite length_drop in Hr. simpl in Hr. eexists; split; [done|].
    destruct r as [[? ?]|[]]; simpl in *; lia.
  - destruct (allow && _); (eexists; split; [done|]; simpl; lia).
Qed.

Lemma parse_add_lines_bound lines contents parsed :
  parsed <= snd (parse_add_lines lines contents parsed) <= parsed + length lines.
Proof.
  revert contents parsed. induction lines as [|l rest IH]; intros contents parsed; simpl; [lia|].
  destruct (strip_prefix (lit "+") l) as [s|]; simpl; [|lia].
  specialize (IH (contents ++ s ++ [NL]) (parsed + 1)). lia.
Qed.

Lemma parse_one_hunk_done line0 rest line_number allow :
  done_within 1 (S (length rest)) line_number (line_number + S (length rest))
    (parse_one_hunk line0 rest line_number allow).
Proof.
  unfold parse_one_hunk.
  destruct (strip_prefix ADD_FILE_MARKER _).
  { pose proof (parse_add_lines_bound rest [] 1). destruct (parse_add_lines rest [] 1).
    eexists; split; [done|]. simpl in *. lia. }
  destruct (strip_prefix DELETE_FILE_MARKER _); [eexists; split; [done|]; simpl; lia|].
  destruct (strip_prefix UPDATE_FILE_MARKER _); [|eexists; split; [done|]; simpl; lia].
  set (mp := match rest with x :: _ => strip_prefix MOVE_TO_MARKER x | [] => None end).
  assert (exists lines k, (match mp with Some _ => (tail rest, 2) | None => (rest, 1) end) = (lines, k)
            /\ k + length lines = S (length rest) /\ 1 <= k) as (lines & k & -> & Hl & Hk).
  { subst mp. destruct rest as [|x rest]; [repeat eexists; simpl; lia|].
    destruct (strip_prefix MOVE_TO_MARKER x); repeat eexists; simpl; lia. }
  destruct (parse_chunks_done (length lines) lines line_number k allow []) as (r & -> & Hr); [lia|].
  destruct r as [[chunks p]|[]]; simpl in Hr; [|done|eexists; split; [done|]; simpl; lia].
  destruct (is_empty chunks); (eexists; split; [done|]; simpl; lia).
Qed.

Lemma parse_hunks_done fuel lines line_number allow hunks :
  length lines <= fuel ->
  exists r, parse_hunks fuel lines line_number allow hunks = Some r
            /\ match r with
               | Ok _ => True
               | Err e => error_between line_number (line_number + length lines) e
               end.
Proof.
  revert lines line_number hunks.
  induction fuel as [|fuel IH]; intros [|line0 rest] line_number hunks Hf;
    simpl in Hf; try lia; cbn [parse_hunks]; try (by eexists).
  destruct (parse_one_hunk_done line0 rest line_number allow) as (r & -> & Hr).
  destruct r as [[h n]|e]; simpl in Hr; [|by eexists].
  destruct (IH (drop n (line0 :: rest)) (line_number + n) (hunks ++ [h])) as (r & -> & Hr').
  { rewrite length_drop. simpl. lia. }
  rewrite length_drop in Hr'. simpl in Hr'. eexists; split; [done|].
  destruct r as [|[]]; [done|done|]. simpl in *. lia.
Qed.

(** ** Boundaries *)

Lemma length_inner_lines l : length (inner_lines l) = length l - 2.
Proof.
  unfold inner_lines. destruct l as [|a l]; [done|]. simpl.
  destruct l as [|x l] using rev_ind; [done|].
  rewrite removelast_last, length_app. simpl. lia.
Qed.

(** The body a successful boundary check leaves, and its errors. *)
Definition boundaries_within (slack : nat) (ls : list str)
    (r : result ParseError (list str * list str)) : Prop :=
  match r with
  | Ok (_, body) => length body + slack <= length ls
  | Err e => exists m, e = InvalidPatchError m
  end.

Lemma markers_differ : BEGIN_PATCH_MARKER <> END_PATCH_MARKER.
Proof. by vm_compute. Qed.

Lemma check_strict_Ok ls p b :
  check_patch_boundaries_strict ls = Ok (p, b) ->
  p = ls /\ b = inner_lines ls /\ 2 <= length ls
  /\ (trim <$> head ls) = Some BEGIN_PATCH_MARKER /\ (trim <$> last ls) = Some END_PATCH_MARKER.
Proof.
  unfold check_patch_boundaries_strict, check_start_and_end_lines_strict.
  destruct ls as [|a ls]; [done|]. simpl head.
  destruct (last (a :: ls)) as [z|] eqn:Hz; [|by apply last_None in Hz]. simpl.
  destruct ((trim a =? BEGIN_PATCH_MARKER) && (trim z =? END_PATCH_MARKER)) eqn:E;
    [|by destruct (negb _)].
  bool_to_prop. intros [= <- <-]. split_and!; try done; try (by f_equal).
  destruct ls; simpl; [|lia]. injection Hz as <-. pose proof markers_differ. congruence.
Qed.

Lemma check_strict_within ls : boundaries_within 2 ls (check_patch_boundaries_strict ls).
Proof.
  destruct (check_patch_boundaries_strict ls) as [[p b]|e] eqn:E.
  - apply check_strict_Ok in E as (-> & -> & H & _). simpl. rewrite length_inner_lines. lia.
  - revert E. unfold check_patch_boundaries_strict, check_start_and_end_lines_strict.
    intros [E|[? [? ?]]]%result_bind_Err; [|done]. simpl. repeat case_match; simplify_eq; eauto.
Qed.

Lemma check_lenient_within ls : boundaries_within 2 ls (check_patch_boundaries_lenient ls).
Proof.
  unfold check_patch_boundaries_lenient. pose proof (check_strict_within ls) as H.
  destruct (check_patch_boundaries_strict ls) as [|e]; [done|].
  destruct ls as [|a [|b ls]]; [done..|].
  destruct (last _); [|done]. destruct (_ && _); [|done].
  pose proof (check_strict_within (inner_lines (a :: b :: ls))) as Hi.
  destruct (check_patch_boundaries_strict _) as [[? ?]|]; [|done].
  simpl in *. rewrite length_inner_lines in Hi. simpl in Hi. lia.
Qed.

Lemma check_streaming_within ls : boundaries_within 1 ls (check_patch_boundaries_streaming ls).
Proof.
  pose proof (check_strict_within ls) as H.
  assert (boundaries_within 1 ls (check_patch_boundaries_strict ls)) as H1.
  { destruct (check_patch_boundaries_strict ls) as [[]|]; simpl in *; [lia|done]. }
  unfold check_patch_boundaries_streaming. destruct ls as [|a ls]; [done|].
  destruct (trim a =? BEGIN_PATCH_MARKER); [|done]. simpl.
  pose proof (length_inner_lines (a :: ls)).
  repeat case_match; simpl in *; lia.
Qed.

Lemma parse_patch_text_returns patch mode : is_Some (parse_patch_text patch mode).
Proof.
  unfold parse_patch_text.
  destruct (match mode with Strict => _ | Lenient => _ | Streaming => _ end) as [[p b]|e];
    [|by eexists].
  destruct (parse_hunks_done (length b) b 2 (match mode with Streaming => true | _ => false end) [])
    as (r & -> & _); [done|]. destruct r; eauto.
Qed.

(** C14: parsing a patch always ends, in every mode, and a hunk error names a
    line of the patch text: at least 2 (line 1 is the begin marker) and at
    most the last line, or the one after it when a patch is still streaming. *)
Theorem parse_patch_total (patch : str) (mode : ParseMode) :
  exists r, parse_patch_text patch mode = Some r
  /\ forall message n, r = Err (InvalidHunkError message n) ->
     2 <= n <= length (lines (trim patch)) + match mode with Streaming => 1 | _ => 0 end.
Proof.
  unfold parse_patch_text. set (ls := lines (trim patch)).
  set (r := match mode with Strict => _ | Lenient => _ | Streaming => _ end).
  assert (boundaries_within (match mode with Streaming => 1 | _ => 2 end) ls r) as H.
  { subst r. destruct mode;
      [apply check_strict_within|apply check_lenient_within|apply check_streaming_within]. }
  destruct r as [[p b]|e]; simpl in H.
  - destruct (parse_hunks_done (length b) b 2 (match mode with Streaming => true | _ => false end) [])
      as (r & -> & Hr); [done|].
    destruct r as [hs|e]; eexists; (split; [done|]); [done|].
    intros m n [= ->]. simpl in Hr. destruct mode; lia.
  - destruct H as [m ->]. eexists. split; [done|]. done.
Qed.

Lemma parse_patch_total_witness :
  exists m, parse_patch_text (lit "*** Begin Patch" ++ [NL] ++ lit "*** Frobnicate" ++ [NL]
                              ++ lit "*** End Patch") Strict
            = Some (Err (InvalidHunkError m 2)) /\ 2 <= 2 <= 3.
Proof.
  destruct (parse_patch_total (lit "*** Begin Patch" ++ [NL] ++ lit "*** Frobnicate" ++ [NL]
                               ++ lit "*** End Patch") Strict) as (r & E & H).
  vm_compute in E. injection E as <-. eexists. split; [reflexivity|].
  exact (H _ 2 eq_refl).
Defined.

(** ** The modes agree *)

Lemma parse_chunks_streaming fuel lines line_number parsed chunks x :
  parse_chunks fuel lines line_number parsed false chunks = Some (Ok x) ->
  parse_chunks fuel lines line_number parsed true chunks = Some (Ok x).
Proof.
  revert lines parsed chunks. induction fuel as [|fuel IH]; intros [|line0 rest] parsed chunks;
    cbn [parse_chunks]; try done.
  destruct (is_empty (trim line0)); [by apply IH|].
  destruct (starts_with line0 (lit "*")); [done|].
  destruct (line0 =? lit "@") eqn:Hat; cbn [andb].
  - (* only an error in the other modes *)
    apply bool_decide_eq_true in Hat as ->. unfold parse_update_file_chunk.
    by destruct (is_empty chunks).
  - destruct (parse_update_file_chunk _ _ _) as [[c n]|[]]; [by apply IH|done..].
Qed.

Lemma parse_one_hunk_streaming line0 rest line_number x :
  parse_one_hunk line0 rest line_number false = Some (Ok x) ->
  parse_one_hunk line0 rest line_number true = Some (Ok x).
Proof.
  unfold parse_one_hunk.
  destruct (strip_prefix ADD_FILE_MARKER _); [done|].
  destruct (strip_prefix DELETE_FILE_MARKER _); [done|].
  destruct (strip_prefix UPDATE_FILE_MARKER _); [|done].
  set (mp := match rest with x :: _ => strip_prefix MOVE_TO_MARKER x | [] => None end).
  destruct (match mp with Some _ => (tail rest, 2) | None => (rest, 1) end) as [lines k].
  destruct (parse_chunks (length lines) lines line_number k false []) as [[[cs p]|]|] eqn:E;
    [|done..].
  by rewrite (parse_chunks_streaming _ _ _ _ _ _ E).
Qed.

Lemma parse_hunks_streaming fuel lines line_number hunks x :
  parse_hunks fuel lines line_number false hunks = Some (Ok x) ->
  parse_hunks fuel lines line_number true hunks = Some (Ok x).
Proof.
  revert lines line_number hunks.
  induction fuel as [|fuel IH]; intros [|line0 rest] line_number hunks; cbn [parse_hunks]; try done.
  destruct (parse_one_hunk line0 rest line_number false) as [[[h n]|]|] eqn:E; [|done..].
  rewrite (parse_one_hunk_streaming _ _ _ _ E). apply IH.
Qed.

Lemma check_lenient_heredoc m ls e :
  heredoc_opening m = true -> ends_with e (lit "EOF") = true ->
  2 <= length ls ->
  check_patch_boundaries_lenient (m :: ls ++ [e]) =
    check_patch_boundaries_strict ls.
Proof.
  intros Hm He Hlen. unfold check_patch_boundaries_lenient.
  assert (inner_lines (m :: ls ++ [e]) = ls) as ->.
  { unfold inner_lines. simpl. by rewrite removelast_last. }
  assert (exists err, check_patch_boundaries_strict (m :: ls ++ [e]) = Err err) as [err ->].
  { destruct (check_patch_boundaries_strict (m :: ls ++ [e])) as [[p b]|err] eqn:E; [|eauto].
    apply check_strict_Ok in E as (_ & _ & _ & E & _). simpl in E. injection E as E.
    exfalso. revert E. unfold heredoc_opening in Hm.
    apply orb_true_iff in Hm as [[Hm|Hm]%orb_true_iff|Hm];
      apply bool_decide_eq_true in Hm as ->; by vm_compute. }
  destruct ls as [|a ls]; [simpl in Hlen; lia|]. cbn [app].
  change (m :: a :: ls ++ [e]) with ((m :: a :: ls) ++ [e]). rewrite last_snoc, Hm, He.
  assert ((4 <=? length ((m :: a :: ls) ++ [e]))%nat = true) as ->.
  { apply Nat.leb_le. rewrite length_app. simpl in *. lia. }
  done.
Qed.

(** The three modes agree on complete patches: whatever the strict mode
    accepts, the lenient and the streaming modes accept with the same result,
    and the lenient mode also accepts it wrapped in a heredoc, with the
    wrapper removed from the recorded patch text. *)
Theorem parse_modes_agree (patch doc m e : str) (args : ApplyPatchArgs) :
  parse_patch_text patch Strict = Some (Ok args) ->
  heredoc_opening m = true -> ends_with e (lit "EOF") = true ->
  lines (trim doc) = m :: lines (trim patch) ++ [e] ->
  parse_patch_text patch Lenient = Some (Ok args)
  /\ parse_patch_text patch Streaming = Some (Ok args)
  /\ parse_patch_text doc Lenient = Some (Ok args).
Proof.
  unfold parse_patch_text. intros H Hm He ->. revert H.
  destruct (check_patch_boundaries_strict (lines (trim patch))) as [[p b]|] eqn:Hs; [|done].
  destruct (parse_hunks (length b) b 2 false []) as [[hs|]|] eqn:Hh; [|done..].
  intros [= <-]. pose proof (check_strict_Ok _ _ _ Hs) as (-> & -> & Hlen & Hb & Hl).
  rewrite check_lenient_heredoc, Hs, Hh by done.
  unfold check_patch_boundaries_lenient. rewrite Hs, Hh. split; [done|]. split; [|done].
  assert (check_patch_boundaries_streaming (lines (trim patch))
          = Ok (lines (trim patch), inner_lines (lines (trim patch)))) as ->.
  { unfold check_patch_boundaries_streaming. destruct (lines (trim patch)) as [|a ls]; [done|].
    simpl in Hb. injection Hb as Hb. rewrite bool_decide_eq_true_2 by done.
    destruct (last (a :: ls)); [|done]. simpl in Hl. injection Hl as Hl.
    by rewrite bool_decide_eq_true_2. }
  by rewrite (parse_hunks_streaming _ _ _ _ _ Hh).
Qed.

Definition text_of (l : list string) : str := join [NL] (map lit l).

Lemma parse_modes_agree_witness :
  exists args,
    parse_patch_text (text_of ["*** Begin Patch"; "*** Delete File: a"; "*** End Patch"]) Streaming
      = Some (Ok args)
    /\ parse_patch_text (text_of ["<<'EOF'"; "*** Begin Patch"; "*** Delete File: a";
                                  "*** End Patch"; "EOF"]) Lenient = Some (Ok args).
Proof.
  eexists.
  exact (proj2 (parse_modes_agree
    (text_of ["*** Begin Patch"; "*** Delete File: a"; "*** End Patch"])
    (text_of ["<<'EOF'"; "*** Begin Patch"; "*** Delete File: a"; "*** End Patch"; "EOF"])
    (lit "<<'EOF'") (lit "EOF") _ eq_refl eq_refl eq_refl eq_refl)).
Defined.

(** The grammar in the parser's header makes the changes of an update optional;
    the parser does not. *)
Example move_without_change_rejected :
  parse_patch (text_of ["*** Begin Patch"; "*** Update File: a"; "*** Move to: b"; "*** End Patch"])
  = Some (Err (InvalidHunkError (lit "Update file hunk for path 'a' is empty") 2)).
Proof. vm_compute. reflexivity. Qed.

(** The third line is the bad one; the error names the fourth. *)
Example unexpected_line_off_by_one :
  exists message,
    parse_patch (text_of ["*** Begin Patch"; "*** Update File: f.py"; "bad"; "*** End Patch"])
    = Some (Err (InvalidHunkError message 4)).
Proof. eexists. vm_compute. reflexivity. Qed.
