(* ===== verification/PatchPrint.v ===== *)
(** * The patch grammar, printed: [parser.rs] against its own grammar

    The header comment of [parser.rs] gives the grammar of patches.  Here is
    the printer of that grammar and the proof that the parser inverts it, in
    all three modes. *)

From S2P Require Import Prelude PatchParser.
Local Open Scope str_scope.

(** ** The printer *)

Definition minus_line (s : str) : str := ch "-" :: s.
Definition plus_line (s : str) : str := ch "+" :: s.

Definition print_context (c : option str) : str :=
  match c with
  | None => EMPTY_CHANGE_CONTEXT_MARKER
  | Some s => CHANGE_CONTEXT_MARKER ++ s
  end.

Definition print_chunk (c : UpdateFileChunk) : list str :=
  print_context (change_context c)
  :: map minus_line (old_lines c) ++ map plus_line (new_lines c)
     ++ (if is_end_of_file c then [EOF_MARKER] else []).

(** The lines of a file that ends with a line feed, or is empty. *)
Definition content_lines (contents : str) : list str := removelast (split_char NL contents).

Definition print_move (m : option str) : list str :=
  match m with Some d => [MOVE_TO_MARKER ++ d] | None => [] end.

Definition print_hunk (h : Hunk) : list str :=
  match h with
  | AddFile path contents => (ADD_FILE_MARKER ++ path) :: map plus_line (content_lines contents)
  | DeleteFile path => [DELETE_FILE_MARKER ++ path]
  | UpdateFile path m chunks =>
      (UPDATE_FILE_MARKER ++ path) :: print_move m ++ (chunks ≫= print_chunk)
  end.

Definition print_patch_lines (hs : list Hunk) : list str :=
  BEGIN_PATCH_MARKER :: (hs ≫= print_hunk) ++ [END_PATCH_MARKER].

Definition print_patch (hs : list Hunk) : str := join [NL] (print_patch_lines hs).

(** ** What can be printed *)

(** A path: one line, not empty, and not ending in white space, which the
    parser trims. *)
Definition wf_path (p : str) : Prop :=
  wf_line p /\ exists c, last p = Some c /\ is_whitespace c = false.

Definition wf_chunk (c : UpdateFileChunk) : Prop :=
  match change_context c with Some s => wf_line s | None => True end
  /\ Forall wf_line (old_lines c) /\ Forall wf_line (new_lines c)
  /\ old_lines c ++ new_lines c <> [].

Definition wf_hunk (h : Hunk) : Prop :=
  match h with
  | AddFile path contents =>
      wf_path path /\ last (split_char NL contents) = Some []
      /\ Forall wf_line (content_lines contents)
  | DeleteFile path => wf_path path
  | UpdateFile path m chunks =>
      wf_path path /\ match m with Some d => wf_line d | None => True end
      /\ chunks <> [] /\ Forall wf_chunk chunks
  end.

(** ** Lines *)

Lemma wf_line_cons c s : c <> NL -> c <> CR -> wf_line s -> wf_line (c :: s).
Proof.
  intros Hn Hc [H1 H2]. split; [rewrite not_elem_of_cons; auto|].
  rewrite last_cons. destruct (last s); congruence.
Qed.

Lemma wf_line_app p s : wf_line p -> wf_line s -> wf_line (p ++ s).
Proof.
  intros [Hp1 Hp2] [Hs1 Hs2]. split; [rewrite not_elem_of_app; auto|].
  rewrite last_app. destruct (last s); congruence.
Qed.

Lemma wf_line_lit (s : string) : bool_decide (wf_line (lit s)) = true -> wf_line (lit s).
Proof. apply bool_decide_eq_true. Qed.

Ltac wf_lit := apply wf_line_lit; reflexivity.

Lemma wf_print_chunk c : wf_chunk c -> Forall wf_line (print_chunk c).
Proof.
  intros (Hc & Ho & Hn & _). unfold print_chunk. constructor.
  - unfold print_context, CHANGE_CONTEXT_MARKER, EMPTY_CHANGE_CONTEXT_MARKER.
    destruct (change_context c); [apply wf_line_app; [wf_lit|done]|wf_lit].
  - rewrite !Forall_app. split_and!.
    + apply Forall_fmap. eapply Forall_impl; [exact Ho|]. intros. by apply wf_line_cons.
    + apply Forall_fmap. eapply Forall_impl; [exact Hn|]. intros. by apply wf_line_cons.
    + destruct (is_end_of_file c); [apply Forall_singleton; unfold EOF_MARKER; wf_lit|constructor].
Qed.

Lemma wf_print_hunk h : wf_hunk h -> Forall wf_line (print_hunk h).
Proof.
  destruct h as [p s|p|p m cs]; cbn [wf_hunk print_hunk];
    unfold ADD_FILE_MARKER, DELETE_FILE_MARKER, UPDATE_FILE_MARKER.
  - intros ([Hp _] & _ & Hs). constructor; [apply wf_line_app; [wf_lit|done]|].
    apply Forall_fmap. eapply Forall_impl; [exact Hs|]. intros. by apply wf_line_cons.
  - intros [Hp _]. constructor; [apply wf_line_app; [wf_lit|done]|constructor].
  - intros ([Hp _] & Hm & _ & Hcs). constructor; [apply wf_line_app; [wf_lit|done]|].
    apply Forall_app. split.
    + destruct m; cbn [print_move]; [|constructor]. apply Forall_singleton.
      unfold MOVE_TO_MARKER. apply wf_line_app; [wf_lit|done].
    + apply Forall_bind. eapply Forall_impl; [exact Hcs|]. by apply wf_print_chunk.
Qed.

Lemma wf_print_patch hs : Forall wf_hunk hs -> Forall wf_line (print_patch_lines hs).
Proof.
  intros H. unfold print_patch_lines, BEGIN_PATCH_MARKER, END_PATCH_MARKER.
  constructor; [wf_lit|]. apply Forall_app. split; [|apply Forall_singleton; wf_lit].
  apply Forall_bind. eapply Forall_impl; [exact H|]. by apply wf_print_hunk.
Qed.

(** ** Parsing what was printed: chunks *)

(** What may follow a printed chunk, and a printed hunk. *)
Definition after_chunk (rest : list str) : Prop :=
  match rest with
  | [] => True
  | l :: _ => l <> EOF_MARKER /\ exists a s, l = ch a :: s /\ (a = "@"%char \/ a = "*"%char)
  end.
Definition after_hunk (rest : list str) : Prop :=
  match rest with
  | [] => True
  | l :: _ => l <> EOF_MARKER /\ exists s, l = ch "*" :: s
  end.

Lemma after_hunk_chunk rest : after_hunk rest -> after_chunk rest.
Proof. destruct rest as [|l rest]; [done|]. intros (H & s & E). split; [done|]. eauto. Qed.

Lemma parse_minus_line s rest ln p c :
  parse_chunk_lines (minus_line s :: rest) ln p c = parse_chunk_lines rest ln (p + 1) (push_old s c).
Proof. reflexivity. Qed.

Lemma parse_plus_line s rest ln p c :
  parse_chunk_lines (plus_line s :: rest) ln p c = parse_chunk_lines rest ln (p + 1) (push_new s c).
Proof. reflexivity. Qed.

Lemma parse_chunk_lines_minus old rest ln p c :
  parse_chunk_lines (map minus_line old ++ rest) ln p c
  = parse_chunk_lines rest ln (p + length old)
      (mkChunk (change_context c) (old_lines c ++ old) (new_lines c) (is_end_of_file c)).
Proof.
  revert p c. induction old as [|s old IH]; intros p c; cbn [map app length].
  - rewrite Nat.add_0_r, app_nil_r. by destruct c.
  - rewrite parse_minus_line, IH. cbn. rewrite <- app_assoc.
    by replace (p + S (length old)) with (p + 1 + length old) by lia.
Qed.

Lemma parse_chunk_lines_plus new rest ln p c :
  parse_chunk_lines (map plus_line new ++ rest) ln p c
  = parse_chunk_lines rest ln (p + length new)
      (mkChunk (change_context c) (old_lines c) (new_lines c ++ new) (is_end_of_file c)).
Proof.
  revert p c. induction new as [|s new IH]; intros p c; cbn [map app length].
  - rewrite Nat.add_0_r, app_nil_r. by destruct c.
  - rewrite parse_plus_line, IH. cbn. rewrite <- app_assoc.
    by replace (p + S (length new)) with (p + 1 + length new) by lia.
Qed.

Lemma parse_chunk_lines_stop rest ln p c :
  after_chunk rest -> 0 < p -> parse_chunk_lines rest ln p c = Ok (c, p).
Proof.
  intros Hr Hp. destruct rest as [|l rest]; [done|]. cbn [parse_chunk_lines].
  destruct Hr as (Hne & a & s & -> & Ha). rewrite bool_decide_eq_false_2 by done.
  assert ((p =? 0)%nat = false) as -> by (by apply Nat.eqb_neq; lia).
  destruct Ha as [-> | ->]; reflexivity.
Qed.

Lemma parse_chunk_lines_eof rest ln p c :
  0 < p -> parse_chunk_lines (EOF_MARKER :: rest) ln p c = Ok (set_eof c, p + 1).
Proof.
  intros Hp. cbn [parse_chunk_lines]. rewrite bool_decide_eq_true_2 by done.
  by assert ((p =? 0)%nat = false) as -> by (by apply Nat.eqb_neq; lia).
Qed.

(** The body of a printed chunk. *)
Lemma parse_print_chunk_body c rest ln :
  wf_chunk c -> after_chunk rest ->
  parse_chunk_lines (tail (print_chunk c) ++ rest) ln 0 (mkChunk (change_context c) [] [] false)
  = Ok (c, length (tail (print_chunk c))).
Proof.
  intros (_ & _ & _ & Hne) Hr. unfold print_chunk. cbn [tail].
  rewrite <- !app_assoc, parse_chunk_lines_minus, parse_chunk_lines_plus.
  assert (0 < length (old_lines c) + length (new_lines c)).
  { rewrite <- length_app. destruct (old_lines c ++ new_lines c); [done|simpl; lia]. }
  rewrite !length_app, !length_map.
  destruct c as [ctx old new []];
    cbn [change_context old_lines new_lines is_end_of_file app length set_eof] in *.
  - rewrite parse_chunk_lines_eof by lia. unfold set_eof. cbn. do 2 f_equal. lia.
  - rewrite parse_chunk_lines_stop by (done || lia). do 2 f_equal. lia.
Qed.

Ltac drop_one :=
  match goal with |- context [drop 1 (?x :: ?l)] => change (drop 1 (x :: l)) with l end.

Lemma parse_print_chunk c rest ln allow :
  wf_chunk c -> after_chunk rest ->
  parse_update_file_chunk (print_chunk c ++ rest) ln allow = Ok (c, length (print_chunk c)).
Proof.
  intros Hc Hr. pose proof (parse_print_chunk_body c rest ln Hc Hr) as Hbody.
  assert (0 < length (tail (print_chunk c))) as Hlen.
  { destruct Hc as (_ & _ & _ & Hne). unfold print_chunk. cbn [tail].
    rewrite !length_app, !length_map. destruct (old_lines c), (new_lines c); simpl in *; [done|lia..]. }
  unfold print_chunk in *. cbn [tail app] in *. unfold parse_update_file_chunk.
  assert (forall X, (length (print_context (change_context c) :: X ++ rest) <=? 1)%nat = false
          \/ length X = 0) as Hlong.
  { intros X. destruct X; [by right|left]. apply Nat.leb_gt. simpl. lia. }
  edestruct Hlong as [Hl|Hl]; [|rewrite Hl in Hlen; lia].
  destruct (change_context c) as [ctx|] eqn:Ectx; cbn [print_context] in *.
  - rewrite bool_decide_eq_false_2 by done. rewrite strip_prefix_app. cbn [mbind result_bind].
    rewrite Hl. drop_one. rewrite Hbody. cbn. do 2 f_equal. lia.
  - rewrite bool_decide_eq_true_2 by done. cbn [mbind result_bind].
    rewrite Hl. drop_one. rewrite Hbody. cbn. do 2 f_equal. lia.
Qed.

Lemma print_chunk_starts c rest : after_chunk (print_chunk c ++ rest).
Proof.
  unfold print_chunk. cbn [app].
  destruct (change_context c) as [s|]; (split; [done|]); exists "@"%char; eexists;
    (split; [reflexivity|by left]).
Qed.

Lemma parse_chunks_stop fuel rest ln p allow cs :
  after_hunk rest -> length rest <= fuel ->
  parse_chunks fuel rest ln p allow cs = Some (Ok (cs, p)).
Proof.
  intros Hr Hf. destruct rest as [|l rest]; [by destruct fuel|].
  destruct Hr as (_ & s & ->).
  destruct fuel as [|fuel]; [simpl in Hf; lia|]. cbn [parse_chunks].
  destruct (trim (ch "*" :: s)) eqn:E; [by apply trim_not_nil in E|]. reflexivity.
Qed.

Lemma parse_chunks_print fuel cs rest ln p allow acc :
  Forall wf_chunk cs -> after_hunk rest -> length ((cs ≫= print_chunk) ++ rest) <= fuel ->
  parse_chunks fuel ((cs ≫= print_chunk) ++ rest) ln p allow acc
  = Some (Ok (acc ++ cs, p + length (cs ≫= print_chunk))).
Proof.
  intros Hcs Hr. revert fuel p acc.
  induction Hcs as [|c cs Hc Hcs IH]; intros fuel p acc Hf.
  { cbn [mbind list_bind app length] in *. rewrite parse_chunks_stop by done. by rewrite app_nil_r, Nat.add_0_r. }
  rewrite bind_list_cons, <- app_assoc in *.
  assert (after_chunk ((cs ≫= print_chunk) ++ rest)) as Hafter.
  { destruct cs as [|c' cs]; [by apply after_hunk_chunk|].
    rewrite bind_list_cons, <- app_assoc.
    apply print_chunk_starts. }
  pose proof (parse_print_chunk c ((cs ≫= print_chunk) ++ rest) (ln + p) (is_empty acc) Hc Hafter) as P.
  assert (exists l X, print_chunk c ++ (cs ≫= print_chunk) ++ rest = l :: X
            /\ is_empty (trim l) = false /\ starts_with l (lit "*") = false /\ l <> lit "@")
    as (l & X & E & H1 & H2 & H3).
  { unfold print_chunk. cbn [app]. eexists _, _. split; [reflexivity|].
    destruct (change_context c) as [s|]; (split; [|done]);
      destruct (trim _) eqn:E; try done; by apply trim_not_nil in E. }
  rewrite length_app in Hf. rewrite E in *.
  assert (length (print_chunk c) <> 0) by (unfold print_chunk; simpl; lia).
  destruct fuel as [|fuel]; [lia|]. cbn [parse_chunks].
  rewrite H1, H2, (bool_decide_eq_false_2 _ H3), andb_false_r, P, <- E.
  rewrite drop_app_length, IH by lia. by rewrite length_app, <- app_assoc, <- Nat.add_assoc.
Qed.

(** ** Parsing what was printed: hunks *)

Lemma trim_header (m : string) p :
  match head (lit m) with Some c => is_whitespace c = false | None => False end ->
  wf_path p -> trim (lit m ++ p) = lit m ++ p.
Proof.
  intros Hm [_ (z & Hz & Hw)]. apply trim_id.
  destruct (lit m) as [|a l]; [done|]. simpl in Hm. cbn [app head].
  change (a :: l ++ p) with ((a :: l) ++ p). by rewrite last_app, Hz.
Qed.

Lemma parse_add_lines_print ls rest contents n :
  after_hunk rest ->
  parse_add_lines (map plus_line ls ++ rest) contents n
  = (contents ++ (ls ≫= fun l => l ++ [NL]), n + length ls).
Proof.
  intros Hr. revert contents n. induction ls as [|s ls IH]; intros contents n.
  - cbn. rewrite app_nil_r, Nat.add_0_r. destruct rest as [|l rest]; [done|].
    destruct Hr as (_ & s & ->). reflexivity.
  - cbn [map app parse_add_lines]. change (strip_prefix (lit "+") (plus_line s)) with (Some s).
    cbn iota. rewrite IH, bind_list_cons, <- !app_assoc. f_equal. simpl. lia.
Qed.

Lemma content_lines_concat contents :
  last (split_char NL contents) = Some [] ->
  (content_lines contents ≫= fun l => l ++ [NL]) = contents.
Proof.
  unfold content_lines. induction contents as [|c s IH]; [done|]. revert IH. simpl.
  destruct (N.eqb_spec c NL) as [->|Hc]; intros IH.
  - intros H. rewrite last_cons in H.
    assert (last (split_char NL s) = Some []) as H'.
    { destruct (last (split_char NL s)) eqn:E; [done|].
      apply last_None in E. by apply split_char_not_nil in E. }
    specialize (IH H'). destruct (split_char NL s) as [|h t]; [done|].
    cbn [removelast] in *. by rewrite bind_list_cons, IH.
  - revert IH. destruct (split_char NL s) as [|h t]; [done|]. intros IH H.
    destruct t as [|h' t]; [done|]. cbn [removelast] in *. rewrite bind_list_cons in *.
    rewrite last_cons_cons in *. cbn [app]. f_equal. by apply IH.
Qed.

Lemma parse_print_hunk h rest ln allow :
  wf_hunk h -> after_hunk rest ->
  parse_one_hunk (hd [] (print_hunk h)) (tail (print_hunk h) ++ rest) ln allow
  = Some (Ok (h, length (print_hunk h))).
Proof.
  intros Hh Hr. destruct h as [p s|p|p m cs]; cbn [wf_hunk print_hunk hd tail] in *;
    unfold parse_one_hunk.
  - destruct Hh as (Hp & Hs & _). unfold ADD_FILE_MARKER in *. rewrite trim_header by done.
    rewrite strip_prefix_app, parse_add_lines_print by done. cbn [app length].
    by rewrite content_lines_concat, length_map.
  - unfold DELETE_FILE_MARKER in *. rewrite trim_header by done. by rewrite strip_prefix_app.
  - destruct Hh as (Hp & Hm & Hne & Hcs). unfold UPDATE_FILE_MARKER in *.
    rewrite trim_header by done. rewrite strip_prefix_app.
    set (body := (cs ≫= print_chunk) ++ rest).
    assert (strip_prefix MOVE_TO_MARKER (hd [] body) = None) as Hbody.
    { subst body. destruct cs as [|c cs]; [done|]. unfold print_chunk.
      cbn [mbind list_bind app hd]. by destruct (change_context c). }
    assert (parse_chunks (length body) body ln (1 + length (print_move m)) allow []
            = Some (Ok (cs, 1 + length (print_move m) + length (cs ≫= print_chunk)))) as Hchunks
      by (by apply parse_chunks_print).
    rewrite <- app_assoc. fold body. cbn [length]. rewrite length_app.
    destruct m as [d|]; cbn [print_move app length Nat.add] in *.
    + rewrite strip_prefix_app. cbn [tail]. rewrite Hchunks. destruct cs; [done|].
      done.
    + clearbody body. destruct body as [|x body];
        [simpl in Hchunks; injection Hchunks as <- ?; done|]. cbn [hd] in Hbody.
      rewrite Hbody, Hchunks. destruct cs; [done|]. done.
Qed.

Lemma print_hunk_cons h : print_hunk h = hd [] (print_hunk h) :: tail (print_hunk h).
Proof. by destruct h. Qed.

Lemma after_hunk_print hs : after_hunk (hs ≫= print_hunk).
Proof.
  destruct hs as [|h hs]; [done|]. rewrite bind_list_cons, print_hunk_cons.
  split; destruct h; try done; eexists; reflexivity.
Qed.

Lemma parse_hunks_print fuel hs ln allow acc :
  Forall wf_hunk hs -> length (hs ≫= print_hunk) <= fuel ->
  parse_hunks fuel (hs ≫= print_hunk) ln allow acc = Some (Ok (acc ++ hs)).
Proof.
  intros Hhs. revert fuel ln acc. induction Hhs as [|h hs Hh Hhs IH]; intros fuel ln acc Hf.
  { destruct fuel; cbn; by rewrite app_nil_r. }
  rewrite bind_list_cons, length_app in *.
  pose proof (parse_print_hunk h (hs ≫= print_hunk) ln allow Hh (after_hunk_print hs)) as P.
  pose proof (print_hunk_cons h) as E. 
  destruct fuel as [|fuel]; [rewrite E in Hf; simpl in Hf; lia|].
  set (n := length (print_hunk h)) in *.
  assert (drop n (print_hunk h ++ (hs ≫= print_hunk)) = hs ≫= print_hunk) as Hd
    by (subst n; by rewrite drop_app_length).
  rewrite E in Hd |- *. cbn [app parse_hunks] in *. rewrite P, Hd, IH, <- app_assoc; [done|].
  assert (n <> 0) by (subst n; by rewrite E). lia.
Qed.

(** ** The theorem *)

Lemma trim_print_patch hs : trim (print_patch hs) = print_patch hs.
Proof.
  apply trim_id. unfold print_patch, print_patch_lines.
  rewrite app_comm_cons, join_snoc by done. 
  replace (head (join [NL] (BEGIN_PATCH_MARKER :: (hs ≫= print_hunk)) ++ [NL] ++ END_PATCH_MARKER))
    with (Some (ch "*")).
  - by rewrite app_assoc, last_app.
  - by destruct (hs ≫= print_hunk).
Qed.

(** C13: the parser inverts the printer of its grammar: printing any
    well-formed hunks and parsing the text, in any of the three modes, gives
    the same hunks, and the patch text itself, back. *)
Theorem parse_print_patch (hs : list Hunk) (mode : ParseMode) :
  Forall wf_hunk hs ->
  parse_patch_text (print_patch hs) mode = Some (Ok (mkArgs (print_patch hs) hs None)).
Proof.
  intros Hhs. unfold parse_patch_text. rewrite trim_print_patch.
  assert (lines (print_patch hs) = print_patch_lines hs) as ->.
  { apply lines_join; [by apply wf_print_patch|]. unfold print_patch_lines.
    by rewrite app_comm_cons, last_snoc. }
  assert (check_patch_boundaries_strict (print_patch_lines hs)
          = Ok (print_patch_lines hs, hs ≫= print_hunk)) as Hs.
  { unfold check_patch_boundaries_strict, print_patch_lines, inner_lines.
    rewrite app_comm_cons, last_snoc. cbn [head tail app]. rewrite removelast_last. reflexivity. }
  set (r := match mode with Strict => _ | Lenient => _ | Streaming => _ end).
  assert (r = Ok (print_patch_lines hs, hs ≫= print_hunk)) as ->.
  { subst r. destruct mode; [done|by unfold check_patch_boundaries_lenient; rewrite Hs|].
    unfold check_patch_boundaries_streaming, print_patch_lines, inner_lines.
    rewrite app_comm_cons, last_snoc. cbn [tail app]. rewrite removelast_last. reflexivity. }
  by rewrite parse_hunks_print.
Qed.

Definition sample_hunks : list Hunk :=
  [AddFile (lit "a b.txt") (lit "x" ++ [NL] ++ [NL]);
   DeleteFile (lit "old");
   UpdateFile (lit "src/m.py") (Some (lit "src/n.py"))
     [mkChunk (Some (lit "def f():")) [lit " pass"] [lit " return 1"; []] true;
      mkChunk None [] [lit "tail"] false]].

#[global] Instance wf_path_dec p : Decision (wf_path p).
Proof.
  unfold wf_path. destruct (last p) as [c|] eqn:E; [destruct (is_whitespace c) eqn:W|].
  - right. intros [_ (? & [= <-] & ?)]. congruence.
  - destruct (decide (wf_line p)); [left; eauto|right; tauto].
  - right. by intros [_ (? & ? & ?)].
Defined.

#[global] Instance wf_chunk_dec c : Decision (wf_chunk c).
Proof. unfold wf_chunk. destruct (change_context c); apply _. Defined.

#[global] Instance wf_hunk_dec h : Decision (wf_hunk h).
Proof. destruct h as [| |? [] ?]; simpl; apply _. Defined.

Lemma parse_print_patch_witness :
  parse_patch_text (print_patch sample_hunks) Lenient
  = Some (Ok (mkArgs (print_patch sample_hunks) sample_hunks None)).
Proof.
  apply parse_print_patch. by apply (bool_decide_unpack _).
Defined.
