(* ===== verification/PatchReparse.v ===== *)
(** * The recorded patch text parses again

    [parse_patch] records, next to the hunks, the text of the patch without a
    heredoc around it; that text is what is later handed to the tool that
    applies the patch, which parses it once more. *)

From S2P Require Import Prelude Trim PatchParser.
Local Open Scope str_scope.

(** ** The lines of an accepted patch *)

(** A line without line breaks. *)
Definition clean_line (s : str) : Prop := Forall (fun c => c <> NL /\ c <> CR) s.

Lemma clean_wf_line s : clean_line s -> wf_line s.
Proof.
  intros H. split.
  - intros Hin. unfold clean_line in H. rewrite Forall_forall in H. by destruct (H _ Hin).
  - intros Hl. apply last_Some in Hl as [s' ->]. apply Forall_app in H as [_ H].
    apply Forall_cons in H as [[_ H] _]. done.
Qed.

Lemma split_char_chars (P : N -> Prop) c s : Forall P s -> Forall (Forall P) (split_char c s).
Proof.
  induction 1 as [|x s Hx Hs IH]; simpl; [by repeat constructor|].
  destruct (N.eqb x c); [by repeat constructor|].
  destruct (split_char c s) as [|h t]; [by repeat constructor|].
  apply Forall_cons in IH as [Hh Ht]. by repeat constructor.
Qed.

Lemma strip_cr_Forall (P : N -> Prop) s : Forall P s -> Forall P (strip_cr s).
Proof.
  intros H. unfold strip_cr. destruct (strip_suffix [CR] s) as [r|] eqn:E; [|done].
  apply strip_suffix_Some in E. subst s. by apply Forall_app in H as [H _].
Qed.

Lemma lines_clean s : Forall (fun c => c <> CR) s -> Forall clean_line (lines s).
Proof.
  intros Hs. unfold lines.
  assert (Forall clean_line (split_char NL s)) as H.
  { pose proof (split_char_chars _ NL s Hs) as H1. pose proof (split_char_Forall NL s) as H2.
    eapply Forall_impl; [apply Forall_and; split; [exact H1|exact H2]|]. simpl.
    intros t [Hc Hn]. apply Forall_forall. intros c Hin. rewrite Forall_forall in Hc.
    split; [by intros ->|by apply Hc]. }
  induction H as [|t l Ht Hl IH]; simpl; [constructor|].
  destruct l as [|t' l]; [destruct t; simpl; [constructor|by apply Forall_singleton]|].
  constructor; [by apply strip_cr_Forall|done].
Qed.

Lemma Forall_tail {A} (P : A -> Prop) l : Forall P l -> Forall P (tail l).
Proof. by destruct 1. Qed.

Lemma Forall_removelast {A} (P : A -> Prop) l : Forall P l -> Forall P (removelast l).
Proof.
  induction 1 as [|x l Hx Hl IH]; simpl; [done|]. destruct l; by constructor.
Qed.

Lemma check_lenient_Ok ls p b :
  check_patch_boundaries_lenient ls = Ok (p, b) ->
  check_patch_boundaries_strict p = Ok (p, b) /\ (p = ls \/ p = inner_lines ls).
Proof.
  unfold check_patch_boundaries_lenient.
  destruct (check_patch_boundaries_strict ls) as [[p' b']|e] eqn:E.
  { intros [= <- <-]. pose proof (check_strict_Ok _ _ _ E) as [-> _]. auto. }
  destruct ls as [|a [|a' ls]]; [done..|]. destruct (last _); [|done]. destruct (_ && _); [|done].
  intros E'. pose proof (check_strict_Ok _ _ _ E') as [-> _]. auto.
Qed.

(** An accepted patch: its first and last lines with blanks around the
    markers, and what is between. *)
Lemma check_strict_shape p b :
  check_patch_boundaries_strict p = Ok (p, b) ->
  exists a z, p = a :: b ++ [z] /\ trim a = BEGIN_PATCH_MARKER /\ trim z = END_PATCH_MARKER.
Proof.
  intros H. apply check_strict_Ok in H as (_ & -> & Hlen & Ha & Hz).
  destruct p as [|a p]; [done|]. destruct p as [|z p _] using rev_ind; [simpl in Hlen; lia|].
  rewrite app_comm_cons, last_snoc in Hz. simpl in Ha, Hz. injection Ha as Ha. injection Hz as Hz.
  exists a, z. unfold inner_lines. simpl. by rewrite removelast_last.
Qed.

Lemma check_strict_intro a b z :
  trim a = BEGIN_PATCH_MARKER -> trim z = END_PATCH_MARKER ->
  check_patch_boundaries_strict (a :: b ++ [z]) = Ok (a :: b ++ [z], b).
Proof.
  intros Ha Hz. unfold check_patch_boundaries_strict, check_start_and_end_lines_strict.
  rewrite app_comm_cons, last_snoc. cbn [head option_map fmap option_fmap app].
  rewrite Ha, Hz, !bool_decide_eq_true_2 by done. cbn.
  unfold inner_lines. cbn [tail]. by rewrite removelast_last.
Qed.

Lemma trim_join a b z :
  trim a <> [] -> trim z <> [] ->
  trim (join [NL] (a :: b ++ [z])) = join [NL] (trim_start a :: b ++ [trim_end z]).
Proof.
  intros [Ha _]%trim_not_nil_sides [_ Hz]%trim_not_nil_sides.
  assert (forall a z, join [NL] (a :: b ++ [z]) = (a ++ drop 0 (join [NL] ([] :: b) ++ [NL])) ++ z) as J.
  { intros a' z'. rewrite drop_0, app_comm_cons, join_snoc by done.
    destruct b as [|x b]; cbn; by rewrite <- ?app_assoc; cbn; rewrite <- ?app_assoc. }
  rewrite !J. unfold trim. rewrite trim_end_app, <- app_assoc, trim_start_app, app_assoc by done.
  done.
Qed.

(** The text recorded with the parsed hunks, which later is handed to the
    tool, parses to the same hunks, heredoc or not (for a patch without
    carriage returns, of which [lines] drops one per line each time). *)
Theorem parse_patch_reparses (text : str) (args : ApplyPatchArgs) :
  Forall (fun c => c <> CR) text ->
  parse_patch text = Some (Ok args) ->
  exists args', parse_patch (patch args) = Some (Ok args') /\ hunks args' = hunks args.
Proof.
  intros Hcr. change parse_patch with (fun p => parse_patch_text p Lenient). cbn beta.
  unfold parse_patch_text at 1.
  destruct (check_patch_boundaries_lenient (lines (trim text))) as [[p b]|] eqn:E; [|done].
  destruct (parse_hunks (length b) b 2 false []) as [[hs|]|] eqn:Eh; [|done..].
  intros [= <-]. cbn [patch hunks].
  assert (Forall clean_line p) as Hp.
  { assert (Forall clean_line (lines (trim text))) as Hl.
    { apply lines_clean, trim_start_Forall, trim_end_Forall, Hcr. }
    apply check_lenient_Ok in E as [_ [->| ->]]; [done|].
    by apply Forall_removelast, Forall_tail. }
  apply check_lenient_Ok in E as [(a & z & -> & Ha & Hz)%check_strict_shape _].
  apply Forall_cons in Hp as [Hpa [Hpb [Hpz _]%Forall_cons]%Forall_app].
  assert (trim a <> [] /\ trim z <> []) as [Ha0 Hz0] by (rewrite Ha, Hz; by split).
  pose proof (trim_not_nil_sides _ Ha0) as [Ha1 _]. pose proof (trim_not_nil_sides _ Hz0) as [_ Hz1].
  unfold parse_patch_text. rewrite trim_join by done. rewrite lines_join.
  - unfold check_patch_boundaries_lenient. rewrite check_strict_intro, Eh; [by eexists| |].
    + by rewrite trim_of_trim_start.
    + by rewrite trim_of_trim_end.
  - constructor; [by apply clean_wf_line, trim_start_Forall|].
    apply Forall_app. split; [by eapply Forall_impl, clean_wf_line|].
    apply Forall_singleton. by apply clean_wf_line, trim_end_Forall.
  - rewrite app_comm_cons, last_snoc. by intros [= ?].
Qed.

Lemma parse_patch_reparses_witness :
  exists args', parse_patch (text_of ["*** Begin Patch"; "*** Delete File: a"; " *** End Patch"])
                = Some (Ok args')
  /\ hunks args' = [DeleteFile (lit "a")].
Proof.
  apply (parse_patch_reparses
           (text_of ["<<EOF"; "*** Begin Patch"; "*** Delete File: a"; " *** End Patch"; "EOF"])
           (mkArgs (text_of ["*** Begin Patch"; "*** Delete File: a"; " *** End Patch"])
                   [DeleteFile (lit "a")] None)).
  - apply Forall_forall. intros c Hc ->. revert Hc.
    apply (bool_decide_eq_false_1 (CR ∈ _)). vm_compute. reflexivity.
  - vm_compute. reflexivity.
Defined.

(** With two carriage returns before a line feed the second parse loses one. *)
Example reparse_loses_cr :
  exists args args',
    parse_patch (lit "*** Begin Patch" ++ [NL] ++ lit "*** Add File: a" ++ [NL] ++ lit "+x" ++ [CR; CR; NL]
                 ++ lit "*** End Patch") = Some (Ok args)
    /\ parse_patch (patch args) = Some (Ok args')
    /\ hunks args = [AddFile (lit "a") (lit "x" ++ [CR; NL])]
    /\ hunks args' = [AddFile (lit "a") (lit "x" ++ [NL])].
Proof. do 2 eexists. split_and!; vm_compute; reflexivity. Qed.
