(* ===== verification/SeekSequence.v ===== *)
(** * Locating lines in a file: [apply-patch/src/seek_sequence.rs] *)

From S2P Require Import Prelude.
Local Open Scope str_scope.

(** Typographic punctuation to ASCII. *)
Definition normalise_char (c : N) : N :=
  (if (0x2010 <=? c) && (c <=? 0x2015) || (c =? 0x2212) then ch "-"
   else if (0x2018 <=? c) && (c <=? 0x201B) then ch "'"
   else if (0x201C <=? c) && (c <=? 0x201F) then 34
   else if (c =? 0xA0) || (0x2002 <=? c) && (c <=? 0x200A) || (c =? 0x202F) || (c =? 0x205F)
           || (c =? 0x3000) then ch " "
   else c)%N.

Definition normalise (s : str) : str := map normalise_char (trim s).

(** [lo..=hi] *)
Definition range_incl (lo hi : nat) : list nat := seq lo (S hi - lo).

(** The window of [lines] at [i] equals [pattern], both seen through [view]. *)
Definition matches_at (view : str -> str) (lines pattern : list str) (i : nat) : bool :=
  bool_decide (map view (take (length pattern) (drop i lines)) = map view pattern).

Definition search_start (lines pattern : list str) (start : nat) (eof : bool) : nat :=
  if eof && (length pattern <=? length lines)%nat then (length lines - length pattern)%nat
  else start.

Definition seek_sequence (lines pattern : list str) (start : nat) (eof : bool) : option nat :=
  if is_empty pattern then Some start
  else if (length lines <? length pattern)%nat then None
  else
    let range := range_incl (search_start lines pattern start eof)
                            (length lines - length pattern) in
    match find (matches_at id lines pattern) range with
    | Some i => Some i
    | None =>
    match find (matches_at trim_end lines pattern) range with
    | Some i => Some i
    | None =>
    match find (matches_at trim lines pattern) range with
    | Some i => Some i
    | None => find (matches_at normalise lines pattern) range
    end end end.

(** ** Specification *)

(** The four views, from strict to lenient. *)
Definition views : list (str -> str) := [id; trim_end; trim; normalise].

Definition in_range (lines pattern : list str) (start : nat) (eof : bool) (i : nat) : Prop :=
  search_start lines pattern start eof <= i /\ i + length pattern <= length lines.

(** Each view sees at most what the stricter ones see. *)
Lemma trim_end_trim s t : trim_end s = trim_end t -> trim s = trim t.
Proof. unfold trim. by intros ->. Qed.

Lemma map_view_coarser (f g : str -> str) l m :
  (forall s t, f s = f t -> g s = g t) -> map f l = map f m -> map g l = map g m.
Proof.
  intros H. revert m. induction l as [|s l IH]; intros [|t m]; simpl; intros E; simplify_eq; [done|].
  f_equal; auto.
Qed.

Lemma matches_at_coarser (f g : str -> str) lines pattern i :
  (forall s t, f s = f t -> g s = g t) ->
  matches_at f lines pattern i = true -> matches_at g lines pattern i = true.
Proof.
  unfold matches_at. intros H E. apply bool_decide_eq_true in E. apply bool_decide_eq_true.
  eauto using map_view_coarser.
Qed.

Lemma matches_at_normalise (view : str -> str) lines pattern i :
  view ∈ views -> matches_at view lines pattern i = true ->
  matches_at normalise lines pattern i = true.
Proof.
  intros Hv. apply matches_at_coarser. intros s t. unfold normalise.
  repeat apply elem_of_cons in Hv as [->|Hv]; [by intros [= ->]|..|by apply elem_of_nil in Hv].
  - intros H. by rewrite (trim_end_trim _ _ H).
  - by intros ->.
  - done.
Qed.

Lemma elem_of_range lines pattern start eof i :
  length pattern <= length lines ->
  i ∈ range_incl (search_start lines pattern start eof) (length lines - length pattern)
  <-> in_range lines pattern start eof i.
Proof. intros H. unfold range_incl, in_range. rewrite elem_of_seq. lia. Qed.

(** [find] over a range gives the least index that satisfies the test. *)
Lemma find_range_Some (f : nat -> bool) lo hi i :
  find f (range_incl lo hi) = Some i ->
  f i = true /\ lo <= i <= hi /\ forall j, lo <= j < i -> f j = false.
Proof.
  unfold range_incl. remember (S hi - lo) as n eqn:Hn.
  assert (lo + n <= S hi \/ n = 0) as Hb by lia. clear Hn.
  revert lo Hb. induction n as [|n IH]; intros lo Hb; simpl; [done|].
  destruct (f lo) eqn:E.
  - intros [= <-]. split_and!; [done|lia..|lia].
  - intros H. apply IH in H as (Hi & Hr & Hlt); [|lia]. split_and!; [done|lia..|].
    intros j Hj. destruct (decide (j = lo)) as [->|]; [done|]. apply Hlt. lia.
Qed.

Lemma find_range_None (f : nat -> bool) l :
  find f l = None -> forall j, j ∈ l -> f j = false.
Proof.
  intros H j Hj. apply (find_none f l H). by apply list_elem_of_In.
Qed.

(** The first of several tests, in order, that some index passes. *)
Definition first_found (tests : list (nat -> bool)) (l : list nat) : option nat :=
  foldr (fun f o => match find f l with Some i => Some i | None => o end) None tests.

Lemma first_found_spec tests lo hi :
  match first_found tests (range_incl lo hi) with
  | Some i => exists k f, tests !! k = Some f /\ f i = true /\ lo <= i <= hi
              /\ (forall j, lo <= j < i -> f j = false)
              /\ (forall k' f' j, k' < k -> tests !! k' = Some f' -> j ∈ range_incl lo hi -> f' j = false)
  | None => forall f j, f ∈ tests -> j ∈ range_incl lo hi -> f j = false
  end.
Proof.
  induction tests as [|f tests IH]; simpl; [by intros f j ?%elem_of_nil|].
  destruct (find f (range_incl lo hi)) as [i|] eqn:E.
  - apply find_range_Some in E as (Hf & [Hlo Hhi] & Hlt). exists 0, f.
    split_and!; try done. intros k' f' j Hk'. lia.
  - pose proof (find_range_None f _ E) as Hn.
    destruct (first_found tests (range_incl lo hi)) as [i|].
    + destruct IH as (k & g & Hg & Hi & [Hlo Hhi] & Hlt & Hk). exists (S k), g.
      split_and!; try done.
      intros [|k'] f' j Hk' Hf Hj; simpl in Hf; simplify_eq; [by apply Hn|].
      apply (Hk k'); [lia|done..].
    + intros g j [->|Hg]%elem_of_cons Hj; [by apply Hn|by eapply IH].
Qed.

Lemma seek_sequence_first_found lines pattern start eof :
  pattern <> [] -> length pattern <= length lines ->
  seek_sequence lines pattern start eof
  = first_found (map (fun view => matches_at view lines pattern) views)
      (range_incl (search_start lines pattern start eof) (length lines - length pattern)).
Proof.
  intros Hne Hlen. unfold seek_sequence. destruct pattern as [|a l]; [done|].
  cbn [is_empty]. destruct (Nat.ltb_spec (length lines) (length (a :: l))); [lia|].
  cbn [map views first_found foldr]. by repeat destruct (find _ _).
Qed.

(** What the rest of the development needs: a hit lies inside the file, not
    before the search start, and matches. *)
Lemma seek_sequence_sound lines pattern start eof i :
  seek_sequence lines pattern start eof = Some i -> pattern <> [] ->
  in_range lines pattern start eof i /\ matches_at normalise lines pattern i = true.
Proof.
  intros H Hne. destruct (decide (length pattern <= length lines)) as [Hlen|Hlen].
  - rewrite seek_sequence_first_found in H by done.
    pose proof (first_found_spec (map (fun view => matches_at view lines pattern) views)
      (search_start lines pattern start eof) (length lines - length pattern)) as P.
    rewrite H in P. destruct P as (k & f & Hk & Hf & Hr & _).
    split; [unfold in_range; lia|]. apply list_elem_of_lookup_2 in Hk.
    apply list_elem_of_fmap in Hk as (view & -> & Hv). by apply (matches_at_normalise view).
  - unfold seek_sequence in H. destruct pattern as [|a l]; [done|]. cbn [is_empty] in H.
    destruct (Nat.ltb_spec (length lines) (length (a :: l))); [done|lia].
Qed.

(** [seek_sequence] gives the first index, from the search start, at
    which the pattern matches under the strictest of its four views that
    matches anywhere; it fails only when even the most lenient view matches
    nowhere in the range, and the matched window lies inside the file. *)
Theorem seek_sequence_spec (lines pattern : list str) (start : nat) (eof : bool) :
  match seek_sequence lines pattern start eof with
  | Some i =>
      (pattern = [] /\ i = start)
      \/ (pattern <> [] /\ in_range lines pattern start eof i
          /\ exists k view, views !! k = Some view
             /\ matches_at view lines pattern i = true
             /\ (forall j, in_range lines pattern start eof j -> j < i ->
                  matches_at view lines pattern j = false)
             /\ (forall k' view' j, k' < k -> views !! k' = Some view' ->
                  in_range lines pattern start eof j -> matches_at view' lines pattern j = false))
  | None =>
      pattern <> [] /\ forall view i, view ∈ views -> in_range lines pattern start eof i ->
        matches_at view lines pattern i = false
  end.
Proof.
  destruct (decide (pattern = [])) as [->|Hne]; [simpl; by left|].
  destruct (decide (length pattern <= length lines)) as [Hlen|Hlen].
  - rewrite seek_sequence_first_found by done.
    pose proof (first_found_spec (map (fun view => matches_at view lines pattern) views)
      (search_start lines pattern start eof) (length lines - length pattern)) as H.
    destruct (first_found _ _) as [i|].
    + right. split; [done|]. destruct H as (k & f & Hk & Hf & Hr & Hmin & Hprev).
      rewrite list_lookup_fmap in Hk.
      destruct (views !! k) as [view|] eqn:Ev; [|done]. injection Hk as <-.
      split; [unfold in_range; lia|]. exists k, view. split_and!; [done..| |].
      * intros j [Hj _] Hlt. by apply Hmin.
      * intros k' view' j Hk' Ev' Hj.
        apply (Hprev k' (fun j => matches_at view' lines pattern j)); [done| |by apply elem_of_range].
        by rewrite list_lookup_fmap, Ev'.
    + split; [done|]. intros view i Hv Hi.
      apply (H (matches_at view lines pattern)); [|by apply elem_of_range].
      apply list_elem_of_fmap. eauto.
  - unfold seek_sequence. destruct pattern as [|a l]; [done|]. cbn [is_empty].
    destruct (Nat.ltb_spec (length lines) (length (a :: l))); [|lia].
    split; [done|]. intros view i _ [_ Hi]. lia.
Qed.


(** With the end-of-file flag the search start is ignored: the only index
    tried is the last one, and there is no second search from [start]. *)
Lemma seek_eof_only_last lines pattern start i :
  pattern <> [] -> seek_sequence lines pattern start true = Some i ->
  i = length lines - length pattern.
Proof.
  intros Hne H. apply seek_sequence_sound in H as [[Hs Hl] _]; [|done].
  unfold search_start in Hs. simpl in Hs.
  destruct (Nat.leb_spec (length pattern) (length lines)); lia.
Qed.

Example seek_eof_no_fallback :
  seek_sequence [lit "a"; lit "b"] [lit "a"] 0 true = None
  /\ seek_sequence [lit "a"; lit "b"] [lit "a"] 0 false = Some 0.
Proof. split; reflexivity. Qed.
