(* ===== verification/Replacements.v ===== *)
(** * Replacing lines: the pure core of [apply-patch/src/lib.rs]

    [compute_replacements] turns the chunks of an update hunk into line
    replacements, [apply_replacements] performs them on the vector of lines
    (in descending order, with [Vec::remove] and [Vec::insert], whose panics
    are [None]), and [derive_new_contents] does both on a file's text. *)

From S2P Require Import Prelude PatchParser SeekSequence.
Local Open Scope str_scope.

(** ** The operations *)

(** [(start_index, old_len, new_lines)] *)
Definition Replacement : Type := nat * nat * list str.
Definition rep_start (r : Replacement) : nat := fst (fst r).
Definition rep_len (r : Replacement) : nat := snd (fst r).
Definition rep_new (r : Replacement) : list str := snd r.

Definition last_is_empty (l : list str) : bool :=
  match last l with Some s => is_empty s | None => false end.

(** One turn of the loop over [chunks], from [line_index]: the replacement
    and the new [line_index], or the message of [ComputeReplacements]. *)
Definition chunk_replacement (original_lines : list str) (path : str) (line_index : nat)
    (chunk : UpdateFileChunk) : result str (Replacement * nat) :=
  line_index ←
    (match change_context chunk with
     | Some ctx_line =>
         match seek_sequence original_lines [ctx_line] line_index false with
         | Some idx => Ok (idx + 1)%nat
         | None => Err (lit "Failed to find context '" ++ ctx_line ++ lit "' in " ++ path)
         end
     | None => Ok line_index
     end);
  if is_empty (old_lines chunk) then
    let insertion_idx :=
      if last_is_empty original_lines then (length original_lines - 1)%nat
      else length original_lines in
    Ok ((insertion_idx, 0, new_lines chunk), line_index)
  else
    let seek pattern := seek_sequence original_lines pattern line_index (is_end_of_file chunk) in
    let '(pattern, new_slice, found) :=
      match seek (old_lines chunk) with
      | Some i => (old_lines chunk, new_lines chunk, Some i)
      | None =>
          if last_is_empty (old_lines chunk) then
            let pattern := removelast (old_lines chunk) in
            let new_slice := if last_is_empty (new_lines chunk) then removelast (new_lines chunk)
                             else new_lines chunk in
            (pattern, new_slice, seek pattern)
          else (old_lines chunk, new_lines chunk, None)
      end in
    match found with
    | Some start_idx =>
        Ok ((start_idx, length pattern, new_slice), (start_idx + length pattern)%nat)
    | None =>
        Err (lit "Failed to find expected lines in " ++ path ++ lit ":" ++ [NL]
             ++ join [NL] (old_lines chunk))
    end.

Fixpoint chunk_replacements (original_lines : list str) (path : str) (line_index : nat)
    (chunks : list UpdateFileChunk) : result str (list Replacement) :=
  match chunks with
  | [] => Ok []
  | chunk :: chunks =>
      '(r, line_index) ← chunk_replacement original_lines path line_index chunk;
      rs ← chunk_replacements original_lines path line_index chunks;
      Ok (r :: rs)
  end.

Definition rep_leb (lhs rhs : Replacement) : bool := (rep_start lhs <=? rep_start rhs)%nat.

Definition compute_replacements (original_lines : list str) (path : str)
    (chunks : list UpdateFileChunk) : result str (list Replacement) :=
  replacements ← chunk_replacements original_lines path 0 chunks;
  Ok (sort_by rep_leb replacements).

(** [for _ in 0..n { if i < lines.len() { lines.remove(i); } }] *)
Fixpoint remove_lines (n i : nat) (lines : list str) : list str :=
  match n with
  | O => lines
  | S n =>
      remove_lines n i
        (if (i <? length lines)%nat then take i lines ++ drop (S i) lines else lines)
  end.

(** [Vec::insert]: panics past the end. *)
Definition vec_insert (i : nat) (x : str) (lines : list str) : option (list str) :=
  if (i <=? length lines)%nat then Some (take i lines ++ x :: drop i lines) else None.

(** The loop that inserts [new_segment] at [i], [i + 1], ... *)
Fixpoint insert_lines (i : nat) (new_segment lines : list str) : option (list str) :=
  match new_segment with
  | [] => Some lines
  | x :: rest => lines ← vec_insert i x lines; insert_lines (S i) rest lines
  end.

Definition apply_replacement (lines : list str) (r : Replacement) : option (list str) :=
  insert_lines (rep_start r) (rep_new r) (remove_lines (rep_len r) (rep_start r) lines).

Definition apply_replacements (lines : list str) (replacements : list Replacement)
  : option (list str) :=
  foldl (fun o r => lines ← o; apply_replacement lines r) (Some lines) (rev replacements).

(** [original_contents.split('\n')], without the empty piece that a final
    line feed leaves. *)
Definition split_file_lines (original_contents : str) : list str :=
  let original_lines := split_char NL original_contents in
  if last_is_empty original_lines then removelast original_lines else original_lines.

(** The new lines, joined, with a final line feed. *)
Definition join_file_lines (new_lines : list str) : str :=
  join [NL] (if last_is_empty new_lines then new_lines else new_lines ++ [[]]).

(** The text part of [derive_new_contents_from_chunks]; the inner [None] is a
    panic. *)
Definition derive_new_contents (path original_contents : str) (chunks : list UpdateFileChunk)
  : result str (option str) :=
  let original_lines := split_file_lines original_contents in
  replacements ← compute_replacements original_lines path chunks;
  Ok (join_file_lines <$> apply_replacements original_lines replacements).

(** ** Specification: splicing *)

(** The lines from [pos] on, with the replacements made. *)
Fixpoint splice (pos : nat) (lines : list str) (rs : list Replacement) : list str :=
  match rs with
  | [] => drop pos lines
  | r :: rs =>
      take (rep_start r - pos) (drop pos lines) ++ rep_new r
      ++ splice (rep_start r + rep_len r) lines rs
  end.

(** Replacements in order, one after the other, inside a file of [n] lines. *)
Fixpoint ordered (pos n : nat) (rs : list Replacement) : Prop :=
  match rs with
  | [] => pos <= n
  | r :: rs => pos <= rep_start r /\ ordered (rep_start r + rep_len r) n rs
  end.

Lemma ordered_le pos n rs : ordered pos n rs -> pos <= n.
Proof.
  revert pos. induction rs as [|r rs IH]; intros pos; simpl; [done|].
  intros [H1 H2]. apply IH in H2. lia.
Qed.

Lemma remove_lines_spec n i lines :
  i + n <= length lines -> remove_lines n i lines = take i lines ++ drop (i + n) lines.
Proof.
  revert lines. induction n as [|n IH]; intros lines H; simpl.
  - by rewrite Nat.add_0_r, take_drop.
  - destruct (Nat.ltb_spec i (length lines)); [|lia].
    rewrite IH by (rewrite length_app, length_take, length_drop; lia).
    rewrite take_app_le by (rewrite length_take; lia). rewrite take_take, Nat.min_id.
    rewrite drop_app_ge by (rewrite length_take; lia). rewrite length_take, drop_drop.
    do 2 f_equal. lia.
Qed.

Lemma insert_lines_spec i new lines :
  i <= length lines -> insert_lines i new lines = Some (take i lines ++ new ++ drop i lines).
Proof.
  revert i lines. induction new as [|x new IH]; intros i lines H; simpl.
  - by rewrite take_drop.
  - unfold vec_insert. destruct (Nat.leb_spec i (length lines)); [|lia]. simpl.
    rewrite IH by (rewrite length_app, length_take; simpl; rewrite length_drop; lia).
    f_equal.
    rewrite take_app_ge by (rewrite length_take; lia).
    rewrite drop_app_ge by (rewrite length_take; lia).
    rewrite length_take, Nat.min_l by lia. replace (S i - i) with 1 by lia. simpl.
    by rewrite <- app_assoc, drop_0, take_0.
Qed.

Lemma apply_replacement_spec lines r :
  rep_start r + rep_len r <= length lines ->
  apply_replacement lines r
  = Some (take (rep_start r) lines ++ rep_new r ++ drop (rep_start r + rep_len r) lines).
Proof.
  intros H. unfold apply_replacement. rewrite remove_lines_spec by done.
  rewrite insert_lines_spec by (rewrite length_app, length_take, length_drop; lia). f_equal.
  rewrite take_app_le by (rewrite length_take; lia).
  rewrite drop_app_ge by (rewrite length_take; lia).
  rewrite length_take, take_take, Nat.min_id. f_equal. f_equal.
  rewrite Nat.min_l by lia. by rewrite Nat.sub_diag, drop_0.
Qed.

(** What the replacements not yet made (those of [rs]) leave in front. *)
Lemma apply_replacements_rev_spec lines rs pos :
  ordered pos (length lines) rs ->
  apply_replacements lines rs = Some (take pos lines ++ splice pos lines rs).
Proof.
  revert pos. induction rs as [|r rs IH]; intros pos; simpl; intros H.
  - by rewrite take_drop.
  - destruct H as [Hpos Hrs]. pose proof (ordered_le _ _ _ Hrs) as Hle.
    unfold apply_replacements in *. simpl. rewrite foldl_app, (IH _ Hrs). simpl.
    rewrite apply_replacement_spec by (rewrite length_app, length_take; lia).
    f_equal. rewrite take_app_le by (rewrite length_take; lia).
    rewrite take_take, Nat.min_l by lia.
    rewrite drop_app_ge by (rewrite length_take; lia). rewrite length_take, Nat.min_l by lia.
    rewrite Nat.sub_diag, drop_0.
    rewrite !app_assoc. do 2 f_equal. rewrite <- (take_drop pos (take (rep_start r) lines)) at 1.
    by rewrite take_take, Nat.min_l, skipn_firstn_comm by lia.
Qed.

(** Applying replacements that are in order and do not overlap, which the
    code does from the last to the first by removing and inserting single
    lines, never panics and is the splice: the new lines in place of the old
    ones and every other line untouched. *)
Theorem apply_replacements_splice (lines : list str) (rs : list Replacement) :
  ordered 0 (length lines) rs ->
  apply_replacements lines rs = Some (splice 0 lines rs).
Proof. intros H. by rewrite (apply_replacements_rev_spec lines rs 0 H). Qed.

Lemma apply_replacements_splice_witness :
  apply_replacements [lit "a"; lit "b"; lit "c"] [(0, 1, [lit "x"; lit "y"]); (2, 1, [])]
  = Some [lit "x"; lit "y"; lit "b"].
Proof.
  rewrite (apply_replacements_splice [lit "a"; lit "b"; lit "c"]
             [(0, 1, [lit "x"; lit "y"]); (2, 1, [])] ltac:(cbn; lia)).
  reflexivity.
Defined.

(** ** What the chunks ask for *)

(** The replacement [r] is the one the chunk describes: its old lines stand
    at [rep_start r] (up to the most lenient view), possibly without a final
    empty line, which the new lines then lose too; no old lines means an
    insertion at the end. *)
Definition describes (lines : list str) (chunk : UpdateFileChunk) (r : Replacement) : Prop :=
  if is_empty (old_lines chunk) then r = (length lines, 0, new_lines chunk)
  else exists pattern,
    rep_len r = length pattern
    /\ matches_at normalise lines pattern (rep_start r) = true
    /\ ((pattern = old_lines chunk /\ rep_new r = new_lines chunk)
        \/ (old_lines chunk = pattern ++ [[]]
            /\ (new_lines chunk = rep_new r \/ new_lines chunk = rep_new r ++ [[]]))).

Lemma last_is_empty_snoc l : last_is_empty l = true -> l = removelast l ++ [[]].
Proof.
  unfold last_is_empty. destruct l as [|x l] using rev_ind; [done|].
  rewrite last_snoc, removelast_last. by destruct x.
Qed.

Lemma matches_at_nil view lines i : matches_at view lines [] i = true.
Proof. unfold matches_at. by rewrite take_0 by done. Qed.

(** A hit of [seek_sequence] without the end-of-file flag. *)
Lemma seek_plain lines pattern start i :
  start <= length lines -> seek_sequence lines pattern start false = Some i ->
  start <= i /\ i + length pattern <= length lines /\ matches_at normalise lines pattern i = true.
Proof.
  intros Hs H. destruct (decide (pattern = [])) as [->|Hne].
  - injection H as <-. rewrite matches_at_nil. simpl. split_and!; [lia..|done].
  - apply seek_sequence_sound in H as [[H1 H2] H3]; [|done]. done.
Qed.

(** The line index only moves forward and stays inside the file. *)
Lemma context_index lines path li chunk li' :
  li <= length lines ->
  (match change_context chunk with
   | Some ctx_line =>
       match seek_sequence lines [ctx_line] li false with
       | Some idx => Ok (idx + 1)%nat
       | None => Err (lit "Failed to find context '" ++ ctx_line ++ lit "' in " ++ path)
       end
   | None => Ok li
   end) = Ok li' ->
  li <= li' <= length lines.
Proof.
  intros Hli. destruct (change_context chunk) as [ctx|]; [|intros [= <-]; lia].
  destruct (seek_sequence _ _ _ _) as [i|] eqn:E; [|done]. intros [= <-].
  apply seek_plain in E as (H1 & H2 & _); [|done]. simpl in H2. lia.
Qed.

(** A chunk without the end-of-file flag, on a file whose last line is not
    empty if the chunk is a pure addition. *)
Definition plain_chunk (lines : list str) (chunk : UpdateFileChunk) : Prop :=
  is_end_of_file chunk = false
  /\ (old_lines chunk = [] -> last_is_empty lines = false).

Definition is_insertion (lines : list str) (r : Replacement) : Prop :=
  rep_start r = length lines /\ rep_len r = 0.

Lemma chunk_replacement_plain lines path li chunk r li' :
  li <= length lines -> plain_chunk lines chunk ->
  chunk_replacement lines path li chunk = Ok (r, li') ->
  describes lines chunk r /\ li <= li' <= length lines
  /\ (is_insertion lines r \/ (li <= rep_start r /\ rep_start r + rep_len r = li')).
Proof.
  intros Hli [Heof Hadd] H. unfold chunk_replacement in H.
  apply result_bind_Ok in H as (li1 & Hctx & H).
  pose proof (context_index _ _ _ _ _ Hli Hctx) as Hli1. clear Hctx.
  unfold describes. destruct (is_empty (old_lines chunk)) eqn:Hold.
  { destruct (old_lines chunk) eqn:E; [|done]. rewrite Hadd in H by done.
    injection H as <- <-. split_and!; [done|lia..|]. by left. }
  rewrite Heof in H.
  destruct (seek_sequence lines (old_lines chunk) li1 false) as [i|] eqn:Hseek.
  { injection H as <- <-. apply seek_plain in Hseek as (? & ? & ?); [|lia].
    split_and!; [|lia..|right; cbn; lia].
    exists (old_lines chunk). split_and!; [done..|by left]. }
  destruct (last_is_empty (old_lines chunk)) eqn:Hlast; [|done].
  destruct (seek_sequence lines (removelast (old_lines chunk)) li1 false) as [i|] eqn:Hseek'; [|done].
  injection H as <- <-. apply seek_plain in Hseek' as (? & ? & ?); [|lia].
  split_and!; [|lia..|right; cbn; lia].
  exists (removelast (old_lines chunk)). split_and!; [done..|]. right.
  split; [by apply last_is_empty_snoc|]. simpl.
  destruct (last_is_empty (new_lines chunk)) eqn:Hn; [right; by apply last_is_empty_snoc|by left].
Qed.

(** Sorting puts insertions at the end and leaves the rest in order. *)
Lemma insert_insertion lines r pos rs :
  is_insertion lines r -> ordered pos (length lines) rs ->
  ordered pos (length lines) (insert_sorted rep_leb r rs).
Proof.
  intros [Hs Hl]. revert pos. induction rs as [|y rs IH]; intros pos H; simpl in *; [lia|].
  pose proof (ordered_le _ _ _ (proj2 H)). unfold rep_leb at 1.
  destruct (Nat.leb_spec (rep_start r) (rep_start y)); simpl.
  - split_and!; [lia..|tauto].
  - split; [tauto|]. apply IH. tauto.
Qed.

Lemma ordered_starts pos n rs : ordered pos n rs -> Forall (fun r => pos <= rep_start r) rs.
Proof.
  revert pos. induction rs as [|r rs IH]; intros pos; simpl; [constructor|].
  intros [H1 H2]. constructor; [done|].
  eapply Forall_impl; [exact (IH _ H2)|]. simpl. intros x Hx. lia.
Qed.

Lemma chunk_replacements_plain lines path li chunks rs :
  li <= length lines -> Forall (plain_chunk lines) chunks ->
  chunk_replacements lines path li chunks = Ok rs ->
  Forall2 (describes lines) chunks rs /\ ordered li (length lines) (sort_by rep_leb rs).
Proof.
  intros Hli Hplain. revert li Hli rs.
  induction Hplain as [|chunk chunks Hc Hplain IH]; intros li Hli rs H; simpl in H.
  { injection H as <-. by split. }
  apply result_bind_Ok in H as ([r li'] & Hr & H).
  apply result_bind_Ok in H as (rs' & Hrs & [= <-]).
  apply chunk_replacement_plain in Hr as (Hd & Hli' & Hr); [|done..].
  apply IH in Hrs as [HF Ho]; [|lia]. split; [by constructor|]. simpl.
  destruct Hr as [Hins|[H1 H2]].
  - apply insert_insertion; [done|].
    destruct (sort_by rep_leb rs'); simpl in *; [lia|]. split; [lia|tauto].
  - rewrite insert_sorted_le; [simpl; subst; auto|].
    eapply Forall_impl; [exact (ordered_starts _ _ _ Ho)|]. simpl.
    intros x Hx. apply Nat.leb_le. lia.
Qed.


Definition file_of (l : list string) : str := join [NL] (map lit l).

Definition sample_text : str := file_of ["a"; "b"; "c"; ""].
Definition sample_chunks : list UpdateFileChunk :=
  [mkChunk (Some (lit "a")) [lit "b "] [lit "B"] false; mkChunk None [] [lit "d"] false].


(** ** No panic, whatever the chunks *)

Lemma length_remove_lines n i lines :
  i <= length lines -> i <= length (remove_lines n i lines).
Proof.
  revert lines. induction n as [|n IH]; intros lines H; simpl; [done|]. apply IH.
  destruct (Nat.ltb_spec i (length lines)); [|done].
  rewrite length_app, length_take, length_drop. lia.
Qed.

Lemma apply_replacement_total lines r :
  rep_start r <= length lines ->
  exists lines', apply_replacement lines r = Some lines' /\ rep_start r <= length lines'.
Proof.
  intros H. unfold apply_replacement. pose proof (length_remove_lines (rep_len r) _ _ H).
  eexists. split; [by apply insert_lines_spec|]. rewrite length_app, length_take. lia.
Qed.

Lemma apply_replacements_total lines rs :
  StronglySorted (fun r r' => rep_leb r r' = true) rs ->
  Forall (fun r => rep_start r <= length lines) rs ->
  exists lines', apply_replacements lines rs = Some lines'
                 /\ Forall (fun r => rep_start r <= length lines') (take 1 rs).
Proof.
  intros Hs Hf. induction Hs as [|r rs Hs IH Hr]; [by exists lines|].
  apply Forall_cons in Hf as [Hr0 Hf]. destruct (IH Hf) as (lines1 & E & H1).
  assert (rep_start r <= length lines1) as Hlen.
  { destruct rs as [|r' rs]; [by injection E as <-|].
    apply Forall_cons in Hr as [Hr _]. apply Forall_cons in H1 as [H1 _].
    unfold rep_leb in Hr. apply Nat.leb_le in Hr. lia. }
  unfold apply_replacements in *. simpl. rewrite foldl_app, E. simpl.
  destruct (apply_replacement_total lines1 r Hlen) as (lines2 & E2 & H2).
  exists lines2. split; [done|]. rewrite take_0. by apply Forall_singleton.
Qed.

(** Every replacement starts inside the file, with any flags. *)
Lemma seek_inside lines pattern start eof i :
  start <= length lines -> seek_sequence lines pattern start eof = Some i ->
  i + length pattern <= length lines.
Proof.
  intros Hs H. destruct (decide (pattern = [])) as [->|Hne].
  - injection H as <-. cbn; lia.
  - apply seek_sequence_sound in H as [[_ H2] _]; done.
Qed.

Lemma chunk_replacement_inside lines path li chunk r li' :
  li <= length lines -> chunk_replacement lines path li chunk = Ok (r, li') ->
  rep_start r <= length lines /\ li' <= length lines.
Proof.
  intros Hli H. unfold chunk_replacement in H.
  apply result_bind_Ok in H as (li1 & Hctx & H).
  apply context_index in Hctx as Hli1; [|done].
  destruct (is_empty (old_lines chunk)).
  { injection H as <- <-. cbn. destruct (last_is_empty lines); lia. }
  destruct (seek_sequence lines (old_lines chunk) li1 _) as [i|] eqn:E.
  { injection H as <- <-. apply seek_inside in E; [|lia]. cbn; lia. }
  destruct (last_is_empty (old_lines chunk)); [|done].
  destruct (seek_sequence lines (removelast (old_lines chunk)) li1 _) as [i|] eqn:E'; [|done].
  injection H as <- <-. apply seek_inside in E'; [|lia]. cbn; lia.
Qed.

Lemma chunk_replacements_inside lines path li chunks rs :
  li <= length lines -> chunk_replacements lines path li chunks = Ok rs ->
  Forall (fun r => rep_start r <= length lines) rs.
Proof.
  revert li rs. induction chunks as [|c chunks IH]; intros li rs Hli H; simpl in H.
  { by injection H as <-. }
  apply result_bind_Ok in H as ([r li'] & Hr & H).
  apply result_bind_Ok in H as (rs' & Hrs & [= <-]).
  apply chunk_replacement_inside in Hr as [? ?]; [|done]. eauto.
Qed.

Lemma rep_leb_sorted l : StronglySorted (fun r r' => rep_leb r r' = true) (sort_by rep_leb l).
Proof.
  apply sort_by_sorted; unfold rep_leb.
  - intros x y. destruct (Nat.leb_spec (rep_start x) (rep_start y)); [by left|].
    right. apply Nat.leb_le. lia.
  - intros x y z H1 H2. apply Nat.leb_le in H1, H2. apply Nat.leb_le. lia.
Qed.

Lemma join_snoc_empty l : l <> [] -> exists s, join [NL] (l ++ [[]]) = s ++ [NL].
Proof. intros H. rewrite join_snoc, app_nil_r by done. eauto. Qed.

Lemma join_file_lines_newline l : join_file_lines l = [] \/ last (join_file_lines l) = Some NL.
Proof.
  unfold join_file_lines. destruct (last_is_empty l) eqn:E.
  - apply last_is_empty_snoc in E. rewrite E.
    destruct (removelast l) as [|x l'] eqn:E'; [by left|]. right.
    destruct (join_snoc_empty (x :: l') ltac:(done)) as [s ->]. by rewrite last_snoc.
  - destruct l as [|x l]; [by left|]. right.
    destruct (join_snoc_empty (x :: l) ltac:(done)) as [s ->]. by rewrite last_snoc.
Qed.

(** The computed replacements never leave the vector. *)
Lemma derive_new_contents_returns path text chunks o :
  derive_new_contents path text chunks = Ok o ->
  exists new_lines, o = Some (join_file_lines new_lines).
Proof.
  intros H. unfold derive_new_contents, compute_replacements in H.
  apply result_bind_Ok in H as (rs & Hrs & [= <-]).
  apply result_bind_Ok in Hrs as (raw & Hraw & [= <-]).
  apply chunk_replacements_inside in Hraw; [|lia].
  destruct (apply_replacements_total (split_file_lines text) (sort_by rep_leb raw))
    as (lines' & -> & _).
  - apply rep_leb_sorted.
  - by rewrite sort_by_perm.
  - by eexists.
Qed.

(** For any chunks and any file, overlapping or not, applying the computed
    replacements never removes or inserts out of bounds (no panic), and a
    result that is not empty ends with a line feed. *)
Theorem derive_new_contents_no_panic (path text : str) (chunks : list UpdateFileChunk)
    (o : option str) :
  derive_new_contents path text chunks = Ok o ->
  exists new_contents, o = Some new_contents
    /\ (new_contents = [] \/ last new_contents = Some NL).
Proof.
  intros [new_lines ->]%derive_new_contents_returns.
  eexists. split; [done|]. apply join_file_lines_newline.
Qed.

Lemma derive_new_contents_no_panic_witness :
  exists new_contents, Some (file_of ["a"; "B"; "c"; "d"; ""]) = Some new_contents
    /\ (new_contents = [] \/ last new_contents = Some NL).
Proof. exact (derive_new_contents_no_panic (lit "f") sample_text sample_chunks _ eq_refl). Defined.

(** ** Where splicing is not what happens

    Two chunks whose regions overlap, which the end-of-file flag and pure
    additions allow: the second replacement removes lines the first wrote. *)

Example addition_eaten :
  derive_new_contents (lit "f") (file_of ["a"; ""; ""])
    [mkChunk None [lit "a"; []] [lit "b"; []] false; mkChunk None [] [lit "x"] false]
  = Ok (Some (file_of ["b"; ""; ""])).
Proof. reflexivity. Qed.

Example eof_chunk_goes_back :
  derive_new_contents (lit "f") (file_of ["a"; "b"; "c"; ""])
    [mkChunk None [lit "a"; lit "b"; lit "c"] [lit "x"] false;
     mkChunk None [lit "c"] [lit "y"] true]
  = Ok (Some (file_of ["x"; ""])).
Proof. reflexivity. Qed.
