(* ===== verification/FileSystem.v ===== *)
(** * The file-system interface: [file-system/src/lib.rs]

    [ExecutorFileSystem] as a type class over the file system's state, the
    laws its clients rely on as a second class ([FileSystemLaws]), the
    state-and-error monad the [async] handlers are written in, [std::io::Error]
    and [std::io::Write], and a file system in memory that obeys the laws. *)

From S2P Require Import Prelude Paths Utf8.
Local Open Scope str_scope.

(** ** [std::io] *)

Inductive ErrorKind : Type :=
| NotFound | PermissionDenied | AlreadyExists | NotADirectory | IsADirectory
| DirectoryNotEmpty | ReadOnlyFilesystem | StorageFull | InvalidInput | InvalidData
| WriteZero | Interrupted | Other | Uncategorized.

#[global] Instance error_kind_eq_dec : EqDecision ErrorKind.
Proof. solve_decision. Defined.

(** The kind of an error and its [to_string()]. *)
Record io_Error : Type := io_error_new { io_kind : ErrorKind; io_message : str }.

#[global] Instance io_error_eq_dec : EqDecision io_Error.
Proof. solve_decision. Defined.

(** [Display] of [FromUtf8Error] *)
Definition show_utf8_error (e : Utf8Error) : str :=
  match error_len e with
  | Some n => lit "invalid utf-8 sequence of " ++ show_nat n ++ lit " bytes from index "
              ++ show_nat (valid_up_to e)
  | None => lit "incomplete utf-8 byte sequence from index " ++ show_nat (valid_up_to e)
  end.

(** ** Computations that read and change a state, fail, or panic

    [None] is a panic (or a loop out of fuel). *)

Definition M (S E A : Type) : Type := S -> option (S * result E A).

#[global] Instance M_ret {S E} : MRet (M S E) := fun A a s => Some (s, Ok a).
#[global] Instance M_bind {S E} : MBind (M S E) := fun A B f m s =>
  match m s with
  | Some (s', Ok a) => f a s'
  | Some (s', Err e) => Some (s', Err e)
  | None => None
  end.

Definition throw {S E A} (e : E) : M S E A := fun s => Some (s, Err e).
Definition panic {S E A} : M S E A := fun _ => None.

(** [m.map_err(f)], and running the failure through a handler. *)
Definition map_errM {S E F A} (f : E -> F) (m : M S E A) : M S F A := fun s =>
  match m s with Some (s', r) => Some (s', map_err f r) | None => None end.

Definition catch {S E F A} (m : M S E A) (h : E -> M S F A) : M S F A := fun s =>
  match m s with
  | Some (s', Ok a) => Some (s', Ok a)
  | Some (s', Err e) => h e s'
  | None => None
  end.

Definition of_result {S E A} (r : result E A) : M S E A := fun s => Some (s, r).

Lemma M_bind_Some {S E A B} (f : A -> M S E B) (m : M S E A) s s' r :
  (m ≫= f) s = Some (s', r) ->
  (exists s1 a, m s = Some (s1, Ok a) /\ f a s1 = Some (s', r))
  \/ (exists e, m s = Some (s', Err e) /\ r = Err e).
Proof.
  unfold mbind, M_bind. destruct (m s) as [[s1 [a|e]]|]; [eauto| |done].
  intros [= <- <-]. eauto.
Qed.

Lemma catch_Some {S E F A} (m : M S E A) (h : E -> M S F A) s s' r :
  catch m h s = Some (s', r) ->
  (exists a, m s = Some (s', Ok a) /\ r = Ok a)
  \/ (exists s1 e, m s = Some (s1, Err e) /\ h e s1 = Some (s', r)).
Proof.
  unfold catch. destruct (m s) as [[s1 [a|e]]|]; [|eauto|done].
  intros [= <- <-]. eauto.
Qed.

(** [m] never panics. *)
Definition total {S E A} (m : M S E A) : Prop := forall s, is_Some (m s).

Lemma total_ret {S E A} (a : A) : total (mret a : M S E A).
Proof. by eexists. Qed.
Lemma total_throw {S E A} (e : E) : total (throw e : M S E A).
Proof. by eexists. Qed.
Lemma total_of_result {S E A} (r : result E A) : total (of_result r : M S E A).
Proof. by eexists. Qed.
Lemma total_bind {S E A B} (f : A -> M S E B) (m : M S E A) :
  total m -> (forall a, total (f a)) -> total (m ≫= f).
Proof.
  intros Hm Hf s. unfold mbind, M_bind. destruct (Hm s) as [[s' [a|e]] ->]; [apply Hf|eauto].
Qed.
Lemma total_map_errM {S E F A} (f : E -> F) (m : M S E A) : total m -> total (map_errM f m).
Proof. intros Hm s. unfold map_errM. destruct (Hm s) as [[s' r] ->]. eauto. Qed.
Lemma total_catch {S E F A} (m : M S E A) (h : E -> M S F A) :
  total m -> (forall e, total (h e)) -> total (catch m h).
Proof. intros Hm Hh s. unfold catch. destruct (Hm s) as [[s' [a|e]] ->]; [eauto|apply Hh]. Qed.

Create HintDb monad.
#[export] Hint Resolve total_ret total_throw total_of_result total_bind total_map_errM
  total_catch : monad.

(** ** The interface *)

Record CreateDirectoryOptions : Type := mkCreateDirectoryOptions { cd_recursive : bool }.
Record RemoveOptions : Type := mkRemoveOptions { rm_recursive : bool; rm_force : bool }.
Record FileMetadata : Type := mkFileMetadata {
  md_is_directory : bool;
  md_is_file : bool;
  md_is_symlink : bool;
  md_created_at_ms : Z;
  md_modified_at_ms : Z;
}.

(** The required methods that the program's own logic calls; a path is the
    text of an [AbsolutePathBuf].  The methods do not panic: they return. *)
Class ExecutorFileSystem (Sandbox Fs : Type) : Type := {
  read_file : str -> option Sandbox -> Fs -> Fs * result io_Error (list N);
  write_file : str -> list N -> option Sandbox -> Fs -> Fs * result io_Error unit;
  create_directory : str -> CreateDirectoryOptions -> option Sandbox -> Fs -> Fs * result io_Error unit;
  get_metadata : str -> option Sandbox -> Fs -> Fs * result io_Error FileMetadata;
  remove : str -> RemoveOptions -> option Sandbox -> Fs -> Fs * result io_Error unit;
}.

(** A call of a method, in the monad. *)
Definition call {S E A} (f : S -> S * result E A) : M S E A := fun s => Some (f s).

Lemma total_call {S E A} (f : S -> S * result E A) : total (call f).
Proof. by eexists. Qed.
#[export] Hint Resolve total_call : monad.

(** The provided method [read_file_text]. *)
Definition read_file_text `{ExecutorFileSystem Sandbox Fs} (path : str) (sandbox : option Sandbox)
  : M Fs io_Error str :=
  bytes ← call (read_file path sandbox);
  of_result (map_err (fun err => io_error_new InvalidData (show_utf8_error err)) (from_utf8 bytes)).

(** What the clients rely on: the contents of the regular files, by absolute
    path, and how each method may change them.  The laws say nothing of when
    a method succeeds, and a failed write may have damaged its own file; they
    do say that two different normalised paths are two different files (no
    links). *)
Class FileSystemLaws (Sandbox Fs : Type) `{ExecutorFileSystem Sandbox Fs} : Type := {
  files : Fs -> gmap str (list N);
  read_file_law path sb s s' r :
    read_file path sb s = (s', r) ->
    files s' = files s /\ (forall bytes, r = Ok bytes -> files s !! path = Some bytes);
  write_file_ok path bytes sb s s' :
    write_file path bytes sb s = (s', Ok tt) -> files s' = <[path := bytes]> (files s);
  write_file_err path bytes sb s s' e :
    write_file path bytes sb s = (s', Err e) ->
    delete path (files s') = delete path (files s)
    /\ (io_kind e = NotFound -> files s' = files s);
  create_directory_law path o sb s s' r :
    create_directory path o sb s = (s', r) -> files s' = files s;
  get_metadata_law path sb s s' r :
    get_metadata path sb s = (s', r) -> files s' = files s;
  remove_ok path force sb s s' :
    remove path (mkRemoveOptions false force) sb s = (s', Ok tt) ->
    files s' = delete path (files s);
  remove_err path force sb s s' e :
    remove path (mkRemoveOptions false force) sb s = (s', Err e) -> files s' = files s;
}.

(** ** [std::io::Write] *)

Class Write (W : Type) : Type := {
  write_str : str -> W -> W * result io_Error unit;
}.

Definition writeln `{Write W} (line : str) : M W io_Error unit := call (write_str (line ++ [NL])).

(** [Vec<u8>], written to as text *)
#[global] Instance write_buffer : Write str := { write_str s w := (w ++ s, Ok tt) }.

(** ** A file system in memory *)

Record MemFs : Type := mkMemFs { mem_files : gmap str (list N); mem_dirs : gset str }.

Definition mem_parent_ok (p : str) (s : MemFs) : bool :=
  match parent p with Some d => bool_decide (d ∈ mem_dirs s) | None => false end.

Definition mem_read (p : str) (_ : option unit) (s : MemFs) : MemFs * result io_Error (list N) :=
  (s, match mem_files s !! p with
      | Some b => Ok b
      | None => Err (io_error_new NotFound (lit "entity not found"))
      end).

Definition mem_write (p : str) (b : list N) (_ : option unit) (s : MemFs)
  : MemFs * result io_Error unit :=
  if bool_decide (p ∈ mem_dirs s) then (s, Err (io_error_new IsADirectory (lit "is a directory")))
  else if mem_parent_ok p s then (mkMemFs (<[p := b]> (mem_files s)) (mem_dirs s), Ok tt)
  else (s, Err (io_error_new NotFound (lit "entity not found"))).

Definition mem_mkdir (p : str) (o : CreateDirectoryOptions) (_ : option unit) (s : MemFs)
  : MemFs * result io_Error unit :=
  if cd_recursive o then
    let ds := ancestors p in
    if existsb (fun d => bool_decide (is_Some (mem_files s !! d))) ds
    then (s, Err (io_error_new NotADirectory (lit "not a directory")))
    else (mkMemFs (mem_files s) (list_to_set ds ∪ mem_dirs s), Ok tt)
  else if mem_parent_ok p s then (mkMemFs (mem_files s) ({[p]} ∪ mem_dirs s), Ok tt)
  else (s, Err (io_error_new NotFound (lit "entity not found"))).

Definition mem_metadata (p : str) (_ : option unit) (s : MemFs)
  : MemFs * result io_Error FileMetadata :=
  (s, if bool_decide (p ∈ mem_dirs s) then Ok (mkFileMetadata true false false 0 0)
      else if bool_decide (is_Some (mem_files s !! p)) then Ok (mkFileMetadata false true false 0 0)
      else Err (io_error_new NotFound (lit "entity not found"))).

(** Without [recursive]: directories are refused. *)
Definition mem_remove (p : str) (o : RemoveOptions) (_ : option unit) (s : MemFs)
  : MemFs * result io_Error unit :=
  if bool_decide (is_Some (mem_files s !! p))
  then (mkMemFs (delete p (mem_files s)) (mem_dirs s), Ok tt)
  else if rm_force o then (s, Ok tt)
  else (s, Err (io_error_new NotFound (lit "entity not found"))).

#[global] Instance mem_fs : ExecutorFileSystem unit MemFs := {
  read_file := mem_read;
  write_file := mem_write;
  create_directory := mem_mkdir;
  get_metadata := mem_metadata;
  remove := mem_remove;
}.

#[global] Instance mem_fs_laws : FileSystemLaws unit MemFs.
Proof.
  refine {| files := mem_files |}; cbn.
  - intros path sb s s' r [= <- <-]. split; [done|]. intros b. by case_match; intros [= <-].
  - intros path b sb s s'. unfold mem_write. repeat case_match; by intros [= <-].
  - intros path b sb s s' e. unfold mem_write. repeat case_match; by intros [= <- _].
  - intros path o sb s s' r. unfold mem_mkdir. repeat case_match; by intros [= <- _].
  - by intros path sb s s' r [= <- _].
  - intros path force sb s s'. unfold mem_remove. simpl. case_bool_decide as Hp; [by intros [= <-]|].
    case_match; [|done]. intros [= <-]. rewrite delete_id; [done|]. by apply eq_None_not_Some.
  - intros path force sb s s' e. unfold mem_remove. repeat case_match; by intros [= <- _].
Defined.
