(* ===== verification/HostPaths.v ===== *)
(** * Paths on a host: what the code asks the operating system about paths

    [Host] is a snapshot of the queries (the current directory, [TMPDIR], the
    kind of a file, symbolic links, canonical paths).  Here are the functions
    of [utils/absolute-path/src/lib.rs] and [protocol/src/permissions.rs] that
    follow links, remove duplicates, and find the metadata directories under a
    writable root. *)

From S2P Require Import Prelude Paths.
Local Open Scope str_scope.

Class Host : Type := {
  h_home_dir : option str;
  h_current_dir : option str;
  h_tmpdir : option str;
  h_is_dir : str -> bool;
  h_is_file : str -> bool;
  h_exists : str -> bool;
  (** [symlink_metadata]: fails, or says whether it is a link *)
  h_symlink_metadata : str -> option bool;
  (** [dunce::canonicalize] *)
  h_canonicalize : str -> option str;
  h_read_to_string : str -> option str;
}.

Section host.
Context `{Host}.

(** [AbsolutePathBuf::from_absolute_path(path).ok()] *)
Definition absolute (path : str) : option str := from_absolute_path h_home_dir h_current_dir path.

(** [self.join(path)] on an [AbsolutePathBuf] *)
Definition join_abs (self path : str) : str := abs_join h_home_dir self path.

Definition should_preserve_logical_path (logical : str) : bool :=
  existsb (fun ancestor =>
    match h_symlink_metadata ancestor with
    | None => false
    | Some is_symlink =>
        is_symlink && match parent ancestor with
                      | Some p => match parent p with Some _ => true | None => false end
                      | None => false
                      end
    end) (ancestors logical).

Definition canonicalize_preserving_symlinks (path : str) : option str :=
  logical ← absolute path;
  let preserve_logical_path := should_preserve_logical_path logical in
  match h_canonicalize path with
  | Some canonical =>
      if preserve_logical_path && negb (path_eqb canonical logical) then Some logical
      else Some canonical
  | None => Some logical
  end.

(** One turn of the loop over the ancestors: the path to return, if any. *)
Definition normalize_under (raw_path ancestor : str) : option str :=
  match h_symlink_metadata ancestor with
  | None => None
  | Some _ =>
      normalized_ancestor ← canonicalize_preserving_symlinks ancestor;
      suffix ← path_strip_prefix raw_path ancestor;
      absolute (push normalized_ancestor (path_of_components suffix))
  end.

Definition normalize_effective_absolute_path (path : str) : str :=
  default path (head (omap (normalize_under path) (ancestors path))).

(** The set of seen paths compares like [==]. *)
Fixpoint dedup_paths_from (seen paths : list str) (normalize_effective_paths : bool) : list str :=
  match paths with
  | [] => []
  | path :: paths =>
      let dedup_path := if normalize_effective_paths
                        then normalize_effective_absolute_path path else path in
      if existsb (path_eqb dedup_path) seen
      then dedup_paths_from seen paths normalize_effective_paths
      else dedup_path :: dedup_paths_from (dedup_path :: seen) paths normalize_effective_paths
  end.

Definition dedup_absolute_paths (paths : list str) (normalize_effective_paths : bool) : list str :=
  dedup_paths_from [] paths normalize_effective_paths.

(** [None] would be the code's panic: [absolute_root_path_normal] rules it out. *)
Definition absolute_root_path_for_cwd (cwd : str) : option str :=
  root ← last (ancestors cwd);
  absolute root.

Definition push_unique (candidates : list str) (candidate : str) : list str :=
  if negb (existsb (fun existing => path_eqb existing candidate) candidates)
  then candidates ++ [candidate] else candidates.

Definition normalized_and_canonical_candidates (path : str) : list str :=
  let candidates := match absolute path with
                    | Some normalized => push_unique [] normalized
                    | None => push_unique [] path
                    end in
  match h_canonicalize path ≫= absolute with
  | Some canonical_absolute => push_unique candidates canonical_absolute
  | None => candidates
  end.

(** ** Metadata directories *)

Definition PROTECTED_METADATA_GIT_PATH_NAME : str := lit ".git".
Definition PROTECTED_METADATA_AGENTS_PATH_NAME : str := lit ".agents".
Definition PROTECTED_METADATA_CODEX_PATH_NAME : str := lit ".codex".

Definition PROTECTED_METADATA_PATH_NAMES : list str :=
  [PROTECTED_METADATA_GIT_PATH_NAME; PROTECTED_METADATA_AGENTS_PATH_NAME;
   PROTECTED_METADATA_CODEX_PATH_NAME].

Definition metadata_path_name (name : str) : option str :=
  find (fun metadata_name => name =? metadata_name) PROTECTED_METADATA_PATH_NAMES.

Definition is_git_pointer_file (path : str) : bool :=
  h_is_file path && bool_decide (file_name path = Some PROTECTED_METADATA_GIT_PATH_NAME).

Definition resolve_gitdir_from_file (dot_git : str) : option str :=
  contents ← h_read_to_string dot_git;
  match split_once (ch ":") (trim contents) with
  | None => None
  | Some (prefix, gitdir_raw) =>
      if negb (trim prefix =? lit "gitdir") then None
      else
        let gitdir_raw := trim gitdir_raw in
        if is_empty gitdir_raw then None
        else
          base ← parent dot_git;
          let gitdir_path := resolve_path_against_base h_home_dir gitdir_raw base in
          if negb (h_exists gitdir_path) then None else Some gitdir_path
  end.

Definition default_read_only_subpaths_for_writable_root (writable_root : str)
    (protect_missing_dot_codex : bool) : list str :=
  let top_level_git := join_abs writable_root PROTECTED_METADATA_GIT_PATH_NAME in
  let top_level_git_is_file := h_is_file top_level_git in
  let top_level_git_is_dir := h_is_dir top_level_git in
  let git_subpaths :=
    if top_level_git_is_dir || top_level_git_is_file then
      (if top_level_git_is_file && is_git_pointer_file top_level_git
       then match resolve_gitdir_from_file top_level_git with
            | Some gitdir => [gitdir]
            | None => []
            end
       else [])
      ++ [top_level_git]
    else [] in
  let top_level_agents := join_abs writable_root PROTECTED_METADATA_AGENTS_PATH_NAME in
  let top_level_codex := join_abs writable_root PROTECTED_METADATA_CODEX_PATH_NAME in
  dedup_absolute_paths
    (git_subpaths
     ++ (if h_is_dir top_level_agents then [top_level_agents] else [])
     ++ (if protect_missing_dot_codex || h_is_dir top_level_codex then [top_level_codex] else []))
    false.
End host.

(** ** Hosts without symbolic links *)

Class NoSymlinks `{Host} : Prop := {
  no_symlink p : h_symlink_metadata p <> Some true;
  canonical_id p q : normal_abs p -> h_canonicalize p = Some q -> q = p;
}.

Section no_symlinks.
Context `{NoSymlinks}.

Lemma should_preserve_false p : should_preserve_logical_path p = false.
Proof.
  unfold should_preserve_logical_path. apply not_true_iff_false. intros (q & _ & Hq)%existsb_exists.
  pose proof (no_symlink q). by destruct (h_symlink_metadata q) as [[]|].
Qed.

Lemma canonicalize_preserving_id p : normal_abs p -> canonicalize_preserving_symlinks p = Some p.
Proof.
  intros Hp. unfold canonicalize_preserving_symlinks, absolute. rewrite from_absolute_path_id by done.
  cbn [mbind option_bind]. rewrite should_preserve_false. cbn [andb].
  destruct (h_canonicalize p) as [q|] eqn:E; [|done]. by rewrite (canonical_id _ _ Hp E).
Qed.

Lemma normalize_effective_id p : normal_abs p -> normalize_effective_absolute_path p = p.
Proof.
  intros Hp. pose proof Hp as (segs & Hg & ->). unfold normalize_effective_absolute_path.
  rewrite ancestors_render by done.
  assert (forall q, q ∈ omap (normalize_under (render_abs segs))
                      (map (fun k => render_abs (take k segs)) (rev (seq 0 (S (length segs))))) ->
            q = render_abs segs) as Hq.
  { intros q (a & Ha & Hn)%list_elem_of_omap.
    apply list_elem_of_In, in_map_iff in Ha as (k & <- & Hk).
    assert (normal_abs (render_abs (take k segs))) as Hk'.
    { exists (take k segs). split; [by apply Forall_take|done]. }
    unfold normalize_under in Hn. destruct (h_symlink_metadata _); [|done].
    rewrite canonicalize_preserving_id in Hn by done. cbn [mbind option_bind] in Hn.
    destruct (path_strip_prefix _ _) as [cs|] eqn:E; [|done].
    apply path_strip_prefix_Some in E. rewrite !components_render_abs in E by (done || by apply Forall_take).
    assert (cs = map Normal (drop k segs)) as ->.
    { injection E as E. rewrite <- (take_drop k segs) in E at 1. rewrite map_app in E. by apply app_inv_head in E. }
    cbn [mbind option_bind] in Hn. unfold absolute in Hn. rewrite (from_absolute_path_components _ _ _ (render_abs segs)) in Hn; [by injection Hn| |done|].
    - by apply push_absolute.
    - rewrite components_push_segs by (by apply Forall_take || by apply Forall_drop). by rewrite take_drop. }
  destruct (omap _ _) as [|q l]; [done|]. cbn [head default]. apply Hq. by left.
Qed.
End no_symlinks.

(** ** Duplicates, and the root *)

Section dedup.
Context `{Host}.

Lemma elem_of_dedup_from seen paths x :
  Forall normal_abs seen -> Forall normal_abs paths ->
  x ∈ dedup_paths_from seen paths false <-> x ∈ paths /\ x ∉ seen.
Proof.
  revert seen. induction paths as [|p paths IH]; intros seen Hs Hp; cbn [dedup_paths_from].
  { split; [by intros ?%elem_of_nil|by intros [?%elem_of_nil _]]. }
  apply Forall_cons in Hp as [Hp Hps].
  assert (existsb (path_eqb p) seen = true <-> p ∈ seen) as He.
  { rewrite existsb_exists. split.
    - intros (q & Hq & E). apply list_elem_of_In in Hq. rewrite Forall_forall in Hs.
      by apply path_eqb_normal in E; [subst|done|apply Hs].
    - intros Hin. exists p. split; [by apply list_elem_of_In|apply path_eqb_refl]. }
  destruct (existsb _ seen); rewrite ?elem_of_cons, IH by (done || by constructor).
  - assert (p ∈ seen) by by apply He. split; [tauto|]. intros [[->|?] ?]; [done|tauto].
  - assert (p ∉ seen) by (intros ?%He; done). rewrite elem_of_cons.
    split; [intros [->|[? Hn]]; [tauto|split; [tauto|by intros ?; apply Hn; right]]|].
    intros [[->|?] ?]; [by left|]. destruct (decide (x = p)); [by left|]. right. split; [done|].
    by intros [?|?].
Qed.

Lemma elem_of_dedup paths x :
  Forall normal_abs paths -> x ∈ dedup_absolute_paths paths false <-> x ∈ paths.
Proof.
  intros Hp. unfold dedup_absolute_paths. rewrite elem_of_dedup_from by (done || constructor).
  split; [tauto|]. intros ?. split; [done|by intros ?%elem_of_nil].
Qed.

Lemma absolute_root_path_normal cwd : normal_abs cwd -> absolute_root_path_for_cwd cwd = Some [SEP].
Proof.
  intros (segs & Hg & ->). unfold absolute_root_path_for_cwd. rewrite ancestors_render by done.
  cbn [seq rev]. rewrite map_app, last_app. cbn [map last mbind option_bind take].
  unfold absolute. apply from_absolute_path_id, normal_root.
Qed.
End dedup.

Lemma elem_of_dedup_effective `{NoSymlinks} paths x :
  Forall normal_abs paths -> x ∈ dedup_absolute_paths paths true <-> x ∈ paths.
Proof.
  intros Hp. rewrite <- (elem_of_dedup paths x Hp). unfold dedup_absolute_paths. generalize (@nil str) as seen.
  induction Hp as [|p paths Hp Hps IH]; intros seen; [done|]. cbn [dedup_paths_from].
  rewrite normalize_effective_id by done. destruct (existsb _ seen); [apply IH|].
  by rewrite !elem_of_cons, IH.
Qed.

(** ** A host for examples

    Without symbolic links: every path is its own canonical form, and the
    directories are the given ones. *)
Definition plain_host (dirs : list str) : Host := {|
  h_home_dir := Some (lit "/home/u");
  h_current_dir := Some (lit "/w");
  h_tmpdir := None;
  h_is_dir p := existsb (path_eqb p) dirs;
  h_is_file _ := false;
  h_exists p := existsb (path_eqb p) dirs;
  h_symlink_metadata _ := Some false;
  h_canonicalize p := Some p;
  h_read_to_string _ := None;
|}.

Lemma plain_host_no_symlinks dirs : @NoSymlinks (plain_host dirs).
Proof. split; [done|]. intros p q _. cbn. by intros [= <-]. Qed.
