(* ===== verification/Permissions.v ===== *)
(** * Permissions: [protocol/src/{permissions,models,protocol}.rs]

    The approval settings, file-system sandbox policies, the access they give a
    path, the protection of metadata directories, and how policies are built
    and extended.  The roots that sandboxes are configured with are in
    [WritableRoots]. *)

From S2P Require Import Prelude Paths HostPaths.
Local Open Scope str_scope.

(** ** Approval settings *)

Record GranularApprovalConfig : Type := mkGranular {
  sandbox_approval : bool;
  rules_approval : bool;
  skill_approval : bool;
  request_permissions : bool;
  mcp_elicitations : bool;
}.

Inductive AskForApproval : Type :=
| UnlessTrusted
| OnFailure
| OnRequest
| Granular (config : GranularApprovalConfig)
| Never.

Inductive SandboxPermissions : Type := UseDefault | RequireEscalated | WithAdditionalPermissions.

Definition requests_sandbox_override (p : SandboxPermissions) : bool :=
  match p with UseDefault => false | _ => true end.

Definition requires_escalated_permissions (p : SandboxPermissions) : bool :=
  match p with RequireEscalated => true | _ => false end.

(** ** Data *)

Inductive NetworkSandboxPolicy : Type := NetRestricted | NetEnabled.

Definition net_is_enabled (p : NetworkSandboxPolicy) : bool :=
  match p with NetEnabled => true | NetRestricted => false end.

Inductive FileSystemAccessMode : Type := AccessRead | AccessWrite | AccessNone.

#[global] Instance access_eq_dec : EqDecision FileSystemAccessMode.
Proof. solve_decision. Defined.

(** The derived [Ord]. *)
Definition access_rank (a : FileSystemAccessMode) : nat :=
  match a with AccessRead => 0 | AccessWrite => 1 | AccessNone => 2 end.

Definition can_read (a : FileSystemAccessMode) : bool := negb (bool_decide (a = AccessNone)).
Definition can_write (a : FileSystemAccessMode) : bool := bool_decide (a = AccessWrite).

Inductive FileSystemSpecialPath : Type :=
| Root
| Minimal
| ProjectRoots (subpath : option str)
| Tmpdir
| SlashTmp
| UnknownSpecial (path : str) (subpath : option str).

Inductive FileSystemPath : Type :=
| PathEntry (path : str)
| GlobPattern (pattern : str)
| Special (value : FileSystemSpecialPath).

Record FileSystemSandboxEntry : Type := mkEntry {
  entry_path : FileSystemPath;
  entry_access : FileSystemAccessMode;
}.

Inductive FileSystemSandboxKind : Type := Restricted | Unrestricted | ExternalSandbox.

Record FileSystemSandboxPolicy : Type := mkFsPolicy {
  fs_kind : FileSystemSandboxKind;
  fs_glob_scan_max_depth : option nat;
  fs_entries : list FileSystemSandboxEntry;
}.

Record ResolvedFileSystemEntry : Type := mkResolved {
  res_path : str;
  res_access : FileSystemAccessMode;
}.

Inductive ManagedFileSystemPermissions : Type :=
| ManagedRestricted (entries : list FileSystemSandboxEntry) (glob_scan_max_depth : option nat)
| ManagedUnrestricted.

Inductive PermissionProfile : Type :=
| Managed (file_system : ManagedFileSystemPermissions) (network : NetworkSandboxPolicy)
| Disabled
| External (network : NetworkSandboxPolicy).

Definition fs_restricted (p : FileSystemSandboxPolicy) : bool :=
  match fs_kind p with Restricted => true | _ => false end.

(** ** Equality as the code compares: paths by their components *)

Definition option_path_eqb (a b : option str) : bool :=
  match a, b with
  | Some a, Some b => path_eqb a b
  | None, None => true
  | _, _ => false
  end.

(** Derived equality and [special_paths_share_target] are the same relation. *)
Definition special_paths_share_target (l r : FileSystemSpecialPath) : bool :=
  match l, r with
  | Root, Root | Minimal, Minimal | Tmpdir, Tmpdir | SlashTmp, SlashTmp => true
  | ProjectRoots l, ProjectRoots r => option_path_eqb l r
  | UnknownSpecial l l_subpath, UnknownSpecial r r_subpath =>
      (l =? r) && option_path_eqb l_subpath r_subpath
  | _, _ => false
  end.

Definition fs_path_eqb (a b : FileSystemPath) : bool :=
  match a, b with
  | PathEntry a, PathEntry b => path_eqb a b
  | GlobPattern a, GlobPattern b => a =? b
  | Special a, Special b => special_paths_share_target a b
  | _, _ => false
  end.

Definition entry_eqb (a b : FileSystemSandboxEntry) : bool :=
  fs_path_eqb (entry_path a) (entry_path b) && bool_decide (entry_access a = entry_access b).

Fixpoint entries_eqb (l k : list FileSystemSandboxEntry) : bool :=
  match l, k with
  | [], [] => true
  | a :: l, b :: k => entry_eqb a b && entries_eqb l k
  | _, _ => false
  end.

Definition special_path_matches_absolute_path (value : FileSystemSpecialPath) (path : str) : bool :=
  match value with
  | Root => match parent path with None => true | Some _ => false end
  | SlashTmp => path_eqb path (lit "/tmp")
  | _ => false
  end.

Definition file_system_paths_share_target (l r : FileSystemPath) : bool :=
  match l, r with
  | PathEntry l, PathEntry r => path_eqb l r
  | Special l, Special r => special_paths_share_target l r
  | PathEntry path, Special value | Special value, PathEntry path =>
      special_path_matches_absolute_path value path
  | GlobPattern l, GlobPattern r => l =? r
  | GlobPattern _, _ | _, GlobPattern _ => false
  end.

(** ** Constructors and whole-policy questions *)

Definition unrestricted : FileSystemSandboxPolicy := mkFsPolicy Unrestricted None [].
Definition external_sandbox : FileSystemSandboxPolicy := mkFsPolicy ExternalSandbox None [].
Definition restricted (entries : list FileSystemSandboxEntry) : FileSystemSandboxPolicy :=
  mkFsPolicy Restricted None entries.

Definition to_sandbox_policy (self : ManagedFileSystemPermissions) : FileSystemSandboxPolicy :=
  match self with
  | ManagedRestricted entries depth => mkFsPolicy Restricted depth entries
  | ManagedUnrestricted => unrestricted
  end.

Definition is_root_entry (entry : FileSystemSandboxEntry) : bool :=
  match entry_path entry with Special Root => true | _ => false end.

Definition has_root_access (self : FileSystemSandboxPolicy)
    (predicate : FileSystemAccessMode -> bool) : bool :=
  fs_restricted self
  && existsb (fun entry => is_root_entry entry && predicate (entry_access entry)) (fs_entries self).

Definition denies_read (entry : FileSystemSandboxEntry) : bool :=
  bool_decide (entry_access entry = AccessNone).

Definition has_denied_read_restrictions (self : FileSystemSandboxPolicy) : bool :=
  fs_restricted self && existsb denies_read (fs_entries self).

Definition has_same_target_write_override (self : FileSystemSandboxPolicy)
    (entry : FileSystemSandboxEntry) : bool :=
  existsb (fun candidate =>
    can_write (entry_access candidate)
    && (access_rank (entry_access entry) <? access_rank (entry_access candidate))%nat
    && file_system_paths_share_target (entry_path candidate) (entry_path entry)) (fs_entries self).

Definition narrows_write (self : FileSystemSandboxPolicy) (entry : FileSystemSandboxEntry) : bool :=
  if can_write (entry_access entry) then false
  else match entry_path entry with
       | PathEntry _ => negb (has_same_target_write_override self entry)
       | GlobPattern _ => true
       | Special Root => bool_decide (entry_access entry = AccessNone)
       | Special Minimal | Special (UnknownSpecial _ _) => false
       | Special _ => negb (has_same_target_write_override self entry)
       end.

Definition has_write_narrowing_entries (self : FileSystemSandboxPolicy) : bool :=
  fs_restricted self && existsb (narrows_write self) (fs_entries self).

Definition has_full_disk_read_access (self : FileSystemSandboxPolicy) : bool :=
  match fs_kind self with
  | Unrestricted | ExternalSandbox => true
  | Restricted => has_root_access self can_read && negb (has_denied_read_restrictions self)
  end.

Definition has_full_disk_write_access (self : FileSystemSandboxPolicy) : bool :=
  match fs_kind self with
  | Unrestricted | ExternalSandbox => true
  | Restricted => has_root_access self can_write && negb (has_write_narrowing_entries self)
  end.

Definition include_platform_defaults (self : FileSystemSandboxPolicy) : bool :=
  negb (has_full_disk_read_access self) && fs_restricted self
  && existsb (fun entry => match entry_path entry with
                           | Special Minimal => can_read (entry_access entry)
                           | _ => false
                           end) (fs_entries self).

(** Entries that deny reading, of [existing], that are not there yet. *)
Definition add_missing_denials (entries existing : list FileSystemSandboxEntry)
  : list FileSystemSandboxEntry :=
  foldl (fun entries deny_entry =>
    if negb (existsb (fun entry => entry_eqb entry deny_entry) entries)
    then entries ++ [deny_entry] else entries)
    entries (List.filter denies_read existing).

Definition preserve_deny_read_restrictions_from (self existing : FileSystemSandboxPolicy)
  : FileSystemSandboxPolicy :=
  let has_deny_read_entries := existsb denies_read (fs_entries existing) in
  let self := match fs_kind self with
              | Unrestricted =>
                  if has_deny_read_entries then restricted [mkEntry (Special Root) AccessWrite] else self
              | _ => self
              end in
  if negb (fs_restricted self) then self
  else mkFsPolicy (fs_kind self)
         (match fs_glob_scan_max_depth self with
          | None => fs_glob_scan_max_depth existing
          | Some d => Some d
          end)
         (add_missing_denials (fs_entries self) (fs_entries existing)).

(** ** Access of a path *)

Section access.
Context `{Host}.

Definition resolve_file_system_special_path (value : FileSystemSpecialPath) (cwd : option str)
  : option str :=
  match value with
  | Root | Minimal | UnknownSpecial _ _ => None
  | ProjectRoots subpath =>
      cwd ← cwd;
      match subpath with
      | Some subpath => Some (resolve_path_against_base h_home_dir subpath cwd)
      | None => Some cwd
      end
  | Tmpdir => tmpdir ← h_tmpdir; if is_empty tmpdir then None else absolute tmpdir
  | SlashTmp => if negb (h_is_dir (lit "/tmp")) then None else Some (lit "/tmp")
  end.

Definition resolve_file_system_path (path : FileSystemPath) (cwd : option str) : option str :=
  match path with
  | PathEntry path => Some path
  | GlobPattern _ => None
  | Special value => resolve_file_system_special_path value cwd
  end.

Definition resolve_entry_path (path : FileSystemPath) (cwd : option str) : option str :=
  match path with
  | Special Root => cwd ≫= absolute_root_path_for_cwd
  | _ => resolve_file_system_path path cwd
  end.

Definition resolve_candidate_path (path cwd : str) : option str :=
  if is_absolute path then absolute path
  else cwd ← absolute cwd; Some (join_abs cwd path).

Definition resolved_entries_with_cwd (self : FileSystemSandboxPolicy) (cwd : str)
  : list ResolvedFileSystemEntry :=
  let cwd_absolute := absolute cwd in
  omap (fun entry => path ← resolve_entry_path (entry_path entry) cwd_absolute;
                     Some (mkResolved path (entry_access entry))) (fs_entries self).

Definition specificity (entry : ResolvedFileSystemEntry) : nat := length (components (res_path entry)).

(** The derived order of the pair of specificity and access. *)
Definition precedence_leb (a b : ResolvedFileSystemEntry) : bool :=
  (specificity a <? specificity b)%nat
  || (specificity a =? specificity b)%nat
     && (access_rank (res_access a) <=? access_rank (res_access b))%nat.

Definition resolve_access_with_cwd (self : FileSystemSandboxPolicy) (path cwd : str)
  : FileSystemAccessMode :=
  match fs_kind self with
  | Unrestricted | ExternalSandbox => AccessWrite
  | Restricted =>
      match resolve_candidate_path path cwd with
      | None => AccessNone
      | Some path =>
          match max_by precedence_leb
                  (List.filter (fun entry => path_starts_with path (res_path entry))
                     (resolved_entries_with_cwd self cwd)) with
          | Some entry => res_access entry
          | None => AccessNone
          end
      end
  end.

Definition can_read_path_with_cwd (self : FileSystemSandboxPolicy) (path cwd : str) : bool :=
  can_read (resolve_access_with_cwd self path cwd).

(** The metadata directory that [target] is in, if its first component under
    some writable entry names one; the first such entry counts. *)
Definition metadata_child_of_writable_root (policy : FileSystemSandboxPolicy) (target cwd : str)
  : option (str * str) :=
  head (omap (fun entry =>
    relative_path ← path_strip_prefix target (res_path entry);
    first_component ← head relative_path;
    metadata_name ← metadata_path_name (as_os_str first_component);
    Some (join_abs (res_path entry) metadata_name, metadata_name))
    (List.filter (fun entry => can_write (res_access entry)) (resolved_entries_with_cwd policy cwd))).

Definition has_explicit_write_entry_for_metadata_path (policy : FileSystemSandboxPolicy)
    (protected_metadata_path target cwd : str) : bool :=
  existsb (fun entry =>
    can_write (res_access entry) && path_starts_with target (res_path entry)
    && path_starts_with (res_path entry) protected_metadata_path)
    (resolved_entries_with_cwd policy cwd).

Definition is_metadata_write_denied (self : FileSystemSandboxPolicy) (path cwd : str) : bool :=
  if negb (fs_restricted self) then false
  else match resolve_candidate_path path cwd with
       | None => true
       | Some target =>
           match metadata_child_of_writable_root self target cwd with
           | None => false
           | Some (protected_metadata_path, _) =>
               negb (has_explicit_write_entry_for_metadata_path self protected_metadata_path target cwd)
           end
       end.

Definition can_write_path_with_cwd (self : FileSystemSandboxPolicy) (path cwd : str) : bool :=
  if negb (can_write (resolve_access_with_cwd self path cwd)) then false
  else if has_full_disk_write_access self then true
  else negb (is_metadata_write_denied self path cwd).

Definition forbidden_agent_metadata_write (path cwd : str)
    (file_system_sandbox_policy : FileSystemSandboxPolicy) : option str :=
  if negb (fs_restricted file_system_sandbox_policy) then None
  else
    target ← resolve_candidate_path path cwd;
    '(protected_metadata_path, metadata_name) ←
      metadata_child_of_writable_root file_system_sandbox_policy target cwd;
    if has_explicit_write_entry_for_metadata_path file_system_sandbox_policy
         protected_metadata_path target cwd then None
    else if negb (can_write_path_with_cwd file_system_sandbox_policy target cwd)
    then Some metadata_name else None.

(** ** Building and extending policies *)

Definition append_default_read_only_entry_if_no_explicit_rule
    (entries : list FileSystemSandboxEntry) (path : FileSystemPath) : list FileSystemSandboxEntry :=
  if existsb (fun entry => file_system_paths_share_target (entry_path entry) path) entries
  then entries else entries ++ [mkEntry path AccessRead].

Definition append_default_read_only_path_if_no_explicit_rule
    (entries : list FileSystemSandboxEntry) (path : str) : list FileSystemSandboxEntry :=
  append_default_read_only_entry_if_no_explicit_rule entries (PathEntry path).

Definition append_default_read_only_project_root_subpath_if_no_explicit_rule
    (entries : list FileSystemSandboxEntry) (subpath : str) : list FileSystemSandboxEntry :=
  append_default_read_only_entry_if_no_explicit_rule entries (Special (ProjectRoots (Some subpath))).

(** The loop over the writable roots. *)
Definition protect_metadata_of (entries : list FileSystemSandboxEntry) (writable_root : str)
    (protect_missing_dot_codex : bool) : list FileSystemSandboxEntry :=
  foldl append_default_read_only_path_if_no_explicit_rule entries
    (default_read_only_subpaths_for_writable_root writable_root protect_missing_dot_codex).

Definition workspace_write (writable_roots : list str)
    (exclude_tmpdir_env_var exclude_slash_tmp : bool) : FileSystemSandboxPolicy :=
  let entries :=
    [mkEntry (Special Root) AccessRead; mkEntry (Special (ProjectRoots None)) AccessWrite]
    ++ (if negb exclude_slash_tmp then [mkEntry (Special SlashTmp) AccessWrite] else [])
    ++ (if negb exclude_tmpdir_env_var then [mkEntry (Special Tmpdir) AccessWrite] else [])
    ++ map (fun path => mkEntry (PathEntry path) AccessWrite) writable_roots in
  let entries := foldl append_default_read_only_project_root_subpath_if_no_explicit_rule entries
                   [lit ".git"; lit ".agents"; lit ".codex"] in
  restricted (foldl (fun entries writable_root => protect_metadata_of entries writable_root false)
                entries writable_roots).

Definition materialize_project_roots_with_cwd (self : FileSystemSandboxPolicy) (cwd : str)
  : FileSystemSandboxPolicy :=
  let cwd := absolute cwd in
  mkFsPolicy (fs_kind self) (fs_glob_scan_max_depth self)
    (map (fun entry =>
       match entry_path entry with
       | Special (ProjectRoots _) =>
           match resolve_file_system_path (entry_path entry) cwd with
           | Some path => mkEntry (PathEntry path) (entry_access entry)
           | None => entry
           end
       | _ => entry
       end) (fs_entries self)).

Definition push_entry (self : FileSystemSandboxPolicy) (entry : FileSystemSandboxEntry)
  : FileSystemSandboxPolicy :=
  mkFsPolicy (fs_kind self) (fs_glob_scan_max_depth self) (fs_entries self ++ [entry]).

Definition with_additional_readable_roots (self : FileSystemSandboxPolicy) (cwd : str)
    (additional_readable_roots : list str) : FileSystemSandboxPolicy :=
  if has_full_disk_read_access self then self
  else foldl (fun self path =>
         if can_read_path_with_cwd self path cwd then self
         else push_entry self (mkEntry (PathEntry path) AccessRead)) self additional_readable_roots.

Definition with_additional_writable_roots (self : FileSystemSandboxPolicy) (cwd : str)
    (additional_writable_roots : list str) : FileSystemSandboxPolicy :=
  foldl (fun self path =>
    if can_write_path_with_cwd self path cwd then self
    else push_entry self (mkEntry (PathEntry path) AccessWrite)) self additional_writable_roots.

Definition with_additional_legacy_workspace_writable_roots (self : FileSystemSandboxPolicy)
    (additional_writable_roots : list str) : FileSystemSandboxPolicy :=
  if negb (fs_restricted self) then self
  else mkFsPolicy (fs_kind self) (fs_glob_scan_max_depth self)
         (foldl (fun entries path =>
            let entries :=
              if negb (existsb (fun entry =>
                   can_write (entry_access entry)
                   && match entry_path entry with
                      | PathEntry existing => path_eqb existing path
                      | _ => false
                      end) entries)
              then entries ++ [mkEntry (PathEntry path) AccessWrite] else entries in
            protect_metadata_of entries path false) (fs_entries self) additional_writable_roots).
End access.


(** ** What the resolution of entries promises *)

(** The host gives absolute directories. *)
Class HostOk `{Host} : Prop := {
  host_home_ok : home_ok h_home_dir;
  host_current_ok d : h_current_dir = Some d -> is_absolute d = true;
}.

(** The paths of entries are [AbsolutePathBuf]s. *)
Definition entry_ok (entry : FileSystemSandboxEntry) : Prop :=
  match entry_path entry with PathEntry p => normal_abs p | _ => True end.
Definition policy_ok (policy : FileSystemSandboxPolicy) : Prop := Forall entry_ok (fs_entries policy).

Section access_lemmas.
Context `{HostOk}.

Lemma absolute_normal p q : absolute p = Some q -> normal_abs q.
Proof. apply from_absolute_path_normal; [apply host_home_ok|apply host_current_ok]. Qed.

Lemma absolute_id p : normal_abs p -> absolute p = Some p.
Proof. apply from_absolute_path_id. Qed.

Lemma join_abs_normal p q : is_absolute p = true -> normal_abs (join_abs p q).
Proof. intros Hp. by apply absolutize_from_normal. Qed.

Lemma resolve_candidate_normal path cwd p : resolve_candidate_path path cwd = Some p -> normal_abs p.
Proof.
  unfold resolve_candidate_path. destruct (is_absolute path); [apply absolute_normal|].
  destruct (absolute cwd) as [d|] eqn:E; [|done]. cbn [mbind option_bind]. intros [= <-].
  apply join_abs_normal. apply absolute_normal in E. by apply normal_abs_absolute.
Qed.

Lemma resolve_candidate_id p cwd : normal_abs p -> resolve_candidate_path p cwd = Some p.
Proof. intros Hp. unfold resolve_candidate_path. rewrite normal_abs_absolute by done. by apply absolute_id. Qed.

(** Every path can be resolved against a normal directory. *)
Lemma resolve_candidate_total path cwd : normal_abs cwd -> exists p, resolve_candidate_path path cwd = Some p.
Proof.
  intros Hc. unfold resolve_candidate_path. destruct (is_absolute path) eqn:E.
  - unfold absolute, from_absolute_path. rewrite expand_absolute by done. rewrite E. eauto.
  - rewrite absolute_id by done. eauto.
Qed.

Lemma resolved_entry_elem policy cwd e :
  e ∈ resolved_entries_with_cwd policy cwd
  <-> exists entry, entry ∈ fs_entries policy
      /\ resolve_entry_path (entry_path entry) (absolute cwd) = Some (res_path e)
      /\ entry_access entry = res_access e.
Proof.
  unfold resolved_entries_with_cwd. rewrite list_elem_of_omap. split.
  - intros (entry & Hin & Hr). exists entry. split; [done|].
    destruct (resolve_entry_path _ _); [|done]. by injection Hr as <-.
  - intros (entry & Hin & Hr & Ha). exists entry. split; [done|]. rewrite Hr. destruct e. cbn in *. by subst.
Qed.

Lemma resolve_entry_normal entry cwd p :
  entry_ok entry -> normal_abs cwd -> resolve_entry_path (entry_path entry) (Some cwd) = Some p -> normal_abs p.
Proof.
  unfold entry_ok, resolve_entry_path, resolve_file_system_path. intros He Hc Hp.
  destruct (entry_path entry) as [q|g|[| |sub| | |]]; try done; cbn in Hp.
  - by injection Hp as <-.
  - rewrite absolute_root_path_normal in Hp by done. injection Hp as <-. apply normal_root.
  - destruct sub; injection Hp as <-; [|done]. apply absolutize_from_normal. by apply normal_abs_absolute.
  - destruct h_tmpdir as [t|]; [|done]. cbn in Hp. destruct (is_empty t); [done|]. by apply absolute_normal in Hp.
  - destruct (h_is_dir _); [|done]. injection Hp as <-. exists [lit "tmp"]. split; [|done].
    constructor; [|done]. by apply (bool_decide_unpack _).
Qed.

Lemma resolved_entry_normal policy cwd e :
  policy_ok policy -> normal_abs cwd -> e ∈ resolved_entries_with_cwd policy cwd -> normal_abs (res_path e).
Proof.
  intros Hp Hc (entry & Hin & Hr & _)%resolved_entry_elem. rewrite absolute_id in Hr by done.
  eapply resolve_entry_normal; [|exact Hc|exact Hr]. unfold policy_ok in Hp. rewrite Forall_forall in Hp. auto.
Qed.

Lemma precedence_refl e : precedence_leb e e = true.
Proof. unfold precedence_leb. rewrite Nat.eqb_refl, Nat.leb_refl. apply orb_true_r. Qed.

Lemma precedence_spec a b :
  precedence_leb a b = true
  <-> specificity a < specificity b
      \/ specificity a = specificity b /\ access_rank (res_access a) <= access_rank (res_access b).
Proof. unfold precedence_leb. rewrite orb_true_iff, andb_true_iff, Nat.ltb_lt, Nat.eqb_eq, Nat.leb_le. done. Qed.

Lemma precedence_trans a b c :
  precedence_leb a b = true -> precedence_leb b c = true -> precedence_leb a c = true.
Proof. rewrite !precedence_spec. lia. Qed.

Lemma precedence_total a b : precedence_leb a b = false -> precedence_leb b a = true.
Proof. rewrite <- not_true_iff_false, !precedence_spec. lia. Qed.

(** The entry that decides about [path]. *)
Definition decides (entries : list ResolvedFileSystemEntry) (path : str)
    (e : ResolvedFileSystemEntry) : Prop :=
  e ∈ entries /\ path_starts_with path (res_path e) = true
  /\ forall e', e' ∈ entries -> path_starts_with path (res_path e') = true ->
       path_starts_with (res_path e) (res_path e') = true
       /\ (components (res_path e') = components (res_path e) ->
           access_rank (res_access e') <= access_rank (res_access e)).

Lemma resolve_access_decides policy path cwd p :
  fs_kind policy = Restricted -> resolve_candidate_path path cwd = Some p ->
  (exists e, decides (resolved_entries_with_cwd policy cwd) p e
             /\ resolve_access_with_cwd policy path cwd = res_access e)
  \/ resolve_access_with_cwd policy path cwd = AccessNone
     /\ forall e, e ∈ resolved_entries_with_cwd policy cwd -> path_starts_with p (res_path e) = false.
Proof.
  intros Hk Hp. unfold resolve_access_with_cwd. rewrite Hk, Hp.
  destruct (max_by _ _) as [e|] eqn:E.
  - left. exists e. split; [|done].
    apply max_by_Some in E as [Hin Hmax];
      eauto using precedence_refl, precedence_trans, precedence_total.
    apply list_elem_of_In, filter_In in Hin as [Hin Hs]. apply list_elem_of_In in Hin.
    split; [done|]. split; [done|]. intros e' Hin' Hs'.
    assert (precedence_leb e' e = true) as Hle%precedence_spec.
    { apply Hmax. apply list_elem_of_In, filter_In. split; [by apply list_elem_of_In|done]. }
    unfold specificity in Hle. split; [apply (path_starts_with_chain p); (done || lia)|].
    intros Heq. rewrite Heq in Hle. lia.
  - right. split; [done|]. intros e Hin. apply max_by_None in E. apply not_true_iff_false. intros Hs.
    assert (e ∈ List.filter (fun entry => path_starts_with p (res_path entry)) (resolved_entries_with_cwd policy cwd)) as Hf.
    { apply list_elem_of_In, filter_In. split; [by apply list_elem_of_In|done]. }
    rewrite E in Hf. by apply elem_of_nil in Hf.
Qed.

(** Two deciding entries give the same access. *)
Lemma decides_access entries p e e' :
  decides entries p e -> decides entries p e' -> res_access e = res_access e'.
Proof.
  intros (Hin & Hs & Hm) (Hin' & Hs' & Hm').
  destruct (Hm e' Hin' Hs') as [H1 R1], (Hm' e Hin Hs) as [H2 R2].
  rewrite !path_starts_with_spec in H1, H2.
  assert (components (res_path e) = components (res_path e')) as E.
  { apply (anti_symm prefix); done. }
  specialize (R1 (eq_sym E)). specialize (R2 E).
  destruct (res_access e), (res_access e'); cbn in *; (done || lia).
Qed.
End access_lemmas.

(** Under a restricted policy every path can be resolved against a normal
    directory, and its access is that of the deciding entry: an entry that
    covers the path, as deep as any other that does (they then all cover
    it), and among those of the same directory the greatest access ([none]
    over [write] over [read]); a path no entry covers has no access at all.
    The order of the entries does not matter. *)
Theorem resolve_access_spec `{HostOk} policy path cwd :
  fs_kind policy = Restricted -> normal_abs cwd ->
  exists p, resolve_candidate_path path cwd = Some p /\ normal_abs p
    /\ forall a, resolve_access_with_cwd policy path cwd = a <->
         (exists e, decides (resolved_entries_with_cwd policy cwd) p e /\ res_access e = a)
         \/ a = AccessNone
            /\ forall e, e ∈ resolved_entries_with_cwd policy cwd -> path_starts_with p (res_path e) = false.
Proof.
  intros Hk Hc. destruct (resolve_candidate_total path cwd Hc) as [p Hp]. exists p.
  split; [done|]. split; [by apply resolve_candidate_normal in Hp|]. intros a.
  destruct (resolve_access_decides policy path cwd p Hk Hp) as [(e & He & ->)|[-> Hno]].
  - split; [by eauto|]. intros [(e' & He' & <-)|[-> Hno]]; [by eapply decides_access|].
    destruct He as (Hin & Hs & _). by rewrite Hno in Hs.
  - split; [by eauto|]. intros [(e & (Hin & Hs & _) & _)|[-> _]]; [by rewrite Hno in Hs|done].
Qed.

(** ** Full access *)

Section full_access.
Context `{HostOk}.

Lemma covered_by_root p e cwd :
  normal_abs cwd -> resolve_entry_path (Special Root) (Some cwd) = Some (res_path e) ->
  normal_abs p -> path_starts_with p (res_path e) = true.
Proof.
  intros Hc Hr Hp. cbn in Hr. rewrite absolute_root_path_normal in Hr by done. injection Hr as <-.
  apply path_starts_with_root. by apply normal_abs_absolute.
Qed.

(** A policy with access to the root decides about every path. *)
Lemma root_access_decides policy path cwd f :
  fs_kind policy = Restricted -> normal_abs cwd -> has_root_access policy f = true ->
  exists p e, decides (resolved_entries_with_cwd policy cwd) p e
    /\ resolve_access_with_cwd policy path cwd = res_access e
    /\ normal_abs p
    /\ exists r, r ∈ resolved_entries_with_cwd policy cwd /\ f (res_access r) = true
              /\ components (res_path r) = [RootDir].
Proof.
  intros Hk Hc Hr. destruct (resolve_candidate_total path cwd Hc) as [p Hp].
  pose proof (resolve_candidate_normal _ _ _ Hp) as Hn.
  unfold has_root_access in Hr. apply andb_true_iff in Hr as [_ Hr].
  apply existsb_exists in Hr as (entry & Hin & [Hroot Ha]%andb_true_iff).
  apply list_elem_of_In in Hin.
  assert (entry_path entry = Special Root) as Hep.
  { unfold is_root_entry in Hroot. by destruct (entry_path entry) as [| |[]]. }
  set (r := mkResolved [SEP] (entry_access entry)).
  assert (r ∈ resolved_entries_with_cwd policy cwd) as Hrin.
  { apply resolved_entry_elem. exists entry. split; [done|]. rewrite Hep, absolute_id by done.
    split; [|done]. cbn. by apply absolute_root_path_normal. }
  destruct (resolve_access_decides policy path cwd p Hk Hp) as [(e & He & E)|[_ Hno]].
  - exists p, e. split; [done|]. split; [done|]. split; [done|]. by exists r.
  - specialize (Hno r Hrin). cbn in Hno. by rewrite path_starts_with_root in Hno by by apply normal_abs_absolute.
Qed.

(** Entries that share a target resolve to the same place; [/tmp] must be
    there for its special path to be resolved at all. *)
Lemma share_target_resolve cwd l r p q :
  normal_abs cwd -> h_is_dir (lit "/tmp") = true ->
  file_system_paths_share_target l r = true ->
  (forall s, l = PathEntry s -> normal_abs s) -> (forall s, r = PathEntry s -> normal_abs s) ->
  resolve_entry_path r (Some cwd) = Some q ->
  resolve_entry_path l (Some cwd) = Some p -> components p = components q.
Proof.
  intros Hc Htmp Hsh Hl Hr Hq Hp.
  assert (forall v s, special_path_matches_absolute_path v s = true -> normal_abs s ->
            forall q, resolve_entry_path (Special v) (Some cwd) = Some q -> components q = components s) as Hsp.
  { intros [| |sub| | |] s Hm Hs q' Hq'; cbn in Hm, Hq'; try done.
    - rewrite absolute_root_path_normal in Hq' by done. injection Hq' as <-.
      destruct Hs as (segs & Hg & ->). destruct segs as [|x segs _] using rev_ind; [done|].
      apply Forall_app in Hg as [Hg [Hx _]%Forall_cons]. by rewrite parent_render_abs in Hm.
    - rewrite Htmp in Hq'. injection Hq' as <-. by apply path_eqb_spec in Hm. }
  destruct l as [a|g|v], r as [b|h|w]; try done; cbn in Hsh.
  - injection Hp as <-. injection Hq as <-. by apply path_eqb_spec.
  - injection Hp as <-. symmetry. eapply Hsp; eauto.
  - injection Hq as <-. eapply Hsp; eauto.
  - destruct v as [| |sub| | |], w as [| |sub'| | |]; try done; try (cbn in Hp, Hq; congruence).
    cbn in Hp, Hq. destruct sub as [s|], sub' as [s'|]; try done.
    + apply path_eqb_spec in Hsh. injection Hp as <-. injection Hq as <-. f_equal.
      apply resolve_path_components; [apply host_home_ok|by apply normal_abs_absolute|done].
    + congruence.
Qed.

Lemma share_target_resolves cwd l r q :
  normal_abs cwd -> h_is_dir (lit "/tmp") = true ->
  file_system_paths_share_target l r = true ->
  resolve_entry_path r (Some cwd) = Some q -> exists p, resolve_entry_path l (Some cwd) = Some p.
Proof.
  intros Hc Htmp Hsh Hq.
  destruct l as [a|g|v], r as [b|h|w]; try done; [by eauto|by eauto| |].
  - destruct v; try done; cbn; [rewrite absolute_root_path_normal by done|rewrite Htmp]; eauto.
  - destruct v as [| |sub| | |], w as [| |sub'| | |]; try done; cbn in *; eauto.
    destruct sub; eauto.
Qed.
End full_access.

(** The deciding entry of a policy with full write access is writable: any
    entry that narrows it is overridden by one for the same place. *)
Lemma full_write_decides `{HostOk} policy cwd p e r :
  policy_ok policy -> normal_abs cwd -> h_is_dir (lit "/tmp") = true ->
  fs_kind policy = Restricted -> has_write_narrowing_entries policy = false ->
  decides (resolved_entries_with_cwd policy cwd) p e -> normal_abs p ->
  r ∈ resolved_entries_with_cwd policy cwd -> can_write (res_access r) = true ->
  components (res_path r) = [RootDir] ->
  can_write (res_access e) = true.
Proof.
  intros Hok Hc Htmp Hk Hn (Hin & Hs & Hm) Hp Hr Hrw Hroot. apply not_false_iff_true. intros Hw.
  pose proof Hok as Hall. unfold policy_ok in Hall. rewrite Forall_forall in Hall.
  apply resolved_entry_elem in Hin as (entry & Hin & Hres & Ha). rewrite absolute_id in Hres by done.
  assert (narrows_write policy entry = false) as Hnar.
  { unfold has_write_narrowing_entries, fs_restricted in Hn. rewrite Hk in Hn. cbn [andb] in Hn.
    apply not_true_iff_false. intros Ht. apply not_true_iff_false in Hn. apply Hn, existsb_exists.
    exists entry. split; [by apply list_elem_of_In|done]. }
  unfold narrows_write in Hnar. rewrite Ha, Hw in Hnar.
  assert (has_same_target_write_override policy entry = true -> False) as Hover.
  { intros (c & Hcin & Hc')%existsb_exists. apply list_elem_of_In in Hcin.
    apply andb_true_iff in Hc' as [[Hcw Hrank]%andb_true_iff Hshare]. apply Nat.ltb_lt in Hrank.
    destruct (share_target_resolves cwd _ _ _ Hc Htmp Hshare Hres) as [q Hq].
    assert (components q = components (res_path e)) as E.
    { eapply (share_target_resolve cwd (entry_path c) (entry_path entry)); eauto.
      - intros s Es. specialize (Hall c Hcin). unfold entry_ok in Hall. by rewrite Es in Hall.
      - intros s Es. specialize (Hall entry Hin). unfold entry_ok in Hall. by rewrite Es in Hall. }
    destruct (Hm (mkResolved q (entry_access c))) as [_ Hle]; cbn.
    - apply resolved_entry_elem. exists c. by rewrite absolute_id.
    - apply path_starts_with_spec. rewrite E. by apply path_starts_with_spec.
    - specialize (Hle E). cbn in Hle. rewrite Ha in Hrank. lia. }
  destruct (entry_path entry) as [q|g|v]; [by apply Hover, negb_false_iff|done|].
  destruct v; try (by apply Hover, negb_false_iff).
  cbn in Hres. rewrite absolute_root_path_normal in Hres by done. injection Hres as Hres.
  destruct (Hm r Hr) as [_ Hle].
  { apply path_starts_with_spec. rewrite Hroot.
    destruct (is_absolute_components p (normal_abs_absolute _ Hp)) as (cs & -> & _). by exists cs. }
  rewrite Hroot, <- Hres in Hle. specialize (Hle eq_refl).
  destruct (res_access e), (res_access r); cbn in *; (done || lia).
Qed.

(** A policy that reports full read access lets every path be read, and
    one that reports full write access lets every path be written, whatever
    the other entries (a host with absolute home and current directories,
    and with a [/tmp] for the second). *)
Theorem full_disk_access_sound `{HostOk} policy path cwd :
  policy_ok policy -> normal_abs cwd ->
  (has_full_disk_read_access policy = true -> can_read_path_with_cwd policy path cwd = true)
  /\ (h_is_dir (lit "/tmp") = true -> has_full_disk_write_access policy = true ->
      can_write_path_with_cwd policy path cwd = true).
Proof.
  intros Hok Hc. split.
  - intros Hf. unfold can_read_path_with_cwd.
    destruct (fs_kind policy) eqn:Hk; [|unfold resolve_access_with_cwd; by rewrite Hk..].
    unfold has_full_disk_read_access in Hf. rewrite Hk in Hf. apply andb_true_iff in Hf as [Hr Hd%negb_true_iff].
    destruct (root_access_decides policy path cwd _ Hk Hc Hr) as (p & e & (Hin & _) & -> & _).
    unfold has_denied_read_restrictions, fs_restricted in Hd. rewrite Hk in Hd. cbn [andb] in Hd.
    apply resolved_entry_elem in Hin as (entry & Hin & _ & <-). unfold can_read. apply negb_true_iff.
    apply not_true_iff_false. intros Ht. apply not_true_iff_false in Hd. apply Hd, existsb_exists.
    exists entry. split; [by apply list_elem_of_In|done].
  - intros Htmp Hf. unfold can_write_path_with_cwd. rewrite Hf.
    destruct (fs_kind policy) eqn:Hk; [|unfold resolve_access_with_cwd; by rewrite Hk..].
    unfold has_full_disk_write_access in Hf. rewrite Hk in Hf. apply andb_true_iff in Hf as [Hr Hd%negb_true_iff].
    destruct (root_access_decides policy path cwd _ Hk Hc Hr) as (p & e & He & -> & Hp & r & Hrin & Hrw & Hroot).
    by rewrite (full_write_decides policy cwd p e r).
Qed.

(** ** Metadata directories *)

Lemma metadata_name_shape name :
  name ∈ PROTECTED_METADATA_PATH_NAMES -> good_seg name /\ head name <> Some (ch "~").
Proof.
  intros Hn. apply (Forall_forall (fun name => good_seg name /\ head name <> Some (ch "~")) PROTECTED_METADATA_PATH_NAMES);
    [|done]. by apply (bool_decide_unpack _).
Qed.

Lemma metadata_path_name_spec s name :
  metadata_path_name s = Some name <-> s = name /\ name ∈ PROTECTED_METADATA_PATH_NAMES.
Proof.
  unfold metadata_path_name. split.
  - intros [Hin E]%find_some. apply list_elem_of_In in Hin. bool_to_prop. by subst.
  - intros [-> Hin]. cbv [PROTECTED_METADATA_PATH_NAMES] in *.
    rewrite !elem_of_cons in Hin. destruct Hin as [->|[->|[->|[]%elem_of_nil]]]; reflexivity.
Qed.

Section metadata.
Context `{HostOk}.

Lemma components_join_metadata p name :
  normal_abs p -> name ∈ PROTECTED_METADATA_PATH_NAMES ->
  components (join_abs p name) = components p ++ [Normal name].
Proof.
  intros (segs & Hg & ->) [Hn Ht]%metadata_name_shape. unfold join_abs.
  rewrite abs_join_name by done. rewrite !components_render_abs by (done || apply Forall_app; auto).
  by rewrite map_app.
Qed.

(** [target] is in (or is) the metadata directory [name] of [root]. *)
Definition in_metadata_of (target root name : str) : Prop :=
  name ∈ PROTECTED_METADATA_PATH_NAMES /\ path_starts_with target (join_abs root name) = true.

Lemma in_metadata_strip target root name :
  normal_abs root ->
  in_metadata_of target root name
  <-> name ∈ PROTECTED_METADATA_PATH_NAMES
      /\ exists cs, path_strip_prefix target root = Some (Normal name :: cs).
Proof.
  intros Hr. unfold in_metadata_of.
  split; intros [Hn Hs]; (split; [done|]); revert Hs;
    rewrite path_starts_with_spec, components_join_metadata by done; intros [cs E]; exists cs.
  - apply path_strip_prefix_Some. by rewrite E, <- app_assoc.
  - apply path_strip_prefix_Some in E. by rewrite E, <- app_assoc.
Qed.

Lemma metadata_place target root name :
  normal_abs root -> in_metadata_of target root name -> path_starts_with target root = true.
Proof.
  intros Hr [_ (cs & E%path_strip_prefix_Some)]%in_metadata_strip; [|done].
  apply path_starts_with_spec. by eexists.
Qed.

Lemma metadata_child_spec policy target cwd :
  policy_ok policy -> normal_abs cwd -> normal_abs target ->
  match metadata_child_of_writable_root policy target cwd with
  | Some (protected, name) => exists e,
      e ∈ resolved_entries_with_cwd policy cwd /\ can_write (res_access e) = true
      /\ in_metadata_of target (res_path e) name /\ protected = join_abs (res_path e) name
  | None => forall e name, e ∈ resolved_entries_with_cwd policy cwd -> can_write (res_access e) = true ->
      ~ in_metadata_of target (res_path e) name
  end.
Proof.
  intros Hok Hc Ht. unfold metadata_child_of_writable_root.
  match goal with |- context [omap ?f ?l] => set (F := f); set (L := l) end.
  assert (forall e, e ∈ L <-> e ∈ resolved_entries_with_cwd policy cwd /\ can_write (res_access e) = true) as HL.
  { intros e. unfold L. rewrite list_elem_of_In, filter_In, <- list_elem_of_In. done. }
  assert (forall e r, F e = Some r -> e ∈ L ->
            in_metadata_of target (res_path e) r.2 /\ r.1 = join_abs (res_path e) r.2) as HF.
  { unfold F. intros e [pr n] HFe [Hin _]%HL. pose proof (resolved_entry_normal _ _ _ Hok Hc Hin) as Hn.
    rewrite in_metadata_strip by done. destruct (path_strip_prefix _ _) as [[|c cs]|]; [done| |done].
    cbn [mbind option_bind head] in HFe. destruct (metadata_path_name _) as [m|] eqn:Em; [|done].
    injection HFe as <- <-. apply metadata_path_name_spec in Em as [Ec Hm]. cbn. split; [|done]. split; [done|].
    exists cs. destruct c; cbn in Ec; [..|by subst];
      destruct (metadata_name_shape _ Hm) as [(Hne & Hsep & Hd & Hdd) _]; subst m; exfalso;
      [apply Hsep; by left|by destruct Hd|by destruct Hdd]. }
  destruct (head (omap F L)) as [[protected name]|] eqn:E.
  - assert ((protected, name) ∈ omap F L) as (e & He & Hr)%list_elem_of_omap.
    { destruct (omap F L); [done|]. injection E as ->. by left. }
    exists e. destruct (HF _ _ Hr He) as [H1 H2]. apply HL in He as [He Hw]. done.
  - assert (omap F L = []) as Hnil by by destruct (omap F L).
    intros e name He Hw Hin. pose proof (resolved_entry_normal _ _ _ Hok Hc He) as Hn.
    apply in_metadata_strip in Hin as (Hm & cs & Hcs); [|done].
    assert (F e = Some (join_abs (res_path e) name, name)) as HFe.
    { unfold F. rewrite Hcs. cbn [mbind option_bind head as_os_str].
      by rewrite (proj2 (metadata_path_name_spec name name)). }
    assert ((join_abs (res_path e) name, name) ∈ omap F L) as Hbad.
    { apply list_elem_of_omap. exists e. split; [by apply HL|done]. }
    rewrite Hnil in Hbad. by apply elem_of_nil in Hbad.
Qed.

Lemma explicit_write_spec policy protected target cwd :
  has_explicit_write_entry_for_metadata_path policy protected target cwd = true
  <-> exists w, w ∈ resolved_entries_with_cwd policy cwd /\ can_write (res_access w) = true
      /\ path_starts_with target (res_path w) = true /\ path_starts_with (res_path w) protected = true.
Proof.
  unfold has_explicit_write_entry_for_metadata_path. rewrite existsb_exists. split.
  - intros (w & Hin%list_elem_of_In & [[? ?]%andb_true_iff ?]%andb_true_iff). by exists w.
  - intros (w & Hin & Hw & Ht & Hp). exists w. split; [by apply list_elem_of_In|]. by rewrite Hw, Ht, Hp.
Qed.
End metadata.

(** C12: under a restricted policy without full write access, a path in the
    metadata directory ([.git], [.agents] or [.codex]) of the place of a
    writable entry cannot be written, and a write there is reported as
    forbidden with the name of such a directory, provided that no writable entry
    that is above the path or at it lies inside a metadata directory around the
    path (then the order of the entries counts, see
    [metadata_denial_depends_on_order]); a path in no such directory is writable
    exactly if its resolved access says so, and never reported. *)
Theorem metadata_dirs_protected `{HostOk} policy path cwd target :
  policy_ok policy -> normal_abs cwd -> resolve_candidate_path path cwd = Some target ->
  fs_kind policy = Restricted -> has_full_disk_write_access policy = false ->
  let writable e := e ∈ resolved_entries_with_cwd policy cwd /\ can_write (res_access e) = true in
  let forbidden := forbidden_agent_metadata_write path cwd policy in
  ((forall e name, writable e -> ~ in_metadata_of target (res_path e) name) ->
     can_write_path_with_cwd policy path cwd = can_write (resolve_access_with_cwd policy path cwd)
     /\ forbidden = None)
  /\ (forall e name, writable e -> in_metadata_of target (res_path e) name ->
      (forall e' name' w, writable e' -> in_metadata_of target (res_path e') name' -> writable w ->
         path_starts_with target (res_path w) = true ->
         path_starts_with (res_path w) (join_abs (res_path e') name') = false) ->
      can_write_path_with_cwd policy path cwd = false
      /\ exists e' name', writable e' /\ in_metadata_of target (res_path e') name' /\ forbidden = Some name').
Proof.
  intros Hok Hc Hp Hk Hfull writable forbidden.
  pose proof (resolve_candidate_normal _ _ _ Hp) as Hn. pose proof (resolve_candidate_id _ cwd Hn) as Hid.
  pose proof (metadata_child_spec policy target cwd Hok Hc Hn) as Hm.
  subst forbidden. unfold forbidden_agent_metadata_write, can_write_path_with_cwd, is_metadata_write_denied, fs_restricted.
  rewrite Hfull, Hk, Hp. cbn [negb mbind option_bind]. rewrite Hid. cbn [negb mbind option_bind].
  destruct (metadata_child_of_writable_root policy target cwd) as [[protected name]|].
  - destruct Hm as (e & He & Hw & Hin & ->). split; [intros Hno; by destruct (Hno e name (conj He Hw))|].
    intros _ _ _ _ Hno.
    assert (has_explicit_write_entry_for_metadata_path policy (join_abs (res_path e) name) target cwd = false) as Hex.
    { apply not_true_iff_false. intros (w & Hwin & Hww & Hs & Hs')%explicit_write_spec.
      by rewrite (Hno e name w) in Hs'. }
    cbn [mbind option_bind]. rewrite Hex. cbn [negb].
    split; [by destruct (can_write (resolve_access_with_cwd policy path cwd))|].
    exists e, name. split; [done|]. split; [done|].
    by destruct (can_write (resolve_access_with_cwd policy target cwd)).
  - split; [|intros e name [He Hw] Hin; by destruct (Hm e name He Hw)]. intros _. cbn [mbind option_bind].
    split; [|done]. by destruct (can_write (resolve_access_with_cwd policy path cwd)).
Qed.

(** ** The workspace-write policy *)

Section workspace.
Context `{HostOk}.

(** Only entries that are readable, for the given places, are added. *)
Lemma append_read_only_shape {A} (place : A -> FileSystemPath) (l : list A) entries e :
  e ∈ foldl (fun entries a => append_default_read_only_entry_if_no_explicit_rule entries (place a)) entries l ->
  e ∈ entries \/ entry_access e = AccessRead /\ exists a, a ∈ l /\ entry_path e = place a.
Proof.
  induction l as [|a l IH] using rev_ind; [by left|]. rewrite foldl_app. cbn [foldl].
  unfold append_default_read_only_entry_if_no_explicit_rule at 1.
  assert (e ∈ foldl (fun entries a => append_default_read_only_entry_if_no_explicit_rule entries (place a)) entries l ->
    e ∈ entries \/ entry_access e = AccessRead /\ exists a', a' ∈ l ++ [a] /\ entry_path e = place a') as Hold.
  { intros [?|[? (a' & ? & ?)]]%IH; [by left|right]. split; [done|]. exists a'. split; [set_solver|done]. }
  destruct (existsb _ _); [done|]. intros [?| ->%list_elem_of_singleton]%elem_of_app; [auto|].
  right. split; [done|]. exists a. split; [set_solver|done].
Qed.

Lemma append_read_only_keeps {A} (place : A -> FileSystemPath) (l : list A) entries e :
  e ∈ entries ->
  e ∈ foldl (fun entries a => append_default_read_only_entry_if_no_explicit_rule entries (place a)) entries l.
Proof.
  revert entries. induction l as [|a l IH]; intros entries Hin; [done|]. cbn [foldl]. apply IH.
  unfold append_default_read_only_entry_if_no_explicit_rule. destruct (existsb _ _); [done|]. by apply elem_of_app; left.
Qed.

(** The places that the policy lets be written. *)
Definition workspace_root (roots : list str) (exclude_tmpdir exclude_slash_tmp : bool) (cwd root : str) : Prop :=
  root = cwd \/ root ∈ roots
  \/ (exclude_slash_tmp = false /\ h_is_dir (lit "/tmp") = true /\ root = lit "/tmp")
  \/ (exclude_tmpdir = false /\ exists t, h_tmpdir = Some t /\ is_empty t = false /\ absolute t = Some root).

Definition workspace_base (roots : list str) (exclude_tmpdir exclude_slash_tmp : bool)
  : list FileSystemSandboxEntry :=
  [mkEntry (Special Root) AccessRead; mkEntry (Special (ProjectRoots None)) AccessWrite]
  ++ (if negb exclude_slash_tmp then [mkEntry (Special SlashTmp) AccessWrite] else [])
  ++ (if negb exclude_tmpdir then [mkEntry (Special Tmpdir) AccessWrite] else [])
  ++ map (fun path => mkEntry (PathEntry path) AccessWrite) roots.

Definition project_metadata_entry (name : str) : FileSystemSandboxEntry :=
  mkEntry (Special (ProjectRoots (Some name))) AccessRead.

(** Nothing else is for a subpath of the project, so those entries are added. *)
Lemma project_metadata_added roots xt xs :
  foldl append_default_read_only_project_root_subpath_if_no_explicit_rule (workspace_base roots xt xs)
    PROTECTED_METADATA_PATH_NAMES
  = workspace_base roots xt xs ++ map project_metadata_entry PROTECTED_METADATA_PATH_NAMES.
Proof.
  assert (forall name, existsb (fun entry => file_system_paths_share_target (entry_path entry)
            (Special (ProjectRoots (Some name)))) (workspace_base roots xt xs) = false) as Hb.
  { intros name. unfold workspace_base. rewrite !existsb_app.
    assert (existsb (fun entry => file_system_paths_share_target (entry_path entry) (Special (ProjectRoots (Some name))))
              (map (fun path => mkEntry (PathEntry path) AccessWrite) roots) = false) as ->.
    { induction roots as [|r roots IH]; [done|exact IH]. }
    by destruct xt, xs. }
  assert (forall entries name, existsb (fun entry => file_system_paths_share_target (entry_path entry)
            (Special (ProjectRoots (Some name)))) entries = false ->
            append_default_read_only_project_root_subpath_if_no_explicit_rule entries name
            = entries ++ [project_metadata_entry name]) as Hadd.
  { intros entries name He. unfold append_default_read_only_project_root_subpath_if_no_explicit_rule,
      append_default_read_only_entry_if_no_explicit_rule. by rewrite He. }
  unfold PROTECTED_METADATA_PATH_NAMES. cbn [foldl map].
  rewrite (Hadd (workspace_base roots xt xs)) by apply Hb.
  rewrite (Hadd (workspace_base roots xt xs ++ _)) by by rewrite existsb_app, Hb.
  rewrite Hadd by by rewrite !existsb_app, Hb. by rewrite <- !app_assoc.
Qed.

Lemma workspace_write_entries roots xt xs e :
  e ∈ fs_entries (workspace_write roots xt xs) ->
  e ∈ workspace_base roots xt xs \/ e ∈ map project_metadata_entry PROTECTED_METADATA_PATH_NAMES
  \/ entry_access e = AccessRead /\ exists root sub, root ∈ roots
       /\ sub ∈ default_read_only_subpaths_for_writable_root root false /\ entry_path e = PathEntry sub.
Proof.
  unfold workspace_write. cbn [restricted fs_entries].
  change (foldl append_default_read_only_project_root_subpath_if_no_explicit_rule _ _)
    with (foldl append_default_read_only_project_root_subpath_if_no_explicit_rule (workspace_base roots xt xs)
            PROTECTED_METADATA_PATH_NAMES).
  rewrite project_metadata_added. intros Hin.
  rewrite (assoc or), <- elem_of_app. revert Hin.
  generalize (workspace_base roots xt xs ++ map project_metadata_entry PROTECTED_METADATA_PATH_NAMES).
  intros entries. induction roots as [|root roots IH] using rev_ind; [by left|].
  rewrite foldl_app. cbn [foldl].
  intros [Hin|[Ha (sub & Hs & Hp)]]%(append_read_only_shape PathEntry).
  - apply IH in Hin as [?|[? (r & s & ? & ? & ?)]]; [by left|right].
    split; [done|]. exists r, s. split; [set_solver|done].
  - right. split; [done|]. exists root, sub. split; [set_solver|done].
Qed.

Lemma workspace_write_keeps roots xt xs e :
  e ∈ workspace_base roots xt xs ++ map project_metadata_entry PROTECTED_METADATA_PATH_NAMES ->
  e ∈ fs_entries (workspace_write roots xt xs).
Proof.
  intros Hin. unfold workspace_write. cbn [restricted fs_entries].
  change (foldl append_default_read_only_project_root_subpath_if_no_explicit_rule _ _)
    with (foldl append_default_read_only_project_root_subpath_if_no_explicit_rule (workspace_base roots xt xs)
            PROTECTED_METADATA_PATH_NAMES).
  rewrite project_metadata_added. revert Hin.
  generalize (workspace_base roots xt xs ++ map project_metadata_entry PROTECTED_METADATA_PATH_NAMES).
  induction roots as [|root roots IH]; intros entries Hin; [done|]. cbn [foldl]. apply IH.
  by apply (append_read_only_keeps PathEntry).
Qed.

Lemma workspace_base_resolved roots xt xs cwd e :
  normal_abs cwd ->
  e ∈ workspace_base roots xt xs ->
  forall p, resolve_entry_path (entry_path e) (Some cwd) = Some p ->
  (entry_access e = AccessRead /\ p = [SEP])
  \/ (entry_access e = AccessWrite /\ workspace_root roots xt xs cwd p).
Proof.
  intros Hc Hin p Hp. unfold workspace_base in Hin. rewrite !elem_of_app, !elem_of_cons, elem_of_nil in Hin.
  destruct Hin as [[->|[->|[]]]|[Hin|[Hin|Hin]]].
  - left. cbn in Hp. rewrite absolute_root_path_normal in Hp by done. by injection Hp as <-.
  - right. cbn in Hp. injection Hp as <-. split; [done|by left].
  - destruct xs; cbn in Hin; [by apply elem_of_nil in Hin|apply list_elem_of_singleton in Hin as ->].
    right. split; [done|]. cbn in Hp. destruct (h_is_dir _) eqn:E; [|done]. injection Hp as <-.
    right. right. left. done.
  - destruct xt; cbn in Hin; [by apply elem_of_nil in Hin|apply list_elem_of_singleton in Hin as ->].
    right. split; [done|]. cbn in Hp. destruct h_tmpdir as [t|] eqn:Et; [|done]. cbn in Hp.
    destruct (is_empty t) eqn:E; [done|]. right. right. right. split; [done|]. by exists t.
  - apply list_elem_of_In, in_map_iff in Hin as (r & <- & Hr%list_elem_of_In). injection Hp as <-.
    right. split; [done|]. by right; left.
Qed.

Lemma workspace_root_entry roots xt xs cwd root :
  workspace_root roots xt xs cwd root ->
  exists e, e ∈ workspace_base roots xt xs /\ entry_access e = AccessWrite
    /\ resolve_entry_path (entry_path e) (Some cwd) = Some root.
Proof.
  unfold workspace_base. intros [->|[Hr|[(-> & Hd & ->)|(-> & t & Ht & He & Ha)]]].
  - exists (mkEntry (Special (ProjectRoots None)) AccessWrite). split; [|done]. right. left.
  - exists (mkEntry (PathEntry root) AccessWrite). split; [|done]. rewrite !elem_of_app. right. right. right.
    apply list_elem_of_In, in_map_iff. exists root. split; [done|by apply list_elem_of_In].
  - exists (mkEntry (Special SlashTmp) AccessWrite). split; [|cbn; by rewrite Hd]. rewrite !elem_of_app.
    right. left. by left.
  - exists (mkEntry (Special Tmpdir) AccessWrite). split; [|cbn; rewrite Ht; cbn; by rewrite He]. rewrite !elem_of_app.
    right. right. left. by left.
Qed.

Lemma dedup_subset seen paths x : x ∈ dedup_paths_from seen paths false -> x ∈ paths.
Proof.
  revert seen. induction paths as [|p paths IH]; intros seen; [done|]. cbn [dedup_paths_from].
  destruct (existsb _ _); [intros ?%IH; by right|].
  intros [->|?%IH]%elem_of_cons; [by left|by right].
Qed.

Lemma resolve_gitdir_normal root gitdir :
  normal_abs root ->
  resolve_gitdir_from_file (join_abs root PROTECTED_METADATA_GIT_PATH_NAME) = Some gitdir -> normal_abs gitdir.
Proof.
  intros (segs & Hg & ->) Hd. destruct (metadata_name_shape PROTECTED_METADATA_GIT_PATH_NAME) as [Hn Ht]; [by left|].
  unfold join_abs in Hd. rewrite abs_join_name in Hd by done. unfold resolve_gitdir_from_file in Hd.
  destruct (h_read_to_string _); [|done]. cbn [mbind option_bind] in Hd.
  destruct (split_once _ _) as [[prefix raw]|]; [|done]. destruct (negb _); [done|].
  destruct (is_empty _); [done|]. rewrite parent_render_abs in Hd by done. cbn [mbind option_bind] in Hd.
  destruct (negb _); [done|]. injection Hd as <-. by apply absolutize_from_normal.
Qed.

Lemma default_read_only_normal root missing sub :
  normal_abs root -> sub ∈ default_read_only_subpaths_for_writable_root root missing -> normal_abs sub.
Proof.
  intros Hr Hs. pose proof (normal_abs_absolute _ Hr) as Ha.
  apply dedup_subset in Hs. rewrite !elem_of_app in Hs.
  destruct Hs as [Hs|[Hs|Hs]]; cases;
    try (apply elem_of_nil in Hs; done); try (apply list_elem_of_singleton in Hs as ->; by apply join_abs_normal).
  apply elem_of_cons in Hs as [->|Hs%list_elem_of_singleton]; [by eapply resolve_gitdir_normal|].
  subst. by apply join_abs_normal.
Qed.

Lemma workspace_write_ok roots xt xs :
  Forall normal_abs roots -> policy_ok (workspace_write roots xt xs).
Proof.
  intros Hr. apply Forall_forall. intros e [Hin|[Hin|(_ & root & sub & Hin & Hs & He)]]%workspace_write_entries.
  - unfold workspace_base in Hin. rewrite !elem_of_app, !elem_of_cons, elem_of_nil in Hin.
    destruct Hin as [[->|[->|[]]]|[Hin|[Hin|Hin]]]; try done.
    + destruct xs; cbn in Hin; [by apply elem_of_nil in Hin|by apply list_elem_of_singleton in Hin as ->].
    + destruct xt; cbn in Hin; [by apply elem_of_nil in Hin|by apply list_elem_of_singleton in Hin as ->].
    + apply list_elem_of_In, in_map_iff in Hin as (r & <- & Hin%list_elem_of_In).
      rewrite Forall_forall in Hr. by apply Hr.
  - apply list_elem_of_In, in_map_iff in Hin as (n & <- & _). done.
  - unfold entry_ok. rewrite He. rewrite Forall_forall in Hr. specialize (Hr _ Hin).
    by eapply default_read_only_normal.
Qed.

Lemma workspace_resolved roots xt xs cwd e :
  normal_abs cwd -> e ∈ resolved_entries_with_cwd (workspace_write roots xt xs) cwd ->
  res_access e = AccessRead \/ res_access e = AccessWrite /\ workspace_root roots xt xs cwd (res_path e).
Proof.
  intros Hc (entry & Hin & Hr & Ha)%resolved_entry_elem. rewrite absolute_id in Hr by done. rewrite <- Ha.
  apply workspace_write_entries in Hin as [Hin|[Hin|(? & _)]]; [|left|by left].
  - destruct (workspace_base_resolved _ _ _ _ _ Hc Hin _ Hr) as [[? _]|?]; auto.
  - by apply list_elem_of_In, in_map_iff in Hin as (n & <- & _).
Qed.

Lemma workspace_root_resolved roots xt xs cwd root :
  normal_abs cwd -> workspace_root roots xt xs cwd root ->
  mkResolved root AccessWrite ∈ resolved_entries_with_cwd (workspace_write roots xt xs) cwd.
Proof.
  intros Hc (entry & Hin & Ha & Hr)%workspace_root_entry. apply resolved_entry_elem. exists entry.
  rewrite absolute_id by done. split; [|done]. apply workspace_write_keeps, elem_of_app. by left.
Qed.

(** What a read-only entry of the policy is for. *)
Lemma workspace_read_only roots xt xs cwd e :
  normal_abs cwd -> e ∈ resolved_entries_with_cwd (workspace_write roots xt xs) cwd ->
  res_access e = AccessRead ->
  res_path e = [SEP]
  \/ res_path e ∈ map (join_abs cwd) PROTECTED_METADATA_PATH_NAMES
  \/ exists root, root ∈ roots /\ res_path e ∈ default_read_only_subpaths_for_writable_root root false.
Proof.
  intros Hc (entry & Hin & Hr & Ha)%resolved_entry_elem Hread. rewrite absolute_id in Hr by done.
  apply workspace_write_entries in Hin as [Hin|[Hin|(_ & root & sub & Hin & Hs & He)]].
  - destruct (workspace_base_resolved _ _ _ _ _ Hc Hin _ Hr) as [[_ ?]|[? _]]; [by left|congruence].
  - right. left. apply list_elem_of_In, in_map_iff in Hin as (n & <- & Hn). cbn in Hr. injection Hr as <-.
    apply list_elem_of_In, in_map_iff. by exists n.
  - right. right. exists root. rewrite He in Hr. injection Hr as <-. done.
Qed.
End workspace.

(** The policy of a workspace lets everything be read; it lets a path be
    written only below the current directory, one of the given roots, [/tmp]
    or [TMPDIR] (the latter two unless excluded), and inside the [.git],
    [.agents] or [.codex] of the current directory only if one of those roots
    is itself inside; and a path below such a root is writable unless it is in
    the metadata directory of one of them or below one of the read-only
    subpaths (with the target of a [gitdir:] file) of the given roots. *)
Theorem workspace_write_spec `{HostOk} roots exclude_tmpdir exclude_slash_tmp cwd path p :
  normal_abs cwd -> Forall normal_abs roots -> resolve_candidate_path path cwd = Some p ->
  let policy := workspace_write roots exclude_tmpdir exclude_slash_tmp in
  let allowed := workspace_root roots exclude_tmpdir exclude_slash_tmp cwd in
  can_read_path_with_cwd policy path cwd = true
  /\ (can_write_path_with_cwd policy path cwd = true ->
      exists root, allowed root /\ path_starts_with p root = true
        /\ forall name, in_metadata_of p cwd name -> path_starts_with root (join_abs cwd name) = true)
  /\ (forall root, allowed root -> path_starts_with p root = true ->
      (forall root' name, allowed root' -> ~ in_metadata_of p root' name) ->
      (forall root' sub, root' ∈ roots -> sub ∈ default_read_only_subpaths_for_writable_root root' false ->
         path_starts_with p sub = false) ->
      can_write_path_with_cwd policy path cwd = true).
Proof.
  intros Hc Hr Hp policy allowed. pose proof (resolve_candidate_normal _ _ _ Hp) as Hn.
  pose proof (workspace_write_ok roots exclude_tmpdir exclude_slash_tmp Hr) as Hok.
  assert (fs_kind policy = Restricted) as Hk by done.
  assert (mkResolved [SEP] AccessRead ∈ resolved_entries_with_cwd policy cwd) as Hroot.
  { apply resolved_entry_elem. exists (mkEntry (Special Root) AccessRead). rewrite absolute_id by done.
    split; [apply workspace_write_keeps, elem_of_app; left; by left|].
    split; [by apply absolute_root_path_normal|done]. }
  destruct (resolve_access_decides policy path cwd p Hk Hp) as [(e & He & E)|[_ Hno]];
    [|specialize (Hno _ Hroot); cbn in Hno; by rewrite path_starts_with_root in Hno by by apply normal_abs_absolute].
  pose proof He as (Hin & Hs & Hm).
  destruct (workspace_resolved _ _ _ _ _ Hc Hin) as [Ha|[Ha Hal]];
    unfold can_read_path_with_cwd, can_write_path_with_cwd; rewrite E, Ha;
    (split; [done|]); (split; [try done|]).
  - intros root Hal Hps Hmd Hro. exfalso.
    destruct (Hm _ (workspace_root_resolved _ _ _ _ _ Hc Hal) Hps) as [Hsub Hle]. cbn in Hsub, Hle.
    destruct (workspace_read_only _ _ _ _ _ Hc Hin Ha) as [Hre|[Hre|(r & Hrin & Hrs)]].
    + assert (components root = components (res_path e)) as Heq.
      { rewrite Hre in Hsub |- *. apply path_starts_with_spec in Hsub. apply (anti_symm prefix); [done|].
        apply path_starts_with_spec, path_starts_with_root, normal_abs_absolute.
        apply (resolved_entry_normal _ _ _ Hok Hc (workspace_root_resolved _ _ _ _ _ Hc Hal)). }
      specialize (Hle Heq). rewrite Ha in Hle. cbn in Hle. lia.
    + apply list_elem_of_In, in_map_iff in Hre as (name & Hj & Hname%list_elem_of_In). rewrite <- Hj in Hs.
      by apply (Hmd cwd name); [left|].
    + by rewrite (Hro r _ Hrin Hrs) in Hs.
  - intros _. exists (res_path e). split; [done|]. split; [done|]. intros name [Hname Hmd].
    apply (Hm (mkResolved (join_abs cwd name) AccessRead)); [|done].
    apply resolved_entry_elem. exists (project_metadata_entry name). rewrite absolute_id by done. split; [|done].
    apply workspace_write_keeps, elem_of_app. right. apply list_elem_of_In, in_map_iff. exists name.
    split; [done|by apply list_elem_of_In].
  - intros root _ _ Hmd _. cbn [can_write bool_decide negb]. destruct (has_full_disk_write_access policy); [done|].
    unfold is_metadata_write_denied, fs_restricted. rewrite Hk, Hp. cbn [negb].
    pose proof (metadata_child_spec policy p cwd Hok Hc Hn) as Hmc.
    destruct (metadata_child_of_writable_root policy p cwd) as [[protected name]|]; [|done].
    destruct Hmc as (w & Hwin & Hww & Hwm & _). exfalso.
    destruct (workspace_resolved _ _ _ _ _ Hc Hwin) as [Hwa|[_ Hal']]; [by rewrite Hwa in Hww|].
    by apply (Hmd _ _ Hal' Hwm).
Qed.

(** ** The hypotheses hold *)

Lemma plain_host_ok dirs : @HostOk (plain_host dirs).
Proof. split; [done|]. by intros d [= <-]. Qed.

Lemma normal_abs_from home cwd p : from_absolute_path home cwd p = Some p -> is_absolute p = true -> normal_abs p.
Proof.
  unfold from_absolute_path. intros H Hp. rewrite expand_absolute, Hp in H by done. injection H as <-.
  assert (normal_abs (absolutize_from p [SEP])) as Hn by by apply absolutize_from_normal.
  unfold absolutize_from, path_with_base in Hn. by rewrite Hp in Hn.
Qed.

Ltac normal_path := apply (normal_abs_from None None); reflexivity.
Ltac normal_entries := repeat (constructor; [first [exact I|normal_path]|]); constructor.

Definition example_policy : FileSystemSandboxPolicy := restricted
  [mkEntry (Special Root) AccessRead; mkEntry (PathEntry (lit "/w")) AccessWrite;
   mkEntry (PathEntry (lit "/w/secret")) AccessNone; mkEntry (PathEntry (lit "/w")) AccessRead].

Lemma example_policy_ok : policy_ok example_policy.
Proof. normal_entries. Qed.

Lemma resolve_access_spec_witness :
  exists p, @resolve_candidate_path (plain_host []) (lit "secret/x") (lit "/w") = Some p
    /\ @resolve_access_with_cwd (plain_host []) example_policy (lit "secret/x") (lit "/w") = AccessNone
    /\ @resolve_access_with_cwd (plain_host []) example_policy (lit "y") (lit "/w") = AccessWrite.
Proof.
  destruct (@resolve_access_spec (plain_host []) (plain_host_ok []) example_policy (lit "secret/x") (lit "/w")
              eq_refl ltac:(normal_path)) as (p & Hp & _).
  exists p. split; [exact Hp|]. split; reflexivity.
Defined.

(** A read entry for the same place is overridden, so this is full access. *)
Definition overridden_policy : FileSystemSandboxPolicy := restricted
  [mkEntry (Special Root) AccessWrite; mkEntry (PathEntry (lit "/tmp")) AccessRead;
   mkEntry (Special SlashTmp) AccessWrite].

Lemma full_disk_access_sound_witness :
  @can_write_path_with_cwd (plain_host [lit "/tmp"]) overridden_policy (lit "/tmp/x") (lit "/w") = true.
Proof.
  apply (@full_disk_access_sound (plain_host [lit "/tmp"]) (plain_host_ok _)); [normal_entries|normal_path|reflexivity..].
Defined.

Lemma example_writable e :
  e ∈ @resolved_entries_with_cwd (plain_host []) example_policy (lit "/w") -> can_write (res_access e) = true ->
  e = mkResolved (lit "/w") AccessWrite.
Proof.
  replace (@resolved_entries_with_cwd (plain_host []) example_policy (lit "/w")) with
    [mkResolved (lit "/") AccessRead; mkResolved (lit "/w") AccessWrite;
     mkResolved (lit "/w/secret") AccessNone; mkResolved (lit "/w") AccessRead] by (vm_compute; reflexivity).
  rewrite !elem_of_cons, elem_of_nil. by intros [->|[->|[->|[->|[]]]]].
Qed.

Lemma metadata_dirs_protected_witness :
  @can_write_path_with_cwd (plain_host []) example_policy (lit ".git/config") (lit "/w") = false.
Proof.
  destruct (@metadata_dirs_protected (plain_host []) (plain_host_ok []) example_policy (lit ".git/config") (lit "/w")
           (lit "/w/.git/config") example_policy_ok ltac:(normal_path) eq_refl eq_refl eq_refl) as [_ Hdeny].
  apply (Hdeny (mkResolved (lit "/w") AccessWrite) (lit ".git")).
  - split; [|reflexivity]. right. left.
  - split; [left|reflexivity].
  - intros e' name' w [He Hew] [Hn _] [Hw Hww] _.
    rewrite (example_writable e' He Hew), (example_writable w Hw Hww).
    cbv [PROTECTED_METADATA_PATH_NAMES] in Hn. rewrite !elem_of_cons, elem_of_nil in Hn.
    destruct Hn as [->|[->|[->|[]]]]; reflexivity.
Defined.

Lemma workspace_write_spec_witness :
  let policy := @workspace_write (plain_host [lit "/w/.git"]) [lit "/x"] true true in
  @can_write_path_with_cwd (plain_host [lit "/w/.git"]) policy (lit "src/a") (lit "/w") = true
  /\ @can_write_path_with_cwd (plain_host [lit "/w/.git"]) policy (lit ".git/a") (lit "/w") = false
  /\ @can_read_path_with_cwd (plain_host [lit "/w/.git"]) policy (lit "src/a") (lit "/w") = true.
Proof.
  destruct (@workspace_write_spec (plain_host [lit "/w/.git"]) (plain_host_ok _) [lit "/x"] true true (lit "/w") (lit "src/a")
    (lit "/w/src/a") ltac:(normal_path) ltac:(repeat (constructor; [normal_path|]); constructor) eq_refl) as [Hr _].
  split; [reflexivity|]. split; [reflexivity|]. exact Hr.
Defined.

(** The first writable entry whose metadata directory holds the path counts,
    whether or not another's holds it too: what an entry inside [/w/.git]
    gives depends on the order of two others. *)
Example metadata_denial_depends_on_order :
  let root := mkEntry (PathEntry (lit "/w")) AccessWrite in
  let nested := mkEntry (PathEntry (lit "/w/.git/x")) AccessWrite in
  let write entries := @can_write_path_with_cwd (plain_host []) (restricted entries)
                         (lit "/w/.git/x/.codex/f") (lit "/w") in
  write [root; nested] = true /\ write [nested; root] = false.
Proof. split; vm_compute; reflexivity. Qed.
