(* ===== verification/WritableRoots.v ===== *)
(** * WritableRoots: what a sandbox is configured with

    The readable, writable and unreadable roots of a policy
    ([protocol/src/permissions.rs], [WritableRoot] of [protocol/src/protocol.rs])
    and the matcher that denies direct reads.  The first theorem says that the
    roots agree with the access the policy itself gives a path. *)

From S2P Require Import Prelude Paths HostPaths Permissions.
Local Open Scope str_scope.

Record WritableRoot : Type := mkWritableRoot {
  root : str;
  read_only_subpaths : list str;
  protected_metadata_names : list str;
}.

Definition path_contains_protected_metadata_name (self : WritableRoot) (path : str) : bool :=
  match path_strip_prefix path (root self) with
  | None | Some [] => false
  | Some (first_component :: _) =>
      existsb (fun name => as_os_str first_component =? name) (protected_metadata_names self)
  end.

Definition is_path_writable (self : WritableRoot) (path : str) : bool :=
  if negb (path_starts_with path (root self)) then false
  else if existsb (path_starts_with path) (read_only_subpaths self) then false
  else negb (path_contains_protected_metadata_name self path).

Section roots.
Context `{Host}.

Definition has_explicit_resolved_path_entry (entries : list ResolvedFileSystemEntry) (path : str) : bool :=
  existsb (fun entry => path_eqb (res_path entry) path) entries.

Definition protected_metadata_names_for_writable_root (policy : FileSystemSandboxPolicy)
    (root : str) (raw_writable_roots : list str) (cwd : str) : list str :=
  List.filter (fun metadata_name =>
    forallb (fun metadata_path => negb (can_write_path_with_cwd policy metadata_path cwd))
      (join_abs root metadata_name
       :: map (fun raw_root => join_abs raw_root metadata_name) raw_writable_roots))
    PROTECTED_METADATA_PATH_NAMES.

(** The closure that finds where a narrower entry cuts out of a root. *)
Definition carveout (root : str) (raw_writable_roots : list str) (entry : ResolvedFileSystemEntry)
  : option str :=
  let preserve_raw_carveout_paths := match parent root with Some _ => true | None => false end in
  let effective_path := normalize_effective_absolute_path (res_path entry) in
  let raw_carveout_path :=
    if preserve_raw_carveout_paths then
      if path_eqb (res_path entry) root then None
      else if path_starts_with (res_path entry) root then Some (res_path entry)
      else head (omap (fun raw_root =>
             suffix ← path_strip_prefix (res_path entry) raw_root;
             if is_empty suffix then None
             else Some (join_abs root (path_of_components suffix))) raw_writable_roots)
    else None in
  match raw_carveout_path with
  | Some raw_carveout_path => Some raw_carveout_path
  | None =>
      if path_eqb effective_path root || negb (path_starts_with effective_path root) then None
      else Some effective_path
  end.

Definition writable_root_of (self : FileSystemSandboxPolicy) (cwd : str) (writable_entries : list str)
    (root : str) : WritableRoot :=
  let resolved_entries := resolved_entries_with_cwd self cwd in
  let raw_writable_roots :=
    List.filter (fun path => path_eqb (normalize_effective_absolute_path path) root) writable_entries in
  let protect_missing_dot_codex :=
    match absolute cwd with
    | Some cwd => path_eqb (normalize_effective_absolute_path cwd) root
    | None => false
    end in
  let default_subpaths :=
    List.filter (fun path => negb (has_explicit_resolved_path_entry resolved_entries path))
      (default_read_only_subpaths_for_writable_root root protect_missing_dot_codex) in
  let carveouts :=
    omap (carveout root raw_writable_roots)
      (List.filter (fun entry => negb (can_write_path_with_cwd self (res_path entry) cwd))
         (List.filter (fun entry => negb (can_write (res_access entry))) resolved_entries)) in
  mkWritableRoot root
    (dedup_absolute_paths (default_subpaths ++ carveouts) false)
    (protected_metadata_names_for_writable_root self root raw_writable_roots cwd).

Definition writable_entries_with_cwd (self : FileSystemSandboxPolicy) (cwd : str) : list str :=
  map res_path
    (List.filter (fun entry => can_write_path_with_cwd self (res_path entry) cwd)
       (List.filter (fun entry => can_write (res_access entry)) (resolved_entries_with_cwd self cwd))).

Definition get_writable_roots_with_cwd (self : FileSystemSandboxPolicy) (cwd : str) : list WritableRoot :=
  if has_full_disk_write_access self then []
  else
    let writable_entries := writable_entries_with_cwd self cwd in
    map (writable_root_of self cwd writable_entries) (dedup_absolute_paths writable_entries true).

Definition get_readable_roots_with_cwd (self : FileSystemSandboxPolicy) (cwd : str) : list str :=
  if has_full_disk_read_access self then []
  else
    dedup_absolute_paths
      (map res_path
         (List.filter (fun entry => can_read_path_with_cwd self (res_path entry) cwd)
            (List.filter (fun entry => can_read (res_access entry)) (resolved_entries_with_cwd self cwd))))
      true.

Definition get_unreadable_roots_with_cwd (self : FileSystemSandboxPolicy) (cwd : str) : list str :=
  if negb (fs_restricted self) then []
  else
    let root := absolute cwd ≫= absolute_root_path_for_cwd in
    dedup_absolute_paths
      (map res_path
         (List.filter (fun entry => negb (option_path_eqb root (Some (res_path entry))))
            (List.filter (fun entry => negb (can_read_path_with_cwd self (res_path entry) cwd))
               (List.filter (fun entry => bool_decide (res_access entry = AccessNone))
                  (resolved_entries_with_cwd self cwd)))))
      true.

Definition get_unreadable_globs_with_cwd (self : FileSystemSandboxPolicy) (cwd : str) : list str :=
  if negb (fs_restricted self) then []
  else
    dedup (sort_by str_leb
      (omap (fun entry =>
         match entry_path entry with
         | GlobPattern pattern => Some (resolve_path_against_base h_home_dir pattern cwd)
         | PathEntry _ | Special _ => None
         end) (List.filter denies_read (fs_entries self)))).

(** ** Denied reads *)

(** The pattern compiler is another crate's. *)
Context (build_glob_matcher : str -> option (str -> bool)).

Record ReadDenyMatcher : Type := mkReadDenyMatcher {
  denied_candidates : list (list str);
  deny_read_matchers : list (str -> bool);
  invalid_pattern : bool;
}.

Definition new_read_deny_matcher (policy : FileSystemSandboxPolicy) (cwd : str) : option ReadDenyMatcher :=
  if negb (has_denied_read_restrictions policy) then None
  else
    let globs := get_unreadable_globs_with_cwd policy cwd in
    Some (mkReadDenyMatcher
      (map normalized_and_canonical_candidates (get_unreadable_roots_with_cwd policy cwd))
      (omap build_glob_matcher globs)
      (existsb (fun pattern => match build_glob_matcher pattern with None => true | Some _ => false end) globs)).

Definition is_read_denied (self : ReadDenyMatcher) (path : str) : bool :=
  if invalid_pattern self then true
  else
    let path_candidates := normalized_and_canonical_candidates path in
    if existsb (fun denied_candidates =>
         existsb (fun candidate =>
           existsb (fun denied_candidate =>
             path_eqb candidate denied_candidate || path_starts_with candidate denied_candidate)
             denied_candidates) path_candidates) (denied_candidates self)
    then true
    else existsb (fun matcher => existsb matcher path_candidates) (deny_read_matchers self).
End roots.

(** ** The roots agree with the policy *)

(** Two paths that are below each other are one. *)
Lemma path_starts_with_antisym p q : normal_abs p -> normal_abs q ->
  path_starts_with p q = true -> path_starts_with q p = true -> p = q.
Proof.
  intros Hp Hq [k1 H1]%path_starts_with_spec [k2 H2]%path_starts_with_spec. apply components_normal_inj; [done..|].
  assert (length k2 = 0%nat) as ->%nil_length_inv; [|by rewrite app_nil_r in H2].
  apply (f_equal length) in H1, H2. rewrite length_app in H1, H2. lia.
Qed.

Section roots_sound.
Context `{Host} {Hok : HostOk} {Hsym : NoSymlinks}.
Context (policy : FileSystemSandboxPolicy) (cwd : str).
Hypothesis policy_is_ok : policy_ok policy.
Hypothesis cwd_normal : normal_abs cwd.
Hypothesis policy_restricted : fs_kind policy = Restricted.

Local Notation entries := (resolved_entries_with_cwd policy cwd).

Lemma entry_normal e : e ∈ entries -> normal_abs (res_path e).
Proof. by apply resolved_entry_normal. Qed.

Lemma access_of_normal p :
  normal_abs p ->
  (exists e, decides entries p e /\ resolve_access_with_cwd policy p cwd = res_access e)
  \/ resolve_access_with_cwd policy p cwd = AccessNone
     /\ forall e, e ∈ entries -> path_starts_with p (res_path e) = false.
Proof. intros Hp. apply resolve_access_decides; [done|]. by apply resolve_candidate_id. Qed.

(** The entry that decides about a path decides about its own place. *)
Lemma decides_at_place p e : decides entries p e -> decides entries (res_path e) e.
Proof.
  intros (Hin & Hs & Hm). split; [done|]. split; [apply path_starts_with_refl|].
  intros e' Hin' Hs'. apply Hm; [done|]. by eapply path_starts_with_trans.
Qed.

Lemma access_of_decides p e :
  normal_abs p -> decides entries p e -> resolve_access_with_cwd policy p cwd = res_access e.
Proof.
  intros Hp He. destruct (access_of_normal p Hp) as [(e' & He' & ->)|[_ Hno]]; [by eapply decides_access|].
  destruct He as (Hin & Hs & _). by rewrite Hno in Hs.
Qed.

Lemma elem_of_writable_entries p :
  p ∈ writable_entries_with_cwd policy cwd
  <-> exists e, e ∈ entries /\ res_path e = p /\ can_write (res_access e) = true
                /\ can_write_path_with_cwd policy p cwd = true.
Proof.
  unfold writable_entries_with_cwd. rewrite list_elem_of_In, in_map_iff. split.
  - intros (e & <- & [[Hin Hw]%filter_In Hc]%filter_In). exists e. by apply list_elem_of_In in Hin.
  - intros (e & Hin & <- & Hw & Hc). exists e. split; [done|]. rewrite !filter_In. by apply list_elem_of_In in Hin.
Qed.

Lemma writable_entries_normal : Forall normal_abs (writable_entries_with_cwd policy cwd).
Proof. apply Forall_forall. intros p (e & Hin & <- & _)%elem_of_writable_entries. by apply entry_normal. Qed.

Lemma elem_of_writable_roots w :
  has_full_disk_write_access policy = false ->
  w ∈ get_writable_roots_with_cwd policy cwd
  <-> exists r, r ∈ writable_entries_with_cwd policy cwd
                /\ w = writable_root_of policy cwd (writable_entries_with_cwd policy cwd) r.
Proof.
  intros Hf. unfold get_writable_roots_with_cwd. rewrite Hf, list_elem_of_In, in_map_iff.
  split; intros (r & Hr); exists r.
  - destruct Hr as [<- Hin%list_elem_of_In].
    by rewrite elem_of_dedup_effective in Hin by apply writable_entries_normal.
  - destruct Hr as [Hin ->]. split; [done|]. apply list_elem_of_In.
    by rewrite elem_of_dedup_effective by apply writable_entries_normal.
Qed.

(** A denied metadata path, and what lifts the denial. *)
Lemma metadata_denied_spec p :
  normal_abs p -> has_full_disk_write_access policy = false ->
  can_write (resolve_access_with_cwd policy p cwd) = true ->
  can_write_path_with_cwd policy p cwd = false
  <-> exists protected name, metadata_child_of_writable_root policy p cwd = Some (protected, name)
      /\ has_explicit_write_entry_for_metadata_path policy protected p cwd = false.
Proof.
  intros Hp Hf Ha. unfold can_write_path_with_cwd, is_metadata_write_denied, fs_restricted.
  rewrite Ha, Hf, policy_restricted, resolve_candidate_id by done. cbn [negb].
  destruct (metadata_child_of_writable_root policy p cwd) as [[protected name]|].
  - rewrite negb_involutive. split; [by eauto|]. by intros (? & ? & [= <- <-] & ?).
  - split; [done|]. by intros (? & ? & ? & _).
Qed.

Lemma can_write_access p :
  can_write_path_with_cwd policy p cwd = true -> can_write (resolve_access_with_cwd policy p cwd) = true.
Proof. unfold can_write_path_with_cwd. by destruct (can_write _). Qed.

(** The first metadata directory around a path is also the first around an
    ancestor that is still inside it. *)
Lemma metadata_child_up p q protected name :
  path_starts_with p q = true ->
  metadata_child_of_writable_root policy p cwd = Some (protected, name) ->
  path_starts_with q protected = true ->
  metadata_child_of_writable_root policy q cwd = Some (protected, name).
Proof.
  intros [k Hpq]%path_starts_with_spec Hchild Hq. revert Hchild. unfold metadata_child_of_writable_root.
  apply head_omap_sub.
  - intros e r Hin. destruct (path_strip_prefix q _) as [[|c cs]|] eqn:E; [done| |done].
    apply path_strip_prefix_Some in E.
    assert (path_strip_prefix p (res_path e) = Some (c :: cs ++ k)) as ->; [|done].
    apply path_strip_prefix_Some. by rewrite Hpq, E, <- app_assoc.
  - intros e Hin. apply list_elem_of_In, filter_In in Hin as [Hin _]. apply list_elem_of_In in Hin.
    pose proof (entry_normal e Hin) as Hn.
    destruct (path_strip_prefix p _) as [[|c cs]|] eqn:E; [done| |done]. cbn [mbind option_bind head].
    destruct (metadata_path_name (as_os_str c)) as [m|] eqn:Em; [|done]. intros [= <- <-].
    apply metadata_path_name_spec in Em as [Ec Hm]. 
    apply path_starts_with_spec in Hq as [k' Hq]. rewrite components_join_metadata in Hq by done.
    assert (path_strip_prefix q (res_path e) = Some (Normal m :: k')) as ->.
    { apply path_strip_prefix_Some. by rewrite Hq, <- app_assoc. }
    cbn [mbind option_bind head as_os_str]. by rewrite (proj2 (metadata_path_name_spec m m)).
Qed.

(** An ancestor of a path that is not denied, inside the metadata directory
    that counts for the path, shows that the path is not denied. *)
Lemma explicit_write_down p q protected :
  path_starts_with p q = true ->
  has_explicit_write_entry_for_metadata_path policy protected q cwd = true ->
  has_explicit_write_entry_for_metadata_path policy protected p cwd = true.
Proof.
  intros Hpq (w & Hin & Hw & Ht & Hp)%explicit_write_spec. apply explicit_write_spec.
  exists w. do 2 (split; [done|]). split; [|done]. by eapply path_starts_with_trans.
Qed.

(** Without links, a narrower entry cuts itself out. *)
Lemma carveout_below r raws e :
  normal_abs r -> e ∈ entries -> path_starts_with (res_path e) r = true -> res_path e <> r ->
  carveout r raws e = Some (res_path e).
Proof.
  intros Hr Hin Hs Hne. pose proof (entry_normal e Hin) as Hn.
  assert (path_eqb (res_path e) r = false) as Hneq.
  { apply not_true_iff_false. by rewrite path_eqb_normal. }
  unfold carveout. rewrite normalize_effective_id, Hneq, Hs by done. by destruct (parent r).
Qed.

Lemma carveouts_normal r raws e p :
  normal_abs r -> e ∈ entries -> carveout r raws e = Some p -> normal_abs p.
Proof.
  intros Hr Hin. pose proof (entry_normal e Hin) as Hn. unfold carveout. rewrite normalize_effective_id by done.
  destruct (parent r).
  - destruct (path_eqb _ _); cbn [orb]; [done|].
    destruct (path_starts_with _ _); [by intros [= <-]|]. cbn [negb].
    destruct (head _) as [q|] eqn:E; [|done]. intros [= ->].
    assert (p ∈ omap (fun raw_root => suffix ← path_strip_prefix (res_path e) raw_root;
       if is_empty suffix then None else Some (join_abs r (path_of_components suffix))) raws) as Hp.
    { destruct (omap _ raws); [done|]. injection E as ->. left. }
    apply list_elem_of_omap in Hp as (raw & _ & Hp). destruct (path_strip_prefix _ _); [|done].
    cbn [mbind option_bind] in Hp. destruct (is_empty _); [done|]. injection Hp as <-.
    apply join_abs_normal. by apply normal_abs_absolute.
  - destruct (_ || _); [done|]. by intros [= <-].
Qed.

Lemma read_only_has_carveouts r e :
  r ∈ writable_entries_with_cwd policy cwd -> e ∈ entries -> can_write (res_access e) = false ->
  can_write_path_with_cwd policy (res_path e) cwd = false ->
  path_starts_with (res_path e) r = true -> res_path e <> r ->
  res_path e ∈ read_only_subpaths (writable_root_of policy cwd (writable_entries_with_cwd policy cwd) r).
Proof.
  intros Hr Hin Hw Hc Hs Hne. assert (normal_abs r) as Hrn.
  { pose proof writable_entries_normal as Hall. rewrite Forall_forall in Hall. by apply Hall. }
  cbn [writable_root_of read_only_subpaths]. apply elem_of_dedup.
  - apply Forall_app. split; apply Forall_forall; intros x Hx.
    + apply list_elem_of_In, filter_In in Hx as [Hx _]. apply list_elem_of_In in Hx.
      by eapply default_read_only_normal.
    + apply list_elem_of_omap in Hx as (e' & He' & Hx).
      apply list_elem_of_In, filter_In in He' as [[He' _]%filter_In _]. apply list_elem_of_In in He'.
      by eapply carveouts_normal.
  - apply elem_of_app. right. apply list_elem_of_omap. exists e. split; [|by apply carveout_below].
    apply list_elem_of_In. rewrite !filter_In, Hw, Hc. by apply list_elem_of_In in Hin.
Qed.

(** A path that a root says is writable has write access. *)
Lemma writable_root_access p r :
  has_full_disk_write_access policy = false ->
  normal_abs p -> r ∈ writable_entries_with_cwd policy cwd ->
  is_path_writable (writable_root_of policy cwd (writable_entries_with_cwd policy cwd) r) p = true ->
  can_write (resolve_access_with_cwd policy p cwd) = true.
Proof.
  intros Hf Hp Hr Hw. pose proof Hr as (e0 & Hin0 & <- & Hw0 & Hc0)%elem_of_writable_entries.
  unfold is_path_writable in Hw. cbn [writable_root_of root] in Hw.
  destruct (path_starts_with p (res_path e0)) eqn:Hs0; [|done]. cbn [negb] in Hw.
  destruct (access_of_normal p Hp) as [(d & Hd & ->)|[_ Hno]]; [|by rewrite Hno in Hs0].
  apply not_false_iff_true. intros Hdw. pose proof Hd as (Hdin & Hds & Hdm).
  destruct (Hdm e0 Hin0 Hs0) as [Hsub _]. pose proof (entry_normal d Hdin) as Hdn.
  assert (can_write_path_with_cwd policy (res_path d) cwd = false) as Hdc.
  { apply not_true_iff_false. intros Ht%can_write_access.
    rewrite (access_of_decides _ d) in Ht by (done || by eapply decides_at_place). congruence. }
  destruct (decide (res_path d = res_path e0)) as [E|Hne]; [by rewrite E, Hc0 in Hdc|].
  pose proof (read_only_has_carveouts _ d Hr Hdin Hdw Hdc Hsub Hne) as Hro.
  match type of Hw with (if ?b then _ else _) = _ => assert (b = true) as Hb end; [|by rewrite Hb in Hw].
  apply existsb_exists. exists (res_path d). split; [by apply list_elem_of_In|done].
Qed.

(** The place of the entry that decides about a writable path is a root. *)
Lemma decider_is_root p d :
  has_full_disk_write_access policy = false -> normal_abs p -> decides entries p d ->
  can_write (res_access d) = true -> can_write_path_with_cwd policy p cwd = true ->
  res_path d ∈ writable_entries_with_cwd policy cwd.
Proof.
  intros Hf Hp Hd Hdw Hc. pose proof Hd as (Hdin & Hds & Hdm). pose proof (entry_normal d Hdin) as Hdn.
  apply elem_of_writable_entries. exists d. do 3 (split; [done|]). apply not_false_iff_true. intros Hdeny.
  apply metadata_denied_spec in Hdeny as (protected & name & Hchild & Hex); [|done|done|].
  - pose proof (metadata_child_spec policy (res_path d) cwd policy_is_ok cwd_normal Hdn) as Hmc.
    rewrite Hchild in Hmc. destruct Hmc as (e & _ & _ & [_ Hin] & ->).
    apply not_true_iff_false in Hex. apply Hex, explicit_write_spec. exists d.
    do 2 (split; [done|]). split; [apply path_starts_with_refl|done].
  - by rewrite (access_of_decides _ d) by (done || by eapply decides_at_place).
Qed.

(** Metadata of a root or of a place around it is protected by the root's
    names, or not denied at all. *)
Lemma root_metadata_protected p r protected name e :
  has_full_disk_write_access policy = false ->
  normal_abs p -> r ∈ writable_entries_with_cwd policy cwd -> path_starts_with p r = true ->
  metadata_child_of_writable_root policy p cwd = Some (protected, name) ->
  e ∈ entries -> in_metadata_of p (res_path e) name -> protected = join_abs (res_path e) name ->
  path_starts_with r (res_path e) = true ->
  path_contains_protected_metadata_name (writable_root_of policy cwd (writable_entries_with_cwd policy cwd) r) p = false ->
  has_explicit_write_entry_for_metadata_path policy protected p cwd = true.
Proof.
  intros Hf Hp Hr Hpr Hchild Hin [Hname Hm] -> Hre Hnot.
  pose proof Hr as (e0 & Hin0 & <- & Hw0 & Hc0)%elem_of_writable_entries.
  pose proof (entry_normal e Hin) as Hen. pose proof (entry_normal e0 Hin0) as Hrn.
  assert (forall q, normal_abs q -> path_starts_with p q = true ->
            path_starts_with q (join_abs (res_path e) name) = true ->
            can_write_path_with_cwd policy q cwd = true ->
            has_explicit_write_entry_for_metadata_path policy (join_abs (res_path e) name) p cwd = true) as Hgo.
  { intros q Hq Hpq Hqm Hqc. eapply explicit_write_down; [exact Hpq|]. apply not_false_iff_true. intros Hex.
    apply not_false_iff_true in Hqc. apply Hqc. apply metadata_denied_spec; [done|done|apply can_write_access; by apply not_false_iff_true|].
    exists (join_abs (res_path e) name), name. split; [by eapply metadata_child_up|done]. }
  destruct (decide (res_path e = res_path e0)) as [E|Hne].
  - assert (normal_abs (join_abs (res_path e) name)) as Hjn by by apply join_abs_normal, normal_abs_absolute.
    apply (Hgo _ Hjn Hm (path_starts_with_refl _)). apply not_false_iff_true. intros Hden.
    unfold path_contains_protected_metadata_name in Hnot. cbn [writable_root_of root protected_metadata_names] in Hnot.
    destruct (proj1 (in_metadata_strip p (res_path e) name Hen) (conj Hname Hm)) as (_ & cs & Hcs).
    rewrite <- E, Hcs in Hnot. cbn [as_os_str] in Hnot. apply not_true_iff_false in Hnot. apply Hnot.
    apply existsb_exists. exists name. rewrite bool_decide_eq_true_2 by done. split; [|done].
    apply filter_In. split; [by apply list_elem_of_In|]. apply forallb_forall.
    intros q [<-|(raw & <- & [Hraw%list_elem_of_In Hq]%filter_In)%in_map_iff]; [by rewrite Hden|].
    pose proof writable_entries_normal as Hall. rewrite Forall_forall in Hall. specialize (Hall _ Hraw).
    rewrite normalize_effective_id in Hq by done. apply path_eqb_normal in Hq as ->; [by rewrite Hden|done..].
  - apply (Hgo (res_path e0)); try done. apply path_starts_with_spec. rewrite components_join_metadata by done.
    apply path_starts_with_spec in Hre as [k Hk], Hpr as [k' Hk'], Hm as [k'' Hk''].
    rewrite components_join_metadata in Hk'' by done. rewrite Hk in Hk'. rewrite Hk', <- !app_assoc in Hk''.
    apply app_inv_head in Hk''. destruct k as [|c k].
    + exfalso. apply Hne. symmetry. apply components_normal_inj; [done|done|]. by rewrite Hk, app_nil_r.
    + injection Hk'' as -> _. exists k. by rewrite Hk, <- app_assoc.
Qed.
(** An entry that gives write access, and that nothing at its place denies, is a
    root: its own metadata is lifted by the entry itself. *)
Lemma write_entry_is_root e :
  has_full_disk_write_access policy = false -> e ∈ entries -> can_write (res_access e) = true ->
  can_write (resolve_access_with_cwd policy (res_path e) cwd) = true ->
  res_path e ∈ writable_entries_with_cwd policy cwd.
Proof.
  intros Hf Hin Hew Ha. pose proof (entry_normal e Hin) as Hen.
  apply elem_of_writable_entries. exists e. do 3 (split; [done|]). apply not_false_iff_true. intros Hdeny.
  apply metadata_denied_spec in Hdeny as (protected & name & Hchild & Hex); [|done..].
  pose proof (metadata_child_spec policy (res_path e) cwd policy_is_ok cwd_normal Hen) as Hmc.
  rewrite Hchild in Hmc. destruct Hmc as (e' & _ & _ & [_ Hm] & ->).
  apply not_true_iff_false in Hex. apply Hex, explicit_write_spec. exists e.
  do 2 (split; [done|]). split; [apply path_starts_with_refl|done].
Qed.

(** A writable entry strictly below a root and around a path that the root says
    is writable is a root as well. *)
Lemma inner_write_entry_is_root p r e :
  has_full_disk_write_access policy = false -> r ∈ writable_entries_with_cwd policy cwd ->
  is_path_writable (writable_root_of policy cwd (writable_entries_with_cwd policy cwd) r) p = true ->
  e ∈ entries -> can_write (res_access e) = true -> path_starts_with p (res_path e) = true ->
  path_starts_with (res_path e) r = true -> res_path e <> r ->
  res_path e ∈ writable_entries_with_cwd policy cwd.
Proof.
  intros Hf Hr Hw Hin Hew Hpe Her Hne. apply write_entry_is_root; [done..|]. apply not_false_iff_true. intros Ha.
  pose proof (entry_normal e Hin) as Hen.
  destruct (access_of_normal _ Hen) as [(d & Hd & E)|[_ Hno]];
    [|specialize (Hno e Hin); by rewrite path_starts_with_refl in Hno].
  rewrite E in Ha. destruct Hd as (Hdin & Hds & Hdm).
  destruct (Hdm e Hin (path_starts_with_refl _)) as [Hde _].
  assert (res_path d = res_path e) as Ed.
  { apply path_starts_with_antisym; [by apply entry_normal|done..]. }
  assert (can_write_path_with_cwd policy (res_path d) cwd = false) as Hdc.
  { apply not_true_iff_false. intros Ht%can_write_access. rewrite Ed, E in Ht. congruence. }
  pose proof (read_only_has_carveouts r d Hr Hdin Ha Hdc ltac:(by rewrite Ed) ltac:(by rewrite Ed)) as Hro.
  unfold is_path_writable in Hw. destruct (negb _); [done|].
  match type of Hw with (if ?b then _ else _) = _ => assert (b = true) as Hb end; [|by rewrite Hb in Hw].
  apply existsb_exists. exists (res_path d). split; [by apply list_elem_of_In|by rewrite Ed].
Qed.

(** A default read-only path of a root is in its metadata, or its .git file
    names it. *)
Lemma default_read_only_shape r missing s :
  normal_abs r -> s ∈ default_read_only_subpaths_for_writable_root r missing ->
  (exists name, name ∈ PROTECTED_METADATA_PATH_NAMES /\ s = join_abs r name)
  \/ resolve_gitdir_from_file (join_abs r PROTECTED_METADATA_GIT_PATH_NAME) = Some s.
Proof.
  intros Hr. unfold default_read_only_subpaths_for_writable_root.
  intros Hs%dedup_subset. rewrite !elem_of_app in Hs. destruct Hs as [Hs|[Hs|Hs]].
  - destruct (_ || _); [|by apply elem_of_nil in Hs]. apply elem_of_app in Hs as [Hs|Hs].
    + destruct (_ && _); [|by apply elem_of_nil in Hs].
      destruct (resolve_gitdir_from_file _) as [g|]; [|by apply elem_of_nil in Hs].
      apply list_elem_of_singleton in Hs as ->. by right.
    + apply list_elem_of_singleton in Hs as ->. left. eexists. split; [|done]. left.
  - destruct (h_is_dir _); [|by apply elem_of_nil in Hs]. apply list_elem_of_singleton in Hs as ->.
    left. eexists. split; [|done]. right. left.
  - destruct (_ || _); [|by apply elem_of_nil in Hs]. apply list_elem_of_singleton in Hs as ->.
    left. eexists. split; [|done]. right. right. left.
Qed.

(** Where the raw roots are the root itself, a carve-out is the place of its
    entry, strictly below the root. *)
Lemma carveout_self r raws e s :
  normal_abs r -> normal_abs (res_path e) -> (forall raw, In raw raws -> raw = r) -> carveout r raws e = Some s ->
  s = res_path e /\ path_starts_with s r = true /\ s <> r.
Proof.
  intros Hr Hen Hraws. unfold carveout. rewrite normalize_effective_id by done.
  destruct (path_eqb (res_path e) r) eqn:Heq.
  { cbn [orb]. by destruct (parent r). }
  assert (res_path e <> r) as Hne by (intros E%path_eqb_normal; [congruence|done..]).
  destruct (path_starts_with (res_path e) r) eqn:Hs; cbn [orb negb].
  { by destruct (parent r); intros [= <-]. }
  replace (if _ : option str then _ else None) with (@None str); [done|].
  destruct (parent r); [|done]. induction raws as [|raw raws IH]; [done|].
  cbn [omap list_omap]. assert (raw = r) as -> by (apply Hraws; by left).
  unfold path_strip_prefix at 1. unfold path_starts_with in Hs. rewrite Hs. cbn. apply IH. intros raw' Hin. apply Hraws. by right.
Qed.

Lemma raws_self r :
  normal_abs r -> forall raw, In raw (List.filter (fun path => path_eqb (normalize_effective_absolute_path path) r)
    (writable_entries_with_cwd policy cwd)) -> raw = r.
Proof.
  intros Hr raw [Hraw%list_elem_of_In Hq]%filter_In.
  pose proof writable_entries_normal as Hall. rewrite Forall_forall in Hall. specialize (Hall _ Hraw).
  rewrite normalize_effective_id in Hq by done. by apply path_eqb_normal in Hq.
Qed.

(** What the policy lets be written below the deepest root is writable by the
    root: metadata that it may write lies inside other metadata. *)
Lemma decider_says_writable p d :
  has_full_disk_write_access policy = false -> normal_abs p -> decides entries p d -> can_write (res_access d) = true ->
  can_write_path_with_cwd policy p cwd = true ->
  is_path_writable (writable_root_of policy cwd (writable_entries_with_cwd policy cwd) (res_path d)) p = true
  \/ (exists gitdir, resolve_gitdir_from_file (join_abs (res_path d) PROTECTED_METADATA_GIT_PATH_NAME) = Some gitdir
        /\ path_starts_with p gitdir = true)
  \/ exists e name, e ∈ entries /\ can_write (res_access e) = true /\ in_metadata_of (res_path d) (res_path e) name.
Proof.
  intros Hf Hp Hd Hdw Hc. pose proof Hd as (Hdin & Hds & Hdm). pose proof (entry_normal d Hdin) as Hdn.
  (* metadata of the root that may be written *)
  assert (forall name, in_metadata_of p (res_path d) name ->
    exists e name, e ∈ entries /\ can_write (res_access e) = true /\ in_metadata_of (res_path d) (res_path e) name) as Hmeta.
  { intros name Hm. pose proof (metadata_child_spec policy p cwd policy_is_ok cwd_normal Hp) as Hmc.
    destruct (metadata_child_of_writable_root policy p cwd) as [[protected n]|] eqn:Hchild;
      [|by destruct (Hmc d name Hdin Hdw)].
    destruct Hmc as (e & He & Hew & [Hn Hpe] & ->). exists e, n. split; [done|]. split; [done|]. split; [done|].
    destruct (has_explicit_write_entry_for_metadata_path policy (join_abs (res_path e) n) p cwd) eqn:Hex.
    - apply explicit_write_spec in Hex as (w & Hw & _ & Hpw & Hwp). destruct (Hdm w Hw Hpw) as [Hdw' _].
      by eapply path_starts_with_trans.
    - assert (can_write_path_with_cwd policy p cwd = false); [|congruence].
      apply metadata_denied_spec; [done|done|by apply can_write_access|]. by exists (join_abs (res_path e) n), n. }
  unfold is_path_writable. cbn [writable_root_of root read_only_subpaths]. rewrite Hds. cbn [negb].
  match goal with |- context [existsb ?f ?l] => destruct (existsb f l) eqn:Hro end.
  - right. apply existsb_exists in Hro as (s & Hs%list_elem_of_In%dedup_subset & Hps).
    apply elem_of_app in Hs as [Hs|Hs].
    + apply list_elem_of_In, filter_In in Hs as [Hs%list_elem_of_In _].
      apply default_read_only_shape in Hs as [(name & Hname & ->)|Hg]; [right|left; by exists s|done].
      by apply (Hmeta name).
    + exfalso. apply list_elem_of_omap in Hs as (e & He & Hce).
      apply list_elem_of_In, filter_In in He as [[He%list_elem_of_In _]%filter_In _].
      apply carveout_self in Hce as (-> & Hsub & Hne); [|done|by apply entry_normal|by apply raws_self].
      apply Hne. destruct (Hdm e He Hps) as [Hde _].
      apply path_starts_with_antisym; [by apply entry_normal|done..].
  - destruct (path_contains_protected_metadata_name _ p) eqn:Hmd; [right; right|by left].
    unfold path_contains_protected_metadata_name in Hmd. cbn [writable_root_of root protected_metadata_names] in Hmd.
    destruct (path_strip_prefix p (res_path d)) as [[|c cs]|] eqn:Estrip; [done| |done].
    apply existsb_exists in Hmd as (name & [Hin%list_elem_of_In _]%filter_In & Hc').
    apply bool_decide_eq_true in Hc'. apply (Hmeta name). apply in_metadata_strip; [done|]. split; [done|].
    exists cs. rewrite Estrip. f_equal. f_equal.
    destruct c; cbn in Hc'; try (by rewrite Hc'); subst name; exfalso;
      by repeat (apply elem_of_cons in Hin as [[=]|Hin]); apply elem_of_nil in Hin.
Qed.
End roots_sound.

(** The deepest root above a path *)
Definition deepest_root (roots : list WritableRoot) (p : str) (w : WritableRoot) : Prop :=
  w ∈ roots /\ path_starts_with p (root w) = true /\
  forall w', w' ∈ roots -> path_starts_with p (root w') = true -> path_starts_with (root w) (root w') = true.

(** C20: on a host without symbolic links, for a restricted policy without full
    write access, the roots say of each path what the policy says: a path that
    the policy lets be written has a deepest root above it, and that root says
    that it is writable, unless the .git file of the root names a directory
    around the path, or the root itself lies in the metadata of a writable
    entry; a path that its deepest root says is writable, the policy lets be
    written; and a path that any root says is writable has write access (an
    outer root does not know the metadata of inner ones, see
    [outer_root_allows_inner_metadata]). *)
Theorem writable_roots_spec `{HostOk} `{!NoSymlinks} policy cwd p :
  policy_ok policy -> normal_abs cwd -> fs_kind policy = Restricted ->
  has_full_disk_write_access policy = false -> normal_abs p ->
  let roots := get_writable_roots_with_cwd policy cwd in
  (can_write_path_with_cwd policy p cwd = true -> exists w, deepest_root roots p w)
  /\ (forall w, w ∈ roots -> is_path_writable w p = true -> resolve_access_with_cwd policy p cwd = AccessWrite)
  /\ forall w, deepest_root roots p w ->
     (is_path_writable w p = true -> can_write_path_with_cwd policy p cwd = true)
     /\ (can_write_path_with_cwd policy p cwd = true ->
         is_path_writable w p = true
         \/ (exists gitdir, resolve_gitdir_from_file (join_abs (root w) PROTECTED_METADATA_GIT_PATH_NAME) = Some gitdir
              /\ path_starts_with p gitdir = true)
         \/ exists e name, e ∈ resolved_entries_with_cwd policy cwd /\ can_write (res_access e) = true
              /\ in_metadata_of (root w) (res_path e) name).
Proof.
  intros Hok Hc Hk Hf Hp roots.
  assert (can_write_path_with_cwd policy p cwd = true -> exists d, decides (resolved_entries_with_cwd policy cwd) p d
    /\ can_write (res_access d) = true /\ res_path d ∈ writable_entries_with_cwd policy cwd) as Hdec.
  { intros Hw. pose proof (can_write_access policy cwd p Hw) as Ha.
    destruct (access_of_normal policy cwd Hk p Hp) as [(d & Hd & E)|[E _]]; rewrite E in Ha; [|done].
    exists d. split; [done|]. split; [done|]. exact (decider_is_root policy cwd Hok Hc Hk p d Hf Hp Hd Ha Hw). }
  assert (forall d w, decides (resolved_entries_with_cwd policy cwd) p d -> w ∈ roots ->
    path_starts_with p (root w) = true -> path_starts_with (res_path d) (root w) = true) as Habove.
  { intros d w (_ & _ & Hdm) (r & (e & He & <- & _)%elem_of_writable_entries & ->)%elem_of_writable_roots Hpw; [|done..].
    by apply (Hdm e He Hpw). }
  split; [|split].
  - intros (d & Hd & Hdw & Hr)%Hdec. eexists. split; [apply elem_of_writable_roots; [done..|]; eexists; split; [exact Hr|reflexivity]|].
    split; [apply Hd|]. intros w' Hw' Hp'. by apply (Habove d).
  - intros w (r & Hr & ->)%elem_of_writable_roots Hw; [|done..].
    pose proof (writable_root_access policy cwd Hok Hc Hk p r Hf Hp Hr Hw) as Ha.
    by destruct (resolve_access_with_cwd policy p cwd).
  - intros w (Hwin & Hpw & Hdeep). pose proof Hwin as (r & Hr & ->)%elem_of_writable_roots; [|done..].
    cbn [root writable_root_of] in Hpw, Hdeep |- *.
    pose proof (writable_entries_normal policy cwd Hok Hc) as Hall. rewrite Forall_forall in Hall.
    pose proof (Hall _ Hr) as Hrn. split.
    + intros Hw. pose proof (writable_root_access policy cwd Hok Hc Hk p r Hf Hp Hr Hw) as Ha.
      apply not_false_iff_true. intros Hden.
      apply metadata_denied_spec in Hden as (protected & name & Hchild & Hex); [|done..].
      pose proof (metadata_child_spec policy p cwd Hok Hc Hp) as Hmc. rewrite Hchild in Hmc.
      destruct Hmc as (e & Hin & Hew & Hm & ->).
      assert (path_contains_protected_metadata_name (writable_root_of policy cwd (writable_entries_with_cwd policy cwd) r) p = false) as Hnot.
      { unfold is_path_writable in Hw. destruct (negb (path_starts_with _ _)); [done|]. destruct (existsb _ _); [done|].
        by apply negb_true_iff in Hw. }
      apply not_true_iff_false in Hex. apply Hex.
      eapply (root_metadata_protected policy cwd Hok Hc Hk p r); eauto.
      pose proof (metadata_place p (res_path e) name (resolved_entry_normal _ _ _ Hok Hc Hin) Hm) as Hpe.
      destruct (Nat.le_ge_cases (length (components (res_path e))) (length (components r))) as [Hle|Hge];
        [by apply (path_starts_with_chain p)|].
      destruct (decide (res_path e = r)) as [->|Hne]; [apply path_starts_with_refl|].
      assert (path_starts_with (res_path e) r = true) as Her by (by apply (path_starts_with_chain p)).
      pose proof (inner_write_entry_is_root policy cwd Hok Hc Hk p r e Hf Hr Hw Hin Hew Hpe Her Hne) as Hroot.
      apply (Hdeep (writable_root_of policy cwd (writable_entries_with_cwd policy cwd) (res_path e))); [|exact Hpe].
      apply elem_of_writable_roots; [done..|]. by exists (res_path e).
    + intros Hcan. destruct (Hdec Hcan) as (d & Hd & Hdw & Hdr).
      assert (r = res_path d) as ->.
      { apply path_starts_with_antisym; [done|by apply Hall| |].
        - apply (Hdeep (writable_root_of policy cwd (writable_entries_with_cwd policy cwd) (res_path d))); [|apply Hd].
          apply elem_of_writable_roots; [done..|]. by exists (res_path d).
        - exact (Habove d _ Hd Hwin Hpw). }
      by apply decider_says_writable.
Qed.

(** ** Denied reads agree with the entries *)

Section deny.
Context `{Host} {Hok : HostOk} {Hsym : NoSymlinks}.

Lemma candidates_normal p : normal_abs p -> normalized_and_canonical_candidates p = [p].
Proof.
  intros Hp. unfold normalized_and_canonical_candidates. rewrite absolute_id by done.
  cbn [push_unique existsb negb app]. destruct (h_canonicalize p) as [q|] eqn:E; [|done].
  apply canonical_id in E as ->; [|done]. cbn [mbind option_bind]. rewrite absolute_id by done.
  unfold push_unique. cbn [existsb]. by rewrite path_eqb_refl.
Qed.

(** Nothing outranks a denial for the same place. *)
Lemma denied_place_unreadable policy cwd e :
  policy_ok policy -> normal_abs cwd -> fs_kind policy = Restricted ->
  e ∈ resolved_entries_with_cwd policy cwd -> res_access e = AccessNone ->
  can_read_path_with_cwd policy (res_path e) cwd = false.
Proof.
  intros Hp Hc Hk Hin Ha. pose proof (resolved_entry_normal _ _ _ Hp Hc Hin) as Hn.
  unfold can_read_path_with_cwd.
  destruct (access_of_normal policy cwd Hk (res_path e) Hn) as [(d & (Hdin & Hds & Hdm) & ->)|[-> _]]; [|done].
  destruct (Hdm e Hin (path_starts_with_refl _)) as [Hs Hle]. rewrite Ha in Hle.
  rewrite !path_starts_with_spec in Hds, Hs. assert (components (res_path e) = components (res_path d)) as E.
  { by apply (anti_symm prefix). }
  specialize (Hle E). destruct (res_access d); cbn in *; (done || lia).
Qed.

Lemma elem_of_unreadable_roots policy cwd p :
  policy_ok policy -> normal_abs cwd -> fs_kind policy = Restricted ->
  p ∈ get_unreadable_roots_with_cwd policy cwd
  <-> p <> [SEP] /\ exists e, e ∈ resolved_entries_with_cwd policy cwd
                             /\ res_access e = AccessNone /\ res_path e = p.
Proof.
  intros Hp Hc Hk. unfold get_unreadable_roots_with_cwd, fs_restricted. rewrite Hk. cbn [negb].
  rewrite (absolute_id cwd), (elem_of_dedup_effective _ p), list_elem_of_In, in_map_iff by
    (done || (apply Forall_forall; intros q Hq; apply list_elem_of_In, in_map_iff in Hq as (e & <- & He);
      rewrite !filter_In in He; apply (resolved_entry_normal _ _ _ Hp Hc), list_elem_of_In; tauto)).
  cbn [mbind option_bind]. rewrite absolute_root_path_normal by done. cbn [option_path_eqb].
  split.
  - intros (e & <- & [[[Hin Ha]%filter_In _]%filter_In Hr]%filter_In). apply list_elem_of_In in Hin. split.
    + intros E. rewrite E in Hr. by rewrite path_eqb_refl in Hr.
    + exists e. split; [done|]. split; [by apply (bool_decide_eq_true _)|done].
  - intros (Hne & e & Hin & Ha & <-). exists e. split; [done|]. rewrite !filter_In.
    rewrite (denied_place_unreadable policy cwd e), Ha by done. apply list_elem_of_In in Hin as Hin'.
    split; [split; [split; [done|by apply bool_decide_eq_true]|done]|].
    apply negb_true_iff, not_true_iff_false. rewrite path_eqb_normal; [congruence|apply normal_root|].
    by apply (resolved_entry_normal _ _ _ Hp Hc).
Qed.
End deny.

(** A policy with an entry that denies reading always gets a matcher, and
    on a host without symbolic links the matcher denies exactly: everything,
    if some pattern does not compile; the paths that some pattern matches; and
    the paths at or below the place of an entry that denies reading, other
    than the root (even where a deeper entry lets them be read). *)
Theorem read_denied_spec `{HostOk} `{!NoSymlinks} (build_glob_matcher : str -> option (str -> bool))
    policy cwd p :
  policy_ok policy -> normal_abs cwd -> fs_kind policy = Restricted -> normal_abs p ->
  let globs := get_unreadable_globs_with_cwd policy cwd in
  match new_read_deny_matcher build_glob_matcher policy cwd with
  | None => forall e, e ∈ fs_entries policy -> entry_access e <> AccessNone
  | Some m =>
      is_read_denied m p = true
      <-> (exists g, g ∈ globs /\ build_glob_matcher g = None)
          \/ (exists g f, g ∈ globs /\ build_glob_matcher g = Some f /\ f p = true)
          \/ (exists e, e ∈ resolved_entries_with_cwd policy cwd /\ res_access e = AccessNone
                        /\ res_path e <> [SEP] /\ path_starts_with p (res_path e) = true)
  end.
Proof.
  intros Hp Hc Hk Hn globs. unfold new_read_deny_matcher, has_denied_read_restrictions, fs_restricted. rewrite Hk.
  cbn [andb]. destruct (existsb denies_read _) eqn:Hd; cbn [negb].
  2:{ intros e Hin Ha. apply not_true_iff_false in Hd. apply Hd, existsb_exists. exists e.
      split; [by apply list_elem_of_In|by apply bool_decide_eq_true]. }
  fold globs. unfold is_read_denied. cbn [invalid_pattern denied_candidates deny_read_matchers].
  rewrite candidates_normal by done. destruct (existsb _ globs) eqn:Hbad.
  { split; [|done]. intros _. left. apply existsb_exists in Hbad as (g & Hin%list_elem_of_In & Hg).
    exists g. split; [done|]. by destruct (build_glob_matcher g). }
  assert ((exists g, g ∈ globs /\ build_glob_matcher g = None) <-> False) as ->.
  { split; [|done]. intros (g & Hin & Hg). apply not_true_iff_false in Hbad. apply Hbad, existsb_exists. exists g.
    split; [by apply list_elem_of_In|by rewrite Hg]. }
  assert (existsb (fun denied_candidates => existsb (fun candidate => existsb (fun denied_candidate =>
             path_eqb candidate denied_candidate || path_starts_with candidate denied_candidate) denied_candidates) [p])
             (map normalized_and_canonical_candidates (get_unreadable_roots_with_cwd policy cwd)) = true
    <-> exists e, e ∈ resolved_entries_with_cwd policy cwd /\ res_access e = AccessNone
                  /\ res_path e <> [SEP] /\ path_starts_with p (res_path e) = true) as Hroots.
  { rewrite existsb_exists. split.
    - intros (l & (r & <- & Hr%list_elem_of_In)%in_map_iff & Hl).
      apply elem_of_unreadable_roots in Hr as (Hne & e & Hin & Ha & <-); [|done..].
      rewrite candidates_normal in Hl by by apply (resolved_entry_normal _ _ _ Hp Hc).
      cbn [existsb] in Hl. rewrite !orb_false_r in Hl. exists e. do 3 (split; [done|]).
      apply orb_true_iff in Hl as [He%path_eqb_spec|?]; [|done]. apply path_starts_with_spec. by rewrite He.
    - intros (e & Hin & Ha & Hne & Hs). exists (normalized_and_canonical_candidates (res_path e)). split.
      + apply in_map_iff. exists (res_path e). split; [done|]. apply list_elem_of_In, elem_of_unreadable_roots; [done..|].
        split; [done|]. by exists e.
      + rewrite candidates_normal by by apply (resolved_entry_normal _ _ _ Hp Hc). cbn [existsb]. by rewrite Hs, orb_true_r. }
  destruct (existsb _ (map _ _)) eqn:E.
  - split; [|done]. intros _. right. right. by apply Hroots.
  - rewrite existsb_exists. split.
    + intros (f & (g & Hg & Hf)%list_elem_of_In%list_elem_of_omap & Hm). cbn [existsb] in Hm. rewrite orb_false_r in Hm.
      right. left. by exists g, f.
    + intros [[]|[(g & f & Hin & Hg & Hm)|Hr]]; [|by apply Hroots in Hr].
      exists f. split; [apply list_elem_of_In, list_elem_of_omap; by exists g|]. cbn. by rewrite Hm.
Qed.

(** ** The hypotheses hold *)

Lemma writable_roots_spec_witness :
  @can_write_path_with_cwd (plain_host []) example_policy (lit "/w/a") (lit "/w") = true.
Proof.
  destruct (@writable_roots_spec (plain_host []) (plain_host_ok []) (plain_host_no_symlinks []) example_policy (lit "/w")
              (lit "/w/a") example_policy_ok ltac:(normal_path) eq_refl eq_refl ltac:(normal_path)) as (_ & _ & Hw).
  apply (Hw (@writable_root_of (plain_host []) example_policy (lit "/w") [lit "/w"] (lit "/w"))).
  - replace (@get_writable_roots_with_cwd (plain_host []) example_policy (lit "/w"))
      with [@writable_root_of (plain_host []) example_policy (lit "/w") [lit "/w"] (lit "/w")]
      by (vm_compute; reflexivity).
    split; [left|]. split; [vm_compute; reflexivity|]. intros w' ->%list_elem_of_singleton _. vm_compute. reflexivity.
  - vm_compute. reflexivity.
Defined.

Lemma read_denied_spec_witness :
  exists m, @new_read_deny_matcher (plain_host []) (fun _ => None) example_policy (lit "/w") = Some m
    /\ @is_read_denied (plain_host []) m (lit "/w/secret/x") = true.
Proof.
  pose proof (@read_denied_spec (plain_host []) (plain_host_ok []) (plain_host_no_symlinks []) (fun _ => None)
    example_policy (lit "/w") (lit "/w/secret/x") example_policy_ok ltac:(normal_path) eq_refl ltac:(normal_path)) as Hm.
  destruct (@new_read_deny_matcher (plain_host []) (fun _ => None) example_policy (lit "/w")) as [m|] eqn:E.
  - exists m. split; [reflexivity|]. apply Hm. right. right. exists (mkResolved (lit "/w/secret") AccessNone).
    split; [right; right; left|]. split; [reflexivity|]. split; [discriminate|reflexivity].
  - vm_compute in E. discriminate E.
Defined.

(** The outer of two nested roots says the inner one's metadata is writable. *)
Example outer_root_allows_inner_metadata :
  let policy := restricted [mkEntry (PathEntry (lit "/w")) AccessWrite;
                            mkEntry (PathEntry (lit "/w/sub")) AccessWrite] in
  let p := lit "/w/sub/.git/config" in
  existsb (fun w => is_path_writable w p) (@get_writable_roots_with_cwd (plain_host []) policy (lit "/w")) = true
  /\ @can_write_path_with_cwd (plain_host []) policy p (lit "/w") = false.
Proof. split; vm_compute; reflexivity. Qed.

(** A deeper readable entry does not lift a denied read. *)
Example denied_read_below_carveout :
  let policy := restricted [mkEntry (Special Root) AccessRead; mkEntry (PathEntry (lit "/w")) AccessNone;
                            mkEntry (PathEntry (lit "/w/pub")) AccessRead] in
  @can_read_path_with_cwd (plain_host []) policy (lit "/w/pub/x") (lit "/w") = true
  /\ match @new_read_deny_matcher (plain_host []) (fun _ => None) policy (lit "/w") with
     | Some m => @is_read_denied (plain_host []) m (lit "/w/pub/x") = true
     | None => False
     end.
Proof. split; vm_compute; reflexivity. Qed.
