(* ===== verification/ApplyPatch.v ===== *)
(** * Applying a patch: [apply-patch/src/lib.rs]

    The handlers that read, write and remove files, over any
    [ExecutorFileSystem] and any [std::io::Write]rs, and their specification
    on finite maps from paths to contents. *)

From S2P Require Import Prelude Paths Utf8 PatchParser SeekSequence Replacements FileSystem.
Local Open Scope str_scope.

(** ** Errors *)

Record IoError : Type := mkIoError { ioe_context : str; ioe_source : io_Error }.

#[global] Instance ioerror_eq_dec : EqDecision IoError.
Proof. solve_decision. Defined.

Inductive ApplyPatchError : Type :=
| APE_ParseError (e : ParseError)
| APE_IoError (e : IoError)
| ComputeReplacements (message : str)
| ImplicitInvocation.

#[global] Instance apply_patch_error_eq_dec : EqDecision ApplyPatchError.
Proof. solve_decision. Defined.

Definition show_parse_error (e : ParseError) : str :=
  match e with
  | InvalidPatchError m => lit "invalid patch: " ++ m
  | InvalidHunkError message line_number =>
      lit "invalid hunk at line " ++ show_nat line_number ++ lit ", " ++ message
  end.

Definition show_apply_patch_error (e : ApplyPatchError) : str :=
  match e with
  | APE_ParseError e => show_parse_error e
  | APE_IoError e => ioe_context e ++ lit ": " ++ io_message (ioe_source e)
  | ComputeReplacements m => m
  | ImplicitInvocation =>
      lit "patch detected without explicit call to apply_patch. Rerun as ["
      ++ [34%N] ++ lit "apply_patch" ++ [34%N] ++ lit ", " ++ [34%N] ++ lit "<patch>" ++ [34%N]
      ++ lit "]"
  end.

(** [From<std::io::Error>] and [From<&std::io::Error>] *)
Definition apply_patch_error_from_io (err : io_Error) : ApplyPatchError :=
  APE_IoError (mkIoError (lit "I/O error") (io_error_new (io_kind err) (io_message err))).

(** [anyhow::Error], as this code makes it: a message, an [io::Error] under a
    context, or an [ApplyPatchError] passed on by [?]. *)
Inductive anyhow_Error : Type :=
| AnyMessage (message : str)
| AnyContext (context : str) (source : io_Error)
| AnyPatch (e : ApplyPatchError).

Definition show_anyhow (e : anyhow_Error) : str :=
  match e with
  | AnyMessage m => m
  | AnyContext c _ => c
  | AnyPatch e => show_apply_patch_error e
  end.

(** [err.downcast_ref::<std::io::Error>()] *)
Definition downcast_io (e : anyhow_Error) : option io_Error :=
  match e with AnyContext _ io => Some io | _ => None end.

Definition with_context {S A} (m : M S io_Error A) (context : str) : M S anyhow_Error A :=
  map_errM (AnyContext context) m.

(** ** The handlers *)

Record AffectedPaths : Type := mkAffected {
  added : list str;
  modified : list str;
  deleted : list str;
}.

Record AppliedPatch : Type := mkAppliedPatch { original_contents : str; new_contents : str }.

Section handlers.
Context {Sandbox Fs : Type} `{ExecutorFileSystem Sandbox Fs}.
Context (home_dir : option str).

Definition hunk_resolve_path (h : Hunk) (cwd : str) : str :=
  let path := match h with
              | UpdateFile path _ _ => path
              | AddFile _ _ | DeleteFile _ => hunk_path h
              end in
  resolve_path_against_base home_dir path cwd.

Definition derive_new_contents_from_chunks (path_abs : str) (chunks : list UpdateFileChunk)
    (sandbox : option Sandbox) : M Fs ApplyPatchError AppliedPatch :=
  original_contents ←
    map_errM (fun err => APE_IoError (mkIoError (lit "Failed to read file to update " ++ path_abs) err))
      (read_file_text path_abs sandbox);
  new_contents ←
    of_result (map_err ComputeReplacements (derive_new_contents path_abs original_contents chunks));
  match new_contents with
  | Some new_contents => mret (mkAppliedPatch original_contents new_contents)
  | None => panic
  end.

Definition write_file_with_missing_parent_retry (path_abs : str) (contents : list N)
    (sandbox : option Sandbox) : M Fs anyhow_Error unit :=
  catch (call (write_file path_abs contents sandbox)) (fun err =>
    if bool_decide (io_kind err = NotFound) then
      _ ← (match parent path_abs with
           | Some parent_abs =>
               with_context (call (create_directory parent_abs (mkCreateDirectoryOptions true) sandbox))
                 (lit "Failed to create parent directories for " ++ path_abs)
           | None => mret tt
           end);
      with_context (call (write_file path_abs contents sandbox))
        (lit "Failed to write file " ++ path_abs)
    else throw (AnyContext (lit "Failed to write file " ++ path_abs) err)).

(** The [async] block that checks for a directory and removes. *)
Definition remove_checked (path_abs : str) (sandbox : option Sandbox) : M Fs io_Error unit :=
  metadata ← call (get_metadata path_abs sandbox);
  if md_is_directory metadata then throw (io_error_new InvalidInput (lit "path is a directory"))
  else call (remove path_abs (mkRemoveOptions false false) sandbox).

(** One turn of the loop over the hunks. *)
Definition apply_hunk (hunk : Hunk) (cwd : str) (sandbox : option Sandbox) (acc : AffectedPaths)
  : M Fs anyhow_Error AffectedPaths :=
  let affected_path := hunk_path hunk in
  let path_abs := hunk_resolve_path hunk cwd in
  match hunk with
  | AddFile _ contents =>
      _ ← write_file_with_missing_parent_retry path_abs (into_bytes contents) sandbox;
      mret (mkAffected (added acc ++ [affected_path]) (modified acc) (deleted acc))
  | DeleteFile _ =>
      _ ← with_context (remove_checked path_abs sandbox) (lit "Failed to delete file " ++ path_abs);
      mret (mkAffected (added acc) (modified acc) (deleted acc ++ [affected_path]))
  | UpdateFile _ move_path chunks =>
      applied ← map_errM AnyPatch (derive_new_contents_from_chunks path_abs chunks sandbox);
      _ ← (match move_path with
           | Some dest =>
               let dest_abs := resolve_path_against_base home_dir dest cwd in
               _ ← write_file_with_missing_parent_retry dest_abs
                     (into_bytes (new_contents applied)) sandbox;
               with_context (remove_checked path_abs sandbox)
                 (lit "Failed to remove original " ++ path_abs)
           | None =>
               with_context (call (write_file path_abs (into_bytes (new_contents applied)) sandbox))
                 (lit "Failed to write file " ++ path_abs)
           end);
      mret (mkAffected (added acc) (modified acc ++ [affected_path]) (deleted acc))
  end.

Fixpoint apply_hunk_list (hunks : list Hunk) (cwd : str) (sandbox : option Sandbox)
    (acc : AffectedPaths) : M Fs anyhow_Error AffectedPaths :=
  match hunks with
  | [] => mret acc
  | hunk :: hunks =>
      acc ← apply_hunk hunk cwd sandbox acc;
      apply_hunk_list hunks cwd sandbox acc
  end.

Definition apply_hunks_to_files (hunks : list Hunk) (cwd : str) (sandbox : option Sandbox)
  : M Fs anyhow_Error AffectedPaths :=
  if is_empty hunks then throw (AnyMessage (lit "No files were modified."))
  else apply_hunk_list hunks cwd sandbox (mkAffected [] [] []).
End handlers.

(** The loops of [print_summary]. *)
Fixpoint print_paths `{Write W} (letter : str) (paths : list str) : M W io_Error unit :=
  match paths with
  | [] => mret tt
  | path :: paths => _ ← writeln (letter ++ lit " " ++ path); print_paths letter paths
  end.

Definition print_summary `{Write W} (affected : AffectedPaths) : M W io_Error unit :=
  _ ← writeln (lit "Success. Updated the following files:");
  _ ← print_paths (lit "A") (added affected);
  _ ← print_paths (lit "M") (modified affected);
  print_paths (lit "D") (deleted affected).

(** The file system and the two writers. *)
Record World (Fs Out Err : Type) : Type := mkWorld { w_fs : Fs; w_out : Out; w_err : Err }.
Arguments mkWorld {_ _ _} _ _ _.
Arguments w_fs {_ _ _} _.
Arguments w_out {_ _ _} _.
Arguments w_err {_ _ _} _.

Definition on_fs {Fs Out Err E A} (m : M Fs E A) : M (World Fs Out Err) E A := fun w =>
  match m (w_fs w) with
  | Some (s, r) => Some (mkWorld s (w_out w) (w_err w), r)
  | None => None
  end.
Definition on_out {Fs Out Err E A} (m : M Out E A) : M (World Fs Out Err) E A := fun w =>
  match m (w_out w) with
  | Some (s, r) => Some (mkWorld (w_fs w) s (w_err w), r)
  | None => None
  end.
Definition on_err {Fs Out Err E A} (m : M Err E A) : M (World Fs Out Err) E A := fun w =>
  match m (w_err w) with
  | Some (s, r) => Some (mkWorld (w_fs w) (w_out w) s, r)
  | None => None
  end.

Section apply.
Context {Sandbox Fs Out Err_ : Type} `{ExecutorFileSystem Sandbox Fs}.
Context `{Write Out} `{Write Err_}.
Context (home_dir : option str).

Definition apply_hunks (hunks : list Hunk) (cwd : str) (sandbox : option Sandbox)
  : M (World Fs Out Err_) ApplyPatchError unit :=
  affected ← catch (on_fs (apply_hunks_to_files home_dir hunks cwd sandbox)) (fun err =>
    let msg := show_anyhow err in
    _ ← map_errM apply_patch_error_from_io (on_err (writeln msg));
    match downcast_io err with
    | Some io => throw (apply_patch_error_from_io io)
    | None => throw (APE_IoError (mkIoError msg (io_error_new Other msg)))
    end);
  map_errM apply_patch_error_from_io (on_out (print_summary affected)).

Definition apply_patch (patch : str) (cwd : str) (sandbox : option Sandbox)
  : M (World Fs Out Err_) ApplyPatchError unit :=
  match parse_patch patch with
  | Some (Ok source) => apply_hunks (hunks source) cwd sandbox
  | Some (Err e) =>
      _ ← map_errM apply_patch_error_from_io (on_err (writeln
            (match e with
             | InvalidPatchError message => lit "Invalid patch: " ++ message
             | InvalidHunkError message line_number =>
                 lit "Invalid patch hunk on line " ++ show_nat line_number ++ lit ": " ++ message
             end)));
      throw (APE_ParseError e)
  | None => panic
  end.
End apply.

(** ** Specification: a patch as a function on path-to-contents maps *)

Abbreviation contents_map := (gmap str (list N)).

Section specification.
Context (home_dir : option str) (cwd : str).

(** The text an update hunk makes of the file at [path]. *)
Definition updated_text (path : str) (chunks : list UpdateFileChunk) (m : contents_map)
  : option str :=
  bytes ← m !! path;
  match from_utf8 bytes with
  | Ok text => match derive_new_contents path text chunks with Ok o => o | Err _ => None end
  | Err _ => None
  end.

Definition hunk_spec (h : Hunk) (m : contents_map) : option contents_map :=
  let path := hunk_resolve_path home_dir h cwd in
  match h with
  | AddFile _ contents => Some (<[path := into_bytes contents]> m)
  | DeleteFile _ => Some (delete path m)
  | UpdateFile _ None chunks =>
      text ← updated_text path chunks m; Some (<[path := into_bytes text]> m)
  | UpdateFile _ (Some dest) chunks =>
      text ← updated_text path chunks m;
      Some (delete path (<[resolve_path_against_base home_dir dest cwd := into_bytes text]> m))
  end.

Fixpoint hunks_spec (hs : list Hunk) (m : contents_map) : option contents_map :=
  match hs with
  | [] => Some m
  | h :: hs => m ← hunk_spec h m; hunks_spec hs m
  end.

(** The one path a hunk writes to, which a failing write may damage. *)
Definition hunk_target (h : Hunk) : option str :=
  match h with
  | AddFile _ _ | UpdateFile _ None _ => Some (hunk_resolve_path home_dir h cwd)
  | UpdateFile _ (Some dest) _ => Some (resolve_path_against_base home_dir dest cwd)
  | DeleteFile _ => None
  end.

Definition same_except (p : option str) (m m' : contents_map) : Prop :=
  forall q, Some q <> p -> m' !! q = m !! q.
End specification.

(** The summary's three lists, in the patch's spelling and order. *)
Definition affected_spec (hs : list Hunk) : AffectedPaths :=
  mkAffected
    (omap (fun h => match h with AddFile _ _ => Some (hunk_path h) | _ => None end) hs)
    (omap (fun h => match h with UpdateFile _ _ _ => Some (hunk_path h) | _ => None end) hs)
    (omap (fun h => match h with DeleteFile _ => Some (hunk_path h) | _ => None end) hs).

Definition affected_app (a b : AffectedPaths) : AffectedPaths :=
  mkAffected (added a ++ added b) (modified a ++ modified b) (deleted a ++ deleted b).

Definition summary_text (a : AffectedPaths) : str :=
  let paths (letter : str) := fold_right (fun p s => letter ++ lit " " ++ p ++ [NL] ++ s) [] in
  lit "Success. Updated the following files:" ++ [NL]
  ++ paths (lit "A") (added a) ++ paths (lit "M") (modified a) ++ paths (lit "D") (deleted a).

(** ** The handlers meet it *)

Lemma call_Some {S E A} (f : S -> S * result E A) s s' r :
  call f s = Some (s', r) -> f s = (s', r).
Proof. unfold call. by intros [= ->]. Qed.

Lemma map_errM_Some {S E F A} (f : E -> F) (m : M S E A) s s' r :
  map_errM f m s = Some (s', r) -> exists r0, m s = Some (s', r0) /\ r = map_err f r0.
Proof. unfold map_errM. destruct (m s) as [[]|]; [|done]. intros [= <- <-]. eauto. Qed.

(** Invert a bind: either the first part failed, or it gave a value. *)
Tactic Notation "minv" hyp(H) "as" ident(Hm) :=
  let s1 := fresh "s" in let a := fresh "a" in let e := fresh "e" in
  apply M_bind_Some in H as [(s1 & a & Hm & H)|(e & Hm & ?)]; try discriminate.

Lemma delete_same_except (p : str) (m m' : contents_map) :
  delete p m' = delete p m -> same_except (Some p) m m'.
Proof.
  intros H q Hq. assert (q <> p) by congruence.
  by rewrite <- (lookup_delete_ne m p q), <- (lookup_delete_ne m' p q), H by done.
Qed.

Lemma same_except_refl p m : same_except p m m.
Proof. done. Qed.

Lemma same_except_insert p (b : list N) m : same_except (Some p) m (<[p := b]> m).
Proof. intros q Hq. apply lookup_insert_ne. congruence. Qed.
#[export] Hint Resolve same_except_refl same_except_insert delete_same_except : monad.

Section refinement.
Context {Sandbox Fs : Type} `{FileSystemLaws Sandbox Fs}.
Context (home_dir : option str) (cwd : str) (sandbox : option Sandbox).

Lemma read_file_text_inv path s s' r :
  read_file_text path sandbox s = Some (s', r) ->
  files s' = files s
  /\ forall text, r = Ok text ->
       exists bytes, files s !! path = Some bytes /\ from_utf8 bytes = Ok text.
Proof.
  unfold read_file_text. intros Hr. minv Hr as H1.
  - apply call_Some, read_file_law in H1 as [Hf Hb]. unfold of_result in Hr. injection Hr as <- <-.
    split; [done|]. intros text Ht. exists a. split; [auto|]. by destruct (from_utf8 a); simplify_eq/=.
  - apply call_Some, read_file_law in H1 as [Hf _]. by subst.
Qed.

Lemma derive_inv path chunks s s' r :
  derive_new_contents_from_chunks path chunks sandbox s = Some (s', r) ->
  files s' = files s
  /\ forall applied, r = Ok applied ->
       updated_text path chunks (files s) = Some (new_contents applied).
Proof.
  unfold derive_new_contents_from_chunks. intros Hr. minv Hr as H1.
  - apply map_errM_Some in H1 as ([text|] & Hread & [= ->]).
    apply read_file_text_inv in Hread as [Hf Ht].
    destruct (Ht text eq_refl) as (bytes & Hb & Hu).
    unfold updated_text. rewrite Hb. simpl. rewrite Hu.
    minv Hr as H2; [|by injection H2 as <- _; subst].
    injection H2 as <- Hd. destruct (derive_new_contents path text chunks) as [o|]; [|done].
    injection Hd as ->. destruct a; [|done]. injection Hr as <- <-.
    split; [done|]. by intros ? [= <-].
  - apply map_errM_Some in H1 as (r0 & Hread & _). apply read_file_text_inv in Hread as [Hf _].
    by subst.
Qed.

Lemma write_retry_inv path bytes s s' r :
  write_file_with_missing_parent_retry path bytes sandbox s = Some (s', r) ->
  match r with
  | Ok _ => files s' = <[path := bytes]> (files s)
  | Err e => delete path (files s') = delete path (files s) /\ exists c io, e = AnyContext c io
  end.
Proof.
  unfold write_file_with_missing_parent_retry, catch. unfold call at 1.
  destruct (write_file path bytes sandbox s) as [s1 [[]|e]] eqn:E1.
  { apply write_file_ok in E1. by intros [= <- <-]. }
  apply write_file_err in E1 as [E1 E1']. case_bool_decide as Hk.
  2: { intros [= <- <-]. eauto. }
  specialize (E1' Hk). intros Hr. minv Hr as H1.
  - assert (files s0 = files s) as E2.
    { destruct (parent path) as [d|]; [|by injection H1 as <- <-; rewrite <- E1'].
      apply map_errM_Some in H1 as (r0 & Hc & _).
      apply call_Some, create_directory_law in Hc. congruence. }
    apply map_errM_Some in Hr as ([[]|e'] & Hw & ->); apply call_Some in Hw; simpl.
    + apply write_file_ok in Hw. congruence.
    + apply write_file_err in Hw as [Hw _]. rewrite <- E2. eauto.
  - destruct (parent path) as [d|]; [|done].
    apply map_errM_Some in H1 as ([|e'] & Hc & [= ->]).
    apply call_Some, create_directory_law in Hc. subst r. split; [congruence|eauto].
Qed.

Lemma remove_checked_inv path s s' r :
  remove_checked path sandbox s = Some (s', r) ->
  files s' = match r with Ok _ => delete path (files s) | Err _ => files s end.
Proof.
  unfold remove_checked. intros Hr. minv Hr as H1.
  - apply call_Some, get_metadata_law in H1. rewrite <- H1.
    destruct (md_is_directory a); [by injection Hr as <- <-|].
    apply call_Some in Hr. destruct r as [[]|e]; [by eapply remove_ok|by eapply remove_err].
  - apply call_Some, get_metadata_law in H1. by subst.
Qed.
End refinement.

Section refinement_hunks.
Context {Sandbox Fs : Type} `{FileSystemLaws Sandbox Fs}.
Context (home_dir : option str) (cwd : str) (sandbox : option Sandbox).

Definition hunk_outcome (h : Hunk) (acc : AffectedPaths) (m m' : contents_map)
    (r : result anyhow_Error AffectedPaths) : Prop :=
  match r with
  | Ok acc' => hunk_spec home_dir cwd h m = Some m' /\ acc' = affected_app acc (affected_spec [h])
  | Err e => same_except (hunk_target home_dir cwd h) m m' /\ (forall pe, e = AnyPatch pe -> m' = m)
  end.

Lemma apply_hunk_inv h acc s s' r :
  apply_hunk home_dir h cwd sandbox acc s = Some (s', r) ->
  hunk_outcome h acc (files s) (files s') r.
Proof.
  unfold hunk_outcome, hunk_spec, affected_app.
  destruct h as [path contents|path|path mv chunks]; cbn [apply_hunk]; intros Hr; minv Hr as H2.
  - apply write_retry_inv in H2. injection Hr as <- <-. cbn. by rewrite H2, !app_nil_r.
  - apply write_retry_inv in H2. subst r. destruct H2 as [Hd (c & io & ->)].
    split; [by apply delete_same_except|done].
  - apply map_errM_Some in H2 as ([|] & Hc & [= ->]). apply remove_checked_inv in Hc.
    injection Hr as <- <-. cbn. by rewrite Hc, !app_nil_r.
  - apply map_errM_Some in H2 as ([|] & Hc & [= ->]). apply remove_checked_inv in Hc.
    subst r. by rewrite Hc.
  - apply map_errM_Some in H2 as ([applied|] & Hc & [= ->]).
    apply derive_inv in Hc as [Hf Hu]. specialize (Hu _ eq_refl). rewrite Hu. cbn.
    minv Hr as H4; [injection Hr as <- <-|subst r].
    all: destruct mv as [dest|]; cbn.
    + minv H4 as H3. apply write_retry_inv in H3. apply map_errM_Some in H4 as ([|] & Hc & [= ->]).
      apply remove_checked_inv in Hc. rewrite Hc, H3, Hf, !app_nil_r. done.
    + apply map_errM_Some in H4 as ([[]|] & Hc & [= ->]). apply call_Some, write_file_ok in Hc.
      rewrite Hc, Hf, !app_nil_r. done.
    + minv H4 as H3.
      * apply write_retry_inv in H3. apply map_errM_Some in H4 as ([|] & Hc & [= ->]).
        apply remove_checked_inv in Hc. rewrite Hc, H3, Hf.
        split; [apply same_except_insert|done].
      * simplify_eq. apply write_retry_inv in H3 as [Hd (c & io & ->)]. rewrite Hf in Hd.
        split; [by apply delete_same_except|done].
    + apply map_errM_Some in H4 as ([[]|] & Hc & [= ->]). apply call_Some, write_file_err in Hc as [Hc _].
      rewrite Hf in Hc. split; [by apply delete_same_except|done].
  - apply map_errM_Some in H2 as ([|] & Hc & [= ->]). apply derive_inv in Hc as [Hf _].
    subst r. by rewrite Hf.
Qed.

Lemma affected_app_cons a h hs :
  affected_app (affected_app a (affected_spec [h])) (affected_spec hs)
  = affected_app a (affected_spec (h :: hs)).
Proof. destruct h; unfold affected_app; cbn; rewrite ?app_nil_r, <- ?app_assoc; done. Qed.

(** What the loop leaves behind: all hunks done, or a prefix of them and
    one damaged target. *)
Lemma apply_hunk_list_inv hs acc s s' r :
  apply_hunk_list home_dir hs cwd sandbox acc s = Some (s', r) ->
  match r with
  | Ok acc' => hunks_spec home_dir cwd hs (files s) = Some (files s')
               /\ acc' = affected_app acc (affected_spec hs)
  | Err e => exists before h after m,
      hs = before ++ h :: after
      /\ hunks_spec home_dir cwd before (files s) = Some m
      /\ same_except (hunk_target home_dir cwd h) m (files s')
      /\ (forall pe, e = AnyPatch pe -> files s' = m)
  end.
Proof.
  revert acc s. induction hs as [|h hs IH]; intros acc s Hr; cbn [apply_hunk_list] in Hr.
  { injection Hr as <- <-. split; [done|]. unfold affected_app. cbn. by rewrite !app_nil_r; destruct acc. }
  minv Hr as H2.
  - apply apply_hunk_inv in H2 as [Hs ->]. apply IH in Hr. destruct r as [acc'|e].
    + destruct Hr as [Hr ->]. cbn. rewrite Hs. by rewrite affected_app_cons.
    + destruct Hr as (before & h' & after & m & -> & Hm & Hrest).
      exists (h :: before), h', after, m. split; [done|]. cbn. by rewrite Hs.
  - subst r. apply apply_hunk_inv in H2 as [Hs Hp]. by exists [], h, hs, (files s).
Qed.
End refinement_hunks.

(** ** Totality *)

Section totality.
Context {Sandbox Fs : Type} `{ExecutorFileSystem Sandbox Fs}.
Context (home_dir : option str) (cwd : str) (sandbox : option Sandbox).

Lemma total_derive path chunks :
  total (derive_new_contents_from_chunks path chunks sandbox : M Fs _ _).
Proof.
  apply total_bind; [unfold read_file_text; eauto with monad|]. intros text s.
  unfold of_result, mbind, M_bind.
  destruct (derive_new_contents path text chunks) as [o|] eqn:E; [|by eexists].
  apply derive_new_contents_returns in E as [new_lines ->]. by eexists.
Qed.

Lemma total_write_retry path bytes :
  total (write_file_with_missing_parent_retry path bytes sandbox : M Fs _ _).
Proof.
  apply total_catch; [eauto with monad|]. intros e. case_bool_decide; [|eauto with monad].
  apply total_bind; [destruct (parent path)|intros _]; unfold with_context; eauto with monad.
Qed.

Lemma total_remove_checked path : total (remove_checked path sandbox : M Fs _ _).
Proof. apply total_bind; [eauto with monad|]. intros md. destruct (md_is_directory md); eauto with monad. Qed.

#[local] Hint Resolve total_derive total_write_retry total_remove_checked : monad.

Lemma total_apply_hunk h acc : total (apply_hunk home_dir h cwd sandbox acc : M Fs _ _).
Proof.
  destruct h as [| |path [dest|] chunks]; cbn [apply_hunk]; unfold with_context;
    repeat (apply total_bind; [eauto with monad|intros ?]); eauto with monad.
Qed.

Lemma total_apply_hunks_to_files hs :
  total (apply_hunks_to_files home_dir hs cwd sandbox : M Fs _ _).
Proof.
  unfold apply_hunks_to_files. destruct (is_empty hs); [eauto with monad|].
  generalize (mkAffected [] [] []). induction hs as [|h hs IH]; intros acc;
    cbn [apply_hunk_list]; eauto using total_apply_hunk with monad.
Qed.
End totality.

(** ** The properties *)

(** C1: on every file system that obeys the laws, applying hunks returns; on
    success the files are exactly what the pure specification of the hunks,
    in order, makes of them and the summary names each hunk once, in its own
    list and spelling; on failure the hunks before the failing one have taken
    effect, the rest have not, nothing but the failing hunk's target can have
    changed besides (a file being moved is still there), and nothing at all
    if the error came from reading the file or locating its lines. *)
Theorem apply_hunks_to_files_spec {Sandbox Fs : Type} `{FileSystemLaws Sandbox Fs}
    (home_dir : option str) (cwd : str) (sandbox : option Sandbox) (hs : list Hunk) (s : Fs) :
  exists s' r, apply_hunks_to_files home_dir hs cwd sandbox s = Some (s', r)
  /\ match r with
     | Ok affected =>
         hs <> [] /\ hunks_spec home_dir cwd hs (files s) = Some (files s')
         /\ affected = affected_spec hs
     | Err e =>
         (hs = [] /\ s' = s)
         \/ exists before h after m,
              hs = before ++ h :: after
              /\ hunks_spec home_dir cwd before (files s) = Some m
              /\ same_except (hunk_target home_dir cwd h) m (files s')
              /\ (forall pe, e = AnyPatch pe -> files s' = m)
     end.
Proof.
  destruct (total_apply_hunks_to_files home_dir cwd sandbox hs s) as [[s' r] E].
  exists s', r. split; [done|]. unfold apply_hunks_to_files in E.
  destruct hs as [|h hs]; simpl is_empty in E; cbn match in E; [injection E as <- <-; by left|].
  apply apply_hunk_list_inv in E. destruct r as [a|e]; [|by right].
  destruct E as [Hs ->]. split_and!; [done..|]. unfold affected_app. by destruct (affected_spec _).
Qed.

Definition sample_fs : MemFs :=
  mkMemFs {[lit "/w/a.txt" := into_bytes (file_of ["a"; "b"; ""]); lit "/w/old" := []]}
          {[lit "/"; lit "/w"]}.
Definition sample_patch_hunks : list Hunk :=
  [AddFile (lit "sub/new") (file_of ["n"; ""]);
   UpdateFile (lit "a.txt") (Some (lit "b.txt")) [mkChunk None [lit "b"] [lit "B"] false];
   DeleteFile (lit "old")].

Lemma apply_hunks_to_files_spec_witness :
  exists s', apply_hunks_to_files None sample_patch_hunks (lit "/w") None sample_fs
             = Some (s', Ok (affected_spec sample_patch_hunks))
  /\ Some (mem_files s') = hunks_spec None (lit "/w") sample_patch_hunks (mem_files sample_fs)
  /\ mem_files s' !! lit "/w/b.txt" = Some (into_bytes (file_of ["a"; "B"; ""])).
Proof.
  destruct (apply_hunks_to_files_spec None (lit "/w") None sample_patch_hunks sample_fs)
    as (s' & r & E & Hr).
  destruct r as [a|e]; [|exfalso; vm_compute in E; discriminate].
  destruct Hr as (_ & Hs & ->). exists s'. split; [exact E|].
  split; [exact (eq_sym Hs)|].
  vm_compute in E. injection E as <-. vm_compute. reflexivity.
Defined.

Lemma print_paths_buffer letter paths (w : str) :
  print_paths letter paths w
  = Some (w ++ fold_right (fun p s => letter ++ lit " " ++ p ++ [NL] ++ s) [] paths, Ok tt).
Proof.
  revert w. induction paths as [|p paths IH]; intros w; cbn [print_paths fold_right].
  { by rewrite app_nil_r. }
  unfold mbind, M_bind, writeln, call. cbn [write_str write_buffer]. rewrite IH.
  by rewrite <- !app_assoc.
Qed.

Lemma print_summary_buffer a (w : str) : print_summary a w = Some (w ++ summary_text a, Ok tt).
Proof.
  unfold print_summary, mbind, M_bind. unfold writeln at 1, call. cbn [write_str write_buffer].
  rewrite !print_paths_buffer. unfold summary_text. by rewrite <- !app_assoc.
Qed.

(** C2: the tool as a whole, writing to buffers: it returns; it succeeds only on
    a patch that parses, with the files the specification gives and exactly
    the summary on the standard output; every failure leaves the standard
    output alone and adds a line to the standard error, and a patch that does
    not parse leaves every file alone. *)
Theorem apply_patch_spec {Sandbox Fs : Type} `{FileSystemLaws Sandbox Fs}
    (home_dir : option str) (patch cwd : str) (sandbox : option Sandbox) (w : World Fs str str) :
  exists w' r, apply_patch home_dir patch cwd sandbox w = Some (w', r)
  /\ match r with
     | Ok _ => exists args, parse_patch patch = Some (Ok args)
         /\ hunks_spec home_dir cwd (hunks args) (files (w_fs w)) = Some (files (w_fs w'))
         /\ w_out w' = w_out w ++ summary_text (affected_spec (hunks args))
         /\ w_err w' = w_err w
     | Err e => w_out w' = w_out w
         /\ (exists line, w_err w' = w_err w ++ line ++ [NL])
         /\ match parse_patch patch with
            | Some (Err pe) => e = APE_ParseError pe /\ w_fs w' = w_fs w
            | _ => exists ie, e = APE_IoError ie
            end
     end.
Proof.
  unfold apply_patch.
  change (parse_patch patch) with (parse_patch_text patch Lenient).
  destruct (parse_patch_text_returns patch Lenient) as [[args|pe] E]; rewrite E.
  2: { do 2 eexists. split; [reflexivity|]. cbn. split_and!; eauto. }
  unfold apply_hunks. destruct w as [s out err].
  destruct (total_apply_hunks_to_files home_dir cwd sandbox (hunks args) s) as [[s' r] Ea].
  unfold mbind, M_bind, catch, on_fs. cbn [w_fs w_out w_err]. rewrite Ea.
  destruct r as [a|e].
  - unfold map_errM, on_out. cbn [w_out]. rewrite print_summary_buffer.
    do 2 eexists. split; [reflexivity|]. exists args. split; [done|].
    unfold apply_hunks_to_files in Ea.
    destruct (hunks args) as [|h hs]; simpl is_empty in Ea; cbn match in Ea; [done|].
    apply apply_hunk_list_inv in Ea as [Hs ->]. cbn. split_and!; [done| |done].
    unfold affected_app. by destruct (affected_spec _).
  - unfold map_errM, on_err, writeln, call. cbn.
    destruct (downcast_io e); cbn; do 2 eexists; (split; [reflexivity|]); cbn; split_and!; eauto.
Qed.

Definition sample_patch : str :=
  file_of ["*** Begin Patch"; "*** Update File: a.txt"; "@@"; "-b"; "+c"; "*** End Patch"].

Lemma apply_patch_spec_witness :
  exists s', apply_patch None sample_patch (lit "/w") None (mkWorld sample_fs [] [])
    = Some (mkWorld s' (file_of ["Success. Updated the following files:"; "M a.txt"; ""]) [], Ok tt)
  /\ mem_files s' !! lit "/w/a.txt" = Some (into_bytes (file_of ["a"; "c"; ""])).
Proof.
  destruct (apply_patch_spec None sample_patch (lit "/w") None (mkWorld sample_fs [] []))
    as (w' & r & E & Hr).
  destruct r as [[]|e]; [|exfalso; vm_compute in E; discriminate].
  exists (w_fs w'). rewrite E. vm_compute in E. injection E as <-. vm_compute. split; reflexivity.
Defined.

(** A consequence the tool does not guard against: an update that moves a
    file to its own path (in any spelling) succeeds and leaves no file there. *)
Theorem move_to_self_removes {Sandbox Fs : Type} `{FileSystemLaws Sandbox Fs}
    (home_dir : option str) (cwd : str) (sandbox : option Sandbox) (path dest : str)
    (chunks : list UpdateFileChunk) (affected : AffectedPaths) (s s' : Fs) :
  resolve_path_against_base home_dir dest cwd = resolve_path_against_base home_dir path cwd ->
  apply_hunks_to_files home_dir [UpdateFile path (Some dest) chunks] cwd sandbox s
  = Some (s', Ok affected) ->
  files s' !! resolve_path_against_base home_dir path cwd = None.
Proof.
  intros Hp E. apply apply_hunk_list_inv in E as [Hs _]. cbn in Hs.
  destruct (updated_text _ _ _) as [text|]; [|done]. injection Hs as <-.
  apply lookup_delete_eq.
Qed.

Definition final_state {S E A} (m : M S E A) (s : S) : S :=
  match m s with Some (s', _) => s' | None => s end.

Definition move_to_self : M MemFs anyhow_Error AffectedPaths :=
  apply_hunks_to_files None
    [UpdateFile (lit "a.txt") (Some (lit "./a.txt")) [mkChunk None [lit "b"] [lit "B"] false]]
    (lit "/w") None.

Lemma move_to_self_removes_witness :
  mem_files sample_fs !! lit "/w/a.txt" <> None
  /\ files (final_state move_to_self sample_fs)
       !! resolve_path_against_base None (lit "a.txt") (lit "/w") = None.
Proof.
  split; [by vm_compute|].
  apply (move_to_self_removes None (lit "/w") None (lit "a.txt") (lit "./a.txt")
           [mkChunk None [lit "b"] [lit "B"] false] (mkAffected [] [lit "./a.txt"] []) sample_fs).
  - vm_compute. reflexivity.
  - vm_compute. reflexivity.
Defined.
