(* ===== verification/Invocation.v ===== *)
(** * Recognising an invocation: [apply-patch/src/invocation.rs]

    From a command's [argv] to the changes it would make.  The tree-sitter
    query over the bash grammar and the [similar] crate's unified diff are
    parameters. *)

From S2P Require Import Prelude Paths Utf8 PatchParser SeekSequence Replacements FileSystem ApplyPatch.
Local Open Scope str_scope.

(** ** Data *)

Inductive ApplyPatchShell : Type := Unix | PowerShell | Cmd.

(** [tree_sitter::LanguageError] is opaque here. *)
Inductive ExtractHeredocError (LanguageError : Type) : Type :=
| CommandDidNotStartWithApplyPatch
| FailedToLoadBashGrammar (e : LanguageError)
| HeredocNotUtf8 (e : Utf8Error)
| FailedToParsePatchIntoAst
| FailedToFindHeredocBody.
Arguments CommandDidNotStartWithApplyPatch {_}.
Arguments FailedToLoadBashGrammar {_} e.
Arguments HeredocNotUtf8 {_} e.
Arguments FailedToParsePatchIntoAst {_}.
Arguments FailedToFindHeredocBody {_}.

Inductive MaybeApplyPatch (LanguageError : Type) : Type :=
| Body (args : ApplyPatchArgs)
| ShellParseError (e : ExtractHeredocError LanguageError)
| PatchParseError (e : ParseError)
| NotApplyPatch.
Arguments Body {_} args.
Arguments ShellParseError {_} e.
Arguments PatchParseError {_} e.
Arguments NotApplyPatch {_}.

Inductive ApplyPatchFileChange : Type :=
| Add (content : str)
| Delete (content : str)
| Update (unified_diff : str) (move_path : option str) (new_content : str).

Record ApplyPatchAction : Type := mkAction {
  changes : gmap str ApplyPatchFileChange;
  act_patch : str;
  act_cwd : str;
}.

Inductive MaybeApplyPatchVerified (LanguageError : Type) : Type :=
| VBody (action : ApplyPatchAction)
| VShellParseError (e : ExtractHeredocError LanguageError)
| VCorrectnessError (e : ApplyPatchError)
| VNotApplyPatch.
Arguments VBody {_} action.
Arguments VShellParseError {_} e.
Arguments VCorrectnessError {_} e.
Arguments VNotApplyPatch {_}.

(** The names of the query's captures. *)
Inductive CaptureName : Type := apply_name | cd_name | heredoc | cd_path | cd_raw_string.

Record ApplyPatchFileUpdate : Type := mkFileUpdate { unified_diff : str; content : str }.

(** ** The shell and its script *)

Definition APPLY_PATCH_COMMANDS : list str := [lit "apply_patch"; lit "applypatch"].

Definition classify_shell_name (shell : str) : option str :=
  to_ascii_lowercase <$> file_stem shell.

Definition classify_shell (shell flag : str) : option ApplyPatchShell :=
  match classify_shell_name shell with
  | Some name =>
      if one_of name [lit "bash"; lit "zsh"; lit "sh"] && one_of flag [lit "-lc"; lit "-c"]
      then Some Unix
      else if one_of name [lit "pwsh"; lit "powershell"] && eq_ignore_ascii_case flag (lit "-command")
      then Some PowerShell
      else if (name =? lit "cmd") && eq_ignore_ascii_case flag (lit "/c") then Some Cmd
      else None
  | None => None
  end.

Definition can_skip_flag (shell flag : str) : bool :=
  match classify_shell_name shell with
  | Some name =>
      one_of name [lit "pwsh"; lit "powershell"] && eq_ignore_ascii_case flag (lit "-noprofile")
  | None => false
  end.

Definition parse_shell_script (argv : list str) : option (ApplyPatchShell * str) :=
  match argv with
  | [shell; flag; script] =>
      (fun shell_type => (shell_type, script)) <$> classify_shell shell flag
  | [shell; skip_flag; flag; script] =>
      if can_skip_flag shell skip_flag
      then (fun shell_type => (shell_type, script)) <$> classify_shell shell flag
      else None
  | _ => None
  end.

Section invocation.
Context {LanguageError : Type}.

(** Parsing [src] with the bash grammar and running [APPLY_PATCH_QUERY]: the
    matches in order, each the list of its captures with the capture's name
    and its node's [utf8_text]. *)
Context (apply_patch_query :
  str -> result (ExtractHeredocError LanguageError)
                (list (list (CaptureName * result Utf8Error str)))).

Definition unquote_raw_string (raw : str) : str :=
  match strip_prefix (lit "'") raw with
  | Some s => match strip_suffix (lit "'") s with Some t => t | None => raw end
  | None => raw
  end.

(** The loop over one match's captures, from the two accumulators. *)
Fixpoint read_captures (captures : list (CaptureName * result Utf8Error str))
    (heredoc_text cd_path_text : option str)
  : result (ExtractHeredocError LanguageError) (option str * option str) :=
  match captures with
  | [] => Ok (heredoc_text, cd_path_text)
  | (name, node_text) :: captures =>
      match name with
      | heredoc =>
          text ← map_err HeredocNotUtf8 node_text;
          read_captures captures (Some (trim_end_matches (N.eqb NL) text)) cd_path_text
      | cd_path =>
          text ← map_err HeredocNotUtf8 node_text;
          read_captures captures heredoc_text (Some text)
      | cd_raw_string =>
          raw ← map_err HeredocNotUtf8 node_text;
          read_captures captures heredoc_text (Some (unquote_raw_string raw))
      | apply_name | cd_name => read_captures captures heredoc_text cd_path_text
      end
  end.

Fixpoint first_match (matches : list (list (CaptureName * result Utf8Error str)))
  : result (ExtractHeredocError LanguageError) (str * option str) :=
  match matches with
  | [] => Err CommandDidNotStartWithApplyPatch
  | m :: matches =>
      '(heredoc_text, cd) ← read_captures m None None;
      match heredoc_text with
      | Some text => Ok (text, cd)
      | None => first_match matches
      end
  end.

Definition extract_apply_patch_from_bash (src : str)
  : result (ExtractHeredocError LanguageError) (str * option str) :=
  matches ← apply_patch_query src;
  first_match matches.

Definition extract_apply_patch_from_shell (shell : ApplyPatchShell) (script : str)
  : result (ExtractHeredocError LanguageError) (str * option str) :=
  match shell with
  | Unix | PowerShell | Cmd => extract_apply_patch_from_bash script
  end.

Definition set_workdir (args : ApplyPatchArgs) (wd : option str) : ApplyPatchArgs :=
  mkArgs (patch args) (hunks args) wd.

(** [None] is a parser out of fuel, which does not happen. *)
Definition maybe_parse_apply_patch (argv : list str) : option (MaybeApplyPatch LanguageError) :=
  let shell_form :=
    match parse_shell_script argv with
    | Some (shell, script) =>
        match extract_apply_patch_from_shell shell script with
        | Ok (body, wd) =>
            r ← parse_patch body;
            Some (match r with
                  | Ok source => Body (set_workdir source wd)
                  | Err e => PatchParseError e
                  end)
        | Err CommandDidNotStartWithApplyPatch => Some NotApplyPatch
        | Err e => Some (ShellParseError e)
        end
    | None => Some NotApplyPatch
    end in
  match argv with
  | [cmd; body] =>
      if one_of cmd APPLY_PATCH_COMMANDS then
        r ← parse_patch body;
        Some (match r with Ok source => Body source | Err e => PatchParseError e end)
      else shell_form
  | _ => shell_form
  end.

Context {Sandbox Fs : Type} `{ExecutorFileSystem Sandbox Fs}.
Context (home_dir : option str).

(** [TextDiff::from_lines(old, new)] as a unified diff with a context radius. *)
Context (text_diff : str -> str -> nat -> str).

Definition unified_diff_from_chunks_with_context (path_abs : str) (chunks : list UpdateFileChunk)
    (context : nat) (sandbox : option Sandbox) : M Fs ApplyPatchError ApplyPatchFileUpdate :=
  applied ← derive_new_contents_from_chunks path_abs chunks sandbox;
  mret (mkFileUpdate (text_diff (original_contents applied) (new_contents applied) context)
                     (new_contents applied)).

Definition unified_diff_from_chunks (path_abs : str) (chunks : list UpdateFileChunk)
    (sandbox : option Sandbox) : M Fs ApplyPatchError ApplyPatchFileUpdate :=
  unified_diff_from_chunks_with_context path_abs chunks 1 sandbox.

(** One turn of the loop over the hunks; every early return is a
    [CorrectnessError], so its error is thrown. *)
Definition verify_hunk (hunk : Hunk) (effective_cwd : str) (sandbox : option Sandbox)
  : M Fs ApplyPatchError ApplyPatchFileChange :=
  let path := hunk_resolve_path home_dir hunk effective_cwd in
  match hunk with
  | AddFile _ contents => mret (Add contents)
  | DeleteFile _ =>
      content ← map_errM (fun e => APE_IoError (mkIoError (lit "Failed to read " ++ path) e))
                  (read_file_text path sandbox);
      mret (Delete content)
  | UpdateFile _ move_path chunks =>
      diff ← unified_diff_from_chunks path chunks sandbox;
      mret (Update (unified_diff diff) (abs_join home_dir effective_cwd <$> move_path) (content diff))
  end.

Fixpoint verify_hunks (hs : list Hunk) (effective_cwd : str) (sandbox : option Sandbox)
    (acc : gmap str ApplyPatchFileChange) : M Fs ApplyPatchError (gmap str ApplyPatchFileChange) :=
  match hs with
  | [] => mret acc
  | hunk :: hs =>
      change ← verify_hunk hunk effective_cwd sandbox;
      verify_hunks hs effective_cwd sandbox
        (<[hunk_resolve_path home_dir hunk effective_cwd := change]> acc)
  end.

Definition parses (text : str) : bool :=
  match parse_patch text with Some (Ok _) => true | _ => false end.

Definition effective_cwd_of (wd : option str) (cwd : str) : str :=
  match wd with Some dir => abs_join home_dir cwd dir | None => cwd end.

Definition is_raw_patch (argv : list str) : bool :=
  (match argv with [body] => parses body | _ => false end)
  || (match parse_shell_script argv with Some (_, script) => parses script | None => false end).

Definition maybe_parse_apply_patch_verified (argv : list str) (cwd : str)
    (sandbox : option Sandbox) : M Fs Empty_set (MaybeApplyPatchVerified LanguageError) :=
  if is_raw_patch argv then mret (VCorrectnessError ImplicitInvocation)
  else
    match maybe_parse_apply_patch argv with
    | Some (Body args) =>
        let effective_cwd := effective_cwd_of (workdir args) cwd in
        catch
          (changes ← map_errM VCorrectnessError
                       (verify_hunks (hunks args) effective_cwd sandbox ∅);
           mret (VBody (mkAction changes (patch args) effective_cwd)))
          mret
    | Some (ShellParseError e) => mret (VShellParseError e)
    | Some (PatchParseError e) => mret (VCorrectnessError (APE_ParseError e))
    | Some NotApplyPatch => mret VNotApplyPatch
    | None => panic
    end.
End invocation.

(** ** Specification *)

Section specification.
Context (home_dir : option str) (text_diff : str -> str -> nat -> str) (cwd : str).

Definition file_text (m : contents_map) (path : str) : option str :=
  bytes ← m !! path;
  match from_utf8 bytes with Ok text => Some text | Err _ => None end.

(** The change a hunk amounts to on the files [m]. *)
Definition change_spec (m : contents_map) (h : Hunk) : option ApplyPatchFileChange :=
  let path := hunk_resolve_path home_dir h cwd in
  match h with
  | AddFile _ contents => Some (Add contents)
  | DeleteFile _ => Delete <$> file_text m path
  | UpdateFile _ mv chunks =>
      old ← file_text m path;
      new ← updated_text path chunks m;
      Some (Update (text_diff old new 1) (abs_join home_dir cwd <$> mv) new)
  end.

(** The files [m] are as the change at [path] announces. *)
Definition change_applied (path : str) (c : ApplyPatchFileChange) (m : contents_map) : Prop :=
  match c with
  | Add text | Update _ None text => m !! path = Some (into_bytes text)
  | Delete _ => m !! path = None
  | Update _ (Some dest) text => m !! path = None /\ m !! dest = Some (into_bytes text)
  end.

Definition touched (h : Hunk) : list str :=
  hunk_resolve_path home_dir h cwd
  :: match h with
     | UpdateFile _ (Some dest) _ => [resolve_path_against_base home_dir dest cwd]
     | _ => []
     end.

(** A hunk whose paths still hold what the verification saw. *)
Lemma hunk_spec_applies h c m0 m :
  NoDup (touched h) -> change_spec m0 h = Some c ->
  m !! hunk_resolve_path home_dir h cwd = m0 !! hunk_resolve_path home_dir h cwd ->
  exists m1, hunk_spec home_dir cwd h m = Some m1
    /\ change_applied (hunk_resolve_path home_dir h cwd) c m1
    /\ forall q, q ∉ touched h -> m1 !! q = m !! q.
Proof.
  intros Hnd Hc Hm. unfold hunk_spec, change_spec in *.
  assert (forall chunks, updated_text (hunk_resolve_path home_dir h cwd) chunks m
                         = updated_text (hunk_resolve_path home_dir h cwd) chunks m0) as Hu.
  { intros chunks. unfold updated_text. by rewrite Hm. }
  destruct h as [path contents|path|path mv chunks].
  - injection Hc as <-. eexists. split; [done|]. cbn. split; [apply lookup_insert_eq|].
    intros q Hq. apply lookup_insert_ne. set_solver.
  - destruct (file_text _ _); [|done]. injection Hc as <-. eexists. split; [done|]. cbn.
    split; [apply lookup_delete_eq|]. intros q Hq. apply lookup_delete_ne. set_solver.
  - rewrite Hu. destruct (file_text _ _) as [old|]; [|done]. cbn in Hc.
    destruct (updated_text _ _ m0) as [new|]; [|done]. injection Hc as <-.
    destruct mv as [dest|]; cbn in *; (eexists; split; [done|]).
    + apply NoDup_cons in Hnd as [Hne _]. split.
      * split; [apply lookup_delete_eq|].
        rewrite lookup_delete_ne by set_solver. apply lookup_insert_eq.
      * intros q Hq. rewrite lookup_delete_ne by set_solver.
        apply lookup_insert_ne. set_solver.
    + split; [apply lookup_insert_eq|]. intros q Hq. apply lookup_insert_ne. set_solver.
Qed.

Lemma change_applied_agree h c m0 m1 m2 :
  change_spec m0 h = Some c ->
  (forall q, q ∈ touched h -> m2 !! q = m1 !! q) ->
  change_applied (hunk_resolve_path home_dir h cwd) c m1 ->
  change_applied (hunk_resolve_path home_dir h cwd) c m2.
Proof.
  intros Hc Hq. unfold change_spec in Hc. destruct h as [path contents|path|path mv chunks].
  - injection Hc as <-. cbn. by rewrite Hq by (cbn; set_solver).
  - destruct (file_text _ _); [|done]. injection Hc as <-. cbn. by rewrite Hq by (cbn; set_solver).
  - destruct (file_text _ _); [|done]. cbn in Hc. destruct (updated_text _ _ _); [|done].
    injection Hc as <-. destruct mv as [dest|]; cbn; rewrite !Hq by (cbn; set_solver); done.
Qed.

Lemma hunks_spec_applies hs cs m0 m :
  Forall2 (fun h c => change_spec m0 h = Some c) hs cs ->
  NoDup (hs ≫= touched) ->
  (forall q, q ∈ hs ≫= touched -> m !! q = m0 !! q) ->
  exists m', hunks_spec home_dir cwd hs m = Some m'
    /\ Forall2 (fun h c => change_applied (hunk_resolve_path home_dir h cwd) c m') hs cs
    /\ forall q, q ∉ hs ≫= touched -> m' !! q = m !! q.
Proof.
  intros HF. revert m. induction HF as [|h c hs cs Hc HF IH]; intros m Hnd Hm.
  { exists m. by repeat constructor. }
  rewrite bind_list_cons in *. apply NoDup_app in Hnd as (Hh & Hdis & Hhs).
  destruct (hunk_spec_applies h c m0 m) as (m1 & E1 & Ha & Hsame); [done..| |].
  { apply Hm, elem_of_app. left. apply elem_of_cons. by left. }
  destruct (IH m1) as (m' & E2 & HF2 & Hsame2); [done| |].
  { intros q Hq. rewrite Hsame by (intros ?; eapply Hdis; done). apply Hm, elem_of_app. by right. }
  exists m'. split_and!.
  - cbn. by rewrite E1.
  - constructor; [|done]. eapply change_applied_agree; [done| |done].
    intros q Hq. apply Hsame2. by apply Hdis.
  - intros q Hq. rewrite not_elem_of_app in Hq. destruct Hq.
    rewrite Hsame2 by done. by apply Hsame.
Qed.
End specification.

(** The map of changes: the last hunk on a path wins. *)
Definition changes_of (paths : list str) (cs : list ApplyPatchFileChange)
    (acc : gmap str ApplyPatchFileChange) : gmap str ApplyPatchFileChange :=
  foldl (fun acc pc => <[pc.1 := pc.2]> acc) acc (zip paths cs).

Lemma changes_of_lookup paths cs acc p c :
  changes_of paths cs acc !! p = Some c -> (p, c) ∈ zip paths cs \/ acc !! p = Some c.
Proof.
  unfold changes_of. revert acc. induction (zip paths cs) as [|[p' c'] l IH]; intros acc; cbn; [by right|].
  intros [H|H]%IH; [left; set_solver|]. destruct (decide (p' = p)) as [->|Hne].
  - rewrite lookup_insert_eq in H. left. set_solver.
  - rewrite lookup_insert_ne in H by done. by right.
Qed.

Section verification.
Context {LanguageError Sandbox Fs : Type} `{FileSystemLaws Sandbox Fs}.
Context (query : str -> result (ExtractHeredocError LanguageError)
                               (list (list (CaptureName * result Utf8Error str)))).
Context (home_dir : option str) (text_diff : str -> str -> nat -> str).
Context (sandbox : option Sandbox).

Lemma derive_inv_full path chunks s s' applied :
  derive_new_contents_from_chunks path chunks sandbox s = Some (s', Ok applied) ->
  file_text (files s) path = Some (original_contents applied).
Proof.
  unfold derive_new_contents_from_chunks. intros Hr. minv Hr as H1.
  apply map_errM_Some in H1 as ([text|] & Hread & [= ->]).
  apply read_file_text_inv in Hread as [Hf Ht].
  destruct (Ht text eq_refl) as (bytes & Hb & Hu).
  unfold file_text. rewrite Hb. cbn. rewrite Hu.
  minv Hr as H2. destruct a; [|done]. by injection Hr as <- <-.
Qed.

Lemma verify_hunk_inv h cwd s s' r :
  verify_hunk home_dir text_diff h cwd sandbox s = Some (s', r) ->
  files s' = files s
  /\ forall c, r = Ok c -> change_spec home_dir text_diff cwd (files s) h = Some c.
Proof.
  unfold verify_hunk, change_spec. destruct h as [path contents|path|path mv chunks]; intros Hr.
  - injection Hr as <- <-. by split; [|intros ? [= <-]].
  - minv Hr as H1; apply map_errM_Some in H1 as ([text|] & Hread & [= ->]);
      apply read_file_text_inv in Hread as [Hf Ht]; [|by subst].
    injection Hr as <- <-. split; [done|]. intros ? [= <-].
    destruct (Ht text eq_refl) as (bytes & Hb & Hu). unfold file_text. rewrite Hb. cbn.
    by rewrite Hu.
  - unfold unified_diff_from_chunks, unified_diff_from_chunks_with_context in Hr.
    minv Hr as H1; minv H1 as Hd; simplify_eq.
    + injection H1 as <- <-. injection Hr as <- <-.
      pose proof (derive_inv_full _ _ _ _ _ Hd) as Ho. apply derive_inv in Hd as [Hf Hu].
      split; [done|]. intros ? [= <-]. rewrite Ho. cbn. by rewrite (Hu _ eq_refl).
    + by apply derive_inv in Hd as [Hf _].
Qed.

Lemma verify_hunks_inv hs cwd acc s s' r :
  verify_hunks home_dir text_diff hs cwd sandbox acc s = Some (s', r) ->
  files s' = files s
  /\ forall acc', r = Ok acc' -> exists cs,
       Forall2 (fun h c => change_spec home_dir text_diff cwd (files s) h = Some c) hs cs
       /\ acc' = changes_of (map (fun h => hunk_resolve_path home_dir h cwd) hs) cs acc.
Proof.
  revert acc s. induction hs as [|h hs IH]; intros acc s Hr; cbn [verify_hunks] in Hr.
  { injection Hr as <- <-. split; [done|]. intros ? [= <-]. by exists []. }
  minv Hr as H1; apply verify_hunk_inv in H1 as [Hf Hc]; [|by subst].
  specialize (Hc _ eq_refl). apply IH in Hr as [Hf' Hr]. split; [congruence|].
  intros acc' ->. destruct (Hr _ eq_refl) as (cs & HF & ->). exists (a :: cs).
  rewrite Hf in HF. split; [by constructor|done].
Qed.

Lemma total_verify_hunks hs cwd acc :
  total (verify_hunks home_dir text_diff hs cwd sandbox acc : M Fs _ _).
Proof.
  revert acc. induction hs as [|h hs IH]; intros acc; cbn [verify_hunks]; [eauto with monad|].
  apply total_bind; [|done]. destruct h; cbn [verify_hunk].
  - eauto with monad.
  - apply total_bind; [unfold read_file_text|]; eauto 6 with monad.
  - unfold unified_diff_from_chunks, unified_diff_from_chunks_with_context.
    apply total_bind; [apply total_bind|]; eauto using total_derive with monad.
Qed.

Lemma maybe_parse_returns argv : is_Some (maybe_parse_apply_patch query argv).
Proof.
  unfold maybe_parse_apply_patch.
  assert (forall text (f : result ParseError ApplyPatchArgs -> MaybeApplyPatch LanguageError),
            is_Some (r ← parse_patch text; Some (f r))) as Hp.
  { intros text f. destruct (parse_patch_text_returns text Lenient) as [r E].
    change (parse_patch text) with (parse_patch_text text Lenient). rewrite E. by eexists. }
  repeat case_match; eauto.
Qed.
End verification.

(** ** The properties *)

Lemma verified_inv {LanguageError Sandbox Fs : Type} `{FileSystemLaws Sandbox Fs}
    (query : str -> result (ExtractHeredocError LanguageError)
                           (list (list (CaptureName * result Utf8Error str))))
    home_dir text_diff argv cwd (sandbox : option Sandbox) (s s' : Fs) r :
  maybe_parse_apply_patch_verified query home_dir text_diff argv cwd sandbox s = Some (s', r) ->
  files s' = files s /\ exists v, r = Ok v /\ forall action, v = VBody action ->
    is_raw_patch argv = false
    /\ exists args cs, maybe_parse_apply_patch query argv = Some (Body args)
       /\ act_patch action = patch args
       /\ act_cwd action = effective_cwd_of home_dir (workdir args) cwd
       /\ Forall2 (fun h c => change_spec home_dir text_diff (act_cwd action) (files s) h = Some c)
                  (hunks args) cs
       /\ changes action
          = changes_of (map (fun h => hunk_resolve_path home_dir h (act_cwd action)) (hunks args)) cs ∅.
Proof.
  unfold maybe_parse_apply_patch_verified. destruct (is_raw_patch argv) eqn:Hraw.
  { intros [= <- <-]. split; [done|]. eexists. split; [done|]. discriminate. }
  destruct (maybe_parse_apply_patch query argv) as [[args|e|e|]|] eqn:Hp;
    [|intros [= <- <-]; split; [done|]; eexists; (split; [done|]); discriminate..|done].
  intros [(v & E & ->)|(s1 & v & E & [= <- <-])]%catch_Some.
  - minv E as Hv. injection E as <- <-.
    apply map_errM_Some in Hv as ([acc|] & Hv & [= ->]). apply verify_hunks_inv in Hv as [Hf Hc].
    destruct (Hc _ eq_refl) as (cs & HF & ->). split; [done|].
    eexists. split; [done|]. intros ? [= <-]. split; [done|]. exists args, cs. done.
  - minv E as Hv. simplify_eq. apply map_errM_Some in Hv as ([acc|] & Hv & [= ->]).
    apply verify_hunks_inv in Hv as [Hf _]. split; [done|]. eexists. split; [done|]. discriminate.
Qed.

(** Looking at a command never changes a file and always gives a verdict;
    a raw patch given without [apply_patch], alone or as a shell's script, is
    refused as an implicit invocation; and an accepted command carries the
    parsed patch, the directory it works in, and one change per path, each
    the change its hunk amounts to on the files as they are now. *)
Theorem verified_spec {LanguageError Sandbox Fs : Type} `{FileSystemLaws Sandbox Fs}
    (query : str -> result (ExtractHeredocError LanguageError)
                           (list (list (CaptureName * result Utf8Error str))))
    (home_dir : option str) (text_diff : str -> str -> nat -> str)
    (argv : list str) (cwd : str) (sandbox : option Sandbox) (s : Fs) :
  exists s' v,
    maybe_parse_apply_patch_verified query home_dir text_diff argv cwd sandbox s = Some (s', Ok v)
    /\ files s' = files s
    /\ (is_raw_patch argv = true -> v = VCorrectnessError ImplicitInvocation)
    /\ forall action, v = VBody action ->
         exists args, maybe_parse_apply_patch query argv = Some (Body args)
         /\ act_patch action = patch args
         /\ act_cwd action = effective_cwd_of home_dir (workdir args) cwd
         /\ forall p c, changes action !! p = Some c ->
              exists h, h ∈ hunks args /\ p = hunk_resolve_path home_dir h (act_cwd action)
              /\ change_spec home_dir text_diff (act_cwd action) (files s) h = Some c.
Proof.
  assert (is_Some (maybe_parse_apply_patch_verified query home_dir text_diff argv cwd sandbox s))
    as [[s' r] E].
  { unfold maybe_parse_apply_patch_verified. destruct (is_raw_patch argv); [by eexists|].
    destruct (maybe_parse_returns query argv) as [[args|e|e|] ->]; [|by eexists..].
    apply total_catch; [|eauto with monad].
    apply total_bind; [|eauto with monad]. apply total_map_errM, total_verify_hunks. }
  destruct (verified_inv _ _ _ _ _ _ _ _ _ E) as (Hf & v & -> & Hv).
  exists s', v. split; [done|]. split; [done|]. split.
  { intros Hraw. unfold maybe_parse_apply_patch_verified in E. rewrite Hraw in E. by injection E. }
  intros action Ha. destruct (Hv _ Ha) as (_ & args & cs & Hp & Hpatch & Hcwd & HF & Hch).
  exists args. split_and!; [done..|]. intros p c Hpc. rewrite Hch in Hpc.
  apply changes_of_lookup in Hpc as [Hin|Hpc]; [|by rewrite lookup_empty in Hpc].
  clear -HF Hin. induction HF as [|h c' hs cs Hc HF IH]; [by apply elem_of_nil in Hin|].
  cbn in Hin. apply elem_of_cons in Hin as [[= -> ->]|Hin].
  - exists h. split; [by left|done].
  - destruct (IH Hin) as (h' & Hh' & ?). exists h'. split; [by right|done].
Qed.

(** What is verified is what is applied.  If the hunks of an accepted
    command concern distinct files, then applying them to the files as they
    were, when it succeeds, makes exactly the announced changes: an added or
    updated file has the announced content, a deleted or moved file is gone,
    the move's destination has the announced content, and no other file has
    changed. *)
Theorem verified_is_applied {LanguageError Sandbox Fs : Type} `{FileSystemLaws Sandbox Fs}
    (query : str -> result (ExtractHeredocError LanguageError)
                           (list (list (CaptureName * result Utf8Error str))))
    (home_dir : option str) (text_diff : str -> str -> nat -> str)
    (argv : list str) (cwd : str) (sandbox : option Sandbox) (s s1 s2 : Fs)
    (action : ApplyPatchAction) (args : ApplyPatchArgs) (affected : AffectedPaths) :
  maybe_parse_apply_patch_verified query home_dir text_diff argv cwd sandbox s
    = Some (s1, Ok (VBody action)) ->
  maybe_parse_apply_patch query argv = Some (Body args) ->
  NoDup (hunks args ≫= touched home_dir (act_cwd action)) ->
  apply_hunks_to_files home_dir (hunks args) (act_cwd action) sandbox s1 = Some (s2, Ok affected) ->
  (forall p c, changes action !! p = Some c -> change_applied p c (files s2))
  /\ (forall q, q ∉ hunks args ≫= touched home_dir (act_cwd action) -> files s2 !! q = files s !! q).
Proof.
  intros E Hargs Hnd Ha.
  destruct (verified_inv _ _ _ _ _ _ _ _ _ E) as (Hf & v & [= <-] & Hv).
  destruct (Hv _ eq_refl) as (_ & args' & cs & Hp & _ & _ & HF & Hch).
  rewrite Hargs in Hp. injection Hp as <-.
  unfold apply_hunks_to_files in Ha. destruct (is_empty (hunks args)); [done|].
  apply apply_hunk_list_inv in Ha as [Ha _]. rewrite Hf in Ha.
  destruct (hunks_spec_applies home_dir text_diff (act_cwd action) (hunks args) cs (files s) (files s))
    as (m' & Hm & HF2 & Hsame); [done..|].
  rewrite Ha in Hm. injection Hm as <-. split; [|done].
  intros p c Hpc. rewrite Hch in Hpc.
  apply changes_of_lookup in Hpc as [Hin|Hpc]; [|by rewrite lookup_empty in Hpc].
  clear -HF2 Hin. induction HF2 as [|h c' hs cs Hc HF IH]; [by apply elem_of_nil in Hin|].
  cbn in Hin. apply elem_of_cons in Hin as [[= -> ->]|Hin]; auto.
Qed.

(** No bash grammar, and a diff that is the new text. *)
Definition no_match (_ : str) : result (ExtractHeredocError Empty_set) (list (list (CaptureName * result Utf8Error str))) :=
  Ok [].
Definition sample_diff (_ new : str) (_ : nat) : str := new.
Definition sample_argv : list str := [lit "apply_patch"; sample_patch].

Definition sample_action : ApplyPatchAction :=
  mkAction {[lit "/w/a.txt" := Update (file_of ["a"; "c"; ""]) None (file_of ["a"; "c"; ""])]}
           (trim sample_patch) (lit "/w").

Definition sample_args : ApplyPatchArgs :=
  mkArgs (trim sample_patch)
         [UpdateFile (lit "a.txt") None [mkChunk None [lit "b"] [lit "c"] false]] None.

Definition apply_sample : M MemFs anyhow_Error AffectedPaths :=
  apply_hunks_to_files None (hunks sample_args) (lit "/w") None.

Lemma verified_spec_witness :
  exists v, maybe_parse_apply_patch_verified no_match None sample_diff [lit "bash"; lit "-lc"; sample_patch]
              (lit "/w") None sample_fs = Some (sample_fs, Ok v)
  /\ v = VCorrectnessError ImplicitInvocation.
Proof.
  destruct (verified_spec no_match None sample_diff [lit "bash"; lit "-lc"; sample_patch]
              (lit "/w") None sample_fs) as (s' & v & E & _ & Hraw & _).
  exists v. split; [|apply Hraw; vm_compute; reflexivity].
  rewrite E. vm_compute in E. by injection E as <- _.
Defined.

Lemma verified_is_applied_witness :
  maybe_parse_apply_patch_verified no_match None sample_diff sample_argv (lit "/w") None sample_fs
    = Some (sample_fs, Ok (VBody sample_action))
  /\ forall p c, changes sample_action !! p = Some c ->
       change_applied p c (files (final_state apply_sample sample_fs)).
Proof.
  split; [vm_compute; reflexivity|].
  apply (verified_is_applied no_match None sample_diff sample_argv (lit "/w") None
           sample_fs sample_fs (final_state apply_sample sample_fs)
           sample_action sample_args (mkAffected [] [lit "a.txt"] [])).
  - vm_compute. reflexivity.
  - vm_compute. reflexivity.
  - apply (bool_decide_eq_true_1 (NoDup _)). vm_compute. reflexivity.
  - vm_compute. reflexivity.
Defined.

(** Two hunks on one file: each is verified against the original file, and
    only the last one's change is announced, while applying does both. *)
Example two_updates_of_one_file :
  let args := mkArgs [] [UpdateFile (lit "a.txt") None [mkChunk None [lit "a"] [lit "A"] false];
                         UpdateFile (lit "a.txt") None [mkChunk None [lit "b"] [lit "B"] false]] None in
  (match verify_hunks None sample_diff (hunks args) (lit "/w") (None : option unit) ∅ sample_fs with
   | Some (_, Ok c) => c !! lit "/w/a.txt" | _ => None end)
    = Some (Update (file_of ["a"; "B"; ""]) None (file_of ["a"; "B"; ""]))
  /\ mem_files (final_state (apply_hunks_to_files None (hunks args) (lit "/w") None) sample_fs)
       !! lit "/w/a.txt" = Some (into_bytes (file_of ["A"; "B"; ""])).
Proof. split; vm_compute; reflexivity. Qed.
