(* ===== verification/ShellParse.v ===== *)
(** * Reading shell scripts: [shell-command/src/{bash,shell_detect,powershell}.rs]

    The walks over a tree-sitter tree that turn [bash -lc SCRIPT] into the
    word-only commands of the script.  The grammar is a parameter
    ([try_parse_shell]); a [Node] carries what the code asks of one. *)

From S2P Require Import Prelude Paths Utf8.
Local Open Scope str_scope.

(** ** [shell_detect.rs] *)

Inductive ShellType : Type := Zsh | Bash | ShPowerShell | Sh | ShCmd.

#[global] Instance shell_type_eq_dec : EqDecision ShellType.
Proof. solve_decision. Defined.

(** One unit of fuel per call; every recursive call is on a shorter path. *)
Fixpoint detect_shell_type_fuel (fuel : nat) (shell_path : str) : option ShellType :=
  match fuel with
  | O => None
  | S fuel =>
      if shell_path =? lit "zsh" then Some Zsh
      else if shell_path =? lit "sh" then Some Sh
      else if shell_path =? lit "cmd" then Some ShCmd
      else if shell_path =? lit "bash" then Some Bash
      else if shell_path =? lit "pwsh" then Some ShPowerShell
      else if shell_path =? lit "powershell" then Some ShPowerShell
      else match file_stem shell_path with
           | Some shell_name =>
               if negb (path_eqb shell_name shell_path)
               then detect_shell_type_fuel fuel shell_name
               else None
           | None => None
           end
  end.

Definition detect_shell_type (shell_path : str) : option ShellType :=
  detect_shell_type_fuel (S (length shell_path)) shell_path.

(** The fuel is enough: the definition is the recursion of the source. *)
Lemma detect_shell_type_fuel_enough fuel fuel' p :
  length p < fuel -> length p < fuel' -> detect_shell_type_fuel fuel p = detect_shell_type_fuel fuel' p.
Proof.
  revert fuel' p. induction fuel as [|fuel IH]; intros [|fuel'] p H H'; try lia.
  cbn [detect_shell_type_fuel]. repeat case_bool_decide; try done.
  destruct (file_stem p) as [n|] eqn:E; [|done]. destruct (path_eqb n p) eqn:En; [done|]. cbn [negb].
  apply file_stem_shorter in E as [Hl| ->]; [apply IH; lia|].
  unfold path_eqb in En. by rewrite bool_decide_eq_true_2 in En.
Qed.

Lemma detect_shell_type_eq p :
  detect_shell_type p
  = if p =? lit "zsh" then Some Zsh
    else if p =? lit "sh" then Some Sh
    else if p =? lit "cmd" then Some ShCmd
    else if p =? lit "bash" then Some Bash
    else if p =? lit "pwsh" then Some ShPowerShell
    else if p =? lit "powershell" then Some ShPowerShell
    else match file_stem p with
         | Some n => if negb (path_eqb n p) then detect_shell_type n else None
         | None => None
         end.
Proof.
  unfold detect_shell_type at 1. cbn [detect_shell_type_fuel].
  repeat case_bool_decide; try done.
  destruct (file_stem p) as [n|] eqn:E; [|done]. destruct (negb (path_eqb n p)) eqn:En; [|done].
  apply negb_true_iff in En. apply file_stem_shorter in E as [Hl| ->].
  - apply detect_shell_type_fuel_enough; lia.
  - unfold path_eqb in En. by rewrite bool_decide_eq_true_2 in En.
Qed.

(** ** tree-sitter nodes *)

(** The node's text is the result of [utf8_text] on the parsed source. *)
Inductive Node : Type :=
  mkNode (kind : str) (is_named : bool) (start_byte : nat)
         (utf8_text : result Utf8Error str) (children : list Node).

Definition kind (n : Node) : str := let 'mkNode k _ _ _ _ := n in k.
Definition is_named (n : Node) : bool := let 'mkNode _ b _ _ _ := n in b.
Definition start_byte (n : Node) : nat := let 'mkNode _ _ b _ _ := n in b.
Definition utf8_text (n : Node) : option str :=
  let 'mkNode _ _ _ t _ := n in match t with Ok s => Some s | Err _ => None end.
Definition children (n : Node) : list Node := let 'mkNode _ _ _ _ cs := n in cs.
Definition named_children (n : Node) : list Node := List.filter is_named (children n).

(** A tree: its root and [root_node().has_error()]. *)
Record Tree : Type := mkTree { root_node : Node; has_error : bool }.

Fixpoint node_size (n : Node) : nat :=
  let 'mkNode _ _ _ _ cs := n in S (sum_list (map node_size cs)).

(** A loop [while let Some(node) = stack.pop()] that pushes [next node] after
    visiting [node], and may return early ([inl]).  The stack's top is the
    head of the list. *)
Section walk.
Context {A R : Type} (next : Node -> list Node) (visit : A -> Node -> R + A).

Fixpoint walk (fuel : nat) (stack : list Node) (acc : A) : option (R + A) :=
  match stack with
  | [] => Some (inr acc)
  | node :: stack =>
      match fuel with
      | O => None
      | S fuel =>
          match visit acc node with
          | inl r => Some (inl r)
          | inr acc => walk fuel (rev (next node) ++ stack) acc
          end
      end
  end.

Definition walk_from (root : Node) (acc : A) : option (R + A) := walk (node_size root) [root] acc.
End walk.

(** ** [bash.rs] *)

Definition ALLOWED_KINDS : list str :=
  [lit "program"; lit "list"; lit "pipeline"; lit "command"; lit "command_name"; lit "word";
   lit "string"; lit "string_content"; lit "raw_string"; lit "number"; lit "concatenation"].
Definition ALLOWED_PUNCT_TOKENS : list str :=
  [lit "&&"; lit "||"; lit ";"; lit "|"; [34%N]; lit "'"].

Definition parse_double_quoted_string (node : Node) : option str :=
  if negb (kind node =? lit "string") then None
  else if negb (forallb (fun part => kind part =? lit "string_content") (named_children node)) then None
  else raw ← utf8_text node;
       text ← strip_prefix [34%N] raw;
       strip_suffix [34%N] text.

Definition parse_raw_string (node : Node) : option str :=
  if negb (kind node =? lit "raw_string") then None
  else raw_string ← utf8_text node;
       s ← strip_prefix (lit "'") raw_string;
       strip_suffix (lit "'") s.

(** The loop over the parts of a concatenation. *)
Fixpoint parse_concatenation (parts : list Node) (concatenated : str) : option str :=
  match parts with
  | [] => Some concatenated
  | part :: parts =>
      text ← (if one_of (kind part) [lit "word"; lit "number"] then utf8_text part
              else if kind part =? lit "string" then parse_double_quoted_string part
              else if kind part =? lit "raw_string" then parse_raw_string part
              else None);
      parse_concatenation parts (concatenated ++ text)
  end.

Definition parse_plain_word (child : Node) : option str :=
  let k := kind child in
  if k =? lit "command_name" then
    word_node ← head (named_children child);
    if negb (kind word_node =? lit "word") then None else utf8_text word_node
  else if one_of k [lit "word"; lit "number"] then utf8_text child
  else if k =? lit "string" then parse_double_quoted_string child
  else if k =? lit "raw_string" then parse_raw_string child
  else if k =? lit "concatenation" then
    concatenated ← parse_concatenation (named_children child) [];
    if is_empty concatenated then None else Some concatenated
  else None.

Definition parse_plain_command_from_node (cmd : Node) : option (list str) :=
  if negb (kind cmd =? lit "command") then None
  else mapM parse_plain_word (named_children cmd).

Definition punct_allowed (k : str) : bool :=
  if existsb (fun c => existsb (N.eqb c) (lit "&;|")) k && negb (one_of k ALLOWED_PUNCT_TOKENS)
  then false
  else one_of k ALLOWED_PUNCT_TOKENS || is_empty (trim k).

(** The body of the walk: [inl tt] is [return None]. *)
Definition visit_word_only (command_nodes : list Node) (node : Node) : unit + list Node :=
  if is_named node then
    if negb (one_of (kind node) ALLOWED_KINDS) then inl tt
    else if kind node =? lit "command" then inr (command_nodes ++ [node])
    else inr command_nodes
  else if punct_allowed (kind node) then inr command_nodes else inl tt.

Definition start_leb (a b : Node) : bool := (start_byte a <=? start_byte b)%nat.

(** The outer [None] is the walk out of fuel, which does not happen. *)
Definition try_parse_word_only_commands_sequence (tree : Tree) : option (option (list (list str))) :=
  if has_error tree then Some None
  else
    r ← walk_from children visit_word_only (root_node tree) [];
    Some (match r with
          | inl _ => None
          | inr command_nodes =>
              mapM parse_plain_command_from_node (sort_by start_leb command_nodes)
          end).

Definition extract_bash_command (command : list str) : option (str * str) :=
  match command with
  | [shell; flag; script] =>
      if negb (one_of flag [lit "-lc"; lit "-c"])
         || negb (match detect_shell_type shell with
                  | Some Zsh | Some Bash | Some Sh => true
                  | _ => false
                  end)
      then None
      else Some (shell, script)
  | _ => None
  end.

Definition is_literal_word_or_number (node : Node) : bool :=
  one_of (kind node) [lit "word"; lit "number"] && is_empty (named_children node).

Definition is_allowed_heredoc_attachment_kind (k : str) : bool :=
  one_of k [lit "heredoc_body"; lit "simple_heredoc_body"; lit "heredoc_redirect";
            lit "herestring_redirect"; lit "file_redirect"; lit "redirected_statement"].

(** The loop of [parse_heredoc_command_words]. *)
Fixpoint heredoc_words (children : list Node) (words : list str) : option (list str) :=
  match children with
  | [] => Some words
  | child :: children =>
      let k := kind child in
      if k =? lit "command_name" then
        word_node ← head (named_children child);
        if negb (one_of (kind word_node) [lit "word"; lit "number"])
           || negb (is_literal_word_or_number word_node) then None
        else text ← utf8_text word_node; heredoc_words children (words ++ [text])
      else if one_of k [lit "word"; lit "number"] then
        if negb (is_literal_word_or_number child) then None
        else text ← utf8_text child; heredoc_words children (words ++ [text])
      else if one_of k [lit "variable_assignment"; lit "comment"] then heredoc_words children words
      else if is_allowed_heredoc_attachment_kind k then heredoc_words children words
      else None
  end.

Definition parse_heredoc_command_words (cmd : Node) : option (list str) :=
  if negb (kind cmd =? lit "command") then None
  else words ← heredoc_words (named_children cmd) [];
       if is_empty words then None else Some words.

Definition visit_single_command (single_command : option Node) (node : Node) : unit + option Node :=
  if kind node =? lit "command" then
    match single_command with Some _ => inl tt | None => inr (Some node) end
  else inr single_command.

Definition find_single_command_node (root : Node) : option (option Node) :=
  r ← walk_from named_children visit_single_command root None;
  Some (match r with inl _ => None | inr single_command => single_command end).

Definition has_named_descendant_kind (node : Node) (k : str) : option bool :=
  r ← walk_from named_children
        (fun (_ : unit) current => if kind current =? k then inl tt else inr tt) node tt;
  Some (match r with inl _ => true | inr _ => false end).

Section grammar.
(** tree-sitter's bash parser *)
Context (try_parse_shell : str -> option Tree).

Definition parse_shell_lc_plain_commands (command : list str) : option (option (list (list str))) :=
  match extract_bash_command command with
  | None => Some None
  | Some (_, script) =>
      match try_parse_shell script with
      | None => Some None
      | Some tree => try_parse_word_only_commands_sequence tree
      end
  end.

Definition parse_shell_lc_single_command_prefix (command : list str) : option (option (list str)) :=
  match extract_bash_command command with
  | None => Some None
  | Some (_, script) =>
      match try_parse_shell script with
      | None => Some None
      | Some tree =>
          if has_error tree then Some None
          else
            has_heredoc ← has_named_descendant_kind (root_node tree) (lit "heredoc_redirect");
            if negb has_heredoc then Some None
            else
              command_node ← find_single_command_node (root_node tree);
              Some (command_node ← command_node; parse_heredoc_command_words command_node)
      end
  end.
End grammar.

(** ** [powershell.rs] *)

Definition POWERSHELL_FLAGS : list str := [lit "-nologo"; lit "-noprofile"; lit "-command"; lit "-c"].

Definition UTF8_OUTPUT_PREFIX : str :=
  lit "[Console]::OutputEncoding=[System.Text.Encoding]::UTF8;" ++ [NL].

(** The loop of [extract_powershell_command]: [rest] is [command[i..]]. *)
Fixpoint powershell_script (rest : list str) : option str :=
  match rest with
  | flag :: ((script :: _) as rest') =>
      if negb (one_of (to_ascii_lowercase flag) POWERSHELL_FLAGS) then None
      else if eq_ignore_ascii_case flag (lit "-Command") || eq_ignore_ascii_case flag (lit "-c")
      then Some script
      else powershell_script rest'
  | _ => None
  end.

Definition extract_powershell_command (command : list str) : option (str * str) :=
  if (length command <? 3)%nat then None
  else match command with
       | shell :: rest =>
           match detect_shell_type shell with
           | Some ShPowerShell => (fun script => (shell, script)) <$> powershell_script rest
           | _ => None
           end
       | [] => None
       end.

Definition prefix_powershell_script_with_utf8 (command : list str) : list str :=
  match extract_powershell_command command with
  | None => command
  | Some (_, script) =>
      let script := if starts_with (trim_start script) UTF8_OUTPUT_PREFIX then script
                    else UTF8_OUTPUT_PREFIX ++ script in
      removelast command ++ [script]
  end.

(** ** The walk visits every reachable node, once, within its fuel *)

Section walk_lemmas.
Context (keep : Node -> bool).

(** The nodes reachable through kept children, in the order the loop pops
    them: a parent first, then its children from the last to the first. *)
Fixpoint reachable (n : Node) : list Node :=
  n :: (let 'mkNode _ _ _ _ cs := n in
        concat (rev (map (fun c => if keep c then reachable c else []) cs))).

Definition kept_children (n : Node) : list Node := List.filter keep (children n).

Lemma reachable_eq n : reachable n = n :: concat (rev (map reachable (kept_children n))).
Proof.
  destruct n as [k b s t cs]. cbn [reachable]. f_equal.
  unfold kept_children. cbn [children]. induction cs as [|c cs IH]; [done|].
  cbn [map rev]. rewrite concat_app, IH. simpl. destruct (keep c).
  - cbn [map rev]. by rewrite concat_app.
  - by rewrite app_nil_r.
Qed.

Definition stack_size (l : list Node) : nat := sum_list (map node_size l).

Lemma stack_size_app l l' : stack_size (l ++ l') = stack_size l + stack_size l'.
Proof. unfold stack_size. induction l; simpl; lia. Qed.

Lemma stack_size_rev l : stack_size (rev l) = stack_size l.
Proof. induction l; simpl; [done|]. rewrite stack_size_app, IHl. unfold stack_size. simpl. lia. Qed.

Lemma stack_size_filter f l : stack_size (List.filter f l) <= stack_size l.
Proof. unfold stack_size. induction l; simpl; [done|]. destruct (f a); simpl; lia. Qed.

Lemma node_size_children n : node_size n = S (stack_size (children n)).
Proof. by destruct n. Qed.

Context {A R : Type} (visit : A -> Node -> R + A).

(** The loop is a fold over the reachable nodes, with early return. *)
Fixpoint visit_all (l : list Node) (acc : A) : R + A :=
  match l with
  | [] => inr acc
  | n :: l => match visit acc n with inl r => inl r | inr acc => visit_all l acc end
  end.

Lemma walk_visits fuel stack acc :
  stack_size stack <= fuel ->
  walk kept_children visit fuel stack acc = Some (visit_all (concat (map reachable stack)) acc).
Proof.
  revert stack acc. induction fuel as [|fuel IH]; intros stack acc Hs.
  - destruct stack as [|n stack]; [done|]. unfold stack_size in Hs. simpl in Hs.
    rewrite node_size_children in Hs. lia.
  - destruct stack as [|n stack]; [done|]. cbn [walk map concat].
    rewrite reachable_eq. cbn [app visit_all].
    destruct (visit acc n) as [r|acc']; [done|]. rewrite IH.
    + by rewrite map_app, map_rev, concat_app.
    + rewrite stack_size_app, stack_size_rev. unfold stack_size in Hs at 1. simpl in Hs.
      rewrite node_size_children in Hs. pose proof (stack_size_filter keep (children n)).
      unfold kept_children. fold (stack_size stack) in Hs. lia.
Qed.

Lemma walk_from_visits root acc :
  walk_from kept_children visit root acc = Some (visit_all (reachable root) acc).
Proof.
  unfold walk_from. rewrite walk_visits; [by simpl; rewrite app_nil_r|].
  unfold stack_size. simpl. lia.
Qed.
End walk_lemmas.

Lemma kept_children_all n : kept_children (fun _ => true) n = children n.
Proof. unfold kept_children. by induction (children n); simpl; f_equal. Qed.

Lemma walk_ext {A R} next next' (visit : A -> Node -> R + A) fuel stack acc :
  (forall n, next n = next' n) -> walk next visit fuel stack acc = walk next' visit fuel stack acc.
Proof.
  intros Hn. revert stack acc. induction fuel as [|fuel IH]; intros [|n stack] acc; simpl; try done.
  destruct (visit acc n); [done|]. by rewrite Hn, IH.
Qed.

(** All the nodes of a tree, and the named ones reachable through named ones. *)
Definition all_nodes : Node -> list Node := reachable (fun _ => true).
Definition named_nodes : Node -> list Node := reachable is_named.

Lemma walk_children {A R} (visit : A -> Node -> R + A) root acc :
  walk_from children visit root acc = Some (visit_all visit (all_nodes root) acc).
Proof.
  unfold walk_from.
  rewrite (walk_ext _ (kept_children (fun _ => true))) by (intros; by rewrite kept_children_all).
  apply walk_from_visits.
Qed.

Lemma walk_named {A R} (visit : A -> Node -> R + A) root acc :
  walk_from named_children visit root acc = Some (visit_all visit (named_nodes root) acc).
Proof. apply walk_from_visits. Qed.

Definition node_allowed (n : Node) : bool :=
  if is_named n then one_of (kind n) ALLOWED_KINDS else punct_allowed (kind n).

Definition is_command (n : Node) : bool := is_named n && bool_decide (kind n = lit "command").

Lemma visit_word_only_all l acc :
  visit_all visit_word_only l acc
  = if forallb node_allowed l then inr (acc ++ List.filter is_command l) else inl tt.
Proof.
  revert acc. induction l as [|n l IH]; intros acc; cbn [visit_all forallb List.filter];
    [by rewrite app_nil_r|].
  unfold visit_word_only at 1, node_allowed at 1, is_command at 1. destruct (is_named n).
  - destruct (one_of (kind n) ALLOWED_KINDS); cbn [negb andb]; [|done].
    destruct (bool_decide (kind n = lit "command")); rewrite IH; [|done].
    by rewrite <- app_assoc.
  - destruct (punct_allowed (kind n)); cbn [andb]; [apply IH|done].
Qed.

(** ** The properties *)

Lemma start_leb_sorted l : StronglySorted (fun a b => start_byte a <= start_byte b) (sort_by start_leb l).
Proof.
  assert (StronglySorted (fun a b => start_leb a b = true) (sort_by start_leb l)) as H.
  { apply sort_by_sorted; unfold start_leb.
    - intros x y. destruct (Nat.leb_spec (start_byte x) (start_byte y)); [by left|].
      right. apply Nat.leb_le. lia.
    - intros x y z H1%Nat.leb_le H2%Nat.leb_le. apply Nat.leb_le. lia. }
  induction H as [|x l' Hl IH Hx]; constructor; [done|].
  eapply Forall_impl; [exact Hx|]. intros y. apply Nat.leb_le.
Qed.

Lemma forallb_false_exists {A} (f : A -> bool) l :
  forallb f l = false -> exists x, x ∈ l /\ f x = false.
Proof.
  induction l as [|x l IH]; simpl; [done|]. destruct (f x) eqn:E.
  - intros (y & Hy & Hf)%IH. exists y. split; [by right|done].
  - intros _. exists x. split; [by left|done].
Qed.

Lemma mapM_None_exists {A B} (f : A -> option B) l :
  mapM f l = None -> exists x, x ∈ l /\ f x = None.
Proof. rewrite mapM_None. apply Exists_exists. Qed.

Lemma try_parse_word_only_eq tree :
  try_parse_word_only_commands_sequence tree
  = Some (if has_error tree then None
          else if forallb node_allowed (all_nodes (root_node tree))
          then mapM parse_plain_command_from_node
                 (sort_by start_leb (List.filter is_command (all_nodes (root_node tree))))
          else None).
Proof.
  unfold try_parse_word_only_commands_sequence. destruct (has_error tree); [done|].
  rewrite walk_children, visit_word_only_all. by destruct (forallb _ _).
Qed.

(** C18: the walk over a script's tree ends, and nothing it lets through is
    unchecked: when it gives a list of commands, the parse had no error, every
    node of the tree is of an allowed kind, and the list holds exactly one
    entry per command node of the whole tree, in source order, each the plain
    words of its node; when it gives nothing, the tree has an error, a node
    that is not allowed, or a command that is not plain words. *)
Theorem word_only_commands_spec (tree : Tree) :
  exists r, try_parse_word_only_commands_sequence tree = Some r
  /\ match r with
     | Some commands =>
         has_error tree = false
         /\ Forall (fun n => node_allowed n = true) (all_nodes (root_node tree))
         /\ exists nodes, nodes ≡ₚ List.filter is_command (all_nodes (root_node tree))
            /\ StronglySorted (fun a b => start_byte a <= start_byte b) nodes
            /\ Forall2 (fun n words => parse_plain_command_from_node n = Some words) nodes commands
     | None =>
         has_error tree = true
         \/ exists n, n ∈ all_nodes (root_node tree)
            /\ (node_allowed n = false
                \/ (is_command n = true /\ parse_plain_command_from_node n = None))
     end.
Proof.
  rewrite try_parse_word_only_eq. eexists. split; [reflexivity|].
  destruct (has_error tree) eqn:He; [by left|].
  destruct (forallb node_allowed (all_nodes (root_node tree))) eqn:Ha.
  - destruct (mapM _ _) as [commands|] eqn:E.
    + split; [done|]. split.
      { apply Forall_forall. intros n Hn. rewrite forallb_forall in Ha.
        by apply Ha, list_elem_of_In. }
      eexists. split_and!; [apply sort_by_perm|apply start_leb_sorted|by apply mapM_Some].
    + right. apply mapM_None_exists in E as (n & Hn & E). rewrite sort_by_perm in Hn.
      apply elem_of_filter_list in Hn as [Hn Hc]. eauto.
  - right. apply forallb_false_exists in Ha as (n & Hn & Hf). eauto.
Qed.

Lemma visit_single_all l acc :
  visit_all visit_single_command l acc
  = match acc, List.filter (fun n => bool_decide (kind n = lit "command")) l with
    | Some n, [] => inr (Some n)
    | None, [] => inr None
    | None, [n] => inr (Some n)
    | _, _ => inl tt
    end.
Proof.
  revert acc. induction l as [|n l IH]; intros acc; cbn [visit_all List.filter]; [by destruct acc|].
  unfold visit_single_command at 1. destruct (bool_decide (kind n = lit "command")).
  - destruct acc; [done|]. rewrite IH. by destruct (List.filter _ l).
  - apply IH.
Qed.

Lemma visit_kind_all k l :
  visit_all (fun (_ : unit) n => if kind n =? k then inl tt else inr tt) l tt
  = if existsb (fun n => bool_decide (kind n = k)) l then inl tt else inr tt.
Proof. induction l as [|n l IH]; simpl; [done|]. by destruct (bool_decide (kind n = k)). Qed.

(** The here-doc form ends too, and gives words only for a script whose tree
    has no error, a here-doc and exactly one command node among its named
    nodes: the words are that command's. *)
Theorem single_command_prefix_spec (try_parse_shell : str -> option Tree) (command : list str) :
  exists r, parse_shell_lc_single_command_prefix try_parse_shell command = Some r
  /\ forall words, r = Some words ->
       exists shell script tree node,
         extract_bash_command command = Some (shell, script)
         /\ try_parse_shell script = Some tree /\ has_error tree = false
         /\ (exists h, h ∈ named_nodes (root_node tree) /\ kind h = lit "heredoc_redirect")
         /\ List.filter (fun n => bool_decide (kind n = lit "command")) (named_nodes (root_node tree))
            = [node]
         /\ parse_heredoc_command_words node = Some words.
Proof.
  unfold parse_shell_lc_single_command_prefix.
  destruct (extract_bash_command command) as [[shell script]|]; [|by eexists].
  destruct (try_parse_shell script) as [tree|] eqn:Ht; [|by eexists].
  destruct (has_error tree) eqn:He; [by eexists|].
  unfold has_named_descendant_kind, find_single_command_node.
  rewrite !walk_named, visit_kind_all, visit_single_all. cbn [mbind option_bind].
  destruct (existsb _ _) eqn:Hh; cbn [negb]; [|by eexists].
  apply existsb_exists in Hh as (h & Hh & Hk%bool_decide_eq_true). apply list_elem_of_In in Hh.
  destruct (List.filter _ _) as [|node [|? ?]] eqn:Hf; cbn [mbind option_bind];
    (eexists; split; [reflexivity|]); try done.
  intros words Hw. exists shell, script, tree, node. split_and!; eauto.
Qed.

(** [ls && rm], as the grammar gives it. *)
Definition leaf (k : string) (named : bool) (at_ : nat) (text : string) : Node :=
  mkNode (lit k) named at_ (Ok (lit text)) [].
Definition simple_command (at_ : nat) (name : string) (args : list Node) : Node :=
  mkNode (lit "command") true at_ (Ok (lit name))
    (mkNode (lit "command_name") true at_ (Ok (lit name)) [leaf "word" true at_ name] :: args).
Definition sample_tree : Tree :=
  mkTree (mkNode (lit "program") true 0 (Ok (lit "ls && rm -f"))
    [mkNode (lit "list") true 0 (Ok (lit "ls && rm -f"))
       [simple_command 0 "ls" []; leaf "&&" false 3 "&&";
        simple_command 6 "rm" [leaf "word" true 9 "-f"]]]) false.

Example sample_tree_commands :
  try_parse_word_only_commands_sequence sample_tree
  = Some (Some [[lit "ls"]; [lit "rm"; lit "-f"]]).
Proof. vm_compute. reflexivity. Qed.

Definition heredoc_tree : Tree :=
  mkTree (mkNode (lit "program") true 0 (Ok (lit "cat <<E"))
    [mkNode (lit "redirected_statement") true 0 (Ok (lit "cat <<E"))
       [simple_command 0 "cat" []; leaf "heredoc_redirect" true 4 "<<E"]]) false.

Lemma single_command_prefix_spec_witness :
  exists tree node,
    has_error tree = false
    /\ List.filter (fun n => bool_decide (kind n = lit "command")) (named_nodes (root_node tree)) = [node]
    /\ parse_heredoc_command_words node = Some [lit "cat"].
Proof.
  destruct (single_command_prefix_spec (fun _ => Some heredoc_tree)
              [lit "/bin/zsh"; lit "-c"; lit "cat <<E"]) as (r & E & H).
  vm_compute in E. injection E as <-.
  destruct (H [lit "cat"] eq_refl) as (_ & _ & tree & node & _ & _ & He & _ & Hf & Hw). eauto.
Defined.

(** [prefix_powershell_script_with_utf8] replaces the last argument, whatever
    stood there, by the prefixed script. *)
Example prefix_drops_last_argument :
  prefix_powershell_script_with_utf8 [lit "pwsh"; lit "-Command"; lit "ls"; lit "dir"]
  = [lit "pwsh"; lit "-Command"; lit "ls"; UTF8_OUTPUT_PREFIX ++ lit "ls"].
Proof. vm_compute. reflexivity. Qed.
