(* ===== verification/CommandSafety.v ===== *)
(** * Which commands run without asking: [shell-command/src/command_safety]

    [is_safe_command.rs], [is_dangerous_command.rs] and the PowerShell side of
    [windows_safe_commands.rs], for Linux ([cfg(windows)] code is left out).
    The bash grammar and the PowerShell parser process are parameters. *)

From S2P Require Import Prelude Paths Utf8 ShellParse.
Local Open Scope str_scope.

(** ** [is_dangerous_command.rs] *)

Definition executable_name_lookup_key (raw : str) : option str := file_name raw.

Definition is_git_global_option_with_value (arg : str) : bool :=
  one_of arg [lit "-C"; lit "-c"; lit "--config-env"; lit "--exec-path"; lit "--git-dir";
              lit "--namespace"; lit "--super-prefix"; lit "--work-tree"].

Definition INLINE_VALUE_PREFIXES : list str :=
  [lit "--config-env="; lit "--exec-path="; lit "--git-dir="; lit "--namespace=";
   lit "--super-prefix="; lit "--work-tree="].

Definition is_git_global_option_with_inline_value (arg : str) : bool :=
  existsb (starts_with arg) INLINE_VALUE_PREFIXES
  || (starts_with arg (lit "-C") || starts_with arg (lit "-c")) && (2 <? byte_len arg)%nat.

Definition git_global_option_requires_prompt (arg : str) : bool :=
  one_of arg [lit "-c"; lit "--config-env"; lit "--exec-path"; lit "--git-dir";
              lit "--namespace"; lit "--super-prefix"; lit "--work-tree"]
  || starts_with arg (lit "-c") && (2 <? byte_len arg)%nat
  || existsb (starts_with arg) INLINE_VALUE_PREFIXES.

(** The loop of [find_git_subcommand] over the arguments from [idx]. *)
Fixpoint find_git_subcommand_from (args : list str) (idx : nat) (skip_next : bool)
    (subcommands : list str) : option (nat * str) :=
  match args with
  | [] => None
  | arg :: args =>
      if skip_next then find_git_subcommand_from args (S idx) false subcommands
      else if is_git_global_option_with_inline_value arg
      then find_git_subcommand_from args (S idx) false subcommands
      else if is_git_global_option_with_value arg
      then find_git_subcommand_from args (S idx) true subcommands
      else if (arg =? lit "--") || starts_with arg (lit "-")
      then find_git_subcommand_from args (S idx) false subcommands
      else if one_of arg subcommands then Some (idx, arg)
      else None
  end.

Definition find_git_subcommand (command subcommands : list str) : option (nat * str) :=
  match command with
  | [] => None
  | cmd0 :: args =>
      if negb (bool_decide (executable_name_lookup_key cmd0 = Some (lit "git"))) then None
      else find_git_subcommand_from args 1 false subcommands
  end.

Fixpoint is_dangerous_to_call_with_exec (command : list str) : bool :=
  match command with
  | [] => false
  | cmd0 :: args =>
      if cmd0 =? lit "rm" then
        match args with arg :: _ => one_of arg [lit "-f"; lit "-rf"] | [] => false end
      else if cmd0 =? lit "sudo" then is_dangerous_to_call_with_exec args
      else false
  end.

(** ** [windows_safe_commands.rs], which runs on every platform *)

Inductive PowershellParseOutcome : Type :=
| Commands (commands : list (list str))
| Unsupported
| Failed.

(** The parser process's answer: [status] and [commands]. *)
Definition into_outcome (status : str) (commands : option (list (list str))) : PowershellParseOutcome :=
  if status =? lit "ok" then
    match commands with
    | Some commands =>
        if negb (is_empty commands)
           && forallb (fun cmd => negb (is_empty cmd) && forallb (fun word => negb (is_empty word)) cmd)
                commands
        then Commands commands else Unsupported
    | None => Unsupported
    end
  else if status =? lit "unsupported" then Unsupported
  else Failed.

Definition is_powershell_executable (exe : str) : bool :=
  let executable_name :=
    to_ascii_lowercase (match file_name exe with Some name => name | None => exe end) in
  one_of executable_name [lit "powershell"; lit "powershell.exe"; lit "pwsh"; lit "pwsh.exe"].

(** [s.replace(c, with)] for one character *)
Definition replace_char (c : N) (by_ : str) (s : str) : str :=
  concat (map (fun x => if N.eqb x c then by_ else [x]) s).

Definition quote_argument (arg : str) : str :=
  if is_empty arg then lit "''"
  else if forallb (fun ch => negb (is_whitespace ch)) arg then arg
  else lit "'" ++ replace_char (ch "'") (lit "''") arg ++ lit "'".

Definition join_arguments_as_script (args : list str) : str :=
  match args with
  | first :: rest => join (lit " ") (first :: map quote_argument rest)
  | [] => []
  end.

Definition SIDE_EFFECT_CMDLETS : list str :=
  [lit "set-content"; lit "add-content"; lit "out-file"; lit "new-item"; lit "remove-item";
   lit "move-item"; lit "copy-item"; lit "rename-item"; lit "start-process"; lit "stop-process"].

Definition is_paren (c : N) : bool := N.eqb c (ch "(") || N.eqb c (ch ")").

Definition powershell_word_key (w : str) : str :=
  to_ascii_lowercase
    (trim_start_matches (N.eqb (ch "-"))
       (trim_start_matches is_paren (trim_end_matches is_paren w))).

Definition is_safe_ripgrep (words : list str) : bool :=
  negb (existsb (fun arg =>
    let arg_lc := to_ascii_lowercase arg in
    one_of arg_lc [lit "--search-zip"; lit "-z"]
    || existsb (fun opt => (arg_lc =? opt) || starts_with arg_lc (opt ++ lit "="))
         [lit "--pre"; lit "--hostname-bin"]) (tail words)).

Fixpoint safe_git_args (args : list str) : bool :=
  match args with
  | [] => false
  | arg :: args =>
      let arg_lc := to_ascii_lowercase arg in
      if starts_with arg (lit "-") then
        if git_global_option_requires_prompt arg_lc
           || eq_ignore_ascii_case arg (lit "--config")
           || starts_with arg_lc (lit "--config=")
        then false
        else safe_git_args args
      else one_of arg_lc [lit "status"; lit "log"; lit "show"; lit "diff"; lit "cat-file"]
  end.

Definition is_safe_git_command (words : list str) : bool := safe_git_args (tail words).

Definition READ_ONLY_CMDLETS : list str :=
  [lit "echo"; lit "write-output"; lit "write-host"; lit "dir"; lit "ls"; lit "get-childitem";
   lit "gci"; lit "cat"; lit "type"; lit "gc"; lit "get-content"; lit "select-string"; lit "sls";
   lit "findstr"; lit "measure-object"; lit "measure"; lit "get-location"; lit "gl"; lit "pwd";
   lit "test-path"; lit "tp"; lit "resolve-path"; lit "rvpa"; lit "select-object"; lit "select";
   lit "get-item"].

Definition is_safe_powershell_command (words : list str) : bool :=
  match words with
  | [] => false
  | word0 :: _ =>
      if existsb (fun w => one_of (powershell_word_key w) SIDE_EFFECT_CMDLETS) words then false
      else
        let command := powershell_word_key word0 in
        if one_of command READ_ONLY_CMDLETS then true
        else if command =? lit "git" then is_safe_git_command words
        else if command =? lit "rg" then is_safe_ripgrep words
        else false
  end.

(** ** [is_safe_command.rs] *)

Fixpoint git_branch_flags (branch_args : list str) (saw_read_only_flag : bool) : bool :=
  match branch_args with
  | [] => saw_read_only_flag
  | arg :: branch_args =>
      if one_of arg [lit "--list"; lit "-l"; lit "--show-current"; lit "-a"; lit "--all"; lit "-r";
                     lit "--remotes"; lit "-v"; lit "-vv"; lit "--verbose"]
      then git_branch_flags branch_args true
      else if starts_with arg (lit "--format=") then git_branch_flags branch_args true
      else false
  end.

Definition git_branch_is_read_only (branch_args : list str) : bool :=
  if is_empty branch_args then true else git_branch_flags branch_args false.

Definition git_has_unsafe_global_option (command : list str) : bool :=
  existsb git_global_option_requires_prompt (tail command).

Definition UNSAFE_GIT_FLAGS : list str :=
  [lit "--output"; lit "--ext-diff"; lit "--textconv"; lit "--exec"; lit "--paginate"].

Definition git_subcommand_args_are_read_only (args : list str) : bool :=
  negb (existsb (fun arg => one_of arg UNSAFE_GIT_FLAGS || starts_with arg (lit "--output=")
                            || starts_with arg (lit "--exec=")) args).

Definition is_valid_sed_n_arg (arg : option str) : bool :=
  match arg with
  | None => false
  | Some s =>
      match strip_suffix (lit "p") s with
      | None => false
      | Some core =>
          match split_char (ch ",") core with
          | [num] => negb (is_empty num) && forallb is_ascii_digit num
          | [a; b] => negb (is_empty a) && negb (is_empty b) && forallb is_ascii_digit a
                      && forallb is_ascii_digit b
          | _ => false
          end
      end
  end.

Definition SAFE_EXECUTABLES : list str :=
  [lit "cat"; lit "cd"; lit "cut"; lit "echo"; lit "expr"; lit "false"; lit "grep"; lit "head";
   lit "id"; lit "ls"; lit "nl"; lit "paste"; lit "pwd"; lit "rev"; lit "seq"; lit "stat";
   lit "tail"; lit "tr"; lit "true"; lit "uname"; lit "uniq"; lit "wc"; lit "which"; lit "whoami"].

Definition UNSAFE_FIND_OPTIONS : list str :=
  [lit "-exec"; lit "-execdir"; lit "-ok"; lit "-okdir"; lit "-delete"; lit "-fls"; lit "-fprint";
   lit "-fprint0"; lit "-fprintf"].

Definition base64_is_safe (command : list str) : bool :=
  negb (existsb (fun arg => one_of arg [lit "-o"; lit "--output"]
                            || starts_with arg (lit "--output=")
                            || starts_with arg (lit "-o") && negb (arg =? lit "-o")) (tail command)).

Definition rg_is_safe (command : list str) : bool :=
  negb (existsb (fun arg =>
    one_of arg [lit "--search-zip"; lit "-z"]
    || existsb (fun opt => (arg =? opt) || starts_with arg (opt ++ lit "="))
         [lit "--pre"; lit "--hostname-bin"]) command).

Definition git_is_safe (command : list str) : bool :=
  if git_has_unsafe_global_option command then false
  else
    match find_git_subcommand command
            [lit "status"; lit "log"; lit "diff"; lit "show"; lit "branch"] with
    | None => false
    | Some (subcommand_idx, subcommand) =>
        let subcommand_args := drop (subcommand_idx + 1) command in
        if one_of subcommand [lit "status"; lit "log"; lit "diff"; lit "show"]
        then git_subcommand_args_are_read_only subcommand_args
        else if subcommand =? lit "branch"
        then git_subcommand_args_are_read_only subcommand_args
             && git_branch_is_read_only subcommand_args
        else false
    end.

Definition is_safe_to_call_with_exec (command : list str) : bool :=
  match command with
  | [] => false
  | cmd0 :: _ =>
      match executable_name_lookup_key cmd0 with
      | None => false
      | Some cmd =>
          if one_of cmd [lit "numfmt"; lit "tac"] then true
          else if one_of cmd SAFE_EXECUTABLES then true
          else if cmd =? lit "base64" then base64_is_safe command
          else if cmd =? lit "find"
          then negb (existsb (fun arg => one_of arg UNSAFE_FIND_OPTIONS) command)
          else if cmd =? lit "rg" then rg_is_safe command
          else if cmd =? lit "git" then git_is_safe command
          else if cmd =? lit "sed"
          then (length command <=? 4)%nat && bool_decide (command !! 1 = Some (lit "-n"))
               && is_valid_sed_n_arg (command !! 2)
          else false
      end
  end.

Section parsers.
(** tree-sitter's bash parser, and the PowerShell process that parses a
    script for an executable. *)
Context (try_parse_shell : str -> option Tree).
Context (parse_with_powershell_ast : str -> str -> PowershellParseOutcome).

Definition parse_powershell_script (executable script : str) : option (list (list str)) :=
  match parse_with_powershell_ast executable script with
  | Commands commands => Some commands
  | Unsupported | Failed => None
  end.

(** The loop of [parse_powershell_invocation] over [args[idx..]]. *)
Fixpoint parse_powershell_args (executable : str) (args : list str) : option (list (list str)) :=
  match args with
  | [] => None
  | arg :: rest =>
      let lower := to_ascii_lowercase arg in
      if one_of lower [lit "-command"; lit "/command"; lit "-c"] then
        match rest with
        | [script] => parse_powershell_script executable script
        | _ => None
        end
      else if starts_with lower (lit "-command:") || starts_with lower (lit "/command:") then
        if negb (is_empty rest) then None
        else match split_once (ch ":") arg with
             | Some (_, script) => parse_powershell_script executable script
             | None => None
             end
      else if one_of lower [lit "-nologo"; lit "-noprofile"; lit "-noninteractive"; lit "-mta"; lit "-sta"]
      then parse_powershell_args executable rest
      else if one_of lower [lit "-encodedcommand"; lit "-ec"; lit "-file"; lit "/file";
                            lit "-windowstyle"; lit "-executionpolicy"; lit "-workingdirectory"]
      then None
      else if starts_with lower (lit "-") then None
      else parse_powershell_script executable (join_arguments_as_script args)
  end.

Definition try_parse_powershell_command_sequence (command : list str) : option (list (list str)) :=
  match command with
  | [] => None
  | exe :: rest =>
      if is_powershell_executable exe then parse_powershell_args exe rest else None
  end.

Definition is_safe_command_windows (command : list str) : bool :=
  match try_parse_powershell_command_sequence command with
  | Some commands => forallb is_safe_powershell_command commands
  | None => false
  end.

(** The result of a walk that is never out of fuel. *)
Definition plain_commands (command : list str) : option (list (list str)) :=
  match parse_shell_lc_plain_commands try_parse_shell command with Some r => r | None => None end.

Definition command_might_be_dangerous (command : list str) : bool :=
  if is_dangerous_to_call_with_exec command then true
  else match plain_commands command with
       | Some all_commands => existsb is_dangerous_to_call_with_exec all_commands
       | None => false
       end.

Definition zsh_to_bash (s : str) : str := if s =? lit "zsh" then lit "bash" else s.

Definition is_known_safe_command (command : list str) : bool :=
  let command := map zsh_to_bash command in
  if is_safe_command_windows command then true
  else if is_safe_to_call_with_exec command then true
  else match plain_commands command with
       | Some all_commands =>
           negb (is_empty all_commands) && forallb is_safe_to_call_with_exec all_commands
       | None => false
       end.
End parsers.

(** ** Shell detection looks at the start of the file name *)

Definition shell_names : list (str * ShellType) :=
  [(lit "zsh", Zsh); (lit "sh", Sh); (lit "cmd", ShCmd); (lit "bash", Bash);
   (lit "pwsh", ShPowerShell); (lit "powershell", ShPowerShell)].

Lemma detect_shell_type_name p t : detect_shell_type p = Some t ->
  exists name r, (name, t) ∈ shell_names /\ file_name p = Some (name ++ r).
Proof.
  unfold detect_shell_type. generalize (S (length p)) as fuel. intros fuel. revert p.
  induction fuel as [|fuel IH]; intros p; cbn [detect_shell_type_fuel]; [done|].
  assert (forall name, (name, t) ∈ shell_names -> bool_decide (good_seg name) = true -> p = name ->
            exists name r, (name, t) ∈ shell_names /\ file_name p = Some (name ++ r)) as Hlit.
  { intros name Hin Hg%bool_decide_eq_true ->. exists name, []. rewrite app_nil_r.
    split; [done|by apply file_name_of_seg]. }
  do 6 (case_bool_decide as Hp;
    [intros [= <-]; refine (Hlit _ _ _ Hp);
       [apply list_elem_of_In; simpl; tauto|vm_compute; reflexivity]|clear Hp]).
  destruct (file_stem p) as [s|] eqn:Es; [|done]. destruct (negb _); [|done].
  intros H. apply IH in H as (name & r & Hin & Hf). apply file_stem_prefix in Es as (r' & Hp' & Hne & Hsep).
  apply file_name_no_sep_id in Hf as <-; [|done].
  exists name, (r ++ r'). split; [done|]. by rewrite Hp', app_assoc.
Qed.

(** ** Safe and dangerous exclude each other *)

(** A shell whose script [bash.rs] reads. *)
Lemma extract_bash_shell command shell script :
  extract_bash_command command = Some (shell, script) ->
  exists flag name r, command = [shell; flag; script]
    /\ name ∈ [lit "zsh"; lit "bash"; lit "sh"] /\ file_name shell = Some (name ++ r).
Proof.
  unfold extract_bash_command. destruct command as [|sh [|fl [|sc [|]]]]; try done.
  destruct (negb (one_of fl _)); cbn [orb]; [done|].
  destruct (detect_shell_type sh) as [t|] eqn:E; [|done].
  apply detect_shell_type_name in E as (name & r & Hin & Hf).
  destruct t; try done; cbn [negb]; intros [= <- <-]; exists fl, name, r; (split; [done|]);
    (split; [|done]); apply list_elem_of_In in Hin; apply list_elem_of_In; simpl in *;
    intuition congruence.
Qed.

Definition all_safe_names : list str :=
  [lit "numfmt"; lit "tac"] ++ SAFE_EXECUTABLES ++ [lit "base64"; lit "find"; lit "rg"; lit "git"; lit "sed"].

Lemma safe_exec_name cmd0 args :
  is_safe_to_call_with_exec (cmd0 :: args) = true ->
  exists f, file_name cmd0 = Some f /\ f ∈ all_safe_names.
Proof.
  cbn [is_safe_to_call_with_exec]. unfold executable_name_lookup_key.
  destruct (file_name cmd0) as [f|]; [|done]. intros H. exists f. split; [done|].
  unfold all_safe_names. rewrite !elem_of_app.
  destruct (one_of f [lit "numfmt"; lit "tac"]) eqn:E1; [left; by apply one_of_In|].
  destruct (one_of f SAFE_EXECUTABLES) eqn:E2; [right; left; by apply one_of_In|].
  right; right. apply one_of_In. revert H.
  repeat (case_bool_decide as Hf; [intros _; subst f; reflexivity|clear Hf]). done.
Qed.

(** None of the names on the safe list is a shell's, [rm] or [sudo]. *)
Lemma all_safe_names_plain f : f ∈ all_safe_names ->
  forallb (fun name => negb (starts_with f name)) [lit "zsh"; lit "bash"; lit "sh"; lit "rm"; lit "sudo"] = true.
Proof.
  assert (forallb (fun f => forallb (fun name => negb (starts_with f name))
    [lit "zsh"; lit "bash"; lit "sh"; lit "rm"; lit "sudo"]) all_safe_names = true) as H
    by (vm_compute; reflexivity).
  intros Hf. rewrite forallb_forall in H. by apply H, list_elem_of_In.
Qed.

(** A program that is neither a shell, nor [rm], nor [sudo]. *)
Definition plain_program (cmd0 : str) : Prop :=
  exists f, file_name cmd0 = Some f
  /\ forallb (fun name => negb (starts_with f name)) [lit "zsh"; lit "bash"; lit "sh"; lit "rm"; lit "sudo"] = true.

Lemma safe_exec_plain cmd0 args :
  is_safe_to_call_with_exec (cmd0 :: args) = true -> plain_program cmd0.
Proof. intros (f & Hf & Hin)%safe_exec_name. exists f. split; [done|by apply all_safe_names_plain]. Qed.

Definition powershell_names : list str :=
  [lit "powershell"; lit "powershell.exe"; lit "pwsh"; lit "pwsh.exe"].
Definition risky_names : list str := [lit "zsh"; lit "bash"; lit "sh"; lit "rm"; lit "sudo"].

(** A finite check on names, as a fact about each. *)
Lemma forallb_at {A} (f : A -> bool) l x : forallb f l = true -> x ∈ l -> f x = true.
Proof. intros H Hx. rewrite forallb_forall in H. by apply H, list_elem_of_In. Qed.

Lemma powershell_names_good t : t ∈ powershell_names -> good_seg t.
Proof.
  revert t. apply Forall_forall.
  repeat (apply Forall_cons; split; [apply (bool_decide_eq_true_1 (good_seg _)); vm_compute; reflexivity|]).
  constructor.
Qed.

Lemma risky_names_lower name : name ∈ risky_names -> to_ascii_lowercase name = name.
Proof. revert name. apply Forall_forall. repeat constructor. Qed.

Lemma powershell_file_name exe : is_powershell_executable exe = true ->
  exists f, file_name exe = Some f /\ to_ascii_lowercase f ∈ powershell_names.
Proof.
  unfold is_powershell_executable. intros H%one_of_In.
  destruct (file_name exe) as [f|] eqn:E; [by exists f|]. exfalso.
  assert (good_seg exe) as Hg; [|by rewrite file_name_of_seg in E].
  apply powershell_names_good in H as (Hne & Hsep & Hd & Hdd). split_and!.
  - by intros ->.
  - intros Hin. apply Hsep. unfold to_ascii_lowercase. change SEP with (to_ascii_lowercase_char SEP).
    apply list_elem_of_In, in_map. by apply list_elem_of_In.
  - by intros ->.
  - by intros ->.
Qed.

Lemma powershell_plain exe : is_powershell_executable exe = true -> plain_program exe.
Proof.
  intros (f & Hf & Hl)%powershell_file_name. exists f. split; [done|].
  fold risky_names. apply forallb_forall. intros name Hname%list_elem_of_In.
  apply negb_true_iff, not_true_iff_false. rewrite starts_with_true. intros [r ->].
  pose proof (forallb_at (fun l => forallb (fun n => negb (starts_with l n)) risky_names)
                powershell_names _ ltac:(vm_compute; reflexivity) Hl) as H.
  pose proof (forallb_at _ _ _ H Hname) as Hn. apply negb_true_iff in Hn.
  unfold to_ascii_lowercase in *. rewrite map_app in Hn.
  fold (to_ascii_lowercase name) in Hn. rewrite risky_names_lower in Hn by done.
  assert (starts_with (name ++ map to_ascii_lowercase_char r) name = true) by (apply starts_with_true; eauto).
  congruence.
Qed.

Lemma plain_program_not_dangerous cmd0 args :
  plain_program cmd0 -> is_dangerous_to_call_with_exec (cmd0 :: args) = false.
Proof.
  intros (f & Hf & Hn). cbn [is_dangerous_to_call_with_exec].
  assert (forall name, name ∈ risky_names -> file_name name = Some name -> cmd0 <> name) as H.
  { intros name Hin Hfn ->. rewrite Hfn in Hf. injection Hf as <-.
    apply (forallb_at _ _ name) in Hn; [|done]. apply negb_true_iff, not_true_iff_false in Hn.
    apply Hn, starts_with_true. exists []. by rewrite app_nil_r. }
  rewrite !bool_decide_eq_false_2; [done|..];
    apply H; try (vm_compute; reflexivity); apply list_elem_of_In; simpl; tauto.
Qed.

Lemma plain_program_no_script cmd0 args :
  plain_program cmd0 -> extract_bash_command (cmd0 :: args) = None.
Proof.
  intros (f & Hf & Hn). destruct (extract_bash_command (cmd0 :: args)) as [[shell script]|] eqn:E; [|done].
  apply extract_bash_shell in E as (flag & name & r & [= -> _] & Hin & Hs).
  rewrite Hf in Hs. injection Hs as ->.
  assert (name ∈ risky_names) as Hr by (apply list_elem_of_In in Hin; apply list_elem_of_In; simpl in *; tauto).
  apply (forallb_at _ _ name) in Hn; [|done]. apply negb_true_iff, not_true_iff_false in Hn.
  exfalso. apply Hn, starts_with_true. eauto.
Qed.

Lemma plain_program_harmless try_parse_shell cmd0 args :
  plain_program cmd0 -> command_might_be_dangerous try_parse_shell (cmd0 :: args) = false.
Proof.
  intros H. unfold command_might_be_dangerous, plain_commands, parse_shell_lc_plain_commands.
  by rewrite plain_program_not_dangerous, plain_program_no_script.
Qed.

(** Renaming [zsh] changes neither a plain program nor what script a shell
    command carries. *)
Lemma plain_program_zsh cmd0 : plain_program (zsh_to_bash cmd0) -> zsh_to_bash cmd0 = cmd0.
Proof.
  unfold zsh_to_bash. case_bool_decide as Hz; [|done]. intros (f & Hf & Hn).
  vm_compute in Hf. injection Hf as <-. by vm_compute in Hn.
Qed.

Lemma extract_bash_zsh command shell script :
  command !! 2 <> Some (lit "zsh") ->
  extract_bash_command (map zsh_to_bash command) = Some (shell, script) ->
  exists shell0 flag, command = [shell0; flag; script]
    /\ extract_bash_command command = Some (shell0, script)
    /\ exists name r, name ∈ [lit "zsh"; lit "bash"; lit "sh"] /\ file_name shell0 = Some (name ++ r).
Proof.
  intros Hz H. pose proof (extract_bash_shell _ _ _ H) as (flag & name & r & Hc & Hin & Hf).
  destruct command as [|c0 [|c1 [|c2 [|]]]]; try done. cbn [map] in *. injection Hc as Hs Hfl Hsc.
  assert (zsh_to_bash c2 = c2) as H2.
  { unfold zsh_to_bash. case_bool_decide; [|done]. subst c2. by destruct Hz. }
  assert (c2 = script) as -> by congruence.
  assert (zsh_to_bash c1 = c1) as H1.
  { destruct (decide (c1 = lit "zsh")) as [->|Hne]; [|by unfold zsh_to_bash; rewrite bool_decide_eq_false_2].
    exfalso. revert H. unfold extract_bash_command.
    by replace (one_of (zsh_to_bash (lit "zsh")) [lit "-lc"; lit "-c"]) with false by reflexivity. }
  exists c0, c1. split; [done|]. rewrite H1, H2 in H. unfold zsh_to_bash in H, Hs.
  case_bool_decide as H0.
  - subst c0. split.
    + revert H. unfold extract_bash_command. destruct (negb _); [done|].
      intros _. cbn [orb].
      by replace (detect_shell_type (lit "zsh")) with (Some Zsh) by (vm_compute; reflexivity).
    + exists (lit "zsh"), []. split; [apply list_elem_of_In; simpl; tauto|by vm_compute].
  - subst c0. split; [exact H|]. eauto.
Qed.

(** ** The properties *)

(** No command is both run without asking and held back as dangerous,
    whatever the bash grammar and the PowerShell parser answer (the script
    itself not being the single word [zsh], which the check for safe commands
    rewrites). *)
Theorem safe_not_dangerous (try_parse_shell : str -> option Tree)
    (parse_with_powershell_ast : str -> str -> PowershellParseOutcome) (command : list str) :
  command !! 2 <> Some (lit "zsh") ->
  is_known_safe_command try_parse_shell parse_with_powershell_ast command = true ->
  command_might_be_dangerous try_parse_shell command = false.
Proof.
  intros Hz. unfold is_known_safe_command. destruct command as [|c0 args]; [done|].
  destruct (is_safe_command_windows _ _) eqn:Hw; [intros _|
    destruct (is_safe_to_call_with_exec _) eqn:He; [intros _|]].
  - unfold is_safe_command_windows, try_parse_powershell_command_sequence in Hw. cbn [map] in Hw.
    destruct (is_powershell_executable (zsh_to_bash c0)) eqn:Hp; [|done].
    apply powershell_plain in Hp. rewrite plain_program_zsh in Hp by done.
    by apply plain_program_harmless.
  - cbn [map] in He. apply safe_exec_plain in He. rewrite plain_program_zsh in He by done.
    by apply plain_program_harmless.
  - unfold command_might_be_dangerous, plain_commands, parse_shell_lc_plain_commands.
    destruct (extract_bash_command (map zsh_to_bash (c0 :: args))) as [[shell script]|] eqn:E; [|done].
    destruct (extract_bash_zsh _ _ _ Hz E) as (shell0 & flag & Hc & -> & name & r & Hin & Hf).
    destruct (try_parse_shell script) as [tree|]; [|done].
    destruct (try_parse_word_only_commands_sequence tree) as [[cmds|]|]; [|done..].
    intros [_ Hall]%andb_true_iff. injection Hc as -> ->.
    assert (is_dangerous_to_call_with_exec [shell0; flag; script] = false) as ->.
    { cbn [is_dangerous_to_call_with_exec].
      assert (shell0 <> lit "rm" /\ shell0 <> lit "sudo") as [Hrm Hsudo].
      { apply list_elem_of_In in Hin. simpl in Hin.
        split; intros ->; vm_compute in Hf; intuition (subst; discriminate). }
      by rewrite !bool_decide_eq_false_2. }
    apply not_true_iff_false. intros (cmd & Hcmd & Hd)%existsb_exists.
    rewrite forallb_forall in Hall. specialize (Hall _ Hcmd).
    destruct cmd as [|x cmd]; [done|]. apply safe_exec_plain in Hall.
    by rewrite plain_program_not_dangerous in Hd.
Qed.

Definition sample_parser (script : str) : option Tree :=
  if script =? lit "ls" then
    Some (mkTree (mkNode (lit "program") true 0 (Ok (lit "ls")) [simple_command 0 "ls" []]) false)
  else None.

Lemma safe_not_dangerous_witness :
  is_known_safe_command sample_parser (fun _ _ => Failed) [lit "zsh"; lit "-lc"; lit "ls"] = true
  /\ command_might_be_dangerous sample_parser [lit "zsh"; lit "-lc"; lit "ls"] = false.
Proof.
  split; [vm_compute; reflexivity|].
  apply (safe_not_dangerous sample_parser (fun _ _ => Failed)); [by vm_compute|vm_compute; reflexivity].
Defined.

(** What is dangerous by its first words is not known to be safe. *)
Lemma dangerous_exec_not_safe try_parse_shell parse_with_powershell_ast command :
  is_dangerous_to_call_with_exec command = true ->
  is_known_safe_command try_parse_shell parse_with_powershell_ast command = false.
Proof.
  destruct command as [|c0 args]; [done|]. intros Hd.
  assert (c0 = lit "rm" \/ c0 = lit "sudo") as Hc.
  { cbn [is_dangerous_to_call_with_exec] in Hd.
    case_bool_decide; [by left|]. case_bool_decide; [by right|done]. }
  assert (zsh_to_bash c0 = c0) as Hz by (destruct Hc as [-> | ->]; vm_compute; reflexivity).
  assert (is_powershell_executable c0 = false) as Hp by (destruct Hc as [-> | ->]; vm_compute; reflexivity).
  assert (forall args, is_safe_to_call_with_exec (c0 :: args) = false) as He.
  { intros l. apply not_true_iff_false. intros H%safe_exec_plain.
    by rewrite plain_program_not_dangerous in Hd. }
  assert (forall args, extract_bash_command (c0 :: args) = None) as Hx.
  { intros l. unfold extract_bash_command. destruct l as [|fl [|sc [|]]]; try done.
    assert (detect_shell_type c0 = None) as -> by (destruct Hc as [-> | ->]; vm_compute; reflexivity).
    by destruct (negb _). }
  unfold is_known_safe_command, is_safe_command_windows, try_parse_powershell_command_sequence.
  cbn [map]. rewrite Hz, Hp, He. unfold plain_commands, parse_shell_lc_plain_commands. by rewrite Hx.
Qed.

(** Options before a git subcommand: each starts with a dash, and those of the
    form [-C DIR] are followed by their value. *)
Inductive git_options : list str -> Prop :=
| git_options_nil : git_options []
| git_options_flag o opts : starts_with o (lit "-") = true -> git_options opts -> git_options (o :: opts)
| git_options_value o v opts :
    is_git_global_option_with_value o = true -> git_options opts -> git_options (o :: v :: opts)
| git_options_last o : is_git_global_option_with_value o = true -> git_options [o].

Lemma inline_value_dash arg :
  is_git_global_option_with_inline_value arg = true -> starts_with arg (lit "-") = true.
Proof.
  assert (forall p, starts_with p (lit "-") = true -> starts_with arg p = true ->
            starts_with arg (lit "-") = true) as Hp.
  { intros p. rewrite !starts_with_true. intros [r ->] [r' ->]. exists (r ++ r'). by rewrite app_assoc. }
  unfold is_git_global_option_with_inline_value. intros [H|H]%orb_true_iff.
  - apply existsb_exists in H as (p & Hin & Hs). eapply Hp; [|exact Hs].
    apply (forallb_at (fun p => starts_with p (lit "-")) INLINE_VALUE_PREFIXES);
      [vm_compute; reflexivity|by apply list_elem_of_In].
  - apply andb_true_iff in H as [[H|H]%orb_true_iff _]; eapply Hp; try exact H; vm_compute; reflexivity.
Qed.

Lemma find_git_from_spec args idx skip subs i sub :
  find_git_subcommand_from args idx skip subs = Some (i, sub) ->
  exists opts rest, args = opts ++ sub :: rest /\ i = (idx + length opts)%nat /\ sub ∈ subs
  /\ (if skip then exists v opts', opts = v :: opts' /\ git_options opts' else git_options opts).
Proof.
  revert idx skip. induction args as [|arg args IH]; intros idx skip;
    cbn [find_git_subcommand_from]; [done|].
  destruct skip.
  { intros (opts & rest & -> & -> & Hs & Ho)%IH. exists (arg :: opts), rest.
    split_and!; [done|simpl; lia|done|eauto]. }
  destruct (is_git_global_option_with_inline_value arg) eqn:Hi.
  { intros (opts & rest & -> & -> & Hs & Ho)%IH. exists (arg :: opts), rest.
    split_and!; [done|simpl; lia|done|]. constructor; [by apply inline_value_dash|done]. }
  destruct (is_git_global_option_with_value arg) eqn:Hv.
  { intros (opts & rest & -> & -> & Hs & v & opts' & -> & Ho)%IH. exists (arg :: v :: opts'), rest.
    split_and!; [done|simpl; lia|done|by constructor]. }
  destruct (bool_decide (arg = lit "--") || starts_with arg (lit "-")) eqn:Hd.
  { intros (opts & rest & -> & -> & Hs & Ho)%IH. exists (arg :: opts), rest.
    split_and!; [done|simpl; lia|done|]. constructor; [|done].
    apply orb_true_iff in Hd as [->%bool_decide_eq_true|Hd]; [vm_compute; reflexivity|done]. }
  destruct (one_of arg subs) eqn:Ho; [|done]. intros [= <- <-]. exists [], args.
  split_and!; [done|simpl; lia|by apply one_of_In|constructor].
Qed.

(** A git command that runs without asking names, as its first word that
    is not an option, one of five subcommands; no word of the whole command
    overrides git's configuration or repository; no argument of the
    subcommand writes a file or runs a program; and [git branch] only gets
    flags that list. *)
Theorem safe_git_spec (cmd0 : str) (args : list str) :
  file_name cmd0 = Some (lit "git") ->
  is_safe_to_call_with_exec (cmd0 :: args) = true ->
  exists opts sub rest,
    args = opts ++ sub :: rest /\ git_options opts
    /\ sub ∈ [lit "status"; lit "log"; lit "diff"; lit "show"; lit "branch"]
    /\ Forall (fun a => git_global_option_requires_prompt a = false) args
    /\ Forall (fun a => a ∉ UNSAFE_GIT_FLAGS /\ starts_with a (lit "--output=") = false
                        /\ starts_with a (lit "--exec=") = false) rest
    /\ (sub = lit "branch" -> git_branch_is_read_only rest = true).
Proof.
  intros Hf H. cbn [is_safe_to_call_with_exec] in H. unfold executable_name_lookup_key in H.
  rewrite Hf in H. change (git_is_safe (cmd0 :: args) = true) in H.
  unfold git_is_safe in H. destruct (git_has_unsafe_global_option (cmd0 :: args)) eqn:Hg; [done|].
  unfold find_git_subcommand, executable_name_lookup_key in H.
  rewrite Hf, bool_decide_eq_true_2 in H by done. cbn [negb] in H.
  destruct (find_git_subcommand_from _ _ _ _) as [[i sub]|] eqn:E; [|done].
  apply find_git_from_spec in E as (opts & rest & -> & -> & Hs & Ho).
  exists opts, sub, rest.
  assert (drop (1 + length opts + 1) (cmd0 :: opts ++ sub :: rest) = rest) as Hdrop.
  { replace (1 + length opts + 1)%nat with (S (length opts + 1)) by lia. cbn [drop].
    rewrite drop_app_ge by lia. by replace (length opts + 1 - length opts)%nat with 1%nat by lia. }
  rewrite Hdrop in H.
  assert (git_subcommand_args_are_read_only rest = true
          /\ (sub = lit "branch" -> git_branch_is_read_only rest = true)) as [Hro Hbr].
  { destruct (one_of sub _) eqn:E4.
    - split; [done|]. intros ->. by vm_compute in E4.
    - case_bool_decide; [|done]. by apply andb_true_iff in H as [? ?]. }
  split_and!; [done..| | |done].
  - apply Forall_forall. intros a Ha. apply not_true_iff_false. intros Hr.
    apply not_true_iff_false in Hg. apply Hg. unfold git_has_unsafe_global_option. cbn [tail].
    apply existsb_exists. exists a. split; [by apply list_elem_of_In|done].
  - apply Forall_forall. intros a Ha. unfold git_subcommand_args_are_read_only in Hro.
    apply negb_true_iff, not_true_iff_false in Hro.
    destruct (one_of a UNSAFE_GIT_FLAGS || starts_with a (lit "--output=") || starts_with a (lit "--exec=")) eqn:Ea.
    { exfalso. apply Hro, existsb_exists. exists a. split; [by apply list_elem_of_In|done]. }
    apply orb_false_iff in Ea as [[E1 E2]%orb_false_iff E3]. split_and!; [|done..].
    intros Hin. apply one_of_In in Hin. congruence.
Qed.

Lemma safe_git_spec_witness :
  exists opts sub rest,
    [lit "-C"; lit "dir"; lit "branch"; lit "-a"] = opts ++ sub :: rest /\ git_options opts
    /\ sub ∈ [lit "status"; lit "log"; lit "diff"; lit "show"; lit "branch"].
Proof.
  destruct (safe_git_spec (lit "/usr/bin/git") [lit "-C"; lit "dir"; lit "branch"; lit "-a"]
              ltac:(vm_compute; reflexivity) ltac:(vm_compute; reflexivity))
    as (opts & sub & rest & H1 & H2 & H3 & _).
  exists opts, sub, rest. exact (conj H1 (conj H2 H3)).
Defined.

(** The arguments [sed -n] may have are exactly the texts of the regular
    expression [^(\d+,)?\d+p$]. *)
Theorem sed_argument_spec (s : str) :
  is_valid_sed_n_arg (Some s) = true
  <-> exists a b, s = (match a with Some n => n ++ lit "," | None => [] end) ++ b ++ lit "p"
      /\ match a with Some n => n <> [] /\ forallb is_ascii_digit n = true | None => True end
      /\ b <> [] /\ forallb is_ascii_digit b = true.
Proof.
  assert (forall n, forallb is_ascii_digit n = true -> ch "," ∉ n) as Hdig.
  { intros n Hn Hin. rewrite forallb_forall in Hn. apply list_elem_of_In, Hn in Hin. done. }
  assert (forall l : str, negb (is_empty l) = true <-> l <> []) as Hne by (intros []; done).
  cbn [is_valid_sed_n_arg]. split.
  - destruct (strip_suffix (lit "p") s) as [core|] eqn:E; [|done]. apply strip_suffix_Some in E as ->.
    pose proof (split_char_Forall (ch ",") core) as Hs.
    destruct (split_char (ch ",") core) as [|a [|b [|]]] eqn:Ec; try done.
    + intros [Ha Hd]%andb_true_iff. rewrite Hne in Ha. exists None, a.
      rewrite <- (join_split_char (ch ",") core), Ec. split_and!; done.
    + rewrite !andb_true_iff, !Hne. intros [[[Ha Hb] Hda] Hdb]. exists (Some a), b.
      rewrite <- (join_split_char (ch ",") core), Ec. cbn [join]. rewrite <- !app_assoc. split_and!; done.
  - intros ([a|] & b & -> & Ha & Hb & Hd).
    + destruct Ha as [Ha Hda]. rewrite app_assoc.
      replace (strip_suffix _ _) with (Some ((a ++ lit ",") ++ b))
        by (symmetry; by apply strip_suffix_Some).
      change (lit ",") with [ch ","]. rewrite <- app_assoc. cbn [app].
      rewrite split_char_app_sep, split_char_none by auto.
      by rewrite !andb_true_iff, !Hne.
    + cbn [app]. replace (strip_suffix _ _) with (Some b) by (symmetry; by apply strip_suffix_Some).
      rewrite split_char_none by auto. by rewrite andb_true_iff, Hne.
Qed.

(** The PowerShell list of git commands does not look at the subcommand's
    arguments: writing a file is safe there and not in bash. *)
Example powershell_git_output :
  is_safe_powershell_command [lit "git"; lit "diff"; lit "--output=/etc/x"] = true
  /\ is_safe_to_call_with_exec [lit "git"; lit "diff"; lit "--output=/etc/x"] = false.
Proof. split; vm_compute; reflexivity. Qed.

(** [--paginate] starts the configured pager.  It is refused after the
    subcommand, but in front of it, where git takes it, it is not. *)
Example git_paginate_in_front :
  is_safe_to_call_with_exec (map lit ["git"; "--paginate"; "log"]) = true
  /\ is_safe_to_call_with_exec (map lit ["git"; "log"; "--paginate"]) = false.
Proof. split; vm_compute; reflexivity. Qed.
