(* ===== verification/ExecPolicy.v ===== *)
(** * The exec policy: [execpolicy/src/{decision,rule,policy,executable_name,error}.rs]

    Prefix rules keyed by their first token, the strictest decision among the
    matches, basename fallback for programs given by path, and network rules.
    [shlex] and the [Debug] rendering of rules are parameters. *)

From S2P Require Import Prelude Paths.
Local Open Scope str_scope.

(** ** [error.rs] *)

Record TextPosition : Type := mkTextPosition { tp_line : nat; tp_column : nat }.
Record TextRange : Type := mkTextRange { tr_start : TextPosition; tr_end : TextPosition }.
Record ErrorLocation : Type := mkErrorLocation { el_path : str; el_range : TextRange }.

Section error.
Context {StarlarkError : Type}.

Inductive Error : Type :=
| InvalidDecision (s : str)
| InvalidPattern (s : str)
| InvalidExample (s : str)
| InvalidRule (s : str)
| ExampleDidNotMatch (rules examples : list str) (location : option ErrorLocation)
| ExampleDidMatch (rule example : str) (location : option ErrorLocation)
| Starlark (e : StarlarkError).

Definition with_location (self : Error) (location : ErrorLocation) : Error :=
  match self with
  | ExampleDidNotMatch rules examples None => ExampleDidNotMatch rules examples (Some location)
  | ExampleDidMatch rule example None => ExampleDidMatch rule example (Some location)
  | other => other
  end.

(** [starlark_span] is the location of a Starlark error's span. *)
Definition location (starlark_span : StarlarkError -> option ErrorLocation) (self : Error)
  : option ErrorLocation :=
  match self with
  | ExampleDidNotMatch _ _ location | ExampleDidMatch _ _ location => location
  | Starlark err => starlark_span err
  | _ => None
  end.
End error.
Arguments Error StarlarkError : clear implicits.

(** ** [decision.rs] *)

Inductive Decision : Type := Allow | Prompt | Forbidden.

#[global] Instance decision_eq_dec : EqDecision Decision.
Proof. solve_decision. Defined.

(** The derived [Ord]. *)
Definition decision_rank (d : Decision) : nat :=
  match d with Allow => 0 | Prompt => 1 | Forbidden => 2 end.
Definition decision_max (a b : Decision) : Decision :=
  if (decision_rank a <=? decision_rank b)%nat then b else a.
Definition decision_le (a b : Decision) : Prop := decision_rank a <= decision_rank b.

Definition decision_parse {E} (raw : str) : result (Error E) Decision :=
  if raw =? lit "allow" then Ok Allow
  else if raw =? lit "prompt" then Ok Prompt
  else if raw =? lit "forbidden" then Ok Forbidden
  else Err (InvalidDecision raw).

(** ** [executable_name.rs] on Unix *)

Definition executable_lookup_key (raw : str) : str := raw.
Definition executable_path_lookup_key (path : str) : option str :=
  executable_lookup_key <$> file_name path.

(** ** [rule.rs] *)

Inductive PatternToken : Type :=
| Single (s : str)
| Alts (alternatives : list str).

#[global] Instance pattern_token_eq_dec : EqDecision PatternToken.
Proof. solve_decision. Defined.

Definition token_matches (self : PatternToken) (token : str) : bool :=
  match self with
  | Single expected => expected =? token
  | Alts alternatives => existsb (fun alt => alt =? token) alternatives
  end.

Definition alternatives (self : PatternToken) : list str :=
  match self with Single expected => [expected] | Alts alternatives => alternatives end.

Record PrefixPattern : Type := mkPattern { pat_first : str; pat_rest : list PatternToken }.

Definition matches_prefix (self : PrefixPattern) (cmd : list str) : option (list str) :=
  let pattern_length := S (length (pat_rest self)) in
  match cmd with
  | [] => None
  | cmd0 :: _ =>
      if (length cmd <? pattern_length)%nat || negb (cmd0 =? pat_first self) then None
      else if forallb (fun '(pattern_token, cmd_token) => token_matches pattern_token cmd_token)
                (zip (pat_rest self) (tail (take pattern_length cmd)))
      then Some (take pattern_length cmd)
      else None
  end.

Inductive RuleMatch : Type :=
| PrefixRuleMatch (matched_prefix : list str) (decision : Decision)
    (resolved_program : option str) (justification : option str)
| HeuristicsRuleMatch (command : list str) (decision : Decision).

#[global] Instance rule_match_eq_dec : EqDecision RuleMatch.
Proof. solve_decision. Defined.

Definition rule_match_decision (m : RuleMatch) : Decision :=
  match m with PrefixRuleMatch _ d _ _ => d | HeuristicsRuleMatch _ d => d end.

Definition with_resolved_program (m : RuleMatch) (resolved_program : str) : RuleMatch :=
  match m with
  | PrefixRuleMatch matched_prefix d _ justification =>
      PrefixRuleMatch matched_prefix d (Some resolved_program) justification
  | other => other
  end.

Record PrefixRule : Type := mkRule {
  pattern : PrefixPattern;
  rule_decision : Decision;
  rule_justification : option str;
}.

Definition program (r : PrefixRule) : str := pat_first (pattern r).

Definition rule_matches (self : PrefixRule) (cmd : list str) : option RuleMatch :=
  (fun matched_prefix => PrefixRuleMatch matched_prefix (rule_decision self) None (rule_justification self))
  <$> matches_prefix (pattern self) cmd.

Inductive NetworkRuleProtocol : Type := Http | Https | Socks5Tcp | Socks5Udp.

Definition protocol_parse {E} (raw : str) : result (Error E) NetworkRuleProtocol :=
  if raw =? lit "http" then Ok Http
  else if one_of raw [lit "https"; lit "https_connect"; lit "http-connect"] then Ok Https
  else if raw =? lit "socks5_tcp" then Ok Socks5Tcp
  else if raw =? lit "socks5_udp" then Ok Socks5Udp
  else Err (InvalidRule
         (lit "network_rule protocol must be one of http, https, socks5_tcp, socks5_udp (got "
          ++ raw ++ lit ")")).

Definition as_policy_string (p : NetworkRuleProtocol) : str :=
  match p with
  | Http => lit "http"
  | Https => lit "https"
  | Socks5Tcp => lit "socks5_tcp"
  | Socks5Udp => lit "socks5_udp"
  end.

Record NetworkRule : Type := mkNetworkRule {
  nr_host : str;
  nr_protocol : NetworkRuleProtocol;
  nr_decision : Decision;
  nr_justification : option str;
}.

(** [s.matches(c).count()] *)
Definition count_char (c : N) (s : str) : nat := length (List.filter (N.eqb c) s).

Definition all_digits (port : str) : bool := negb (is_empty port) && forallb is_ascii_digit port.

Definition normalize_network_rule_host {E} (raw : str) : result (Error E) str :=
  let host := trim raw in
  if is_empty host then Err (InvalidRule (lit "network_rule host cannot be empty"))
  else if contains host (lit "://") || contains_char host (ch "/") || contains_char host (ch "?")
          || contains_char host (ch "#")
  then Err (InvalidRule
         (lit "network_rule host must be a hostname or IP literal (without scheme or path)"))
  else
    host ←
      (match strip_prefix (lit "[") host with
       | Some stripped =>
           match split_once (ch "]") stripped with
           | None => Err (InvalidRule (lit "network_rule host has an invalid bracketed IPv6 literal"))
           | Some (inside, rest) =>
               let port_ok := match strip_prefix (lit ":") rest with
                              | Some port => all_digits port
                              | None => false
                              end in
               if negb (is_empty rest) && negb port_ok
               then Err (InvalidRule (lit "network_rule host contains an unsupported suffix: " ++ raw))
               else Ok inside
           end
       | None =>
           if (count_char (ch ":") host =? 1)%nat then
             match rsplit_once (ch ":") host with
             | Some (candidate, port) =>
                 if negb (is_empty candidate) && all_digits port then Ok candidate else Ok host
             | None => Ok host
             end
           else Ok host
       end);
    let normalized := to_ascii_lowercase (trim (trim_end_matches (N.eqb (ch ".")) host)) in
    if is_empty normalized then Err (InvalidRule (lit "network_rule host cannot be empty"))
    else if contains_char normalized (ch "*")
    then Err (InvalidRule
           (lit "network_rule host must be a specific host; wildcards are not allowed"))
    else if existsb is_whitespace normalized
    then Err (InvalidRule (lit "network_rule host cannot contain whitespace"))
    else Ok normalized.

(** ** [policy.rs] *)

Record MatchOptions : Type := mkMatchOptions { resolve_host_executables : bool }.
Definition match_options_default : MatchOptions := mkMatchOptions false.

(** A [MultiMap] keeps its values per key in insertion order. *)
Record Policy : Type := mkPolicy {
  rules_by_program : gmap str (list PrefixRule);
  network_rules : list NetworkRule;
  host_executables_by_name : gmap str (list str);
}.

Definition multimap_insert (k : str) (r : PrefixRule) (m : gmap str (list PrefixRule))
  : gmap str (list PrefixRule) := <[k := default [] (m !! k) ++ [r]]> m.

Definition policy_new (rules : gmap str (list PrefixRule)) : Policy := mkPolicy rules [] ∅.
Definition policy_empty : Policy := policy_new ∅.

Definition render_pattern_token (token : PatternToken) : str :=
  match token with
  | Single value => value
  | Alts alternatives => lit "[" ++ join (lit "|") alternatives ++ lit "]"
  end.

(** [Ord] on [Vec<String>] *)
Fixpoint strs_leb (a b : list str) : bool :=
  match a, b with
  | [], _ => true
  | _ :: _, [] => false
  | x :: a, y :: b => if x =? y then strs_leb a b else str_leb x y
  end.

Definition rendered_prefix (r : PrefixRule) : list str :=
  pat_first (pattern r) :: map render_pattern_token (pat_rest (pattern r)).

Definition get_allowed_prefixes (self : Policy) : list (list str) :=
  dedup (sort_by strs_leb
    (map rendered_prefix
       (List.filter (fun r => bool_decide (rule_decision r = Allow))
          (concat (map snd (map_to_list (rules_by_program self))))))).

Definition add_prefix_rule {E} (self : Policy) (prefix : list str) (decision : Decision)
  : result (Error E) Policy :=
  match prefix with
  | [] => Err (InvalidPattern (lit "prefix cannot be empty"))
  | first_token :: rest =>
      let rule := mkRule (mkPattern first_token (map Single rest)) decision None in
      Ok (mkPolicy (multimap_insert first_token rule (rules_by_program self))
            (network_rules self) (host_executables_by_name self))
  end.

Definition add_network_rule {E} (self : Policy) (host : str) (protocol : NetworkRuleProtocol)
    (decision : Decision) (justification : option str) : result (Error E) Policy :=
  host ← normalize_network_rule_host host;
  if match justification with Some raw => is_empty (trim raw) | None => false end
  then Err (InvalidRule (lit "justification cannot be empty"))
  else Ok (mkPolicy (rules_by_program self)
             (network_rules self ++ [mkNetworkRule host protocol decision justification])
             (host_executables_by_name self)).

Definition set_host_executable_paths (self : Policy) (name : str) (paths : list str) : Policy :=
  mkPolicy (rules_by_program self) (network_rules self)
    (<[name := paths]> (host_executables_by_name self)).

(** Inserting an overlay's rules one by one, program by program. *)
Definition merge_rules (base overlay : gmap str (list PrefixRule)) : gmap str (list PrefixRule) :=
  foldl (fun combined '(program, rules) =>
           foldl (fun combined rule => multimap_insert program rule combined) combined rules)
        base (map_to_list overlay).

Definition merge_overlay (self overlay : Policy) : Policy :=
  mkPolicy (merge_rules (rules_by_program self) (rules_by_program overlay))
    (network_rules self ++ network_rules overlay)
    (host_executables_by_name overlay ∪ host_executables_by_name self).

Definition remove_entry (host : str) (entries : list str) : list str :=
  List.filter (fun entry => negb (entry =? host)) entries.

Definition upsert_domain (entries : list str) (host : str) : list str :=
  remove_entry host entries ++ [host].

Definition compile_network_rule (acc : list str * list str) (rule : NetworkRule)
  : list str * list str :=
  let '(allowed, denied) := acc in
  match nr_decision rule with
  | Allow => (upsert_domain allowed (nr_host rule), remove_entry (nr_host rule) denied)
  | Forbidden => (remove_entry (nr_host rule) allowed, upsert_domain denied (nr_host rule))
  | Prompt => (allowed, denied)
  end.

Definition compiled_network_domains (self : Policy) : list str * list str :=
  foldl compile_network_rule ([], []) (network_rules self).

Record Evaluation : Type := mkEvaluation {
  decision : Decision;
  matched_rules : list RuleMatch;
}.

Definition is_match (self : Evaluation) : bool :=
  existsb (fun m => match m with HeuristicsRuleMatch _ _ => false | _ => true end)
    (matched_rules self).

(** [None]: the [expect] on the maximum of no decisions panics. *)
Definition from_matches (matched_rules : list RuleMatch) : option Evaluation :=
  match map rule_match_decision matched_rules with
  | [] => None
  | d :: ds => Some (mkEvaluation (foldl decision_max d ds) matched_rules)
  end.

Section matching.
(** The user's home and the process's current directory, which
    [AbsolutePathBuf::try_from] consults. *)
Context (home_dir cwd : option str).

Definition match_exact_rules (self : Policy) (cmd : list str) : option (list RuleMatch) :=
  first ← head cmd;
  Some (match rules_by_program self !! first with
        | Some rules => omap (fun rule => rule_matches rule cmd) rules
        | None => []
        end).

Definition match_host_executable_rules (self : Policy) (cmd : list str) : list RuleMatch :=
  match cmd with
  | [] => []
  | first :: args =>
      match from_absolute_path home_dir cwd first with
      | None => []
      | Some program =>
          match executable_path_lookup_key program with
          | None => []
          | Some basename =>
              match rules_by_program self !! basename with
              | None => []
              | Some rules =>
                  if match host_executables_by_name self !! basename with
                     | Some paths => negb (existsb (fun path => path_eqb path program) paths)
                     | None => false
                     end
                  then []
                  else
                    map (fun rule_match => with_resolved_program rule_match program)
                      (omap (fun rule => rule_matches rule (basename :: args)) rules)
              end
          end
      end
  end.

Definition matches_for_command_with_options (self : Policy) (cmd : list str)
    (heuristics_fallback : option (list str -> Decision)) (options : MatchOptions)
  : list RuleMatch :=
  let exact := match match_exact_rules self cmd with Some m => m | None => [] end in
  let matched_rules :=
    if negb (is_empty exact) then exact
    else if resolve_host_executables options then match_host_executable_rules self cmd
    else [] in
  match heuristics_fallback with
  | Some heuristics_fallback =>
      if is_empty matched_rules then [HeuristicsRuleMatch cmd (heuristics_fallback cmd)]
      else matched_rules
  | None => matched_rules
  end.

Definition matches_for_command (self : Policy) (cmd : list str)
    (heuristics_fallback : option (list str -> Decision)) : list RuleMatch :=
  matches_for_command_with_options self cmd heuristics_fallback match_options_default.

Definition check_with_options (self : Policy) (cmd : list str)
    (heuristics_fallback : list str -> Decision) (options : MatchOptions) : option Evaluation :=
  from_matches (matches_for_command_with_options self cmd (Some heuristics_fallback) options).

Definition check (self : Policy) (cmd : list str) (heuristics_fallback : list str -> Decision)
  : option Evaluation :=
  check_with_options self cmd heuristics_fallback match_options_default.

Definition check_multiple_with_options (self : Policy) (commands : list (list str))
    (heuristics_fallback : list str -> Decision) (options : MatchOptions) : option Evaluation :=
  from_matches
    (commands ≫= fun command =>
       matches_for_command_with_options self command (Some heuristics_fallback) options).

Definition check_multiple (self : Policy) (commands : list (list str))
    (heuristics_fallback : list str -> Decision) : option Evaluation :=
  check_multiple_with_options self commands heuristics_fallback match_options_default.

(** ** Examples ([rule.rs]) *)

(** [shlex::try_join] and [format!("{rule:?}")] *)
Context (try_join : list str -> option str) (debug_rule : PrefixRule -> str)
        (debug_match : RuleMatch -> str).

Definition render_example (example : list str) : str :=
  match try_join example with Some s => s | None => lit "unable to render example" end.

Definition example_matches (policy : Policy) (example : list str) : list RuleMatch :=
  matches_for_command_with_options policy example None (mkMatchOptions true).

Definition validate_match_examples {E} (policy : Policy) (rules : list PrefixRule)
    (matches : list (list str)) : result (Error E) unit :=
  let unmatched_examples :=
    map render_example
      (List.filter (fun example => is_empty (example_matches policy example)) matches) in
  if is_empty unmatched_examples then Ok tt
  else Err (ExampleDidNotMatch (map debug_rule rules) unmatched_examples None).

Fixpoint validate_not_match_examples {E} (policy : Policy) (not_matches : list (list str))
  : result (Error E) unit :=
  match not_matches with
  | [] => Ok tt
  | example :: not_matches =>
      match example_matches policy example with
      | rule :: _ => Err (ExampleDidMatch (debug_match rule) (render_example example) None)
      | [] => validate_not_match_examples policy not_matches
      end
  end.
End matching.

(** ** Matching *)

Lemma forallb_zip_Forall2 {A B} (f : A * B -> bool) l k :
  length l = length k -> forallb f (zip l k) = true <-> Forall2 (fun a b => f (a, b) = true) l k.
Proof.
  revert k. induction l as [|a l IH]; intros [|b k]; simpl; try done.
  intros [= Hl]. rewrite andb_true_iff, Forall2_cons, IH by done. done.
Qed.

(** A pattern matches the commands that start with its first token and then
    one of the alternatives of each further token. *)
Lemma matches_prefix_Some p cmd m :
  matches_prefix p cmd = Some m
  <-> exists ts rest, cmd = m ++ rest /\ m = pat_first p :: ts
      /\ Forall2 (fun tok t => token_matches tok t = true) (pat_rest p) ts.
Proof.
  destruct cmd as [|c cmd]; cbn [matches_prefix].
  { split; [done|]. intros (ts & rest & E & -> & _). done. }
  split.
  - destruct (Nat.ltb_spec (length (c :: cmd)) (S (length (pat_rest p)))) as [|Hlen]; [done|].
    cbn [orb]. case_bool_decide as Hc; [|done]. cbn [negb take tail]. subst c.
    destruct (forallb _ _) eqn:E; [|done]. intros [= <-].
    exists (take (length (pat_rest p)) cmd), (drop (length (pat_rest p)) cmd).
    split; [by rewrite <- app_comm_cons, take_drop|]. split; [done|].
    simpl in Hlen. apply forallb_zip_Forall2 in E; [|rewrite length_take; lia].
    eapply Forall2_impl; [exact E|done].
  - intros (ts & rest & E & -> & HF). injection E as -> ->.
    pose proof (Forall2_length _ _ _ HF) as Hl.
    destruct (Nat.ltb_spec (length (pat_first p :: ts ++ rest)) (S (length (pat_rest p)))) as [Hlt|_].
    { simpl in Hlt. rewrite length_app in Hlt. lia. }
    rewrite bool_decide_eq_true_2 by done. cbn [orb negb take tail].
    rewrite Hl, take_app_length.
    assert (forallb (fun '(pattern_token, cmd_token) => token_matches pattern_token cmd_token)
              (zip (pat_rest p) ts) = true) as ->; [|done].
    apply forallb_zip_Forall2; [done|]. eapply Forall2_impl; [exact HF|done].
Qed.

(** ** Decisions *)

#[global] Instance decision_le_po : PreOrder decision_le.
Proof. split; [intros x; unfold decision_le; lia|intros x y z; unfold decision_le; lia]. Qed.

Lemma decision_max_l a b : decision_le a (decision_max a b).
Proof. destruct a, b; unfold decision_le; simpl; lia. Qed.
Lemma decision_max_r a b : decision_le b (decision_max a b).
Proof. destruct a, b; unfold decision_le; simpl; lia. Qed.
Lemma decision_max_either a b : decision_max a b = a \/ decision_max a b = b.
Proof. destruct a, b; simpl; auto. Qed.
Lemma decision_le_antisym a b : decision_le a b -> decision_le b a -> a = b.
Proof. unfold decision_le. destruct a, b; simpl; lia || done. Qed.
#[export] Hint Resolve decision_max_l decision_max_r : core.

(** [d] is the strictest decision in [ds]. *)
Definition strictest (d : Decision) (ds : list Decision) : Prop :=
  d ∈ ds /\ Forall (fun x => decision_le x d) ds.

Lemma foldl_max_strictest d ds : strictest (foldl decision_max d ds) (d :: ds).
Proof.
  revert d. induction ds as [|x ds IH]; intros d; simpl.
  { split; [by left|]. constructor; [done|constructor]. }
  destruct (IH (decision_max d x)) as [Hin Hle]. apply Forall_cons in Hle as [Hm Hds]. split.
  - apply elem_of_cons in Hin as [->|Hin]; [|by do 2 right].
    destruct (decision_max_either d x) as [->| ->]; [by left|by right; left].
  - constructor; [by etrans; [apply (decision_max_l d x)|]|].
    constructor; [by etrans; [apply (decision_max_r d x)|]|done].
Qed.

Lemma strictest_unique d d' ds : strictest d ds -> strictest d' ds -> d = d'.
Proof.
  intros [H1 H2] [H3 H4]. rewrite Forall_forall in H2, H4. apply decision_le_antisym; auto.
Qed.

Lemma strictest_app_le d d' ds ds' : strictest d ds -> strictest d' (ds ++ ds') -> decision_le d d'.
Proof.
  intros [H1 _] [_ H2]. rewrite Forall_forall in H2. apply H2, elem_of_app. by left.
Qed.

Lemma from_matches_Some ms :
  ms <> [] -> exists ev, from_matches ms = Some ev /\ matched_rules ev = ms
                         /\ strictest (decision ev) (map rule_match_decision ms).
Proof.
  destruct ms as [|m ms]; [done|]. intros _. unfold from_matches. cbn [map].
  eexists. split; [reflexivity|]. split; [done|]. apply foldl_max_strictest.
Qed.

(** ** The multimap *)

Lemma multimap_insert_lookup k r m p :
  default [] (multimap_insert k r m !! p) = default [] (m !! p) ++ (if bool_decide (k = p) then [r] else []).
Proof.
  unfold multimap_insert. case_bool_decide as Hk.
  - subst. by rewrite lookup_insert_eq.
  - rewrite lookup_insert_ne by done. by rewrite app_nil_r.
Qed.

Lemma multimap_insert_all k rules m p :
  default [] (foldl (fun combined rule => multimap_insert k rule combined) m rules !! p)
  = default [] (m !! p) ++ (if bool_decide (k = p) then rules else []).
Proof.
  revert m. induction rules as [|r rules IH]; intros m; cbn [foldl].
  { by case_bool_decide; rewrite app_nil_r. }
  rewrite IH, multimap_insert_lookup. case_bool_decide; [by rewrite <- app_assoc|by rewrite !app_nil_r].
Qed.

(** Merging appends the overlay's rules for each program. *)
Lemma merge_rules_lookup base overlay p :
  default [] (merge_rules base overlay !! p)
  = default [] (base !! p) ++ default [] (overlay !! p).
Proof.
  unfold merge_rules.
  assert (forall l m, NoDup l.*1 ->
    default [] (foldl (fun combined '(program, rules) =>
       foldl (fun combined rule => multimap_insert program rule combined) combined rules) m l !! p)
    = default [] (m !! p) ++ default [] ((list_to_map l : gmap str (list PrefixRule)) !! p)) as H.
  { induction l as [|[k rules] l IH]; intros m Hnd; [by rewrite app_nil_r|].
    cbn in Hnd. apply NoDup_cons in Hnd as [Hk Hnd]. cbn [foldl list_to_map].
    rewrite IH, multimap_insert_all by done. cbn. case_bool_decide as Hp.
    - subst p. rewrite lookup_insert_eq, not_elem_of_list_to_map_1 by done. cbn. by rewrite app_nil_r.
    - rewrite lookup_insert_ne by done. by rewrite app_nil_r. }
  rewrite H by apply NoDup_fst_map_to_list. by rewrite list_to_map_to_list.
Qed.

Lemma match_exact_rules_eq self cmd :
  match_exact_rules self cmd
  = first ← head cmd; Some (omap (fun r => rule_matches r cmd) (default [] (rules_by_program self !! first))).
Proof.
  unfold match_exact_rules. destruct (head cmd); [|done]. cbn.
  by destruct (rules_by_program self !! _).
Qed.

Definition exact_matches (self : Policy) (cmd : list str) : list RuleMatch :=
  default [] (match_exact_rules self cmd).

Lemma exact_matches_merge self overlay cmd :
  exact_matches (merge_overlay self overlay) cmd = exact_matches self cmd ++ exact_matches overlay cmd.
Proof.
  unfold exact_matches. rewrite !match_exact_rules_eq. destruct (head cmd) as [first|]; [|done].
  cbn [mbind option_bind default]. unfold merge_overlay at 1. cbn [rules_by_program].
  by rewrite merge_rules_lookup, omap_app.
Qed.

(** ** The properties *)

Section evaluation.
Context (home_dir cwd : option str).

Lemma matches_not_nil self cmd h options :
  matches_for_command_with_options home_dir cwd self cmd (Some h) options <> [].
Proof.
  unfold matches_for_command_with_options.
  set (ms := if negb _ then _ else _). by destruct ms.
Qed.

Lemma matches_exact self cmd h options :
  exact_matches self cmd <> [] ->
  matches_for_command_with_options home_dir cwd self cmd h options = exact_matches self cmd.
Proof.
  unfold matches_for_command_with_options. fold (exact_matches self cmd).
  change (match match_exact_rules self cmd with Some m => m | None => [] end) with (exact_matches self cmd).
  destruct (exact_matches self cmd); [done|]. by destruct h.
Qed.

Lemma check_with_options_Some self cmd h options :
  exists ev, check_with_options home_dir cwd self cmd h options = Some ev
  /\ matched_rules ev = matches_for_command_with_options home_dir cwd self cmd (Some h) options
  /\ strictest (decision ev) (map rule_match_decision (matched_rules ev)).
Proof.
  destruct (from_matches_Some _ (matches_not_nil self cmd h options)) as (ev & E & Hm & Hs).
  exists ev. by rewrite Hm.
Qed.
End evaluation.

(** A match that a rule gave. *)
Definition from_rule (m : RuleMatch) : bool :=
  match m with HeuristicsRuleMatch _ _ => false | _ => true end.

Lemma rule_matches_from_rule rule cmd m : rule_matches rule cmd = Some m -> from_rule m = true.
Proof. unfold rule_matches. destruct (matches_prefix _ _); [|done]. by intros [= <-]. Qed.

Lemma exact_from_rule self cmd : Forall (fun m => from_rule m = true) (exact_matches self cmd).
Proof.
  unfold exact_matches. rewrite match_exact_rules_eq. destruct (head cmd); [|constructor].
  apply Forall_forall. intros m (r & _ & Hr)%list_elem_of_omap. by eapply rule_matches_from_rule.
Qed.

Lemma host_from_rule home_dir cwd self cmd :
  Forall (fun m => from_rule m = true) (match_host_executable_rules home_dir cwd self cmd).
Proof.
  unfold match_host_executable_rules. repeat case_match; try constructor.
  all: apply Forall_forall; intros m [m0 [-> Hm]]%list_elem_of_fmap;
    apply list_elem_of_omap in Hm as (r & _ & Hr);
    apply rule_matches_from_rule in Hr; by destruct m0.
Qed.

Lemma map_bind {A B C} (f : B -> C) (g : A -> list B) l :
  map f (l ≫= g) = l ≫= (fun x => map f (g x)).
Proof. induction l as [|x l IH]; [done|]. by rewrite !bind_list_cons, map_app, IH. Qed.

(** The commands of a sequence, evaluated one by one. *)
Lemma check_multiple_evals home_dir cwd self commands h options :
  commands <> [] ->
  exists ev evs,
    check_multiple_with_options home_dir cwd self commands h options = Some ev
    /\ Forall2 (fun cmd e => check_with_options home_dir cwd self cmd h options = Some e) commands evs
    /\ matched_rules ev = evs ≫= matched_rules
    /\ strictest (decision ev) (map decision evs).
Proof.
  assert (exists evs,
    Forall2 (fun cmd e => check_with_options home_dir cwd self cmd h options = Some e) commands evs
    /\ Forall (fun e => strictest (decision e) (map rule_match_decision (matched_rules e))) evs
    /\ (commands ≫= fun c => matches_for_command_with_options home_dir cwd self c (Some h) options)
       = evs ≫= matched_rules) as (evs & HF & Hs & Hm).
  { induction commands as [|c commands (evs & HF & Hs & Hm)]; [by exists []|].
    destruct (check_with_options_Some home_dir cwd self c h options) as (ev & E & Hev & Hst).
    exists (ev :: evs). rewrite !bind_list_cons, Hm, Hev. split_and!; [by constructor|by constructor|done]. }
  unfold check_multiple_with_options. rewrite Hm. intros Hne0.
  assert (evs ≫= matched_rules <> []) as Hne.
  { destruct HF as [|c e commands evs _ _]; [done|].
    rewrite bind_list_cons. apply Forall_cons in Hs as [[Hin _] _].
    destruct (matched_rules e); [by apply elem_of_nil in Hin|done]. }
  destruct (from_matches_Some _ Hne) as (ev & E & Hev & [Hin Hle]).
  exists ev, evs. split_and!; [done..|].
  rewrite map_bind in Hin, Hle. rewrite Forall_forall in Hle. rewrite Forall_forall in Hs.
  apply list_elem_of_bind in Hin as (e1 & Hin1 & He1). split.
  - pose proof (Hs _ He1) as [H1 H2]. rewrite Forall_forall in H2.
    assert (decision ev = decision e1) as ->; [|apply list_elem_of_In, in_map; by apply list_elem_of_In].
    apply decision_le_antisym; [by apply H2|].
    apply Hle, list_elem_of_bind. eauto.
  - apply Forall_forall. intros d Hd. apply list_elem_of_In, in_map_iff in Hd as (e2 & <- & He2).
    apply Hle, list_elem_of_bind. exists e2. apply list_elem_of_In in He2.
    split; [by apply Hs|done].
Qed.

(** A sequence of commands is judged by its worst command: the decision is
    the strictest of the decisions the commands get one by one (so it is
    [Allow] only if each of them is), and only the empty sequence has none
    (there the code panics). *)
Theorem check_multiple_strictest (home_dir cwd : option str) (self : Policy)
    (commands : list (list str)) (h : list str -> Decision) (options : MatchOptions) :
  match check_multiple_with_options home_dir cwd self commands h options with
  | None => commands = []
  | Some ev => exists evs,
      Forall2 (fun cmd e => check_with_options home_dir cwd self cmd h options = Some e) commands evs
      /\ matched_rules ev = evs ≫= matched_rules
      /\ strictest (decision ev) (map decision evs)
  end.
Proof.
  destruct commands as [|c commands]; [reflexivity|].
  destruct (check_multiple_evals home_dir cwd self (c :: commands) h options ltac:(done))
    as (ev & evs & -> & H). eauto.
Qed.

(** Merging an overlay only tightens: for a command the base policy has a
    rule for, the merged policy matches the base's rules and then the
    overlay's, and its decision is at least as strict; the same holds seen
    from the overlay. *)
Theorem merge_overlay_strictens (home_dir cwd : option str) (self overlay : Policy)
    (cmd : list str) (h : list str -> Decision) (options : MatchOptions) (p : Policy)
    (ev evm : Evaluation) :
  p = self \/ p = overlay ->
  exact_matches p cmd <> [] ->
  check_with_options home_dir cwd p cmd h options = Some ev ->
  check_with_options home_dir cwd (merge_overlay self overlay) cmd h options = Some evm ->
  matched_rules evm = exact_matches self cmd ++ exact_matches overlay cmd
  /\ decision_le (decision ev) (decision evm).
Proof.
  intros Hp Hne E Em.
  destruct (check_with_options_Some home_dir cwd p cmd h options) as (ev' & E' & Hm & Hs).
  destruct (check_with_options_Some home_dir cwd (merge_overlay self overlay) cmd h options)
    as (evm' & Em' & Hmm & Hsm).
  rewrite E in E'. injection E' as <-. rewrite Em in Em'. injection Em' as <-.
  assert (exact_matches (merge_overlay self overlay) cmd <> []) as Hne'.
  { rewrite exact_matches_merge. destruct Hp as [->| ->];
      [by destruct (exact_matches self cmd)|].
    destruct (exact_matches self cmd); [done|done]. }
  rewrite matches_exact in Hm, Hmm by done. rewrite exact_matches_merge in Hmm.
  split; [done|]. destruct Hs as [Hin _], Hsm as [_ Hle]. rewrite Forall_forall in Hle. apply Hle.
  rewrite Hm in Hin. rewrite Hmm, map_app, elem_of_app. destruct Hp as [->| ->]; auto.
Qed.

Definition sample_policy (d : Decision) : Policy :=
  policy_new {[lit "git" := [mkRule (mkPattern (lit "git") [Alts [lit "push"; lit "pull"]]) d None]]}.

Lemma merge_overlay_strictens_witness :
  exists evm,
    check_with_options None None (merge_overlay (sample_policy Allow) (sample_policy Forbidden))
      [lit "git"; lit "push"; lit "-f"] (fun _ => Prompt) match_options_default = Some evm
    /\ decision_le Allow (decision evm) /\ decision evm = Forbidden.
Proof.
  eexists. split; [vm_compute; reflexivity|]. split; [|reflexivity].
  refine (proj2 (merge_overlay_strictens None None (sample_policy Allow) (sample_policy Forbidden)
                   [lit "git"; lit "push"; lit "-f"] (fun _ => Prompt) match_options_default
                   (sample_policy Allow)
                   (mkEvaluation Allow [PrefixRuleMatch [lit "git"; lit "push"] Allow None None])
                   _ (or_introl eq_refl) _ _ _)).
  - by vm_compute.
  - vm_compute. reflexivity.
  - vm_compute. reflexivity.
Defined.

(** Adding a prefix rule adds exactly one match to the commands that have the
    prefix, and none to the others. *)
Lemma add_prefix_rule_matches {E} (self self' : Policy) (prefix : list str) (d : Decision) cmd :
  add_prefix_rule (E := E) self prefix d = Ok self' ->
  exact_matches self' cmd
  = exact_matches self cmd
    ++ (if bool_decide (take (length prefix) cmd = prefix) then [PrefixRuleMatch prefix d None None] else []).
Proof.
  destruct prefix as [|first rest]; [done|]. intros [= <-].
  unfold exact_matches. rewrite !match_exact_rules_eq. cbn [rules_by_program].
  destruct cmd as [|c cmd]; [by rewrite bool_decide_eq_false_2|].
  cbn [head mbind option_bind default]. rewrite multimap_insert_lookup, omap_app. f_equal.
  case_bool_decide as Hc.
  - subst c. cbn [omap list_omap]. unfold rule_matches. cbn [pattern rule_decision rule_justification].
    case_bool_decide as Ht.
    + assert (matches_prefix (mkPattern first (map Single rest)) (first :: cmd) = Some (first :: rest)) as ->; [|done].
      apply matches_prefix_Some. exists rest, (drop (length rest) cmd). cbn in Ht. injection Ht as Ht.
      split; [|split; [done|]].
      * cbn. f_equal. by rewrite <- Ht at 1; rewrite take_drop.
      * cbn. clear. induction rest as [|x rest IH]; cbn; constructor; [|done].
        by apply bool_decide_eq_true.
    + destruct (matches_prefix _ _) as [m|] eqn:Em; [|done]. exfalso. apply Ht.
      apply matches_prefix_Some in Em as (ts & r & Ec & -> & HF). injection Ec as ->.
      cbn in HF. apply Forall2_fmap_l in HF.
      assert (rest = ts) as <-.
      { clear -HF. induction HF as [|x y l k Hxy HF IH]; [done|]. cbn in Hxy.
        apply bool_decide_eq_true in Hxy. by subst. }
      cbn. by rewrite take_app_length.
  - rewrite bool_decide_eq_false_2; [done|]. cbn. congruence.
Qed.

(** How a program given by its path gets the match [m] from its file name. *)
Definition host_match (home_dir cwd : option str) (self : Policy) (cmd : list str) (m : RuleMatch)
  : Prop :=
  exists first args resolved basename rule m0,
    cmd = first :: args
    /\ from_absolute_path home_dir cwd first = Some resolved
    /\ file_name resolved = Some basename
    /\ rule ∈ default [] (rules_by_program self !! basename)
    /\ (forall paths, host_executables_by_name self !! basename = Some paths ->
          exists path, path ∈ paths /\ path_eqb path resolved = true)
    /\ rule_matches rule (basename :: args) = Some m0
    /\ m = with_resolved_program m0 resolved.

Lemma elem_of_host_matches home_dir cwd self cmd m :
  m ∈ match_host_executable_rules home_dir cwd self cmd <-> host_match home_dir cwd self cmd m.
Proof.
  unfold host_match, match_host_executable_rules. split.
  - destruct cmd as [|first args]; [by intros ?%elem_of_nil|].
    destruct (from_absolute_path home_dir cwd first) as [resolved|] eqn:Er; [|by intros ?%elem_of_nil].
    unfold executable_path_lookup_key, executable_lookup_key.
    destruct (file_name resolved) as [basename|] eqn:Ef; [cbn [fmap option_fmap option_map]|by intros ?%elem_of_nil].
    destruct (rules_by_program self !! basename) as [rules|] eqn:Eru; [|by intros ?%elem_of_nil].
    destruct (match host_executables_by_name self !! basename with Some _ => _ | None => false end) eqn:Eh;
      [by intros ?%elem_of_nil|].
    intros (m0 & -> & (rule & Hin & Hr)%list_elem_of_omap)%list_elem_of_fmap.
    exists first, args, resolved, basename, rule, m0. rewrite Eru. split_and!; try done.
    intros paths Hp. rewrite Hp in Eh. apply negb_false_iff, existsb_exists in Eh as (path & Hpin & Hpe).
    exists path. split; [by apply list_elem_of_In|done].
  - intros (first & args & resolved & basename & rule & m0 & -> & Er & Ef & Hin & Hh & Hr & ->).
    unfold executable_path_lookup_key, executable_lookup_key.
    rewrite Er, Ef. cbn [fmap option_fmap option_map].
    destruct (rules_by_program self !! basename) as [rules|]; cbn [default] in Hin;
      [|by apply elem_of_nil in Hin].
    assert (match host_executables_by_name self !! basename with
            | Some paths => negb (existsb (fun path => path_eqb path resolved) paths)
            | None => false end = false) as ->.
    { destruct (host_executables_by_name self !! basename) as [paths|]; [|done].
      destruct (Hh _ eq_refl) as (path & Hp & He). apply negb_false_iff, existsb_exists.
      exists path. split; [by apply list_elem_of_In|done]. }
    apply list_elem_of_fmap. exists m0. split; [done|]. apply list_elem_of_omap. eauto.
Qed.

Lemma elem_of_exact_matches self cmd m :
  m ∈ exact_matches self cmd
  <-> exists first rule, head cmd = Some first
      /\ rule ∈ default [] (rules_by_program self !! first) /\ rule_matches rule cmd = Some m.
Proof.
  unfold exact_matches. rewrite match_exact_rules_eq. destruct (head cmd) as [first|]; cbn.
  - rewrite list_elem_of_omap. split; [intros (r & ? & ?); eauto|]. intros (? & r & [= <-] & ? & ?). eauto.
  - split; [by intros ?%elem_of_nil|]. by intros (? & ? & ? & _).
Qed.

(** Where a match can come from.  Either a rule for the command's first token
    itself, or, only if there is none and the option is on, a rule for the
    file name of the program's path, after the path was resolved and found
    among the host executables declared for that name, if any are; the match
    then records the resolved path. *)
Theorem match_provenance (home_dir cwd : option str) (self : Policy) (cmd : list str)
    (options : MatchOptions) (m : RuleMatch) :
  m ∈ matches_for_command_with_options home_dir cwd self cmd None options
  <-> (exists first rule, head cmd = Some first
        /\ rule ∈ default [] (rules_by_program self !! first) /\ rule_matches rule cmd = Some m)
      \/ (exact_matches self cmd = [] /\ resolve_host_executables options = true
          /\ host_match home_dir cwd self cmd m).
Proof.
  rewrite <- elem_of_exact_matches, <- elem_of_host_matches.
  unfold matches_for_command_with_options. fold (exact_matches self cmd).
  change (match match_exact_rules self cmd with Some m => m | None => [] end) with (exact_matches self cmd).
  destruct (exact_matches self cmd) as [|x l]; cbn [is_empty negb].
  - destruct (resolve_host_executables options); rewrite ?elem_of_nil; intuition congruence.
  - intuition congruence.
Qed.

(** *** Which rules count *)

(** The program and the tokens of the pattern are a prefix of the command. *)
Definition rule_fits (rule : PrefixRule) (cmd prefix : list str) : Prop :=
  exists ts rest, cmd = program rule :: ts ++ rest /\ prefix = program rule :: ts /\
    Forall2 (fun tok t => t ∈ alternatives tok) (pat_rest (pattern rule)) ts.

Lemma token_matches_alternatives tok t : token_matches tok t = true <-> t ∈ alternatives tok.
Proof.
  destruct tok as [s|l]; cbn.
  - rewrite bool_decide_eq_true, list_elem_of_singleton. done.
  - rewrite list_elem_of_In, existsb_exists. setoid_rewrite bool_decide_eq_true. naive_solver.
Qed.

Lemma rule_matches_fits rule cmd m : rule_matches rule cmd = Some m <->
  exists prefix, rule_fits rule cmd prefix /\ m = PrefixRuleMatch prefix (rule_decision rule) None (rule_justification rule).
Proof.
  unfold rule_matches, rule_fits, program.
  assert (forall prefix, matches_prefix (pattern rule) cmd = Some prefix <-> exists ts rest,
    cmd = pat_first (pattern rule) :: ts ++ rest /\ prefix = pat_first (pattern rule) :: ts /\
    Forall2 (fun tok t => t ∈ alternatives tok) (pat_rest (pattern rule)) ts) as H.
  { intros prefix. rewrite matches_prefix_Some. split; intros (ts & rest & -> & -> & HF); exists ts, rest;
      (split; [done|split; [done|]]); eapply Forall2_impl; try exact HF; intros tok t; apply token_matches_alternatives. }
  destruct (matches_prefix (pattern rule) cmd) as [prefix|] eqn:E.
  - split; [intros [= <-]; exists prefix; split; [by apply H|done]|]. intros (prefix' & Hp & ->). apply H in Hp. by injection Hp as ->.
  - split; [done|]. intros (prefix' & Hp & _). by apply H in Hp.
Qed.

(** A rule for the first token of the command *)
Definition exact_rule (self : Policy) (cmd : list str) (m : RuleMatch) : Prop :=
  exists first rule prefix, head cmd = Some first /\ rule ∈ default [] (rules_by_program self !! first) /\
    rule_fits rule cmd prefix /\ m = PrefixRuleMatch prefix (rule_decision rule) None (rule_justification rule).

(** A rule for the file name of the program's path, where the path is one of the
    host executables that are declared for the name, if any are *)
Definition host_rule (home_dir cwd : option str) (self : Policy) (cmd : list str) (m : RuleMatch) : Prop :=
  exists first args resolved basename rule prefix,
    cmd = first :: args /\ from_absolute_path home_dir cwd first = Some resolved /\ file_name resolved = Some basename /\
    rule ∈ default [] (rules_by_program self !! basename) /\
    (forall paths, host_executables_by_name self !! basename = Some paths ->
       exists path, path ∈ paths /\ path_eqb path resolved = true) /\
    rule_fits rule (basename :: args) prefix /\
    m = PrefixRuleMatch prefix (rule_decision rule) (Some resolved) (rule_justification rule).

Lemma exact_rule_iff self cmd m : m ∈ exact_matches self cmd <-> exact_rule self cmd m.
Proof.
  rewrite elem_of_exact_matches. unfold exact_rule. setoid_rewrite rule_matches_fits. naive_solver.
Qed.

Lemma host_rule_iff home_dir cwd self cmd m :
  m ∈ match_host_executable_rules home_dir cwd self cmd <-> host_rule home_dir cwd self cmd m.
Proof.
  rewrite elem_of_host_matches. unfold host_match, host_rule. setoid_rewrite rule_matches_fits. split.
  - intros (f & a & r & b & rule & m0 & ? & ? & ? & ? & ? & (prefix & Hf & ->) & ->). by exists f, a, r, b, rule, prefix.
  - intros (f & a & r & b & rule & prefix & ? & ? & ? & ? & ? & Hf & ->).
    exists f, a, r, b, rule, (PrefixRuleMatch prefix (rule_decision rule) None (rule_justification rule)).
    split_and!; try done. by exists prefix.
Qed.

Lemma nil_iff {A} (l : list A) : l = [] <-> forall x, x ∉ l.
Proof. split; [intros -> x; apply not_elem_of_nil|]. destruct l as [|x l]; [done|]. intros H. destruct (H x). left. Qed.

(** C16: evaluating any command against any policy gives a decision, the
    strictest among the matched rules (so that one that forbids decides whatever
    the others say); the matched rules are exactly those for the first token
    whose pattern is a prefix of the command; only if there is none and the
    option is on, exactly those for the file name of the program's path, if that
    path is a declared host executable or none is declared; and only if there
    is none of these either, the answer of the heuristic. *)
Theorem check_strictest (home_dir cwd : option str) (self : Policy) (cmd : list str)
    (h : list str -> Decision) (options : MatchOptions) :
  exists ev, check_with_options home_dir cwd self cmd h options = Some ev
  /\ strictest (decision ev) (map rule_match_decision (matched_rules ev))
  /\ forall m, m ∈ matched_rules ev <->
       exact_rule self cmd m
       \/ (forall m', ~ exact_rule self cmd m')
          /\ (resolve_host_executables options = true /\ host_rule home_dir cwd self cmd m
              \/ (resolve_host_executables options = true -> forall m', ~ host_rule home_dir cwd self cmd m')
                 /\ m = HeuristicsRuleMatch cmd (h cmd)).
Proof.
  destruct (check_with_options_Some home_dir cwd self cmd h options) as (ev & E & Hm & Hs).
  exists ev. split; [done|]. split; [done|]. intros m. rewrite Hm. setoid_rewrite <- exact_rule_iff.
  setoid_rewrite <- host_rule_iff. rewrite <- nil_iff, <- (nil_iff (match_host_executable_rules _ _ _ _)).
  unfold matches_for_command_with_options.
  change (match match_exact_rules self cmd with Some m => m | None => [] end) with (exact_matches self cmd).
  destruct (exact_matches self cmd) as [|x l]; cbn [is_empty negb].
  2: { split; [by left|]. by intros [?|[? _]]. }
  rewrite elem_of_nil. destruct (resolve_host_executables options).
  - destruct (match_host_executable_rules home_dir cwd self cmd) as [|x l]; cbn [is_empty].
    + rewrite list_elem_of_singleton, elem_of_nil. naive_solver.
    + split; [intros H; right; split; [done|by left]|]. intros [[]|[_ [[_ H]|[H _]]]]; [done|by specialize (H eq_refl)].
  - cbn [is_empty]. rewrite list_elem_of_singleton. naive_solver.
Qed.

(** A relative path is resolved too, against the process's own directory. *)
Example relative_program_matches :
  matches_for_command_with_options None (Some (lit "/evil")) (sample_policy Allow)
    [lit "./git"; lit "push"] None (mkMatchOptions true)
  = [PrefixRuleMatch [lit "git"; lit "push"] Allow (Some (lit "/evil/git")) None].
Proof. vm_compute. reflexivity. Qed.

(** ** Network rules *)

Definition decides (d : Decision) : bool := match d with Prompt => false | _ => true end.

(** The last decision on a host that is not [Prompt]. *)
Definition last_decision (host : str) (rules : list NetworkRule) : option Decision :=
  last (map nr_decision
    (List.filter (fun r => (nr_host r =? host) && decides (nr_decision r)) rules)).

Lemma elem_of_remove_entry host x l : x ∈ remove_entry host l <-> x ∈ l /\ x <> host.
Proof.
  unfold remove_entry. rewrite !list_elem_of_In, filter_In, negb_true_iff. by rewrite bool_decide_eq_false.
Qed.

Lemma NoDup_remove_entry host l : NoDup l -> NoDup (remove_entry host l).
Proof.
  unfold remove_entry. induction 1 as [|x l Hx Hl IH]; simpl; [constructor|].
  destruct (negb _); [|done]. constructor; [|done].
  rewrite list_elem_of_In, filter_In, <- list_elem_of_In. tauto.
Qed.

Lemma elem_of_upsert host x l : x ∈ upsert_domain l host <-> x = host \/ x ∈ l.
Proof.
  unfold upsert_domain. rewrite elem_of_app, elem_of_remove_entry, list_elem_of_singleton.
  destruct (decide (x = host)); tauto.
Qed.

Lemma NoDup_upsert host l : NoDup l -> NoDup (upsert_domain l host).
Proof.
  intros H. unfold upsert_domain. apply NoDup_app. split; [by apply NoDup_remove_entry|].
  split; [|apply NoDup_singleton]. intros x [_ Hx]%elem_of_remove_entry ->%list_elem_of_singleton. done.
Qed.

Lemma last_decision_snoc host rules r :
  last_decision host (rules ++ [r])
  = if (nr_host r =? host) && decides (nr_decision r) then Some (nr_decision r)
    else last_decision host rules.
Proof.
  unfold last_decision. rewrite List.filter_app, map_app. cbn [List.filter].
  destruct (_ && _); cbn [map]; [by rewrite last_snoc|by rewrite app_nil_r].
Qed.

(** The network rules compile to two lists without duplicates: a host is
    allowed or denied according to the last rule about it that allows or
    forbids, so it is never both. *)
Theorem compiled_network_domains_spec (self : Policy) :
  let '(allowed, denied) := compiled_network_domains self in
  NoDup allowed /\ NoDup denied
  /\ forall host, (host ∈ allowed <-> last_decision host (network_rules self) = Some Allow)
                  /\ (host ∈ denied <-> last_decision host (network_rules self) = Some Forbidden).
Proof.
  unfold compiled_network_domains. induction (network_rules self) as [|r rules IH] using rev_ind.
  { cbn. split_and!; [constructor..|]. intros host. rewrite !elem_of_nil. done. }
  rewrite foldl_app. cbn [foldl]. destruct (foldl compile_network_rule ([], []) rules) as [allowed denied].
  destruct IH as (Ha & Hd & IH). unfold compile_network_rule.
  destruct (nr_decision r) eqn:Er; (split_and!; auto using NoDup_upsert, NoDup_remove_entry);
    intros host; rewrite last_decision_snoc, Er; destruct (IH host) as [IHa IHd];
    destruct (decide (nr_host r = host)) as [He|He].
  all: rewrite ?(bool_decide_eq_true_2 (nr_host r = host)), ?(bool_decide_eq_false_2 (nr_host r = host)) by done.
  all: cbn; rewrite ?elem_of_upsert, ?elem_of_remove_entry, ?IHa, ?IHd; cbn; intuition congruence.
Qed.

(** A host a network rule accepts is in normal form: not empty, lower case,
    without blanks, wildcards, scheme or path. *)
Lemma normalize_network_rule_host_ok {E} (raw host : str) :
  normalize_network_rule_host (E := E) raw = Ok host ->
  host <> [] /\ existsb is_whitespace host = false /\ contains_char host (ch "*") = false
  /\ to_ascii_lowercase host = host.
Proof.
  unfold normalize_network_rule_host. intros H.
  destruct (is_empty (trim raw)); [done|]. destruct (_ || _ || _ || _); [done|].
  apply result_bind_Ok in H as (h & _ & H).
  set (n := to_ascii_lowercase _) in H.
  destruct (is_empty n) eqn:E1; [done|]. destruct (contains_char n (ch "*")) eqn:E2; [done|].
  destruct (existsb is_whitespace n) eqn:E3; [done|]. injection H as <-.
  split_and!; [by intros E'; rewrite E' in E1|done..|].
  subst n. unfold to_ascii_lowercase. rewrite map_map. apply map_ext. intros c.
  unfold to_ascii_lowercase_char.
  destruct (N.leb_spec 65 c), (N.leb_spec c 90); cbn [andb];
    destruct (N.leb_spec 65 (c + 32)), (N.leb_spec (c + 32) 90); cbn [andb]; try lia;
    destruct (N.leb_spec 65 c), (N.leb_spec c 90); cbn [andb]; lia.
Qed.
