(* ===== verification/PolicyBuilder.v ===== *)
(** * Loading a policy: [execpolicy/src/parser.rs]

    The builtins a policy file calls, on the policy under construction, and
    the validation of the examples.  Starlark is a parameter: evaluating a
    file gives the calls it makes, in order.  [shlex] and the renderings of
    rules are parameters too. *)

From S2P Require Import Prelude Paths ExecPolicy.
Local Open Scope str_scope.

(** What the builtins ask of a Starlark value. *)
Inductive Value : Type :=
| VStr (s : str)
| VList (l : list Value)
| VOther (type_name : str).

Definition get_type (v : Value) : str :=
  match v with VStr _ => lit "string" | VList _ => lit "list" | VOther t => t end.

Definition unpack_str (v : Value) : option str :=
  match v with VStr s => Some s | _ => None end.

(** A call of a builtin; a [prefix_rule] call carries the location of the top
    of the call stack. *)
Inductive Builtin : Type :=
| prefix_rule_call (pattern : list Value) (decision : option str)
    (match_ not_match : option (list Value)) (justification : option str)
    (location : option ErrorLocation)
| network_rule_call (host protocol decision : str) (justification : option str)
| host_executable_call (name : str) (paths : list Value).

Record PendingExampleValidation : Type := mkPending {
  pv_rules : list PrefixRule;
  pv_matches : list (list str);
  pv_not_matches : list (list str);
  pv_location : option ErrorLocation;
}.

Record PolicyBuilder : Type := mkBuilder {
  b_rules_by_program : gmap str (list PrefixRule);
  b_network_rules : list NetworkRule;
  b_host_executables_by_name : gmap str (list str);
  b_pending_example_validations : list PendingExampleValidation;
}.

Definition builder_new : PolicyBuilder := mkBuilder ∅ [] ∅ [].

Definition add_rule (self : PolicyBuilder) (rule : PrefixRule) : PolicyBuilder :=
  mkBuilder (multimap_insert (program rule) rule (b_rules_by_program self))
    (b_network_rules self) (b_host_executables_by_name self) (b_pending_example_validations self).

Definition builder_add_network_rule (self : PolicyBuilder) (rule : NetworkRule) : PolicyBuilder :=
  mkBuilder (b_rules_by_program self) (b_network_rules self ++ [rule])
    (b_host_executables_by_name self) (b_pending_example_validations self).

Definition add_host_executable (self : PolicyBuilder) (name : str) (paths : list str) : PolicyBuilder :=
  mkBuilder (b_rules_by_program self) (b_network_rules self)
    (<[name := paths]> (b_host_executables_by_name self)) (b_pending_example_validations self).

Definition add_pending_example_validation (self : PolicyBuilder) (v : PendingExampleValidation)
  : PolicyBuilder :=
  mkBuilder (b_rules_by_program self) (b_network_rules self) (b_host_executables_by_name self)
    (b_pending_example_validations self ++ [v]).

Definition build (self : PolicyBuilder) : Policy :=
  mkPolicy (b_rules_by_program self) (b_network_rules self) (b_host_executables_by_name self).

Section builtins.
Context {StarlarkError : Type}.
Context (home_dir cwd : option str).
(** [shlex::split], [shlex::try_join], [{:?}] on rules and on matches *)
Context (shlex_split : str -> option (list str)) (try_join : list str -> option str)
        (debug_rule : PrefixRule -> str) (debug_match : RuleMatch -> str).

Abbreviation Result := (result (Error StarlarkError)).

(** Strings of a list, or an error that names the type found. *)
Definition unpack_strings (err : str -> Error StarlarkError) (l : list Value) : Result (list str) :=
  collect (map (fun v => match unpack_str v with
                         | Some s => Ok s
                         | None => Err (err (get_type v))
                         end) l).

Definition parse_pattern_token (value : Value) : Result PatternToken :=
  match value with
  | VStr s => Ok (Single s)
  | VList l =>
      tokens ← unpack_strings (fun t => InvalidPattern
                 (lit "pattern alternative must be a string (got " ++ t ++ lit ")")) l;
      match tokens with
      | [] => Err (InvalidPattern (lit "pattern alternatives cannot be empty"))
      | [single] => Ok (Single single)
      | _ => Ok (Alts tokens)
      end
  | VOther t =>
      Err (InvalidPattern
        (lit "pattern element must be a string or list of strings (got " ++ t ++ lit ")"))
  end.

Definition parse_pattern (pattern : list Value) : Result (list PatternToken) :=
  tokens ← collect (map parse_pattern_token pattern);
  if is_empty tokens then Err (InvalidPattern (lit "pattern cannot be empty")) else Ok tokens.

Definition parse_string_example (raw : str) : Result (list str) :=
  match shlex_split raw with
  | None => Err (InvalidExample (lit "example string has invalid shell syntax"))
  | Some tokens =>
      if is_empty tokens then Err (InvalidExample (lit "example cannot be an empty string"))
      else Ok tokens
  end.

Definition parse_list_example (l : list Value) : Result (list str) :=
  tokens ← unpack_strings (fun t => InvalidExample
             (lit "example tokens must be strings (got " ++ t ++ lit ")")) l;
  if is_empty tokens then Err (InvalidExample (lit "example cannot be an empty list"))
  else Ok tokens.

Definition parse_example (value : Value) : Result (list str) :=
  match value with
  | VStr raw => parse_string_example raw
  | VList l => parse_list_example l
  | VOther t =>
      Err (InvalidExample (lit "example must be a string or list of strings (got " ++ t ++ lit ")"))
  end.

Definition parse_examples (examples : list Value) : Result (list (list str)) :=
  collect (map parse_example examples).

(** Resolving a path that is absolute already does not fail; the message of
    that case, which quotes an [io::Error], is never made. *)
Definition parse_literal_absolute_path (raw : str) : Result str :=
  if negb (is_absolute raw)
  then Err (InvalidRule (lit "host_executable paths must be absolute (got " ++ raw ++ lit ")"))
  else match from_absolute_path home_dir cwd raw with
       | Some path => Ok path
       | None => Err (InvalidRule (lit "invalid absolute path `" ++ raw ++ lit "`"))
       end.

Definition validate_host_executable_name (name : str) : Result unit :=
  if is_empty name then Err (InvalidRule (lit "host_executable name cannot be empty"))
  else if negb (length (components name) =? 1)%nat
          || negb (bool_decide (file_name name = Some name))
  then Err (InvalidRule
         (lit "host_executable name must be a bare executable name (got " ++ name ++ lit ")"))
  else Ok tt.

Definition parse_network_rule_decision (raw : str) : Result Decision :=
  if raw =? lit "deny" then Ok Forbidden else decision_parse raw.

Definition attach_validation_location (error : Error StarlarkError) (location : option ErrorLocation)
  : Error StarlarkError :=
  match location with Some location => with_location error location | None => error end.

Definition check_justification (justification : option str) : Result (option str) :=
  match justification with
  | Some raw =>
      if is_empty (trim raw) then Err (InvalidRule (lit "justification cannot be empty"))
      else Ok (Some raw)
  | None => Ok None
  end.

(** [x.map(f).transpose()?.unwrap_or_default()] *)
Definition examples_or_default (examples : option (list Value)) : Result (list (list str)) :=
  match examples with Some l => parse_examples l | None => Ok [] end.

Definition prefix_rule (builder : PolicyBuilder) (pattern : list Value) (decision : option str)
    (match_ not_match : option (list Value)) (justification : option str)
    (location : option ErrorLocation) : Result PolicyBuilder :=
  decision ← (match decision with Some raw => decision_parse raw | None => Ok Allow end);
  justification ← check_justification justification;
  pattern_tokens ← parse_pattern pattern;
  matches ← examples_or_default match_;
  not_matches ← examples_or_default not_match;
  match pattern_tokens with
  | [] => Err (InvalidPattern (lit "pattern cannot be empty"))
  | first_token :: rest =>
      let rules := map (fun head => mkRule (mkPattern head rest) decision justification)
                     (alternatives first_token) in
      let builder := add_pending_example_validation builder
                       (mkPending rules matches not_matches location) in
      Ok (foldl add_rule builder rules)
  end.

Definition network_rule (builder : PolicyBuilder) (host protocol decision : str)
    (justification : option str) : Result PolicyBuilder :=
  protocol ← protocol_parse protocol;
  decision ← parse_network_rule_decision decision;
  justification ← check_justification justification;
  host ← normalize_network_rule_host host;
  Ok (builder_add_network_rule builder (mkNetworkRule host protocol decision justification)).

(** The loop over [paths.items]. *)
Fixpoint parse_host_paths (name : str) (paths : list Value) (parsed_paths : list str)
  : Result (list str) :=
  match paths with
  | [] => Ok parsed_paths
  | value :: paths =>
      raw ← (match unpack_str value with
             | Some raw => Ok raw
             | None => Err (InvalidRule (lit "host_executable paths must be strings (got "
                                         ++ get_type value ++ lit ")"))
             end);
      path ← parse_literal_absolute_path raw;
      let bad := Err (InvalidRule (lit "host_executable path `" ++ raw
                                   ++ lit "` must have basename `" ++ name ++ lit "`")) in
      match executable_path_lookup_key path with
      | None => bad
      | Some path_name =>
          if negb (path_name =? executable_lookup_key name) then bad
          else parse_host_paths name paths
                 (if negb (existsb (fun existing => path_eqb existing path) parsed_paths)
                  then parsed_paths ++ [path] else parsed_paths)
      end
  end.

Definition host_executable (builder : PolicyBuilder) (name : str) (paths : list Value)
  : Result PolicyBuilder :=
  _ ← validate_host_executable_name name;
  parsed_paths ← parse_host_paths name paths [];
  Ok (add_host_executable builder (executable_lookup_key name) parsed_paths).

Definition run_builtin (builder : PolicyBuilder) (call : Builtin) : Result PolicyBuilder :=
  match call with
  | prefix_rule_call pattern decision match_ not_match justification location =>
      prefix_rule builder pattern decision match_ not_match justification location
  | network_rule_call host protocol decision justification =>
      network_rule builder host protocol decision justification
  | host_executable_call name paths => host_executable builder name paths
  end.

(** The policy an example is tried against: the rules of its own call. *)
Definition validation_policy (self : PolicyBuilder) (validation : PendingExampleValidation) : Policy :=
  mkPolicy (foldl (fun m rule => multimap_insert (program rule) rule m) ∅ (pv_rules validation)) []
    (b_host_executables_by_name self).

Definition validate_one (self : PolicyBuilder) (validation : PendingExampleValidation) : Result unit :=
  let policy := validation_policy self validation in
  let attach {A} (r : Result A) : Result A :=
    map_err (fun error => attach_validation_location error (pv_location validation)) r in
  _ ← attach (validate_not_match_examples home_dir cwd try_join debug_match policy
                (pv_not_matches validation));
  attach (validate_match_examples home_dir cwd try_join debug_rule policy (pv_rules validation)
            (pv_matches validation)).

Fixpoint validate_all (self : PolicyBuilder) (validations : list PendingExampleValidation)
  : Result unit :=
  match validations with
  | [] => Ok tt
  | validation :: validations => _ ← validate_one self validation; validate_all self validations
  end.

Definition validate_pending_examples_from (self : PolicyBuilder) (start : nat) : Result unit :=
  validate_all self (drop start (b_pending_example_validations self)).

(** [starlark_eval id contents]: a syntax error, or the calls the module
    makes as long as they succeed and the error it ends with, if any;
    [starlark_of] wraps a builtin's error. *)
Context (starlark_eval : str -> str -> result StarlarkError (list Builtin * option StarlarkError))
        (starlark_of : Error StarlarkError -> StarlarkError).

(** A failed call ends the evaluation; what the earlier calls did remains. *)
Fixpoint run_builtins (builder : PolicyBuilder) (calls : list Builtin)
  : PolicyBuilder * result StarlarkError unit :=
  match calls with
  | [] => (builder, Ok tt)
  | call :: calls =>
      match run_builtin builder call with
      | Ok builder => run_builtins builder calls
      | Err e => (builder, Err (starlark_of e))
      end
  end.

Definition parse (builder : PolicyBuilder) (policy_identifier policy_file_contents : str)
  : PolicyBuilder * Result unit :=
  let pending_validation_count := length (b_pending_example_validations builder) in
  match starlark_eval policy_identifier policy_file_contents with
  | Err e => (builder, Err (Starlark e))
  | Ok (calls, final) =>
      match run_builtins builder calls with
      | (builder, Err e) => (builder, Err (Starlark e))
      | (builder, Ok _) =>
          match final with
          | Some e => (builder, Err (Starlark e))
          | None => (builder, validate_pending_examples_from builder pending_validation_count)
          end
      end
  end.
End builtins.

(** ** Invariants of a policy under construction *)

(** Rules are stored under their own program, host executables under the
    file name of their normalised absolute paths, and a pending validation is
    about rules the builder holds. *)
Record builder_wf (b : PolicyBuilder) : Prop := {
  wf_rules : forall p r, r ∈ default [] (b_rules_by_program b !! p) -> program r = p;
  wf_hosts : forall name paths path, b_host_executables_by_name b !! name = Some paths ->
    path ∈ paths -> normal_abs path /\ file_name path = Some name;
  wf_pending : forall v r, v ∈ b_pending_example_validations b -> r ∈ pv_rules v ->
    r ∈ default [] (b_rules_by_program b !! program r);
}.

Lemma builder_wf_new : builder_wf builder_new.
Proof. split; cbn; intros *; rewrite ?lookup_empty; cbn; rewrite ?elem_of_nil; done. Qed.

Lemma elem_of_multimap_insert k r m p x :
  x ∈ default [] (multimap_insert k r m !! p) <-> x ∈ default [] (m !! p) \/ (k = p /\ x = r).
Proof.
  rewrite multimap_insert_lookup, elem_of_app. case_bool_decide.
  - rewrite list_elem_of_singleton. tauto.
  - rewrite elem_of_nil. tauto.
Qed.

(** Adding rules one by one. *)
Lemma foldl_add_rule b rules :
  let b' := foldl add_rule b rules in
  (forall p x, x ∈ default [] (b_rules_by_program b' !! p)
               <-> x ∈ default [] (b_rules_by_program b !! p) \/ (x ∈ rules /\ program x = p))
  /\ b_network_rules b' = b_network_rules b
  /\ b_host_executables_by_name b' = b_host_executables_by_name b
  /\ b_pending_example_validations b' = b_pending_example_validations b.
Proof.
  revert b. induction rules as [|r rules IH]; intros b b'; subst b'; cbn [foldl].
  { split; [|done]. intros p x. rewrite elem_of_nil. tauto. }
  destruct (IH (add_rule b r)) as (H1 & H2 & H3 & H4). split; [|done].
  intros p x. rewrite H1. cbn [add_rule b_rules_by_program].
  rewrite elem_of_multimap_insert, elem_of_cons. intuition (subst; auto).
Qed.

Section builder_lemmas.
Context {StarlarkError : Type}.
Context (home_dir cwd : option str).
Context (shlex_split : str -> option (list str)) (try_join : list str -> option str)
        (debug_rule : PrefixRule -> str) (debug_match : RuleMatch -> str).

Lemma parse_host_paths_wf name paths acc paths' :
  parse_host_paths (StarlarkError := StarlarkError) home_dir cwd name paths acc = Ok paths' ->
  Forall (fun path => normal_abs path /\ file_name path = Some name) acc ->
  Forall (fun path => normal_abs path /\ file_name path = Some name) paths'.
Proof.
  revert acc. induction paths as [|v paths IH]; intros acc; cbn [parse_host_paths].
  { by intros [= <-]. }
  intros H Hacc. apply result_bind_Ok in H as (raw & _ & H).
  apply result_bind_Ok in H as (path & Hp & H).
  unfold parse_literal_absolute_path in Hp. destruct (is_absolute raw) eqn:Ha; [|done].
  cbn [negb] in Hp. unfold from_absolute_path in Hp. rewrite expand_absolute, Ha in Hp by done.
  injection Hp as <-.
  assert (normal_abs (normalize_path raw)) as Hn.
  { pose proof (absolutize_from_normal raw (lit "/") eq_refl) as Hn.
    unfold absolutize_from, path_with_base in Hn. by rewrite Ha in Hn. }
  unfold executable_path_lookup_key in H.
  destruct (file_name (normalize_path raw)) as [f|] eqn:Ef; cbn [fmap option_fmap option_map] in H; [|done].
  unfold executable_lookup_key in H. case_bool_decide as Hf; [|done]. cbn [negb] in H. subst f.
  eapply IH; [exact H|]. destruct (negb _); [|done]. apply Forall_app. split; [done|].
  by apply Forall_singleton.
Qed.

Lemma run_builtin_wf b call b' :
  run_builtin (StarlarkError := StarlarkError) home_dir cwd shlex_split b call = Ok b' ->
  builder_wf b -> builder_wf b'.
Proof.
  intros H [W1 W2 W3]. destruct call as [pat d m nm j loc|host p d j|name paths]; cbn [run_builtin] in H.
  - unfold prefix_rule in H.
    apply result_bind_Ok in H as (d' & _ & H). apply result_bind_Ok in H as (j' & _ & H).
    apply result_bind_Ok in H as (ts & _ & H). apply result_bind_Ok in H as (ms & _ & H).
    apply result_bind_Ok in H as (nms & _ & H). destruct ts as [|t rest]; [done|].
    injection H as <-. set (rules := map _ _).
    set (b1 := add_pending_example_validation _ _).
    destruct (foldl_add_rule b1 rules) as (H1 & H2 & H3 & H4). split.
    + intros q r Hr. apply H1 in Hr as [Hr|[_ Hr]]; [by apply W1|done].
    + rewrite H3. exact W2.
    + rewrite H4. intros v r Hv Hr. apply H1. cbn in Hv. apply elem_of_app in Hv as [Hv|Hv].
      * left. by eapply W3.
      * apply list_elem_of_singleton in Hv as ->. by right.
  - unfold network_rule in H.
    apply result_bind_Ok in H as (p' & _ & H). apply result_bind_Ok in H as (d' & _ & H).
    apply result_bind_Ok in H as (j' & _ & H). apply result_bind_Ok in H as (h' & _ & H).
    injection H as <-. by split.
  - unfold host_executable in H. apply result_bind_Ok in H as (? & _ & H).
    apply result_bind_Ok in H as (ps & Hps & [= <-]).
    apply parse_host_paths_wf in Hps; [|constructor]. split; [done| |done].
    intros n ps' path. cbn. unfold executable_lookup_key. destruct (decide (name = n)) as [->|Hne].
    + rewrite lookup_insert_eq. intros [= <-]. rewrite Forall_forall in Hps. apply Hps.
    + rewrite lookup_insert_ne by done. apply W2.
Qed.

Context (starlark_eval : str -> str -> result StarlarkError (list Builtin * option StarlarkError))
        (starlark_of : Error StarlarkError -> StarlarkError).

Lemma run_builtins_wf calls b b' r :
  run_builtins home_dir cwd shlex_split starlark_of b calls = (b', r) -> builder_wf b -> builder_wf b'.
Proof.
  revert b. induction calls as [|c calls IH]; intros b; cbn [run_builtins]; [by intros [= <- _]|].
  destruct (run_builtin _ _ _ b c) as [b1|e] eqn:E; [|by intros [= <- _]].
  intros H Hw. eapply IH; [exact H|]. by eapply run_builtin_wf.
Qed.

Lemma validate_not_match_Ok policy l :
  validate_not_match_examples (E := StarlarkError) home_dir cwd try_join debug_match policy l = Ok tt ->
  Forall (fun ex => example_matches home_dir cwd policy ex = []) l.
Proof.
  induction l as [|ex l IH]; cbn [validate_not_match_examples]; [constructor|].
  destruct (example_matches home_dir cwd policy ex) eqn:E; [|done]. intros H. constructor; auto.
Qed.

Lemma validate_match_Ok policy rules l :
  validate_match_examples (E := StarlarkError) home_dir cwd try_join debug_rule policy rules l = Ok tt ->
  Forall (fun ex => example_matches home_dir cwd policy ex <> []) l.
Proof.
  unfold validate_match_examples. induction l as [|ex l IH]; [constructor|]. cbn [List.filter].
  destruct (example_matches home_dir cwd policy ex) eqn:E; cbn [is_empty]; [done|].
  intros H. constructor; [by rewrite E|by apply IH].
Qed.

Lemma validate_all_Ok b l :
  validate_all (StarlarkError := StarlarkError) home_dir cwd try_join debug_rule debug_match b l = Ok tt ->
  Forall (fun v =>
    Forall (fun ex => example_matches home_dir cwd (validation_policy b v) ex = []) (pv_not_matches v)
    /\ Forall (fun ex => example_matches home_dir cwd (validation_policy b v) ex <> []) (pv_matches v)) l.
Proof.
  induction l as [|v l IH]; cbn [validate_all]; [constructor|].
  intros ([] & Hv & H)%result_bind_Ok. constructor; [|by apply IH].
  unfold validate_one in Hv. apply result_bind_Ok in Hv as ([] & H1 & H2).
  apply map_err_Ok in H1, H2.
  split; [by apply validate_not_match_Ok|by eapply validate_match_Ok].
Qed.
End builder_lemmas.

Lemma example_matches_eq home_dir cwd p ex :
  example_matches home_dir cwd p ex
  = match exact_matches p ex with
    | [] => match_host_executable_rules home_dir cwd p ex
    | l => l
    end.
Proof.
  unfold example_matches, matches_for_command_with_options.
  change (match match_exact_rules p ex with Some m => m | None => [] end) with (exact_matches p ex).
  by destruct (exact_matches p ex).
Qed.

(** A policy with more rules and the same host executables matches more. *)
Lemma example_matches_mono home_dir cwd p p' ex :
  (forall prog r, r ∈ default [] (rules_by_program p !! prog) ->
                  r ∈ default [] (rules_by_program p' !! prog)) ->
  host_executables_by_name p = host_executables_by_name p' ->
  example_matches home_dir cwd p ex <> [] -> example_matches home_dir cwd p' ex <> [].
Proof.
  intros Hr Hh. rewrite !example_matches_eq.
  destruct (exact_matches p' ex) as [|m' l'] eqn:E'; [|done].
  assert (forall m, m ∈ exact_matches p ex -> False) as Hnone.
  { intros m (first & r & Hf & Hin & Hm)%elem_of_exact_matches.
    assert (m ∈ exact_matches p' ex) as H.
    { apply elem_of_exact_matches. exists first, r. auto. }
    rewrite E' in H. by apply elem_of_nil in H. }
  destruct (exact_matches p ex) as [|m l]; [|by destruct (Hnone m); left].
  intros Hne E. destruct (match_host_executable_rules home_dir cwd p ex) as [|m l] eqn:Em; [done|].
  assert (m ∈ match_host_executable_rules home_dir cwd p' ex) as H.
  { apply elem_of_host_matches. assert (host_match home_dir cwd p ex m) as Hm
      by (apply elem_of_host_matches; rewrite Em; by left).
    destruct Hm as (first & args & resolved & basename & rule & m0 & H1 & H2 & H3 & H4 & H5 & H6 & H7).
    exists first, args, resolved, basename, rule, m0. rewrite <- Hh. split_and!; auto. }
  rewrite E in H. by apply elem_of_nil in H.
Qed.

(** ** The property of loading *)

Lemma validation_rules_lookup rules p r :
  r ∈ default [] (foldl (fun m rule => multimap_insert (program rule) rule m)
                    (∅ : gmap str (list PrefixRule)) rules !! p)
  -> r ∈ rules /\ program r = p.
Proof.
  assert (forall m, r ∈ default [] (foldl (fun m rule => multimap_insert (program rule) rule m) m rules !! p)
            -> r ∈ default [] (m !! p) \/ (r ∈ rules /\ program r = p)) as H.
  { induction rules as [|x rules IH]; intros m; cbn [foldl]; [by left|].
    intros [Hm|[Hin Hp]]%IH; [|right; split; [by right|done]].
    apply elem_of_multimap_insert in Hm as [Hm|[Hp ->]]; [by left|]. right. split; [by left|done]. }
  intros Hr. apply H in Hr as [Hr|Hr]; [|done]. rewrite lookup_empty in Hr. by apply elem_of_nil in Hr.
Qed.

(** Loading a policy file, whatever it calls and whether it succeeds, keeps
    the policy under construction well formed (each rule under its own
    program, host executables under the file name of their absolute,
    normalised paths); and if it succeeds, every [match] example of the file
    is matched by the policy that is built and no [not_match] example is
    matched by the rules it was given with. *)
Theorem parse_validates {StarlarkError : Type} (home_dir cwd : option str)
    (shlex_split : str -> option (list str)) (try_join : list str -> option str)
    (debug_rule : PrefixRule -> str) (debug_match : RuleMatch -> str)
    (starlark_eval : str -> str -> result StarlarkError (list Builtin * option StarlarkError))
    (starlark_of : Error StarlarkError -> StarlarkError)
    (b b' : PolicyBuilder) (policy_identifier policy_file_contents : str)
    (r : result (Error StarlarkError) unit) :
  builder_wf b ->
  parse home_dir cwd shlex_split try_join debug_rule debug_match starlark_eval starlark_of
    b policy_identifier policy_file_contents = (b', r) ->
  builder_wf b'
  /\ (r = Ok tt ->
      Forall (fun v =>
        Forall (fun ex => example_matches home_dir cwd (validation_policy b' v) ex = []) (pv_not_matches v)
        /\ Forall (fun ex => example_matches home_dir cwd (build b') ex <> []) (pv_matches v))
        (drop (length (b_pending_example_validations b)) (b_pending_example_validations b'))).
Proof.
  unfold parse. intros Hw H.
  destruct (starlark_eval _ _) as [[calls final]|e]; [|by injection H as <- <-].
  destruct (run_builtins _ _ _ _ b calls) as [b1 [u|e]] eqn:E;
    apply run_builtins_wf in E; try done; [|by injection H as <- <-].
  destruct final as [e|]; [by injection H as <- <-|]. injection H as <- <-.
  split; [done|]. unfold validate_pending_examples_from. intros Hv%validate_all_Ok.
  apply Forall_forall. intros v Hvin. rewrite Forall_forall in Hv.
  destruct (Hv v Hvin) as [Hn Hm]. split; [done|].
  eapply Forall_impl; [exact Hm|]. intros ex. apply example_matches_mono; [|done].
  intros prog x Hx. apply validation_rules_lookup in Hx as [Hx <-].
  eapply (wf_pending _ E); [|done]. by eapply subseteq_drop.
Qed.

(** A file with one rule and one example of each kind; errors are texts. *)
Definition sample_eval (_ _ : str) : result str (list Builtin * option str) :=
  Ok ([prefix_rule_call [VStr (lit "git"); VList [VStr (lit "push"); VStr (lit "pull")]]
         (Some (lit "forbidden")) (Some [VStr (lit "git push")])
         (Some [VList [VStr (lit "git"); VStr (lit "log")]]) None None], None).

Definition sample_parse : PolicyBuilder * result (Error str) unit :=
  parse None None (fun s => Some (split_char (ch " ") s)) (fun l => Some (join (lit " ") l))
    (fun _ => []) (fun _ => []) sample_eval (fun _ => []) builder_new [] [].

Lemma parse_validates_witness :
  snd sample_parse = Ok tt
  /\ Forall (fun v => Forall (fun ex => example_matches None None (build (fst sample_parse)) ex <> [])
                       (pv_matches v)) (b_pending_example_validations (fst sample_parse))
  /\ map pv_matches (b_pending_example_validations (fst sample_parse)) = [[[lit "git"; lit "push"]]].
Proof.
  split; [vm_compute; reflexivity|]. split; [|vm_compute; reflexivity].
  assert (snd sample_parse = Ok tt) as E by (vm_compute; reflexivity).
  pose proof (proj2 (parse_validates None None (fun s => Some (split_char (ch " ") s))
    (fun l => Some (join (lit " ") l)) (fun _ => []) (fun _ => []) sample_eval (fun _ => [])
    builder_new (fst sample_parse) [] [] (snd sample_parse) builder_wf_new
    (surjective_pairing sample_parse)) E) as H.
  change (drop _ ?l) with l in H. eapply Forall_impl; [exact H|]. by intros v [_ Hm].
Defined.
