(* ===== verification/PolicyAmend.v ===== *)
(** * Appending rules to a policy file: [execpolicy/src/amend.rs]

    The rule line and the locked append, over the operating system's calls on
    one policy file ([PolicyFile]).  [serde_json::to_string] on a string is a
    parameter. *)

From S2P Require Import Prelude Paths Utf8 FileSystem ExecPolicy.
Local Open Scope str_scope.

Inductive AmendError (JsonError : Type) : Type :=
| EmptyPrefix
| InvalidNetworkRule (message : str)
| MissingParent (path : str)
| CreatePolicyDir (dir : str) (source : io_Error)
| SerializePrefix (source : JsonError)
| SerializeNetworkRule (source : JsonError)
| OpenPolicyFile (path : str) (source : io_Error)
| WritePolicyFile (path : str) (source : io_Error)
| LockPolicyFile (path : str) (source : io_Error)
| SeekPolicyFile (path : str) (source : io_Error)
| ReadPolicyFile (path : str) (source : io_Error).
Arguments EmptyPrefix {_}.
Arguments InvalidNetworkRule {_} message.
Arguments MissingParent {_} path.
Arguments CreatePolicyDir {_} dir source.
Arguments SerializePrefix {_} source.
Arguments SerializeNetworkRule {_} source.
Arguments OpenPolicyFile {_} path source.
Arguments WritePolicyFile {_} path source.
Arguments LockPolicyFile {_} path source.
Arguments SeekPolicyFile {_} path source.
Arguments ReadPolicyFile {_} path source.

(** [std::fs] on one policy file opened with [create], [read] and [append]:
    reading gives the text from the position, writing appends. *)
Class PolicyFile (S : Type) : Type := {
  create_dir : str -> S -> S * result io_Error unit;
  open_append : str -> S -> S * result io_Error unit;
  lock_file : S -> S * result io_Error unit;
  seek_start : S -> S * result io_Error unit;
  read_to_string : S -> S * result io_Error str;
  write_all : str -> S -> S * result io_Error unit;
}.

(** [Display] of the errors [normalize_network_rule_host] makes. *)
Definition show_rule_error {E} (e : Error E) : str :=
  match e with
  | InvalidDecision s => lit "invalid decision: " ++ s
  | InvalidPattern s => lit "invalid pattern element: " ++ s
  | InvalidExample s => lit "invalid example: " ++ s
  | InvalidRule s => lit "invalid rule: " ++ s
  | ExampleDidNotMatch _ _ _ | ExampleDidMatch _ _ _ | Starlark _ => []
  end.

Section amend.
Context {JsonError S : Type} `{PolicyFile S}.
Context (to_json : str -> result JsonError str).

Abbreviation Amend := (M S (AmendError JsonError)).

Definition append_locked_line (policy_path line : str) : Amend unit :=
  _ ← map_errM (OpenPolicyFile policy_path) (call (open_append policy_path));
  _ ← map_errM (LockPolicyFile policy_path) (call lock_file);
  _ ← map_errM (SeekPolicyFile policy_path) (call seek_start);
  contents ← map_errM (ReadPolicyFile policy_path) (call read_to_string);
  if existsb (fun existing => existing =? line) (lines contents) then mret tt
  else
    _ ← (if negb (is_empty contents) && negb (ends_with contents [NL])
         then map_errM (WritePolicyFile policy_path) (call (write_all [NL]))
         else mret tt);
    map_errM (WritePolicyFile policy_path) (call (write_all (line ++ [NL]))).

Definition append_rule_line (policy_path rule : str) : Amend unit :=
  match parent policy_path with
  | None => throw (MissingParent policy_path)
  | Some dir =>
      _ ← catch (call (create_dir dir)) (fun source =>
            if bool_decide (io_kind source = AlreadyExists) then mret tt
            else throw (CreatePolicyDir dir source));
      append_locked_line policy_path rule
  end.

Definition quoted (s : str) : str := [34%N] ++ s ++ [34%N].

Definition allow_prefix_rule_line (tokens : list str) : str :=
  let pattern := lit "[" ++ join (lit ", ") tokens ++ lit "]" in
  lit "prefix_rule(pattern=" ++ pattern ++ lit ", decision=" ++ quoted (lit "allow") ++ lit ")".

Definition blocking_append_allow_prefix_rule (policy_path : str) (prefix : list str) : Amend unit :=
  if is_empty prefix then throw EmptyPrefix
  else
    tokens ← of_result (map_err SerializePrefix (collect (map to_json prefix)));
    append_rule_line policy_path (allow_prefix_rule_line tokens).

Definition blocking_append_network_rule (policy_path host : str) (protocol : NetworkRuleProtocol)
    (decision : Decision) (justification : option str) : Amend unit :=
  host ← of_result (map_err (fun err => InvalidNetworkRule (show_rule_error err))
                      (normalize_network_rule_host (E := Empty_set) host));
  if match justification with Some raw => is_empty (trim raw) | None => false end
  then throw (InvalidNetworkRule (lit "justification cannot be empty"))
  else
    let json s := of_result (map_err SerializeNetworkRule (to_json s)) : Amend str in
    host ← json host;
    protocol ← json (as_policy_string protocol);
    decision ← json (match decision with
                     | Allow => lit "allow"
                     | Prompt => lit "prompt"
                     | Forbidden => lit "deny"
                     end);
    let args := [lit "host=" ++ host; lit "protocol=" ++ protocol; lit "decision=" ++ decision] in
    args ← (match justification with
            | Some justification =>
                justification ← json justification;
                mret (args ++ [lit "justification=" ++ justification])
            | None => mret args
            end);
    append_rule_line policy_path (lit "network_rule(" ++ join (lit ", ") args ++ lit ")").
End amend.

(** ** A policy file in memory *)

Record MemFile : Type := mkMemFile { mf_dir_exists : bool; mf_contents : str }.

#[global] Instance mem_policy_file : PolicyFile MemFile := {
  create_dir _ s :=
    if mf_dir_exists s then (s, Err (io_error_new AlreadyExists (lit "file exists")))
    else (mkMemFile true (mf_contents s), Ok tt);
  open_append _ s := (s, Ok tt);
  lock_file s := (s, Ok tt);
  seek_start s := (s, Ok tt);
  read_to_string s := (s, Ok (mf_contents s));
  write_all t s := (mkMemFile (mf_dir_exists s) (mf_contents s ++ t), Ok tt);
}.

(** ** What the append does to a file's text *)

Definition appended (contents line : str) : str :=
  if existsb (fun existing => existing =? line) (lines contents) then contents
  else contents ++ (if negb (is_empty contents) && negb (ends_with contents [NL]) then [NL] else [])
       ++ line ++ [NL].

Lemma append_locked_line_mem {JsonError} path line s :
  append_locked_line (JsonError := JsonError) path line s
  = Some (mkMemFile (mf_dir_exists s) (appended (mf_contents s) line), Ok tt).
Proof.
  destruct s as [d c]. unfold append_locked_line, appended, map_errM, call, mbind, M_bind.
  cbn -[lit NL existsb lines ends_with].
  destruct (existsb _ (lines c)); [done|].
  destruct (negb (is_empty c) && negb (ends_with c [NL])); cbn -[lit NL]; by rewrite <- ?app_assoc.
Qed.

Lemma lines_app_newline s t :
  lines (s ++ NL :: t) = lines (s ++ [NL]) ++ lines t.
Proof.
  unfold lines. rewrite !split_char_app. change (split_char NL []) with [[] : str].
  generalize (split_char_not_nil NL t). generalize (split_char NL t) as u. intros u Hu.
  induction (split_char NL s) as [|x k IH]; [done|]. cbn [app lines_of_pieces].
  destruct (k ++ u) as [|y l] eqn:E1; [by apply app_eq_nil in E1 as [_ ?]|].
  destruct (k ++ [[]]) as [|y' l'] eqn:E2; [by destruct k|].
  cbn [app]. by rewrite IH.
Qed.

Lemma lines_one s : wf_line s -> lines (s ++ [NL]) = [s].
Proof.
  intros [Hn Hc]. unfold lines. rewrite split_char_app_sep by done. cbn.
  by rewrite strip_cr_id.
Qed.

(** After the append the line is there, and appending it again changes
    nothing. *)
Lemma appended_in contents line : wf_line line -> line ∈ lines (appended contents line).
Proof.
  intros Hw. unfold appended. destruct (existsb _ _) eqn:E.
  { apply existsb_exists in E as (l & Hin & ->%bool_decide_eq_true). by apply list_elem_of_In. }
  clear E. destruct contents as [|c contents]; cbn [is_empty negb andb].
  { cbn [app]. rewrite lines_one by done. by left. }
  destruct (ends_with (c :: contents) [NL]) eqn:Ee; cbn [negb app].
  - unfold ends_with in Ee. destruct (strip_suffix [NL] (c :: contents)) as [s|] eqn:Es; [|done].
    apply strip_suffix_Some in Es. rewrite app_comm_cons, Es, <- app_assoc. cbn [app].
    rewrite lines_app_newline, elem_of_app, (lines_one line) by done. right. by left.
  - rewrite app_comm_cons, lines_app_newline, elem_of_app, (lines_one line) by done. right. by left.
Qed.

Lemma appended_idemp contents line :
  wf_line line -> appended (appended contents line) line = appended contents line.
Proof.
  intros Hw. unfold appended at 1.
  assert (existsb (fun existing => existing =? line) (lines (appended contents line)) = true) as ->; [|done].
  apply existsb_exists. exists line. split; [|by apply bool_decide_eq_true].
  by apply list_elem_of_In, appended_in.
Qed.

Lemma appended_prefix contents line : exists t, appended contents line = contents ++ t.
Proof. unfold appended. destruct (existsb _ _); [exists []; by rewrite app_nil_r|eauto]. Qed.

(** ** The line that is written has no line break *)

Definition no_break (s : str) : Prop := Forall (fun c => c <> NL /\ c <> CR) s.

Lemma no_break_wf s : no_break s -> wf_line s.
Proof.
  intros H. unfold no_break in H. rewrite Forall_forall in H. split.
  - intros Hin. by destruct (H _ Hin).
  - intros [s' ->]%last_Some. destruct (H CR); [|done]. apply elem_of_app. right. by left.
Qed.

Lemma no_break_lit (s : string) : bool_decide (no_break (lit s)) = true -> no_break (lit s).
Proof. apply bool_decide_eq_true_1. Qed.

Lemma no_break_join sep l : no_break sep -> Forall no_break l -> no_break (join sep l).
Proof.
  intros Hs. induction 1 as [|x l Hx Hl IH]; [constructor|]. cbn [join].
  destruct l; [done|]. by repeat (apply Forall_app; split).
Qed.

Lemma collect_Forall {A B E} (f : A -> result E B) (P : B -> Prop) l k :
  collect (map f l) = Ok k -> (forall x y, f x = Ok y -> P y) -> Forall P k.
Proof.
  intros H HP. revert k H. induction l as [|x l IH]; intros k; cbn; [by intros [= <-]|].
  intros (y & Hy & (ys & Hys & [= <-])%result_bind_Ok)%result_bind_Ok. constructor; eauto.
Qed.

Ltac no_break_tac :=
  repeat (apply Forall_app; split);
  first [apply no_break_lit; vm_compute; reflexivity | done | idtac].

Lemma allow_prefix_rule_line_wf tokens :
  Forall no_break tokens -> no_break (allow_prefix_rule_line tokens).
Proof.
  intros H. unfold allow_prefix_rule_line, quoted, no_break. no_break_tac.
  - apply no_break_join; [|done]. apply no_break_lit. vm_compute. reflexivity.
  - by repeat constructor.
  - by repeat constructor.
Qed.

Lemma append_rule_line_mem {JsonError} path dir rule s :
  parent path = Some dir ->
  append_rule_line (JsonError := JsonError) path rule s
  = Some (mkMemFile true (appended (mf_contents s) rule), Ok tt).
Proof.
  intros Hp. unfold append_rule_line. rewrite Hp. destruct s as [[] c];
    unfold catch, call, mbind, M_bind; cbn [create_dir mem_policy_file mf_dir_exists io_kind];
    rewrite ?bool_decide_eq_true_2 by done; cbn [mret M_ret];
    rewrite append_locked_line_mem; reflexivity.
Qed.

(** Appending an allow rule for a prefix to the policy file succeeds, leaves
    the file's text in front as it was, adds the rule's line unless it is
    there, on a line of its own, and doing it again changes nothing, for a
    JSON encoder that never writes a raw line break. *)
Theorem append_allow_prefix_rule_spec {JsonError : Type} (to_json : str -> result JsonError str)
    (policy_path dir : str) (prefix tokens : list str) (s : MemFile) :
  (forall x j, to_json x = Ok j -> no_break j) ->
  prefix <> [] -> collect (map to_json prefix) = Ok tokens -> parent policy_path = Some dir ->
  exists s', blocking_append_allow_prefix_rule to_json policy_path prefix s = Some (s', Ok tt)
  /\ allow_prefix_rule_line tokens ∈ lines (mf_contents s')
  /\ (exists t, mf_contents s' = mf_contents s ++ t)
  /\ blocking_append_allow_prefix_rule to_json policy_path prefix s' = Some (s', Ok tt).
Proof.
  intros Hj Hne Ht Hp.
  assert (wf_line (allow_prefix_rule_line tokens)) as Hw.
  { apply no_break_wf, allow_prefix_rule_line_wf. by eapply collect_Forall. }
  assert (forall s, blocking_append_allow_prefix_rule to_json policy_path prefix s
            = Some (mkMemFile true (appended (mf_contents s) (allow_prefix_rule_line tokens)), Ok tt)) as Hrun.
  { intros s0. unfold blocking_append_allow_prefix_rule. destruct prefix as [|x prefix]; [done|].
    rewrite Ht. cbn [is_empty map_err]. unfold of_result, mbind, M_bind.
    by rewrite (append_rule_line_mem _ dir). }
  eexists. split; [apply Hrun|]. cbn [mf_contents]. split; [by apply appended_in|].
  split; [apply appended_prefix|]. rewrite Hrun. cbn [mf_contents]. by rewrite appended_idemp.
Qed.

(** A JSON encoder for plain texts. *)
Definition sample_json (s : str) : result unit str :=
  if bool_decide (no_break s) then Ok (quoted s) else Err tt.

Lemma append_allow_prefix_rule_spec_witness :
  exists s', blocking_append_allow_prefix_rule sample_json (lit "/h/rules/default.rules")
               [lit "git"; lit "pull"] (mkMemFile false (lit "# rules")) = Some (s', Ok tt)
  /\ (exists t, mf_contents s' = lit "# rules" ++ t).
Proof.
  destruct (append_allow_prefix_rule_spec sample_json (lit "/h/rules/default.rules") (lit "/h/rules")
              [lit "git"; lit "pull"] [quoted (lit "git"); quoted (lit "pull")]
              (mkMemFile false (lit "# rules"))) as (s' & H1 & _ & H2 & _).
  - intros x j. unfold sample_json. case_bool_decide as Hx; [|done]. intros [= <-].
    apply Forall_app. split; [by repeat constructor|]. apply Forall_app. split; [done|by repeat constructor].
  - done.
  - vm_compute. reflexivity.
  - vm_compute. reflexivity.
  - exists s'. exact (conj H1 H2).
Defined.

(** What was written to disk can be added to the policy in memory: the checks
    of the two paths agree. *)
Lemma append_network_rule_agrees {JsonError S} `{PolicyFile S} (to_json : str -> result JsonError str)
    policy_path host protocol d justification (s s' : S) (p : Policy) :
  blocking_append_network_rule to_json policy_path host protocol d justification s = Some (s', Ok tt) ->
  exists p', add_network_rule (E := Empty_set) p host protocol d justification = Ok p'.
Proof.
  unfold blocking_append_network_rule, add_network_rule. intros Hr.
  apply M_bind_Some in Hr as [(s1 & h & Hh & Hr)|(e & _ & ?)]; [|done].
  unfold of_result in Hh. injection Hh as -> Hh. apply map_err_Ok in Hh. rewrite Hh. cbn.
  destruct justification as [j|]; cbn in Hr |- *; [|eauto].
  destruct (is_empty (trim j)); [done|eauto].
Qed.
