(* ===== verification/Approval.v ===== *)
(** * Approval of commands: [core/src/exec_policy.rs]

    From a command and the session's settings to "run", "ask" or "refuse":
    the commands of a script, the policy's evaluation with the heuristics for
    unmatched commands, the proposed amendments and the reasons, and the
    manager that appends a rule to disk and to the policy in memory.  The
    bash grammar, the PowerShell parser and [shlex] are parameters. *)

From S2P Require Import Prelude Paths Utf8 FileSystem HostPaths Permissions ShellParse CommandSafety ExecPolicy PolicyAmend.
Local Open Scope str_scope.

(** ** Requirements ([core/src/tools/sandboxing.rs]) *)

(** [ExecPolicyAmendment { command }] *)
Abbreviation ExecPolicyAmendment := (list str).

Inductive ExecApprovalRequirement : Type :=
| Skip (bypass_sandbox : bool) (proposed_execpolicy_amendment : option ExecPolicyAmendment)
| NeedsApproval (reason : option str) (proposed_execpolicy_amendment : option ExecPolicyAmendment)
| ForbiddenReq (reason : str).

Definition proposed_execpolicy_amendment (r : ExecApprovalRequirement) : option ExecPolicyAmendment :=
  match r with
  | NeedsApproval _ (Some prefix) => Some prefix
  | Skip _ (Some prefix) => Some prefix
  | _ => None
  end.

Definition default_exec_approval_requirement (policy : AskForApproval)
    (file_system_sandbox_policy : FileSystemSandboxPolicy) : ExecApprovalRequirement :=
  let needs_approval :=
    match policy with
    | Never | OnFailure => false
    | OnRequest | Granular _ =>
        match fs_kind file_system_sandbox_policy with Restricted => true | _ => false end
    | UnlessTrusted => true
    end in
  if needs_approval
     && match policy with Granular config => negb (sandbox_approval config) | _ => false end
  then ForbiddenReq (lit "approval policy disallowed sandbox approval prompt")
  else if needs_approval then NeedsApproval None None
  else Skip false None.

Inductive SandboxOverride : Type := NoOverride | BypassSandboxFirstAttempt.

Definition sandbox_override_for_first_attempt (sandbox_permissions : SandboxPermissions)
    (exec_approval_requirement : ExecApprovalRequirement) : SandboxOverride :=
  if requires_escalated_permissions sandbox_permissions
     || match exec_approval_requirement with Skip true _ => true | _ => false end
  then BypassSandboxFirstAttempt
  else NoOverride.

(** ** Constants *)

Definition PROMPT_CONFLICT_REASON : str :=
  lit "approval required by policy, but AskForApproval is set to Never".
Definition REJECT_SANDBOX_APPROVAL_REASON : str :=
  lit "approval required by policy, but AskForApproval::Granular.sandbox_approval is false".
Definition REJECT_RULES_APPROVAL_REASON : str :=
  lit "approval required by policy rule, but AskForApproval::Granular.rules is false".

Definition BANNED_PREFIX_SUGGESTIONS : list (list str) :=
  map (map lit)
    [["python3"]; ["python3"; "-"]; ["python3"; "-c"]; ["python"]; ["python"; "-"]; ["python"; "-c"];
     ["py"]; ["py"; "-3"]; ["pythonw"]; ["pyw"]; ["pypy"]; ["pypy3"]; ["git"]; ["bash"];
     ["bash"; "-lc"]; ["sh"]; ["sh"; "-c"]; ["sh"; "-lc"]; ["zsh"]; ["zsh"; "-lc"]; ["/bin/zsh"];
     ["/bin/zsh"; "-lc"]; ["/bin/bash"]; ["/bin/bash"; "-lc"]; ["pwsh"]; ["pwsh"; "-Command"];
     ["pwsh"; "-c"]; ["powershell"]; ["powershell"; "-Command"]; ["powershell"; "-c"];
     ["powershell.exe"]; ["powershell.exe"; "-Command"]; ["powershell.exe"; "-c"]; ["env"]; ["sudo"];
     ["node"]; ["node"; "-e"]; ["perl"]; ["perl"; "-e"]; ["ruby"]; ["ruby"; "-e"]; ["php"];
     ["php"; "-r"]; ["lua"]; ["lua"; "-e"]; ["osascript"]]%string.

(** ** Decisions *)

Definition is_policy_match (m : RuleMatch) : bool :=
  match m with PrefixRuleMatch _ _ _ _ => true | HeuristicsRuleMatch _ _ => false end.

Definition prompt_is_rejected_by_policy (approval_policy : AskForApproval) (prompt_is_rule : bool)
  : option str :=
  match approval_policy with
  | Never => Some PROMPT_CONFLICT_REASON
  | OnFailure | OnRequest | UnlessTrusted => None
  | Granular granular_config =>
      if prompt_is_rule then
        if negb (rules_approval granular_config) then Some REJECT_RULES_APPROVAL_REASON else None
      else if negb (sandbox_approval granular_config) then Some REJECT_SANDBOX_APPROVAL_REASON
      else None
  end.

Definition policy_match_with (d : Decision) (m : RuleMatch) : bool :=
  is_policy_match m && bool_decide (rule_match_decision m = d).

(** The first heuristic match with decision [d]. *)
Definition find_heuristic (d : Decision) (matched_rules : list RuleMatch)
  : option ExecPolicyAmendment :=
  head (omap (fun m => match m with
                       | HeuristicsRuleMatch command d' =>
                           if bool_decide (d' = d) then Some command else None
                       | _ => None
                       end) matched_rules).

Definition try_derive_execpolicy_amendment_for_prompt_rules (matched_rules : list RuleMatch)
  : option ExecPolicyAmendment :=
  if existsb (policy_match_with Prompt) matched_rules then None
  else find_heuristic Prompt matched_rules.

Definition try_derive_execpolicy_amendment_for_allow_rules (matched_rules : list RuleMatch)
  : option ExecPolicyAmendment :=
  if existsb is_policy_match matched_rules then None
  else find_heuristic Allow matched_rules.

(** The matched prefix and justification of the rule matches with decision [d]. *)
Definition rule_reasons (d : Decision) (matched_rules : list RuleMatch) : list (list str * option str) :=
  omap (fun m => match m with
                 | PrefixRuleMatch matched_prefix d' _ justification =>
                     if bool_decide (d' = d) then Some (matched_prefix, justification) else None
                 | _ => None
                 end) matched_rules.

Definition most_specific (d : Decision) (matched_rules : list RuleMatch)
  : option (list str * option str) :=
  max_by (fun a b => length (fst a) <=? length (fst b))%nat (rule_reasons d matched_rules).

Section approval.
Context (try_parse_shell : str -> option Tree).
Context (parse_with_powershell_ast : str -> str -> PowershellParseOutcome).
Context (shlex_try_join : list str -> option str).
Context (home_dir cwd : option str).

Definition render_shlex_command (args : list str) : str :=
  match shlex_try_join args with Some s => s | None => join (lit " ") args end.

Definition tick : str := lit "`".

Definition derive_prompt_reason (command_args : list str) (evaluation : Evaluation) : option str :=
  let command := render_shlex_command command_args in
  match most_specific Prompt (matched_rules evaluation) with
  | Some (_, Some justification) =>
      Some (tick ++ command ++ lit "` requires approval: " ++ justification)
  | Some (_, None) => Some (tick ++ command ++ lit "` requires approval by policy")
  | None => None
  end.

Definition derive_forbidden_reason (command_args : list str) (evaluation : Evaluation) : str :=
  let command := render_shlex_command command_args in
  match most_specific Forbidden (matched_rules evaluation) with
  | Some (_, Some justification) => tick ++ command ++ lit "` rejected: " ++ justification
  | Some (matched_prefix, None) =>
      tick ++ command ++ lit "` rejected: policy forbids commands starting with `"
      ++ render_shlex_command matched_prefix ++ tick
  | None => tick ++ command ++ lit "` rejected: blocked by policy"
  end.

(** On Linux: [environment_lacks_sandbox_protections] is false. *)
Definition render_decision_for_unmatched_command (approval_policy : AskForApproval)
    (permission_profile : PermissionProfile)
    (file_system_sandbox_policy : FileSystemSandboxPolicy)
    (command : list str) (sandbox_permissions : SandboxPermissions) (used_complex_parsing : bool)
  : Decision :=
  if is_known_safe_command try_parse_shell parse_with_powershell_ast command
     && negb used_complex_parsing
  then Allow
  else if command_might_be_dangerous try_parse_shell command then
    match approval_policy with
    | Never =>
        match permission_profile with
        | Disabled | External _ => Allow
        | Managed _ _ => Forbidden
        end
    | OnFailure | OnRequest | UnlessTrusted | Granular _ => Prompt
    end
  else
    match approval_policy with
    | Never | OnFailure => Allow
    | UnlessTrusted => Prompt
    | OnRequest | Granular _ =>
        match fs_kind file_system_sandbox_policy with
        | Unrestricted | ExternalSandbox => Allow
        | Restricted => if requests_sandbox_override sandbox_permissions then Prompt else Allow
        end
    end.

Definition commands_for_exec_policy (command : list str) : option (list (list str) * bool) :=
  plain ← parse_shell_lc_plain_commands try_parse_shell command;
  match plain with
  | Some ((_ :: _) as commands) => Some (commands, false)
  | _ =>
      single ← parse_shell_lc_single_command_prefix try_parse_shell command;
      match single with
      | Some single_command => Some ([single_command], true)
      | None => Some ([command], false)
      end
  end.

Definition prefix_rule_would_approve_all_commands (exec_policy : Policy) (prefix_rule : list str)
    (commands : list (list str)) (exec_policy_fallback : list str -> Decision)
    (match_options : MatchOptions) : bool :=
  match add_prefix_rule (E := Empty_set) exec_policy prefix_rule Allow with
  | Err _ => false
  | Ok policy_with_prefix_rule =>
      forallb (fun command =>
        match check_with_options home_dir cwd policy_with_prefix_rule command
                exec_policy_fallback match_options with
        | Some evaluation => bool_decide (decision evaluation = Allow)
        | None => false
        end) commands
  end.

Definition derive_requested_execpolicy_amendment_from_prefix_rule (prefix_rule : option (list str))
    (matched_rules : list RuleMatch) (exec_policy : Policy) (commands : list (list str))
    (exec_policy_fallback : list str -> Decision) (match_options : MatchOptions)
  : option ExecPolicyAmendment :=
  prefix_rule ← prefix_rule;
  if is_empty prefix_rule then None
  else if existsb (fun banned => bool_decide (prefix_rule = banned)) BANNED_PREFIX_SUGGESTIONS then None
  else if existsb is_policy_match matched_rules then None
  else if prefix_rule_would_approve_all_commands exec_policy prefix_rule commands
            exec_policy_fallback match_options
  then Some prefix_rule
  else None.

Record ExecApprovalRequest : Type := mkRequest {
  req_command : list str;
  req_approval_policy : AskForApproval;
  req_permission_profile : PermissionProfile;
  req_file_system_sandbox_policy : FileSystemSandboxPolicy;
  req_sandbox_permissions : SandboxPermissions;
  req_prefix_rule : option (list str);
}.

Definition exec_policy_fallback (req : ExecApprovalRequest) (used_complex_parsing : bool)
    (cmd : list str) : Decision :=
  render_decision_for_unmatched_command (req_approval_policy req) (req_permission_profile req)
    (req_file_system_sandbox_policy req) cmd (req_sandbox_permissions req) used_complex_parsing.

Definition resolve_options : MatchOptions := mkMatchOptions true.

(** [None]: a panic, of the evaluation of no commands, or a walk out of fuel. *)
Definition create_exec_approval_requirement_for_command (exec_policy : Policy)
    (req : ExecApprovalRequest) : option ExecApprovalRequirement :=
  '(commands, used_complex_parsing) ← commands_for_exec_policy (req_command req);
  let auto_amendment_allowed := negb used_complex_parsing in
  let fallback := exec_policy_fallback req used_complex_parsing in
  evaluation ← check_multiple_with_options home_dir cwd exec_policy commands fallback resolve_options;
  let requested_amendment :=
    derive_requested_execpolicy_amendment_from_prefix_rule (req_prefix_rule req)
      (matched_rules evaluation) exec_policy commands fallback resolve_options in
  Some
    (match decision evaluation with
     | Forbidden => ForbiddenReq (derive_forbidden_reason (req_command req) evaluation)
     | Prompt =>
         let prompt_is_rule := existsb (policy_match_with Prompt) (matched_rules evaluation) in
         match prompt_is_rejected_by_policy (req_approval_policy req) prompt_is_rule with
         | Some reason => ForbiddenReq reason
         | None =>
             NeedsApproval (derive_prompt_reason (req_command req) evaluation)
               (match requested_amendment with
                | Some amendment => Some amendment
                | None =>
                    if auto_amendment_allowed
                    then try_derive_execpolicy_amendment_for_prompt_rules (matched_rules evaluation)
                    else None
                end)
         end
     | Allow =>
         Skip (forallb (fun command =>
                 existsb (policy_match_with Allow)
                   (matches_for_command_with_options home_dir cwd exec_policy command None
                      resolve_options)) commands)
              (if auto_amendment_allowed
               then try_derive_execpolicy_amendment_for_allow_rules (matched_rules evaluation)
               else None)
     end).
End approval.

(** ** The manager: a policy in memory and its file *)

Inductive ExecPolicyUpdateError (JsonError : Type) : Type :=
| AppendRule (path : str) (source : AmendError JsonError)
| AddRule (source : Error Empty_set).
Arguments AppendRule {_} path source.
Arguments AddRule {_} source.

Record ExecPolicyManager (S : Type) : Type := mkManager { mgr_policy : Policy; mgr_file : S }.
Arguments mkManager {_} _ _.
Arguments mgr_policy {_} _.
Arguments mgr_file {_} _.

Definition RULES_DIR_NAME : str := lit "rules".
Definition DEFAULT_POLICY_FILE : str := lit "default.rules".
Definition default_policy_path (codex_home : str) : str :=
  push (push codex_home RULES_DIR_NAME) DEFAULT_POLICY_FILE.

Definition on_file {S E A} (m : M S E A) : M (ExecPolicyManager S) E A := fun mgr =>
  match m (mgr_file mgr) with
  | Some (s, r) => Some (mkManager (mgr_policy mgr) s, r)
  | None => None
  end.

Definition current {S E} : M (ExecPolicyManager S) E Policy := fun mgr => Some (mgr, Ok (mgr_policy mgr)).
Definition store {S E} (p : Policy) : M (ExecPolicyManager S) E unit := fun mgr =>
  Some (mkManager p (mgr_file mgr), Ok tt).

Section manager.
Context {JsonError S : Type} `{PolicyFile S}.
Context (to_json : str -> result JsonError str).
Context (home_dir cwd : option str).

Abbreviation Update := (M (ExecPolicyManager S) (ExecPolicyUpdateError JsonError)).

(** The whole body runs under the semaphore [update_lock]; the blocking task
    is joined. *)
Definition append_amendment_and_update (codex_home : str) (amendment : ExecPolicyAmendment)
  : Update unit :=
  let policy_path := default_policy_path codex_home in
  _ ← map_errM (AppendRule policy_path)
        (on_file (blocking_append_allow_prefix_rule to_json policy_path amendment));
  current_policy ← current;
  match check_multiple_with_options home_dir cwd current_policy [amendment] (fun _ => Forbidden)
          resolve_options with
  | None => panic
  | Some existing_evaluation =>
      let already_allowed := bool_decide (decision existing_evaluation = Allow)
        && existsb (policy_match_with Allow) (matched_rules existing_evaluation) in
      if already_allowed then mret tt
      else
        updated_policy ← of_result (map_err AddRule (add_prefix_rule current_policy amendment Allow));
        store updated_policy
  end.

Definition append_network_rule_and_update (codex_home host : str) (protocol : NetworkRuleProtocol)
    (d : Decision) (justification : option str) : Update unit :=
  let policy_path := default_policy_path codex_home in
  _ ← map_errM (AppendRule policy_path)
        (on_file (blocking_append_network_rule to_json policy_path host protocol d justification));
  current_policy ← current;
  updated_policy ← of_result (map_err AddRule
                     (add_network_rule current_policy host protocol d justification));
  store updated_policy.
End manager.

(** ** The properties *)

Section approval_lemmas.
Context (try_parse_shell : str -> option Tree).
Context (home_dir cwd : option str).

Lemma commands_for_exec_policy_returns command :
  exists commands complex,
    commands_for_exec_policy try_parse_shell command = Some (commands, complex) /\ commands <> [].
Proof.
  unfold commands_for_exec_policy.
  assert (is_Some (parse_shell_lc_plain_commands try_parse_shell command)) as [plain ->].
  { unfold parse_shell_lc_plain_commands. destruct (extract_bash_command command) as [[? script]|]; [|by eexists].
    destruct (try_parse_shell script); [|by eexists]. rewrite try_parse_word_only_eq. by eexists. }
  cbn [mbind option_bind].
  assert (is_Some (parse_shell_lc_single_command_prefix try_parse_shell command)) as [single Hs].
  { unfold parse_shell_lc_single_command_prefix.
    destruct (extract_bash_command command) as [[? script]|]; [|by eexists].
    destruct (try_parse_shell script) as [tree|]; [|by eexists]. destruct (has_error tree); [by eexists|].
    unfold has_named_descendant_kind, find_single_command_node. rewrite !walk_named.
    cbn [mbind option_bind]. destruct (negb _); by eexists. }
  destruct plain as [[|c plain]|]; rewrite ?Hs; cbn [mbind option_bind];
    [destruct single|by do 2 eexists|destruct single]; by do 2 eexists.
Qed.

Lemma existsb_exists' {A} (f : A -> bool) l : existsb f l = true -> exists x, x ∈ l /\ f x = true.
Proof. intros (x & Hx & Hf)%existsb_exists. exists x. split; [by apply list_elem_of_In|done]. Qed.
End approval_lemmas.

(** C3: deciding about a command always gives an answer, and the answer is
    sound.  The command runs without a question only if every command of the
    script is allowed by the policy or the heuristics; the sandbox is bypassed
    only if the policy allows every one of them by a rule; a question is asked
    only if no command is forbidden, and never under [Never]; and a refusal
    means that some command was not allowed. *)
Theorem create_exec_approval_requirement_sound (try_parse_shell : str -> option Tree)
    (parse_with_powershell_ast : str -> str -> PowershellParseOutcome)
    (shlex_try_join : list str -> option str) (home_dir cwd : option str)
    (exec_policy : Policy)
    (req : ExecApprovalRequest) :
  exists r commands complex,
    create_exec_approval_requirement_for_command try_parse_shell parse_with_powershell_ast shlex_try_join
      home_dir cwd exec_policy req = Some r
    /\ commands_for_exec_policy try_parse_shell (req_command req) = Some (commands, complex)
    /\ let decided c d := exists ev,
         check_with_options home_dir cwd exec_policy c
           (exec_policy_fallback try_parse_shell parse_with_powershell_ast req complex)
           resolve_options = Some ev /\ decision ev = d in
       match r with
       | Skip bypass_sandbox _ =>
           (forall c, c ∈ commands -> decided c Allow)
           /\ (bypass_sandbox = true -> forall c, c ∈ commands -> exists m,
                 m ∈ matches_for_command_with_options home_dir cwd exec_policy c None resolve_options
                 /\ policy_match_with Allow m = true)
       | NeedsApproval _ _ =>
           req_approval_policy req <> Never
           /\ (forall c, c ∈ commands -> ~ decided c Forbidden)
       | ForbiddenReq _ => exists c, c ∈ commands /\ ~ decided c Allow
       end.
Proof.
  destruct (commands_for_exec_policy_returns try_parse_shell (req_command req)) as (commands & complex & Hc & Hne).
  unfold create_exec_approval_requirement_for_command. rewrite Hc. cbn [mbind option_bind].
  set (fallback := exec_policy_fallback _ _ req complex).
  destruct (check_multiple_evals home_dir cwd exec_policy commands fallback resolve_options Hne)
    as (ev & evs & -> & HF & _ & Hin & Hle). cbn [mbind option_bind].
  do 3 eexists. split; [reflexivity|]. split; [done|]. cbn zeta.
  rewrite Forall_forall in Hle.
  assert (forall c e, c ∈ commands -> check_with_options home_dir cwd exec_policy c fallback resolve_options = Some e ->
            decision_le (decision e) (decision ev)) as Hall.
  { intros c e Hcin He. apply Hle. apply list_elem_of_lookup in Hcin as [i Hi].
    destruct (Forall2_lookup_l _ _ _ _ _ HF Hi) as (e' & He' & E'). rewrite He in E'. injection E' as <-.
    apply list_elem_of_In, in_map, list_elem_of_In. by eapply list_elem_of_lookup_2. }
  assert (exists c e, c ∈ commands /\ check_with_options home_dir cwd exec_policy c fallback resolve_options = Some e
            /\ decision e = decision ev) as (c0 & e0 & Hc0 & He0 & Hd0).
  { apply list_elem_of_In, in_map_iff in Hin as (e & He & Hin%list_elem_of_In).
    apply list_elem_of_lookup in Hin as [i Hi].
    destruct (Forall2_lookup_r _ _ _ _ _ HF Hi) as (c & Hci & E). exists c, e.
    split; [by eapply list_elem_of_lookup_2|done]. }
  destruct (decision ev) eqn:Hd.
  - split.
    + intros c Hcin. destruct (check_with_options_Some home_dir cwd exec_policy c fallback resolve_options)
        as (e & He & _). exists e. split; [done|].
      pose proof (Hall c e Hcin He) as Hle'. destruct (decision e); unfold decision_le in Hle'; simpl in Hle'; [done|lia..].
    + intros Hb c Hcin. rewrite forallb_forall in Hb. apply list_elem_of_In in Hcin.
      by apply existsb_exists', Hb.
  - destruct (prompt_is_rejected_by_policy _ _) as [reason|] eqn:Hr.
    + exists c0. split; [done|]. intros (e & He & Hda).
      fold fallback in He. rewrite He0 in He. injection He as ->. by rewrite Hda in Hd0.
    + split; [by intros E; rewrite E in Hr|].
      intros c Hcin (e & He & Hf). pose proof (Hall c e Hcin He) as Hle'.
      rewrite Hf in Hle'. unfold decision_le in Hle'. simpl in Hle'. lia.
  - exists c0. split; [done|]. intros (e & He & Hda).
      fold fallback in He. rewrite He0 in He. injection He as ->. by rewrite Hda in Hd0.
Qed.

(** C17: a command that starts with [rm -f], [rm -rf] or [sudo] and one of them,
    alone or anywhere in a script, and that no policy rule covers, is never
    run without a question, unless questions are switched off in a session
    whose sandbox is explicitly disabled. *)
Theorem dangerous_command_not_skipped (try_parse_shell : str -> option Tree)
    (parse_with_powershell_ast : str -> str -> PowershellParseOutcome)
    (shlex_try_join : list str -> option str) (home_dir cwd : option str)
    (exec_policy : Policy)
    (req : ExecApprovalRequest)
    (commands : list (list str)) (complex : bool) (c : list str) :
  commands_for_exec_policy try_parse_shell (req_command req) = Some (commands, complex) ->
  c ∈ commands -> is_dangerous_to_call_with_exec c = true ->
  matches_for_command_with_options home_dir cwd exec_policy c None resolve_options = [] ->
  (req_approval_policy req <> Never \/ exists fs net, req_permission_profile req = Managed fs net) ->
  forall bypass amendment,
    create_exec_approval_requirement_for_command try_parse_shell parse_with_powershell_ast shlex_try_join
      home_dir cwd exec_policy req <> Some (Skip bypass amendment).
Proof.
  intros Hc Hin Hd Hm Hset bypass amendment.
  unfold create_exec_approval_requirement_for_command. rewrite Hc. cbn [mbind option_bind].
  set (fallback := exec_policy_fallback _ _ req complex).
  assert (commands <> []) as Hne by (intros ->; by apply elem_of_nil in Hin).
  destruct (check_multiple_evals home_dir cwd exec_policy commands fallback resolve_options Hne)
    as (ev & evs & -> & HF & _ & _ & Hle). cbn [mbind option_bind]. rewrite Forall_forall in Hle.
  assert (fallback c <> Allow) as Hf.
  { unfold fallback, exec_policy_fallback, render_decision_for_unmatched_command.
    rewrite dangerous_exec_not_safe by done. cbn [andb]. unfold command_might_be_dangerous. rewrite Hd.
    destruct Hset as [Hset|(fs & net & ->)]; destruct (req_approval_policy req); done. }
  assert (decision_le (fallback c) (decision ev)) as Hle'.
  { apply list_elem_of_lookup in Hin as [i Hi].
    destruct (Forall2_lookup_l _ _ _ _ _ HF Hi) as (e & He & E).
    assert (decision e = fallback c) as <-.
    { revert E Hm. unfold check_with_options, matches_for_command_with_options.
      set (ms := if negb _ then _ else _). intros E ->. cbn in E. by injection E as <-. }
    apply Hle, list_elem_of_In, in_map, list_elem_of_In. by eapply list_elem_of_lookup_2. }
  destruct (decision ev) eqn:Hev.
  - unfold decision_le in Hle'. destruct (fallback c); simpl in Hle'; [done|lia..].
  - by destruct (prompt_is_rejected_by_policy _ _).
  - done.
Qed.

(** Nothing is parsed, there is no PowerShell, and no text can be joined. *)
Definition no_shell (_ : str) : option Tree := None.
Definition no_powershell (_ _ : str) : PowershellParseOutcome := Failed.
Definition no_join (_ : list str) : option str := None.

Definition sample_request (command : list str) (prefix : option (list str))
  : ExecApprovalRequest :=
  mkRequest command OnRequest (Managed (ManagedRestricted [] None) NetRestricted) (mkFsPolicy Restricted None []) UseDefault prefix.

Lemma dangerous_command_not_skipped_witness :
  create_exec_approval_requirement_for_command no_shell no_powershell no_join None None policy_empty
    (sample_request [lit "sudo"; lit "rm"; lit "-rf"; lit "/"] None) <> Some (Skip true None).
Proof.
  apply (dangerous_command_not_skipped no_shell no_powershell no_join None None policy_empty
           (sample_request [lit "sudo"; lit "rm"; lit "-rf"; lit "/"] None)
           [[lit "sudo"; lit "rm"; lit "-rf"; lit "/"]] false
           [lit "sudo"; lit "rm"; lit "-rf"; lit "/"]).
  - vm_compute. reflexivity.
  - by left.
  - vm_compute. reflexivity.
  - vm_compute. reflexivity.
  - by left.
Defined.

(** ** Proposed amendments *)

Lemma find_heuristic_elem d ms a : find_heuristic d ms = Some a -> HeuristicsRuleMatch a d ∈ ms.
Proof.
  unfold find_heuristic. destruct (omap _ ms) as [|x l] eqn:E; [done|]. intros [= ->].
  assert (a ∈ a :: l) as Ha by left. rewrite <- E in Ha.
  apply list_elem_of_omap in Ha as ([|c d'] & Hin & Hm); [done|].
  case_bool_decide; [|done]. injection Hm as ->. by subst.
Qed.

Lemma heuristic_match_unmatched home_dir cwd policy cmd h options a d :
  HeuristicsRuleMatch a d ∈ matches_for_command_with_options home_dir cwd policy cmd (Some h) options ->
  a = cmd /\ d = h cmd /\ matches_for_command_with_options home_dir cwd policy cmd None options = [].
Proof.
  assert (forall ms, Forall (fun m => from_rule m = true) ms -> ~ HeuristicsRuleMatch a d ∈ ms) as Hno.
  { intros ms HF Hin. rewrite Forall_forall in HF. by specialize (HF _ Hin). }
  unfold matches_for_command_with_options.
  change (match match_exact_rules policy cmd with Some m => m | None => [] end)
    with (exact_matches policy cmd).
  set (ms := if negb _ then _ else _).
  assert (Forall (fun m => from_rule m = true) ms) as HF.
  { subst ms. destruct (negb _); [apply exact_from_rule|].
    destruct (resolve_host_executables options); [apply host_from_rule|constructor]. }
  destruct ms as [|m ms]; cbn [is_empty].
  - intros [= -> ->]%list_elem_of_singleton. done.
  - intros Hin. by destruct (Hno _ HF).
Qed.

Lemma requested_amendment_Some home_dir cwd prefix_rule ms policy commands h options a :
  derive_requested_execpolicy_amendment_from_prefix_rule home_dir cwd prefix_rule ms policy commands h options
    = Some a ->
  prefix_rule = Some a /\ a <> [] /\ a ∉ BANNED_PREFIX_SUGGESTIONS
  /\ existsb is_policy_match ms = false
  /\ exists policy', add_prefix_rule (E := Empty_set) policy a Allow = Ok policy'
     /\ forall c, c ∈ commands -> exists ev,
          check_with_options home_dir cwd policy' c h options = Some ev /\ decision ev = Allow.
Proof.
  unfold derive_requested_execpolicy_amendment_from_prefix_rule.
  destruct prefix_rule as [p|]; [|done]. cbn [mbind option_bind].
  destruct (is_empty p) eqn:Ep; [done|]. destruct (existsb _ BANNED_PREFIX_SUGGESTIONS) eqn:Eb; [done|].
  destruct (existsb is_policy_match ms); [done|].
  unfold prefix_rule_would_approve_all_commands.
  destruct (add_prefix_rule policy p Allow) as [policy'|] eqn:Ea; [|done].
  destruct (forallb _ commands) eqn:Ef; [|done]. intros [= <-]. split_and!; try done.
  - by destruct p.
  - intros Hin. assert (existsb (fun banned => bool_decide (p = banned)) BANNED_PREFIX_SUGGESTIONS = true) as E;
      [|congruence].
    apply existsb_exists. exists p. split; [by apply list_elem_of_In|by apply bool_decide_eq_true].
  - exists policy'. split; [done|]. intros c Hc. rewrite forallb_forall in Ef.
    apply list_elem_of_In in Hc. specialize (Ef c Hc).
    destruct (check_with_options _ _ _ _ _ _) as [ev|]; [|done]. exists ev.
    by apply bool_decide_eq_true in Ef.
Qed.

Lemma no_rule_matched home_dir cwd policy commands h options c :
  existsb is_policy_match
    (commands ≫= fun c => matches_for_command_with_options home_dir cwd policy c (Some h) options) = false ->
  c ∈ commands -> matches_for_command_with_options home_dir cwd policy c None options = [].
Proof.
  intros Hno Hin. destruct (matches_for_command_with_options home_dir cwd policy c None options) as [|m ms] eqn:E;
    [done|]. exfalso.
  assert (m ∈ matches_for_command_with_options home_dir cwd policy c (Some h) options) as Hm.
  { revert E. unfold matches_for_command_with_options. set (l := if negb _ then _ else _). intros ->. by left. }
  assert (is_policy_match m = true) as Hp.
  { destruct m as [|a d]; [done|].
    apply heuristic_match_unmatched in Hm as (_ & _ & Hm). rewrite E in Hm. done. }
  assert (existsb is_policy_match
    (commands ≫= fun c => matches_for_command_with_options home_dir cwd policy c (Some h) options) = true);
    [|congruence].
  apply existsb_exists. exists m. split; [|done]. apply list_elem_of_In, list_elem_of_bind. eauto.
Qed.

(** What the user is offered to allow from now on is either the prefix the
    caller asked for, which is not empty and not one of the banned ones, is
    offered only when no rule matched anything, and, added to the policy,
    would allow every command of the script; or it is one whole command of the
    script, which no rule covers and about which the heuristics asked (or which
    they allowed, when the command runs anyway), never of a script that was
    only partly understood. *)
Theorem proposed_amendment_sound (try_parse_shell : str -> option Tree)
    (parse_with_powershell_ast : str -> str -> PowershellParseOutcome)
    (shlex_try_join : list str -> option str) (home_dir cwd : option str)
    (policy : Policy)
    (req : ExecApprovalRequest)
    (commands : list (list str)) (complex : bool) (r : ExecApprovalRequirement) (a : ExecPolicyAmendment) :
  commands_for_exec_policy try_parse_shell (req_command req) = Some (commands, complex) ->
  create_exec_approval_requirement_for_command try_parse_shell parse_with_powershell_ast shlex_try_join
    home_dir cwd policy req = Some r ->
  proposed_execpolicy_amendment r = Some a ->
  let fallback := exec_policy_fallback try_parse_shell parse_with_powershell_ast req complex in
  (req_prefix_rule req = Some a /\ a <> [] /\ a ∉ BANNED_PREFIX_SUGGESTIONS
   /\ (forall c, c ∈ commands ->
         matches_for_command_with_options home_dir cwd policy c None resolve_options = [])
   /\ exists policy', add_prefix_rule (E := Empty_set) policy a Allow = Ok policy'
      /\ forall c, c ∈ commands -> exists ev,
           check_with_options home_dir cwd policy' c fallback resolve_options = Some ev
           /\ decision ev = Allow)
  \/ (a ∈ commands /\ complex = false
      /\ matches_for_command_with_options home_dir cwd policy a None resolve_options = []
      /\ match r with Skip _ _ => fallback a = Allow | _ => fallback a = Prompt end).
Proof.
  intros Hc. unfold create_exec_approval_requirement_for_command. rewrite Hc. cbn [mbind option_bind].
  set (fallback := exec_policy_fallback _ _ req complex). cbn zeta.
  destruct (check_multiple_with_options _ _ _ _ _ _) as [ev|] eqn:Ev; [|done]. cbn [mbind option_bind].
  assert (matched_rules ev
          = commands ≫= fun c => matches_for_command_with_options home_dir cwd policy c (Some fallback)
                                   resolve_options) as Hm.
  { revert Ev. unfold check_multiple_with_options, from_matches.
    destruct (map _ _) eqn:E; [done|]. by intros [= <-]. }
  assert (forall d, find_heuristic d (matched_rules ev) = Some a ->
            a ∈ commands /\ fallback a = d
            /\ matches_for_command_with_options home_dir cwd policy a None resolve_options = []) as Hfind.
  { intros d Hd%find_heuristic_elem. rewrite Hm in Hd. apply list_elem_of_bind in Hd as (c & Hh & Hin).
    by apply heuristic_match_unmatched in Hh as (-> & -> & ?). }
  intros [= <-] Ha. destruct (decision ev); cbn in Ha.
  - destruct complex; [done|]. cbn in Ha. unfold try_derive_execpolicy_amendment_for_allow_rules in Ha.
    destruct (existsb _ _); [done|]. destruct (find_heuristic _ _) as [x|] eqn:Ex; [|done].
    injection Ha as <-. right. by destruct (Hfind _ Ex) as (? & ? & ?).
  - destruct (prompt_is_rejected_by_policy _ _); [done|]. cbn in Ha.
    destruct (derive_requested_execpolicy_amendment_from_prefix_rule _ _ _ _ _ _ _ _) as [x|] eqn:Ex.
    { injection Ha as <-. left. apply requested_amendment_Some in Ex as (? & ? & ? & Hno & ?).
      split_and!; try done. intros c Hin. rewrite Hm in Hno. by eapply no_rule_matched. }
    destruct complex; [done|]. cbn in Ha. unfold try_derive_execpolicy_amendment_for_prompt_rules in Ha.
    destruct (existsb _ _); [done|]. destruct (find_heuristic _ _) as [x|] eqn:Eh; [|done].
    injection Ha as <-. right. by destruct (Hfind _ Eh) as (? & ? & ?).
  - done.
Qed.

(** A script that is not understood as a list of plain commands is not taken
    apart: the whole invocation is judged, and offered. *)
Lemma proposed_amendment_sound_witness :
  [lit "sudo"; lit "rm"; lit "-rf"; lit "/"]
    ∈ [[lit "sudo"; lit "rm"; lit "-rf"; lit "/"]]
  /\ matches_for_command_with_options None None policy_empty [lit "sudo"; lit "rm"; lit "-rf"; lit "/"]
       None resolve_options = [].
Proof.
  destruct (proposed_amendment_sound no_shell no_powershell no_join None None policy_empty
              (sample_request [lit "sudo"; lit "rm"; lit "-rf"; lit "/"] None)
              [[lit "sudo"; lit "rm"; lit "-rf"; lit "/"]] false
              (NeedsApproval None (Some [lit "sudo"; lit "rm"; lit "-rf"; lit "/"]))
              [lit "sudo"; lit "rm"; lit "-rf"; lit "/"])
    as [(H & _)|(H1 & _ & H2 & _)].
  - vm_compute. reflexivity.
  - vm_compute. reflexivity.
  - reflexivity.
  - discriminate H.
  - exact (conj H1 H2).
Defined.

(** ** The manager *)

Lemma policy_match_is_rule d m : policy_match_with d m = true -> from_rule m = true.
Proof. by destruct m. Qed.

(** A match by a rule is found whether or not there is a fallback. *)
Lemma rule_match_no_fallback home_dir cwd policy cmd h options m :
  m ∈ matches_for_command_with_options home_dir cwd policy cmd (Some h) options ->
  from_rule m = true ->
  m ∈ matches_for_command_with_options home_dir cwd policy cmd None options.
Proof.
  unfold matches_for_command_with_options. set (ms := if negb _ then _ else _).
  destruct ms; cbn [is_empty]; [|done]. by intros ->%list_elem_of_singleton.
Qed.

Lemma check_multiple_one home_dir cwd policy cmd h options :
  check_multiple_with_options home_dir cwd policy [cmd] h options
  = check_with_options home_dir cwd policy cmd h options.
Proof. unfold check_multiple_with_options, check_with_options. by rewrite bind_list_cons, app_nil_r. Qed.

(** When a user accepts an amendment, the file is changed first and the
    policy in memory only if that succeeded; the update does not panic; then
    the policy in memory allows the amendment's command by a rule, every match
    that commands had is still there, and nothing but matches with this prefix
    were added, so that a command that a rule for its first token forbids stays
    forbidden. *)
Theorem append_amendment_and_update_spec {JsonError S : Type} `{PolicyFile S}
    (to_json : str -> result JsonError str) (home_dir cwd : option str) (codex_home : str)
    (amendment : ExecPolicyAmendment) (mgr : ExecPolicyManager S) (s' : S)
    (rf : result (AmendError JsonError) unit) :
  blocking_append_allow_prefix_rule to_json (default_policy_path codex_home) amendment (mgr_file mgr)
    = Some (s', rf) ->
  exists policy' r,
    append_amendment_and_update to_json home_dir cwd codex_home amendment mgr
      = Some (mkManager policy' s', r)
    /\ match rf with
       | Err e => r = Err (AppendRule (default_policy_path codex_home) e) /\ policy' = mgr_policy mgr
       | Ok _ =>
           r = Ok tt
           /\ (exists m, m ∈ matches_for_command_with_options home_dir cwd policy' amendment None
                               resolve_options /\ policy_match_with Allow m = true)
           /\ forall cmd, exists new,
                exact_matches policy' cmd = exact_matches (mgr_policy mgr) cmd ++ new
                /\ forall m, m ∈ new -> m = PrefixRuleMatch amendment Allow None None
                                       /\ take (length amendment) cmd = amendment
       end.
Proof.
  intros Hf. unfold append_amendment_and_update, on_file, map_errM, mbind, M_bind. rewrite Hf.
  destruct rf as [[]|e]; cbn [map_err]; [|by do 2 eexists].
  unfold current. cbn [mgr_policy mgr_file].
  destruct (check_with_options_Some home_dir cwd (mgr_policy mgr) amendment (fun _ => Forbidden) resolve_options)
    as (ev & Hev & Hms & _).
  rewrite check_multiple_one, Hev.
  destruct (bool_decide (decision ev = Allow) && _) eqn:Ea.
  - do 2 eexists. split; [reflexivity|]. split; [done|]. split.
    + apply andb_true_iff in Ea as [_ (m & Hin & Hp)%existsb_exists']. exists m. split; [|done].
      rewrite Hms in Hin. apply rule_match_no_fallback in Hin; [done|by eapply policy_match_is_rule].
    + intros cmd. exists []. rewrite app_nil_r. split; [done|]. by intros ? ?%elem_of_nil.
  - destruct amendment as [|first rest]; [discriminate Hf|].
    destruct (add_prefix_rule (E := Empty_set) (mgr_policy mgr) (first :: rest) Allow) as [policy'|] eqn:Hadd;
      [|done].
    cbn [map_err of_result store mgr_file]. do 2 eexists. split; [reflexivity|]. split; [done|].
    pose proof (fun cmd => add_prefix_rule_matches _ _ _ _ cmd Hadd) as Hex. split.
    + specialize (Hex (first :: rest)). rewrite firstn_all in Hex. rewrite bool_decide_eq_true_2 in Hex by done.
      exists (PrefixRuleMatch (first :: rest) Allow None None). split; [|done].
      rewrite matches_exact; rewrite Hex; [apply elem_of_app; right; by left|by intros []%app_eq_nil].
    + clear Ea. intros cmd. eexists. split; [apply Hex|]. intros m. case_bool_decide as Ht; [|by intros ?%elem_of_nil].
      by intros ->%list_elem_of_singleton.
Qed.

Lemma append_amendment_and_update_spec_witness :
  exists policy' m,
    append_amendment_and_update sample_json None None (lit "/h") [lit "git"; lit "pull"]
      (mkManager policy_empty (mkMemFile false []))
      = Some (mkManager policy'
                (mkMemFile true (allow_prefix_rule_line [quoted (lit "git"); quoted (lit "pull")] ++ [NL])),
              Ok tt)
    /\ m ∈ matches_for_command_with_options None None policy' [lit "git"; lit "pull"] None resolve_options
    /\ policy_match_with Allow m = true.
Proof.
  destruct (append_amendment_and_update_spec sample_json None None (lit "/h") [lit "git"; lit "pull"]
              (mkManager policy_empty (mkMemFile false []))
              (mkMemFile true (allow_prefix_rule_line [quoted (lit "git"); quoted (lit "pull")] ++ [NL]))
              (Ok tt)) as (policy' & r & Hrun & -> & (m & Hm) & _).
  - vm_compute. reflexivity.
  - exists policy', m. exact (conj Hrun Hm).
Defined.
