(* ===== verification/PatchSafety.v ===== *)
(** * PatchSafety: may a patch be applied without asking?

    [core/src/safety.rs], [core/src/apply_patch.rs] and the paths and the
    approval cache of the patch tool ([core/src/tools/handlers/apply_patch.rs],
    [core/src/tools/sandboxing.rs]).  The main theorem ties the assessment to
    what applying the patch does. *)

From S2P Require Import Prelude Paths HostPaths Permissions WritableRoots.
From S2P Require Import Utf8 PatchParser Replacements FileSystem ApplyPatch Invocation Approval.
Local Open Scope str_scope.

(** ** Data *)

Inductive SandboxType : Type := NoSandbox | MacosSeatbelt | LinuxSeccomp | WindowsRestrictedToken.
Inductive WindowsSandboxLevel : Type := LevelDisabled | LevelRestrictedToken | LevelElevated.

Inductive SafetyCheck : Type :=
| AutoApprove (sandbox_type : SandboxType) (user_explicitly_approved : bool)
| AskUser
| Reject (reason : str).

(** [FileChange] of the protocol. *)
Inductive FileChange : Type :=
| FAdd (content : str)
| FDelete (content : str)
| FUpdate (unified_diff : str) (move_path : option str).

Record ApplyPatchRuntimeInvocation : Type := mkRuntimeInvocation {
  inv_action : ApplyPatchAction;
  auto_approved : bool;
  inv_exec_approval_requirement : ExecApprovalRequirement;
}.

(** [Output] always carries [RespondToModel] here. *)
Inductive InternalApplyPatchInvocation : Type :=
| Output (respond_to_model : str)
| DelegateToRuntime (invocation : ApplyPatchRuntimeInvocation).

Definition PATCH_REJECTED_OUTSIDE_PROJECT_REASON : str :=
  lit "writing outside of the project; rejected by user approval settings".
Definition PATCH_REJECTED_READ_ONLY_REASON : str :=
  lit "writing is blocked by read-only sandbox; rejected by user approval settings".

(** On Linux. *)
Definition get_platform_sandbox (windows_sandbox_enabled : bool) : option SandboxType :=
  Some LinuxSeccomp.

(** [util::resolve_path] *)
Definition resolve_path (base path : str) : str :=
  if is_absolute path then path else push base path.

(** The nested function [normalize]. *)
Definition normalize (path : str) : option str := Some (foldl normalize_step [] (components path)).

Definition map_forallb {V} (f : str -> V -> bool) (m : gmap str V) : bool :=
  forallb (fun kv => f kv.1 kv.2) (map_to_list m).

(** ** Operations *)

Section safety.
Context `{Host}.

Definition is_patch_path_writable (file_system_sandbox_policy : FileSystemSandboxPolicy) (cwd p : str) : bool :=
  match normalize (resolve_path cwd p) with
  | Some abs => can_write_path_with_cwd file_system_sandbox_policy abs cwd
  | None => false
  end.

Definition is_write_patch_constrained_to_writable_paths (action : ApplyPatchAction)
    (file_system_sandbox_policy : FileSystemSandboxPolicy) (cwd : str) : bool :=
  let is_path_writable := is_patch_path_writable file_system_sandbox_policy cwd in
  map_forallb (fun path change =>
    match change with
    | Add _ | Delete _ => is_path_writable path
    | Update _ move_path _ =>
        if negb (is_path_writable path) then false
        else match move_path with Some dest => is_path_writable dest | None => true end
    end) (changes action).

Definition patch_rejection_reason (permission_profile : PermissionProfile)
    (file_system_sandbox_policy : FileSystemSandboxPolicy) (cwd : str) : str :=
  match permission_profile with
  | Managed _ _ =>
      if negb (has_full_disk_write_access file_system_sandbox_policy)
         && is_empty (get_writable_roots_with_cwd file_system_sandbox_policy cwd)
      then PATCH_REJECTED_READ_ONLY_REASON
      else PATCH_REJECTED_OUTSIDE_PROJECT_REASON
  | Disabled | External _ => PATCH_REJECTED_OUTSIDE_PROJECT_REASON
  end.

Definition rejects_sandbox_approval (policy : AskForApproval) : bool :=
  match policy with
  | Never => true
  | Granular granular_config => negb (sandbox_approval granular_config)
  | _ => false
  end.

Definition assess_patch_safety (action : ApplyPatchAction) (policy : AskForApproval)
    (permission_profile : PermissionProfile) (file_system_sandbox_policy : FileSystemSandboxPolicy)
    (cwd : str) (windows_sandbox_level : WindowsSandboxLevel) : SafetyCheck :=
  if bool_decide (changes action = ∅) then Reject (lit "empty patch")
  else match policy with
  | UnlessTrusted => AskUser
  | _ =>
      let reason := patch_rejection_reason permission_profile file_system_sandbox_policy cwd in
      if is_write_patch_constrained_to_writable_paths action file_system_sandbox_policy cwd
         || match policy with OnFailure => true | _ => false end
      then match permission_profile with
           | Disabled | External _ => AutoApprove NoSandbox false
           | Managed _ _ =>
               match get_platform_sandbox
                       (match windows_sandbox_level with LevelDisabled => false | _ => true end) with
               | Some sandbox_type => AutoApprove sandbox_type false
               | None => if rejects_sandbox_approval policy then Reject reason else AskUser
               end
           end
      else if rejects_sandbox_approval policy then Reject reason
      else AskUser
  end.

Definition internal_apply_patch (action : ApplyPatchAction) (approval_policy : AskForApproval)
    (permission_profile : PermissionProfile) (file_system_sandbox_policy : FileSystemSandboxPolicy)
    (cwd : str) (windows_sandbox_level : WindowsSandboxLevel) : InternalApplyPatchInvocation :=
  match assess_patch_safety action approval_policy permission_profile file_system_sandbox_policy cwd
          windows_sandbox_level with
  | AutoApprove _ user_explicitly_approved =>
      DelegateToRuntime (mkRuntimeInvocation action (negb user_explicitly_approved) (Skip false None))
  | AskUser => DelegateToRuntime (mkRuntimeInvocation action false (NeedsApproval None None))
  | Reject reason => Output (lit "patch rejected: " ++ reason)
  end.

(** The paths an approval is cached under. *)
Definition file_paths_for_action (action : ApplyPatchAction) : list str :=
  map_to_list (changes action) ≫= fun '(path, change) =>
    resolve_path_against_base h_home_dir path (act_cwd action)
    :: match change with
       | Update _ (Some dest) _ => [resolve_path_against_base h_home_dir dest (act_cwd action)]
       | _ => []
       end.
End safety.

Definition convert_change (change : ApplyPatchFileChange) : FileChange :=
  match change with
  | Add content => FAdd content
  | Delete content => FDelete content
  | Update unified_diff move_path _ => FUpdate unified_diff move_path
  end.

Definition convert_apply_patch_to_protocol (action : ApplyPatchAction) : gmap str FileChange :=
  convert_change <$> changes action.

(** ** The approval cache *)

Inductive NetworkPolicyRuleAction : Type := NetAllow | NetDeny.

Record NetworkPolicyAmendment : Type := mkNetworkPolicyAmendment {
  npa_host : str;
  npa_action : NetworkPolicyRuleAction;
}.

Inductive ReviewDecision : Type :=
| Approved
| ApprovedExecpolicyAmendment (proposed_execpolicy_amendment : ExecPolicyAmendment)
| ApprovedForSession
| NetworkPolicyAmendmentDecision (network_policy_amendment : NetworkPolicyAmendment)
| DeniedDecision
| TimedOut
| AbortDecision.

Definition is_approved_for_session (d : ReviewDecision) : bool :=
  match d with ApprovedForSession => true | _ => false end.

(** Keyed by serialised keys. *)
Abbreviation ApprovalStore := (gmap str ReviewDecision).

Section cache.
Context {K : Type} (to_json : K -> option str).

Definition store_get (self : ApprovalStore) (key : K) : option ReviewDecision :=
  s ← to_json key; self !! s.

Definition store_put (self : ApprovalStore) (key : K) (value : ReviewDecision) : ApprovalStore :=
  match to_json key with Some s => <[s := value]> self | None => self end.

Definition already_approved (store : ApprovalStore) (keys : list K) : bool :=
  forallb (fun key => match store_get store key with
                      | Some d => is_approved_for_session d
                      | None => false
                      end) keys.

(** [with_cached_approval] up to [fetch]: an answer from the cache, or none. *)
Definition answer_from_cache (store : ApprovalStore) (keys : list K) : option ReviewDecision :=
  if is_empty keys then None
  else if already_approved store keys then Some ApprovedForSession
  else None.

(** [with_cached_approval] from the user's [decision] on. *)
Definition record_decision (store : ApprovalStore) (keys : list K) (decision : ReviewDecision)
  : ApprovalStore :=
  if is_empty keys then store
  else if is_approved_for_session decision
  then foldl (fun store key => store_put store key ApprovedForSession) store keys
  else store.

(** The lock is free while the user is asked: several requests can be waiting,
    and their answers come in any order. *)
Inductive cache_event : Type :=
| FromCache (keys : list K) (decision : ReviewDecision)
| Asked (keys : list K)
| Answered (keys : list K) (decision : ReviewDecision).

Definition cache_state : Type := ApprovalStore * list (list K).

Inductive cache_step : cache_state -> cache_event -> cache_state -> Prop :=
| step_cached store waiting keys decision :
    answer_from_cache store keys = Some decision ->
    cache_step (store, waiting) (FromCache keys decision) (store, waiting)
| step_ask store waiting keys :
    answer_from_cache store keys = None ->
    cache_step (store, waiting) (Asked keys) (store, keys :: waiting)
| step_answer store before keys after decision :
    cache_step (store, before ++ keys :: after) (Answered keys decision)
      (record_decision store keys decision, before ++ after).

(** The history, latest event first. *)
Inductive cache_run : list cache_event -> cache_state -> Prop :=
| run_start : cache_run [] (∅, [])
| run_step history st ev st' :
    cache_run history st -> cache_step st ev st' -> cache_run (ev :: history) st'.

(** The user approved [s], the serialised form of a key, for the session. *)
Definition approved_in (history : list cache_event) (s : str) : Prop :=
  exists keys key, Answered keys ApprovedForSession ∈ history /\ key ∈ keys /\ to_json key = Some s.

Lemma foldl_store_put store keys s d :
  foldl (fun store key => store_put store key ApprovedForSession) store keys !! s = Some d ->
  store !! s = Some d \/ exists key, key ∈ keys /\ to_json key = Some s.
Proof.
  revert store. induction keys as [|k keys IH]; intros store; [by left|]. cbn [foldl].
  intros [Hl|(key & Hin & Hk)]%IH; [|right; exists key; split; [by right|done]].
  unfold store_put in Hl. destruct (to_json k) as [t|] eqn:E; [|by left].
  destruct (decide (t = s)) as [->|Hne]; [right; exists k; split; [by left|done]|].
  rewrite lookup_insert_ne in Hl by done. by left.
Qed.

Lemma approved_later ev history s : approved_in history s -> approved_in (ev :: history) s.
Proof. intros (ks & k & Hin & Hk). exists ks, k. split; [by right|done]. Qed.

(** Whatever the store says is approved, the user approved. *)
Lemma store_invariant history st :
  cache_run history st -> forall s d, st.1 !! s = Some d -> approved_in history s.
Proof.
  induction 1 as [|history st ev st' _ IH Hstep]; intros s d Hl; [cbn in Hl; by rewrite lookup_empty in Hl|].
  destruct Hstep as [store waiting keys dec|store waiting keys|store before keys after dec]; cbn in *;
    [by eapply approved_later, IH..|].
  unfold record_decision in Hl. destruct (is_empty keys); [by eapply approved_later, IH|].
  destruct dec; cbn in Hl; try by eapply approved_later, IH.
  apply foldl_store_put in Hl as [Hl|(k & Hin & Hk)]; [by eapply approved_later, IH|].
  exists keys, k. split; [left|done].
Qed.
End cache.

(** However requests and answers interleave, from an empty cache: a request
    is answered from the cache only with approval for the session, only if it
    has keys, and only if the user has earlier approved for the session, for
    each of its keys, a request with that key (keys that serialise alike being
    equal); and a user's approval for the session of a request with keys that
    serialise answers the same request later. *)
Theorem cached_approval_sound {K : Type} (to_json : K -> option str) history store waiting keys :
  (forall k k' s, to_json k = Some s -> to_json k' = Some s -> k = k') ->
  cache_run to_json history (store, waiting) ->
  (forall decision, answer_from_cache to_json store keys = Some decision ->
     decision = ApprovedForSession /\ keys <> []
     /\ forall key, key ∈ keys -> exists keys', Answered keys' ApprovedForSession ∈ history /\ key ∈ keys')
  /\ (keys <> [] -> (forall key, key ∈ keys -> to_json key <> None) ->
      answer_from_cache to_json (record_decision to_json store keys ApprovedForSession) keys
        = Some ApprovedForSession).
Proof.
  intros Hinj Hrun. split.
  - intros d. unfold answer_from_cache. destruct (is_empty keys) eqn:Ek; [done|].
    destruct (already_approved to_json store keys) eqn:Ha; [|done]. intros [= <-]. split; [done|].
    split; [by intros ->|].
    intros key Hin. unfold already_approved in Ha. rewrite forallb_forall in Ha.
    apply list_elem_of_In in Hin. specialize (Ha _ Hin). unfold store_get in Ha.
    destruct (to_json key) as [s|] eqn:Es; [|done]. cbn [mbind option_bind] in Ha.
    destruct (store !! s) as [d|] eqn:El; [|done].
    destruct (store_invariant to_json _ _ Hrun s d El) as (ks & k & Hans & Hk & Hks).
    exists ks. split; [done|]. by rewrite (Hinj _ _ _ Es Hks).
  - intros Hne Hser. unfold answer_from_cache, record_decision.
    assert (is_empty keys = false) as -> by by destruct keys. cbn [is_approved_for_session].
    assert (forall ks st, (forall key, key ∈ ks -> to_json key <> None) ->
              (forall key s, to_json key = Some s -> st !! s = Some ApprovedForSession \/ key ∈ ks ->
               foldl (fun store key => store_put to_json store key ApprovedForSession) st ks !! s
                 = Some ApprovedForSession)) as Hput.
    { induction ks as [|k ks IH]; intros st Hks key s Hs Hor; cbn [foldl].
      - by destruct Hor as [?|?%elem_of_nil].
      - apply IH with (key := key); [intros ? ?; apply Hks; by right|done|].
        unfold store_put. destruct (to_json k) as [t|] eqn:Et; [|by destruct (Hks k); [left|]].
        destruct (decide (t = s)) as [->|Hts]; [left; apply lookup_insert_eq|].
        rewrite lookup_insert_ne by done. destruct Hor as [?|[->|?]%elem_of_cons]; [by left|congruence|by right]. }
    assert (already_approved to_json (foldl (fun store key => store_put to_json store key ApprovedForSession) store keys) keys = true) as ->; [|done].
    apply forallb_forall. intros key Hin%list_elem_of_In. unfold store_get.
    destruct (to_json key) as [s|] eqn:Es; [|by destruct (Hser key)]. cbn [mbind option_bind].
    by rewrite (Hput keys store Hser key s Es (or_intror Hin)).
Qed.

(** ** What an automatic approval means *)

Lemma map_forallb_spec {V} (f : str -> V -> bool) (m : gmap str V) :
  map_forallb f m = true <-> forall k v, m !! k = Some v -> f k v = true.
Proof.
  unfold map_forallb. rewrite forallb_forall. split.
  - intros Hf k v Hkv. apply (Hf (k, v)). by apply list_elem_of_In, elem_of_map_to_list.
  - intros Hf [k v] Hin. apply Hf. by apply elem_of_map_to_list, list_elem_of_In.
Qed.

Lemma normalize_normal cwd p : normal_abs p -> normalize (resolve_path cwd p) = Some p.
Proof.
  intros Hp. unfold normalize, resolve_path. rewrite normal_abs_absolute by done. f_equal.
  pose proof (absolutize_from_id p [] Hp) as E. unfold absolutize_from, path_with_base, normalize_path in E.
  rewrite normal_abs_absolute in E by done.
  destruct (foldl normalize_step [] (components p)); [|done]. cbn in E. subst p. by destruct Hp as (? & _ & ?).
Qed.

(** The paths a change writes to or removes. *)
Definition change_paths (path : str) (c : ApplyPatchFileChange) : list str :=
  path :: match c with Update _ (Some dest) _ => [dest] | _ => [] end.

Section assess.
Context `{Host}.

Lemma constrained_spec action policy cwd :
  is_write_patch_constrained_to_writable_paths action policy cwd = true
  <-> forall path c p, changes action !! path = Some c -> p ∈ change_paths path c ->
        is_patch_path_writable policy cwd p = true.
Proof.
  unfold is_write_patch_constrained_to_writable_paths. rewrite map_forallb_spec. split.
  - intros Hf path c p Hc Hp. specialize (Hf path c Hc). cbn beta in Hf.
    assert (is_patch_path_writable policy cwd path = true) as E.
    { destruct c; [done..|]. by destruct (is_patch_path_writable policy cwd path). }
    apply elem_of_cons in Hp as [->|Hp]; [done|].
    destruct c as [text|text|diff [dest|] text]; try by apply elem_of_nil in Hp.
    apply list_elem_of_singleton in Hp as ->. by rewrite E in Hf.
  - intros Hf path c Hc. pose proof (fun p => Hf path c p Hc) as Hp.
    assert (is_patch_path_writable policy cwd path = true) as E by (apply Hp; left).
    destruct c as [text|text|diff [dest|] text]; cbn [fst snd]; rewrite ?E; [done..| |done].
    apply Hp. right. left.
Qed.
End assess.

(** The assessment of a patch.  An empty patch is rejected; under
    [UnlessTrusted] every other is shown to the user; it is approved without
    asking only if each path it changes and each destination of a move can be
    written under the policy, or the user is only asked on failure, and then
    it runs in the platform's sandbox unless the profile has none; it is
    rejected only where the settings forbid to ask, and the user is asked only
    where they do not. *)
Theorem assess_patch_safety_spec `{Host} action policy profile fs_policy cwd level :
  let writable := forall path c p, changes action !! path = Some c -> p ∈ change_paths path c ->
                    is_patch_path_writable fs_policy cwd p = true in
  match assess_patch_safety action policy profile fs_policy cwd level with
  | AutoApprove sandbox explicit =>
      explicit = false /\ changes action <> ∅ /\ policy <> UnlessTrusted
      /\ (policy = OnFailure \/ writable)
      /\ sandbox = match profile with Managed _ _ => LinuxSeccomp | Disabled | External _ => NoSandbox end
  | AskUser =>
      changes action <> ∅ /\ rejects_sandbox_approval policy = false
      /\ (policy = UnlessTrusted \/ policy <> OnFailure /\ ~ writable)
  | Reject reason =>
      (changes action = ∅ /\ reason = lit "empty patch")
      \/ (changes action <> ∅ /\ rejects_sandbox_approval policy = true /\ ~ writable
          /\ reason = patch_rejection_reason profile fs_policy cwd)
  end.
Proof.
  intros writable. unfold assess_patch_safety.
  case_bool_decide as Hc; [by left|].
  pose proof (constrained_spec action fs_policy cwd) as Hw. fold writable in Hw.
  destruct (is_write_patch_constrained_to_writable_paths action fs_policy cwd).
  - destruct Hw as [Hw _]. specialize (Hw eq_refl).
    destruct policy; try (split; [done|]; by split; [|left]);
      destruct profile; cbn; (split; [done|]); (split; [done|]); (split; [done|]); (split; [by right|done]).
  - assert (~ writable) as Hnw by by intros ?%Hw.
    destruct policy as [| | |config|]; cbn [orb]; try (split; [done|]; by split; [|left]).
    + destruct profile; cbn; (split; [done|]); (split; [done|]); (split; [done|]); (split; [by left|done]).
    + split; [done|]. split; [done|]. by right.
    + cbn [rejects_sandbox_approval]. destruct (sandbox_approval config) eqn:E; cbn [negb].
      * split; [done|]. split; [done|]. by right.
      * by right.
    + by right.
Qed.

(** ** From the assessment to the files *)

Section confined.
Context (home_dir : option str) (cwd : str).

Lemma hunk_spec_frame h m m' q :
  hunk_spec home_dir cwd h m = Some m' -> q ∉ touched home_dir cwd h -> m' !! q = m !! q.
Proof.
  unfold hunk_spec, touched. intros Hs Hq. rewrite not_elem_of_cons in Hq. destruct Hq as [Hne Hq].
  destruct h as [path contents|path|path [dest|] chunks].
  - injection Hs as <-. by apply lookup_insert_ne.
  - injection Hs as <-. by apply lookup_delete_ne.
  - destruct (updated_text _ _ _); [|done]. injection Hs as <-. apply not_elem_of_cons in Hq as [Hd _].
    rewrite lookup_delete_ne by done. by apply lookup_insert_ne.
  - destruct (updated_text _ _ _); [|done]. injection Hs as <-. by apply lookup_insert_ne.
Qed.

Lemma hunks_spec_frame hs m m' q :
  hunks_spec home_dir cwd hs m = Some m' -> q ∉ hs ≫= touched home_dir cwd -> m' !! q = m !! q.
Proof.
  revert m. induction hs as [|h hs IH]; intros m; cbn [hunks_spec]; [by intros [= ->]|].
  destruct (hunk_spec home_dir cwd h m) as [m1|] eqn:E; [|done]. cbn [mbind option_bind].
  rewrite bind_list_cons, not_elem_of_app. intros Hs [Hq Hqs].
  rewrite (IH m1) by done. by eapply hunk_spec_frame.
Qed.

(** Whether it succeeds or fails, applying touches nothing else. *)
Lemma apply_frame {Sandbox Fs : Type} `{FileSystemLaws Sandbox Fs} (sandbox : option Sandbox) hs s s' r q :
  apply_hunks_to_files home_dir hs cwd sandbox s = Some (s', r) ->
  q ∉ hs ≫= touched home_dir cwd -> files s' !! q = files s !! q.
Proof.
  unfold apply_hunks_to_files. destruct (is_empty hs); [by intros [= <- <-]|].
  intros Hr%apply_hunk_list_inv Hq. destruct r as [a|e]; [destruct Hr; by eapply hunks_spec_frame|].
  destruct Hr as (before & h & after & m & -> & Hm & Hsame & _).
  rewrite bind_app, bind_list_cons, !not_elem_of_app in Hq. destruct Hq as (Hqb & Hqh & _).
  rewrite Hsame; [by eapply hunks_spec_frame|]. intros Ht. apply Hqh. unfold touched.
  destruct h as [path contents|path|path [dest|] chunks]; cbn [hunk_target] in Ht; [|done|..];
    injection Ht as ->; [by left|right; by left|by left].
Qed.

(** With distinct source paths each hunk's own change is recorded. *)
Lemma changes_of_distinct paths cs acc p c :
  NoDup paths -> (p, c) ∈ zip paths cs -> changes_of paths cs acc !! p = Some c.
Proof.
  unfold changes_of. revert cs acc. induction paths as [|p' paths IH]; intros cs acc Hnd Hin.
  { destruct cs; by apply elem_of_nil in Hin. }
  apply NoDup_cons in Hnd as [Hp' Hnd]. destruct cs as [|c' cs]; [by apply elem_of_nil in Hin|].
  cbn [zip zip_with foldl fst snd] in *. apply elem_of_cons in Hin as [[= -> ->]|Hin]; [|by apply IH].
  clear IH Hnd. generalize (lookup_insert_eq acc p' c'). generalize (<[p':=c']> acc). revert cs Hp'.
  induction paths as [|q paths IH]; intros cs Hq m Hm; [by destruct cs|].
  apply not_elem_of_cons in Hq as [Hne Hq]. destruct cs as [|d cs]; [done|]. cbn [zip zip_with foldl fst snd].
  apply IH; [done|]. by rewrite lookup_insert_ne by done.
Qed.

(** The change of a hunk names every path that the hunk touches. *)
Lemma change_paths_touched text_diff m h c :
  change_spec home_dir text_diff cwd m h = Some c ->
  change_paths (hunk_resolve_path home_dir h cwd) c = touched home_dir cwd h.
Proof.
  unfold change_spec, touched. destruct h as [path contents|path|path mv chunks].
  - by intros [= <-].
  - destruct (file_text _ _); [|done]. by intros [= <-].
  - destruct (file_text _ _); [|done]. cbn. destruct (updated_text _ _ _); [|done]. intros [= <-]. by destruct mv.
Qed.

Lemma touched_normal h q :
  is_absolute cwd = true -> q ∈ touched home_dir cwd h -> normal_abs q.
Proof.
  intros Hc. unfold touched. rewrite elem_of_cons. intros [->|Hq].
  - destruct h; by apply absolutize_from_normal.
  - destruct h as [| |path [dest|] chunks]; try by apply elem_of_nil in Hq.
    apply list_elem_of_singleton in Hq as ->. by apply absolutize_from_normal.
Qed.
End confined.

(** C6: what is approved without asking stays within what may be written.  If
    a command was verified, its patch approved without asking (and not for
    want of asking on failure), and its hunks are on distinct files, then
    applying them, whether that succeeds or fails half way, changes only files
    that the session's policy lets be written. *)
Theorem auto_approved_patch_confined `{Host} {LanguageError Sandbox Fs : Type} `{FileSystemLaws Sandbox Fs}
    (query : str -> result (ExtractHeredocError LanguageError)
                           (list (list (CaptureName * result Utf8Error str))))
    (text_diff : str -> str -> nat -> str) (argv : list str) (cwd : str) (sandbox : option Sandbox)
    (s s1 s2 : Fs) (action : ApplyPatchAction) (args : ApplyPatchArgs) (r : result anyhow_Error AffectedPaths)
    policy profile fs_policy turn_cwd level sandbox_type explicit :
  maybe_parse_apply_patch_verified query h_home_dir text_diff argv cwd sandbox s = Some (s1, Ok (VBody action)) ->
  maybe_parse_apply_patch query argv = Some (Body args) ->
  is_absolute (act_cwd action) = true ->
  NoDup (map (fun h => hunk_resolve_path h_home_dir h (act_cwd action)) (hunks args)) ->
  assess_patch_safety action policy profile fs_policy turn_cwd level = AutoApprove sandbox_type explicit ->
  policy <> OnFailure ->
  apply_hunks_to_files h_home_dir (hunks args) (act_cwd action) sandbox s1 = Some (s2, r) ->
  forall q, files s2 !! q <> files s !! q -> can_write_path_with_cwd fs_policy q turn_cwd = true.
Proof.
  intros Hv Hargs Hcwd Hnd Ha Hpol Happ q Hq.
  destruct (verified_inv _ _ _ _ _ _ _ _ _ Hv) as (Hf & v & [= <-] & Hact).
  destruct (Hact _ eq_refl) as (_ & args' & cs & Hp & _ & _ & HF & Hch).
  rewrite Hargs in Hp. injection Hp as <-.
  assert (q ∈ hunks args ≫= touched h_home_dir (act_cwd action)) as (h & Hqh & Hh)%list_elem_of_bind.
  { destruct (decide (q ∈ hunks args ≫= touched h_home_dir (act_cwd action))) as [|Hn]; [done|].
    destruct Hq. rewrite <- Hf. by eapply apply_frame. }
  assert (exists c, change_spec h_home_dir text_diff (act_cwd action) (files s) h = Some c
            /\ changes action !! hunk_resolve_path h_home_dir h (act_cwd action) = Some c) as (c & Hc & Hl).
  { rewrite Hch. clear -HF Hnd Hh. apply list_elem_of_lookup in Hh as [i Hi].
    destruct (Forall2_lookup_l _ _ _ _ _ HF Hi) as (c & Hci & Hc). exists c. split; [done|].
    apply changes_of_distinct; [done|]. apply list_elem_of_lookup. exists i.
    apply lookup_zip_with_Some. exists (hunk_resolve_path h_home_dir h (act_cwd action)), c.
    split; [done|]. split; [|done]. by rewrite list_lookup_fmap, Hi. }
  unfold assess_patch_safety in Ha. case_bool_decide; [done|].
  destruct (is_write_patch_constrained_to_writable_paths action fs_policy turn_cwd) eqn:Hcon.
  - apply constrained_spec with (path := hunk_resolve_path h_home_dir h (act_cwd action)) (c := c) (p := q) in Hcon;
      [|done|by erewrite change_paths_touched].
    unfold is_patch_path_writable in Hcon.
    by rewrite normalize_normal in Hcon by by eapply touched_normal.
  - destruct policy; cbn [orb] in Ha; by repeat case_match.
Qed.

(** ** The hypotheses hold *)

Definition work_policy : FileSystemSandboxPolicy := restricted
  [mkEntry (Special Root) AccessRead; mkEntry (PathEntry (lit "/w")) AccessWrite].
Definition work_profile : PermissionProfile :=
  Managed (ManagedRestricted (fs_entries work_policy) None) NetRestricted.

Lemma assess_patch_safety_spec_witness :
  @assess_patch_safety (plain_host []) sample_action Never work_profile work_policy (lit "/w") LevelDisabled
    = AutoApprove LinuxSeccomp false.
Proof.
  pose proof (@assess_patch_safety_spec (plain_host []) sample_action Never work_profile work_policy (lit "/w") LevelDisabled) as Ha.
  destruct (@assess_patch_safety (plain_host []) sample_action Never work_profile work_policy (lit "/w") LevelDisabled)
    as [sandbox explicit| |reason] eqn:E; [|vm_compute in E; discriminate E..].
  destruct Ha as (-> & _ & _ & _ & ->). reflexivity.
Defined.

Definition tilde_host : Host := plain_host [].

Lemma auto_approved_patch_confined_witness :
  @can_write_path_with_cwd tilde_host work_policy (lit "/w/a.txt") (lit "/w") = true.
Proof.
  apply (@auto_approved_patch_confined tilde_host Empty_set unit MemFs _ _ no_match sample_diff sample_argv (lit "/w") None
    sample_fs sample_fs (final_state apply_sample sample_fs) sample_action sample_args
    (Ok (mkAffected [] [lit "a.txt"] [])) Never work_profile work_policy (lit "/w") LevelDisabled LinuxSeccomp false);
    [vm_compute; reflexivity|vm_compute; reflexivity|reflexivity| |vm_compute; reflexivity|discriminate|vm_compute; reflexivity|].
  - apply (bool_decide_eq_true_1 (NoDup _)). vm_compute. reflexivity.
  - vm_compute. discriminate.
Defined.

Lemma cached_approval_sound_witness :
  exists keys', Answered keys' ApprovedForSession
                  ∈ [Answered [lit "/w/a"; lit "/w/b"] ApprovedForSession; Asked [lit "/w/a"; lit "/w/b"]]
                /\ lit "/w/b" ∈ keys'.
Proof.
  assert (cache_run (fun k : str => Some k)
            [Answered [lit "/w/a"; lit "/w/b"] ApprovedForSession; Asked [lit "/w/a"; lit "/w/b"]]
            (record_decision (fun k : str => Some k) ∅ [lit "/w/a"; lit "/w/b"] ApprovedForSession, [])) as Hrun.
  { eapply run_step; [eapply run_step; [apply run_start|apply step_ask; reflexivity]|].
    apply (step_answer _ _ [] _ []). }
  destruct (cached_approval_sound (fun k : str => Some k) _ _ _ [lit "/w/b"]
              ltac:(intros k k' s [= ->] [= ->]; reflexivity) Hrun) as [Hc _].
  destruct (Hc ApprovedForSession ltac:(vm_compute; reflexivity)) as (_ & _ & Hall).
  apply Hall. left.
Defined.

(** Two hunks on one file, the first moving it out of the workspace and the
    second adding it again: only the second change is kept, so the patch
    counts as confined to the workspace and is approved without asking,
    though applying it writes outside. *)
Definition escaping_patch : str :=
  text_of ["*** Begin Patch"; "*** Update File: a.txt"; "*** Move to: /etc/x"; "@@"; "-b"; "+B";
           "*** Add File: a.txt"; "+n"; "*** End Patch"].
Definition escaping_hunks : list Hunk :=
  match parse_patch escaping_patch with Some (Ok args) => hunks args | _ => [] end.

Example moved_then_added_escapes :
  (match maybe_parse_apply_patch_verified no_match None sample_diff [lit "apply_patch"; escaping_patch]
           (lit "/w") (None : option unit) sample_fs with
   | Some (_, Ok (VBody action)) =>
       Some (@assess_patch_safety (plain_host []) action OnRequest work_profile work_policy (lit "/w") LevelDisabled)
   | _ => None
   end) = Some (AutoApprove LinuxSeccomp false)
  /\ mem_files (final_state (apply_hunks_to_files None escaping_hunks (lit "/w") None) sample_fs)
       !! lit "/etc/x" = Some (into_bytes (file_of ["a"; "B"; ""]))
  /\ @can_write_path_with_cwd (plain_host []) work_policy (lit "/etc/x") (lit "/w") = false.
Proof. split_and!; vm_compute; reflexivity. Qed.
