(* ===== verification/PatchProgress.v ===== *)
(** * PatchProgress: the progress events of a patch that is still arriving

    [ApplyPatchArgumentDiffConsumer] of
    [core/src/tools/handlers/apply_patch.rs]: a state machine over the pieces of
    the text and the times at which they come.  Times are milliseconds. *)

From S2P Require Import Prelude Paths PatchParser PatchPrint PatchSafety.
Local Open Scope str_scope.

(** A [HashMap] keyed by paths as written, which compare by components; an
    entry for an equal path keeps its key. *)
Abbreviation ChangeMap := (list (str * FileChange)).

Record PatchApplyUpdatedEvent : Type := mkUpdatedEvent {
  ev_call_id : str;
  ev_changes : ChangeMap;
}.

Definition APPLY_PATCH_ARGUMENT_DIFF_BUFFER_INTERVAL : nat := 500.

Record ApplyPatchArgumentDiffConsumer : Type := mkConsumer {
  input : str;
  last_progress : option (list Hunk);
  last_sent_at : option nat;
  pending : option PatchApplyUpdatedEvent;
}.

(** The derived [Default]. *)
Definition new_consumer : ApplyPatchArgumentDiffConsumer := mkConsumer [] None None None.

Definition hunk_source_path (hunk : Hunk) : str :=
  match hunk with AddFile path _ | DeleteFile path | UpdateFile path _ _ => path end.

Definition format_update_chunk (unified_diff : str) (chunk : UpdateFileChunk) : str :=
  let unified_diff :=
    match change_context chunk with
    | Some context => unified_diff ++ lit "@@ " ++ context ++ [NL]
    | None => unified_diff ++ lit "@@" ++ [NL]
    end in
  let unified_diff := foldl (fun d line => d ++ lit "-" ++ line ++ [NL]) unified_diff (old_lines chunk) in
  let unified_diff := foldl (fun d line => d ++ lit "+" ++ line ++ [NL]) unified_diff (new_lines chunk) in
  if is_end_of_file chunk then unified_diff ++ lit "*** End of File" ++ [NL] else unified_diff.

Definition format_update_chunks_for_progress (chunks : list UpdateFileChunk) : str :=
  foldl format_update_chunk [] chunks.

Fixpoint insert_change (changes : ChangeMap) (path : str) (change : FileChange) : ChangeMap :=
  match changes with
  | [] => [(path, change)]
  | (p, c) :: changes =>
      if path_eqb p path then (p, change) :: changes
      else (p, c) :: insert_change changes path change
  end.

Definition hunk_change (hunk : Hunk) : FileChange :=
  match hunk with
  | AddFile _ contents => FAdd contents
  | DeleteFile _ => FDelete []
  | UpdateFile _ move_path chunks => FUpdate (format_update_chunks_for_progress chunks) move_path
  end.

Definition convert_apply_patch_hunks_to_protocol (hunks : list Hunk) : ChangeMap :=
  foldl (fun changes hunk => insert_change changes (hunk_source_path hunk) (hunk_change hunk)) [] hunks.

(** [duration_since] saturates. *)
Definition push_delta (self : ApplyPatchArgumentDiffConsumer) (call_id delta : str) (now : nat)
  : ApplyPatchArgumentDiffConsumer * option PatchApplyUpdatedEvent :=
  let text := input self ++ delta in
  let self := mkConsumer text (last_progress self) (last_sent_at self) (pending self) in
  match parse_patch_streaming text with
  | Some (Ok args) =>
      if is_empty (hunks args) then (self, None)
      else if bool_decide (last_progress self = Some (hunks args)) then (self, None)
      else
        let event := mkUpdatedEvent call_id (convert_apply_patch_hunks_to_protocol (hunks args)) in
        match last_sent_at self with
        | Some sent =>
            if (now - sent <? APPLY_PATCH_ARGUMENT_DIFF_BUFFER_INTERVAL)%nat
            then (mkConsumer text (Some (hunks args)) (Some sent) (Some event), None)
            else (mkConsumer text (Some (hunks args)) (Some now) None, Some event)
        | None => (mkConsumer text (Some (hunks args)) (Some now) None, Some event)
        end
  | _ => (self, None)
  end.

Definition flush_update_on_complete (self : ApplyPatchArgumentDiffConsumer) (now : nat)
  : ApplyPatchArgumentDiffConsumer * option PatchApplyUpdatedEvent :=
  match pending self with
  | Some event => (mkConsumer (input self) (last_progress self) (Some now) None, Some event)
  | None => (self, None)
  end.

(** [consume_diff]: the feature gate. *)
Definition consume_diff (streaming_events_enabled : bool) (self : ApplyPatchArgumentDiffConsumer)
    (call_id diff : str) (now : nat) : ApplyPatchArgumentDiffConsumer * option PatchApplyUpdatedEvent :=
  if negb streaming_events_enabled then (self, None) else push_delta self call_id diff now.

(** A call's pieces with their times, and the events with the times at which
    they were sent. *)
Fixpoint push_all (self : ApplyPatchArgumentDiffConsumer) (call_id : str) (deltas : list (str * nat))
  : ApplyPatchArgumentDiffConsumer * list (nat * PatchApplyUpdatedEvent) :=
  match deltas with
  | [] => (self, [])
  | (delta, now) :: deltas =>
      let '(self, event) := push_delta self call_id delta now in
      let '(self, events) := push_all self call_id deltas in
      (self, match event with Some event => (now, event) :: events | None => events end)
  end.

Definition run_call (call_id : str) (deltas : list (str * nat)) (finish : nat)
  : list (nat * PatchApplyUpdatedEvent) :=
  let '(self, events) := push_all new_consumer call_id deltas in
  let '(_, last) := flush_update_on_complete self finish in
  events ++ match last with Some event => [(finish, event)] | None => [] end.

(** ** The format of the changes *)

Lemma foldl_lines (prefix : str) (ls : list str) (d : str) :
  foldl (fun d line => d ++ prefix ++ line ++ [NL]) d ls
  = d ++ concat (map (fun line => (prefix ++ line) ++ [NL]) ls).
Proof.
  revert d. induction ls as [|l ls IH]; intros d; cbn; [by rewrite app_nil_r|].
  rewrite IH, <- !app_assoc. done.
Qed.

(** The shown diff is the chunks as the patch grammar prints them. *)
Lemma format_chunks_print chunks :
  format_update_chunks_for_progress chunks
  = concat (map (fun line => line ++ [NL]) (chunks ≫= print_chunk)).
Proof.
  unfold format_update_chunks_for_progress.
  assert (forall d c, format_update_chunk d c = d ++ concat (map (fun line => line ++ [NL]) (print_chunk c))) as Hc.
  { intros d c. unfold format_update_chunk, print_chunk. rewrite !foldl_lines. cbn [map concat].
    rewrite !map_app, !concat_app, !map_map. unfold print_context.
    destruct (change_context c), (is_end_of_file c); cbn [map concat]; rewrite ?app_nil_r, <- ?app_assoc; done. }
  assert (forall d, foldl format_update_chunk d chunks
            = d ++ concat (map (fun line => line ++ [NL]) (chunks ≫= print_chunk))) as H; [|by rewrite H].
  induction chunks as [|c chunks IH]; intros d; [by rewrite app_nil_r|].
  cbn [foldl]. rewrite IH, Hc, bind_list_cons, map_app, concat_app. by rewrite <- app_assoc.
Qed.

(** ** What the events show *)

(** The hunks of the text so far, if there are any. *)
Definition progress_of (text : str) : option (list Hunk) :=
  match parse_patch_streaming text with
  | Some (Ok args) => if is_empty (hunks args) then None else Some (hunks args)
  | _ => None
  end.

(** The last progress that the pieces make from [text] on. *)
Fixpoint last_progress_of (text : str) (progress : option (list Hunk)) (deltas : list str)
  : option (list Hunk) :=
  match deltas with
  | [] => progress
  | delta :: deltas =>
      let text := text ++ delta in
      last_progress_of text (match progress_of text with Some hs => Some hs | None => progress end) deltas
  end.

(** What has been shown or waits to be is the last progress. *)
Definition shown (self : ApplyPatchArgumentDiffConsumer) (sent : option (nat * PatchApplyUpdatedEvent)) : Prop :=
  fst <$> sent = last_sent_at self
  /\ match last_progress self with
     | None => sent = None /\ pending self = None
     | Some hs =>
         exists t ev, sent = Some (t, ev)
         /\ ev_changes (default ev (pending self)) = convert_apply_patch_hunks_to_protocol hs
     end.

Lemma push_delta_shown self sent call_id delta now self' event :
  shown self sent -> push_delta self call_id delta now = (self', event) ->
  input self' = input self ++ delta
  /\ last_progress self' = match progress_of (input self ++ delta) with
                           | Some hs => Some hs | None => last_progress self end
  /\ shown self' (match event with Some ev => Some (now, ev) | None => sent end)
  /\ forall ev, event = Some ev ->
       ev_call_id ev = call_id
       /\ forall t e, sent = Some (t, e) -> APPLY_PATCH_ARGUMENT_DIFF_BUFFER_INTERVAL <= now - t.
Proof.
  intros [Hsent Hlast]. unfold push_delta, progress_of, shown.
  destruct (parse_patch_streaming (input self ++ delta)) as [[args|e]|];
    [|by intros [= <- <-]..].
  destruct (is_empty (hunks args)); [by intros [= <- <-]|]. cbn [last_progress last_sent_at input pending].
  case_bool_decide as Hsame; [intros [= <- <-]; cbn; rewrite Hsame in *; by split_and!|].
  destruct (last_sent_at self) as [sent_at|].
  - destruct sent as [[t ev]|]; [|done]. cbn in Hsent. injection Hsent as ->.
    destruct (Nat.ltb_spec (now - sent_at) APPLY_PATCH_ARGUMENT_DIFF_BUFFER_INTERVAL);
      intros [= <- <-]; cbn; (split; [done|]); (split; [done|]).
    + split; [|done]. split; [done|]. by exists sent_at, ev.
    + split; [split; [done|by eexists _, _]|]. intros ? [= <-]. split; [done|]. by intros ? ? [= <- <-].
  - destruct sent as [[]|]; [done|]. intros [= <- <-]; cbn. split; [done|]. split; [done|].
    split; [split; [done|by eexists _, _]|]. by intros ? [= <-].
Qed.

Definition spaced (events : list (nat * PatchApplyUpdatedEvent)) : Prop :=
  Sorted (fun a b => APPLY_PATCH_ARGUMENT_DIFF_BUFFER_INTERVAL <= b.1 - a.1) events.

Definition option_list {A} (o : option A) : list A := match o with Some x => [x] | None => [] end.

Lemma last_or {A} (o : option A) x (l : list A) :
  last (option_list o ++ x :: l) = last (x :: l).
Proof. destruct o; cbn [option_list app]; [by rewrite last_cons_cons|done]. Qed.

Definition pending_of (call_id : str) (self : ApplyPatchArgumentDiffConsumer) : Prop :=
  forall ev, pending self = Some ev -> ev_call_id ev = call_id.

Lemma push_delta_pending self call_id delta now self' event :
  pending_of call_id self -> push_delta self call_id delta now = (self', event) -> pending_of call_id self'.
Proof.
  unfold push_delta, pending_of. intros Hp.
  destruct (parse_patch_streaming _) as [[args|e]|]; [|by intros [= <- <-]..].
  destruct (is_empty _); [by intros [= <- <-]|].
  case_bool_decide; [by intros [= <- <-]|].
  destruct (last_sent_at _); [|intros [= <- <-] ? [=]].
  destruct (_ <? _)%nat; intros [= <- <-] ? [=]. by subst.
Qed.

Lemma push_all_spec self sent call_id deltas self' events :
  shown self sent -> pending_of call_id self ->
  push_all self call_id deltas = (self', events) ->
  last_progress self' = last_progress_of (input self) (last_progress self) (map fst deltas)
  /\ shown self' (last (option_list sent ++ events))
  /\ pending_of call_id self'
  /\ spaced (option_list sent ++ events)
  /\ Forall (fun e => ev_call_id e.2 = call_id) events.
Proof.
  revert self sent events. induction deltas as [|[delta now] deltas IH]; intros self sent events Hs Hp Hr.
  - injection Hr as <- <-. rewrite app_nil_r. destruct sent as [e|]; cbn; repeat split; try done; try by apply Hs.
    + constructor; constructor.
    + constructor.
  - cbn [push_all] in Hr. destruct (push_delta self call_id delta now) as [self1 event] eqn:E1.
    destruct (push_all self1 call_id deltas) as [self2 events2] eqn:E2.
    destruct (push_delta_shown _ _ _ _ _ _ _ Hs E1) as (Hin & Hl & Hs1 & Hev).
    pose proof (push_delta_pending _ _ _ _ _ _ Hp E1) as Hp1.
    injection Hr as -> <-. destruct (IH _ _ _ Hs1 Hp1 E2) as (Hl2 & Hs2 & Hp2 & Hsp & Hid).
    cbn [map fst last_progress_of]. rewrite <- Hl, <- Hin.
    split; [done|]. destruct event as [ev|]; [|by split_and!].
    destruct (Hev ev eq_refl) as [Hcall Hgap]. rewrite last_or.
    split; [exact Hs2|]. split; [done|]. split; [|by constructor].
    cbn [option_list app] in Hsp. destruct sent as [[t e]|]; cbn [option_list app]; [|done].
    constructor; [exact Hsp|]. constructor. by apply (Hgap t e).
Qed.

(** For the pieces of one call, coming at any times: if no prefix of the
    text so far parses to a hunk, no event is sent; otherwise the last event,
    at the latest the one sent on completion, shows the hunks of the last
    prefix that parses to any, with their chunks as the patch grammar prints
    them; every event carries the call's id, and, but for the one on
    completion, each comes at least the interval after the one before. *)
Theorem progress_events_spec (call_id : str) (deltas : list (str * nat)) (finish : nat) :
  let events := run_call call_id deltas finish in
  Forall (fun e => ev_call_id e.2 = call_id) events
  /\ (spaced events
      \/ exists before ev, events = before ++ [(finish, ev)] /\ spaced before)
  /\ match last_progress_of [] None (map fst deltas) with
     | None => events = []
     | Some hs => exists before t ev, events = before ++ [(t, ev)]
                  /\ ev_changes ev = convert_apply_patch_hunks_to_protocol hs
     end.
Proof.
  unfold run_call. destruct (push_all new_consumer call_id deltas) as [self events] eqn:E.
  destruct (push_all_spec new_consumer None call_id deltas self events) as (Hl & Hs & Hp & Hsp & Hid); [by split|done|done|].
  cbn [option_list app input last_progress new_consumer] in Hl, Hs, Hsp. rewrite <- Hl.
  unfold flush_update_on_complete. destruct Hs as [_ Hs].
  destruct (pending self) as [ev|] eqn:Ep.
  - split; [|split].
    + apply Forall_app. split; [done|]. constructor; [|constructor]. by apply Hp.
    + right. by exists events, ev.
    + destruct (last_progress self) as [hs|]; [|by destruct Hs].
      destruct Hs as (t & e & _ & Hc). cbn in Hc. by exists events, finish, ev.
  - rewrite app_nil_r. split; [done|]. split; [by left|].
    destruct (last_progress self) as [hs|].
    + destruct Hs as (t & e & Hlast & Hc). apply last_Some in Hlast as [before ->]. by exists before, t, e.
    + destruct Hs as [Hlast _]. by apply last_None in Hlast.
Qed.

(** Two pieces within the interval: the second waits for the end. *)
Definition sample_pieces : list (str * nat) :=
  [(text_of ["*** Begin Patch"; "*** Delete File: a"; ""], 1000);
   (text_of ["*** Delete File: b"; "*** End Patch"], 1100)].

Example sample_progress :
  run_call (lit "c") sample_pieces 1200
  = [(1000, mkUpdatedEvent (lit "c") [(lit "a", FDelete [])]);
     (1200, mkUpdatedEvent (lit "c") [(lit "a", FDelete []); (lit "b", FDelete [])])].
Proof. vm_compute. reflexivity. Qed.

(** Like the announced changes, the events keep one change per path. *)
Example progress_keeps_last_change :
  convert_apply_patch_hunks_to_protocol [UpdateFile (lit "a") (Some (lit "/etc/x")) []; AddFile (lit "a") []]
  = [(lit "a", FAdd [])].
Proof. vm_compute. reflexivity. Qed.
