(* ===== verification/Truncate.v ===== *)
(** * Truncate: cutting output to a budget

    [utils/string/src/truncate.rs], [utils/output-truncation/src/lib.rs] and the
    [TruncationPolicy] of [protocol.rs].  [usize] and [u64] are [N] up to
    [MAX64]; the saturating operations are written out, and the slices of a
    text, which panic inside a character, are [None] then. *)

From Stdlib Require Import SpecFloat.
From S2P Require Import Prelude Utf8.
Local Open Scope str_scope.

Definition MAX64 : N := 18446744073709551615.

Definition sat_add (a b : N) : N := N.min (a + b) MAX64.
Definition sat_mul (a b : N) : N := N.min (a * b) MAX64.
(** [N.sub] is truncated. *)
Definition sat_sub (a b : N) : N := (a - b)%N.

(** [s.len()]. *)
Fixpoint str_len (s : str) : N :=
  match s with [] => 0 | c :: s => N.of_nat (len_utf8 c) + str_len s end.

Definition char_count (s : str) : N := N.of_nat (length s).

(** The text before and after a byte offset, if that is between characters. *)
Fixpoint split_at_byte (n : N) (s : str) : option (str * str) :=
  if (n =? 0)%N then Some ([], s)
  else match s with
       | [] => None
       | c :: s =>
           if (N.of_nat (len_utf8 c) <=? n)%N
           then '(a, b) ← split_at_byte (n - N.of_nat (len_utf8 c)) s; Some (c :: a, b)
           else None
       end.

Definition slice_to (s : str) (n : N) : option str := fst <$> split_at_byte n s.
Definition slice_from (s : str) (n : N) : option str := snd <$> split_at_byte n s.

Definition show_N (n : N) : str := lit (pretty n).

(** ** [truncate.rs] *)

Definition APPROX_BYTES_PER_TOKEN : N := 4.

Definition approx_token_count (text : str) : N :=
  (sat_add (str_len text) (sat_sub APPROX_BYTES_PER_TOKEN 1) / APPROX_BYTES_PER_TOKEN)%N.

Definition approx_bytes_for_tokens (tokens : N) : N := sat_mul tokens APPROX_BYTES_PER_TOKEN.

Definition approx_tokens_from_byte_count (bytes : N) : N :=
  (sat_add bytes (sat_sub APPROX_BYTES_PER_TOKEN 1) / APPROX_BYTES_PER_TOKEN)%N.

Record SplitState : Type := mkSplitState {
  prefix_end : N;
  suffix_start : N;
  removed_chars : N;
  suffix_started : bool;
}.

(** The loop over [char_indices]. *)
Fixpoint split_loop (beginning_bytes tail_start_target idx : N) (s : str) (st : SplitState) : SplitState :=
  match s with
  | [] => st
  | ch :: s =>
      let char_end := (idx + N.of_nat (len_utf8 ch))%N in
      split_loop beginning_bytes tail_start_target char_end s
        (if (char_end <=? beginning_bytes)%N
         then mkSplitState char_end (suffix_start st) (removed_chars st) (suffix_started st)
         else if (tail_start_target <=? idx)%N
         then if suffix_started st then st
              else mkSplitState (prefix_end st) idx (removed_chars st) true
         else mkSplitState (prefix_end st) (suffix_start st) (sat_add (removed_chars st) 1) (suffix_started st))
  end.

Definition split_string (s : str) (beginning_bytes end_bytes : N) : option (N * str * str) :=
  if is_empty s then Some (0%N, [], [])
  else
    let len := str_len s in
    let st := split_loop beginning_bytes (sat_sub len end_bytes) 0 s (mkSplitState 0 len 0 false) in
    let suffix_start := if (suffix_start st <? prefix_end st)%N then prefix_end st else suffix_start st in
    before ← slice_to s (prefix_end st);
    after ← slice_from s suffix_start;
    Some (removed_chars st, before, after).

Definition split_budget (budget : N) : N * N :=
  let left := (budget / 2)%N in (left, (budget - left)%N).

Definition format_truncation_marker (use_tokens : bool) (removed_count : N) : str :=
  [0x2026%N] ++ show_N removed_count
  ++ (if use_tokens then lit " tokens truncated" else lit " chars truncated") ++ [0x2026%N].

Definition removed_units (use_tokens : bool) (removed_bytes removed_chars : N) : N :=
  if use_tokens then approx_tokens_from_byte_count removed_bytes else removed_chars.

Definition assemble_truncated_output (prefix suffix marker : str) : str := prefix ++ marker ++ suffix.

Definition truncate_with_byte_estimate (s : str) (max_bytes : N) (use_tokens : bool) : option str :=
  if is_empty s then Some []
  else if (max_bytes =? 0)%N then
    Some (format_truncation_marker use_tokens (removed_units use_tokens (str_len s) (char_count s)))
  else if (str_len s <=? max_bytes)%N then Some s
  else
    let '(left_budget, right_budget) := split_budget max_bytes in
    '(removed, prefix, suffix) ← split_string s left_budget right_budget;
    let marker := format_truncation_marker use_tokens
                    (removed_units use_tokens (sat_sub (str_len s) max_bytes) removed) in
    Some (assemble_truncated_output prefix suffix marker).

Definition truncate_middle_chars (s : str) (max_bytes : N) : option str :=
  truncate_with_byte_estimate s max_bytes false.

Definition truncate_middle_with_token_budget (s : str) (max_tokens : N) : option (str * option N) :=
  if is_empty s then Some ([], None)
  else if (0 <? max_tokens)%N && (str_len s <=? approx_bytes_for_tokens max_tokens)%N then Some (s, None)
  else
    truncated ← truncate_with_byte_estimate s (approx_bytes_for_tokens max_tokens) true;
    let total_tokens := approx_token_count s in
    Some (if truncated =? s then (truncated, None) else (truncated, Some total_tokens)).

(** ** [TruncationPolicy] *)

Inductive TruncationPolicy : Type := Bytes (bytes : N) | Tokens (tokens : N).

Definition token_budget (self : TruncationPolicy) : N :=
  match self with
  | Bytes bytes => approx_tokens_from_byte_count bytes
  | Tokens tokens => tokens
  end.

Definition byte_budget (self : TruncationPolicy) : N :=
  match self with
  | Bytes bytes => bytes
  | Tokens tokens => approx_bytes_for_tokens tokens
  end.

(** [f64], as the standard library specifies it; [1.2] is its nearest value. *)
Definition f64_of_usize (n : N) : spec_float := binary_normalize 53 1024 (Z.of_N n) 0 false.
Definition f64_mul (x y : spec_float) : spec_float := SFmul 53 1024 x y.
Definition F64_1_2 : spec_float := S754_finite false 5404319552844595 (-52).

(** [x.ceil() as usize]: the cast saturates, and takes what is no number to 0. *)
Definition ceil_as_usize (x : spec_float) : N :=
  match x with
  | S754_finite false m e =>
      let z := if (0 <=? e)%Z then Z.shiftl (Zpos m) e else (- ((- Zpos m) / 2 ^ (- e)))%Z in
      N.min (Z.to_N z) MAX64
  | S754_infinity false => MAX64
  | _ => 0
  end.

(** [policy * multiplier]. *)
Definition policy_mul (self : TruncationPolicy) (multiplier : spec_float) : TruncationPolicy :=
  match self with
  | Bytes bytes => Bytes (ceil_as_usize (f64_mul (f64_of_usize bytes) multiplier))
  | Tokens tokens => Tokens (ceil_as_usize (f64_mul (f64_of_usize tokens) multiplier))
  end.

(** ** [output-truncation/src/lib.rs] *)

Definition truncate_text (content : str) (policy : TruncationPolicy) : option str :=
  match policy with
  | Bytes bytes => truncate_middle_chars content bytes
  | Tokens tokens => fst <$> truncate_middle_with_token_budget content tokens
  end.

Definition formatted_truncate_text (content : str) (policy : TruncationPolicy) : option str :=
  if (str_len content <=? byte_budget policy)%N then Some content
  else
    let total_lines := length (lines content) in
    result ← truncate_text content policy;
    Some (lit "Total output lines: " ++ show_nat total_lines ++ [NL; NL] ++ result).

Inductive ImageDetail : Type := DetailAuto | DetailLow | DetailHigh | DetailOriginal.

Inductive FunctionCallOutputContentItem : Type :=
| FInputText (text : str)
| FInputImage (image_url : str) (detail : option ImageDetail).

Definition item_text (item : FunctionCallOutputContentItem) : option str :=
  match item with FInputText text => Some text | FInputImage _ _ => None end.

Definition is_image (item : FunctionCallOutputContentItem) : bool :=
  match item with FInputText _ => false | FInputImage _ _ => true end.

Definition combine_texts (text_segments : list str) : str :=
  foldl (fun combined text => (if is_empty combined then combined else combined ++ [NL]) ++ text) [] text_segments.

Definition formatted_truncate_text_content_items_with_policy
    (items : list FunctionCallOutputContentItem) (policy : TruncationPolicy)
  : option (list FunctionCallOutputContentItem * option N) :=
  let text_segments := omap item_text items in
  if is_empty text_segments then Some (items, None)
  else
    let combined := combine_texts text_segments in
    if (str_len combined <=? byte_budget policy)%N then Some (items, None)
    else
      text ← formatted_truncate_text combined policy;
      Some (FInputText text :: List.filter is_image items, Some (approx_token_count combined)).

(** The loop over the items: the output so far, the budget and how many texts
    are omitted. *)
Fixpoint truncate_items_loop (policy : TruncationPolicy) (items : list FunctionCallOutputContentItem)
    (out : list FunctionCallOutputContentItem) (remaining_budget omitted_text_items : N)
  : option (list FunctionCallOutputContentItem * N) :=
  match items with
  | [] => Some (out, omitted_text_items)
  | FInputImage image_url detail :: items =>
      truncate_items_loop policy items (out ++ [FInputImage image_url detail]) remaining_budget omitted_text_items
  | FInputText text :: items =>
      if (remaining_budget =? 0)%N
      then truncate_items_loop policy items out remaining_budget (omitted_text_items + 1)
      else
        let cost := match policy with Bytes _ => str_len text | Tokens _ => approx_token_count text end in
        if (cost <=? remaining_budget)%N
        then truncate_items_loop policy items (out ++ [FInputText text]) (sat_sub remaining_budget cost) omitted_text_items
        else
          let snippet_policy := match policy with Bytes _ => Bytes remaining_budget | Tokens _ => Tokens remaining_budget end in
          snippet ← truncate_text text snippet_policy;
          if is_empty snippet
          then truncate_items_loop policy items out 0 (omitted_text_items + 1)
          else truncate_items_loop policy items (out ++ [FInputText snippet]) 0 omitted_text_items
  end.

Definition truncate_function_output_items_with_policy
    (items : list FunctionCallOutputContentItem) (policy : TruncationPolicy)
  : option (list FunctionCallOutputContentItem) :=
  let remaining_budget := match policy with Bytes _ => byte_budget policy | Tokens _ => token_budget policy end in
  '(out, omitted_text_items) ← truncate_items_loop policy items [] remaining_budget 0;
  Some (if (0 <? omitted_text_items)%N
        then out ++ [FInputText (lit "[omitted " ++ show_N omitted_text_items ++ lit " text items ...]")]
        else out).

Definition MAX_I64 : Z := 9223372036854775807.

Definition approx_tokens_from_byte_count_i64 (bytes : Z) : Z :=
  if (bytes <=? 0)%Z then 0%Z
  else Z.min (Z.of_N (approx_tokens_from_byte_count (Z.to_N bytes))) MAX_I64.

Example truncate_sample :
  truncate_text (lit "abcdefghij") (Bytes 4) = Some (lit "ab" ++ [0x2026%N] ++ lit "6 chars truncated" ++ [0x2026%N] ++ lit "ij")
  /\ policy_mul (Bytes 10000) F64_1_2 = Bytes 12000 /\ policy_mul (Bytes 3) F64_1_2 = Bytes 4
  /\ policy_mul (Tokens MAX64) F64_1_2 = Tokens MAX64.
Proof. vm_compute. done. Qed.

(** ** Where a text is cut *)

Lemma str_len_app s t : str_len (s ++ t) = (str_len s + str_len t)%N.
Proof. induction s as [|c s IH]; cbn; [done|]. rewrite IH. lia. Qed.

Lemma len_utf8_pos c : (0 < N.of_nat (len_utf8 c))%N.
Proof. unfold len_utf8. repeat case_match; lia. Qed.

Lemma str_len_0 s : str_len s = 0%N -> s = [].
Proof. destruct s as [|c s]; [done|]. cbn. pose proof (len_utf8_pos c). lia. Qed.

Lemma split_at_byte_app a b : split_at_byte (str_len a) (a ++ b) = Some (a, b).
Proof.
  induction a as [|c a IH]; cbn [str_len split_at_byte app]; [by destruct b|].
  pose proof (len_utf8_pos c). destruct (N.eqb_spec (N.of_nat (len_utf8 c) + str_len a) 0); [lia|].
  destruct (N.leb_spec (N.of_nat (len_utf8 c)) (N.of_nat (len_utf8 c) + str_len a)); [|lia].
  replace (N.of_nat (len_utf8 c) + str_len a - N.of_nat (len_utf8 c))%N with (str_len a) by lia. by rewrite IH.
Qed.

(** The longest beginning, and the longest end, of at most [n] bytes. *)
Fixpoint fit (n : N) (s : str) : str :=
  match s with
  | [] => []
  | c :: s => if (N.of_nat (len_utf8 c) <=? n)%N then c :: fit (n - N.of_nat (len_utf8 c)) s else []
  end.

Fixpoint unfit (n : N) (s : str) : str :=
  match s with
  | [] => []
  | c :: s' => if (N.of_nat (len_utf8 c) <=? n)%N then unfit (n - N.of_nat (len_utf8 c)) s' else s
  end.

(** The text before the longest end of at most [n] bytes. *)
Fixpoint before_tail (n : N) (s : str) : str :=
  if (str_len s <=? n)%N then [] else match s with [] => [] | c :: s => c :: before_tail n s end.

Fixpoint tail_fit (n : N) (s : str) : str :=
  if (str_len s <=? n)%N then s else match s with [] => [] | c :: s => tail_fit n s end.

Lemma fit_unfit n s : s = fit n s ++ unfit n s.
Proof. revert n. induction s as [|c s IH]; intros n; cbn; [done|]. case_match; [|done]. cbn. by rewrite <- IH. Qed.

Lemma tail_split n s : s = before_tail n s ++ tail_fit n s.
Proof. induction s as [|c s IH]; cbn; case_match; try done. cbn. by rewrite <- IH. Qed.

Lemma fit_len n s : (str_len (fit n s) <= n)%N.
Proof.
  revert n. induction s as [|c s IH]; intros n; cbn; [lia|]. destruct (N.leb_spec (N.of_nat (len_utf8 c)) n); cbn; [|lia].
  specialize (IH (n - N.of_nat (len_utf8 c))%N). lia.
Qed.

Lemma fit_longest n s c m : unfit n s = c :: m -> (n < str_len (fit n s ++ [c]))%N.
Proof.
  revert n. induction s as [|d s IH]; intros n; cbn; [done|]. destruct (N.leb_spec (N.of_nat (len_utf8 d)) n).
  - intros Hm. specialize (IH _ Hm). cbn. lia.
  - intros [= -> ->]. cbn. lia.
Qed.

Lemma tail_fit_len n s : (str_len (tail_fit n s) <= n)%N.
Proof. induction s as [|c s IH]; cbn; [case_match; cbn; lia|]. destruct (N.leb_spec (N.of_nat (len_utf8 c) + str_len s) n); [cbn; lia|done]. Qed.

Lemma tail_fit_longest n s m c : before_tail n s = m ++ [c] -> (n < str_len (c :: tail_fit n s))%N.
Proof.
  revert m. induction s as [|d s IH]; intros m; cbn [before_tail tail_fit]; [case_match; by destruct m|].
  destruct (N.leb_spec (str_len (d :: s)) n); [by destruct m|].
  destruct m as [|d' m]; cbn [app]; intros [= -> Hm].
  - pose proof (tail_split n s) as E. rewrite Hm in E. cbn [app] in E. by rewrite <- E.
  - by eapply IH.
Qed.

(** ** The loop *)

Lemma split_loop_started b tail idx s st :
  suffix_started st = true -> (tail <= idx)%N -> match s with [] => True | c :: _ => (b < idx + N.of_nat (len_utf8 c))%N end ->
  split_loop b tail idx s st = st.
Proof.
  revert idx. induction s as [|c s IH]; intros idx Hst Htail Hb; [done|]. cbn [split_loop]. 
  destruct (N.leb_spec (idx + N.of_nat (len_utf8 c)) b); [lia|]. destruct (N.leb_spec tail idx); [|lia].
  rewrite Hst. apply IH; [done|lia|]. destruct s; [done|lia].
Qed.

Lemma split_loop_middle b e total idx s st :
  total = (idx + str_len s)%N -> suffix_started st = false -> suffix_start st = total ->
  match s with [] => True | c :: _ => (b < idx + N.of_nat (len_utf8 c))%N end -> s <> [] -> (removed_chars st <= MAX64)%N ->
  let st' := split_loop b (sat_sub total e) idx s st in
  prefix_end st' = prefix_end st
  /\ suffix_start st' = (idx + str_len (before_tail e s))%N
  /\ removed_chars st' = sat_add (removed_chars st) (char_count (before_tail e s)).
Proof.
  revert idx st. induction s as [|c s IH]; intros idx st Htotal Hst Hstart Hb Hne Hrem st'; [done|].
  unfold st'. clear st'. cbn [str_len] in Htotal. cbn [split_loop before_tail str_len].
  pose proof (len_utf8_pos c). destruct (N.leb_spec (idx + N.of_nat (len_utf8 c)) b); [lia|].
  unfold sat_sub in *. destruct (N.leb_spec (total - e) idx) as [Ht|Ht].
  - rewrite Hst. destruct (N.leb_spec (N.of_nat (len_utf8 c) + str_len s) e); [|lia].
    rewrite split_loop_started; [|done|lia|destruct s; [done|lia]]. cbn. unfold sat_add, char_count. cbn. lia.
  - destruct (N.leb_spec (N.of_nat (len_utf8 c) + str_len s) e); [lia|].
    set (st1 := mkSplitState _ _ _ _). destruct s as [|d s].
    + cbn [split_loop before_tail str_len] in *. unfold st1. cbn. unfold sat_add, char_count. cbn.
      destruct (0 <=? e)%N eqn:E; cbn; lia.
    + destruct (IH (idx + N.of_nat (len_utf8 c))%N st1) as (Hp & Hs & Hr); [cbn [str_len] in *; lia|done|done|pose proof (len_utf8_pos d); lia|done| |].
      { unfold st1, sat_add. cbn. lia. }
      rewrite Hp, Hs, Hr. unfold st1. cbn [prefix_end removed_chars]. cbn [str_len]. split; [done|].
      split; [cbn; lia|]. unfold sat_add, char_count. cbn [length]. lia.
Qed.

Lemma split_loop_prefix b tail idx s st :
  (idx <= b)%N -> prefix_end st = idx ->
  split_loop b tail idx s st
  = split_loop b tail (idx + str_len (fit (b - idx) s)) (unfit (b - idx) s)
      (mkSplitState (idx + str_len (fit (b - idx) s)) (suffix_start st) (removed_chars st) (suffix_started st)).
Proof.
  revert idx st. induction s as [|c s IH]; intros idx st Hidx Hst; cbn [fit unfit].
  - cbn. rewrite N.add_0_r. by destruct st; cbn in *; subst.
  - destruct (N.leb_spec (N.of_nat (len_utf8 c)) (b - idx)) as [Hc|Hc].
    + cbn [split_loop]. destruct (N.leb_spec (idx + N.of_nat (len_utf8 c)) b); [|lia]. rewrite IH by (done || lia).
      cbn [suffix_start removed_chars suffix_started str_len].
      replace (b - (idx + N.of_nat (len_utf8 c)))%N with (b - idx - N.of_nat (len_utf8 c))%N by lia.
      by rewrite !N.add_assoc.
    + cbn [str_len]. rewrite N.add_0_r. by destruct st; cbn in *; subst.
Qed.

Lemma slice_to_app a b : slice_to (a ++ b) (str_len a) = Some a.
Proof. unfold slice_to. by rewrite split_at_byte_app. Qed.

Lemma slice_from_app a b : slice_from (a ++ b) (str_len a) = Some b.
Proof. unfold slice_from. by rewrite split_at_byte_app. Qed.

(** The slices never panic; the removed characters are those in between. *)
Lemma split_string_spec s b e :
  split_string s b e
  = Some (sat_add 0 (char_count (before_tail e (unfit b s))), fit b s, tail_fit e (unfit b s)).
Proof.
  unfold split_string. destruct (is_empty s) eqn:Es.
  { destruct s; [|done]. cbn. by destruct (0 <=? e)%N. }
  rewrite split_loop_prefix by (done || lia). cbn [suffix_start removed_chars suffix_started]. rewrite N.sub_0_r, N.add_0_l.
  pose proof (fit_unfit b s) as Hs. set (p := fit b s) in *. set (rest := unfit b s) in *.
  assert (str_len s = str_len p + str_len rest)%N as Hlen by (rewrite Hs; apply str_len_app).
  destruct (decide (rest = [])) as [Hr|Hr].
  - rewrite Hr in *. cbn [split_loop suffix_start prefix_end removed_chars]. cbn [str_len] in Hlen.
    destruct (N.ltb_spec (str_len s) (str_len p)); [lia|]. rewrite Hlen, N.add_0_r, Hs.
    rewrite slice_to_app, slice_from_app. cbn. by destruct (0 <=? e)%N.
  - set (st := mkSplitState _ _ _ _).
    destruct (split_loop_middle b e (str_len s) (str_len p) rest st) as (Hp & Hsf & Hrm); try done.
    { destruct rest as [|c m] eqn:Em; [done|]. unfold rest in Em. apply fit_longest in Em. fold p in Em.
      rewrite str_len_app in Em. cbn [str_len] in Em. lia. }
    rewrite Hp, Hsf, Hrm. unfold st. cbn [prefix_end removed_chars].
    destruct (N.ltb_spec (str_len p + str_len (before_tail e rest)) (str_len p)); [lia|].
    rewrite Hs, slice_to_app. cbn [mbind option_bind]. rewrite (tail_split e rest) at 1.
    rewrite app_assoc, <- str_len_app, slice_from_app. done.
Qed.

(** ** What is cut out *)

Definition cut (left_budget right_budget : N) (s before mid after : str) : Prop :=
  s = before ++ mid ++ after
  /\ (str_len before <= left_budget)%N /\ (str_len after <= right_budget)%N
  /\ (forall c m, mid = c :: m -> (left_budget < str_len (before ++ [c]))%N)
  /\ (forall m c, mid = m ++ [c] -> (right_budget < str_len (c :: after))%N).

Lemma cut_spec s b e : cut b e s (fit b s) (before_tail e (unfit b s)) (tail_fit e (unfit b s)).
Proof.
  split; [by rewrite <- tail_split, <- fit_unfit|]. split; [apply fit_len|]. split; [apply tail_fit_len|].
  split; [|intros m c; apply tail_fit_longest]. intros c m Hm. apply (fit_longest b s c (m ++ tail_fit e (unfit b s))).
  rewrite (tail_split e (unfit b s)) at 1. by rewrite Hm.
Qed.

Lemma fit_0 s : fit 0 s = [].
Proof. destruct s as [|c s]; [done|]. cbn. pose proof (len_utf8_pos c). by destruct (N.leb_spec (N.of_nat (len_utf8 c)) 0); [lia|]. Qed.

Lemma char_count_le s : (char_count s <= str_len s)%N.
Proof. unfold char_count. induction s as [|c s IH]; cbn [length str_len]; [lia|]. pose proof (len_utf8_pos c). lia. Qed.

Lemma truncate_estimate_spec s max_bytes use_tokens :
  (str_len s <= MAX64)%N ->
  if (str_len s <=? max_bytes)%N then truncate_with_byte_estimate s max_bytes use_tokens = Some s
  else exists before mid after,
    mid <> [] /\ cut (max_bytes / 2) (max_bytes - max_bytes / 2) s before mid after
    /\ truncate_with_byte_estimate s max_bytes use_tokens
       = Some (before ++ format_truncation_marker use_tokens
                 (if use_tokens then approx_tokens_from_byte_count (str_len s - max_bytes) else char_count mid)
               ++ after).
Proof.
  intros Hmax. unfold truncate_with_byte_estimate. destruct s as [|c s'] eqn:Es; [by destruct max_bytes|]. rewrite <- Es in *.
  replace (is_empty s) with false by (by rewrite Es).
  assert (0 < str_len s)%N as Hpos by (rewrite Es; cbn; pose proof (len_utf8_pos c); lia). clear Es.
  destruct (N.leb_spec (str_len s) max_bytes) as [Hle|Hgt].
  { destruct (N.eqb_spec max_bytes 0); [lia|done]. }
  pose proof (cut_spec s (max_bytes / 2) (max_bytes - max_bytes / 2)) as Hcut.
  set (before := fit (max_bytes / 2) s) in *. set (rest := unfit (max_bytes / 2) s) in *.
  set (mid := before_tail (max_bytes - max_bytes / 2) rest) in *. set (after := tail_fit (max_bytes - max_bytes / 2) rest) in *.
  exists before, mid, after. destruct Hcut as (Hs & Hb & Ha & Hc1 & Hc2).
  assert (str_len s = str_len before + str_len mid + str_len after)%N as Hlen by (rewrite Hs at 1; rewrite !str_len_app; lia).
  assert (max_bytes / 2 <= max_bytes)%N as Hhalf by (apply N.Div0.div_le_upper_bound; lia).
  split; [intros Hm; rewrite Hm in Hlen; cbn [str_len] in Hlen; lia|]. split; [done|].
  pose proof (char_count_le mid) as Hmid.
  destruct (N.eqb_spec max_bytes 0) as [->|Hne].
  - assert (before = []) as Hb0 by (apply str_len_0; change (0 / 2)%N with 0%N in Hb; lia).
    assert (after = []) as Ha0 by (apply str_len_0; change (0 - 0 / 2)%N with 0%N in Ha; lia).
    rewrite Hb0, Ha0, app_nil_r in *. cbn [app] in *. rewrite N.sub_0_r. unfold removed_units.
    destruct use_tokens; [done|]. by rewrite Hs at 1.
  - unfold split_budget. rewrite split_string_spec. cbn [mbind option_bind]. unfold assemble_truncated_output, removed_units, sat_sub.
    fold rest. fold before mid after. do 2 f_equal. destruct use_tokens; [done|]. unfold sat_add. do 3 f_equal. lia.
Qed.

Definition use_tokens (policy : TruncationPolicy) : bool := match policy with Bytes _ => false | Tokens _ => true end.

(** What a marker says is left out. *)
Definition marker (policy : TruncationPolicy) (content mid : str) : str :=
  format_truncation_marker (use_tokens policy)
    (match policy with
     | Bytes _ => char_count mid
     | Tokens _ => approx_tokens_from_byte_count (str_len content - byte_budget policy)
     end).

Lemma truncate_text_cut content policy :
  (str_len content <= MAX64)%N ->
  if (str_len content <=? byte_budget policy)%N then truncate_text content policy = Some content
  else exists before mid after,
    mid <> [] /\ cut (byte_budget policy / 2) (byte_budget policy - byte_budget policy / 2) content before mid after
    /\ truncate_text content policy = Some (before ++ marker policy content mid ++ after).
Proof.
  intros Hmax. unfold truncate_text, truncate_middle_chars, marker. destruct policy as [n|n]; cbn [byte_budget use_tokens].
  { by apply truncate_estimate_spec. }
  pose proof (truncate_estimate_spec content (approx_bytes_for_tokens n) true Hmax) as Hspec.
  unfold truncate_middle_with_token_budget. destruct content as [|c s'] eqn:Es; [by destruct (approx_bytes_for_tokens n)|]. rewrite <- Es in *.
  replace (is_empty content) with false by (by rewrite Es).
  destruct (N.leb_spec (str_len content) (approx_bytes_for_tokens n)) as [Hle|Hgt].
  - rewrite Hspec. cbn. destruct ((0 <? n)%N && true); cbn; [done|]. by destruct (content =? content).
  - rewrite andb_false_r. destruct Hspec as (before & mid & after & Hne & Hcut & ->). exists before, mid, after.
    split; [done|]. split; [done|]. cbn. by destruct (_ =? content).
Qed.

(** *** The length of a marker *)

Lemma pretty_N_go_len k x s : (x < 10 ^ N.of_nat k)%N -> (str_len (lit (pretty_N_go x s)) <= N.of_nat k + str_len (lit s))%N.
Proof.
  revert x s. induction k as [|k IH]; intros x s Hx.
  - change (10 ^ N.of_nat 0)%N with 1%N in Hx. assert (x = 0%N) as -> by lia. by rewrite pretty_N_go_0.
  - destruct (decide (x = 0%N)) as [->|Hne]; [rewrite pretty_N_go_0; lia|].
    rewrite pretty_N_go_step by lia. etrans; [apply IH|].
    + apply N.Div0.div_lt_upper_bound. rewrite Nat2N.inj_succ, N.pow_succ_r' in Hx. lia.
    + assert (forall y t, str_len (lit (String (pretty_N_char y) t)) = 1 + str_len (lit t))%N as ->; [|lia].
      intros y t. unfold pretty_N_char. repeat case_match; reflexivity.
Qed.

Lemma show_N_len n : (n <= MAX64)%N -> (str_len (show_N n) <= 20)%N.
Proof.
  intros Hn. unfold show_N, pretty, pretty_N. destruct (decide (n = 0)%N); [done|].
  pose proof (pretty_N_go_len 20 n "" ltac:(change (10 ^ N.of_nat 20)%N with 100000000000000000000%N; unfold MAX64 in Hn; lia)).
  exact H.
Qed.

Lemma approx_tokens_max n : (approx_tokens_from_byte_count n <= MAX64)%N.
Proof.
  unfold approx_tokens_from_byte_count, sat_add. etrans; [apply N.Div0.div_le_upper_bound with (q := MAX64)|done].
  unfold APPROX_BYTES_PER_TOKEN. lia.
Qed.

Lemma marker_len policy content mid : (str_len mid <= MAX64)%N -> (str_len (marker policy content mid) <= 44)%N.
Proof.
  intros Hmid. unfold marker, format_truncation_marker. rewrite !str_len_app.
  assert (str_len [0x2026%N] = 3)%N as -> by done. pose proof (char_count_le mid).
  assert (str_len (if use_tokens policy then lit " tokens truncated" else lit " chars truncated") <= 17)%N by (by destruct policy).
  match goal with |- (_ + (str_len (show_N ?n) + _) <= _)%N => assert (str_len (show_N n) <= 20)%N end; [|lia].
  apply show_N_len. destruct policy; [lia|apply approx_tokens_max].
Qed.

(** The longest text there can be. *)
Definition ISIZE_MAX : N := 9223372036854775807.

Lemma isize_max n : (n <= ISIZE_MAX)%N -> (n + 3 <= MAX64)%N.
Proof. unfold ISIZE_MAX, MAX64. lia. Qed.

Lemma truncate_text_len content policy out :
  (str_len content <= ISIZE_MAX)%N -> truncate_text content policy = Some out ->
  (str_len out <= byte_budget policy + (if (str_len content <=? byte_budget policy)%N then 0 else 44))%N.
Proof.
  intros Hmax%isize_max Hout. pose proof (truncate_text_cut content policy ltac:(lia)) as Hspec.
  destruct (N.leb_spec (str_len content) (byte_budget policy)) as [Hle|Hgt]; [rewrite Hspec in Hout; simplify_eq; lia|].
  destruct Hspec as (before & mid & after & _ & (Hs & Hb & Ha & _) & Ht).
  assert (out = before ++ marker policy content mid ++ after) as -> by congruence.
  assert (str_len mid <= MAX64)%N as Hmid by (rewrite Hs, !str_len_app in Hmax; lia).
  pose proof (marker_len policy content mid Hmid). rewrite (str_len_app before), (str_len_app (marker _ _ _)).
  assert (byte_budget policy / 2 <= byte_budget policy)%N by (apply N.Div0.div_le_upper_bound; lia). lia.
Qed.

(** What the marker says is left out: the characters, or the tokens that the
    bytes over the budget are taken for *)
Definition marker_count (policy : TruncationPolicy) (content mid : str) : N :=
  match policy with
  | Bytes _ => N.of_nat (length mid)
  | Tokens _ => (str_len content - byte_budget policy + 3) / 4
  end.

Definition marker_text (policy : TruncationPolicy) (n : N) : str :=
  [0x2026%N] ++ show_N n ++ lit (match policy with Bytes _ => " chars truncated" | Tokens _ => " tokens truncated" end)
  ++ [0x2026%N].

Lemma marker_says policy content mid :
  (str_len content + 3 <= MAX64)%N -> marker policy content mid = marker_text policy (marker_count policy content mid).
Proof.
  intros Hmax. unfold marker, marker_text, marker_count, format_truncation_marker. destruct policy as [n|n]; [done|].
  cbn [use_tokens]. do 3 f_equal. unfold approx_tokens_from_byte_count, sat_add. change (sat_sub APPROX_BYTES_PER_TOKEN 1) with 3%N.
  rewrite N.min_l by lia. done.
Qed.

Lemma len_utf8_max c : (N.of_nat (len_utf8 c) <= 4)%N.
Proof. unfold len_utf8. repeat case_match; lia. Qed.

(** What is left out is what is over the budget, and at most six bytes more, as
    characters are not split. *)
Lemma cut_excess b e s before mid after :
  mid <> [] -> cut b e s before mid after -> (str_len s - (b + e) <= str_len mid <= str_len s - (b + e) + 6)%N.
Proof.
  intros Hne (-> & Hb & He & Hf & Hl). rewrite !str_len_app.
  destruct mid as [|c m] eqn:Em; [done|]. pose proof (Hf c m eq_refl) as H1.
  destruct (exists_last Hne) as (m' & c' & E). pose proof (Hl m' c' E) as H2.
  rewrite str_len_app in H1. change (str_len [c]) with (N.of_nat (len_utf8 c) + 0)%N in H1.
  change (str_len (c' :: after)) with (N.of_nat (len_utf8 c') + str_len after)%N in H2.
  pose proof (len_utf8_max c). pose proof (len_utf8_max c'). lia.
Qed.



(** ** Many items *)

Definition images (items : list FunctionCallOutputContentItem) : list FunctionCallOutputContentItem :=
  List.filter is_image items.

Definition text_bytes (items : list FunctionCallOutputContentItem) : N :=
  foldr (fun item n => match item with FInputText text => str_len text + n | FInputImage _ _ => n end)%N 0%N items.

(** The cost of a text, and the bytes a budget stands for. *)
Definition text_cost (policy : TruncationPolicy) (text : str) : N :=
  match policy with Bytes _ => str_len text | Tokens _ => approx_token_count text end.

Definition byte_limit (policy : TruncationPolicy) (budget : N) : N :=
  match policy with Bytes _ => budget | Tokens _ => 4 * budget end.

Definition items_cost (policy : TruncationPolicy) (items : list FunctionCallOutputContentItem) : N :=
  foldr (fun item n => match item with FInputText text => text_cost policy text + n | FInputImage _ _ => n end)%N 0%N items.

Definition budget_of (policy : TruncationPolicy) : N :=
  match policy with Bytes bytes => bytes | Tokens tokens => tokens end.

Definition small_items (items : list FunctionCallOutputContentItem) : Prop :=
  Forall (fun item => match item with FInputText text => (str_len text <= ISIZE_MAX)%N | FInputImage _ _ => True end) items.

Lemma text_bytes_app a b : text_bytes (a ++ b) = (text_bytes a + text_bytes b)%N.
Proof. unfold text_bytes. induction a as [|[t|u d] a IH]; cbn; [done|rewrite IH; lia|done]. Qed.

Lemma images_app a b : images (a ++ b) = images a ++ images b.
Proof. apply List.filter_app. Qed.

Lemma text_cost_limit policy text : (str_len text <= ISIZE_MAX)%N -> (str_len text <= byte_limit policy (text_cost policy text))%N.
Proof.
  intros H%isize_max. destruct policy; cbn; [lia|]. unfold approx_token_count, sat_add, sat_sub, APPROX_BYTES_PER_TOKEN.
  rewrite N.min_l by lia. change (4 - 1)%N with 3%N. pose proof (N.div_mod (str_len text + 3) 4). pose proof (N.mod_lt (str_len text + 3) 4). lia.
Qed.

Lemma byte_limit_add policy a b : byte_limit policy (a + b) = (byte_limit policy a + byte_limit policy b)%N.
Proof. destruct policy; unfold byte_limit; lia. Qed.

Lemma byte_limit_mono policy a b : (a <= b)%N -> (byte_limit policy a <= byte_limit policy b)%N.
Proof. destruct policy; unfold byte_limit; lia. Qed.

Lemma items_cost_text policy text items :
  items_cost policy (FInputText text :: items) = (text_cost policy text + items_cost policy items)%N.
Proof. done. Qed.

Lemma truncate_items_loop_spec policy items out remaining omitted :
  small_items items ->
  exists out' omitted',
    truncate_items_loop policy items out remaining omitted = Some (out', omitted')
    /\ images out' = images out ++ images items
    /\ (text_bytes out' <= text_bytes out + (if (remaining =? 0)%N then 0 else byte_limit policy remaining + 44))%N
    /\ ((items_cost policy items < remaining)%N -> out' = out ++ items /\ omitted' = omitted).
Proof.
  intros Hsmall. revert out remaining omitted. induction Hsmall as [|item items Hitem _ IH]; intros out remaining omitted;
    cbn [truncate_items_loop].
  - exists out, omitted. rewrite !app_nil_r. split; [done|]. split; [done|]. split; [lia|done].
  - destruct item as [text|url detail].
    + change (match policy with Bytes _ => str_len text | Tokens _ => approx_token_count text end) with (text_cost policy text).
      destruct (N.eqb_spec remaining 0) as [->|Hr].
      { destruct (IH out 0%N (omitted + 1)%N) as (out' & om' & -> & Himg & Hb & _). exists out', om'. do 2 (split; [done|]).
        split; [exact Hb|]. rewrite items_cost_text. lia. }
      destruct (N.leb_spec (text_cost policy text) remaining) as [Hc|Hc].
      * destruct (IH (out ++ [FInputText text]) (sat_sub remaining (text_cost policy text)) omitted)
          as (out' & om' & -> & Himg & Hb & Hall).
        exists out', om'. split; [done|]. rewrite images_app, app_nil_r in Himg. split; [done|].
        pose proof (text_cost_limit policy text Hitem). rewrite text_bytes_app in Hb. cbn in Hb. split.
        -- unfold sat_sub in Hb. destruct (N.eqb_spec (remaining - text_cost policy text) 0).
           ++ assert (byte_limit policy (text_cost policy text) <= byte_limit policy remaining)%N by (by apply byte_limit_mono). lia.
           ++ pose proof (byte_limit_add policy (text_cost policy text) (remaining - text_cost policy text)) as Hadd.
              replace (text_cost policy text + (remaining - text_cost policy text))%N with remaining in Hadd by lia. lia.
        -- rewrite items_cost_text. unfold sat_sub in Hall. intros Hcost. destruct Hall as [-> ->]; [lia|]. by rewrite <- app_assoc.
      * set (sp := match policy with Bytes _ => Bytes remaining | Tokens _ => Tokens remaining end).
        destruct (truncate_text text sp) as [snippet|] eqn:Esn.
        2:{ pose proof (truncate_text_cut text sp) as Hx. apply isize_max in Hitem. specialize (Hx ltac:(lia)).
            rewrite Esn in Hx. destruct (_ <=? _)%N; [done|]. by destruct Hx as (? & ? & ? & _ & _ & ?). }
        pose proof (truncate_text_len text sp snippet Hitem Esn) as Hsn.
        assert (byte_budget sp <= byte_limit policy remaining)%N as Hbud
          by (destruct policy; cbn; unfold approx_bytes_for_tokens, sat_mul, APPROX_BYTES_PER_TOKEN; lia).
        cbn [mbind option_bind]. destruct (is_empty snippet).
        -- destruct (IH out 0%N (omitted + 1)%N) as (out' & om' & -> & Himg & Hb & _). exists out', om'. do 2 (split; [done|]).
           cbn in Hb. split; [lia|]. rewrite items_cost_text. lia.
        -- destruct (IH (out ++ [FInputText snippet]) 0%N omitted) as (out' & om' & -> & Himg & Hb & _).
           exists out', om'. split; [done|]. rewrite images_app, app_nil_r in Himg. split; [done|].
           rewrite text_bytes_app in Hb. cbn in Hb. split; [|rewrite items_cost_text; lia]. destruct (_ <=? _)%N; lia.
    + destruct (IH (out ++ [FInputImage url detail]) remaining omitted) as (out' & om' & -> & Himg & Hb & Hall).
      exists out', om'. split; [done|]. rewrite images_app, <- app_assoc in Himg. split; [done|].
      rewrite text_bytes_app in Hb. cbn in Hb. rewrite N.add_0_r in Hb. split; [exact Hb|].
      intros Hcost. destruct Hall as [-> ->]; [exact Hcost|]. by rewrite <- app_assoc.
Qed.

Lemma truncate_items_cut items policy :
  small_items items ->
  exists body note,
    truncate_function_output_items_with_policy items policy = Some (body ++ note)
    /\ images body = images items
    /\ (text_bytes body <= byte_limit policy (budget_of policy) + 44)%N
    /\ (note = [] \/ exists n, (0 < n)%N /\ note = [FInputText (lit "[omitted " ++ show_N n ++ lit " text items ...]")])
    /\ ((items_cost policy items < budget_of policy)%N -> body ++ note = items).
Proof.
  intros Hsmall. destruct (truncate_items_loop_spec policy items [] (budget_of policy) 0 Hsmall)
    as (body & omitted & Hloop & Himg & Hb & Hall).
  exists body, (if (0 <? omitted)%N then [FInputText (lit "[omitted " ++ show_N omitted ++ lit " text items ...]")] else []).
  split; [|split; [exact Himg|split; [|split]]].
  - unfold truncate_function_output_items_with_policy.
    replace (match policy with Bytes _ => byte_budget policy | Tokens _ => token_budget policy end) with (budget_of policy)
      by (by destruct policy).
    rewrite Hloop. cbn. destruct (0 <? omitted)%N; [done|]. by rewrite app_nil_r.
  - cbn in Hb. destruct (budget_of policy =? 0)%N; lia.
  - destruct (N.ltb_spec 0 omitted); [right; eauto|by left].
  - intros Hcost. destruct (Hall Hcost) as [-> ->]. cbn. by rewrite app_nil_r.
Qed.

(** Two characters of four bytes make two tokens; neither fits in half a token,
    and the marker speaks of the one over the budget. *)
Example emoji_left_out :
  truncate_text [0x1F600%N; 0x1F600%N] (Tokens 1) = Some ([0x2026%N] ++ lit "1 tokens truncated" ++ [0x2026%N]).
Proof. vm_compute. done. Qed.

(** The marker is not counted: a text of 11 bytes cut to 4 is longer than
    before. *)
Example truncated_is_longer :
  let s := lit "abcdefghijk" in
  str_len s = 11%N /\ str_len <$> truncate_middle_chars s 4 = Some 27%N.
Proof. vm_compute. done. Qed.
