(* ===== verification/ResponseItems.v ===== *)
(** * ResponseItems: the items of a conversation

    The types of [protocol/src/models.rs], what [core/src/context/] injects as
    context and recognises again, and the kinds of item that
    [core/src/event_mapping.rs] and [core/src/context_manager/history.rs] tell
    apart. *)

From S2P Require Import Prelude Trim Utf8 Truncate.
Local Open Scope str_scope.

Inductive ContentItem : Type :=
| InputText (text : str)
| InputImage (image_url : str) (detail : option ImageDetail)
| OutputText (text : str).

Inductive MessagePhase : Type := Commentary | FinalAnswer.

Inductive LocalShellStatus : Type := ShellCompleted | ShellInProgress | ShellIncomplete.

Record LocalShellExecAction : Type := mkExecAction {
  exec_command : list str;
  timeout_ms : option N;
  working_directory : option str;
  exec_env : option (list (str * str));
  exec_user : option str;
}.

Inductive LocalShellAction : Type := Exec (action : LocalShellExecAction).

Inductive WebSearchAction : Type :=
| WebSearch (query : option str) (queries : option (list str))
| OpenPage (url : option str)
| FindInPage (url pattern : option str)
| WebOther.

Inductive ReasoningItemReasoningSummary : Type := SummaryText (text : str).
Inductive ReasoningItemContent : Type := ReasoningText (text : str) | ReasoningPlain (text : str).

Inductive FunctionCallOutputBody : Type :=
| BodyText (content : str)
| BodyItems (items : list FunctionCallOutputContentItem).

Record FunctionCallOutputPayload : Type := mkPayload {
  body : FunctionCallOutputBody;
  success : option bool;
}.

Definition from_text (content : str) : FunctionCallOutputPayload := mkPayload (BodyText content) None.

Definition content_items (self : FunctionCallOutputPayload) : option (list FunctionCallOutputContentItem) :=
  match body self with BodyText _ => None | BodyItems items => Some items end.

(** [Json] is [serde_json::Value], which the code carries along. *)
Inductive ResponseItem (Json : Type) : Type :=
| Message (id : option str) (role : str) (content : list ContentItem) (phase : option MessagePhase)
| Reasoning (id : str) (summary : list ReasoningItemReasoningSummary)
    (content : option (list ReasoningItemContent)) (encrypted_content : option str)
| LocalShellCall (id call_id : option str) (status : LocalShellStatus) (action : LocalShellAction)
| FunctionCall (id : option str) (name : str) (namespace : option str) (arguments call_id : str)
| ToolSearchCall (id call_id status : option str) (execution : str) (arguments : Json)
| FunctionCallOutput (call_id : str) (output : FunctionCallOutputPayload)
| CustomToolCall (id status : option str) (call_id name input : str)
| CustomToolCallOutput (call_id : str) (name : option str) (output : FunctionCallOutputPayload)
| ToolSearchOutput (call_id : option str) (status execution : str) (tools : list Json)
| WebSearchCall (id status : option str) (action : option WebSearchAction)
| ImageGenerationCall (id status : str) (revised_prompt : option str) (result : str)
| Compaction (encrypted_content : str)
| Other.
Arguments Message {_} id role content phase.
Arguments Reasoning {_} id summary content encrypted_content.
Arguments LocalShellCall {_} id call_id status action.
Arguments FunctionCall {_} id name namespace arguments call_id.
Arguments ToolSearchCall {_} id call_id status execution arguments.
Arguments FunctionCallOutput {_} call_id output.
Arguments CustomToolCall {_} id status call_id name input.
Arguments CustomToolCallOutput {_} call_id name output.
Arguments ToolSearchOutput {_} call_id status execution tools.
Arguments WebSearchCall {_} id status action.
Arguments ImageGenerationCall {_} id status revised_prompt result.
Arguments Compaction {_} encrypted_content.
Arguments Other {_}.

(** ** Injected context *)

(** [text.get(..n)] with a case-insensitive comparison. *)
Definition get_start_eq (text marker : str) : bool :=
  match slice_to text (str_len marker) with
  | Some candidate => eq_ignore_ascii_case candidate marker
  | None => false
  end.

Definition get_end_eq (text marker : str) : bool :=
  match slice_from text (sat_sub (str_len text) (str_len marker)) with
  | Some candidate => eq_ignore_ascii_case candidate marker
  | None => false
  end.

(** The trait: what is injected, by whom, between which markers. *)
Class ContextualUserFragment (A : Type) : Type := {
  ROLE : str;
  START_MARKER : str;
  END_MARKER : str;
  fragment_body : A -> str;
}.
Arguments ROLE A {_}.
Arguments START_MARKER A {_}.
Arguments END_MARKER A {_}.

Definition markers_match (start_marker end_marker text : str) : bool :=
  if is_empty start_marker || is_empty end_marker then false
  else
    let trimmed := trim_start text in
    let starts_with_marker := get_start_eq trimmed start_marker in
    let trimmed := trim_end trimmed in
    starts_with_marker && get_end_eq trimmed end_marker.

Definition matches_text (A : Type) `{ContextualUserFragment A} (text : str) : bool :=
  markers_match (START_MARKER A) (END_MARKER A) text.

Definition render {A} `{ContextualUserFragment A} (self : A) : str :=
  if is_empty (START_MARKER A) && is_empty (END_MARKER A) then fragment_body self
  else START_MARKER A ++ fragment_body self ++ END_MARKER A.

Definition fragment_item {A Json} `{ContextualUserFragment A} (self : A) : ResponseItem Json :=
  Message None (ROLE A) [InputText (render self)] None.

Record UserInstructions : Type := mkUserInstructions { ui_directory : str; ui_text : str }.
#[global] Instance UserInstructions_fragment : ContextualUserFragment UserInstructions :=
  {| ROLE := lit "user"; START_MARKER := lit "# AGENTS.md instructions for "; END_MARKER := lit "</INSTRUCTIONS>";
     fragment_body := fun self =>
       ui_directory self ++ [NL; NL] ++ lit "<INSTRUCTIONS>" ++ [NL] ++ ui_text self ++ [NL] |}.

Record SkillInstructions : Type := mkSkillInstructions { si_name : str; si_path : str; si_contents : str }.
#[global] Instance SkillInstructions_fragment : ContextualUserFragment SkillInstructions :=
  {| ROLE := lit "user"; START_MARKER := lit "<skill>"; END_MARKER := lit "</skill>";
     fragment_body := fun self =>
       [NL] ++ lit "<name>" ++ si_name self ++ lit "</name>" ++ [NL]
       ++ lit "<path>" ++ si_path self ++ lit "</path>" ++ [NL] ++ si_contents self ++ [NL] |}.

Record TurnAborted : Type := mkTurnAborted { ta_guidance : str }.
#[global] Instance TurnAborted_fragment : ContextualUserFragment TurnAborted :=
  {| ROLE := lit "user"; START_MARKER := lit "<turn_aborted>"; END_MARKER := lit "</turn_aborted>";
     fragment_body := fun self => [NL] ++ ta_guidance self ++ [NL] |}.

Record NetworkContext : Type := mkNetworkContext { allowed_domains : list str; denied_domains : list str }.

(** [cwd] as [to_string_lossy] shows it. *)
Record EnvironmentContext : Type := mkEnvironment {
  ec_cwd : option str;
  ec_shell : str;
  ec_current_date : option str;
  ec_timezone : option str;
  ec_network : option NetworkContext;
  ec_subagents : option str;
}.

Definition tag_line (indent name text : str) : str :=
  indent ++ lit "<" ++ name ++ lit ">" ++ text ++ lit "</" ++ name ++ lit ">".

Definition environment_lines (self : EnvironmentContext) : list str :=
  match ec_cwd self with Some cwd => [tag_line (lit "  ") (lit "cwd") cwd] | None => [] end
  ++ [tag_line (lit "  ") (lit "shell") (ec_shell self)]
  ++ match ec_current_date self with Some d => [tag_line (lit "  ") (lit "current_date") d] | None => [] end
  ++ match ec_timezone self with Some z => [tag_line (lit "  ") (lit "timezone") z] | None => [] end
  ++ match ec_network self with
     | Some network =>
         [lit "  <network enabled=" ++ [34%N] ++ lit "true" ++ [34%N] ++ lit ">"]
         ++ map (tag_line (lit "    ") (lit "allowed")) (allowed_domains network)
         ++ map (tag_line (lit "    ") (lit "denied")) (denied_domains network)
         ++ [lit "  </network>"]
     | None => []
     end
  ++ match ec_subagents self with
     | Some subagents =>
         [lit "  <subagents>"] ++ map (fun line => lit "    " ++ line) (lines subagents) ++ [lit "  </subagents>"]
     | None => []
     end.

#[global] Instance EnvironmentContext_fragment : ContextualUserFragment EnvironmentContext :=
  {| ROLE := lit "user"; START_MARKER := lit "<environment_context>"; END_MARKER := lit "</environment_context>";
     fragment_body := fun self => [NL] ++ join [NL] (environment_lines self) ++ [NL] |}.

(** The shell is not compared. *)
Definition equals_except_shell (self other : EnvironmentContext) : Prop :=
  ec_cwd self = ec_cwd other /\ ec_current_date self = ec_current_date other /\ ec_timezone self = ec_timezone other
  /\ ec_network self = ec_network other /\ ec_subagents self = ec_subagents other.

Definition with_subagents (self : EnvironmentContext) (subagents : str) : EnvironmentContext :=
  if is_empty subagents then self
  else mkEnvironment (ec_cwd self) (ec_shell self) (ec_current_date self) (ec_timezone self) (ec_network self) (Some subagents).

(** The bodies of the last two need the formatting of [f64] and of JSON. *)
Section formatted.
Context {Seconds AgentStatus : Type} (display_4 : Seconds -> str) (notification_json : str -> AgentStatus -> str).

Record UserShellCommand : Type := mkUserShellCommand {
  usc_command : str; usc_exit_code : Z; usc_duration_seconds : Seconds; usc_output : str;
}.

Definition UserShellCommand_fragment : ContextualUserFragment UserShellCommand :=
  {| ROLE := lit "user"; START_MARKER := lit "<user_shell_command>"; END_MARKER := lit "</user_shell_command>";
     fragment_body := fun self =>
       [NL] ++ lit "<command>" ++ [NL] ++ usc_command self ++ [NL] ++ lit "</command>" ++ [NL] ++ lit "<result>" ++ [NL]
       ++ lit "Exit code: " ++ lit (pretty (usc_exit_code self)) ++ [NL]
       ++ lit "Duration: " ++ display_4 (usc_duration_seconds self) ++ lit " seconds" ++ [NL]
       ++ lit "Output:" ++ [NL] ++ usc_output self ++ [NL] ++ lit "</result>" ++ [NL] |}.

Record SubagentNotification : Type := mkSubagentNotification { sn_agent_reference : str; sn_status : AgentStatus }.

Definition SubagentNotification_fragment : ContextualUserFragment SubagentNotification :=
  {| ROLE := lit "user"; START_MARKER := lit "<subagent_notification>"; END_MARKER := lit "</subagent_notification>";
     fragment_body := fun self => [NL] ++ notification_json (sn_agent_reference self) (sn_status self) ++ [NL] |}.
End formatted.

(** The registrations, by their markers. *)
Definition CONTEXTUAL_USER_FRAGMENTS : list (str * str) :=
  [(START_MARKER UserInstructions, END_MARKER UserInstructions);
   (START_MARKER EnvironmentContext, END_MARKER EnvironmentContext);
   (START_MARKER SkillInstructions, END_MARKER SkillInstructions);
   (lit "<user_shell_command>", lit "</user_shell_command>");
   (START_MARKER TurnAborted, END_MARKER TurnAborted);
   (lit "<subagent_notification>", lit "</subagent_notification>")].

Definition is_standard_contextual_user_text (text : str) : bool :=
  existsb (fun '(start_marker, end_marker) => markers_match start_marker end_marker text) CONTEXTUAL_USER_FRAGMENTS.

Definition CONTEXTUAL_DEVELOPER_PREFIXES : list str :=
  [lit "<permissions instructions>"; lit "<model_switch>"; lit "<collaboration_mode>";
   lit "<realtime_conversation>"; lit "<personality_spec>"].

Definition is_contextual_dev_fragment (content_item : ContentItem) : bool :=
  match content_item with
  | InputText text => existsb (get_start_eq (trim_start text)) CONTEXTUAL_DEVELOPER_PREFIXES
  | _ => false
  end.

Definition is_contextual_dev_message_content (message : list ContentItem) : bool :=
  existsb is_contextual_dev_fragment message.

Definition has_non_contextual_dev_message_content (message : list ContentItem) : bool :=
  existsb (fun content_item => negb (is_contextual_dev_fragment content_item)) message.

(** The XML of a hook prompt (its text and the id of the hook's run) and the
    JSON of a message between agents are read by other crates. *)
Class WireFormats : Type := {
  from_xml_str : str -> option (str * str);
  from_json_str : str -> bool;
}.

Section wire.
Context `{WireFormats}.

Definition parse_hook_prompt_fragment (text : str) : option (str * str) :=
  '(text, hook_run_id) ← from_xml_str (trim text);
  if is_empty (trim hook_run_id) then None else Some (text, hook_run_id).

Definition is_contextual_user_fragment (content_item : ContentItem) : bool :=
  match content_item with
  | InputText text =>
      match parse_hook_prompt_fragment text with
      | Some _ => true
      | None => is_standard_contextual_user_text text
      end
  | _ => false
  end.

Definition is_contextual_user_message_content (message : list ContentItem) : bool :=
  existsb is_contextual_user_fragment message.

(** [InterAgentCommunication::is_message_content]. *)
Definition is_inter_agent_instruction_content (content : list ContentItem) : bool :=
  match content with
  | [InputText text] | [OutputText text] => from_json_str text
  | _ => false
  end.

Definition is_user_turn_boundary {Json} (item : ResponseItem Json) : bool :=
  match item with
  | Message _ role content _ =>
      (role =? lit "user") && negb (is_contextual_user_message_content content)
      || (role =? lit "assistant") && is_inter_agent_instruction_content content
  | _ => false
  end.
End wire.

(** ** Kinds of item *)

Definition is_api_message {Json} (message : ResponseItem Json) : bool :=
  match message with
  | Message _ role _ _ => negb (role =? lit "system")
  | Other => false
  | _ => true
  end.

Definition is_model_generated_item {Json} (item : ResponseItem Json) : bool :=
  match item with
  | Message _ role _ _ => role =? lit "assistant"
  | Reasoning _ _ _ _ | FunctionCall _ _ _ _ _ | ToolSearchCall _ _ _ _ _ | WebSearchCall _ _ _
  | ImageGenerationCall _ _ _ _ | CustomToolCall _ _ _ _ _ | LocalShellCall _ _ _ _ | Compaction _ => true
  | FunctionCallOutput _ _ | ToolSearchOutput _ _ _ _ | CustomToolCallOutput _ _ _ | Other => false
  end.

Definition is_codex_generated_item {Json} (item : ResponseItem Json) : bool :=
  match item with
  | FunctionCallOutput _ _ | ToolSearchOutput _ _ _ _ | CustomToolCallOutput _ _ _ => true
  | Message _ role _ _ => role =? lit "developer"
  | _ => false
  end.

(** ** What is injected is recognised *)

Lemma eq_ignore_refl s : eq_ignore_ascii_case s s = true.
Proof. unfold eq_ignore_ascii_case. by apply bool_decide_eq_true. Qed.

Lemma get_start_eq_app m t : get_start_eq (m ++ t) m = true.
Proof. unfold get_start_eq. by rewrite slice_to_app, eq_ignore_refl. Qed.

Lemma get_end_eq_app m t : get_end_eq (t ++ m) m = true.
Proof.
  unfold get_end_eq, sat_sub. rewrite str_len_app. replace (str_len t + str_len m - str_len m)%N with (str_len t) by lia.
  by rewrite slice_from_app, eq_ignore_refl.
Qed.

(** Markers that trimming leaves alone, at the one end. *)
Definition solid_start (m : str) : bool := match m with [] => false | c :: _ => negb (is_whitespace c) end.
Definition solid_end (m : str) : bool := solid_start (rev m).

Lemma solid_trim_start m t : solid_start m = true -> trim_start (m ++ t) = m ++ t.
Proof.
  destruct m as [|c m]; [done|]. cbn. intros Hs%negb_true_iff.
  unfold trim_start, trim_start_matches. cbn. by rewrite Hs.
Qed.

Lemma solid_trim_end m t : solid_end m = true -> trim_end (t ++ m) = t ++ m.
Proof.
  unfold solid_end. intros H. unfold trim_end, trim_end_matches. rewrite rev_app_distr.
  pose proof (solid_trim_start (rev m) (rev t) H) as E. unfold trim_start, trim_start_matches in E. rewrite E.
  by rewrite <- rev_app_distr, rev_involutive.
Qed.

Lemma markers_match_render start_marker end_marker text :
  solid_start start_marker = true -> solid_end end_marker = true ->
  markers_match start_marker end_marker (start_marker ++ text ++ end_marker) = true.
Proof.
  intros Hs He. unfold markers_match.
  assert (is_empty start_marker = false /\ is_empty end_marker = false) as [-> ->] by (by destruct start_marker, end_marker).
  cbn [orb]. rewrite solid_trim_start by done. rewrite get_start_eq_app.
  rewrite app_assoc, solid_trim_end by done. apply get_end_eq_app.
Qed.

(** The markers in use; the last two belong to types whose bodies the model
    does not print itself. *)
Lemma registered_solid p : p ∈ CONTEXTUAL_USER_FRAGMENTS -> solid_start p.1 = true /\ solid_end p.2 = true.
Proof.
  intros Hin. apply list_elem_of_In in Hin. revert p Hin.
  assert (forallb (fun p => solid_start p.1 && solid_end p.2) CONTEXTUAL_USER_FRAGMENTS = true) as Hall by (vm_compute; reflexivity).
  rewrite forallb_forall in Hall. intros p Hin. by apply andb_true_iff, Hall.
Qed.

Lemma registered_fragments {Seconds AgentStatus} (display_4 : Seconds -> str) (notification_json : str -> AgentStatus -> str) :
  let markers A (F : ContextualUserFragment A) := (START_MARKER A, END_MARKER A) in
  CONTEXTUAL_USER_FRAGMENTS
  = [markers _ UserInstructions_fragment; markers _ EnvironmentContext_fragment; markers _ SkillInstructions_fragment;
     markers _ (UserShellCommand_fragment display_4); markers _ TurnAborted_fragment;
     markers _ (SubagentNotification_fragment notification_json)].
Proof. done. Qed.

(** Whatever is injected as context of the user (instructions of the
    directory, the environment, skills, shell commands of the user, an aborted
    turn, news of a subagent: the registered markers), whatever its body, is
    recognised again as context, so that it never counts as a turn of the
    user. *)
Theorem rendered_fragment_recognised `{WireFormats} {Json A} (F : ContextualUserFragment A) (self : A) :
  (START_MARKER A, END_MARKER A) ∈ CONTEXTUAL_USER_FRAGMENTS -> ROLE A = lit "user" ->
  matches_text A (render self) = true
  /\ is_contextual_user_message_content [InputText (render self)] = true
  /\ is_user_turn_boundary (fragment_item (Json := Json) self) = false.
Proof.
  intros Hin Hrole. pose proof (registered_solid _ Hin) as [Hs He]. cbn [fst snd] in *. unfold matches_text, render.
  assert (is_empty (START_MARKER A) = false) as Hne by (by destruct (START_MARKER A)).
  rewrite Hne. cbn [andb]. pose proof (markers_match_render _ _ (fragment_body self) Hs He) as Hm.
  assert (is_contextual_user_message_content [InputText (START_MARKER A ++ fragment_body self ++ END_MARKER A)] = true) as Hc.
  { unfold is_contextual_user_message_content. cbn [existsb]. apply orb_true_iff. left. unfold is_contextual_user_fragment.
    destruct (parse_hook_prompt_fragment _); [done|]. unfold is_standard_contextual_user_text. apply existsb_exists.
    eexists. split; [by apply list_elem_of_In|exact Hm]. }
  split; [done|]. split; [done|]. unfold is_user_turn_boundary, fragment_item, render. rewrite Hne. cbn [andb]. rewrite Hc, Hrole. done.
Qed.

#[local] Instance sample_wire : WireFormats := {| from_xml_str := fun _ => None; from_json_str := fun _ => false |}.

Lemma rendered_fragment_recognised_witness :
  is_user_turn_boundary (fragment_item (Json := unit) (mkSkillInstructions (lit "a") (lit "b") (lit "c"))) = false
  /\ is_user_turn_boundary (Json := unit) (Message None (lit "user") [InputText (lit "hi")] None) = true.
Proof.
  split; [|reflexivity].
  apply (rendered_fragment_recognised SkillInstructions_fragment (mkSkillInstructions (lit "a") (lit "b") (lit "c")));
    [apply list_elem_of_In; cbn; auto|reflexivity].
Defined.
