(* ===== verification/Normalize.v ===== *)
(** * Normalize: calls and their outputs

    [core/src/context_manager/normalize.rs].  A build with debug assertions
    ([debug]) panics where a release build reports an error; a panic is [None].  *)

From S2P Require Import Prelude Truncate ResponseItems.
Local Open Scope str_scope.

Definition IMAGE_CONTENT_OMITTED_PLACEHOLDER : str := lit "image content omitted because you do not support image input".

Inductive InputModality : Type := ModalityText | ModalityImage.
#[global] Instance InputModality_eq_dec : EqDecision InputModality.
Proof. solve_decision. Defined.

Section normalize.
Context {Json : Type}.
Notation Item := (ResponseItem Json).

(** [error_or_panic]. *)
Definition error_or_panic (debug : bool) : option unit := if debug then None else Some tt.

(** [Vec::insert] and [Vec::remove]. *)
Definition insert_item (i : nat) (x : Item) (items : list Item) : option (list Item) :=
  if (i <=? length items)%nat then Some (take i items ++ x :: drop i items) else None.

Definition is_function_output (call_id : str) (i : Item) : bool :=
  match i with FunctionCallOutput existing _ => existing =? call_id | _ => false end.
Definition is_tool_search_output (call_id : str) (i : Item) : bool :=
  match i with ToolSearchOutput (Some existing) _ _ _ => existing =? call_id | _ => false end.
Definition is_custom_output (call_id : str) (i : Item) : bool :=
  match i with CustomToolCallOutput existing _ _ => existing =? call_id | _ => false end.
Definition is_function_call (call_id : str) (i : Item) : bool :=
  match i with FunctionCall _ _ _ _ existing => existing =? call_id | _ => false end.
Definition is_local_shell_call (call_id : str) (i : Item) : bool :=
  match i with LocalShellCall _ (Some existing) _ _ => existing =? call_id | _ => false end.
Definition is_tool_search_call (call_id : str) (i : Item) : bool :=
  match i with ToolSearchCall _ (Some existing) _ _ _ => existing =? call_id | _ => false end.
Definition is_custom_call (call_id : str) (i : Item) : bool :=
  match i with CustomToolCall _ _ existing _ _ => existing =? call_id | _ => false end.

(** The output to add for an item of the history; [None] is a panic. *)
Definition missing_output (debug : bool) (items : list Item) (item : Item) : option (option Item) :=
  match item with
  | FunctionCall _ _ _ _ call_id =>
      if existsb (is_function_output call_id) items then Some None
      else Some (Some (FunctionCallOutput call_id (from_text (lit "aborted"))))
  | ToolSearchCall _ (Some call_id) _ _ _ =>
      if existsb (is_tool_search_output call_id) items then Some None
      else Some (Some (ToolSearchOutput (Some call_id) (lit "completed") (lit "client") []))
  | CustomToolCall _ _ call_id _ _ =>
      if existsb (is_custom_output call_id) items then Some None
      else _ ← error_or_panic debug;
           Some (Some (CustomToolCallOutput call_id None (from_text (lit "aborted"))))
  | LocalShellCall _ (Some call_id) _ _ =>
      if existsb (is_function_output call_id) items then Some None
      else _ ← error_or_panic debug;
           Some (Some (FunctionCallOutput call_id (from_text (lit "aborted"))))
  | _ => Some None
  end.

(** The loop that collects what to insert, with the index of each call. *)
Fixpoint collect_missing (debug : bool) (items : list Item) (idx : nat) (rest : list Item) : option (list (nat * Item)) :=
  match rest with
  | [] => Some []
  | item :: rest =>
      missing ← missing_output debug items item;
      more ← collect_missing debug items (S idx) rest;
      Some (match missing with Some output => (idx, output) :: more | None => more end)
  end.

Definition insert_missing (items : option (list Item)) (missing : nat * Item) : option (list Item) :=
  items ← items; insert_item (S missing.1) missing.2 items.

Definition ensure_call_outputs_present (debug : bool) (items : list Item) : option (list Item) :=
  missing_outputs_to_insert ← collect_missing debug items 0 items;
  foldl insert_missing (Some items) (rev missing_outputs_to_insert).

Definition call_ids (f : Item -> option str) (items : list Item) : gset str := list_to_set (omap f items).

Definition function_call_id (i : Item) : option str :=
  match i with FunctionCall _ _ _ _ call_id => Some call_id | _ => None end.
Definition tool_search_call_id (i : Item) : option str :=
  match i with ToolSearchCall _ call_id _ _ _ => call_id | _ => None end.
Definition local_shell_call_id (i : Item) : option str :=
  match i with LocalShellCall _ call_id _ _ => call_id | _ => None end.
Definition custom_tool_call_id (i : Item) : option str :=
  match i with CustomToolCall _ _ call_id _ _ => Some call_id | _ => None end.

(** Whether an item stays; an orphan panics in a debug build. *)
Definition keep_item (debug : bool) (function_call_ids tool_search_call_ids local_shell_call_ids custom_tool_call_ids : gset str)
    (item : Item) : option bool :=
  let checked (has_match : bool) : option bool := if has_match then Some true else _ ← error_or_panic debug; Some false in
  match item with
  | FunctionCallOutput call_id _ =>
      checked (bool_decide (call_id ∈ function_call_ids) || bool_decide (call_id ∈ local_shell_call_ids))
  | CustomToolCallOutput call_id _ _ => checked (bool_decide (call_id ∈ custom_tool_call_ids))
  | ToolSearchOutput call_id _ execution _ =>
      if execution =? lit "server" then Some true
      else match call_id with
           | Some call_id => checked (bool_decide (call_id ∈ tool_search_call_ids))
           | None => Some true
           end
  | _ => Some true
  end.

(** [Vec::retain]. *)
Fixpoint retain (f : Item -> option bool) (items : list Item) : option (list Item) :=
  match items with
  | [] => Some []
  | item :: items =>
      keep ← f item;
      rest ← retain f items;
      Some (if keep : bool then item :: rest else rest)
  end.

Definition remove_orphan_outputs (debug : bool) (items : list Item) : option (list Item) :=
  let function_call_ids := call_ids function_call_id items in
  let tool_search_call_ids := call_ids tool_search_call_id items in
  let local_shell_call_ids := call_ids local_shell_call_id items in
  let custom_tool_call_ids := call_ids custom_tool_call_id items in
  retain (keep_item debug function_call_ids tool_search_call_ids local_shell_call_ids custom_tool_call_ids) items.

Fixpoint remove_first_matching (predicate : Item -> bool) (items : list Item) : list Item :=
  match items with
  | [] => []
  | item :: items => if predicate item then items else item :: remove_first_matching predicate items
  end.

Definition remove_corresponding_for (items : list Item) (item : Item) : list Item :=
  match item with
  | FunctionCall _ _ _ _ call_id => remove_first_matching (is_function_output call_id) items
  | FunctionCallOutput call_id _ =>
      if existsb (is_function_call call_id) items then remove_first_matching (is_function_call call_id) items
      else remove_first_matching (is_local_shell_call call_id) items
  | ToolSearchCall _ (Some call_id) _ _ _ => remove_first_matching (is_tool_search_output call_id) items
  | ToolSearchOutput (Some call_id) _ _ _ => remove_first_matching (is_tool_search_call call_id) items
  | CustomToolCall _ _ call_id _ _ => remove_first_matching (is_custom_output call_id) items
  | CustomToolCallOutput call_id _ _ => remove_first_matching (is_custom_call call_id) items
  | LocalShellCall _ (Some call_id) _ _ => remove_first_matching (is_function_output call_id) items
  | _ => items
  end.

Definition strip_content (content_item : ContentItem) : ContentItem :=
  match content_item with
  | InputImage _ _ => InputText IMAGE_CONTENT_OMITTED_PLACEHOLDER
  | _ => content_item
  end.

Definition strip_output_item (content_item : FunctionCallOutputContentItem) : FunctionCallOutputContentItem :=
  match content_item with
  | FInputImage _ _ => FInputText IMAGE_CONTENT_OMITTED_PLACEHOLDER
  | _ => content_item
  end.

Definition strip_payload (output : FunctionCallOutputPayload) : FunctionCallOutputPayload :=
  match body output with
  | BodyItems items => mkPayload (BodyItems (map strip_output_item items)) (success output)
  | BodyText _ => output
  end.

Definition strip_item (item : Item) : Item :=
  match item with
  | Message id role content phase => Message id role (map strip_content content) phase
  | FunctionCallOutput call_id output => FunctionCallOutput call_id (strip_payload output)
  | CustomToolCallOutput call_id name output => CustomToolCallOutput call_id name (strip_payload output)
  | ImageGenerationCall id status revised_prompt _ => ImageGenerationCall id status revised_prompt []
  | _ => item
  end.

Definition strip_images_when_unsupported (input_modalities : list InputModality) (items : list Item) : list Item :=
  let supports_images := bool_decide (ModalityImage ∈ input_modalities) in
  if supports_images then items else map strip_item items.

(** [ContextManager::normalize_history]. *)
Definition normalize_items (debug : bool) (input_modalities : list InputModality) (items : list Item) : option (list Item) :=
  items ← ensure_call_outputs_present debug items;
  items ← remove_orphan_outputs debug items;
  Some (strip_images_when_unsupported input_modalities items).

(** ** Specification *)

(** Every call with an id is answered. *)
Definition answered (items : list Item) (item : Item) : Prop :=
  match item with
  | FunctionCall _ _ _ _ call_id | LocalShellCall _ (Some call_id) _ _ => exists i, i ∈ items /\ is_function_output call_id i = true
  | ToolSearchCall _ (Some call_id) _ _ _ => exists i, i ∈ items /\ is_tool_search_output call_id i = true
  | CustomToolCall _ _ call_id _ _ => exists i, i ∈ items /\ is_custom_output call_id i = true
  | _ => True
  end.

(** Every output belongs to a call, but for what a server executed itself. *)
Definition called (items : list Item) (item : Item) : Prop :=
  match item with
  | FunctionCallOutput call_id _ =>
      exists i, i ∈ items /\ (is_function_call call_id i = true \/ is_local_shell_call call_id i = true)
  | CustomToolCallOutput call_id _ _ => exists i, i ∈ items /\ is_custom_call call_id i = true
  | ToolSearchOutput (Some call_id) _ execution _ =>
      execution <> lit "server" -> exists i, i ∈ items /\ is_tool_search_call call_id i = true
  | _ => True
  end.

Definition paired (items : list Item) : Prop :=
  (forall item, item ∈ items -> answered items item) /\ (forall item, item ∈ items -> called items item).

Definition is_output (item : Item) : bool :=
  match item with FunctionCallOutput _ _ | CustomToolCallOutput _ _ _ | ToolSearchOutput _ _ _ _ => true | _ => false end.

Definition has_image (item : Item) : bool :=
  match item with
  | Message _ _ content _ => existsb (fun c => match c with InputImage _ _ => true | _ => false end) content
  | FunctionCallOutput _ output | CustomToolCallOutput _ _ output =>
      match body output with BodyItems items => existsb is_image items | BodyText _ => false end
  | ImageGenerationCall _ _ _ result => negb (is_empty result)
  | _ => false
  end.

(** What is inserted after an item. *)
Definition synthetic (items : list Item) (item : Item) : list Item :=
  match missing_output false items item with Some (Some output) => [output] | _ => [] end.

Lemma insert_item_app (a b : list Item) x : insert_item (length a) x (a ++ b) = Some (a ++ x :: b).
Proof.
  unfold insert_item. rewrite length_app. destruct (Nat.leb_spec (length a) (length a + length b)); [|lia].
  by rewrite take_app_length, drop_app_length.
Qed.

Lemma missing_output_debug items item m :
  missing_output true items item = Some m -> missing_output false items item = Some m.
Proof.
  destruct item as [| | ? [?|] ? ?| |? [?|] ? ? ?| | | | | | | |]; cbn; try done;
    destruct (existsb _ items); cbn; done.
Qed.

Lemma missing_output_release items item : exists m, missing_output false items item = Some m.
Proof.
  destruct item as [| | ? [?|] ? ?| |? [?|] ? ? ?| | | | | | | |]; cbn; eauto;
    destruct (existsb _ items); cbn; eauto.
Qed.

(** In reverse order the indices stay right. *)
Lemma ensure_loop debug items pre rest missing :
  collect_missing debug items (length pre) rest = Some missing ->
  foldr (fun missing items => insert_missing items missing) (Some (pre ++ rest)) missing
  = Some (pre ++ (rest ≫= fun item => item :: synthetic items item)).
Proof.
  revert pre missing. induction rest as [|item rest IH]; intros pre missing; cbn [collect_missing].
  - intros [= <-]. done.
  - intros Hm. destruct (missing_output debug items item) as [m|] eqn:Em; [|done]. cbn [mbind option_bind] in Hm.
    destruct (collect_missing debug items (S (length pre)) rest) as [more|] eqn:Er; [|done]. cbn in Hm. injection Hm as <-.
    assert (missing_output false items item = Some m) as Em' by (destruct debug; [by apply missing_output_debug|done]).
    specialize (IH (pre ++ [item]) more). rewrite length_app, Nat.add_comm, <- !app_assoc in IH. specialize (IH Er).
    cbn [app] in IH. cbn [mbind list_bind].
    assert (synthetic items item = match m with Some output => [output] | None => [] end) as -> by (unfold synthetic; by rewrite Em').
    destruct m as [output|]; cbn [foldr]; [|exact IH].
    cbn [mbind list_bind] in IH. rewrite IH. unfold insert_missing. cbn [mbind option_bind fst snd app].
    pose proof (insert_item_app (pre ++ [item]) (rest ≫= fun item => item :: synthetic items item) output) as Hins.
    rewrite length_app, Nat.add_comm, <- !app_assoc in Hins. exact Hins.
Qed.

Lemma foldl_rev {A B} (f : B -> A -> B) (l : list A) b : foldl f b (rev l) = foldr (fun x b => f b x) b l.
Proof. induction l as [|x l IH]; [done|]. cbn. by rewrite foldl_app, IH. Qed.

Lemma ensure_Some debug items r :
  ensure_call_outputs_present debug items = Some r -> r = items ≫= fun item => item :: synthetic items item.
Proof.
  unfold ensure_call_outputs_present. destruct (collect_missing debug items 0 items) as [missing|] eqn:Em; [|done].
  cbn [mbind option_bind]. rewrite foldl_rev. pose proof (ensure_loop debug items [] items missing Em) as Hl. cbn [app] in Hl.
  rewrite Hl. by intros [= <-].
Qed.

Lemma collect_missing_release items idx rest : exists missing, collect_missing false items idx rest = Some missing.
Proof.
  revert idx. induction rest as [|item rest IH]; intros idx; cbn [collect_missing]; [eauto|].
  destruct (missing_output_release items item) as [m ->]. destruct (IH (S idx)) as [more ->]. cbn. eauto.
Qed.

Lemma ensure_release items :
  ensure_call_outputs_present false items = Some (items ≫= fun item => item :: synthetic items item).
Proof.
  destruct (ensure_call_outputs_present false items) as [r|] eqn:E; [by rewrite (ensure_Some _ _ _ E)|]. exfalso.
  unfold ensure_call_outputs_present in E. destruct (collect_missing_release items 0 items) as [missing Hm].
  rewrite Hm in E. cbn [mbind option_bind] in E. rewrite foldl_rev in E.
  pose proof (ensure_loop false items [] items missing Hm) as Hl. cbn [app] in Hl. congruence.
Qed.

(** *** The two passes *)

Definition with_outputs (items : list Item) : list Item := items ≫= fun item => item :: synthetic items item.

Lemma elem_of_with_outputs items i :
  i ∈ with_outputs items <-> exists j, j ∈ items /\ (i = j \/ i ∈ synthetic items j).
Proof.
  unfold with_outputs. rewrite list_elem_of_bind. split.
  - intros (j & Hi & Hj). exists j. split; [done|]. by apply elem_of_cons in Hi.
  - intros (j & Hj & Hi). exists j. split; [by apply elem_of_cons|done].
Qed.

Lemma synthetic_output items item i : i ∈ synthetic items item -> is_output i = true.
Proof.
  unfold synthetic. destruct item as [| | ? [?|] ? ?| |? [?|] ? ? ?| | | | | | | |]; cbn; try (by intros ?%elem_of_nil);
    destruct (existsb _ items); cbn; try (by intros ?%elem_of_nil); by intros ->%list_elem_of_singleton.
Qed.

Lemma existsb_elem (f : Item -> bool) items : existsb f items = true <-> exists i, i ∈ items /\ f i = true.
Proof. rewrite existsb_exists. by setoid_rewrite list_elem_of_In. Qed.

Lemma with_outputs_answered items item : item ∈ with_outputs items -> answered (with_outputs items) item.
Proof.
  rewrite elem_of_with_outputs. intros (j & Hj & [->|Hs]).
  2:{ apply synthetic_output in Hs. by destruct item as [| | ? [?|] ? ?| |? [?|] ? ? ?| | | | | | | |]. }
  assert (forall f, existsb f items = true -> exists i, i ∈ with_outputs items /\ f i = true) as Hold.
  { intros f (i & Hi & Hf)%existsb_elem. exists i. split; [|done]. apply elem_of_with_outputs. by exists i; auto. }
  assert (forall o (f : Item -> bool), synthetic items j = [o] -> f o = true -> exists i, i ∈ with_outputs items /\ f i = true) as Hnew.
  { intros o f Ho Hf. exists o. split; [|done]. apply elem_of_with_outputs. exists j. rewrite Ho. split; [done|]. right. by left. }
  destruct j as [| | ? [?|] ? ?| |? [?|] ? ? ?| | | | | | | |]; try done; cbn [answered];
    match goal with |- exists i, _ /\ ?f i = true => destruct (existsb f items) eqn:E; [by apply Hold|] end;
    (eapply Hnew; [unfold synthetic; cbn [missing_output]; rewrite E; reflexivity|]); cbn; by apply bool_decide_eq_true.
Qed.

(** The sets hold the ids that the predicates look for. *)
Lemma elem_of_call_ids (f : Item -> option str) (p : str -> Item -> bool) items id :
  (forall i, p id i = true <-> f i = Some id) -> bool_decide (id ∈ call_ids f items) = existsb (p id) items.
Proof.
  intros Hp. apply eq_iff_eq_true. rewrite bool_decide_eq_true, existsb_elem. unfold call_ids.
  rewrite elem_of_list_to_set, list_elem_of_omap. by setoid_rewrite Hp.
Qed.

Lemma function_call_ids id i : is_function_call id i = true <-> function_call_id i = Some id.
Proof. destruct i; cbn; try done. rewrite bool_decide_eq_true. split; [by intros ->|by intros [= ->]]. Qed.
Lemma local_shell_call_ids id i : is_local_shell_call id i = true <-> local_shell_call_id i = Some id.
Proof. destruct i as [| |? [?|]| | | | | | | | | |]; cbn; try done. rewrite bool_decide_eq_true. split; [by intros ->|by intros [= ->]]. Qed.
Lemma tool_search_call_ids id i : is_tool_search_call id i = true <-> tool_search_call_id i = Some id.
Proof. destruct i as [| | | |? [?|]| | | | | | | |]; cbn; try done. rewrite bool_decide_eq_true. split; [by intros ->|by intros [= ->]]. Qed.
Lemma custom_call_ids id i : is_custom_call id i = true <-> custom_tool_call_id i = Some id.
Proof. destruct i; cbn; try done. rewrite bool_decide_eq_true. split; [by intros ->|by intros [= ->]]. Qed.

Definition called_bool (items : list Item) (item : Item) : bool :=
  match item with
  | FunctionCallOutput call_id _ => existsb (is_function_call call_id) items || existsb (is_local_shell_call call_id) items
  | CustomToolCallOutput call_id _ _ => existsb (is_custom_call call_id) items
  | ToolSearchOutput (Some call_id) _ execution _ => (execution =? lit "server") || existsb (is_tool_search_call call_id) items
  | _ => true
  end.

Lemma called_bool_spec items item : called_bool items item = true <-> called items item.
Proof.
  destruct item as [| | | | | | | |[?|]| | | |]; cbn; try done.
  - rewrite orb_true_iff, !existsb_elem. split.
    + intros [(i & Hi & H)|(i & Hi & H)]; eauto.
    + intros (i & Hi & [H|H]); eauto.
  - apply existsb_elem.
  - rewrite orb_true_iff, bool_decide_eq_true, existsb_elem. split.
    + intros [->|H]; [done|auto].
    + intros H. destruct (decide (execution = lit "server")); auto.
Qed.

Lemma keep_item_spec debug items item :
  keep_item debug (call_ids function_call_id items) (call_ids tool_search_call_id items)
    (call_ids local_shell_call_id items) (call_ids custom_tool_call_id items) item
  = if called_bool items item then Some true else (_ ← error_or_panic debug; Some false).
Proof.
  destruct item as [| | | | | | | |[?|]| | | |]; cbn [keep_item called_bool]; try done.
  - by rewrite (elem_of_call_ids _ is_function_call), (elem_of_call_ids _ is_local_shell_call)
      by auto using function_call_ids, local_shell_call_ids.
  - by rewrite (elem_of_call_ids _ is_custom_call) by auto using custom_call_ids.
  - rewrite (elem_of_call_ids _ is_tool_search_call) by auto using tool_search_call_ids. by destruct (execution =? _).
  - by destruct (execution =? _).
Qed.

Definition keep_in (debug : bool) (items : list Item) : Item -> option bool :=
  keep_item debug (call_ids function_call_id items) (call_ids tool_search_call_id items)
    (call_ids local_shell_call_id items) (call_ids custom_tool_call_id items).

Lemma keep_in_spec debug items item :
  keep_in debug items item = if called_bool items item then Some true else (_ ← error_or_panic debug; Some false).
Proof. apply keep_item_spec. Qed.

Lemma retain_release items l : retain (keep_in false items) l = Some (List.filter (called_bool items) l).
Proof.
  induction l as [|item l IH]; [done|]. cbn [retain List.filter].
  rewrite keep_in_spec, IH. by destruct (called_bool items item).
Qed.

Lemma remove_orphans_release items : remove_orphan_outputs false items = Some (List.filter (called_bool items) items).
Proof. apply retain_release. Qed.

Lemma retain_called debug items l : (forall i, i ∈ l -> called items i) -> retain (keep_in debug items) l = Some l.
Proof.
  induction l as [|item l IH]; intros Hc; [done|]. cbn [retain].
  rewrite keep_in_spec, IH by (intros j Hj; apply Hc; by right).
  assert (called_bool items item = true) as -> by (apply called_bool_spec, Hc; by left). done.
Qed.

Lemma collect_none debug items idx l :
  (forall i, i ∈ l -> missing_output debug items i = Some None) -> collect_missing debug items idx l = Some [].
Proof.
  revert idx. induction l as [|i l IH]; intros idx Hnone; [done|].
  cbn [collect_missing]. rewrite Hnone by (by left). cbn. rewrite IH; [done|]. intros j Hj. apply Hnone. by right.
Qed.

Lemma filter_all (f : Item -> bool) items : (forall i, i ∈ items -> f i = true) -> List.filter f items = items.
Proof.
  induction items as [|i items IH]; intros H; [done|]. cbn. rewrite H by (by left). f_equal. apply IH. intros j Hj. apply H. by right.
Qed.

(** A history that is paired already is left alone, and nothing panics. *)
Lemma paired_unchanged debug items :
  paired items ->
  ensure_call_outputs_present debug items = Some items /\ remove_orphan_outputs debug items = Some items.
Proof.
  intros [Ha Hc]. split; [|by apply (retain_called debug items items)].
  unfold ensure_call_outputs_present. rewrite collect_none; [done|].
  intros i Hi. apply Ha in Hi. destruct i as [| | ? [?|] ? ?| |? [?|] ? ? ?| | | | | | | |]; try done; cbn in *;
    apply existsb_elem in Hi; by rewrite Hi.
Qed.

(** The two passes pair every history. *)
Lemma two_passes_paired items : paired (List.filter (called_bool (with_outputs items)) (with_outputs items)).
Proof.
  set (x := with_outputs items). set (r := List.filter (called_bool x) x).
  assert (forall i, i ∈ r <-> i ∈ x /\ called_bool x i = true) as Hr
    by (intros i; unfold r; rewrite !list_elem_of_In; apply filter_In).
  assert (forall f i, i ∈ x -> is_output i = false -> f i = true -> exists i, i ∈ r /\ f i = true) as Hcall.
  { intros f i Hi Ho Hf. exists i. split; [|done]. apply Hr. split; [done|].
    by destruct i as [| | | | | | | |[?|]| | | |]. }
  split; intros item [Hin Hcb]%Hr.
  - pose proof (with_outputs_answered items item Hin) as Ha. fold x in Ha.
    assert (forall f, (exists i, i ∈ x /\ f i = true) -> (forall i, f i = true -> called_bool x i = true) ->
      exists i, i ∈ r /\ f i = true) as Hkeep.
    { intros f (i & Hi & Hf) Hk. exists i. split; [|done]. apply Hr. auto. }
    destruct item as [| | ? [?|] ? ?| |? [?|] ? ? ?| | | | | | | |]; try done; cbn [answered] in *; (apply Hkeep; [done|]);
      intros i Hf; destruct i as [| | | | | | | |[?|]| | | |]; try done; cbn in Hf; apply bool_decide_eq_true in Hf; subst;
      cbn [called_bool]; rewrite ?orb_true_iff, ?existsb_elem; eauto 6 using bool_decide_eq_true_2.
  - apply called_bool_spec in Hcb. destruct item as [| | | | | | | |[?|]| | | |]; try done; cbn [called] in *.
    + destruct Hcb as (i & Hi & [H|H]); [destruct (Hcall (is_function_call call_id) i) as (i' & ? & ?)|
        destruct (Hcall (is_local_shell_call call_id) i) as (i' & ? & ?)]; try done; try (by destruct i); eauto.
    + destruct Hcb as (i & Hi & H). apply (Hcall _ i); [done|by destruct i|done].
    + intros He. destruct (Hcb He) as (i & Hi & H). apply (Hcall _ i); [done|by destruct i|done].
Qed.

(** *** Images *)

Lemma strip_item_kinds id i :
  is_function_output id (strip_item i) = is_function_output id i
  /\ is_tool_search_output id (strip_item i) = is_tool_search_output id i
  /\ is_custom_output id (strip_item i) = is_custom_output id i
  /\ is_function_call id (strip_item i) = is_function_call id i
  /\ is_local_shell_call id (strip_item i) = is_local_shell_call id i
  /\ is_tool_search_call id (strip_item i) = is_tool_search_call id i
  /\ is_custom_call id (strip_item i) = is_custom_call id i.
Proof. by destruct i. Qed.

Lemma strip_item_output i : is_output (strip_item i) = is_output i.
Proof. by destruct i. Qed.

Lemma strip_item_idemp i : strip_item (strip_item i) = strip_item i.
Proof.
  assert (forall l, map strip_content (map strip_content l) = map strip_content l) as Hc
    by (intros l; rewrite map_map; apply map_ext; by intros []).
  assert (forall p, strip_payload (strip_payload p) = strip_payload p) as Hp.
  { intros [[c|l] ok]; [done|]. unfold strip_payload. cbn. do 2 f_equal. rewrite map_map. apply map_ext. by intros []. }
  destruct i; cbn [strip_item]; by rewrite ?Hc, ?Hp.
Qed.

Lemma strip_item_no_image i : has_image (strip_item i) = false.
Proof.
  assert (forall l, existsb (fun c => match c with InputImage _ _ => true | _ => false end) (map strip_content l) = false) as Hc
    by (intros l; induction l as [|[]]; done).
  assert (forall p, match body (strip_payload p) with BodyItems items => existsb is_image items | BodyText _ => false end = false) as Hp.
  { intros [[c|l] ok]; [done|]. unfold strip_payload. cbn. by induction l as [|[]]. }
  destruct i; cbn [strip_item has_image]; auto.
Qed.

Lemma strip_paired items : paired items -> paired (map strip_item items).
Proof.
  assert (forall (f : Item -> bool), (forall i, f (strip_item i) = f i) -> (exists i, i ∈ items /\ f i = true) ->
    exists i, i ∈ map strip_item items /\ f i = true) as Hm.
  { intros f Hf (i & Hi & Hfi). exists (strip_item i). rewrite Hf. split; [by apply list_elem_of_fmap_2|done]. }
  intros [Ha Hc]. split; intros item (i & -> & Hi)%list_elem_of_fmap.
  - specialize (Ha i Hi). destruct i as [| | ? [?|] ? ?| |? [?|] ? ? ?| | | | | | | |]; try done;
      (apply Hm; [intros i; apply strip_item_kinds|done]).
  - specialize (Hc i Hi). destruct i as [| | | | | | | |[?|]| | | |]; try done; cbn [called strip_item] in *.
    + destruct Hc as (i & Hi' & H). exists (strip_item i).
      destruct (strip_item_kinds call_id i) as (_ & _ & _ & -> & -> & _). split; [by apply list_elem_of_fmap_2|done].
    + apply Hm; [intros i; apply strip_item_kinds|done].
    + intros He. apply Hm; [intros i; apply strip_item_kinds|auto].
Qed.

Lemma strip_item_id i : has_image i = false -> strip_item i = i.
Proof.
  assert (forall l, existsb (fun c => match c with InputImage _ _ => true | _ => false end) l = false ->
            map strip_content l = l) as Hc.
  { intros l. induction l as [|[] l IH]; [done|..]; cbn; intros H; try done; f_equal; by apply IH. }
  assert (forall p, match body p with BodyItems items => existsb is_image items | BodyText _ => false end = false ->
            strip_payload p = p) as Hp.
  { intros [[c|l] ok]; [done|]. unfold strip_payload. cbn. intros H. do 2 f_equal. revert H.
    induction l as [|[] l IH]; [done|..]; cbn; intros H; try done; f_equal; by apply IH. }
  destruct i; cbn [strip_item has_image]; intros H; rewrite ?Hc, ?Hp by done; try done.
  by destruct result.
Qed.

(** *** Where outputs are added and dropped *)

(** The output that answers a call which has none *)
Definition answer_for (item : Item) : option Item :=
  match item with
  | FunctionCall _ _ _ _ call_id | LocalShellCall _ (Some call_id) _ _ =>
      Some (FunctionCallOutput call_id (from_text (lit "aborted")))
  | ToolSearchCall _ (Some call_id) _ _ _ =>
      Some (ToolSearchOutput (Some call_id) (lit "completed") (lit "client") [])
  | CustomToolCall _ _ call_id _ _ => Some (CustomToolCallOutput call_id None (from_text (lit "aborted")))
  | _ => None
  end.

(** From the items [l] of a history [all]: outputs without a call are left out,
    each call without an output is followed by one at once, and everything else
    is kept as it is, in its order. *)
Inductive normalized (all : list Item) : list Item -> list Item -> Prop :=
| norm_nil : normalized all [] []
| norm_orphan x l r : is_output x = true -> ~ called all x -> normalized all l r -> normalized all (x :: l) r
| norm_kept x l r : called all x -> answered all x -> normalized all l r -> normalized all (x :: l) (x :: r)
| norm_unanswered x y l r :
    ~ answered all x -> answer_for x = Some y -> normalized all l r -> normalized all (x :: l) (x :: y :: r).

Lemma synthetic_cases all x :
  answered all x /\ synthetic all x = [] \/
  ~ answered all x /\ is_output x = false /\ exists y, answer_for x = Some y /\ synthetic all x = [y].
Proof.
  unfold synthetic.
  destruct x as [| | ? [?|] ? ?| |? [?|] ? ? ?| | | | | | | |]; cbn [answered missing_output answer_for is_output];
    try (left; done);
    match goal with |- context [exists i, i ∈ all /\ ?f i = true] =>
      rewrite <- (existsb_elem f all); destruct (existsb f all); cbn; [by left|right; split; [done|eauto]] end.
Qed.

Lemma existsb_calls (f : Item -> bool) items :
  (forall i, f i = true -> is_output i = false) -> existsb f (with_outputs items) = existsb f items.
Proof.
  intros Hf. apply eq_iff_eq_true. rewrite !existsb_elem. split; intros (i & Hi & H); exists i; split; try done.
  - apply elem_of_with_outputs in Hi as (j & Hj & [->|Hs]); [done|].
    apply synthetic_output in Hs. rewrite Hf in Hs by done. done.
  - apply elem_of_with_outputs. eauto.
Qed.

Lemma called_with_outputs items i : called_bool (with_outputs items) i = called_bool items i.
Proof.
  destruct i as [| | | | | | | |[?|]| | | |]; cbn; try done; rewrite !existsb_calls; try done; by intros [].
Qed.

Lemma synthetic_called all x y : x ∈ all -> answer_for x = Some y -> called_bool all y = true.
Proof.
  intros Hx Hy. apply called_bool_spec.
  destruct x as [| | ? [?|] ? ?| |? [?|] ? ? ?| | | | | | | |]; try done; injection Hy as <-; cbn; intros;
    eexists; (split; [exact Hx|]); cbn; auto using bool_decide_eq_true_2.
Qed.

Lemma two_passes_normalized all l :
  (forall i, i ∈ l -> i ∈ all) -> normalized all l (List.filter (called_bool (with_outputs all)) (l ≫= fun i => i :: synthetic all i)).
Proof.
  induction l as [|x l IH]; intros Hl; [constructor|]. cbn [mbind list_bind]. rewrite List.filter_app.
  specialize (IH (fun i Hi => Hl i (proj2 (elem_of_cons _ _ _) (or_intror Hi)))).
  assert (x ∈ all) as Hx by (apply Hl; by left). cbn [List.filter]. rewrite called_with_outputs.
  destruct (synthetic_cases all x) as [[Ha ->]|(Ha & Ho & y & Hy & ->)].
  - destruct (called_bool all x) eqn:E; cbn [app List.filter].
    + constructor; [by apply called_bool_spec|done..].
    + constructor; [by destruct x as [| | | | | | | |[?|]| | | |]|by rewrite <- called_bool_spec, E|done].
  - assert (called_bool all x = true) as -> by (by destruct x as [| | | | | | | |[?|]| | | |]).
    cbn [List.filter]. rewrite called_with_outputs, (synthetic_called all x y) by done. by eapply norm_unanswered.
Qed.

Lemma strip_images_idemp modalities items :
  strip_images_when_unsupported modalities (strip_images_when_unsupported modalities items)
  = strip_images_when_unsupported modalities items.
Proof.
  unfold strip_images_when_unsupported. destruct (bool_decide _); [done|]. rewrite map_map. apply map_ext. apply strip_item_idemp.
Qed.

(** C37: what is sent to the model is paired, whatever was recorded: every call
    with an id has an output, and every output with an id answers a call, but
    for those of searches on the server.  The recorded items are kept as they
    are and in their order, outputs that answer calls included ([normalized]):
    left out are outputs without a call only, and a call that nothing answers
    is followed at once by an output that says so.  A model without image input
    gets no image, and the items without one as they are.  Doing it again
    changes nothing, and would not panic in a debug build either (of an
    unpaired history a debug build may panic). *)
Theorem normalize_spec modalities items :
  exists r0 r,
    normalize_items false modalities items = Some r
    /\ normalized items items r0
    /\ (if bool_decide (ModalityImage ∈ modalities) then r = r0
        else Forall2 (fun x y => has_image y = false /\ (has_image x = false -> y = x)) r0 r)
    /\ paired r
    /\ forall debug, normalize_items debug modalities r = Some r.
Proof.
  set (x := with_outputs items). set (r0 := List.filter (called_bool x) x).
  pose proof (two_passes_paired items) as Hpair. fold x r0 in Hpair.
  assert (normalize_items false modalities items = Some (strip_images_when_unsupported modalities r0)) as Hn.
  { unfold normalize_items. rewrite ensure_release. cbn [mbind option_bind]. by rewrite remove_orphans_release. }
  exists r0, (strip_images_when_unsupported modalities r0). split; [done|].
  assert (paired (strip_images_when_unsupported modalities r0)) as Hpair'.
  { unfold strip_images_when_unsupported. destruct (bool_decide _); [done|by apply strip_paired]. }
  split; [by apply two_passes_normalized|]. split; [|split; [done|]].
  - unfold strip_images_when_unsupported. destruct (bool_decide _); [done|]. apply Forall2_fmap_r, Forall_Forall2_diag.
    apply Forall_forall. intros i _. auto using strip_item_no_image, strip_item_id.
  - intros debug. unfold normalize_items. destruct (paired_unchanged debug _ Hpair') as [-> E]. cbn [mbind option_bind].
    rewrite E. cbn [mbind option_bind]. by rewrite strip_images_idemp.
Qed.

(** The pairing by computation. *)
Definition paired_bool (items : list Item) : bool :=
  forallb (fun i => match missing_output true items i with Some None => true | _ => false end) items
  && forallb (called_bool items) items.

Lemma paired_true items : paired_bool items = true -> paired items.
Proof.
  unfold paired_bool. rewrite andb_true_iff, !forallb_forall. intros [Ha Hc].
  split; intros i Hi; apply list_elem_of_In in Hi; [|by apply called_bool_spec, Hc].
  specialize (Ha i Hi). destruct i as [| | ? [?|] ? ?| |? [?|] ? ? ?| | | | | | | |]; try done; cbn in *;
    apply existsb_elem; by destruct (existsb _ items).
Qed.

(** The counterpart goes with an item that is removed. *)
Lemma remove_first_matching_elem f items i : i ∈ remove_first_matching f items -> i ∈ items.
Proof.
  induction items as [|j items IH]; cbn; [done|]. destruct (f j); [by right|].
  intros [->|Hi]%elem_of_cons; [by left|]. right. auto.
Qed.

Lemma remove_first_matching_other f items i : i ∈ items -> f i = false -> i ∈ remove_first_matching f items.
Proof.
  induction items as [|j items IH]; cbn; [done|]. intros [->|Hi]%elem_of_cons Hf; [rewrite Hf; by left|].
  destruct (f j); [done|]. right. auto.
Qed.
End normalize.
