(* ===== verification/History.v ===== *)
(** * History: the conversation that is sent to the model

    [core/src/context_manager/history.rs], with the token counts of
    [protocol.rs].  [i64] is [Z]; saturating operations are written out and
    plain additions wrap, as in a release build. *)

From S2P Require Import Prelude Utf8 TextSearch Truncate ResponseItems Normalize.
Local Open Scope str_scope.

(** ** Token counts *)

Definition MIN_I64 : Z := -9223372036854775808.
Definition sat_i64 (z : Z) : Z := Z.max MIN_I64 (Z.min z MAX_I64).
Definition wrap_i64 (z : Z) : Z := ((z - MIN_I64) mod 2 ^ 64 + MIN_I64)%Z.

Record TokenUsage : Type := mkTokenUsage {
  input_tokens : Z;
  cached_input_tokens : Z;
  output_tokens : Z;
  reasoning_output_tokens : Z;
  total_tokens : Z;
}.

Definition default_usage : TokenUsage := mkTokenUsage 0 0 0 0 0.

Definition add_assign (self other : TokenUsage) : TokenUsage :=
  mkTokenUsage (wrap_i64 (input_tokens self + input_tokens other))
    (wrap_i64 (cached_input_tokens self + cached_input_tokens other))
    (wrap_i64 (output_tokens self + output_tokens other))
    (wrap_i64 (reasoning_output_tokens self + reasoning_output_tokens other))
    (wrap_i64 (total_tokens self + total_tokens other)).

Record TokenUsageInfo : Type := mkUsageInfo {
  total_token_usage : TokenUsage;
  last_token_usage : TokenUsage;
  model_context_window : option Z;
}.

Definition append_last_usage (self : TokenUsageInfo) (last : TokenUsage) : TokenUsageInfo :=
  mkUsageInfo (add_assign (total_token_usage self) last) last (model_context_window self).

Definition new_or_append (info : option TokenUsageInfo) (last : option TokenUsage) (window : option Z) : option TokenUsageInfo :=
  match info, last with
  | None, None => None
  | _, _ =>
      let info := match info with Some info => info | None => mkUsageInfo default_usage default_usage window end in
      let info := match last with Some last => append_last_usage info last | None => info end in
      Some (match window with
            | Some _ => mkUsageInfo (total_token_usage info) (last_token_usage info) window
            | None => info
            end)
  end.

Definition fill_to_context_window (self : TokenUsageInfo) (context_window : Z) : TokenUsageInfo :=
  let previous_total := total_tokens (total_token_usage self) in
  let delta := Z.max (wrap_i64 (context_window - previous_total)) 0 in
  mkUsageInfo (mkTokenUsage 0 0 0 0 context_window) (mkTokenUsage 0 0 0 0 delta) (Some context_window).

Definition full_context_window (context_window : Z) : TokenUsageInfo :=
  fill_to_context_window (mkUsageInfo default_usage default_usage (Some context_window)) context_window.

(** ** The history *)

(** The baseline for the settings is stored, never looked into. *)
Record ContextManager (Json Baseline : Type) : Type := mkContext {
  items : list (ResponseItem Json);
  history_version : N;
  token_info : option TokenUsageInfo;
  reference_context_item : option Baseline;
}.
Arguments mkContext {_ _} items history_version token_info reference_context_item.
Arguments items {_ _} c.
Arguments history_version {_ _} c.
Arguments token_info {_ _} c.
Arguments reference_context_item {_ _} c.

Section history.
Context {Json Baseline : Type}.
Notation Item := (ResponseItem Json).
Notation Context := (ContextManager Json Baseline).

Definition new_context : Context := mkContext [] 0 (new_or_append None None None) None.

Definition set_token_info (self : Context) (info : option TokenUsageInfo) : Context :=
  mkContext (items self) (history_version self) info (reference_context_item self).

Definition set_reference_context_item (self : Context) (item : option Baseline) : Context :=
  mkContext (items self) (history_version self) (token_info self) item.

Definition set_token_usage_full (self : Context) (context_window : Z) : Context :=
  set_token_info self
    (Some (match token_info self with
           | Some info => fill_to_context_window info context_window
           | None => full_context_window context_window
           end)).

Definition update_token_info (self : Context) (usage : TokenUsage) (window : option Z) : Context :=
  set_token_info self (new_or_append (token_info self) (Some usage) window).

(** *** Recording *)

Definition truncate_function_output_payload (output : FunctionCallOutputPayload) (policy : TruncationPolicy)
  : option FunctionCallOutputPayload :=
  body ← match body output with
         | BodyText content => BodyText <$> truncate_text content policy
         | BodyItems items => BodyItems <$> truncate_function_output_items_with_policy items policy
         end;
  Some (mkPayload body (success output)).

Definition process_item (item : Item) (policy : TruncationPolicy) : option Item :=
  let policy_with_serialization_budget := policy_mul policy F64_1_2 in
  match item with
  | FunctionCallOutput call_id output =>
      FunctionCallOutput call_id <$> truncate_function_output_payload output policy_with_serialization_budget
  | CustomToolCallOutput call_id name output =>
      CustomToolCallOutput call_id name <$> truncate_function_output_payload output policy_with_serialization_budget
  | _ => Some item
  end.

Fixpoint record_items (self : Context) (new_items : list Item) (policy : TruncationPolicy) : option Context :=
  match new_items with
  | [] => Some self
  | item :: new_items =>
      if negb (is_api_message item) then record_items self new_items policy
      else
        processed ← process_item item policy;
        record_items (mkContext (items self ++ [processed]) (history_version self) (token_info self) (reference_context_item self))
          new_items policy
  end.

Definition for_prompt (debug : bool) (self : Context) (input_modalities : list InputModality) : option (list Item) :=
  normalize_items debug input_modalities (items self).

(** *** Removing *)

Definition bump (version : N) : N := sat_add version 1.

Definition remove_first_item (self : Context) : Context :=
  match items self with
  | [] => self
  | removed :: rest =>
      mkContext (remove_corresponding_for rest removed) (history_version self) (token_info self) (reference_context_item self)
  end.

Definition remove_last_item (self : Context) : Context * bool :=
  match last (items self) with
  | None => (self, false)
  | Some removed =>
      (mkContext (remove_corresponding_for (removelast (items self)) removed) (bump (history_version self))
         (token_info self) (reference_context_item self), true)
  end.

Definition replace (self : Context) (new_items : list Item) : Context :=
  mkContext new_items (bump (history_version self)) (token_info self) (reference_context_item self).

(** [iter().rposition]. *)
Definition rposition (f : Item -> bool) (l : list Item) : option nat :=
  (fun i => length l - S i)%nat <$> (fst <$> list_find (fun x => f x = true) (rev l)).

Section turns.
Context `{WireFormats}.

Definition is_function_call_output (item : Item) : bool :=
  match item with FunctionCallOutput _ _ => true | _ => false end.

Definition replace_last_turn_images (self : Context) (placeholder : str) : Context * bool :=
  match rposition (fun item => is_function_call_output item || is_user_turn_boundary item) (items self) with
  | None => (self, false)
  | Some index =>
      match items self !! index with
      | Some (FunctionCallOutput call_id output) =>
          match content_items output with
          | None => (self, false)
          | Some content =>
              let replaced := existsb is_image content in
              let content := map (fun item => if is_image item then FInputText placeholder else item) content in
              (mkContext (<[index := FunctionCallOutput call_id (mkPayload (BodyItems content) (success output))]> (items self))
                 (if replaced then bump (history_version self) else history_version self)
                 (token_info self) (reference_context_item self), replaced)
          end
      | _ => (self, false)
      end
  end.

Definition user_message_positions (l : list Item) : list nat :=
  omap (fun '(idx, item) => if is_user_turn_boundary item then Some idx else None) (imap pair l).

(** Whether the item above the cut goes too, and whether the baseline does. *)
Definition trims (item : Item) : option bool :=
  match item with
  | Message _ role content _ =>
      if (role =? lit "developer") && is_contextual_dev_message_content content
      then Some (has_non_contextual_dev_message_content content)
      else if (role =? lit "user") && is_contextual_user_message_content content then Some false
      else None
  | _ => None
  end.

(** The walk back from the cut; its bound is the cut itself, so that the
    recursion is on it.  [snapshot[cut - 1]] panics beyond the end. *)
Fixpoint trim_pre_turn_context_updates (self : Context) (snapshot : list Item) (first_instruction_turn_idx cut_idx : nat)
  : option (Context * nat) :=
  match cut_idx with
  | O => Some (self, O)
  | S above =>
      if (first_instruction_turn_idx <? cut_idx)%nat then
        item ← snapshot !! above;
        match trims item with
        | Some stale =>
            trim_pre_turn_context_updates
              (if stale then set_reference_context_item self None else self) snapshot first_instruction_turn_idx above
        | None => Some (self, cut_idx)
        end
      else Some (self, cut_idx)
  end.

Definition drop_last_n_user_turns (self : Context) (num_turns : nat) : option Context :=
  if (num_turns =? 0)%nat then Some self
  else
    let snapshot := items self in
    let user_positions := user_message_positions snapshot in
    match user_positions with
    | [] => Some (replace self snapshot)
    | first_instruction_turn_idx :: _ =>
        cut_idx ← (if (length user_positions <=? num_turns)%nat then Some first_instruction_turn_idx
                   else user_positions !! (length user_positions - num_turns)%nat);
        '(self, cut_idx) ← trim_pre_turn_context_updates self snapshot first_instruction_turn_idx cut_idx;
        Some (replace self (take cut_idx snapshot))
    end.

(** ** Rolling back *)

Definition turns (l : list Item) : nat := length (List.filter is_user_turn_boundary l).

Lemma turns_app a b : turns (a ++ b) = turns a + turns b.
Proof. unfold turns. by rewrite List.filter_app, length_app. Qed.

Lemma turns_cons i l : turns (i :: l) = (if is_user_turn_boundary i then 1 else 0) + turns l.
Proof. unfold turns. cbn. by destruct (is_user_turn_boundary i). Qed.

Fixpoint positions_from (k : nat) (l : list Item) : list nat :=
  match l with
  | [] => []
  | i :: l => if is_user_turn_boundary i then k :: positions_from (S k) l else positions_from (S k) l
  end.

Lemma user_message_positions_from l : user_message_positions l = positions_from 0 l.
Proof.
  unfold user_message_positions.
  assert (forall k, omap (fun '(idx, item) => if is_user_turn_boundary item then Some idx else None) (imap (fun i x => (k + i, x)) l)
    = positions_from k l) as Hgo; [|by rewrite <- Hgo].
  induction l as [|i l IH]; intros k; [done|]. cbn [imap omap list_omap positions_from]. rewrite Nat.add_0_r.
  rewrite (imap_ext _ (fun j x => (S k + j, x))) by (intros j x _; cbn; f_equal; lia). rewrite IH.
  by destruct (is_user_turn_boundary i).
Qed.

Lemma positions_length k l : length (positions_from k l) = turns l.
Proof. revert k. induction l as [|i l IH]; intros k; [done|]. cbn [positions_from]. rewrite turns_cons. destruct (is_user_turn_boundary i); cbn; by rewrite IH. Qed.

Lemma positions_lookup k l j p :
  positions_from k l !! j = Some p ->
  exists a b rest, l = a ++ b :: rest /\ p = k + length a /\ is_user_turn_boundary b = true /\ turns a = j.
Proof.
  revert k j. induction l as [|i l IH]; intros k j; cbn [positions_from]; [done|].
  assert (forall j, positions_from (S k) l !! j = Some p ->
    exists a b rest, i :: l = a ++ b :: rest /\ p = k + length a /\ is_user_turn_boundary b = true
      /\ turns a = (if is_user_turn_boundary i then 1 else 0) + j) as Hnext.
  { intros j' (a & b & rest & -> & -> & Hb & <-)%IH. exists (i :: a), b, rest. rewrite turns_cons. cbn.
    do 2 (split; [done || lia|]). done. }
  destruct (is_user_turn_boundary i) eqn:E; [|apply Hnext].
  destruct j as [|j]; cbn; [|apply Hnext]. intros [= <-]. exists [], i, l. cbn. do 2 (split; [done || lia|]). done.
Qed.

Lemma boundary_not_trimmed i : is_user_turn_boundary i = true -> trims i = None.
Proof.
  destruct i; try done. cbn. destruct (role =? lit "developer") eqn:Ed; [apply bool_decide_eq_true in Ed as ->; done|].
  destruct (role =? lit "user") eqn:Eu; cbn; [|done]. apply bool_decide_eq_true in Eu as ->.
  destruct (is_contextual_user_message_content content); done.
Qed.

Definition goes (i : Item) : Prop := exists stale, trims i = Some stale.

(** The walk takes what can go, and the baseline with it if it must. *)
Lemma trim_spec self a d first :
  exists kept ctx self',
    a = kept ++ ctx /\ Forall goes ctx
    /\ trim_pre_turn_context_updates self (a ++ d) first (length a) = Some (self', length kept)
    /\ self' = (if existsb (fun i => bool_decide (trims i = Some true)) ctx then set_reference_context_item self None else self)
    /\ (length kept <= first \/ exists k i, kept = k ++ [i] /\ trims i = None).
Proof.
  revert self d. induction a as [|i a IH] using rev_ind; intros self d.
  { exists [], [], self. repeat split; auto. left. cbn. lia. }
  rewrite length_app, Nat.add_comm. cbn [Nat.add length trim_pre_turn_context_updates].
  destruct (Nat.ltb_spec first (S (length a))) as [Hlt|Hge].
  2:{ exists (a ++ [i]), [], self. rewrite app_nil_r. replace (length (a ++ [i])) with (S (length a)) by (rewrite length_app; cbn; lia).
      do 4 (split; [done|]). by left. }
  rewrite <- app_assoc. cbn [app]. rewrite list_lookup_middle by done. cbn [mbind option_bind].
  destruct (trims i) as [stale|] eqn:Ei.
  - destruct (IH (if stale then set_reference_context_item self None else self) (i :: d))
      as (kept & ctx & self' & -> & Hg & -> & -> & Hend).
    exists kept, (ctx ++ [i]). eexists. rewrite <- app_assoc. split; [done|].
    split; [apply Forall_app; split; [done|]; constructor; [by exists stale|done]|]. split; [done|].
    split; [|done]. rewrite existsb_app. cbn. rewrite orb_false_r, Ei.
    destruct stale, (existsb _ ctx); cbn; done.
  - exists (a ++ [i]), [], self. rewrite app_nil_r. replace (length (a ++ [i])) with (S (length a)) by (rewrite length_app; cbn; lia).
    do 4 (split; [done|]). right. by exists a, i.
Qed.

Lemma trim_stop self snapshot first cut :
  cut <= first -> trim_pre_turn_context_updates self snapshot first cut = Some (self, cut).
Proof. intros Hle. destruct cut as [|cut]; [done|]. cbn [trim_pre_turn_context_updates]. destruct (Nat.ltb_spec first (S cut)); [lia|done]. Qed.

(** Rolling back [n] turns always answers, and takes from the end the last
    [n] turns (all, if there are fewer), with the injected context right above
    the cut; what is left is what was there before, ends with an item that is
    not injected context, and always has what came before the first turn. The
    baseline is dropped exactly if the removed context was mixed with
    persistent text. *)
Theorem rollback_spec (self : Context) (n : nat) :
  exists self',
    drop_last_n_user_turns self n = Some self'
    /\ token_info self' = token_info self
    /\ exists kept ctx dropped,
        items self = kept ++ ctx ++ dropped /\ items self' = kept
        /\ turns dropped = Nat.min n (turns (items self)) /\ turns ctx = 0 /\ Forall goes ctx
        /\ (dropped = [] \/ exists b rest, dropped = b :: rest /\ is_user_turn_boundary b = true)
        /\ reference_context_item self'
           = (if existsb (fun i => bool_decide (trims i = Some true)) ctx then None else reference_context_item self)
        /\ (ctx = [] /\ (turns kept = 0 \/ dropped = []) \/ exists k i, kept = k ++ [i] /\ trims i = None).
Proof.
  unfold drop_last_n_user_turns. destruct (Nat.eqb_spec n 0) as [->|Hn].
  { exists self. do 2 (split; [done|]). exists (items self), [], []. rewrite !app_nil_r. repeat split; auto. }
  rewrite user_message_positions_from. set (l := items self). pose proof (positions_length 0 l) as Hlen.
  destruct (positions_from 0 l) as [|first ps] eqn:Ep.
  { eexists. do 2 (split; [done|]). exists l, [], []. rewrite !app_nil_r. cbn in Hlen. rewrite <- Hlen, Nat.min_0_r.
    repeat split; auto. }
  destruct (positions_lookup 0 l 0 first) as (pre & b & rest & Hl & -> & Hb & Hpre); [by rewrite Ep|]. cbn [Nat.add] in *.
  rewrite Hlen. destruct (Nat.leb_spec (turns l) n) as [Hall|Hsome].
  - cbn [mbind option_bind]. rewrite trim_stop by done. cbn [mbind option_bind].
    eexists. do 2 (split; [done|]). exists pre, [], (b :: rest). cbn [app items replace].
    split; [done|]. split; [by rewrite Hl, take_app_length|].
    assert (turns (b :: rest) = turns l) as -> by (rewrite Hl, turns_app, Hpre; done).
    split; [lia|]. split; [done|]. split; [done|]. split; [right; by exists b, rest|]. split; [done|]. left. auto.
  - assert (exists p, positions_from 0 l !! (turns l - n) = Some p) as [p Hp].
    { apply lookup_lt_is_Some. rewrite positions_length. lia. }
    rewrite <- Ep, Hp. cbn [mbind option_bind].
    destruct (positions_lookup 0 l _ p Hp) as (a & b' & rest' & Hl' & -> & Hb' & Ha). cbn [Nat.add].
    destruct (trim_spec self a (b' :: rest') (length pre)) as (kept & ctx & self' & Hkc & Hg & Ht & Hs & Hend).
    rewrite Hl'. rewrite Ht. cbn [mbind option_bind]. eexists. split; [done|].
    assert (turns ctx = 0) as Hctx.
    { clear -Hg. induction Hg as [|i ctx [stale Hi] _ IH]; [done|]. rewrite turns_cons, IH.
      destruct (is_user_turn_boundary i) eqn:E; [|done]. apply boundary_not_trimmed in E. congruence. }
    split; [rewrite Hs; by destruct (existsb _ ctx)|]. exists kept, ctx, (b' :: rest'). cbn [items replace reference_context_item].
    split; [by rewrite Hkc, <- app_assoc|].
    split; [by rewrite Hkc, <- app_assoc, take_app_length|].
    assert (turns (b' :: rest') = n) as Hd.
    { pose proof (turns_app a (b' :: rest')) as Happ. rewrite <- Hl', Ha in Happ. lia. }
    split; [rewrite turns_app, Hd; lia|]. do 2 (split; [done|]). split; [right; by exists b', rest'|].
    split; [rewrite Hs; by destruct (existsb _ ctx)|]. right. destruct Hend as [Hshort|Hend]; [|done]. exfalso.
    assert (turns kept = turns a) as Hk by (rewrite Hkc, turns_app; lia).
    assert (turns kept = 0) as Hk0; [|lia].
    assert (exists more, pre = kept ++ more) as [more Hmore].
    { exists (drop (length kept) pre). rewrite <- (take_drop (length kept) pre) at 1. f_equal.
      assert (take (length kept) l = kept) as E1 by (by rewrite Hl', Hkc, <- app_assoc, take_app_length).
      rewrite <- E1 at 2. rewrite Hl. symmetry. by apply take_app_le. }
    rewrite Hmore, turns_app in Hpre. lia.
Qed.
End turns.

(** ** Removing one item keeps the pairs *)

(** The side, the kind and the id of an item that takes part in a pair. *)
Inductive side : Type := Call | Output.
Inductive pair_kind : Type := FunctionPair | SearchPair | CustomPair.
#[global] Instance side_eq_dec : EqDecision side.
Proof. solve_decision. Defined.
#[global] Instance pair_kind_eq_dec : EqDecision pair_kind.
Proof. solve_decision. Defined.

Definition pair_key (i : Item) : option (side * pair_kind * str) :=
  match i with
  | FunctionCall _ _ _ _ id | LocalShellCall _ (Some id) _ _ => Some (Call, FunctionPair, id)
  | FunctionCallOutput id _ => Some (Output, FunctionPair, id)
  | ToolSearchCall _ (Some id) _ _ _ => Some (Call, SearchPair, id)
  | ToolSearchOutput (Some id) _ _ _ => Some (Output, SearchPair, id)
  | CustomToolCall _ _ id _ _ => Some (Call, CustomPair, id)
  | CustomToolCallOutput id _ _ => Some (Output, CustomPair, id)
  | _ => None
  end.

Definition has_key (k : side * pair_kind * str) (i : Item) : bool := bool_decide (pair_key i = Some k).

(** No id is used twice on one side. *)
Definition unique_ids (l : list Item) : Prop := NoDup (omap pair_key l).

Definition opposite (s : side) : side := match s with Call => Output | Output => Call end.

Definition server_output (i : Item) : bool :=
  match i with ToolSearchOutput _ _ execution _ => execution =? lit "server" | _ => false end.

(** The pairing, by the keys. *)
Definition key_paired (l : list Item) : Prop :=
  forall i s k id, i ∈ l -> pair_key i = Some (s, k, id) -> server_output i = false ->
    exists j, j ∈ l /\ pair_key j = Some (opposite s, k, id).

#[local] Ltac key_case i :=
  destruct i as [| | ? [?|] ? ?| |? [?|] ? ? ?| | | |[?|]| | | |]; cbn; try done;
  rewrite ?bool_decide_eq_true;
  (split; [intros Hx; destruct_or? Hx; by simplify_eq|intros Hx; simplify_eq; auto]).

Lemma key_function_call id i :
  is_function_call id i || is_local_shell_call id i = true <-> pair_key i = Some (Call, FunctionPair, id).
Proof. rewrite orb_true_iff. key_case i. Qed.
Lemma key_function_output id i : is_function_output id i = true <-> pair_key i = Some (Output, FunctionPair, id).
Proof. key_case i. Qed.
Lemma key_search_call id i : is_tool_search_call id i = true <-> pair_key i = Some (Call, SearchPair, id).
Proof. key_case i. Qed.
Lemma key_search_output id i : is_tool_search_output id i = true <-> pair_key i = Some (Output, SearchPair, id).
Proof. key_case i. Qed.
Lemma key_custom_call id i : is_custom_call id i = true <-> pair_key i = Some (Call, CustomPair, id).
Proof. key_case i. Qed.
Lemma key_custom_output id i : is_custom_output id i = true <-> pair_key i = Some (Output, CustomPair, id).
Proof. key_case i. Qed.

Lemma paired_keys l : paired l <-> key_paired l.
Proof.
  split.
  - intros [Ha Hc] i s k id Hi Hk Hs. specialize (Ha i Hi). specialize (Hc i Hi).
    destruct i as [| | ? [?|] ? ?| |? [?|] ? ? ?| | | |[?|]| | | |]; cbn in Hk; simplify_eq; cbn [answered called opposite] in *;
      try setoid_rewrite key_function_output in Ha; try setoid_rewrite key_search_output in Ha;
      try setoid_rewrite key_custom_output in Ha; try setoid_rewrite key_custom_call in Hc; try done.
    + setoid_rewrite <- key_function_call. by setoid_rewrite orb_true_iff.
    + setoid_rewrite <- key_search_call. apply Hc. by apply bool_decide_eq_false in Hs.
  - intros Hp. split; intros i Hi; specialize (Hp i).
    + destruct i as [| | ? [?|] ? ?| |? [?|] ? ? ?| | | |[?|]| | | |]; try done; cbn [answered];
        try setoid_rewrite key_function_output; try setoid_rewrite key_search_output; try setoid_rewrite key_custom_output;
        by apply (Hp _ _ _ Hi eq_refl).
    + destruct i as [| | ? [?|] ? ?| |? [?|] ? ? ?| | | |[?|]| | | |]; try done; cbn [called].
      * setoid_rewrite <- orb_true_iff. setoid_rewrite key_function_call. by apply (Hp _ _ _ Hi eq_refl).
      * setoid_rewrite key_custom_call. by apply (Hp _ _ _ Hi eq_refl).
      * intros He. setoid_rewrite key_search_call. apply (Hp _ _ _ Hi eq_refl). cbn. by apply bool_decide_eq_false.
Qed.

Lemma remove_first_matching_ext (f g : Item -> bool) l :
  (forall i, i ∈ l -> f i = g i) -> remove_first_matching f l = remove_first_matching g l.
Proof.
  induction l as [|i l IH]; intros H; [done|]. cbn. rewrite (H i) by (by left). destruct (g i); [done|].
  f_equal. apply IH. intros j Hj. apply H. by right.
Qed.

Lemma unique_cons i l k : unique_ids (i :: l) -> pair_key i = Some k -> forall j, j ∈ l -> pair_key j <> Some k.
Proof.
  unfold unique_ids. cbn. intros Hu Hk j Hj Hkj. rewrite Hk in Hu. apply NoDup_cons in Hu as [Hn _]. apply Hn.
  apply list_elem_of_omap. eauto.
Qed.

Lemma unique_tail i l : unique_ids (i :: l) -> unique_ids l.
Proof. unfold unique_ids. cbn. destruct (pair_key i); [by intros [_ ?]%NoDup_cons|done]. Qed.

Lemma unique_remove f l : unique_ids l -> unique_ids (remove_first_matching f l).
Proof.
  induction l as [|i l IH]; intros Hu; [done|]. cbn. pose proof (unique_tail _ _ Hu) as Hl. destruct (f i); [done|].
  specialize (IH Hl). unfold unique_ids. cbn. destruct (pair_key i) as [k|] eqn:Ek; [|done].
  apply NoDup_cons. split; [|done]. intros (j & Hj & Hk)%list_elem_of_omap.
  apply remove_first_matching_elem in Hj. by apply (unique_cons _ _ _ Hu Ek j Hj).
Qed.

(** With unique ids, the first match is the only one. *)
Lemma removed_key_gone k l i : unique_ids l -> i ∈ remove_first_matching (has_key k) l -> pair_key i <> Some k.
Proof.
  induction l as [|j l IH]; intros Hu; cbn; [by intros ?%elem_of_nil|]. unfold has_key at 1.
  destruct (bool_decide _) eqn:Ej; [apply bool_decide_eq_true in Ej; intros Hi; by apply (unique_cons _ _ _ Hu Ej)|].
  apply bool_decide_eq_false in Ej. intros [->|Hi]%elem_of_cons; [done|]. apply IH; [by eapply unique_tail|done].
Qed.

Lemma remove_first_or f g k l :
  unique_ids l -> (forall i, f i || g i = true <-> pair_key i = Some k) ->
  (if existsb f l then remove_first_matching f l else remove_first_matching g l) = remove_first_matching (has_key k) l.
Proof.
  intros Hu Hk. assert (forall i, has_key k i = f i || g i) as Heq.
  { intros i. unfold has_key. apply eq_iff_eq_true. by rewrite bool_decide_eq_true, Hk. }
  destruct (existsb f l) eqn:E.
  - induction l as [|i l IH]; [done|]. cbn. rewrite Heq. destruct (f i) eqn:Ef; [done|]. cbn in E. rewrite Ef in E. cbn in *.
    destruct (g i) eqn:Eg; [|f_equal; apply IH; [by eapply unique_tail|done]]. exfalso.
    apply existsb_elem in E as (j & Hj & Hf). apply (unique_cons i l k Hu) with (j := j); [|done|].
    + apply Hk. by rewrite Ef, Eg.
    + apply Hk. by rewrite Hf.
  - apply remove_first_matching_ext. intros i Hi. rewrite Heq. destruct (f i) eqn:Ef; [|done].
    assert (existsb f l = true) by (apply existsb_elem; eauto). congruence.
Qed.

Lemma remove_corresponding_key l a :
  unique_ids l ->
  remove_corresponding_for l a
  = match pair_key a with Some (s, k, id) => remove_first_matching (has_key (opposite s, k, id)) l | None => l end.
Proof.
  intros Hu. assert (forall (f : Item -> bool) k, (forall i, f i = true <-> pair_key i = Some k) ->
    remove_first_matching f l = remove_first_matching (has_key k) l) as Heq.
  { intros f k Hf. apply remove_first_matching_ext. intros i _. unfold has_key. apply eq_iff_eq_true. by rewrite bool_decide_eq_true. }
  destruct a as [| | ? [?|] ? ?| |? [?|] ? ? ?| | | |[?|]| | | |]; cbn; try done; try (apply Heq; intros i);
    auto using key_function_output, key_search_call, key_search_output, key_custom_call, key_custom_output.
  apply remove_first_or; [done|]. intros i. apply key_function_call.
Qed.

Lemma remove_one_paired l a :
  unique_ids (a :: l) -> key_paired (a :: l) -> key_paired (remove_corresponding_for l a).
Proof.
  intros Hu Hp. pose proof (unique_tail _ _ Hu) as Hl. rewrite remove_corresponding_key by done.
  intros i s k id Hi Hk Hs.
  assert (i ∈ l) as Hil by (destruct (pair_key a) as [[[? ?] ?]|]; [by eapply remove_first_matching_elem|done]).
  destruct (Hp i s k id) as (j & Hj & Hkj); [by right|done|done|]. apply elem_of_cons in Hj as [->|Hj].
  - rewrite Hkj in Hi. assert (opposite (opposite s) = s) as Hss by (by destruct s). rewrite Hss in Hi.
    by apply (removed_key_gone _ _ _ Hl) in Hi.
  - exists j. split; [|done]. destruct (pair_key a) as [[[sa ka] ida]|] eqn:Ea; [|done].
    apply remove_first_matching_other; [done|]. apply bool_decide_eq_false. rewrite Hkj. intros [= Hso -> ->].
    assert (s = sa) as -> by (by destruct s, sa). by apply (unique_cons _ _ _ Hu Ea i Hil).
Qed.

Lemma key_paired_perm l l' : l ≡ₚ l' -> key_paired l -> key_paired l'.
Proof.
  intros Hperm Hp i s k id Hi Hk Hs. rewrite <- Hperm in Hi. destruct (Hp i s k id Hi Hk Hs) as (j & Hj & ?).
  exists j. by rewrite <- Hperm.
Qed.

(** Dropping the oldest item or the newest one takes its counterpart along:
    a history that is paired, and uses no id twice, stays so, and nothing is
    removed but these two. *)
Theorem remove_item_keeps_pairs (self : Context) :
  paired (items self) -> unique_ids (items self) ->
  (paired (items (remove_first_item self)) /\ unique_ids (items (remove_first_item self)))
  /\ (paired (items (remove_last_item self).1) /\ unique_ids (items (remove_last_item self).1))
  /\ length (items self) <= length (items (remove_first_item self)) + 2
  /\ length (items self) <= length (items (remove_last_item self).1) + 2.
Proof.
  rewrite !paired_keys. intros Hp Hu.
  assert (forall f (l : list Item), length l <= S (length (remove_first_matching f l))) as Hlen.
  { intros f l. induction l as [|i l IH]; cbn; [lia|]. destruct (f i); cbn; lia. }
  assert (forall l a, unique_ids (a :: l) -> key_paired (a :: l) ->
    (key_paired (remove_corresponding_for l a) /\ unique_ids (remove_corresponding_for l a))
    /\ length l <= S (length (remove_corresponding_for l a))) as Hone.
  { intros l a Hua Hpa. split; [split; [by apply remove_one_paired|]|].
    - rewrite remove_corresponding_key by (by eapply unique_tail).
      destruct (pair_key a) as [[[? ?] ?]|]; [apply unique_remove|]; by eapply unique_tail.
    - rewrite remove_corresponding_key by (by eapply unique_tail). destruct (pair_key a) as [[[? ?] ?]|]; [apply Hlen|lia]. }
  unfold remove_first_item, remove_last_item.
  assert (items self <> [] -> exists a l, last (items self) = Some a /\ removelast (items self) = l /\ items self = l ++ [a]) as Hsnoc.
  { destruct (items self) as [|a l _] using rev_ind; [done|]. intros _. exists a, l. by rewrite last_snoc, removelast_last. }
  destruct (items self) as [|b l'] eqn:El.
  { cbn. rewrite El. cbn. repeat split; try done; lia. }
  destruct (Hone l' b Hu Hp) as [Hfirst Hl1]. cbn [items fst].
  destruct Hsnoc as (a & l & -> & -> & E); [done|]. cbn [items fst].
  assert (b :: l' ≡ₚ a :: l) as Hperm by (rewrite E; apply Permutation_app_comm).
  destruct (Hone l a) as [Hlast Hl2].
  { unfold unique_ids. by rewrite <- Hperm. } { by apply (key_paired_perm _ _ Hperm). }
  assert (length (b :: l') = S (length l)) as Hll by (by rewrite Hperm).
  split; [exact Hfirst|]. split; [exact Hlast|]. cbn [length] in *. lia.
Qed.

(** ** What is recorded is within the budget *)

Definition small_payload (p : FunctionCallOutputPayload) : Prop :=
  match body p with
  | BodyText content => (str_len content <= ISIZE_MAX)%N
  | BodyItems items => small_items items
  end.

Definition item_payload (i : Item) : option FunctionCallOutputPayload :=
  match i with FunctionCallOutput _ output | CustomToolCallOutput _ _ output => Some output | _ => None end.

(** A payload cut to a budget: its text with one marker, its images and its
    note on what is left out. *)
Definition payload_within (policy : TruncationPolicy) (p p' : FunctionCallOutputPayload) : Prop :=
  success p' = success p
  /\ match body p, body p' with
     | BodyText content, BodyText content' =>
         (str_len content' <= byte_limit policy (budget_of policy) + 44)%N
     | BodyItems l, BodyItems l' =>
         exists kept note, l' = kept ++ note /\ images kept = images l
           /\ (text_bytes kept <= byte_limit policy (budget_of policy) + 44)%N /\ length note <= 1 /\ images note = []
     | _, _ => False
     end.

Definition recorded (policy : TruncationPolicy) (i i' : Item) : Prop :=
  pair_key i' = pair_key i
  /\ match item_payload i with
     | Some p => exists p', item_payload i' = Some p' /\ payload_within (policy_mul policy F64_1_2) p p'
     | None => i' = i
     end.

Lemma byte_budget_limit policy : (byte_budget policy <= byte_limit policy (budget_of policy))%N.
Proof. destruct policy; cbn [byte_budget byte_limit budget_of]; [lia|]. unfold approx_bytes_for_tokens, sat_mul, APPROX_BYTES_PER_TOKEN. lia. Qed.

Lemma truncate_payload_within p policy :
  small_payload p -> exists p', truncate_function_output_payload p policy = Some p' /\ payload_within policy p p'.
Proof.
  unfold small_payload, truncate_function_output_payload, payload_within. intros Hs. destruct (body p) as [content|l].
  - pose proof (isize_max _ Hs). pose proof (truncate_text_cut content policy ltac:(lia)) as Hspec.
    pose proof (truncate_text_len content policy) as Hlen. pose proof (byte_budget_limit policy).
    destruct (truncate_text content policy) as [t|] eqn:E.
    + eexists. split; [done|]. cbn. split; [done|]. specialize (Hlen t Hs eq_refl). destruct (_ <=? _)%N; lia.
    + exfalso. destruct (_ <=? _)%N; [done|]. by destruct Hspec as (? & ? & ? & _ & _ & ?).
  - destruct (truncate_items_cut l policy Hs) as (kept & note & -> & Himg & Hb & Hn & _). eexists. split; [done|].
    cbn. split; [done|]. exists kept, note. do 3 (split; [done|]).
    destruct Hn as [->|(n & _ & ->)]; cbn; auto with lia.
Qed.

Lemma process_item_recorded i policy :
  (forall p, item_payload i = Some p -> small_payload p) ->
  exists i', process_item i policy = Some i' /\ recorded policy i i'.
Proof.
  intros Hs. unfold recorded. destruct i; try (by eexists); cbn [process_item item_payload] in *;
    destruct (truncate_payload_within _ (policy_mul policy F64_1_2) (Hs _ eq_refl)) as (p' & -> & Hp);
    (eexists; split; [done|]; split; [done|]; by exists p').
Qed.

(** Recording always answers; the messages for the model are appended in
    order, the others left out; an item is changed only if it is a tool's
    output, whose id and images stay and whose text is cut to 1.2 times the
    budget and a marker. *)
Theorem record_items_spec (self : Context) (new_items : list Item) (policy : TruncationPolicy) :
  (forall i p, i ∈ new_items -> item_payload i = Some p -> small_payload p) ->
  exists self' added,
    record_items self new_items policy = Some self'
    /\ items self' = items self ++ added
    /\ Forall2 (recorded policy) (List.filter is_api_message new_items) added
    /\ history_version self' = history_version self /\ token_info self' = token_info self
    /\ reference_context_item self' = reference_context_item self.
Proof.
  revert self. induction new_items as [|i l IH]; intros self Hs.
  { exists self, []. rewrite app_nil_r. repeat split; constructor. }
  assert (forall j p, j ∈ l -> item_payload j = Some p -> small_payload p) as Hl by (intros j p Hj; apply Hs; by right).
  cbn [record_items List.filter]. destruct (is_api_message i); cbn [negb].
  - destruct (process_item_recorded i policy) as (i' & -> & Hi); [intros p; apply Hs; by left|]. cbn [mbind option_bind].
    destruct (IH (mkContext (items self ++ [i']) (history_version self) (token_info self) (reference_context_item self)) Hl)
      as (self' & added & Hr & Hit & Hf & Hrest).
    exists self', (i' :: added). split; [exact Hr|]. rewrite Hit. cbn [items]. rewrite <- app_assoc. split; [done|].
    split; [by constructor|exact Hrest].
  - apply IH, Hl.
Qed.

(** ** Token estimates *)

Definition estimate_reasoning_length (encoded_len : N) : N := sat_sub (sat_mul encoded_len 3 / 4) 650.

Definition RESIZED_IMAGE_BYTES_ESTIMATE : Z := 7373.
Definition ORIGINAL_IMAGE_PATCH_SIZE : Z := 32.
Definition ORIGINAL_IMAGE_MAX_PATCHES : N := 10000.

(** The slice after the scheme cannot fail, since the scheme has no comma. *)
Definition parse_base64_image_data_url (url : str) : option str :=
  if negb (get_start_eq url (lit "data:")) then None
  else
    comma_index ← str_find (lit ",") url;
    let metadata := take comma_index url in
    let payload := drop (S comma_index) url in
    metadata_without_scheme ← slice_from metadata (str_len (lit "data:"));
    match split_char 59%N metadata_without_scheme with
    | [] => None
    | mime_type :: metadata_parts =>
        let has_base64_marker := existsb (fun part => eq_ignore_ascii_case part (lit "base64")) metadata_parts in
        if negb (get_start_eq mime_type (lit "image/")) then None
        else if negb has_base64_marker then None
        else Some payload
    end.

(** What other crates compute: the length of an item's JSON (0 if it cannot be
    written) and the size of an encoded image. *)
Context (json_len : Item -> N) (image_size : str -> option (Z * Z)).

(** The cache only saves work. *)
Definition estimate_original_image_bytes (image_url : str) : option Z :=
  payload ← parse_base64_image_data_url image_url;
  '(width, height) ← image_size payload;
  let patches_wide := (sat_i64 (width + (ORIGINAL_IMAGE_PATCH_SIZE - 1)) `quot` ORIGINAL_IMAGE_PATCH_SIZE)%Z in
  let patches_high := (sat_i64 (height + (ORIGINAL_IMAGE_PATCH_SIZE - 1)) `quot` ORIGINAL_IMAGE_PATCH_SIZE)%Z in
  let patch_count := sat_i64 (patches_wide * patches_high) in
  let patch_count := if (patch_count <? 0)%Z then MAX64 else Z.to_N patch_count in
  let patch_count := N.min patch_count ORIGINAL_IMAGE_MAX_PATCHES in
  Some (Z.min (Z.of_N (approx_bytes_for_tokens patch_count)) MAX_I64).

Definition accumulate_image (acc : Z * Z) (image_url : str) (detail : option ImageDetail) : Z * Z :=
  let '(payload_bytes, replacement_bytes) := acc in
  match parse_base64_image_data_url image_url with
  | Some payload =>
      (sat_i64 (payload_bytes + Z.min (Z.of_N (str_len payload)) MAX_I64),
       sat_i64 (replacement_bytes
         + match detail with
           | Some DetailOriginal => default RESIZED_IMAGE_BYTES_ESTIMATE (estimate_original_image_bytes image_url)
           | _ => RESIZED_IMAGE_BYTES_ESTIMATE
           end))
  | None => acc
  end.

Definition image_data_url_estimate_adjustment (item : Item) : Z * Z :=
  match item with
  | Message _ _ content _ =>
      foldl (fun acc content_item => match content_item with
                                     | InputImage image_url detail => accumulate_image acc image_url detail
                                     | _ => acc
                                     end) (0, 0)%Z content
  | FunctionCallOutput _ output | CustomToolCallOutput _ _ output =>
      match body output with
      | BodyItems items =>
          foldl (fun acc content_item => match content_item with
                                         | FInputImage image_url detail => accumulate_image acc image_url detail
                                         | FInputText _ => acc
                                         end) (0, 0)%Z items
      | BodyText _ => (0, 0)%Z
      end
  | _ => (0, 0)%Z
  end.

Definition estimate_response_item_model_visible_bytes (item : Item) : Z :=
  match item with
  | Reasoning _ _ _ (Some content) | Compaction content =>
      Z.min (Z.of_N (estimate_reasoning_length (str_len content))) MAX_I64
  | _ =>
      let raw := Z.min (Z.of_N (json_len item)) MAX_I64 in
      let '(payload_bytes, replacement_bytes) := image_data_url_estimate_adjustment item in
      if (payload_bytes =? 0)%Z || (replacement_bytes =? 0)%Z then raw
      else sat_i64 (sat_i64 (raw - payload_bytes) + replacement_bytes)
  end.

Definition estimate_item_token_count (item : Item) : Z :=
  approx_tokens_from_byte_count_i64 (estimate_response_item_model_visible_bytes item).

Definition saturating_sum (f : Item -> Z) (l : list Item) : Z := foldl (fun acc item => sat_i64 (acc + f item)) 0%Z l.

Definition estimate_token_count_with_base_instructions (self : Context) (base_instructions : str) : option Z :=
  let base_tokens := Z.min (Z.of_N (approx_token_count base_instructions)) MAX_I64 in
  let items_tokens := saturating_sum estimate_item_token_count (items self) in
  Some (sat_i64 (base_tokens + items_tokens)).

Definition items_after_last_model_generated_item (self : Context) : list Item :=
  drop (match rposition is_model_generated_item (items self) with Some index => S index | None => length (items self) end)
    (items self).

Definition get_non_last_reasoning_items_tokens `{WireFormats} (self : Context) : Z :=
  match rposition is_user_turn_boundary (items self) with
  | None => 0%Z
  | Some last_user_index =>
      saturating_sum estimate_item_token_count
        (List.filter (fun item => match item with Reasoning _ _ _ (Some _) => true | _ => false end)
           (take last_user_index (items self)))
  end.

Definition get_total_token_usage `{WireFormats} (self : Context) (server_reasoning_included : bool) : Z :=
  let last_tokens := match token_info self with Some info => total_tokens (last_token_usage info) | None => 0%Z end in
  let after := saturating_sum estimate_item_token_count (items_after_last_model_generated_item self) in
  if server_reasoning_included then sat_i64 (last_tokens + after)
  else sat_i64 (sat_i64 (last_tokens + get_non_last_reasoning_items_tokens self) + after).

Record TotalTokenUsageBreakdown : Type := mkBreakdown {
  last_api_response_total_tokens : Z;
  all_history_items_model_visible_bytes : Z;
  estimated_tokens_of_items_added_since_last_successful_api_response : Z;
  estimated_bytes_of_items_added_since_last_successful_api_response : Z;
}.

Definition get_total_token_usage_breakdown (self : Context) : TotalTokenUsageBreakdown :=
  let last_usage := match token_info self with Some info => last_token_usage info | None => default_usage end in
  let after := items_after_last_model_generated_item self in
  mkBreakdown (total_tokens last_usage)
    (saturating_sum estimate_response_item_model_visible_bytes (items self))
    (saturating_sum estimate_item_token_count after)
    (saturating_sum estimate_response_item_model_visible_bytes after).
End history.

(** ** Samples *)

Definition sample_call (id : string) : ResponseItem unit := FunctionCall None (lit "shell") None (lit "{}") (lit id).
Definition sample_output (id text : string) : ResponseItem unit := FunctionCallOutput (lit id) (from_text (lit text)).
Definition sample_user (text : string) : ResponseItem unit := Message None (lit "user") [InputText (lit text)] None.

Definition sample_history : ContextManager unit unit :=
  mkContext [sample_user "hi"; sample_call "1"; sample_output "1" "ok"; sample_user "more"; sample_call "2"; sample_output "2" "ok"]
    0 None (Some tt).

Lemma remove_item_keeps_pairs_witness :
  unique_ids (items sample_history)
  /\ paired (items (remove_last_item sample_history).1)
  /\ items (remove_last_item sample_history).1 = take 4 (items sample_history).
Proof.
  assert (unique_ids (items sample_history)) as Hu by (unfold unique_ids; apply (bool_decide_unpack _); vm_compute; exact I).
  split; [exact Hu|]. split; [|vm_compute; reflexivity].
  apply (remove_item_keeps_pairs sample_history); [|exact Hu]. apply paired_true. vm_compute. reflexivity.
Defined.

Lemma record_items_spec_witness :
  exists self', record_items sample_history [sample_output "3" "abcdefghij"] (Bytes 3) = Some self'
  /\ length (items self') = 7%nat.
Proof.
  destruct (record_items_spec sample_history [sample_output "3" "abcdefghij"] (Bytes 3)) as (self' & added & Hr & Hi & Hf & _).
  - intros i p ->%list_elem_of_singleton [= <-]. vm_compute. discriminate.
  - exists self'. split; [exact Hr|]. rewrite Hi, length_app, <- (Forall2_length _ _ _ Hf). reflexivity.
Defined.

#[local] Instance sample_formats : WireFormats := {| from_xml_str := fun _ => None; from_json_str := fun _ => false |}.

Example rollback_sample :
  items <$> drop_last_n_user_turns sample_history 1 = Some (take 3 (items sample_history)).
Proof. vm_compute. done. Qed.

(** A rollback without turns to take is called a no-op, but counts as a rewrite
    of the history. *)
Example rollback_nothing_bumps_version :
  history_version <$> drop_last_n_user_turns (mkContext [sample_call "1"] 0 None (Some tt)) 1 = Some 1%N.
Proof. vm_compute. done. Qed.
