(* ===== verification/StreamText.v ===== *)
(** * StreamText: streamed text with hidden tags

    [utils/stream-parser/src/{stream_text,inline_hidden_tag,citation}.rs].
    The specification [scan] reads a whole text at once; the theorem says that
    a parser fed in pieces gives the same, however the text is cut. *)

From S2P Require Import Prelude TextSearch.
Local Open Scope str_scope.

(** ** The interface *)

Record StreamTextChunk (E : Type) : Type := mkStreamChunk {
  visible_text : str;
  extracted : list E;
}.
Arguments mkStreamChunk {_} visible_text extracted.
Arguments visible_text {_} s.
Arguments extracted {_} s.

Definition default_chunk {E} : StreamTextChunk E := mkStreamChunk [] [].

Definition chunk_is_empty {E} (self : StreamTextChunk E) : bool :=
  is_empty (visible_text self) && is_empty (extracted self).

(** How callers collect the output of several calls. *)
Definition chunk_app {E} (a b : StreamTextChunk E) : StreamTextChunk E :=
  mkStreamChunk (visible_text a ++ visible_text b) (extracted a ++ extracted b).

Class StreamTextParser (P E : Type) : Type := {
  push_str : P -> str -> P * StreamTextChunk E;
  finish : P -> P * StreamTextChunk E;
}.

(** All pieces, then the end. *)
Fixpoint push_pieces {P E} `{StreamTextParser P E} (self : P) (pieces : list str)
  : P * StreamTextChunk E :=
  match pieces with
  | [] => (self, default_chunk)
  | piece :: pieces =>
      let '(self, out) := push_str self piece in
      let '(self, rest) := push_pieces self pieces in
      (self, chunk_app out rest)
  end.

Definition run_stream {P E} `{StreamTextParser P E} (self : P) (pieces : list str)
  : P * StreamTextChunk E :=
  let '(self, out) := push_pieces self pieces in
  let '(self, tail) := finish self in
  (self, chunk_app out tail).

Lemma push_pieces_app {P E} `{StreamTextParser P E} (self : P) a b :
  push_pieces self (a ++ b)
  = ((push_pieces (push_pieces self a).1 b).1,
     chunk_app (push_pieces self a).2 (push_pieces (push_pieces self a).1 b).2).
Proof.
  revert self. induction a as [|p a IH]; intros self; cbn [push_pieces app fst snd].
  - destruct (push_pieces self b) as [self' c]. by destruct c.
  - destruct (push_str self p) as [self1 out]. rewrite IH. destruct (push_pieces self1 a) as [self2 out2]. cbn [fst snd].
    unfold chunk_app. cbn. by rewrite !app_assoc.
Qed.

Lemma chunk_app_default_l {E} (c : StreamTextChunk E) : chunk_app default_chunk c = c.
Proof. by destruct c. Qed.

Lemma chunk_app_default_r {E} (c : StreamTextChunk E) : chunk_app c default_chunk = c.
Proof. destruct c. unfold chunk_app. cbn. by rewrite !app_nil_r. Qed.

Lemma chunk_app_assoc {E} (a b c : StreamTextChunk E) :
  chunk_app a (chunk_app b c) = chunk_app (chunk_app a b) c.
Proof. unfold chunk_app. cbn. by rewrite !app_assoc. Qed.

Lemma run_stream_cons {P E} `{StreamTextParser P E} (self : P) piece pieces :
  run_stream self (piece :: pieces)
  = ((run_stream (push_str self piece).1 pieces).1,
     chunk_app (push_str self piece).2 (run_stream (push_str self piece).1 pieces).2).
Proof.
  unfold run_stream. cbn [push_pieces]. destruct (push_str self piece) as [self1 out]. cbn [fst snd].
  destruct (push_pieces self1 pieces) as [self2 rest]. destruct (finish self2) as [self3 tail]. cbn [fst snd].
  by rewrite chunk_app_assoc.
Qed.

Lemma run_stream_nil {P E} `{StreamTextParser P E} (self : P) : run_stream self [] = finish self.
Proof. unfold run_stream. cbn [push_pieces]. destruct (finish self). by rewrite chunk_app_default_l. Qed.

(** ** Hidden inline tags *)

Section inline.
Context {T : Type}.

Record ExtractedInlineTag : Type := mkExtracted { ex_tag : T; ex_content : str }.
Record InlineTagSpec : Type := mkInlineSpec { spec_tag : T; spec_open : str; spec_close : str }.
Record ActiveTag : Type := mkActive { act_tag : T; act_close : str; act_content : str }.

Record InlineHiddenTagParser : Type := mkInline {
  specs : list InlineTagSpec;
  pending : str;
  active : option ActiveTag;
}.

(** [None] is the panic of the assertions. *)
Definition new_inline (specs : list InlineTagSpec) : option InlineHiddenTagParser :=
  if is_empty specs then None
  else if existsb (fun spec => is_empty (spec_open spec) || is_empty (spec_close spec)) specs then None
  else Some (mkInline specs [] None).

(** The order of the candidates: position, longest opener, index. *)
Definition candidate_leb (a b : nat * nat * nat) : bool :=
  let '(pos_a, len_a, idx_a) := a in
  let '(pos_b, len_b, idx_b) := b in
  (pos_a <? pos_b)%nat
  || (pos_a =? pos_b)%nat && ((len_b <? len_a)%nat || (len_a =? len_b)%nat && (idx_a <=? idx_b)%nat).

#[global] Arguments candidate_leb : simpl never.

Definition find_next_open (specs : list InlineTagSpec) (pending : str) : option (nat * nat) :=
  (fun c => (c.1.1, c.2)) <$>
  min_by candidate_leb
    (omap (fun '(idx, spec) =>
             (fun pos => (pos, length (spec_open spec), idx)) <$> str_find (spec_open spec) pending)
       (imap pair specs)).

(** The length of the longest suffix of [s] that begins [needle], but is not
    all of it; lengths count scalar values, and so every prefix is at a
    boundary. *)
Definition longest_suffix_prefix_len (s needle : str) : nat :=
  let max := Nat.min (length s) (length needle - 1) in
  default 0 (find (fun k => ends_with s (take k needle)) (rev (seq 1 max))).

Definition max_open_prefix_suffix_len (specs : list InlineTagSpec) (pending : str) : nat :=
  foldr Nat.max 0 (map (fun spec => longest_suffix_prefix_len pending (spec_open spec)) specs).

(** The loop of [push_str], with the output so far. *)
Fixpoint inline_loop (fuel : nat) (self : InlineHiddenTagParser) (out : StreamTextChunk ExtractedInlineTag)
  : InlineHiddenTagParser * StreamTextChunk ExtractedInlineTag :=
  match fuel with
  | 0 => (self, out)
  | S fuel =>
      match active self with
      | Some a =>
          match str_find (act_close a) (pending self) with
          | Some close_idx =>
              inline_loop fuel
                (mkInline (specs self) (drop (close_idx + length (act_close a)) (pending self)) None)
                (mkStreamChunk (visible_text out)
                   (extracted out ++ [mkExtracted (act_tag a) (act_content a ++ take close_idx (pending self))]))
          | None =>
              let keep := longest_suffix_prefix_len (pending self) (act_close a) in
              let take_len := length (pending self) - keep in
              (mkInline (specs self) (drop take_len (pending self))
                 (Some (mkActive (act_tag a) (act_close a) (act_content a ++ take take_len (pending self)))),
               out)
          end
      | None =>
          match find_next_open (specs self) (pending self) with
          | Some (open_idx, spec_idx) =>
              match specs self !! spec_idx with
              | Some spec =>
                  inline_loop fuel
                    (mkInline (specs self) (drop (open_idx + length (spec_open spec)) (pending self))
                       (Some (mkActive (spec_tag spec) (spec_close spec) [])))
                    (mkStreamChunk (visible_text out ++ take open_idx (pending self)) (extracted out))
              | None => (self, out)
              end
          | None =>
              let keep := max_open_prefix_suffix_len (specs self) (pending self) in
              let take_len := length (pending self) - keep in
              (mkInline (specs self) (drop take_len (pending self)) None,
               mkStreamChunk (visible_text out ++ take take_len (pending self)) (extracted out))
          end
      end
  end.

(** Each turn that goes on removes a delimiter. *)
Definition inline_push_str (self : InlineHiddenTagParser) (chunk : str)
  : InlineHiddenTagParser * StreamTextChunk ExtractedInlineTag :=
  let text := pending self ++ chunk in
  inline_loop (S (length text)) (mkInline (specs self) text (active self)) default_chunk.

Definition inline_finish (self : InlineHiddenTagParser)
  : InlineHiddenTagParser * StreamTextChunk ExtractedInlineTag :=
  match active self with
  | Some a =>
      (mkInline (specs self) [] None,
       mkStreamChunk [] [mkExtracted (act_tag a) (act_content a ++ pending self)])
  | None => (mkInline (specs self) [] None, mkStreamChunk (pending self) [])
  end.

#[global] Instance inline_stream_parser : StreamTextParser InlineHiddenTagParser ExtractedInlineTag :=
  {| push_str := inline_push_str; finish := inline_finish |}.
End inline.
Arguments ExtractedInlineTag : clear implicits.
Arguments InlineTagSpec : clear implicits.
Arguments ActiveTag : clear implicits.
Arguments InlineHiddenTagParser : clear implicits.

(** *** The kept suffix *)

Lemma longest_suffix_length s needle : longest_suffix_prefix_len s needle <= length s.
Proof.
  unfold longest_suffix_prefix_len. destruct (find _ _) as [k|] eqn:E; cbn; [|lia].
  apply find_some in E as [Hin _]. apply in_rev, in_seq in Hin. lia.
Qed.

(** No suffix that begins the needle, and is not all of it, is longer. *)
Lemma longest_suffix_spec s needle j r :
  needle = drop j s ++ r -> r <> [] -> length (drop j s) <= longest_suffix_prefix_len s needle.
Proof.
  intros Hn Hr. set (k := length (drop j s)). destruct (decide (k = 0)) as [->|Hk]; [lia|].
  unfold longest_suffix_prefix_len. set (p := fun k => ends_with s (take k needle)).
  assert (p k = true) as Hp.
  { unfold p. apply ends_with_true. exists (take j s). rewrite Hn. unfold k. rewrite take_app_length.
    by rewrite take_drop. }
  assert (k <= length s /\ k < length needle) as [Hks Hkn].
  { rewrite Hn, length_app. fold k. destruct r; [done|]. cbn. unfold k. rewrite length_drop. lia. }
  remember (Nat.min (length s) (length needle - 1)) as m eqn:Em.
  assert (k <= m) as Hkm by lia. clear Em Hks Hkn. clearbody k.
  induction m as [|m IH]; [lia|]. rewrite seq_S, rev_app_distr. cbn [rev app find].
  destruct (p (1 + m)) eqn:E; cbn; [lia|]. destruct (decide (k = S m)) as [->|]; [|apply IH; lia].
  change (1 + m) with (S m) in E. congruence.
Qed.

(** ** Specification: one scan of the whole text *)

Section scan.
Context {T : Type} (specs0 : list (InlineTagSpec T)).

Inductive scan : option (ActiveTag T) -> str -> StreamTextChunk (ExtractedInlineTag T) -> Prop :=
| scan_end text :
    find_next_open specs0 text = None -> scan None text (mkStreamChunk text [])
| scan_open text pos idx spec out :
    find_next_open specs0 text = Some (pos, idx) -> specs0 !! idx = Some spec ->
    scan (Some (mkActive (spec_tag spec) (spec_close spec) []))
      (drop (pos + length (spec_open spec)) text) out ->
    scan None text (chunk_app (mkStreamChunk (take pos text) []) out)
| scan_unclosed a text :
    str_find (act_close a) text = None ->
    scan (Some a) text (mkStreamChunk [] [mkExtracted (act_tag a) (act_content a ++ text)])
| scan_close a text i out :
    str_find (act_close a) text = Some i ->
    scan None (drop (i + length (act_close a)) text) out ->
    scan (Some a) text
      (chunk_app (mkStreamChunk [] [mkExtracted (act_tag a) (act_content a ++ take i text)]) out).

Lemma scan_det a text out out' : scan a text out -> scan a text out' -> out = out'.
Proof.
  intros H. revert out'. induction H as [text Hf|text pos idx spec out Hf Hs H IH|a text Hf|a text i out Hf H IH];
    intros out' H'; inversion H'; subst; simplify_eq; try done; f_equal; by apply IH.
Qed.

(** No opener lies inside another but at its end. *)
Definition compatible : Prop :=
  forall a b k, a ∈ specs0 -> b ∈ specs0 -> occurs (spec_open a) (spec_open b) k ->
    k + length (spec_open a) = length (spec_open b).

(** The same, by computation. *)
Definition compatible_bool : bool :=
  forallb (fun a => forallb (fun b => forallb (fun k =>
      negb (starts_with (drop k (spec_open b)) (spec_open a)) || (k + length (spec_open a) =? length (spec_open b))%nat)
    (seq 0 (S (length (spec_open b))))) specs0) specs0.

Hypothesis delimiters_not_empty :
  forall spec, spec ∈ specs0 -> spec_open spec <> [] /\ spec_close spec <> [].

Lemma compatible_true : compatible_bool = true -> compatible.
Proof.
  unfold compatible_bool. rewrite forallb_forall. intros H a b k Ha Hb Ho.
  pose proof (occurs_length _ (proj1 (delimiters_not_empty _ Ha)) _ _ Ho) as Hlen.
  apply list_elem_of_In in Ha, Hb. specialize (H a Ha). rewrite forallb_forall in H. specialize (H b Hb).
  rewrite forallb_forall in H. specialize (H k). rewrite in_seq in H. specialize (H ltac:(lia)).
  apply orb_true_iff in H as [H|H]; [|by apply Nat.eqb_eq].
  apply negb_true_iff, not_true_iff_false in H. destruct H. by apply starts_with_true.
Qed.

(** *** The candidates *)

Lemma candidate_refl a : candidate_leb a a = true.
Proof. destruct a as [[pos len] idx]. unfold candidate_leb. rewrite !Nat.eqb_refl, Nat.leb_refl, !orb_true_r. done. Qed.

Lemma candidate_spec a b :
  candidate_leb a b = true
  <-> a.1.1 < b.1.1 \/ a.1.1 = b.1.1 /\ (b.1.2 < a.1.2 \/ a.1.2 = b.1.2 /\ a.2 <= b.2).
Proof.
  destruct a as [[pa la] ia], b as [[pb lb] ib]. unfold candidate_leb. cbn [fst snd].
  repeat (rewrite ?orb_true_iff, ?andb_true_iff, ?Nat.ltb_lt, ?Nat.eqb_eq, ?Nat.leb_le). done.
Qed.

Lemma candidate_trans a b c : candidate_leb a b = true -> candidate_leb b c = true -> candidate_leb a c = true.
Proof. rewrite !candidate_spec. lia. Qed.

Lemma candidate_total a b : candidate_leb a b = false -> candidate_leb b a = true.
Proof. rewrite <- not_true_iff_false, !candidate_spec. lia. Qed.

Definition candidate (text : str) (idx : nat) (spec : InlineTagSpec T) (pos : nat) : Prop :=
  specs0 !! idx = Some spec /\ str_find (spec_open spec) text = Some pos.

(** The best candidate. *)
Lemma find_next_open_Some text pos idx :
  find_next_open specs0 text = Some (pos, idx)
  <-> exists spec, candidate text idx spec pos
      /\ forall idx' spec' pos', candidate text idx' spec' pos' ->
           candidate_leb (pos, length (spec_open spec), idx) (pos', length (spec_open spec'), idx') = true.
Proof.
  set (l := omap (fun '(idx, spec) => (fun pos => (pos, length (spec_open spec), idx)) <$> str_find (spec_open spec) text)
              (imap pair specs0)).
  assert (forall c, c ∈ l <-> exists idx spec pos, candidate text idx spec pos /\ c = (pos, length (spec_open spec), idx)) as Hl.
  { intros c. unfold l. rewrite list_elem_of_omap. split.
    - intros ([i spec] & Hin & Hc). apply elem_of_lookup_imap in Hin as (j & s & [= <- <-] & Hj).
      apply fmap_Some in Hc as (pos' & Hf & ->). by exists i, spec, pos'.
    - intros (i & spec & pos' & [Hi Hf] & ->). exists (i, spec). split; [by eapply elem_of_lookup_imap_2|]. by rewrite Hf. }
  unfold find_next_open. fold l. destruct (min_by candidate_leb l) as [[[p len] i]|] eqn:E; cbn.
  - apply min_by_Some in E as [Hin Hmin]; eauto using candidate_refl, candidate_trans, candidate_total.
    apply Hl in Hin as (i0 & spec & p0 & Hc & [= -> -> ->]). split.
    + intros [= <- <-]. exists spec. split; [done|]. intros i' spec' p' Hc'. apply Hmin, Hl. by exists i', spec', p'.
    + intros (spec' & Hc' & Hmin'). specialize (Hmin' _ _ _ Hc).
      assert (candidate_leb (p0, length (spec_open spec), i0) (pos, length (spec_open spec'), idx) = true) as Hle.
      { apply Hmin, Hl. by exists idx, spec', pos. }
      rewrite candidate_spec in Hmin', Hle. cbn in Hmin', Hle. f_equal. f_equal; lia.
  - split; [done|]. intros (spec & Hc & _). apply min_by_None in E; eauto using candidate_refl.
    assert ((pos, length (spec_open spec), idx) ∈ l) as Hbad by (apply Hl; by exists idx, spec, pos).
    rewrite E in Hbad. by apply elem_of_nil in Hbad.
Qed.

Lemma find_next_open_None text :
  find_next_open specs0 text = None <-> forall spec, spec ∈ specs0 -> str_find (spec_open spec) text = None.
Proof.
  unfold find_next_open. rewrite fmap_None, min_by_None. split.
  - intros Hl spec (i & Hi)%list_elem_of_lookup. destruct (str_find (spec_open spec) text) as [pos|] eqn:E; [|done].
    match type of Hl with ?l = [] => assert ((pos, length (spec_open spec), i) ∈ l) as Hbad end.
    { apply list_elem_of_omap. exists (i, spec). split; [by eapply elem_of_lookup_imap_2|]. by rewrite E. }
    rewrite Hl in Hbad. by apply elem_of_nil in Hbad.
  - intros H. match goal with |- ?l = [] => destruct l as [|c l'] eqn:E; [done|] end.
    assert (c ∈ c :: l') as Hin by left. rewrite <- E in Hin.
    apply list_elem_of_omap in Hin as ([i spec] & Hin & Hc). apply elem_of_lookup_imap in Hin as (j & s & [= <- <-] & Hj).
    rewrite H in Hc; [done|]. by eapply list_elem_of_lookup_2.
Qed.

(** *** A text that grows *)

(** Between compatible openers, what comes later cannot change the choice. *)
Lemma find_next_open_app text t pos idx :
  compatible -> find_next_open specs0 text = Some (pos, idx) ->
  find_next_open specs0 (text ++ t) = Some (pos, idx).
Proof.
  intros Hcomp. rewrite !find_next_open_Some. intros (spec & [Hi Hf] & Hmin).
  pose proof (list_elem_of_lookup_2 _ _ _ Hi) as Hin.
  destruct (delimiters_not_empty _ Hin) as [Hne _].
  exists spec. split; [split; [done|by apply str_find_app]|]. intros idx' spec' pos' [Hi' Hf'].
  pose proof (list_elem_of_lookup_2 _ _ _ Hi') as Hin'.
  destruct (delimiters_not_empty _ Hin') as [Hne' _].
  destruct (str_find (spec_open spec') text) as [p|] eqn:E.
  { apply (str_find_app _ Hne' _ t) in E as E'. simplify_eq. by apply Hmin. }
  apply (str_find_Some _ Hne) in Hf as [Ho _]. pose proof (occurs_length _ Hne _ _ Ho) as Hlen.
  apply (str_find_Some _ Hne') in Hf' as [Ho' _].
  destruct (decide (pos' + length (spec_open spec') <= length text)) as [Hle|Hgt].
  { apply (occurs_app _ _ _ _ Hle) in Ho'. rewrite (str_find_None _ Hne') in E. by destruct (E pos'). }
  apply candidate_spec. cbn. destruct (decide (pos < pos')) as [|Hge]; [by left|]. exfalso.
  assert (occurs (spec_open spec) (spec_open spec') (pos - pos')) as Hin2.
  { eapply (occurs_inside _ _ (text ++ t) pos pos'); [by apply occurs_app; [lia|]|done|lia|lia]. }
  apply Hcomp in Hin2; [lia|done|done].
Qed.

Lemma max_open_bound text spec :
  spec ∈ specs0 -> longest_suffix_prefix_len text (spec_open spec) <= max_open_prefix_suffix_len specs0 text.
Proof.
  unfold max_open_prefix_suffix_len. clear. induction specs0 as [|s l IH]; [by intros ?%elem_of_nil|].
  cbn. intros [->|Hin]%elem_of_cons; [lia|]. specialize (IH Hin). lia.
Qed.

Lemma max_open_length text : max_open_prefix_suffix_len specs0 text <= length text.
Proof.
  unfold max_open_prefix_suffix_len. clear. induction specs0 as [|s l IH]; [cbn; lia|]. cbn.
  pose proof (longest_suffix_length text (spec_open s)). lia.
Qed.

(** Nothing found: all but the kept suffix can go. *)
Lemma find_next_open_skip text t :
  find_next_open specs0 text = None ->
  let d := length text - max_open_prefix_suffix_len specs0 text in
  find_next_open specs0 (text ++ t) = (fun c => (d + c.1, c.2)) <$> find_next_open specs0 (drop d text ++ t).
Proof.
  intros Hnone d. rewrite find_next_open_None in Hnone. pose proof (max_open_length text) as Hlen.
  assert (forall spec, spec ∈ specs0 ->
    str_find (spec_open spec) (text ++ t) = (fun i => d + i) <$> str_find (spec_open spec) (drop d text ++ t)) as Hskip.
  { intros spec Hin. destruct (delimiters_not_empty _ Hin) as [Hne _]. unfold d.
    apply str_find_skip; [done|by apply Hnone|done|]. intros j r Hr Hne'.
    etrans; [|by apply max_open_bound]. by eapply longest_suffix_spec. }
  destruct (find_next_open specs0 (drop d text ++ t)) as [[pos idx]|] eqn:E; cbn.
  - apply find_next_open_Some in E as (spec & [Hi Hf] & Hmin). apply find_next_open_Some.
    exists spec. split; [split; [done|]|].
    { rewrite Hskip by (by eapply list_elem_of_lookup_2). by rewrite Hf. }
    intros idx' spec' pos' [Hi' Hf']. rewrite Hskip in Hf' by (by eapply list_elem_of_lookup_2).
    apply fmap_Some in Hf' as (p & Hf' & ->). specialize (Hmin _ _ _ (conj Hi' Hf')).
    rewrite candidate_spec in *. cbn in *. lia.
  - rewrite find_next_open_None in E |- *. intros spec Hin. by rewrite Hskip, E.
Qed.

(** *** One call of the parser *)

(** What a call leaves: nothing more to find in what is kept. *)
Definition quiet (self : InlineHiddenTagParser T) : Prop :=
  match active self with
  | Some a => act_close a <> [] /\ str_find (act_close a) (pending self) = None
  | None => find_next_open specs0 (pending self) = None
  end.

Definition close_not_empty (a : option (ActiveTag T)) : Prop :=
  match a with Some a => act_close a <> [] | None => True end.

Lemma scan_skip_open text t d rest :
  find_next_open specs0 text = None -> d = length text - max_open_prefix_suffix_len specs0 text ->
  scan None (drop d text ++ t) rest ->
  scan None (text ++ t) (chunk_app (mkStreamChunk (take d text) []) rest).
Proof.
  intros Hnone -> Hscan. pose proof (find_next_open_skip _ t Hnone) as Hskip. cbn in Hskip.
  set (d := length text - max_open_prefix_suffix_len specs0 text) in *.
  inversion Hscan as [? Hf|? pos idx spec out Hf Hs H| |]; subst; rewrite Hf in Hskip; cbn in Hskip.
  - unfold chunk_app. cbn. rewrite app_assoc, take_drop. by apply scan_end.
  - rewrite chunk_app_assoc. unfold chunk_app at 2. cbn.
    assert (take d text ++ take pos (drop d text ++ t) = take (d + pos) (text ++ t)) as ->.
    { rewrite <- (drop_app_le text t d) by lia. rewrite <- (take_take_drop (text ++ t)). f_equal.
      symmetry. apply take_app_le. lia. }
    eapply scan_open; [done|done|].
    rewrite <- (drop_app_le text t d) in H by lia. rewrite drop_drop in H.
    by replace (d + pos + length (spec_open spec)) with (d + (pos + length (spec_open spec))) by lia.
Qed.

Lemma scan_skip_close a text t d rest :
  act_close a <> [] -> str_find (act_close a) text = None ->
  d = length text - longest_suffix_prefix_len text (act_close a) ->
  scan (Some (mkActive (act_tag a) (act_close a) (act_content a ++ take d text))) (drop d text ++ t) rest ->
  scan (Some a) (text ++ t) rest.
Proof.
  intros Hne Hnone -> Hscan.
  pose proof (str_find_skip _ Hne text t _ Hnone (longest_suffix_length _ _)
                ltac:(intros j r; apply longest_suffix_spec)) as Hskip.
  set (d := length text - longest_suffix_prefix_len text (act_close a)) in *.
  inversion Hscan as [| |? ? Hf|? ? i out Hf H]; subst; cbn in Hf; rewrite Hf in Hskip; cbn in Hskip |- *.
  - rewrite <- app_assoc, (app_assoc (take d text)), take_drop. by apply scan_unclosed.
  - assert (take d text ++ take i (drop d text ++ t) = take (d + i) (text ++ t)) as E.
    { rewrite <- (drop_app_le text t d) by lia. rewrite <- (take_take_drop (text ++ t)). f_equal.
      symmetry. apply take_app_le. lia. }
    rewrite <- app_assoc, E. apply scan_close; [done|]. cbn in H.
    rewrite <- (drop_app_le text t d) in H by lia. rewrite drop_drop in H.
    by replace (d + i + length (act_close a)) with (d + (i + length (act_close a))) by lia.
Qed.

Lemma inline_loop_spec fuel self out :
  compatible -> specs self = specs0 -> close_not_empty (active self) -> length (pending self) < fuel ->
  exists self' new,
    inline_loop fuel self out = (self', chunk_app out new)
    /\ specs self' = specs0 /\ quiet self'
    /\ forall t rest, scan (active self') (pending self' ++ t) rest ->
         scan (active self) (pending self ++ t) (chunk_app new rest).
Proof.
  intros Hcomp. revert self out. induction fuel as [|fuel IH]; intros [sp text act] out; [cbn; lia|].
  cbn [specs pending active]. intros -> Hact Hfuel. destruct act as [a|]; cbn [inline_loop specs pending active].
  - cbn in Hact. destruct (str_find (act_close a) text) as [i|] eqn:E.
    + pose proof (occurs_length _ Hact _ _ (proj1 (proj1 (str_find_Some _ Hact _ _) E))) as Hi.
      destruct (IH (mkInline specs0 (drop (i + length (act_close a)) text) None)
                  (mkStreamChunk (visible_text out) (extracted out ++ [mkExtracted (act_tag a) (act_content a ++ take i text)])))
        as (self' & new & Hloop & Hsp & Hq & Hscan); [done|done| |].
      { cbn. rewrite length_drop. destruct (act_close a); [done|cbn in *; lia]. }
      eexists self', (chunk_app (mkStreamChunk [] [_]) new). split; [|split; [done|split; [done|]]].
      * rewrite Hloop. f_equal. rewrite chunk_app_assoc. f_equal. unfold chunk_app. cbn. by rewrite app_nil_r.
      * intros t rest Hr. specialize (Hscan t rest Hr). cbn in Hscan. rewrite <- chunk_app_assoc.
        rewrite <- (take_app_le text t i) by lia. apply scan_close; [by apply str_find_app|].
        by rewrite drop_app_le by lia.
    + eexists _, default_chunk. rewrite chunk_app_default_r. split; [done|]. split; [done|]. split.
      * split; [done|]. cbn. by apply str_find_drop.
      * intros t rest Hr. rewrite chunk_app_default_l. by eapply scan_skip_close.
  - destruct (find_next_open specs0 text) as [[pos idx]|] eqn:E.
    + pose proof (proj1 (find_next_open_Some _ _ _) E) as (spec & [Hs Hf] & _). rewrite Hs.
      pose proof (delimiters_not_empty _ (list_elem_of_lookup_2 _ _ _ Hs)) as [Hopen Hclose].
      pose proof (occurs_length _ Hopen _ _ (proj1 (proj1 (str_find_Some _ Hopen _ _) Hf))) as Hi.
      destruct (IH (mkInline specs0 (drop (pos + length (spec_open spec)) text)
                      (Some (mkActive (spec_tag spec) (spec_close spec) [])))
                  (mkStreamChunk (visible_text out ++ take pos text) (extracted out)))
        as (self' & new & Hloop & Hsp & Hq & Hscan); [done|done| |].
      { cbn. rewrite length_drop. destruct (spec_open spec); [done|cbn in *; lia]. }
      eexists self', (chunk_app (mkStreamChunk (take pos text) []) new). split; [|split; [done|split; [done|]]].
      * rewrite Hloop. f_equal. rewrite chunk_app_assoc. f_equal. unfold chunk_app. cbn. by rewrite app_nil_r.
      * intros t rest Hr. specialize (Hscan t rest Hr). cbn in Hscan. rewrite <- chunk_app_assoc.
        rewrite <- (take_app_le text t pos) by lia. eapply scan_open; [by apply find_next_open_app|done|].
        by rewrite drop_app_le by lia.
    + set (d := length text - max_open_prefix_suffix_len specs0 text).
      exists (mkInline specs0 (drop d text) None), (mkStreamChunk (take d text) []). split; [|split; [done|]].
      * f_equal. unfold chunk_app. cbn. by rewrite app_nil_r.
      * split; [|intros t rest Hr; by eapply scan_skip_open].
        unfold quiet. cbn. rewrite find_next_open_None in E |- *. intros spec Hin.
        apply str_find_drop; [by apply delimiters_not_empty|auto].
Qed.

Lemma push_pieces_scan self pieces :
  compatible -> specs self = specs0 -> quiet self ->
  exists self' new,
    push_pieces self pieces = (self', new) /\ specs self' = specs0 /\ quiet self'
    /\ forall t rest, scan (active self') (pending self' ++ t) rest ->
         scan (active self) (pending self ++ concat pieces ++ t) (chunk_app new rest).
Proof.
  intros Hcomp. revert self. induction pieces as [|piece pieces IH]; intros self Hsp Hq.
  - exists self, default_chunk. split; [done|]. split; [done|]. split; [done|]. intros t rest. by rewrite chunk_app_default_l.
  - cbn [push_pieces]. change (push_str self piece) with (inline_push_str self piece). unfold inline_push_str.
    destruct (inline_loop_spec (S (length (pending self ++ piece)))
                (mkInline (specs self) (pending self ++ piece) (active self)) default_chunk)
      as (self1 & new1 & -> & Hsp1 & Hq1 & Hscan1); [done|done| |cbn; lia|].
    { unfold quiet in Hq. cbn. destruct (active self); [apply Hq|done]. }
    destruct (IH self1 Hsp1 Hq1) as (self2 & new2 & -> & Hsp2 & Hq2 & Hscan2).
    eexists self2, _. split; [done|]. split; [done|]. split; [done|]. intros t rest Hr. cbn [concat].
    rewrite chunk_app_default_l, <- chunk_app_assoc, <- app_assoc, app_assoc. apply (Hscan1 (concat pieces ++ t)).
    by apply Hscan2.
Qed.

Lemma quiet_initial : quiet (mkInline specs0 [] None).
Proof.
  unfold quiet. cbn. apply find_next_open_None. intros spec Hin. apply str_find_None; [by apply delimiters_not_empty|].
  intros i [r Hr]. rewrite drop_nil in Hr. by destruct (spec_open spec) eqn:E; [apply delimiters_not_empty in Hin as []|].
Qed.

Lemma finish_scan self :
  specs self = specs0 -> quiet self ->
  exists out, inline_finish self = (mkInline specs0 [] None, out) /\ scan (active self) (pending self) out.
Proof.
  unfold quiet, inline_finish. intros ->. destruct (active self) as [a|]; [intros [_ H]|intros H]; eexists; (split; [done|]).
  - by apply scan_unclosed.
  - by apply scan_end.
Qed.
End scan.

Lemma new_inline_Some {T} (specs : list (InlineTagSpec T)) parser :
  new_inline specs = Some parser ->
  parser = mkInline specs [] None
  /\ forall spec, spec ∈ specs -> spec_open spec <> [] /\ spec_close spec <> [].
Proof.
  unfold new_inline. destruct (is_empty specs); [done|]. destruct (existsb _ specs) eqn:E; [done|]. intros [= <-].
  split; [done|]. intros spec Hin. apply not_true_iff_false in E.
  split; intros Hs; apply E, existsb_exists; exists spec; (split; [by apply list_elem_of_In|]); rewrite Hs; [done|apply orb_true_r].
Qed.

Lemma inline_run_scan {T} (specs : list (InlineTagSpec T)) parser pieces :
  new_inline specs = Some parser -> compatible specs ->
  exists out, run_stream parser pieces = (parser, out) /\ scan specs None (concat pieces) out.
Proof.
  intros [-> Hne]%new_inline_Some Hcomp.
  destruct (push_pieces_scan _ Hne (mkInline specs [] None) pieces Hcomp eq_refl (quiet_initial _ Hne))
    as (self & new & Hpush & Hsp & Hq & Hscan).
  destruct (finish_scan _ self Hsp Hq) as (tail & Hfin & Htail).
  exists (chunk_app new tail). unfold run_stream. rewrite Hpush. change (finish self) with (inline_finish self).
  rewrite Hfin. split; [done|]. rewrite <- (app_nil_r (concat pieces)). apply (Hscan []). by rewrite app_nil_r.
Qed.

(** A text fed to the parser of hidden tags in any pieces gives, in all,
    what one scan of the whole text gives (the specification is a function of
    the text): the earliest opener starts a tag, the first closer after it
    ends it, an unclosed tag ends with the text. The parser is left as it was
    made. The openers have to be compatible: none inside another, but as its
    end. *)
Theorem inline_stream_spec {T} (specs : list (InlineTagSpec T)) parser pieces :
  new_inline specs = Some parser -> compatible specs ->
  (run_stream parser pieces).1 = parser
  /\ forall out, scan specs None (concat pieces) out <-> out = (run_stream parser pieces).2.
Proof.
  intros Hnew Hcomp. destruct (inline_run_scan _ _ pieces Hnew Hcomp) as (all & -> & Hall). cbn.
  split; [done|]. intros out. split; [|by intros ->]. intros Hout. by eapply scan_det.
Qed.

(** Two tags, cut in the middle of an opener and of a closer. *)
Definition sample_specs : list (InlineTagSpec bool) :=
  [mkInlineSpec true (lit "<a>") (lit "</a>"); mkInlineSpec false (lit "<b>") (lit "</b>")].

Lemma inline_stream_spec_witness :
  exists parser, new_inline sample_specs = Some parser
  /\ (run_stream parser [lit "1<a>x</"; lit "a>2<"; lit "b>y"]).2
     = mkStreamChunk (lit "12") [mkExtracted true (lit "x"); mkExtracted false (lit "y")]
  /\ scan sample_specs None (lit "1<a>x</a>2<b>y")
       (mkStreamChunk (lit "12") [mkExtracted true (lit "x"); mkExtracted false (lit "y")]).
Proof.
  eexists. split; [reflexivity|]. split; [vm_compute; reflexivity|].
  apply (inline_stream_spec sample_specs _ [lit "1<a>x</"; lit "a>2<"; lit "b>y"] eq_refl); [|vm_compute; reflexivity].
  apply compatible_true; [|vm_compute; reflexivity].
  by apply (new_inline_Some sample_specs _ eq_refl).
Defined.

(** With openers that are not compatible, the cuts of the text decide: a whole
    [<a>] is seen before the longer [<a>b] can be. *)
Example incompatible_openers :
  let parser := mkInline [mkInlineSpec true (lit "<a>") (lit "|"); mkInlineSpec false (lit "<a>b") (lit "|")] [] None in
  (run_stream parser [lit "<a>b|"]).2 = mkStreamChunk [] [mkExtracted false []]
  /\ (run_stream parser [lit "<a>"; lit "b|"]).2 = mkStreamChunk [] [mkExtracted true (lit "b")].
Proof. vm_compute. done. Qed.

(** ** Citations *)

Inductive CitationTag : Type := Citation.

Definition CITATION_OPEN : str := lit "<oai-mem-citation>".
Definition CITATION_CLOSE : str := lit "</oai-mem-citation>".

Record CitationStreamParser : Type := mkCitationParser { inner_parser : InlineHiddenTagParser CitationTag }.

Definition new_citation : option CitationStreamParser :=
  mkCitationParser <$> new_inline [mkInlineSpec Citation CITATION_OPEN CITATION_CLOSE].

(** The text and the contents, without the tag. *)
Definition citation_chunk (inner : StreamTextChunk (ExtractedInlineTag CitationTag)) : StreamTextChunk str :=
  mkStreamChunk (visible_text inner) (map ex_content (extracted inner)).

Definition citation_push_str (self : CitationStreamParser) (chunk : str) : CitationStreamParser * StreamTextChunk str :=
  let '(inner, out) := push_str (inner_parser self) chunk in (mkCitationParser inner, citation_chunk out).

Definition citation_finish (self : CitationStreamParser) : CitationStreamParser * StreamTextChunk str :=
  let '(inner, out) := finish (inner_parser self) in (mkCitationParser inner, citation_chunk out).

#[global] Instance citation_stream_parser : StreamTextParser CitationStreamParser str :=
  {| push_str := citation_push_str; finish := citation_finish |}.

Definition strip_citations (text : str) : option (str * list str) :=
  parser ← new_citation;
  let '(parser, out) := push_str parser text in
  let '(_, tail) := finish parser in
  Some (visible_text out ++ visible_text tail, extracted out ++ extracted tail).

Notation citation_specs := [mkInlineSpec Citation CITATION_OPEN CITATION_CLOSE].

Lemma citation_compatible : compatible citation_specs.
Proof.
  intros a b k ->%list_elem_of_singleton ->%list_elem_of_singleton Ho. cbn [spec_open] in *.
  apply occurs_length in Ho; [|done]. lia.
Qed.

Lemma citation_chunk_app a b : citation_chunk (chunk_app a b) = chunk_app (citation_chunk a) (citation_chunk b).
Proof. unfold citation_chunk, chunk_app. cbn. by rewrite map_app. Qed.

Lemma citation_push_pieces self pieces :
  push_pieces (mkCitationParser self) pieces
  = (mkCitationParser (push_pieces self pieces).1, citation_chunk (push_pieces self pieces).2).
Proof.
  revert self. induction pieces as [|p pieces IH]; intros self; [done|]. cbn [push_pieces].
  change (push_str (mkCitationParser self) p) with (citation_push_str (mkCitationParser self) p).
  unfold citation_push_str. cbn [inner_parser]. destruct (push_str self p) as [self1 out]. rewrite IH.
  destruct (push_pieces self1 pieces) as [self2 rest]. cbn [fst snd]. by rewrite citation_chunk_app.
Qed.

Lemma citation_run_stream self pieces :
  run_stream (mkCitationParser self) pieces
  = (mkCitationParser (run_stream self pieces).1, citation_chunk (run_stream self pieces).2).
Proof.
  unfold run_stream. rewrite citation_push_pieces. destruct (push_pieces self pieces) as [self1 out]. cbn [fst snd].
  change (finish (mkCitationParser self1)) with (citation_finish (mkCitationParser self1)).
  unfold citation_finish. cbn [inner_parser]. destruct (finish self1) as [self2 tail]. cbn [fst snd].
  by rewrite citation_chunk_app.
Qed.

(** What the text shows and what it hides, as a scan. *)
Inductive citation_scan : str -> str * list str -> Prop :=
| cite_end text : str_find CITATION_OPEN text = None -> citation_scan text (text, [])
| cite_unclosed text i :
    str_find CITATION_OPEN text = Some i ->
    str_find CITATION_CLOSE (drop (i + length CITATION_OPEN) text) = None ->
    citation_scan text (take i text, [drop (i + length CITATION_OPEN) text])
| cite_closed text i j visible citations :
    str_find CITATION_OPEN text = Some i ->
    str_find CITATION_CLOSE (drop (i + length CITATION_OPEN) text) = Some j ->
    citation_scan (drop (j + length CITATION_CLOSE) (drop (i + length CITATION_OPEN) text)) (visible, citations) ->
    citation_scan text (take i text ++ visible, take j (drop (i + length CITATION_OPEN) text) :: citations).

Lemma citation_scan_det text out out' : citation_scan text out -> citation_scan text out' -> out = out'.
Proof.
  intros H. revert out'. induction H; intros out' H'; inversion H'; subst; simplify_eq; try done.
  match goal with H : citation_scan _ (_, _) |- _ => apply IHcitation_scan in H end. by simplify_eq.
Qed.

Lemma find_citation text :
  find_next_open citation_specs text = (fun i => (i, 0)) <$> str_find CITATION_OPEN text.
Proof.
  unfold find_next_open. cbn [imap omap list_omap spec_open]. by destruct (str_find CITATION_OPEN text).
Qed.

Lemma scan_citation text a out :
  scan citation_specs a text out ->
  match a with
  | None => citation_scan text (visible_text out, map ex_content (extracted out))
  | Some a =>
      act_close a = CITATION_CLOSE ->
      match str_find CITATION_CLOSE text with
      | None => out = mkStreamChunk [] [mkExtracted (act_tag a) (act_content a ++ text)]
      | Some j => exists rest,
          citation_scan (drop (j + length CITATION_CLOSE) text) (visible_text rest, map ex_content (extracted rest))
          /\ out = chunk_app (mkStreamChunk [] [mkExtracted (act_tag a) (act_content a ++ take j text)]) rest
      end
  end.
Proof.
  induction 1 as [text Hf|text pos idx spec out Hf Hs H IH|a text Hf|a text i out Hf H IH].
  - rewrite find_citation in Hf. apply cite_end. by apply fmap_None in Hf.
  - rewrite find_citation in Hf. apply fmap_Some in Hf as (i & Hi & [= -> ->]). injection Hs as <-.
    specialize (IH eq_refl). cbn [act_tag act_content spec_open spec_close] in IH.
    destruct (str_find CITATION_CLOSE _) as [j|] eqn:E.
    + destruct IH as (rest & Hrest & ->). cbn. by apply cite_closed.
    + rewrite IH. cbn. rewrite app_nil_r. by apply cite_unclosed.
  - intros Hc. by rewrite <- Hc, Hf.
  - intros Hc. rewrite <- Hc, Hf. exists out. split; [done|]. done.
Qed.

(** The parser of citations, fed a text in any pieces, gives in all what
    [strip_citations] gives of the whole text, and that is what one scan of
    the text gives: what lies outside the tags is shown, what lies inside is
    extracted, and an unclosed citation ends with the text. *)
Lemma citation_stream_spec pieces :
  exists parser out,
    new_citation = Some parser
    /\ run_stream parser pieces = (parser, out)
    /\ strip_citations (concat pieces) = Some (visible_text out, extracted out)
    /\ forall r, citation_scan (concat pieces) r <-> r = (visible_text out, extracted out).
Proof.
  destruct (new_inline citation_specs) as [inner|] eqn:Hnew; [|done].
  destruct (inline_run_scan _ _ pieces Hnew citation_compatible) as (all & Hrun & Hall).
  destruct (inline_run_scan _ _ [concat pieces] Hnew citation_compatible) as (all' & Hrun' & Hall').
  cbn [concat] in Hall'. rewrite app_nil_r in Hall'. assert (all' = all) as -> by (by eapply scan_det).
  exists (mkCitationParser inner), (citation_chunk all). unfold new_citation. rewrite Hnew.
  split; [done|]. split; [by rewrite citation_run_stream, Hrun|]. split.
  - pose proof (citation_run_stream inner [concat pieces]) as E. rewrite Hrun' in E.
    unfold strip_citations, new_citation. rewrite Hnew. cbn [fmap option_fmap option_map mbind option_bind].
    unfold run_stream in E. cbn [push_pieces] in E.
    destruct (push_str (mkCitationParser inner) _) as [p1 out1]. rewrite chunk_app_default_r in E.
    destruct (finish p1) as [p2 tail]. injection E as _ E1 E2. cbn. by rewrite E1, E2.
  - apply scan_citation in Hall. intros r. split; [|by intros ->]. intros Hr. by eapply citation_scan_det.
Qed.
