(* ===== verification/TaggedLines.v ===== *)
(** * TaggedLines: streamed text with tags on lines of their own

    [utils/stream-parser/src/{tagged_line_parser,proposed_plan,assistant_text}.rs].
    The parser decides within a line; the specification reads whole lines.
    Segments are compared up to how text is cut ([≈]). *)

From S2P Require Import Prelude Trim StreamText.
Local Open Scope str_scope.

Section tagged.
Context {T : Type} `{EqDecision T}.

Record TagSpec : Type := mkTagSpec { tag_open : str; tag_close : str; tag : T }.

Inductive TaggedLineSegment : Type :=
| Normal (text : str)
| TagStart (t : T)
| TagDelta (t : T) (text : str)
| TagEnd (t : T).

Record TaggedLineParser : Type := mkTagged {
  tag_specs : list TagSpec;
  active_tag : option T;
  detect_tag : bool;
  line_buffer : str;
}.

Definition new_tagged (specs : list TagSpec) : TaggedLineParser := mkTagged specs None true [].

(** Joined to the last segment, when that is of the same kind. *)
Definition push_segment (segments : list TaggedLineSegment) (segment : TaggedLineSegment) : list TaggedLineSegment :=
  match segment with
  | Normal delta =>
      if is_empty delta then segments
      else match last segments with
           | Some (Normal existing) => removelast segments ++ [Normal (existing ++ delta)]
           | _ => segments ++ [Normal delta]
           end
  | TagDelta t delta =>
      if is_empty delta then segments
      else match last segments with
           | Some (TagDelta existing_tag existing) =>
               if decide (existing_tag = t) then removelast segments ++ [TagDelta t (existing ++ delta)]
               else segments ++ [TagDelta t delta]
           | _ => segments ++ [TagDelta t delta]
           end
  | TagStart t => segments ++ [TagStart t]
  | TagEnd t => segments ++ [TagEnd t]
  end.

Definition text_segment (active : option T) (text : str) : TaggedLineSegment :=
  match active with Some t => TagDelta t text | None => Normal text end.

Definition push_text (self : TaggedLineParser) (text : str) (segments : list TaggedLineSegment) : list TaggedLineSegment :=
  push_segment segments (text_segment (active_tag self) text).

Definition is_tag_prefix (self : TaggedLineParser) (slug : str) : bool :=
  let slug := trim_end slug in
  existsb (fun spec => starts_with (tag_open spec) slug || starts_with (tag_close spec) slug) (tag_specs self).

Definition match_open (specs : list TagSpec) (slug : str) : option T :=
  tag <$> find (fun spec => tag_open spec =? slug) specs.

Definition match_close (specs : list TagSpec) (slug : str) : option T :=
  tag <$> find (fun spec => tag_close spec =? slug) specs.

(** The text of a line, without its line break and what surrounds it. *)
Definition line_slug (line : str) : str :=
  trim_end (trim_start (default line (strip_suffix [NL] line))).

Definition finish_line (self : TaggedLineParser) (segments : list TaggedLineSegment)
  : TaggedLineParser * list TaggedLineSegment :=
  let line := line_buffer self in
  let slug := line_slug line in
  let text := (mkTagged (tag_specs self) (active_tag self) true [], push_text self line segments) in
  match match_open (tag_specs self) slug, active_tag self with
  | Some t, None => (mkTagged (tag_specs self) (Some t) true [], push_segment segments (TagStart t))
  | _, _ =>
      match match_close (tag_specs self) slug with
      | Some t =>
          if decide (active_tag self = Some t)
          then (mkTagged (tag_specs self) None true [], push_segment segments (TagEnd t))
          else text
      | None => text
      end
  end.

(** The loop over the characters, with the run of text that is not pushed yet. *)
Fixpoint parse_chars (self : TaggedLineParser) (run : str) (segments : list TaggedLineSegment) (delta : str)
  : TaggedLineParser * list TaggedLineSegment :=
  match delta with
  | [] => (self, if is_empty run then segments else push_text self run segments)
  | ch :: delta =>
      if detect_tag self then
        let segments := if is_empty run then segments else push_text self run segments in
        let buffered := line_buffer self ++ [ch] in
        let self := mkTagged (tag_specs self) (active_tag self) true buffered in
        if (ch =? NL)%N then
          let '(self, segments) := finish_line self segments in
          parse_chars self [] segments delta
        else if is_empty (trim_start buffered) || is_tag_prefix self (trim_start buffered)
        then parse_chars self [] segments delta
        else
          let self := mkTagged (tag_specs self) (active_tag self) false [] in
          parse_chars self [] (push_text self buffered segments) delta
      else if (ch =? NL)%N then
        parse_chars (mkTagged (tag_specs self) (active_tag self) true (line_buffer self)) []
          (push_text self (run ++ [ch]) segments) delta
      else parse_chars self (run ++ [ch]) segments delta
  end.

Definition parse (self : TaggedLineParser) (delta : str) : TaggedLineParser * list TaggedLineSegment :=
  parse_chars self [] [] delta.

Definition finish_tagged (self : TaggedLineParser) : TaggedLineParser * list TaggedLineSegment :=
  let '(active, segments) :=
    if is_empty (line_buffer self) then (active_tag self, [])
    else
      let buffered := line_buffer self in
      let slug := line_slug buffered in
      match match_open (tag_specs self) slug, active_tag self with
      | Some t, None => (Some t, push_segment [] (TagStart t))
      | _, _ =>
          match match_close (tag_specs self) slug with
          | Some t =>
              if decide (active_tag self = Some t) then (None, push_segment [] (TagEnd t))
              else (active_tag self, push_text self buffered [])
          | None => (active_tag self, push_text self buffered [])
          end
      end in
  (mkTagged (tag_specs self) None true [],
   match active with Some t => push_segment segments (TagEnd t) | None => segments end).

(** All pieces, then the end; the segments as they come. *)
Fixpoint parse_pieces (self : TaggedLineParser) (pieces : list str) : TaggedLineParser * list TaggedLineSegment :=
  match pieces with
  | [] => finish_tagged self
  | piece :: pieces =>
      let '(self, segments) := parse self piece in
      let '(self, rest) := parse_pieces self pieces in
      (self, segments ++ rest)
  end.

(** ** Segments up to their cuts *)

Definition merge (segments : list TaggedLineSegment) : list TaggedLineSegment := foldl push_segment [] segments.

#[global] Instance segments_equiv : Equiv (list TaggedLineSegment) :=
  fun a b => forall acc, foldl push_segment acc a = foldl push_segment acc b.

#[global] Instance segments_equivalence : Equivalence (equiv (A := list TaggedLineSegment)).
Proof. split; [by intros a acc|by intros a b H acc|intros a b c H1 H2 acc; by rewrite H1]. Qed.

#[global] Instance segments_app_proper :
  Proper (equiv ==> equiv ==> equiv) (app (A := TaggedLineSegment)).
Proof. intros a a' Ha b b' Hb acc. rewrite !foldl_app. by rewrite Ha, Hb. Qed.

#[global] Instance segments_cons_proper s : Proper (equiv ==> equiv) (cons (A := TaggedLineSegment) s).
Proof. intros a a' Ha acc. apply Ha. Qed.

#[global] Instance merge_proper : Proper (equiv ==> eq) merge.
Proof. intros a b H. apply H. Qed.

Lemma push_empty x k : push_segment x (text_segment k []) = x.
Proof. by destruct k. Qed.

Lemma push_text_snoc y k d e : push_segment (y ++ [text_segment k d]) (text_segment k e) = y ++ [text_segment k (d ++ e)].
Proof.
  destruct (decide (e = [])) as [->|He]; [by rewrite push_empty, app_nil_r|].
  destruct k as [t|]; cbn [push_segment text_segment]; rewrite last_snoc, ?decide_True by done;
    rewrite removelast_last; by destruct e.
Qed.

Lemma push_text_other y k d :
  d <> [] -> (forall z f, y <> z ++ [text_segment k f]) ->
  push_segment y (text_segment k d) = y ++ [text_segment k d].
Proof.
  intros Hd Hy. destruct d as [|c d]; [done|].
  destruct y as [|s y _] using rev_ind; [by destruct k|].
  destruct k as [t|]; cbn [push_segment text_segment is_empty]; rewrite last_snoc; destruct s as [f|t'|t' f|t']; try done.
  - destruct (decide (t' = t)) as [->|]; [|done]. by destruct (Hy y f).
  - by destruct (Hy y f).
Qed.

Lemma last_text_dec y k :
  (exists z f, y = z ++ [text_segment k f]) \/ forall z f, y <> z ++ [text_segment k f].
Proof.
  destruct y as [|s y _] using rev_ind; [by right; intros [] ?|].
  destruct k as [t|], s as [f|t'|t' f|t']; cbn [text_segment];
    try (right; intros z g [_ [=]]%app_inj_tail; done); eauto.
  destruct (decide (t' = t)) as [->|Hne]; [by left; eauto|]. right. intros z g [_ [=]]%app_inj_tail. done.
Qed.

(** Two pieces of text are pushed like one. *)
Lemma push_text_app x k d e :
  push_segment (push_segment x (text_segment k d)) (text_segment k e) = push_segment x (text_segment k (d ++ e)).
Proof.
  destruct (decide (d = [])) as [->|Hd]; [by rewrite push_empty|].
  destruct (last_text_dec x k) as [(z & f & ->)|Hx]; [by rewrite !push_text_snoc, app_assoc|].
  rewrite (push_text_other x k d), push_text_snoc, push_text_other by (try done; by destruct d). done.
Qed.

Lemma push_segment_equiv a s : push_segment a s ≡ a ++ [s].
Proof.
  intros acc. rewrite foldl_app. cbn [foldl].
  assert (forall k d, foldl push_segment acc (push_segment a (text_segment k d))
     = push_segment (foldl push_segment acc a) (text_segment k d)) as Htext.
  { intros k d. destruct (decide (d = [])) as [->|Hd]; [by rewrite !push_empty|].
    destruct (last_text_dec a k) as [(z & f & ->)|Ha].
    - rewrite push_text_snoc, !foldl_app. cbn [foldl]. by rewrite push_text_app.
    - by rewrite push_text_other, foldl_app. }
  destruct s as [d|t|t d|t]; [exact (Htext None d)| |exact (Htext (Some t) d)|];
    cbn [push_segment]; by rewrite foldl_app.
Qed.

Lemma text_app_equiv k d e : [text_segment k d; text_segment k e] ≡ [text_segment k (d ++ e)].
Proof. intros acc. apply push_text_app. Qed.

Lemma text_cons_equiv k d e l : text_segment k d :: text_segment k e :: l ≡ text_segment k (d ++ e) :: l.
Proof. exact (segments_app_proper _ _ (text_app_equiv k d e) l l (reflexivity l)). Qed.

Lemma text_nil_equiv k l : text_segment k [] :: l ≡ l.
Proof. intros acc. cbn. by rewrite push_empty. Qed.

Lemma merge_equiv l : merge l ≡ l.
Proof.
  unfold merge. induction l as [|s l IH] using rev_ind; [done|].
  rewrite foldl_app. cbn [foldl]. by rewrite push_segment_equiv, IH.
Qed.

(** The merged segments stand for all that differ in the cuts only. *)
Lemma equiv_merge a b : a ≡ b <-> merge a = merge b.
Proof. split; [by intros ->|]. intros H. by rewrite <- (merge_equiv a), H, merge_equiv. Qed.

(** A reading of the segments that does not see the cuts. *)
Section cuts.
Context {A : Type} (f : A -> TaggedLineSegment -> A).
Hypothesis f_nil : forall x k, f x (text_segment k []) = x.
Hypothesis f_app : forall x k d e, f (f x (text_segment k d)) (text_segment k e) = f x (text_segment k (d ++ e)).

Lemma fold_push_segment x l s : foldl f x (push_segment l s) = f (foldl f x l) s.
Proof.
  assert (forall k d, foldl f x (push_segment l (text_segment k d)) = f (foldl f x l) (text_segment k d)) as Htext.
  { intros k d. destruct (decide (d = [])) as [->|Hd]; [by rewrite push_empty, f_nil|].
    destruct (last_text_dec l k) as [(z & e & ->)|Hl].
    - rewrite push_text_snoc, !foldl_app. cbn. by rewrite f_app.
    - by rewrite push_text_other, foldl_app. }
  destruct s as [d|t|t d|t]; [exact (Htext None d)| |exact (Htext (Some t) d)|]; cbn [push_segment]; by rewrite foldl_app.
Qed.

Lemma fold_merge x l : foldl f x (merge l) = foldl f x l.
Proof.
  unfold merge. induction l as [|s l IH] using rev_ind; [done|]. rewrite !foldl_app. cbn [foldl]. by rewrite fold_push_segment, IH.
Qed.

Lemma fold_equiv x a b : a ≡ b -> foldl f x a = foldl f x b.
Proof. intros H%equiv_merge. by rewrite <- (fold_merge x a), H, fold_merge. Qed.
End cuts.

(** ** Specification: whole lines *)

(** [split_inclusive('\n')]. *)
Fixpoint split_inclusive (s : str) : list str :=
  match s with
  | [] => []
  | c :: s =>
      if (c =? NL)%N then [c] :: split_inclusive s
      else match split_inclusive s with
           | [] => [[c]]
           | l :: ls => (c :: l) :: ls
           end
  end.

(** A line is an opener outside a block, the closer of the block it is in, or
    text. *)
Definition line_segment (specs : list TagSpec) (active : option T) (line : str) : TaggedLineSegment * option T :=
  match active with
  | None =>
      match match_open specs (line_slug line) with
      | Some t => (TagStart t, Some t)
      | None => (Normal line, None)
      end
  | Some t =>
      if decide (match_close specs (line_slug line) = Some t) then (TagEnd t, None)
      else (TagDelta t line, Some t)
  end.

Definition end_segments (active : option T) : list TaggedLineSegment :=
  match active with Some t => [TagEnd t] | None => [] end.

Fixpoint lines_segments (specs : list TagSpec) (active : option T) (lines : list str) : list TaggedLineSegment :=
  match lines with
  | [] => end_segments active
  | line :: lines =>
      let '(s, active) := line_segment specs active line in
      s :: lines_segments specs active lines
  end.

Definition tagged_segments (specs : list TagSpec) (text : str) : list TaggedLineSegment :=
  lines_segments specs None (split_inclusive text).

Lemma split_inclusive_app l t :
  NL ∉ l ->
  split_inclusive (l ++ t) = match split_inclusive t with
                             | [] => if is_empty l then [] else [l]
                             | m :: ms => (l ++ m) :: ms
                             end.
Proof.
  induction l as [|c l IH]; cbn [app split_inclusive]; [by destruct (split_inclusive t)|].
  intros [Hc Hl]%not_elem_of_cons. rewrite IH by done. rewrite (proj2 (N.eqb_neq c NL)) by auto.
  destruct (split_inclusive t); [|done]. by destruct l.
Qed.

(** The rest of a line whose start is known to be text. *)
Definition text_rest (specs : list TagSpec) (active : option T) (t : str) : list TaggedLineSegment :=
  match split_inclusive t with
  | [] => end_segments active
  | l :: ls => text_segment active l :: lines_segments specs active ls
  end.

(** What the parser has still to give when [t] comes. *)
Definition still (self : TaggedLineParser) (t : str) : list TaggedLineSegment :=
  if detect_tag self then lines_segments (tag_specs self) (active_tag self) (split_inclusive (line_buffer self ++ t))
  else text_rest (tag_specs self) (active_tag self) t.

Definition wf_tagged (self : TaggedLineParser) : Prop :=
  NL ∉ line_buffer self /\ (detect_tag self = false -> line_buffer self = []).

(** *** A line that is decided to be text *)

Lemma line_slug_trim l : line_slug l = trim_end (trim_start l).
Proof.
  unfold line_slug. destruct (strip_suffix [NL] l) as [m|] eqn:E; [|done]. apply strip_suffix_Some in E as ->.
  change (default _ (Some m)) with m. destruct (decide (trim_start m = [])) as [Hm|Hm].
  - assert (trim_start (m ++ [NL]) = []) as ->; [|by rewrite Hm].
    apply trim_start_nil. apply trim_start_nil in Hm. apply Forall_app. by repeat constructor.
  - by rewrite trim_start_app, trim_end_app_white.
Qed.

Lemma decided_line self buf q :
  trim_start buf <> [] -> is_tag_prefix self (trim_start buf) = false ->
  line_segment (tag_specs self) (active_tag self) (buf ++ q)
  = (text_segment (active_tag self) (buf ++ q), active_tag self).
Proof.
  intros Hb Hp. unfold is_tag_prefix in Hp. apply not_true_iff_false in Hp. rewrite existsb_exists in Hp.
  assert (forall t, ~ (starts_with t (trim_end (trim_start buf)) = false /\ t = line_slug (buf ++ q))) as Hslug.
  { intros t [Hf ->]. apply not_true_iff_false in Hf. apply Hf, starts_with_true.
    rewrite line_slug_trim, trim_start_app by done. apply trim_end_prefix. }
  assert (match_open (tag_specs self) (line_slug (buf ++ q)) = None) as Hopen.
  { unfold match_open. apply fmap_None. apply eq_None_not_Some. intros [spec [Hin Hs]%find_some].
    apply bool_decide_eq_true in Hs. apply (Hslug (tag_open spec)). split; [|done].
    apply not_true_iff_false. intros Hw. apply Hp. exists spec. by rewrite Hw. }
  assert (match_close (tag_specs self) (line_slug (buf ++ q)) = None) as Hclose.
  { unfold match_close. apply fmap_None. apply eq_None_not_Some. intros [spec [Hin Hs]%find_some].
    apply bool_decide_eq_true in Hs. apply (Hslug (tag_close spec)). split; [|done].
    apply not_true_iff_false. intros Hw. apply Hp. exists spec. by rewrite Hw, orb_true_r. }
  unfold line_segment. destruct (active_tag self); by rewrite ?Hopen, ?Hclose.
Qed.

(** So the text can be given, and what follows it on the line too. *)
Lemma decided_still self t :
  NL ∉ line_buffer self -> trim_start (line_buffer self) <> [] ->
  is_tag_prefix self (trim_start (line_buffer self)) = false ->
  lines_segments (tag_specs self) (active_tag self) (split_inclusive (line_buffer self ++ t))
  ≡ text_segment (active_tag self) (line_buffer self) :: text_rest (tag_specs self) (active_tag self) t.
Proof.
  intros Hnl Hb Hp. rewrite split_inclusive_app by done. unfold text_rest.
  destruct (split_inclusive t) as [|l ls].
  - destruct (is_empty (line_buffer self)) eqn:E; [by destruct (line_buffer self)|].
    cbn [lines_segments]. rewrite <- (app_nil_r (line_buffer self)) at 1. rewrite decided_line by done.
    by rewrite app_nil_r.
  - cbn [lines_segments]. rewrite decided_line by done. symmetry. apply text_cons_equiv.
Qed.

(** The two places where a line is decided agree with the specification. *)
Lemma finish_line_spec self segments :
  finish_line self segments
  = let '(s, active) := line_segment (tag_specs self) (active_tag self) (line_buffer self) in
    (mkTagged (tag_specs self) active true [], push_segment segments s).
Proof.
  unfold finish_line, line_segment, push_text. destruct (active_tag self) as [a|].
  - destruct (match_open _ _) as [t0|], (match_close _ _) as [t|]; repeat case_decide; simplify_eq; done.
  - destruct (match_open _ _); [done|]. destruct (match_close _ _); repeat case_decide; simplify_eq; done.
Qed.

Lemma finish_tagged_spec self :
  NL ∉ line_buffer self ->
  (finish_tagged self).1 = mkTagged (tag_specs self) None true []
  /\ (finish_tagged self).2 ≡ lines_segments (tag_specs self) (active_tag self) (split_inclusive (line_buffer self)).
Proof.
  intros Hnl. unfold finish_tagged, push_text.
  match goal with |- context [let '(_, _) := ?r in _] =>
    assert (r.2 ++ end_segments r.1 ≡ lines_segments (tag_specs self) (active_tag self) (split_inclusive (line_buffer self))) as Hr;
    [|destruct r as [active l]; cbn [fst snd] in *; split; [done|]; rewrite <- Hr]
  end.
  - pose proof (split_inclusive_app _ [] Hnl) as Hsplit. rewrite app_nil_r in Hsplit. rewrite Hsplit. cbn [split_inclusive].
    destruct (is_empty (line_buffer self)) eqn:E; [done|]. cbn [lines_segments]. unfold line_segment.
    destruct (active_tag self) as [a|].
    + destruct (match_open _ _) as [t0|], (match_close _ _) as [t|]; repeat case_decide; simplify_eq; cbn [fst snd];
        by rewrite push_segment_equiv.
    + destruct (match_open _ _); [done|]. destruct (match_close _ _); repeat case_decide; simplify_eq; cbn [fst snd];
        by rewrite push_segment_equiv.
  - destruct active as [t|]; [apply push_segment_equiv|]. cbn. by rewrite app_nil_r.
Qed.

(** *** The loop *)

Lemma still_active self t : detect_tag self = false -> still self t = text_rest (tag_specs self) (active_tag self) t.
Proof. unfold still. by intros ->. Qed.

Lemma text_rest_cons specs k c t :
  text_rest specs k (c :: t) ≡ text_segment k [c] ::
    (if (c =? NL)%N then lines_segments specs k (split_inclusive t) else text_rest specs k t).
Proof.
  unfold text_rest. cbn [split_inclusive]. destruct (c =? NL)%N; [done|].
  destruct (split_inclusive t) as [|l ls]; [done|]. symmetry. apply text_cons_equiv.
Qed.

Lemma push_run self run segments :
  (if is_empty run then segments else push_text self run segments) ≡ segments ++ [text_segment (active_tag self) run].
Proof.
  destruct run; cbn [is_empty]; [|apply push_segment_equiv]. by rewrite text_nil_equiv, app_nil_r.
Qed.

Lemma parse_chars_spec delta self run segments t :
  wf_tagged self -> (detect_tag self = true -> run = []) ->
  wf_tagged (parse_chars self run segments delta).1
  /\ tag_specs (parse_chars self run segments delta).1 = tag_specs self
  /\ segments ++ text_segment (active_tag self) run :: still self (delta ++ t)
     ≡ (parse_chars self run segments delta).2 ++ still (parse_chars self run segments delta).1 t.
Proof.
  revert self run segments. induction delta as [|c delta IH]; intros [sp k [] buf] run segments [Hnl Hbuf] Hrun;
    cbn [parse_chars detect_tag tag_specs active_tag line_buffer app] in *.
  1-2: split; [done|]; split; [done|]; cbn [fst snd]; by rewrite push_run, <- app_assoc.
  all: assert (forall self0 run0 segments0 out, wf_tagged self0 -> (detect_tag self0 = true -> run0 = []) ->
      tag_specs self0 = sp -> out ≡ segments0 ++ text_segment (active_tag self0) run0 :: still self0 (delta ++ t) ->
      wf_tagged (parse_chars self0 run0 segments0 delta).1
      /\ tag_specs (parse_chars self0 run0 segments0 delta).1 = sp
      /\ out ≡ (parse_chars self0 run0 segments0 delta).2 ++ still (parse_chars self0 run0 segments0 delta).1 t) as Hgo
    by (intros self0 run0 segments0 out Hwf0 Hrun0 <- ->; by apply IH).
  - rewrite (Hrun eq_refl). cbn [is_empty]. rewrite text_nil_equiv. destruct (c =? NL)%N eqn:Ec.
    + apply N.eqb_eq in Ec as ->. rewrite finish_line_spec. cbn [tag_specs active_tag line_buffer].
      destruct (line_segment sp k (buf ++ [NL])) as [s k'] eqn:El. apply Hgo; [repeat split; by intros ?%elem_of_nil|done|done|].
      rewrite text_nil_equiv, push_segment_equiv, <- app_assoc. unfold still.
      cbn [tag_specs active_tag detect_tag line_buffer app]. rewrite split_inclusive_app by done. cbn [split_inclusive].
      rewrite N.eqb_refl. cbn [lines_segments]. by rewrite El.
    + assert (NL ∉ buf ++ [c]) as Hnl'.
      { apply N.eqb_neq in Ec. intros [H|H%list_elem_of_singleton]%elem_of_app; auto. }
      assert (still (mkTagged sp k true buf) (c :: delta ++ t) = still (mkTagged sp k true (buf ++ [c])) (delta ++ t)) as ->.
      { unfold still. cbn. by rewrite <- app_assoc. }
      destruct (is_empty (trim_start (buf ++ [c])) || is_tag_prefix _ _) eqn:Ep.
      * apply Hgo; try done. by rewrite text_nil_equiv.
      * apply orb_false_iff in Ep as [Ep1 Ep2]. apply Hgo; [repeat split; by intros ?%elem_of_nil|done|done|].
        unfold push_text. cbn [active_tag]. rewrite push_segment_equiv, <- app_assoc, text_nil_equiv.
        unfold still. cbn [tag_specs active_tag detect_tag line_buffer].
        rewrite (decided_still (mkTagged sp k true (buf ++ [c]))); [done|done| |done].
        cbn [line_buffer]. intros E. by rewrite E in Ep1.
  - rewrite still_active by done. cbn [tag_specs active_tag]. rewrite text_rest_cons, text_cons_equiv.
    destruct (c =? NL)%N eqn:Ec; (apply Hgo; [by split|done|done|]); [|done].
    unfold push_text. cbn [active_tag]. apply N.eqb_eq in Ec as ->. rewrite push_segment_equiv, <- app_assoc, text_nil_equiv.
    by rewrite Hbuf.
Qed.

Lemma parse_pieces_spec pieces self :
  wf_tagged self ->
  (parse_pieces self pieces).1 = mkTagged (tag_specs self) None true []
  /\ (parse_pieces self pieces).2 ≡ still self (concat pieces).
Proof.
  revert self. induction pieces as [|piece pieces IH]; intros self [Hnl Hbuf]; cbn [parse_pieces concat].
  - destruct (finish_tagged_spec self Hnl) as [H1 H2]. split; [done|]. rewrite H2. unfold still.
    destruct (detect_tag self); [by rewrite app_nil_r|]. by rewrite Hbuf.
  - unfold parse. destruct (parse_chars_spec piece self [] [] (concat pieces) (conj Hnl Hbuf) (fun _ => eq_refl))
      as (Hwf & Hsp & Heq).
    destruct (parse_chars self [] [] piece) as [self1 segments]. cbn [fst snd] in *.
    destruct (IH self1 Hwf) as [H1 H2]. destruct (parse_pieces self1 pieces) as [self2 rest]. cbn [fst snd] in *.
    split; [by rewrite H1, Hsp|]. rewrite H2, <- Heq. cbn [app]. by rewrite text_nil_equiv.
Qed.

(** The parser of tagged lines, fed a text in any pieces, gives the
    segments that reading it by whole lines gives, up to how the text of a
    segment is cut, and is left as it was made: text is given as soon as its
    line cannot be a tag, and never too soon. *)
Theorem tagged_stream_spec specs pieces :
  (parse_pieces (new_tagged specs) pieces).1 = new_tagged specs
  /\ merge (parse_pieces (new_tagged specs) pieces).2 = merge (tagged_segments specs (concat pieces)).
Proof.
  destruct (parse_pieces_spec pieces (new_tagged specs)) as [H1 H2]; [split; [by intros ?%elem_of_nil|done]|].
  split; [exact H1|]. exact (proj1 (equiv_merge _ _) H2).
Qed.
End tagged.
Arguments TagSpec : clear implicits.
Arguments TaggedLineSegment : clear implicits.
Arguments TaggedLineParser : clear implicits.

(** A tag cut in three, a line that only begins like one, and a block that the
    end of the text closes. *)
Example sample_tagged_lines :
  let specs := [mkTagSpec (lit "<tag>") (lit "</tag>") tt] in
  merge (parse_pieces (new_tagged specs)
           [lit "a"; NL :: lit " <t"; lit "ag> "; NL :: lit "<t"; lit "agx>"; NL :: lit "</tag>"; [NL]; lit "<tag>"]).2
  = [Normal (lit "a" ++ [NL]); TagStart tt; TagDelta tt (lit "<tagx>" ++ [NL]); TagEnd tt; TagStart tt; TagEnd tt].
Proof. vm_compute. done. Qed.

(** ** Proposed plans *)

Inductive PlanTag : Type := ProposedPlan.
#[global] Instance PlanTag_eq_dec : EqDecision PlanTag.
Proof. solve_decision. Defined.

Definition OPEN_TAG : str := lit "<proposed_plan>".
Definition CLOSE_TAG : str := lit "</proposed_plan>".

Inductive ProposedPlanSegment : Type :=
| PlanNormal (text : str)
| ProposedPlanStart
| ProposedPlanDelta (text : str)
| ProposedPlanEnd.

Record ProposedPlanParser : Type := mkPlanParser { plan_parser : TaggedLineParser PlanTag }.

Definition plan_specs : list (TagSpec PlanTag) := [mkTagSpec OPEN_TAG CLOSE_TAG ProposedPlan].

Definition new_plan : ProposedPlanParser := mkPlanParser (new_tagged plan_specs).

Definition map_segment (segment : TaggedLineSegment PlanTag) : ProposedPlanSegment :=
  match segment with
  | Normal text => PlanNormal text
  | TagStart _ => ProposedPlanStart
  | TagDelta _ text => ProposedPlanDelta text
  | TagEnd _ => ProposedPlanEnd
  end.

Definition map_segments (segments : list (TaggedLineSegment PlanTag)) : StreamTextChunk ProposedPlanSegment :=
  foldl (fun out segment =>
           let mapped := map_segment segment in
           mkStreamChunk
             (match mapped with PlanNormal text => visible_text out ++ text | _ => visible_text out end)
             (extracted out ++ [mapped]))
    default_chunk segments.

Definition plan_push_str (self : ProposedPlanParser) (chunk : str) : ProposedPlanParser * StreamTextChunk ProposedPlanSegment :=
  let '(parser, segments) := parse (plan_parser self) chunk in (mkPlanParser parser, map_segments segments).

Definition plan_finish (self : ProposedPlanParser) : ProposedPlanParser * StreamTextChunk ProposedPlanSegment :=
  let '(parser, segments) := finish_tagged (plan_parser self) in (mkPlanParser parser, map_segments segments).

#[global] Instance plan_stream_parser : StreamTextParser ProposedPlanParser ProposedPlanSegment :=
  {| push_str := plan_push_str; finish := plan_finish |}.

Definition strip_proposed_plan_blocks (text : str) : str :=
  let '(parser, out) := plan_push_str new_plan text in
  let '(_, tail) := plan_finish parser in
  visible_text out ++ visible_text tail.

(** The loop over the segments: the text since the last start, and whether
    there was one. *)
Definition plan_text_step (acc : bool * str) (segment : ProposedPlanSegment) : bool * str :=
  let '(saw_plan_block, plan_text) := acc in
  match segment with
  | ProposedPlanStart => (true, [])
  | ProposedPlanDelta delta => (saw_plan_block, plan_text ++ delta)
  | ProposedPlanEnd | PlanNormal _ => (saw_plan_block, plan_text)
  end.

Definition plan_text (segments : list ProposedPlanSegment) : option str :=
  let '(saw_plan_block, text) := foldl plan_text_step (false, []) segments in
  if saw_plan_block then Some text else None.

Definition extract_proposed_plan_text (text : str) : option str :=
  let '(parser, out) := plan_push_str new_plan text in
  let '(_, tail) := plan_finish parser in
  plan_text (extracted out ++ extracted tail).

(** What of the segments does not depend on the cuts. *)
Definition normal_text {T} (segments : list (TaggedLineSegment T)) : str :=
  segments ≫= (fun s => match s with Normal text => text | _ => [] end).

Lemma map_segments_spec segments :
  map_segments segments = mkStreamChunk (normal_text segments) (map map_segment segments).
Proof.
  induction segments as [|s segments IH] using rev_ind; [done|].
  unfold map_segments in *. rewrite foldl_app, IH. cbn [foldl visible_text extracted].
  rewrite map_app. unfold normal_text. rewrite bind_app. destruct s; cbn; by rewrite ?app_nil_r.
Qed.

Lemma map_segments_app a b : map_segments (a ++ b) = chunk_app (map_segments a) (map_segments b).
Proof.
  rewrite !map_segments_spec. unfold chunk_app, normal_text. cbn. by rewrite bind_app, map_app.
Qed.

Lemma normal_text_equiv (a b : list (TaggedLineSegment PlanTag)) : a ≡ b -> normal_text a = normal_text b.
Proof.
  set (f := fun acc (s : TaggedLineSegment PlanTag) => acc ++ match s with Normal text => text | _ => [] end).
  assert (forall l acc, foldl f acc l = acc ++ normal_text l) as Hf.
  { intros l. induction l as [|s l IH]; intros acc; cbn [foldl]; [by rewrite app_nil_r|]. rewrite IH. unfold f at 1.
    by rewrite <- app_assoc. }
  intros H. apply (fold_equiv f) with (x := []) in H.
  - by rewrite !Hf in H.
  - intros x [t|]; apply app_nil_r.
  - intros x [t|] d e; unfold f; cbn; by rewrite <- ?app_assoc.
Qed.

Lemma plan_text_equiv (a b : list (TaggedLineSegment PlanTag)) :
  a ≡ b -> plan_text (map map_segment a) = plan_text (map map_segment b).
Proof.
  set (f := fun acc (s : TaggedLineSegment PlanTag) => plan_text_step acc (map_segment s)).
  assert (forall l acc, foldl plan_text_step acc (map map_segment l) = foldl f acc l) as Hf.
  { intros l. induction l as [|s l IH]; intros acc; [done|]. apply IH. }
  intros H. unfold plan_text. rewrite !Hf. rewrite (fold_equiv f) with (b := b); [done| | |done].
  - intros [saw text] [t|]; cbn; by rewrite ?app_nil_r.
  - intros [saw text] [t|] d e; cbn; by rewrite <- ?app_assoc.
Qed.

(** The stream is the tagged lines, mapped. *)
Lemma plan_push_pieces self pieces :
  run_stream (mkPlanParser self) pieces
  = (mkPlanParser (parse_pieces self pieces).1, map_segments (parse_pieces self pieces).2).
Proof.
  revert self. induction pieces as [|piece pieces IH]; intros self; unfold run_stream; cbn [push_pieces parse_pieces].
  - change (finish (mkPlanParser self)) with (plan_finish (mkPlanParser self)). unfold plan_finish. cbn [plan_parser].
    destruct (finish_tagged self) as [self' segments]. cbn [fst snd]. by rewrite chunk_app_default_l.
  - change (push_str (mkPlanParser self) piece) with (plan_push_str (mkPlanParser self) piece).
    unfold plan_push_str. cbn [plan_parser]. destruct (parse self piece) as [self1 segments].
    specialize (IH self1). unfold run_stream in IH.
    destruct (push_pieces (mkPlanParser self1) pieces) as [self2 out]. destruct (finish self2) as [self3 tail].
    destruct (parse_pieces self1 pieces) as [self4 rest]. cbn [fst snd] in *. injection IH as -> E.
    by rewrite <- chunk_app_assoc, E, map_segments_app.
Qed.

(** What the two functions on whole texts give. *)
Lemma strip_plan_lines text : strip_proposed_plan_blocks text = normal_text (tagged_segments plan_specs text).
Proof.
  destruct (parse_pieces_spec [text] (new_tagged plan_specs)) as [_ H]; [split; [by intros ?%elem_of_nil|done]|].
  cbn [concat] in H. rewrite app_nil_r in H. apply normal_text_equiv in H. etrans; [|exact H].
  unfold strip_proposed_plan_blocks, plan_push_str, plan_finish. cbn [plan_parser new_plan parse_pieces].
  destruct (parse _ _) as [p out]. cbn [plan_parser]. destruct (finish_tagged p) as [p' tail]. cbn [snd].
  rewrite !map_segments_spec. cbn. unfold normal_text. by rewrite bind_app.
Qed.

Lemma extract_plan_lines text :
  extract_proposed_plan_text text = plan_text (map map_segment (tagged_segments plan_specs text)).
Proof.
  destruct (parse_pieces_spec [text] (new_tagged plan_specs)) as [_ H]; [split; [by intros ?%elem_of_nil|done]|].
  cbn [concat] in H. rewrite app_nil_r in H. apply plan_text_equiv in H. etrans; [|exact H].
  unfold extract_proposed_plan_text, plan_push_str, plan_finish. cbn [plan_parser new_plan parse_pieces].
  destruct (parse _ _) as [p out]. cbn [plan_parser]. destruct (finish_tagged p) as [p' tail]. cbn [snd].
  rewrite !map_segments_spec. cbn. by rewrite map_app.
Qed.

Lemma plan_run_stream pieces :
  exists segments,
    run_stream new_plan pieces = (new_plan, mkStreamChunk (strip_proposed_plan_blocks (concat pieces)) (map map_segment segments))
    /\ plan_text (map map_segment segments) = extract_proposed_plan_text (concat pieces)
    /\ merge segments = merge (tagged_segments plan_specs (concat pieces)).
Proof.
  destruct (parse_pieces_spec pieces (new_tagged plan_specs)) as [H1 H2]; [split; [by intros ?%elem_of_nil|done]|].
  exists (parse_pieces (new_tagged plan_specs) pieces).2. unfold new_plan. rewrite plan_push_pieces, H1, map_segments_spec.
  rewrite strip_plan_lines, extract_plan_lines. split; [do 2 f_equal; apply normal_text_equiv, H2|].
  split; [apply plan_text_equiv, H2|exact (proj1 (equiv_merge _ _) H2)].
Qed.
