(* ===== verification/AssistantText.v ===== *)
(** * AssistantText: the text of the assistant, as it streams in

    [utils/stream-parser/src/assistant_text.rs]: citations are taken out of the
    text and, in plan mode, the blocks of proposed plans out of what is left. *)

From S2P Require Import Prelude StreamText TaggedLines.
Local Open Scope str_scope.

Record AssistantTextChunk : Type := mkAssistantChunk {
  assistant_text : str;
  citations : list str;
  plan_segments : list ProposedPlanSegment;
}.

Definition assistant_default : AssistantTextChunk := mkAssistantChunk [] [] [].

Definition assistant_is_empty (self : AssistantTextChunk) : bool :=
  is_empty (assistant_text self) && is_empty (citations self) && is_empty (plan_segments self).

Record AssistantTextStreamParser : Type := mkAssistantParser {
  plan_mode : bool;
  citation_parser : CitationStreamParser;
  proposed_plan : ProposedPlanParser;
}.

Definition new_assistant (plan_mode : bool) : option AssistantTextStreamParser :=
  (fun citations => mkAssistantParser plan_mode citations new_plan) <$> new_citation.

Definition parse_visible_text (self : AssistantTextStreamParser) (visible : str)
  : AssistantTextStreamParser * AssistantTextChunk :=
  if negb (plan_mode self) then (self, mkAssistantChunk visible [] [])
  else
    let '(plan, plan_chunk) := push_str (proposed_plan self) visible in
    (mkAssistantParser (plan_mode self) (citation_parser self) plan,
     mkAssistantChunk (visible_text plan_chunk) [] (extracted plan_chunk)).

Definition assistant_push_str (self : AssistantTextStreamParser) (chunk : str)
  : AssistantTextStreamParser * AssistantTextChunk :=
  let '(parser, citation_chunk) := push_str (citation_parser self) chunk in
  let self := mkAssistantParser (plan_mode self) parser (proposed_plan self) in
  let '(self, out) := parse_visible_text self (visible_text citation_chunk) in
  (self, mkAssistantChunk (assistant_text out) (extracted citation_chunk) (plan_segments out)).

Definition assistant_finish (self : AssistantTextStreamParser) : AssistantTextStreamParser * AssistantTextChunk :=
  let '(parser, citation_chunk) := finish (citation_parser self) in
  let self := mkAssistantParser (plan_mode self) parser (proposed_plan self) in
  let '(self, out) := parse_visible_text self (visible_text citation_chunk) in
  let '(self, out) :=
    if plan_mode self then
      let '(plan, tail) := finish (proposed_plan self) in
      (mkAssistantParser (plan_mode self) (citation_parser self) plan,
       if chunk_is_empty tail then out
       else mkAssistantChunk (assistant_text out ++ visible_text tail) (citations out) (plan_segments out ++ extracted tail))
    else (self, out) in
  (self, mkAssistantChunk (assistant_text out) (extracted citation_chunk) (plan_segments out)).

(** How callers collect the output. *)
Definition assistant_app (a b : AssistantTextChunk) : AssistantTextChunk :=
  mkAssistantChunk (assistant_text a ++ assistant_text b) (citations a ++ citations b) (plan_segments a ++ plan_segments b).

(** All pieces, then the end. *)
Fixpoint run_assistant (self : AssistantTextStreamParser) (pieces : list str)
  : AssistantTextStreamParser * AssistantTextChunk :=
  match pieces with
  | [] => assistant_finish self
  | piece :: pieces =>
      let '(self, out) := assistant_push_str self piece in
      let '(self, rest) := run_assistant self pieces in
      (self, assistant_app out rest)
  end.

(** ** Both parsers at once *)

(** What the citations leave is what the parser of plans is fed. *)
Lemma run_assistant_spec mode c p pieces :
  exists visible,
    concat visible = visible_text (run_stream c pieces).2
    /\ run_assistant (mkAssistantParser mode c p) pieces
       = if mode
         then (mkAssistantParser mode (run_stream c pieces).1 (run_stream p visible).1,
               mkAssistantChunk (visible_text (run_stream p visible).2) (extracted (run_stream c pieces).2)
                 (extracted (run_stream p visible).2))
         else (mkAssistantParser mode (run_stream c pieces).1 p,
               mkAssistantChunk (concat visible) (extracted (run_stream c pieces).2) []).
Proof.
  revert c p. induction pieces as [|piece pieces IH]; intros c p.
  - cbn [run_assistant]. unfold assistant_finish. cbn [citation_parser]. rewrite run_stream_nil.
    destruct (finish c) as [c' out]. cbn [fst snd]. exists [visible_text out]. cbn [concat]. rewrite app_nil_r.
    split; [done|]. unfold parse_visible_text. destruct mode; cbn [negb plan_mode proposed_plan]; [|done].
    rewrite run_stream_cons, run_stream_nil.
    destruct (push_str p (visible_text out)) as [p' out']. cbn [plan_mode proposed_plan citation_parser fst].
    destruct (finish p') as [p'' tail]. cbn [fst snd]. unfold chunk_is_empty.
    destruct tail as [[|x v] [|y e]]; cbn; by rewrite ?app_nil_r.
  - cbn [run_assistant]. unfold assistant_push_str. cbn [citation_parser plan_mode proposed_plan].
    rewrite run_stream_cons. destruct (push_str c piece) as [c1 out]. cbn [fst snd].
    unfold parse_visible_text. cbn [negb plan_mode proposed_plan].
    destruct mode; cbn [negb].
    + destruct (push_str p (visible_text out)) as [p1 out1] eqn:Ep. cbn [citation_parser assistant_text plan_segments].
      destruct (IH c1 p1) as (visible & Hv & ->). exists (visible_text out :: visible). cbn [concat]. rewrite Hv.
      split; [done|]. rewrite (run_stream_cons p), Ep. done.
    + destruct (IH c1 p) as (visible & Hv & ->). exists (visible_text out :: visible). cbn [concat]. rewrite Hv. done.
Qed.

(** C40: the text of the assistant, fed in any pieces: the citations that one
    scan of the whole text finds are extracted, in order; outside plan mode
    the rest is shown; in plan mode what reading the rest by lines leaves
    outside the blocks is shown, the segments are those lines' (up to how text
    is cut), and the last block's text is what [extract_proposed_plan_text]
    gives of the whole. The parser is left as it was made. *)
Theorem assistant_stream_spec mode pieces :
  exists parser visible cites out,
    new_assistant mode = Some parser
    /\ citation_scan (concat pieces) (visible, cites)
    /\ run_assistant parser pieces = (parser, out)
    /\ citations out = cites
    /\ if mode
       then assistant_text out = strip_proposed_plan_blocks visible
            /\ plan_text (plan_segments out) = extract_proposed_plan_text visible
            /\ exists segments, plan_segments out = map map_segment segments
                 /\ merge segments = merge (tagged_segments plan_specs visible)
       else assistant_text out = visible /\ plan_segments out = [].
Proof.
  destruct (citation_stream_spec pieces) as (c & out & Hnew & Hrun & _ & Hscan).
  destruct (run_assistant_spec mode c new_plan pieces) as (visible & Hv & Hall). rewrite Hrun in Hv, Hall. cbn [fst snd] in *.
  destruct (plan_run_stream visible) as (segments & Hplan & Htext & Hmerge). rewrite Hplan, Hv in Hall. rewrite Hv in *.
  destruct mode; cbn [fst snd visible_text extracted] in Hall; eexists _, (visible_text out), (extracted out), _;
    (split; [unfold new_assistant; by rewrite Hnew|]); (split; [by apply Hscan|]); (split; [exact Hall|]); [|done].
  split; [done|]. split; [done|]. split; [done|]. by exists segments.
Qed.

(** A citation cut in two around a plan. *)
Example sample_assistant :
  (fun parser => (run_assistant parser
     [lit "Hi <oai-mem-"; lit "citation>a</oai-mem-citation>"; [NL]; lit "<proposed"; lit "_plan>";
      NL :: lit "do it"; NL :: lit "</proposed_plan>"]).2) <$> new_assistant true
  = Some (mkAssistantChunk (lit "Hi " ++ [NL]) [lit "a"]
            [PlanNormal (lit "Hi "); PlanNormal [NL]; ProposedPlanStart; ProposedPlanDelta (lit "do it");
             ProposedPlanDelta [NL]; ProposedPlanEnd]).
Proof. vm_compute. done. Qed.
