(* ===== verification/Utf8Stream.v ===== *)
(** * Utf8Stream: bytes to any parser of streamed text

    [utils/stream-parser/src/utf8_stream.rs], over the interface
    [StreamTextParser]: a character whose bytes come in two chunks is held back
    until it is whole. *)

From S2P Require Import Prelude Utf8 StreamText.

Inductive Utf8StreamParserError : Type :=
| InvalidUtf8 (valid_up_to error_len : nat)
| IncompleteUtf8AtEof.

(** [Display]. *)
Definition utf8_stream_error_message (e : Utf8StreamParserError) : str :=
  match e with
  | InvalidUtf8 valid_up_to error_len =>
      lit "invalid UTF-8 in streamed bytes at offset " ++ show_nat valid_up_to ++ lit " (error length "
      ++ show_nat error_len ++ lit ")"
  | IncompleteUtf8AtEof => lit "incomplete UTF-8 code point at end of stream"
  end.

Section utf8_stream.
Context {P E : Type} `{StreamTextParser P E}.

Record Utf8StreamParser : Type := mkUtf8Stream {
  utf8_inner : P;
  pending_utf8 : list N;
}.

Definition new_utf8 (inner : P) : Utf8StreamParser := mkUtf8Stream inner [].

Definition push_bytes (self : Utf8StreamParser) (chunk : list N)
  : Utf8StreamParser * result Utf8StreamParserError (StreamTextChunk E) :=
  let old_len := length (pending_utf8 self) in
  let pending := pending_utf8 self ++ chunk in
  match from_utf8 pending with
  | Ok text =>
      let '(inner, out) := push_str (utf8_inner self) text in
      (mkUtf8Stream inner [], Ok out)
  | Err err =>
      match error_len err with
      | Some n => (mkUtf8Stream (utf8_inner self) (take old_len pending), Err (InvalidUtf8 (valid_up_to err) n))
      | None =>
          if (valid_up_to err =? 0)%nat then (mkUtf8Stream (utf8_inner self) pending, Ok default_chunk)
          else
            match from_utf8 (take (valid_up_to err) pending) with
            | Ok text =>
                let '(inner, out) := push_str (utf8_inner self) text in
                (mkUtf8Stream inner (drop (valid_up_to err) pending), Ok out)
            | Err prefix_err =>
                (mkUtf8Stream (utf8_inner self) (take old_len pending),
                 Err (InvalidUtf8 (valid_up_to prefix_err) (default 0%nat (error_len prefix_err))))
            end
      end
  end.

(** What is wrong with bytes that are no text. *)
Definition pending_error (err : Utf8Error) : Utf8StreamParserError :=
  match error_len err with
  | Some n => InvalidUtf8 (valid_up_to err) n
  | None => IncompleteUtf8AtEof
  end.

Definition utf8_finish (self : Utf8StreamParser)
  : Utf8StreamParser * result Utf8StreamParserError (StreamTextChunk E) :=
  if is_empty (pending_utf8 self) then
    let '(inner, tail) := finish (utf8_inner self) in
    (mkUtf8Stream inner [], Ok (chunk_app default_chunk tail))
  else
    match from_utf8 (pending_utf8 self) with
    | Err err => (self, Err (pending_error err))
    | Ok text =>
        let '(inner, out) := push_str (utf8_inner self) text in
        let '(inner, tail) := finish inner in
        (mkUtf8Stream inner [], Ok (chunk_app out tail))
    end.

Definition into_inner (self : Utf8StreamParser) : result Utf8StreamParserError P :=
  if is_empty (pending_utf8 self) then Ok (utf8_inner self)
  else match from_utf8 (pending_utf8 self) with
       | Ok _ => Ok (utf8_inner self)
       | Err err => Err (pending_error err)
       end.

Definition into_inner_lossy (self : Utf8StreamParser) : P := utf8_inner self.

(** All chunks, then the end; the first error stops. *)
Fixpoint run_bytes (self : Utf8StreamParser) (chunks : list (list N))
  : Utf8StreamParser * result Utf8StreamParserError (StreamTextChunk E) :=
  match chunks with
  | [] => utf8_finish self
  | chunk :: chunks =>
      match push_bytes self chunk with
      | (self, Ok out) =>
          match run_bytes self chunks with
          | (self, Ok rest) => (self, Ok (chunk_app out rest))
          | (self, Err e) => (self, Err e)
          end
      | (self, Err e) => (self, Err e)
      end
  end.
End utf8_stream.
Arguments Utf8StreamParser : clear implicits.

(** ** A text cut anywhere *)

(** The start of a character's bytes is not yet a character, and not invalid. *)
Lemma decode_char_short p t c rest :
  decode_char (p ++ t) = Decoded c rest -> p <> [] -> (length rest < length t)%nat -> decode_char p = Incomplete.
Proof.
  intros Hd Hp Hlen. unfold decode_char in *.
  destruct p as [|b0 [|b1 [|b2 [|b3 p]]]]; [done|..]; cbn [app] in Hd;
    repeat (first [discriminate Hd | injection Hd as _ <-; cbn in Hlen; rewrite ?length_app in Hlen; lia
      | done | case_match; try done; simplify_eq]);
    exfalso; cbn in Hlen; rewrite ?length_app in Hlen; lia.
Qed.

Lemma from_utf8_prefix_fuel s l t fuel pos :
  forallb is_scalar s = true -> into_bytes s = l ++ t -> (length l <= fuel)%nat ->
  exists s1 s2 p,
    s = s1 ++ s2 /\ l = into_bytes s1 ++ p /\ p ++ t = into_bytes s2
    /\ from_utf8_fuel fuel pos l
       = if is_empty p then Ok s1 else Err {| valid_up_to := pos + length (into_bytes s1); error_len := None |}.
Proof.
  revert l fuel pos. induction s as [|c s IH]; intros l fuel pos Hs Hl Hfuel.
  - assert (l = []) as -> by (by destruct l). exists [], [], []. destruct t; [|done]. by destruct fuel.
  - apply andb_true_iff in Hs as [Hc Hs]. unfold into_bytes in Hl. cbn [mbind list_bind] in Hl.
    destruct (decide (length l < length (encode_char c))%nat) as [Hlt|Hge].
    + exists [], (c :: s), l. split; [done|]. split; [done|]. split; [by rewrite <- Hl|].
      destruct l as [|b l]; [by destruct fuel|]. destruct fuel as [|fuel]; [cbn in Hfuel; lia|].
      cbn [from_utf8_fuel is_empty]. rewrite (decode_char_short _ t c (into_bytes s)); [|by rewrite <- Hl; apply decode_encode_char|done|].
      { cbn. by rewrite Nat.add_0_r. }
      apply (f_equal length) in Hl. rewrite !length_app in Hl. unfold into_bytes. lia.
    + assert (exists l', l = encode_char c ++ l') as [l' ->].
      { exists (drop (length (encode_char c)) l). rewrite <- (take_drop (length (encode_char c)) l) at 1. f_equal.
        apply (f_equal (take (length (encode_char c)))) in Hl. by rewrite take_app_length, take_app_le in Hl by lia. }
      rewrite <- app_assoc in Hl. apply app_inv_head in Hl.
      destruct (encode_char_cons c) as (b & k & Ek).
      rewrite length_app, Ek in Hfuel. destruct fuel as [|fuel]; [cbn in Hfuel; lia|]. cbn [length] in Hfuel.
      destruct (IH l' fuel (pos + length (encode_char c))%nat Hs Hl) as (s1 & s2 & p & -> & -> & Hp & E); [lia|].
      exists (c :: s1), s2, p. split; [done|].
      assert (into_bytes (c :: s1) = encode_char c ++ into_bytes s1) as -> by done.
      split; [by rewrite app_assoc|]. split; [done|].
      pose proof (decode_encode_char c (into_bytes s1 ++ p) Hc) as Hd. rewrite Ek in *. cbn [app from_utf8_fuel] in *.
      rewrite Hd. replace (length (b :: k ++ into_bytes s1 ++ p) - length (into_bytes s1 ++ p))%nat with (length (b :: k))
        by (cbn [length]; rewrite !length_app; lia).
      rewrite E. destruct (is_empty p); [done|]. f_equal. f_equal. cbn [length]. rewrite length_app. lia.
Qed.

Lemma from_utf8_prefix s l t :
  forallb is_scalar s = true -> into_bytes s = l ++ t ->
  exists s1 s2 p,
    s = s1 ++ s2 /\ l = into_bytes s1 ++ p /\ p ++ t = into_bytes s2
    /\ from_utf8 l = if is_empty p then Ok s1 else Err {| valid_up_to := length (into_bytes s1); error_len := None |}.
Proof. intros Hs Hl. by apply (from_utf8_prefix_fuel s l t (length l) 0). Qed.

Lemma from_utf8_valid s : forallb is_scalar s = true -> from_utf8 (into_bytes s) = Ok s.
Proof. apply from_utf8_into_bytes. Qed.

(** ** The stream *)

Section stream.
Context {P E : Type} `{StreamTextParser P E}.

(** A call that reports an error has changed nothing. *)
Lemma push_bytes_rollback (self : Utf8StreamParser P) chunk self' e :
  push_bytes self chunk = (self', Err e) -> self' = self.
Proof.
  unfold push_bytes. destruct self as [inner pending]. cbn [utf8_inner pending_utf8]. rewrite take_app_length.
  intros Hpush. repeat (case_match; simplify_eq; try done).
Qed.

(** A call that succeeds has passed on whole characters, and kept the rest. *)
Lemma push_bytes_Ok (self self' : Utf8StreamParser P) chunk out :
  push_bytes self chunk = (self', Ok out) ->
  exists text, forallb is_scalar text = true /\ pending_utf8 self ++ chunk = into_bytes text ++ pending_utf8 self'.
Proof.
  unfold push_bytes. intros Hpush. repeat (case_match; simplify_eq; try done); cbn [pending_utf8].
  - match goal with H : from_utf8 _ = Ok ?s |- _ => apply from_utf8_Ok in H as [<- Hs]; exists s end. by rewrite app_nil_r.
  - by exists [].
  - match goal with H : from_utf8 _ = Ok ?s |- _ => apply from_utf8_Ok in H as [Hb Hs]; exists s end. by rewrite Hb, take_drop.
Qed.

(** Bytes of a text: every call passes on a part of it. *)
Lemma run_bytes_text chunks (self : Utf8StreamParser P) s :
  forallb is_scalar s = true -> into_bytes s = pending_utf8 self ++ concat chunks ->
  exists pieces,
    concat pieces = s
    /\ run_bytes self chunks
       = (mkUtf8Stream (run_stream (utf8_inner self) pieces).1 [], Ok (run_stream (utf8_inner self) pieces).2).
Proof.
  revert self s. induction chunks as [|chunk chunks IH]; intros [inner pending] s Hs Hb; cbn [utf8_inner pending_utf8 concat] in *.
  - rewrite app_nil_r in Hb. cbn [run_bytes]. unfold utf8_finish. cbn [utf8_inner pending_utf8].
    destruct (is_empty pending) eqn:Ep.
    + destruct pending; [|done]. exists []. unfold run_stream. cbn [push_pieces concat].
      split; [|by destruct (finish inner)]. destruct s as [|c s]; [done|]. destruct (encode_char_cons c) as (b & k & Ek).
      unfold into_bytes in Hb. cbn in Hb. by rewrite Ek in Hb.
    + exists [s]. cbn [concat]. rewrite app_nil_r. split; [done|]. rewrite <- Hb, from_utf8_valid by done.
      unfold run_stream. cbn [push_pieces]. destruct (push_str inner s) as [inner' out]. rewrite chunk_app_default_r.
      by destruct (finish inner').
  - cbn [run_bytes]. rewrite app_assoc in Hb.
    destruct (from_utf8_prefix s _ _ Hs Hb) as (s1 & s2 & p & -> & Hl & Hp & E0).
    rewrite forallb_app in Hs. apply andb_true_iff in Hs as [Hs1 Hs2].
    unfold push_bytes. cbn [utf8_inner pending_utf8]. rewrite E0. destruct (is_empty p) eqn:Ep.
    + destruct p; [|done]. destruct (push_str inner s1) as [inner' out] eqn:Epush.
      destruct (IH (mkUtf8Stream inner' []) s2 Hs2 (eq_sym Hp)) as (pieces & <- & ->). exists (s1 :: pieces).
      split; [done|]. cbn [utf8_inner]. rewrite run_stream_cons, Epush. done.
    + cbn [error_len valid_up_to]. destruct (length (into_bytes s1) =? 0)%nat eqn:Ez.
      * apply Nat.eqb_eq, nil_length_inv in Ez. destruct (IH (mkUtf8Stream inner (pending ++ chunk)) (s1 ++ s2)) as (pieces & Hc & ->).
        { by rewrite forallb_app, Hs1. } { done. }
        exists pieces. split; [done|]. by rewrite chunk_app_default_l.
      * rewrite Hl, take_app_length, drop_app_length, from_utf8_valid by done.
        destruct (push_str inner s1) as [inner' out] eqn:Epush.
        destruct (IH (mkUtf8Stream inner' p) s2 Hs2 (eq_sym Hp)) as (pieces & <- & ->). exists (s1 :: pieces).
        split; [done|]. cbn [utf8_inner]. rewrite run_stream_cons, Epush. done.
Qed.

(** Success: the bytes were those of a text. *)
Lemma run_bytes_Ok chunks (self self' : Utf8StreamParser P) out :
  run_bytes self chunks = (self', Ok out) ->
  exists s, forallb is_scalar s = true /\ pending_utf8 self ++ concat chunks = into_bytes s.
Proof.
  revert self self' out. induction chunks as [|chunk chunks IH]; intros self self' out; cbn [run_bytes concat].
  - rewrite app_nil_r. unfold utf8_finish. destruct (is_empty _) eqn:Ep.
    + intros _. exists []. destruct (pending_utf8 self); [done|done].
    + destruct (from_utf8 _) as [s|] eqn:E0; [|done]. intros _. apply from_utf8_Ok in E0 as [<- Hs]. by exists s.
  - destruct (push_bytes self chunk) as [self1 [out1|e]] eqn:Ep; [|done].
    destruct (run_bytes self1 chunks) as [self2 [out2|e]] eqn:Er; [|done]. intros _.
    apply push_bytes_Ok in Ep as (text & Ht & Ep). apply IH in Er as (s & Hs & Er).
    exists (text ++ s). rewrite forallb_app, Ht. split; [done|].
    rewrite app_assoc, Ep, <- app_assoc, Er. unfold into_bytes. by rewrite bind_app.
Qed.

(** Bytes in any chunks, given to any parser of streamed text: when all the
    bytes are one text's, no call fails, even if a chunk ends within a
    character, and the inner parser has been given exactly that text, in
    pieces; when they are not, some call reports an error. *)
Theorem utf8_stream_spec (inner : P) chunks :
  match from_utf8 (concat chunks) with
  | Ok s => exists pieces,
      concat pieces = s
      /\ run_bytes (new_utf8 inner) chunks
         = (mkUtf8Stream (run_stream inner pieces).1 [], Ok (run_stream inner pieces).2)
  | Err _ => exists self e, run_bytes (new_utf8 inner) chunks = (self, Err e)
  end.
Proof.
  destruct (from_utf8 (concat chunks)) as [s|err] eqn:Hu.
  - apply from_utf8_Ok in Hu as [Hb Hs]. exact (run_bytes_text chunks (new_utf8 inner) s Hs Hb).
  - destruct (run_bytes (new_utf8 inner) chunks) as [self [out|e]] eqn:Er; [|eauto].
    apply run_bytes_Ok in Er as (s & Hs & Hb). cbn in Hb. rewrite Hb, from_utf8_valid in Hu by done. done.
Qed.
End stream.

(** A character in two halves, over the parser of citations. *)
Example sample_utf8_stream :
  (fun parser => (run_bytes (new_utf8 parser) [[0x68; 0xC3]%N; [0xA9]%N; into_bytes (lit "<oai-mem-citation>"); [0x61]%N]).2) <$> new_citation
  = Some (Ok (mkStreamChunk [0x68; 0xE9]%N [lit "a"])).
Proof. vm_compute. done. Qed.

(** What is cut off at the end, and what cannot start a character. *)
Example sample_utf8_errors :
  (fun parser => ((run_bytes (new_utf8 parser) [[0x68; 0xC3]%N]).2, (run_bytes (new_utf8 parser) [[0x68; 0xFF]%N]).2)) <$> new_citation
  = Some (Err IncompleteUtf8AtEof, Err (InvalidUtf8 1 1)).
Proof. vm_compute. done. Qed.
