(* ===== verification/BTree.v ===== *)
(** * BTree: [BTreeMap<String, _>] and [toml::map::Map]

    A map with string keys, iterated in the order of its keys, is the list of
    its entries in that order ([sorted_tbl]).  [toml::map::Map] is a
    [BTreeMap] here: the workspace does not enable [preserve_order]. *)

From S2P Require Import Prelude.
Local Open Scope str_scope.

Section Tables.
Context {V : Type}.
Implicit Types (t : list (str * V)) (k : str) (v : V).

Fixpoint tbl_get k t : option V :=
  match t with
  | [] => None
  | (k', v) :: t' => if k =? k' then Some v else tbl_get k t'
  end.

Fixpoint tbl_insert k v t : list (str * V) :=
  match t with
  | [] => [(k, v)]
  | (k', v') :: t' =>
      if k =? k' then (k, v) :: t'
      else if str_leb k k' then (k, v) :: t
      else (k', v') :: tbl_insert k v t'
  end.

Fixpoint tbl_remove k t : list (str * V) :=
  match t with
  | [] => []
  | (k', v') :: t' => if k =? k' then t' else (k', v') :: tbl_remove k t'
  end.

End Tables.

Definition str_lt (a b : str) : Prop := str_leb a b = true /\ a <> b.

(** The invariant of the type: strictly increasing keys. *)
Definition sorted_tbl {V} (t : list (str * V)) : Prop := StronglySorted str_lt (map fst t).

(** ** The order *)

Lemma str_leb_refl a : str_leb a a = true.
Proof. induction a as [|x a IH]; simpl; [done|]. by rewrite N.eqb_refl. Qed.

Lemma str_leb_total a b : str_leb a b = false -> str_leb b a = true.
Proof.
  revert b. induction a as [|x a IH]; intros [|y b]; simpl; try done.
  rewrite (N.eqb_sym y x). destruct (N.eqb_spec x y); [apply IH|].
  rewrite N.leb_gt, N.leb_le. lia.
Qed.

Lemma str_leb_antisym a b : str_leb a b = true -> str_leb b a = true -> a = b.
Proof.
  revert b. induction a as [|x a IH]; intros [|y b]; simpl; try done.
  rewrite (N.eqb_sym y x). destruct (N.eqb_spec x y) as [->|].
  - intros. f_equal. by apply IH.
  - rewrite !N.leb_le. lia.
Qed.

Lemma str_leb_trans a b c : str_leb a b = true -> str_leb b c = true -> str_leb a c = true.
Proof.
  revert b c. induction a as [|x a IH]; intros [|y b] [|z c]; simpl; try done.
  destruct (N.eqb_spec x y), (N.eqb_spec y z), (N.eqb_spec x z); subst;
    try done; rewrite ?N.leb_le; try lia; apply IH.
Qed.

Lemma str_lt_trans a b c : str_lt a b -> str_lt b c -> str_lt a c.
Proof.
  intros [H1 N1] [H2 N2]. split; [by eapply str_leb_trans|].
  intros ->. apply N1. by apply str_leb_antisym.
Qed.

Lemma str_lt_leb a b : str_lt a b -> str_leb b a = false.
Proof.
  intros [H N]. destruct (str_leb b a) eqn:E; [|done]. by destruct (N (str_leb_antisym a b H E)).
Qed.

Lemma str_leb_lt a b : a <> b -> str_leb a b = false -> str_lt b a.
Proof. intros N H. split; [by apply str_leb_total|congruence]. Qed.

(** ** Lookups; they need no order *)

Section Lookups.
Context {V : Type}.
Implicit Types (t : list (str * V)) (k : str) (v : V).

Lemma tbl_get_insert k v t : tbl_get k (tbl_insert k v t) = Some v.
Proof.
  induction t as [|[k' v'] t IH]; simpl; [by rewrite bool_decide_true|].
  repeat case_match; simpl; rewrite ?bool_decide_true by done; try done.
  by rewrite bool_decide_false by (by bool_to_prop).
Qed.

Lemma tbl_get_insert_ne k j v t : j <> k -> tbl_get j (tbl_insert k v t) = tbl_get j t.
Proof.
  intros N. induction t as [|[k' v'] t IH]; simpl; [by rewrite bool_decide_false|].
  destruct (decide (k = k')) as [->|Hk].
  - rewrite bool_decide_true by done. simpl. by rewrite !bool_decide_false.
  - rewrite (bool_decide_false (k = k')) by done.
    destruct (str_leb k k'); simpl; [by rewrite bool_decide_false|by rewrite IH].
Qed.

Lemma tbl_get_Some_elem k t v : tbl_get k t = Some v -> (k, v) ∈ t.
Proof.
  induction t as [|[k' v'] t IH]; simpl; [done|]. case_bool_decide; [|by right; apply IH].
  intros [= ->]. subst. left.
Qed.

Lemma tbl_get_None k t : tbl_get k t = None <-> k ∉ map fst t.
Proof.
  induction t as [|[k' v'] t IH]; simpl; [split; [intros _; apply not_elem_of_nil|done]|].
  rewrite not_elem_of_cons. case_bool_decide; [naive_solver|]. rewrite IH. naive_solver.
Qed.

Lemma tbl_get_remove_ne k j t : j <> k -> tbl_get j (tbl_remove k t) = tbl_get j t.
Proof.
  intros N. induction t as [|[k' v'] t IH]; simpl; [done|].
  destruct (decide (k = k')) as [->|Hk].
  - rewrite bool_decide_true by done. by rewrite bool_decide_false.
  - rewrite (bool_decide_false (k = k')) by done. simpl. by rewrite IH.
Qed.

Lemma elem_of_tbl_insert k v t x : x ∈ tbl_insert k v t -> x = (k, v) \/ x ∈ t.
Proof.
  induction t as [|[k' v'] t IH]; simpl; [set_solver|].
  repeat case_match; rewrite ?elem_of_cons; naive_solver.
Qed.

Lemma elem_of_tbl_remove k t x : x ∈ tbl_remove k t -> x ∈ t.
Proof.
  induction t as [|[k' v'] t IH]; simpl; [done|].
  case_match; rewrite ?elem_of_cons; naive_solver.
Qed.

(** ** The invariant *)

Lemma sorted_NoDup t : sorted_tbl t -> NoDup (map fst t).
Proof.
  unfold sorted_tbl. induction 1 as [|k l _ IH Hk]; constructor; [|done].
  intros Hin. rewrite Forall_forall in Hk. by destruct (Hk k Hin).
Qed.

Lemma sorted_get t k v : sorted_tbl t -> tbl_get k t = Some v <-> (k, v) ∈ t.
Proof.
  intros Hs%sorted_NoDup. split; [apply tbl_get_Some_elem|].
  induction t as [|[k' v'] t IH]; simpl; [by intros ?%elem_of_nil|].
  apply NoDup_cons in Hs as [Hn Hs].
  intros [[= -> ->]|Hin]%elem_of_cons; [by rewrite bool_decide_true|].
  rewrite bool_decide_false; [by apply IH|].
  intros ->. apply Hn. apply list_elem_of_fmap. by exists (k', v).
Qed.

Lemma keys_tbl_insert k v t j : j ∈ map fst (tbl_insert k v t) <-> j = k \/ j ∈ map fst t.
Proof.
  induction t as [|[k' v'] t IH]; simpl; [set_solver|].
  case_bool_decide as E; [subst; simpl; set_solver|].
  destruct (str_leb k k'); simpl; rewrite ?elem_of_cons, ?IH; [|]; tauto.
Qed.

Lemma sorted_insert k v t : sorted_tbl t -> sorted_tbl (tbl_insert k v t).
Proof.
  unfold sorted_tbl. induction t as [|[k' v'] t IH]; simpl; [intros _; repeat constructor|].
  intros [Hs Hk]%StronglySorted_inv. case_bool_decide as E; [subst; by constructor|].
  destruct (str_leb k k') eqn:L; simpl.
  - assert (str_lt k k') by done. repeat (constructor; try done).
    eapply Forall_impl; [done|]. simpl. intros ? ?. by eapply str_lt_trans.
  - constructor; [by apply IH|]. apply Forall_forall. intros j [->|Hj]%keys_tbl_insert.
    + by apply str_leb_lt.
    + rewrite Forall_forall in Hk. by apply Hk.
Qed.

Lemma keys_tbl_remove k t : map fst (tbl_remove k t) `sublist_of` map fst t.
Proof.
  induction t as [|[k' v'] t IH]; simpl; [done|]. case_match; simpl.
  - by apply sublist_cons.
  - by apply sublist_skip.
Qed.

Lemma Forall_sublist_of {A} (P : A -> Prop) (l l' : list A) :
  l `sublist_of` l' -> Forall P l' -> Forall P l.
Proof. induction 1; rewrite ?Forall_cons; naive_solver. Qed.

Lemma sublist_StronglySorted {A} (R : A -> A -> Prop) (l l' : list A) :
  l `sublist_of` l' -> StronglySorted R l' -> StronglySorted R l.
Proof.
  induction 1 as [|x l l' Hsub IH|x l l' Hsub IH]; [done| |];
    intros [Hs Hx]%StronglySorted_inv; [|by apply IH].
  constructor; [by apply IH|]. by eapply Forall_sublist_of.
Qed.

Lemma sorted_remove k t : sorted_tbl t -> sorted_tbl (tbl_remove k t).
Proof. apply sublist_StronglySorted, keys_tbl_remove. Qed.

Lemma tbl_get_remove k t : sorted_tbl t -> tbl_get k (tbl_remove k t) = None.
Proof.
  intros Hs%sorted_NoDup. induction t as [|[k' v'] t IH]; simpl; [done|].
  apply NoDup_cons in Hs as [Hn Hs]. case_bool_decide as E.
  - subst. by apply tbl_get_None.
  - simpl. rewrite bool_decide_false by done. by apply IH.
Qed.

(** Inserting a key above the others appends it. *)
Lemma tbl_insert_last k v t :
  Forall (fun j => str_lt j k) (map fst t) -> tbl_insert k v t = t ++ [(k, v)].
Proof.
  induction t as [|[k' v'] t IH]; simpl; [done|]. intros [Hk Ht]%Forall_cons.
  rewrite bool_decide_false by (by destruct Hk). rewrite str_lt_leb by done. by rewrite IH.
Qed.

End Lookups.

(** Two tables with the same lookups are the same list. *)
Lemma sorted_ext {V} (t t' : list (str * V)) : sorted_tbl t -> sorted_tbl t' ->
  (forall k, tbl_get k t = tbl_get k t') -> t = t'.
Proof.
  unfold sorted_tbl. revert t'.
  induction t as [|[k v] t IH]; intros [|[k' v'] t'] Hs Hs' H; [done| | |].
  { specialize (H k'). simpl in H. by rewrite bool_decide_true in H. }
  { specialize (H k). simpl in H. by rewrite bool_decide_true in H. }
  simpl in Hs, Hs'. pose proof Hs as [Hst Hk]%StronglySorted_inv.
  pose proof Hs' as [Hst' Hk']%StronglySorted_inv. rewrite Forall_forall in Hk, Hk'.
  assert (k = k') as <-.
  { destruct (decide (k = k')) as [|N]; [done|exfalso].
    pose proof (H k) as H1. pose proof (H k') as H2. simpl in H1, H2.
    rewrite bool_decide_true, (bool_decide_false (k = k')) in H1 by done.
    rewrite (bool_decide_true (k' = k')), (bool_decide_false (k' = k)) in H2 by done.
    symmetry in H1. apply tbl_get_Some_elem in H1, H2.
    pose proof (Hk k' (list_elem_of_fmap_2 fst _ _ H2)) as L.
    pose proof (Hk' k (list_elem_of_fmap_2 fst _ _ H1)) as L'.
    destruct L as [L _], L' as [L' _]. by apply N, str_leb_antisym. }
  pose proof (H k) as H1. simpl in H1. rewrite !bool_decide_true in H1 by done. injection H1 as <-.
  f_equal. apply IH; [done|done|]. intros j. specialize (H j). simpl in H.
  destruct (decide (j = k)) as [->|N]; [|by rewrite !bool_decide_false in H].
  rewrite (proj2 (tbl_get_None k t)), (proj2 (tbl_get_None k t')); [done| |];
    intros Hj; [destruct (Hk' k Hj)|destruct (Hk k Hj)]; done.
Qed.

(** ** Changing the values *)

Definition map_values {V W} (f : V -> W) (t : list (str * V)) : list (str * W) :=
  map (fun kv => (kv.1, f kv.2)) t.

(** The values changed by a function that sees their keys *)
Definition imap_values {V W} (f : str -> V -> W) (t : list (str * V)) : list (str * W) :=
  map (fun kv => (kv.1, f kv.1 kv.2)) t.

Section Values.
Context {V W : Type} (f : str -> V -> W).
Implicit Types (t : list (str * V)) (k : str).

Lemma keys_imap_values t : map fst (imap_values f t) = map fst t.
Proof. unfold imap_values. rewrite map_map. done. Qed.

Lemma sorted_imap_values t : sorted_tbl (imap_values f t) <-> sorted_tbl t.
Proof. unfold sorted_tbl. by rewrite keys_imap_values. Qed.

Lemma tbl_get_imap_values k t : tbl_get k (imap_values f t) = f k <$> tbl_get k t.
Proof.
  induction t as [|[k' v'] t IH]; simpl; [done|]. case_bool_decide; [by subst|done].
Qed.

Lemma tbl_remove_imap_values k t : tbl_remove k (imap_values f t) = imap_values f (tbl_remove k t).
Proof.
  induction t as [|[k' v'] t IH]; simpl; [done|]. case_bool_decide; [done|]. simpl. by f_equal.
Qed.

Lemma tbl_insert_imap_values k v t :
  tbl_insert k (f k v) (imap_values f t) = imap_values f (tbl_insert k v t).
Proof.
  induction t as [|[k' v'] t IH]; simpl; [done|].
  case_bool_decide; [done|]. destruct (str_leb k k'); simpl; [done|]. by f_equal.
Qed.

(** Collecting the images of a table in key order. *)
Lemma fold_insert_sorted (t : list (str * V)) (acc : list (str * W)) :
  StronglySorted str_lt (map fst acc ++ map fst t) ->
  fold_left (fun acc kv => tbl_insert kv.1 (f kv.1 kv.2) acc) t acc = acc ++ imap_values f t.
Proof.
  revert acc. induction t as [|[k v] t IH]; intros acc Hs; simpl; [by rewrite app_nil_r|].
  assert (Forall (fun j => str_lt j k) (map fst acc)) as Hk.
  { apply Forall_forall. intros j Hj. apply list_elem_of_split in Hj as (l1 & l2 & E).
    rewrite E, <- app_assoc in Hs. clear -Hs. induction l1 as [|x l1 IH]; simpl in Hs;
      apply StronglySorted_inv in Hs as [Hs Hj]; [|by apply IH].
    rewrite Forall_forall in Hj. apply Hj. set_solver. }
  rewrite tbl_insert_last by done. rewrite IH; [by rewrite <- app_assoc|].
  rewrite map_app. simpl. by rewrite <- app_assoc.
Qed.

End Values.

Lemma imap_values_ext {V W} (f g : str -> V -> W) (t : list (str * V)) :
  (forall k v, (k, v) ∈ t -> f k v = g k v) -> imap_values f t = imap_values g t.
Proof.
  intros H. apply map_ext_in. intros [k v] Hin%list_elem_of_In. simpl. by rewrite H.
Qed.
