(* ===== verification/Toml.v ===== *)
(** * Toml: values of configuration files, merged and overridden

    [toml::Value] as the code uses it, the renaming of legacy keys
    ([config/src/key_aliases.rs]), the merge of a layer into another
    ([merge.rs]), the overrides of the command line ([overrides.rs]) and the
    recorded origins of fields ([fingerprint.rs]).

    The merge recurses on a copy of the overlay whose keys are renamed, so that
    it takes fuel; [merge_toml_values] gives the depth of the overlay, and
    [merge_at_path_spec] says that this is enough. *)

From S2P Require Import Prelude BTree.
Local Open Scope str_scope.

(** ** Values *)

(** A float is the bits of the [f64]; a date is its text. *)
Inductive TomlValue : Type :=
| TString (s : str)
| TInteger (i : Z)
| TFloat (bits : N)
| TBoolean (b : bool)
| TDatetime (text : str)
| TArray (items : list TomlValue)
| TTable (table : list (str * TomlValue)).

Notation TomlMap := (list (str * TomlValue)).

Definition is_scalar (v : TomlValue) : bool :=
  match v with TArray _ | TTable _ => false | _ => true end.

Fixpoint toml_depth (v : TomlValue) : nat :=
  match v with
  | TArray items => S (foldr (fun x n => Nat.max (toml_depth x) n) 0 items)
  | TTable table => S (foldr (fun kv n => Nat.max (toml_depth kv.2) n) 0 table)
  | _ => 0
  end.

(** Every table of a value satisfies [q]. *)
Fixpoint tables_all (q : TomlMap -> bool) (v : TomlValue) : bool :=
  match v with
  | TArray items => forallb (tables_all q) items
  | TTable table => q table && forallb (fun kv => tables_all q kv.2) table
  | _ => true
  end.

Fixpoint keys_increase (l : list str) : bool :=
  match l with
  | a :: (b :: _) as l' => str_leb a b && negb (a =? b) && keys_increase l'
  | _ => true
  end.

(** The invariant of [toml::Value]. *)
Definition toml_wf : TomlValue -> bool := tables_all (fun t => keys_increase (map fst t)).

(** ** [key_aliases.rs] *)

Record ConfigKeyAlias : Type := mkAlias {
  table_path : list str;
  legacy_key : str;
  canonical_key : str;
}.

Definition CONFIG_KEY_ALIASES : list ConfigKeyAlias :=
  [mkAlias [lit "memories"] (lit "no_memories_if_mcp_or_web_search")
     (lit "disable_on_external_context")].

Definition normalize_key_alias (path : list str) (table : TomlMap) (alias : ConfigKeyAlias) : TomlMap :=
  if bool_decide (path = table_path alias) then
    match tbl_get (legacy_key alias) table with
    | Some value =>
        let table := tbl_remove (legacy_key alias) table in
        match tbl_get (canonical_key alias) table with
        | Some _ => table
        | None => tbl_insert (canonical_key alias) value table
        end
    | None => table
    end
  else table.

Definition normalize_key_aliases (path : list str) (table : TomlMap) : TomlMap :=
  fold_left (normalize_key_alias path) CONFIG_KEY_ALIASES table.

Fixpoint normalized_with_key_aliases (value : TomlValue) (path : list str) : TomlValue :=
  match value with
  | TTable table =>
      TTable (normalize_key_aliases path
        (fold_left (fun normalized kv =>
           tbl_insert kv.1 (normalized_with_key_aliases kv.2 (path ++ [kv.1])) normalized) table []))
  | TArray items => TArray (map (fun item => normalized_with_key_aliases item path) items)
  | _ => value
  end.

(** ** [merge.rs] *)

(** One round of the loop over the overlay's entries. *)
Definition merge_step (merge : TomlValue -> TomlValue -> list str -> TomlValue) (path : list str)
    (base_table : TomlMap) (kv : str * TomlValue) : TomlMap :=
  let (key, value) := kv in
  let path := path ++ [key] in
  match tbl_get key base_table with
  | Some existing => tbl_insert key (merge existing value path) base_table
  | None => tbl_insert key (normalized_with_key_aliases value path) base_table
  end.

Fixpoint merge_toml_values_at_path (fuel : nat) (base overlay : TomlValue) (path : list str) : TomlValue :=
  match fuel with
  | O => base
  | S fuel =>
      match overlay, base with
      | TTable overlay_table, TTable base_table =>
          TTable (fold_left (merge_step (merge_toml_values_at_path fuel) path)
                    (normalize_key_aliases path overlay_table)
                    (normalize_key_aliases path base_table))
      | _, _ => normalized_with_key_aliases overlay path
      end
  end.

Definition merge_toml_values (base overlay : TomlValue) : TomlValue :=
  merge_toml_values_at_path (S (toml_depth overlay)) base overlay [].

(** ** [overrides.rs] *)

Definition DOT : N := ch ".".

Definition default_empty_table : TomlValue := TTable [].

Definition table_of (v : TomlValue) : TomlMap :=
  match v with TTable table => table | _ => [] end.

(** The loop over the segments; [current] is the value it points at. *)
Fixpoint apply_segments (current : TomlValue) (segments : list str) (value : TomlValue) : TomlValue :=
  match segments with
  | [] => current
  | [segment] => TTable (tbl_insert segment value (table_of current))
  | segment :: segments =>
      let child := default default_empty_table (tbl_get segment (table_of current)) in
      TTable (tbl_insert segment (apply_segments child segments value) (table_of current))
  end.

Definition apply_toml_override (root : TomlValue) (path : str) (value : TomlValue) : TomlValue :=
  apply_segments root (split_char DOT path) value.

Definition build_cli_overrides_layer (cli_overrides : list (str * TomlValue)) : TomlValue :=
  fold_left (fun root pv => apply_toml_override root pv.1 pv.2) cli_overrides default_empty_table.

(** ** [fingerprint.rs]: origins *)

(** The index of an array is an [i32] in the code; an array with more entries
    does not fit a configuration file. *)
Fixpoint record_origins {Meta} (value : TomlValue) (meta : Meta) (path : list str)
    (origins : gmap str Meta) : gmap str Meta :=
  match value with
  | TTable table =>
      fold_left (fun origins kv => record_origins kv.2 meta (path ++ [kv.1]) origins) table origins
  | TArray items =>
      (fold_left (fun st item =>
         (S st.1, record_origins item meta (path ++ [show_nat st.1]) st.2)) items (0, origins)).2
  | _ => if is_empty path then origins else <[join [DOT] path := meta]> origins
  end.

(** ** Induction over values *)

Section TomlInd.
Variable P : TomlValue -> Prop.
Hypothesis HS : forall v, is_scalar v = true -> P v.
Hypothesis HA : forall items, Forall P items -> P (TArray items).
Hypothesis HT : forall table, Forall (fun kv => P kv.2) table -> P (TTable table).

Fixpoint toml_ind' (v : TomlValue) : P v :=
  match v with
  | TString s => HS (TString s) eq_refl
  | TInteger i => HS (TInteger i) eq_refl
  | TFloat b => HS (TFloat b) eq_refl
  | TBoolean b => HS (TBoolean b) eq_refl
  | TDatetime d => HS (TDatetime d) eq_refl
  | TArray items =>
      HA items ((fix go (l : list TomlValue) : Forall P l :=
        match l with [] => Forall_nil_2 P | x :: l => Forall_cons_2 P x l (toml_ind' x) (go l) end) items)
  | TTable table =>
      HT table ((fix go (t : TomlMap) : Forall (fun kv => P kv.2) t :=
        match t with
        | [] => Forall_nil_2 _
        | kv :: t => Forall_cons_2 _ kv t (toml_ind' kv.2) (go t)
        end) table)
  end.
End TomlInd.

(** Scalars are left alone by everything below. *)
Ltac scalar v := destruct v; simpl in *; try discriminate.

Lemma forallb_Forall' {A} (f : A -> bool) l : forallb f l = true <-> Forall (fun x => f x = true) l.
Proof. induction l as [|x l IH]; simpl; [by split|]. by rewrite andb_true_iff, Forall_cons, IH. Qed.

Lemma keys_increase_sorted l : keys_increase l = true <-> StronglySorted str_lt l.
Proof.
  induction l as [|a l IH]; [split; [constructor|done]|]. destruct l as [|b l].
  { split; [repeat constructor|done]. }
  change (keys_increase (a :: b :: l)) with
    (str_leb a b && negb (a =? b) && keys_increase (b :: l)).
  rewrite !andb_true_iff, negb_true_iff, bool_decide_eq_false, IH. split.
  - intros [[L N] Hs]. constructor; [done|]. constructor; [done|].
    apply StronglySorted_inv in Hs as [_ Hb]. eapply Forall_impl; [done|].
    intros c. by apply str_lt_trans.
  - intros [Hs [Hab _]%Forall_cons]%StronglySorted_inv. by destruct Hab.
Qed.

Lemma wf_table t : toml_wf (TTable t) = true <->
  sorted_tbl t /\ Forall (fun kv => toml_wf kv.2 = true) t.
Proof. unfold toml_wf. simpl. by rewrite andb_true_iff, forallb_Forall', keys_increase_sorted. Qed.

Lemma wf_array l : toml_wf (TArray l) = true <-> Forall (fun x => toml_wf x = true) l.
Proof. apply forallb_Forall'. Qed.

Lemma foldr_max_le {A} (f : A -> nat) l x : x ∈ l -> f x <= foldr (fun y n => Nat.max (f y) n) 0 l.
Proof. induction 1; simpl; lia. Qed.

Lemma depth_entry k v t : (k, v) ∈ t -> toml_depth v < toml_depth (TTable t).
Proof. intros H. simpl. pose proof (foldr_max_le (fun kv => toml_depth kv.2) t _ H) as L. simpl in L. lia. Qed.

(** ** Renaming keys *)

Section Aliases.

Definition MEMORIES : list str := [lit "memories"].
Definition LEGACY : str := lit "no_memories_if_mcp_or_web_search".
Definition CANONICAL : str := lit "disable_on_external_context".

Lemma aliases_eq path t : normalize_key_aliases path t =
  if bool_decide (path = MEMORIES) then
    match tbl_get LEGACY t with
    | Some v => match tbl_get CANONICAL (tbl_remove LEGACY t) with
                | Some _ => tbl_remove LEGACY t
                | None => tbl_insert CANONICAL v (tbl_remove LEGACY t)
                end
    | None => t
    end
  else t.
Proof. reflexivity. Qed.

Lemma aliases_sorted path t : sorted_tbl t -> sorted_tbl (normalize_key_aliases path t).
Proof.
  intros Hs. rewrite aliases_eq. repeat case_match; auto using sorted_insert, sorted_remove.
Qed.

Lemma aliases_elem path t k v : (k, v) ∈ normalize_key_aliases path t ->
  (k, v) ∈ t \/ (path = MEMORIES /\ k = CANONICAL /\ (LEGACY, v) ∈ t).
Proof.
  rewrite aliases_eq. repeat case_match; bool_to_prop; auto.
  - intros Hin%elem_of_tbl_remove. auto.
  - intros [[= -> ->]|Hin%elem_of_tbl_remove]%elem_of_tbl_insert; [|auto].
    right. split; [done|]. split; [done|]. by apply tbl_get_Some_elem.
Qed.

(** What a table has after the renaming. *)
Lemma aliases_get path t k : sorted_tbl t ->
  tbl_get k (normalize_key_aliases path t) =
  if bool_decide (path = MEMORIES) then
    if k =? LEGACY then None
    else if k =? CANONICAL then
      match tbl_get CANONICAL t with Some v => Some v | None => tbl_get LEGACY t end
    else tbl_get k t
  else tbl_get k t.
Proof.
  intros Hs. rewrite aliases_eq. case_bool_decide; [|done].
  assert (CANONICAL <> LEGACY) as N by done.
  rewrite tbl_get_remove_ne by done.
  destruct (tbl_get LEGACY t) as [v|] eqn:EL, (tbl_get CANONICAL t) as [w|] eqn:EC;
    repeat case_bool_decide; subst; try done;
    rewrite ?tbl_get_insert, ?tbl_get_insert_ne by done;
    rewrite ?tbl_get_remove, ?tbl_get_remove_ne by done; done.
Qed.

Lemma aliases_imap (f : str -> TomlValue -> TomlValue) path t :
  (path = MEMORIES -> forall v, f LEGACY v = f CANONICAL v) ->
  normalize_key_aliases path (imap_values f t) = imap_values f (normalize_key_aliases path t).
Proof.
  intros Hf. rewrite !aliases_eq. case_bool_decide as E; [|done]. specialize (Hf E).
  rewrite tbl_get_imap_values, tbl_remove_imap_values, tbl_get_imap_values.
  destruct (tbl_get LEGACY t) as [v|]; simpl; [|done].
  destruct (tbl_get CANONICAL _); simpl; [done|].
  by rewrite Hf, tbl_insert_imap_values.
Qed.

(** The code's path only matters while it can reach a renamed table. *)
Lemma normalized_deep v p q : 2 <= length p -> 2 <= length q ->
  normalized_with_key_aliases v p = normalized_with_key_aliases v q.
Proof.
  revert p q. induction v as [v Hv|l IH|t IH] using toml_ind'; intros p q Hp Hq; [by scalar v| |].
  - simpl. f_equal. apply map_ext_in. intros x Hx%list_elem_of_In.
    rewrite Forall_forall in IH. by apply IH.
  - simpl. rewrite !aliases_eq, !bool_decide_false by (intros ->; simpl in *; lia). f_equal.
    generalize (@nil (str * TomlValue)).
    induction IH as [|[k v] t Hv Ht IHt]; intros acc; simpl; [done|].
    simpl in Hv. rewrite (Hv (p ++ [k]) (q ++ [k])); [apply IHt| |]; rewrite length_app; simpl; lia.
Qed.

Lemma normalized_table t path : sorted_tbl t ->
  normalized_with_key_aliases (TTable t) path =
  TTable (normalize_key_aliases path
    (imap_values (fun k v => normalized_with_key_aliases v (path ++ [k])) t)).
Proof.
  intros Hs. simpl. f_equal. f_equal.
  apply (fold_insert_sorted (fun k v => normalized_with_key_aliases v (path ++ [k]))). done.
Qed.

Lemma memories_child (path : list str) k : path = MEMORIES -> 2 <= length (path ++ [k]).
Proof. intros ->. done. Qed.

(** The renaming and the recursion commute. *)
Lemma normalized_table' t path : sorted_tbl t ->
  normalized_with_key_aliases (TTable t) path =
  TTable (imap_values (fun k v => normalized_with_key_aliases v (path ++ [k]))
    (normalize_key_aliases path t)).
Proof.
  intros Hs. rewrite normalized_table by done. f_equal. apply aliases_imap.
  intros E v. apply normalized_deep; by apply memories_child.
Qed.

(** [q] does not distinguish what the renaming changes. *)
Lemma normalized_tables_all q v path :
  (forall f t, q (imap_values f t) = q t) ->
  (forall p t, sorted_tbl t -> q t = true -> q (normalize_key_aliases p t) = true) ->
  toml_wf v = true -> tables_all q v = true ->
  tables_all q (normalized_with_key_aliases v path) = true.
Proof.
  intros Hmap Hal. revert path.
  induction v as [v Hv|l IH|t IH] using toml_ind'; intros path Hwf Hq; [by scalar v| |].
  - apply wf_array in Hwf. simpl in *. rewrite forallb_Forall' in *. apply Forall_map.
    rewrite Forall_forall in *. intros x Hx. simpl. by apply IH; [|apply Hwf|apply Hq].
  - apply wf_table in Hwf as [Hs Hwf]. rewrite normalized_table' by done.
    simpl in Hq |- *. apply andb_true_iff in Hq as [Hqt Hq]. rewrite Hmap, Hal by done. simpl.
    rewrite forallb_Forall' in Hq |- *. apply Forall_map, Forall_forall. intros [k v] Hin. simpl.
    assert (exists k', (k', v) ∈ t) as [k' Hin'] by (apply aliases_elem in Hin; naive_solver).
    rewrite Forall_forall in IH, Hwf, Hq.
    by apply (IH _ Hin'); [apply (Hwf _ Hin')|apply (Hq _ Hin')].
Qed.

Lemma normalized_wf v path : toml_wf v = true -> toml_wf (normalized_with_key_aliases v path) = true.
Proof.
  intros Hwf. apply normalized_tables_all; [| |done|done].
  - intros f t. by rewrite keys_imap_values.
  - intros p t Hs _. apply keys_increase_sorted. by apply aliases_sorted.
Qed.

End Aliases.

(** ** The merge is a deep merge of the renamed values *)

(** The reference: tables are merged key by key, anything else is replaced. *)
Fixpoint deep_merge (base overlay : TomlValue) : TomlValue :=
  match overlay with
  | TTable overlay_table =>
      match base with
      | TTable base_table =>
          TTable (fold_left (fun t kv =>
            tbl_insert kv.1 (match tbl_get kv.1 t with
                             | Some existing => deep_merge existing kv.2
                             | None => kv.2
                             end) t) overlay_table base_table)
      | _ => overlay
      end
  | _ => overlay
  end.

(** No legacy key where it would be renamed. *)
Fixpoint canonical (v : TomlValue) (path : list str) : bool :=
  match v with
  | TArray items => forallb (fun x => canonical x path) items
  | TTable table =>
      negb (bool_decide (path = MEMORIES) && bool_decide (is_Some (tbl_get LEGACY table))) &&
      forallb (fun kv => canonical kv.2 (path ++ [kv.1])) table
  | _ => true
  end.

Definition canonical_entries (path : list str) (t : TomlMap) : Prop :=
  Forall (fun kv => canonical kv.2 (path ++ [kv.1]) = true) t.

Lemma canonical_table t path : canonical (TTable t) path = true <->
  (path = MEMORIES -> tbl_get LEGACY t = None) /\ canonical_entries path t.
Proof.
  simpl. unfold canonical_entries.
  rewrite andb_true_iff, negb_true_iff, andb_false_iff, !bool_decide_eq_false, forallb_Forall'.
  rewrite <- eq_None_not_Some. destruct (decide (path = MEMORIES)); naive_solver.
Qed.

Lemma canonical_aliases t path : canonical (TTable t) path = true -> normalize_key_aliases path t = t.
Proof.
  intros [H _]%canonical_table. rewrite aliases_eq. case_bool_decide as E; [|done].
  by rewrite H.
Qed.

Lemma normalized_canonical v path : toml_wf v = true ->
  canonical (normalized_with_key_aliases v path) path = true.
Proof.
  revert path. induction v as [v Hv|l IH|t IH] using toml_ind'; intros path Hwf; [by scalar v| |].
  - apply wf_array in Hwf. simpl. apply forallb_Forall', Forall_map.
    rewrite Forall_forall in *. intros x Hx. simpl. by apply IH, Hwf.
  - apply wf_table in Hwf as [Hs Hwf]. rewrite normalized_table' by done.
    apply canonical_table. split.
    + intros E. rewrite tbl_get_imap_values, aliases_get by done.
      by rewrite !bool_decide_true.
    + apply Forall_map, Forall_forall. intros [k v] Hin. simpl.
      assert (exists k', (k', v) ∈ t) as [k' Hin'] by (apply aliases_elem in Hin; naive_solver).
      rewrite Forall_forall in IH, Hwf. by apply (IH _ Hin'), (Hwf _ Hin').
Qed.

(** The two loops, and what they keep. *)
Definition deep_step (t : TomlMap) (kv : str * TomlValue) : TomlMap :=
  tbl_insert kv.1 (match tbl_get kv.1 t with
                   | Some existing => deep_merge existing kv.2
                   | None => kv.2
                   end) t.

Lemma deep_merge_tables bt ot :
  deep_merge (TTable bt) (TTable ot) = TTable (fold_left deep_step ot bt).
Proof. reflexivity. Qed.

(** An invariant of a loop that may use what is known of the entries. *)
Lemma fold_left_inv {A B} (Inv : A -> Prop) (Q : B -> Prop) (f : A -> B -> A) l a :
  (forall a b, Inv a -> Q b -> Inv (f a b)) -> Inv a -> Forall Q l -> Inv (fold_left f l a).
Proof. intros Hf Ha Hl. revert a Ha. induction Hl; simpl; auto. Qed.

Lemma keys_deep_fold ot bt k :
  k ∈ map fst (fold_left deep_step ot bt) <-> k ∈ map fst ot \/ k ∈ map fst bt.
Proof.
  revert bt. induction ot as [|[j v] ot IH]; intros bt; simpl; [set_solver|].
  rewrite IH. unfold deep_step. simpl. rewrite keys_tbl_insert. set_solver.
Qed.

Lemma canonical_insert path t k v : canonical_entries path t ->
  canonical v (path ++ [k]) = true -> canonical_entries path (tbl_insert k v t).
Proof.
  intros Ht Hv. apply Forall_forall. intros x [->|Hin]%elem_of_tbl_insert; [done|].
  unfold canonical_entries in Ht. rewrite Forall_forall in Ht. by apply Ht.
Qed.

Lemma canonical_get path t k v : canonical_entries path t -> tbl_get k t = Some v ->
  canonical v (path ++ [k]) = true.
Proof.
  unfold canonical_entries. rewrite Forall_forall. intros H Hg%tbl_get_Some_elem. by apply H in Hg.
Qed.

Lemma deep_merge_canonical o b path : canonical b path = true -> canonical o path = true ->
  canonical (deep_merge b o) path = true.
Proof.
  revert b path. induction o as [o Ho|l IH|ot IH] using toml_ind'; intros b path Hb Ho'; [by scalar o|done|].
  destruct b as [| | | | | |bt]; try done.
  rewrite deep_merge_tables. apply canonical_table in Hb as [Hlb Hb], Ho' as [Hlo Ho].
  apply canonical_table. split.
  - intros E. specialize (Hlb E). specialize (Hlo E). rewrite tbl_get_None in *.
    rewrite keys_deep_fold. tauto.
  - eapply (fold_left_inv _ (fun kv => kv ∈ ot)); [|done|by apply Forall_forall].
    intros t [k v] Ht Hin. apply canonical_insert; [done|]. simpl.
    unfold canonical_entries in Ho. rewrite Forall_forall in Ho, IH.
    destruct (tbl_get k t) eqn:E; [|by apply (Ho _ Hin)].
    apply (IH _ Hin); [by eapply canonical_get|by apply (Ho _ Hin)].
Qed.

Lemma deep_merge_nontable b o : (forall t, o <> TTable t) -> deep_merge b o = o.
Proof. intros H. destruct o; try done. by destruct (H table). Qed.

(** With fuel above the overlay's depth, the code's merge is [deep_merge]. *)
Lemma merge_at_path_spec fuel o b path :
  toml_depth o < fuel -> toml_wf o = true -> canonical b path = true ->
  merge_toml_values_at_path fuel b o path = deep_merge b (normalized_with_key_aliases o path).
Proof.
  revert o b path. induction fuel as [|fuel IH]; intros o b path Hd Hwf Hb; [lia|].
  destruct o as [| | | | | |ot]; try (by destruct b).
  pose proof Hwf as [Hs Hw]%wf_table.
  destruct b as [| | | | | |bt]; try reflexivity.
  rewrite normalized_table', deep_merge_tables by done. simpl merge_toml_values_at_path. f_equal. rewrite (canonical_aliases bt) by done.
  apply canonical_table in Hb as [_ Hb].
  assert (Forall (fun kv => toml_wf kv.2 = true /\ toml_depth kv.2 < fuel)
            (normalize_key_aliases path ot)) as Hot.
  { apply Forall_forall. intros [k v] Hin.
    assert (exists k', (k', v) ∈ ot) as [k' Hin'] by (apply aliases_elem in Hin; naive_solver).
    rewrite Forall_forall in Hw. pose proof (depth_entry _ _ _ Hin'). split; [by apply (Hw _ Hin')|].
    simpl. lia. }
  assert (sorted_tbl (normalize_key_aliases path ot)) as Hs' by by apply aliases_sorted.
  revert bt Hb. induction Hot as [|[k v] ot' [Hv Hdv] Hot IHot]; intros bt Hb; [done|].
  simpl. unfold deep_step at 2. simpl.
  assert (forall w, canonical w (path ++ [k]) = true ->
    canonical_entries path (tbl_insert k w bt)) as Hins by (intros; by apply canonical_insert).
  apply StronglySorted_inv in Hs' as [Hs' _].
  destruct (tbl_get k bt) as [existing|] eqn:Eg.
  - pose proof (canonical_get _ _ _ _ Hb Eg). rewrite IH by done.
    apply IHot; [done|]. apply Hins, deep_merge_canonical; [done|]. by apply normalized_canonical.
  - apply IHot; [done|]. by apply Hins, normalized_canonical.
Qed.

Lemma merge_toml_values_spec b o : toml_wf o = true -> canonical b [] = true ->
  merge_toml_values b o = deep_merge b (normalized_with_key_aliases o []).
Proof. intros. apply merge_at_path_spec; [lia|done|done]. Qed.

Lemma deep_merge_wf o b : toml_wf b = true -> toml_wf o = true -> toml_wf (deep_merge b o) = true.
Proof.
  revert b. induction o as [o Ho|l IH|ot IH] using toml_ind'; intros b Hb Ho'; [by scalar o|done|].
  destruct b as [| | | | | |bt]; try done.
  rewrite deep_merge_tables. apply wf_table in Hb, Ho' as [_ Ho]. apply wf_table.
  eapply (fold_left_inv (fun t => sorted_tbl t /\ Forall (fun kv => toml_wf kv.2 = true) t)
            (fun kv => kv ∈ ot)); [|done|by apply Forall_forall].
  intros t [k v] [Hst Ht] Hin. split; [by apply sorted_insert|].
  rewrite Forall_forall in *. intros x [->|Hx]%elem_of_tbl_insert; [|by apply Ht]. simpl.
  destruct (tbl_get k t) eqn:E; [|by apply (Ho _ Hin)].
  apply (IH _ Hin); [by apply (Ht _ (tbl_get_Some_elem _ _ _ E))|by apply (Ho _ Hin)].
Qed.

(** ** What a path leads to *)

Fixpoint tget (p : list str) (v : TomlValue) : option TomlValue :=
  match p with
  | [] => Some v
  | k :: p => match v with TTable t => tbl_get k t ≫= tget p | _ => None end
  end.

(** The setting at a path: what is there, unless it is a table. *)
Definition setting (p : list str) (v : TomlValue) : option TomlValue :=
  match tget p v with Some (TTable _) => None | r => r end.

(** The value decides what is at the path: by having it, or by having
    something that is no table on the way to it. *)
Fixpoint decides_path (p : list str) (v : TomlValue) : bool :=
  match p with
  | [] => true
  | k :: p =>
      match v with
      | TTable t => match tbl_get k t with Some c => decides_path p c | None => false end
      | _ => true
      end
  end.

Lemma setting_cons k p t : setting (k :: p) (TTable t) = tbl_get k t ≫= setting p.
Proof. unfold setting. simpl. by destruct (tbl_get k t). Qed.

Lemma setting_nontable k p v : (forall t, v <> TTable t) -> setting (k :: p) v = None.
Proof. intros H. destruct v; try done. by destruct (H table). Qed.

Lemma tbl_get_deep_fold ot bt k : sorted_tbl ot ->
  tbl_get k (fold_left deep_step ot bt) =
  match tbl_get k ot with
  | Some v => Some (match tbl_get k bt with Some e => deep_merge e v | None => v end)
  | None => tbl_get k bt
  end.
Proof.
  intros Hs%sorted_NoDup. revert bt. induction ot as [|[j v] ot IH]; intros bt; simpl; [done|].
  apply NoDup_cons in Hs as [Hj Hs]. rewrite IH by done. unfold deep_step. simpl.
  case_bool_decide; [subst j|by rewrite tbl_get_insert_ne].
  by rewrite (proj2 (tbl_get_None k ot) Hj), tbl_get_insert.
Qed.

(** A path that a value does not decide has no setting there. *)
Lemma undecided_setting p v : decides_path p v = false -> setting p v = None.
Proof.
  revert v. induction p as [|k p IH]; intros v; simpl; [done|].
  destruct v; try done. rewrite setting_cons. destruct (tbl_get k table); simpl; [apply IH|done].
Qed.

(** A setting of a merge is the overlay's, if the overlay decides the path. *)
Lemma setting_deep_merge p b o : toml_wf o = true ->
  setting p (deep_merge b o) = if decides_path p o then setting p o else setting p b.
Proof.
  revert b o. induction p as [|k p IH]; intros b o Hwf.
  { simpl. unfold setting. simpl. destruct o; try done. by destruct b. }
  assert ((forall t, b <> TTable t) ->
    setting (k :: p) o = if decides_path (k :: p) o then setting (k :: p) o else setting (k :: p) b) as Hnt.
  { intros Hb. destruct (decides_path _ _) eqn:Ed; [done|].
    by rewrite (setting_nontable k p b), undecided_setting. }
  destruct o as [| | | | | |ot]; try (by rewrite deep_merge_nontable).
  destruct b as [| | | | | |bt]; try (by apply Hnt). clear Hnt.
  pose proof Hwf as [Hs Hw]%wf_table.
  rewrite deep_merge_tables, !setting_cons, tbl_get_deep_fold by done. simpl.
  destruct (tbl_get k ot) as [v|] eqn:Ev; simpl; [|done].
  assert (toml_wf v = true) as Hv.
  { rewrite Forall_forall in Hw. by apply (Hw _ (tbl_get_Some_elem _ _ _ Ev)). }
  destruct (tbl_get k bt) as [e|]; simpl; [by apply IH|].
  destruct (decides_path p v) eqn:Ed; [done|]. by apply undecided_setting.
Qed.

(** What the renaming does to the settings, at any path: the canonical key
    wins in its own table. *)
Definition renamed (p : list str) (v : TomlValue) : option TomlValue :=
  match p with
  | m :: k :: p' =>
      if m =? lit "memories" then
        if k =? LEGACY then None
        else if k =? CANONICAL then
          match tget [m; CANONICAL] v with Some w => tget p' w | None => tget (m :: LEGACY :: p') v end
        else tget p v
      else tget p v
  | _ => tget p v
  end.

(** ** Overrides *)

(** [path] and [q] lead to different places. *)
Definition apart (p q : list str) : Prop := ~ p `prefix_of` q /\ ~ q `prefix_of` p.

Lemma table_of_nontable v : (forall t, v <> TTable t) -> table_of v = [].
Proof. intros H. destruct v; try done. by destruct (H table). Qed.

Lemma apply_segments_table c k segs v :
  apply_segments c (k :: segs) v =
  TTable (tbl_insert k
    (if is_empty segs then v
     else apply_segments (default default_empty_table (tbl_get k (table_of c))) segs v) (table_of c)).
Proof. by destruct segs. Qed.

Lemma apply_segments_at segs c v : segs <> [] -> tget segs (apply_segments c segs v) = Some v.
Proof.
  revert c. induction segs as [|k segs IH]; intros c N; [done|].
  rewrite apply_segments_table. simpl. rewrite tbl_get_insert. simpl.
  destruct segs; [done|]. by apply IH.
Qed.

Lemma setting_empty p : setting p default_empty_table = None.
Proof. by destruct p. Qed.

Lemma setting_table_of k p c : setting (k :: p) (TTable (table_of c)) = setting (k :: p) c.
Proof. destruct c; try done; apply setting_empty. Qed.

Lemma apply_segments_apart segs c v q : apart segs q ->
  setting q (apply_segments c segs v) = setting q c.
Proof.
  revert c q. induction segs as [|k segs IH]; intros c q [H1 H2]; [by destruct H1; apply prefix_nil|].
  destruct q as [|j q]; [by destruct H2; apply prefix_nil|].
  rewrite apply_segments_table, <- (setting_table_of j q c), !setting_cons.
  destruct (decide (j = k)) as [->|N]; [|by rewrite tbl_get_insert_ne].
  rewrite tbl_get_insert. cbn [mbind option_bind].
  assert (apart segs q) as Ha by (split; intros ?; [apply H1|apply H2]; by apply prefix_cons).
  destruct segs as [|s segs]; [by destruct Ha as [[] _]; apply prefix_nil|].
  cbn [is_empty]. rewrite IH by done.
  destruct (tbl_get k (table_of c)); simpl; [done|]. apply setting_empty.
Qed.

Lemma tget_app p q v : tget (p ++ q) v = tget p v ≫= tget q.
Proof.
  revert v. induction p as [|k p IH]; intros v; simpl; [done|].
  destruct v; try done. destruct (tbl_get k table); simpl; [apply IH|done].
Qed.

Lemma apply_segments_wf segs c v : segs <> [] -> toml_wf c = true -> toml_wf v = true ->
  toml_wf (apply_segments c segs v) = true.
Proof.
  revert c. induction segs as [|k segs IH]; intros c N Hc Hv; [done|].
  rewrite apply_segments_table.
  assert (toml_wf (TTable (table_of c)) = true) as [Hs Ht]%wf_table by (by destruct c).
  apply wf_table. split; [by apply sorted_insert|].
  rewrite Forall_forall in *. intros x [->|Hx]%elem_of_tbl_insert; [|by apply Ht]. simpl.
  destruct segs as [|s segs]; simpl is_empty; [done|]. apply IH; [done| |done].
  destruct (tbl_get k _) eqn:E; simpl; [|done]. by apply (Ht _ (tbl_get_Some_elem _ _ _ E)).
Qed.

(** ** The theorems of this file *)

Fixpoint strip_list (p q : list str) : option (list str) :=
  match p, q with
  | [], _ => Some q
  | a :: p, b :: q => if a =? b then strip_list p q else None
  | _ :: _, [] => None
  end.

Lemma strip_list_Some p q r : strip_list p q = Some r <-> q = p ++ r.
Proof.
  revert q. induction p as [|a p IH]; intros [|b q]; simpl; try naive_solver.
  case_bool_decide; [subst; rewrite IH|]; naive_solver.
Qed.

Lemma strip_list_None p q : strip_list p q = None -> ~ p `prefix_of` q.
Proof.
  intros H [r Hr]. apply strip_list_Some in Hr. congruence.
Qed.

(** What one override says of the setting at [q], if it says anything. *)
Definition override_setting (q : list str) (override : str * TomlValue) : option (option TomlValue) :=
  let segments := split_char DOT override.1 in
  match strip_list segments q with
  | Some rest => Some (setting rest override.2)
  | None => if strip_list q segments then Some None else None
  end.

Lemma setting_app p q v : setting (p ++ q) v = tget p v ≫= setting q.
Proof. unfold setting. rewrite tget_app. by destruct (tget p v). Qed.

Lemma override_one root path value q :
  setting q (apply_toml_override root path value) =
  default (setting q root) (override_setting q (path, value)).
Proof.
  unfold apply_toml_override, override_setting. simpl.
  pose proof (split_char_not_nil DOT path) as N. set (segs := split_char DOT path) in *.
  destruct (strip_list segs q) as [rest|] eqn:E1.
  { apply strip_list_Some in E1 as ->. by rewrite setting_app, apply_segments_at. }
  destruct (strip_list q segs) as [rest|] eqn:E2; simpl.
  - apply strip_list_Some in E2. rewrite E2 in N, E1 |- *. clear E2 segs.
    revert root N E1. induction q as [|k q IH]; intros root N E1; cbn [app] in N, E1 |- *.
    + destruct rest; [done|]. by rewrite apply_segments_table.
    + rewrite apply_segments_table, setting_cons, tbl_get_insert. cbn [mbind option_bind].
      simpl in E1. rewrite bool_decide_true in E1 by done.
      destruct (q ++ rest) as [|s l] eqn:E; [by destruct q|]. cbn [is_empty].
      by apply IH.
  - apply apply_segments_apart. split; by apply strip_list_None.
Qed.

(** Overrides of the command line: the layer they make has, at every path,
    what the last override that says anything of the path gives it (the value
    at the rest of the path, or nothing when the override makes the path a
    table), and it is a well-formed value when theirs are. *)
Theorem cli_overrides_spec (cli_overrides : list (str * TomlValue)) (q : list str) :
  setting q (build_cli_overrides_layer cli_overrides) =
    default None (head (omap (override_setting q) (rev cli_overrides))) /\
  (Forall (fun pv => toml_wf pv.2 = true) cli_overrides ->
   toml_wf (build_cli_overrides_layer cli_overrides) = true).
Proof.
  unfold build_cli_overrides_layer. split.
  - induction cli_overrides as [|[p v] l IH] using rev_ind; [apply setting_empty|].
    rewrite fold_left_app, rev_app_distr. simpl. rewrite override_one.
    destruct (override_setting q (p, v)) as [r|]; simpl; [done|]. apply IH.
  - intros Hl. eapply fold_left_inv; [|done|done]. intros root [p v] Hr Hv.
    apply apply_segments_wf; [apply split_char_not_nil|done|done].
Qed.

Lemma cli_overrides_spec_witness :
  setting [lit "a"; lit "b"] (build_cli_overrides_layer
    [(lit "a.b", TInteger 1); (lit "a", TTable [(lit "b", TInteger 2)]); (lit "a.c", TBoolean true)])
  = Some (TInteger 2) /\
  toml_wf (build_cli_overrides_layer [(lit "a.b", TInteger 1)]) = true.
Proof.
  split.
  - rewrite (proj1 (cli_overrides_spec _ _)). vm_compute. reflexivity.
  - apply cli_overrides_spec; [exact []|]. repeat constructor.
Defined.

Lemma normalized_id v path : toml_wf v = true -> (forall q, path ++ q <> MEMORIES) ->
  normalized_with_key_aliases v path = v.
Proof.
  revert path. induction v as [v Hv|l IH|t IH] using toml_ind'; intros path Hwf Hp; [by scalar v| |].
  - apply wf_array in Hwf. simpl. f_equal. rewrite <- (map_id l) at 2.
    apply map_ext_in. intros x Hx%list_elem_of_In. rewrite Forall_forall in *. by apply IH, Hp; [|apply Hwf].
  - apply wf_table in Hwf as [Hs Hwf]. rewrite normalized_table' by done. f_equal.
    rewrite aliases_eq, bool_decide_false by (rewrite <- (app_nil_r path); apply Hp).
    unfold imap_values. rewrite <- (map_id t) at 2.
    apply map_ext_in. intros [k v] Hx%list_elem_of_In. simpl. f_equal.
    rewrite Forall_forall in IH, Hwf. apply (IH _ Hx); [by apply (Hwf _ Hx)|].
    intros q. rewrite <- app_assoc. apply Hp.
Qed.

Lemma wf_get t k v : toml_wf (TTable t) = true -> tbl_get k t = Some v -> toml_wf v = true.
Proof.
  intros [_ Ht]%wf_table Hg%tbl_get_Some_elem. rewrite Forall_forall in Ht. by apply (Ht _ Hg).
Qed.

(** The entries of a normalised table *)
Lemma tget_normalized k p t path : toml_wf (TTable t) = true ->
  tget (k :: p) (normalized_with_key_aliases (TTable t) path) =
  tbl_get k (normalize_key_aliases path t) ≫= fun v => tget p (normalized_with_key_aliases v (path ++ [k])).
Proof.
  intros [Hs _]%wf_table. rewrite normalized_table' by done. simpl.
  rewrite tbl_get_imap_values. by destruct (tbl_get k _).
Qed.

(** Legacy keys: in a normalised configuration the legacy key is gone from
    [memories], the canonical key has the value the file gives it or else the
    value of the legacy key, and every other path leads where it led. *)
Theorem legacy_keys_spec (v : TomlValue) (p : list str) :
  toml_wf v = true -> p <> [] -> p <> MEMORIES ->
  tget p (normalized_with_key_aliases v []) = renamed p v.
Proof.
  intros Hwf Hp Hm. destruct p as [|m p]; [done|].
  destruct v as [| | | | |l|t]; try (destruct p as [|k p]; simpl; repeat case_match; done).
  rewrite tget_normalized, aliases_eq by done. simpl app.
  rewrite bool_decide_false by done.
  assert (forall c p', tbl_get m t = Some c -> m <> lit "memories" ->
    tget p' (normalized_with_key_aliases c [m]) = tget p' c) as Hother.
  { intros c p' Hc Hne. rewrite normalized_id; [done|by eapply wf_get|].
    intros q. unfold MEMORIES. simpl. congruence. }
  destruct p as [|k p]; cbn [renamed].
  { simpl. assert (m <> lit "memories") by (intros ->; by apply Hm).
    destruct (tbl_get m t) as [c|] eqn:Ec; simpl; [|done]. by apply (Hother c []). }
  case_bool_decide as Em.
  2: { simpl tget at 2. destruct (tbl_get m t) as [c|] eqn:Ec; [by apply (Hother c (k :: p))|done]. }
  cbn [tget]. destruct (tbl_get m t) as [c|] eqn:Ec; cbn [mbind option_bind]; [|by repeat case_match].
  pose proof (wf_get _ _ _ Hwf Ec) as Hc.
  match goal with |- _ = ?r => change (tget (k :: p) (normalized_with_key_aliases c [m]) = r) end.
  destruct c as [| | | | |l|mt]; try (by repeat case_match).
  pose proof Hc as [Hs _]%wf_table.
  rewrite tget_normalized, aliases_get by done. rewrite Em, bool_decide_true by done.
  simpl tget.
  assert (forall j w, tbl_get j mt = Some w ->
    normalized_with_key_aliases w ([lit "memories"] ++ [k]) = w) as Hid.
  { intros j w Hw. apply normalized_id; [by eapply wf_get|done]. }
  destruct (bool_decide (k = LEGACY)); [done|].
  destruct (bool_decide (k = CANONICAL)).
  - destruct (tbl_get CANONICAL mt) as [w|] eqn:Ew; simpl; [by erewrite Hid|].
    destruct (tbl_get LEGACY mt) as [w|] eqn:El; simpl; [by erewrite Hid|done].
  - destruct (tbl_get k mt) as [w|] eqn:Ew; simpl; [by erewrite Hid|done].
Qed.

Definition memories_sample : TomlValue :=
  TTable [(lit "memories", TTable
    [(lit "generate", TBoolean true); (LEGACY, TBoolean false)]);
   (lit "model", TString (lit "o"))].

Lemma legacy_keys_spec_witness :
  tget [lit "memories"; CANONICAL] (normalized_with_key_aliases memories_sample []) = Some (TBoolean false).
Proof.
  rewrite (legacy_keys_spec memories_sample [lit "memories"; CANONICAL] eq_refl);
    [vm_compute; reflexivity|discriminate|discriminate].
Defined.
