(* ===== verification/ConfigLayers.v ===== *)
(** * ConfigLayers: the stack of configuration layers

    [config/src/state.rs], the sources of layers and their precedence
    ([ConfigLayerSource] of [app-server-protocol/src/protocol/v2.rs]) and the
    version of a layer ([fingerprint.rs]).  The hash, and [serde_json]'s two
    conversions, are parameters; what a stack carries for its clients (the
    requirements) is kept abstract here. *)

From stdpp Require Import sorting.
From S2P Require Import Prelude BTree Paths Toml.
From Stdlib Require Import Sorted.
Local Open Scope str_scope.

(** From [config/src/lib.rs] *)
Definition CONFIG_TOML_FILE : str := lit "config.toml".

(** ** [ConfigLayerSource] *)

Inductive ConfigLayerSource : Type :=
| Mdm (domain key : str)
| System (file : str)
| User (file : str)
| Project (dot_codex_folder : str)
| SessionFlags
| LegacyManagedConfigTomlFromFile (file : str)
| LegacyManagedConfigTomlFromMdm.

Definition precedence (self : ConfigLayerSource) : Z :=
  match self with
  | Mdm _ _ => 0
  | System _ => 10
  | User _ => 20
  | Project _ => 25
  | SessionFlags => 30
  | LegacyManagedConfigTomlFromFile _ => 40
  | LegacyManagedConfigTomlFromMdm => 50
  end.

(** [partial_cmp], which always compares. *)
Definition partial_cmp (self other : ConfigLayerSource) : comparison :=
  Z.compare (precedence self) (precedence other).

(** ** [fingerprint.rs]: versions *)

(** A JSON value; an object is its entries in the order of its map. *)
Inductive JsonValue : Type :=
| JNull
| JBool (b : bool)
| JNumber (text : str)
| JString (s : str)
| JArray (items : list JsonValue)
| JObject (map : list (str * JsonValue)).

#[global] Instance JsonValue_eq_dec : EqDecision JsonValue.
Proof.
  refine (fix go (x y : JsonValue) {struct x} : {x = y} + {x <> y} := _).
  assert (forall a b : str, {a = b} + {a <> b}) as Hs by (intros; apply decide, _).
  destruct x as [|b|t|s|l|m], y as [|b'|t'|s'|l'|m']; try (right; discriminate).
  - by left.
  - destruct (Bool.bool_dec b b') as [->|]; [by left|right; congruence].
  - destruct (Hs t t') as [->|]; [by left|right; congruence].
  - destruct (Hs s s') as [->|]; [by left|right; congruence].
  - destruct (List.list_eq_dec go l l') as [->|]; [by left|right; congruence].
  - assert ({m = m'} + {m <> m'}) as [->|]; [|by left|right; congruence].
    revert m'. induction m as [|[k v] m IH]; intros [|[k' v'] m']; [by left|by right|by right|].
    destruct (Hs k k') as [->|]; [|right; congruence]. destruct (go v v') as [->|]; [|right; congruence].
    destruct (IH m') as [->|]; [by left|right; congruence].
Defined.

Fixpoint canonical_json (value : JsonValue) : JsonValue :=
  match value with
  | JObject m =>
      let children := map (fun kv => (kv.1, canonical_json kv.2)) m in
      let keys := sort_by str_leb (map fst m) in
      JObject (fold_left (fun sorted key =>
        match tbl_get key children with
        | Some val => tbl_insert key val sorted
        | None => sorted
        end) keys [])
  | JArray items => JArray (map canonical_json items)
  | other => other
  end.

Definition hex_digit (n : N) : N := (if n <? 10 then 48 + n else 87 + n)%N.
Definition hex_byte (b : N) : str := [hex_digit (b / 16); hex_digit (b mod 16)]%N.

Section Layers.
Variable to_value : TomlValue -> option JsonValue.
Variable to_vec : JsonValue -> option (list N).
Variable sha256 : list N -> list N.

Definition version_for_toml (value : TomlValue) : str :=
  let json := default JNull (to_value value) in
  let serialized := default [] (to_vec (canonical_json json)) in
  lit "sha256:" ++ concat (map hex_byte (sha256 serialized)).

(** ** [ConfigLayerEntry] *)

Record ConfigLayerEntry : Type := mkEntry {
  le_name : ConfigLayerSource;
  le_config : TomlValue;
  le_raw_toml : option str;
  le_version : str;
  le_disabled_reason : option str;
}.

Record ConfigLayerMetadata : Type := mkMetadata {
  md_name : ConfigLayerSource;
  md_version : str;
}.

Record ConfigLayer : Type := mkLayer {
  cl_name : ConfigLayerSource;
  cl_version : str;
  cl_config : JsonValue;
  cl_disabled_reason : option str;
}.

Definition entry_new (name : ConfigLayerSource) (config : TomlValue) : ConfigLayerEntry :=
  mkEntry name config None (version_for_toml config) None.

Definition entry_new_with_raw_toml (name : ConfigLayerSource) (config : TomlValue) (raw_toml : str)
    : ConfigLayerEntry :=
  mkEntry name config (Some raw_toml) (version_for_toml config) None.

Definition entry_new_disabled (name : ConfigLayerSource) (config : TomlValue) (disabled_reason : str)
    : ConfigLayerEntry :=
  mkEntry name config None (version_for_toml config) (Some disabled_reason).

Definition is_disabled (self : ConfigLayerEntry) : bool :=
  match le_disabled_reason self with Some _ => true | None => false end.

Definition metadata (self : ConfigLayerEntry) : ConfigLayerMetadata :=
  mkMetadata (le_name self) (le_version self).

Definition as_layer (self : ConfigLayerEntry) : ConfigLayer :=
  mkLayer (le_name self) (le_version self) (default JNull (to_value (le_config self)))
    (le_disabled_reason self).

Definition config_folder (self : ConfigLayerEntry) : option str :=
  match le_name self with
  | Mdm _ _ => None
  | System file => parent file
  | User file => parent file
  | Project dot_codex_folder => Some dot_codex_folder
  | SessionFlags => None
  | LegacyManagedConfigTomlFromFile _ => None
  | LegacyManagedConfigTomlFromMdm => None
  end.

(** ** [verify_layer_ordering] *)

Definition is_user (name : ConfigLayerSource) : bool :=
  match name with User _ => true | _ => false end.

Definition project_folder (layer : ConfigLayerEntry) : option str :=
  match le_name layer with Project f => Some f | _ => None end.

Fixpoint names_sorted (layers : list ConfigLayerEntry) : bool :=
  match layers with
  | a :: (b :: _) as l =>
      (match partial_cmp (le_name a) (le_name b) with Gt => false | _ => true end) && names_sorted l
  | _ => true
  end.

(** The check of a project layer against the one before it. *)
Definition verify_project (previous : option str) (current : str) : result str unit :=
  match previous with
  | None => Ok tt
  | Some previous =>
      match parent previous with
      | None => Err (lit "project layer has no parent directory")
      | Some parent =>
          if path_eqb previous current
             || negb (existsb (fun ancestor => path_eqb ancestor parent) (ancestors current))
          then Err (lit "project layers are not ordered from root to cwd")
          else Ok tt
      end
  end.

(** The second pass; the errors are the messages of an [InvalidData]. *)
Fixpoint verify_layers (index : nat) (layers : list ConfigLayerEntry)
    (user_layer_index : option nat) (previous : option str) : result str (option nat) :=
  match layers with
  | [] => Ok user_layer_index
  | layer :: layers =>
      user_layer_index ← (if is_user (le_name layer) then
          match user_layer_index with
          | Some _ => Err (lit "multiple user config layers found")
          | None => Ok (Some index)
          end
        else Ok user_layer_index);
      match le_name layer with
      | Project current =>
          _ ← verify_project previous current;
          verify_layers (S index) layers user_layer_index (Some current)
      | _ => verify_layers (S index) layers user_layer_index previous
      end
  end.

Definition verify_layer_ordering (layers : list ConfigLayerEntry) : result str (option nat) :=
  if negb (names_sorted layers)
  then Err (lit "config layers are not in correct precedence order")
  else verify_layers 0 layers None None.

(** ** [ConfigLayerStack] *)

Section Stack.
Context {Requirements RequirementsToml : Type}.

Record ConfigLayerStack : Type := mkStack {
  st_layers : list ConfigLayerEntry;
  st_user_layer_index : option nat;
  st_requirements : Requirements;
  st_requirements_toml : RequirementsToml;
  st_ignore_user_and_project_exec_policy_rules : bool;
}.

Definition stack_new (layers : list ConfigLayerEntry) (requirements : Requirements)
    (requirements_toml : RequirementsToml) : result str ConfigLayerStack :=
  user_layer_index ← verify_layer_ordering layers;
  Ok (mkStack layers user_layer_index requirements requirements_toml false).

Definition with_user_and_project_exec_policy_rules_ignored (self : ConfigLayerStack) (ignore : bool)
    : ConfigLayerStack :=
  mkStack (st_layers self) (st_user_layer_index self) (st_requirements self)
    (st_requirements_toml self) ignore.

Definition get_user_layer (self : ConfigLayerStack) : option ConfigLayerEntry :=
  st_user_layer_index self ≫= fun index => st_layers self !! index.

(** [None] is the panic of the indexing. *)
Definition with_user_config (self : ConfigLayerStack) (config_toml : str) (user_config : TomlValue)
    : option ConfigLayerStack :=
  let user_layer := entry_new (User config_toml) user_config in
  let layers := st_layers self in
  match st_user_layer_index self with
  | Some index =>
      match layers !! index with
      | None => None
      | Some _ =>
          Some (mkStack (<[index := user_layer]> layers) (st_user_layer_index self)
                  (st_requirements self) (st_requirements_toml self)
                  (st_ignore_user_and_project_exec_policy_rules self))
      end
  | None =>
      let above layer := Z.gtb (precedence (le_name layer)) (precedence (le_name user_layer)) in
      let '(layers, user_layer_index) :=
        match list_find (fun layer => above layer = true) layers with
        | Some (index, _) => (take index layers ++ user_layer :: drop index layers, index)
        | None => (layers ++ [user_layer], length (layers ++ [user_layer]) - 1)
        end in
      Some (mkStack layers (Some user_layer_index) (st_requirements self)
              (st_requirements_toml self) (st_ignore_user_and_project_exec_policy_rules self))
  end.

Inductive ConfigLayerStackOrdering : Type := LowestPrecedenceFirst | HighestPrecedenceFirst.

Definition get_layers (self : ConfigLayerStack) (ordering : ConfigLayerStackOrdering)
    (include_disabled : bool) : list ConfigLayerEntry :=
  let layers := List.filter (fun layer => include_disabled || negb (is_disabled layer)) (st_layers self) in
  match ordering with HighestPrecedenceFirst => rev layers | LowestPrecedenceFirst => layers end.

Definition layers_high_to_low (self : ConfigLayerStack) : list ConfigLayerEntry :=
  get_layers self HighestPrecedenceFirst false.

Definition effective_config (self : ConfigLayerStack) : TomlValue :=
  fold_left (fun merged layer => merge_toml_values merged (le_config layer))
    (get_layers self LowestPrecedenceFirst false) (TTable []).

Definition origins (self : ConfigLayerStack) : gmap str ConfigLayerMetadata :=
  fold_left (fun origins layer =>
      record_origins (normalized_with_key_aliases (le_config layer) []) (metadata layer) [] origins)
    (get_layers self LowestPrecedenceFirst false) ∅.

End Stack.
End Layers.

(** ** Well-formed stacks *)

(** The positions of the user layers, counted from [i]. *)
Fixpoint user_positions (i : nat) (layers : list ConfigLayerEntry) : list nat :=
  match layers with
  | [] => []
  | layer :: layers =>
      (if is_user (le_name layer) then [i] else []) ++ user_positions (S i) layers
  end.

(** A project layer may follow another if its folder is below the directory
    that holds the other's. *)
Definition project_before (previous current : str) : Prop :=
  exists dir, parent previous = Some dir /\ path_eqb previous current = false /\
    existsb (fun ancestor => path_eqb ancestor dir) (ancestors current) = true.

Definition precedence_le (a b : ConfigLayerEntry) : Prop :=
  (precedence (le_name a) <= precedence (le_name b))%Z.

(** Sorted by precedence, the project layers from the root to the working
    directory, and the user layer, if any, where the index says. *)
Record layers_ok (layers : list ConfigLayerEntry) (user_layer_index : option nat) : Prop := {
  lo_sorted : StronglySorted precedence_le layers;
  lo_user : user_positions 0 layers = option_list user_layer_index;
  lo_projects : Sorted project_before (omap project_folder layers);
}.

Lemma names_sorted_spec layers : names_sorted layers = true <-> StronglySorted precedence_le layers.
Proof.
  assert (names_sorted layers = true <-> Sorted precedence_le layers) as ->.
  { induction layers as [|a layers IH]; [split; [constructor|done]|].
    destruct layers as [|b layers]; [split; [repeat constructor|done]|].
    change (names_sorted (a :: b :: layers)) with
      ((match partial_cmp (le_name a) (le_name b) with Gt => false | _ => true end)
       && names_sorted (b :: layers)).
    rewrite andb_true_iff, IH. unfold partial_cmp.
    assert ((match (precedence (le_name a) ?= precedence (le_name b))%Z with Gt => false | _ => true end)
      = true <-> precedence_le a b) as ->.
    { unfold precedence_le, Z.le. destruct (_ ?= _)%Z; naive_solver. }
    split; [intros [H Hs]; constructor; [done|by constructor]|].
    intros [Hs Hh]%Sorted_inv. by inversion Hh. }
  split; [|apply StronglySorted_Sorted].
  apply Sorted_StronglySorted. intros a b c. unfold precedence_le. lia.
Qed.

Lemma option_list_inj {A} (o o' : option A) : option_list o = option_list o' -> o = o'.
Proof. destruct o, o'; simpl; congruence. Qed.

Lemma verify_project_spec previous current :
  verify_project (Some previous) current = Ok tt <-> project_before previous current.
Proof.
  unfold project_before, verify_project. destruct (parent previous) as [dir|]; [|split; [done|by intros (? & ? & _)]].
  split.
  - destruct (path_eqb _ _) eqn:E1, (existsb _ _) eqn:E2; try done. by exists dir.
  - intros (d & [= <-] & -> & ->). done.
Qed.

Lemma verify_layers_spec i layers u p r :
  verify_layers i layers u p = Ok r <->
  option_list u ++ user_positions i layers = option_list r /\
  Sorted project_before (option_list p ++ omap project_folder layers).
Proof.
  revert i u p. induction layers as [|layer layers IH]; intros i u p.
  { simpl. rewrite !app_nil_r. split.
    - intros [= ->]. split; [done|]. destruct p; repeat constructor.
    - intros [E%option_list_inj _]. by subst. }
  simpl. unfold project_folder at 1. unfold omap in IH |- *. simpl.
  destruct (le_name layer) as [| |file|current| | |] eqn:En; simpl; try (by rewrite IH).
  - destruct u as [j|]; simpl; [|by rewrite IH].
    split; [done|]. intros [E _]. by destruct r.
  - destruct p as [previous|]; [|cbn [verify_project mbind result_bind]; by rewrite IH].
    pose proof (verify_project_spec previous current) as Hc.
    assert (Sorted project_before (previous :: current :: omap project_folder layers) <->
      project_before previous current /\ Sorted project_before (current :: omap project_folder layers)) as Hs.
    { split; [intros [? Hh]%Sorted_inv; by inversion Hh|]. intros [? ?]. constructor; [done|by constructor]. }
    unfold omap in Hs. cbn [option_list option_rect app]. rewrite Hs, <- Hc.
    destruct (verify_project _ _) as [[]|e]; cbn [mbind result_bind].
    + rewrite IH. cbn [option_list option_rect app]. tauto.
    + split; [done|]. by intros (_ & ? & _).
Qed.

Definition no_user (layers : list ConfigLayerEntry) : Prop :=
  Forall (fun l => is_user (le_name l) = false) layers.

Definition others (layers : list ConfigLayerEntry) : list ConfigLayerEntry :=
  List.filter (fun l => negb (is_user (le_name l))) layers.

Lemma user_positions_app i a b :
  user_positions i (a ++ b) = user_positions i a ++ user_positions (i + length a) b.
Proof.
  revert i. induction a as [|l a IH]; intros i; simpl; [by rewrite Nat.add_0_r|].
  rewrite IH, <- app_assoc. by rewrite Nat.add_succ_r.
Qed.

Lemma no_user_positions i layers : user_positions i layers = [] <-> no_user layers.
Proof.
  unfold no_user. revert i. induction layers as [|l layers IH]; intros i; simpl; [by split|].
  rewrite Forall_cons, <- (IH (S i)). destruct (is_user _); naive_solver.
Qed.

Lemma user_positions_one i layers n : user_positions i layers = [n] ->
  exists a l b, layers = a ++ l :: b /\ n = i + length a /\ is_user (le_name l) = true /\
    no_user a /\ no_user b.
Proof.
  revert i. induction layers as [|l layers IH]; intros i; simpl; [done|].
  destruct (is_user (le_name l)) eqn:E; simpl.
  - intros [= <- H]. exists [], l, layers. rewrite (no_user_positions (S i)) in H.
    repeat split; [simpl; lia|done|constructor|done].
  - intros (a & l' & b & -> & -> & Hl & Ha & Hb)%IH. exists (l :: a), l', b.
    repeat split; [simpl; lia|done|by constructor|done].
Qed.

(** A user layer in the place of another, or in a gap of the precedences. *)
Lemma layers_ok_user a b u user_layer_index :
  is_user (le_name u) = true -> no_user a -> no_user b ->
  StronglySorted precedence_le (a ++ b) -> Sorted project_before (omap project_folder (a ++ b)) ->
  (forall l, l ∈ a -> precedence_le l u) -> (forall l, l ∈ b -> precedence_le u l) ->
  user_layer_index = length a -> layers_ok (a ++ u :: b) (Some user_layer_index).
Proof.
  intros Hu Ha Hb Hs Hp Hau Hub ->. split.
  - apply StronglySorted_app in Hs as (Hab & Hsa & Hsb). apply StronglySorted_app.
    split; [|split; [done|constructor; [done|by apply Forall_forall]]].
    intros x y Hx [->|Hy]%elem_of_cons; auto.
  - rewrite user_positions_app. simpl. rewrite Hu.
    by rewrite (proj2 (no_user_positions 0 a) Ha), (proj2 (no_user_positions _ b) Hb).
  - rewrite omap_app in Hp |- *. simpl. unfold project_folder at 2. by destruct (le_name u).
Qed.

Lemma others_user a b u : is_user (le_name u) = true -> others (a ++ u :: b) = others (a ++ b).
Proof. intros H. unfold others. rewrite !List.filter_app. simpl. by rewrite H. Qed.

(** ** Folders of a project *)

Definition codex_folder (segs : list str) : str := render_abs (segs ++ [lit ".codex"]).

(** A directory strictly below another *)
Definition below (segs segs' : list str) : Prop := exists x rest, segs' = segs ++ x :: rest.

(** The directory of a project, not itself named [.codex] *)
Definition project_dir (segs : list str) : Prop := Forall good_seg segs /\ last segs <> Some (lit ".codex").

Lemma codex_seg : good_seg (lit ".codex").
Proof. apply (bool_decide_unpack _); by vm_compute. Qed.

Lemma strictly_below_trans : Transitive below.
Proof.
  intros a b c (x & r & ->) (y & q & ->). exists x, (r ++ y :: q). by rewrite <- app_assoc.
Qed.

Lemma project_before_below d d' :
  project_dir d -> Forall good_seg d' -> project_before (codex_folder d) (codex_folder d') <-> below d d'.
Proof.
  intros [Hd Hlast] Hd'. unfold codex_folder.
  assert (Forall good_seg (d ++ [lit ".codex"]) /\ Forall good_seg (d' ++ [lit ".codex"])) as [Hc Hc'].
  { rewrite !Forall_app, !Forall_singleton. auto using codex_seg. }
  assert (forall a b, Forall good_seg a -> Forall good_seg b -> path_eqb (render_abs a) (render_abs b) = true <-> a = b) as Heq.
  { intros a b Ha Hb. rewrite path_eqb_spec, !components_render_abs by done.
    split; [by intros [= E%map_Normal_inj]|by intros ->]. }
  unfold project_before. rewrite parent_render_abs by auto using codex_seg. split.
  - intros (dir & [= <-] & Hne & (p & Hp & E)%existsb_exists).
    rewrite ancestors_render in Hp by done. apply in_map_iff in Hp as (k & <- & _).
    apply Heq in E; [|by apply Forall_take|done].
    assert (d ++ drop k (d' ++ [lit ".codex"]) = d' ++ [lit ".codex"]) as Hx by (rewrite <- E; apply take_drop).
    destruct (drop k _) as [|x rest _] using rev_ind.
    + rewrite app_nil_r in Hx. rewrite Hx, last_snoc in Hlast. done.
    + rewrite app_assoc in Hx. apply app_inj_tail in Hx as [Hx ->]. destruct rest as [|y rest]; [|by exists y, rest].
      rewrite app_nil_r in Hx. subst d'. exfalso. apply not_true_iff_false in Hne. apply Hne. by apply Heq.
  - intros (x & rest & ->). exists (render_abs d). split_and!; [done| |].
    + apply not_true_iff_false. intros E%Heq; [|done..]. apply (f_equal length) in E.
      rewrite !length_app in E. simpl in E. lia.
    + apply existsb_exists. exists (render_abs d). split; [|apply path_eqb_refl].
      rewrite ancestors_render by done. apply in_map_iff. exists (length d). split.
      * by rewrite <- app_assoc, take_app_length.
      * rewrite <- in_rev. apply in_seq. rewrite !length_app. simpl. lia.
Qed.

(** Sorted folders are those of directories each below all before it. *)
Lemma projects_below dirs :
  Forall project_dir dirs -> Sorted project_before (map codex_folder dirs) <-> StronglySorted below dirs.
Proof.
  intros Hd. trans (Sorted below dirs).
  - induction Hd as [|d dirs H Hd IH]; [split; constructor|]. cbn [map].
    assert (forall l : list (list str), Forall project_dir l ->
      HdRel project_before (codex_folder d) (map codex_folder l) <-> HdRel below d l) as Hr.
    { intros l Hl. destruct Hl as [|d' l [Hg _] Hl]; [split; constructor|]. cbn [map].
      split; intros Hh%HdRel_inv; constructor; by apply project_before_below. }
    split; intros [Hs Hh]%Sorted_inv; constructor; by (apply IH || apply Hr).
  - split; [apply Sorted_StronglySorted, strictly_below_trans|apply StronglySorted_Sorted].
Qed.

Section StackSpec.
Context {Requirements RequirementsToml : Type}.
Variable to_value : TomlValue -> option JsonValue.
Variable to_vec : JsonValue -> option (list N).
Variable sha256 : list N -> list N.
Notation Stack := (@ConfigLayerStack Requirements RequirementsToml).

Definition stack_ok (s : Stack) : Prop := layers_ok (st_layers s) (st_user_layer_index s).

Lemma stack_new_spec layers (req : Requirements) (rt : RequirementsToml) :
  match stack_new layers req rt with
  | Ok s => st_layers s = layers /\ stack_ok s
  | Err _ => forall index, ~ layers_ok layers index
  end.
Proof.
  unfold stack_new, verify_layer_ordering.
  destruct (names_sorted layers) eqn:Es; simpl.
  - destruct (verify_layers 0 layers None None) as [r|e] eqn:Ev; simpl.
    + apply verify_layers_spec in Ev as [Hu Hp]. split; [done|].
      split; [by apply names_sorted_spec|done|done].
    + intros index [Hs Hu Hp]. assert (verify_layers 0 layers None None = Ok index) by
        (by apply verify_layers_spec). congruence.
  - intros index [Hs%names_sorted_spec _ _]. congruence.
Qed.

Lemma remove_user a l b : is_user (le_name l) = true ->
  StronglySorted precedence_le (a ++ l :: b) -> Sorted project_before (omap project_folder (a ++ l :: b)) ->
  StronglySorted precedence_le (a ++ b) /\ Sorted project_before (omap project_folder (a ++ b)) /\
  (forall x, x ∈ a -> precedence_le x l) /\ (forall x, x ∈ b -> precedence_le l x).
Proof.
  intros Hl (Hab & Hsa & [Hsb Hlb]%StronglySorted_inv)%StronglySorted_app Hp.
  rewrite omap_app in Hp |- *. simpl in Hp. unfold project_folder at 2 in Hp.
  repeat split; [|by destruct (le_name l)| |].
  - apply StronglySorted_app. split; [|done]. intros x y Hx Hy. apply Hab; [done|by right].
  - intros x Hx. apply Hab; [done|left].
  - by apply Forall_forall.
Qed.

Lemma user_precedence l l' : is_user (le_name l) = true -> is_user (le_name l') = true ->
  precedence (le_name l) = precedence (le_name l').
Proof. by destruct (le_name l), (le_name l'). Qed.

Lemma with_user_config_spec (s : Stack) (file : str) (config : TomlValue) :
  stack_ok s -> exists s', with_user_config to_value to_vec sha256 s file config = Some s' /\
    stack_ok s' /\ get_user_layer s' = Some (entry_new to_value to_vec sha256 (User file) config) /\
    others (st_layers s') = others (st_layers s).
Proof.
  destruct s as [layers [n|] req rt ig]; intros [Hs Hu Hp]; simpl in *;
    unfold with_user_config; simpl; set (u := entry_new _ _ _ _ _).
  - apply user_positions_one in Hu as (a & l & b & -> & -> & Hl & Ha & Hb). simpl.
    rewrite list_lookup_middle by done. eexists. split; [done|]. simpl.
    rewrite insert_app_r_alt, Nat.sub_diag by done. simpl.
    destruct (remove_user a l b Hl Hs Hp) as (Hs' & Hp' & Hal & Hlb).
    pose proof (user_precedence l u Hl eq_refl) as Eq.
    split; [|split].
    + unfold stack_ok. simpl. apply layers_ok_user; try done; unfold precedence_le in *; by rewrite <- Eq.
    + unfold get_user_layer. simpl. by rewrite list_lookup_middle.
    + by rewrite !others_user.
  - apply no_user_positions in Hu.
    destruct (list_find _ layers) as [[n y]|] eqn:Ef; (eexists; split; [done|]); simpl.
    + apply list_find_Some in Ef as (Hn & Hy & Hbefore).
      assert (length (take n layers) = n) as Hlen.
      { rewrite length_take. apply lookup_lt_Some in Hn. lia. }
      rewrite <- (take_drop n layers) in Hs, Hp, Hu.
      pose proof Hu as [Hua Hub]%Forall_app.
      assert (get_user_layer (mkStack (take n layers ++ u :: drop n layers) (Some n) req rt ig) = Some u).
      { unfold get_user_layer. simpl. by rewrite list_lookup_middle. }
      split; [|split; [done|by rewrite others_user, take_drop]].
      apply layers_ok_user; try done.
      * intros x [i Hi]%list_elem_of_lookup. unfold precedence_le. simpl.
        pose proof (lookup_lt_Some _ _ _ Hi). rewrite length_take in *.
        rewrite lookup_take_lt in Hi by lia. specialize (Hbefore i x Hi ltac:(lia)). lia.
      * intros x Hx. assert (precedence_le y x \/ x = y) as Hyx.
        { rewrite (drop_S layers y n Hn) in Hx, Hs. apply elem_of_cons in Hx as [->|Hx]; [auto|left].
          apply StronglySorted_app in Hs as (_ & _ & [_ Hf]%StronglySorted_inv).
          rewrite Forall_forall in Hf. by apply Hf. }
        unfold precedence_le in *. simpl in *. destruct Hyx as [Hyx|Hyx]; [lia|subst; lia].
    + apply list_find_None in Ef. rewrite length_app. simpl. rewrite Nat.add_sub.
      split; [|split].
      * unfold stack_ok. simpl. apply layers_ok_user; rewrite ?app_nil_r; try done; [constructor| |].
        -- intros x Hx. rewrite Forall_forall in Ef. specialize (Ef x Hx).
           unfold precedence_le. simpl in *. lia.
        -- by intros x ?%elem_of_nil.
      * unfold get_user_layer. simpl. by rewrite list_lookup_middle.
      * by rewrite others_user, app_nil_r.
Qed.

(** C34: the invariant of a stack: layers sorted by precedence, project layers
    from the root to the working directory, the user layer (at most one) where
    the index says.  [new] accepts exactly the sequences of layers that have
    it.  The order of project layers is that of their directories: where their
    folders are [.codex] in directories that are not themselves named [.codex]
    ([reversed_projects_accepted] has one that is), each directory is strictly
    below all before it.  [with_user_config] never panics, keeps the invariant,
    makes the given configuration the user layer and leaves the other layers
    as they are. *)
Theorem config_layer_stack_spec :
  (forall layers (req : Requirements) (rt : RequirementsToml),
    match stack_new layers req rt with
    | Ok s => st_layers s = layers /\ stack_ok s
    | Err _ => forall index, ~ layers_ok layers index
    end) /\
  (forall layers index dirs,
    omap project_folder layers = map codex_folder dirs -> Forall project_dir dirs ->
    layers_ok layers index <->
    StronglySorted precedence_le layers /\ user_positions 0 layers = option_list index /\ StronglySorted below dirs) /\
  (forall (s : Stack) file config, stack_ok s ->
    exists s', with_user_config to_value to_vec sha256 s file config = Some s' /\ stack_ok s' /\
      get_user_layer s' = Some (entry_new to_value to_vec sha256 (User file) config) /\
      others (st_layers s') = others (st_layers s)).
Proof.
  split; [apply stack_new_spec|]. split; [|apply with_user_config_spec]. intros layers index dirs Hf Hd.
  rewrite <- (projects_below dirs Hd), <- Hf. split; [by intros []|by intros (? & ? & ?)].
Qed.

End StackSpec.

(** ** The effective configuration *)

Section Effective.
Context {Requirements RequirementsToml : Type}.
Notation Stack := (@ConfigLayerStack Requirements RequirementsToml).

Definition configs_wf (s : Stack) : Prop :=
  Forall (fun l => toml_wf (le_config l) = true) (st_layers s).

Definition normalized_config (l : ConfigLayerEntry) : TomlValue :=
  normalized_with_key_aliases (le_config l) [].

Lemma get_layers_wf (s : Stack) o d : configs_wf s ->
  Forall (fun l => toml_wf (le_config l) = true) (get_layers s o d).
Proof.
  unfold configs_wf, get_layers. intros H.
  assert (Forall (fun l => toml_wf (le_config l) = true)
    (List.filter (fun layer => d || negb (is_disabled layer)) (st_layers s))) as Hf.
  { induction H as [|l layers Hl _ IH]; simpl; [done|]. destruct (d || _); auto. }
  destruct o; [done|by apply Forall_rev].
Qed.

(** The reference: deep merges of the normalised configurations. *)
Definition merged (layers : list ConfigLayerEntry) : TomlValue :=
  fold_left (fun m l => deep_merge m (normalized_config l)) layers (TTable []).

Lemma merged_ok layers : Forall (fun l => toml_wf (le_config l) = true) layers ->
  canonical (merged layers) [] = true /\ toml_wf (merged layers) = true /\
  fold_left (fun m l => merge_toml_values m (le_config l)) layers (TTable []) = merged layers.
Proof.
  unfold merged. induction layers as [|l layers IH] using rev_ind; [done|].
  intros [Hls [Hl _]%Forall_cons]%Forall_app. destruct (IH Hls) as (Hc & Hw & E).
  rewrite !fold_left_app. simpl. rewrite E. split; [|split].
  - apply deep_merge_canonical; [done|by apply normalized_canonical].
  - apply deep_merge_wf; [done|by apply normalized_wf].
  - by apply merge_toml_values_spec.
Qed.

Lemma effective_config_merged (s : Stack) : configs_wf s ->
  effective_config s = merged (get_layers s LowestPrecedenceFirst false).
Proof. intros H. by apply merged_ok, get_layers_wf. Qed.

Lemma setting_merged p layers : Forall (fun l => toml_wf (le_config l) = true) layers ->
  setting p (merged layers) =
  match List.find (fun l => decides_path p (normalized_config l)) (rev layers) with
  | Some l => setting p (normalized_config l)
  | None => None
  end.
Proof.
  induction layers as [|l layers IH] using rev_ind; [intros _; by destruct p|].
  intros [Hls [Hl _]%Forall_cons]%Forall_app. unfold merged.
  rewrite fold_left_app, rev_app_distr. simpl.
  rewrite setting_deep_merge by by apply normalized_wf.
  destruct (decides_path p (normalized_config l)) eqn:E; [done|].
  by apply IH.
Qed.

(** The effective configuration: the setting at a path is the one of the
    enabled layer with the highest precedence whose (normalised) configuration
    decides the path, and there is none if no layer decides it. *)
Theorem effective_config_spec (s : Stack) (p : list str) : configs_wf s ->
  setting p (effective_config s) =
    match List.find (fun l => decides_path p (normalized_config l)) (layers_high_to_low s) with
    | Some l => setting p (normalized_config l)
    | None => None
    end /\
  toml_wf (effective_config s) = true.
Proof.
  intros H. pose proof (get_layers_wf s LowestPrecedenceFirst false H) as Hl.
  rewrite effective_config_merged by done. split; [by apply setting_merged|by apply merged_ok].
Qed.

End Effective.

(** ** Examples *)

Definition layer_of (name : ConfigLayerSource) (config : TomlValue) : ConfigLayerEntry :=
  mkEntry name config None (lit "v") None.

Definition sample_layers : list ConfigLayerEntry :=
  [layer_of (User (lit "/h/config.toml")) (TTable [(lit "a", TInteger 1); (lit "m", TBoolean true)]);
   layer_of SessionFlags (TTable [(lit "a", TTable [(lit "b", TInteger 2)])])].

Definition sample_stack : ConfigLayerStack :=
  @mkStack unit unit sample_layers (Some 0) tt tt false.

Lemma effective_config_spec_witness :
  setting [lit "a"; lit "b"] (effective_config sample_stack) = Some (TInteger 2) /\
  setting [lit "m"] (effective_config sample_stack) = Some (TBoolean true).
Proof.
  assert (configs_wf sample_stack) as H by repeat constructor. split.
  - rewrite (proj1 (effective_config_spec sample_stack [lit "a"; lit "b"] H)). vm_compute. reflexivity.
  - rewrite (proj1 (effective_config_spec sample_stack [lit "m"] H)). vm_compute. reflexivity.
Defined.

Definition no_value (_ : TomlValue) : option JsonValue := None.
Definition no_vec (_ : JsonValue) : option (list N) := None.
Definition no_hash (_ : list N) : list N := [].

Lemma config_layer_stack_spec_witness :
  (exists s', with_user_config no_value no_vec no_hash sample_stack (lit "/k/config.toml") (TTable []) = Some s' /\
    stack_ok s' /\ length (st_layers s') = 2) /\
  layers_ok [layer_of (Project (lit "/w/.codex")) (TTable []); layer_of (Project (lit "/w/a/b/.codex")) (TTable [])] None /\
  ~ layers_ok [layer_of (Project (lit "/w/a/.codex")) (TTable []); layer_of (Project (lit "/w/.codex")) (TTable [])] None.
Proof.
  pose proof (config_layer_stack_spec (Requirements := unit) (RequirementsToml := unit) no_value no_vec no_hash)
    as (Hnew & Hdirs & Hwith).
  split; [|split].
  - destruct (Hwith sample_stack (lit "/k/config.toml") (TTable [])) as (s' & Hs & Hok & _).
    + pose proof (Hnew sample_layers tt tt) as H. vm_compute in H |- *. apply H.
    + exists s'. split; [exact Hs|]. split; [exact Hok|]. vm_compute in Hs. by injection Hs as <-.
  - assert (Forall project_dir [[lit "w"]; [lit "w"; lit "a"; lit "b"]]) as Hd
      by (repeat constructor; try discriminate; apply (bool_decide_unpack _); by vm_compute).
    apply (proj2 (Hdirs [layer_of (Project (lit "/w/.codex")) (TTable []); layer_of (Project (lit "/w/a/b/.codex")) (TTable [])]
      None [[lit "w"]; [lit "w"; lit "a"; lit "b"]] eq_refl Hd)).
    split; [repeat constructor; discriminate|]. split; [reflexivity|].
    repeat constructor. exists (lit "a"), [lit "b"]. reflexivity.
  - assert (Forall project_dir [[lit "w"; lit "a"]; [lit "w"]]) as Hd
      by (repeat constructor; try discriminate; apply (bool_decide_unpack _); by vm_compute).
    intros H. apply (proj1 (Hdirs [layer_of (Project (lit "/w/a/.codex")) (TTable []); layer_of (Project (lit "/w/.codex")) (TTable [])]
      None [[lit "w"; lit "a"]; [lit "w"]] eq_refl Hd)) in H.
    destruct H as (_ & _ & H). inversion H as [|? ? _ Hall]; subst. inversion Hall as [|? ? (x & r & E) _]; subst.
    discriminate E.
Defined.
