(* ===== verification/Fingerprint.v ===== *)
(** * Fingerprint: where the fields of a configuration come from

    Properties of [config/src/fingerprint.rs] (its definitions are in [Toml]
    and [ConfigLayers]): the origins recorded for a stack of layers, and the
    canonical form behind the version of a layer. *)

From S2P Require Import Prelude Decimal BTree Toml ConfigLayers.
Local Open Scope str_scope.

(** ** Scalars and their paths *)

(** What is below a value, under the names the code gives it. *)
Definition children (v : TomlValue) : list (str * TomlValue) :=
  match v with
  | TTable t => t
  | TArray items => imap (fun i x => (show_nat i, x)) items
  | _ => []
  end.

Inductive scalar_at : list str -> TomlValue -> TomlValue -> Prop :=
| scalar_here v : is_scalar v = true -> scalar_at [] v v
| scalar_child k c q v x : (k, c) ∈ children v -> scalar_at q c x -> scalar_at (k :: q) v x.

(** No key has a dot in it. *)
Definition dot_free : TomlValue -> bool :=
  tables_all (fun t => forallb (fun k => negb (contains_char k DOT)) (map fst t)).

Lemma record_children {Meta} (v : TomlValue) (meta : Meta) path o : is_scalar v = false ->
  record_origins v meta path o =
  fold_left (fun o kv => record_origins kv.2 meta (path ++ [kv.1]) o) (children v) o.
Proof.
  destruct v as [| | | | |items|t]; try done. intros _. simpl.
  assert (forall n o,
    (fold_left (fun st item => (S st.1, record_origins item meta (path ++ [show_nat st.1]) st.2))
       items (n, o)).2 =
    fold_left (fun o kv => record_origins kv.2 meta (path ++ [kv.1]) o)
      (imap (fun i x => (show_nat (n + i), x)) items) o) as H; [|apply (H 0)].
  induction items as [|x items IH]; intros n o'; simpl; [done|].
  rewrite IH, Nat.add_0_r. f_equal. apply imap_ext. intros i y _. simpl. by rewrite Nat.add_succ_r.
Qed.

Lemma record_scalar {Meta} (v : TomlValue) (meta : Meta) path o : is_scalar v = true ->
  record_origins v meta path o = if is_empty path then o else <[join [DOT] path := meta]> o.
Proof. by destruct v. Qed.

Lemma children_ind (P : TomlValue -> Prop) :
  (forall v, is_scalar v = true -> P v) ->
  (forall v, is_scalar v = false -> Forall (fun kv => P kv.2) (children v) -> P v) ->
  forall v, P v.
Proof.
  intros HS HC v. induction v as [v Hv|l IH|t IH] using toml_ind'; [by apply HS| |]; apply HC; try done.
  simpl. apply Forall_forall. intros [k x] (i & y & [= -> ->] & Hy)%elem_of_lookup_imap.
  rewrite Forall_forall in IH. apply IH. by eapply list_elem_of_lookup_2.
Qed.

Section Record.
Context {Meta : Type} (meta : Meta).

(** A key that is recorded stays recorded. *)
Lemma record_keeps v path o key : o !! key = Some meta ->
  record_origins v meta path o !! key = Some meta.
Proof.
  revert path o. induction v as [v Hv|v Hv IH] using children_ind; intros path o Ho.
  - rewrite record_scalar by done. destruct (is_empty path); [done|].
    destruct (decide (join [DOT] path = key)) as [<-|]; [apply lookup_insert_eq|].
    by rewrite lookup_insert_ne.
  - rewrite record_children by done. revert o Ho.
    induction IH as [|[k c] l Hc _ IHl]; intros o Ho; simpl; [done|]. by apply IHl, Hc.
Qed.

Lemma record_at q v x path o : scalar_at q v x -> path ++ q <> [] ->
  record_origins v meta path o !! join [DOT] (path ++ q) = Some meta.
Proof.
  intros H. revert path o. induction H as [v Hv|k c q v x Hin _ IH]; intros path o N.
  - rewrite app_nil_r in *. rewrite record_scalar by done. destruct path; [done|].
    apply lookup_insert_eq.
  - assert (is_scalar v = false) as Hv by (destruct v; try done; by apply elem_of_nil in Hin).
    rewrite record_children by done. apply list_elem_of_split in Hin as (l1 & l2 & ->).
    rewrite fold_left_app. simpl.
    match goal with |- context [fold_left _ l1 o] => generalize (fold_left
      (fun o kv => record_origins kv.2 meta (path ++ [kv.1]) o) l1 o) end. intros o'.
    rewrite cons_middle, app_assoc.
    assert (record_origins c meta (path ++ [k]) o' !! join [DOT] ((path ++ [k]) ++ q) = Some meta) as Hr.
    { apply IH. by destruct path. }
    revert Hr. generalize (record_origins c meta (path ++ [k]) o').
    induction l2 as [|[j d] l2 IH2]; intros o2 Hr; simpl; [done|].
    apply IH2. by apply record_keeps.
Qed.

(** Nothing else is recorded. *)
Lemma record_other v path o key :
  (forall q x, scalar_at q v x -> path ++ q <> [] -> key <> join [DOT] (path ++ q)) ->
  record_origins v meta path o !! key = o !! key.
Proof.
  revert path o. induction v as [v Hv|v Hv IH] using children_ind; intros path o Hk.
  - rewrite record_scalar by done. destruct path as [|s path]; [done|]. simpl is_empty.
    apply lookup_insert_ne. intros Ej. specialize (Hk [] v (scalar_here v Hv)).
    rewrite app_nil_r in Hk. by apply Hk.
  - rewrite record_children by done.
    assert (forall kc, kc ∈ children v -> forall q x, scalar_at q kc.2 x ->
      key <> join [DOT] ((path ++ [kc.1]) ++ q)) as Hc.
    { intros [k c] Hin q x Hq. rewrite <- app_assoc. apply (Hk (k :: q) x); [by eapply scalar_child|].
      by destruct path. }
    revert o. induction IH as [|[k c] l IHc _ IHl]; intros o; simpl; [done|].
    rewrite IHl by (intros kc Hin; apply Hc; by right).
    apply IHc. intros q x Hq _. by apply (Hc (k, c) (list_elem_of_here _ _)) in Hq.
Qed.

End Record.

(** ** Paths as text *)

Lemma show_nat_no_dot n : DOT ∉ show_nat n.
Proof.
  pose proof (show_N_digits (N.of_nat n)) as H. rewrite Forall_forall in H. by intros ?%H.
Qed.

Lemma dot_free_path v q x : dot_free v = true -> scalar_at q v x -> Forall (fun s => DOT ∉ s) q.
Proof.
  intros Hv H. induction H as [|k c q v x Hin _ IH]; [constructor|].
  destruct v as [| | | | |l|t]; simpl in Hin; try by apply elem_of_nil in Hin.
  - apply elem_of_lookup_imap in Hin as (i & y & [= -> ->] & Hy).
    constructor; [apply show_nat_no_dot|]. apply IH. unfold dot_free in Hv. simpl in Hv.
    rewrite forallb_Forall', Forall_forall in Hv. apply Hv. by eapply list_elem_of_lookup_2.
  - unfold dot_free in Hv. simpl in Hv. apply andb_true_iff in Hv as [Hk Ht].
    rewrite forallb_Forall', Forall_forall in Ht. constructor; [|by apply IH, (Ht _ Hin)].
    rewrite forallb_Forall', Forall_forall in Hk. specialize (Hk k (list_elem_of_fmap_2 fst _ _ Hin)).
    rewrite <- contains_char_spec. by destruct (contains_char k DOT).
Qed.

Lemma normalized_dot_free v : toml_wf v = true -> dot_free v = true ->
  dot_free (normalized_with_key_aliases v []) = true.
Proof.
  intros Hwf Hd. apply normalized_tables_all; [| |done|done].
  - intros f t. by rewrite keys_imap_values.
  - intros p t _. rewrite !forallb_Forall', !Forall_forall. intros H k Hk.
    apply list_elem_of_fmap in Hk as ([k' v'] & -> & Hin). simpl.
    apply aliases_elem in Hin as [Hin|(_ & -> & _)]; [|done].
    apply H. by apply (list_elem_of_fmap_2 fst _ _ Hin).
Qed.

(** ** Origins of a stack *)

Lemma scalar_at_table k q t x : sorted_tbl t ->
  scalar_at (k :: q) (TTable t) x <-> exists c, tbl_get k t = Some c /\ scalar_at q c x.
Proof.
  intros Hs. split.
  - inversion 1; subst. exists c. split; [by apply sorted_get|done].
  - intros (c & Hc & Hq). eapply scalar_child; [|done]. by apply tbl_get_Some_elem.
Qed.

(** A scalar of a merge comes from the overlay, or from the base and then the
    overlay has none there. *)
Lemma scalar_at_merge q b o x : toml_wf b = true -> toml_wf o = true ->
  scalar_at q (deep_merge b o) x ->
  scalar_at q o x \/ (scalar_at q b x /\ forall y, ~ scalar_at q o y).
Proof.
  revert b o. induction q as [|k q IH]; intros b o Hb Ho H;
    (destruct o as [| | | | | |ot]; try (by rewrite deep_merge_nontable in H; auto));
    (destruct b as [| | | | | |bt]; try (by left)).
  { rewrite deep_merge_tables in H. inversion H; by subst. }
  pose proof (deep_merge_wf _ _ Hb Ho) as Hm. rewrite deep_merge_tables in H, Hm.
  pose proof Hm as [Hsm _]%wf_table. pose proof Hb as [Hsb _]%wf_table. pose proof Ho as [Hso _]%wf_table.
  rewrite scalar_at_table in H by done. destruct H as (c & Hc & Hq).
  rewrite tbl_get_deep_fold in Hc by done. setoid_rewrite scalar_at_table; [|done..].
  destruct (tbl_get k ot) as [vo|] eqn:Eo; [|right; split; [by exists c|by intros y (? & ? & _)]].
  destruct (tbl_get k bt) as [vb|] eqn:Eb; injection Hc as <-; [|left; by exists vo].
  destruct (IH vb vo) as [Hl|[Hr Hn]]; [apply (wf_get _ _ _ Hb Eb)|apply (wf_get _ _ _ Ho Eo)|done|left; by exists vo|].
  right. split; [by exists vb|]. intros y (w & [= <-] & Hy). by apply (Hn y).
Qed.

Section Origins.
Context {Requirements RequirementsToml : Type}.
Notation Stack := (@ConfigLayerStack Requirements RequirementsToml).

Lemma origins_of_layers layers q x : q <> [] ->
  Forall (fun l => toml_wf (le_config l) = true /\ dot_free (le_config l) = true) layers ->
  scalar_at q (merged layers) x ->
  exists l1 l l2, layers = l1 ++ l :: l2 /\
    fold_left (fun o l => record_origins (normalized_config l) (metadata l) [] o) layers ∅
      !! join [DOT] q = Some (metadata l) /\
    scalar_at q (normalized_config l) x /\
    Forall (fun l' => forall y, ~ scalar_at q (normalized_config l') y) l2.
Proof.
  intros Nq. induction layers as [|l layers IH] using rev_ind.
  { intros _ H. inversion H as [|k c q' v y Hin]; subst; [done|by apply elem_of_nil in Hin]. }
  intros [Hls [[Hwf Hdf] _]%Forall_cons]%Forall_app H.
  assert (Forall (fun l => toml_wf (le_config l) = true) layers) as Hw.
  { eapply Forall_impl; [done|]. simpl. tauto. }
  assert (merged (layers ++ [l]) = deep_merge (merged layers) (normalized_config l)) as E
    by (unfold merged; by rewrite fold_left_app).
  rewrite E in H. rewrite fold_left_app. simpl.
  apply scalar_at_merge in H as [H|[H Hn]]; [| |by apply merged_ok|by apply normalized_wf].
  - exists layers, l, []. split; [done|]. split; [by eapply (record_at _ q _ _ [])|by split].
  - destruct (IH Hls H) as (l1 & l' & l2 & -> & Ho & Hs & Hl2).
    exists l1, l', (l2 ++ [l]). split; [by rewrite <- app_assoc|].
    split; [|split; [done|apply Forall_app; by repeat constructor]].
    rewrite <- Ho. apply record_other. intros q' y Hq' Nq'. simpl in Nq' |- *. intros Ej.
    apply (f_equal (split_char DOT)) in Ej. apply Forall_app in Hls as [_ [[Hw' Hd'] _]%Forall_cons].
    rewrite !split_char_join in Ej; try done.
    + subst q'. by apply Hn in Hq'.
    + eapply (dot_free_path (normalized_config l)); [by apply normalized_dot_free|done].
    + eapply (dot_free_path (normalized_config l')); [by apply normalized_dot_free|done].
Qed.

(** Origins: when no key has a dot, every scalar of the effective
    configuration has as its origin the enabled layer that set it, with that
    very value, and no enabled layer of higher precedence has a scalar there. *)
Theorem origins_spec (s : Stack) (q : list str) (x : TomlValue) :
  configs_wf s -> Forall (fun l => dot_free (le_config l) = true) (st_layers s) -> q <> [] ->
  scalar_at q (effective_config s) x ->
  exists l1 l l2, get_layers s LowestPrecedenceFirst false = l1 ++ l :: l2 /\
    origins s !! join [DOT] q = Some (metadata l) /\
    scalar_at q (normalized_config l) x /\
    Forall (fun l' => forall y, ~ scalar_at q (normalized_config l') y) l2.
Proof.
  intros Hwf Hdf Nq H. rewrite effective_config_merged in H by done.
  apply (origins_of_layers _ q x); [done| |done].
  unfold get_layers. unfold configs_wf in Hwf.
  induction (st_layers s) as [|l ls IH]; simpl; [constructor|].
  apply Forall_cons in Hwf as [? ?], Hdf as [? ?]. destruct (negb _); auto.
Qed.

End Origins.

(** ** The canonical form of JSON *)

Lemma canonical_fold (children : list (str * JsonValue)) keys acc : sorted_tbl acc ->
  let t := fold_left (fun sorted key =>
    match tbl_get key children with Some val => tbl_insert key val sorted | None => sorted end) keys acc in
  sorted_tbl t /\ forall k, tbl_get k t =
    if bool_decide (k ∈ keys) then
      match tbl_get k children with Some v => Some v | None => tbl_get k acc end
    else tbl_get k acc.
Proof.
  simpl. revert acc. induction keys as [|key keys IH]; intros acc Hs; simpl.
  { done. }
  destruct (tbl_get key children) as [v|] eqn:E.
  - destruct (IH (tbl_insert key v acc)) as [Hs' Hg]; [by apply sorted_insert|]. split; [done|].
    intros k. rewrite Hg. destruct (decide (k = key)) as [->|N].
    + rewrite (bool_decide_true (key ∈ key :: keys)) by left. rewrite E, tbl_get_insert. by destruct (bool_decide (key ∈ keys)).
    + rewrite tbl_get_insert_ne by done. f_equal.
      rewrite (bool_decide_ext (k ∈ key :: keys) (k ∈ keys)) by (rewrite elem_of_cons; naive_solver). done.
  - destruct (IH acc Hs) as [Hs' Hg]. split; [done|].
    intros k. rewrite Hg. destruct (decide (k = key)) as [->|N].
    + rewrite (bool_decide_true (key ∈ key :: keys)) by left. rewrite E. by destruct (bool_decide (key ∈ keys)).
    + rewrite (bool_decide_ext (k ∈ key :: keys) (k ∈ keys)) by (rewrite elem_of_cons; naive_solver). done.
Qed.

Lemma canonical_object m : exists t, canonical_json (JObject m) = JObject t /\ sorted_tbl t /\
  forall k, tbl_get k t = canonical_json <$> tbl_get k m.
Proof.
  simpl. eexists. split; [reflexivity|].
  destruct (canonical_fold (imap_values (fun _ => canonical_json) m) (sort_by str_leb (map fst m)) [])
    as [Hs Hg]; [constructor|]. split; [exact Hs|].
  intros k. etrans; [exact (Hg k)|]. rewrite tbl_get_imap_values.
  destruct (tbl_get k m) as [v|] eqn:E; simpl; [|by destruct (bool_decide _)].
  rewrite bool_decide_true; [done|]. rewrite sort_by_perm.
  apply (list_elem_of_fmap_2 fst _ _ (tbl_get_Some_elem _ _ _ E)).
Qed.

(** The version of a layer does not depend on the order of the entries of its
    objects: the canonical form has sorted keys and forgets the order. *)
Theorem canonical_json_perm (m m' : list (str * JsonValue)) :
  m ≡ₚ m' -> NoDup (map fst m) -> canonical_json (JObject m) = canonical_json (JObject m').
Proof.
  intros Hp Hn.
  destruct (canonical_object m) as (t & -> & Hs & Hg), (canonical_object m') as (t' & -> & Hs' & Hg').
  f_equal. apply sorted_ext; [done..|]. intros k. rewrite Hg, Hg'. f_equal. clear -Hp Hn.
  induction Hp as [|[j v] l l' Hp IH|[j v] [i w] l|l1 l2 l3 Hp IH Hp' IH']; simpl in *; [done| | |].
  - apply NoDup_cons in Hn as [_ Hn]. by rewrite IH.
  - apply NoDup_cons in Hn as [Hji _]. rewrite not_elem_of_cons in Hji.
    repeat case_bool_decide; try done. subst. by destruct Hji.
  - rewrite IH by done. apply IH'. by rewrite <- Hp.
Qed.

(** ** Examples *)

Lemma origins_spec_witness :
  exists l1 l l2, get_layers sample_stack LowestPrecedenceFirst false = l1 ++ l :: l2 /\
    origins sample_stack !! join [DOT] [lit "a"; lit "b"] = Some (metadata l) /\
    scalar_at [lit "a"; lit "b"] (normalized_config l) (TInteger 2) /\
    Forall (fun l' => forall y, ~ scalar_at [lit "a"; lit "b"] (normalized_config l') y) l2.
Proof.
  apply (origins_spec sample_stack); [repeat constructor|repeat constructor|discriminate|].
  eapply scalar_child; [simpl; left|]. eapply scalar_child; [simpl; left|]. by constructor.
Defined.

(** A field whose value a higher layer replaced by a table keeps an origin. *)
Lemma origins_stale :
  origins sample_stack !! lit "a" = Some (mkMetadata (User (lit "/h/config.toml")) (lit "v")) /\
  setting [lit "a"] (effective_config sample_stack) = None.
Proof. vm_compute. done. Qed.

(** A folder may follow one below it, when its name is [.codex] too. *)
Lemma reversed_projects_accepted :
  verify_layer_ordering
    [layer_of (Project (lit "/x/.codex/.codex")) (TTable []);
     layer_of (Project (lit "/x/.codex")) (TTable [])] = Ok None.
Proof. vm_compute. reflexivity. Qed.
