(* ===== verification/Constraint.v ===== *)
(** * Constraint: values that must pass a validator

    [config/src/constraint.rs].  The closures of a [Constrained] are functions
    of the record; an operation on [&mut self] returns the new value with its
    result.  [{:?}] is a parameter. *)

From S2P Require Import Prelude.
Local Open Scope str_scope.

(** ** Sources of requirements, from [config_requirements.rs] *)

Inductive RequirementSource : Type :=
| SourceUnknown
| SourceMdmManagedPreferences (domain key : str)
| SourceCloudRequirements
| SourceSystemRequirementsToml (file : str)
| SourceLegacyManagedConfigTomlFromFile (file : str)
| SourceLegacyManagedConfigTomlFromMdm.

(** ** Errors *)

Inductive ConstraintError : Type :=
| InvalidValue (field_name candidate allowed : str) (requirement_source : RequirementSource)
| EmptyField (field_name : str)
| ExecPolicyParse (requirement_source : RequirementSource) (reason : str).

Abbreviation ConstraintResult := (result ConstraintError).

Definition empty_field (field_name : str) : ConstraintError := EmptyField field_name.

(** ** [Constrained] *)

Record Constrained (T : Type) : Type := mkConstrained {
  cv_value : T;
  cv_validator : T -> ConstraintResult unit;
  cv_normalizer : option (T -> T);
}.
Arguments mkConstrained {_} _ _ _.
Arguments cv_value {_} _.
Arguments cv_validator {_} _.
Arguments cv_normalizer {_} _.

Section Operations.
Context {T : Type}.
Implicit Types (self : Constrained T).

Definition constrained_new (initial_value : T) (validator : T -> ConstraintResult unit)
    : ConstraintResult (Constrained T) :=
  _ ← validator initial_value;
  Ok (mkConstrained initial_value validator None).

Definition normalized (initial_value : T) (normalizer : T -> T) : ConstraintResult (Constrained T) :=
  let validator _ := Ok tt in
  let normalized := normalizer initial_value in
  _ ← validator normalized;
  Ok (mkConstrained normalized validator (Some normalizer)).

Definition allow_any (initial_value : T) : Constrained T :=
  mkConstrained initial_value (fun _ => Ok tt) None.

Definition allow_only `{EqDecision T} (debug : T -> str) (only_value : T) : Constrained T :=
  mkConstrained only_value
    (fun candidate =>
       if bool_decide (candidate = only_value) then Ok tt
       else Err (InvalidValue (lit "<unknown>") (debug candidate)
                   (lit "[" ++ debug only_value ++ lit "]") SourceUnknown))
    None.

(** [Default] is its value. *)
Definition allow_any_from_default (default_value : T) : Constrained T := allow_any default_value.

Definition can_set self (candidate : T) : ConstraintResult unit := cv_validator self candidate.

Definition add_validator self (validator : T -> ConstraintResult unit)
    : Constrained T * ConstraintResult unit :=
  let combined_validator candidate := _ ← cv_validator self candidate; validator candidate in
  match combined_validator (cv_value self) with
  | Ok _ => (mkConstrained (cv_value self) combined_validator (cv_normalizer self), Ok tt)
  | Err e => (self, Err e)
  end.

Definition constrained_set self (value : T) : Constrained T * ConstraintResult unit :=
  let value := match cv_normalizer self with Some normalizer => normalizer value | None => value end in
  match cv_validator self value with
  | Ok _ => (mkConstrained value (cv_validator self) (cv_normalizer self), Ok tt)
  | Err e => (self, Err e)
  end.

(** ** The invariant: the value passes its validator *)

Definition constrained_ok self : Prop := cv_validator self (cv_value self) = Ok tt.

Definition accepts self (v : T) : Prop := cv_validator self v = Ok tt.

Lemma result_unit {E} (r : result E unit) : r = Ok tt \/ exists e, r = Err e.
Proof. destruct r as [[]|e]; eauto. Qed.

Lemma constrained_new_ok v validator c : constrained_new v validator = Ok c ->
  constrained_ok c /\ cv_value c = v /\ cv_validator c = validator /\ cv_normalizer c = None.
Proof.
  intros ([] & Hv & [= <-])%result_bind_Ok. by split.
Qed.

Lemma constrained_new_iff v validator : validator v = Ok tt ->
  constrained_new v validator = Ok (mkConstrained v validator None).
Proof. intros H. unfold constrained_new. by rewrite H. Qed.

Lemma allow_any_ok v : constrained_ok (allow_any v).
Proof. done. Qed.

Lemma allow_only_ok `{EqDecision T} debug v : constrained_ok (allow_only debug v).
Proof. unfold constrained_ok, allow_only. simpl. by rewrite bool_decide_true. Qed.

Lemma normalized_ok v f c : normalized v f = Ok c -> constrained_ok c.
Proof. by intros [= <-]. Qed.

(** Setting: the normalised value if it passes, and otherwise nothing; never a
    value that does not pass. *)
Lemma constrained_set_spec self v self' r : constrained_ok self -> constrained_set self v = (self', r) ->
  constrained_ok self' /\
  match r with
  | Ok _ => cv_value self' = match cv_normalizer self with Some f => f v | None => v end /\
            accepts self (cv_value self')
  | Err _ => self' = self
  end /\
  forall c, accepts self' c <-> accepts self c.
Proof.
  unfold constrained_set, constrained_ok, accepts. intros Hok.
  set (w := match cv_normalizer self with Some f => f v | None => v end).
  destruct (cv_validator self w) as [[]|e] eqn:E; intros H; injection H as <- <-; by repeat split.
Qed.

(** Another validator: what is accepted is what both accept. *)
Lemma add_validator_spec self validator self' r : constrained_ok self ->
  add_validator self validator = (self', r) ->
  constrained_ok self' /\ cv_value self' = cv_value self /\
  match r with
  | Ok _ => forall c, accepts self' c <-> accepts self c /\ validator c = Ok tt
  | Err _ => self' = self
  end.
Proof.
  unfold add_validator, constrained_ok, accepts. intros Hok. rewrite Hok. simpl.
  destruct (validator (cv_value self)) as [[]|e] eqn:E; intros H; injection H as <- <-; simpl; [|done].
  rewrite Hok. simpl. split; [done|]. split; [done|]. intros c.
  destruct (cv_validator self c) as [[]|e']; simpl; [naive_solver|]. split; [done|by intros [? _]].
Qed.

End Operations.
