(* ===== verification/LayerPolicies.v ===== *)
(** * LayerPolicies: the exec policy of a stack of configuration layers

    The rules of [requirements.toml] ([config/src/requirements_exec_policy.rs])
    and the loading of the policy from the layers' folders (the part of
    [core/src/exec_policy.rs] that is not in [Approval]).  The directories and
    files that are read are parameters, like the evaluation of Starlark in
    [PolicyBuilder]. *)

From S2P Require Import Prelude Paths Trim ExecPolicy PolicyBuilder PolicyAmend Approval BTree Toml ConfigLayers Constraint.
Local Open Scope str_scope.

(** ** [requirements_exec_policy.rs] *)

Record RequirementsExecPolicy : Type := mkRequirementsPolicy { rp_policy : Policy }.

Inductive RequirementsExecPolicyDecisionToml : Type := AllowToml | PromptToml | ForbiddenToml.

Definition as_decision (self : RequirementsExecPolicyDecisionToml) : Decision :=
  match self with AllowToml => Allow | PromptToml => Prompt | ForbiddenToml => Forbidden end.

Record RequirementsExecPolicyPatternTokenToml : Type := mkTokenToml {
  tok_token : option str;
  tok_any_of : option (list str);
}.

Record RequirementsExecPolicyPrefixRuleToml : Type := mkRuleToml {
  rt_pattern : list RequirementsExecPolicyPatternTokenToml;
  rt_decision : option RequirementsExecPolicyDecisionToml;
  rt_justification : option str;
}.

Record RequirementsExecPolicyToml : Type := mkRulesToml {
  prefix_rules : list RequirementsExecPolicyPrefixRuleToml;
}.

Inductive RequirementsExecPolicyParseError : Type :=
| EmptyPrefixRules
| EmptyPattern (rule_index : nat)
| InvalidPatternToken (rule_index token_index : nat) (reason : str)
| EmptyJustification (rule_index : nat)
| MissingDecision (rule_index : nat)
| AllowDecisionNotAllowed (rule_index : nat).

Definition parse_requirements_token (token : RequirementsExecPolicyPatternTokenToml)
    (rule_index token_index : nat) : result RequirementsExecPolicyParseError PatternToken :=
  let invalid reason := Err (InvalidPatternToken rule_index token_index reason) in
  match tok_token token, tok_any_of token with
  | Some single, None =>
      if is_empty (trim single) then invalid (lit "token cannot be empty") else Ok (Single single)
  | None, Some alternatives =>
      if is_empty alternatives then invalid (lit "any_of cannot be empty")
      else if existsb (fun alt => is_empty (trim alt)) alternatives
      then invalid (lit "any_of cannot include empty tokens")
      else Ok (Alts alternatives)
  | Some _, Some _ => invalid (lit "set either token or any_of, not both")
  | None, None => invalid (lit "set either token or any_of")
  end.

(** One round of the loop over the rules. *)
Definition add_requirements_rule (rule_index : nat) (rule : RequirementsExecPolicyPrefixRuleToml)
    (rules_by_program : gmap str (list PrefixRule))
    : result RequirementsExecPolicyParseError (gmap str (list PrefixRule)) :=
  if match rt_justification rule with Some j => is_empty (trim j) | None => false end
  then Err (EmptyJustification rule_index)
  else if is_empty (rt_pattern rule) then Err (EmptyPattern rule_index)
  else
    pattern_tokens ← collect (imap (fun token_index token =>
      parse_requirements_token token rule_index token_index) (rt_pattern rule));
    decision ← match rt_decision rule with
               | Some AllowToml => Err (AllowDecisionNotAllowed rule_index)
               | Some decision => Ok (as_decision decision)
               | None => Err (MissingDecision rule_index)
               end;
    match pattern_tokens with
    | [] => Err (EmptyPattern rule_index)
    | first_token :: rest =>
        Ok (foldl (fun rules head =>
              multimap_insert head
                (mkRule (mkPattern head rest) decision (rt_justification rule)) rules)
            rules_by_program (alternatives first_token))
    end.

Fixpoint add_requirements_rules (rule_index : nat) (rules : list RequirementsExecPolicyPrefixRuleToml)
    (rules_by_program : gmap str (list PrefixRule))
    : result RequirementsExecPolicyParseError (gmap str (list PrefixRule)) :=
  match rules with
  | [] => Ok rules_by_program
  | rule :: rules =>
      rules_by_program ← add_requirements_rule rule_index rule rules_by_program;
      add_requirements_rules (S rule_index) rules rules_by_program
  end.

Definition to_policy (self : RequirementsExecPolicyToml)
    : result RequirementsExecPolicyParseError Policy :=
  if is_empty (prefix_rules self) then Err EmptyPrefixRules
  else
    rules_by_program ← add_requirements_rules 0 (prefix_rules self) ∅;
    Ok (policy_new rules_by_program).

Definition to_requirements_policy (self : RequirementsExecPolicyToml)
    : result RequirementsExecPolicyParseError RequirementsExecPolicy :=
  policy ← to_policy self; Ok (mkRequirementsPolicy policy).

(** ** Sources of requirements, from [config_requirements.rs] *)

(** The derived [PartialEq]; paths are equal when their components are. *)
Definition requirement_source_eqb (a b : RequirementSource) : bool :=
  match a, b with
  | SourceUnknown, SourceUnknown
  | SourceCloudRequirements, SourceCloudRequirements
  | SourceLegacyManagedConfigTomlFromMdm, SourceLegacyManagedConfigTomlFromMdm => true
  | SourceMdmManagedPreferences d k, SourceMdmManagedPreferences d' k' => (d =? d') && (k =? k')
  | SourceSystemRequirementsToml f, SourceSystemRequirementsToml f'
  | SourceLegacyManagedConfigTomlFromFile f, SourceLegacyManagedConfigTomlFromFile f' => path_eqb f f'
  | _, _ => false
  end.

Record Sourced (T : Type) : Type := mkSourced { sd_value : T; sd_source : RequirementSource }.
Arguments mkSourced {_} _ _.
Arguments sd_value {_} _.
Arguments sd_source {_} _.

(** ** Loading, from [core/src/exec_policy.rs] *)

Definition RULE_EXTENSION : str := lit "rules".

(** [Path::extension] *)
Definition extension (p : str) : option str :=
  f ← file_name p;
  match rsplit_once (ch ".") f with
  | Some (before, after) => if is_empty before then None else Some after
  | None => None
  end.

Inductive ExecPolicyError (IoError StarlarkError : Type) : Type :=
| ReadDir (dir : str) (source : IoError)
| ReadFile (path : str) (source : IoError)
| ParsePolicy (path : str) (source : Error StarlarkError).
Arguments ReadDir {_ _} dir source.
Arguments ReadFile {_ _} path source.
Arguments ParsePolicy {_ _} path source.

(** An entry of a directory; its type is asked for separately. *)
Record DirEntry (IoError : Type) : Type := mkDirEntry {
  de_path : str;
  de_is_file : result IoError bool;
}.
Arguments mkDirEntry {_} _ _.
Arguments de_path {_} _.
Arguments de_is_file {_} _.

Section Load.
Context {IoError StarlarkError : Type}.
Context (home_dir cwd : option str).
Context (shlex_split : str -> option (list str)) (try_join : list str -> option str)
        (debug_rule : PrefixRule -> str) (debug_match : RuleMatch -> str)
        (starlark_eval : str -> str -> result StarlarkError (list Builtin * option StarlarkError))
        (starlark_of : Error StarlarkError -> StarlarkError).
(** [fs::read_dir] with the entries [next_entry] gives, [fs::read_to_string],
    and [ErrorKind::NotFound] *)
Context (read_dir : str -> result IoError (list (result IoError (DirEntry IoError))))
        (read_to_string : str -> result IoError str)
        (is_not_found : IoError -> bool).
Context {Requirements RequirementsToml : Type}
        (exec_policy : Requirements -> option (Sourced RequirementsExecPolicy)).

Abbreviation Load := (result (ExecPolicyError IoError StarlarkError)).
Notation Stack := (@ConfigLayerStack Requirements RequirementsToml).

Definition policy_fingerprint (policy : Policy) : list str :=
  sort_by str_leb (concat (map (fun '(program, rules) =>
    map (fun rule => program ++ lit ":" ++ debug_rule rule) rules)
    (map_to_list (rules_by_program policy)))).

(** [PartialEq] of [RequirementsExecPolicy] *)
Definition requirements_policy_eqb (self other : RequirementsExecPolicy) : bool :=
  bool_decide (policy_fingerprint (rp_policy self) = policy_fingerprint (rp_policy other)).

Fixpoint collect_entries (dir : str) (entries : list (result IoError (DirEntry IoError)))
    (policy_paths : list str) : Load (list str) :=
  match entries with
  | [] => Ok policy_paths
  | entry :: entries =>
      entry ← map_err (ReadDir dir) entry;
      is_file ← map_err (ReadDir dir) (de_is_file entry);
      if match extension (de_path entry) with Some ext => ext =? RULE_EXTENSION | None => false end
         && is_file
      then collect_entries dir entries (policy_paths ++ [de_path entry])
      else collect_entries dir entries policy_paths
  end.

(** [Ord] on the paths of one directory: by their components. *)
Definition path_leb (p q : str) : bool :=
  strs_leb (map as_os_str (components p)) (map as_os_str (components q)).

Definition collect_policy_files (dir : str) : Load (list str) :=
  match read_dir dir with
  | Err err => if is_not_found err then Ok [] else Err (ReadDir dir err)
  | Ok entries =>
      policy_paths ← collect_entries dir entries [];
      Ok (sort_by path_leb policy_paths)
  end.

(** [config_folder.join(RULES_DIR_NAME)] *)
Definition rules_dir (folder : str) : str := abs_join home_dir folder RULES_DIR_NAME.

Definition is_user_or_project (name : ConfigLayerSource) : bool :=
  match name with User _ | Project _ => true | _ => false end.

Fixpoint collect_layer_policies (ignore : bool) (layers : list ConfigLayerEntry)
    (policy_paths : list str) : Load (list str) :=
  match layers with
  | [] => Ok policy_paths
  | layer :: layers =>
      if ignore && is_user_or_project (le_name layer)
      then collect_layer_policies ignore layers policy_paths
      else match config_folder layer with
           | Some folder =>
               layer_policy_paths ← collect_policy_files (rules_dir folder);
               collect_layer_policies ignore layers (policy_paths ++ layer_policy_paths)
           | None => collect_layer_policies ignore layers policy_paths
           end
  end.

Fixpoint parse_policies (parser : PolicyBuilder) (policy_paths : list str) : Load PolicyBuilder :=
  match policy_paths with
  | [] => Ok parser
  | path :: policy_paths =>
      contents ← map_err (ReadFile path) (read_to_string path);
      match parse home_dir cwd shlex_split try_join debug_rule debug_match starlark_eval starlark_of
              parser path contents with
      | (parser, Ok _) => parse_policies parser policy_paths
      | (_, Err source) => Err (ParsePolicy path source)
      end
  end.

Definition load_exec_policy (config_stack : Stack) : Load Policy :=
  policy_paths ← collect_layer_policies
    (st_ignore_user_and_project_exec_policy_rules config_stack)
    (get_layers config_stack LowestPrecedenceFirst false) [];
  parser ← parse_policies builder_new policy_paths;
  let policy := build parser in
  match exec_policy (st_requirements config_stack) with
  | None => Ok policy
  | Some requirements_policy => Ok (merge_overlay policy (rp_policy (sd_value requirements_policy)))
  end.

Definition load_exec_policy_with_warning (config_stack : Stack)
    : Load (Policy * option (ExecPolicyError IoError StarlarkError)) :=
  match load_exec_policy config_stack with
  | Ok policy => Ok (policy, None)
  | Err (ParsePolicy path source) => Ok (policy_empty, Some (ParsePolicy path source))
  | Err err => Err err
  end.

(** [ExecPolicyManager::load], with the file its updates go to. *)
Definition manager_load {S} (file : S) (config_stack : Stack) : Load (ExecPolicyManager S) :=
  policy_warning ← load_exec_policy_with_warning config_stack;
  Ok (mkManager policy_warning.1 file).

Definition check_execpolicy_for_warnings (config_stack : Stack)
    : Load (option (ExecPolicyError IoError StarlarkError)) :=
  policy_warning ← load_exec_policy_with_warning config_stack; Ok policy_warning.2.

Definition exec_policy_config_folders (stack : Stack) : list str :=
  omap config_folder (get_layers stack LowestPrecedenceFirst false).

Fixpoint paths_eqb (l k : list str) : bool :=
  match l, k with
  | [], [] => true
  | p :: l, q :: k => path_eqb p q && paths_eqb l k
  | _, _ => false
  end.

Definition child_uses_parent_exec_policy (parent child : Stack) : bool :=
  paths_eqb (exec_policy_config_folders parent) (exec_policy_config_folders child)
  && Bool.eqb (st_ignore_user_and_project_exec_policy_rules parent)
       (st_ignore_user_and_project_exec_policy_rules child)
  && match exec_policy (st_requirements parent), exec_policy (st_requirements child) with
     | Some p, Some c =>
         requirements_policy_eqb (sd_value p) (sd_value c) && requirement_source_eqb (sd_source p) (sd_source c)
     | None, None => true
     | _, _ => false
     end.
End Load.

(** ** The rules of requirements *)

(** The token a table of [requirements.toml] stands for. *)
Definition token_is (token : RequirementsExecPolicyPatternTokenToml) (p : PatternToken) : Prop :=
  match p with
  | Single s => tok_token token = Some s /\ tok_any_of token = None /\ trim s <> []
  | Alts l => tok_token token = None /\ tok_any_of token = Some l /\ l <> [] /\ Forall (fun s => trim s <> []) l
  end.

(** A rule is valid, with this pattern and this decision. *)
Definition rule_is (rule : RequirementsExecPolicyPrefixRuleToml) (first : PatternToken)
    (rest : list PatternToken) (d : Decision) : Prop :=
  Forall2 token_is (rt_pattern rule) (first :: rest) /\
  as_decision <$> rt_decision rule = Some d /\ d <> Allow /\
  match rt_justification rule with Some j => trim j <> [] | None => True end.

Definition rule_valid (rule : RequirementsExecPolicyPrefixRuleToml) : Prop :=
  exists first rest d, rule_is rule first rest d.

(** The rule gives the program this rule. *)
Definition gives (rule : RequirementsExecPolicyPrefixRuleToml) (prog : str) (r : PrefixRule) : Prop :=
  exists first rest d, rule_is rule first rest d /\ prog ∈ alternatives first /\
    r = mkRule (mkPattern prog rest) d (rt_justification rule).

Lemma is_empty_true {A} (l : list A) : is_empty l = true <-> l = [].
Proof. by destruct l. Qed.

Lemma existsb_empty_false l :
  existsb (fun alt => is_empty (trim alt)) l = false <-> Forall (fun s => trim s <> []) l.
Proof.
  induction l as [|s l IH]; simpl; [by split|].
  by rewrite orb_false_iff, is_empty_false, Forall_cons, IH.
Qed.

Lemma parse_requirements_token_spec token i j p :
  parse_requirements_token token i j = Ok p <-> token_is token p.
Proof.
  unfold parse_requirements_token, token_is.
  destruct token as [[s|] [l|]]; simpl; try (destruct p; split; naive_solver).
  - destruct (is_empty (trim s)) eqn:E; [apply is_empty_true in E|apply is_empty_false in E];
      destruct p; naive_solver.
  - destruct (is_empty l) eqn:E.
    { destruct l; [|done]. destruct p; naive_solver. }
    apply is_empty_false in E. destruct (existsb _ l) eqn:Ex.
    + assert (~ Forall (fun s => trim s <> []) l) by (rewrite <- existsb_empty_false; congruence).
      destruct p; naive_solver.
    + apply existsb_empty_false in Ex. destruct p; naive_solver.
Qed.

Lemma collect_imap {A B E} (P : A -> B -> Prop) (f : nat -> A -> result E B) l k :
  (forall j x y, f j x = Ok y <-> P x y) -> collect (imap f l) = Ok k <-> Forall2 P l k.
Proof.
  revert f k. induction l as [|x l IH]; intros f k Hf; simpl.
  { split; [intros [= <-]; constructor|]. by intros ->%Forall2_nil_inv_l. }
  specialize (IH (f ∘ S)). split.
  - intros (y & Hy & (k' & Hk & [= <-])%result_bind_Ok)%result_bind_Ok.
    constructor; [by apply Hf in Hy|]. apply IH; [|done]. intros j; apply (Hf (S j)).
  - intros (y & k' & Hy & Hk & ->)%Forall2_cons_inv_l. rewrite (proj2 (Hf 0 x y) Hy). simpl.
    rewrite (proj2 (IH k' ltac:(intros j; apply (Hf (S j)))) Hk). done.
Qed.

Lemma add_requirements_rule_spec i rule m m' :
  add_requirements_rule i rule m = Ok m' <->
  exists first rest d, rule_is rule first rest d /\
    m' = foldl (fun rules head => multimap_insert head
                  (mkRule (mkPattern head rest) d (rt_justification rule)) rules) m (alternatives first).
Proof.
  unfold add_requirements_rule, rule_is. split.
  - match goal with |- (if ?b then _ else _) = _ -> _ => destruct b eqn:Ej; [done|] end.
    destruct (is_empty (rt_pattern rule)); [done|].
    intros (tokens & Ht & (d & Hd & Hm)%result_bind_Ok)%result_bind_Ok.
    rewrite (collect_imap token_is) in Ht by (intros; apply parse_requirements_token_spec).
    destruct tokens as [|first rest]; [done|]. injection Hm as <-. exists first, rest, d.
    split; [|done]. split; [done|].
    destruct (rt_decision rule) as [[]|]; try done; injection Hd as <-; (split; [done|]);
      (split; [done|]); (destruct (rt_justification rule); [by apply is_empty_false|done]).
  - intros (first & rest & d & (Ht & Hd & Hna & Hj) & ->).
    assert ((match rt_justification rule with Some j => is_empty (trim j) | None => false end) = false) as ->.
    { destruct (rt_justification rule); [by apply is_empty_false|done]. }
    destruct (is_empty (rt_pattern rule)) eqn:Ee.
    { destruct (rt_pattern rule); [|done]. by apply Forall2_nil_inv_l in Ht. }
    rewrite (proj2 (collect_imap token_is _ _ _ ltac:(intros; apply parse_requirements_token_spec)) Ht).
    simpl. destruct (rt_decision rule) as [[]|]; simpl in *; try done; injection Hd as <-; done.
Qed.

Lemma insert_heads heads rest d j m prog r :
  r ∈ default [] (foldl (fun rules head => multimap_insert head (mkRule (mkPattern head rest) d j) rules)
                    m heads !! prog) <->
  r ∈ default [] (m !! prog) \/ (prog ∈ heads /\ r = mkRule (mkPattern prog rest) d j).
Proof.
  revert m. induction heads as [|h heads IH]; intros m; simpl; [rewrite elem_of_nil; tauto|].
  rewrite IH, elem_of_multimap_insert, elem_of_cons. naive_solver.
Qed.

Lemma rule_is_functional rule f f' r r' d d' :
  rule_is rule f r d -> rule_is rule f' r' d' -> f = f' /\ r = r' /\ d = d'.
Proof.
  intros (H & Hd & _) (H' & Hd' & _). rewrite Hd in Hd'. injection Hd' as <-.
  assert (f :: r = f' :: r') as [= -> ->]; [|done].
  revert H'. generalize (f' :: r'). induction H as [|t p l k Hp _ IH]; intros k' H'.
  - by apply Forall2_nil_inv_l in H'.
  - apply Forall2_cons_inv_l in H' as (p' & k'' & Hp' & Hk & ->). f_equal; [|by apply IH].
    unfold token_is in *. destruct p, p'; naive_solver.
Qed.

Lemma add_requirements_rules_spec i rules m :
  match add_requirements_rules i rules m with
  | Ok m' => Forall rule_valid rules /\
      forall prog r, r ∈ default [] (m' !! prog) <->
        r ∈ default [] (m !! prog) \/ exists rule, rule ∈ rules /\ gives rule prog r
  | Err _ => ~ Forall rule_valid rules
  end.
Proof.
  revert i m. induction rules as [|rule rules IH]; intros i m; simpl.
  { split; [constructor|]. intros prog r. setoid_rewrite elem_of_nil. naive_solver. }
  destruct (add_requirements_rule i rule m) as [m1|e] eqn:E; simpl.
  - apply add_requirements_rule_spec in E as (first & rest & d & Hr & ->).
    specialize (IH (S i) (foldl (fun rules head => multimap_insert head
      (mkRule (mkPattern head rest) d (rt_justification rule)) rules) m (alternatives first))).
    destruct (add_requirements_rules _ _ _) as [m'|e].
    + destruct IH as [Hv IH]. split; [constructor; [by exists first, rest, d|done]|].
      intros prog r. rewrite IH, insert_heads. setoid_rewrite elem_of_cons. split.
      * intros [[?|[Hp ->]]|(x & Hx & Hg)]; [by left|right|right; exists x; auto].
        exists rule. split; [by left|]. by exists first, rest, d.
      * intros [?|(x & [->|Hx] & Hg)]; [auto| |right; by exists x].
        destruct Hg as (f' & r' & d' & Hr' & Hp & ->).
        destruct (rule_is_functional _ _ _ _ _ _ _ Hr Hr') as (-> & -> & ->). auto.
    + intros [_ Hv]%Forall_cons. by apply IH.
  - intros [(first & rest & d & Hr) _]%Forall_cons.
    assert (add_requirements_rule i rule m = Ok (foldl (fun rules head => multimap_insert head
      (mkRule (mkPattern head rest) d (rt_justification rule)) rules) m (alternatives first))) as H.
    { apply add_requirements_rule_spec. by exists first, rest, d. }
    congruence.
Qed.

(** The rules of [requirements.toml]: the conversion succeeds exactly when
    there is a rule and every rule is valid; the policy then has, for each
    program, the rules that name it and no others, nothing about hosts or
    networks, and no match of it ever allows a command. *)
Theorem requirements_policy_spec (self : RequirementsExecPolicyToml) :
  match to_policy self with
  | Ok p =>
      prefix_rules self <> [] /\ Forall rule_valid (prefix_rules self) /\
      (forall prog r, r ∈ default [] (rules_by_program p !! prog) <->
         exists rule, rule ∈ prefix_rules self /\ gives rule prog r) /\
      network_rules p = [] /\ host_executables_by_name p = ∅ /\
      forall cmd, Forall (fun m => rule_match_decision m <> Allow) (exact_matches p cmd)
  | Err _ => prefix_rules self = [] \/ ~ Forall rule_valid (prefix_rules self)
  end.
Proof.
  unfold to_policy. destruct (is_empty (prefix_rules self)) eqn:Ee; [left; by destruct (prefix_rules self)|].
  pose proof (add_requirements_rules_spec 0 (prefix_rules self) ∅) as H.
  destruct (add_requirements_rules _ _ _) as [m|e]; simpl; [|by right].
  destruct H as [Hv H].
  assert (forall prog r, r ∈ default [] (m !! prog) <->
    exists rule, rule ∈ prefix_rules self /\ gives rule prog r) as Hm.
  { intros prog r. rewrite H, lookup_empty. simpl. rewrite elem_of_nil. naive_solver. }
  split; [by apply is_empty_false|]. split; [done|]. split; [done|]. split; [done|]. split; [done|].
  intros cmd. unfold exact_matches. rewrite match_exact_rules_eq.
  destruct (head cmd) as [c|]; [|constructor]. cbn [mbind option_bind default rules_by_program policy_new].
  apply Forall_forall. intros x (r & Hr & Hx)%list_elem_of_omap.
  apply Hm in Hr as (rule & _ & (first & rest & d & (_ & _ & Hna & _) & _ & ->)).
  unfold rule_matches in Hx. destruct (matches_prefix _ _); [|done]. by injection Hx as <-.
Qed.

(** ** Loading *)

Lemma strs_leb_total a b : strs_leb a b = false -> strs_leb b a = true.
Proof.
  revert b. induction a as [|x a IH]; intros [|y b]; simpl; try done.
  case_bool_decide as E; [subst; rewrite bool_decide_true by done; apply IH|].
  rewrite bool_decide_false by done. apply str_leb_total.
Qed.

Lemma strs_leb_trans a b c : strs_leb a b = true -> strs_leb b c = true -> strs_leb a c = true.
Proof.
  revert b c. induction a as [|x a IH]; intros [|y b] [|z c]; simpl; try done.
  repeat case_bool_decide; subst; try done; try (intros; by eapply str_leb_trans); [by apply IH|].
  intros H1 H2. by destruct (H (str_leb_antisym _ _ H1 H2)).
Qed.

Section LoadSpec.
Context {IoError StarlarkError : Type}.
Context (home_dir cwd : option str).
Context (shlex_split : str -> option (list str)) (try_join : list str -> option str)
        (debug_rule : PrefixRule -> str) (debug_match : RuleMatch -> str)
        (starlark_eval : str -> str -> result StarlarkError (list Builtin * option StarlarkError))
        (starlark_of : Error StarlarkError -> StarlarkError).
Context (read_dir : str -> result IoError (list (result IoError (DirEntry IoError))))
        (read_to_string : str -> result IoError str)
        (is_not_found : IoError -> bool).
Context {Requirements RequirementsToml : Type}
        (exec_policy : Requirements -> option (Sourced RequirementsExecPolicy)).
Notation Stack := (@ConfigLayerStack Requirements RequirementsToml).
Notation policy_files := (collect_policy_files (StarlarkError := StarlarkError) read_dir is_not_found).
Notation load := (load_exec_policy home_dir cwd shlex_split try_join debug_rule debug_match
  starlark_eval starlark_of read_dir read_to_string is_not_found exec_policy).
Notation parse_all := (parse_policies (IoError := IoError) home_dir cwd shlex_split try_join debug_rule
  debug_match starlark_eval starlark_of read_to_string).

(** A file of the directory with the extension of rules. *)
Definition rules_file (entries : list (result IoError (DirEntry IoError))) (p : str) : Prop :=
  extension p = Some RULE_EXTENSION /\ Ok (mkDirEntry p (Ok true)) ∈ entries.

Lemma collect_entries_spec dir entries acc paths :
  collect_entries (StarlarkError := StarlarkError) dir entries acc = Ok paths ->
  forall p, p ∈ paths <-> p ∈ acc \/ rules_file entries p.
Proof.
  unfold rules_file. revert acc. induction entries as [|e entries IH]; intros acc; simpl.
  { intros [= ->] p. rewrite elem_of_nil. tauto. }
  intros ([path r] & He%map_err_Ok & (is_file & Hf%map_err_Ok & H)%result_bind_Ok)%result_bind_Ok p.
  subst e. simpl in *. subst r. rewrite elem_of_cons.
  destruct (_ && is_file) eqn:E; apply (IH _) with (p := p) in H; rewrite H.
  - apply andb_true_iff in E as [E ->]. destruct (extension path) as [ext|] eqn:Ex; [|done].
    apply bool_decide_eq_true in E as ->. rewrite elem_of_app, list_elem_of_singleton.
    split; [intros [[Hp|Hp]|Hp]; [tauto|subst; tauto|tauto]|].
    intros [Hp|(Hp & [Hq|Hq])]; [tauto|injection Hq as ->; tauto|tauto].
  - split; [tauto|]. intros [Hp|(Hp & [Hq|Hq])]; [tauto| |tauto].
    injection Hq as -> <-. by rewrite Hp, bool_decide_true in E.
Qed.

(** The files of one layer, sorted; a directory that is not there has none. *)
Lemma policy_files_spec dir paths : policy_files dir = Ok paths ->
  match read_dir dir with
  | Ok entries =>
      StronglySorted (fun p q => path_leb p q = true) paths /\ forall p, p ∈ paths <-> rules_file entries p
  | Err e => is_not_found e = true /\ paths = []
  end.
Proof.
  unfold collect_policy_files. destruct (read_dir dir) as [entries|e].
  - intros (ps & Hps & [= <-])%result_bind_Ok. split.
    + apply sort_by_sorted.
      * intros a b. unfold path_leb. destruct (strs_leb _ _) eqn:E; [auto|right; by apply strs_leb_total].
      * intros a b c. apply strs_leb_trans.
    + intros p. rewrite sort_by_perm, (collect_entries_spec _ _ _ _ Hps), elem_of_nil. tauto.
  - destruct (is_not_found e); [by intros [= <-]|done].
Qed.

Definition policy_layers (s : Stack) : list ConfigLayerEntry :=
  List.filter (fun l => negb (st_ignore_user_and_project_exec_policy_rules s && is_user_or_project (le_name l)))
    (get_layers s LowestPrecedenceFirst false).

Lemma collect_layers_spec ignore layers acc paths :
  collect_layer_policies (StarlarkError := StarlarkError) home_dir read_dir is_not_found ignore layers acc = Ok paths ->
  exists files, paths = acc ++ concat files /\
    Forall2 (fun folder fs => policy_files (rules_dir home_dir folder) = Ok fs)
      (omap config_folder (List.filter (fun l => negb (ignore && is_user_or_project (le_name l))) layers)) files.
Proof.
  revert acc. induction layers as [|l layers IH]; intros acc; simpl.
  { intros [= ->]. exists []. by rewrite app_nil_r. }
  destruct (ignore && is_user_or_project (le_name l)); simpl; [apply IH|].
  destruct (config_folder l) as [folder|]; simpl; [|apply IH].
  intros (fs & Hfs & (files & -> & Hall)%IH)%result_bind_Ok.
  exists (fs :: files). simpl. rewrite app_assoc. split; [done|]. by constructor.
Qed.

Lemma parse_all_wf parser paths parser' : builder_wf parser ->
  parse_all parser paths = Ok parser' -> builder_wf parser'.
Proof.
  revert parser. induction paths as [|p paths IH]; intros parser Hw; simpl; [by intros [= <-]|].
  intros (contents & _ & H)%result_bind_Ok. revert H. unfold parse.
  destruct (starlark_eval p contents) as [[calls final]|e]; [|done].
  destruct (run_builtins _ _ _ _ parser calls) as [b1 [u|e]] eqn:E; [|done].
  apply run_builtins_wf in E; [|done]. destruct final; [done|].
  destruct (validate_pending_examples_from _ _ _ _ _ _ _); [by apply IH|done].
Qed.


(** When a rules file does not parse, a session that is started all the same
    has no rules at all, those of [requirements.toml] included. *)
Lemma unparsed_rules_drop_requirements {S} (file : S) (s : Stack) path source :
  load s = Err (ParsePolicy path source) ->
  exists mgr,
    manager_load home_dir cwd shlex_split try_join debug_rule debug_match starlark_eval starlark_of
      read_dir read_to_string is_not_found exec_policy file s = Ok mgr /\
    forall cmd, exact_matches (mgr_policy mgr) cmd = [].
Proof.
  intros H. unfold manager_load, load_exec_policy_with_warning. rewrite H. simpl.
  eexists. split; [done|]. intros cmd. unfold exact_matches, match_exact_rules. simpl.
  by destruct (head cmd).
Qed.

End LoadSpec.

(** ** Examples *)

Definition sample_rules : RequirementsExecPolicyToml :=
  mkRulesToml [mkRuleToml [mkTokenToml (Some (lit "rm")) None] (Some ForbiddenToml) None].

Definition sample_requirements : option (Sourced RequirementsExecPolicy) :=
  match to_requirements_policy sample_rules with
  | Ok p => Some (mkSourced p SourceCloudRequirements)
  | Err _ => None
  end.

Definition user_layer_stack : @ConfigLayerStack unit unit :=
  mkStack [mkEntry (User (lit "/h/config.toml")) (TTable []) None [] None] (Some 0) tt tt false.

(** One rules file, that allows [rm -i]. *)
Definition sample_read_dir (dir : str) : result unit (list (result unit (DirEntry unit))) :=
  if dir =? lit "/h/rules"
  then Ok [Ok (mkDirEntry (lit "/h/rules/default.rules") (Ok true)); Ok (mkDirEntry (lit "/h/rules/notes") (Ok true))]
  else Err tt.

Definition allow_rm (_ _ : str) : result str (list Builtin * option str) :=
  Ok ([prefix_rule_call [VStr (lit "rm"); VStr (lit "-i")] (Some (lit "allow")) None None None None], None).

Definition sample_load (eval : str -> str -> result str (list Builtin * option str))
    : result (ExecPolicyError unit str) Policy :=
  load_exec_policy None None (fun s => Some (split_char (ch " ") s)) (fun l => Some (join (lit " ") l))
    (fun _ => []) (fun _ => []) eval (fun _ => []) sample_read_dir (fun _ => Ok []) (fun _ => true)
    (fun _ => sample_requirements) user_layer_stack.

Definition rm_i : list str := [lit "rm"; lit "-i"; lit "f"].

