(* ===== verification/Requirements.v ===== *)
(** * Requirements: what administrators impose on a configuration

    [config/src/config_requirements.rs] and [hook_config.rs]: the tables of
    [requirements.toml], their merge over sources, and the constraints they
    become; and the use of the constraints in [core/src/config/mod.rs].
    Deserialisation from TOML text, [{:?}] and the matcher of wildcards are
    parameters; the checks inside [Deserialize] instances are modelled. *)

From S2P Require Import Prelude Paths HostPaths Permissions BTree Constraint ExecPolicy LayerPolicies.
Local Open Scope str_scope.

(** ** Small data *)

#[global] Instance granular_eq_dec : EqDecision GranularApprovalConfig.
Proof. solve_decision. Defined.
#[global] Instance ask_eq_dec : EqDecision AskForApproval.
Proof. solve_decision. Defined.

Inductive ApprovalsReviewer : Type := ReviewUser | AutoReview.
#[global] Instance reviewer_eq_dec : EqDecision ApprovalsReviewer.
Proof. solve_decision. Defined.

Inductive SandboxMode : Type := SandboxReadOnly | SandboxWorkspaceWrite | SandboxDangerFullAccess.

Inductive SandboxModeRequirement : Type :=
| ModeReadOnly | ModeWorkspaceWrite | ModeDangerFullAccess | ModeExternalSandbox.
#[global] Instance mode_eq_dec : EqDecision SandboxModeRequirement.
Proof. solve_decision. Defined.

Definition mode_of_sandbox_mode (mode : SandboxMode) : SandboxModeRequirement :=
  match mode with
  | SandboxReadOnly => ModeReadOnly
  | SandboxWorkspaceWrite => ModeWorkspaceWrite
  | SandboxDangerFullAccess => ModeDangerFullAccess
  end.

Inductive WebSearchMode : Type := WebDisabled | WebCached | WebLive.
Inductive WebSearchModeRequirement : Type := ReqDisabled | ReqCached | ReqLive.
#[global] Instance web_eq_dec : EqDecision WebSearchModeRequirement.
Proof. solve_decision. Defined.

Definition requirement_of_web_mode (mode : WebSearchMode) : WebSearchModeRequirement :=
  match mode with WebDisabled => ReqDisabled | WebCached => ReqCached | WebLive => ReqLive end.
Definition web_mode_of_requirement (mode : WebSearchModeRequirement) : WebSearchMode :=
  match mode with ReqDisabled => WebDisabled | ReqCached => WebCached | ReqLive => WebLive end.

Inductive ResidencyRequirement : Type := Us.
#[global] Instance residency_eq_dec : EqDecision ResidencyRequirement.
Proof. solve_decision. Defined.

Record FeatureRequirementsToml : Type := mkFeatures { feature_entries : list (str * bool) }.
Definition features_is_empty (self : FeatureRequirementsToml) : bool := is_empty (feature_entries self).

(** ** [hook_config.rs] *)

Inductive HookHandlerConfig : Type :=
| HookCommand (command : str) (timeout_sec : option N) (async : bool) (status_message : option str)
| HookPrompt
| HookAgent.
#[global] Instance handler_eq_dec : EqDecision HookHandlerConfig.
Proof. solve_decision. Defined.

Record MatcherGroup : Type := mkMatcherGroup {
  mg_matcher : option str;
  mg_hooks : list HookHandlerConfig;
}.
#[global] Instance matcher_group_eq_dec : EqDecision MatcherGroup.
Proof. solve_decision. Defined.

Record HookEventsToml : Type := mkHookEvents {
  pre_tool_use : list MatcherGroup;
  permission_request : list MatcherGroup;
  post_tool_use : list MatcherGroup;
  session_start : list MatcherGroup;
  user_prompt_submit : list MatcherGroup;
  hook_stop : list MatcherGroup;
}.
#[global] Instance hook_events_eq_dec : EqDecision HookEventsToml.
Proof. solve_decision. Defined.

Definition hook_events_is_empty (self : HookEventsToml) : bool :=
  is_empty (pre_tool_use self) && is_empty (permission_request self)
  && is_empty (post_tool_use self) && is_empty (session_start self)
  && is_empty (user_prompt_submit self) && is_empty (hook_stop self).

Definition hook_events_handler_count (self : HookEventsToml) : nat :=
  sum_list (map (fun group => length (mg_hooks group))
    (concat [pre_tool_use self; permission_request self; post_tool_use self; session_start self;
             user_prompt_submit self; hook_stop self])).

Inductive HookEventName : Type :=
| PreToolUse | PermissionRequest | PostToolUse | SessionStart | UserPromptSubmit | Stop.

Definition into_matcher_groups (self : HookEventsToml) : list (HookEventName * list MatcherGroup) :=
  [(PreToolUse, pre_tool_use self); (PermissionRequest, permission_request self);
   (PostToolUse, post_tool_use self); (SessionStart, session_start self);
   (UserPromptSubmit, user_prompt_submit self); (Stop, hook_stop self)].

(** Two [PathBuf]s are kept as texts; they are compared by components. *)
Record ManagedHooksRequirementsToml : Type := mkManagedHooks {
  managed_dir : option str;
  windows_managed_dir : option str;
  managed_hook_events : HookEventsToml;
}.

Definition managed_hooks_is_empty (self : ManagedHooksRequirementsToml) : bool :=
  bool_decide (managed_dir self = None) && bool_decide (windows_managed_dir self = None)
  && hook_events_is_empty (managed_hook_events self).

Definition handler_count (self : ManagedHooksRequirementsToml) : nat :=
  hook_events_handler_count (managed_hook_events self).

Definition managed_dir_for_current_platform (self : ManagedHooksRequirementsToml) : option str :=
  managed_dir self.

(** The derived [PartialEq] *)
Definition managed_hooks_eqb (a b : ManagedHooksRequirementsToml) : bool :=
  option_path_eqb (managed_dir a) (managed_dir b)
  && option_path_eqb (windows_managed_dir a) (windows_managed_dir b)
  && bool_decide (managed_hook_events a = managed_hook_events b).

(** ** MCP servers and apps *)

Inductive McpServerIdentity : Type := McpCommand (command : str) | McpUrl (url : str).
Record McpServerRequirement : Type := mkMcpRequirement { identity : McpServerIdentity }.

Record AppRequirementToml : Type := mkApp { app_enabled : option bool }.
Record AppsRequirementsToml : Type := mkApps { apps_entries : list (str * AppRequirementToml) }.

Definition apps_is_empty (self : AppsRequirementsToml) : bool :=
  forallb (fun app => bool_decide (app_enabled app.2 = None)) (apps_entries self).

Definition option_or {A} (a b : option A) : option A := match a with Some _ => a | None => b end.

Definition merge_enablement (higher_precedence lower_precedence : option bool) : option bool :=
  if bool_decide (higher_precedence = Some false) || bool_decide (lower_precedence = Some false)
  then Some false else option_or higher_precedence lower_precedence.

Definition merge_app (base : list (str * AppRequirementToml)) (app_id : str)
    (incoming_requirement : AppRequirementToml) : list (str * AppRequirementToml) :=
  let base_requirement := default (mkApp None) (tbl_get app_id base) in
  tbl_insert app_id
    (mkApp (merge_enablement (app_enabled base_requirement) (app_enabled incoming_requirement))) base.

Definition merge_enablement_settings_descending (base incoming : AppsRequirementsToml) : AppsRequirementsToml :=
  mkApps (fold_left (fun base app => merge_app base app.1 app.2) (apps_entries incoming) (apps_entries base)).

(** ** Network *)

Inductive NetworkDomainPermissionToml : Type := DomainAllow | DomainDeny.
Record NetworkDomainPermissionsToml : Type := mkDomains {
  domain_entries : list (str * NetworkDomainPermissionToml);
}.

Definition domains_with (allow : bool) (self : NetworkDomainPermissionsToml) : list str :=
  map fst (List.filter (fun e => match e.2 with DomainAllow => allow | DomainDeny => negb allow end)
    (domain_entries self)).

Definition allowed_domains (self : NetworkDomainPermissionsToml) : option (list str) :=
  let l := domains_with true self in if is_empty l then None else Some l.
Definition denied_domains (self : NetworkDomainPermissionsToml) : option (list str) :=
  let l := domains_with false self in if is_empty l then None else Some l.

Inductive NetworkUnixSocketPermissionToml : Type := SocketAllow | SocketNone.
Record NetworkUnixSocketPermissionsToml : Type := mkSockets {
  socket_entries : list (str * NetworkUnixSocketPermissionToml);
}.

Definition allow_unix_sockets (self : NetworkUnixSocketPermissionsToml) : list str :=
  map fst (List.filter (fun e => match e.2 with SocketAllow => true | SocketNone => false end)
    (socket_entries self)).

Record NetworkRequirementsToml : Type := mkNetwork {
  nt_enabled : option bool;
  nt_http_port : option N;
  nt_socks_port : option N;
  nt_allow_upstream_proxy : option bool;
  nt_dangerously_allow_non_loopback_proxy : option bool;
  nt_dangerously_allow_all_unix_sockets : option bool;
  nt_domains : option NetworkDomainPermissionsToml;
  nt_managed_allowed_domains_only : option bool;
  nt_unix_sockets : option NetworkUnixSocketPermissionsToml;
  nt_allow_local_binding : option bool;
}.

Record RawNetworkRequirementsToml : Type := mkRawNetwork {
  raw_network : NetworkRequirementsToml;
  raw_allowed_domains : option (list str);
  raw_denied_domains : option (list str);
  raw_allow_unix_sockets : option (list str);
}.

Definition legacy_domain_permissions_from_lists (allowed denied : option (list str))
    : option NetworkDomainPermissionsToml :=
  let entries := fold_left (fun entries pattern => tbl_insert pattern DomainAllow entries) (default [] allowed) [] in
  let entries := fold_left (fun entries pattern => tbl_insert pattern DomainDeny entries) (default [] denied) entries in
  if is_empty entries then None else Some (mkDomains entries).

Definition legacy_unix_socket_permissions_from_list (allow : option (list str))
    : option NetworkUnixSocketPermissionsToml :=
  let entries := fold_left (fun entries path => tbl_insert path SocketAllow entries) (default [] allow) [] in
  if is_empty entries then None else Some (mkSockets entries).

Definition is_some {A} (o : option A) : bool := match o with Some _ => true | None => false end.

(** [Deserialize] for [NetworkRequirementsToml], after that of the raw form. *)
Definition network_requirements_from_raw (raw : RawNetworkRequirementsToml) : result str NetworkRequirementsToml :=
  let n := raw_network raw in
  if is_some (nt_domains n) && (is_some (raw_allowed_domains raw) || is_some (raw_denied_domains raw))
  then Err (lit "`experimental_network.domains` cannot be combined with legacy `allowed_domains` or `denied_domains`")
  else if is_some (nt_unix_sockets n) && is_some (raw_allow_unix_sockets raw)
  then Err (lit "`experimental_network.unix_sockets` cannot be combined with legacy `allow_unix_sockets`")
  else Ok (mkNetwork (nt_enabled n) (nt_http_port n) (nt_socks_port n) (nt_allow_upstream_proxy n)
             (nt_dangerously_allow_non_loopback_proxy n) (nt_dangerously_allow_all_unix_sockets n)
             (option_or (nt_domains n)
                (legacy_domain_permissions_from_lists (raw_allowed_domains raw) (raw_denied_domains raw)))
             (nt_managed_allowed_domains_only n)
             (option_or (nt_unix_sockets n)
                (legacy_unix_socket_permissions_from_list (raw_allow_unix_sockets raw)))
             (nt_allow_local_binding n)).

(** [NetworkConstraints] has the same fields, and [From] copies them. *)
Record NetworkConstraints : Type := mkNetworkConstraints { network_fields : NetworkRequirementsToml }.
Definition network_constraints_from (value : NetworkRequirementsToml) : NetworkConstraints :=
  mkNetworkConstraints value.

(** ** Patterns of denied reads *)

Record FilesystemDenyReadPattern : Type := mkDenyRead { dr_pattern : str }.

Definition is_glob_metacharacter (c : N) : bool :=
  N.eqb c (ch "*") || N.eqb c (ch "?") || N.eqb c (ch "[").

Definition is_path_separator (c : N) : bool := N.eqb c SEP.

Definition contains_glob (self : FilesystemDenyReadPattern) : bool :=
  existsb is_glob_metacharacter (dr_pattern self).

Definition split_glob_pattern (input : str) : str * str :=
  match find_index is_glob_metacharacter input with
  | None => ([], input)
  | Some first_glob =>
      match rfind_index is_path_separator (take first_glob input) with
      | Some 0 => (lit "/", drop 1 input)
      | Some index => (take index input, drop (S index) input)
      | None => ([], input)
      end
  end.

Section Patterns.
(** The home directory, and the base path of the guard that is held *)
Context (home_dir base : option str).

(** [AbsolutePathBuf::deserialize] *)
Definition deserialize_absolute_path (input : str) : result str str :=
  match base with
  | Some base => Ok (resolve_path_against_base home_dir input base)
  | None =>
      if is_absolute input
      then match from_absolute_path home_dir None input with
           | Some p => Ok p
           | None => Err (lit "current directory")
           end
      else Err (lit "AbsolutePathBuf deserialized without a base path")
  end.

Definition from_input (input : str) : result str FilesystemDenyReadPattern :=
  if negb (existsb is_glob_metacharacter input)
  then path ← deserialize_absolute_path input; Ok (mkDenyRead path)
  else
    let '(directory_prefix, suffix) := split_glob_pattern input in
    normalized_prefix ← deserialize_absolute_path
      (if is_empty directory_prefix then lit "." else directory_prefix);
    Ok (mkDenyRead
      (if is_empty suffix then normalized_prefix
       else if normalized_prefix =? lit "/" then lit "/" ++ suffix
       else normalized_prefix ++ lit "/" ++ suffix)).
End Patterns.

Record FilesystemRequirementsToml : Type := mkFsRequirements {
  fr_deny_read : option (list FilesystemDenyReadPattern);
}.
Record PermissionsRequirementsToml : Type := mkPermissionsRequirements {
  pr_filesystem : option FilesystemRequirementsToml;
}.
Record FilesystemConstraints : Type := mkFsConstraints { fc_deny_read : list FilesystemDenyReadPattern }.

Definition filesystem_constraints_from (value : PermissionsRequirementsToml) : FilesystemConstraints :=
  mkFsConstraints (default [] (pr_filesystem value ≫= fr_deny_read)).

(** ** [requirements.toml] *)

Record RemoteSandboxConfigToml : Type := mkRemote {
  hostname_patterns : list str;
  remote_allowed_sandbox_modes : list SandboxModeRequirement;
}.

Record ConfigRequirementsToml : Type := mkRequirementsToml {
  allowed_approval_policies : option (list AskForApproval);
  allowed_approvals_reviewers : option (list ApprovalsReviewer);
  allowed_sandbox_modes : option (list SandboxModeRequirement);
  remote_sandbox_config : option (list RemoteSandboxConfigToml);
  allowed_web_search_modes : option (list WebSearchModeRequirement);
  feature_requirements : option FeatureRequirementsToml;
  hooks : option ManagedHooksRequirementsToml;
  mcp_servers : option (list (str * McpServerRequirement));
  apps : option AppsRequirementsToml;
  rules : option RequirementsExecPolicyToml;
  enforce_residency : option ResidencyRequirement;
  network : option NetworkRequirementsToml;
  permissions : option PermissionsRequirementsToml;
  guardian_policy_config : option str;
}.

Definition requirements_toml_default : ConfigRequirementsToml :=
  mkRequirementsToml None None None None None None None None None None None None None None.

Record ConfigRequirementsWithSources : Type := mkWithSources {
  ws_allowed_approval_policies : option (Sourced (list AskForApproval));
  ws_allowed_approvals_reviewers : option (Sourced (list ApprovalsReviewer));
  ws_allowed_sandbox_modes : option (Sourced (list SandboxModeRequirement));
  ws_allowed_web_search_modes : option (Sourced (list WebSearchModeRequirement));
  ws_feature_requirements : option (Sourced FeatureRequirementsToml);
  ws_hooks : option (Sourced ManagedHooksRequirementsToml);
  ws_mcp_servers : option (Sourced (list (str * McpServerRequirement)));
  ws_apps : option (Sourced AppsRequirementsToml);
  ws_rules : option (Sourced RequirementsExecPolicyToml);
  ws_enforce_residency : option (Sourced ResidencyRequirement);
  ws_network : option (Sourced NetworkRequirementsToml);
  ws_permissions : option (Sourced PermissionsRequirementsToml);
  ws_guardian_policy_config : option (Sourced str);
}.

Definition with_sources_default : ConfigRequirementsWithSources :=
  mkWithSources None None None None None None None None None None None None None.

(** The macro [fill_missing_take], for one field. *)
Definition fill_missing {T} (source : RequirementSource) (base : option (Sourced T)) (other : option T)
    : option (Sourced T) :=
  match base with
  | Some _ => base
  | None => (fun value => mkSourced value source) <$> other
  end.

Definition non_blank (s : str) : bool := negb (is_empty (trim s)).

Definition merge_apps (source : RequirementSource) (base : option (Sourced AppsRequirementsToml))
    (other : option AppsRequirementsToml) : option (Sourced AppsRequirementsToml) :=
  match other with
  | None => base
  | Some incoming =>
      match base with
      | Some existing =>
          Some (mkSourced (merge_enablement_settings_descending (sd_value existing) incoming) (sd_source existing))
      | None => Some (mkSourced incoming source)
      end
  end.

Definition merge_unset_fields (self : ConfigRequirementsWithSources) (source : RequirementSource)
    (other : ConfigRequirementsToml) : ConfigRequirementsWithSources :=
  let guardian :=
    match guardian_policy_config other with
    | Some value => if is_empty (trim value) then None else Some value
    | None => None
    end in
  mkWithSources
    (fill_missing source (ws_allowed_approval_policies self) (allowed_approval_policies other))
    (fill_missing source (ws_allowed_approvals_reviewers self) (allowed_approvals_reviewers other))
    (fill_missing source (ws_allowed_sandbox_modes self) (allowed_sandbox_modes other))
    (fill_missing source (ws_allowed_web_search_modes self) (allowed_web_search_modes other))
    (fill_missing source (ws_feature_requirements self) (feature_requirements other))
    (fill_missing source (ws_hooks self) (hooks other))
    (fill_missing source (ws_mcp_servers self) (mcp_servers other))
    (merge_apps source (ws_apps self) (apps other))
    (fill_missing source (ws_rules self) (rules other))
    (fill_missing source (ws_enforce_residency self) (enforce_residency other))
    (fill_missing source (ws_network self) (network other))
    (fill_missing source (ws_permissions self) (permissions other))
    (fill_missing source (ws_guardian_policy_config self) guardian).

Definition into_toml (self : ConfigRequirementsWithSources) : ConfigRequirementsToml :=
  mkRequirementsToml
    (sd_value <$> ws_allowed_approval_policies self) (sd_value <$> ws_allowed_approvals_reviewers self)
    (sd_value <$> ws_allowed_sandbox_modes self) None (sd_value <$> ws_allowed_web_search_modes self)
    (sd_value <$> ws_feature_requirements self) (sd_value <$> ws_hooks self)
    (sd_value <$> ws_mcp_servers self) (sd_value <$> ws_apps self) (sd_value <$> ws_rules self)
    (sd_value <$> ws_enforce_residency self) (sd_value <$> ws_network self)
    (sd_value <$> ws_permissions self) (sd_value <$> ws_guardian_policy_config self).

Definition requirements_toml_is_empty (self : ConfigRequirementsToml) : bool :=
  let none_or {A} (f : A -> bool) (o : option A) := match o with Some a => f a | None => true end in
  negb (is_some (allowed_approval_policies self)) && negb (is_some (allowed_approvals_reviewers self))
  && negb (is_some (allowed_sandbox_modes self)) && negb (is_some (remote_sandbox_config self))
  && negb (is_some (allowed_web_search_modes self))
  && none_or features_is_empty (feature_requirements self)
  && none_or managed_hooks_is_empty (hooks self)
  && negb (is_some (mcp_servers self))
  && none_or apps_is_empty (apps self)
  && negb (is_some (rules self)) && negb (is_some (enforce_residency self))
  && negb (is_some (network self)) && negb (is_some (permissions self))
  && none_or (fun value => is_empty (trim value)) (guardian_policy_config self).

(** *** Remote sandbox settings *)

Definition normalize_hostname (hostname : str) : option str :=
  let hostname := trim_end_matches (N.eqb (ch ".")) (trim hostname) in
  if is_empty hostname then None else Some (to_ascii_lowercase hostname).

Section Hostnames.
(** [WildMatchPattern::new_case_insensitive(pattern).matches(hostname)] *)
Context (wild_match : str -> str -> bool).

Definition hostname_matches_any_pattern (hostname : str) (patterns : list str) : bool :=
  existsb (fun pattern =>
    match normalize_hostname pattern with
    | Some pattern => wild_match pattern hostname
    | None => false
    end) patterns.

Definition with_allowed_sandbox_modes (self : ConfigRequirementsToml) (modes : list SandboxModeRequirement)
    : ConfigRequirementsToml :=
  mkRequirementsToml (allowed_approval_policies self) (allowed_approvals_reviewers self) (Some modes)
    (remote_sandbox_config self) (allowed_web_search_modes self) (feature_requirements self) (hooks self)
    (mcp_servers self) (apps self) (rules self) (enforce_residency self) (network self) (permissions self)
    (guardian_policy_config self).

Definition apply_remote_sandbox_config (self : ConfigRequirementsToml) (hostname : option str)
    : ConfigRequirementsToml :=
  match remote_sandbox_config self with
  | None => self
  | Some configs =>
      match hostname ≫= normalize_hostname with
      | None => self
      | Some hostname =>
          match List.find (fun config => hostname_matches_any_pattern hostname (hostname_patterns config)) configs with
          | None => self
          | Some matched_config => with_allowed_sandbox_modes self (remote_allowed_sandbox_modes matched_config)
          end
      end
  end.

(** From [loader/mod.rs]: the name of the host is asked for when needed. *)
Definition merge_requirements_with_remote_sandbox_config (host_name : option str)
    (target : ConfigRequirementsWithSources) (source : RequirementSource)
    (requirements : ConfigRequirementsToml) : ConfigRequirementsWithSources :=
  let requirements :=
    if is_some (remote_sandbox_config requirements)
    then apply_remote_sandbox_config requirements host_name else requirements in
  merge_unset_fields target source requirements.
End Hostnames.

(** ** From [requirements.toml] to constraints *)

Record ConstrainedWithSource (T : Type) : Type := mkCws {
  cs_value : Constrained T;
  cs_source : option RequirementSource;
}.
Arguments mkCws {_} _ _.
Arguments cs_value {_} _.
Arguments cs_source {_} _.

Record ConfigRequirements : Type := mkConfigRequirements {
  cr_approval_policy : ConstrainedWithSource AskForApproval;
  cr_approvals_reviewer : ConstrainedWithSource ApprovalsReviewer;
  cr_permission_profile : ConstrainedWithSource PermissionProfile;
  cr_web_search_mode : ConstrainedWithSource WebSearchMode;
  cr_feature_requirements : option (Sourced FeatureRequirementsToml);
  cr_managed_hooks : option (ConstrainedWithSource ManagedHooksRequirementsToml);
  cr_mcp_servers : option (Sourced (list (str * McpServerRequirement)));
  cr_exec_policy : option (Sourced RequirementsExecPolicy);
  cr_enforce_residency : ConstrainedWithSource (option ResidencyRequirement);
  cr_network : option (Sourced NetworkConstraints);
  cr_filesystem : option (Sourced FilesystemConstraints);
  cr_guardian_policy_config_source : option RequirementSource;
}.

(** [PermissionProfile::read_only] and [file_system_sandbox_policy], from
    [protocol/src/models.rs] *)
Definition profile_read_only : PermissionProfile :=
  Managed (ManagedRestricted [mkEntry (Special Root) AccessRead] None) NetRestricted.

Definition profile_file_system_policy (self : PermissionProfile) : FileSystemSandboxPolicy :=
  match self with
  | Managed file_system _ => to_sandbox_policy file_system
  | Disabled => unrestricted
  | External _ => external_sandbox
  end.

Definition sandbox_mode_requirement_for_permission_profile (permission_profile : PermissionProfile)
    : SandboxModeRequirement :=
  match permission_profile with
  | Disabled => ModeDangerFullAccess
  | External _ => ModeExternalSandbox
  | Managed _ _ =>
      let file_system_policy := profile_file_system_policy permission_profile in
      if has_full_disk_write_access file_system_policy then ModeDangerFullAccess
      else if existsb (fun entry => can_write (entry_access entry)) (fs_entries file_system_policy)
      then ModeWorkspaceWrite else ModeReadOnly
  end.

(** The [Default]s of the two types *)
Definition ask_default : AskForApproval := OnRequest.
Definition reviewer_default : ApprovalsReviewer := ReviewUser.

Definition config_requirements_default : ConfigRequirements :=
  mkConfigRequirements
    (mkCws (allow_any_from_default ask_default) None) (mkCws (allow_any_from_default reviewer_default) None)
    (mkCws (allow_any profile_read_only) None) (mkCws (allow_any WebCached) None)
    None None None None (mkCws (allow_any None) None) None None None.

(** [Display] of the errors of [requirements_exec_policy.rs] *)
Definition show_requirements_error (e : RequirementsExecPolicyParseError) : str :=
  match e with
  | EmptyPrefixRules => lit "rules prefix_rules cannot be empty"
  | EmptyPattern i => lit "rules prefix_rule at index " ++ show_nat i ++ lit " has an empty pattern"
  | InvalidPatternToken i j reason =>
      lit "rules prefix_rule at index " ++ show_nat i ++ lit " has an invalid pattern token at index "
      ++ show_nat j ++ lit ": " ++ reason
  | EmptyJustification i => lit "rules prefix_rule at index " ++ show_nat i ++ lit " has an empty justification"
  | MissingDecision i => lit "rules prefix_rule at index " ++ show_nat i ++ lit " is missing a decision"
  | AllowDecisionNotAllowed i =>
      lit "rules prefix_rule at index " ++ show_nat i
      ++ lit " has decision 'allow', which is not permitted in requirements.toml: Codex merges these rules with other config and uses the most restrictive result (use 'prompt' or 'forbidden')"
  end.

Section TryFrom.
(** [format!("{:?}", _)] *)
Context (debug : forall A : Type, A -> str).
Arguments debug {A} _.

(** The validator of a list of allowed values. *)
Definition one_of_allowed {T} `{EqDecision T} (field_name : str) (allowed : list T)
    (source : RequirementSource) (candidate : T) : ConstraintResult unit :=
  if bool_decide (candidate ∈ allowed) then Ok tt
  else Err (InvalidValue field_name (debug candidate) (debug allowed) source).

(** [allowed_approval_policies] and [allowed_approvals_reviewers] *)
Definition constrain_to_list {T} `{EqDecision T} (list_name field_name : str) (default_value : T)
    (requirement : option (Sourced (list T))) : ConstraintResult (ConstrainedWithSource T) :=
  match requirement with
  | Some (mkSourced allowed source) =>
      match allowed with
      | [] => Err (empty_field list_name)
      | initial_value :: _ =>
          constrained ← constrained_new initial_value (one_of_allowed field_name allowed source);
          Ok (mkCws constrained (Some source))
      end
  | None => Ok (mkCws (allow_any_from_default default_value) None)
  end.

Definition constrain_sandbox_modes (requirement : option (Sourced (list SandboxModeRequirement)))
    : ConstraintResult (ConstrainedWithSource PermissionProfile) :=
  match requirement with
  | Some (mkSourced modes source) =>
      if negb (bool_decide (ModeReadOnly ∈ modes)) then
        Err (InvalidValue (lit "allowed_sandbox_modes") (debug modes)
               (lit "must include 'read-only' to allow any PermissionProfile") source)
      else
        constrained ← constrained_new profile_read_only (fun candidate =>
          one_of_allowed (lit "sandbox_mode") modes source
            (sandbox_mode_requirement_for_permission_profile candidate));
        Ok (mkCws constrained (Some source))
  | None => Ok (mkCws (allow_any profile_read_only) None)
  end.

Definition constrain_exec_policy (requirement : option (Sourced RequirementsExecPolicyToml))
    : ConstraintResult (option (Sourced RequirementsExecPolicy)) :=
  match requirement with
  | Some (mkSourced value source) =>
      policy ← map_err (fun err => ExecPolicyParse source (show_requirements_error err))
                 (to_requirements_policy value);
      Ok (Some (mkSourced policy source))
  | None => Ok None
  end.

(** A [BTreeSet] of the three modes, in order *)
Definition accepted_web_modes (modes : list WebSearchModeRequirement) : list WebSearchModeRequirement :=
  List.filter (fun m => bool_decide (m ∈ modes) || bool_decide (m = ReqDisabled)) [ReqDisabled; ReqCached; ReqLive].

Definition constrain_web_search (requirement : option (Sourced (list WebSearchModeRequirement)))
    : ConstraintResult (ConstrainedWithSource WebSearchMode) :=
  match requirement with
  | Some (mkSourced modes source) =>
      let accepted := accepted_web_modes modes in
      let initial_value :=
        if bool_decide (ReqCached ∈ accepted) then WebCached
        else if bool_decide (ReqLive ∈ accepted) then WebLive
        else WebDisabled in
      constrained ← constrained_new initial_value (fun candidate =>
        if bool_decide (requirement_of_web_mode candidate ∈ accepted) then Ok tt
        else Err (InvalidValue (lit "web_search_mode") (debug candidate)
                    (debug (map web_mode_of_requirement accepted)) source));
      Ok (mkCws constrained (Some source))
  | None => Ok (mkCws (allow_any WebCached) None)
  end.

Definition constrain_hooks (requirement : option (Sourced ManagedHooksRequirementsToml))
    : ConstraintResult (option (ConstrainedWithSource ManagedHooksRequirementsToml)) :=
  match requirement with
  | Some (mkSourced allowed source) =>
      if 0 <? handler_count allowed then
        constrained ← constrained_new allowed (fun candidate =>
          if managed_hooks_eqb candidate allowed then Ok tt
          else Err (InvalidValue (lit "hooks") (debug candidate) (debug allowed) source));
        Ok (Some (mkCws constrained (Some source)))
      else Ok None
  | None => Ok None
  end.

Definition constrain_residency (requirement : option (Sourced ResidencyRequirement))
    : ConstraintResult (ConstrainedWithSource (option ResidencyRequirement)) :=
  match requirement with
  | Some (mkSourced residency source) =>
      let required := Some residency in
      constrained ← constrained_new required (fun candidate =>
        if bool_decide (candidate = required) then Ok tt
        else Err (InvalidValue (lit "enforce_residency") (debug candidate) (debug required) source));
      Ok (mkCws constrained (Some source))
  | None => Ok (mkCws (allow_any None) None)
  end.

Definition sourced_map {A B} (f : A -> B) (s : Sourced A) : Sourced B := mkSourced (f (sd_value s)) (sd_source s).

Definition try_from (toml : ConfigRequirementsWithSources) : ConstraintResult ConfigRequirements :=
  approval_policy ← constrain_to_list (lit "allowed_approval_policies") (lit "approval_policy") ask_default
    (ws_allowed_approval_policies toml);
  approvals_reviewer ← constrain_to_list (lit "allowed_approvals_reviewers") (lit "approvals_reviewer")
    reviewer_default (ws_allowed_approvals_reviewers toml);
  permission_profile ← constrain_sandbox_modes (ws_allowed_sandbox_modes toml);
  exec_policy ← constrain_exec_policy (ws_rules toml);
  web_search_mode ← constrain_web_search (ws_allowed_web_search_modes toml);
  let feature_requirements :=
    match ws_feature_requirements toml with
    | Some requirements => if features_is_empty (sd_value requirements) then None else Some requirements
    | None => None
    end in
  managed_hooks ← constrain_hooks (ws_hooks toml);
  enforce_residency ← constrain_residency (ws_enforce_residency toml);
  Ok (mkConfigRequirements approval_policy approvals_reviewer permission_profile web_search_mode
        feature_requirements managed_hooks (ws_mcp_servers toml) exec_policy enforce_residency
        (sourced_map network_constraints_from <$> ws_network toml)
        (sourced_map filesystem_constraints_from <$> ws_permissions toml)
        (sd_source <$> ws_guardian_policy_config toml)).

(** ** Their use, from [core/src/config/mod.rs] *)

(** [Ok] with the warnings that are added, or the text of an [InvalidInput];
    [show] is [Display] of [ConstraintError]. *)
Definition apply_requirement_constrained_value {T} (show : ConstraintError -> str) (field_name : str)
    (configured_value : T) (constrained_value : ConstrainedWithSource T) (startup_warnings : list str)
    : ConstrainedWithSource T * list str * result str unit :=
  match constrained_set (cs_value constrained_value) configured_value with
  | (c, Ok _) => (mkCws c (cs_source constrained_value), startup_warnings, Ok tt)
  | (c, Err err) =>
      let fallback_value := cv_value c in
      let message := lit "Configured value for `" ++ field_name
        ++ lit "` is disallowed by requirements; falling back to required value "
        ++ debug fallback_value ++ lit ". Details: " ++ show err in
      match constrained_set c fallback_value with
      | (c, Ok _) => (mkCws c (cs_source constrained_value), startup_warnings ++ [message], Ok tt)
      | (c, Err fallback_err) =>
          (mkCws c (cs_source constrained_value), startup_warnings ++ [message],
           Err (lit "configured value for `" ++ field_name ++ lit "` is disallowed by requirements ("
                ++ show err ++ lit "); fallback to a requirement-compliant value also failed ("
                ++ show fallback_err ++ lit ")"))
      end
  end.

(** The validator that denied reads add: no profile without a sandbox. *)
Definition deny_read_validator (requirement_source : RequirementSource) (permission_profile : PermissionProfile)
    : ConstraintResult unit :=
  let mode := sandbox_mode_requirement_for_permission_profile permission_profile in
  match mode with
  | ModeReadOnly | ModeWorkspaceWrite => Ok tt
  | ModeDangerFullAccess | ModeExternalSandbox =>
      Err (InvalidValue (lit "sandbox_mode") (debug mode) (lit "[read-only, workspace-write]") requirement_source)
  end.

Definition constrain_denied_reads (filesystem : option (Sourced FilesystemConstraints))
    (profile : ConstrainedWithSource PermissionProfile)
    : ConstrainedWithSource PermissionProfile * ConstraintResult unit :=
  match filesystem with
  | Some (mkSourced requirements source) =>
      if is_empty (fc_deny_read requirements) then (profile, Ok tt)
      else let '(c, r) := add_validator (cs_value profile) (deny_read_validator source) in
           (mkCws c (cs_source profile), r)
  | None => (profile, Ok tt)
  end.
End TryFrom.

Section Filesystem.
Context (home_dir cwd : option str).

(** [AbsolutePathBuf::try_from(&str)] is [from_absolute_path]. *)
Definition deny_entry (deny_read : FilesystemDenyReadPattern) : option FileSystemSandboxEntry :=
  if contains_glob deny_read then Some (mkEntry (GlobPattern (dr_pattern deny_read)) AccessNone)
  else path ← from_absolute_path home_dir cwd (dr_pattern deny_read);
       Some (mkEntry (PathEntry path) AccessNone).

Definition push_deny_entry (entries : list FileSystemSandboxEntry) (deny_read : FilesystemDenyReadPattern)
    : list FileSystemSandboxEntry :=
  match deny_entry deny_read with
  | None => entries
  | Some entry => if existsb (fun existing => entry_eqb existing entry) entries then entries else entries ++ [entry]
  end.

Definition apply_managed_filesystem_constraints (policy : FileSystemSandboxPolicy)
    (constraints : FilesystemConstraints) : FileSystemSandboxPolicy :=
  mkFsPolicy (fs_kind policy) (fs_glob_scan_max_depth policy)
    (fold_left push_deny_entry (fc_deny_read constraints) (fs_entries policy)).
End Filesystem.

Section EffectivePolicy.
Context `{Host}.

(** The derived [PartialEq] of profiles *)
Definition net_eqb (a b : NetworkSandboxPolicy) : bool := Bool.eqb (net_is_enabled a) (net_is_enabled b).

Definition profile_eqb (a b : PermissionProfile) : bool :=
  match a, b with
  | Managed (ManagedRestricted e d) n, Managed (ManagedRestricted e' d') n' =>
      entries_eqb e e' && bool_decide (d = d') && net_eqb n n'
  | Managed ManagedUnrestricted n, Managed ManagedUnrestricted n' => net_eqb n n'
  | Disabled, Disabled => true
  | External n, External n' => net_eqb n n'
  | _, _ => false
  end.

(** What [Config] makes of the profile that passed the constraints. *)
Definition effective_file_system_policy (resolved_cwd : str)
    (effective_permission_profile original_permission_profile : PermissionProfile)
    (file_system_sandbox_policy : FileSystemSandboxPolicy)
    (filesystem_requirements : option (Sourced FilesystemConstraints))
    (helper_readable_roots : list str) : FileSystemSandboxPolicy :=
  let policy := profile_file_system_policy effective_permission_profile in
  let policy :=
    if negb (profile_eqb effective_permission_profile original_permission_profile)
    then preserve_deny_read_restrictions_from policy file_system_sandbox_policy else policy in
  let policy :=
    match filesystem_requirements with
    | Some requirements =>
        apply_managed_filesystem_constraints h_home_dir h_current_dir policy (sd_value requirements)
    | None => policy
    end in
  with_additional_readable_roots policy resolved_cwd helper_readable_roots.
End EffectivePolicy.

(** ** Merging over sources *)

Definition merge_sources (sources : list (RequirementSource * ConfigRequirementsToml))
    : ConfigRequirementsWithSources :=
  fold_left (fun acc st => merge_unset_fields acc st.1 st.2) sources with_sources_default.

(** The first source that sets a field. *)
Definition first_of {T} (field : ConfigRequirementsToml -> option T)
    (sources : list (RequirementSource * ConfigRequirementsToml)) : option (Sourced T) :=
  head (omap (fun st => (fun v => mkSourced v st.1) <$> field st.2) sources).

Lemma fill_missing_fold {T} (field : ConfigRequirementsToml -> option T) sources base :
  fold_left (fun acc st => fill_missing st.1 acc (field st.2)) sources base =
  option_or base (first_of field sources).
Proof.
  revert base. induction sources as [|[s t] sources IH]; intros base; simpl; [by destruct base|].
  rewrite IH. unfold first_of. simpl. destruct base; simpl; [done|]. by destruct (field t).
Qed.

(** A field that each source fills in only when it is missing. *)
Lemma merge_field {T} (get : ConfigRequirementsWithSources -> option (Sourced T))
    (field : ConfigRequirementsToml -> option T) sources :
  (forall acc s t, get (merge_unset_fields acc s t) = fill_missing s (get acc) (field t)) ->
  get with_sources_default = None ->
  get (merge_sources sources) = first_of field sources.
Proof.
  intros Hget H0. transitivity (option_or (get with_sources_default) (first_of field sources));
    [|by rewrite H0].
  unfold merge_sources. rewrite <- fill_missing_fold. generalize with_sources_default as acc.
  induction sources as [|[s t] sources IH]; intros acc; simpl; [done|]. by rewrite IH, Hget.
Qed.

(** What a source says of an app. *)
Definition app_setting (id : str) (t : ConfigRequirementsToml) : option bool :=
  apps t ≫= fun a => tbl_get id (apps_entries a) ≫= app_enabled.

Definition merged_app (id : str) (r : ConfigRequirementsWithSources) : option bool :=
  ws_apps r ≫= fun a => tbl_get id (apps_entries (sd_value a)) ≫= app_enabled.

Definition apps_ok (t : ConfigRequirementsToml) : Prop :=
  match apps t with Some a => sorted_tbl (apps_entries a) | None => True end.

Lemma merge_enablement_entry base incoming id : sorted_tbl (apps_entries incoming) ->
  tbl_get id (apps_entries (merge_enablement_settings_descending base incoming)) ≫= app_enabled =
  merge_enablement (tbl_get id (apps_entries base) ≫= app_enabled)
    (tbl_get id (apps_entries incoming) ≫= app_enabled).
Proof.
  destruct base as [base], incoming as [incoming]. unfold merge_enablement_settings_descending. simpl.
  intros Hs%sorted_NoDup. revert base. induction incoming as [|[k [e]] incoming IH]; intros base; simpl.
  { destruct (tbl_get id base ≫= app_enabled) as [[]|]; done. }
  simpl in Hs. apply NoDup_cons in Hs as [Hk Hs]. rewrite IH by done. unfold merge_app. simpl.
  case_bool_decide as E.
  - subst. rewrite tbl_get_insert, (proj2 (tbl_get_None k incoming) Hk). simpl.
    destruct (tbl_get k base) as [[b]|]; simpl; [destruct b as [[]|], e as [[]|]; done|by destruct e as [[]|]].
  - by rewrite tbl_get_insert_ne.
Qed.

Lemma merged_app_step id acc s t : apps_ok t ->
  merged_app id (merge_unset_fields acc s t) = merge_enablement (merged_app id acc) (app_setting id t).
Proof.
  unfold merged_app, app_setting, apps_ok, merge_unset_fields. simpl. unfold merge_apps.
  destruct (apps t) as [a|]; simpl.
  - intros Hs. destruct (ws_apps acc) as [[b src]|]; simpl; [by apply merge_enablement_entry|].
    by destruct (tbl_get id (apps_entries a) ≫= app_enabled) as [[]|].
  - intros _. destruct (ws_apps acc) as [b|]; simpl; [|done].
    by destruct (tbl_get id _ ≫= app_enabled) as [[]|].
Qed.

(** Each field but the apps is that of the first source that sets it, with that
    source. *)
Definition first_source_wins (sources : list (RequirementSource * ConfigRequirementsToml))
    (r : ConfigRequirementsWithSources) : Prop :=
  ws_allowed_approval_policies r = first_of allowed_approval_policies sources /\
  ws_allowed_approvals_reviewers r = first_of allowed_approvals_reviewers sources /\
  ws_allowed_sandbox_modes r = first_of allowed_sandbox_modes sources /\
  ws_allowed_web_search_modes r = first_of allowed_web_search_modes sources /\
  ws_feature_requirements r = first_of feature_requirements sources /\
  ws_hooks r = first_of hooks sources /\
  ws_mcp_servers r = first_of mcp_servers sources /\
  ws_rules r = first_of rules sources /\
  ws_enforce_residency r = first_of enforce_residency sources /\
  ws_network r = first_of network sources /\
  ws_permissions r = first_of permissions sources /\
  ws_guardian_policy_config r =
    first_of (fun t => v ← guardian_policy_config t; if non_blank v then Some v else None) sources.

Lemma merge_first_source_wins sources : first_source_wins sources (merge_sources sources).
Proof.
  do 11 (split; [by apply merge_field|]).
  apply (merge_field ws_guardian_policy_config); [|done]. intros acc s t. simpl. f_equal.
  destruct (guardian_policy_config t) as [v|]; [|done]. unfold non_blank. simpl.
  by destruct (is_empty (trim v)).
Qed.

(** The requirements of several sources, the strongest first: each field is
    that of the first source that sets it, with that source; an app is off as
    soon as any source turns it off, and otherwise as the first source says. *)
Theorem merge_sources_spec (sources : list (RequirementSource * ConfigRequirementsToml)) (id : str) :
  Forall (fun st => apps_ok st.2) sources ->
  let r := merge_sources sources in
  first_source_wins sources r /\
  merged_app id r =
    (if existsb (fun st => bool_decide (app_setting id st.2 = Some false)) sources then Some false
     else head (omap (fun st => app_setting id st.2) sources)).
Proof.
  intros Hok. simpl. split; [apply merge_first_source_wins|].
  - unfold merge_sources.
    assert (merged_app id with_sources_default = None) as H0 by done. revert H0 Hok.
    assert (forall acc, Forall (fun st => apps_ok st.2) sources ->
      merged_app id (fold_left (fun acc st => merge_unset_fields acc st.1 st.2) sources acc) =
      if bool_decide (merged_app id acc = Some false)
         || existsb (fun st => bool_decide (app_setting id st.2 = Some false)) sources then Some false
      else option_or (merged_app id acc) (head (omap (fun st => app_setting id st.2) sources))) as H.
    { induction sources as [|[s t] sources IH]; intros acc Hok; simpl.
      - rewrite orb_false_r. destruct (merged_app id acc) as [[]|]; done.
      - apply Forall_cons in Hok as [Ht Hok]. rewrite IH, merged_app_step by done. simpl.
        destruct (merged_app id acc) as [[]|], (app_setting id t) as [[]|]; simpl;
          by destruct (existsb _ sources). }
    intros H0 Hok. rewrite H, H0 by done. done.
Qed.

(** ** Constraints *)

Section Constraints.
Context (debug : forall A : Type, A -> str).

(** What a list requirement accepts; no requirement accepts all. *)
Definition listed {T U} (f : U -> T) (requirement : option (Sourced (list T))) (v : U) : Prop :=
  match requirement with Some s => f v ∈ sd_value s | None => True end.

(** The constraint is well formed, normalises nothing, and accepts this. *)
Definition constrains {T} (c : ConstrainedWithSource T) (P : T -> Prop) : Prop :=
  constrained_ok (cs_value c) /\ cv_normalizer (cs_value c) = None /\
  forall v, accepts (cs_value c) v <-> P v.

(** The constraint is that of a requirement: it names its source, and starts
    with this value. *)
Definition starts {T U} (c : ConstrainedWithSource T) (requirement : option (Sourced U)) (v : T) : Prop :=
  cs_source c = sd_source <$> requirement /\ cv_value (cs_value c) = v.

Lemma constrains_any {T} (v : T) (src : option RequirementSource) :
  constrains (mkCws (allow_any v) src) (fun _ => True).
Proof. split; [done|]. split; [done|]. intros w. by split. Qed.

Lemma constrains_new {T} (v : T) validator c src (P : T -> Prop) :
  constrained_new v validator = Ok c -> (forall v, validator v = Ok tt <-> P v) ->
  constrains (mkCws c src) P.
Proof.
  intros (Hok & _ & Hv & Hn)%constrained_new_ok HP. split; [done|]. split; [done|].
  intros w. unfold accepts. simpl. rewrite Hv. apply HP.
Qed.

Lemma one_of_allowed_spec {T} `{EqDecision T} name (l : list T) src v :
  one_of_allowed debug name l src v = Ok tt <-> v ∈ l.
Proof. unfold one_of_allowed. case_bool_decide; by split. Qed.

Lemma constrain_to_list_spec {T} `{EqDecision T} list_name field_name (d : T) requirement :
  match constrain_to_list debug list_name field_name d requirement with
  | Ok c => constrains c (listed (fun v => v) requirement)
      /\ starts c requirement (default d (requirement ≫= fun s => head (sd_value s)))
      /\ forall s, requirement = Some s -> sd_value s <> []
  | Err _ => exists s, requirement = Some s /\ sd_value s = []
  end.
Proof.
  unfold constrain_to_list. destruct requirement as [[[|v l] src]|]; simpl; [by eexists| |].
  2:{ split; [apply constrains_any|]. by split. }
  rewrite constrained_new_iff by (apply one_of_allowed_spec; left). simpl.
  split; [|split; [done|by intros s [= <-]]].
  eapply constrains_new; [apply constrained_new_iff|]; [apply one_of_allowed_spec; left|].
  intros w. apply one_of_allowed_spec.
Qed.

Lemma read_only_mode : sandbox_mode_requirement_for_permission_profile profile_read_only = ModeReadOnly.
Proof. reflexivity. Qed.

Lemma constrain_sandbox_modes_spec requirement :
  match constrain_sandbox_modes debug requirement with
  | Ok c => constrains c (listed sandbox_mode_requirement_for_permission_profile requirement)
      /\ starts c requirement profile_read_only /\ forall s, requirement = Some s -> ModeReadOnly ∈ sd_value s
  | Err _ => exists s, requirement = Some s /\ ModeReadOnly ∉ sd_value s
  end.
Proof.
  unfold constrain_sandbox_modes. destruct requirement as [[modes src]|]; simpl.
  2:{ split; [apply constrains_any|]. by split. }
  case_bool_decide as Hro; simpl; [|by eexists].
  rewrite constrained_new_iff by (by apply one_of_allowed_spec). simpl.
  split; [|split; [done|by intros s [= <-]]].
  eapply constrains_new; [by apply constrained_new_iff, one_of_allowed_spec|].
  intros w. apply one_of_allowed_spec.
Qed.

Lemma elem_of_accepted m modes : m ∈ accepted_web_modes modes <-> m = ReqDisabled \/ m ∈ modes.
Proof.
  unfold accepted_web_modes. rewrite list_elem_of_In, filter_In, orb_true_iff, !bool_decide_eq_true.
  split; [tauto|]. intros Hm. split; [destruct m; simpl; auto|tauto].
Qed.

(** Search starts cached if that is allowed, else live, else off. *)
Definition strongest_web_mode (modes : option (list WebSearchModeRequirement)) : WebSearchMode :=
  match modes with
  | None => WebCached
  | Some modes =>
      if bool_decide (ReqCached ∈ modes) then WebCached
      else if bool_decide (ReqLive ∈ modes) then WebLive else WebDisabled
  end.

Lemma constrain_web_search_spec requirement :
  exists c, constrain_web_search debug requirement = Ok c /\
    constrains c (fun m => m = WebDisabled \/ listed requirement_of_web_mode requirement m) /\
    starts c requirement (strongest_web_mode (sd_value <$> requirement)).
Proof.
  unfold constrain_web_search. destruct requirement as [[modes src]|]; simpl.
  2:{ eexists. split; [done|]. destruct (constrains_any WebCached None) as (? & ? & Ha).
      split; [|done]. split; [done|]. split; [done|]. intros v. rewrite Ha. tauto. }
  match goal with |- context [constrained_new ?i ?f] => set (init := i); set (v := f) end.
  assert (forall m, v m = Ok tt <-> m = WebDisabled \/ requirement_of_web_mode m ∈ modes) as Hv.
  { intros m. unfold v. rewrite (bool_decide_ext _ _ (elem_of_accepted (requirement_of_web_mode m) modes)).
    assert (requirement_of_web_mode m = ReqDisabled <-> m = WebDisabled) as Em by (by destruct m).
    case_bool_decide as E; [split; [tauto|done]|]. split; [done|tauto]. }
  assert (v init = Ok tt) as Hi.
  { apply Hv. unfold init. case_bool_decide as E1; [apply elem_of_accepted in E1 as [E1|E1]; [done|by right]|].
    case_bool_decide as E2; [apply elem_of_accepted in E2 as [E2|E2]; [done|by right]|by left]. }
  rewrite constrained_new_iff by done. simpl. eexists. split; [done|]. split.
  - by eapply constrains_new; [by apply constrained_new_iff|].
  - split; [done|]. cbn. unfold init. rewrite !(bool_decide_ext _ _ (elem_of_accepted _ _)).
    rewrite (bool_decide_ext (ReqCached = ReqDisabled \/ ReqCached ∈ modes) (ReqCached ∈ modes)) by naive_solver.
    by rewrite (bool_decide_ext (ReqLive = ReqDisabled \/ ReqLive ∈ modes) (ReqLive ∈ modes)) by naive_solver.
Qed.

Lemma constrain_residency_spec requirement :
  exists c, constrain_residency debug requirement = Ok c /\
    constrains c (fun v => match requirement with Some s => v = Some (sd_value s) | None => True end) /\
    starts c requirement (sd_value <$> requirement).
Proof.
  unfold constrain_residency. destruct requirement as [[r src]|]; simpl.
  2:{ eexists. split; [done|]. split; [apply constrains_any|done]. }
  match goal with |- context [constrained_new ?i ?f] => set (v := f) end.
  assert (forall m, v m = Ok tt <-> m = Some r) as Hv.
  { intros m. unfold v. case_bool_decide; split; naive_solver. }
  rewrite constrained_new_iff by (by apply Hv). simpl. eexists. split; [done|]. split; [|done].
  by eapply constrains_new; [by apply constrained_new_iff, Hv|].
Qed.

Lemma option_path_eqb_refl o : option_path_eqb o o = true.
Proof. destruct o; simpl; [apply path_eqb_refl|done]. Qed.

Lemma managed_hooks_eqb_refl m : managed_hooks_eqb m m = true.
Proof. unfold managed_hooks_eqb. by rewrite !option_path_eqb_refl, bool_decide_true. Qed.

(** Managed hooks, if there is one, are the only ones accepted. *)
Definition hooks_required (requirement : option (Sourced ManagedHooksRequirementsToml))
    (o : option (ConstrainedWithSource ManagedHooksRequirementsToml)) : Prop :=
  match o with
  | Some c => exists s, requirement = Some s /\ 0 < handler_count (sd_value s) /\
                constrains c (fun v => managed_hooks_eqb v (sd_value s) = true) /\ starts c requirement (sd_value s)
  | None => forall s, requirement = Some s -> handler_count (sd_value s) = 0
  end.

Lemma constrain_hooks_spec requirement :
  exists o, constrain_hooks debug requirement = Ok o /\ hooks_required requirement o.
Proof.
  unfold constrain_hooks. destruct requirement as [[m src]|]; simpl; [|by exists None].
  destruct (Nat.ltb_spec 0 (handler_count m)) as [L|L].
  - match goal with |- context [constrained_new ?i ?f] => set (v := f) end.
    assert (forall c, v c = Ok tt <-> managed_hooks_eqb c m = true) as Hv.
    { intros c. unfold v. destruct (managed_hooks_eqb c m); by split. }
    rewrite constrained_new_iff by (apply Hv, managed_hooks_eqb_refl). simpl. eexists. split; [done|].
    exists (mkSourced m src). split; [done|]. split; [done|]. split; [|done].
    eapply constrains_new; [by apply constrained_new_iff, Hv, managed_hooks_eqb_refl|done].
  - exists None. split; [done|]. intros s [= <-]. simpl. lia.
Qed.

(** What has to hold for the requirements to convert *)
Record convertible (toml : ConfigRequirementsWithSources) : Prop := {
  cv_policies : forall s, ws_allowed_approval_policies toml = Some s -> sd_value s <> [];
  cv_reviewers : forall s, ws_allowed_approvals_reviewers toml = Some s -> sd_value s <> [];
  cv_modes : forall s, ws_allowed_sandbox_modes toml = Some s -> ModeReadOnly ∈ sd_value s;
  cv_rules : forall s, ws_rules toml = Some s -> exists p, to_requirements_policy (sd_value s) = Ok p;
}.

(** What each requirement becomes *)
Record enforced (toml : ConfigRequirementsWithSources) (r : ConfigRequirements) : Prop := {
  en_policy :
    constrains (cr_approval_policy r) (listed (fun v => v) (ws_allowed_approval_policies toml)) /\
    starts (cr_approval_policy r) (ws_allowed_approval_policies toml)
      (default OnRequest (ws_allowed_approval_policies toml ≫= fun s => head (sd_value s)));
  en_reviewer :
    constrains (cr_approvals_reviewer r) (listed (fun v => v) (ws_allowed_approvals_reviewers toml)) /\
    starts (cr_approvals_reviewer r) (ws_allowed_approvals_reviewers toml)
      (default ReviewUser (ws_allowed_approvals_reviewers toml ≫= fun s => head (sd_value s)));
  en_profile :
    constrains (cr_permission_profile r)
      (listed sandbox_mode_requirement_for_permission_profile (ws_allowed_sandbox_modes toml)) /\
    starts (cr_permission_profile r) (ws_allowed_sandbox_modes toml) profile_read_only;
  en_web :
    constrains (cr_web_search_mode r)
      (fun m => m = WebDisabled \/ listed requirement_of_web_mode (ws_allowed_web_search_modes toml) m) /\
    starts (cr_web_search_mode r) (ws_allowed_web_search_modes toml)
      (strongest_web_mode (sd_value <$> ws_allowed_web_search_modes toml));
  en_residency :
    constrains (cr_enforce_residency r)
      (fun v => match ws_enforce_residency toml with Some s => v = Some (sd_value s) | None => True end) /\
    starts (cr_enforce_residency r) (ws_enforce_residency toml) (sd_value <$> ws_enforce_residency toml);
  en_hooks : hooks_required (ws_hooks toml) (cr_managed_hooks r);
  en_rules :
    match ws_rules toml with
    | Some s => exists p, to_requirements_policy (sd_value s) = Ok p /\
                  cr_exec_policy r = Some (mkSourced p (sd_source s))
    | None => cr_exec_policy r = None
    end;
  en_features : forall s, cr_feature_requirements r = Some s
    <-> ws_feature_requirements toml = Some s /\ feature_entries (sd_value s) <> [];
  en_servers : cr_mcp_servers r = ws_mcp_servers toml;
  en_network : (fun s => (network_fields (sd_value s), sd_source s)) <$> cr_network r
    = (fun s => (sd_value s, sd_source s)) <$> ws_network toml;
  en_denied_reads : (fun s => (fc_deny_read (sd_value s), sd_source s)) <$> cr_filesystem r
    = (fun s => (match pr_filesystem (sd_value s) with
                 | Some f => match fr_deny_read f with Some denied => denied | None => [] end
                 | None => []
                 end, sd_source s)) <$> ws_permissions toml;
  en_guardian : cr_guardian_policy_config_source r = sd_source <$> ws_guardian_policy_config toml;
}.

Lemma passed_features (o : option (Sourced FeatureRequirementsToml)) s :
  match o with
  | Some requirements => if features_is_empty (sd_value requirements) then None else Some requirements
  | None => None
  end = Some s <-> o = Some s /\ feature_entries (sd_value s) <> [].
Proof.
  destruct o as [r|]; [|naive_solver]. unfold features_is_empty.
  destruct (feature_entries (sd_value r)) eqn:E; simpl; split.
  - done.
  - by intros [[= <-] ?].
  - intros [= <-]. by rewrite E.
  - by intros [[= <-] _].
Qed.

Lemma passed_network (o : option (Sourced NetworkRequirementsToml)) :
  (fun s => (network_fields (sd_value s), sd_source s)) <$> (sourced_map network_constraints_from <$> o)
  = (fun s => (sd_value s, sd_source s)) <$> o.
Proof. by destruct o. Qed.

Lemma passed_filesystem (o : option (Sourced PermissionsRequirementsToml)) :
  (fun s => (fc_deny_read (sd_value s), sd_source s)) <$> (sourced_map filesystem_constraints_from <$> o)
  = (fun s => (match pr_filesystem (sd_value s) with
               | Some f => match fr_deny_read f with Some denied => denied | None => [] end
               | None => []
               end, sd_source s)) <$> o.
Proof. destruct o as [[[[[]|]] ?]|]; done. Qed.

(** C36: from requirements to constraints: the conversion succeeds exactly if no
    list of approval policies or reviewers is empty, the sandbox modes list
    read-only and the rules convert ([convertible]).  Then every requirement
    is enforced ([enforced]): each constraint names the source, starts with a
    value that it accepts (the first that is listed, read-only, cached or live
    search, the required residency, the managed hooks) and accepts exactly
    what the requirement allows, or everything where there is none; web
    search may always be off, also where the list is empty, and a profile
    counts as its mode.  The rules are the converted ones, and features,
    servers, the network and denied reads are passed on. *)
Theorem try_from_spec (toml : ConfigRequirementsWithSources) :
  match try_from debug toml with
  | Ok r => convertible toml /\ enforced toml r
  | Err _ => ~ convertible toml
  end.
Proof.
  unfold try_from.
  match goal with |- context [constrain_to_list debug ?n ?f ask_default ?r] =>
    pose proof (constrain_to_list_spec n f ask_default r) as H1; destruct (constrain_to_list debug n f ask_default r) end;
    simpl; [destruct H1 as (H1 & H1s & H1n)|destruct H1 as (s & Hs & E); intros [Hc _ _ _]; by apply (Hc s)].
  match goal with |- context [constrain_to_list debug ?n ?f reviewer_default ?r] =>
    pose proof (constrain_to_list_spec n f reviewer_default r) as H2;
    destruct (constrain_to_list debug n f reviewer_default r) end;
    simpl; [destruct H2 as (H2 & H2s & H2n)|destruct H2 as (s & Hs & E); intros [_ Hc _ _]; by apply (Hc s)].
  pose proof (constrain_sandbox_modes_spec (ws_allowed_sandbox_modes toml)) as H3.
  destruct (constrain_sandbox_modes _ _);
    simpl; [destruct H3 as (H3 & H3s & H3n)|destruct H3 as (s & Hs & E); intros [_ _ Hc _]; by apply E, Hc].
  destruct (constrain_web_search_spec (ws_allowed_web_search_modes toml)) as (cw & -> & H4 & H4s).
  destruct (constrain_hooks_spec (ws_hooks toml)) as (ch & -> & H5).
  destruct (constrain_residency_spec (ws_enforce_residency toml)) as (cr & -> & H6 & H6s).
  unfold constrain_exec_policy. destruct (ws_rules toml) as [[rules src]|] eqn:Er; simpl.
  - destruct (to_requirements_policy rules) as [p|e] eqn:E; simpl.
    + split; [split; try done; rewrite Er; intros s [= <-]; eauto|]. split; cbn; try done; rewrite ?Er; eauto using passed_features, passed_network, passed_filesystem.
    + intros [_ _ _ Hc]. destruct (Hc _ Er) as [p Hp]. simpl in Hp. congruence.
  - split; [split; try done; by rewrite Er|]. split; cbn; try done; rewrite ?Er; eauto using passed_features, passed_network, passed_filesystem.
Qed.

(** ** Using a constraint *)

(** A configured value under a requirement: it is taken if the requirement
    accepts it; otherwise the value stays what it was and there is a warning.
    It never fails, and what results satisfies the requirement. *)
Theorem apply_requirement_spec {T} (show : ConstraintError -> str) (field_name : str) (v : T)
    (c : ConstrainedWithSource T) (warnings : list str) (P : T -> Prop) : constrains c P ->
  exists c' w, apply_requirement_constrained_value debug show field_name v c warnings = (c', w, Ok tt) /\
    constrains c' P /\ P (cv_value (cs_value c')) /\
    ((P v /\ cv_value (cs_value c') = v /\ w = warnings) \/
     (~ P v /\ cv_value (cs_value c') = cv_value (cs_value c) /\ exists m, w = warnings ++ [m])).
Proof.
  intros (Hok & Hn & HP). unfold apply_requirement_constrained_value, constrained_set. rewrite Hn.
  destruct (cv_validator (cs_value c) v) as [[]|e] eqn:E.
  - assert (P v) by by apply HP. eexists _, _. split; [done|]. simpl.
    split; [|by split; [|left]]. split; [done|]. by split.
  - rewrite Hn. unfold constrained_ok in Hok. rewrite Hok. eexists _, _. split; [done|].
    assert (P (cv_value (cs_value c))) by by apply HP. simpl.
    split; [by split|]. split; [done|]. right. split; [|by split; [|eexists]].
    intros Hv%HP. unfold accepts in Hv. congruence.
Qed.
End Constraints.

(** ** Denied reads *)

Lemma existsb_entry entries e : existsb (fun existing => entry_eqb existing e) entries = true ->
  exists e', e' ∈ entries /\ entry_eqb e' e = true.
Proof. rewrite existsb_exists. setoid_rewrite <- list_elem_of_In. done. Qed.

(** An entry that denies what the pattern names is among the entries. *)
Definition denies_path (p : str) (entries : list FileSystemSandboxEntry) : Prop :=
  exists q, mkEntry (PathEntry q) AccessNone ∈ entries /\ components q = components p.

Lemma entry_eqb_denies e p : entry_eqb e (mkEntry (PathEntry p) AccessNone) = true ->
  exists q, e = mkEntry (PathEntry q) AccessNone /\ components q = components p.
Proof.
  unfold entry_eqb. destruct e as [path a]; simpl. intros [Hp Ha]%andb_true_iff.
  apply bool_decide_eq_true in Ha as ->. destruct path as [q| |]; try done. exists q.
  split; [done|]. by apply path_eqb_spec.
Qed.

Section DenyRead.
Context `{HostOk}.

Lemma push_deny_keeps entries d e : e ∈ entries -> e ∈ push_deny_entry h_home_dir h_current_dir entries d.
Proof. unfold push_deny_entry. repeat case_match; rewrite ?elem_of_app; auto. Qed.

Lemma push_deny_adds entries d : contains_glob d = false -> normal_abs (dr_pattern d) ->
  denies_path (dr_pattern d) (push_deny_entry h_home_dir h_current_dir entries d).
Proof.
  intros Hg Hn. unfold push_deny_entry, deny_entry. rewrite Hg.
  change (from_absolute_path h_home_dir h_current_dir (dr_pattern d)) with (absolute (dr_pattern d)).
  rewrite absolute_id by done. cbn [mbind option_bind].
  destruct (existsb _ _) eqn:E.
  - apply existsb_entry in E as (e & Hin & (q & -> & Hq)%entry_eqb_denies). by exists q.
  - exists (dr_pattern d). split; [|done]. apply elem_of_app. right. left.
Qed.

Lemma push_deny_all_keeps e l entries :
  e ∈ entries -> e ∈ fold_left (push_deny_entry h_home_dir h_current_dir) l entries.
Proof. revert entries. induction l as [|x l IH]; intros entries He; simpl; [done|]. by apply IH, push_deny_keeps. Qed.

Lemma managed_constraints_deny policy c d : d ∈ fc_deny_read c -> contains_glob d = false ->
  normal_abs (dr_pattern d) ->
  denies_path (dr_pattern d)
    (fs_entries (apply_managed_filesystem_constraints h_home_dir h_current_dir policy c)).
Proof.
  intros Hin Hg Hn. simpl. revert Hin. generalize (fs_entries policy).
  induction (fc_deny_read c) as [|x l IH]; intros entries; [by intros ?%elem_of_nil|].
  intros [->|Hin]%elem_of_cons; simpl; [|by apply IH].
  destruct (push_deny_adds entries x Hg Hn) as (q & Hq & Ec). exists q. split; [by apply push_deny_all_keeps|done].
Qed.

(** A pattern with wildcards is denied by an entry of its own. *)
Lemma push_deny_glob entries d : contains_glob d = true ->
  mkEntry (GlobPattern (dr_pattern d)) AccessNone ∈ push_deny_entry h_home_dir h_current_dir entries d.
Proof.
  intros Hg. unfold push_deny_entry, deny_entry. rewrite Hg. destruct (existsb _ _) eqn:E.
  - apply existsb_entry in E as ([path access] & Hin & E). unfold entry_eqb in E. cbn in E.
    apply andb_true_iff in E as [Ep Ea]. apply bool_decide_eq_true in Ea as ->. destruct path as [|g|]; try done.
    by apply bool_decide_eq_true in Ep as ->.
  - apply elem_of_app. right. left.
Qed.

Lemma managed_constraints_glob policy c d : d ∈ fc_deny_read c -> contains_glob d = true ->
  mkEntry (GlobPattern (dr_pattern d)) AccessNone
    ∈ fs_entries (apply_managed_filesystem_constraints h_home_dir h_current_dir policy c).
Proof.
  intros Hin Hg. simpl. revert Hin. generalize (fs_entries policy).
  induction (fc_deny_read c) as [|x l IH]; intros entries; [by intros ?%elem_of_nil|].
  intros [->|Hin]%elem_of_cons; simpl; [by apply push_deny_all_keeps, push_deny_glob|by apply IH].
Qed.

(** Readable roots are added behind the other entries. *)
Lemma readable_roots_keep policy cwd roots :
  fs_kind (with_additional_readable_roots policy cwd roots) = fs_kind policy /\
  forall e, e ∈ fs_entries policy -> e ∈ fs_entries (with_additional_readable_roots policy cwd roots).
Proof.
  unfold with_additional_readable_roots. destruct (has_full_disk_read_access policy); [done|].
  revert policy. induction roots as [|r roots IH]; intros policy; simpl; [done|].
  destruct (IH (if can_read_path_with_cwd policy r cwd then policy
                else push_entry policy (mkEntry (PathEntry r) AccessRead))) as [Hk He].
  destruct (can_read_path_with_cwd policy r cwd); [done|]. split; [done|].
  intros e Hin. apply He. simpl. apply elem_of_app. by left.
Qed.

(** A place that an entry denies: nothing at or below it has access, but by an
    entry strictly below it. *)
Lemma denied_place policy cwd p q p' : fs_kind policy = Restricted -> normal_abs cwd ->
  denies_path p (fs_entries policy) -> resolve_candidate_path q cwd = Some p' ->
  path_starts_with p' p = true ->
  resolve_access_with_cwd policy q cwd = AccessNone \/
  exists e, e ∈ resolved_entries_with_cwd policy cwd /\ path_starts_with p' (res_path e) = true /\
    path_starts_with (res_path e) p = true /\ components (res_path e) <> components p.
Proof.
  intros Hk Hc (d & Hd & Ed) Hq Hs.
  assert (mkResolved d AccessNone ∈ resolved_entries_with_cwd policy cwd) as Hin.
  { apply resolved_entry_elem. by exists (mkEntry (PathEntry d) AccessNone). }
  assert (path_starts_with p' d = true) as Hs' by (by rewrite path_starts_with_spec, Ed, <- path_starts_with_spec).
  destruct (resolve_access_decides policy q cwd p' Hk Hq) as [(e & (Hein & Hes & Hmax) & ->)|[-> Hno]]; [|by left].
  destruct (Hmax _ Hin Hs') as [Hbelow Hrank]. simpl in Hbelow, Hrank.
  destruct (decide (components (res_path e) = components d)) as [E|N].
  - left. specialize (Hrank (eq_sym E)). destruct (res_access e); simpl in Hrank; try lia. done.
  - right. exists e. split; [done|]. split; [done|].
    rewrite path_starts_with_spec, Ed, <- path_starts_with_spec in Hbelow. by rewrite <- Ed.
Qed.

Context (debug : forall A : Type, A -> str).

Lemma deny_read_mode src p : deny_read_validator debug src p = Ok tt ->
  fs_kind (profile_file_system_policy p) = Restricted.
Proof.
  unfold deny_read_validator, sandbox_mode_requirement_for_permission_profile.
  destruct p as [[entries depth|] net| |net]; simpl; [done|done|done|done].
Qed.

Lemma constrain_denied_reads_spec c fc src P c1 r : fc_deny_read fc <> [] -> constrains c P ->
  constrain_denied_reads debug (Some (mkSourced fc src)) c = (c1, r) ->
  match r with
  | Ok _ => constrains c1 (fun p => P p /\ deny_read_validator debug src p = Ok tt)
  | Err _ => c1 = c
  end.
Proof.
  intros Hne (Hok & Hn & HP). unfold constrain_denied_reads. rewrite (proj2 (is_empty_false _) Hne).
  destruct (add_validator (cs_value c) (deny_read_validator debug src)) as [c' r'] eqn:E.
  pose proof (add_validator_spec _ _ _ _ Hok E) as (Hok' & _ & Hr). intros [= <- <-].
  destruct r' as [[]|e]; [|subst; by destruct c].
  split; [done|]. split.
  - revert E. unfold add_validator. destruct (_ ≫= _); [|done]. intros [= <-]. done.
  - intros v. rewrite (Hr v). apply and_iff_compat_r, HP.
Qed.

(** C35: reads that requirements deny are denied, whatever is configured: if the
    constraints can be set up at all, the policy of the session is a
    restricted one.  Of a denied pattern without wildcards (which is a normal
    path), nothing at or below it can be accessed, unless an entry strictly
    below the denied path covers it; a pattern with wildcards is among the
    policy's entries as a denied pattern, for the sandbox to enforce.  A path
    below a base directory with a wildcard in its name counts as a pattern
    ([literal_deny_becomes_glob]). *)
Theorem denied_reads_enforced (show : ConstraintError -> str) (c c1 c2 : ConstrainedWithSource PermissionProfile)
    (P : PermissionProfile -> Prop) (fc : FilesystemConstraints) (src : RequirementSource)
    (field_name : str) (configured original : PermissionProfile) (warnings w : list str)
    (configured_policy : FileSystemSandboxPolicy) (roots : list str) (cwd : str)
    (d : FilesystemDenyReadPattern) :
  constrains c P -> d ∈ fc_deny_read fc -> normal_abs cwd ->
  constrain_denied_reads debug (Some (mkSourced fc src)) c = (c1, Ok tt) ->
  apply_requirement_constrained_value debug show field_name configured c1 warnings = (c2, w, Ok tt) ->
  let policy := effective_file_system_policy cwd (cv_value (cs_value c2)) original configured_policy
                  (Some (mkSourced fc src)) roots in
  fs_kind policy = Restricted /\
  if contains_glob d then mkEntry (GlobPattern (dr_pattern d)) AccessNone ∈ fs_entries policy
  else normal_abs (dr_pattern d) ->
    forall q p, resolve_candidate_path q cwd = Some p -> path_starts_with p (dr_pattern d) = true ->
      resolve_access_with_cwd policy q cwd = AccessNone \/
      exists e, e ∈ resolved_entries_with_cwd policy cwd /\ path_starts_with p (res_path e) = true /\
        path_starts_with (res_path e) (dr_pattern d) = true /\
        components (res_path e) <> components (dr_pattern d).
Proof.
  intros HP Hd Hc H1 H2 policy.
  assert (fc_deny_read fc <> []) as Hne by (intros E; rewrite E in Hd; by apply elem_of_nil in Hd).
  pose proof (constrain_denied_reads_spec _ _ _ _ _ _ Hne HP H1) as HP1. simpl in HP1.
  assert (deny_read_validator debug src (cv_value (cs_value c2)) = Ok tt) as Hv.
  { destruct HP1 as (Hok & Hnorm & HP1). revert H2. unfold apply_requirement_constrained_value, constrained_set.
    rewrite Hnorm. destruct (cv_validator (cs_value c1) configured) as [[]|e] eqn:E.
    - intros [= <- _]. by apply (HP1 configured) in E as [_ ?].
    - rewrite Hnorm. unfold constrained_ok in Hok. rewrite Hok. intros [= <- _]. by apply (HP1 _) in Hok as [_ ?]. }
  apply deny_read_mode in Hv.
  unfold policy, effective_file_system_policy. simpl.
  set (base := if negb _ then _ else _).
  assert (fs_kind base = Restricted) as Hb.
  { unfold base. destruct (negb _); [|done]. unfold preserve_deny_read_restrictions_from, fs_restricted.
    rewrite Hv. simpl. rewrite Hv. done. }
  set (managed := apply_managed_filesystem_constraints _ _ base fc).
  destruct (readable_roots_keep managed cwd roots) as [Hk He].
  assert (fs_kind (with_additional_readable_roots managed cwd roots) = Restricted) as Hkind by (by rewrite Hk).
  split; [done|]. destruct (contains_glob d) eqn:Hg.
  { apply He. by apply managed_constraints_glob. }
  intros Hn q p Hq Hs. apply (denied_place _ cwd (dr_pattern d) q p Hkind Hc); [|done|done].
  destruct (managed_constraints_deny base fc d Hd Hg Hn) as (x & Hx & Ex). exists x.
  split; [by apply He|done].
Qed.
End DenyRead.

(** ** Examples *)

Definition no_debug : forall A : Type, A -> str := fun _ _ => [].

(** The system file leaves an app to the cloud, which turns it off. *)
Definition system_requirements : ConfigRequirementsToml :=
  mkRequirementsToml (Some [OnRequest; Never]) None (Some [ModeReadOnly; ModeWorkspaceWrite]) None None None None
    None (Some (mkApps [(lit "drive", mkApp (Some true))])) None None None None None.
Definition cloud_requirements : ConfigRequirementsToml :=
  mkRequirementsToml (Some [UnlessTrusted]) (Some [ReviewUser]) None None None None None
    None (Some (mkApps [(lit "drive", mkApp (Some false))])) None None None None None.
Definition two_sources : list (RequirementSource * ConfigRequirementsToml) :=
  [(SourceSystemRequirementsToml (lit "/etc/codex/requirements.toml"), system_requirements);
   (SourceCloudRequirements, cloud_requirements)].

Lemma two_sources_ok : Forall (fun st => apps_ok st.2) two_sources.
Proof. repeat constructor. Qed.

Lemma merge_sources_spec_witness :
  ws_allowed_approvals_reviewers (merge_sources two_sources) = Some (mkSourced [ReviewUser] SourceCloudRequirements) /\
  (sd_value <$> ws_allowed_approval_policies (merge_sources two_sources)) = Some [OnRequest; Never] /\
  merged_app (lit "drive") (merge_sources two_sources) = Some false.
Proof.
  destruct (merge_sources_spec two_sources (lit "drive") two_sources_ok)
    as ((E1 & E2 & _) & E3).
  split; [exact E2|]. split; [rewrite E1; reflexivity|exact E3].
Defined.

(** Full access is configured where only two modes are allowed. *)
Definition two_modes : ConstrainedWithSource PermissionProfile :=
  mkCws (mkConstrained profile_read_only (fun candidate =>
    one_of_allowed no_debug (lit "sandbox_mode") [ModeReadOnly; ModeWorkspaceWrite] SourceCloudRequirements
      (sandbox_mode_requirement_for_permission_profile candidate)) None) (Some SourceCloudRequirements).

Lemma two_modes_constrain : constrains two_modes
  (fun p => sandbox_mode_requirement_for_permission_profile p ∈ [ModeReadOnly; ModeWorkspaceWrite]).
Proof. split; [done|]. split; [done|]. intros p. apply one_of_allowed_spec. Qed.

Lemma apply_requirement_spec_witness : exists c' w,
  apply_requirement_constrained_value no_debug (fun _ => []) (lit "permission_profile") Disabled two_modes []
    = (c', w, Ok tt) /\ cv_value (cs_value c') = profile_read_only.
Proof.
  destruct (apply_requirement_spec no_debug (fun _ => []) (lit "permission_profile") Disabled two_modes [] _
              two_modes_constrain) as (c' & w & E & _ & _ & [(H & _)|(_ & Ev & _)]).
  - exfalso. revert H. simpl. intros [?|[?|[]%elem_of_nil]%elem_of_cons]%elem_of_cons; discriminate.
  - exists c', w. split; [exact E|exact Ev].
Defined.

(** A denied directory, with write access configured for its parent. *)
Definition deny_secret : FilesystemConstraints := mkFsConstraints [mkDenyRead (lit "/w/secret")].
Definition denied_modes : ConstrainedWithSource PermissionProfile :=
  (constrain_denied_reads no_debug (Some (mkSourced deny_secret SourceCloudRequirements)) two_modes).1.
Definition work_configured : PermissionProfile :=
  Managed (ManagedRestricted [mkEntry (PathEntry (lit "/w")) AccessWrite] None) NetRestricted.
Definition work_constrained : ConstrainedWithSource PermissionProfile :=
  (apply_requirement_constrained_value no_debug (fun _ => []) (lit "permission_profile") work_configured
     denied_modes []).1.1.

Lemma denied_reads_enforced_witness :
  let policy := @effective_file_system_policy (plain_host []) (lit "/w") (cv_value (cs_value work_constrained))
    work_configured (profile_file_system_policy work_configured)
    (Some (mkSourced deny_secret SourceCloudRequirements)) [] in
  fs_kind policy = Restricted /\
  @resolve_access_with_cwd (plain_host []) policy (lit "secret/key") (lit "/w") = AccessNone /\
  @resolve_access_with_cwd (plain_host []) policy (lit "open") (lit "/w") = AccessWrite.
Proof.
  destruct (@denied_reads_enforced (plain_host []) no_debug (fun _ => []) two_modes denied_modes
    work_constrained _ deny_secret SourceCloudRequirements (lit "permission_profile") work_configured work_configured
    [] [] (profile_file_system_policy work_configured) [] (lit "/w") (mkDenyRead (lit "/w/secret"))
    two_modes_constrain ltac:(left) ltac:(normal_path) eq_refl eq_refl) as [Hk Hd].
  split; [exact Hk|]. split; [|vm_compute; reflexivity].
  destruct (Hd ltac:(normal_path) (lit "secret/key") (lit "/w/secret/key") ltac:(vm_compute; reflexivity)
    ltac:(vm_compute; reflexivity)) as [E|(e & _ & _ & _ & _)]; [exact E|vm_compute; reflexivity].
Defined.

(** A denied path without a wildcard, below a base directory that has one in
    its name, is taken as a pattern: no entry denies the path itself, and a
    profile that lets everything be read gives access to it. *)
Example literal_deny_becomes_glob :
  from_input None (Some (lit "/data[1]")) (lit "secret") = Ok (mkDenyRead (lit "/data[1]/secret")) /\
  deny_entry None None (mkDenyRead (lit "/data[1]/secret")) =
    Some (mkEntry (GlobPattern (lit "/data[1]/secret")) AccessNone) /\
  let policy := @effective_file_system_policy (plain_host []) (lit "/") profile_read_only profile_read_only
    (profile_file_system_policy profile_read_only)
    (Some (mkSourced (mkFsConstraints [mkDenyRead (lit "/data[1]/secret")]) SourceCloudRequirements)) [] in
  @resolve_access_with_cwd (plain_host []) policy (lit "/data[1]/secret") (lit "/") = AccessRead.
Proof. repeat split; vm_compute; reflexivity. Qed.
