(* ===== verification/Diagnostics.v ===== *)
(** * Diagnostics: where an error of a configuration file is

    [config/src/diagnostics.rs].  The texts of files are characters; the
    offsets of the TOML parser count bytes of their UTF-8.  The errors of the
    parser, its documents with the spans of their parts ([toml_edit]) and the
    deserialisation of a document into a type are the libraries': their
    values are parameters, and their documented accessors the functions below
    on documents. *)

From S2P Require Import Prelude Trim BTree Paths Toml ConfigLayers HostPaths FileSystem Utf8.
Local Open Scope str_scope.

Record TextPosition : Type := mkTextPosition { line : nat; column : nat }.
Record TextRange : Type := mkTextRange { range_start : TextPosition; range_end : TextPosition }.
Record ConfigError : Type := mkConfigError { error_path : str; error_range : TextRange; error_message : str }.

(** ** Positions of offsets *)

Definition position_for_offset (contents : str) (index : nat) : TextPosition :=
  let bytes := into_bytes contents in
  if is_empty bytes then mkTextPosition 1 1
  else
    let safe_index := Nat.min index (length bytes - 1) in
    let column_offset := index - safe_index in
    let index := safe_index in
    let line_start := default 0 (S <$> rfind_index (N.eqb NL) (take index bytes)) in
    let line := length (List.filter (N.eqb NL) (take line_start bytes)) in
    let column :=
      match from_utf8 (drop line_start (take (S index) bytes)) with
      | Ok slice => length slice - 1
      | Err _ => index - line_start
      end in
    let column := column + column_offset in
    mkTextPosition (line + 1) (column + 1).

Notation span := (nat * nat)%type.

Definition text_range_from_span (contents : str) (sp : span) : TextRange :=
  let start := position_for_offset contents sp.1 in
  let end_index := if sp.1 <? sp.2 then sp.2 - 1 else sp.2 in
  mkTextRange start (position_for_offset contents end_index).

Definition default_range : TextRange :=
  let position := mkTextPosition 1 1 in mkTextRange position position.

(** ** Documents of [toml_edit], with the spans of their parts *)

Inductive Value : Type :=
| VBoolean (value_span : option span)
| VArray (items : list Value) (value_span : option span)
| VInlineTable (entries : list (str * Value)) (value_span : option span)
(** a string, a number or a date *)
| VOther (value_span : option span).

Inductive Item : Type :=
| INone
| IValue (value : Value)
| ITable (table : Table)
| IArrayOfTables (tables : list Table) (tables_span : option span)
with Table : Type :=
| mkTable (table_entries : list (str * Item)) (table_span : option span).

Definition value_span (v : Value) : option span :=
  match v with VBoolean s | VArray _ s | VInlineTable _ s | VOther s => s end.
Definition table_span (t : Table) : option span := match t with mkTable _ s => s end.
Definition table_entries (t : Table) : list (str * Item) := match t with mkTable e _ => e end.
Definition item_span (i : Item) : option span :=
  match i with
  | INone => None
  | IValue v => value_span v
  | ITable t => table_span t
  | IArrayOfTables _ s => s
  end.

(** The entries of a table or an inline table *)
Definition as_table_like (i : Item) : option (list (str * Item)) :=
  match i with
  | ITable t => Some (table_entries t)
  | IValue (VInlineTable entries _) => Some (map_values IValue entries)
  | _ => None
  end.

(** ** The node at a path *)

Inductive SerdeSegment : Type :=
| SegSeq (index : nat)
| SegMap (key : str)
| SegEnum (variant : str)
| SegUnknown.

Inductive TomlNode : Type := NodeItem (i : Item) | NodeTable (t : Table) | NodeValue (v : Value).

Definition map_child (node : TomlNode) (key : str) : option TomlNode :=
  match node with
  | NodeItem item => table ← as_table_like item; NodeItem <$> tbl_get key table
  | NodeTable table => NodeItem <$> tbl_get key (table_entries table)
  | NodeValue (VInlineTable entries _) => NodeValue <$> tbl_get key entries
  | _ => None
  end.

Definition seq_child (node : TomlNode) (index : nat) : option TomlNode :=
  match node with
  | NodeItem (IValue (VArray items _)) => NodeValue <$> items !! index
  | NodeItem (IArrayOfTables tables _) => NodeTable <$> tables !! index
  | NodeValue (VArray items _) => NodeValue <$> items !! index
  | _ => None
  end.

(** The loop over the segments *)
Fixpoint node_for_segments (node : TomlNode) (segments : list SerdeSegment) : option TomlNode :=
  match segments with
  | [] => Some node
  | segment :: rest =>
      match segment with
      | SegMap key | SegEnum key =>
          match map_child node key with
          | Some next => node_for_segments next rest
          | None => if is_empty rest then None else node_for_segments node rest
          end
      | SegSeq seq_index => next ← seq_child node seq_index; node_for_segments next rest
      | SegUnknown => None
      end
  end.

Definition node_for_path (item : Item) (path : list SerdeSegment) : option TomlNode :=
  node_for_segments (NodeItem item) path.

Definition is_features_table_path (path : list SerdeSegment) : bool :=
  match path with [SegMap key] => key =? lit "features" | _ => false end.

(** The loop over the features: the span of the first that is no boolean *)
Fixpoint first_feature_span (items : list (str * Item)) : option span :=
  match items with
  | [] => None
  | (_, item) :: items =>
      match item with
      | IValue (VBoolean _) => first_feature_span items
      | IValue value => value_span value
      | ITable table => table_span table
      | IArrayOfTables _ s => s
      | INone => first_feature_span items
      end
  end.

(** ** [toml] and [serde], and the errors of files *)

Class TomlErrors : Type := {
  toml_Error : Type;
  toml_error_span : toml_Error -> option span;
  toml_error_message : toml_Error -> str;
}.

Section Diagnostics.
Context {TE : TomlErrors} {HO : Host}.
(** [contents.parse::<Document<String>>()], as its root item *)
Context (parse_document : str -> option Item).

Definition span_for_path (contents : str) (path : list SerdeSegment) : option span :=
  doc ← parse_document contents;
  node ← node_for_path doc path;
  match node with
  | NodeItem item => item_span item
  | NodeTable table => table_span table
  | NodeValue value => value_span value
  end.

Definition span_for_features_value (contents : str) : option span :=
  doc ← parse_document contents;
  root ← as_table_like doc;
  features_item ← tbl_get (lit "features") root;
  features_table ← as_table_like features_item;
  first_feature_span features_table.

Definition span_for_config_path (contents : str) (path : list SerdeSegment) : option span :=
  match (if is_features_table_path path then span_for_features_value contents else None) with
  | Some sp => Some sp
  | None => span_for_path contents path
  end.

Definition config_error_from_toml (path contents : str) (err : toml_Error) : ConfigError :=
  let range := default default_range (text_range_from_span contents <$> toml_error_span err) in
  mkConfigError path range (toml_error_message err).

(** The deserialisation into a type: [Deserializer::parse], and with
    [serde_path_to_error] the path at which it failed; relative paths are
    resolved against a base directory. *)
Context (parse_toml : str -> result toml_Error unit).
Context (deserialize : str -> str -> result (list SerdeSegment * toml_Error) unit).

Definition config_error_from_typed_toml (base path contents : str) : option ConfigError :=
  match parse_toml contents with
  | Err err => Some (config_error_from_toml path contents err)
  | Ok _ =>
      match deserialize base contents with
      | Ok _ => None
      | Err (path_hint, toml_err) =>
          let sp := match span_for_config_path contents path_hint with
                    | Some sp => Some sp
                    | None => toml_error_span toml_err
                    end in
          let range := default default_range (text_range_from_span contents <$> sp) in
          Some (mkConfigError path range (toml_error_message toml_err))
      end
  end.

Definition config_path_for_layer (layer : ConfigLayerEntry) (config_toml_file : str) : option str :=
  match le_name layer with
  | System file => Some file
  | User file => Some file
  | Project dot_codex_folder => Some (push dot_codex_folder config_toml_file)
  | LegacyManagedConfigTomlFromFile file => Some file
  | Mdm _ _ | SessionFlags | LegacyManagedConfigTomlFromMdm => None
  end.

Fixpoint first_layer_config_error_for_entries (layers : list ConfigLayerEntry) (config_toml_file : str)
    : option ConfigError :=
  match layers with
  | [] => None
  | layer :: layers =>
      match (path ← config_path_for_layer layer config_toml_file;
             contents ← h_read_to_string path;
             parent ← parent path;
             config_error_from_typed_toml parent path contents) with
      | Some error => Some error
      | None => first_layer_config_error_for_entries layers config_toml_file
      end
  end.

Definition first_layer_config_error {R RT} (layers : @ConfigLayerStack R RT) (config_toml_file : str)
    : option ConfigError :=
  first_layer_config_error_for_entries (get_layers layers LowestPrecedenceFirst false) config_toml_file.

Definition first_layer_config_error_from_entries := first_layer_config_error_for_entries.

End Diagnostics.

(** ** Showing an error *)

(** [Display] of [ConfigLoadError] *)
Definition show_config_load_error (error : ConfigError) : str :=
  error_path error ++ lit ":" ++ show_nat (line (range_start (error_range error))) ++ lit ":"
  ++ show_nat (column (range_start (error_range error))) ++ lit ": " ++ error_message error.

(** The [source] of a [ConfigLoadError] is not shown. *)
Definition io_error_from_config_error (kind : ErrorKind) (error : ConfigError) : io_Error :=
  io_error_new kind (show_config_load_error error).

Definition highlight_len (range : TextRange) : nat :=
  if (line (range_end range) =? line (range_start range))%nat
     && (column (range_start range) <=? column (range_end range))%nat
  then column (range_end range) - column (range_start range) + 1 else 1.

Definition format_config_error (error : ConfigError) (contents : str) : str :=
  let start := range_start (error_range error) in
  let output := show_config_load_error error ++ [NL] in
  let line_index := line start - 1 in
  match lines contents !! line_index with
  | None => trim_end output
  | Some text =>
      let text := trim_end_matches (N.eqb CR) text in
      let line_number := show_nat (line start) in
      let gutter := length line_number in
      let output := output ++ repeat (ch " ") gutter ++ lit " |" ++ [NL] in
      let output := output ++ line_number ++ lit " | " ++ text ++ [NL] in
      let spaces := repeat (ch " ") (column start - 1) in
      let carets := repeat (ch "^") (Nat.max (highlight_len (error_range error)) 1) in
      let output := output ++ repeat (ch " ") gutter ++ lit " | " ++ spaces ++ carets ++ [NL] in
      trim_end output
  end.

Definition format_config_error_with_source {HO : Host} (error : ConfigError) : str :=
  match h_read_to_string (error_path error) with
  | Some contents => format_config_error error contents
  | None => format_config_error error []
  end.

(** ** Where a character of a text is *)

(** The position after [pre]: lines and characters, counted from one. *)
Definition position_of (pre : str) : TextPosition :=
  mkTextPosition (length (split_char NL pre)) (length (List.last (split_char NL pre) []) + 1).

Lemma length_encode_char c : length (encode_char c) = len_utf8 c.
Proof. unfold encode_char, len_utf8. repeat destruct (N.ltb _ _); done. Qed.

Lemma into_bytes_app s t : into_bytes (s ++ t) = into_bytes s ++ into_bytes t.
Proof. unfold into_bytes. apply bind_app. Qed.

Lemma length_into_bytes s : length (into_bytes s) = byte_len s.
Proof.
  unfold into_bytes, byte_len. induction s as [|c s IH]; csimpl; [done|].
  by rewrite length_app, IH, length_encode_char.
Qed.

Lemma byte_len_app s t : byte_len (s ++ t) = byte_len s + byte_len t.
Proof. by rewrite <- !length_into_bytes, into_bytes_app, length_app. Qed.

(** Only a line feed has the byte of a line feed. *)
Lemma encode_char_NL c : NL ∈ encode_char c -> c = NL.
Proof.
  unfold encode_char, NL. repeat destruct (N.ltb _ _); intros Hin;
    repeat (apply elem_of_cons in Hin as [Hin|Hin];
      [try done; match type of Hin with _ = (_ + ?x)%N => generalize dependent x; intros; lia end|]);
    by apply elem_of_nil in Hin.
Qed.

Lemma into_bytes_NL s : NL ∈ into_bytes s <-> NL ∈ s.
Proof.
  unfold into_bytes. rewrite list_elem_of_bind. split.
  - intros (c & Hc%encode_char_NL & Hin). by subst.
  - intros Hin. exists NL. split; [by left|done].
Qed.

Lemma filter_NL_none (s : str) : NL ∉ s -> List.filter (N.eqb NL) s = [].
Proof.
  induction s as [|c s IH]; cbn [List.filter]; [done|]. intros [Hc Hs]%not_elem_of_cons.
  destruct (N.eqb_spec NL c); [done|by apply IH].
Qed.

Lemma filter_cons_eq {A} (f : A -> bool) x l :
  List.filter f (x :: l) = if f x then x :: List.filter f l else List.filter f l.
Proof. done. Qed.

Lemma filter_NL_bytes s : length (List.filter (N.eqb NL) (into_bytes s)) = length (List.filter (N.eqb NL) s).
Proof.
  unfold into_bytes. induction s as [|c s IH]; [done|]. rewrite bind_cons, List.filter_app, length_app, IH, filter_cons_eq.
  destruct (N.eqb_spec NL c) as [<-|Hc]; [done|].
  rewrite filter_NL_none; [done|]. intros H%encode_char_NL. by subst.
Qed.

Lemma elem_of_rev {A} (x : A) l : x ∈ rev l <-> x ∈ l.
Proof. by rewrite !list_elem_of_In, <- in_rev. Qed.

Lemma find_index_none f s : (forall c, c ∈ s -> f c = false) -> find_index f s = None.
Proof.
  induction s as [|c s IH]; simpl; [done|]. intros H. rewrite (H c) by left.
  rewrite IH; [done|]. intros x Hx. apply H. by right.
Qed.

Lemma find_index_first f s c t :
  (forall x, x ∈ s -> f x = false) -> f c = true -> find_index f (s ++ c :: t) = Some (length s).
Proof.
  intros Hs Hc. induction s as [|x s IH]; simpl; [by rewrite Hc|].
  rewrite (Hs x) by left. rewrite IH; [done|]. intros y Hy. apply Hs. by right.
Qed.

Lemma rfind_index_none f s : (forall c, c ∈ s -> f c = false) -> rfind_index f s = None.
Proof.
  intros H. unfold rfind_index. rewrite find_index_none; [done|]. intros c. rewrite elem_of_rev. apply H.
Qed.

Lemma rfind_index_last f s c t :
  (forall x, x ∈ t -> f x = false) -> f c = true -> rfind_index f (s ++ c :: t) = Some (length s).
Proof.
  intros Ht Hc. unfold rfind_index. rewrite rev_app_distr. simpl. rewrite <- app_assoc. simpl.
  rewrite find_index_first; [|intros x; rewrite elem_of_rev; apply Ht|done].
  simpl. f_equal. rewrite length_rev, length_app. simpl. lia.
Qed.

Lemma length_split_NL s : length (split_char NL s) = length (List.filter (N.eqb NL) s) + 1.
Proof.
  induction s as [|c s IH]; cbn [List.filter split_char]; [done|]. rewrite (N.eqb_sym NL c). destruct (N.eqb c NL); simpl; [lia|].
  destruct (split_char NL s) eqn:E; [by apply split_char_not_nil in E|]. simpl in *. lia.
Qed.

(** A text is some lines and the beginning [t] of one more, which starts after
    the last line feed among the bytes. *)
Lemma last_line (pre : str) : exists a t, pre = a ++ t /\ NL ∉ t /\
  List.last (split_char NL pre) [] = t /\
  length (split_char NL pre) = length (List.filter (N.eqb NL) a) + 1 /\
  (a = [] \/ exists a', a = a' ++ [NL]) /\
  forall b, NL ∉ b -> default 0 (S <$> rfind_index (N.eqb NL) (into_bytes pre ++ b)) = byte_len a.
Proof.
  destruct (decide (NL ∈ pre)) as [(a & t & -> & Ht)%list_elem_of_split_r|Hpre].
  - exists (a ++ [NL]), t. rewrite <- app_assoc. split; [done|]. split; [done|].
    rewrite split_char_app, (split_char_none NL t) by done. rewrite last_last.
    split; [done|]. rewrite length_app, length_split_NL, List.filter_app, length_app. simpl.
    split; [lia|]. split; [eauto|]. intros b Hb. rewrite (into_bytes_app a).
    change (into_bytes (NL :: t)) with (NL :: into_bytes t). rewrite <- app_assoc. simpl.
    rewrite rfind_index_last; [|intros x [Hx|Hx]%elem_of_app|done].
    + cbn. rewrite length_into_bytes, byte_len_app. change (byte_len [NL]) with 1. lia.
    + apply N.eqb_neq. intros <-. by apply Ht, into_bytes_NL.
    + apply N.eqb_neq. by intros <-.
  - exists [], pre. rewrite split_char_none by done. repeat split; [done|by left|]. intros b Hb.
    rewrite rfind_index_none; [done|]. intros c [Hc|Hc]%elem_of_app; apply N.eqb_neq; intros <-; [|done].
    by apply Hpre, into_bytes_NL.
Qed.

Lemma encode_char_pos c : 1 <= len_utf8 c.
Proof. unfold len_utf8. repeat destruct (N.ltb _ _); lia. Qed.

Lemma NL_not_in_start c n : n < len_utf8 c -> NL ∉ take n (encode_char c).
Proof.
  intros Hn Hin. assert (c = NL) as -> by (apply encode_char_NL; apply elem_of_take in Hin as (i & Hi & _); apply list_elem_of_lookup; eauto).
  unfold len_utf8, NL in Hn. simpl in Hn. replace n with 0 in Hin by lia. by apply elem_of_nil in Hin.
Qed.

(** The position of the [n]th byte of the character after [pre] *)
Lemma position_in_char pre c post n : n < len_utf8 c ->
  exists a t, pre = a ++ t /\ NL ∉ t /\ List.last (split_char NL pre) [] = t /\
  position_for_offset (pre ++ c :: post) (byte_len pre + n) =
  mkTextPosition (length (split_char NL pre))
    (match from_utf8 (into_bytes t ++ take (S n) (encode_char c)) with
     | Ok slice => length slice - 1
     | Err _ => byte_len t + n
     end + 1).
Proof.
  intros Hn. destruct (last_line pre) as (a & t & -> & Ht & Hlast & Hlen & _ & Hstart).
  exists a, t. split; [done|]. split; [done|]. split; [done|].
  assert (into_bytes ((a ++ t) ++ c :: post) = into_bytes (a ++ t) ++ encode_char c ++ into_bytes post) as E.
  { rewrite into_bytes_app. done. }
  unfold position_for_offset. rewrite E.
  assert (Hl : length (into_bytes (a ++ t) ++ encode_char c ++ into_bytes post)
    = byte_len (a ++ t) + len_utf8 c + byte_len post).
  { rewrite !length_app, !length_into_bytes, length_encode_char. lia. }
  destruct (is_empty _) eqn:Eempty.
  { destruct (into_bytes (a ++ t) ++ _) eqn:El in Eempty; [|done]. rewrite El in Hl. simpl in Hl. lia. }
  rewrite Hl. rewrite Nat.min_l by lia. rewrite Nat.sub_diag, !Nat.add_0_r.
  assert (forall m, m <= len_utf8 c ->
    take (byte_len (a ++ t) + m) (into_bytes (a ++ t) ++ encode_char c ++ into_bytes post)
    = into_bytes (a ++ t) ++ take m (encode_char c)) as Htake.
  { intros m Hm. rewrite <- length_into_bytes, take_app_add. f_equal.
    rewrite take_app_le; [done|]. by rewrite length_encode_char. }
  rewrite (Htake n) by lia. rewrite Hstart by by apply NL_not_in_start.
  rewrite <- Nat.add_succ_r, (Htake (S n)) by lia. rewrite into_bytes_app, <- !app_assoc.
  rewrite <- (length_into_bytes a), drop_app_length, take_app_length. rewrite filter_NL_bytes, Hlen.
  do 2 f_equal. destruct (from_utf8 _); [done|]. rewrite byte_len_app, length_into_bytes. lia.
Qed.

(** At the last byte of a character, the position is that of the character. *)
Lemma position_char_end pre c post : forallb is_scalar (pre ++ [c]) = true ->
  position_for_offset (pre ++ c :: post) (byte_len pre + (len_utf8 c - 1)) = position_of pre.
Proof.
  intros Hs. pose proof (encode_char_pos c).
  destruct (position_in_char pre c post (len_utf8 c - 1)) as (a & t & -> & Ht & Hlast & ->); [lia|].
  unfold position_of. rewrite Hlast. replace (S (len_utf8 c - 1)) with (len_utf8 c) by lia.
  rewrite <- length_encode_char, firstn_all.
  replace (into_bytes t ++ encode_char c) with (into_bytes (t ++ [c])).
  2:{ rewrite into_bytes_app. unfold into_bytes. csimpl. by rewrite app_nil_r. }
  rewrite from_utf8_into_bytes; [rewrite length_app; simpl; do 2 f_equal; lia|].
  rewrite <- app_assoc, forallb_app in Hs. by apply andb_true_iff in Hs as [_ ->].
Qed.

(** Text that is cut in a character is no text. *)
Lemma from_utf8_cut t c n : forallb is_scalar (t ++ [c]) = true -> 0 < n < len_utf8 c ->
  exists e, from_utf8 (into_bytes t ++ take n (encode_char c)) = Err e.
Proof.
  intros Hs Hn. destruct (from_utf8 _) as [s|e] eqn:E; [exfalso|eauto].
  apply from_utf8_Ok in E as [E Es]. revert s E Es. induction t as [|x t IH]; intros s E Es.
  - simpl in *. rewrite andb_true_r in Hs. destruct s as [|y s].
    { apply (f_equal length) in E. simpl in E. rewrite length_take, length_encode_char in E. lia. }
    cbn [forallb] in Es. apply andb_true_iff in Es as [Hy Es].
    assert (encode_char c = encode_char y ++ (into_bytes s ++ drop n (encode_char c))) as E'.
    { rewrite app_assoc. unfold into_bytes in *. csimpl in *. rewrite E. by rewrite take_drop. }
    pose proof (decode_encode_char c [] Hs) as D. rewrite app_nil_r, E', decode_encode_char in D by done.
    injection D as -> D. apply (f_equal length) in D. rewrite length_app, length_drop, length_encode_char in D.
    simpl in D. lia.
  - cbn [forallb app] in Hs. apply andb_true_iff in Hs as [Hx Hs]. unfold into_bytes in E. csimpl in E.
    rewrite <- app_assoc in E. pose proof (decode_encode_char x ((t ≫= encode_char) ++ take n (encode_char c)) Hx) as D.
    rewrite <- E in D. destruct s as [|y s]; [done|]. csimpl in *. apply andb_true_iff in Es as [Hy Es].
    rewrite decode_encode_char in D by done. injection D as <- D. by apply (IH Hs s).
Qed.

(** At the first byte of a character of several bytes, the column counts the
    bytes of the line before it. *)
Lemma position_char_start pre c post : forallb is_scalar (pre ++ [c]) = true ->
  position_for_offset (pre ++ c :: post) (byte_len pre) =
  if (c <? 0x80)%N then position_of pre
  else mkTextPosition (length (split_char NL pre)) (byte_len (List.last (split_char NL pre) []) + 1).
Proof.
  intros Hs. destruct (N.ltb_spec c 0x80) as [Hc|Hc].
  { rewrite <- (position_char_end pre c post) by done. f_equal. unfold len_utf8.
    destruct (N.ltb_spec c 0x80); lia. }
  assert (1 < len_utf8 c) as Hlen.
  { unfold len_utf8. destruct (N.ltb_spec c 0x80); [lia|]. repeat destruct (N.ltb _ _); lia. }
  destruct (position_in_char pre c post 0) as (a & t & -> & Ht & Hlast & E); [lia|].
  rewrite Nat.add_0_r in E. rewrite E, Hlast. rewrite <- app_assoc, forallb_app in Hs.
  apply andb_true_iff in Hs as [_ Hs].
  destruct (from_utf8_cut t c 1 Hs) as (e & ->); [lia|]. f_equal. lia.
Qed.

(** The range of the characters [mid], in the parser's bytes *)
Lemma span_range_spec pre c mid b post : forallb is_scalar (pre ++ c :: mid) = true ->
  forall m, c :: mid = m ++ [b] ->
  text_range_from_span (pre ++ (c :: mid) ++ post) (byte_len pre, byte_len (pre ++ c :: mid)) =
  mkTextRange
    (if (c <? 0x80)%N then position_of pre
     else mkTextPosition (length (split_char NL pre)) (byte_len (List.last (split_char NL pre) []) + 1))
    (position_of (pre ++ m)).
Proof.
  intros Hs m E. unfold text_range_from_span. cbn [fst snd].
  assert (forallb is_scalar (pre ++ [c]) = true) as Hc.
  { revert Hs. rewrite !forallb_app. cbn [forallb]. rewrite !andb_true_iff. intros (? & ? & _). done. }
  f_equal; [by apply position_char_start|].
  pose proof (encode_char_pos c) as Hp. pose proof (encode_char_pos b) as Hb.
  assert (byte_len pre < byte_len (pre ++ c :: mid)) as Hlt.
  { rewrite byte_len_app. change (byte_len (c :: mid)) with (len_utf8 c + byte_len mid). lia. }
  rewrite (proj2 (Nat.ltb_lt _ _) Hlt). rewrite E, <- (app_assoc m), (app_assoc pre m).
  replace (byte_len (pre ++ m ++ [b]) - 1) with (byte_len (pre ++ m) + (len_utf8 b - 1)).
  { apply position_char_end. by rewrite <- app_assoc, <- E. }
  rewrite app_assoc, (byte_len_app (pre ++ m)). change (byte_len [b]) with (len_utf8 b + 0). lia.
Qed.

(** ** The report underlines the error *)

Lemma lines_of_pieces_app l k : k <> [] ->
  lines_of_pieces (l ++ k) = map strip_cr l ++ lines_of_pieces k.
Proof.
  intros Hk. induction l as [|s l IH]; [done|]. simpl. rewrite <- IH.
  destruct (l ++ k) eqn:E; [|done]. by apply app_eq_nil in E as [_ ->].
Qed.

Definition whole_lines (a : str) : Prop := a = [] \/ exists a', a = a' ++ [NL].
Definition at_line_end (post : str) : Prop := post = [] \/ exists p, post = NL :: p.

Lemma lines_lookup a row post : whole_lines a -> at_line_end post -> NL ∉ row -> CR ∉ row -> row <> [] ->
  lines (a ++ row ++ post) !! length (List.filter (N.eqb NL) a) = Some row.
Proof.
  intros Ha Hpost Hrow Hcr Hne.
  assert (lines_of_pieces (split_char NL (row ++ post)) !! 0 = Some row) as Hhead.
  { destruct Hpost as [->|[p ->]].
    - rewrite app_nil_r, split_char_none by done. simpl. by destruct row.
    - rewrite split_char_app_sep by done. destruct (split_char NL p) eqn:Es; [by apply split_char_not_nil in Es|].
      simpl. rewrite strip_cr_id; [done|]. intros Hlast. apply Hcr.
      apply last_Some in Hlast as [row' ->]. apply elem_of_app. right. by left. }
  unfold lines. destruct Ha as [->|[a' ->]]; [done|].
  rewrite <- app_assoc. cbn [app]. rewrite split_char_app, lines_of_pieces_app by apply split_char_not_nil.
  rewrite List.filter_app, length_app. cbn. rewrite <- length_split_NL, lookup_app_r; rewrite length_map; [|done].
  by rewrite Nat.sub_diag.
Qed.

Lemma trim_end_matches_none f s : (forall c, c ∈ s -> f c = false) -> trim_end_matches f s = s.
Proof.
  intros H. unfold trim_end_matches. destruct (rev s) as [|c r] eqn:E; cbn [drop_while].
  { apply (f_equal (@rev N)) in E. by rewrite rev_involutive in E. }
  rewrite H; [|apply elem_of_rev; rewrite E; by left]. by rewrite <- E, rev_involutive.
Qed.

Lemma position_of_line a t : whole_lines a -> NL ∉ t ->
  position_of (a ++ t) = mkTextPosition (length (List.filter (N.eqb NL) a) + 1) (length t + 1).
Proof.
  intros Ha Ht. unfold position_of. rewrite length_split_NL, List.filter_app, (filter_NL_none t), app_nil_r by done.
  f_equal. destruct Ha as [->|[a' ->]]; cbn [app].
  - by rewrite split_char_none.
  - rewrite <- app_assoc. cbn [app]. by rewrite split_char_app, (split_char_none NL t), last_last.
Qed.

Lemma trim_end_carets s n : trim_end (s ++ repeat (ch "^") (S n) ++ [NL]) = s ++ repeat (ch "^") (S n).
Proof.
  rewrite app_assoc, trim_end_app_white by done.
  replace (repeat (ch "^") (S n)) with (repeat (ch "^") n ++ [ch "^"]) by by rewrite <- repeat_cons.
  rewrite app_assoc. by rewrite trim_end_app.
Qed.

(** An error that the parser places, by its bytes, at some characters of a line
    is shown with that line under its number and, two rows below the place,
    exactly those characters underlined, when the first of them is ASCII. *)
Theorem error_underlined (path msg a t u post : str) (c : char) (mid : str) :
  whole_lines a -> at_line_end post -> NL ∉ t ++ (c :: mid) ++ u -> CR ∉ t ++ (c :: mid) ++ u ->
  forallb is_scalar (a ++ t ++ c :: mid) = true -> (c < 0x80)%N ->
  let contents := a ++ (t ++ (c :: mid) ++ u) ++ post in
  let number := show_nat (length (List.filter (N.eqb NL) a) + 1) in
  let spaces n := repeat (ch " ") n in
  format_config_error
    (mkConfigError path (text_range_from_span contents (byte_len (a ++ t), byte_len (a ++ t ++ c :: mid))) msg)
    contents =
  path ++ lit ":" ++ number ++ lit ":" ++ show_nat (length t + 1) ++ lit ": " ++ msg ++ [NL]
  ++ spaces (length number) ++ lit " |" ++ [NL]
  ++ number ++ lit " | " ++ t ++ (c :: mid) ++ u ++ [NL]
  ++ spaces (length number) ++ lit " | " ++ spaces (length t) ++ repeat (ch "^") (length (c :: mid)).
Proof.
  intros Ha Hpost Hrow Hcr Hs Hc contents number spaces.
  destruct (exists_last (l := c :: mid)) as (m & b & E); [done|].
  assert (text_range_from_span contents (byte_len (a ++ t), byte_len (a ++ t ++ c :: mid)) =
    mkTextRange (position_of (a ++ t)) (position_of (a ++ t ++ m))) as ->.
  { subst contents. rewrite (app_assoc a t (c :: mid)) in *. rewrite (app_assoc a t m).
    pose proof (span_range_spec (a ++ t) c mid b (u ++ post) Hs m E) as Hr.
    rewrite (proj2 (N.ltb_lt _ _) Hc) in Hr. rewrite <- Hr. f_equal. by rewrite <- !app_assoc. }
  assert (NL ∉ t /\ NL ∉ t ++ m) as [Ht Htm].
  { rewrite E in Hrow. revert Hrow. rewrite !not_elem_of_app. tauto. }
  rewrite !position_of_line by done.
  assert (length m = length mid) as Hm.
  { apply (f_equal length) in E. rewrite length_app in E. simpl in E. lia. }
  unfold format_config_error, show_config_load_error, highlight_len.
  cbn [range_start range_end line column error_path error_message error_range].
  rewrite Nat.add_sub. unfold contents at 1. rewrite lines_lookup by (done || by destruct t).
  rewrite trim_end_matches_none.
  2:{ intros x Hx. apply N.eqb_neq. by intros <-. }
  rewrite Nat.eqb_refl, (proj2 (Nat.leb_le _ _)) by (rewrite length_app; lia). cbn [andb].
  replace (Nat.max _ 1) with (S (length mid)) by (rewrite length_app; lia).
  rewrite Nat.add_sub. rewrite !app_assoc, <- (app_assoc _ (repeat (ch "^") _)), trim_end_carets.
  by rewrite <- !app_assoc.
Qed.

Lemma error_underlined_witness :
  format_config_error
    (mkConfigError (lit "/c.toml")
       (text_range_from_span (lit "a = 1" ++ [NL] ++ lit "b = tru" ++ [NL]) (10, 13)) (lit "bad value"))
    (lit "a = 1" ++ [NL] ++ lit "b = tru" ++ [NL]) =
  lit "/c.toml:2:5: bad value" ++ [NL] ++ lit "  |" ++ [NL] ++ lit "2 | b = tru" ++ [NL] ++ lit "  |     ^^^".
Proof.
  pose proof (error_underlined (lit "/c.toml") (lit "bad value") (lit "a = 1" ++ [NL]) (lit "b = ") [] [NL]
    (ch "t") (lit "ru")) as E.
  vm_compute. vm_compute in E. apply E; try done; [right; by exists [97; 32; 61; 32; 49]%N|right; by exists []|..];
    intros Hin; repeat match goal with Hx : list_elem_of _ _ |- _ => inversion Hx; clear Hx
                                     | Hx : _ ∈ _ |- _ => inversion Hx; clear Hx end.
Defined.

(** An error that starts at a character of several bytes, after another one of
    its line, is placed by bytes: in ["é" = é], the second [é] is the seventh
    character, and is reported at column 8. *)
Lemma column_counts_bytes :
  let pre := [34; 233; 34; 32; 61; 32]%N in
  position_for_offset (pre ++ [233%N]) (byte_len pre) = mkTextPosition 1 8 /\
  position_of pre = mkTextPosition 1 7.
Proof. by vm_compute. Qed.

(** ** The node of a path *)

(** The node that every segment of the path leads to *)
Fixpoint walk (node : TomlNode) (segments : list SerdeSegment) : option TomlNode :=
  match segments with
  | [] => Some node
  | SegMap key :: rest | SegEnum key :: rest => next ← map_child node key; walk next rest
  | SegSeq i :: rest => next ← seq_child node i; walk next rest
  | SegUnknown :: _ => None
  end.

Lemma node_of_walk node segments n : walk node segments = Some n -> node_for_segments node segments = Some n.
Proof.
  revert node. induction segments as [|seg rest IH]; intros node; simpl; [done|].
  destruct seg as [i|key|key|]; [| | |done];
    match goal with |- (?o ≫= _) = _ -> _ => destruct o; simpl; [apply IH|done] end.
Qed.

(** A segment that the document has no entry for (a variant of an enum that
    is not written, a flattened structure) is passed over, unless it is the last. *)
Lemma node_skips node key rest : map_child node key = None -> rest <> [] ->
  node_for_segments node (SegEnum key :: rest) = node_for_segments node rest.
Proof. intros Hk Hr. simpl. rewrite Hk. by destruct rest. Qed.

Section Placement.
Context {TE : TomlErrors} (parse_document : str -> option Item).
Context (parse_toml : str -> result toml_Error unit).
Context (deserialize : str -> str -> result (list SerdeSegment * toml_Error) unit).

(** An error of a typed configuration is placed at the node that its path
    leads to in the document, if there is one with a span, whatever the error
    itself says. *)
Theorem typed_error_placed (base path contents : str) (segments : list SerdeSegment) (err : toml_Error)
    (doc : Item) (item : Item) (sp : span) :
  parse_toml contents = Ok tt ->
  deserialize base contents = Err (segments, err) ->
  parse_document contents = Some doc ->
  walk (NodeItem doc) segments = Some (NodeItem item) -> item_span item = Some sp ->
  is_features_table_path segments = false ->
  config_error_from_typed_toml parse_document parse_toml deserialize base path contents =
  Some (mkConfigError path (text_range_from_span contents sp) (toml_error_message err)).
Proof.
  intros Hp Hd Hdoc Hw Hsp Hf. unfold config_error_from_typed_toml, span_for_config_path, span_for_path.
  by rewrite Hp, Hd, Hf, Hdoc; simpl; unfold node_for_path; rewrite (node_of_walk _ _ _ Hw); simpl; rewrite Hsp.
Qed.
End Placement.
