(* ===== verification/ProjectTrust.v ===== *)
(** * ProjectTrust: which projects the user trusts

    The part of [config/src/loader/mod.rs] that finds the root of a project
    and decides whether a directory of it is trusted, the markers of a root
    ([config/src/project_root_markers.rs]) and the repository of a work tree
    ([git-utils/src/info.rs]).  The file system is the interface of
    FileSystem.v; the deserialisation of the table of projects is serde's and
    a parameter.  [cfg_windows] says whether the keys compare as on Windows;
    the paths are those of Unix. *)

From S2P Require Import Prelude Trim BTree Paths Toml HostPaths FileSystem Diagnostics Utf8.
Local Open Scope str_scope.

Inductive TrustLevel : Type := Trusted | Untrusted.

#[global] Instance trust_level_eq_dec : EqDecision TrustLevel.
Proof. solve_decision. Defined.

Record ProjectConfig : Type := mkProjectConfig { trust_level : option TrustLevel }.

(** A call whose failure is looked at, instead of returned *)
Definition attempt {S E F A} (m : M S E A) : M S F (result E A) := fun s =>
  match m s with Some (s', r) => Some (s', Ok r) | None => None end.

Lemma run_bind {S E A B} (m : M S E A) (f : A -> M S E B) s s' a :
  m s = Some (s', Ok a) -> (m ≫= f) s = f a s'.
Proof. intros Hm. unfold mbind, M_bind. by rewrite Hm. Qed.

Lemma total_attempt {S E F A} (m : M S E A) : total m -> total (attempt m : M S F (result E A)).
Proof. intros Hm s. unfold attempt. destruct (Hm s) as [[s' r] ->]. eauto. Qed.
#[export] Hint Resolve total_attempt : monad.

(** ** [project_root_markers.rs] *)

Definition DEFAULT_PROJECT_ROOT_MARKERS : list str := [lit ".git"].
Definition default_project_root_markers : list str := DEFAULT_PROJECT_ROOT_MARKERS.

Definition markers_error : io_Error :=
  io_error_new InvalidData (lit "project_root_markers must be an array of strings").

Fixpoint marker_strings (entries : list TomlValue) : result io_Error (list str) :=
  match entries with
  | [] => Ok []
  | TString marker :: entries => markers ← marker_strings entries; Ok (marker :: markers)
  | _ :: _ => Err markers_error
  end.

Definition project_root_markers_from_config (config : TomlValue) : result io_Error (option (list str)) :=
  match config with
  | TTable table =>
      match tbl_get (lit "project_root_markers") table with
      | None => Ok None
      | Some (TArray entries) => markers ← marker_strings entries; Ok (Some markers)
      | Some _ => Err markers_error
      end
  | _ => Ok None
  end.

Section ProjectTrust.
Context {Sandbox Fs : Type} `{FS : ExecutorFileSystem Sandbox Fs} {HO : Host}.
Context (cfg_windows : bool).

Definition metadata_of {E} (path : str) : M Fs E (result io_Error FileMetadata) :=
  attempt (call (get_metadata path (None : option Sandbox))).

(** ** The root of a project *)

(** Does some marker exist in the directory? *)
Fixpoint has_marker (ancestor : str) (project_root_markers : list str) : M Fs io_Error bool :=
  match project_root_markers with
  | [] => mret false
  | marker :: markers =>
      metadata ← metadata_of (join_abs ancestor marker);
      if is_ok metadata then mret true else has_marker ancestor markers
  end.

Fixpoint first_with_marker (cwd : str) (dirs : list str) (project_root_markers : list str) : M Fs io_Error str :=
  match dirs with
  | [] => mret cwd
  | ancestor :: dirs =>
      found ← has_marker ancestor project_root_markers;
      if (found : bool) then mret ancestor else first_with_marker cwd dirs project_root_markers
  end.

Definition find_project_root (cwd : str) (project_root_markers : list str) : M Fs io_Error str :=
  if is_empty project_root_markers then mret cwd
  else first_with_marker cwd (ancestors cwd) project_root_markers.

(** ** The repository of a directory *)

Fixpoint find_git_entry_in (dirs : list str) : M Fs io_Error (option (str * str)) :=
  match dirs with
  | [] => mret None
  | dir :: dirs =>
      let dot_git := join_abs dir (lit ".git") in
      metadata ← metadata_of dot_git;
      if is_ok metadata then mret (Some (dir, dot_git)) else find_git_entry_in dirs
  end.

Definition find_ancestor_git_entry_with_fs (base_dir : str) : M Fs io_Error (option (str * str)) :=
  find_git_entry_in (ancestors base_dir).

(** What the text of a [.git] file says of the main repository *)
Definition root_of_gitdir (repo_root git_dir_s : str) : option str :=
  rest ← strip_prefix (lit "gitdir:") (trim git_dir_s);
  let git_dir_rel := trim rest in
  if is_empty git_dir_rel then None
  else
    let git_dir_path := resolve_path_against_base h_home_dir git_dir_rel repo_root in
    worktrees_dir ← parent git_dir_path;
    if bool_decide (file_name worktrees_dir = Some (lit "worktrees")) then
      common_dir ← parent worktrees_dir;
      parent common_dir
    else None.

Definition repository_from (base : str) : M Fs io_Error (option str) :=
  entry ← find_ancestor_git_entry_with_fs base;
  match entry with
  | None => mret None
  | Some (repo_root, dot_git) =>
      metadata ← metadata_of dot_git;
      match metadata with
      | Err _ => mret None
      | Ok metadata =>
          if md_is_directory metadata then mret (Some repo_root)
          else
            git_dir_s ← attempt (read_file_text dot_git (None : option Sandbox));
            mret (match git_dir_s with Ok git_dir_s => root_of_gitdir repo_root git_dir_s | Err _ => None end)
      end
  end.

Definition resolve_root_git_project_for_trust (cwd : str) : M Fs io_Error (option str) :=
  metadata ← metadata_of cwd;
  let is_directory := match metadata with Ok metadata => md_is_directory metadata | Err _ => false end in
  match (if is_directory then Some cwd else parent cwd) with
  | None => mret None
  | Some base => repository_from base
  end.

(** ** The keys of the table of projects *)

Definition normalize_project_trust_lookup_key (key : str) : str :=
  if cfg_windows then to_ascii_lowercase key else key.

Definition normalized_project_trust_keys (path : str) : list str :=
  let normalized_path := normalize_project_trust_lookup_key path in
  let normalized_canonical_path := normalize_project_trust_lookup_key (default path (h_canonicalize path)) in
  if normalized_path =? normalized_canonical_path then [normalized_canonical_path]
  else [normalized_canonical_path; normalized_path].

Definition project_trust_key (path : str) : str :=
  default (normalize_project_trust_lookup_key path) (head (normalized_project_trust_keys path)).

(** The entries of the map, in no order that matters *)
Definition project_trust_for_lookup_key (projects_trust : gmap str TrustLevel) (lookup_key : str)
    : option (str * TrustLevel) :=
  match projects_trust !! lookup_key with
  | Some trust_level => Some (lookup_key, trust_level)
  | None =>
      let normalized_matches :=
        List.filter (fun kv => normalize_project_trust_lookup_key kv.1 =? lookup_key) (map_to_list projects_trust) in
      head (sort_by (fun left right => str_leb left.1 right.1) normalized_matches)
  end.

(** ** Decisions *)

Record ProjectTrustContext : Type := mkTrustContext {
  project_root : str;
  project_root_key : str;
  project_root_lookup_keys : list str;
  repo_root_key : option str;
  repo_root_lookup_keys : option (list str);
  projects_trust : gmap str TrustLevel;
  user_config_file : str;
}.

Record ProjectTrustDecision : Type := mkDecision {
  decision_trust_level : option TrustLevel;
  decision_trust_key : str;
}.

Definition is_trusted (self : ProjectTrustDecision) : bool :=
  match decision_trust_level self with Some Trusted => true | _ => false end.

(** The loop over some keys *)
Fixpoint first_trust (projects_trust : gmap str TrustLevel) (keys : list str) : option (str * TrustLevel) :=
  match keys with
  | [] => None
  | key :: keys =>
      match project_trust_for_lookup_key projects_trust key with
      | Some found => Some found
      | None => first_trust projects_trust keys
      end
  end.

Definition decision_for_dir (self : ProjectTrustContext) (dir : str) : ProjectTrustDecision :=
  let found key_level := mkDecision (Some key_level.2) key_level.1 in
  match first_trust (projects_trust self) (normalized_project_trust_keys dir) with
  | Some key_level => found key_level
  | None =>
      match first_trust (projects_trust self) (project_root_lookup_keys self) with
      | Some key_level => found key_level
      | None =>
          match repo_root_lookup_keys self ≫= first_trust (projects_trust self) with
          | Some key_level => found key_level
          | None => mkDecision None (default (project_root_key self) (repo_root_key self))
          end
      end
  end.

Definition gated_features : str := lit "project-local config, hooks, and exec policies".

Definition disabled_reason_for_decision (self : ProjectTrustContext) (decision : ProjectTrustDecision) : option str :=
  if is_trusted decision then None
  else
    let trust_key := decision_trust_key decision in
    match decision_trust_level decision with
    | Some Untrusted =>
        Some (trust_key ++ lit " is marked as untrusted in " ++ user_config_file self ++ lit ". To load "
              ++ gated_features ++ lit ", mark it trusted.")
    | _ =>
        Some (lit "To load " ++ gated_features ++ lit ", add " ++ trust_key ++ lit " as a trusted project in "
              ++ user_config_file self ++ lit ".")
    end.

(** ** The context of a working directory *)

Context {TE : TomlErrors}.
(** [try_into::<ProjectTrustConfigToml>()], relative to a base directory, and
    [Display] of its error *)
Context (project_trust_config_toml : str -> TomlValue -> result toml_Error (option (gmap str ProjectConfig))).
Context (toml_error_display : toml_Error -> str).

Definition trust_levels (projects : gmap str ProjectConfig) : gmap str TrustLevel := omap trust_level projects.

Definition project_trust_context (merged_config : TomlValue) (cwd : str) (project_root_markers : list str)
    (config_base_dir user_config_file : str) : M Fs io_Error ProjectTrustContext :=
  project_trust_config ← of_result (map_err (fun err => io_error_new InvalidData (toml_error_display err))
    (project_trust_config_toml config_base_dir merged_config));
  project_root ← find_project_root cwd project_root_markers;
  let projects := default ∅ project_trust_config in
  let project_root_lookup_keys := normalized_project_trust_keys project_root in
  let project_root_key := default (project_trust_key project_root) (head project_root_lookup_keys) in
  repo_root ← resolve_root_git_project_for_trust cwd;
  let repo_root_lookup_keys := normalized_project_trust_keys <$> repo_root in
  let repo_root_key := repo_root_lookup_keys ≫= head in
  mret (mkTrustContext project_root project_root_key project_root_lookup_keys repo_root_key
          repo_root_lookup_keys (trust_levels projects) user_config_file).

End ProjectTrust.

(** ** A file system that does not change while it is asked *)

Class Frozen {Sandbox Fs : Type} `{FS : ExecutorFileSystem Sandbox Fs} (s : Fs) : Type := {
  metadata_at : str -> result io_Error FileMetadata;
  contents_at : str -> result io_Error (list N);
  frozen_metadata path : get_metadata path (None : option Sandbox) s = (s, metadata_at path);
  frozen_contents path : read_file path (None : option Sandbox) s = (s, contents_at path);
}.

#[global] Instance mem_frozen (s : MemFs) : Frozen s.
Proof. refine {| metadata_at p := (mem_metadata p None s).2; contents_at p := (mem_read p None s).2 |}; done. Defined.

Section Frozen.
Context {Sandbox Fs : Type} `{FS : ExecutorFileSystem Sandbox Fs} (s : Fs) {FZ : Frozen s} {HO : Host}.

Definition exists_at (path : str) : bool := is_ok (metadata_at path).
Definition is_dir_at (path : str) : bool :=
  match metadata_at path with Ok metadata => md_is_directory metadata | Err _ => false end.
Definition text_at (path : str) : result io_Error str :=
  bytes ← contents_at path;
  map_err (fun err => io_error_new InvalidData (show_utf8_error err)) (from_utf8 bytes).

Lemma run_metadata {E B} path (f : result io_Error FileMetadata -> M Fs E B) :
  (metadata_of path ≫= f) s = f (metadata_at path) s.
Proof. unfold mbind, M_bind, metadata_of, attempt, call. by rewrite frozen_metadata. Qed.

Lemma run_read path : read_file_text path (None : option Sandbox) s = Some (s, text_at path).
Proof.
  unfold read_file_text, mbind, M_bind, call, text_at. rewrite frozen_contents.
  destruct (contents_at path); done.
Qed.

Lemma run_attempt_read {E B} path (f : result io_Error str -> M Fs E B) :
  (attempt (read_file_text path (None : option Sandbox)) ≫= f) s = f (text_at path) s.
Proof. unfold mbind, M_bind, attempt. by rewrite run_read. Qed.

Lemma run_has_marker dir markers :
  has_marker dir markers s = Some (s, Ok (existsb (fun marker => exists_at (join_abs dir marker)) markers)).
Proof.
  induction markers as [|marker markers IH]; [done|]. cbn [has_marker existsb]. rewrite run_metadata.
  unfold exists_at at 1. by destruct (is_ok _).
Qed.

(** The root is the nearest ancestor that holds a marker, or the directory itself. *)
Lemma run_find_project_root cwd markers :
  find_project_root cwd markers s =
  Some (s, Ok (default cwd (find (fun dir => existsb (fun marker => exists_at (join_abs dir marker)) markers)
                              (ancestors cwd)))).
Proof.
  unfold find_project_root. destruct (is_empty markers) eqn:Em.
  { destruct markers; [|done]. induction (ancestors cwd); done. }
  generalize (ancestors cwd). intros dirs. induction dirs as [|dir dirs IH]; [done|].
  cbn [first_with_marker find]. erewrite run_bind by apply run_has_marker.
  destruct (existsb _ markers); done.
Qed.

Definition git_dir_in (dir : str) : bool := exists_at (join_abs dir (lit ".git")).

Lemma run_find_git_entry dirs :
  find_git_entry_in dirs s =
  Some (s, Ok ((fun dir => (dir, join_abs dir (lit ".git"))) <$> find git_dir_in dirs)).
Proof.
  induction dirs as [|dir dirs IH]; [done|]. cbn [find_git_entry_in find]. rewrite run_metadata.
  unfold git_dir_in at 1, exists_at. by destruct (is_ok _).
Qed.

(** The repository of a directory, as what is on the disk says it *)
Definition repository_of (cwd : str) : option str :=
  base ← (if is_dir_at cwd then Some cwd else parent cwd);
  repo_root ← find git_dir_in (ancestors base);
  let dot_git := join_abs repo_root (lit ".git") in
  if is_dir_at dot_git then Some repo_root
  else match text_at dot_git with Ok git_dir_s => root_of_gitdir repo_root git_dir_s | Err _ => None end.

Lemma run_resolve_root cwd : resolve_root_git_project_for_trust cwd s = Some (s, Ok (repository_of cwd)).
Proof.
  unfold resolve_root_git_project_for_trust, repository_of. rewrite run_metadata. fold (is_dir_at cwd).
  destruct (if is_dir_at cwd then _ else _) as [base|]; [|done]. cbn [mbind option_bind].
  unfold repository_from. erewrite run_bind by apply run_find_git_entry.
  destruct (find git_dir_in (ancestors base)) as [root|] eqn:Ef; [|done]. simpl.
  apply find_some in Ef as [_ Ef]. unfold git_dir_in, exists_at in Ef.
  rewrite run_metadata. unfold is_dir_at. destruct (metadata_at (join_abs root _)) as [md|]; [|done].
  destruct (md_is_directory md); [done|]. by rewrite run_attempt_read.
Qed.
End Frozen.

Lemma expand_normal_path home p base : normal_abs p -> resolve_path_against_base home p base = p.
Proof.
  intros Hp. unfold resolve_path_against_base.
  rewrite expand_absolute by by apply normal_abs_absolute. by apply absolutize_from_id.
Qed.

Lemma file_name_render segs name : Forall good_seg segs -> good_seg name ->
  file_name (render_abs (segs ++ [name])) = Some name.
Proof.
  intros Hs Hn. unfold file_name. rewrite components_render_abs by (apply Forall_app; auto).
  rewrite map_app. cbn [map]. by rewrite app_comm_cons, last_snoc.
Qed.

(** A work tree belongs to the repository whose directory of work trees its
    [.git] file names. *)
Lemma root_of_worktree {HO : Host} (repo_root : str) (segs : list str) (name : str) :
  Forall good_seg segs -> good_seg name -> trim_end name = name ->
  root_of_gitdir repo_root
    (lit "gitdir: " ++ render_abs (segs ++ [lit ".git"; lit "worktrees"; name]) ++ [NL]) =
  Some (render_abs segs).
Proof.
  intros Hs Hn Ht.
  assert (good_seg (lit ".git") /\ good_seg (lit "worktrees")) as [Hg Hw].
  { split; apply (bool_decide_unpack _); by vm_compute. }
  set (dir := (segs ++ [lit ".git"]) ++ [lit "worktrees"]).
  assert (segs ++ [lit ".git"; lit "worktrees"; name] = dir ++ [name]) as ->.
  { unfold dir. by rewrite <- !app_assoc. }
  assert (Forall good_seg (segs ++ [lit ".git"]) /\ Forall good_seg dir) as [Hsg Hdir].
  { unfold dir. rewrite !Forall_app, !Forall_singleton. done. }
  assert (exists q, render_abs (dir ++ [name]) = SEP :: q ++ name) as [q Eq].
  { unfold render_abs. rewrite join_snoc by by destruct segs. exists (join [SEP] dir ++ [SEP]). by rewrite <- app_assoc. }
  assert (forall p : str, trim_end (p ++ SEP :: q ++ name) = p ++ SEP :: q ++ name) as Hend.
  { intros p. rewrite app_comm_cons, app_assoc, trim_end_app; [by rewrite Ht|]. rewrite Ht. apply Hn. }
  unfold root_of_gitdir. rewrite Eq.
  assert (trim (lit "gitdir: " ++ (SEP :: q ++ name) ++ [NL]) = lit "gitdir:" ++ ch " " :: SEP :: q ++ name) as ->.
  { unfold trim. rewrite app_assoc, trim_end_app_white by done. rewrite Hend. done. }
  rewrite strip_prefix_app. cbn [mbind option_bind].
  assert (trim (ch " " :: SEP :: q ++ name) = SEP :: q ++ name) as ->.
  { unfold trim. pose proof (Hend [ch " "]) as E. cbn [app] in E. by rewrite E. }
  cbn [is_empty]. rewrite <- Eq, expand_normal_path.
  2:{ eexists; split; [|done]. rewrite Forall_app, Forall_singleton. done. }
  rewrite parent_render_abs by done. cbn [mbind option_bind]. unfold dir.
  rewrite file_name_render, bool_decide_eq_true_2, parent_render_abs by done. cbn [mbind option_bind].
  by rewrite parent_render_abs.
Qed.

(** ** Decisions *)

Section Decisions.
Context {HO : Host} (cfg_windows : bool).
Notation lookup_key_of := (normalize_project_trust_lookup_key cfg_windows).
Notation trust_for := (project_trust_for_lookup_key cfg_windows).

(** The keys under which a directory may be listed, the strongest first *)
Definition trust_keys (self : ProjectTrustContext) (dir : str) : list str :=
  normalized_project_trust_keys cfg_windows dir ++ project_root_lookup_keys self
  ++ default [] (repo_root_lookup_keys self).

Lemma first_trust_head projects keys : first_trust cfg_windows projects keys = head (omap (trust_for projects) keys).
Proof.
  induction keys as [|key keys IH]; [done|]. unfold omap in *. cbn [first_trust list_omap].
  by destruct (trust_for projects key).
Qed.

Lemma head_app {A} (l k : list A) : head (l ++ k) = match head l with Some x => Some x | None => head k end.
Proof. by destruct l. Qed.

(** The first of the keys that the table lists decides. *)
Lemma decision_first self dir :
  decision_trust_level (decision_for_dir cfg_windows self dir) =
  snd <$> head (omap (trust_for (projects_trust self)) (trust_keys self dir)).
Proof.
  unfold decision_for_dir, trust_keys. rewrite !omap_app, !head_app, !first_trust_head.
  destruct (head (omap _ (normalized_project_trust_keys _ dir))); [done|].
  destruct (head (omap _ (project_root_lookup_keys self))); [done|].
  destruct (repo_root_lookup_keys self) as [keys|]; [|done]. simpl. rewrite first_trust_head.
  by destruct (head (omap _ keys)).
Qed.

(** What is found for a key is an entry of the table that means the same key. *)
Lemma trust_for_Some projects key k level : trust_for projects key = Some (k, level) ->
  projects !! k = Some level /\ (k = key \/ lookup_key_of k = key).
Proof.
  unfold project_trust_for_lookup_key. destruct (projects !! key) as [l|] eqn:E; [intros [= <- <-]; eauto|].
  intros Hh. apply head_Some in Hh as [rest Hh].
  assert ((k, level) ∈ List.filter (fun kv => lookup_key_of kv.1 =? key) (map_to_list projects)) as Hin.
  { rewrite <- (sort_by_perm (fun left right => str_leb left.1 right.1)), Hh. by left. }
  apply elem_of_filter_list in Hin as [Hin%elem_of_map_to_list Hk]. split; [done|]. right.
  by apply bool_decide_eq_true in Hk.
Qed.

(** An entry that means the key is found, if no other entry means it too. *)
Lemma trust_for_None projects key : trust_for projects key = None ->
  forall k level, projects !! k = Some level -> lookup_key_of k <> key.
Proof.
  unfold project_trust_for_lookup_key. destruct (projects !! key); [done|].
  intros Hh k level Hk <-. apply head_None in Hh.
  assert ((k, level) ∈ List.filter (fun kv => lookup_key_of kv.1 =? lookup_key_of k) (map_to_list projects)) as Hin.
  { apply elem_of_filter_list. split; [by apply elem_of_map_to_list|by apply bool_decide_eq_true]. }
  rewrite <- (sort_by_perm (fun left right => str_leb left.1 right.1)), Hh in Hin. by apply elem_of_nil in Hin.
Qed.

(** [k] is the entry of the table for a key: the key itself or, if it is not
    there, the smallest of those that mean the same. *)
Definition entry_for (projects : gmap str TrustLevel) (key k : str) (level : TrustLevel) : Prop :=
  projects !! k = Some level /\
  (k = key \/ projects !! key = None /\ lookup_key_of k = key /\
   forall k', is_Some (projects !! k') -> lookup_key_of k' = key -> str_leb k k' = true).

Definition unlisted (projects : gmap str TrustLevel) (key : str) : Prop :=
  forall k, is_Some (projects !! k) -> k <> key /\ lookup_key_of k <> key.

Lemma trust_for_entry projects key k level : trust_for projects key = Some (k, level) -> entry_for projects key k level.
Proof.
  intros H. pose proof (trust_for_Some _ _ _ _ H) as [Hk Hor]. split; [done|]. revert H.
  unfold project_trust_for_lookup_key. destruct (projects !! key) as [l|] eqn:E; [intros [= -> ->]; by left|].
  intros Hh. right. destruct Hor as [-> |Hn]; [congruence|]. split_and!; [done|done|]. intros k' [l' Hk'] Hn'.
  apply head_Some in Hh as [rest Hh].
  assert ((k', l') ∈ (k, level) :: rest) as Hin.
  { rewrite <- Hh, sort_by_perm. apply elem_of_filter_list.
    split; [by apply elem_of_map_to_list|by apply bool_decide_eq_true]. }
  assert (StronglySorted (fun a b => str_leb a.1 b.1 = true) ((k, level) :: rest)) as Hs.
  { rewrite <- Hh. apply sort_by_sorted; [|intros; by eapply str_leb_trans].
    intros x y. destruct (str_leb x.1 y.1) eqn:Ex; [by left|right; by apply str_leb_total]. }
  apply elem_of_cons in Hin as [[= -> _]|Hin]; [apply str_leb_refl|].
  apply StronglySorted_inv in Hs as [_ Hs]. rewrite Forall_forall in Hs. by apply (Hs _ Hin).
Qed.

Lemma trust_for_unlisted projects key : trust_for projects key = None -> unlisted projects key.
Proof.
  intros H k [level Hk]. split; [|by eapply trust_for_None].
  intros ->. unfold project_trust_for_lookup_key in H. by rewrite Hk in H.
Qed.

Lemma entry_for_unlisted projects key k level : entry_for projects key k level -> ~ unlisted projects key.
Proof. intros [Hk H] Hu. destruct (Hu k) as [? ?]; [eauto|]. destruct H as [|(_ & ? & _)]; done. Qed.

Lemma entry_for_unique projects key k level k' level' :
  entry_for projects key k level -> entry_for projects key k' level' -> k = k' /\ level = level'.
Proof.
  intros [Hk H] [Hk' H']. assert (k = k') as ->; [|split; congruence].
  destruct H as [-> |(Hn & E & Hmin)], H' as [-> |(Hn' & E' & Hmin')]; [done|congruence..|].
  apply str_leb_antisym; eauto.
Qed.

(** The first of the keys that the table lists says [level]. *)
Definition first_listed (projects : gmap str TrustLevel) (keys : list str) (level : TrustLevel) : Prop :=
  exists before key after k, keys = before ++ key :: after /\ Forall (unlisted projects) before
    /\ entry_for projects key k level.

Lemma first_listed_spec projects keys level :
  snd <$> head (omap (trust_for projects) keys) = Some level <-> first_listed projects keys level.
Proof.
  unfold omap. induction keys as [|key keys IH]; cbn [list_omap].
  { split; [done|]. intros ([|] & ? & ? & ? & [=] & _). }
  destruct (trust_for projects key) as [[k l]|] eqn:E.
  - apply trust_for_entry in E. cbn. split.
    + intros [= ->]. by exists [], key, keys, k.
    + intros ([|key' before] & key0 & after & k0 & [= <- ?] & Hb & He).
      * by destruct (entry_for_unique _ _ _ _ _ _ E He) as [_ ->].
      * apply Forall_cons in Hb as [Hb _]. by apply entry_for_unlisted in E.
  - apply trust_for_unlisted in E. rewrite IH. split.
    + intros (before & key0 & after & k & -> & Hb & H). exists (key :: before), key0, after, k. auto.
    + intros ([|key' before] & key0 & after & k & [= <- ?] & Hb & He).
      * by apply entry_for_unlisted in He.
      * apply Forall_cons in Hb as [_ Hb]. by exists before, key0, after, k.
Qed.

(** A directory is trusted exactly if the first entry of the table for it, the
    root of its project or the repository trusts. *)
Lemma trusted_listed self dir :
  is_trusted (decision_for_dir cfg_windows self dir) = true
  <-> first_listed (projects_trust self) (trust_keys self dir) Trusted.
Proof.
  rewrite <- first_listed_spec, <- decision_first. unfold is_trusted.
  by destruct (decision_trust_level _) as [[]|].
Qed.

Lemma disabled_reason_None self decision : disabled_reason_for_decision self decision = None <-> is_trusted decision = true.
Proof.
  unfold disabled_reason_for_decision. destruct (is_trusted decision); [done|].
  by destruct (decision_trust_level decision) as [[]|].
Qed.
End Decisions.
