(* ===== verification/ConfigLoader.v ===== *)
(** * ConfigLoader: the layers of the configuration, and its requirements

    [config/src/loader/mod.rs] with [layer_io.rs] and [thread_config.rs]: from
    the files of the system, the user and the project, the overrides and the
    thread's own settings to a stack of layers and the requirements that bind
    it.  The parser of TOML and serde's conversions are the interface
    [ConfigCodec]; the loaders of cloud requirements and of a thread's sources
    are arguments.  The code for macOS and Windows is left out, but for what a
    managed device supplies. *)

From S2P Require Import Prelude Utf8 BTree Paths Toml HostPaths FileSystem Permissions Constraint Requirements.
From S2P Require Import ConfigLayers Diagnostics ProjectTrust.
Local Open Scope str_scope.

(** ** [thread_config.rs] *)

Inductive ThreadConfigLoadErrorCode : Type :=
| CodeAuth | CodeTimeout | CodeParse | CodeRequestFailed | CodeInternal.

Record ThreadConfigLoadError : Type := mkThreadError {
  te_code : ThreadConfigLoadErrorCode;
  te_message : str;
  te_status_code : option N;
}.

Record ThreadConfigContext : Type := mkThreadContext { tc_thread_id : option str; tc_cwd : option str }.

Section ThreadConfig.
Context {ModelProviderInfo : Type}.
(** [TomlValue::try_from] on the providers *)
Context (model_providers_to_toml : gmap str ModelProviderInfo -> result str TomlValue).
Context (to_value : TomlValue -> option JsonValue) (to_vec : JsonValue -> option (list N))
  (sha256 : list N -> list N).

Record SessionThreadConfig : Type := mkSessionConfig {
  model_provider : option str;
  model_providers : gmap str ModelProviderInfo;
  (** a [BTreeMap] *)
  features : list (str * bool);
}.

Inductive ThreadConfigSource : Type := ThreadSession (config : SessionThreadConfig) | ThreadUser.

Definition session_thread_config_to_toml (config : SessionThreadConfig) : result ThreadConfigLoadError TomlValue :=
  let table :=
    match model_provider config with
    | Some model_provider => tbl_insert (lit "model_provider") (TString model_provider) []
    | None => []
    end in
  table ← (if bool_decide (model_providers config = ∅) then Ok table
           else
             model_providers ← map_err (fun err => mkThreadError CodeParse
                 (lit "failed to convert session model providers to config TOML: " ++ err) None)
               (model_providers_to_toml (model_providers config));
             Ok (tbl_insert (lit "model_providers") model_providers table));
  Ok (TTable (if is_empty (features config) then table
              else tbl_insert (lit "features") (TTable (map (fun fe => (fe.1, TBoolean fe.2)) (features config))) table)).

Definition is_empty_table (config : TomlValue) : bool :=
  match config with TTable table => is_empty table | _ => false end.

Definition thread_config_source_to_layer (source : ThreadConfigSource)
    : result ThreadConfigLoadError (option ConfigLayerEntry) :=
  match source with
  | ThreadSession config =>
      config ← session_thread_config_to_toml config;
      Ok (if is_empty_table config then None else Some (entry_new to_value to_vec sha256 SessionFlags config))
  | ThreadUser => Ok None
  end.

(** The provided method of [ThreadConfigLoader] *)
Definition load_config_layers
    (load : ThreadConfigContext -> result ThreadConfigLoadError (list ThreadConfigSource))
    (context : ThreadConfigContext) : result ThreadConfigLoadError (list ConfigLayerEntry) :=
  sources ← load context;
  layers ← collect (map thread_config_source_to_layer sources);
  Ok (omap (M:=list) (fun layer : option ConfigLayerEntry => layer) layers).

Definition static_load (sources : list ThreadConfigSource) (_ : ThreadConfigContext)
    : result ThreadConfigLoadError (list ThreadConfigSource) := Ok sources.
Definition noop_load (_ : ThreadConfigContext) : result ThreadConfigLoadError (list ThreadConfigSource) := Ok [].

End ThreadConfig.
Arguments SessionThreadConfig : clear implicits.
Arguments ThreadConfigSource : clear implicits.

(** ** Data of the loader *)

Record LoaderOverrides : Type := mkOverrides {
  managed_config_path : option str;
  system_config_path : option str;
  system_requirements_path : option str;
  ignore_user_config : bool;
  ignore_user_and_project_exec_policy_rules : bool;
}.

Record MangedConfigFromFile : Type := mkManagedFile { mf_managed_config : TomlValue; mf_file : str }.
Record ManagedConfigFromMdm : Type := mkManagedMdm { mm_managed_config : TomlValue; mm_raw_toml : str }.
Record LoadedConfigLayers : Type := mkLoaded {
  managed_config : option MangedConfigFromFile;
  managed_config_from_mdm : option ManagedConfigFromMdm;
}.

Record LegacyManagedConfigToml : Type := mkLegacy {
  lm_approval_policy : option AskForApproval;
  lm_approvals_reviewer : option ApprovalsReviewer;
  lm_sandbox_mode : option SandboxMode;
}.

(** What the code asks of [toml] and [serde]; the first argument of a
    conversion is the directory its relative paths are resolved against. *)
Class ConfigCodec `{TE : TomlErrors} : Type := {
  toml_from_str : str -> result toml_Error TomlValue;
  toml_error_display : toml_Error -> str;
  (** [toml::de::Deserializer::parse], and the document of [toml_edit] *)
  toml_check : str -> result toml_Error unit;
  toml_document : str -> option Item;
  (** a text as a [ConfigToml] *)
  config_toml_check : str -> str -> result (list SerdeSegment * toml_Error) unit;
  (** a value as a [ConfigToml], and that [ConfigToml] as a value *)
  config_toml_resolved : str -> TomlValue -> option (result str TomlValue);
  project_trust_config_toml : str -> TomlValue -> result toml_Error (option (gmap str ProjectConfig));
  requirements_from_str : str -> str -> result toml_Error ConfigRequirementsToml;
  legacy_managed_config_toml : TomlValue -> result toml_Error LegacyManagedConfigToml;
}.

Definition SYSTEM_CONFIG_TOML_FILE_UNIX : str := lit "/etc/codex/config.toml".
Definition CODEX_MANAGED_CONFIG_SYSTEM_PATH : str := lit "/etc/codex/managed_config.toml".

(** [impl From<LegacyManagedConfigToml> for ConfigRequirementsToml] *)
Definition requirements_from_legacy (legacy : LegacyManagedConfigToml) : ConfigRequirementsToml :=
  let reviewers := (fun approvals_reviewer =>
      [approvals_reviewer] ++ (if bool_decide (approvals_reviewer = AutoReview) then [ReviewUser] else []))
    <$> lm_approvals_reviewer legacy in
  let modes := (fun sandbox_mode =>
      let required_mode := mode_of_sandbox_mode sandbox_mode in
      [ModeReadOnly] ++ (if bool_decide (required_mode = ModeReadOnly) then [] else [required_mode]))
    <$> lm_sandbox_mode legacy in
  mkRequirementsToml ((fun approval_policy => [approval_policy]) <$> lm_approval_policy legacy)
    reviewers modes None None None None None None None None None None None.

(** ** Paths in a layer *)

(** The items of an array, each with the resolved item of its index *)
Definition copy_items (copy : TomlValue -> TomlValue -> TomlValue) (resolved_array : list TomlValue)
    : nat -> list TomlValue -> list TomlValue :=
  fix items (index : nat) (original_array : list TomlValue) : list TomlValue :=
    match original_array with
    | [] => []
    | original_value :: rest =>
        copy original_value (default original_value (resolved_array !! index)) :: items (S index) rest
    end.

(** Every field of the original, with the resolved value where there is one *)
Fixpoint copy_shape_from_original (original resolved : TomlValue) {struct original} : TomlValue :=
  match original, resolved with
  | TTable original_table, TTable resolved_table =>
      TTable (fold_left (fun table kv =>
        tbl_insert kv.1 (copy_shape_from_original kv.2 (default kv.2 (tbl_get kv.1 resolved_table))) table)
        original_table [])
  | TArray original_array, TArray resolved_array =>
      TArray (copy_items copy_shape_from_original resolved_array 0 original_array)
  | _, _ => resolved
  end.

Definition insert_layer_by_precedence (layers : list ConfigLayerEntry) (layer : ConfigLayerEntry)
    : list ConfigLayerEntry :=
  match list_find (fun existing => Z.gtb (precedence (le_name existing)) (precedence (le_name layer)) = true) layers with
  | Some (index, _) => take index layers ++ layer :: drop index layers
  | None => layers ++ [layer]
  end.

(** [scan]: the directories from the first to the root of the project *)
Fixpoint dirs_to_root (project_root : str) (dirs : list str) : list str :=
  match dirs with
  | [] => []
  | a :: dirs => a :: (if path_eqb a project_root then [] else dirs_to_root project_root dirs)
  end.

(** [Display] of [RequirementSource] and [ConstraintError] *)
Definition show_requirement_source (source : RequirementSource) : str :=
  match source with
  | SourceUnknown => lit "<unspecified>"
  | SourceMdmManagedPreferences domain key => lit "MDM " ++ domain ++ lit ":" ++ key
  | SourceCloudRequirements => lit "cloud requirements"
  | SourceSystemRequirementsToml file => file
  | SourceLegacyManagedConfigTomlFromFile file => file
  | SourceLegacyManagedConfigTomlFromMdm => lit "MDM managed_config.toml (legacy)"
  end.

Definition show_constraint_error (err : ConstraintError) : str :=
  match err with
  | InvalidValue field_name candidate allowed requirement_source =>
      lit "invalid value for `" ++ field_name ++ lit "`: `" ++ candidate ++ lit "` is not in the allowed set "
      ++ allowed ++ lit " (set by " ++ show_requirement_source requirement_source ++ lit ")"
  | EmptyField field_name => lit "field `" ++ field_name ++ lit "` cannot be empty"
  | ExecPolicyParse requirement_source reason =>
      lit "invalid rules in requirements (set by " ++ show_requirement_source requirement_source ++ lit "): " ++ reason
  end.

Definition io_error_of_constraint (err : ConstraintError) : io_Error :=
  io_error_new InvalidInput (show_constraint_error err).

Section Loader.
Context {Sandbox Fs : Type} `{FS : ExecutorFileSystem Sandbox Fs} {HO : Host} `{CC : ConfigCodec}.
Context (cfg_windows : bool).
Context (to_value : TomlValue -> option JsonValue) (to_vec : JsonValue -> option (list N))
  (sha256 : list N -> list N).
Context (debug : forall A : Type, A -> str) (wild_match : str -> str -> bool) (host_name : option str).
(** What [std::env::current_dir] fails with *)
Context (current_dir_error : io_Error).

Notation LayerEntry_new := (entry_new to_value to_vec sha256).

Definition from_absolute_path (path : str) : result io_Error str :=
  match absolute path with Some path => Ok path | None => Err current_dir_error end.

Definition read_text (path : str) : M Fs io_Error (result io_Error str) :=
  attempt (read_file_text path (None : option Sandbox)).

Definition resolve_relative_paths_in_config_toml (value_from_config_toml : TomlValue) (base_dir : str)
    : result io_Error TomlValue :=
  match config_toml_resolved base_dir value_from_config_toml with
  | None => Ok value_from_config_toml
  | Some resolved =>
      resolved_value ← map_err (fun e =>
        io_error_new InvalidData (lit "Failed to serialize resolved config: " ++ e)) resolved;
      Ok (copy_shape_from_original value_from_config_toml resolved_value)
  end.

(** ** [layer_io.rs] *)

Definition read_config_from_path (path : str) : M Fs io_Error (option TomlValue) :=
  contents ← read_text path;
  of_result (match contents with
  | Ok contents =>
      match toml_from_str contents with
      | Ok value => Ok (Some value)
      | Err err => Err (io_error_from_config_error InvalidData (config_error_from_toml path contents err))
      end
  | Err err => if bool_decide (io_kind err = NotFound) then Ok None else Err err
  end).

Definition managed_config_default_path : str := CODEX_MANAGED_CONFIG_SYSTEM_PATH.

Definition load_config_layers_internal (overrides : LoaderOverrides) : M Fs io_Error LoadedConfigLayers :=
  managed_config_path ← of_result (from_absolute_path
    (default managed_config_default_path (managed_config_path overrides)));
  managed_config ← read_config_from_path managed_config_path;
  mret (mkLoaded ((fun managed_config => mkManagedFile managed_config managed_config_path) <$> managed_config) None).

(** ** Files of the system and the user *)

Definition system_requirements_toml_file : result io_Error str := from_absolute_path (lit "/etc/codex/requirements.toml").
Definition system_requirements_toml_file_with_overrides (overrides : LoaderOverrides) : result io_Error str :=
  match system_requirements_path overrides with
  | Some path => from_absolute_path path
  | None => system_requirements_toml_file
  end.

Definition system_config_toml_file : result io_Error str := from_absolute_path SYSTEM_CONFIG_TOML_FILE_UNIX.
Definition system_config_toml_file_with_overrides (overrides : LoaderOverrides) : result io_Error str :=
  match system_config_path overrides with
  | Some path => from_absolute_path path
  | None => system_config_toml_file
  end.

(** The configuration that the reading of a required file gives *)
Definition required_config (toml_file : str) (contents : result io_Error str) : result io_Error TomlValue :=
  match contents with
  | Ok contents =>
      config ← map_err (fun err =>
          io_error_from_config_error InvalidData (config_error_from_toml toml_file contents err))
        (toml_from_str contents);
      match parent toml_file with
      | None => Err (io_error_new InvalidData (lit "Config file " ++ toml_file ++ lit " has no parent directory"))
      | Some config_parent => resolve_relative_paths_in_config_toml config config_parent
      end
  | Err e =>
      if bool_decide (io_kind e = NotFound) then Ok (TTable [])
      else Err (io_error_new (io_kind e)
                  (lit "Failed to read config file " ++ toml_file ++ lit ": " ++ io_message e))
  end.

Definition load_config_toml_for_required_layer (toml_file : str) (create_entry : TomlValue -> ConfigLayerEntry)
    : M Fs io_Error ConfigLayerEntry :=
  contents ← read_text toml_file;
  toml_value ← of_result (required_config toml_file contents);
  mret (create_entry toml_value).

(** ** Requirements *)

Definition merge_requirements := merge_requirements_with_remote_sandbox_config wild_match host_name.

Definition load_requirements_toml (config_requirements_toml : ConfigRequirementsWithSources)
    (requirements_toml_file : str) : M Fs io_Error ConfigRequirementsWithSources :=
  contents ← read_text requirements_toml_file;
  of_result (match contents with
  | Ok contents =>
      match parent requirements_toml_file with
      | None => Err (io_error_new InvalidData
                  (lit "Requirements file " ++ requirements_toml_file ++ lit " has no parent directory"))
      | Some requirements_parent =>
          requirements_config ← map_err (fun e => io_error_new InvalidData
              (lit "Error parsing requirements file " ++ requirements_toml_file ++ lit ": " ++ toml_error_display e))
            (requirements_from_str requirements_parent contents);
          Ok (merge_requirements config_requirements_toml (SourceSystemRequirementsToml requirements_toml_file)
                requirements_config)
      end
  | Err e =>
      if bool_decide (io_kind e = NotFound) then Ok config_requirements_toml
      else Err (io_error_new (io_kind e)
                  (lit "Failed to read requirements file " ++ requirements_toml_file ++ lit ": " ++ io_message e))
  end).

(** The managed configurations, the strongest first *)
Definition legacy_sources (loaded : LoadedConfigLayers) : list (RequirementSource * TomlValue) :=
  option_list ((fun config => (SourceLegacyManagedConfigTomlFromMdm, mm_managed_config config))
    <$> managed_config_from_mdm loaded)
  ++ option_list ((fun c => (SourceLegacyManagedConfigTomlFromFile (mf_file c), mf_managed_config c))
       <$> managed_config loaded).

Fixpoint merge_legacy (config_requirements_toml : ConfigRequirementsWithSources)
    (sources : list (RequirementSource * TomlValue)) : result io_Error ConfigRequirementsWithSources :=
  match sources with
  | [] => Ok config_requirements_toml
  | (source, config) :: sources =>
      legacy_config ← map_err (fun err => io_error_new InvalidData
          (lit "Failed to parse config requirements as TOML: " ++ toml_error_display err))
        (legacy_managed_config_toml config);
      merge_legacy (merge_requirements config_requirements_toml source (requirements_from_legacy legacy_config)) sources
  end.

Definition load_requirements_from_legacy_scheme (config_requirements_toml : ConfigRequirementsWithSources)
    (loaded : LoadedConfigLayers) : result io_Error ConfigRequirementsWithSources :=
  merge_legacy config_requirements_toml (legacy_sources loaded).

(** ** Layers of the project *)

Definition project_layer_entry (dot_codex_folder : str) (config : TomlValue) (disabled_reason : option str)
    : ConfigLayerEntry :=
  let source := Project dot_codex_folder in
  match disabled_reason with
  | Some reason => entry_new_disabled to_value to_vec sha256 source config reason
  | None => LayerEntry_new source config
  end.

(** The layer of a folder whose [config.toml] was read *)
Definition project_layer_of (dot_codex_abs : str) (decision : ProjectTrustDecision) (disabled_reason : option str)
    (contents : result io_Error str) : result io_Error ConfigLayerEntry :=
  let config_file := join_abs dot_codex_abs CONFIG_TOML_FILE in
  match contents with
  | Ok contents =>
      match toml_from_str contents with
      | Err e =>
          if is_trusted decision then
            Err (io_error_new InvalidData
                   (lit "Error parsing project config file " ++ config_file ++ lit ": " ++ toml_error_display e))
          else Ok (project_layer_entry dot_codex_abs (TTable []) disabled_reason)
      | Ok config =>
          config ← resolve_relative_paths_in_config_toml config dot_codex_abs;
          Ok (project_layer_entry dot_codex_abs config disabled_reason)
      end
  | Err err =>
      if bool_decide (io_kind err = NotFound)
      then Ok (project_layer_entry dot_codex_abs (TTable []) disabled_reason)
      else Err (io_error_new (io_kind err)
                  (lit "Failed to read project config file " ++ config_file ++ lit ": " ++ io_message err))
  end.

(** One turn of the loop: [None] is a [continue] without a layer. *)
Definition load_project_layer (trust_context : ProjectTrustContext) (codex_home_abs codex_home_normalized dir : str)
    : M Fs io_Error (option ConfigLayerEntry) :=
  let dot_codex_abs := join_abs dir (lit ".codex") in
  metadata ← metadata_of (Sandbox := Sandbox) dot_codex_abs;
  if negb (match metadata with Ok metadata => md_is_directory metadata | Err _ => false end) then mret None
  else
    let decision := decision_for_dir cfg_windows trust_context dir in
    let disabled_reason := disabled_reason_for_decision trust_context decision in
    let dot_codex_normalized := default dot_codex_abs (h_canonicalize dot_codex_abs) in
    if path_eqb dot_codex_abs codex_home_abs || path_eqb dot_codex_normalized codex_home_normalized then mret None
    else
      contents ← read_text (join_abs dot_codex_abs CONFIG_TOML_FILE);
      layer ← of_result (project_layer_of dot_codex_abs decision disabled_reason contents);
      mret (Some layer).

Fixpoint load_layers_of_dirs (trust_context : ProjectTrustContext) (codex_home_abs codex_home_normalized : str)
    (dirs : list str) : M Fs io_Error (list ConfigLayerEntry) :=
  match dirs with
  | [] => mret []
  | dir :: dirs =>
      layer ← load_project_layer trust_context codex_home_abs codex_home_normalized dir;
      layers ← load_layers_of_dirs trust_context codex_home_abs codex_home_normalized dirs;
      mret (option_list layer ++ layers)
  end.

Definition load_project_layers (cwd project_root : str) (trust_context : ProjectTrustContext) (codex_home : str)
    : M Fs io_Error (list ConfigLayerEntry) :=
  codex_home_abs ← of_result (from_absolute_path codex_home);
  let codex_home_normalized := default codex_home_abs (h_canonicalize codex_home_abs) in
  load_layers_of_dirs trust_context codex_home_abs codex_home_normalized
    (rev (dirs_to_root project_root (ancestors cwd))).

(** ** All the layers *)

Definition first_layer_error (layers : list ConfigLayerEntry) : option ConfigError :=
  first_layer_config_error_from_entries toml_document toml_check config_toml_check layers CONFIG_TOML_FILE.

(** An error of the merged configuration is replaced by that of a file. *)
Definition or_layer_error {A} (layers : list ConfigLayerEntry) (err : io_Error) : M Fs io_Error A :=
  throw (match first_layer_error layers with
         | Some config_error => io_error_from_config_error InvalidData config_error
         | None => err
         end).

Definition merged_for_trust (layers : list ConfigLayerEntry) (cli_overrides_layer : option TomlValue) : TomlValue :=
  let merged_so_far := fold_left (fun merged layer => merge_toml_values merged (le_config layer)) layers (TTable []) in
  match cli_overrides_layer with
  | Some cli_overrides_layer => merge_toml_values merged_so_far cli_overrides_layer
  | None => merged_so_far
  end.

Definition layers_of_project (layers : list ConfigLayerEntry) (cli_overrides_layer : option TomlValue)
    (codex_home user_file cwd : str) : M Fs io_Error (list ConfigLayerEntry) :=
  let merged_so_far := merged_for_trust layers cli_overrides_layer in
  project_root_markers ←
    (match project_root_markers_from_config merged_so_far with
     | Ok markers => mret (default default_project_root_markers markers)
     | Err err => or_layer_error layers err
     end);
  context ← catch
    (project_trust_context (Sandbox := Sandbox) cfg_windows project_trust_config_toml toml_error_display
       merged_so_far cwd project_root_markers codex_home user_file)
    (or_layer_error layers);
  load_project_layers cwd (project_root context) context codex_home.

Definition cli_overrides_layer_of (cli_overrides : list (str * TomlValue)) (cwd : option str) (codex_home : str)
    : result io_Error (option TomlValue) :=
  if is_empty cli_overrides then Ok None
  else
    layer ← resolve_relative_paths_in_config_toml (build_cli_overrides_layer cli_overrides) (default codex_home cwd);
    Ok (Some layer).

Definition system_layer (overrides : LoaderOverrides) : M Fs io_Error ConfigLayerEntry :=
  system_config_toml_file ← of_result (system_config_toml_file_with_overrides overrides);
  load_config_toml_for_required_layer system_config_toml_file (LayerEntry_new (System system_config_toml_file)).

Definition user_layer (ignore_user_config : bool) (user_file : str) : M Fs io_Error ConfigLayerEntry :=
  if ignore_user_config then mret (LayerEntry_new (User user_file) (TTable []))
  else load_config_toml_for_required_layer user_file (LayerEntry_new (User user_file)).

Definition managed_layers (loaded : LoadedConfigLayers) (codex_home : str) : result io_Error (list ConfigLayerEntry) :=
  from_file ← (match managed_config loaded with
    | None => Ok []
    | Some config =>
        match parent (mf_file config) with
        | None => Err (io_error_new InvalidData
                         (lit "Managed config file " ++ mf_file config ++ lit " has no parent directory"))
        | Some managed_parent =>
            managed_config ← resolve_relative_paths_in_config_toml (mf_managed_config config) managed_parent;
            Ok [LayerEntry_new (LegacyManagedConfigTomlFromFile (mf_file config)) managed_config]
        end
    end);
  from_mdm ← (match managed_config_from_mdm loaded with
    | None => Ok []
    | Some config =>
        managed_config ← resolve_relative_paths_in_config_toml (mm_managed_config config) codex_home;
        Ok [entry_new_with_raw_toml to_value to_vec sha256 LegacyManagedConfigTomlFromMdm managed_config
              (mm_raw_toml config)]
    end);
  Ok (from_file ++ from_mdm).

(** The order of the layers *)
Definition assemble (system user : ConfigLayerEntry) (projects : list ConfigLayerEntry)
    (cli_overrides_layer : option TomlValue) (thread managed : list ConfigLayerEntry) : list ConfigLayerEntry :=
  let layers := [system; user] ++ projects
    ++ option_list (LayerEntry_new SessionFlags <$> cli_overrides_layer) in
  fold_left insert_layer_by_precedence thread layers ++ managed.

Notation Stack := (@ConfigLayerStack ConfigRequirements ConfigRequirementsToml).

Definition stack_of (overrides : LoaderOverrides) (layers : list ConfigLayerEntry)
    (config_requirements_toml : ConfigRequirementsWithSources) : result io_Error Stack :=
  requirements ← map_err io_error_of_constraint (try_from debug config_requirements_toml);
  stack ← map_err (io_error_new InvalidData)
    (stack_new layers requirements (into_toml config_requirements_toml));
  Ok (with_user_and_project_exec_policy_rules_ignored stack (ignore_user_and_project_exec_policy_rules overrides)).

(** [cloud] is what the loader of cloud requirements gives, or the message of
    its error; [thread_layers] what the loader of the thread's settings gives. *)
Definition load_config_layers_state (codex_home : str) (cwd : option str) (cli_overrides : list (str * TomlValue))
    (overrides : LoaderOverrides) (cloud : result str (option ConfigRequirementsToml))
    (thread_layers : ThreadConfigContext -> result ThreadConfigLoadError (list ConfigLayerEntry))
    : M Fs io_Error Stack :=
  cloud ← of_result (map_err (io_error_new Other) cloud);
  let reqs := match cloud with
              | Some requirements => merge_requirements with_sources_default SourceCloudRequirements requirements
              | None => with_sources_default
              end in
  requirements_toml_file ← of_result (system_requirements_toml_file_with_overrides overrides);
  reqs ← load_requirements_toml reqs requirements_toml_file;
  loaded_config_layers ← load_config_layers_internal overrides;
  reqs ← of_result (load_requirements_from_legacy_scheme reqs loaded_config_layers);
  thread_config_layers ← of_result (map_err (fun err => io_error_new Other (te_message err))
    (thread_layers (mkThreadContext None cwd)));
  cli_overrides_layer ← of_result (cli_overrides_layer_of cli_overrides cwd codex_home);
  system ← system_layer overrides;
  let user_file := resolve_path_against_base h_home_dir CONFIG_TOML_FILE codex_home in
  user ← user_layer (ignore_user_config overrides) user_file;
  projects ← (match cwd with
              | Some cwd => layers_of_project [system; user] cli_overrides_layer codex_home user_file cwd
              | None => mret []
              end);
  managed ← of_result (managed_layers loaded_config_layers codex_home);
  of_result (stack_of overrides
    (assemble system user projects cli_overrides_layer thread_config_layers managed) reqs).

End Loader.

(** ** Paths in a layer *)

Lemma copy_table ot rt : sorted_tbl ot ->
  copy_shape_from_original (TTable ot) (TTable rt) =
  TTable (imap_values (fun k v => copy_shape_from_original v (default v (tbl_get k rt))) ot).
Proof.
  intros Hs. cbn [copy_shape_from_original]. f_equal.
  by rewrite (fold_insert_sorted (fun k v => copy_shape_from_original v (default v (tbl_get k rt))) ot []).
Qed.

Lemma copy_items_same copy pre l : Forall (fun x => copy x x = x) l ->
  copy_items copy (pre ++ l) (length pre) l = l.
Proof.
  revert pre. induction l as [|x l IH]; intros pre; [done|]. intros [Hx Hl]%Forall_cons. cbn [copy_items].
  rewrite lookup_app_r, Nat.sub_diag by done. simpl. rewrite Hx. f_equal.
  specialize (IH (pre ++ [x]) Hl). rewrite <- app_assoc, length_app in IH. simpl in IH.
  by rewrite Nat.add_1_r in IH.
Qed.

Lemma imap_values_id {V} (f : str -> V -> V) (t : list (str * V)) :
  Forall (fun kv => f kv.1 kv.2 = kv.2) t -> imap_values f t = t.
Proof.
  unfold imap_values. induction t as [|[k v] t IH]; [done|]. intros [Hv Ht]%Forall_cons. simpl in *.
  by rewrite Hv, IH.
Qed.

Lemma copy_same v : toml_wf v = true -> copy_shape_from_original v v = v.
Proof.
  induction v as [v Hv|items IH|t IH] using toml_ind'; intros Hwf.
  - by destruct v.
  - apply wf_array in Hwf. cbn [copy_shape_from_original]. f_equal. apply (copy_items_same _ []).
    eapply Forall_impl; [exact (proj2 (Forall_and _ _) (conj IH Hwf))|]. simpl. intros x [H Hx]. by apply H.
  - pose proof Hwf as [Hs Hw]%wf_table. rewrite copy_table by done. f_equal. apply imap_values_id.
    apply Forall_forall. intros [k v] Hin. simpl.
    rewrite (proj2 (sorted_get _ _ _ Hs) Hin). simpl. rewrite Forall_forall in IH. apply (IH _ Hin).
    rewrite Forall_forall in Hw. by apply (Hw _ Hin).
Qed.

(** Down a path, the two values are both tables or neither is one. *)
Fixpoint same_tables (p : list str) (original resolved : TomlValue) : Prop :=
  match original, resolved with
  | TTable ot, TTable rt =>
      match p with
      | [] => True
      | k :: p => match tbl_get k ot, tbl_get k rt with Some v, Some w => same_tables p v w | _, _ => True end
      end
  | TTable _, _ | _, TTable _ => False
  | _, _ => True
  end.

Lemma same_tables_self p v : same_tables p v v.
Proof.
  revert v. induction p as [|k p IH]; intros [| | | | | |t]; simpl; try done. by destruct (tbl_get k t).
Qed.

(** Resolving the paths of a layer loses no setting and adds none: where the
    typed configuration, written back, still has the setting its value is
    taken; everything that it does not know is left as it was. *)
Theorem resolved_config_spec (original resolved : TomlValue) (p : list str) :
  toml_wf original = true -> same_tables p original resolved ->
  let copied := copy_shape_from_original original resolved in
  (tget p original = None -> tget p copied = None) /\
  (forall v, tget p original = Some v -> is_scalar v = true ->
     tget p copied = Some (default v (tget p resolved))).
Proof.
  intros Hwf Hs. cbn zeta. revert original resolved Hwf Hs. induction p as [|k p IH]; intros o r Hwf Hs.
  - split; [done|]. intros v [= ->] Hv. by destruct v, r.
  - destruct o as [| | | | |items|ot]; [split; [|done]; destruct r; done..| |].
    { split; [|done]. by destruct r. }
    destruct r as [| | | | | |rt]; try done. pose proof Hwf as [Hsort Hvals]%wf_table.
    rewrite copy_table by done. cbn [tget same_tables] in *. rewrite tbl_get_imap_values.
    destruct (tbl_get k ot) as [v|] eqn:Ek; [|split; [done|done]]. cbn [fmap option_fmap option_map mbind option_bind].
    assert (toml_wf v = true) as Hv.
    { apply tbl_get_Some_elem in Ek. rewrite Forall_forall in Hvals. by apply (Hvals _ Ek). }
    destruct (tbl_get k rt) as [w|]; cbn [default option_bind]; [by apply IH|].
    destruct (IH v v Hv (same_tables_self _ _)) as [Hn Hd]. split; [done|]. intros x Hx Hsc.
    rewrite (Hd x Hx Hsc), Hx. done.
Qed.

Lemma resolved_config_spec_witness :
  let original := TTable [(lit "file", TString (lit "./a")); (lit "foo", TString (lit "x"))] in
  let resolved := TTable [(lit "file", TString (lit "/w/a"))] in
  tget [lit "file"] (copy_shape_from_original original resolved) = Some (TString (lit "/w/a")) /\
  tget [lit "foo"] (copy_shape_from_original original resolved) = Some (TString (lit "x")).
Proof.
  intros original resolved. split.
  - by apply (proj2 (resolved_config_spec original resolved [lit "file"] eq_refl I) (TString (lit "./a"))).
  - by apply (proj2 (resolved_config_spec original resolved [lit "foo"] eq_refl I) (TString (lit "x"))).
Defined.

(** ** The order of the layers *)

Lemma insert_at_end layers layer : Forall (fun l => (precedence (le_name l) <= precedence (le_name layer))%Z) layers ->
  insert_layer_by_precedence layers layer = layers ++ [layer].
Proof.
  intros H. unfold insert_layer_by_precedence. destruct (list_find _ _) as [[i x]|] eqn:E; [|done].
  apply list_find_Some in E as (Hi & Hx & _). rewrite Forall_lookup in H. specialize (H _ _ Hi).
  apply Z.gtb_lt in Hx. lia.
Qed.

(** Session settings of the thread come after those of the command line. *)
Lemma insert_session_layers thread layers :
  Forall (fun l => le_name l = SessionFlags) thread ->
  Forall (fun l => (precedence (le_name l) <= 30)%Z) layers ->
  fold_left insert_layer_by_precedence thread layers = layers ++ thread.
Proof.
  revert layers. induction thread as [|layer thread IH]; intros layers Ht Hl; [by rewrite app_nil_r|].
  apply Forall_cons in Ht as [Hlayer Ht]. cbn [fold_left]. rewrite insert_at_end.
  - rewrite IH; [by rewrite <- app_assoc|done|]. apply Forall_app. split; [done|]. by rewrite Forall_singleton, Hlayer.
  - by rewrite Hlayer.
Qed.

(** [d'] is a normalised directory, and [d] one of those above it. *)
Definition above (d d' : str) : Prop :=
  exists segs k k', Forall good_seg segs /\ k < k' <= length segs /\
    d = render_abs (take k segs) /\ d' = render_abs (take k' segs).

Lemma prefix_sublist {A} (l k : list A) : l `prefix_of` k -> rev l `sublist_of` rev k.
Proof. intros [r ->]. rewrite rev_app_distr. apply sublist_inserts_l. done. Qed.

Lemma dirs_to_root_prefix root dirs : dirs_to_root root dirs `prefix_of` dirs.
Proof.
  induction dirs as [|a dirs IH]; [done|]. cbn [dirs_to_root]. destruct (path_eqb a root).
  - apply prefix_cons, prefix_nil.
  - by apply prefix_cons.
Qed.

Lemma elem_of_prefix {A} (x : A) l k : x ∈ l -> l `prefix_of` k -> x ∈ k.
Proof. intros Hx [r ->]. apply elem_of_app. by left. Qed.

Lemma ancestors_above cwd : normal_abs cwd -> StronglySorted above (rev (ancestors cwd)).
Proof.
  intros (segs & Hs & ->). rewrite ancestors_render, <- map_rev, rev_involutive by done.
  assert (forall n i, i + n <= S (length segs) ->
    StronglySorted above (map (fun k => render_abs (take k segs)) (seq i n))) as H; [|by apply (H _ 0)].
  intros n. induction n as [|n IH]; intros i Hi; cbn [seq map]; constructor; [apply IH; lia|].
  apply Forall_map, Forall_forall. intros k Hk%list_elem_of_In%in_seq.
  exists segs, i, k. repeat split; [done|lia|lia].
Qed.

Lemma project_dirs_above cwd root : normal_abs cwd ->
  StronglySorted above (rev (dirs_to_root root (ancestors cwd))).
Proof.
  intros Hc. eapply sublist_StronglySorted; [|by apply ancestors_above].
  apply prefix_sublist, dirs_to_root_prefix.
Qed.

Section Order.
Context {HO : Host}.
Definition dot_codex (dir : str) : str := join_abs dir (lit ".codex").

Lemma dot_codex_seg : good_seg (lit ".codex").
Proof. apply (bool_decide_unpack _); by vm_compute. Qed.

Lemma dot_codex_render segs : Forall good_seg segs -> dot_codex (render_abs segs) = render_abs (segs ++ [lit ".codex"]).
Proof. intros Hs. apply abs_join_name; [done|apply dot_codex_seg|done]. Qed.

Lemma above_project_before d d' : above d d' -> project_before (dot_codex d) (dot_codex d').
Proof.
  intros (segs & k & k' & Hs & Hk & -> & ->).
  assert (forall n, Forall good_seg (take n segs)) as Ht by (intros n; by apply Forall_take).
  assert (forall n, Forall good_seg (take n segs ++ [lit ".codex"])) as Htc.
  { intros n. apply Forall_app. split; [done|]. apply Forall_singleton, dot_codex_seg. }
  rewrite !dot_codex_render by done. exists (render_abs (take k segs)). split.
  { apply parent_render_abs; [done|apply dot_codex_seg]. }
  split.
  - apply not_true_iff_false. rewrite path_eqb_spec, !components_render_abs by done.
    intros E. apply (f_equal length) in E. simpl in E. rewrite !length_map, !length_app, !length_take in E.
    simpl in E. lia.
  - apply existsb_exists. exists (render_abs (take k segs)). split; [|apply path_eqb_refl].
    rewrite ancestors_render by done. apply in_map_iff. exists k. split.
    + f_equal. rewrite take_app_le, take_take; [f_equal; lia|]. rewrite length_take. lia.
    + rewrite <- in_rev. apply in_seq. rewrite length_app, length_take. simpl. lia.
Qed.

(** The layers of a project, as they are loaded: of folders on the way from the
    root to the working directory. *)
Definition project_layers_ok (cwd root : str) (projects : list ConfigLayerEntry) : Prop :=
  exists dirs, dirs `sublist_of` rev (dirs_to_root root (ancestors cwd)) /\
    map le_name projects = map (fun dir => Project (dot_codex dir)) dirs.

Lemma projects_sorted cwd root projects : normal_abs cwd -> project_layers_ok cwd root projects ->
  Sorted project_before (omap project_folder projects).
Proof.
  intros Hc (dirs & Hsub & Hnames).
  assert (omap project_folder projects = map dot_codex dirs) as ->.
  { clear Hsub. revert dirs Hnames. induction projects as [|p projects IH]; intros [|d dirs]; try done.
    cbn [map]. intros [= Hp Hnames]. unfold omap in *. simpl. unfold project_folder at 1. rewrite Hp. f_equal.
    by apply IH. }
  apply StronglySorted_Sorted.
  pose proof (sublist_StronglySorted _ _ _ Hsub (project_dirs_above cwd root Hc)) as Hs.
  clear Hnames Hsub. induction Hs as [|d dirs Hs IH Hd]; cbn [map]; constructor; [done|].
  apply Forall_map. eapply Forall_impl; [exact Hd|]. intros d' Hd'. by apply above_project_before.
Qed.
Definition managed_ok (managed : list ConfigLayerEntry) : Prop :=
  StronglySorted precedence_le managed /\
  Forall (fun l => (30 <= precedence (le_name l))%Z) managed /\
  Forall (fun l => is_user (le_name l) = false /\ project_folder l = None) managed.

Lemma user_positions_none i layers : Forall (fun l => is_user (le_name l) = false) layers -> user_positions i layers = [].
Proof.
  revert i. induction layers as [|l layers IH]; intros i; [done|]. intros [Hl H]%Forall_cons. simpl. by rewrite Hl, IH.
Qed.

Lemma omap_none {A B} (f : A -> option B) l : Forall (fun x => f x = None) l -> omap f l = [].
Proof.
  induction l as [|x l IH]; [done|]. intros [Hx Hl]%Forall_cons. unfold omap in *. simpl. by rewrite Hx, IH.
Qed.

Lemma StronglySorted_app_le {A} (R : A -> A -> Prop) l k :
  StronglySorted R l -> StronglySorted R k -> (forall x y, x ∈ l -> y ∈ k -> R x y) -> StronglySorted R (l ++ k).
Proof.
  intros Hl Hk H. induction Hl as [|x l Hl IH Hx]; [done|]. simpl. constructor.
  - apply IH. intros y z Hy Hz. apply H; [by right|done].
  - apply Forall_app. split; [done|]. apply Forall_forall. intros y Hy. apply H; [by left|done].
Qed.

(** Layers of the same kind are sorted. *)
Lemma same_precedence_sorted (n : Z) layers : Forall (fun l => precedence (le_name l) = n) layers ->
  StronglySorted precedence_le layers.
Proof.
  induction layers as [|l layers IH]; [constructor|]. intros [Hl H]%Forall_cons. constructor; [by apply IH|].
  eapply Forall_impl; [exact H|]. intros l' Hl'. cbn beta in Hl'. unfold precedence_le. lia.
Qed.
End Order.

Section Assemble.
Context {HO : Host}.
Context (to_value : TomlValue -> option JsonValue) (to_vec : JsonValue -> option (list N))
  (sha256 : list N -> list N).
Context (system user : ConfigLayerEntry) (projects thread managed : list ConfigLayerEntry) (cli : option TomlValue).
Context (system_file user_file cwd root : str).
Context (Hsystem : le_name system = System system_file) (Huser : le_name user = User user_file).
Context (Hcwd : normal_abs cwd) (Hprojects : project_layers_ok cwd root projects).
Context (Hthread : Forall (fun l => le_name l = SessionFlags) thread) (Hmanaged : managed_ok managed).

Definition flag_layers : list ConfigLayerEntry :=
  option_list (entry_new to_value to_vec sha256 SessionFlags <$> cli) ++ thread.

Lemma flag_layers_names : Forall (fun l => le_name l = SessionFlags) flag_layers.
Proof. unfold flag_layers. apply Forall_app. split; [|done]. destruct cli; simpl; [by apply Forall_singleton|done]. Qed.

Lemma project_names : Forall (fun l => exists f, le_name l = Project f) projects.
Proof.
  destruct Hprojects as (dirs & _ & Hn). clear Hprojects. revert dirs Hn.
  induction projects as [|p ps IH]; intros [|d dirs]; try done. cbn [map]. intros [= Hp Hn].
  constructor; [eauto|by eapply IH].
Qed.

Lemma assemble_eq :
  assemble to_value to_vec sha256 system user projects cli thread managed =
  [system; user] ++ projects ++ flag_layers ++ managed.
Proof.
  unfold assemble. rewrite insert_session_layers; [unfold flag_layers; by rewrite <- !app_assoc|done|].
  rewrite !Forall_app, !Forall_cons, Hsystem, Huser. repeat split; [done|done|by apply Forall_nil| |].
  - eapply Forall_impl; [apply project_names|]. intros l [f ->]. done.
  - destruct cli; simpl; [by apply Forall_singleton|done].
Qed.

(** The layers that are loaded make a well-formed stack, with the user's second. *)
Lemma assembled_ok : layers_ok (assemble to_value to_vec sha256 system user projects cli thread managed) (Some 1).
Proof.
  rewrite assemble_eq. destruct Hmanaged as (Hsort & Hprec & Hkinds).
  assert (Forall (fun l => precedence (le_name l) = 25%Z) projects) as Hp25.
  { eapply Forall_impl; [apply project_names|]. intros l [f ->]. done. }
  assert (Forall (fun l => precedence (le_name l) = 30%Z) flag_layers) as Hf30.
  { eapply Forall_impl; [apply flag_layers_names|]. intros l ->. done. }
  split.
  - rewrite !Forall_forall in *. apply StronglySorted_app_le; [|apply StronglySorted_app_le|].
    + constructor; [by repeat constructor|]. constructor; [|done]. unfold precedence_le. by rewrite Hsystem, Huser.
    + eapply same_precedence_sorted, Forall_forall, Hp25.
    + apply StronglySorted_app_le; [eapply same_precedence_sorted, Forall_forall, Hf30|done|].
      intros x y Hx Hy. unfold precedence_le. rewrite (Hf30 _ Hx). by apply Hprec.
    + intros x y Hx [Hy|Hy]%elem_of_app; unfold precedence_le; rewrite (Hp25 _ Hx); [by rewrite (Hf30 _ Hy)|].
      specialize (Hprec _ Hy). simpl in Hprec. lia.
    + intros x y Hx Hy. assert (precedence (le_name x) <= 20)%Z as Hx20.
      { apply elem_of_cons in Hx as [->|Hx]; [by rewrite Hsystem|]. apply list_elem_of_singleton in Hx as ->. by rewrite Huser. }
      unfold precedence_le. rewrite !elem_of_app in Hy. destruct Hy as [Hy|[Hy|Hy]];
        [rewrite (Hp25 _ Hy)|rewrite (Hf30 _ Hy)|specialize (Hprec _ Hy); simpl in Hprec]; lia.
  - simpl. rewrite Hsystem, Huser. simpl. f_equal. apply user_positions_none. rewrite !Forall_app. repeat split.
    + eapply Forall_impl; [apply project_names|]. intros l [f ->]. done.
    + eapply Forall_impl; [apply flag_layers_names|]. intros l ->. done.
    + eapply Forall_impl; [apply Hkinds|]. by intros l [? ?].
  - rewrite !omap_app, (omap_none _ flag_layers), (omap_none _ managed), !app_nil_r.
    + assert (project_folder system = None /\ project_folder user = None) as [Es Eu].
      { unfold project_folder. by rewrite Hsystem, Huser. }
      rewrite (omap_none _ [system; user]) by by rewrite !Forall_cons. by apply (projects_sorted cwd root).
    + eapply Forall_impl; [apply Hkinds|]. by intros l [? ?].
    + eapply Forall_impl; [apply flag_layers_names|]. intros l Hl. unfold project_folder. by rewrite Hl.
Qed.
End Assemble.

(** ** Running the loader on a file system that does not change *)

Create HintDb stays.

Section Stays.
Context {S : Type} (s : S).

(** The computation returns, and leaves the state as it was. *)
Definition stays {E A} (m : M S E A) : Prop := exists r, m s = Some (s, r).

Lemma stays_ret {E A} (a : A) : stays (mret a : M S E A).
Proof. by eexists. Qed.
Lemma stays_throw {E A} (e : E) : stays (throw e : M S E A).
Proof. by eexists. Qed.
Lemma stays_of_result {E A} (r : result E A) : stays (of_result r : M S E A).
Proof. by eexists. Qed.
Lemma stays_bind {E A B} (m : M S E A) (f : A -> M S E B) : stays m -> (forall a, stays (f a)) -> stays (m ≫= f).
Proof. intros [[a|e] Hm] Hf; unfold stays, mbind, M_bind; rewrite Hm; [apply Hf|eauto]. Qed.
Lemma stays_catch {E F A} (m : M S E A) (h : E -> M S F A) : stays m -> (forall e, stays (h e)) -> stays (catch m h).
Proof. intros [[a|e] Hm] Hh; unfold stays, catch; rewrite Hm; [eauto|apply Hh]. Qed.
Lemma stays_attempt {E F A} (m : M S E A) : stays m -> stays (attempt m : M S F (result E A)).
Proof. intros [r Hm]. unfold stays, attempt. rewrite Hm. eauto. Qed.

Lemma stays_inv {E A B} (m : M S E A) (f : A -> M S E B) s' b : stays m ->
  (m ≫= f) s = Some (s', Ok b) -> exists a, m s = Some (s, Ok a) /\ f a s = Some (s', Ok b).
Proof. intros [[a|e] Hm]; unfold mbind, M_bind; rewrite Hm; [eauto|done]. Qed.

Lemma stays_inv_err {E A B} (m : M S E A) (f : A -> M S E B) s' e : stays m ->
  (m ≫= f) s = Some (s', Err e) -> m s = Some (s, Err e) \/ exists a, m s = Some (s, Ok a) /\ f a s = Some (s', Err e).
Proof. intros [[a|e'] Hm]; unfold mbind, M_bind; rewrite Hm; [eauto|]. intros [= <- <-]. by left. Qed.

Lemma of_result_inv {E A B} (r : result E A) (f : A -> M S E B) s' b :
  (of_result r ≫= f) s = Some (s', Ok b) -> exists a, r = Ok a /\ f a s = Some (s', Ok b).
Proof. unfold mbind, M_bind, of_result. destruct r; [eauto|done]. Qed.

Lemma of_result_inv_err {E A B} (r : result E A) (f : A -> M S E B) s' e :
  (of_result r ≫= f) s = Some (s', Err e) -> r = Err e \/ exists a, r = Ok a /\ f a s = Some (s', Err e).
Proof. unfold mbind, M_bind, of_result. destruct r; [eauto|]. intros [= <- <-]. by left. Qed.
End Stays.
#[export] Hint Resolve stays_ret stays_throw stays_of_result stays_bind stays_catch stays_attempt : stays.

Section Run.
Context {Sandbox Fs : Type} `{FS : ExecutorFileSystem Sandbox Fs} (s : Fs) {FZ : Frozen s} {HO : Host} `{CC : ConfigCodec}.
Context (cfg_windows : bool).
Context (to_value : TomlValue -> option JsonValue) (to_vec : JsonValue -> option (list N))
  (sha256 : list N -> list N).
Context (debug : forall A : Type, A -> str) (wild_match : str -> str -> bool) (host_name : option str).
Context (current_dir_error : io_Error).

Lemma stays_metadata {E} path : stays s (metadata_of path : M Fs E _).
Proof. unfold metadata_of. eexists. unfold attempt, call. by rewrite frozen_metadata. Qed.
Lemma stays_read path : stays s (read_text path).
Proof. unfold read_text. apply stays_attempt. eexists. apply run_read. Qed.
#[local] Hint Resolve stays_metadata stays_read : stays.

(** The trust context of a working directory, as the disk is *)
Definition project_root_at (cwd : str) (markers : list str) : str :=
  default cwd (find (fun dir => existsb (fun marker => exists_at s (join_abs dir marker)) markers) (ancestors cwd)).

Definition trust_context_at (merged : TomlValue) (cwd : str) (markers : list str) (codex_home user_file : str)
    : result io_Error ProjectTrustContext :=
  projects ← map_err (fun err => io_error_new InvalidData (toml_error_display err))
    (project_trust_config_toml codex_home merged);
  let root := project_root_at cwd markers in
  let root_keys := normalized_project_trust_keys cfg_windows root in
  let repo_keys := normalized_project_trust_keys cfg_windows <$> repository_of s cwd in
  Ok (mkTrustContext root (default (project_trust_key cfg_windows root) (head root_keys)) root_keys
        (repo_keys ≫= head) repo_keys (trust_levels (default ∅ projects)) user_file).

Lemma run_trust_context merged cwd markers codex_home user_file :
  project_trust_context (Sandbox := Sandbox) cfg_windows project_trust_config_toml toml_error_display
    merged cwd markers codex_home user_file s =
  Some (s, trust_context_at merged cwd markers codex_home user_file).
Proof.
  unfold project_trust_context, trust_context_at. destruct (project_trust_config_toml codex_home merged) as [p|e]; [|done].
  cbn [map_err]. erewrite run_bind by reflexivity. erewrite run_bind by apply run_find_project_root. erewrite run_bind by apply run_resolve_root.
  done.
Qed.

(** ** What the files hold *)

(** The configuration of a file, as a layer has it: none is an empty one. *)
Definition config_at (file : str) (config : TomlValue) : Prop :=
  match text_at s file with
  | Ok text => exists v dir, toml_from_str text = Ok v /\ parent file = Some dir /\
      resolve_relative_paths_in_config_toml v dir = Ok config
  | Err e => io_kind e = NotFound /\ config = TTable []
  end.

Lemma required_config_at file config : required_config file (text_at s file) = Ok config -> config_at file config.
Proof.
  unfold required_config, config_at. destruct (text_at s file) as [text|e].
  - intros (v & Hv%map_err_Ok & H)%result_bind_Ok. destruct (parent file); [eauto|done].
  - case_bool_decide; [|done]. by intros [= <-].
Qed.

(** The requirements of the system's file, if there is one *)
Definition requirements_at (file : str) (system : option (str * ConfigRequirementsToml)) : Prop :=
  match text_at s file with
  | Ok text => exists dir t, parent file = Some dir /\ requirements_from_str dir text = Ok t /\ system = Some (file, t)
  | Err e => io_kind e = NotFound /\ system = None
  end.

(** ** The layers of the project *)

(** A directory with a layer: it has a [.codex] that is not that of the user. *)
Definition has_layer (codex_home dir : str) : bool :=
  is_dir_at s (dot_codex dir) &&
  negb (path_eqb (dot_codex dir) codex_home
        || path_eqb (default (dot_codex dir) (h_canonicalize (dot_codex dir)))
             (default codex_home (h_canonicalize codex_home))).

(** The layer of a directory: it is enabled exactly if the directory is
    trusted, and holds what the file says. *)
Definition layer_of_dir (context : ProjectTrustContext) (dir : str) (layer : ConfigLayerEntry) : Prop :=
  le_name layer = Project (dot_codex dir) /\
  (is_disabled layer = false <-> is_trusted (decision_for_dir cfg_windows context dir) = true) /\
  match text_at s (join_abs (dot_codex dir) CONFIG_TOML_FILE) with
  | Ok text =>
      match toml_from_str text with
      | Ok v => resolve_relative_paths_in_config_toml v (dot_codex dir) = Ok (le_config layer)
      | Err _ => is_disabled layer = true /\ le_config layer = TTable []
      end
  | Err e => io_kind e = NotFound /\ le_config layer = TTable []
  end.

Lemma entry_of_dir context dir config :
  let layer := project_layer_entry to_value to_vec sha256 (dot_codex dir) config
     (disabled_reason_for_decision context (decision_for_dir cfg_windows context dir)) in
  le_name layer = Project (dot_codex dir) /\ le_config layer = config /\
  (is_disabled layer = false <-> is_trusted (decision_for_dir cfg_windows context dir) = true).
Proof.
  cbn zeta. rewrite <- (disabled_reason_None context). by destruct (disabled_reason_for_decision _ _).
Qed.

Lemma project_layer_of_dir context dir layer :
  project_layer_of to_value to_vec sha256 (dot_codex dir) (decision_for_dir cfg_windows context dir)
    (disabled_reason_for_decision context (decision_for_dir cfg_windows context dir))
    (text_at s (join_abs (dot_codex dir) CONFIG_TOML_FILE)) = Ok layer ->
  layer_of_dir context dir layer.
Proof.
  unfold project_layer_of, layer_of_dir. destruct (text_at s _) as [text|err].
  - destruct (toml_from_str text) as [v|e].
    + destruct (resolve_relative_paths_in_config_toml _ _) as [config|]; [|done]. intros [= <-].
      by destruct (entry_of_dir context dir config) as (-> & -> & ?).
    + destruct (is_trusted _) eqn:Et; [done|]. intros [= <-].
      destruct (entry_of_dir context dir (TTable [])) as (-> & -> & H). rewrite Et in H.
      split_and!; [done|done| |done]. by destruct (is_disabled _); [|destruct (proj1 H)].
  - case_bool_decide; [|done]. intros [= <-]. by destruct (entry_of_dir context dir (TTable [])) as (-> & -> & ?).
Qed.

Lemma stays_project_layer context home home' dir :
  stays s (load_project_layer (Sandbox := Sandbox) cfg_windows to_value to_vec sha256 context home home' dir).
Proof.
  unfold load_project_layer. apply stays_bind; [apply stays_metadata|]. intros md.
  destruct (negb _); [apply stays_ret|]. destruct (_ || _); [apply stays_ret|]. eauto with stays.
Qed.

Lemma run_read_text path : read_text path s = Some (s, Ok (text_at s path)).
Proof. unfold read_text, attempt. by rewrite (run_read s). Qed.

Lemma load_project_layer_inv context home dir s' o :
  load_project_layer (Sandbox := Sandbox) cfg_windows to_value to_vec sha256 context home
    (default home (h_canonicalize home)) dir s = Some (s', Ok o) ->
  if has_layer home dir then exists layer, o = Some layer /\ layer_of_dir context dir layer else o = None.
Proof.
  unfold load_project_layer, has_layer, dot_codex, is_dir_at. rewrite (run_metadata s).
  destruct (match metadata_at _ with Ok _ => _ | Err _ => _ end) eqn:Ed; cbn [negb andb]; [|by intros [= _ <-]].
  destruct (_ || _); cbn [negb]; [by intros [= _ <-]|]. erewrite run_bind by apply run_read_text.
  intros (l & Hl & [= _ <-])%of_result_inv. exists l. split; [done|]. by apply project_layer_of_dir in Hl.
Qed.

Lemma stays_layers_of_dirs context home home' dirs :
  stays s (load_layers_of_dirs (Sandbox := Sandbox) cfg_windows to_value to_vec sha256 context home home' dirs).
Proof.
  induction dirs as [|dir dirs IH]; [apply stays_ret|]. cbn [load_layers_of_dirs].
  apply stays_bind; [apply stays_project_layer|]. eauto with stays.
Qed.

Lemma load_layers_of_dirs_inv context home dirs s' layers :
  load_layers_of_dirs (Sandbox := Sandbox) cfg_windows to_value to_vec sha256 context home
    (default home (h_canonicalize home)) dirs s = Some (s', Ok layers) ->
  Forall2 (layer_of_dir context) (List.filter (has_layer home) dirs) layers.
Proof.
  revert s' layers. induction dirs as [|dir dirs IH]; intros s' layers; cbn [load_layers_of_dirs List.filter].
  { by intros [= _ <-]. }
  intros H. apply stays_inv in H as (o & Ho & H); [|apply stays_project_layer].
  apply stays_inv in H as (rest & Hr & [= _ <-]); [|apply stays_layers_of_dirs].
  specialize (IH _ _ Hr). apply load_project_layer_inv in Ho.
  destruct (has_layer home dir); [|by subst o]. destruct Ho as (layer & -> & Hd). by constructor.
Qed.

Notation load_project_layers' := (load_project_layers (Sandbox := Sandbox) cfg_windows to_value to_vec sha256 current_dir_error).
Notation layers_of_project' := (layers_of_project (Sandbox := Sandbox) cfg_windows to_value to_vec sha256 current_dir_error).

Lemma stays_load_project_layers cwd root context home : stays s (load_project_layers' cwd root context home).
Proof.
  unfold load_project_layers. apply stays_bind; [apply stays_of_result|]. intros. apply stays_layers_of_dirs.
Qed.

Lemma stays_trust_context merged cwd markers codex_home user_file :
  stays s (project_trust_context (Sandbox := Sandbox) cfg_windows project_trust_config_toml toml_error_display
    merged cwd markers codex_home user_file).
Proof. eexists. apply run_trust_context. Qed.

Lemma stays_layers_of_project layers cli home user_file cwd : stays s (layers_of_project' layers cli home user_file cwd).
Proof.
  unfold layers_of_project, or_layer_error. apply stays_bind.
  { destruct (project_root_markers_from_config _); eauto with stays. }
  intros markers. apply stays_bind; [|intros; apply stays_load_project_layers].
  apply stays_catch; [apply stays_trust_context|eauto with stays].
Qed.

(** The layers of a project and the trust context that decided about them *)
Record project_part (base : list ConfigLayerEntry) (cli : option TomlValue) (codex_home user_file cwd : str)
    (context : ProjectTrustContext) (projects : list ConfigLayerEntry) : Prop := {
  pp_context : exists markers,
    project_root_markers_from_config (merged_for_trust base cli) = Ok markers /\
    trust_context_at (merged_for_trust base cli) cwd (default default_project_root_markers markers)
      codex_home user_file = Ok context;
  pp_layers : exists home, from_absolute_path current_dir_error codex_home = Ok home /\
    Forall2 (layer_of_dir context)
      (List.filter (has_layer home) (rev (dirs_to_root (project_root context) (ancestors cwd)))) projects;
}.

Lemma layers_of_project_inv base cli home user_file cwd s' projects :
  layers_of_project' base cli home user_file cwd s = Some (s', Ok projects) ->
  exists context, project_part base cli home user_file cwd context projects.
Proof.
  unfold layers_of_project, or_layer_error. intros H.
  apply stays_inv in H as (markers & Hm & H).
  2:{ destruct (project_root_markers_from_config _); eauto with stays. }
  apply stays_inv in H as (context & Hc & H).
  2:{ apply stays_catch; [apply stays_trust_context|eauto with stays]. }
  exists context. apply catch_Some in Hc as [(a & Hc & [= <-])|(s1 & e & _ & [=])].
  rewrite run_trust_context in Hc. injection Hc as Hc.
  destruct (project_root_markers_from_config _) as [o|e] eqn:Em; [|done]. injection Hm as <-.
  split; [by exists o|]. unfold load_project_layers in H.
  apply of_result_inv in H as (home' & Hh & H). apply load_layers_of_dirs_inv in H. eauto.
Qed.

Lemma project_part_ok base cli home user_file cwd context projects :
  project_part base cli home user_file cwd context projects ->
  project_layers_ok cwd (project_root context) projects.
Proof.
  intros [_ (home' & _ & HF)]. eexists. split; [apply (bool_filter_sublist (has_layer home'))|].
  induction HF as [|dir layer dirs projects [Hn _] HF IH]; [done|]. simpl. by rewrite Hn, IH.
Qed.

(** ** The managed file *)

Definition managed_file (overrides : LoaderOverrides) : str :=
  default managed_config_default_path (managed_config_path overrides).

(** The layer of the managed file, and its requirements *)
Definition managed_at (overrides : LoaderOverrides) (managed : list ConfigLayerEntry)
    (legacy : list (RequirementSource * LegacyManagedConfigToml)) : Prop :=
  exists file, from_absolute_path current_dir_error (managed_file overrides) = Ok file /\
  match text_at s file with
  | Ok text => exists v dir config requirements, toml_from_str text = Ok v /\ parent file = Some dir /\
      resolve_relative_paths_in_config_toml v dir = Ok config /\
      managed = [entry_new to_value to_vec sha256 (LegacyManagedConfigTomlFromFile file) config] /\
      legacy_managed_config_toml v = Ok requirements /\
      legacy = [(SourceLegacyManagedConfigTomlFromFile file, requirements)]
  | Err e => io_kind e = NotFound /\ managed = [] /\ legacy = []
  end.

Lemma internal_inv overrides s' loaded :
  load_config_layers_internal current_dir_error overrides s = Some (s', Ok loaded) ->
  exists file, from_absolute_path current_dir_error (managed_file overrides) = Ok file /\
  match text_at s file with
  | Ok text => exists v, toml_from_str text = Ok v /\ loaded = mkLoaded (Some (mkManagedFile v file)) None
  | Err e => io_kind e = NotFound /\ loaded = mkLoaded None None
  end.
Proof.
  unfold load_config_layers_internal. intros (file & Hf & H)%of_result_inv. exists file. split; [done|].
  unfold read_config_from_path, mbind, M_bind, of_result in H. rewrite run_read_text in H. cbn [mret] in H.
  destruct (text_at s file) as [text|e].
  - destruct (toml_from_str text) as [v|]; [|done]. cbn in H. injection H as _ <-. eauto.
  - case_bool_decide; [|done]. cbn in H. by injection H as _ <-.
Qed.

Lemma managed_layers_ok loaded home managed :
  managed_layers to_value to_vec sha256 loaded home = Ok managed -> managed_ok managed.
Proof.
  unfold managed_layers. intros (from_file & Hf & (from_mdm & Hm & [= <-])%result_bind_Ok)%result_bind_Ok.
  assert (from_file = [] \/ exists f v, from_file = [entry_new to_value to_vec sha256 (LegacyManagedConfigTomlFromFile f) v])
    as Hfile.
  { destruct (managed_config loaded) as [c|]; [|injection Hf as <-; by left]. destruct (parent _); [|done].
    apply result_bind_Ok in Hf as (v & _ & [= <-]). right. eauto. }
  assert (from_mdm = [] \/ exists v raw, from_mdm = [entry_new_with_raw_toml to_value to_vec sha256 LegacyManagedConfigTomlFromMdm v raw])
    as Hmdm.
  { destruct (managed_config_from_mdm loaded) as [c|]; [|injection Hm as <-; by left].
    apply result_bind_Ok in Hm as (v & _ & [= <-]). right. eauto. }
  destruct Hfile as [->|(f & v & ->)], Hmdm as [->|(w & raw & ->)]; split; simpl; try by repeat constructor.
  all: split; by repeat constructor.
Qed.

Notation load := (load_config_layers_state (Sandbox := Sandbox) cfg_windows to_value to_vec sha256 debug wild_match
  host_name current_dir_error).

Lemma stays_required file create : stays s (load_config_toml_for_required_layer file create).
Proof. unfold load_config_toml_for_required_layer. eauto with stays. Qed.
Lemma stays_requirements reqs file : stays s (load_requirements_toml wild_match host_name reqs file).
Proof. unfold load_requirements_toml. eauto with stays. Qed.
Lemma stays_internal overrides : stays s (load_config_layers_internal current_dir_error overrides).
Proof.
  unfold load_config_layers_internal, read_config_from_path. apply stays_bind; [apply stays_of_result|].
  intros path. apply stays_bind; [|eauto with stays]. apply stays_bind; [apply stays_read|eauto with stays].
Qed.
Lemma stays_system overrides : stays s (system_layer to_value to_vec sha256 current_dir_error overrides).
Proof. unfold system_layer. apply stays_bind; [apply stays_of_result|]. intros. apply stays_required. Qed.
Lemma stays_user ignore file : stays s (user_layer to_value to_vec sha256 ignore file).
Proof. unfold user_layer. destruct ignore; [apply stays_ret|apply stays_required]. Qed.
#[local] Hint Resolve stays_requirements stays_internal stays_system stays_user stays_layers_of_project : stays.

(** The loader returns, whatever the files hold. *)
Lemma load_returns codex_home cwd cli overrides cloud thread :
  stays s (load codex_home cwd cli overrides cloud thread).
Proof.
  unfold load_config_layers_state. repeat (apply stays_bind; [by eauto with stays|intros]).
  apply stays_bind; [destruct cwd; eauto with stays|]. eauto with stays.
Qed.

Lemma required_layer_inv file source s' layer :
  load_config_toml_for_required_layer file (entry_new to_value to_vec sha256 source) s = Some (s', Ok layer) ->
  exists config, config_at file config /\ layer = entry_new to_value to_vec sha256 source config.
Proof.
  unfold load_config_toml_for_required_layer. erewrite run_bind by apply run_read_text.
  intros (v & Hv%required_config_at & [= _ <-])%of_result_inv. eauto.
Qed.

(** ** The requirements *)

(** The requirements of a source, for this host *)
Definition for_this_host (t : ConfigRequirementsToml) : ConfigRequirementsToml :=
  if is_some (remote_sandbox_config t) then apply_remote_sandbox_config wild_match t host_name else t.

Definition requirement_sources (cloud : option ConfigRequirementsToml) (system : option (str * ConfigRequirementsToml))
    (legacy : list (RequirementSource * LegacyManagedConfigToml)) : list (RequirementSource * ConfigRequirementsToml) :=
  map (fun st => (st.1, for_this_host st.2))
    (option_list ((fun t => (SourceCloudRequirements, t)) <$> cloud)
     ++ option_list ((fun ft => (SourceSystemRequirementsToml ft.1, ft.2)) <$> system)
     ++ map (fun sl => (sl.1, requirements_from_legacy sl.2)) legacy).

Definition merged_from (reqs : ConfigRequirementsWithSources) (sources : list (RequirementSource * ConfigRequirementsToml))
    : ConfigRequirementsWithSources :=
  fold_left (fun acc st => merge_unset_fields acc st.1 st.2) sources reqs.

Lemma system_requirements_inv reqs file s' reqs' :
  load_requirements_toml wild_match host_name reqs file s = Some (s', Ok reqs') ->
  exists system, reqs' = merged_from reqs (requirement_sources None system []) /\ requirements_at file system.
Proof.
  unfold load_requirements_toml, requirements_at. erewrite run_bind by apply run_read_text. intros [= _ H].
  destruct (text_at s file) as [text|e].
  - destruct (parent file) as [dir|]; [|done]. apply result_bind_Ok in H as (t & Ht%map_err_Ok & [= <-]).
    exists (Some (file, t)). eauto 6.
  - case_bool_decide; [|done]. injection H as <-. by exists None.
Qed.

Lemma merge_legacy_inv reqs sources reqs' : merge_legacy wild_match host_name reqs sources = Ok reqs' ->
  exists legacy, reqs' = merged_from reqs (requirement_sources None None legacy) /\
    Forall2 (fun st sl => st.1 = sl.1 /\ legacy_managed_config_toml st.2 = Ok sl.2) sources legacy.
Proof.
  revert reqs. induction sources as [|[source config] sources IH]; intros reqs; cbn [merge_legacy].
  { intros [= <-]. exists []. split; [done|constructor]. }
  intros (legacy & Hl & H)%result_bind_Ok. apply map_err_Ok in Hl. apply IH in H as (rest & -> & HF).
  exists ((source, legacy) :: rest). split; [done|]. by constructor.
Qed.

(** The managed file is read once, for its layer and its requirements. *)
Lemma managed_inv overrides codex_home s' loaded reqs reqs' managed :
  load_config_layers_internal current_dir_error overrides s = Some (s', Ok loaded) ->
  load_requirements_from_legacy_scheme wild_match host_name reqs loaded = Ok reqs' ->
  managed_layers to_value to_vec sha256 loaded codex_home = Ok managed ->
  exists legacy, reqs' = merged_from reqs (requirement_sources None None legacy) /\ managed_at overrides managed legacy.
Proof.
  intros (file & Hf & H)%internal_inv (legacy & -> & HF)%merge_legacy_inv Hm. exists legacy. split; [done|].
  exists file. split; [done|]. destruct (text_at s file) as [text|e].
  - destruct H as (v & Hv & ->). cbn in HF. inversion HF as [|? sl ? rest [Hs Hl] Hnil]; subst. inversion Hnil; subst.
    destruct sl as [src requirements]. cbn in Hs, Hl. subst src. unfold managed_layers in Hm.
    cbn [managed_config managed_config_from_mdm mf_file mf_managed_config] in Hm.
    destruct (parent file) as [dir|]; [|done].
    apply result_bind_Ok in Hm as (from_file & (config & Hc & [= <-])%result_bind_Ok & [= <-]).
    exists v, dir, config, requirements. split_and!; done.
  - destruct H as [Hk ->]. cbn in HF. inversion HF; subst. by injection Hm as <-.
Qed.

Lemma requirement_sources_app cloud system legacy :
  requirement_sources cloud system legacy =
  requirement_sources cloud None [] ++ requirement_sources None system [] ++ requirement_sources None None legacy.
Proof. unfold requirement_sources. by rewrite !map_app, !app_nil_r. Qed.

(** ** The stack that is loaded *)

Notation Stack := (@ConfigLayerStack ConfigRequirements ConfigRequirementsToml).

(** A well-formed list of layers makes a stack unless the requirements are
    refused: the loader never fails for the order of the layers. *)
Lemma stack_of_ok overrides layers reqs i : layers_ok layers i ->
  stack_of debug overrides layers reqs =
  requirements ← map_err io_error_of_constraint (try_from debug reqs);
  Ok (mkStack layers i requirements (into_toml reqs) (ignore_user_and_project_exec_policy_rules overrides)).
Proof.
  intros Hok. unfold stack_of. destruct (try_from debug reqs) as [requirements|e]; [|done]. simpl.
  unfold stack_new. assert (verify_layer_ordering layers = Ok i) as ->; [|done].
  destruct Hok as [Hs Hu Hp]. unfold verify_layer_ordering.
  rewrite (proj2 (names_sorted_spec layers)) by done. cbn [negb]. by apply verify_layers_spec.
Qed.

(** What the loader did, for a working directory: the layers of the system, the
    user, the project, the command line and the thread, and the managed file,
    and the requirements, each from what its file or argument says *)
Record loaded (codex_home cwd : str) (cli : list (str * TomlValue)) (overrides : LoaderOverrides)
    (cloud : option ConfigRequirementsToml)
    (thread_layers : ThreadConfigContext -> result ThreadConfigLoadError (list ConfigLayerEntry))
    (context : ProjectTrustContext) (stack : Stack) : Prop := {
  ld_layers : exists system_file system user projects cli_layer thread managed legacy,
    let user_file := resolve_path_against_base h_home_dir CONFIG_TOML_FILE codex_home in
    st_layers stack =
      [entry_new to_value to_vec sha256 (System system_file) system; entry_new to_value to_vec sha256 (User user_file) user]
      ++ projects ++ flag_layers to_value to_vec sha256 thread cli_layer ++ managed /\
    system_config_toml_file_with_overrides current_dir_error overrides = Ok system_file /\
    config_at system_file system /\
    (if ignore_user_config overrides then user = TTable [] else config_at user_file user) /\
    project_part (take 2 (st_layers stack)) cli_layer codex_home user_file cwd context projects /\
    cli_overrides_layer_of cli (Some cwd) codex_home = Ok cli_layer /\
    thread_layers (mkThreadContext None (Some cwd)) = Ok thread /\
    managed_at overrides managed legacy /\
    exists requirements_file system_requirements,
      system_requirements_toml_file_with_overrides current_dir_error overrides = Ok requirements_file /\
      requirements_at requirements_file system_requirements /\
      let sources := requirement_sources cloud system_requirements legacy in
      let reqs := merge_sources sources in
      st_requirements_toml stack = into_toml reqs /\ try_from debug reqs = Ok (st_requirements stack) /\
      first_source_wins sources reqs;
  ld_ok : layers_ok (st_layers stack) (Some 1) /\ st_user_layer_index stack = Some 1;
  ld_ignore : st_ignore_user_and_project_exec_policy_rules stack = ignore_user_and_project_exec_policy_rules overrides;
}.

Lemma requirement_sources_all cloud system legacy :
  merged_from (merged_from (match cloud with
    | Some requirements => merge_requirements wild_match host_name with_sources_default SourceCloudRequirements requirements
    | None => with_sources_default end) (requirement_sources None system [])) (requirement_sources None None legacy)
  = merge_sources (requirement_sources cloud system legacy).
Proof.
  rewrite (requirement_sources_app cloud system legacy). unfold merge_sources, merged_from.
  rewrite !fold_left_app. by destruct cloud.
Qed.

(** A part of the loading that fails, the parts before it having been loaded *)
Inductive part_fails (codex_home cwd : str) (cli : list (str * TomlValue)) (overrides : LoaderOverrides)
    (cloud : option ConfigRequirementsToml)
    (thread_layers : ThreadConfigContext -> result ThreadConfigLoadError (list ConfigLayerEntry)) (e : io_Error) : Prop :=
| requirements_path_fails :
    system_requirements_toml_file_with_overrides current_dir_error overrides = Err e -> part_fails _ _ _ _ _ _ e
| requirements_file_fails file reqs :
    system_requirements_toml_file_with_overrides current_dir_error overrides = Ok file ->
    load_requirements_toml wild_match host_name reqs file s = Some (s, Err e) -> part_fails _ _ _ _ _ _ e
| managed_file_fails :
    load_config_layers_internal current_dir_error overrides s = Some (s, Err e) -> part_fails _ _ _ _ _ _ e
| managed_requirements_fail loaded reqs :
    load_config_layers_internal current_dir_error overrides s = Some (s, Ok loaded) ->
    load_requirements_from_legacy_scheme wild_match host_name reqs loaded = Err e -> part_fails _ _ _ _ _ _ e
| thread_fails err :
    thread_layers (mkThreadContext None (Some cwd)) = Err err -> e = io_error_new Other (te_message err) ->
    part_fails _ _ _ _ _ _ e
| cli_fails : cli_overrides_layer_of cli (Some cwd) codex_home = Err e -> part_fails _ _ _ _ _ _ e
| system_fails :
    system_layer to_value to_vec sha256 current_dir_error overrides s = Some (s, Err e) -> part_fails _ _ _ _ _ _ e
| user_fails :
    user_layer to_value to_vec sha256 (ignore_user_config overrides)
      (resolve_path_against_base h_home_dir CONFIG_TOML_FILE codex_home) s = Some (s, Err e) -> part_fails _ _ _ _ _ _ e
| project_fails system user cli_layer :
    system_layer to_value to_vec sha256 current_dir_error overrides s = Some (s, Ok system) ->
    user_layer to_value to_vec sha256 (ignore_user_config overrides)
      (resolve_path_against_base h_home_dir CONFIG_TOML_FILE codex_home) s = Some (s, Ok user) ->
    cli_overrides_layer_of cli (Some cwd) codex_home = Ok cli_layer ->
    layers_of_project' [system; user] cli_layer codex_home
      (resolve_path_against_base h_home_dir CONFIG_TOML_FILE codex_home) cwd s = Some (s, Err e) ->
    part_fails _ _ _ _ _ _ e
| managed_layer_fails loaded :
    load_config_layers_internal current_dir_error overrides s = Some (s, Ok loaded) ->
    managed_layers to_value to_vec sha256 loaded codex_home = Err e -> part_fails _ _ _ _ _ _ e
| requirements_refused file system_requirements managed legacy err :
    system_requirements_toml_file_with_overrides current_dir_error overrides = Ok file ->
    requirements_at file system_requirements -> managed_at overrides managed legacy ->
    try_from debug (merge_sources (requirement_sources cloud system_requirements legacy)) = Err err ->
    e = io_error_of_constraint err -> part_fails _ _ _ _ _ _ e.

Lemma load_inv codex_home cwd cli overrides cloud thread_layers s' stack :
  normal_abs cwd ->
  (forall context layers, thread_layers context = Ok layers -> Forall (fun l => le_name l = SessionFlags) layers) ->
  load codex_home (Some cwd) cli overrides (Ok cloud) thread_layers s = Some (s', Ok stack) ->
  exists context, loaded codex_home cwd cli overrides cloud thread_layers context stack.
Proof.
  intros Hcwd Hthread H. unfold load_config_layers_state in H.
  apply of_result_inv in H as (cloud' & [= <-] & H). apply of_result_inv in H as (file & Hfile & H).
  apply stays_inv in H as (reqs1 & Hr1 & H); [|apply stays_requirements].
  apply stays_inv in H as (loaded_layers & Hloaded & H); [|apply stays_internal].
  apply of_result_inv in H as (reqs2 & Hr2 & H). apply of_result_inv in H as (thread & Ht & H).
  apply map_err_Ok in Ht. apply of_result_inv in H as (cli_layer & Hcli & H).
  apply stays_inv in H as (system & Hs & H); [|apply stays_system].
  apply of_result_inv in Hs as (system_file & Hsf & (system_config & Hsc & ->)%required_layer_inv).
  apply stays_inv in H as (user & Hu & H); [|apply stays_user].
  assert (exists config, (if ignore_user_config overrides then config = TTable []
            else config_at (resolve_path_against_base h_home_dir CONFIG_TOML_FILE codex_home) config) /\
          user = entry_new to_value to_vec sha256 (User (resolve_path_against_base h_home_dir CONFIG_TOML_FILE codex_home)) config)
    as (user_config & Huc & ->).
  { unfold user_layer in Hu. destruct (ignore_user_config overrides); [injection Hu as <-; eauto|].
    by apply required_layer_inv in Hu. }
  apply stays_inv in H as (projects & Hp & H); [|apply stays_layers_of_project].
  apply layers_of_project_inv in Hp as [context Hp]. apply of_result_inv in H as (managed & Hm & H).
  destruct (managed_inv _ _ _ _ _ _ _ Hloaded Hr2 Hm) as (legacy & -> & Hma). apply managed_layers_ok in Hm.
  injection H as _ H. apply system_requirements_inv in Hr1 as (sys & -> & Hsr). rewrite requirement_sources_all in H.
  pose proof (project_part_ok _ _ _ _ _ _ _ Hp) as Hpo.
  set (user_file := resolve_path_against_base h_home_dir CONFIG_TOML_FILE codex_home) in *.
  set (system := entry_new to_value to_vec sha256 (System system_file) system_config) in *.
  set (user := entry_new to_value to_vec sha256 (User user_file) user_config) in *.
  assert (le_name system = System system_file /\ le_name user = User user_file) as [Hsn Hun] by done.
  pose proof (Hthread _ _ Ht) as Hflags.
  pose proof (assembled_ok to_value to_vec sha256 system user projects thread managed cli_layer system_file user_file
    cwd _ Hsn Hun Hcwd Hpo Hflags Hm) as Hok.
  rewrite (stack_of_ok _ _ _ _ Hok) in H. apply result_bind_Ok in H as (requirements & Hreq%map_err_Ok & [= <-]).
  exists context. split; [|by split|done]. cbn [st_layers st_requirements_toml st_requirements].
  assert (assemble to_value to_vec sha256 system user projects cli_layer thread managed
    = [system; user] ++ projects ++ flag_layers to_value to_vec sha256 thread cli_layer ++ managed) as -> by (eapply assemble_eq; eauto).
  exists system_file, system_config, user_config, projects, cli_layer, thread, managed, legacy. cbn zeta.
  split_and!; try done. exists file, sys. split_and!; try done. apply merge_first_source_wins.
Qed.

Lemma load_fails codex_home cwd cli overrides cloud thread_layers s' e :
  normal_abs cwd ->
  (forall context layers, thread_layers context = Ok layers -> Forall (fun l => le_name l = SessionFlags) layers) ->
  load codex_home (Some cwd) cli overrides (Ok cloud) thread_layers s = Some (s', Err e) ->
  part_fails codex_home cwd cli overrides cloud thread_layers e.
Proof.
  intros Hcwd Hthread H. unfold load_config_layers_state in H.
  apply of_result_inv_err in H as [[=]|(cloud' & [= <-] & H)].
  apply of_result_inv_err in H as [H|(file & Hfile & H)]; [by apply requirements_path_fails|].
  apply stays_inv_err in H as [H|(reqs1 & Hr1 & H)]; [by eapply requirements_file_fails| |apply stays_requirements].
  apply stays_inv_err in H as [H|(loaded_layers & Hloaded & H)]; [by apply managed_file_fails| |apply stays_internal].
  apply of_result_inv_err in H as [H|(reqs2 & Hr2 & H)]; [by eapply managed_requirements_fail|].
  apply of_result_inv_err in H as [H|(thread & Ht%map_err_Ok & H)].
  { destruct (thread_layers _) as [|err] eqn:Et; [done|]. injection H as <-. by eapply thread_fails. }
  apply of_result_inv_err in H as [H|(cli_layer & Hcli & H)]; [by apply cli_fails|].
  apply stays_inv_err in H as [H|(system & Hs & H)]; [by apply system_fails| |apply stays_system].
  apply stays_inv_err in H as [H|(user & Hu & H)]; [by apply user_fails| |apply stays_user].
  apply stays_inv_err in H as [H|(projects & Hp & H)]; [by eapply project_fails| |apply stays_layers_of_project].
  apply of_result_inv_err in H as [H|(managed & Hm & H)]; [by eapply managed_layer_fails|].
  assert (exists f, le_name system = System f) as [f Hsn].
  { apply of_result_inv in Hs as (f & _ & (c & _ & ->)%required_layer_inv). by exists f. }
  assert (exists f, le_name user = User f) as [f' Hun].
  { unfold user_layer in Hu. destruct (ignore_user_config _); [injection Hu as <-; by eexists|].
    apply required_layer_inv in Hu as (c & _ & ->). by eexists. }
  apply layers_of_project_inv in Hp as [context Hp%project_part_ok].
  destruct (managed_inv _ _ _ _ _ _ _ Hloaded Hr2 Hm) as (legacy & -> & Hma). apply managed_layers_ok in Hm.
  apply system_requirements_inv in Hr1 as (sys & -> & Hsr).
  epose proof (assembled_ok to_value to_vec sha256 _ _ projects thread managed cli_layer _ _ cwd _ Hsn Hun Hcwd Hp
    (Hthread _ _ Ht) Hm) as Hok.
  injection H as _ H. rewrite requirement_sources_all, (stack_of_ok _ _ _ _ Hok) in H.
  destruct (try_from debug _) as [|err] eqn:Et; [done|]. injection H as <-. by eapply requirements_refused.
Qed.

(** C33: loading returns, whatever the files hold.  It fails only when one of its
    parts does (a file that cannot be read or parsed, paths that do not
    resolve, the thread's settings, requirements that are refused): never for
    the order of the layers.  A stack that is loaded is well formed and has the
    layer of the system's file, that of the user's, those of the project from
    its root to the working directory, the session's and the managed file's, in
    this order, each with what its file says; its requirements are those of the
    cloud, the system's file and the managed file, of which the first that
    sets a field wins.  The loader of the cloud's requirements has succeeded,
    and the thread's loader gives layers of the session only. *)
Theorem loaded_stack_spec (codex_home cwd : str) (cli : list (str * TomlValue)) (overrides : LoaderOverrides)
    (cloud : option ConfigRequirementsToml) thread_layers :
  normal_abs cwd ->
  (forall context layers, thread_layers context = Ok layers -> Forall (fun l => le_name l = SessionFlags) layers) ->
  exists r, load codex_home (Some cwd) cli overrides (Ok cloud) thread_layers s = Some (s, r) /\
  match r with
  | Ok stack => exists context, loaded codex_home cwd cli overrides cloud thread_layers context stack
  | Err e => part_fails codex_home cwd cli overrides cloud thread_layers e
  end.
Proof.
  intros Hcwd Hthread.
  destruct (load_returns codex_home (Some cwd) cli overrides (Ok cloud) thread_layers) as [r Hr].
  exists r. split; [done|]. destruct r; [by eapply load_inv|by eapply load_fails].
Qed.

(** C32: a layer of the project is enabled exactly if the user trusts it: the
    directories from the working directory up to the root of the project are
    looked up in the table of projects that the system, the user and the
    overrides of the command line make (what the project says itself is not
    asked), each first under its own keys, then under those of the root, then
    under those of the repository of the working directory, and the first
    entry there is says trusted.  An entry of the directory itself that says
    untrusted is therefore final. *)
Theorem project_layers_need_trust (codex_home cwd : str) (cli : list (str * TomlValue)) (overrides : LoaderOverrides)
    (cloud : option ConfigRequirementsToml) thread_layers s' (stack : Stack) (layer : ConfigLayerEntry) (folder : str) :
  normal_abs cwd ->
  (forall context layers, thread_layers context = Ok layers -> Forall (fun l => le_name l = SessionFlags) layers) ->
  load codex_home (Some cwd) cli overrides (Ok cloud) thread_layers s = Some (s', Ok stack) ->
  layer ∈ st_layers stack -> le_name layer = Project folder ->
  exists dir cli_layer projects markers,
    cli_overrides_layer_of cli (Some cwd) codex_home = Ok cli_layer /\
    let merged := merged_for_trust (take 2 (st_layers stack)) cli_layer in
    project_root_markers_from_config merged = Ok markers /\
    project_trust_config_toml codex_home merged = Ok projects /\
    let root := project_root_at cwd (default default_project_root_markers markers) in
    folder = dot_codex dir /\ dir ∈ dirs_to_root root (ancestors cwd) /\
    (is_disabled layer = false <->
     first_listed cfg_windows (trust_levels (default ∅ projects))
       (normalized_project_trust_keys cfg_windows dir ++ normalized_project_trust_keys cfg_windows root
        ++ default [] (normalized_project_trust_keys cfg_windows <$> repository_of s cwd)) Trusted).
Proof.
  intros Hcwd Hthread H Hin Hname. apply load_inv in H as [context [Hlayers _ _]]; [|done..].
  destruct Hlayers as (sf & system & user & projects & cli_layer & thread & managed & legacy & Hl & _ & _ & _ & Hp & Hcli & Ht & Hm & _).
  destruct Hp as [(markers & Hmarkers & Hc) (home & _ & HF)].
  assert (layer ∈ projects) as Hproject.
  { rewrite Hl, !elem_of_app in Hin. destruct Hin as [Hin|[Hin|[Hin|Hin]]]; [exfalso|done|exfalso..].
    - apply elem_of_cons in Hin as [->|Hin]; [done|]. by apply list_elem_of_singleton in Hin as ->.
    - pose proof (flag_layers_names to_value to_vec sha256 thread cli_layer (Hthread _ _ Ht)) as Hf.
      rewrite Forall_forall in Hf. specialize (Hf _ Hin). simpl in Hf. congruence.
    - destruct Hm as (file & _ & Hm). destruct (text_at s file).
      + destruct Hm as (v & dir & config & requirements & _ & _ & _ & -> & _).
        by apply list_elem_of_singleton in Hin as ->.
      + destruct Hm as (_ & -> & _). by apply not_elem_of_nil in Hin. }
  apply list_elem_of_lookup in Hproject as [i Hi].
  destruct (Forall2_lookup_r _ _ _ _ _ HF Hi) as (dir & Hdir & Hn & Hd & _).
  rewrite Hname in Hn. injection Hn as ->.
  unfold trust_context_at in Hc. apply result_bind_Ok in Hc as (table & Htab%map_err_Ok & [= <-]).
  exists dir, cli_layer, table, markers. cbn zeta. split_and!; try done.
  - apply list_elem_of_lookup_2, list_elem_of_In, filter_In, proj1, in_rev in Hdir. by apply list_elem_of_In.
  - rewrite Hd. apply trusted_listed.
Qed.

End Run.

(** The layers that a loader of thread settings gives are the session's. *)
Lemma thread_layers_session {MP : Type} providers to_value to_vec sha256 load context layers :
  load_config_layers (ModelProviderInfo := MP) providers to_value to_vec sha256 load context = Ok layers ->
  Forall (fun l => le_name l = SessionFlags) layers.
Proof.
  unfold load_config_layers. intros (sources & _ & (options & Ho & [= <-])%result_bind_Ok)%result_bind_Ok.
  revert options Ho. induction sources as [|source sources IH]; intros options; cbn [map collect].
  { by intros [= <-]. }
  intros (o & Ho & (rest & Hr & [= <-])%result_bind_Ok)%result_bind_Ok.
  specialize (IH _ Hr). unfold omap in *. cbn [list_omap]. destruct o as [layer|]; [|done].
  constructor; [|done]. destruct source as [config|]; [|done]. simpl in Ho.
  apply result_bind_Ok in Ho as (v & _ & Ho). destruct (is_empty_table v); [done|]. by injection Ho as <-.
Qed.

(** ** A small disk *)

Section Example.
#[local] Instance sample_errors : TomlErrors := {
  toml_Error := unit; toml_error_span _ := None; toml_error_message _ := lit "bad";
}.

Definition trusting (dir : str) : TomlValue :=
  TTable [(lit "projects", TTable [(dir, TTable [(lit "trust_level", TString (lit "trusted"))])])].

(** serde's reading of the table of projects *)
Definition read_projects (v : TomlValue) : option (gmap str ProjectConfig) :=
  match tget [lit "projects"] v with
  | Some (TTable entries) =>
      Some (list_to_map (map (fun kv => (kv.1, mkProjectConfig
        (match tget [lit "trust_level"] kv.2 with
         | Some (TString level) => if level =? lit "trusted" then Some Trusted else Some Untrusted
         | _ => None
         end))) entries))
  | _ => None
  end.

(** The empty text, one that trusts a directory, and no others *)
#[local] Instance sample_codec : ConfigCodec := {
  toml_from_str text :=
    if is_empty text then Ok (TTable [])
    else if text =? lit "trust /w" then Ok (trusting (lit "/w")) else Err tt;
  toml_error_display _ := lit "bad";
  toml_check _ := Ok tt;
  toml_document _ := None;
  config_toml_check _ _ := Ok tt;
  config_toml_resolved _ _ := None;
  project_trust_config_toml _ v := Ok (read_projects v);
  requirements_from_str _ _ := Ok requirements_toml_default;
  legacy_managed_config_toml _ := Ok (mkLegacy None None None);
}.

Definition sample_dirs : list str := [lit "/"; lit "/w"; lit "/w/.git"; lit "/w/.codex"; lit "/home/u/.codex"].
#[local] Instance sample_host : Host := plain_host sample_dirs.

(** The user's configuration, and that of the project [/w] *)
Definition sample_disk (user_config : str) (project_config : list N) : MemFs :=
  mkMemFs (<[lit "/home/u/.codex/config.toml" := into_bytes user_config]>
           (<[lit "/w/.codex/config.toml" := project_config]> ∅)) (list_to_set sample_dirs).

Definition no_current_dir : io_Error := io_error_new NotFound (lit "no current directory").

Definition sample_load (user_config : str) (project_config : list N) :=
  load_config_layers_state false no_value no_vec no_hash (fun _ _ => []) (fun _ _ => false) None no_current_dir
    (lit "/home/u/.codex") (Some (lit "/w")) [] (mkOverrides None None None false false) (Ok None)
    (fun _ => Ok []) (sample_disk user_config project_config).

Definition loaded_names (r : option (MemFs * result io_Error (@ConfigLayerStack ConfigRequirements ConfigRequirementsToml)))
    : option (list (ConfigLayerSource * bool)) :=
  match r with
  | Some (_, Ok stack) => Some (map (fun l => (le_name l, is_disabled l)) (st_layers stack))
  | _ => None
  end.

Example trusted_project_loaded : loaded_names (sample_load (lit "trust /w") []) =
  Some [(System (lit "/etc/codex/config.toml"), false); (User (lit "/home/u/.codex/config.toml"), false);
        (Project (lit "/w/.codex"), false)].
Proof. by vm_compute. Qed.

Example untrusted_project_disabled : loaded_names (sample_load [] []) =
  Some [(System (lit "/etc/codex/config.toml"), false); (User (lit "/home/u/.codex/config.toml"), false);
        (Project (lit "/w/.codex"), true)].
Proof. by vm_compute. Qed.

(** A project that is not trusted cannot break the loading by a file that is no
    TOML, but it can by one that is no text. *)
Lemma untrusted_bytes_stop_loading :
  loaded_names (sample_load [] (into_bytes (lit "no toml"))) <> None /\
  exists message, sample_load [] [255%N] =
    Some (sample_disk [] [255%N], Err (io_error_new InvalidData message)).
Proof. split; [by vm_compute|]. eexists. by vm_compute. Qed.

Lemma sample_cwd : normal_abs (lit "/w").
Proof. exists [lit "w"]. split; [|done]. apply (bool_decide_unpack _); by vm_compute. Qed.

Lemma no_thread_layers (context : ThreadConfigContext) (layers : list ConfigLayerEntry) :
  Ok (E := ThreadConfigLoadError) [] = Ok layers -> Forall (fun l => le_name l = SessionFlags) layers.
Proof. by intros [= <-]. Qed.

Lemma loaded_stack_spec_witness :
  exists stack context, sample_load (lit "trust /w") [] = Some (sample_disk (lit "trust /w") [], Ok stack) /\
    loaded (sample_disk (lit "trust /w") []) false no_value no_vec no_hash (fun _ _ => []) (fun _ _ => false) None
      no_current_dir (lit "/home/u/.codex") (lit "/w") [] (mkOverrides None None None false false) None (fun _ => Ok [])
      context stack /\
    (le_config <$> st_layers stack) = [TTable []; trusting (lit "/w"); TTable []].
Proof.
  destruct (loaded_stack_spec (sample_disk (lit "trust /w") []) false no_value no_vec no_hash (fun _ _ => []) (fun _ _ => false) None
    no_current_dir (lit "/home/u/.codex") (lit "/w") [] (mkOverrides None None None false false) None
    (fun _ => Ok []) sample_cwd no_thread_layers) as (r & Hr & H).
  change (sample_load (lit "trust /w") [] = Some (sample_disk (lit "trust /w") [], r)) in Hr.
  assert (match sample_load (lit "trust /w") [] with
          | Some (_, Ok stack) => le_config <$> st_layers stack = [TTable []; trusting (lit "/w"); TTable []]
          | _ => False
          end) as L by (vm_compute; reflexivity).
  rewrite Hr in L. destruct r as [stack|e]; [|done]. destruct H as (context & H). exists stack, context.
  split; [exact Hr|]. split; [exact H|exact L].
Defined.

Lemma project_layers_need_trust_witness :
  exists s' stack layer, sample_load (lit "trust /w") [] = Some (s', Ok stack) /\
    layer ∈ st_layers stack /\ le_name layer = Project (lit "/w/.codex") /\ is_disabled layer = false /\
    exists dir root levels, lit "/w/.codex" = dot_codex dir /\
      first_listed false levels
        (normalized_project_trust_keys false dir ++ normalized_project_trust_keys false root
         ++ default [] (normalized_project_trust_keys false <$>
              repository_of (sample_disk (lit "trust /w") []) (lit "/w"))) Trusted.
Proof.
  pose proof trusted_project_loaded as L.
  destruct (sample_load (lit "trust /w") []) as [[s' [stack|e]]|] eqn:H; [|done..]. cbn [loaded_names] in L.
  destruct (st_layers stack) as [|l1 [|l2 [|layer [|]]]] eqn:El; try done. cbn [map] in L. injection L as _ _ _ _ Hn Hd.
  exists s', stack, layer. rewrite El. assert (layer ∈ [l1; l2; layer]) as Hin by (do 2 right; by left).
  repeat split; [done..|]. rewrite <- El in Hin.
  destruct (project_layers_need_trust (sample_disk (lit "trust /w") []) false no_value no_vec no_hash (fun _ _ => [])
    (fun _ _ => false) None no_current_dir (lit "/home/u/.codex") (lit "/w") [] (mkOverrides None None None false false)
    None (fun _ => Ok []) s' stack layer (lit "/w/.codex") sample_cwd no_thread_layers H Hin Hn)
    as (dir & cli_layer & projects & markers & _ & Hm & _ & Hdir & _ & Hen).
  exists dir, (project_root_at (sample_disk (lit "trust /w") []) (lit "/w") (default default_project_root_markers markers)),
    (trust_levels (default ∅ projects)).
  split; [exact Hdir|]. apply Hen. exact Hd.
Defined.
End Example.
