(* ===== verification/IpAddr.v ===== *)
(** * IpAddr: addresses, and which of them are not public

    The part of [std::net] that the network proxy uses (its parser of
    addresses and its classification), and the classification of
    [network-proxy/src/policy.rs].  An IPv4 address is its four octets, an IPv6
    address its eight segments. *)

From S2P Require Import Prelude.
Local Open Scope str_scope.
Local Open Scope N_scope.

Record Ipv4Addr : Type := mkV4 { v4_a : N; v4_b : N; v4_c : N; v4_d : N }.

Record Ipv6Addr : Type := mkV6 {
  seg0 : N; seg1 : N; seg2 : N; seg3 : N; seg4 : N; seg5 : N; seg6 : N; seg7 : N;
}.

Inductive IpAddr : Type := V4 (ip : Ipv4Addr) | V6 (ip : Ipv6Addr).

Record SocketAddr : Type := mkSocketAddr { sa_ip : IpAddr; sa_port : N }.

Definition v4_ok (ip : Ipv4Addr) : Prop :=
  v4_a ip < 256 /\ v4_b ip < 256 /\ v4_c ip < 256 /\ v4_d ip < 256.

Definition v6_ok (ip : Ipv6Addr) : Prop :=
  seg0 ip < 65536 /\ seg1 ip < 65536 /\ seg2 ip < 65536 /\ seg3 ip < 65536 /\
  seg4 ip < 65536 /\ seg5 ip < 65536 /\ seg6 ip < 65536 /\ seg7 ip < 65536.

(** ** Parsing, from [core::net::parser]

    A reader takes what it reads off the text, or leaves the text alone. *)

Definition to_digit (radix c : N) : option N :=
  let d :=
    if (ch "0" <=? c) && (c <=? ch "9") then Some (c - ch "0")
    else if (ch "a" <=? c) && (c <=? ch "z") then Some (c - ch "a" + 10)
    else if (ch "A" <=? c) && (c <=? ch "Z") then Some (c - ch "A" + 10)
    else None in
  d ≫= fun d => if d <? radix then Some d else None.

Fixpoint read_digits (radix : N) (max_digits : nat) (result : N) (digit_count : nat) (s : str)
    : option (N * nat * str) :=
  match s with
  | [] => Some (result, digit_count, [])
  | c :: s' =>
      match to_digit radix c with
      | Some digit =>
          if (max_digits <? S digit_count)%nat then None
          else read_digits radix max_digits (result * radix + digit) (S digit_count) s'
      | None => Some (result, digit_count, s)
      end
  end.

(** [bound] is the first number that the type does not hold. *)
Definition read_number (radix : N) (max_digits : nat) (allow_zero_prefix : bool) (bound : N) (s : str)
    : option (N * str) :=
  let has_leading_zero := match s with c :: _ => N.eqb c (ch "0") | [] => false end in
  match read_digits radix max_digits 0 0 s with
  | None => None
  | Some (result, digit_count, rest) =>
      if (digit_count =? 0)%nat then None
      else if negb allow_zero_prefix && has_leading_zero && (1 <? digit_count)%nat then None
      else if result <? bound then Some (result, rest) else None
  end.

Definition read_given_char (c : N) (s : str) : option str := strip_prefix [c] s.

Definition read_separator {A} (sep : N) (index : nat) (inner : str -> option (A * str)) (s : str)
    : option (A * str) :=
  match index with
  | 0%nat => inner s
  | S _ => read_given_char sep s ≫= inner
  end.

Definition read_octet (i : nat) : str -> option (N * str) :=
  read_separator (ch ".") i (read_number 10 3 false 256).
Arguments read_octet : simpl never.

Definition read_ipv4_addr (s : str) : option (Ipv4Addr * str) :=
  '(a, s) ← read_octet 0 s;
  '(b, s) ← read_octet 1 s;
  '(c, s) ← read_octet 2 s;
  '(d, s) ← read_octet 3 s;
  Some (mkV4 a b c d, s).

(** At most [slots] groups from the [i]th on; the groups that were read and
    whether an IPv4 address ends them. *)
Fixpoint read_groups (slots i : nat) (s : str) : list N * bool * str :=
  match slots with
  | 0%nat => ([], false, s)
  | S slots' =>
      let ipv4 :=
        if (1 <? slots)%nat then read_separator (ch ":") i read_ipv4_addr s else None in
      match ipv4 with
      | Some (mkV4 one two three four, s') => ([one * 256 + two; three * 256 + four], true, s')
      | None =>
          match read_separator (ch ":") i (read_number 16 4 true 65536) s with
          | Some (g, s') =>
              let '(l, v4, s'') := read_groups slots' (S i) s' in (g :: l, v4, s'')
          | None => ([], false, s)
          end
      end
  end.

Definition v6_of_list (l : list N) : option Ipv6Addr :=
  match l with
  | [a; b; c; d; e; f; g; h] => Some (mkV6 a b c d e f g h)
  | _ => None
  end.

Definition read_ipv6_addr (s : str) : option (Ipv6Addr * str) :=
  let '(head, head_ipv4, s) := read_groups 8 0 s in
  if (length head =? 8)%nat then ip ← v6_of_list head; Some (ip, s)
  else if head_ipv4 then None
  else
    s ← read_given_char (ch ":") s;
    s ← read_given_char (ch ":") s;
    let limit := (8 - (length head + 1))%nat in
    let '(tail, _, s) := read_groups limit 0 s in
    ip ← v6_of_list (head ++ repeat 0 (8 - length head - length tail) ++ tail);
    Some (ip, s).

(** [str::parse::<IpAddr>] *)
Definition parse_ip (s : str) : option IpAddr :=
  let r :=
    match read_ipv4_addr s with
    | Some (ip, rest) => Some (V4 ip, rest)
    | None => '(ip, rest) ← read_ipv6_addr s; Some (V6 ip, rest)
    end in
  '(ip, rest) ← r;
  if is_empty rest then Some ip else None.

(** ** Classification, from [std::net] *)

Definition v4_is_loopback (ip : Ipv4Addr) : bool := v4_a ip =? 127.
Definition v4_is_private (ip : Ipv4Addr) : bool :=
  (v4_a ip =? 10)
  || ((v4_a ip =? 172) && (16 <=? v4_b ip) && (v4_b ip <=? 31))
  || ((v4_a ip =? 192) && (v4_b ip =? 168)).
Definition v4_is_link_local (ip : Ipv4Addr) : bool := (v4_a ip =? 169) && (v4_b ip =? 254).
Definition v4_to_u32 (ip : Ipv4Addr) : N :=
  v4_a ip * 2 ^ 24 + v4_b ip * 2 ^ 16 + v4_c ip * 2 ^ 8 + v4_d ip.
Definition v4_is_unspecified (ip : Ipv4Addr) : bool := v4_to_u32 ip =? 0.
Definition v4_is_multicast (ip : Ipv4Addr) : bool := (224 <=? v4_a ip) && (v4_a ip <=? 239).
Definition U32_MAX : N := 2 ^ 32 - 1.
Definition v4_is_broadcast (ip : Ipv4Addr) : bool := v4_to_u32 ip =? U32_MAX.

Definition v6_segments (ip : Ipv6Addr) : list N :=
  [seg0 ip; seg1 ip; seg2 ip; seg3 ip; seg4 ip; seg5 ip; seg6 ip; seg7 ip].
Definition v6_is_loopback (ip : Ipv6Addr) : bool := bool_decide (v6_segments ip = [0; 0; 0; 0; 0; 0; 0; 1]).
Definition v6_is_unspecified (ip : Ipv6Addr) : bool := bool_decide (v6_segments ip = repeat 0 8).
Definition v6_is_multicast (ip : Ipv6Addr) : bool := seg0 ip / 256 =? 255.
Definition v6_is_unique_local (ip : Ipv6Addr) : bool := N.land (seg0 ip) 0xfe00 =? 0xfc00.
Definition v6_is_unicast_link_local (ip : Ipv6Addr) : bool := N.land (seg0 ip) 0xffc0 =? 0xfe80.

(** [Ipv6Addr::to_ipv4]: mapped and compatible addresses *)
Definition v6_to_ipv4 (ip : Ipv6Addr) : option Ipv4Addr :=
  if (seg0 ip =? 0) && (seg1 ip =? 0) && (seg2 ip =? 0) && (seg3 ip =? 0) && (seg4 ip =? 0)
     && ((seg5 ip =? 0) || (seg5 ip =? 0xffff))
  then Some (mkV4 (seg6 ip / 256) (seg6 ip mod 256) (seg7 ip / 256) (seg7 ip mod 256))
  else None.

Definition ip_is_loopback (ip : IpAddr) : bool :=
  match ip with V4 ip => v4_is_loopback ip | V6 ip => v6_is_loopback ip end.

(** ** [network-proxy/src/policy.rs] *)

(** A shift of [u32] drops what leaves the word. *)
Definition u32_shl (x k : N) : N := N.land (N.shiftl x k) U32_MAX.

Definition ipv4_in_cidr (ip base : Ipv4Addr) (prefix : N) : bool :=
  let ip := v4_to_u32 ip in
  let base := v4_to_u32 base in
  let mask := if prefix =? 0 then 0 else u32_shl U32_MAX (32 - prefix) in
  N.land ip mask =? N.land base mask.

Definition is_non_public_ipv4 (ip : Ipv4Addr) : bool :=
  v4_is_loopback ip
  || v4_is_private ip
  || v4_is_link_local ip
  || v4_is_unspecified ip
  || v4_is_multicast ip
  || v4_is_broadcast ip
  || ipv4_in_cidr ip (mkV4 0 0 0 0) 8
  || ipv4_in_cidr ip (mkV4 100 64 0 0) 10
  || ipv4_in_cidr ip (mkV4 192 0 0 0) 24
  || ipv4_in_cidr ip (mkV4 192 0 2 0) 24
  || ipv4_in_cidr ip (mkV4 198 18 0 0) 15
  || ipv4_in_cidr ip (mkV4 198 51 100 0) 24
  || ipv4_in_cidr ip (mkV4 203 0 113 0) 24
  || ipv4_in_cidr ip (mkV4 240 0 0 0) 4.

Definition is_non_public_ipv6 (ip : Ipv6Addr) : bool :=
  match v6_to_ipv4 ip with
  | Some v4 => is_non_public_ipv4 v4 || v6_is_loopback ip
  | None =>
      v6_is_loopback ip
      || v6_is_unspecified ip
      || v6_is_multicast ip
      || v6_is_unique_local ip
      || v6_is_unicast_link_local ip
  end.

Definition is_non_public_ip (ip : IpAddr) : bool :=
  match ip with V4 ip => is_non_public_ipv4 ip | V6 ip => is_non_public_ipv6 ip end.

(** ** Masks are intervals *)

Lemma testbit_above x n : x < 2 ^ 32 -> 32 <= n -> N.testbit x n = false.
Proof.
  intros Hx Hn. destruct (decide (x = 0)) as [->|H0]; [apply N.bits_0|].
  apply N.bits_above_log2. apply N.log2_lt_pow2 in Hx; lia.
Qed.

(** Masking an address keeps its bits from [k] on. *)
Lemma land_mask x k : x < 2 ^ 32 -> k < 32 -> N.land x (u32_shl U32_MAX k) = 2 ^ k * (x / 2 ^ k).
Proof.
  intros Hx Hk. rewrite N.mul_comm, <- N.shiftr_div_pow2, <- N.shiftl_mul_pow2.
  apply N.bits_inj. intros n. unfold u32_shl, U32_MAX. change (2 ^ 32 - 1) with (N.ones 32).
  rewrite !N.land_spec. destruct (N.ltb_spec n k) as [L|L].
  - rewrite !N.shiftl_spec_low by done. by rewrite andb_false_r.
  - rewrite !N.shiftl_spec_high' by done. rewrite N.shiftr_spec', N.sub_add by done.
    destruct (N.ltb_spec n 32) as [L'|L'].
    + rewrite !N.ones_spec_low by lia. by rewrite andb_true_r.
    + by rewrite (testbit_above x) by done.
Qed.

Lemma u32_bound ip : v4_ok ip -> v4_to_u32 ip < 2 ^ 32.
Proof. unfold v4_ok, v4_to_u32. lia. Qed.

(** The multiples of [m] below two numbers are the same one. *)
Lemma same_block m x y : m <> 0 -> y mod m = 0 -> m * (x / m) = m * (y / m) <-> y <= x < y + m.
Proof.
  intros Hm Hy. pose proof (N.div_mod x m Hm) as Ex. pose proof (N.mod_lt x m Hm) as Hx.
  pose proof (N.div_mod y m Hm) as Ey. rewrite Hy, N.add_0_r in Ey. clear Hy. split.
  - intros E. rewrite E, <- Ey in Ex. clear E Ey. revert Ex Hx. generalize (x mod m). lia.
  - clear Ex Hx. intros Hr. f_equal. symmetry. apply (N.div_unique x m (y / m) (x - y)); [lia|].
    rewrite <- Ey. lia.
Qed.

(** A network is the interval that begins at its base. *)
Lemma ipv4_in_cidr_spec ip base prefix : v4_ok ip -> v4_ok base -> 0 < prefix <= 32 ->
  v4_to_u32 base mod 2 ^ (32 - prefix) = 0 ->
  ipv4_in_cidr ip base prefix = true <->
  v4_to_u32 base <= v4_to_u32 ip < v4_to_u32 base + 2 ^ (32 - prefix).
Proof.
  intros Hip Hb Hp Hm. unfold ipv4_in_cidr. rewrite (proj2 (N.eqb_neq prefix 0)) by lia.
  rewrite N.eqb_eq, !land_mask by (try apply u32_bound; try done; lia).
  apply same_block; [by apply N.pow_nonzero|done].
Qed.

(** *** What is not public *)

(** First and last address of the reserved ranges, with their names. *)
Definition reserved_v4 : list (N * N) :=
  [(0x00000000, 0x00ffffff);  (* this network *)
   (0x0a000000, 0x0affffff);  (* private *)
   (0x64400000, 0x647fffff);  (* carrier grade NAT *)
   (0x7f000000, 0x7fffffff);  (* loopback *)
   (0xa9fe0000, 0xa9feffff);  (* link local *)
   (0xac100000, 0xac1fffff);  (* private *)
   (0xc0000000, 0xc00000ff);  (* protocol assignments *)
   (0xc0000200, 0xc00002ff);  (* TEST-NET-1 *)
   (0xc0a80000, 0xc0a8ffff);  (* private *)
   (0xc6120000, 0xc613ffff);  (* benchmarking *)
   (0xc6336400, 0xc63364ff);  (* TEST-NET-2 *)
   (0xcb007100, 0xcb0071ff);  (* TEST-NET-3 *)
   (0xe0000000, 0xffffffff)]. (* multicast, reserved, broadcast *)

Definition reserved_v6 : list (N * N) :=
  [(0xfc00, 0xfdff); (0xfe80, 0xfebf); (0xff00, 0xffff)].

Definition in_ranges (ranges : list (N * N)) (x : N) : bool :=
  existsb (fun r => (r.1 <=? x) && (x <=? r.2)) ranges.

Lemma bool_eq_iff (a b : bool) : (a = true <-> b = true) -> a = b.
Proof. destruct a, b; intuition congruence. Qed.

(** Proves a disjunction by one of its sides. *)
Ltac pick :=
  lazymatch goal with
  | |- _ \/ _ => first [left; pick | right; pick]
  | _ => lia
  end.

(** The octet and mask tests decide the table of ranges. *)
Lemma is_non_public_ipv4_ranges ip : v4_ok ip -> is_non_public_ipv4 ip = in_ranges reserved_v4 (v4_to_u32 ip).
Proof.
  intros Hip. apply bool_eq_iff. unfold is_non_public_ipv4.
  rewrite !orb_true_iff, !ipv4_in_cidr_spec by (unfold v4_ok; simpl; (done || lia || (split_and!; lia))).
  unfold in_ranges, reserved_v4. cbn [existsb fst snd]. rewrite !orb_true_iff, !andb_true_iff, !N.leb_le.
  unfold v4_is_loopback, v4_is_private, v4_is_link_local, v4_is_unspecified, v4_is_multicast, v4_is_broadcast.
  rewrite ?orb_true_iff, ?andb_true_iff, ?N.leb_le, ?N.eqb_eq.
  destruct ip as [a b c d]. unfold v4_ok in Hip. cbn [v4_a v4_b v4_c v4_d] in *.
  unfold v4_to_u32, U32_MAX. cbn [v4_a v4_b v4_c v4_d].
  change (2 ^ 24) with 16777216. change (2 ^ 16) with 65536. change (2 ^ 8) with 256. change (2 ^ 32) with 4294967296.
  change (2 ^ (32 - 8)) with 16777216. change (2 ^ (32 - 10)) with 4194304. change (2 ^ (32 - 24)) with 256.
  change (2 ^ (32 - 15)) with 131072. change (2 ^ (32 - 4)) with 268435456.
  split.
  - intros H. repeat destruct H as [H|H]; pick.
  - intros H. assert (a < 240 \/ 240 <= a) as L by lia. repeat destruct H as [H|H]; destruct L; pick.
Qed.

Definition ip_ok (ip : IpAddr) : Prop := match ip with V4 ip => v4_ok ip | V6 ip => v6_ok ip end.

(** What an address must avoid to be public. *)
Definition non_public (ip : IpAddr) : bool :=
  match ip with
  | V4 ip => in_ranges reserved_v4 (v4_to_u32 ip)
  | V6 ip =>
      match v6_to_ipv4 ip with
      | Some v4 => in_ranges reserved_v4 (v4_to_u32 v4)
      | None => in_ranges reserved_v6 (seg0 ip)
      end
  end.

(** A 16-bit mask of leading ones, as one of 32 bits. *)
Lemma land_seg x k : x < 65536 -> k < 32 ->
  N.land x (N.land 0xffff (u32_shl U32_MAX k)) = 2 ^ k * (x / 2 ^ k).
Proof.
  intros Hx Hk. rewrite N.land_assoc. change 0xffff with (N.ones 16). rewrite N.land_ones.
  change (2 ^ 16) with 65536. rewrite N.mod_small by done. apply land_mask; [|done].
  change (2 ^ 32) with 4294967296. lia.
Qed.

Lemma seg_block x k base : x < 65536 -> k < 32 -> base mod 2 ^ k = 0 ->
  N.land x (N.land 0xffff (u32_shl U32_MAX k)) = base <-> base <= x < base + 2 ^ k.
Proof.
  intros Hx Hk Hb. rewrite land_seg by done. rewrite <- (same_block (2 ^ k) x base); [|by apply N.pow_nonzero|done].
  pose proof (N.div_mod base (2 ^ k)) as E. rewrite Hb, N.add_0_r in E. rewrite <- E by (by apply N.pow_nonzero). done.
Qed.

Lemma v6_to_ipv4_ok ip v4 : v6_ok ip -> v6_to_ipv4 ip = Some v4 -> v4_ok v4.
Proof.
  unfold v6_to_ipv4, v6_ok, v4_ok. destruct (_ && _); [|done]. intros Hs [= <-]. simpl.
  repeat split; try (apply N.mod_lt; done); apply N.Div0.div_lt_upper_bound; lia.
Qed.

(** The classification of the proxy is the table: an address is not public if
    it is in one of the reserved ranges, where an IPv6 address that contains
    an IPv4 one counts as that. *)
Theorem is_non_public_ip_spec (ip : IpAddr) : ip_ok ip -> is_non_public_ip ip = non_public ip.
Proof.
  destruct ip as [ip|ip]; simpl; intros Hip; [by apply is_non_public_ipv4_ranges|].
  unfold is_non_public_ipv6. destruct (v6_to_ipv4 ip) as [v4|] eqn:E.
  - rewrite is_non_public_ipv4_ranges by (by eapply v6_to_ipv4_ok). unfold v6_is_loopback.
    case_bool_decide as L; [|by rewrite orb_false_r]. unfold v6_segments in L. injection L as E0 E1 E2 E3 E4 E5 E6 E7.
    unfold v6_to_ipv4 in E. rewrite E0, E1, E2, E3, E4, E5, E6, E7 in E. injection E as <-. reflexivity.
  - apply bool_eq_iff. unfold v6_is_unique_local, v6_is_unicast_link_local, v6_is_multicast.
    change 0xfe00 with (N.land 0xffff (u32_shl U32_MAX 9)). change 0xffc0 with (N.land 0xffff (u32_shl U32_MAX 6)).
    destruct Hip as (H0 & _). unfold in_ranges, reserved_v6. cbn [existsb fst snd].
    rewrite !orb_true_iff, !andb_true_iff, !N.leb_le, !N.eqb_eq, !seg_block by done.
    unfold v6_is_loopback, v6_is_unspecified. rewrite !bool_decide_eq_true.
    assert (v6_segments ip <> [0; 0; 0; 0; 0; 0; 0; 1] /\ v6_segments ip <> repeat 0 8) as [N1 N2].
    { unfold v6_to_ipv4 in E. unfold v6_segments.
      split; intros [= E0 E1 E2 E3 E4 E5 E6 E7]; rewrite E0, E1, E2, E3, E4, E5 in E; done. }
    pose proof (N.div_mod (seg0 ip) 256 ltac:(done)) as D. pose proof (N.mod_lt (seg0 ip) 256 ltac:(done)) as M.
    revert D M. generalize (seg0 ip / 256) (seg0 ip mod 256). intros q r D M.
    change (2 ^ 9) with 512. change (2 ^ 6) with 64. split.
    + intros H. repeat destruct H as [H|H]; try done; pick.
    + intros H. repeat destruct H as [H|H]; try done; pick.
Qed.

(** ** The parser gives addresses *)

Lemma read_number_lt radix n z bound s x rest : read_number radix n z bound s = Some (x, rest) -> x < bound.
Proof.
  unfold read_number. destruct (read_digits radix n 0 0 s) as [[[result count] r]|]; [|done].
  destruct (count =? 0)%nat; [done|]. destruct (_ && (1 <? count)%nat); [done|].
  destruct (N.ltb_spec result bound); [|done]. by intros [= <- _].
Qed.

Lemma read_separator_inner {A} sep i (inner : str -> option (A * str)) s r :
  read_separator sep i inner s = Some r -> exists s', inner s' = Some r.
Proof. destruct i; simpl; [by exists s|]. destruct (read_given_char sep s); simpl; [|done]. by eexists. Qed.

Lemma read_octet_lt i s x rest : read_octet i s = Some (x, rest) -> x < 256.
Proof. intros (s' & H)%read_separator_inner. by eapply read_number_lt. Qed.

Lemma read_ipv4_ok s ip rest : read_ipv4_addr s = Some (ip, rest) -> v4_ok ip.
Proof.
  unfold read_ipv4_addr. destruct (read_octet 0 s) as [[a s1]|] eqn:E1; simpl; [|done].
  destruct (read_octet 1 s1) as [[b s2]|] eqn:E2; simpl; [|done].
  destruct (read_octet 2 s2) as [[c s3]|] eqn:E3; simpl; [|done].
  destruct (read_octet 3 s3) as [[d s4]|] eqn:E4; simpl; [|done]. intros [= <- _].
  split_and!; simpl; by eapply read_octet_lt.
Qed.

Lemma read_groups_lt slots i s l v4 rest : read_groups slots i s = (l, v4, rest) ->
  Forall (fun g => g < 65536) l.
Proof.
  revert i s l v4 rest. induction slots as [|slots IH]; intros i s l v4 rest; cbn [read_groups]; [by intros [= <- _ _]|].
  destruct (if (1 <? S slots)%nat then _ else None) as [[[a b c d] s']|] eqn:E.
  - intros [= <- _ _]. assert (v4_ok (mkV4 a b c d)) as (Ha & Hb & Hc & Hd).
    { destruct (1 <? S slots)%nat; [|done]. apply read_separator_inner in E as (? & E). by eapply read_ipv4_ok. }
    simpl in *. repeat constructor; lia.
  - destruct (read_separator (ch ":") i (read_number 16 4 true 65536) s) as [[g s']|] eqn:E'; [|by intros [= <- _ _]].
    destruct (read_groups slots (S i) s') as [[l' v4'] s''] eqn:E''. intros [= <- _ _].
    apply read_separator_inner in E' as (? & E'). constructor; [by eapply read_number_lt|by eapply IH].
Qed.

Lemma v6_of_list_ok l ip : Forall (fun g => g < 65536) l -> v6_of_list l = Some ip -> v6_ok ip.
Proof.
  intros Hl E. do 8 (destruct l as [|? l]; [done|]). destruct l; [|done]. injection E as <-.
  rewrite !Forall_cons in Hl. unfold v6_ok. simpl. tauto.
Qed.

Lemma read_ipv6_ok s ip rest : read_ipv6_addr s = Some (ip, rest) -> v6_ok ip.
Proof.
  unfold read_ipv6_addr. destruct (read_groups 8 0 s) as [[head v4] s1] eqn:E. apply read_groups_lt in E.
  destruct (length head =? 8)%nat.
  - destruct (v6_of_list head) eqn:Eh; simpl; [|done]. intros [= <- _]. by eapply v6_of_list_ok.
  - destruct v4; [done|]. destruct (read_given_char _ s1) as [s2|]; simpl; [|done].
    destruct (read_given_char _ s2) as [s3|]; simpl; [|done].
    destruct (read_groups _ 0 s3) as [[tail v4'] s4] eqn:Et. apply read_groups_lt in Et.
    destruct (v6_of_list _) eqn:Eh; simpl; [|done]. intros [= <- _]. eapply v6_of_list_ok; [|done].
    apply Forall_app. split; [done|]. apply Forall_app. split; [|done]. apply Forall_forall.
    intros x ->%list_elem_of_In%repeat_spec. lia.
Qed.

Lemma parse_ip_ok s ip : parse_ip s = Some ip -> ip_ok ip.
Proof.
  unfold parse_ip. destruct (read_ipv4_addr s) as [[v4 rest]|] eqn:E4; simpl.
  - destruct (is_empty rest); [|done]. intros [= <-]. by eapply read_ipv4_ok.
  - destruct (read_ipv6_addr s) as [[v6 rest]|] eqn:E6; simpl; [|done].
    destruct (is_empty rest); [|done]. intros [= <-]. by eapply read_ipv6_ok.
Qed.

(** ** Examples *)

Example parse_some : map (fun s => parse_ip (lit s)) ["127.0.0.1"; "::1"; "::ffff:10.0.0.1"; "fe80::1"; "1::8"]%string
  = [Some (V4 (mkV4 127 0 0 1)); Some (V6 (mkV6 0 0 0 0 0 0 0 1)); Some (V6 (mkV6 0 0 0 0 0 0xffff 0x0a00 1));
     Some (V6 (mkV6 0xfe80 0 0 0 0 0 0 1)); Some (V6 (mkV6 1 0 0 0 0 0 0 8))].
Proof. reflexivity. Qed.

Example parse_none : forallb (fun s => bool_decide (parse_ip (lit s) = None))
  ["01.2.3.4"; "1.2.3"; "256.0.0.1"; "1:2:3:4:5:6:7"; "::1%eth0"; "[::1]"; "1::2::3"; "12345::"; "1.2.3.4 "]%string = true.
Proof. reflexivity. Qed.

Lemma is_non_public_ip_spec_witness :
  parse_ip (lit "::ffff:192.168.1.1") = Some (V6 (mkV6 0 0 0 0 0 0xffff 0xc0a8 0x0101)) /\
  is_non_public_ip (V6 (mkV6 0 0 0 0 0 0xffff 0xc0a8 0x0101)) = true.
Proof.
  split; [reflexivity|]. rewrite is_non_public_ip_spec; [reflexivity|].
  apply (parse_ip_ok (lit "::ffff:192.168.1.1")). reflexivity.
Defined.

(** Site-local and documentation addresses, and an IPv4 address behind the
    well-known prefix of NAT64, count as public. *)
Example not_routable_but_public :
  map (fun s => is_non_public_ip <$> parse_ip (lit s)) ["fec0::1"; "2001:db8::1"; "64:ff9b::10.0.0.1"]%string
  = [Some false; Some false; Some false].
Proof. reflexivity. Qed.
