(* ===== verification/DomainPolicy.v ===== *)
(** * DomainPolicy: hosts and the patterns that allow or deny them

    [network-proxy/src/policy.rs].  The crates [globset] and [url] are
    parameters: whether a glob compiles and what it matches is the class
    [Globs], with the documented behaviour that the theorems need as the class
    [GlobLaws]; [url_host] is [url::Host::parse] followed by its display. *)

From S2P Require Import Prelude Trim TextSearch IpAddr.
Local Open Scope str_scope.

(** An [anyhow] error is its chain of messages, the outermost first. *)
Abbreviation anyhow := (result (list str)).
Definition with_context {A} (msg : str) (r : anyhow A) : anyhow A := map_err (cons msg) r.
Definition bail {A} (msg : str) : anyhow A := Err [msg].

(** ** Hosts *)

Definition is_dot (c : N) : bool := N.eqb (ch ".") c.

Definition normalize_dns_host (host : str) : str := trim_end_matches is_dot (to_ascii_lowercase host).

Definition count_colons (s : str) : nat := length (List.filter (N.eqb (ch ":")) s).

(** The end of a bracketed literal *)
Definition bracket_end (host : str) : option nat :=
  if starts_with host [ch "["] then find_index (N.eqb (ch "]")) host else None.

Definition normalize_host (host : str) : str :=
  let host := trim host in
  match bracket_end host with
  | Some e => normalize_dns_host (drop 1 (take e host))
  | None =>
      if Nat.eqb (count_colons host) 1
      then normalize_dns_host (default [] (head (split_char (ch ":") host)))
      else normalize_dns_host host
  end.

(** A [Host] is its normal form. *)
Definition host_parse (input : str) : anyhow str :=
  let normalized := normalize_host input in
  if is_empty normalized then bail (lit "host is empty") else Ok normalized.

(** What is in front of the scope of an address *)
Definition without_scope (host : str) : str :=
  match split_once (ch "%") host with Some (ip, _) => ip | None => host end.

Definition is_loopback_host (host : str) : bool :=
  let host := without_scope host in
  if host =? lit "localhost" then true
  else match parse_ip host with Some ip => ip_is_loopback ip | None => false end.

(** ** Patterns *)

Definition normalize_pattern (pattern : str) : str :=
  let pattern := trim pattern in
  if pattern =? lit "*" then lit "*"
  else
    let '(prefix, remainder) :=
      match strip_prefix (lit "**.") pattern with
      | Some domain => (lit "**.", domain)
      | None =>
          match strip_prefix (lit "*.") pattern with
          | Some domain => (lit "*.", domain)
          | None => ([], pattern)
          end
      end in
    let remainder := normalize_host remainder in
    if is_empty prefix then remainder else prefix ++ remainder.

Inductive DomainPattern : Type :=
| ApexAndSubdomains (domain : str)
| SubdomainsOnly (domain : str)
| Exact (domain : str).

Definition parse_domain (domain : str) (build : str -> DomainPattern) : DomainPattern :=
  let domain := trim domain in
  if is_empty domain then Exact [] else build domain.

Definition pattern_parse (input : str) : DomainPattern :=
  let input := trim input in
  if is_empty input then Exact []
  else match strip_prefix (lit "**.") input with
       | Some domain => parse_domain domain ApexAndSubdomains
       | None =>
           match strip_prefix (lit "*.") input with
           | Some domain => parse_domain domain SubdomainsOnly
           | None => Exact input
           end
       end.

Definition expand_domain_pattern (pattern : str) : list str :=
  match pattern_parse pattern with
  | Exact domain => [domain]
  | SubdomainsOnly domain => [lit "?*." ++ domain]
  | ApexAndSubdomains domain => [domain; lit "?*." ++ domain]
  end.

Definition is_global_wildcard_domain_pattern (pattern : str) : bool :=
  existsb (fun candidate => candidate =? lit "*") (expand_domain_pattern (normalize_pattern pattern)).

(** *** Comparing patterns *)

Definition normalize_domain (domain : str) : str := to_ascii_lowercase (trim_end_matches is_dot domain).

Definition domain_eq (left right : str) : bool := normalize_domain left =? normalize_domain right.

Definition is_subdomain_or_equal (child parent : str) : bool :=
  let child := normalize_domain child in
  let parent := normalize_domain parent in
  if child =? parent then true else ends_with child (lit "." ++ parent).

Definition is_strict_subdomain (child parent : str) : bool :=
  let child := normalize_domain child in
  let parent := normalize_domain parent in
  negb (child =? parent) && ends_with child (lit "." ++ parent).

Definition pattern_allows (self candidate : DomainPattern) : bool :=
  match self with
  | Exact domain =>
      match candidate with
      | Exact candidate => domain_eq candidate domain
      | _ => false
      end
  | SubdomainsOnly domain =>
      match candidate with
      | Exact candidate => is_strict_subdomain candidate domain
      | SubdomainsOnly candidate => is_subdomain_or_equal candidate domain
      | ApexAndSubdomains candidate => is_strict_subdomain candidate domain
      end
  | ApexAndSubdomains domain =>
      match candidate with
      | Exact candidate => is_subdomain_or_equal candidate domain
      | SubdomainsOnly candidate => is_subdomain_or_equal candidate domain
      | ApexAndSubdomains candidate => is_subdomain_or_equal candidate domain
      end
  end.

Section Constraints.
Context (url_host : str -> option str).

Definition parse_domain_for_constraints (domain : str) : str :=
  let domain := trim_end_matches is_dot (trim domain) in
  if is_empty domain then []
  else
    let host :=
      if starts_with domain [ch "["] && ends_with domain [ch "]"]
      then drop 1 (take (length domain - 1) domain) else domain in
    if contains_char host (ch "*") || contains_char host (ch "?") || contains_char host (ch "%")
    then domain
    else default [] (url_host host).

Definition parse_for_constraints (input : str) : DomainPattern :=
  let input := trim input in
  if is_empty input then Exact []
  else match strip_prefix (lit "**.") input with
       | Some domain => ApexAndSubdomains (parse_domain_for_constraints domain)
       | None =>
           match strip_prefix (lit "*.") input with
           | Some domain => SubdomainsOnly (parse_domain_for_constraints domain)
           | None => Exact (parse_domain_for_constraints input)
           end
       end.
End Constraints.

(** ** Compiling *)

Class Globs : Type := {
  (** [GlobBuilder::new(pattern).case_insensitive(true).build()] *)
  glob_build : str -> anyhow unit;
  (** [GlobSetBuilder::build] for globs that were built *)
  globset_build : list str -> anyhow unit;
  (** a built glob on a text *)
  glob_match : str -> str -> bool;
}.

(** A [GlobSet] is the list of its globs. *)
Definition GlobSet : Type := list str.

Inductive GlobalWildcard : Type := WildcardAllow | WildcardReject.

Section Compile.
Context `{Globs}.

Definition is_match (self : GlobSet) (host : str) : bool := existsb (fun glob => glob_match glob host) self.

(** One candidate: skipped when it has been seen; [seen] is the set that is built. *)
Definition add_candidate (builder : anyhow (list str)) (candidate : str) : anyhow (list str) :=
  builder ← builder;
  if one_of candidate builder then Ok builder
  else
    _ ← with_context (lit "invalid glob pattern: " ++ candidate) (glob_build candidate);
    Ok (builder ++ [candidate]).

Definition add_pattern (global_wildcard : GlobalWildcard) (builder : anyhow (list str)) (pattern : str)
    : anyhow (list str) :=
  builder ← builder;
  if match global_wildcard with
     | WildcardReject => is_global_wildcard_domain_pattern pattern
     | WildcardAllow => false
     end
  then bail (lit "unsupported global wildcard domain pattern " ++ [34%N] ++ lit "*" ++ [34%N]
             ++ lit "; use exact hosts or scoped wildcards like *.example.com or **.example.com")
  else fold_left add_candidate (expand_domain_pattern (normalize_pattern pattern)) (Ok builder).

Definition compile_globset_with_policy (patterns : list str) (global_wildcard : GlobalWildcard)
    : anyhow GlobSet :=
  builder ← fold_left (add_pattern global_wildcard) patterns (Ok []);
  _ ← globset_build builder;
  Ok builder.

Definition compile_allowlist_globset (patterns : list str) : anyhow GlobSet :=
  compile_globset_with_policy patterns WildcardAllow.
Definition compile_denylist_globset (patterns : list str) : anyhow GlobSet :=
  compile_globset_with_policy patterns WildcardReject.
End Compile.

(** ** Domains *)

Lemma trim_end_matches_app f s t : trim_end_matches f t <> [] ->
  trim_end_matches f (s ++ t) = s ++ trim_end_matches f t.
Proof.
  unfold trim_end_matches. intros H. rewrite rev_app_distr, drop_while_app.
  - by rewrite rev_app_distr, rev_involutive.
  - intros E. by rewrite E in H.
Qed.

Lemma trim_end_matches_idemp f s : trim_end_matches f (trim_end_matches f s) = trim_end_matches f s.
Proof. unfold trim_end_matches. by rewrite rev_involutive, drop_while_idemp. Qed.

Lemma to_lowercase_app s t : to_ascii_lowercase (s ++ t) = to_ascii_lowercase s ++ to_ascii_lowercase t.
Proof. apply map_app. Qed.

Lemma to_lowercase_char_idemp c : to_ascii_lowercase_char (to_ascii_lowercase_char c) = to_ascii_lowercase_char c.
Proof.
  unfold to_ascii_lowercase_char. destruct (65 <=? c)%N eqn:E1, (c <=? 90)%N eqn:E2; simpl; rewrite ?E1, ?E2; try done.
  apply N.leb_le in E1, E2. rewrite (proj2 (N.leb_gt (c + 32) 90)) by lia. by rewrite andb_false_r.
Qed.

Lemma to_lowercase_idemp s : to_ascii_lowercase (to_ascii_lowercase s) = to_ascii_lowercase s.
Proof. unfold to_ascii_lowercase. rewrite map_map. apply map_ext, to_lowercase_char_idemp. Qed.

Lemma is_dot_lower c : is_dot (to_ascii_lowercase_char c) = is_dot c.
Proof.
  unfold is_dot, to_ascii_lowercase_char. destruct (_ && _) eqn:E; [|done].
  apply andb_true_iff in E as [?%N.leb_le ?%N.leb_le].
  rewrite !(proj2 (N.eqb_neq _ _)); [done|change (ch ".") with 46%N; lia..].
Qed.

Lemma drop_while_map (f : N -> bool) (g : N -> N) s : (forall c, f (g c) = f c) ->
  drop_while f (map g s) = map g (drop_while f s).
Proof. intros Hf. induction s as [|c s IH]; simpl; [done|]. rewrite Hf. by destruct (f c). Qed.

(** The two normal forms are one: the order of trimming and lowering is free. *)
Lemma normalize_dns_host_domain s : normalize_dns_host s = normalize_domain s.
Proof.
  unfold normalize_dns_host, normalize_domain, trim_end_matches, to_ascii_lowercase.
  by rewrite <- map_rev, drop_while_map, map_rev by apply is_dot_lower.
Qed.

Lemma normalize_domain_idemp s : normalize_domain (normalize_domain s) = normalize_domain s.
Proof.
  rewrite <- (normalize_dns_host_domain s) at 1. unfold normalize_domain at 1, normalize_dns_host.
  rewrite trim_end_matches_idemp. fold (normalize_dns_host s). rewrite normalize_dns_host_domain.
  unfold normalize_domain. apply to_lowercase_idemp.
Qed.

Lemma normalize_domain_app s t : normalize_domain t <> [] ->
  normalize_domain (s ++ t) = to_ascii_lowercase s ++ normalize_domain t.
Proof.
  rewrite <- !normalize_dns_host_domain. unfold normalize_dns_host. intros H.
  by rewrite to_lowercase_app, trim_end_matches_app.
Qed.

(** Below a domain, between normal forms *)
Definition below (child parent : str) : Prop := exists r, child = r ++ ch "." :: parent.

Lemma below_trans a b c : below a b -> below b c -> below a c.
Proof. intros [r ->] [s ->]. exists (r ++ ch "." :: s). by rewrite <- app_assoc. Qed.

Lemma below_neq a b : below a b -> a <> b.
Proof. intros [r ->] E. apply (f_equal length) in E. rewrite length_app in E. simpl in E. lia. Qed.

Lemma is_strict_subdomain_spec c p :
  is_strict_subdomain c p = true <-> below (normalize_domain c) (normalize_domain p).
Proof.
  unfold is_strict_subdomain, below. rewrite andb_true_iff, negb_true_iff, bool_decide_eq_false, ends_with_true.
  split; [by intros [_ ?]|]. intros H. split; [by apply below_neq|done].
Qed.

Lemma is_subdomain_or_equal_spec c p : is_subdomain_or_equal c p = true <->
  normalize_domain c = normalize_domain p \/ below (normalize_domain c) (normalize_domain p).
Proof.
  unfold is_subdomain_or_equal, below. case_bool_decide as E; [tauto|]. rewrite ends_with_true. tauto.
Qed.

Lemma domain_eq_spec l r : domain_eq l r = true <-> normalize_domain l = normalize_domain r.
Proof. apply bool_decide_eq_true. Qed.

(** *** The hosts of a pattern *)

Definition pattern_domain (p : DomainPattern) : str :=
  match p with ApexAndSubdomains d | SubdomainsOnly d | Exact d => d end.

(** A pattern is the set of hosts it stands for. *)
Definition covers (p : DomainPattern) (host : str) : Prop :=
  let h := normalize_domain host in
  let d := normalize_domain (pattern_domain p) in
  match p with
  | Exact _ => h = d
  | SubdomainsOnly _ => below h d
  | ApexAndSubdomains _ => h = d \/ below h d
  end.

Lemma normalize_label x d : normalize_domain d <> [] ->
  normalize_domain (x ++ ch "." :: d) = to_ascii_lowercase x ++ ch "." :: normalize_domain d.
Proof. intros H. change (ch "." :: d) with ([ch "."] ++ d). by rewrite app_assoc, normalize_domain_app, to_lowercase_app, <- app_assoc. Qed.

(** What a one-letter label on [d] is below, [d] is or is below. *)
Lemma below_label a d e : a <> ch "." -> below (a :: ch "." :: d) e -> d = e \/ below d e.
Proof. intros Ha [[|x [|y r]] E]; simplify_list_eq; [by left|]. right. by exists r. Qed.

Lemma allows_inclusion (p c : DomainPattern) : normalize_domain (pattern_domain c) <> [] ->
  pattern_allows p c = true <-> forall host, covers c host -> covers p host.
Proof.
  intros Hc. pose proof (fun x => normalize_label x (pattern_domain c) Hc) as Hl.
  pose proof (Hl [ch "x"] : normalize_domain (ch "x" :: ch "." :: pattern_domain c) = _) as Hx.
  pose proof (Hl [ch "y"] : normalize_domain (ch "y" :: ch "." :: pattern_domain c) = _) as Hy. clear Hl.
  unfold covers. destruct p as [d|d|d], c as [e|e|e]; cbn [pattern_domain pattern_allows] in *;
    rewrite ?is_strict_subdomain_spec, ?is_subdomain_or_equal_spec, ?domain_eq_spec.
  - split; [intros [E|E] host [->|Hb]; rewrite <- ?E; eauto using below_trans|].
    intros Hi. apply (Hi e). by left.
  - split; [intros [E|E] host Hb; rewrite <- ?E; eauto using below_trans|]. intros Hi.
    pose proof (Hi (ch "x" :: ch "." :: e)) as H1. pose proof (Hi (ch "y" :: ch "." :: e)) as H2.
    rewrite Hx in H1. rewrite Hy in H2. destruct H1 as [H1|H1]; [by exists [ch "x"]| |by apply below_label in H1].
    destruct H2 as [H2|H2]; [by exists [ch "y"]| |by apply below_label in H2]. by rewrite <- H1 in H2.
  - split; [by intros ? host ->|]. intros Hi. by apply (Hi e).
  - split; [intros E host [->|Hb]; eauto using below_trans|]. intros Hi. apply (Hi e). by left.
  - split; [intros [E|E] host Hb; rewrite <- ?E; eauto using below_trans|]. intros Hi.
    specialize (Hi (ch "x" :: ch "." :: e)). rewrite Hx in Hi. eapply (below_label (ch "x")), Hi; [done|].
    by exists [ch "x"].
  - split; [by intros ? host ->|]. intros Hi. by apply (Hi e).
  - split; [done|]. intros Hi. pose proof (Hi (ch "x" :: ch "." :: e)) as H1. pose proof (Hi e) as H2.
    rewrite Hx in H1. rewrite <- H2 in H1 by (by left). exfalso.
    refine (below_neq _ _ _ (H1 _)); [by exists [ch "x"]|right; by exists [ch "x"]].
  - split; [done|]. intros Hi. pose proof (Hi (ch "x" :: ch "." :: e)) as H1. pose proof (Hi (ch "y" :: ch "." :: e)) as H2.
    rewrite Hx in H1. rewrite Hy in H2. rewrite <- H2 in H1 by (by exists [ch "y"]).
    discriminate H1. by exists [ch "x"].
  - split; [by intros -> host ->|]. intros Hi. by apply (Hi e).
Qed.

(** The comparison that keeps a user's allowlist inside the managed one is
    the inclusion of the sets of hosts: a pattern is accepted exactly if every
    host it stands for is one of the managed pattern's. *)
Theorem pattern_allows_spec (p c : DomainPattern) : normalize_domain (pattern_domain c) <> [] ->
  pattern_allows p c = true <-> forall host, covers c host -> covers p host.
Proof. apply allows_inclusion. Qed.

(** ** What a compiled set matches *)

Definition is_metachar (c : N) : bool := one_of [c] (map (fun a => [ch a]) ["*"; "?"; "["; "]"; "{"; "}"; "\"]%char).

(** A text that a glob takes literally *)
Definition literal (s : str) : Prop := Forall (fun c => is_metachar c = false) s.

(** The documented behaviour of globs that ignore the case of ASCII letters *)
Class GlobLaws `{Globs} : Prop := {
  glob_literal p s : literal p -> glob_match p s = true <-> to_ascii_lowercase s = to_ascii_lowercase p;
  glob_below d s : literal d -> glob_match (lit "?*." ++ d) s = true <->
    exists x t, x <> [] /\ s = x ++ ch "." :: t /\ to_ascii_lowercase t = to_ascii_lowercase d;
}.

Section Matching.
Context `{Globs}.

Lemma fold_left_err {A} (f : anyhow A -> str -> anyhow A) l e : (forall e x, f (Err e) x = Err e) ->
  fold_left f l (Err e) = Err e.
Proof. intros Hf. induction l as [|x l IH]; simpl; [done|]. by rewrite Hf. Qed.

Lemma add_candidate_spec builder c builder' : add_candidate (Ok builder) c = Ok builder' ->
  forall g, g ∈ builder' <-> g ∈ builder \/ g = c.
Proof.
  unfold add_candidate. cbn [mbind result_bind]. destruct (one_of c builder) eqn:E.
  - apply one_of_In in E. intros [= <-] g. split; [by left|]. by intros [?| ->].
  - destruct (with_context _ _); [|done]. intros [= <-] g. by rewrite elem_of_app, list_elem_of_singleton.
Qed.

Lemma add_candidates_spec l builder builder' : fold_left add_candidate l (Ok builder) = Ok builder' ->
  forall g, g ∈ builder' <-> g ∈ builder \/ g ∈ l.
Proof.
  revert builder. induction l as [|c l IH]; intros builder; cbn [fold_left].
  - intros [= <-] g. rewrite elem_of_nil. tauto.
  - destruct (add_candidate (Ok builder) c) as [b|e] eqn:E; [|by rewrite fold_left_err].
    intros Hf g. rewrite (IH b Hf), (add_candidate_spec _ _ _ E), elem_of_cons. tauto.
Qed.

(** The candidates of a list of patterns *)
Definition candidates (patterns : list str) : list str :=
  p ← patterns; expand_domain_pattern (normalize_pattern p).

Lemma add_patterns_spec w l builder builder' : fold_left (add_pattern w) l (Ok builder) = Ok builder' ->
  forall g, g ∈ builder' <-> g ∈ builder \/ g ∈ candidates l.
Proof.
  revert builder. induction l as [|p l IH]; intros builder; cbn [fold_left].
  - intros [= <-] g. unfold candidates. simpl. rewrite elem_of_nil. tauto.
  - destruct (add_pattern w (Ok builder) p) as [b|e] eqn:E; [|by rewrite fold_left_err].
    intros Hf g. rewrite (IH b Hf). unfold add_pattern in E. cbn [mbind result_bind] in E.
    destruct (match w with WildcardAllow => _ | WildcardReject => _ end); [done|].
    rewrite (add_candidates_spec _ _ _ E). unfold candidates. rewrite bind_list_cons, elem_of_app. tauto.
Qed.

Lemma is_match_spec set host : is_match set host = true <-> exists g, g ∈ set /\ glob_match g host = true.
Proof. unfold is_match. rewrite existsb_exists. by setoid_rewrite <- list_elem_of_In. Qed.

(** A compiled set matches what one of the candidates matches. *)
Lemma compiled_match w patterns set host : compile_globset_with_policy patterns w = Ok set ->
  is_match set host = true <-> exists g, g ∈ candidates patterns /\ glob_match g host = true.
Proof.
  unfold compile_globset_with_policy. destruct (fold_left _ patterns (Ok [])) as [b|e] eqn:E; simpl; [|done].
  destruct (globset_build b); simpl; [|done]. intros [= <-]. rewrite is_match_spec.
  setoid_rewrite (add_patterns_spec _ _ _ _ E). split; intros (g & Hg & Hm); exists g; split; auto.
  by destruct Hg as [?%elem_of_nil|?].
Qed.

Lemma add_pattern_reject b p b' : add_pattern WildcardReject (Ok b) p = Ok b' ->
  is_global_wildcard_domain_pattern p = false.
Proof. unfold add_pattern. cbn [mbind result_bind]. by destruct (is_global_wildcard_domain_pattern p). Qed.

Lemma compiled_reject patterns set : compile_denylist_globset patterns = Ok set ->
  Forall (fun p => is_global_wildcard_domain_pattern p = false) patterns.
Proof.
  unfold compile_denylist_globset, compile_globset_with_policy. generalize (@nil str) as b.
  induction patterns as [|p l IH]; intros b; cbn [fold_left]; [by constructor|].
  destruct (add_pattern WildcardReject (Ok b) p) as [b'|e] eqn:E; [|by rewrite fold_left_err].
  intros Hc. constructor; [by eapply add_pattern_reject|by apply (IH b')].
Qed.

(** ** Plain patterns *)

(** Its domain is literal and in normal form. *)
Definition plain_pattern (p : str) : Prop :=
  let d := pattern_domain (pattern_parse (normalize_pattern p)) in
  literal d /\ normalize_domain d = d /\ d <> [].

Definition plain_host (host : str) : Prop := normalize_domain host = host /\ head host <> Some (ch ".").

Lemma normal_lower s : normalize_domain s = s -> to_ascii_lowercase s = s.
Proof. intros E. rewrite <- E. unfold normalize_domain. apply to_lowercase_idemp. Qed.

Context `{!GlobLaws}.

(** The candidates of a plain pattern match the hosts it stands for. *)
Lemma expand_covers p host : plain_pattern p -> plain_host host ->
  (exists g, g ∈ expand_domain_pattern (normalize_pattern p) /\ glob_match g host = true) <->
  covers (pattern_parse (normalize_pattern p)) host.
Proof.
  unfold plain_pattern, expand_domain_pattern, covers. intros (Hlit & Hn & _) [Hh Hdot]. rewrite Hh, Hn.
  set (d := pattern_domain _) in *. pose proof (normal_lower _ Hh) as Lh. pose proof (normal_lower _ Hn) as Ld.
  assert (glob_match d host = true <-> host = d) as HE by (by rewrite glob_literal, Lh, Ld).
  assert (glob_match (lit "?*." ++ d) host = true <-> below host d) as HB.
  { rewrite glob_below by done. split.
    - intros (x & t & _ & -> & Ht). exists x. rewrite to_lowercase_app in Lh. apply app_inj_1 in Lh as [_ Lh].
      + injection Lh as Lt. unfold to_ascii_lowercase in *. congruence.
      + unfold to_ascii_lowercase. by rewrite length_map.
    - intros [x ->]. exists x, d. split; [|done]. by intros ->. }
  destruct (pattern_parse (normalize_pattern p)) as [e|e|e]; subst d; cbn [pattern_domain] in *.
  - split; [intros (g & [->|[->|?%elem_of_nil]%elem_of_cons]%elem_of_cons & Hg); tauto|].
    intros [->|Hb]; [exists e|exists (lit "?*." ++ e)]; (split; [|tauto]); [left|right; left].
  - split; [intros (g & ->%list_elem_of_singleton & Hg); tauto|]. intros Hb. exists (lit "?*." ++ e).
    split; [left|tauto].
  - split; [intros (g & ->%list_elem_of_singleton & Hg); tauto|]. intros ->. exists e. split; [left|tauto].
Qed.

Lemma match_covers (w : GlobalWildcard) (patterns : list str) (set : GlobSet) (host : str) :
  compile_globset_with_policy patterns w = Ok set -> Forall plain_pattern patterns -> plain_host host ->
  is_match set host = true <->
  exists p, p ∈ patterns /\ covers (pattern_parse (normalize_pattern p)) host.
Proof.
  intros Hc Hp Hh. rewrite (compiled_match _ _ _ _ Hc). unfold candidates. setoid_rewrite list_elem_of_bind.
  rewrite Forall_forall in Hp. split.
  - intros (g & (p & Hg & Hin) & Hm). exists p. split; [done|]. apply expand_covers; eauto.
  - intros (p & Hin & Hcov). apply expand_covers in Hcov as (g & Hg & Hm); eauto 6.
Qed.

(** A compiled list of plain patterns matches exactly the hosts that its
    patterns stand for. *)
Theorem compiled_covers (w : GlobalWildcard) (patterns : list str) (set : GlobSet) (host : str) :
  compile_globset_with_policy patterns w = Ok set -> Forall plain_pattern patterns -> plain_host host ->
  is_match set host = true <->
  exists p, p ∈ patterns /\ covers (pattern_parse (normalize_pattern p)) host.
Proof. apply match_covers. Qed.
End Matching.

(** ** Normal forms of hosts *)

Lemma normalize_host_dns s : exists t, normalize_host s = normalize_domain t.
Proof.
  unfold normalize_host. destruct (bracket_end _); [|destruct (Nat.eqb _ _)];
    eexists; apply normalize_dns_host_domain.
Qed.

(** A host in normal form is lower case and ends in no dot. *)
Lemma normalize_host_normal s : normalize_domain (normalize_host s) = normalize_host s.
Proof. destruct (normalize_host_dns s) as [t ->]. apply normalize_domain_idemp. Qed.

Lemma host_parse_ok s h : host_parse s = Ok h -> h = normalize_host s /\ h <> [] /\ normalize_domain h = h.
Proof.
  unfold host_parse. destruct (is_empty (normalize_host s)) eqn:E; [done|]. intros [= <-].
  split; [done|]. split; [by destruct (normalize_host s)|]. apply normalize_host_normal.
Qed.

(** A host that is in normal form and has neither brackets nor a port *)
Definition bare_host (h : str) : Prop :=
  trim h = h /\ head h <> Some (ch "[") /\ count_colons h <> 1 /\ normalize_domain h = h.

Lemma bare_host_normalize h : bare_host h -> normalize_host h = h.
Proof.
  intros (Ht & Hb & Hc & Hn). unfold normalize_host. rewrite Ht.
  assert (bracket_end h = None) as ->.
  { unfold bracket_end. destruct (starts_with h [ch "["]) eqn:E; [|done].
    apply starts_with_true in E as [r ->]. by destruct Hb. }
  rewrite (proj2 (Nat.eqb_neq _ _)) by done. by rewrite normalize_dns_host_domain.
Qed.

(** *** Entries that are hosts *)

Lemma drop_while_keeps (f : N -> bool) x s : f x = false -> x ∈ s -> x ∈ drop_while f s.
Proof.
  intros Hf. induction s as [|y s IH]; simpl; [done|]. intros [->|Hs]%elem_of_cons; [rewrite Hf; left|].
  destruct (f y); [by apply IH|by right].
Qed.

Lemma normalize_dns_host_keeps c s : is_dot c = false -> to_ascii_lowercase_char c = c ->
  c ∈ s -> c ∈ normalize_dns_host s.
Proof.
  intros Hd Hl Hs. unfold normalize_dns_host, trim_end_matches. rewrite list_elem_of_In, <- in_rev, <- list_elem_of_In.
  apply drop_while_keeps; [done|]. rewrite list_elem_of_In, <- in_rev, <- list_elem_of_In. rewrite <- Hl.
  by apply list_elem_of_fmap_2.
Qed.

(** A star at the start stays. *)
Lemma normalize_host_star p r : trim p = ch "*" :: r -> ch "*" ∈ normalize_host p.
Proof.
  intros E. unfold normalize_host. rewrite E. change (bracket_end (ch "*" :: r)) with (@None nat). cbn iota.
  destruct (Nat.eqb _ _); apply normalize_dns_host_keeps; [done..| |done|done|left].
  cbn [split_char]. change (N.eqb (ch "*") (ch ":")) with false. cbn iota.
  destruct (split_char (ch ":") r); left.
Qed.

Lemma literal_no_star s : literal s -> ch "*" ∉ s.
Proof. unfold literal. rewrite Forall_forall. intros H Hs. by apply H in Hs. Qed.

Lemma strip_prefix_star p d : (strip_prefix (lit "**.") p = Some d \/ strip_prefix (lit "*.") p = Some d) ->
  exists r, p = ch "*" :: r.
Proof. intros [H|H]; apply strip_prefix_Some in H as ->; by eexists. Qed.

(** An entry whose host is literal is read as that host. *)
Lemma normalize_pattern_literal p : literal (normalize_host p) -> normalize_pattern p = normalize_host (trim p).
Proof.
  intros Hl. apply literal_no_star in Hl. unfold normalize_pattern.
  assert (forall r, trim p <> ch "*" :: r) as Hs by (intros r E; by apply Hl, (normalize_host_star p r)).
  case_bool_decide as E; [by destruct (Hs [])|].
  destruct (strip_prefix (lit "**.") (trim p)) as [d|] eqn:E1; [destruct (strip_prefix_star (trim p) d) as [r ?]; [by left|by destruct (Hs r)]|].
  destruct (strip_prefix (lit "*.") (trim p)) as [d|] eqn:E2; [destruct (strip_prefix_star (trim p) d) as [r ?]; [by right|by destruct (Hs r)]|].
  done.
Qed.

Lemma normalize_host_trim p : normalize_host (trim p) = normalize_host p.
Proof. unfold normalize_host. by rewrite trim_idemp. Qed.

Lemma pattern_parse_literal h : literal h -> trim h = h -> h <> [] -> pattern_parse h = Exact h.
Proof.
  intros Hl%literal_no_star Ht Hn. unfold pattern_parse. rewrite Ht. destruct h as [|c h']; [done|]. cbn [is_empty].
  destruct (strip_prefix (lit "**.") (c :: h')) as [d|] eqn:E1;
    [destruct (strip_prefix_star (c :: h') d) as [r [= -> _]]; [by left|destruct Hl; left]|].
  destruct (strip_prefix (lit "*.") (c :: h')) as [d|] eqn:E2;
    [destruct (strip_prefix_star (c :: h') d) as [r [= -> _]]; [by right|destruct Hl; left]|].
  done.
Qed.

(** A list with an entry for a literal host matches the host. *)
Lemma entry_matches `{GlobLaws} (w : GlobalWildcard) (patterns : list str) (set : GlobSet) (p : str) :
  compile_globset_with_policy patterns w = Ok set -> p ∈ patterns ->
  literal (normalize_host p) -> trim (normalize_host p) = normalize_host p -> normalize_host p <> [] ->
  is_match set (normalize_host p) = true.
Proof.
  intros Hc Hp Hl Ht Hn. apply (compiled_match _ _ _ _ Hc). exists (normalize_host p). split; [|by apply glob_literal].
  apply list_elem_of_bind. exists p. split; [|done]. unfold expand_domain_pattern.
  rewrite (normalize_pattern_literal p Hl), normalize_host_trim, (pattern_parse_literal _ Hl Ht Hn). left.
Qed.

(** ** Letters of either case *)

(** A test that does not tell the cases of a letter apart *)
Definition caseless (f : N -> bool) : Prop := forall c, f (to_ascii_lowercase_char c) = f c.

Lemma upper_cases c : to_ascii_lowercase_char c = c \/ ((65 <= c <= 90)%N /\ to_ascii_lowercase_char c = (c + 32)%N).
Proof.
  unfold to_ascii_lowercase_char. destruct (_ && _) eqn:E; [right|by left].
  apply andb_true_iff in E as [?%N.leb_le ?%N.leb_le]. split; [lia|done].
Qed.

Lemma caseless_eqb x : (x < 65)%N \/ (90 < x < 97)%N \/ (122 < x)%N -> caseless (N.eqb x).
Proof.
  intros Hx c. destruct (upper_cases c) as [->|[Hc ->]]; [done|].
  rewrite !(proj2 (N.eqb_neq _ _)); [done|lia..].
Qed.

Lemma caseless_whitespace : caseless is_whitespace.
Proof.
  intros c. destruct (upper_cases c) as [->|[Hc ->]]; [done|]. unfold is_whitespace.
  repeat match goal with |- context [(?a =? ?b)%N] => rewrite (proj2 (N.eqb_neq a b)) by lia end.
  repeat match goal with |- context [(?a <=? ?b)%N] => rewrite (proj2 (N.leb_gt a b)) by lia end.
  rewrite ?andb_false_r. reflexivity.
Qed.

Lemma trim_lower s : trim (to_ascii_lowercase s) = to_ascii_lowercase (trim s).
Proof.
  unfold trim, trim_start, trim_end, trim_start_matches, trim_end_matches, to_ascii_lowercase.
  by rewrite <- map_rev, (drop_while_map _ _ _ caseless_whitespace), <- map_rev, (drop_while_map _ _ _ caseless_whitespace).
Qed.

Lemma strip_prefix_lower p s : Forall (fun x => caseless (N.eqb x)) p ->
  strip_prefix p (to_ascii_lowercase s) = to_ascii_lowercase <$> strip_prefix p s.
Proof.
  intros Hp. revert s. induction Hp as [|x p Hx Hp IH]; intros s; [done|]. destruct s as [|c s]; [done|].
  assert (forall y z, strip_prefix (x :: p) (y :: z) = if N.eqb x y then strip_prefix p z else None) as E by done.
  change (to_ascii_lowercase (c :: s)) with (to_ascii_lowercase_char c :: to_ascii_lowercase s).
  rewrite !E, (Hx c). by destruct (N.eqb x c).
Qed.

Lemma find_index_lower f s : caseless f -> find_index f (to_ascii_lowercase s) = find_index f s.
Proof.
  intros Hf. induction s as [|c s IH]; [done|]. cbn [to_ascii_lowercase map find_index]. rewrite (Hf c).
  destruct (f c); [done|]. f_equal. exact IH.
Qed.

Lemma count_colons_lower s : count_colons (to_ascii_lowercase s) = count_colons s.
Proof.
  unfold count_colons. induction s as [|c s IH]; [done|]. cbn [to_ascii_lowercase map List.filter].
  rewrite (caseless_eqb (ch ":") ltac:(left; reflexivity) c). destruct (N.eqb _ c); cbn [length]; [f_equal|]; exact IH.
Qed.

Lemma head_split_char_lower x s : caseless (fun c => N.eqb c x) ->
  default [] (head (split_char x (to_ascii_lowercase s))) = to_ascii_lowercase (default [] (head (split_char x s))).
Proof.
  intros Hx. induction s as [|c s IH]; [done|]. cbn [to_ascii_lowercase map split_char]. rewrite (Hx c).
  destruct (N.eqb c x); [done|].
  unfold to_ascii_lowercase in IH at 1.
  destruct (split_char x s), (split_char x (map to_ascii_lowercase_char s)); simpl in *; by rewrite ?IH.
Qed.

Lemma normalize_dns_lower s : normalize_dns_host (to_ascii_lowercase s) = normalize_dns_host s.
Proof. unfold normalize_dns_host. by rewrite to_lowercase_idemp. Qed.

Lemma normalize_host_lower s : normalize_host (to_ascii_lowercase s) = normalize_host s.
Proof.
  unfold normalize_host. rewrite trim_lower, count_colons_lower.
  assert (bracket_end (to_ascii_lowercase (trim s)) = bracket_end (trim s)) as ->.
  { unfold bracket_end, starts_with. rewrite strip_prefix_lower, find_index_lower.
    - by destruct (strip_prefix _ _).
    - apply caseless_eqb. right. left. split; reflexivity.
    - repeat constructor. apply caseless_eqb. right. left. split; reflexivity. }
  destruct (bracket_end (trim s)).
  - unfold to_ascii_lowercase at 1. rewrite firstn_map, skipn_map. apply normalize_dns_lower.
  - destruct (Nat.eqb _ _); [|apply normalize_dns_lower]. rewrite head_split_char_lower; [apply normalize_dns_lower|].
    intros c. rewrite !(N.eqb_sym _ (ch ":")). apply caseless_eqb. left. reflexivity.
Qed.

(** Two spellings of a pattern are compiled to the same. *)
Lemma normalize_pattern_lower p : normalize_pattern (to_ascii_lowercase p) = normalize_pattern p.
Proof.
  unfold normalize_pattern. rewrite trim_lower, !strip_prefix_lower.
  - set (t := trim p). assert (bool_decide (to_ascii_lowercase t = lit "*") = bool_decide (t = lit "*")) as ->.
    { apply bool_decide_ext. split; [|by intros ->]. intros E. destruct t as [|c [|? ?]]; try discriminate E.
      injection E as E. destruct (upper_cases c) as [Ec|[Hc Ec]]; rewrite Ec in E; [by subst|].
      change (ch "*") with 42%N in E. lia. }
    destruct (bool_decide _); [done|]. destruct (strip_prefix (lit "**.") t) as [d|]; cbn [fmap option_fmap option_map].
    + cbn [is_empty]. by rewrite normalize_host_lower.
    + destruct (strip_prefix (lit "*.") t) as [d|]; cbn [fmap option_fmap option_map is_empty]; by rewrite normalize_host_lower.
  - repeat constructor; apply caseless_eqb; left; reflexivity.
  - repeat constructor; apply caseless_eqb; left; reflexivity.
Qed.

(** ** A matcher that obeys the laws *)

(** [?] is one character, [*] any number, and the rest themselves up to case. *)
Fixpoint star (f : str -> bool) (s : str) : bool :=
  f s || match s with [] => false | _ :: s => star f s end.

Fixpoint wild_match (p s : str) : bool :=
  match p with
  | [] => is_empty s
  | c :: p =>
      if N.eqb c (ch "*") then star (wild_match p) s
      else match s with
           | [] => false
           | d :: s =>
               (N.eqb c (ch "?") || N.eqb (to_ascii_lowercase_char c) (to_ascii_lowercase_char d))
               && wild_match p s
           end
  end.

#[local] Instance wild_globs : Globs := {|
  glob_build p := if existsb (fun c => one_of [c] [[ch "["]; [ch "{"]; [ch "}"]; [ch "\"]]) p then bail [] else Ok tt;
  globset_build _ := Ok tt;
  glob_match := wild_match;
|}.

Lemma metachar_neq c : is_metachar c = false -> c <> ch "*" /\ c <> ch "?".
Proof. intros H. split; intros ->; discriminate H. Qed.

Lemma wild_literal p s : literal p -> wild_match p s = true <-> to_ascii_lowercase s = to_ascii_lowercase p.
Proof.
  intros Hp. revert s. induction Hp as [|c p [Hs Hq]%metachar_neq Hp IH]; intros s; cbn [wild_match].
  - by destruct s.
  - rewrite (proj2 (N.eqb_neq c (ch "*")) Hs), (proj2 (N.eqb_neq c (ch "?")) Hq). simpl.
    destruct s as [|d s]; [done|]. rewrite andb_true_iff, N.eqb_eq, IH. simpl. split.
    + by intros [-> ->].
    + intros [= E1 E2]. by rewrite E1, E2.
Qed.

Lemma star_true f s : star f s = true <-> exists x t, s = x ++ t /\ f t = true.
Proof.
  induction s as [|c s IH]; simpl; rewrite orb_true_iff.
  - split; [intros [?|?]; [by exists [], []|done]|]. intros (x & t & E & Ht).
    symmetry in E. apply app_eq_nil in E as [-> ->]. by left.
  - rewrite IH. split; [intros [?|(x & t & -> & Ht)]; [by exists [], (c :: s)|by exists (c :: x), t]|].
    intros ([|y x] & t & E & Ht); [left; simpl in E; by rewrite E|]. injection E as _ ->. right. eauto.
Qed.

#[local] Instance wild_laws : GlobLaws.
Proof.
  split; [intros p s; apply wild_literal|]. intros d s Hd. cbn [glob_match wild_globs].
  change (lit "?*." ++ d) with (ch "?" :: ch "*" :: ch "." :: d).
  assert (literal (ch "." :: d)) as Hd' by (constructor; done).
  transitivity (exists c s', s = c :: s' /\ star (wild_match (ch "." :: d)) s' = true).
  { destruct s as [|c s']; [split; [done|by intros (? & ? & ? & _)]|]. split; [eauto|]. by intros (? & ? & [= <- <-] & ?). }
  setoid_rewrite star_true. split.
  - intros (c & s' & -> & x & t & -> & Ht). apply wild_literal in Ht; [|done]. destruct t as [|e t]; [done|].
    injection Ht as He Ht. exists (c :: x), t. split; [done|]. split; [|done].
    assert (e = ch ".") as ->; [|done]. revert He. unfold to_ascii_lowercase_char. change (ch ".") with 46%N.
    destruct (_ && _) eqn:E; simpl; [|done]. apply andb_true_iff in E as [?%N.leb_le _]. intros. lia.
  - intros ([|c x] & t & Hx & -> & Ht); [done|]. exists c, (x ++ ch "." :: t). split; [done|].
    exists x, (ch "." :: t). split; [done|]. apply wild_literal; [done|]. simpl. by f_equal.
Qed.

(** ** Examples *)

Example normalized_hosts : map (fun s => normalize_host (lit s))
  [" Example.COM.:443 "; "[::1]:443"; "2001:db8::1"; "localhost."]%string
  = map lit ["example.com"; "::1"; "2001:db8::1"; "localhost"]%string.
Proof. reflexivity. Qed.

(** The sub-domains of a managed domain may be allowed, the domain not. *)
Lemma pattern_allows_spec_witness :
  covers (SubdomainsOnly (lit "example.com")) (lit "api.example.com") /\
  pattern_allows (SubdomainsOnly (lit "example.com")) (ApexAndSubdomains (lit "Example.com.")) = false.
Proof.
  split.
  - apply (proj1 (pattern_allows_spec (SubdomainsOnly (lit "example.com")) (ApexAndSubdomains (lit "api.example.com"))
      ltac:(done)) eq_refl). by left.
  - reflexivity.
Defined.

Definition sample_patterns : list str := [lit "*.Example.com"; lit "internal.dev."].

Lemma sample_plain : Forall plain_pattern sample_patterns.
Proof. repeat constructor; simpl; try done; by vm_compute. Qed.

Lemma compiled_covers_witness : exists set, compile_denylist_globset sample_patterns = Ok set /\
  is_match set (lit "api.example.com") = true.
Proof.
  exists (candidates sample_patterns). split; [reflexivity|].
  apply (@compiled_covers wild_globs wild_laws WildcardReject sample_patterns (candidates sample_patterns) (lit "api.example.com") eq_refl sample_plain
           ltac:(split; [reflexivity|done])).
  exists (lit "*.Example.com"). split; [left|]. exists (lit "api"). reflexivity.
Defined.

(** Only the pattern [*] itself is recognised as the one for all hosts: [**]
    and [?*] match every host as well, and the denylist takes them. *)
Example other_global_wildcards :
  map (fun p => is_global_wildcard_domain_pattern (lit p)) ["*"; "**"; "?*"]%string = [true; false; false] /\
  is_ok (compile_denylist_globset [lit "**"]) = true /\
  forall s, wild_match (lit "**") s = true.
Proof.
  split; [reflexivity|]. split; [reflexivity|]. intros s. change (lit "**") with [ch "*"; ch "*"].
  cbn [wild_match N.eqb]. change (N.eqb (ch "*") (ch "*")) with true. cbn beta iota.
  apply star_true. exists [], s. split; [done|]. apply star_true. exists s, []. split; [by rewrite app_nil_r|done].
Qed.
