(* ===== verification/ProxyConfig.v ===== *)
(** * ProxyConfig: the settings of the network proxy

    [network-proxy/src/config.rs].  [url::Url::parse] is the parameter
    [url_parse], which gives the host and the port of a URL; the texts of
    warnings are left out. *)

From S2P Require Import Prelude Decimal Paths BTree TextSearch Trim IpAddr DomainPolicy.
Local Open Scope str_scope.

(** ** Permissions of domains *)

Inductive NetworkDomainPermission : Type := DomainNone | DomainAllow | DomainDeny.
#[global] Instance domain_permission_eq_dec : EqDecision NetworkDomainPermission.
Proof. solve_decision. Defined.

(** The derived order of the variants *)
Definition permission_rank (p : NetworkDomainPermission) : nat :=
  match p with DomainNone => 0 | DomainAllow => 1 | DomainDeny => 2 end.

Record NetworkDomainPermissionEntry : Type := mkDomainEntry {
  de_pattern : str;
  de_permission : NetworkDomainPermission;
}.
#[global] Instance domain_entry_eq_dec : EqDecision NetworkDomainPermissionEntry.
Proof. solve_decision. Defined.

Record NetworkDomainPermissions : Type := mkDomainPermissions {
  dp_entries : list NetworkDomainPermissionEntry;
}.
#[global] Instance domain_permissions_eq_dec : EqDecision NetworkDomainPermissions.
Proof. solve_decision. Defined.

(** One turn of the first loop: the patterns in order, and the map. *)
Definition effective_step (acc : list str * list (str * NetworkDomainPermission))
    (entry : NetworkDomainPermissionEntry) : list str * list (str * NetworkDomainPermission) :=
  let '(order, effective_permissions) := acc in
  let order :=
    match tbl_get (de_pattern entry) effective_permissions with
    | None => order ++ [de_pattern entry]
    | Some _ => order
    end in
  let permission := default (de_permission entry) (tbl_get (de_pattern entry) effective_permissions) in
  let permission :=
    if permission_rank permission <? permission_rank (de_permission entry)
    then de_permission entry else permission in
  (order, tbl_insert (de_pattern entry) permission effective_permissions).

Fixpoint take_effective (order : list str) (effective_permissions : list (str * NetworkDomainPermission))
    : list NetworkDomainPermissionEntry :=
  match order with
  | [] => []
  | pattern :: order =>
      match tbl_get pattern effective_permissions with
      | Some permission =>
          mkDomainEntry pattern permission :: take_effective order (tbl_remove pattern effective_permissions)
      | None => take_effective order effective_permissions
      end
  end.

Definition effective_entries (self : NetworkDomainPermissions) : list NetworkDomainPermissionEntry :=
  let '(order, effective_permissions) := fold_left effective_step (dp_entries self) ([], []) in
  take_effective order effective_permissions.

(** [Serialize] goes through a map, and [Deserialize] reads one. *)
Definition domains_to_map (self : NetworkDomainPermissions) : list (str * NetworkDomainPermission) :=
  fold_left (fun map entry => tbl_insert (de_pattern entry) (de_permission entry) map) (effective_entries self) [].
Definition domains_from_map (map : list (str * NetworkDomainPermission)) : NetworkDomainPermissions :=
  mkDomainPermissions (List.map (fun kv => mkDomainEntry kv.1 kv.2) map).

Inductive NetworkUnixSocketPermission : Type := UnixSocketAllow | UnixSocketNone.
#[global] Instance socket_permission_eq_dec : EqDecision NetworkUnixSocketPermission.
Proof. solve_decision. Defined.

Record NetworkUnixSocketPermissions : Type := mkSocketPermissions {
  sp_entries : list (str * NetworkUnixSocketPermission);
}.
#[global] Instance socket_permissions_eq_dec : EqDecision NetworkUnixSocketPermissions.
Proof. solve_decision. Defined.

(** ** Settings *)

Inductive NetworkMode : Type := Limited | Full.
#[global] Instance network_mode_eq_dec : EqDecision NetworkMode.
Proof. solve_decision. Defined.

Definition allows_method (self : NetworkMode) (method : str) : bool :=
  match self with
  | Full => true
  | Limited => one_of method [lit "GET"; lit "HEAD"; lit "OPTIONS"]
  end.

Record NetworkProxySettings : Type := mkSettings {
  enabled : bool;
  proxy_url : str;
  enable_socks5 : bool;
  socks_url : str;
  enable_socks5_udp : bool;
  allow_upstream_proxy : bool;
  dangerously_allow_non_loopback_proxy : bool;
  dangerously_allow_all_unix_sockets : bool;
  mode : NetworkMode;
  domains : option NetworkDomainPermissions;
  unix_sockets : option NetworkUnixSocketPermissions;
  allow_local_binding : bool;
  mitm : bool;
}.
#[global] Instance settings_eq_dec : EqDecision NetworkProxySettings.
Proof. solve_decision. Defined.

Definition default_proxy_url : str := lit "http://127.0.0.1:3128".
Definition default_socks_url : str := lit "http://127.0.0.1:8081".

Definition settings_default : NetworkProxySettings :=
  mkSettings false default_proxy_url true default_socks_url true true false false Full None None false false.

(** [NetworkProxyConfig] is a record of one field. *)
Record NetworkProxyConfig : Type := mkProxyConfig { network : NetworkProxySettings }.
#[global] Instance proxy_config_eq_dec : EqDecision NetworkProxyConfig.
Proof. solve_decision. Defined.

Definition set_domains (self : NetworkProxySettings) (d : option NetworkDomainPermissions) : NetworkProxySettings :=
  mkSettings (enabled self) (proxy_url self) (enable_socks5 self) (socks_url self) (enable_socks5_udp self)
    (allow_upstream_proxy self) (dangerously_allow_non_loopback_proxy self)
    (dangerously_allow_all_unix_sockets self) (mode self) d (unix_sockets self) (allow_local_binding self)
    (mitm self).

Definition set_unix_sockets (self : NetworkProxySettings) (u : option NetworkUnixSocketPermissions)
    : NetworkProxySettings :=
  mkSettings (enabled self) (proxy_url self) (enable_socks5 self) (socks_url self) (enable_socks5_udp self)
    (allow_upstream_proxy self) (dangerously_allow_non_loopback_proxy self)
    (dangerously_allow_all_unix_sockets self) (mode self) (domains self) u (allow_local_binding self) (mitm self).

Definition non_empty_or_none {A} (l : list A) : option (list A) := if is_empty l then None else Some l.

Definition domain_entries (self : NetworkProxySettings) (permission : NetworkDomainPermission)
    : option (list str) :=
  match domains self with
  | None => None
  | Some domains =>
      non_empty_or_none
        (map de_pattern (List.filter (fun entry => bool_decide (de_permission entry = permission))
           (effective_entries domains)))
  end.

Definition allowed_domains (self : NetworkProxySettings) : option (list str) := domain_entries self DomainAllow.
Definition denied_domains (self : NetworkProxySettings) : option (list str) := domain_entries self DomainDeny.

Definition allow_unix_sockets (self : NetworkProxySettings) : list str :=
  match unix_sockets self with
  | None => []
  | Some unix_sockets =>
      map fst (List.filter (fun kv => bool_decide (kv.2 = UnixSocketAllow)) (sp_entries unix_sockets))
  end.

Definition some_domains (entries : list NetworkDomainPermissionEntry) : option NetworkDomainPermissions :=
  if is_empty entries then None else Some (mkDomainPermissions entries).

Definition entries_or_default (self : NetworkProxySettings) : list NetworkDomainPermissionEntry :=
  match domains self with Some d => dp_entries d | None => [] end.

Definition upsert_domain_permission (self : NetworkProxySettings) (host : str)
    (permission : NetworkDomainPermission) (normalize : str -> str) : NetworkProxySettings :=
  let normalized_host := normalize host in
  let kept := List.filter (fun entry => negb (normalize (de_pattern entry) =? normalized_host))
                (entries_or_default self) in
  set_domains self (some_domains (kept ++ [mkDomainEntry host permission])).

Definition push_domain_entry (permission : NetworkDomainPermission)
    (entries : list NetworkDomainPermissionEntry) (entry : str) : list NetworkDomainPermissionEntry :=
  if existsb (fun existing => (de_pattern existing =? entry) && bool_decide (de_permission existing = permission))
       entries
  then entries else entries ++ [mkDomainEntry entry permission].

Definition set_domain_entries (self : NetworkProxySettings) (entries : list str)
    (permission : NetworkDomainPermission) : NetworkProxySettings :=
  let kept := List.filter (fun entry => negb (bool_decide (de_permission entry = permission)))
                (entries_or_default self) in
  set_domains self (some_domains (fold_left (push_domain_entry permission) entries kept)).

Definition set_allowed_domains (self : NetworkProxySettings) (l : list str) : NetworkProxySettings :=
  set_domain_entries self l DomainAllow.
Definition set_denied_domains (self : NetworkProxySettings) (l : list str) : NetworkProxySettings :=
  set_domain_entries self l DomainDeny.

Definition set_unix_socket_entries (self : NetworkProxySettings) (entries : list str)
    (permission : NetworkUnixSocketPermission) : NetworkProxySettings :=
  let kept := List.filter (fun kv => negb (bool_decide (kv.2 = permission)))
                (match unix_sockets self with Some u => sp_entries u | None => [] end) in
  let entries := fold_left (fun map entry => tbl_insert entry permission map) entries kept in
  set_unix_sockets self (if is_empty entries then None else Some (mkSocketPermissions entries)).

Definition set_allow_unix_sockets (self : NetworkProxySettings) (l : list str) : NetworkProxySettings :=
  set_unix_socket_entries self l UnixSocketAllow.

(** ** Addresses to listen on *)

Definition localhost_v4 : IpAddr := V4 (mkV4 127 0 0 1).

Definition clamp_non_loopback (addr : SocketAddr) (allow_non_loopback : bool) : SocketAddr :=
  if ip_is_loopback (sa_ip addr) then addr
  else if allow_non_loopback then addr
  else mkSocketAddr localhost_v4 (sa_port addr).

Definition clamp_bind_addrs (http_addr socks_addr : SocketAddr) (cfg : NetworkProxySettings)
    : SocketAddr * SocketAddr :=
  let http_addr := clamp_non_loopback http_addr (dangerously_allow_non_loopback_proxy cfg) in
  let socks_addr := clamp_non_loopback socks_addr (dangerously_allow_non_loopback_proxy cfg) in
  if is_empty (allow_unix_sockets cfg) && negb (dangerously_allow_all_unix_sockets cfg)
  then (http_addr, socks_addr)
  else (mkSocketAddr localhost_v4 (sa_port http_addr), mkSocketAddr localhost_v4 (sa_port socks_addr)).

Record RuntimeConfig : Type := mkRuntime { http_addr : SocketAddr; socks_addr : SocketAddr }.

(** *** Paths of sockets *)

Inductive ValidatedUnixSocketPath : Type :=
| Native (path : str)
| UnixStyleAbsolute (path : str).

Definition unix_style_parse (value : str) : option str :=
  if starts_with value (lit "/") then Some value else None.

Section Sockets.
Context (home_dir cwd : option str) (debug_str : str -> str).

Definition socket_path_parse (socket_path : str) : anyhow ValidatedUnixSocketPath :=
  if is_absolute socket_path then
    match from_absolute_path home_dir cwd socket_path with
    | Some path => Ok (Native path)
    | None => bail (lit "failed to normalize unix socket path " ++ debug_str socket_path)
    end
  else
    match unix_style_parse socket_path with
    | Some path => Ok (UnixStyleAbsolute path)
    | None => bail (lit "expected an absolute path, got " ++ debug_str socket_path)
    end.

Fixpoint validate_socket_paths (index : nat) (paths : list str) : anyhow unit :=
  match paths with
  | [] => Ok tt
  | socket_path :: paths =>
      _ ← with_context (lit "invalid network.allow_unix_sockets[" ++ show_nat index ++ lit "]")
            (socket_path_parse socket_path);
      validate_socket_paths (S index) paths
  end.

Definition validate_unix_socket_allowlist_paths (cfg : NetworkProxyConfig) : anyhow unit :=
  validate_socket_paths 0 (allow_unix_sockets (network cfg)).
End Sockets.

(** ** Host and port of an address *)

Record SocketAddressParts : Type := mkParts { parts_host : str; parts_port : N }.

Definition format_host_and_port (host : str) (port : N) : str :=
  if contains_char host (ch ":")
  then lit "[" ++ host ++ lit "]:" ++ lit (pretty port)
  else host ++ lit ":" ++ lit (pretty port).

Definition missing_host {A} (input : str) : anyhow A :=
  bail (lit "missing host in network proxy address: " ++ input).

(** What is behind the first occurrence of [sep] *)
Definition after_first (sep s : str) : option str :=
  i ← str_find sep s; Some (drop (i + length sep) s).

Definition parse_host_port_fallback (input : str) (default_port : N) : anyhow SocketAddressParts :=
  let without_scheme := default input (after_first (lit "://") input) in
  let host_port := default without_scheme (head (split_char (ch "/") without_scheme)) in
  let host_port := match rsplit_once (ch "@") host_port with Some (_, rest) => rest | None => host_port end in
  match bracket_end host_port with
  | Some e =>
      let host := drop 1 (take e host_port) in
      let port :=
        default default_port (rest ← strip_prefix [ch ":"] (drop (S e) host_port); parse_u16 rest) in
      if is_empty host then missing_host input else Ok (mkParts host port)
  | None =>
      match (if Nat.eqb (count_colons host_port) 1 then rsplit_once (ch ":") host_port else None) with
      | Some (host, port) =>
          if is_empty host then missing_host input
          else Ok (mkParts host (default default_port (parse_u16 port)))
      | None =>
          if is_empty host_port then missing_host input else Ok (mkParts host_port default_port)
      end
  end.

Definition is_bracket (c : N) : bool := N.eqb c (ch "[") || N.eqb c (ch "]").

Section Urls.
(** [Url::parse(_).ok()] with its [host_str()] and [port()] *)
Context (url_parse : str -> option (option str * option N)).

Definition parse_host_port (url : str) (default_port : N) : anyhow SocketAddressParts :=
  let trimmed := trim url in
  if is_empty trimmed then missing_host url
  else if match parse_ip trimmed with Some (V6 _) => true | _ => false end && negb (starts_with trimmed [ch "["])
  then Ok (mkParts trimmed default_port)
  else
    let candidate := if contains trimmed (lit "://") then trimmed else lit "http://" ++ trimmed in
    match url_parse candidate with
    | Some (Some host, port) =>
        let host := trim_start_matches is_bracket (trim_end_matches is_bracket host) in
        if is_empty host then missing_host url
        else Ok (mkParts host (default default_port port))
    | _ => parse_host_port_fallback trimmed default_port
    end.

Definition host_and_port_from_network_addr (value : str) (default_port : N) : str :=
  let trimmed := trim value in
  if is_empty trimmed then lit "<missing>"
  else match parse_host_port trimmed default_port with
       | Ok parts => format_host_and_port (parts_host parts) (parts_port parts)
       | Err _ => format_host_and_port trimmed default_port
       end.

Definition resolve_addr (url : str) (default_port : N) : anyhow SocketAddr :=
  addr_parts ← parse_host_port url default_port;
  let host :=
    if eq_ignore_ascii_case (parts_host addr_parts) (lit "localhost") then lit "127.0.0.1"
    else parts_host addr_parts in
  match parse_ip host with
  | Some ip => Ok (mkSocketAddr ip (parts_port addr_parts))
  | None => Ok (mkSocketAddr localhost_v4 (parts_port addr_parts))
  end.

Definition resolve_runtime (home_dir cwd : option str) (debug_str : str -> str) (cfg : NetworkProxyConfig)
    : anyhow RuntimeConfig :=
  _ ← validate_unix_socket_allowlist_paths home_dir cwd debug_str cfg;
  http_addr ← with_context (lit "invalid network.proxy_url: " ++ proxy_url (network cfg))
                (resolve_addr (proxy_url (network cfg)) 3128);
  socks_addr ← with_context (lit "invalid network.socks_url: " ++ socks_url (network cfg))
                 (resolve_addr (socks_url (network cfg)) 8081);
  let '(http_addr, socks_addr) := clamp_bind_addrs http_addr socks_addr (network cfg) in
  Ok (mkRuntime http_addr socks_addr).
End Urls.

(** ** The lists of domains *)

Lemma non_empty_or_none_default {A} (l : list A) : default [] (non_empty_or_none l) = l.
Proof. by destruct l. Qed.

Lemma entries_some_domains self entries : entries_or_default (set_domains self (some_domains entries)) = entries.
Proof. by destruct entries. Qed.

(** The permission of a pattern among entries: the greatest. *)
Definition merge_permission (acc : option NetworkDomainPermission) (p : NetworkDomainPermission)
    : option NetworkDomainPermission :=
  match acc with
  | None => Some p
  | Some q => Some (if permission_rank q <? permission_rank p then p else q)
  end.

Definition effective_permission (pattern : str) (entries : list NetworkDomainPermissionEntry)
    : option NetworkDomainPermission :=
  fold_left merge_permission
    (map de_permission (List.filter (fun e => de_pattern e =? pattern) entries)) None.

Lemma effective_permission_snoc pattern entries e :
  effective_permission pattern (entries ++ [e]) =
  (if de_pattern e =? pattern then merge_permission (effective_permission pattern entries) (de_permission e)
   else effective_permission pattern entries).
Proof.
  unfold effective_permission. rewrite List.filter_app. simpl. case_bool_decide; simpl.
  - by rewrite map_app, fold_left_app.
  - by rewrite app_nil_r.
Qed.

(** Deny wins over allow, and allow over none. *)
Lemma effective_permission_spec pattern entries :
  match effective_permission pattern entries with
  | Some DomainDeny => mkDomainEntry pattern DomainDeny ∈ entries
  | Some DomainAllow => mkDomainEntry pattern DomainAllow ∈ entries /\ mkDomainEntry pattern DomainDeny ∉ entries
  | _ => mkDomainEntry pattern DomainAllow ∉ entries /\ mkDomainEntry pattern DomainDeny ∉ entries
  end.
Proof.
  induction entries as [|[p q] entries IH] using rev_ind; [split; apply not_elem_of_nil|].
  rewrite effective_permission_snoc. cbn [de_pattern de_permission]. case_bool_decide as E.
  - subst p. destruct (effective_permission pattern entries) as [[]|], q; simpl in *;
      rewrite ?not_elem_of_app, ?elem_of_app, ?list_elem_of_singleton; intuition congruence.
  - destruct (effective_permission pattern entries) as [[]|];
      rewrite ?not_elem_of_app, ?elem_of_app, ?list_elem_of_singleton; intuition congruence.
Qed.

(** The state of the loop after some entries *)
Definition effective_inv (entries : list NetworkDomainPermissionEntry)
    (acc : list str * list (str * NetworkDomainPermission)) : Prop :=
  (forall p, tbl_get p acc.2 = effective_permission p entries) /\ NoDup acc.1 /\
  forall p, p ∈ acc.1 <-> tbl_get p acc.2 <> None.

Lemma effective_step_inv entries acc e : effective_inv entries acc -> effective_inv (entries ++ [e]) (effective_step acc e).
Proof.
  destruct acc as [order m], e as [p q]. intros (Hg & Hnd & Hin). unfold effective_step, effective_inv in *.
  cbn [fst snd de_pattern de_permission] in *. split; [|split].
  - intros r. rewrite effective_permission_snoc. cbn [de_pattern de_permission]. case_bool_decide as E.
    + subst r. rewrite tbl_get_insert, <- Hg. destruct (tbl_get p m); simpl; [done|]. by destruct q.
    + by rewrite tbl_get_insert_ne, Hg.
  - destruct (tbl_get p m) eqn:E; [done|]. apply NoDup_app. split; [done|]. split; [|apply NoDup_singleton].
    intros r Hr ->%list_elem_of_singleton. by apply Hin in Hr.
  - intros r. destruct (decide (r = p)) as [->|N].
    + rewrite tbl_get_insert. split; [done|]. intros _. destruct (tbl_get p m) eqn:E.
      * apply Hin. by rewrite E.
      * apply elem_of_app. right. left.
    + rewrite tbl_get_insert_ne, <- Hin by done. destruct (tbl_get p m); [done|].
      rewrite elem_of_app, list_elem_of_singleton. tauto.
Qed.

Lemma effective_loop entries : effective_inv entries (fold_left effective_step entries ([], [])).
Proof.
  induction entries as [|e entries IH] using rev_ind.
  - split; [done|]. split; [constructor|]. intros p. by rewrite elem_of_nil.
  - rewrite fold_left_app. simpl. by apply effective_step_inv.
Qed.

Lemma take_effective_spec order m : NoDup order -> (forall p, p ∈ order -> tbl_get p m <> None) ->
  map de_pattern (take_effective order m) = order /\
  forall p q, mkDomainEntry p q ∈ take_effective order m <-> p ∈ order /\ tbl_get p m = Some q.
Proof.
  revert m. induction order as [|r order IH]; intros m Hnd Hm; cbn [take_effective].
  { split; [done|]. intros p q. rewrite !elem_of_nil. tauto. }
  apply NoDup_cons in Hnd as [Hr Hnd]. destruct (tbl_get r m) as [x|] eqn:E; [|by destruct (Hm r); [left|]].
  assert (forall p, p ∈ order -> tbl_get p (tbl_remove r m) = tbl_get p m) as Hrem.
  { intros p Hp. apply tbl_get_remove_ne. by intros ->. }
  destruct (IH (tbl_remove r m) Hnd) as [IH1 IH2].
  { intros p Hp. rewrite Hrem by done. apply Hm. by right. }
  split; [simpl; by rewrite IH1|]. intros p q. rewrite !elem_of_cons, IH2. split.
  - intros [[= -> ->]|[Hp Hg]]; [auto|]. rewrite Hrem in Hg by done. auto.
  - intros [[->|Hp] Hg]; [left; congruence|]. right. by rewrite Hrem.
Qed.

Lemma effective_entries_spec d : NoDup (map de_pattern (effective_entries d)) /\
  forall p q, mkDomainEntry p q ∈ effective_entries d <-> effective_permission p (dp_entries d) = Some q.
Proof.
  unfold effective_entries. pose proof (effective_loop (dp_entries d)) as (Hg & Hnd & Hin).
  destruct (fold_left _ _ _) as [order m]. cbn [fst snd] in *.
  destruct (take_effective_spec order m Hnd (fun p Hp => proj1 (Hin p) Hp)) as [H1 H2].
  rewrite H1. split; [done|]. intros p q. rewrite H2, Hin, <- Hg. split; [tauto|]. intros ->. done.
Qed.

Lemma domain_entries_elem self permission p :
  p ∈ default [] (domain_entries self permission) <->
  effective_permission p (entries_or_default self) = Some permission.
Proof.
  unfold domain_entries, entries_or_default. destruct (domains self) as [d|]; simpl; [|by rewrite elem_of_nil].
  rewrite non_empty_or_none_default, list_elem_of_In, in_map_iff. setoid_rewrite filter_In.
  setoid_rewrite bool_decide_eq_true. setoid_rewrite <- list_elem_of_In.
  rewrite <- (proj2 (effective_entries_spec d)). split; [by intros ([p' q] & <- & ? & <-)|].
  intros H. by exists (mkDomainEntry p permission).
Qed.

Lemma domain_entries_NoDup self permission : NoDup (default [] (domain_entries self permission)).
Proof.
  unfold domain_entries. destruct (domains self) as [d|]; simpl; [|constructor].
  rewrite non_empty_or_none_default. destruct (effective_entries_spec d) as [Hnd _].
  eapply sublist_NoDup; [done|]. clear Hnd. induction (effective_entries d) as [|e l IH]; simpl; [done|].
  destruct (bool_decide _); simpl; by constructor.
Qed.

Lemma denied_domains_elem self p :
  p ∈ default [] (denied_domains self) <-> mkDomainEntry p DomainDeny ∈ entries_or_default self.
Proof.
  unfold denied_domains. rewrite domain_entries_elem. pose proof (effective_permission_spec p (entries_or_default self)) as H.
  destruct (effective_permission p (entries_or_default self)) as [[]|]; split; intros; try done; tauto.
Qed.

Lemma allowed_domains_elem self p : p ∈ default [] (allowed_domains self) <->
  mkDomainEntry p DomainAllow ∈ entries_or_default self /\ mkDomainEntry p DomainDeny ∉ entries_or_default self.
Proof.
  unfold allowed_domains. rewrite domain_entries_elem. pose proof (effective_permission_spec p (entries_or_default self)) as H.
  destruct (effective_permission p (entries_or_default self)) as [[]|]; split; intros; try done; tauto.
Qed.

(** The lists of domains that the settings give: a pattern is denied if some
    entry denies it, and allowed if some entry allows it and none denies it;
    each list has its patterns once. *)
Theorem domain_lists_spec (self : NetworkProxySettings) :
  NoDup (default [] (allowed_domains self)) /\ NoDup (default [] (denied_domains self)) /\
  (forall p, p ∈ default [] (denied_domains self) <-> mkDomainEntry p DomainDeny ∈ entries_or_default self) /\
  forall p, p ∈ default [] (allowed_domains self) <->
    mkDomainEntry p DomainAllow ∈ entries_or_default self /\ mkDomainEntry p DomainDeny ∉ entries_or_default self.
Proof.
  split; [apply domain_entries_NoDup|]. split; [apply domain_entries_NoDup|].
  split; intros p; [apply denied_domains_elem|apply allowed_domains_elem].
Qed.

(** ** Setting domains *)

Lemma upsert_entries self host permission normalize e :
  e ∈ entries_or_default (upsert_domain_permission self host permission normalize) <->
  e = mkDomainEntry host permission \/
  (e ∈ entries_or_default self /\ normalize (de_pattern e) <> normalize host).
Proof.
  unfold upsert_domain_permission. rewrite entries_some_domains, elem_of_app, elem_of_filter_list, list_elem_of_singleton.
  rewrite negb_true_iff, bool_decide_eq_false. tauto.
Qed.

Lemma push_domain_entry_elem permission entries p e :
  e ∈ push_domain_entry permission entries p <-> e ∈ entries \/ e = mkDomainEntry p permission.
Proof.
  unfold push_domain_entry. destruct (existsb _ entries) eqn:E; [|by rewrite elem_of_app, list_elem_of_singleton].
  apply existsb_exists in E as ([p' q'] & Hin & [Ep Eq]%andb_true_iff).
  apply bool_decide_eq_true in Ep, Eq. cbn in Ep, Eq. subst. apply list_elem_of_In in Hin.
  split; [tauto|]. by intros [?| ->].
Qed.

Lemma push_domain_entries_elem permission l entries e :
  e ∈ fold_left (push_domain_entry permission) l entries <->
  e ∈ entries \/ exists p, p ∈ l /\ e = mkDomainEntry p permission.
Proof.
  revert entries. induction l as [|p l IH]; intros entries; simpl.
  - split; [tauto|]. intros [?|(? & []%elem_of_nil & _)]; done.
  - rewrite IH, push_domain_entry_elem. setoid_rewrite elem_of_cons. split.
    + intros [[?| ->]|(q & Hq & ->)]; eauto.
    + intros [?|(q & [->|Hq] & ->)]; eauto.
Qed.

Lemma set_domain_entries_elem self l permission e :
  e ∈ entries_or_default (set_domain_entries self l permission) <->
  (e ∈ entries_or_default self /\ de_permission e <> permission) \/
  exists p, p ∈ l /\ e = mkDomainEntry p permission.
Proof.
  unfold set_domain_entries. rewrite entries_some_domains, push_domain_entries_elem, elem_of_filter_list.
  by rewrite negb_true_iff, bool_decide_eq_false.
Qed.

(** Setting one list leaves the other, where a deny of the same pattern wins. *)
Lemma set_allowed_domains_spec self l :
  (forall p, p ∈ default [] (denied_domains (set_allowed_domains self l)) <-> p ∈ default [] (denied_domains self)) /\
  (forall p, p ∈ default [] (allowed_domains (set_allowed_domains self l)) <->
     p ∈ l /\ p ∉ default [] (denied_domains self)).
Proof.
  assert (forall p, mkDomainEntry p DomainDeny ∈ entries_or_default (set_allowed_domains self l) <->
            mkDomainEntry p DomainDeny ∈ entries_or_default self) as E.
  { intros p. unfold set_allowed_domains. rewrite set_domain_entries_elem. cbn [de_permission].
    split; [by intros [[? _]|(q & _ & [=])]|]. by left. }
  split; intros p; [by rewrite !denied_domains_elem, E|]. rewrite allowed_domains_elem, E, denied_domains_elem.
  unfold set_allowed_domains. rewrite set_domain_entries_elem. cbn [de_permission]. split.
  - intros [[[_ []]|(q & Hq & [= ->])] ?]; done.
  - intros [Hp Hd]. split; [right; by exists p|done].
Qed.

(** ** Where the proxy listens *)

Definition sockets_enabled (cfg : NetworkProxySettings) : bool :=
  negb (is_empty (allow_unix_sockets cfg)) || dangerously_allow_all_unix_sockets cfg.

Lemma clamp_loopback addr : ip_is_loopback (sa_ip (clamp_non_loopback addr false)) = true.
Proof. unfold clamp_non_loopback. by destruct (ip_is_loopback (sa_ip addr)) eqn:E. Qed.

Lemma clamp_port addr allow : sa_port (clamp_non_loopback addr allow) = sa_port addr.
Proof. unfold clamp_non_loopback. by destruct (ip_is_loopback _), allow. Qed.

Lemma clamp_allowed addr : clamp_non_loopback addr true = addr.
Proof. unfold clamp_non_loopback. by destruct (ip_is_loopback _). Qed.

(** The addresses the proxy listens on: the ports are the configured ones,
    and both addresses are on the loopback interface unless that is lifted by
    its setting and no sockets of the host are offered; only then they are
    the configured addresses. *)
Theorem resolve_runtime_spec (url_parse : str -> option (option str * option N)) (home_dir cwd : option str)
    (debug_str : str -> str) (cfg : NetworkProxyConfig) (runtime : RuntimeConfig) :
  resolve_runtime url_parse home_dir cwd debug_str cfg = Ok runtime ->
  exists http socks,
    resolve_addr url_parse (proxy_url (network cfg)) 3128 = Ok http /\
    resolve_addr url_parse (socks_url (network cfg)) 8081 = Ok socks /\
    sa_port (http_addr runtime) = sa_port http /\ sa_port (socks_addr runtime) = sa_port socks /\
    if dangerously_allow_non_loopback_proxy (network cfg) && negb (sockets_enabled (network cfg))
    then runtime = mkRuntime http socks
    else ip_is_loopback (sa_ip (http_addr runtime)) = true /\ ip_is_loopback (sa_ip (socks_addr runtime)) = true.
Proof.
  unfold resolve_runtime. destruct (validate_unix_socket_allowlist_paths _ _ _ _); simpl; [|done].
  destruct (resolve_addr _ (proxy_url _) _) as [http|]; simpl; [|done].
  destruct (resolve_addr _ (socks_url _) _) as [socks|]; simpl; [|done].
  intros H. exists http, socks. split; [done|]. split; [done|]. revert H.
  unfold clamp_bind_addrs, sockets_enabled. rewrite negb_orb, negb_involutive.
  destruct (is_empty (allow_unix_sockets (network cfg)) && negb _); intros [= <-]; cbn [http_addr socks_addr sa_port].
  - rewrite !clamp_port, andb_true_r. split; [done|]. split; [done|].
    destruct (dangerously_allow_non_loopback_proxy _); [by rewrite !clamp_allowed|]. split; apply clamp_loopback.
  - rewrite !clamp_port, andb_false_r. done.
Qed.

(** ** Printing and parsing an address *)

Lemma count_colons_app s t : count_colons (s ++ t) = count_colons s + count_colons t.
Proof. unfold count_colons. by rewrite List.filter_app, length_app. Qed.

Lemma count_colons_0 s : ch ":" ∉ s -> count_colons s = 0.
Proof.
  unfold count_colons. induction s as [|c s IH]; [done|]. intros [Hc Hs]%not_elem_of_cons. cbn [List.filter].
  rewrite (proj2 (N.eqb_neq (ch ":") c)) by done. by apply IH.
Qed.

Lemma digits_no_char n c : is_ascii_digit c = false -> c ∉ lit (pretty (n : N)).
Proof. intros Hc H. pose proof (show_N_digits n) as Hd. rewrite Forall_forall in Hd. apply Hd in H. congruence. Qed.

Lemma str_find_none_char needle c s : c ∈ needle -> c ∉ s -> str_find needle s = None.
Proof.
  intros Hc Hs. apply str_find_None; [by intros ->; apply elem_of_nil in Hc|]. intros i [r Hr]. apply Hs. rewrite <- (take_drop i s), Hr.
  apply elem_of_app. right. apply elem_of_app. by left.
Qed.

Lemma split_char_head c s : c ∉ s -> head (split_char c s) = Some s.
Proof. intros H. by rewrite split_char_none. Qed.

Lemma rsplit_once_none c s : c ∉ s -> rsplit_once c s = None.
Proof.
  intros H. unfold rsplit_once. destruct (split_once c (rev s)) as [[a b]|] eqn:E; [|done].
  apply split_once_Some in E. destruct H. apply list_elem_of_In, in_rev. rewrite E.
  apply list_elem_of_In, elem_of_app. right. left.
Qed.

Lemma rsplit_once_last c s t : c ∉ t -> rsplit_once c (s ++ c :: t) = Some (s, t).
Proof.
  intros H. unfold rsplit_once. change (c :: t) with ([c] ++ t). rewrite app_assoc, !rev_app_distr. cbn [rev app].
  assert (forall u v, c ∉ u -> split_once c (u ++ c :: v) = Some (u, v)) as Hs.
  { intros u v. induction u as [|x u IH]; simpl; [by rewrite N.eqb_refl|]. intros [Hx Hu]%not_elem_of_cons.
    rewrite (proj2 (N.eqb_neq x c)) by congruence. by rewrite IH. }
  rewrite Hs; [by rewrite !rev_involutive|]. rewrite list_elem_of_In, <- in_rev. by rewrite <- list_elem_of_In.
Qed.

Lemma find_index_app f s c t : Forall (fun x => f x = false) s -> f c = true -> find_index f (s ++ c :: t) = Some (length s).
Proof. intros Hs Hc. induction Hs as [|x s Hx Hs IH]; simpl; [by rewrite Hc|]. by rewrite Hx, IH. Qed.

(** A host that an address can be made of *)
Definition address_host (host : str) : Prop :=
  host <> [] /\ ch "/" ∉ host /\ ch "@" ∉ host /\ ch "[" ∉ host /\ ch "]" ∉ host.

Lemma format_no_char c host port : c ∉ host -> is_ascii_digit c = false -> one_of [c] [[ch "["]; [ch "]"]; [ch ":"]] = false ->
  c ∉ format_host_and_port host port.
Proof.
  intros Hc Hd Ho Hin. assert (c ∈ [ch "["; ch "]"; ch ":"] -> one_of [c] [[ch "["]; [ch "]"]; [ch ":"]] = true) as Hs.
  { intros H. apply one_of_In. change [[ch "["]; [ch "]"]; [ch ":"]] with (map (fun c => [c]) [ch "["; ch "]"; ch ":"]).
    by apply (list_elem_of_fmap_2 (fun c => [c])). }
  enough (c ∈ [ch "["; ch "]"; ch ":"]) by (rewrite Hs in Ho; done). clear Hs Ho.
  pose proof (digits_no_char port c Hd) as Hp. revert Hin. unfold format_host_and_port.
  assert (lit "]:" = [ch "]"; ch ":"]) as -> by done. assert (lit "[" = [ch "["]) as -> by done.
  assert (lit ":" = [ch ":"]) as -> by done.
  destruct (contains_char host (ch ":")); rewrite ?elem_of_app, ?elem_of_cons, ?elem_of_nil; tauto.
Qed.

Lemma starts_with_char c s : c ∉ s -> starts_with s [c] = false.
Proof.
  intros H. destruct (starts_with s [c]) eqn:E; [|done]. apply starts_with_true in E as [r ->]. destruct H. left.
Qed.

Lemma bracket_end_literal host rest : ch "]" ∉ host ->
  bracket_end (ch "[" :: host ++ ch "]" :: rest) = Some (S (length host)).
Proof.
  intros H. unfold bracket_end. change (starts_with (ch "[" :: _) [ch "["]) with true. cbv iota.
  assert (Forall (fun x => N.eqb (ch "]") x = false) (ch "[" :: host)) as Hf.
  { constructor; [done|]. apply Forall_forall. intros x Hx. apply N.eqb_neq. by intros <-. }
  by apply (find_index_app _ _ (ch "]") rest Hf).
Qed.

Lemma bracket_end_none host rest : host <> [] -> ch "[" ∉ host -> bracket_end (host ++ rest) = None.
Proof.
  intros Hne Ho. unfold bracket_end. destruct (starts_with (host ++ rest) [ch "["]) eqn:E; [|done].
  apply starts_with_true in E as [r E]. destruct host as [|c host]; [done|]. injection E as -> _.
  destruct Ho. left.
Qed.

(** The two forms of an address, behind the scheme and in front of the path *)
Lemma fallback_literal host digits port default_port input : host <> [] -> ch "]" ∉ host ->
  parse_u16 digits = Some port ->
  match bracket_end (ch "[" :: host ++ ch "]" :: ch ":" :: digits) with
  | Some e =>
      let host' := drop 1 (take e (ch "[" :: host ++ ch "]" :: ch ":" :: digits)) in
      let port' := default default_port
        (rest ← strip_prefix [ch ":"] (drop (S e) (ch "[" :: host ++ ch "]" :: ch ":" :: digits)); parse_u16 rest) in
      if is_empty host' then missing_host input else Ok (mkParts host' port')
  | None => bail []
  end = Ok (mkParts host port).
Proof.
  intros Hne Hc Hp. rewrite bracket_end_literal by done. cbv zeta.
  change (ch "[" :: host ++ ch "]" :: ch ":" :: digits) with ((ch "[" :: host) ++ ch "]" :: ch ":" :: digits).
  rewrite take_app_length' by done. change (drop 1 (ch "[" :: host)) with host. rewrite (proj2 (is_empty_false host)) by done.
  assert (drop (S (S (length host))) ((ch "[" :: host) ++ ch "]" :: ch ":" :: digits) = ch ":" :: digits) as ->.
  { change ((ch "[" :: host) ++ ch "]" :: ch ":" :: digits) with ((ch "[" :: host) ++ [ch "]"] ++ ch ":" :: digits).
    rewrite app_assoc, drop_app_length'; [done|]. rewrite length_app. simpl. lia. }
  rewrite (strip_prefix_app [ch ":"] digits : strip_prefix [ch ":"] (ch ":" :: digits) = Some digits).
  cbn [mbind option_bind]. by rewrite Hp.
Qed.

Lemma count_colons_once host digits : ch ":" ∉ host -> ch ":" ∉ digits -> count_colons (host ++ ch ":" :: digits) = 1.
Proof.
  intros Hh Hd. change (ch ":" :: digits) with ([ch ":"] ++ digits).
  rewrite !count_colons_app, (count_colons_0 host), (count_colons_0 digits) by done.
  reflexivity.
Qed.

(** An address that is printed from a host and a port parses to them again,
    also if the host is an IPv6 literal. *)
Theorem parse_format_host_port (host : str) (port default_port : N) :
  address_host host -> (port <= 65535)%N ->
  parse_host_port_fallback (format_host_and_port host port) default_port = Ok (mkParts host port).
Proof.
  intros (Hne & Hslash & Hat & Hopen & Hclose) Hp.
  pose proof (digits_no_char port (ch ":") eq_refl) as Hdc. pose proof (parse_u16_show port Hp) as Hport.
  pose proof (format_no_char (ch "/") host port Hslash eq_refl eq_refl) as F1.
  pose proof (format_no_char (ch "@") host port Hat eq_refl eq_refl) as F2.
  unfold parse_host_port_fallback, after_first.
  rewrite (str_find_none_char _ (ch "/")) by (done || (right; left)). cbn [mbind option_bind default].
  rewrite split_char_head by done. cbn [default]. cbv [id]. rewrite rsplit_once_none by done. clear F1 F2.
  unfold format_host_and_port. destruct (contains_char host (ch ":")) eqn:Ec.
  - change (lit "[" ++ host ++ lit "]:" ++ lit (pretty port)) with (ch "[" :: host ++ ch "]" :: ch ":" :: lit (pretty port)).
    rewrite <- (fallback_literal host (lit (pretty port)) port default_port
      (ch "[" :: host ++ ch "]" :: ch ":" :: lit (pretty port)) Hne Hclose Hport).
    by rewrite bracket_end_literal.
  - assert (ch ":" ∉ host) as Hcol by (by rewrite <- contains_char_spec, Ec).
    change (host ++ lit ":" ++ lit (pretty port)) with (host ++ ch ":" :: lit (pretty port)).
    rewrite bracket_end_none, count_colons_once by done. cbn [Nat.eqb]. rewrite rsplit_once_last by done.
    rewrite (proj2 (is_empty_false host)) by done. by rewrite Hport.
Qed.

(** ** Examples *)

Definition no_urls : str -> option (option str * option N) := fun _ => None.

(** All interfaces are asked for, but sockets of the host are offered. *)
Definition exposed_config : NetworkProxyConfig := mkProxyConfig
  (mkSettings true (lit "http://0.0.0.0:8080") true default_socks_url true true true false Full None
     (Some (mkSocketPermissions [(lit "/run/docker.sock", UnixSocketAllow)])) false false).

Lemma resolve_runtime_spec_witness : exists runtime,
  resolve_runtime no_urls None None (fun s => s) exposed_config = Ok runtime /\
  ip_is_loopback (sa_ip (http_addr runtime)) = true /\ sa_port (http_addr runtime) = 8080%N.
Proof.
  exists (mkRuntime (mkSocketAddr localhost_v4 8080) (mkSocketAddr localhost_v4 8081)).
  split; [reflexivity|].
  destruct (resolve_runtime_spec no_urls None None (fun s => s) exposed_config
    (mkRuntime (mkSocketAddr localhost_v4 8080) (mkSocketAddr localhost_v4 8081)) eq_refl)
    as (http & socks & _ & _ & _ & _ & [H _]).
  split; [exact H|reflexivity].
Defined.

Lemma parse_format_host_port_witness :
  parse_host_port_fallback (format_host_and_port (lit "2001:db8::1") 443) 80 = Ok (mkParts (lit "2001:db8::1") 443).
Proof.
  apply parse_format_host_port; [|lia].
  split; [done|]. repeat split; apply (bool_decide_unpack _); vm_compute; reflexivity.
Defined.

Example parsed_addresses :
  map (fun s => parse_host_port_fallback (lit s) 80)
    ["https://user@example.com:443/x"; "[::1]:8080"; "::1"; "host:notaport"; "host:+81"]%string
  = [Ok (mkParts (lit "example.com") 443); Ok (mkParts (lit "::1") 8080); Ok (mkParts (lit "::1") 80);
     Ok (mkParts (lit "host") 80); Ok (mkParts (lit "host") 81)].
Proof. reflexivity. Qed.
