(* ===== verification/ProxyConstraints.v ===== *)
(** * ProxyConstraints: managed limits on the settings of the network proxy

    [network-proxy/src/state.rs].  [{:?}] on lists of texts is the parameter
    [debug]; the order in which a [HashSet] is listed shows in the texts of
    errors only, and is that of the list here. *)

From S2P Require Import Prelude BTree IpAddr DomainPolicy ProxyConfig.
Local Open Scope str_scope.

Record NetworkProxyConstraints : Type := mkConstraints {
  c_enabled : option bool;
  c_mode : option NetworkMode;
  c_allow_upstream_proxy : option bool;
  c_dangerously_allow_non_loopback_proxy : option bool;
  c_dangerously_allow_all_unix_sockets : option bool;
  c_allowed_domains : option (list str);
  c_allowlist_expansion_enabled : option bool;
  c_denied_domains : option (list str);
  c_denylist_expansion_enabled : option bool;
  c_allow_unix_sockets : option (list str);
  c_allow_local_binding : option bool;
}.
#[global] Instance constraints_eq_dec : EqDecision NetworkProxyConstraints.
Proof. solve_decision. Defined.

Definition constraints_default : NetworkProxyConstraints :=
  mkConstraints None None None None None None None None None None None.

Inductive NetworkProxyConstraintError : Type :=
| ProxyInvalidValue (field_name candidate allowed : str).

(** [Display], and [into_anyhow] *)
Definition show_constraint_error (e : NetworkProxyConstraintError) : str :=
  match e with
  | ProxyInvalidValue field_name candidate allowed =>
      lit "invalid value for " ++ field_name ++ lit ": " ++ candidate ++ lit " (allowed " ++ allowed ++ lit ")"
  end.
Definition into_anyhow {A} (r : result NetworkProxyConstraintError A) : anyhow A :=
  map_err (fun e => [show_constraint_error e]) r.

Definition network_mode_rank (mode : NetworkMode) : nat := match mode with Limited => 0 | Full => 1 end.

Definition show_mode (mode : NetworkMode) : str := match mode with Limited => lit "Limited" | Full => lit "Full" end.

(** [validate]: the candidate passes, or the error is reported. *)
Definition validate (passes : bool) (field_name candidate allowed : str)
    : result NetworkProxyConstraintError unit :=
  if passes then Ok tt else Err (ProxyInvalidValue field_name candidate allowed).

Definition disabled_text : str := lit "false (disabled by managed config)".

(** A setting that is on although the constraint is off *)
Definition validate_flag (field_name : str) (max : bool) (candidate : bool)
    : result NetworkProxyConstraintError unit :=
  validate (negb (candidate && negb max)) field_name (lit "true") disabled_text.

(** Sets of lower-case texts, as lists *)
Definition lower_set (l : list str) : list str := map to_ascii_lowercase l.
Definition subset (a b : list str) : bool := forallb (fun x => one_of x b) a.
Definition set_eqb (a b : list str) : bool := subset a b && subset b a.
Definition difference (a b : list str) : list str := List.filter (fun x => negb (one_of x b)) a.

Definition validate_non_global_wildcard_domain_patterns (field_name : str) (patterns : list str)
    : result NetworkProxyConstraintError unit :=
  match List.find is_global_wildcard_domain_pattern patterns with
  | Some pattern =>
      Err (ProxyInvalidValue field_name (trim pattern)
             (lit "exact hosts or scoped wildcards like *.example.com or **.example.com"))
  | None => Ok tt
  end.

Section Validate.
Context (url_host : str -> option str) (debug : list str -> str).

(** The managed allowlist *)
Definition validate_allowed_domains (config_allowed config_denied : list str)
    (allowlist_expansion_enabled : option bool) (managed : list str)
    : result NetworkProxyConstraintError unit :=
  _ ← validate_non_global_wildcard_domain_patterns (lit "network.allowed_domains") managed;
  let denied_domain_overrides := lower_set config_denied in
  match allowlist_expansion_enabled with
  | Some true =>
      let required_set := lower_set managed in
      let candidate_set := lower_set config_allowed in
      let missing := List.filter
        (fun entry => negb (one_of entry candidate_set) && negb (one_of entry denied_domain_overrides)) required_set in
      validate (is_empty missing) (lit "network.allowed_domains")
        (lit "missing managed allowed_domains entries") (debug missing)
  | Some false =>
      let expected_set := difference (lower_set managed) denied_domain_overrides in
      validate (set_eqb (lower_set config_allowed) expected_set) (lit "network.allowed_domains")
        (debug config_allowed) (lit "must match managed allowed_domains")
  | None =>
      let managed_patterns := map (parse_for_constraints url_host) managed in
      let invalid := List.filter
        (fun entry => negb (existsb (fun managed => pattern_allows managed (parse_for_constraints url_host entry))
                              managed_patterns)) config_allowed in
      validate (is_empty invalid) (lit "network.allowed_domains") (debug invalid)
        (lit "subset of managed allowed_domains")
  end.

(** The managed denylist *)
Definition validate_denied_domains (config_denied : list str) (denylist_expansion_enabled : option bool)
    (managed : list str) : result NetworkProxyConstraintError unit :=
  _ ← validate_non_global_wildcard_domain_patterns (lit "network.denied_domains") managed;
  let required_set := lower_set managed in
  let candidate_set := lower_set config_denied in
  match denylist_expansion_enabled with
  | Some false =>
      validate (set_eqb candidate_set required_set) (lit "network.denied_domains") (debug config_denied)
        (lit "must match managed denied_domains")
  | Some true | None =>
      let missing := difference required_set candidate_set in
      validate (is_empty missing) (lit "network.denied_domains")
        (lit "missing managed denied_domains entries") (debug missing)
  end.

Definition validate_unix_sockets (config_sockets managed : list str) : result NetworkProxyConstraintError unit :=
  let allowed_set := lower_set managed in
  let invalid := List.filter (fun entry => negb (one_of (to_ascii_lowercase entry) allowed_set)) config_sockets in
  validate (is_empty invalid) (lit "network.allow_unix_sockets") (debug invalid)
    (lit "subset of managed allow_unix_sockets").

(** A check that is made if there is a constraint *)
Definition when_some {A} (o : option A) (f : A -> result NetworkProxyConstraintError unit)
    : result NetworkProxyConstraintError unit :=
  match o with Some a => f a | None => Ok tt end.

(** A flag whose constraint allows it when there is none *)
Definition default_true (o : option bool) : bool := match o with Some false => false | _ => true end.

Definition validate_policy_against_constraints (config : NetworkProxyConfig)
    (constraints : NetworkProxyConstraints) : result NetworkProxyConstraintError unit :=
  let n := network config in
  let config_allowed_domains := default [] (allowed_domains n) in
  let config_denied_domains := default [] (denied_domains n) in
  let config_allow_unix_sockets := allow_unix_sockets n in
  _ ← validate_non_global_wildcard_domain_patterns (lit "network.denied_domains") config_denied_domains;
  _ ← when_some (c_enabled constraints) (fun max => validate_flag (lit "network.enabled") max (enabled n));
  _ ← when_some (c_mode constraints) (fun max_mode =>
        validate (network_mode_rank (mode n) <=? network_mode_rank max_mode) (lit "network.mode")
          (show_mode (mode n)) (show_mode max_mode ++ lit " or more restrictive"));
  _ ← validate_flag (lit "network.allow_upstream_proxy") (default_true (c_allow_upstream_proxy constraints))
        (allow_upstream_proxy n);
  _ ← validate_flag (lit "network.dangerously_allow_non_loopback_proxy")
        (default_true (c_dangerously_allow_non_loopback_proxy constraints)) (dangerously_allow_non_loopback_proxy n);
  let allow_all_unix_sockets :=
    default (bool_decide (c_allow_unix_sockets constraints = None))
      (c_dangerously_allow_all_unix_sockets constraints) in
  _ ← validate_flag (lit "network.dangerously_allow_all_unix_sockets") allow_all_unix_sockets
        (dangerously_allow_all_unix_sockets n);
  _ ← when_some (c_allow_local_binding constraints) (fun max =>
        validate_flag (lit "network.allow_local_binding") max (allow_local_binding n));
  _ ← when_some (c_allowed_domains constraints)
        (validate_allowed_domains config_allowed_domains config_denied_domains
           (c_allowlist_expansion_enabled constraints));
  _ ← when_some (c_denied_domains constraints)
        (validate_denied_domains config_denied_domains (c_denylist_expansion_enabled constraints));
  when_some (c_allow_unix_sockets constraints) (validate_unix_sockets config_allow_unix_sockets).
End Validate.

(** ** What the checks decide *)

Lemma validate_Ok passes f c a : validate passes f c a = Ok tt <-> passes = true.
Proof. by destruct passes. Qed.

Lemma validate_flag_Ok f max candidate : validate_flag f max candidate = Ok tt <-> (max = false -> candidate = false).
Proof. unfold validate_flag. rewrite validate_Ok. destruct max, candidate; simpl; intuition congruence. Qed.

Lemma unit_bind_Ok {E} (m : result E unit) (k : unit -> result E unit) :
  m ≫= k = Ok tt <-> m = Ok tt /\ k tt = Ok tt.
Proof. destruct m as [[]|]; simpl; [tauto|]. split; [done|]. by intros [??]. Qed.

Lemma when_some_Ok {A} (o : option A) f : when_some o f = Ok tt <-> forall a, o = Some a -> f a = Ok tt.
Proof. destruct o; simpl; [|done]. split; [by intros H b [= <-]|auto]. Qed.

Lemma default_true_false o : default_true o = false <-> o = Some false.
Proof. by destruct o as [[]|]. Qed.

Lemma is_empty_filter {A} (f : A -> bool) l : is_empty (List.filter f l) = true <-> forall x, x ∈ l -> f x = false.
Proof.
  split.
  - intros H x Hx. destruct (f x) eqn:E; [|done]. assert (x ∈ List.filter f l) as Hf by (by apply elem_of_filter_list).
    destruct (List.filter f l); [by apply elem_of_nil in Hf|done].
  - intros H. destruct (List.filter f l) as [|x l'] eqn:E; [done|]. exfalso.
    assert (x ∈ List.filter f l) as Hx by (rewrite E; left). apply elem_of_filter_list in Hx as [Hx Hf].
    by rewrite H in Hf.
Qed.

Lemma one_of_false s l : one_of s l = false <-> s ∉ l.
Proof. rewrite <- not_true_iff_false. by rewrite one_of_In. Qed.

Lemma subset_spec a b : subset a b = true <-> forall x, x ∈ a -> x ∈ b.
Proof. unfold subset. rewrite forallb_forall. setoid_rewrite one_of_In. by setoid_rewrite <- list_elem_of_In. Qed.

Lemma set_eqb_spec a b : set_eqb a b = true <-> forall x, x ∈ a <-> x ∈ b.
Proof. unfold set_eqb. rewrite andb_true_iff, !subset_spec. firstorder. Qed.

Lemma difference_elem a b x : x ∈ difference a b <-> x ∈ a /\ x ∉ b.
Proof. unfold difference. by rewrite elem_of_filter_list, negb_true_iff, one_of_false. Qed.

Lemma lower_set_elem l x : x ∈ l -> to_ascii_lowercase x ∈ lower_set l.
Proof. apply list_elem_of_fmap_2. Qed.

Lemma lower_set_forall l (P : str -> Prop) :
  (forall x, x ∈ lower_set l -> P x) <-> forall x, x ∈ l -> P (to_ascii_lowercase x).
Proof.
  split; [intros H x Hx; by apply H, lower_set_elem|].
  intros H x (y & -> & Hy)%list_elem_of_fmap. by apply H.
Qed.

(** No pattern of the list is the one for all hosts. *)
Definition no_global (l : list str) : Prop := forall p, p ∈ l -> is_global_wildcard_domain_pattern p = false.

Lemma validate_no_global f l : validate_non_global_wildcard_domain_patterns f l = Ok tt <-> no_global l.
Proof.
  unfold validate_non_global_wildcard_domain_patterns, no_global.
  destruct (List.find _ l) as [p|] eqn:E.
  - apply find_some in E as [Hin Hg]. split; [done|]. intros H. rewrite H in Hg; [done|]. by apply list_elem_of_In.
  - split; [|done]. intros _ p Hp. by apply (find_none _ _ E), list_elem_of_In.
Qed.

Section Within.
Context (url_host : str -> option str) (debug : list str -> str).

(** The domains that a managed allowlist asks for *)
Definition allowlist_within (config_allowed config_denied managed : list str) (expansion : option bool) : Prop :=
  no_global managed /\
  match expansion with
  | Some true =>
      forall p, p ∈ managed -> to_ascii_lowercase p ∈ lower_set config_allowed
                  \/ to_ascii_lowercase p ∈ lower_set config_denied
  | Some false =>
      forall x, x ∈ lower_set config_allowed <-> x ∈ lower_set managed /\ x ∉ lower_set config_denied
  | None =>
      forall p, p ∈ config_allowed -> exists m, m ∈ managed /\
        pattern_allows (parse_for_constraints url_host m) (parse_for_constraints url_host p) = true
  end.

Definition denylist_within (config_denied managed : list str) (expansion : option bool) : Prop :=
  no_global managed /\
  match expansion with
  | Some false => forall x, x ∈ lower_set config_denied <-> x ∈ lower_set managed
  | _ => forall p, p ∈ managed -> to_ascii_lowercase p ∈ lower_set config_denied
  end.

(** The settings are within the constraints. *)
Record within (n : NetworkProxySettings) (c : NetworkProxyConstraints) : Prop := mkWithin {
  w_denied : no_global (default [] (denied_domains n));
  w_enabled : c_enabled c = Some false -> enabled n = false;
  w_mode : forall m, c_mode c = Some m -> network_mode_rank (mode n) <= network_mode_rank m;
  w_upstream : c_allow_upstream_proxy c = Some false -> allow_upstream_proxy n = false;
  w_non_loopback : c_dangerously_allow_non_loopback_proxy c = Some false ->
    dangerously_allow_non_loopback_proxy n = false;
  w_all_sockets : c_dangerously_allow_all_unix_sockets c = Some false
      \/ (c_dangerously_allow_all_unix_sockets c = None /\ c_allow_unix_sockets c <> None) ->
    dangerously_allow_all_unix_sockets n = false;
  w_local_binding : c_allow_local_binding c = Some false -> allow_local_binding n = false;
  w_allowed : forall m, c_allowed_domains c = Some m ->
    allowlist_within (default [] (allowed_domains n)) (default [] (denied_domains n)) m
      (c_allowlist_expansion_enabled c);
  w_denied_domains : forall m, c_denied_domains c = Some m ->
    denylist_within (default [] (denied_domains n)) m (c_denylist_expansion_enabled c);
  w_sockets : forall m, c_allow_unix_sockets c = Some m ->
    forall s, s ∈ allow_unix_sockets n -> to_ascii_lowercase s ∈ lower_set m;
}.

Lemma validate_allowed_Ok a d e m :
  validate_allowed_domains url_host debug a d e m = Ok tt <-> allowlist_within a d m e.
Proof.
  unfold validate_allowed_domains, allowlist_within. rewrite unit_bind_Ok, validate_no_global.
  apply and_iff_compat_l. destruct e as [[]|]; rewrite validate_Ok.
  - rewrite is_empty_filter, lower_set_forall. apply forall_proper. intros p.
    rewrite andb_false_iff, !negb_false_iff, !one_of_In. done.
  - rewrite set_eqb_spec. by setoid_rewrite difference_elem.
  - rewrite is_empty_filter. setoid_rewrite negb_false_iff. setoid_rewrite existsb_exists.
    apply forall_proper. intros p. apply forall_proper. intros _. setoid_rewrite in_map_iff. split.
    + intros (x & (m' & <- & Hm) & Ha). exists m'. by rewrite list_elem_of_In.
    + intros (m' & Hm & Ha). eexists. split; [|done]. exists m'. by rewrite <- list_elem_of_In.
Qed.

Lemma validate_denied_Ok d e m : validate_denied_domains debug d e m = Ok tt <-> denylist_within d m e.
Proof.
  unfold validate_denied_domains, denylist_within. rewrite unit_bind_Ok, validate_no_global.
  apply and_iff_compat_l.
  assert (is_empty (difference (lower_set m) (lower_set d)) = true <->
          forall p, p ∈ m -> to_ascii_lowercase p ∈ lower_set d) as Hd.
  { unfold difference. rewrite is_empty_filter, lower_set_forall. setoid_rewrite negb_false_iff.
    by setoid_rewrite one_of_In. }
  destruct e as [[]|]; rewrite validate_Ok, ?set_eqb_spec, ?Hd; done.
Qed.

Lemma validate_sockets_Ok l m : validate_unix_sockets debug l m = Ok tt <->
  forall s, s ∈ l -> to_ascii_lowercase s ∈ lower_set m.
Proof.
  unfold validate_unix_sockets. rewrite validate_Ok, is_empty_filter. setoid_rewrite negb_false_iff.
  by setoid_rewrite one_of_In.
Qed.

Lemma all_sockets_default (all : option bool) (sockets : option (list str)) :
  default (bool_decide (sockets = None)) all = false <->
  all = Some false \/ (all = None /\ sockets <> None).
Proof.
  destruct all as [[]|]; simpl; [split; [done|by intros [?|[? _]]]|by split; [left|]|].
  rewrite bool_decide_eq_false. split; [by right|]. by intros [?|[_ ?]].
Qed.

Lemma validate_within config constraints :
  validate_policy_against_constraints url_host debug config constraints = Ok tt <-> within (network config) constraints.
Proof.
  unfold validate_policy_against_constraints. rewrite !unit_bind_Ok, !when_some_Ok, !validate_flag_Ok, validate_no_global,
    !default_true_false, all_sockets_default.
  split.
  - intros (H1 & H2 & H3 & H4 & H5 & H6 & H7 & H8 & H9 & H10). split; try done.
    + intros E. by apply (proj1 (validate_flag_Ok _ _ _) (H2 _ E)).
    + intros m E. by apply Nat.leb_le, (proj1 (validate_Ok _ _ _ _) (H3 _ E)).
    + intros E. by apply (proj1 (validate_flag_Ok _ _ _) (H7 _ E)).
    + intros m E. by apply validate_allowed_Ok, H8.
    + intros m E. by apply validate_denied_Ok, H9.
    + intros m E. by apply validate_sockets_Ok, H10.
  - intros [H1 H2 H3 H4 H5 H6 H7 H8 H9 H10]. split_and!; try done.
    + intros m E. apply validate_flag_Ok. intros ->. auto.
    + intros m E. apply validate_Ok, Nat.leb_le. auto.
    + intros m E. apply validate_flag_Ok. intros ->. auto.
    + intros m E. apply validate_allowed_Ok. auto.
    + intros m E. apply validate_denied_Ok. auto.
    + intros m E. apply validate_sockets_Ok. auto.
Qed.
End Within.

(** ** Managed allowlists confine *)

Section Confine.
Context `{GlobLaws} (url_host : str -> option str) (debug : list str -> str).

(** The comparison reads the pattern as the compilation does. *)
Definition same_reading (p : str) : Prop :=
  parse_for_constraints url_host p = pattern_parse (normalize_pattern p).

(** A managed allowlist that users may only narrow confines: if the settings
    pass the checks, every host that their compiled allowlist matches is one
    that the compiled managed list matches. *)
Theorem managed_allowlist_confines (config : NetworkProxyConfig) (constraints : NetworkProxyConstraints)
    (managed : list str) (allow_set managed_set : GlobSet) (host : str) :
  validate_policy_against_constraints url_host debug config constraints = Ok tt ->
  c_allowed_domains constraints = Some managed -> c_allowlist_expansion_enabled constraints = None ->
  let configured := default [] (allowed_domains (network config)) in
  compile_allowlist_globset configured = Ok allow_set -> compile_allowlist_globset managed = Ok managed_set ->
  Forall plain_pattern (configured ++ managed) -> Forall same_reading (configured ++ managed) -> plain_host host ->
  is_match allow_set host = true -> is_match managed_set host = true.
Proof.
  intros Hv Em Ee configured Hc Hcm [Hpc Hpm]%Forall_app [Hrc Hrm]%Forall_app Hh Hm.
  apply validate_within in Hv. pose proof (w_allowed _ _ _ Hv managed Em) as [_ Hw]. rewrite Ee in Hw.
  apply (match_covers _ _ _ _ Hc Hpc Hh) in Hm as (p & Hp & Hcov).
  destruct (Hw p Hp) as (m & Hmin & Ha). apply (match_covers _ _ _ _ Hcm Hpm Hh). exists m. split; [done|].
  rewrite Forall_forall in Hrc, Hrm, Hpc. rewrite <- (Hrm m Hmin). rewrite <- (Hrc p Hp) in Hcov.
  destruct (Hpc p Hp) as (_ & Hn & Hne). rewrite <- (Hrc p Hp) in Hn, Hne.
  revert host Hh Hcov. enough (forall host, covers (parse_for_constraints url_host p) host ->
    covers (parse_for_constraints url_host m) host) as Hi by (intros host _; apply Hi).
  apply allows_inclusion; [by rewrite Hn|done].
Qed.
End Confine.

(** ** Examples *)

Definition allow_config (patterns : list str) : NetworkProxyConfig :=
  mkProxyConfig (set_allowed_domains settings_default patterns).

Definition managed_allow (managed : list str) : NetworkProxyConstraints :=
  mkConstraints None None None None None (Some managed) None None None None None.

Definition show_list (l : list str) : str := join (lit ", ") l.

Lemma plain_example : Forall plain_pattern [lit "api.example.com"; lit "**.example.com"] /\
  Forall (same_reading Some) [lit "api.example.com"; lit "**.example.com"].
Proof. split; repeat constructor; simpl; try done; by vm_compute. Qed.

Lemma managed_allowlist_confines_witness :
  @is_match wild_globs [lit "example.com"; lit "?*.example.com"] (lit "api.example.com") = true /\
  validate_policy_against_constraints Some show_list (allow_config [lit "evil.org"]) (managed_allow [lit "**.example.com"])
  = Err (ProxyInvalidValue (lit "network.allowed_domains") (lit "evil.org") (lit "subset of managed allowed_domains")).
Proof.
  split; [|reflexivity].
  apply (@managed_allowlist_confines wild_globs wild_laws Some show_list (allow_config [lit "api.example.com"])
    (managed_allow [lit "**.example.com"]) [lit "**.example.com"] [lit "api.example.com"]
    [lit "example.com"; lit "?*.example.com"] (lit "api.example.com") eq_refl eq_refl eq_refl eq_refl eq_refl
    (proj1 plain_example) (proj2 plain_example) ltac:(split; [reflexivity|done]) eq_refl).
Defined.
