(* ===== verification/ProxyState.v ===== *)
(** * ProxyState: the shared state of the network proxy

    [network-proxy/src/runtime.rs] with [build_config_state] of [state.rs] and
    the decisions of [network_policy.rs].  The state is behind a lock, which
    each operation takes several times: an operation is a [Task] whose steps
    are the sections under the lock, and tasks interleave.  What the reloader
    answers, what a name resolves to, and the decider are inputs; the state of
    the interception of TLS is an abstract type. *)

From S2P Require Import Prelude Paths HostPaths BTree IpAddr DomainPolicy ProxyConfig ProxyConstraints.
Local Open Scope str_scope.

Definition MAX_BLOCKED_EVENTS : nat := 200.
Definition NETWORK_POLICY_VIOLATION_PREFIX : str := lit "CODEX_NETWORK_POLICY_VIOLATION".

(** ** Decisions about hosts *)

Inductive HostBlockReason : Type := Denied | NotAllowed | NotAllowedLocal.

Definition reason_as_str (self : HostBlockReason) : str :=
  match self with
  | Denied => lit "denied"
  | NotAllowed => lit "not_allowed"
  | NotAllowedLocal => lit "not_allowed_local"
  end.

Inductive HostBlockDecision : Type := Allowed | Blocked (reason : HostBlockReason).

Record BlockedRequest : Type := mkBlocked {
  br_host : str;
  br_reason : str;
  br_client : option str;
  br_method : option str;
  br_mode : option NetworkMode;
  br_protocol : str;
  br_decision : option str;
  br_source : option str;
  br_port : option N;
  br_timestamp : Z;
}.

Section State.
Context `{GL : Globs} `{HO : Host} {Mitm : Type}.

Record ConfigState : Type := mkConfigState {
  config : NetworkProxyConfig;
  allow_set : GlobSet;
  deny_set : GlobSet;
  mitm_state : option Mitm;
  constraints : NetworkProxyConstraints;
  blocked : list BlockedRequest;
  blocked_total : N;
}.

(** *** Building a state *)

Section Build.
Context (url_host : str -> option str) (debug : list str -> str).
Context (debug_str : str -> str).
(** [MitmState::new(allow_upstream_proxy)] *)
Context (mitm_new : bool -> anyhow Mitm).

Definition build_config_state (config : NetworkProxyConfig) (constraints : NetworkProxyConstraints)
    : anyhow ConfigState :=
  _ ← validate_unix_socket_allowlist_paths h_home_dir h_current_dir debug_str config;
  let allowed := default [] (allowed_domains (network config)) in
  let denied := default [] (denied_domains (network config)) in
  _ ← into_anyhow (validate_non_global_wildcard_domain_patterns (lit "network.denied_domains") denied);
  deny_set ← compile_denylist_globset denied;
  allow_set ← compile_allowlist_globset allowed;
  mitm ← (if mitm (network config)
          then m ← mitm_new (allow_upstream_proxy (network config)); Ok (Some m)
          else Ok None);
  Ok (mkConfigState config allow_set deny_set mitm constraints [] 0).

Definition with_blocked (s : ConfigState) (blocked : list BlockedRequest) (total : N) : ConfigState :=
  mkConfigState (config s) (allow_set s) (deny_set s) (mitm_state s) (constraints s) blocked total.

(** ** Is a host blocked *)

Definition is_explicit_local_allowlisted (allowed_domains : list str) (normalized_host : str) : bool :=
  existsb (fun pattern =>
    let pattern := trim pattern in
    if (pattern =? lit "*") || starts_with pattern (lit "*.") || starts_with pattern (lit "**.") then false
    else if contains_char pattern (ch "*") || contains_char pattern (ch "?") then false
    else normalize_host pattern =? normalized_host) allowed_domains.

(** What a name resolves to, unless the lookup fails or takes too long *)
Context (lookup_host : str -> N -> option (list IpAddr)).

Definition host_resolves_to_non_public_ip (host : str) (port : N) : bool :=
  match parse_ip host with
  | Some ip => is_non_public_ip ip
  | None =>
      match lookup_host host port with
      | None => true
      | Some addrs => existsb is_non_public_ip addrs
      end
  end.

Definition local_literal (host : str) : bool :=
  if is_loopback_host host then true
  else match parse_ip (without_scope host) with Some ip => is_non_public_ip ip | None => false end.

(** After the reload *)
Definition host_blocked (s : ConfigState) (host : str) (port : N) : HostBlockDecision :=
  match host_parse host with
  | Err _ => Blocked NotAllowed
  | Ok host =>
      let allowed := allowed_domains (network (config s)) in
      let allowed_domains_empty := bool_decide (allowed = None) in
      let allowed := default [] allowed in
      if is_match (deny_set s) host then Blocked Denied
      else
        let is_allowlisted := is_match (allow_set s) host in
        if negb (allow_local_binding (network (config s)))
           && (if local_literal host then negb (is_explicit_local_allowlisted allowed host)
               else host_resolves_to_non_public_ip host port)
        then Blocked NotAllowedLocal
        else if allowed_domains_empty || negb is_allowlisted then Blocked NotAllowed
        else Allowed
  end.

(** ** Sockets *)

Definition is_unix_socket_allowed (supported : bool) (s : ConfigState) (path : str) : bool :=
  if negb supported then false
  else if negb (is_absolute path) then false
  else if dangerously_allow_all_unix_sockets (network (config s)) then true
  else
    match absolute path with
    | None => false
    | Some requested_abs =>
        let requested_canonical := h_canonicalize requested_abs in
        existsb (fun allowed =>
          match socket_path_parse h_home_dir h_current_dir debug_str allowed with
          | Ok (Native allowed_path) =>
              if path_eqb allowed_path requested_abs then true
              else match requested_canonical, h_canonicalize allowed_path with
                   | Some requested, Some canonical => path_eqb canonical requested
                   | _, _ => false
                   end
          | Ok (UnixStyleAbsolute _) | Err _ => false
          end) (allow_unix_sockets (network (config s)))
    end.

(** [cfg!(target_os = "macos")] *)
Definition unix_socket_permissions_supported : bool := false.

(** ** Changing the state *)

Inductive DomainListKind : Type := KindAllow | KindDeny.

Definition list_name (self : DomainListKind) : str :=
  match self with KindAllow => lit "allowlist" | KindDeny => lit "denylist" end.
Definition constraint_field (self : DomainListKind) : str :=
  match self with KindAllow => lit "network.allowed_domains" | KindDeny => lit "network.denied_domains" end.
Definition kind_permission (self : DomainListKind) : NetworkDomainPermission :=
  match self with KindAllow => DomainAllow | KindDeny => DomainDeny end.
Definition kind_entries (self : DomainListKind) (network : NetworkProxySettings) : list str :=
  match self with
  | KindAllow => default [] (allowed_domains network)
  | KindDeny => default [] (denied_domains network)
  end.
Definition opposite_entries (self : DomainListKind) (network : NetworkProxySettings) : list str :=
  match self with
  | KindAllow => default [] (denied_domains network)
  | KindDeny => default [] (allowed_domains network)
  end.

Definition set_mode (n : NetworkProxySettings) (m : NetworkMode) : NetworkProxySettings :=
  mkSettings (enabled n) (proxy_url n) (enable_socks5 n) (socks_url n) (enable_socks5_udp n)
    (allow_upstream_proxy n) (dangerously_allow_non_loopback_proxy n) (dangerously_allow_all_unix_sockets n)
    m (domains n) (unix_sockets n) (allow_local_binding n) (mitm n).

Definition with_mode (s : ConfigState) (m : NetworkMode) : ConfigState :=
  mkConfigState (mkProxyConfig (set_mode (network (config s)) m)) (allow_set s) (deny_set s) (mitm_state s)
    (constraints s) (blocked s) (blocked_total s).

Definition U64_MAX : N := 2 ^ 64 - 1.

(** The queue never gets longer than its bound. *)
Definition push_blocked (s : ConfigState) (entry : BlockedRequest) : ConfigState :=
  let l := blocked s ++ [entry] in
  with_blocked s (drop (length l - MAX_BLOCKED_EVENTS) l) (N.min (blocked_total s + 1) U64_MAX).

(** *** Operations as tasks *)

Inductive Op : Type :=
| UpdateDomain (target : DomainListKind) (normalized_host : str)
| SetMode (m : NetworkMode)
| RecordBlocked (entry : BlockedRequest)
| DrainBlocked
| ReplaceState (new_state : ConfigState)
| HostBlocked (host : str) (port : N).

Inductive Outcome : Type :=
| Done
| Failed (err : list str)
| Drained (entries : list BlockedRequest)
| Decided (decision : HostBlockDecision).

Inductive Task : Type :=
(** [reload_if_needed] is called *)
| Starting (op : Op)
(** there is a new state; what was blocked has been read *)
| Reloading (op : Op) (new_state : ConfigState)
(** the reload is over *)
| Ready (op : Op)
(** the new state of [update_domain_list] is to be written *)
| Updating (target : DomainListKind) (normalized_host : str) (previous_cfg : NetworkProxyConfig)
    (snapshot : NetworkProxyConstraints) (new_state : ConfigState)
(** the mode is to be written *)
| SettingMode (m : NetworkMode) (snapshot : NetworkProxyConstraints)
(** [force_reload]: the reloader is asked *)
| Forcing
| Finished (op : option Op) (outcome : Outcome).

(** What [update_domain_list] makes of the state it reads *)
Definition update_snapshot (s : ConfigState) (target : DomainListKind) (normalized_host : str) : Task :=
  let op := UpdateDomain target normalized_host in
  let n := network (config s) in
  let target_contains := existsb (fun entry => normalize_host entry =? normalized_host) (kind_entries target n) in
  let opposite_contains := existsb (fun entry => normalize_host entry =? normalized_host) (opposite_entries target n) in
  if target_contains && negb opposite_contains then Finished (Some op) Done
  else
    let candidate := mkProxyConfig
      (upsert_domain_permission n normalized_host (kind_permission target) normalize_host) in
    match
      _ ← with_context (constraint_field target ++ lit " constrained by managed config")
            (into_anyhow (validate_policy_against_constraints url_host debug candidate (constraints s)));
      with_context (lit "failed to compile updated network " ++ list_name target)
        (build_config_state candidate (constraints s))
    with
    | Err e => Finished (Some op) (Failed e)
    | Ok new_state =>
        Updating target normalized_host (config s) (constraints s)
          (with_blocked new_state (blocked s) (blocked_total s))
    end.

(** [add_allowed_domain] and [add_denied_domain] *)
Definition update_domain_list (target : DomainListKind) (host : str) : anyhow Task :=
  normalized_host ← with_context (lit "invalid network host") (host_parse host);
  Ok (Starting (UpdateDomain target normalized_host)).

(** One section under the lock; [reload] is what the reloader answers if it is
    asked. *)
Definition step_task (reload : anyhow (option ConfigState)) (s : ConfigState) (t : Task) : ConfigState * Task :=
  match t with
  | Starting op =>
      match reload with
      | Err e => (s, Finished (Some op) (Failed e))
      | Ok None => (s, Ready op)
      | Ok (Some new_state) => (s, Reloading op (with_blocked new_state (blocked s) (blocked_total s)))
      end
  | Reloading op new_state => (new_state, Ready op)
  | Ready (UpdateDomain target normalized_host) => (s, update_snapshot s target normalized_host)
  | Ready (SetMode m) =>
      let candidate := mkProxyConfig (set_mode (network (config s)) m) in
      match with_context (lit "network.mode constrained by managed config")
              (into_anyhow (validate_policy_against_constraints url_host debug candidate (constraints s))) with
      | Err e => (s, Finished (Some (SetMode m)) (Failed e))
      | Ok _ => (s, SettingMode m (constraints s))
      end
  | Ready (RecordBlocked entry) => (push_blocked s entry, Finished (Some (RecordBlocked entry)) Done)
  | Ready DrainBlocked =>
      (with_blocked s [] (blocked_total s), Finished (Some DrainBlocked) (Drained (blocked s)))
  | Ready (ReplaceState new_state) =>
      (with_blocked new_state (blocked s) (blocked_total s), Finished (Some (ReplaceState new_state)) Done)
  | Ready (HostBlocked host port) =>
      (s, Finished (Some (HostBlocked host port)) (Decided (host_blocked s host port)))
  | Updating target normalized_host previous_cfg snapshot new_state =>
      if negb (bool_decide (constraints s = snapshot)) || negb (bool_decide (config s = previous_cfg))
      then (s, Starting (UpdateDomain target normalized_host))
      else (new_state, Finished (Some (UpdateDomain target normalized_host)) Done)
  | SettingMode m snapshot =>
      if negb (bool_decide (constraints s = snapshot)) then (s, Starting (SetMode m))
      else (with_mode s m, Finished (Some (SetMode m)) Done)
  | Forcing =>
      match reload with
      | Err e => (s, Finished None (Failed e))
      | Ok None => (s, Forcing)
      | Ok (Some new_state) =>
          (with_blocked new_state (blocked s) (blocked_total new_state), Finished None Done)
      end
  | Finished _ _ => (s, t)
  end.

(** An interleaving: which task makes the next step, and what the reloader answers. *)
Definition Schedule : Type := list (nat * anyhow (option ConfigState)).

Definition run_step (st : ConfigState * list Task) (e : nat * anyhow (option ConfigState))
    : ConfigState * list Task :=
  match st.2 !! e.1 with
  | None => st
  | Some t => let '(s, t) := step_task e.2 st.1 t in (s, <[e.1 := t]> st.2)
  end.

Definition run (st : ConfigState * list Task) (schedule : Schedule) : ConfigState * list Task :=
  fold_left run_step schedule st.

(** *** What holds of every state *)

Record state_ok (s : ConfigState) : Prop := mkStateOk {
  so_within : within url_host (network (config s)) (constraints s);
  so_deny : compile_denylist_globset (default [] (denied_domains (network (config s)))) = Ok (deny_set s);
  so_allow : compile_allowlist_globset (default [] (allowed_domains (network (config s)))) = Ok (allow_set s);
  so_blocked : length (blocked s) <= MAX_BLOCKED_EVENTS;
}.

Definition reload_ok (reload : anyhow (option ConfigState)) : Prop :=
  forall s, reload = Ok (Some s) -> state_ok s.

Definition op_ok (op : Op) : Prop :=
  match op with ReplaceState s => state_ok s | _ => True end.

(** What a task has read and will write *)
Definition task_ok (t : Task) : Prop :=
  match t with
  | Starting op | Ready op => op_ok op
  | Reloading op s => op_ok op /\ state_ok s
  | Updating target host previous snapshot new_state =>
      state_ok new_state /\ constraints new_state = snapshot /\
      config new_state
      = mkProxyConfig (upsert_domain_permission (network previous) host (kind_permission target) normalize_host)
  | SettingMode m snapshot => forall most, c_mode snapshot = Some most -> network_mode_rank m <= network_mode_rank most
  | Forcing | Finished _ _ => True
  end.

Lemma with_blocked_ok s l n : state_ok s -> length l <= MAX_BLOCKED_EVENTS -> state_ok (with_blocked s l n).
Proof. by intros [????] ?. Qed.

Lemma push_blocked_ok s entry : state_ok s -> state_ok (push_blocked s entry).
Proof. intros H. apply with_blocked_ok; [done|]. rewrite length_drop. lia. Qed.

Lemma with_mode_ok s m : state_ok s ->
  (forall most, c_mode (constraints s) = Some most -> network_mode_rank m <= network_mode_rank most) ->
  state_ok (with_mode s m).
Proof. by intros [[] ???] Hm. Qed.

Lemma build_config_state_ok cfg c s : build_config_state cfg c = Ok s -> within url_host (network cfg) c ->
  state_ok s /\ config s = cfg /\ constraints s = c.
Proof.
  unfold build_config_state. intros H Hw. revert H.
  destruct (validate_unix_socket_allowlist_paths _ _ _ _); simpl; [|done].
  destruct (into_anyhow _); simpl; [|done].
  destruct (compile_denylist_globset _) as [deny|] eqn:Ed; simpl; [|done].
  destruct (compile_allowlist_globset _) as [allow|] eqn:Ea; simpl; [|done].
  destruct (if mitm (network cfg) then _ else _); simpl; [|done]. intros [= <-]. split; [|done].
  split; cbn [config constraints deny_set allow_set blocked length]; [done..|lia].
Qed.

Lemma with_context_Ok {A} msg (r : anyhow A) a : with_context msg r = Ok a <-> r = Ok a.
Proof. by destruct r. Qed.

Lemma into_anyhow_Ok {A} (r : result NetworkProxyConstraintError A) a : into_anyhow r = Ok a <-> r = Ok a.
Proof. by destruct r; split; intros [= ->]. Qed.

Lemma bind_Ok {E A B} (m : result E A) (k : A -> result E B) b :
  m ≫= k = Ok b <-> exists a, m = Ok a /\ k a = Ok b.
Proof. destruct m; simpl; [|by split; [|intros (? & ? & _)]]. split; [eauto|]. by intros (? & [= <-] & ?). Qed.

Lemma update_snapshot_ok s target host : state_ok s -> task_ok (update_snapshot s target host).
Proof.
  intros Hs. unfold update_snapshot. destruct (_ && _); [done|].
  destruct (with_context _ (into_anyhow _) ≫= _) as [new_state|] eqn:E; [|done].
  apply bind_Ok in E as ([] & Hv & Hb). cbn beta in Hb. apply with_context_Ok in Hb. apply with_context_Ok, into_anyhow_Ok, validate_within in Hv.
  destruct (build_config_state_ok _ _ _ Hb Hv) as (Hok & Hc & Hcs). split; [|done].
  apply with_blocked_ok, so_blocked; done.
Qed.

Lemma step_task_ok reload s t : reload_ok reload -> state_ok s -> task_ok t ->
  state_ok (step_task reload s t).1 /\ task_ok (step_task reload s t).2.
Proof.
  intros Hr Hs Ht. destruct t as [op|op ns|op|target host prev snap ns|m snap| |op o]; cbn [step_task].
  - destruct reload as [[ns|]|]; [|done..]. split; [done|]. split; [done|].
    apply with_blocked_ok, so_blocked; [by apply Hr|done].
  - by destruct Ht.
  - destruct op as [target host|m|entry| |ns|host port]; cbn [step_task fst snd].
    + split; [done|]. by apply update_snapshot_ok.
    + destruct (with_context _ _) as [[]|] eqn:E; [|done]. split; [done|]. intros most Hm.
      apply with_context_Ok, into_anyhow_Ok, validate_within in E. by apply (w_mode _ _ _ E).
    + split; [by apply push_blocked_ok|done].
    + split; [|done]. apply with_blocked_ok; [done|]. simpl. lia.
    + split; [|done]. apply with_blocked_ok, so_blocked; done.
    + done.
  - destruct (_ || _); [done|]. by destruct Ht.
  - case_bool_decide as E; [|done]. split; [|done]. apply with_mode_ok; [done|]. by rewrite E.
  - destruct reload as [[ns|]|]; [|done..]. split; [|done]. apply with_blocked_ok, so_blocked; [by apply Hr|done].
  - done.
Qed.

Lemma run_step_ok e st : reload_ok e.2 -> state_ok st.1 -> Forall task_ok st.2 ->
  state_ok (run_step st e).1 /\ Forall task_ok (run_step st e).2.
Proof.
  intros Hr Hs Ht. unfold run_step. destruct (st.2 !! e.1) as [t|] eqn:E; [|done].
  destruct (step_task_ok e.2 st.1 t Hr Hs (proj1 (Forall_lookup _ _) Ht _ _ E)) as [Hs' Ht'].
  destruct (step_task e.2 st.1 t). split; [done|]. by apply Forall_insert.
Qed.

Lemma run_ok schedule st : Forall (fun e => reload_ok e.2) schedule -> state_ok st.1 -> Forall task_ok st.2 ->
  state_ok (run st schedule).1 /\ Forall task_ok (run st schedule).2.
Proof.
  intros Hr. revert st. induction Hr as [|e schedule He Hr IH]; intros st Hs Ht; [done|].
  destruct (run_step_ok e st He Hs Ht). by apply IH.
Qed.

Definition starting (t : Task) : Prop := t = Forcing \/ exists op, t = Starting op /\ op_ok op.

Lemma starting_ok l : Forall starting l -> Forall task_ok l.
Proof. intros H. eapply Forall_impl; [exact H|]. by intros ? [->|(op & -> & ?)]. Qed.

(** A state that [build_config_state] makes of settings that were validated *)
Definition made (s : ConfigState) : Prop :=
  exists cfg c, validate_policy_against_constraints url_host debug cfg c = Ok tt /\ build_config_state cfg c = Ok s.

Lemma made_ok s : made s -> state_ok s.
Proof. intros (cfg & c & Hv%validate_within & Hb). by destruct (build_config_state_ok _ _ _ Hb Hv). Qed.

Definition op_made (op : Op) : Prop := match op with ReplaceState s => made s | _ => True end.
Definition task_new (t : Task) : Prop := t = Forcing \/ exists op, t = Starting op /\ op_made op.
Definition reload_made (reload : anyhow (option ConfigState)) : Prop := forall s, reload = Ok (Some s) -> made s.

(** C26: however the operations on the shared state interleave, and whatever the
    reloads in between answer, where the states that the proxy starts with,
    that reloads bring and that replace it are made by [build_config_state] of
    settings that were validated: the settings stay within the managed
    constraints, the compiled sets are those of the settings' lists, and the
    queue of blocked requests is bounded. *)
Theorem proxy_state_invariant (schedule : Schedule) (s : ConfigState) (tasks : list Task) :
  made s -> Forall task_new tasks -> Forall (fun e => reload_made e.2) schedule ->
  let s' := (run (s, tasks) schedule).1 in
  validate_policy_against_constraints url_host debug (config s') (constraints s') = Ok tt /\
  compile_denylist_globset (default [] (denied_domains (network (config s')))) = Ok (deny_set s') /\
  compile_allowlist_globset (default [] (allowed_domains (network (config s')))) = Ok (allow_set s') /\
  length (blocked s') <= MAX_BLOCKED_EVENTS.
Proof.
  intros Hs%made_ok Ht Hr s'.
  assert (Forall starting tasks) as Ht'.
  { eapply Forall_impl; [exact Ht|]. intros t [->|(op & -> & Ho)]; [by left|right]. exists op. split; [done|].
    destruct op; try done. by apply made_ok. }
  assert (Forall (fun e => reload_ok e.2) schedule) as Hr'.
  { eapply Forall_impl; [exact Hr|]. intros e He s0 E. by apply made_ok, He. }
  destruct (run_ok schedule (s, tasks) Hr' Hs (starting_ok _ Ht')) as [[] _].
  split; [by apply validate_within|done].
Qed.

(** *** Adding a domain *)

Lemma kind_entries_elem target n p : p ∈ kind_entries target n ->
  mkDomainEntry p (kind_permission target) ∈ entries_or_default n.
Proof. destruct target; [intros [? _]%allowed_domains_elem|intros ?%denied_domains_elem]; done. Qed.

Definition opposite (target : DomainListKind) : DomainListKind :=
  match target with KindAllow => KindDeny | KindDeny => KindAllow end.

Lemma opposite_entries_eq target n : opposite_entries target n = kind_entries (opposite target) n.
Proof. by destruct target. Qed.

(** The host is in the one list and not in the other. *)
Definition listed (target : DomainListKind) (host : str) (n : NetworkProxySettings) : Prop :=
  (exists p, p ∈ kind_entries target n /\ normalize_host p = host) /\
  forall p, p ∈ opposite_entries target n -> normalize_host p <> host.

Lemma upsert_listed n host target : normalize_host host = host ->
  listed target host (upsert_domain_permission n host (kind_permission target) normalize_host).
Proof.
  intros Hn. split.
  - exists host. split; [|done]. destruct target; cbn [kind_entries kind_permission].
    + apply allowed_domains_elem. rewrite !upsert_entries. split; [by left|]. by intros [[=]|[_ []]].
    + apply denied_domains_elem, upsert_entries. by left.
  - intros p. rewrite opposite_entries_eq. intros Hp%kind_entries_elem.
    apply upsert_entries in Hp as [E|[_ Hp]]; [by destruct target|]. cbn [de_pattern] in Hp. by rewrite Hn in Hp.
Qed.

Lemma contains_spec (l : list str) host :
  existsb (fun entry => normalize_host entry =? host) l = true <-> exists p, p ∈ l /\ normalize_host p = host.
Proof.
  rewrite existsb_exists. setoid_rewrite bool_decide_eq_true. by setoid_rewrite <- list_elem_of_In.
Qed.

Lemma update_snapshot_done s target host : update_snapshot s target host = Finished (Some (UpdateDomain target host)) Done ->
  listed target host (network (config s)).
Proof.
  unfold update_snapshot. destruct (_ && _) eqn:E; [|by destruct (_ ≫= _)]. intros _.
  apply andb_true_iff in E as [Ht%contains_spec Ho%negb_true_iff]. split; [done|]. intros p Hp Hn.
  rewrite (proj2 (contains_spec _ _)) in Ho; [done|]. eauto.
Qed.

Definition finished (t : Task) : Prop := match t with Finished _ _ => True | _ => False end.

(** The step with which an update succeeds leaves the host in its list only. *)
Lemma update_done_listed reload s t target host : task_ok t -> ~ finished t -> normalize_host host = host ->
  (step_task reload s t).2 = Finished (Some (UpdateDomain target host)) Done ->
  listed target host (network (config (step_task reload s t).1)).
Proof.
  intros Ht Hf Hn. destruct t as [op|op ns|op|target' host' prev snap ns|m snap| |op o]; cbn [step_task].
  - by destruct reload as [[]|].
  - done.
  - destruct op as [target' host'|m| | | |]; cbn [fst snd]; try done; [|by destruct (with_context _ _)].
    intros E. assert (target' = target /\ host' = host) as [-> ->].
    { revert E. unfold update_snapshot. destruct (_ && _); [by intros [= -> ->]|]. by destruct (_ ≫= _). }
    by apply update_snapshot_done.
  - destruct (_ || _); [done|]. cbn [fst snd]. intros [= -> ->]. destruct Ht as (_ & _ & ->).
    by apply upsert_listed.
  - by destruct (negb _).
  - by destruct reload as [[]|].
  - done.
Qed.

(** *** What is allowed *)

(** Where the name leads is public. *)
Definition leads_public (host : str) (port : N) : Prop :=
  match parse_ip host with
  | Some ip => non_public ip = false
  | None => exists addrs, lookup_host host port = Some addrs /\ Forall (fun ip => non_public ip = false) addrs
  end.

(** A pattern of the list has a candidate that matches. *)
Definition matched_by (patterns : list str) (host : str) : Prop :=
  exists p g, p ∈ patterns /\ g ∈ expand_domain_pattern (normalize_pattern p) /\ glob_match g host = true.

Lemma compiled_matched w patterns set host : compile_globset_with_policy patterns w = Ok set ->
  is_match set host = true <-> matched_by patterns host.
Proof.
  intros Hc. rewrite (compiled_match _ _ _ _ Hc). unfold candidates, matched_by. setoid_rewrite list_elem_of_bind.
  split; [intros (g & (p & ? & ?) & ?)|intros (p & g & ? & ? & ?)]; eauto 8.
Qed.

Lemma explicit_local_spec allowed host : is_explicit_local_allowlisted allowed host = true ->
  exists p, p ∈ allowed /\ ch "*" ∉ trim p /\ ch "?" ∉ trim p /\ normalize_host p = host.
Proof.
  intros (p & Hp & H)%existsb_exists. exists p. rewrite list_elem_of_In. split; [done|]. revert H. cbv zeta.
  destruct (_ || _ || _); [done|]. destruct (_ || _) eqn:E; [done|].
  rewrite bool_decide_eq_true, normalize_host_trim. apply orb_false_iff in E as [E1 E2].
  rewrite <- not_true_iff_false, contains_char_spec in E1, E2. done.
Qed.

Lemma resolves_public host port :
  (forall host port addrs, lookup_host host port = Some addrs -> Forall ip_ok addrs) ->
  host_resolves_to_non_public_ip host port = false -> leads_public host port.
Proof.
  intros Hl. unfold host_resolves_to_non_public_ip, leads_public. destruct (parse_ip host) as [ip|] eqn:E.
  - by rewrite is_non_public_ip_spec by (by eapply parse_ip_ok).
  - destruct (lookup_host host port) as [addrs|] eqn:El; [|done]. intros H. exists addrs. split; [done|].
    pose proof (Hl _ _ _ El) as Hok. clear El. induction Hok as [|ip addrs Hip Hok IH]; [done|]. simpl in H.
    apply orb_false_iff in H as [Ha Hb]. rewrite is_non_public_ip_spec in Ha by done. constructor; auto.
Qed.

(** A request that the proxy allows is for a host that some pattern of the
    allowlist matches and none of the denylist; and unless local addresses are
    open, either the host is a local one that an entry of the allowlist names
    exactly, or it leads to public addresses only: its own, or all those that
    the name has, and the lookup succeeded. *)
Theorem host_blocked_safe (s : ConfigState) (input : str) (port : N) :
  state_ok s -> (forall host port addrs, lookup_host host port = Some addrs -> Forall ip_ok addrs) ->
  host_blocked s input port = Allowed ->
  exists host, host_parse input = Ok host /\
    matched_by (default [] (allowed_domains (network (config s)))) host /\
    ~ matched_by (default [] (denied_domains (network (config s)))) host /\
    (allow_local_binding (network (config s)) = false ->
     (local_literal host = true /\
      exists p, p ∈ default [] (allowed_domains (network (config s))) /\
        ch "*" ∉ trim p /\ ch "?" ∉ trim p /\ normalize_host p = host)
     \/ (local_literal host = false /\ leads_public host port)).
Proof.
  intros [_ Hd Ha _] Hl. unfold host_blocked. destruct (host_parse input) as [host|]; [|done]. intros H. exists host.
  split; [done|]. rewrite <- (compiled_matched _ _ _ _ Hd), <- (compiled_matched _ _ _ _ Ha), not_true_iff_false.
  destruct (is_match (deny_set s) host) eqn:Ed; [done|]. destruct (_ && _) eqn:El; [done|].
  destruct (is_match (allow_set s) host) eqn:Ea; [|by rewrite orb_true_r in H]. split; [done|]. split; [done|].
  intros Hb. rewrite Hb in El. destruct (local_literal host); cbn [negb andb] in El.
  - left. split; [done|]. apply negb_false_iff in El. by apply explicit_local_spec.
  - right. split; [done|]. by apply resolves_public.
Qed.

(** *** A denied host is blocked *)

Section Denied.
Context `{!GlobLaws}.

Lemma listed_denied s host input port : state_ok s -> listed KindDeny host (network (config s)) ->
  literal host -> trim host = host -> host_parse input = Ok host -> host_blocked s input port = Blocked Denied.
Proof.
  intros [_ Hd _ _] [(p & Hp & <-) _] Hl Ht Hi. unfold host_blocked. rewrite Hi.
  apply host_parse_ok in Hi as (_ & Hn & _). by rewrite (entry_matches _ _ _ p Hd Hp Hl Ht Hn).
Qed.

(** When a call that denies a host succeeds, among any other operations on
    the state and any reloads, the state that it leaves blocks the host: every
    request whose host reads as it is denied, whatever the allowlist says. *)
Theorem denied_host_is_blocked (schedule : Schedule) (e : nat * anyhow (option ConfigState)) (s : ConfigState)
    (tasks : list Task) (t : Task) (host input : str) (port : N) :
  state_ok s -> Forall starting tasks -> Forall (fun e => reload_ok e.2) (schedule ++ [e]) ->
  bare_host host -> literal host -> host_parse input = Ok host ->
  (run (s, tasks) schedule).2 !! e.1 = Some t -> ~ finished t ->
  (run (s, tasks) (schedule ++ [e])).2 !! e.1 = Some (Finished (Some (UpdateDomain KindDeny host)) Done) ->
  host_blocked (run (s, tasks) (schedule ++ [e])).1 input port = Blocked Denied.
Proof.
  intros Hs Ht Hr Hb Hl Hi Hbefore Hf Hafter.
  pose proof (run_ok (schedule ++ [e]) (s, tasks) Hr Hs (starting_ok _ Ht)) as [Hok' _].
  apply Forall_app in Hr as [Hr _]. destruct (run_ok schedule (s, tasks) Hr Hs (starting_ok _ Ht)) as [Hok Htasks].
  apply listed_denied with (host := host); [done| |done|apply Hb|done].
  revert Hafter. unfold run. rewrite fold_left_app. fold (run (s, tasks) schedule). simpl. unfold run_step.
  rewrite Hbefore. pose proof (update_done_listed e.2 (run (s, tasks) schedule).1 t KindDeny host) as Hu.
  destruct (step_task e.2 (run (s, tasks) schedule).1 t) as [s' t'] eqn:E. cbn [fst snd] in *.
  rewrite list_lookup_insert_eq by (by eapply lookup_lt_Some). intros [= ->]. apply Hu; [|done|by apply bare_host_normalize|done].
  by eapply Forall_lookup_1.
Qed.
End Denied.

(** *** Undisturbed, every operation ends *)

Definition quiet (n : nat) : Schedule := repeat (0, Ok None) n.

Lemma update_snapshot_cases s target host :
  (exists o, update_snapshot s target host = Finished (Some (UpdateDomain target host)) o) \/
  exists ns, update_snapshot s target host = Updating target host (config s) (constraints s) ns.
Proof. unfold update_snapshot. destruct (_ && _); [by left; eexists|]. destruct (_ ≫= _); [right|left]; by eexists. Qed.

(** The retries end when nothing interferes: three steps are enough. *)
Lemma alone_finishes s op : exists s' o, run (s, [Starting op]) (quiet 3) = (s', [Finished (Some op) o]).
Proof.
  unfold quiet, run. cbn [repeat fold_left]. unfold run_step at 2 3. cbn [fst snd lookup list_lookup step_task insert list_insert].
  destruct op as [target host|m|entry| |ns|host port]; cbn [step_task]; try by eexists _, _.
  - destruct (update_snapshot_cases s target host) as [[o ->]|[ns ->]]; [by eexists _, _|].
    unfold run_step. cbn [fst snd lookup list_lookup step_task insert list_insert].
    rewrite !bool_decide_eq_true_2 by done. by eexists _, _.
  - destruct (with_context _ _); [|by eexists _, _].
    unfold run_step. cbn [fst snd lookup list_lookup step_task insert list_insert].
    rewrite bool_decide_eq_true_2 by done. by eexists _, _.
Qed.
End Build.
End State.

(** ** Examples *)

Section Examples.
#[local] Existing Instance wild_globs.
#[local] Existing Instance wild_laws.
#[local] Instance example_host : Host := HostPaths.plain_host [].

Definition example_mitm (_ : bool) : anyhow unit := Ok tt.
Definition example_lookup (_ : str) (_ : N) : option (list IpAddr) := Some [V4 (mkV4 93 184 216 34)].

Definition example_build := build_config_state (Mitm := unit) id example_mitm.
Definition example_run := run (Mitm := unit) Some show_list id example_mitm example_lookup.

(** Every host is allowed, and nothing managed. *)
Definition open_config : NetworkProxyConfig := allow_config [lit "*"].
Definition open_state : ConfigState (Mitm := unit) :=
  mkConfigState open_config [lit "*"] [] None constraints_default [] 0.

Lemma open_state_built : example_build open_config constraints_default = Ok open_state.
Proof. reflexivity. Qed.

Lemma open_state_made : made (Mitm := unit) Some show_list id example_mitm open_state.
Proof. exists open_config, constraints_default. split; reflexivity. Qed.

Lemma open_state_ok : state_ok (Mitm := unit) Some open_state.
Proof. split; [by apply (validate_within Some show_list)|done..|simpl; lia]. Qed.

Definition evil : str := lit "evil.org".
Definition deny_evil : Op (Mitm := unit) := UpdateDomain KindDeny evil.

Definition example_entry : BlockedRequest :=
  mkBlocked evil (reason_as_str NotAllowed) None None None (lit "http") None None (Some 80%N) 0.

Definition deny_schedule : Schedule (Mitm := unit) := quiet 2.

Lemma quiet_ok n : Forall (fun e => reload_ok (Mitm := unit) Some e.2) (quiet n).
Proof. apply Forall_forall. intros [i r] H%list_elem_of_In%repeat_spec. by injection H as -> ->. Qed.

Lemma bare_evil : bare_host evil.
Proof. repeat split; vm_compute; congruence. Qed.

Lemma denied_host_is_blocked_witness :
  host_blocked example_lookup open_state (lit "EVIL.org.:443") 443 = Allowed /\
  host_blocked example_lookup (example_run (open_state, [Starting deny_evil]) (quiet 3)).1 (lit "EVIL.org.:443") 443
  = Blocked Denied.
Proof.
  split; [reflexivity|].
  apply (denied_host_is_blocked Some show_list id example_mitm example_lookup (quiet 2) (0, Ok None) open_state
    [Starting deny_evil] (default Forcing (snd (example_run (open_state, [Starting deny_evil]) (quiet 2)) !! 0)) evil
    (lit "EVIL.org.:443") 443 open_state_ok); [|apply (quiet_ok 3)|apply bare_evil| |reflexivity..|intros H; exact H|reflexivity].
  - constructor; [|done]. right. by exists deny_evil.
  - repeat constructor.
Defined.

Lemma proxy_state_invariant_witness :
  let s := (example_run (open_state, [Starting deny_evil; Starting (RecordBlocked example_entry)])
             [(0, Ok None); (0, Ok None); (1, Ok (Some open_state)); (0, Ok None); (1, Ok None); (1, Ok None)]).1 in
  blocked s = [example_entry] /\
  validate_policy_against_constraints Some show_list (config s) (constraints s) = Ok tt.
Proof.
  split; [reflexivity|].
  apply (proxy_state_invariant Some show_list id example_mitm example_lookup); [apply open_state_made| |].
  - rewrite !Forall_cons. split_and!; [right; by eexists..|done].
  - rewrite !Forall_cons. split_and!; [intros s E; try discriminate E..|done]. injection E as <-. apply open_state_made.
Defined.

Lemma host_blocked_safe_witness :
  host_blocked example_lookup open_state (lit "example.com") 80 = Allowed /\
  ~ matched_by [] (lit "example.com").
Proof.
  assert (host_blocked example_lookup open_state (lit "example.com") 80 = Allowed) as E by reflexivity.
  split; [exact E|].
  destruct (host_blocked_safe Some example_lookup open_state (lit "example.com") 80 open_state_ok) as (h & Hh & _ & Hd & _).
  - intros ? ? ? [= <-]. by repeat constructor.
  - exact E.
  - injection Hh as <-. exact Hd.
Defined.

(** A request that is recorded while a domain is added is lost: the state that
    the update writes has the queue it read before. *)
Example recorded_request_lost :
  example_run (open_state, [Starting deny_evil; Starting (RecordBlocked example_entry)])
    [(0, Ok None); (0, Ok None); (1, Ok None); (1, Ok None); (0, Ok None)]
  = (mkConfigState (mkProxyConfig (upsert_domain_permission (network open_config) evil DomainDeny normalize_host))
       [lit "*"] [evil] None constraints_default [] 0,
     [Finished (Some deny_evil) Done; Finished (Some (RecordBlocked example_entry)) Done]).
Proof. reflexivity. Qed.

(** A forced reload keeps the queue and not the count. *)
Example forced_reload_forgets_total :
  let s := (example_run (push_blocked open_state example_entry, [Forcing]) [(0, Ok (Some open_state))]).1 in
  blocked s = [example_entry] /\ blocked_total s = 0%N.
Proof. split; reflexivity. Qed.

(** Only the spelling [*] is refused in the denylist. *)
Example denying_everything :
  is_ok (example_build (mkProxyConfig (set_denied_domains settings_default [lit "*"])) constraints_default) = false /\
  is_ok (example_build (mkProxyConfig (set_denied_domains settings_default [lit "**"])) constraints_default) = true.
Proof. split; reflexivity. Qed.
End Examples.
