(* ===== verification/NetworkPolicy.v ===== *)
(** * NetworkPolicy: what the proxy decides about a request for a host

    [network-proxy/src/network_policy.rs], with the constants of [reasons.rs].
    A handler is a computation on a [World]: the shared state, the number of
    calls made on it, and the trace of what was seen, reported and sent.  What
    a call finds — after the other tasks have run and the settings were
    reloaded — is the argument [turn]. *)

From S2P Require Import Prelude HostPaths IpAddr DomainPolicy ProxyConfig ProxyConstraints ProxyState.
Local Open Scope str_scope.

Definition REASON_METHOD_NOT_ALLOWED : str := lit "method_not_allowed".
Definition REASON_MITM_REQUIRED : str := lit "mitm_required".
Definition REASON_POLICY_DENIED : str := lit "policy_denied".
Definition REASON_PROXY_DISABLED : str := lit "proxy_disabled".
Definition REASON_UNIX_SOCKET_UNSUPPORTED : str := lit "unix_socket_unsupported".
Definition REASON_DENIED : str := lit "denied".
Definition REASON_NOT_ALLOWED : str := lit "not_allowed".
Definition REASON_NOT_ALLOWED_LOCAL : str := lit "not_allowed_local".

Definition POLICY_SCOPE_DOMAIN : str := lit "domain".
Definition POLICY_SCOPE_NON_DOMAIN : str := lit "non_domain".
Definition POLICY_DECISION_ALLOW : str := lit "allow".
Definition POLICY_DECISION_DENY : str := lit "deny".
Definition POLICY_REASON_ALLOW : str := lit "allow".
Definition DEFAULT_METHOD : str := lit "none".
Definition DEFAULT_CLIENT_ADDRESS : str := lit "unknown".

Inductive NetworkProtocol : Type := ProtoHttp | ProtoHttpsConnect | ProtoSocks5Tcp | ProtoSocks5Udp.

Definition as_policy_protocol (self : NetworkProtocol) : str :=
  match self with
  | ProtoHttp => lit "http"
  | ProtoHttpsConnect => lit "https_connect"
  | ProtoSocks5Tcp => lit "socks5_tcp"
  | ProtoSocks5Udp => lit "socks5_udp"
  end.

Inductive NetworkPolicyDecision : Type := PolicyDeny | PolicyAsk.

Definition policy_decision_as_str (self : NetworkPolicyDecision) : str :=
  match self with PolicyDeny => lit "deny" | PolicyAsk => lit "ask" end.

Inductive NetworkDecisionSource : Type := BaselinePolicy | ModeGuard | SourceProxyState | Decider.

Definition source_as_str (self : NetworkDecisionSource) : str :=
  match self with
  | BaselinePolicy => lit "baseline_policy"
  | ModeGuard => lit "mode_guard"
  | SourceProxyState => lit "proxy_state"
  | Decider => lit "decider"
  end.

Record NetworkPolicyRequest : Type := mkPolicyRequest {
  pr_protocol : NetworkProtocol;
  pr_host : str;
  pr_port : N;
  pr_client_addr : option str;
  pr_method : option str;
  pr_command : option str;
  pr_exec_policy_hint : option str;
}.

Inductive NetworkDecision : Type :=
| Allow
| Deny (reason : str) (source : NetworkDecisionSource) (decision : NetworkPolicyDecision).

Definition reason_or_default (reason : str) : str := if is_empty reason then REASON_POLICY_DENIED else reason.

Definition deny_with_source (reason : str) (source : NetworkDecisionSource) : NetworkDecision :=
  Deny (reason_or_default reason) source PolicyDeny.
Definition ask_with_source (reason : str) (source : NetworkDecisionSource) : NetworkDecision :=
  Deny (reason_or_default reason) source PolicyAsk.
Definition deny (reason : str) : NetworkDecision := deny_with_source reason Decider.
Definition ask (reason : str) : NetworkDecision := ask_with_source reason Decider.

(** The answer of a decider is marked as its own. *)
Definition map_decider_decision (decision : NetworkDecision) : NetworkDecision :=
  match decision with
  | Allow => Allow
  | Deny reason _ decision => Deny reason Decider decision
  end.

(** An event of the audit log *)
Record AuditEvent : Type := mkAudit {
  ae_scope : str;
  ae_decision : str;
  ae_source : str;
  ae_reason : str;
  ae_protocol : str;
  ae_server_address : str;
  ae_server_port : N;
  ae_method : str;
  ae_client_address : str;
  ae_override : bool;
}.

(** ** Computations on the shared state *)

Section Handlers.
Context `{GL : Globs} {Mitm Sent : Type}.
#[local] Notation ConfigState := (ConfigState (Mitm := Mitm)).

(** [Saw] is ghost: the state that a call found. *)
Inductive Event : Type :=
| Saw (s : ConfigState)
| Audit (e : AuditEvent)
| Recorded (entry : BlockedRequest)
| Sending (what : Sent).

Record World : Type := mkWorld { w_state : ConfigState; w_calls : nat; w_trace : list Event }.

Definition M (A : Type) : Type := World -> A * World.
#[global] Instance M_ret : MRet M := fun A a w => (a, w).
#[global] Instance M_bind : MBind M := fun A B k m w => let '(a, w) := m w in k a w.
#[global] Instance M_fmap : FMap M := fun A B f m w => let '(a, w) := m w in (f a, w).

Definition emit (e : Event) : M unit := fun w => (tt, mkWorld (w_state w) (w_calls w) (w_trace w ++ [e])).

Section Calls.
(** The n-th call: the state it finds, and whether the reload failed *)
Context (turn : nat -> ConfigState -> ConfigState * option (list str)).
(** [unix_timestamp], at the n-th call *)
Context (now : nat -> Z).

(** A call: [reload_if_needed], then one section under the lock *)
Definition call {A} (section : ConfigState -> A * ConfigState) : M (anyhow A) := fun w =>
  let '(s, failed) := turn (w_calls w) (w_state w) in
  match failed with
  | Some e => (Err e, mkWorld s (S (w_calls w)) (w_trace w))
  | None => let '(a, s') := section s in (Ok a, mkWorld s' (S (w_calls w)) (w_trace w ++ [Saw s]))
  end.

Definition ask_state {A} (f : ConfigState -> A) : M (anyhow A) := call (fun s => (f s, s)).

Definition call_enabled : M (anyhow bool) := ask_state (fun s => enabled (network (config s))).
Definition call_network_mode : M (anyhow NetworkMode) := ask_state (fun s => mode (network (config s))).
Definition call_allow_upstream_proxy : M (anyhow bool) := ask_state (fun s => allow_upstream_proxy (network (config s))).
Definition call_method_allowed (method : str) : M (anyhow bool) :=
  ask_state (fun s => allows_method (mode (network (config s))) method).
Definition call_mitm_state : M (anyhow (option Mitm)) := ask_state mitm_state.
Definition call_host_blocked (lookup_host : str -> N -> option (list IpAddr)) (host : str) (port : N)
    : M (anyhow HostBlockDecision) := ask_state (fun s => host_blocked lookup_host s host port).

(** [BlockedRequest::new] and [record_blocked], whose errors its callers drop *)
Definition record_blocked (host reason : str) (client method : option str) (mode : option NetworkMode)
    (protocol : str) (decision source : option str) (port : N) : M unit :=
  n ← (fun w => (w_calls w, w));
  let entry := mkBlocked host reason client method mode protocol decision source (Some port) (now n) in
  done ← call (fun s => (tt, push_blocked s entry));
  match done with Ok _ => emit (Recorded entry) | Err _ => mret tt end.

(** *** Reports *)

Definition emit_policy_audit_event (scope decision source reason : str) (protocol : NetworkProtocol)
    (server_address : str) (server_port : N) (method client_addr : option str) (policy_override : bool) : M unit :=
  emit (Audit (mkAudit scope decision source reason (as_policy_protocol protocol) server_address server_port
    (default DEFAULT_METHOD method) (default DEFAULT_CLIENT_ADDRESS client_addr) policy_override)).

Definition emit_non_domain_policy_decision_audit_event (source : NetworkDecisionSource) (reason : str)
    (protocol : NetworkProtocol) (server_address : str) (server_port : N) (method client_addr : option str)
    (decision : str) : M unit :=
  emit_policy_audit_event POLICY_SCOPE_NON_DOMAIN decision (source_as_str source) reason protocol server_address
    server_port method client_addr false.

Definition emit_block_decision_audit_event (source : NetworkDecisionSource) (reason : str)
    (protocol : NetworkProtocol) (server_address : str) (server_port : N) (method client_addr : option str) : M unit :=
  emit_non_domain_policy_decision_audit_event source reason protocol server_address server_port method client_addr
    POLICY_DECISION_DENY.

Definition emit_allow_decision_audit_event (source : NetworkDecisionSource) (reason : str)
    (protocol : NetworkProtocol) (server_address : str) (server_port : N) (method client_addr : option str) : M unit :=
  emit_non_domain_policy_decision_audit_event source reason protocol server_address server_port method client_addr
    POLICY_DECISION_ALLOW.

(** *** The decision *)

Context (lookup_host : str -> N -> option (list IpAddr)).

(** What is decided, and whether the decider overrode the policy *)
Definition decision_of (decider : option (NetworkPolicyRequest -> NetworkDecision)) (request : NetworkPolicyRequest)
    (host_decision : HostBlockDecision) : NetworkDecision * bool :=
  match host_decision with
  | Allowed => (Allow, false)
  | Blocked NotAllowed =>
      match decider with
      | Some decider =>
          let decision := map_decider_decision (decider request) in
          (decision, match decision with Allow => true | Deny _ _ _ => false end)
      | None => (deny_with_source (reason_as_str NotAllowed) BaselinePolicy, false)
      end
  | Blocked reason => (deny_with_source (reason_as_str reason) BaselinePolicy, false)
  end.

(** What is reported of the decision: decision, source and reason *)
Definition reported (decision : NetworkDecision) (policy_override : bool) : str * NetworkDecisionSource * str :=
  match decision with
  | Allow =>
      (POLICY_DECISION_ALLOW, if policy_override then Decider else BaselinePolicy,
       if policy_override then reason_as_str NotAllowed else POLICY_REASON_ALLOW)
  | Deny reason source decision => (policy_decision_as_str decision, source, reason)
  end.

Definition evaluate_host_policy (decider : option (NetworkPolicyRequest -> NetworkDecision))
    (request : NetworkPolicyRequest) : M (anyhow NetworkDecision) :=
  host_decision ← call_host_blocked lookup_host (pr_host request) (pr_port request);
  match host_decision with
  | Err e => mret (Err e)
  | Ok host_decision =>
      let '(decision, policy_override) := decision_of decider request host_decision in
      let '(policy_decision, source, reason) := reported decision policy_override in
      _ ← emit_policy_audit_event POLICY_SCOPE_DOMAIN policy_decision (source_as_str source) reason
            (pr_protocol request) (pr_host request) (pr_port request) (pr_method request) (pr_client_addr request)
            policy_override;
      mret (Ok decision)
  end.
End Calls.

(** ** What a computation adds to the trace *)

(** Whatever it starts from, the events it adds and its result are in [P]. *)
Definition adds {A} (m : M A) (P : list Event -> A -> Prop) : Prop :=
  forall w, exists tr, w_trace (m w).2 = w_trace w ++ tr /\ P tr (m w).1.

Lemma adds_ret {A} (a : A) (P : list Event -> A -> Prop) : P [] a -> adds (mret a) P.
Proof. intros H w. exists []. by rewrite app_nil_r. Qed.

Lemma adds_bind {A B} (m : M A) (k : A -> M B) P (Q : list Event -> B -> Prop) :
  adds m P -> (forall tr a, P tr a -> adds (k a) (fun tr' b => Q (tr ++ tr') b)) -> adds (m ≫= k) Q.
Proof.
  intros Hm Hk w. destruct (Hm w) as (tr & Htr & Hp). unfold mbind, M_bind. destruct (m w) as [a w'].
  cbn [fst snd] in *. destruct (Hk tr a Hp w') as (tr' & Htr' & Hq). exists (tr ++ tr').
  by rewrite Htr', Htr, <- app_assoc.
Qed.

Lemma adds_mono {A} (m : M A) (P Q : list Event -> A -> Prop) :
  adds m P -> (forall tr a, P tr a -> Q tr a) -> adds m Q.
Proof. intros Hm Hpq w. destruct (Hm w) as (tr & ? & ?). exists tr. auto. Qed.

Lemma adds_fmap {A B} (f : A -> B) (m : M A) (P : list Event -> B -> Prop) :
  adds m (fun tr a => P tr (f a)) -> adds (f <$> m) P.
Proof.
  intros Hm w. destruct (Hm w) as (tr & ? & ?). exists tr. unfold fmap, M_fmap. by destruct (m w).
Qed.

Lemma adds_emit e (P : list Event -> unit -> Prop) : P [e] tt -> adds (emit e) P.
Proof. intros H w. by exists [e]. Qed.

Lemma adds_emit_then {B} e (k : unit -> M B) (Q : list Event -> B -> Prop) :
  adds (k tt) (fun tr b => Q (e :: tr) b) -> adds (emit e ≫= k) Q.
Proof. intros H. eapply (adds_bind _ _ (fun tr _ => tr = [e])); [by apply adds_emit|]. by intros ? [] ->. Qed.

Section Specs.
Context (turn : nat -> ConfigState -> ConfigState * option (list str)) (now : nat -> Z).
Context (lookup_host : str -> N -> option (list IpAddr)).

(** The states that calls find *)
Definition found (s : ConfigState) : Prop := exists n s0, turn n s0 = (s, None).

Lemma adds_call {A} (section : ConfigState -> A * ConfigState) (P : list Event -> anyhow A -> Prop) :
  (forall e, P [] (Err e)) -> (forall s, found s -> P [Saw s] (Ok (section s).1)) -> adds (call turn section) P.
Proof.
  intros He Hs w. unfold call. destruct (turn (w_calls w) (w_state w)) as [s [e|]] eqn:E.
  - exists []. cbn [w_trace snd fst]. by rewrite app_nil_r.
  - exists [Saw s]. specialize (Hs s ltac:(by exists (w_calls w), (w_state w))). by destruct (section s).
Qed.

(** What a question about the state gives: an error, or the answer of the state
    that was found *)
Definition asked {A} (f : ConfigState -> A) (tr : list Event) (r : anyhow A) : Prop :=
  (exists e, r = Err e /\ tr = []) \/ exists s, found s /\ r = Ok (f s) /\ tr = [Saw s].

Lemma adds_ask {A} (f : ConfigState -> A) : adds (ask_state turn f) (asked f).
Proof. apply (adds_call (fun s => (f s, s))); [by left; eexists|]. intros s Hs. right. by exists s. Qed.

(** Nothing is sent. *)
Definition silent (e : Event) : Prop := match e with Sending _ => False | _ => True end.
Definition nothing_sent (tr : list Event) : Prop := Forall silent tr.

Lemma nothing_sent_elem tr what : nothing_sent tr -> Sending what ∉ tr.
Proof. unfold nothing_sent. rewrite Forall_forall. intros H Hin. by apply H in Hin. Qed.

(** Recording adds at most the state that was seen and the entry. *)
Lemma adds_record host reason client method mode protocol decision source port :
  adds (record_blocked turn now host reason client method mode protocol decision source port)
    (fun tr _ => tr = [] \/ exists s t, tr = [Saw s; Recorded (mkBlocked host reason client method mode protocol decision
       source (Some port) t)]).
Proof.
  unfold record_blocked. apply adds_bind with (P := fun tr _ => tr = []).
  { intros w. exists []. by rewrite app_nil_r. }
  intros ? n ->. cbn [app].
  eapply (adds_bind _ _ (fun tr r => (exists e, r = Err e /\ tr = []) \/ exists s, r = Ok tt /\ tr = [Saw s])).
  { apply adds_call; [by left; eexists|]. intros s _. right. by exists s. }
  intros tr r [(e & -> & ->)|(s & -> & ->)]; cbn beta iota.
  - apply adds_ret. by left.
  - apply adds_emit. right. by exists s, (now n).
Qed.

Lemma record_quiet host reason client method mode protocol decision source port :
  adds (record_blocked turn now host reason client method mode protocol decision source port)
    (fun tr _ => nothing_sent tr).
Proof.
  eapply adds_mono; [apply adds_record|]. intros tr _ [->|(s & t & ->)]; by repeat constructor.
Qed.

(** The state permits the request: its host is allowed, or it is only not on the
    allowlist and the decider lets it pass. *)
Definition permits (decider : option (NetworkPolicyRequest -> NetworkDecision)) (request : NetworkPolicyRequest)
    (s : ConfigState) (policy_override : bool) : Prop :=
  if policy_override
  then host_blocked lookup_host s (pr_host request) (pr_port request) = Blocked NotAllowed /\
       exists d, decider = Some d /\ d request = Allow
  else host_blocked lookup_host s (pr_host request) (pr_port request) = Allowed.

Lemma decide_permits decider request s policy_override :
  decision_of decider request (host_blocked lookup_host s (pr_host request) (pr_port request)) = (Allow, policy_override) ->
  permits decider request s policy_override.
Proof.
  unfold decision_of, permits. destruct (host_blocked _ _ _ _) as [|[]]; [by intros [= <-]|done| |done].
  destruct decider as [d|]; [|done]. destruct (d request) eqn:E; simpl; [|done]. intros [= <-]. eauto.
Qed.

(** The report of an evaluation *)
Definition audit_of (request : NetworkPolicyRequest) (decision : NetworkDecision) (policy_override : bool) : AuditEvent :=
  let '(policy_decision, source, reason) := reported decision policy_override in
  mkAudit POLICY_SCOPE_DOMAIN policy_decision (source_as_str source) reason (as_policy_protocol (pr_protocol request))
    (pr_host request) (pr_port request) (default DEFAULT_METHOD (pr_method request))
    (default DEFAULT_CLIENT_ADDRESS (pr_client_addr request)) policy_override.

(** What an evaluation gives: an error, or the decision of the state that was
    found, with its report *)
Definition evaluated (decider : option (NetworkPolicyRequest -> NetworkDecision)) (request : NetworkPolicyRequest)
    (tr : list Event) (r : anyhow NetworkDecision) : Prop :=
  (exists e, r = Err e /\ tr = []) \/
  exists s decision policy_override, found s /\
    decision_of decider request (host_blocked lookup_host s (pr_host request) (pr_port request)) = (decision, policy_override) /\
    r = Ok decision /\ tr = [Saw s; Audit (audit_of request decision policy_override)].

Lemma adds_evaluate decider request :
  adds (evaluate_host_policy turn lookup_host decider request) (evaluated decider request).
Proof.
  unfold evaluate_host_policy, call_host_blocked. eapply adds_bind; [apply adds_ask|].
  intros tr r [(e & -> & ->)|(s & Hs & -> & ->)]; cbn beta iota; [apply adds_ret; left; by eexists|].
  unfold evaluated, audit_of. destruct (decision_of _ _ _) as [decision o] eqn:E.
  destruct (reported decision o) as [[pd source] reason] eqn:Er.
  apply adds_emit_then, adds_ret. right. exists s, decision, o. by rewrite Er.
Qed.

(** The decider of a session can widen the policy in one way only: a request
    that is evaluated to be allowed is for a host that the state allowed, or
    for one that was just not on the allowlist and that the decider let pass,
    never for a denied or a local one; and the one event that is reported says
    which of the two it was. *)
Theorem evaluate_host_policy_safe (decider : option (NetworkPolicyRequest -> NetworkDecision))
    (request : NetworkPolicyRequest) (w w' : World) :
  evaluate_host_policy turn lookup_host decider request w = (Ok Allow, w') ->
  exists s event, w_trace w' = w_trace w ++ [Saw s; Audit event] /\
    ae_decision event = POLICY_DECISION_ALLOW /\
    if ae_override event
    then host_blocked lookup_host s (pr_host request) (pr_port request) = Blocked NotAllowed /\
         ae_source event = source_as_str Decider /\ exists d, decider = Some d /\ d request = Allow
    else host_blocked lookup_host s (pr_host request) (pr_port request) = Allowed /\
         ae_source event = source_as_str BaselinePolicy.
Proof.
  intros H. destruct (adds_evaluate decider request w) as (tr & Htr & Hp). rewrite H in Htr, Hp. cbn [fst snd] in *.
  destruct Hp as [(e & [=] & _)|(s & decision & o & Hs & Hd & [= <-] & ->)].
  exists s, (audit_of request Allow o). split; [done|]. apply decide_permits in Hd. destruct o; simpl in *; tauto.
Qed.
End Specs.
End Handlers.
