(* ===== verification/ProxyRequests.v ===== *)
(** * ProxyRequests: how the proxy answers requests

    The handlers of [network-proxy/src/http_proxy.rs], [mitm.rs] and
    [socks5.rs], with the answers of [responses.rs].  The crates [rama] and
    [http] — what a request's target is, how headers are read, the clients
    that send a request on — are the class [Rama]. *)

From stdpp Require Import pretty.
From S2P Require Import Prelude Decimal HostPaths IpAddr DomainPolicy ProxyConfig ProxyConstraints ProxyState NetworkPolicy.
Local Open Scope str_scope.

(** ** Answers *)

Record PolicyDecisionDetails : Type := mkDetails {
  pd_decision : NetworkPolicyDecision;
  pd_reason : str;
  pd_source : NetworkDecisionSource;
  pd_protocol : NetworkProtocol;
  pd_host : str;
  pd_port : N;
}.

Definition blocked_header_value (reason : str) : str :=
  if one_of reason [REASON_NOT_ALLOWED; REASON_NOT_ALLOWED_LOCAL] then lit "blocked-by-allowlist"
  else if reason =? REASON_DENIED then lit "blocked-by-denylist"
  else if reason =? REASON_METHOD_NOT_ALLOWED then lit "blocked-by-method-policy"
  else if reason =? REASON_MITM_REQUIRED then lit "blocked-by-mitm-required"
  else lit "blocked-by-policy".

Definition blocked_message (reason : str) : str :=
  if reason =? REASON_NOT_ALLOWED then lit "Domain not in allowlist."
  else if reason =? REASON_NOT_ALLOWED_LOCAL then lit "Sandbox policy blocks local/private network addresses."
  else if reason =? REASON_DENIED then lit "Domain denied by the sandbox policy."
  else if reason =? REASON_METHOD_NOT_ALLOWED then lit "Method not allowed in limited mode."
  else if reason =? REASON_MITM_REQUIRED then lit "MITM required for limited HTTPS."
  else if reason =? REASON_PROXY_DISABLED then lit "network proxy is disabled"
  else lit "Request blocked by network policy.".

Definition blocked_message_with_policy (reason : str) (details : PolicyDecisionDetails) : str := blocked_message reason.

Record BlockedResponse : Type := mkBlockedResponse {
  bl_status : str;
  bl_host : str;
  bl_reason : str;
  bl_decision : option str;
  bl_source : option str;
  bl_protocol : option str;
  bl_port : option N;
  bl_message : option str;
}.

(** ** Requests *)

Record Uri : Type := mkUri { u_scheme : option str; u_authority : option str; u_path_and_query : option str }.

(** A header's name is in lower case; the list is in the order of the map. *)
Abbreviation Headers := (list (str * str)).

Record Request : Type := mkRequest {
  rq_method : str;
  rq_uri : Uri;
  rq_headers : Headers;
  rq_client : option str;
  rq_body : str;
}.

Definition header_get (name : str) (headers : Headers) : option str :=
  snd <$> List.find (fun h => fst h =? name) headers.
(** [HeaderMap::remove] removes every value of the name. *)
Definition header_remove (name : str) (headers : Headers) : Headers :=
  List.filter (fun h => negb (fst h =? name)) headers.

Class Rama : Type := {
  (** hosts, as displayed and compared *)
  RHost : Type;
  show_rhost : RHost -> str;
  rhost_eqb : RHost -> RHost -> bool;
  (** [RequestContext::try_from]: the authority's host and port, the port of
      [host_with_port], and whether it is the default one *)
  request_context : Request -> result str (RHost * option N * N * bool);
  (** the typed [Host] header *)
  typed_host : Headers -> result unit (option (RHost * option N));
  header_to_str : str -> option str;
  header_name : str -> option str;
  header_value : str -> anyhow str;
  uri_parse : str -> anyhow Uri;
  (** what the service does to the headers inside an intercepted connection *)
  strip_inner : Request -> Request;
  (** answers of the upstream, through the environment's proxy or directly *)
  Upstream : Type;
  serve : bool -> Request -> anyhow Upstream;
  (** answers at a socket of the host *)
  serve_socket : str -> Request -> anyhow Upstream;
}.

Section Handlers.
Context `{GL : Globs} `{HO : Host} `{RM : Rama}.

Inductive RespBody : Type := BodyText (s : str) | BodyJson (b : BlockedResponse).

Inductive Response : Type :=
| Local (status : N) (headers : Headers) (body : RespBody)
| FromUpstream (r : Upstream).

Definition text_response (status : N) (body : str) : Response :=
  Local status [(lit "content-type", lit "text/plain")] (BodyText body).

Definition blocked_text_response (reason : str) : Response :=
  Local 403 [(lit "content-type", lit "text/plain"); (lit "x-proxy-error", blocked_header_value reason)]
    (BodyText (blocked_message reason)).

Definition blocked_text_with_details (reason : str) (details : PolicyDecisionDetails) : Response :=
  Local 403 [(lit "content-type", lit "text/plain"); (lit "x-proxy-error", blocked_header_value reason)]
    (BodyText (blocked_message_with_policy reason details)).

Definition json_blocked (host reason : str) (details : option PolicyDecisionDetails) : Response :=
  Local 403 [(lit "content-type", lit "application/json"); (lit "x-proxy-error", blocked_header_value reason)]
    (BodyJson (mkBlockedResponse (lit "blocked") host reason
      (policy_decision_as_str ∘ pd_decision <$> details) (source_as_str ∘ pd_source <$> details)
      (as_policy_protocol ∘ pd_protocol <$> details) (pd_port <$> details)
      (blocked_message_with_policy reason <$> details))).

(** *** Headers between hops *)

Definition connection_tokens (raw_connection : str) : list str :=
  List.filter (fun token => negb (is_empty token)) (map trim (split_char (ch ",") raw_connection)).

Definition remove_token (headers : Headers) (token : str) : Headers :=
  match header_name token with Some name => header_remove name headers | None => headers end.

(** The loop, for at most [fuel] rounds *)
Fixpoint remove_connection (fuel : nat) (headers : Headers) : Headers :=
  match fuel with
  | 0 => headers
  | S fuel =>
      match header_get (lit "connection") headers with
      | None => headers
      | Some raw_connection =>
          let headers := header_remove (lit "connection") headers in
          remove_connection fuel
            (match header_to_str raw_connection with
             | Some raw_connection => fold_left remove_token (connection_tokens raw_connection) headers
             | None => headers
             end)
      end
  end.

Definition HOP_BY_HOP : list str :=
  map lit ["keep-alive"; "proxy-connection"; "proxy-authorization"; "trailer"; "transfer-encoding"; "upgrade"]%string.

Definition remove_hop_by_hop_request_headers (headers : Headers) : Headers :=
  let headers := remove_connection (S (length headers)) headers in
  let headers := fold_left (fun headers name => header_remove name headers) HOP_BY_HOP headers in
  match header_name [0x74; 0x65]%N with
  | Some short_hop_header_name => header_remove short_hop_header_name headers
  | None => headers
  end.

Definition set_headers (req : Request) (headers : Headers) : Request :=
  mkRequest (rq_method req) (rq_uri req) headers (rq_client req) (rq_body req).

Definition validate_absolute_form_host_header (req : Request) (ctx : RHost * option N * N * bool)
    : result str unit :=
  let '(authority_host, authority_port, _, has_default_port) := ctx in
  if bool_decide (u_scheme (rq_uri req) = None) then Ok tt
  else match typed_host (rq_headers req) with
       | Err _ => Err (lit "invalid Host header")
       | Ok None => Ok tt
       | Ok (Some (host, port)) =>
           if negb (rhost_eqb host authority_host) then Err (lit "Host header does not match request target")
           else match port with
                | Some host_port =>
                    if negb (bool_decide (Some host_port = authority_port))
                    then Err (lit "Host header does not match request target") else Ok tt
                | None =>
                    if negb has_default_port then Err (lit "Host header does not match request target") else Ok tt
                end
       end.

(** ** What leaves the proxy *)

Context {Ca : Type}.
Record MitmState : Type := mkMitm { ms_ca : Ca; ms_upstream : bool; ms_inspect : bool; ms_max_body_bytes : N }.

Definition MITM_INSPECT_BODIES : bool := false.
Definition MITM_MAX_BODY_BYTES : N := 4096.

(** [MitmState::new]; the authority is [ManagedMitmCa::load_or_create] *)
Definition mitm_new (load_or_create : anyhow Ca) (allow_upstream_proxy : bool) : anyhow MitmState :=
  ca ← load_or_create;
  Ok (mkMitm ca allow_upstream_proxy MITM_INSPECT_BODIES MITM_MAX_BODY_BYTES).

(** [Authority] of a tunnel *)
Record Authority : Type := mkAuthority { au_host : RHost; au_port : N }.

Inductive Sent : Type :=
| SentRequest (via_proxy : bool) (req : Request)
| SentSocket (path : str) (req : Request)
(** an opaque tunnel *)
| SentTunnel (via_proxy : bool) (target : Authority)
(** a request inside an intercepted tunnel *)
| SentInner (via_proxy : bool) (req : Request)
| SentTcp (target : Authority)
| SentUdp (host : str) (port : N) (payload : str).

Abbreviation M := (NetworkPolicy.M (Mitm := MitmState) (Sent := Sent)).
Abbreviation Decider := (option (NetworkPolicyRequest -> NetworkDecision)).

Section Handle.
Context (turn : nat -> ConfigState (Mitm := MitmState) -> ConfigState (Mitm := MitmState) * option (list str)).
Context (now : nat -> Z) (lookup_host : str -> N -> option (list IpAddr)).

Definition internal_error : Response := text_response 500 (lit "error").

(** An answer at once, if the call failed *)
Definition or_respond {A} (m : M (anyhow A)) (k : A -> M Response) : M Response :=
  r ← m;
  match r with Ok a => k a | Err _ => mret internal_error end.

Definition send (what : Sent) : M unit := emit (Sending what).

Definition proxy_disabled_response (host : str) (port : N) (client method : option str)
    (protocol : NetworkProtocol) (audit_endpoint_override : option (str * N)) : M Response :=
  let '(audit_server_address, audit_server_port) := default (host, port) audit_endpoint_override in
  _ ← emit_block_decision_audit_event SourceProxyState REASON_PROXY_DISABLED protocol audit_server_address
        audit_server_port method client;
  _ ← record_blocked turn now host REASON_PROXY_DISABLED client method None (as_policy_protocol protocol)
        (Some (lit "deny")) (Some (lit "proxy_state")) port;
  let details := mkDetails PolicyDeny REASON_PROXY_DISABLED SourceProxyState protocol host port in
  mret (text_response 503 (blocked_message_with_policy REASON_PROXY_DISABLED details)).

(** *** Plain requests *)

(** A refusal by the mode: reported and recorded *)
Definition refuse_method (host : str) (port : N) (method client : option str) (reason : str)
    (protocol : NetworkProtocol) (recorded_protocol : str) : M PolicyDecisionDetails :=
  _ ← emit_block_decision_audit_event ModeGuard reason protocol host port method client;
  let details := mkDetails PolicyDeny reason ModeGuard protocol host port in
  _ ← record_blocked turn now host reason client method (Some Limited) recorded_protocol
        (Some (policy_decision_as_str PolicyDeny)) (Some (source_as_str ModeGuard)) port;
  mret details.

(** A refusal by the policy: recorded *)
Definition refuse_host (host : str) (port : N) (method client : option str) (reason : str)
    (source : NetworkDecisionSource) (decision : NetworkPolicyDecision) (protocol : NetworkProtocol)
    (recorded_protocol : str) : M PolicyDecisionDetails :=
  let details := mkDetails decision reason source protocol host port in
  _ ← record_blocked turn now host reason client method None recorded_protocol
        (Some (policy_decision_as_str decision)) (Some (source_as_str source)) port;
  mret details.

Definition upstream_response (failure : str) (r : anyhow Upstream) : Response :=
  match r with Ok r => FromUpstream r | Err _ => text_response 502 failure end.

(** [proxy_via_unix_socket], of which only macOS has a body *)
Definition proxy_via_unix_socket (supported : bool) (req : Request) (socket_path : str) : M (anyhow Upstream) :=
  if negb supported then mret (bail (lit "unix sockets not supported"))
  else
    match with_context (lit "invalid unix socket request path") (uri_parse (default (lit "/") (u_path_and_query (rq_uri req)))) with
    | Err e => mret (Err e)
    | Ok uri =>
        let headers := remove_hop_by_hop_request_headers (header_remove (lit "x-unix-socket") (rq_headers req)) in
        let req := mkRequest (rq_method req) uri headers (rq_client req) (rq_body req) in
        _ ← send (SentSocket socket_path req);
        mret (serve_socket socket_path req)
    end.

(** The branch for [x-unix-socket] *)
Definition plain_unix_socket (supported : bool) (debug_str : str -> str) (req : Request)
    (method_allowed : bool) (unix_socket_header : str) : M Response :=
  let client := rq_client req in
  let method := Some (rq_method req) in
  let endpoint := lit "unix-socket" in
  match header_to_str unix_socket_header with
  | None => mret (text_response 400 (lit "invalid x-unix-socket header"))
  | Some socket_path =>
      or_respond (call_enabled turn) (fun enabled =>
        if negb enabled
        then proxy_disabled_response socket_path 0 client method ProtoHttp (Some (endpoint, 0%N))
        else if negb method_allowed then
          _ ← emit_block_decision_audit_event ModeGuard REASON_METHOD_NOT_ALLOWED ProtoHttp endpoint 0 method client;
          mret (json_blocked endpoint REASON_METHOD_NOT_ALLOWED None)
        else if negb supported then
          _ ← emit_block_decision_audit_event SourceProxyState REASON_UNIX_SOCKET_UNSUPPORTED ProtoHttp endpoint 0
                method client;
          mret (text_response 501 (lit "unix sockets unsupported"))
        else
          or_respond (ask_state turn (fun s => is_unix_socket_allowed debug_str supported s socket_path)) (fun allowed =>
            if (allowed : bool) then
              _ ← emit_allow_decision_audit_event SourceProxyState (lit "allow") ProtoHttp endpoint 0 method client;
              r ← proxy_via_unix_socket supported req socket_path;
              mret (upstream_response (lit "unix socket proxy failed") r)
            else
              _ ← emit_block_decision_audit_event SourceProxyState REASON_NOT_ALLOWED ProtoHttp endpoint 0 method
                    client;
              mret (json_blocked endpoint REASON_NOT_ALLOWED None)))
  end.

Definition http_plain_proxy (supported : bool) (debug_str : str -> str) (policy_decider : Decider) (req : Request)
    : M Response :=
  let client := rq_client req in
  let method := Some (rq_method req) in
  or_respond (call_method_allowed turn (rq_method req)) (fun method_allowed =>
    match header_get (lit "x-unix-socket") (rq_headers req) with
    | Some unix_socket_header => plain_unix_socket supported debug_str req method_allowed unix_socket_header
    | None =>
        match request_context req with
        | Err _ => mret (text_response 400 (lit "missing host"))
        | Ok request_ctx =>
            let '(authority_host, _, port, _) := request_ctx in
            let host := normalize_host (show_rhost authority_host) in
            match validate_absolute_form_host_header req request_ctx with
            | Err reason => mret (text_response 400 reason)
            | Ok _ =>
                or_respond (call_enabled turn) (fun enabled =>
                  if negb enabled then proxy_disabled_response host port client method ProtoHttp None
                  else
                    decision ← evaluate_host_policy turn lookup_host policy_decider
                      (mkPolicyRequest ProtoHttp host port client method None None);
                    match decision with
                    | Err _ => mret internal_error
                    | Ok (Deny reason source decision) =>
                        details ← refuse_host host port method client reason source decision ProtoHttp (lit "http");
                        mret (json_blocked host reason (Some details))
                    | Ok Allow =>
                        if negb method_allowed then
                          details ← refuse_method host port method client REASON_METHOD_NOT_ALLOWED ProtoHttp (lit "http");
                          mret (json_blocked host REASON_METHOD_NOT_ALLOWED (Some details))
                        else
                          or_respond (call_allow_upstream_proxy turn) (fun allow_upstream_proxy =>
                            let req := set_headers req (remove_hop_by_hop_request_headers (rq_headers req)) in
                            _ ← send (SentRequest allow_upstream_proxy req);
                            mret (upstream_response (lit "upstream failure") (serve allow_upstream_proxy req)))
                    end)
            end
        end
    end).

(** *** Tunnels *)

(** What the handshake leaves for the tunnel *)
Record Upgraded : Type := mkUpgraded { up_target : Authority; up_mode : NetworkMode; up_mitm : option MitmState }.

Definition http_connect_accept (policy_decider : Decider) (req : Request) : M (result Response (Response * Upgraded)) :=
  let client := rq_client req in
  let method := Some (lit "CONNECT") in
  let or_reject {A} (m : M (anyhow A)) (k : A -> M (result Response (Response * Upgraded))) :=
    r ← m; match r with Ok a => k a | Err _ => mret (Err internal_error) end in
  match request_context req with
  | Err _ => mret (Err (text_response 400 (lit "missing authority")))
  | Ok (authority_host, _, port, _) =>
      let host := normalize_host (show_rhost authority_host) in
      if is_empty host then mret (Err (text_response 400 (lit "invalid host")))
      else
        or_reject (call_enabled turn) (fun enabled =>
          if negb enabled then Err <$> proxy_disabled_response host port client method ProtoHttpsConnect None
          else
            decision ← evaluate_host_policy turn lookup_host policy_decider
              (mkPolicyRequest ProtoHttpsConnect host port client method None None);
            match decision with
            | Err _ => mret (Err internal_error)
            | Ok (Deny reason source decision) =>
                details ← refuse_host host port method client reason source decision ProtoHttpsConnect
                  (lit "http-connect");
                mret (Err (blocked_text_with_details reason details))
            | Ok Allow =>
                or_reject (call_network_mode turn) (fun mode =>
                  or_reject (call_mitm_state turn) (fun mitm_state =>
                    if bool_decide (mode = Limited) && match mitm_state with None => true | Some _ => false end then
                      details ← refuse_method host port method client REASON_MITM_REQUIRED ProtoHttpsConnect
                        (lit "http-connect");
                      mret (Err (blocked_text_with_details REASON_MITM_REQUIRED details))
                    else
                      mret (Ok (Local 200 [] (BodyText []), mkUpgraded (mkAuthority authority_host port) mode mitm_state))))
            end)
  end.

(** *** Inside an intercepted tunnel *)

Record MitmPolicyContext : Type := mkPolicyContext { target_host : str; target_port : N; ctx_mode : NetworkMode }.

Definition extract_request_host (req : Request) : option str :=
  match header_get (lit "host") (rq_headers req) ≫= header_to_str with
  | Some host => Some host
  | None => u_authority (rq_uri req)
  end.

(** The request names another host than its tunnel. *)
Definition host_mismatch (req : Request) (target_host : str) : bool :=
  match extract_request_host req with
  | Some request_host =>
      let normalized := normalize_host request_host in
      negb (is_empty normalized) && negb (normalized =? target_host)
  | None => false
  end.

Definition mitm_blocking_response (req : Request) (policy : MitmPolicyContext) : M (anyhow (option Response)) :=
  let method := rq_method req in
  if method =? lit "CONNECT"
  then mret (Ok (Some (text_response 405 (lit "CONNECT not supported inside MITM"))))
  else
    if host_mismatch req (target_host policy) then mret (Ok (Some (text_response 400 (lit "host mismatch"))))
    else
      let refuse reason :=
        _ ← record_blocked turn now (target_host policy) reason (rq_client req) (Some method) (Some (ctx_mode policy))
              (lit "https") None None (target_port policy);
        mret (Ok (Some (blocked_text_response reason))) in
      decision ← call_host_blocked turn lookup_host (target_host policy) (target_port policy);
      match decision with
      | Err e => mret (Err e)
      | Ok (Blocked NotAllowedLocal) => refuse (reason_as_str NotAllowedLocal)
      | Ok _ =>
          if negb (allows_method (ctx_mode policy) method) then refuse REASON_METHOD_NOT_ALLOWED
          else mret (Ok None)
      end.

Definition authority_header_value (host : str) (port : N) : str :=
  if contains_char host (ch ":") then
    if N.eqb port 443 then lit "[" ++ host ++ lit "]" else lit "[" ++ host ++ lit "]:" ++ lit (pretty port)
  else if N.eqb port 443 then host else host ++ lit ":" ++ lit (pretty port).

Definition path_and_query (uri : Uri) : str := default (lit "/") (u_path_and_query uri).

Definition build_https_uri (authority path : str) : anyhow Uri := uri_parse (lit "https://" ++ authority ++ path).

(** [HeaderMap::insert] replaces all values of the name. *)
Definition header_insert (name value : str) (headers : Headers) : Headers :=
  if existsb (fun h => fst h =? name) headers
  then let '(before, rest) := (fix go (l : Headers) := match l with
         | [] => ([], [])
         | h :: l => if fst h =? name then ([], l) else let '(b, r) := go l in (h :: b, r)
         end) headers in
       before ++ (name, value) :: header_remove name rest
  else headers ++ [(name, value)].

(** The request to send on: to the tunnel's target *)
Definition upstream_request (req : Request) (policy : MitmPolicyContext) : anyhow Request :=
  let authority := authority_header_value (target_host policy) (target_port policy) in
  uri ← build_https_uri authority (path_and_query (rq_uri req));
  value ← header_value authority;
  Ok (mkRequest (rq_method req) uri (header_insert (lit "host") value (rq_headers req)) (rq_client req) (rq_body req)).

Definition forward_request (req : Request) (policy : MitmPolicyContext) (mitm : MitmState) : M (anyhow Response) :=
  blocking ← mitm_blocking_response req policy;
  match blocking with
  | Err e => mret (Err e)
  | Ok (Some response) => mret (Ok response)
  | Ok None =>
      match upstream_request req policy with
      | Err e => mret (Err e)
      | Ok upstream_req =>
          _ ← send (SentInner (ms_upstream mitm) upstream_req);
          mret (FromUpstream <$> serve (ms_upstream mitm) upstream_req)
      end
  end.

Definition handle_mitm_request (policy : MitmPolicyContext) (mitm : MitmState) (req : Request) : M Response :=
  r ← forward_request req policy mitm;
  mret (match r with Ok resp => resp | Err _ => text_response 502 (lit "mitm upstream error") end).

(** A sequence of requests *)
Fixpoint serve_all (handle : Request -> M Response) (reqs : list Request) : M (list Response) :=
  match reqs with
  | [] => mret []
  | req :: reqs => r ← handle req; rs ← serve_all handle reqs; mret (r :: rs)
  end.

(** The requests that come through the tunnel, if its certificate can be made *)
Definition mitm_tunnel (acceptor_data : MitmState -> str -> anyhow unit) (mitm : MitmState) (upgraded : Upgraded)
    (reqs : list Request) : M (list Response) :=
  let target_host := normalize_host (show_rhost (au_host (up_target upgraded))) in
  match acceptor_data mitm target_host with
  | Err _ => mret []
  | Ok _ =>
      serve_all (fun req =>
        handle_mitm_request (mkPolicyContext target_host (au_port (up_target upgraded)) (up_mode upgraded)) mitm
          (strip_inner req)) reqs
  end.

Definition http_connect_proxy (acceptor_data : MitmState -> str -> anyhow unit) (upgraded : Upgraded)
    (reqs : list Request) : M (list Response) :=
  match (if bool_decide (up_mode upgraded = Limited) then up_mitm upgraded else None) with
  | Some mitm => mitm_tunnel acceptor_data mitm upgraded reqs
  | None =>
      allowed ← call_allow_upstream_proxy turn;
      let allow_upstream_proxy := match allowed with Ok allowed => allowed | Err _ => false end in
      _ ← send (SentTunnel allow_upstream_proxy (up_target upgraded));
      mret []
  end.

(** *** SOCKS *)

Inductive SocksError : Type :=
| InvalidHost
| ProxyError
| PermissionDenied (message : str).

Definition policy_denied_error (reason : str) (details : PolicyDecisionDetails) : SocksError :=
  PermissionDenied (blocked_message_with_policy reason details).

(** What the two handlers share *)
Definition socks_check (protocol : NetworkProtocol) (recorded_protocol : str) (policy_decider : Decider)
    (host : str) (port : N) (client : option str) : M (result SocksError unit) :=
  if is_empty host then mret (Err InvalidHost)
  else
    enabled ← call_enabled turn;
    match enabled with
    | Err _ => mret (Err ProxyError)
    | Ok false =>
        _ ← emit_block_decision_audit_event SourceProxyState REASON_PROXY_DISABLED protocol host port None client;
        details ← refuse_host host port None client REASON_PROXY_DISABLED SourceProxyState PolicyDeny protocol
          recorded_protocol;
        mret (Err (policy_denied_error REASON_PROXY_DISABLED details))
    | Ok true =>
        mode ← call_network_mode turn;
        match mode with
        | Err _ => mret (Err ProxyError)
        | Ok Limited =>
            details ← refuse_method host port None client REASON_METHOD_NOT_ALLOWED protocol recorded_protocol;
            mret (Err (policy_denied_error REASON_METHOD_NOT_ALLOWED details))
        | Ok Full =>
            decision ← evaluate_host_policy turn lookup_host policy_decider
              (mkPolicyRequest protocol host port client None None None);
            match decision with
            | Err _ => mret (Err ProxyError)
            | Ok (Deny reason source decision) =>
                details ← refuse_host host port None client reason source decision protocol recorded_protocol;
                mret (Err (policy_denied_error reason details))
            | Ok Allow => mret (Ok tt)
            end
        end
    end.

Definition handle_socks5_tcp (policy_decider : Decider) (authority : Authority) (client : option str)
    : M (result SocksError unit) :=
  let host := normalize_host (show_rhost (au_host authority)) in
  r ← socks_check ProtoSocks5Tcp (lit "socks5") policy_decider host (au_port authority) client;
  match r with
  | Err e => mret (Err e)
  | Ok _ => _ ← send (SentTcp authority); mret (Ok tt)
  end.

(** The answer is the payload to relay. *)
Definition inspect_socks5_udp (policy_decider : Decider) (ip_addr : str) (port : N) (payload : str)
    (client : option str) : M (result SocksError str) :=
  let host := normalize_host ip_addr in
  r ← socks_check ProtoSocks5Udp (lit "socks5-udp") policy_decider host port client;
  match r with
  | Err e => mret (Err e)
  | Ok _ => _ ← send (SentUdp host port payload); mret (Ok payload)
  end.

(** *** The listeners *)

Inductive Incoming : Type :=
| PlainRequest (req : Request)
(** with the requests that come through the tunnel *)
| ConnectRequest (req : Request) (inner : list Request)
| SocksConnect (authority : Authority) (client : option str)
| SocksDatagram (ip_addr : str) (port : N) (payload : str) (client : option str).

(** [UpgradeLayer] calls the tunnel's service if the handshake was accepted. *)
Definition serve_incoming (acceptor_data : MitmState -> str -> anyhow unit) (supported : bool)
    (debug_str : str -> str) (policy_decider : Decider) (incoming : Incoming) : M unit :=
  match incoming with
  | PlainRequest req => _ ← http_plain_proxy supported debug_str policy_decider req; mret tt
  | ConnectRequest req inner =>
      r ← http_connect_accept policy_decider req;
      match r with
      | Err _ => mret tt
      | Ok (_, upgraded) => _ ← http_connect_proxy acceptor_data upgraded inner; mret tt
      end
  | SocksConnect authority client => _ ← handle_socks5_tcp policy_decider authority client; mret tt
  | SocksDatagram ip_addr port payload client =>
      _ ← inspect_socks5_udp policy_decider ip_addr port payload client; mret tt
  end.

(** ** What is sent *)

Abbreviation Event := (NetworkPolicy.Event (Mitm := MitmState) (Sent := Sent)).

Lemma adds_or_respond {A} (f : ConfigState (Mitm := MitmState) -> A) (k : A -> M Response)
    (Q : list Event -> Response -> Prop) :
  Q [] internal_error -> (forall s, found turn s -> adds (k (f s)) (fun tr b => Q (Saw s :: tr) b)) ->
  adds (or_respond (ask_state turn f) k) Q.
Proof.
  intros He Hk. unfold or_respond. eapply adds_bind; [apply adds_ask|].
  intros tr r [(e & -> & ->)|(s & Hs & -> & ->)]; [by apply adds_ret|by apply Hk].
Qed.

Lemma quiet_bind {A B} (m : M A) (k : A -> M B) : adds m (fun tr _ => nothing_sent tr) ->
  (forall a, adds (k a) (fun tr _ => nothing_sent tr)) -> adds (m ≫= k) (fun tr _ => nothing_sent tr).
Proof.
  intros Hm Hk. eapply adds_bind; [exact Hm|]. intros tr a Ha. eapply adds_mono; [apply Hk|].
  intros tr' b Hb. by apply Forall_app.
Qed.

Lemma quiet_emit e : silent e -> adds (emit e : M unit) (fun tr _ => nothing_sent tr).
Proof. intros He. apply adds_emit. by repeat constructor. Qed.

Lemma quiet_ret {A} (a : A) : adds (mret a : M A) (fun tr _ => nothing_sent tr).
Proof. apply adds_ret. constructor. Qed.

Ltac hush := repeat first
  [ apply record_quiet | by apply quiet_emit | apply quiet_ret | apply quiet_bind; [|intros ?]
  | progress unfold refuse_host, refuse_method, proxy_disabled_response, emit_block_decision_audit_event,
      emit_allow_decision_audit_event, emit_non_domain_policy_decision_audit_event, emit_policy_audit_event ].

Lemma disabled_quiet host port client method protocol endpoint :
  adds (proxy_disabled_response host port client method protocol endpoint) (fun tr _ => nothing_sent tr).
Proof. unfold proxy_disabled_response. destruct (default _ _). hush. Qed.

Lemma refuse_host_quiet host port method client reason source decision protocol recorded :
  adds (refuse_host host port method client reason source decision protocol recorded) (fun tr _ => nothing_sent tr).
Proof. hush. Qed.

Lemma refuse_method_quiet host port method client reason protocol recorded :
  adds (refuse_method host port method client reason protocol recorded) (fun tr _ => nothing_sent tr).
Proof. hush. Qed.

(** *** Plain requests *)

Definition plain_request (req : Request) (host : str) (port : N) : NetworkPolicyRequest :=
  mkPolicyRequest ProtoHttp host port (rq_client req) (Some (rq_method req)) None None.

(** A request went to its host: the method was allowed, the proxy on and the host
    permitted, each by the state that was found, and this was reported; what
    went out is the request without the headers between hops. *)
Definition plain_sent (decider : Decider) (req : Request) (tr : list Event) : Prop :=
  exists s0 s1 s2 s3 policy_override authority_host authority_port port default_port,
    request_context req = Ok (authority_host, authority_port, port, default_port) /\
    let request := plain_request req (normalize_host (show_rhost authority_host)) port in
    allows_method (mode (network (config s0))) (rq_method req) = true /\
    enabled (network (config s1)) = true /\
    permits lookup_host decider request s2 policy_override /\ found turn s0 /\ found turn s2 /\
    tr = [Saw s0; Saw s1; Saw s2; Audit (audit_of request Allow policy_override); Saw s3;
          Sending (SentRequest (allow_upstream_proxy (network (config s3)))
            (set_headers req (remove_hop_by_hop_request_headers (rq_headers req))))].

(** A request went to a socket of the host. *)
Definition socket_sent (supported : bool) (debug_str : str -> str) (req : Request) (tr : list Event) : Prop :=
  exists s0 s1 s2 event header path uri,
    header_get (lit "x-unix-socket") (rq_headers req) = Some header /\ header_to_str header = Some path /\
    supported = true /\ allows_method (mode (network (config s0))) (rq_method req) = true /\ found turn s0 /\
    enabled (network (config s1)) = true /\ is_unix_socket_allowed debug_str supported s2 path = true /\
    tr = [Saw s0; Saw s1; Saw s2; Audit event;
          Sending (SentSocket path (mkRequest (rq_method req) uri
            (remove_hop_by_hop_request_headers (header_remove (lit "x-unix-socket") (rq_headers req)))
            (rq_client req) (rq_body req)))].

Lemma quiet_silent {A} (m : M A) (Q : list Event -> A -> Prop) : adds m (fun tr _ => nothing_sent tr) ->
  (forall tr a, nothing_sent tr -> Q tr a) -> adds m Q.
Proof. apply adds_mono. Qed.

Ltac silence := eapply quiet_silent; [|intros ? ? ?; left; repeat (apply Forall_cons; split; [done|]); done].

Lemma plain_unix_socket_spec supported debug_str req method_allowed header :
  adds (plain_unix_socket supported debug_str req method_allowed header) (fun tr _ =>
    nothing_sent tr \/ exists s1 s2 event path uri,
      header_to_str header = Some path /\ supported = true /\ method_allowed = true /\
      enabled (network (config s1)) = true /\ is_unix_socket_allowed debug_str supported s2 path = true /\
      tr = [Saw s1; Saw s2; Audit event;
            Sending (SentSocket path (mkRequest (rq_method req) uri
              (remove_hop_by_hop_request_headers (header_remove (lit "x-unix-socket") (rq_headers req)))
              (rq_client req) (rq_body req)))]).
Proof.
  unfold plain_unix_socket. destruct (header_to_str header) as [path|]; [|apply adds_ret; by left; constructor].
  unfold call_enabled. apply adds_or_respond; [by left; constructor|]. intros s1 _.
  destruct (enabled _) eqn:E1; cbn [negb]; [|silence; apply disabled_quiet].
  destruct method_allowed; cbn [negb]; [|silence; hush].
  destruct supported; cbn [negb]; [|silence; hush].
  apply adds_or_respond; [by left; repeat constructor|]. intros s2 _.
  destruct (is_unix_socket_allowed _ _ s2 path) eqn:E2; [|silence; hush].
  apply adds_emit_then. unfold proxy_via_unix_socket. cbn [negb].
  destruct (with_context _ _) as [uri|]; [|silence; hush].
  eapply (adds_bind _ _ (fun tr _ => tr = [_])); [by apply adds_emit_then, adds_ret|].
  intros ? ? ->. apply adds_ret. right. by eexists s1, s2, _, path, uri.
Qed.

Lemma http_plain_proxy_spec supported debug_str decider req :
  adds (http_plain_proxy supported debug_str decider req)
    (fun tr _ => nothing_sent tr \/ plain_sent decider req tr \/ socket_sent supported debug_str req tr).
Proof.
  unfold http_plain_proxy, call_method_allowed. apply adds_or_respond; [by left; constructor|]. intros s0 H0.
  destruct (header_get _ _) as [header|] eqn:Eh.
  { eapply adds_mono; [apply plain_unix_socket_spec|]. intros tr _ [H|(s1 & s2 & ev & path & uri & H)].
    - left. by constructor.
    - right. right. destruct H as (? & ? & ? & ? & ? & ->). by exists s0, s1, s2, ev, header, path, uri. }
  destruct (request_context req) as [[[[ah ap] port] dp]|] eqn:Er; [|silence; hush].
  destruct (validate_absolute_form_host_header _ _); [|silence; hush].
  unfold call_enabled. apply adds_or_respond; [by left; repeat constructor|]. intros s1 H1.
  destruct (enabled _) eqn:E1; cbn [negb]; [|silence; apply disabled_quiet].
  eapply adds_bind; [apply adds_evaluate|].
  intros tr r [(e & -> & ->)|(s2 & decision & o & H2 & Hd & -> & ->)]; [silence; hush|].
  destruct decision; [|silence; hush].
  destruct (allows_method _ _) eqn:Em; cbn [negb]; [|silence; hush].
  unfold call_allow_upstream_proxy. apply adds_or_respond; [by left; repeat constructor|]. intros s3 H3.
  apply adds_emit_then, adds_ret. right. left.
  exists s0, s1, s2, s3, o, ah, ap, port, dp. apply decide_permits in Hd. done.
Qed.

(** *** Tunnels *)

Definition connect_request (req : Request) (host : str) (port : N) : NetworkPolicyRequest :=
  mkPolicyRequest ProtoHttpsConnect host port (rq_client req) (Some (lit "CONNECT")) None None.

(** The handshake was accepted: the proxy was on, the host permitted, and in
    limited mode the tunnel can be intercepted. *)
Definition accepted (decider : Decider) (req : Request) (tr : list Event) (upgraded : Upgraded) : Prop :=
  exists s1 s2 s3 s4 policy_override authority_host authority_port port default_port,
    request_context req = Ok (authority_host, authority_port, port, default_port) /\
    let request := connect_request req (normalize_host (show_rhost authority_host)) port in
    enabled (network (config s1)) = true /\ permits lookup_host decider request s2 policy_override /\
    found turn s2 /\ found turn s3 /\
    (mode (network (config s3)) = Limited -> mitm_state s4 <> None) /\
    upgraded = mkUpgraded (mkAuthority authority_host port) (mode (network (config s3))) (mitm_state s4) /\
    tr = [Saw s1; Saw s2; Audit (audit_of request Allow policy_override); Saw s3; Saw s4].

Definition refused_or_accepted (decider : Decider) (req : Request) (tr : list Event)
    (r : result Response (Response * Upgraded)) : Prop :=
  nothing_sent tr /\ forall resp upgraded, r = Ok (resp, upgraded) -> accepted decider req tr upgraded.

(** A silent computation of which an answer is made *)
Lemma adds_then_ret {A B} (m : M A) (f : A -> B) (Q : list Event -> B -> Prop) : adds m (fun tr _ => nothing_sent tr) ->
  (forall tr a, nothing_sent tr -> Q tr (f a)) -> adds (a ← m; mret (f a)) Q.
Proof.
  intros Hm Hq. eapply adds_bind; [exact Hm|]. intros tr a Ha. apply adds_ret. rewrite app_nil_r. by apply Hq.
Qed.

Ltac rejected := apply adds_ret; split; [by repeat constructor|done].
Ltac turned_away := apply adds_then_ret; [first [apply record_quiet|apply refuse_host_quiet|apply refuse_method_quiet]|]; intros ? ? ?; split;
  [repeat (apply Forall_cons; split; [done|]); done|done].

Lemma http_connect_accept_spec decider req :
  adds (http_connect_accept decider req) (refused_or_accepted decider req).
Proof.
  unfold http_connect_accept, call_enabled, call_network_mode, call_mitm_state.
  destruct (request_context req) as [[[[ah ap] port] dp]|] eqn:Er; [|rejected].
  destruct (is_empty _); [rejected|].
  eapply adds_bind; [apply adds_ask|]. intros ? ? [(? & -> & ->)|(s1 & H1 & -> & ->)]; [rejected|].
  destruct (enabled _) eqn:E1; cbn [negb].
  2: { apply adds_fmap. eapply adds_mono; [apply disabled_quiet|]. intros. split; [by apply Forall_cons|done]. }
  eapply adds_bind; [apply adds_evaluate|].
  intros ? ? [(e & -> & ->)|(s2 & decision & o & H2 & Hd & -> & ->)]; [rejected|].
  destruct decision.
  2: turned_away.
  eapply adds_bind; [apply adds_ask|]. intros ? ? [(? & -> & ->)|(s3 & H3 & -> & ->)]; [rejected|].
  eapply adds_bind; [apply adds_ask|]. intros ? ? [(? & -> & ->)|(s4 & H4 & -> & ->)]; [rejected|].
  destruct (_ && _) eqn:Em.
  { turned_away. }
  apply adds_ret. split; [by repeat constructor|]. intros ? ? [= _ <-].
  exists s1, s2, s3, s4, o, ah, ap, port, dp. apply decide_permits in Hd. split; [done|]. cbv zeta. split_and!; try done.
  intros Hl. rewrite Hl in Em. by destruct (mitm_state s4).
Qed.

(** Everything that is sent is in [P]. *)
Definition sends (P : Sent -> Prop) (tr : list Event) : Prop :=
  Forall (fun e => match e with Sending what => P what | _ => True end) tr.

Lemma nothing_sends P tr : nothing_sent tr -> sends P tr.
Proof. intros H. eapply Forall_impl; [exact H|]. by intros []. Qed.

(** What an intercepted tunnel sends on: the method is allowed by the mode of the
    handshake *)
Definition inner_allowed (mode : NetworkMode) (what : Sent) : Prop :=
  match what with
  | SentInner _ req => allows_method mode (rq_method req) = true
  | _ => False
  end.

Lemma mitm_blocking_spec req policy :
  adds (mitm_blocking_response req policy) (fun tr r => nothing_sent tr /\
    (r = Ok None -> rq_method req <> lit "CONNECT" /\ allows_method (ctx_mode policy) (rq_method req) = true /\
       exists s, found turn s /\ host_blocked lookup_host s (target_host policy) (target_port policy)
                           <> Blocked NotAllowedLocal)).
Proof.
  unfold mitm_blocking_response. case_bool_decide as Ec; [rejected|]. destruct (host_mismatch _ _); [rejected|].
  unfold call_host_blocked. eapply adds_bind; [apply adds_ask|].
  intros ? ? [(? & -> & ->)|(s & Hs & -> & ->)]; [rejected|].
  assert (forall reason,
    adds (_ ← record_blocked turn now (target_host policy) reason (rq_client req) (Some (rq_method req))
                (Some (ctx_mode policy)) (lit "https") None None (target_port policy);
          mret (Ok (Some (blocked_text_response reason))))
      (fun (tr : list Event) (b : anyhow (option Response)) => nothing_sent ([Saw s] ++ tr) /\
         (b = Ok None -> rq_method req <> lit "CONNECT" /\ allows_method (ctx_mode policy) (rq_method req) = true /\
            exists s, found turn s /\ host_blocked lookup_host s (target_host policy) (target_port policy)
                                <> Blocked NotAllowedLocal))) as Hrefuse.
  { intros reason. turned_away. }
  destruct (host_blocked _ _ _ _) as [|[]] eqn:Eh; [| | |apply Hrefuse].
  all: destruct (allows_method _ _) eqn:Ea; cbn [negb]; [|apply Hrefuse].
  all: apply adds_ret; split; [by repeat constructor|]; intros _; split_and!; try done; exists s; by rewrite Eh.
Qed.

Lemma sends_app P tr tr' : sends P (tr ++ tr') <-> sends P tr /\ sends P tr'.
Proof. apply Forall_app. Qed.

Lemma upstream_request_method req policy r : upstream_request req policy = Ok r -> rq_method r = rq_method req.
Proof.
  unfold upstream_request. destruct (build_https_uri _ _); simpl; [|done]. destruct (header_value _); simpl; [|done].
  by intros [= <-].
Qed.

Lemma forward_request_spec req policy mitm :
  adds (forward_request req policy mitm) (fun tr _ => sends (inner_allowed (ctx_mode policy)) tr).
Proof.
  unfold forward_request. eapply adds_bind; [apply mitm_blocking_spec|].
  intros tr r [Htr Hr]. apply (nothing_sends (inner_allowed (ctx_mode policy))) in Htr.
  destruct r as [[resp|]|]; try (apply adds_ret; by rewrite app_nil_r).
  destruct (upstream_request req policy) as [r|] eqn:Eu; [|apply adds_ret; by rewrite app_nil_r].
  destruct (Hr eq_refl) as (_ & Ha & _). rewrite <- (upstream_request_method _ _ _ Eu) in Ha.
  apply adds_emit_then, adds_ret. apply sends_app. split; [done|]. by repeat constructor.
Qed.

Lemma serve_all_sends P handle reqs : (forall req, adds (handle req) (fun tr _ => sends P tr)) ->
  adds (serve_all handle reqs) (fun tr _ => sends P tr).
Proof.
  intros Hh. induction reqs as [|req reqs IH]; simpl; [apply adds_ret; constructor|].
  eapply adds_bind; [apply Hh|]. intros tr r Htr. eapply adds_bind; [apply IH|]. intros tr' rs Htr'.
  apply adds_ret. rewrite app_nil_r. by apply sends_app.
Qed.

(** In limited mode a tunnel is intercepted, or nothing is sent at all. *)
Lemma http_connect_proxy_limited acceptor_data upgraded reqs :
  up_mode upgraded = Limited -> up_mitm upgraded <> None ->
  adds (http_connect_proxy acceptor_data upgraded reqs) (fun tr _ => sends (inner_allowed Limited) tr).
Proof.
  intros Hm Hi. unfold http_connect_proxy. rewrite Hm, bool_decide_eq_true_2 by done.
  destruct (up_mitm upgraded) as [mitm|]; [|done]. unfold mitm_tunnel. rewrite Hm.
  destruct (acceptor_data _ _); [|apply adds_ret; constructor]. apply serve_all_sends. intros req.
  unfold handle_mitm_request. eapply adds_bind; [apply forward_request_spec|]. intros tr r Htr.
  apply adds_ret. by rewrite app_nil_r.
Qed.

(** *** SOCKS *)

Definition socks_request (protocol : NetworkProtocol) (host : str) (port : N) (client : option str) : NetworkPolicyRequest :=
  mkPolicyRequest protocol host port client None None None.

Lemma socks_check_spec protocol recorded decider host port client :
  adds (socks_check protocol recorded decider host port client) (fun tr r => nothing_sent tr /\
    (r = Ok tt -> exists s0 s1 s2 policy_override, found turn s1 /\ found turn s2 /\
       enabled (network (config s0)) = true /\ mode (network (config s1)) = Full /\
       permits lookup_host decider (socks_request protocol host port client) s2 policy_override /\
       tr = [Saw s0; Saw s1; Saw s2; Audit (audit_of (socks_request protocol host port client) Allow policy_override)])).
Proof.
  unfold socks_check, call_enabled, call_network_mode. destruct (is_empty host); [rejected|].
  eapply adds_bind; [apply adds_ask|]. intros ? ? [(? & -> & ->)|(s0 & H0 & -> & ->)]; [rejected|].
  destruct (enabled _) eqn:E0; [|apply adds_emit_then; turned_away].
  eapply adds_bind; [apply adds_ask|]. intros ? ? [(? & -> & ->)|(s1 & H1 & -> & ->)]; [rejected|].
  destruct (mode _) eqn:E1; [turned_away|].
  eapply adds_bind; [apply adds_evaluate|].
  intros ? ? [(e & -> & ->)|(s2 & decision & o & H2 & Hd & -> & ->)]; [rejected|].
  destruct decision; [|turned_away].
  apply adds_ret. split; [by repeat constructor|]. intros _. exists s0, s1, s2, o. by apply decide_permits in Hd.
Qed.

(** ** Limited mode *)

Definition read_only (what : Sent) : Prop :=
  match what with
  | SentRequest _ req | SentSocket _ req | SentInner _ req => one_of (rq_method req) [lit "GET"; lit "HEAD"; lit "OPTIONS"] = true
  | SentTunnel _ _ | SentTcp _ | SentUdp _ _ _ => False
  end.

Lemma inner_read_only tr : sends (inner_allowed Limited) tr -> sends read_only tr.
Proof. intros H. eapply Forall_impl; [exact H|]. by intros [| | |[]]. Qed.

Lemma adds_discard {A} (m : M A) (Q : list Event -> Prop) : adds m (fun tr _ => Q tr) -> adds (_ ← m; mret tt) (fun tr _ => Q tr).
Proof. intros Hm. eapply adds_bind; [exact Hm|]. intros tr a Htr. apply adds_ret. by rewrite app_nil_r. Qed.

Section Limited.
Hypothesis limited : forall s, found turn s -> mode (network (config s)) = Limited.

Lemma plain_read_only supported debug_str decider req :
  adds (http_plain_proxy supported debug_str decider req) (fun tr _ => sends read_only tr).
Proof.
  eapply adds_mono; [apply http_plain_proxy_spec|]. intros tr _ [H|[H|H]]; [by apply nothing_sends| |].
  - destruct H as (s0 & s1 & s2 & s3 & o & ah & ap & port & dp & _ & Hm & _ & _ & Hf & _ & ->).
    rewrite (limited s0 Hf) in Hm. by repeat constructor.
  - destruct H as (s0 & s1 & s2 & ev & header & path & uri & _ & _ & _ & Hm & Hf & _ & _ & ->).
    rewrite (limited s0 Hf) in Hm. by repeat constructor.
Qed.

Lemma socks_silent protocol recorded decider host port client :
  adds (socks_check protocol recorded decider host port client) (fun tr r => nothing_sent tr /\ r <> Ok tt).
Proof.
  eapply adds_mono; [apply socks_check_spec|]. intros tr r [Hn Hr]. split; [done|]. intros E.
  destruct (Hr E) as (? & s1 & ? & ? & Hf & _ & _ & Hm & _). by rewrite (limited s1 Hf) in Hm.
Qed.

Lemma serve_read_only acceptor_data supported debug_str decider incoming :
  adds (serve_incoming acceptor_data supported debug_str decider incoming) (fun tr _ => sends read_only tr).
Proof.
  destruct incoming as [req|req inner|authority client|ip port payload client]; cbn [serve_incoming].
  - apply adds_discard, plain_read_only.
  - eapply adds_bind; [apply http_connect_accept_spec|]. intros tr r [Hn Hr]. apply (nothing_sends read_only) in Hn.
    destruct r as [[resp upgraded]|]; [|apply adds_ret; by rewrite app_nil_r].
    destruct (Hr _ _ eq_refl) as (s1 & s2 & s3 & s4 & o & ah & ap & port & dp & _ & _ & _ & _ & Hf & Hm & -> & _).
    rewrite (limited s3 Hf) in *. apply adds_discard with (Q := fun tr' => sends read_only (tr ++ tr')).
    eapply adds_mono; [apply http_connect_proxy_limited; [done|by apply Hm]|]. intros tr' _ H%inner_read_only.
    by apply sends_app.
  - apply adds_discard. unfold handle_socks5_tcp. eapply adds_bind; [apply socks_silent|]. intros tr [[]|] [Hn Hr]; [done|].
    apply adds_ret. rewrite app_nil_r. by apply nothing_sends.
  - apply adds_discard. unfold inspect_socks5_udp. eapply adds_bind; [apply socks_silent|]. intros tr [[]|] [Hn Hr]; [done|].
    apply adds_ret. rewrite app_nil_r. by apply nothing_sends.
Qed.
End Limited.

(** C25: limited mode is read-only: whatever comes in — plain requests, tunnels
    with the requests inside them, connections and datagrams over SOCKS — and
    whatever happens in between, as long as the states that are found are in
    limited mode, all that leaves the proxy is requests whose method is GET,
    HEAD or OPTIONS; no tunnel is opened blindly. *)
Theorem limited_mode_read_only (acceptor_data : MitmState -> str -> anyhow unit) (supported : bool)
    (debug_str : str -> str) (policy_decider : Decider) (incoming : Incoming) (w : World) (what : Sent) :
  (forall n s s', turn n s = (s', None) -> mode (network (config s')) = Limited) ->
  let w' := (serve_incoming acceptor_data supported debug_str policy_decider incoming w).2 in
  exists tr, w_trace w' = w_trace w ++ tr /\ (Sending what ∈ tr -> read_only what).
Proof.
  intros Hl w'. destruct (serve_read_only ltac:(by intros s (n & s0 & H); eapply Hl) acceptor_data supported debug_str
    policy_decider incoming w) as (tr & Htr & Hs).
  exists tr. split; [done|]. intros Hin. unfold sends in Hs. rewrite Forall_forall in Hs. by apply Hs in Hin.
Qed.

(** ** Blocked hosts *)

(** What comes in is for the host, and not for a socket. *)
Definition aims_at (incoming : Incoming) (host : str) (port : N) : Prop :=
  match incoming with
  | PlainRequest req =>
      header_get (lit "x-unix-socket") (rq_headers req) = None /\
      exists ah ap dp, request_context req = Ok (ah, ap, port, dp) /\ normalize_host (show_rhost ah) = host
  | ConnectRequest req _ =>
      exists ah ap dp, request_context req = Ok (ah, ap, port, dp) /\ normalize_host (show_rhost ah) = host
  | SocksConnect authority _ => normalize_host (show_rhost (au_host authority)) = host /\ au_port authority = port
  | SocksDatagram ip_addr p _ _ => normalize_host ip_addr = host /\ p = port
  end.

Section Blocked.
Context (decider : Decider) (host : str) (port : N).
Hypothesis blocked : forall s, found turn s ->
  host_blocked lookup_host s host port <> Allowed /\
  (host_blocked lookup_host s host port = Blocked NotAllowed -> decider = None).

Lemma not_permitted request s o : found turn s -> pr_host request = host -> pr_port request = port ->
  ~ permits lookup_host decider request s o.
Proof.
  intros Hf Hh Hp. destruct (blocked s Hf) as [Hna Hno]. unfold permits. rewrite Hh, Hp. destruct o; [|done].
  intros (E & d & Hd & _). by rewrite (Hno E) in Hd.
Qed.

Lemma serve_blocked acceptor_data supported debug_str incoming : aims_at incoming host port ->
  adds (serve_incoming acceptor_data supported debug_str decider incoming) (fun tr _ => nothing_sent tr).
Proof.
  intros Ha. destruct incoming as [req|req inner|authority client|ip p payload client]; cbn [serve_incoming aims_at] in *.
  - apply adds_discard. eapply adds_mono; [apply http_plain_proxy_spec|]. intros tr _ [H|[H|H]]; [done| |]; exfalso.
    + destruct Ha as (_ & ah & ap & dp & Hc & Hn).
      destruct H as (s0 & s1 & s2 & s3 & o & ah' & ap' & port' & dp' & Hc' & _ & _ & Hp & _ & Hf & _).
      rewrite Hc in Hc'. injection Hc' as <- <- <- <-. by eapply not_permitted, Hp.
    + destruct H as (s0 & s1 & s2 & ev & header & path & uri & Hh & _). destruct Ha as [Hx _]. congruence.
  - destruct Ha as (ah & ap & dp & Hc & Hn).
    eapply adds_bind; [apply http_connect_accept_spec|]. intros tr r [Hs Hr].
    destruct r as [[resp upgraded]|]; [exfalso|apply adds_ret; by rewrite app_nil_r].
    destruct (Hr _ _ eq_refl) as (s1 & s2 & s3 & s4 & o & ah' & ap' & port' & dp' & Hc' & _ & Hp & Hf & _).
    rewrite Hc in Hc'. injection Hc' as <- <- <- <-. by eapply not_permitted, Hp.
  - destruct Ha as [Hn Hp]. apply adds_discard. unfold handle_socks5_tcp. eapply adds_bind; [apply socks_check_spec|].
    intros tr [[]|] [Hs Hr]; [exfalso|apply adds_ret; by rewrite app_nil_r].
    destruct (Hr eq_refl) as (s0 & s1 & s2 & o & _ & Hf & _ & _ & Hpm & _). by eapply not_permitted, Hpm.
  - destruct Ha as [Hn Hp]. apply adds_discard. unfold inspect_socks5_udp. eapply adds_bind; [apply socks_check_spec|].
    intros tr [[]|] [Hs Hr]; [exfalso|apply adds_ret; by rewrite app_nil_r].
    destruct (Hr eq_refl) as (s0 & s1 & s2 & o & _ & Hf & _ & _ & Hpm & _). by eapply not_permitted, Hpm.
Qed.
End Blocked.

(** C24: a blocked host is not reached by any way in: if every state that is found
    blocks the host, and for more than its absence from the allowlist unless
    there is no decider, then what aims at it has nothing sent: no request,
    tunnel, connection or datagram. *)
Theorem blocked_host_not_reached (acceptor_data : MitmState -> str -> anyhow unit) (supported : bool)
    (debug_str : str -> str) (policy_decider : Decider) (incoming : Incoming) (host : str) (port : N)
    (w : World) (what : Sent) :
  (forall n s s', turn n s = (s', None) ->
     host_blocked lookup_host s' host port <> Allowed /\
     (host_blocked lookup_host s' host port = Blocked NotAllowed -> policy_decider = None)) ->
  aims_at incoming host port ->
  let w' := (serve_incoming acceptor_data supported debug_str policy_decider incoming w).2 in
  exists tr, w_trace w' = w_trace w ++ tr /\ Sending what ∉ tr.
Proof.
  intros Hb Ha w'. destruct (serve_blocked policy_decider host port ltac:(by intros s (n & s0 & H); eapply Hb)
    acceptor_data supported debug_str incoming Ha w) as (tr & Htr & Hs).
  exists tr. split; [done|by apply nothing_sent_elem].
Qed.
End Handle.

(** ** Headers between hops *)

(** The headers whose names are not in the list *)
Definition without (names : list str) (headers : Headers) : Headers :=
  List.filter (fun h => negb (one_of (fst h) names)) headers.

Lemma one_of_cons x a l : one_of x (a :: l) = (x =? a) || one_of x l.
Proof. done. Qed.

Lemma filter_filter {A} (f g : A -> bool) l : List.filter f (List.filter g l) = List.filter (fun x => g x && f x) l.
Proof. induction l as [|x l IH]; simpl; [done|]. destruct (g x); simpl; [by destruct (f x); rewrite IH|done]. Qed.

Lemma header_remove_without name headers : header_remove name headers = without [name] headers.
Proof. apply filter_ext. intros h. rewrite one_of_cons. by rewrite orb_false_r. Qed.

Lemma one_of_app x l l' : one_of x (l ++ l') = one_of x l || one_of x l'.
Proof. apply existsb_app. Qed.

Lemma without_without a b headers : without b (without a headers) = without (a ++ b) headers.
Proof. unfold without. rewrite filter_filter. apply filter_ext. intros h. by rewrite one_of_app, negb_orb. Qed.

Lemma without_nil headers : without [] headers = headers.
Proof. induction headers as [|h l IH]; [done|]. simpl. by f_equal. Qed.

Lemma remove_tokens tokens headers :
  fold_left remove_token tokens headers = without (omap header_name tokens) headers.
Proof.
  revert headers. induction tokens as [|t l IH]; intros headers; cbn [fold_left omap list_omap]; [by rewrite without_nil|].
  rewrite IH. unfold remove_token. destruct (header_name t) as [n|]; [|done].
  by rewrite header_remove_without, without_without.
Qed.

Lemma remove_names names headers :
  fold_left (fun headers name => header_remove name headers) names headers = without names headers.
Proof.
  revert headers. induction names as [|n l IH]; intros headers; simpl; [by rewrite without_nil|].
  by rewrite IH, header_remove_without, without_without.
Qed.

Lemma header_get_without name names headers : one_of name names = true -> header_get name (without names headers) = None.
Proof.
  intros Hn. unfold header_get. destruct (List.find _ _) as [h|] eqn:E; [|done]. apply find_some in E as [Hin Hh].
  apply filter_In in Hin as [_ Hin]. apply bool_decide_eq_true in Hh. by rewrite Hh, Hn in Hin.
Qed.

(** The names that the first value of [Connection] lists *)
Definition connection_names (headers : Headers) : list str :=
  match header_get (lit "connection") headers ≫= header_to_str with
  | Some raw_connection => omap header_name (connection_tokens raw_connection)
  | None => []
  end.

Lemma remove_connection_none fuel headers : header_get (lit "connection") headers = None ->
  remove_connection fuel headers = headers.
Proof. intros H. destruct fuel; simpl; [done|by rewrite H]. Qed.

Lemma without_connection_absent headers : header_get (lit "connection") headers = None ->
  without [lit "connection"] headers = headers.
Proof.
  unfold header_get. induction headers as [|h l IH]; simpl; [done|]. rewrite one_of_cons.
  case_bool_decide; [done|]. simpl. intros E. by rewrite IH.
Qed.

(** One round is enough: it leaves no [Connection]. *)
Lemma remove_connection_once fuel headers :
  remove_connection (S fuel) headers = without (lit "connection" :: connection_names headers) headers.
Proof.
  cbn [remove_connection]. unfold connection_names.
  destruct (header_get (lit "connection") headers) as [raw|] eqn:E; cbn [mbind option_bind].
  - rewrite header_remove_without. destruct (header_to_str raw) as [r|].
    + rewrite remove_tokens, without_without. by apply remove_connection_none, header_get_without.
    + by apply remove_connection_none, header_get_without.
  - by rewrite without_connection_absent.
Qed.

(** Which headers are passed on: all but the ones between hops, in their
    order; those are [Connection], the ones its first value names, and the
    listed ones. *)
Theorem remove_hop_by_hop_spec (headers : Headers) :
  remove_hop_by_hop_request_headers headers
  = without (lit "connection" :: connection_names headers ++ HOP_BY_HOP ++ option_list (header_name [0x74; 0x65]%N)) headers.
Proof.
  unfold remove_hop_by_hop_request_headers.
  rewrite remove_connection_once, remove_names, without_without. destruct (header_name [0x74; 0x65]%N) as [te|]; cbn [option_list].
  - rewrite header_remove_without, without_without. cbn [app]. by rewrite <- app_assoc.
  - by rewrite app_nil_r.
Qed.
End Handlers.

(** ** Examples *)

Section Examples.
#[local] Existing Instance wild_globs.
#[local] Instance requests_host : Host := HostPaths.plain_host [].

(** Hosts are texts, and every target has port 80. *)
#[local] Instance example_rama : Rama := {|
  RHost := str;
  show_rhost := id;
  rhost_eqb a b := a =? b;
  request_context req :=
    match u_authority (rq_uri req) with Some a => Ok (a, None, 80%N, true) | None => Err [] end;
  typed_host _ := Ok None;
  header_to_str := Some;
  header_name name := Some (to_ascii_lowercase name);
  header_value := Ok;
  uri_parse s := Ok (mkUri None None (Some s));
  strip_inner := id;
  Upstream := unit;
  serve _ _ := Ok tt;
  serve_socket _ _ := Ok tt;
|}.

Definition example_state (m : NetworkMode) (patterns : list str) : ConfigState (Mitm := MitmState (Ca := unit)) :=
  let n := set_mode (set_allowed_domains settings_default patterns) m in
  mkConfigState
    (mkProxyConfig (mkSettings true (proxy_url n) (enable_socks5 n) (socks_url n) (enable_socks5_udp n)
      (allow_upstream_proxy n) (dangerously_allow_non_loopback_proxy n) (dangerously_allow_all_unix_sockets n) (mode n)
      (domains n) (unix_sockets n) (allow_local_binding n) (ProxyConfig.mitm n)))
    patterns [] None constraints_default [] 0.

(** The state is the same at every call. *)
Definition steady (s : ConfigState (Mitm := MitmState (Ca := unit))) (_ : nat) (_ : ConfigState (Mitm := MitmState (Ca := unit))) :=
  (s, @None (list str)).

Definition get_request (method host : str) (headers : Headers) : Request :=
  mkRequest method (mkUri None (Some host) None) headers None [].

Definition start (s : ConfigState (Mitm := MitmState (Ca := unit))) : World (Sent := Sent) := mkWorld s 0 [].

Definition example_serve (s : ConfigState) (decider : option (NetworkPolicyRequest -> NetworkDecision)) (incoming : Incoming) :=
  (serve_incoming (steady s) (fun _ => 0%Z) example_lookup (fun _ _ => Ok tt) false id decider incoming (start s)).2.

Definition limited_state := example_state Limited [lit "example.com"].

Lemma limited_mode_read_only_witness :
  let get := get_request (lit "GET") (lit "example.com") [] in
  Sending (SentRequest true get) ∈ w_trace (example_serve limited_state None (PlainRequest get)) /\
  read_only (SentRequest true get) /\
  forallb (fun e => match e with Sending _ => false | _ => true end)
    (w_trace (example_serve limited_state None (PlainRequest (get_request (lit "POST") (lit "example.com") [])))) = true.
Proof.
  intros get. assert (Sending (SentRequest true get) ∈ w_trace (example_serve limited_state None (PlainRequest get))) as Hin.
  { apply (list_elem_of_lookup_2 _ 5). reflexivity. }
  split; [exact Hin|]. split; [|reflexivity].
  destruct (limited_mode_read_only (steady limited_state) (fun _ => 0%Z) example_lookup (fun _ _ => Ok tt) false id None
    (PlainRequest get) (start limited_state) (SentRequest true get)) as (tr & Htr & Hr); [by intros n s s' [= <-]|].
  apply Hr. unfold example_serve in Hin. rewrite Htr in Hin. exact Hin.
Defined.

Definition full_state := example_state Full [lit "example.com"].

(** A decider that lets everything pass *)
Definition lenient : option (NetworkPolicyRequest -> NetworkDecision) := Some (fun _ => Allow).

Definition ssh_of (host : str) : Authority := @mkAuthority example_rama host 22.

Lemma blocked_host_not_reached_witness :
  Sending (SentTcp (ssh_of (lit "example.com")))
    ∈ w_trace (example_serve full_state lenient (SocksConnect (ssh_of (lit "example.com")) None)) /\
  Sending (SentTcp (ssh_of (lit "[::1]")))
    ∉ w_trace (example_serve full_state lenient (SocksConnect (ssh_of (lit "[::1]")) None)).
Proof.
  split; [apply (list_elem_of_lookup_2 _ 4); reflexivity|].
  destruct (blocked_host_not_reached (steady full_state) (fun _ => 0%Z) example_lookup (fun _ _ => Ok tt) false id lenient
    (SocksConnect (ssh_of (lit "[::1]")) None) (lit "::1") 22 (start full_state)
    (SentTcp (ssh_of (lit "[::1]")))) as (tr & Htr & Hr); [|split; reflexivity|].
  - intros n s s' [= <-]. assert (host_blocked example_lookup full_state (lit "::1") 22 = Blocked NotAllowedLocal) as ->
      by reflexivity. split; [discriminate|]. intros H. discriminate H.
  - unfold example_serve. rewrite Htr. exact Hr.
Defined.

(** The decider lets a host pass that is just not on the list. *)
Lemma evaluate_host_policy_safe_witness :
  exists event, ae_override event = true /\ ae_source event = source_as_str Decider.
Proof.
  pose (request := mkPolicyRequest ProtoHttp (lit "other.org") 80 None None None None).
  destruct (evaluate_host_policy_safe (GL := wild_globs) (steady full_state) example_lookup lenient request (start full_state)
    (evaluate_host_policy (GL := wild_globs) (steady full_state) example_lookup lenient request (start full_state)).2
    eq_refl)
    as (s & event & Htr & _ & Ho).
  exists event. assert (s = full_state /\ ae_override event = true) as [_ Ho'].
  { simpl in Htr. injection Htr as <- <-. split; reflexivity. }
  rewrite Ho' in Ho. split; [exact Ho'|]. apply Ho.
Defined.

(** All values of [Connection] are dropped after the first one was read: what the
    second one names is passed on. *)
Example second_connection_ignored :
  remove_hop_by_hop_request_headers
    [(lit "connection", lit "x-first"); (lit "connection", lit "x-second"); (lit "x-first", lit "1");
     (lit "x-second", lit "2"); (lit "accept", lit "*/*")]
  = [(lit "x-second", lit "2"); (lit "accept", lit "*/*")].
Proof. reflexivity. Qed.
End Examples.
