(* ===== verification/PermissionsToml.v ===== *)
(** * PermissionsToml: permission profiles as the configuration writes them

    [config/src/permissions_toml.rs]: the tables of a profile and what its
    network table does to the settings of the proxy.  A [BTreeMap] is a table
    sorted by keys; reading TOML text is serde's. *)

From S2P Require Import Prelude BTree Permissions DomainPolicy ProxyConfig.
Local Open Scope str_scope.

(** ** Tables *)

Inductive FilesystemPermissionToml : Type :=
| AccessToml (access : FileSystemAccessMode)
| ScopedToml (scoped_entries : list (str * FileSystemAccessMode)).

Record FilesystemPermissionsToml : Type := mkFilesystemToml {
  ft_glob_scan_max_depth : option nat;
  ft_entries : list (str * FilesystemPermissionToml);
}.

Definition filesystem_is_empty (self : FilesystemPermissionsToml) : bool := is_empty (ft_entries self).

Inductive NetworkDomainPermissionToml : Type := TomlAllow | TomlDeny.

Record NetworkDomainPermissionsToml : Type := mkDomainsToml {
  dt_entries : list (str * NetworkDomainPermissionToml);
}.

(** What [apply_to_network_proxy_config] maps a permission to *)
Definition proxy_permission (permission : NetworkDomainPermissionToml) : NetworkDomainPermission :=
  match permission with TomlAllow => DomainAllow | TomlDeny => DomainDeny end.

Definition toml_allowed_domains (self : NetworkDomainPermissionsToml) : option (list str) :=
  non_empty_or_none (map fst (List.filter (fun e => match e.2 with TomlAllow => true | TomlDeny => false end) (dt_entries self))).
Definition toml_denied_domains (self : NetworkDomainPermissionsToml) : option (list str) :=
  non_empty_or_none (map fst (List.filter (fun e => match e.2 with TomlDeny => true | TomlAllow => false end) (dt_entries self))).

Inductive NetworkUnixSocketPermissionToml : Type := TomlSocketAllow | TomlSocketNone.

Record NetworkUnixSocketPermissionsToml : Type := mkSocketsToml {
  ut_entries : list (str * NetworkUnixSocketPermissionToml);
}.

Definition toml_allow_unix_sockets (self : NetworkUnixSocketPermissionsToml) : list str :=
  map fst (List.filter (fun e => match e.2 with TomlSocketAllow => true | TomlSocketNone => false end) (ut_entries self)).

Record NetworkToml : Type := mkNetworkToml {
  nt_enabled : option bool;
  nt_proxy_url : option str;
  nt_enable_socks5 : option bool;
  nt_socks_url : option str;
  nt_enable_socks5_udp : option bool;
  nt_allow_upstream_proxy : option bool;
  nt_dangerously_allow_non_loopback_proxy : option bool;
  nt_dangerously_allow_all_unix_sockets : option bool;
  nt_mode : option NetworkMode;
  nt_domains : option NetworkDomainPermissionsToml;
  nt_unix_sockets : option NetworkUnixSocketPermissionsToml;
  nt_allow_local_binding : option bool;
}.

Record PermissionProfileToml : Type := mkProfileToml {
  profile_filesystem : option FilesystemPermissionsToml;
  profile_network : option NetworkToml;
}.

(** [PermissionsToml]: profiles by name *)
Definition PermissionsToml : Type := list (str * PermissionProfileToml).

(** The error is the text of an [io::Error]. *)
Definition resolve_permission_profile (permissions : PermissionsToml) (profile_name : str)
    : result str PermissionProfileToml :=
  match tbl_get profile_name permissions with
  | Some profile => Ok profile
  | None => Err (lit "default_permissions refers to undefined profile `" ++ profile_name ++ lit "`")
  end.

(** ** The settings that a network table makes *)

Definition overlay_network_domain_permissions (n : NetworkProxySettings) (domains : NetworkDomainPermissionsToml)
    : NetworkProxySettings :=
  fold_left (fun n e => upsert_domain_permission n e.1 (proxy_permission e.2) normalize_host) (dt_entries domains) n.

Definition overlay_unix_sockets (n : NetworkProxySettings) (sockets : NetworkUnixSocketPermissionsToml)
    : NetworkProxySettings :=
  let proxy_unix_sockets := match unix_sockets n with Some u => sp_entries u | None => [] end in
  let entries := fold_left (fun entries e =>
      tbl_insert e.1 (match e.2 with TomlSocketAllow => UnixSocketAllow | TomlSocketNone => UnixSocketNone end) entries)
    (ut_entries sockets) proxy_unix_sockets in
  set_unix_sockets n (if is_empty entries then None else Some (mkSocketPermissions entries)).

(** The fields that are written as they are *)
Definition overlay_scalars (self : NetworkToml) (n : NetworkProxySettings) : NetworkProxySettings :=
  mkSettings
    (default (enabled n) (nt_enabled self))
    (default (proxy_url n) (nt_proxy_url self))
    (default (enable_socks5 n) (nt_enable_socks5 self))
    (default (socks_url n) (nt_socks_url self))
    (default (enable_socks5_udp n) (nt_enable_socks5_udp self))
    (default (allow_upstream_proxy n) (nt_allow_upstream_proxy self))
    (default (dangerously_allow_non_loopback_proxy n) (nt_dangerously_allow_non_loopback_proxy self))
    (default (dangerously_allow_all_unix_sockets n) (nt_dangerously_allow_all_unix_sockets self))
    (default (mode n) (nt_mode self))
    (domains n) (unix_sockets n)
    (default (allow_local_binding n) (nt_allow_local_binding self))
    (mitm n).

Definition apply_to_network_proxy_config (self : NetworkToml) (config : NetworkProxyConfig) : NetworkProxyConfig :=
  let n := overlay_scalars self (network config) in
  let n := match nt_domains self with Some domains => overlay_network_domain_permissions n domains | None => n end in
  let n := match nt_unix_sockets self with Some sockets => overlay_unix_sockets n sockets | None => n end in
  mkProxyConfig n.

Definition to_network_proxy_config (self : NetworkToml) : NetworkProxyConfig :=
  apply_to_network_proxy_config self (mkProxyConfig settings_default).

(** ** What an overlay does to the domains *)

(** The entries for a host, as its normal form is compared *)
Definition entries_for (host : str) (entries : list NetworkDomainPermissionEntry) : list NetworkDomainPermissionEntry :=
  List.filter (fun entry => normalize_host (de_pattern entry) =? host) entries.

(** The last one that an overlay says about a host *)
Definition last_for (host : str) (l : list NetworkDomainPermissionEntry) : option NetworkDomainPermissionEntry :=
  last (entries_for host l).

Definition overlay_entry (e : str * NetworkDomainPermissionToml) : NetworkDomainPermissionEntry :=
  mkDomainEntry e.1 (proxy_permission e.2).

(** A domain list that an overlay, a rule or a setter writes one after the
    other: each entry replaces those for its host. *)
Definition upsert_all (n : NetworkProxySettings) (l : list NetworkDomainPermissionEntry) : NetworkProxySettings :=
  fold_left (fun n e => upsert_domain_permission n (de_pattern e) (de_permission e) normalize_host) l n.

Lemma upsert_all_app n l k : upsert_all n (l ++ k) = upsert_all (upsert_all n l) k.
Proof. apply fold_left_app. Qed.

Lemma overlay_upsert_all n d : overlay_network_domain_permissions n d = upsert_all n (map overlay_entry (dt_entries d)).
Proof.
  unfold overlay_network_domain_permissions, upsert_all. revert n.
  induction (dt_entries d) as [|e l IH]; intros n; [done|]. apply IH.
Qed.

Lemma upsert_entries_or_default n e :
  entries_or_default (upsert_domain_permission n (de_pattern e) (de_permission e) normalize_host)
  = List.filter (fun x => negb (normalize_host (de_pattern x) =? normalize_host (de_pattern e))) (entries_or_default n) ++ [e].
Proof.
  unfold upsert_domain_permission, some_domains, entries_or_default. cbn [set_domains domains].
  destruct e as [p q]. cbn [de_pattern de_permission].
  destruct (is_empty _) eqn:E; [|done]. by destruct (List.filter _ _).
Qed.

Lemma filter_filter_app {A} (f g : A -> bool) l : List.filter f (List.filter g l) = List.filter (fun x => g x && f x) l.
Proof. induction l as [|x l IH]; simpl; [done|]. destruct (g x); simpl; [destruct (f x)|]; by rewrite ?IH. Qed.

Lemma filter_none {A} (f : A -> bool) l : (forall x, x ∈ l -> f x = false) -> List.filter f l = [].
Proof.
  induction l as [|x l IH]; intros H; simpl; [done|]. rewrite (H x) by left. apply IH. intros y Hy. apply H. by right.
Qed.

(** After an overlay, the entries for a host are the last one that it gives,
    or as before if it gives none. *)
Lemma upsert_all_entries n l host :
  entries_for host (entries_or_default (upsert_all n l))
  = match last_for host l with Some e => [e] | None => entries_for host (entries_or_default n) end.
Proof.
  unfold last_for. induction l as [|e l IH] using rev_ind; [done|].
  rewrite upsert_all_app. cbn [upsert_all fold_left]. rewrite upsert_entries_or_default.
  unfold entries_for in *. rewrite !List.filter_app, last_app. cbn [List.filter].
  case_bool_decide as E; cbn [app last].
  - rewrite filter_filter_app, filter_none; [done|]. intros x _. rewrite E. by destruct (bool_decide _).
  - rewrite app_nil_r, filter_filter_app, <- IH. apply List.filter_ext. intros x.
    case_bool_decide as E1; [|done]. case_bool_decide as E2; [|done]. congruence.
Qed.

Lemma last_for_app host l k :
  last_for host (l ++ k) = match last_for host k with Some e => Some e | None => last_for host l end.
Proof. unfold last_for, entries_for. by rewrite List.filter_app, last_app. Qed.

(** The other settings are not touched. *)
Lemma upsert_all_set_domains n l : upsert_all n l = set_domains n (domains (upsert_all n l)).
Proof. induction l as [|e l IH] using rev_ind; [by destruct n|]. rewrite upsert_all_app, IH. reflexivity. Qed.

(** What a table says about domains *)
Definition domain_overlay (self : NetworkToml) : list NetworkDomainPermissionEntry :=
  match nt_domains self with Some d => map overlay_entry (dt_entries d) | None => [] end.

Lemma applied_settings (self : NetworkToml) (config : NetworkProxyConfig) :
  exists u, network (apply_to_network_proxy_config self config)
    = set_unix_sockets (upsert_all (overlay_scalars self (network config)) (domain_overlay self)) u.
Proof.
  unfold apply_to_network_proxy_config, domain_overlay. cbn [network].
  assert (match nt_domains self with Some d => overlay_network_domain_permissions (overlay_scalars self (network config)) d
    | None => overlay_scalars self (network config) end
    = upsert_all (overlay_scalars self (network config)) match nt_domains self with Some d => map overlay_entry (dt_entries d) | None => [] end)
    as -> by (destruct (nt_domains self); [apply overlay_upsert_all|done]).
  destruct (nt_unix_sockets self); [by eexists|]. set (n := upsert_all _ _). exists (unix_sockets n). by destruct n.
Qed.

Lemma entries_for_elem e l : e ∈ l <-> e ∈ entries_for (normalize_host (de_pattern e)) l.
Proof. unfold entries_for. rewrite elem_of_filter_list, bool_decide_eq_true. tauto. Qed.

Lemma upsert_all_elem n l e :
  e ∈ entries_or_default (upsert_all n l) <->
  last_for (normalize_host (de_pattern e)) l = Some e \/
  (last_for (normalize_host (de_pattern e)) l = None /\ e ∈ entries_or_default n).
Proof.
  rewrite entries_for_elem, upsert_all_entries. destruct (last_for _ l) as [e'|].
  - rewrite list_elem_of_singleton. split; [intros ->; by left|]. by intros [[= ->]|[? _]].
  - rewrite <- entries_for_elem. split; [by right|]. by intros [?|[_ ?]].
Qed.
