(* ===== verification/PermissionProfiles.v ===== *)
(** * PermissionProfiles: from a configured profile to a policy

    [core/src/config/permissions.rs], on Linux: the filesystem table of a
    profile becomes entries of a policy, with warnings that are collected on
    the way.  An [io::Error] is its text; [cwd_error] is the one of reading the
    current directory. *)

From S2P Require Import Prelude BTree Paths HostPaths Permissions ProxyConfig PermissionsToml.
Local Open Scope str_scope.

(** ** Computations that warn *)

(** [&mut Vec<String>] and [io::Result] *)
Definition Compile (A : Type) : Type := list str -> result str A * list str.

#[global] Instance compile_ret : MRet Compile := fun A a warnings => (Ok a, warnings).
#[global] Instance compile_bind : MBind Compile := fun A B f m warnings =>
  match m warnings with (Ok a, warnings) => f a warnings | (Err e, warnings) => (Err e, warnings) end.

Definition push_warning (message : str) : Compile unit := fun startup_warnings => (Ok tt, startup_warnings ++ [message]).
Definition lift {A} (r : result str A) : Compile A := fun warnings => (r, warnings).

(** A loop that extends a list *)
Fixpoint extend_all {A B} (f : A -> Compile (list B)) (l : list A) : Compile (list B) :=
  match l with
  | [] => mret []
  | a :: l => bs ← f a; rest ← extend_all f l; mret (bs ++ rest)
  end.

Fixpoint warn_all (messages : list str) : Compile unit :=
  match messages with [] => mret tt | m :: messages => _ ← push_warning m; warn_all messages end.

(** ** Paths and patterns *)

Definition is_glob_char (c : N) : bool :=
  N.eqb c (ch "*") || N.eqb c (ch "?") || N.eqb c (ch "[") || N.eqb c (ch "]").

Definition contains_glob_chars (path : str) : bool := existsb is_glob_char path.

Definition remove_trailing_glob_suffix (path : str) : str := default path (strip_suffix (lit "/**") path).

Definition show_access (access : FileSystemAccessMode) : str :=
  match access with AccessRead => lit "read" | AccessWrite => lit "write" | AccessNone => lit "none" end.

Definition parse_special_path (path : str) : option FileSystemSpecialPath :=
  if path =? lit ":root" then Some Root
  else if path =? lit ":minimal" then Some Minimal
  else if path =? lit ":project_roots" then Some (ProjectRoots None)
  else if path =? lit ":tmpdir" then Some Tmpdir
  else if starts_with path (lit ":") then Some (UnknownSpecial path None)
  else None.

Definition is_normal (c : Component) : bool := match c with Normal _ => true | _ => false end.

Definition parse_relative_subpath (subpath : str) : result str str :=
  if negb (is_empty subpath) && forallb is_normal (components subpath) then Ok subpath
  else Err (lit "filesystem subpath `" ++ subpath ++ lit "` must be a descendant path without `.` or `..` components").

Definition compile_read_write_glob_path (path : str) (access : FileSystemAccessMode) : result str str :=
  if negb (contains_glob_chars path) then Ok path
  else
    let path_without_trailing_glob := remove_trailing_glob_suffix path in
    if negb (contains_glob_chars path_without_trailing_glob) then Ok path_without_trailing_glob
    else Err (lit "filesystem glob path `" ++ path ++ lit "` only supports `none` access; use an exact path or trailing `/**` for `"
              ++ show_access access ++ lit "` subtree access").

Definition maybe_push_unknown_special_path_warning (special : FileSystemSpecialPath) : Compile unit :=
  match special with
  | UnknownSpecial path subpath =>
      push_warning
        match subpath with
        | Some subpath =>
            lit "Configured filesystem path `" ++ path ++ lit "` with nested entry `" ++ subpath
            ++ lit "` is not recognized by this version of Codex and will be ignored. Upgrade Codex if this path is required."
        | None =>
            lit "Configured filesystem path `" ++ path
            ++ lit "` is not recognized by this version of Codex and will be ignored. Upgrade Codex if this path is required."
        end
  | _ => mret tt
  end.

Definition missing_filesystem_entries_warning (profile_name : str) : str :=
  lit "Permissions profile `" ++ profile_name
  ++ lit "` does not define any recognized filesystem entries for this version of Codex. Filesystem access will remain restricted. Upgrade Codex if this profile expects filesystem permissions.".

(** *** Globs that are warned about *)

Definition globbed (access : FileSystemAccessMode) (path : str) : bool :=
  negb (bool_decide (access = AccessNone)) && contains_glob_chars (remove_trailing_glob_suffix path).

Definition unsupported_read_write_glob_paths (filesystem : FilesystemPermissionsToml) : list str :=
  concat (map (fun '(path, permission) =>
      match permission with
      | AccessToml access => if globbed access path then [path] else []
      | ScopedToml scoped_entries =>
          map (fun e => path ++ lit "/" ++ e.1) (List.filter (fun e => globbed e.2 e.1) scoped_entries)
      end) (ft_entries filesystem)).

Definition unbounded_unreadable_globstar_paths (filesystem : FilesystemPermissionsToml) : list str :=
  match ft_glob_scan_max_depth filesystem with
  | Some _ => []
  | None =>
      concat (map (fun '(path, permission) =>
          match permission with
          | AccessToml AccessNone => if contains path (lit "**") then [path] else []
          | AccessToml _ => []
          | ScopedToml scoped_entries =>
              map (fun e => path ++ lit "/" ++ e.1)
                (List.filter (fun e => bool_decide (e.2 = AccessNone) && contains e.1 (lit "**")) scoped_entries)
          end) (ft_entries filesystem))
  end.

Definition validate_glob_scan_max_depth (max_depth : option nat) : result str (option nat) :=
  match max_depth with
  | Some 0 => Err (lit "glob_scan_max_depth must be at least 1")
  | _ => Ok max_depth
  end.

Definition compile_network_sandbox_policy (network : option NetworkToml) : NetworkSandboxPolicy :=
  match network with
  | Some network => match nt_enabled network with Some true => NetEnabled | _ => NetRestricted end
  | None => NetRestricted
  end.

Definition network_proxy_config_from_profile_network (network : option NetworkToml) : NetworkProxyConfig :=
  match network with Some network => to_network_proxy_config network | None => mkProxyConfig settings_default end.

Section Profile.
Context `{Host} (cwd_error : str).

Definition parse_absolute_path (path : str) : result str str :=
  if negb (is_absolute path) && negb (path =? lit "~") && negb (starts_with path (lit "~/"))
  then Err (lit "filesystem path `" ++ path ++ lit "` must be absolute, use `~/...`, or start with `:`")
  else match absolute path with Some path => Ok path | None => Err cwd_error end.

Definition compile_filesystem_path (path : str) : Compile FileSystemPath :=
  match parse_special_path path with
  | Some special =>
      _ ← maybe_push_unknown_special_path_warning special;
      mret (Special special)
  | None => path ← lift (parse_absolute_path path); mret (PathEntry path)
  end.

Definition compile_filesystem_access_path (path : str) (access : FileSystemAccessMode) : Compile FileSystemPath :=
  if negb (contains_glob_chars path) then compile_filesystem_path path
  else if bool_decide (access = AccessNone)
  then pattern ← lift (parse_absolute_path path); mret (GlobPattern pattern)
  else path ← lift (compile_read_write_glob_path path access); compile_filesystem_path path.

Definition nested_error {A} (path : str) : result str A :=
  Err (lit "filesystem path `" ++ path ++ lit "` does not support nested entries").

Definition compile_scoped_filesystem_path (path subpath : str) : Compile FileSystemPath :=
  if subpath =? lit "." then compile_filesystem_path path
  else
    match parse_special_path path with
    | Some special =>
        subpath ← lift (parse_relative_subpath subpath);
        special ← lift match special with
                       | ProjectRoots _ => Ok (ProjectRoots (Some subpath))
                       | UnknownSpecial path _ => Ok (UnknownSpecial path (Some subpath))
                       | _ => nested_error path
                       end;
        _ ← maybe_push_unknown_special_path_warning special;
        mret (Special special)
    | None =>
        subpath ← lift (parse_relative_subpath subpath);
        base ← lift (parse_absolute_path path);
        mret (PathEntry (resolve_path_against_base h_home_dir subpath base))
    end.

Definition compile_scoped_filesystem_pattern (path subpath : str) (access : FileSystemAccessMode) (policy_cwd : str)
    : result str str :=
  if negb (bool_decide (access = AccessNone))
  then Err (lit "filesystem glob subpath `" ++ subpath ++ lit "` only supports `none` access")
  else
    subpath ← parse_relative_subpath subpath;
    match parse_special_path path with
    | Some (ProjectRoots _) => Ok (resolve_path_against_base h_home_dir subpath policy_cwd)
    | Some _ => nested_error path
    | None => base ← parse_absolute_path path; Ok (join_abs base subpath)
    end.

(** One entry of a nested table *)
Definition compile_scoped_entry (path : str) (policy_cwd : str) (e : str * FileSystemAccessMode)
    : Compile FileSystemSandboxEntry :=
  let '(subpath, access) := e in
  let has_glob := contains_glob_chars subpath in
  let can_compile_as_pattern := match parse_special_path path with Some (ProjectRoots _) | None => true | Some _ => false end in
  if has_glob && bool_decide (access = AccessNone) && can_compile_as_pattern
  then pattern ← lift (compile_scoped_filesystem_pattern path subpath access policy_cwd);
       mret (mkEntry (GlobPattern pattern) access)
  else subpath ← lift (compile_read_write_glob_path subpath access);
       path ← compile_scoped_filesystem_path path subpath;
       mret (mkEntry path access).

Definition compile_filesystem_permission (policy_cwd : str) (e : str * FilesystemPermissionToml)
    : Compile (list FileSystemSandboxEntry) :=
  let '(path, permission) := e in
  match permission with
  | AccessToml access => path ← compile_filesystem_access_path path access; mret [mkEntry path access]
  | ScopedToml scoped_entries =>
      extend_all (fun e => entry ← compile_scoped_entry path policy_cwd e; mret [entry]) scoped_entries
  end.

Definition unsupported_glob_warning (pattern : str) : str :=
  lit "Filesystem glob `" ++ pattern
  ++ lit "` uses `read` or `write` access, which is not fully supported by this platform's sandboxing. Use an exact path or trailing `/**` subtree rule instead. `none` deny-read globs are supported.".
Definition unbounded_glob_warning (pattern : str) : str :=
  lit "Filesystem deny-read glob `" ++ pattern
  ++ lit "` uses `**`. Non-macOS sandboxing does not support unbounded `**` natively; set `glob_scan_max_depth` in this filesystem profile to cap Linux glob expansion and silence this warning, or enumerate explicit depths such as `*.env`, `*/*.env`, and `*/*/*.env`.".

Definition compile_filesystem (profile_name : str) (filesystem : option FilesystemPermissionsToml) (policy_cwd : str)
    : Compile (list FileSystemSandboxEntry) :=
  match filesystem with
  | None => _ ← push_warning (missing_filesystem_entries_warning profile_name); mret []
  | Some filesystem =>
      if filesystem_is_empty filesystem
      then _ ← push_warning (missing_filesystem_entries_warning profile_name); mret []
      else
        _ ← warn_all (map unsupported_glob_warning (unsupported_read_write_glob_paths filesystem));
        _ ← warn_all (map unbounded_glob_warning (unbounded_unreadable_globstar_paths filesystem));
        extend_all (compile_filesystem_permission policy_cwd) (ft_entries filesystem)
  end.

Definition compile_permission_profile (permissions : PermissionsToml) (profile_name policy_cwd : str)
    : Compile (FileSystemSandboxPolicy * NetworkSandboxPolicy) :=
  profile ← lift (resolve_permission_profile permissions profile_name);
  entries ← compile_filesystem profile_name (profile_filesystem profile) policy_cwd;
  glob_scan_max_depth ← lift (validate_glob_scan_max_depth (profile_filesystem profile ≫= ft_glob_scan_max_depth));
  let network_sandbox_policy := compile_network_sandbox_policy (profile_network profile) in
  mret (mkFsPolicy Restricted glob_scan_max_depth entries, network_sandbox_policy).

(** ** Roots that the runtime needs *)

Definition get_readable_roots_required_for_codex_runtime (codex_home : str) (zsh_path main_execve_wrapper_exe : option str)
    : list str :=
  let arg0_root := absolute (push (push codex_home (lit "tmp")) (lit "arg0")) in
  let zsh_path := zsh_path ≫= absolute in
  let execve_wrapper_root :=
    path ← main_execve_wrapper_exe;
    path ← absolute path;
    match arg0_root with
    | Some arg0_root => if path_starts_with path arg0_root then parent path else Some path
    | None => Some path
    end in
  option_list zsh_path ++ option_list execve_wrapper_root.
End Profile.

(** ** What a profile says *)

(** An entry of the table, with the path below it if it is nested *)
Record Item : Type := mkItem { item_path : str; item_subpath : option str; item_access : FileSystemAccessMode }.

Definition items_of (e : str * FilesystemPermissionToml) : list Item :=
  match e.2 with
  | AccessToml access => [mkItem e.1 None access]
  | ScopedToml scoped_entries => map (fun s => mkItem e.1 (Some s.1) s.2) scoped_entries
  end.
Definition items (filesystem : option FilesystemPermissionsToml) : list Item :=
  match filesystem with Some filesystem => concat (map items_of (ft_entries filesystem)) | None => [] end.

(** A trailing [/**] stands for the directory itself. *)
Definition strip_glob (path : str) : str := if contains_glob_chars path then remove_trailing_glob_suffix path else path.

(** Whether the item is a pattern of denied reads *)
Definition is_pattern (item : Item) : bool :=
  bool_decide (item_access item = AccessNone) &&
  match item_subpath item with
  | None => contains_glob_chars (item_path item)
  | Some sub => contains_glob_chars sub &&
      match parse_special_path (item_path item) with Some (ProjectRoots _) | None => true | Some _ => false end
  end.

Section Meaning.
Context `{HOST : Host} {OK : HostOk}.

(** The directory that a key of the table names, for a session in [cwd] *)
Definition key_root (cwd path : str) : option str :=
  match parse_special_path path with
  | Some Root => Some [SEP]
  | Some (ProjectRoots _) => Some cwd
  | Some Tmpdir => resolve_file_system_special_path Tmpdir (Some cwd)
  | Some _ => None
  | None => absolute path
  end.

Definition item_root (cwd : str) (item : Item) : option str :=
  if is_pattern item then None
  else
    match item_subpath item with
    | None => key_root cwd (strip_glob (item_path item))
    | Some sub =>
        root ← key_root cwd (item_path item);
        Some (if strip_glob sub =? lit "." then root else join_abs root (strip_glob sub))
    end.

Definition item_pattern (policy_cwd : str) (item : Item) : option str :=
  if negb (is_pattern item) then None
  else
    match item_subpath item with
    | None => absolute (item_path item)
    | Some sub =>
        root ← match parse_special_path (item_path item) with None => absolute (item_path item) | Some _ => Some policy_cwd end;
        Some (join_abs root sub)
    end.

Definition resolved_items (cwd : str) (l : list Item) : list ResolvedFileSystemEntry :=
  omap (fun item => root ← item_root cwd item; Some (mkResolved root (item_access item))) l.

(** The patterns of a list of entries *)
Definition denied_patterns (entries : list FileSystemSandboxEntry) : list str :=
  omap (fun e => match entry_path e with GlobPattern p => if bool_decide (entry_access e = AccessNone) then Some p else None | _ => None end)
    entries.

(** ** Inversion of computations *)

Lemma bind_compile_Ok {A B} (m : Compile A) (f : A -> Compile B) ws b ws' : (m ≫= f) ws = (Ok b, ws') ->
  exists a ws1, m ws = (Ok a, ws1) /\ f a ws1 = (Ok b, ws').
Proof. unfold mbind, compile_bind. destruct (m ws) as [[a|e] ws1]; [|done]. by exists a, ws1. Qed.

Lemma lift_Ok {A} (r : result str A) ws a ws' : lift r ws = (Ok a, ws') -> r = Ok a /\ ws' = ws.
Proof. by intros [= -> ->]. Qed.

Lemma extend_all_Ok {A B} (f : A -> Compile (list B)) l ws bs ws' : extend_all f l ws = (Ok bs, ws') ->
  exists bss, bs = concat bss /\ Forall2 (fun a b => exists w w', f a w = (Ok b, w')) l bss.
Proof.
  revert ws bs. induction l as [|a l IH]; intros ws bs; cbn [extend_all].
  - intros [= <- <-]. by exists [].
  - intros (b & ws1 & Hb & H)%bind_compile_Ok. apply bind_compile_Ok in H as (rest & ws2 & Hr & H).
    injection H as <- <-. destruct (IH _ _ Hr) as (bss & -> & Hf). exists (b :: bss). split; [done|]. constructor; eauto.
Qed.

Lemma parse_absolute_path_Ok e path q : parse_absolute_path e path = Ok q -> absolute path = Some q.
Proof. unfold parse_absolute_path. destruct (_ && _ && _); [done|]. destruct (absolute path); [|done]. by intros [= ->]. Qed.

Lemma parse_relative_Ok sub s : parse_relative_subpath sub = Ok s -> s = sub.
Proof. unfold parse_relative_subpath. destruct (_ && _); [|done]. by intros [= ->]. Qed.

Lemma read_write_glob_Ok path access s : compile_read_write_glob_path path access = Ok s -> s = strip_glob path.
Proof.
  unfold compile_read_write_glob_path, strip_glob. destruct (contains_glob_chars path); cbn [negb]; [|by intros [= ->]].
  destruct (negb _); [|done]. by intros [= ->].
Qed.

Ltac compile_inv :=
  repeat match goal with
  | H : (_ ≫= _) _ = (Ok _, _) |- _ => apply bind_compile_Ok in H as (? & ? & ? & H)
  | H : lift _ _ = (Ok _, _) |- _ => apply lift_Ok in H as [? ->]
  | H : mret _ _ = (Ok _, _) |- _ => injection H as <- <-
  end.

(** *** What an entry says *)

Lemma key_path_root e path ws p ws' cwd : normal_abs cwd -> compile_filesystem_path e path ws = (Ok p, ws') ->
  resolve_entry_path p (Some cwd) = key_root cwd path /\ (forall q, p <> GlobPattern q).
Proof.
  intros Hc. unfold compile_filesystem_path, key_root. destruct (parse_special_path path) as [special|] eqn:Es.
  - intros Hp. compile_inv. split; [|done].
    unfold parse_special_path in Es. repeat (case_bool_decide; [injection Es as <-|]).
    + cbn. by rewrite absolute_root_path_normal.
    + done.
    + done.
    + done.
    + by destruct (starts_with path _); [injection Es as <-|].
  - intros Hp. compile_inv. match goal with H : parse_absolute_path _ _ = Ok _ |- _ => apply parse_absolute_path_Ok in H as -> end.
    done.
Qed.

Lemma scoped_path_root e path sub ws p ws' cwd : normal_abs cwd ->
  compile_scoped_filesystem_path e path sub ws = (Ok p, ws') ->
  resolve_entry_path p (Some cwd)
  = (root ← key_root cwd path; Some (if sub =? lit "." then root else join_abs root sub)) /\ (forall q, p <> GlobPattern q).
Proof.
  intros Hc. unfold compile_scoped_filesystem_path. case_bool_decide as Es.
  - intros Hp. destruct (key_path_root _ _ _ _ _ _ Hc Hp) as [-> Hq]. split; [|done]. by destruct (key_root cwd path).
  - unfold key_root. destruct (parse_special_path path) as [special|] eqn:Esp; intros Hp; compile_inv;
      repeat match goal with H : parse_relative_subpath _ = Ok _ |- _ => apply parse_relative_Ok in H as -> end.
    + split; [|done]. destruct special; try (match goal with H : nested_error _ = Ok _ |- _ => done end);
        match goal with H : Ok _ = Ok _ |- _ => injection H as <- end; done.
    + split; [|done]. match goal with H : parse_absolute_path _ _ = Ok _ |- _ => apply parse_absolute_path_Ok in H as -> end. done.
Qed.

(** An entry resolves to the root of its item, and is its pattern. *)
Definition says (policy_cwd : str) (item : Item) (entry : FileSystemSandboxEntry) : Prop :=
  entry_access entry = item_access item /\
  (forall cwd, normal_abs cwd -> resolve_entry_path (entry_path entry) (Some cwd) = item_root cwd item) /\
  match item_pattern policy_cwd item with
  | Some p => entry_path entry = GlobPattern p
  | None => forall p, entry_path entry <> GlobPattern p
  end.

Lemma access_item_says e policy_cwd path access ws p ws' : compile_filesystem_access_path e path access ws = (Ok p, ws') ->
  says policy_cwd (mkItem path None access) (mkEntry p access).
Proof.
  unfold compile_filesystem_access_path, says, item_root, item_pattern, is_pattern, strip_glob.
  cbn [item_path item_subpath item_access entry_access entry_path].
  destruct (contains_glob_chars path) eqn:Eg; cbn [negb].
  - case_bool_decide as Ea; cbn [andb negb]; intros Hp; compile_inv.
    + match goal with H : parse_absolute_path _ _ = Ok _ |- _ => apply parse_absolute_path_Ok in H as -> end. done.
    + split; [done|]. match goal with H : compile_read_write_glob_path _ _ = Ok _ |- _ => apply read_write_glob_Ok in H as -> end.
      unfold strip_glob in Hp. rewrite Eg in Hp. split; [|apply (key_path_root _ _ _ _ _ [SEP] normal_root Hp)].
      intros cwd Hc. apply (key_path_root _ _ _ _ _ _ Hc Hp).
  - rewrite andb_false_r. cbn [negb]. intros Hp. split; [done|].
    split; [|apply (key_path_root _ _ _ _ _ [SEP] normal_root Hp)]. intros cwd Hc. apply (key_path_root _ _ _ _ _ _ Hc Hp).
Qed.

Lemma scoped_item_says e policy_cwd path sub access ws entry ws' :
  compile_scoped_entry e path policy_cwd (sub, access) ws = (Ok entry, ws') ->
  says policy_cwd (mkItem path (Some sub) access) entry.
Proof.
  unfold compile_scoped_entry, says, item_root, item_pattern, is_pattern.
  cbn [item_path item_subpath item_access]. rewrite (andb_comm (contains_glob_chars sub)), <- andb_assoc.
  destruct (bool_decide (access = AccessNone) && _) eqn:Ep; cbn [negb]; intros Hp; compile_inv; cbn [entry_access entry_path].
  - apply andb_true_iff in Ep as [Ea%bool_decide_eq_true [_ Esp]%andb_true_iff].
    match goal with H : compile_scoped_filesystem_pattern _ _ _ _ _ = Ok _ |- _ => revert H end.
    unfold compile_scoped_filesystem_pattern. rewrite (bool_decide_eq_true_2 _ Ea). cbn [negb].
    intros H. apply result_bind_Ok in H as (s & ->%parse_relative_Ok & H).
    split; [done|]. split; [done|]. destruct (parse_special_path path) as [[]|]; try done.
    + by injection H as <-.
    + apply result_bind_Ok in H as (base & ->%parse_absolute_path_Ok & [= <-]). done.
  - split; [done|]. match goal with H : compile_read_write_glob_path _ _ = Ok _ |- _ => apply read_write_glob_Ok in H as -> end.
    match goal with H : compile_scoped_filesystem_path _ _ _ _ = _ |- _ =>
      split; [intros cwd Hc; apply (scoped_path_root _ _ _ _ _ _ _ Hc H)|apply (scoped_path_root _ _ _ _ _ _ _ normal_root H)] end.
Qed.

Lemma permission_items_say e policy_cwd x ws entries ws' : compile_filesystem_permission e policy_cwd x ws = (Ok entries, ws') ->
  Forall2 (says policy_cwd) (items_of x) entries.
Proof.
  destruct x as [path [access|scoped]]; unfold compile_filesystem_permission, items_of; cbn [fst snd]; intros Hp.
  - compile_inv. constructor; [|done]. by eapply access_item_says.
  - apply extend_all_Ok in Hp as (bss & -> & Hf). induction Hf as [|[sub access] b l bss (w & w' & Hb) _ IH]; [constructor|].
    compile_inv. cbn [map concat app]. constructor; [by eapply scoped_item_says|done].
Qed.

Lemma filesystem_items_say e profile_name fs policy_cwd ws entries ws' :
  compile_filesystem e profile_name fs policy_cwd ws = (Ok entries, ws') -> Forall2 (says policy_cwd) (items fs) entries.
Proof.
  unfold compile_filesystem, items. destruct fs as [fs|].
  - unfold filesystem_is_empty. destruct (ft_entries fs) as [|x l] eqn:El; cbn [is_empty]; intros Hp; compile_inv; [done|].
    apply extend_all_Ok in Hp as (bss & -> & Hf). rewrite <- El in *. clear El x l.
    induction Hf as [|y b l bss (w & w' & Hb) _ IH]; [constructor|]. cbn [map concat].
    apply Forall2_app; [by eapply permission_items_say|done].
  - intros Hp. compile_inv. constructor.
Qed.

Lemma says_resolved policy_cwd l entries cwd : Forall2 (says policy_cwd) l entries -> normal_abs cwd ->
  omap (fun entry => path ← resolve_entry_path (entry_path entry) (Some cwd); Some (mkResolved path (entry_access entry))) entries
  = resolved_items cwd l.
Proof.
  intros Hf Hc. unfold resolved_items. induction Hf as [|item entry l entries (Ha & Hr & _) _ IH]; [done|].
  cbn [omap list_omap]. rewrite (Hr cwd Hc), Ha. by destruct (item_root cwd item); cbn; f_equal.
Qed.

Lemma says_patterns policy_cwd l entries : Forall2 (says policy_cwd) l entries ->
  denied_patterns entries = omap (item_pattern policy_cwd) l.
Proof.
  unfold denied_patterns. induction 1 as [|item entry l entries (Ha & _ & Hp) _ IH]; [done|]. cbn [omap list_omap].
  destruct (item_pattern policy_cwd item) as [p|] eqn:E.
  - rewrite Hp, Ha, IH. unfold item_pattern, is_pattern in E. case_bool_decide; [done|by cbn in E].
  - rewrite IH. destruct (entry_path entry); try done. by destruct (Hp pattern).
Qed.

(** C19: a profile that compiles gives exactly what its table says: the policy is
    restricted; a path has the access of the entry of the table that names the
    deepest directory around it ([none] over [write] over [read] at one
    directory, a trailing [/**] standing for the directory), and none without
    one; and the patterns of denied reads are those of the table. *)
Theorem compiled_profile_access (cwd_error : str) (permissions : PermissionsToml) (profile_name policy_cwd : str)
    (ws ws' : list str) (policy : FileSystemSandboxPolicy) (net : NetworkSandboxPolicy) (cwd path : str) :
  compile_permission_profile cwd_error permissions profile_name policy_cwd ws = (Ok (policy, net), ws') -> normal_abs cwd ->
  exists profile p, tbl_get profile_name permissions = Some profile /\ resolve_candidate_path path cwd = Some p /\
    let said := items (profile_filesystem profile) in
    ((exists e, decides (resolved_items cwd said) p e /\ resolve_access_with_cwd policy path cwd = res_access e) \/
     (resolve_access_with_cwd policy path cwd = AccessNone /\
      forall e, e ∈ resolved_items cwd said -> path_starts_with p (res_path e) = false)) /\
    denied_patterns (fs_entries policy) = omap (item_pattern policy_cwd) said /\ fs_kind policy = Restricted.
Proof.
  intros Hp Hc. unfold compile_permission_profile in Hp. compile_inv.
  match goal with H : resolve_permission_profile _ _ = Ok ?pr |- _ => rename pr into profile; revert H end.
  unfold resolve_permission_profile. destruct (tbl_get profile_name permissions) as [pr|]; [|done]. intros [= ->].
  match goal with H : compile_filesystem _ _ _ _ _ = _ |- _ => apply filesystem_items_say in H as Hs end.
  destruct (resolve_candidate_total path cwd Hc) as [p Hcand]. exists profile, p. split; [done|]. split; [done|]. cbv zeta.
  rewrite <- (says_resolved _ _ _ cwd Hs Hc), <- (says_patterns _ _ _ Hs). split; [|done].
  match goal with |- context [resolve_access_with_cwd ?pol] => pose proof (resolve_access_decides pol path cwd p eq_refl Hcand) as H end.
  unfold resolved_entries_with_cwd in H. rewrite (absolute_id cwd Hc) in H. exact H.
Qed.
End Meaning.

(** ** Globs that are warned about are refused *)

Section Warned.
Context `{Host} (cwd_error : str).

Lemma globbed_refused access path : globbed access path = true -> forall a, compile_read_write_glob_path path a <> Ok (strip_glob path).
Proof.
  unfold globbed, compile_read_write_glob_path, strip_glob. intros [_ Hg]%andb_true_iff a.
  destruct (contains_glob_chars path) eqn:E; cbn [negb].
  - rewrite Hg. done.
  - intros _. unfold remove_trailing_glob_suffix in Hg.
    destruct (strip_suffix (lit "/**") path) as [p|] eqn:Es; cbn [default from_option id] in Hg; [|congruence].
    apply strip_suffix_Some in Es as ->. unfold contains_glob_chars in *. rewrite existsb_app in E.
    apply orb_false_iff in E as [E _]. congruence.
Qed.

(** The warning about globs with read or write access never comes with a
    profile: one of them keeps it from compiling. *)
Lemma warned_globs_fail profile_name fs policy_cwd ws entries ws' :
  compile_filesystem cwd_error profile_name (Some fs) policy_cwd ws = (Ok entries, ws') ->
  unsupported_read_write_glob_paths fs = [].
Proof.
  unfold compile_filesystem, unsupported_read_write_glob_paths, filesystem_is_empty.
  destruct (ft_entries fs) as [|x l] eqn:El; cbn [is_empty]; [done|]. rewrite <- El. clear El x l.
  intros (? & ? & _ & Hp)%bind_compile_Ok. apply bind_compile_Ok in Hp as (? & ? & _ & Hp).
  apply extend_all_Ok in Hp as (bss & -> & Hf).
  induction Hf as [|[path permission] b l bss (w & w' & Hb) _ IH]; [done|]. cbn [map concat]. rewrite IH, app_nil_r.
  destruct permission as [access|scoped]; cbn [compile_filesystem_permission] in Hb.
  - destruct (globbed access path) eqn:Eg; [exfalso|done].
    apply bind_compile_Ok in Hb as (p & w1 & Hb & _). unfold compile_filesystem_access_path in Hb.
    pose proof (globbed_refused _ _ Eg) as Hr. unfold globbed in Eg. apply andb_true_iff in Eg as [Ea Eg].
    apply negb_true_iff in Ea. rewrite Ea in Hb. destruct (contains_glob_chars path) eqn:E; cbn [negb] in Hb.
    + apply bind_compile_Ok in Hb as (q & w2 & Hb & _). apply lift_Ok in Hb as [Hb ->].
      pose proof (read_write_glob_Ok _ _ _ Hb) as ->. by apply (Hr access).
    + unfold compile_read_write_glob_path, strip_glob in Hr. rewrite E in Hr. by apply (Hr access).
  - apply extend_all_Ok in Hb as (es & -> & He). induction He as [|[sub access] e scoped es (v & v' & Hv) _ IHe]; [done|].
    cbn [List.filter snd fst map]. destruct (globbed access sub) eqn:Eg; [exfalso|by apply IHe].
    apply bind_compile_Ok in Hv as (entry & w1 & Hv & _). unfold compile_scoped_entry in Hv.
    pose proof (globbed_refused _ _ Eg) as Hr. unfold globbed in Eg. apply andb_true_iff in Eg as [Ea Eg].
    apply negb_true_iff in Ea. rewrite Ea, andb_false_r in Hv. cbn [andb] in Hv.
    apply bind_compile_Ok in Hv as (q & w2 & Hv & _). apply lift_Ok in Hv as [Hv ->].
    pose proof (read_write_glob_Ok _ _ _ Hv) as ->. by apply (Hr access).
Qed.
End Warned.

(** ** Examples *)

Definition profile_of (entries : list (str * FilesystemPermissionToml)) : PermissionsToml :=
  [(lit "dev", mkProfileToml (Some (mkFilesystemToml (Some 3) entries)) None)].

Section Examples.
#[local] Instance profile_host : Host := HostPaths.plain_host [].
#[local] Instance profile_host_ok : HostOk := plain_host_ok [].

Definition compiled (entries : list (str * FilesystemPermissionToml)) :=
  compile_permission_profile (lit "no current directory") (profile_of entries) (lit "dev") (lit "/work") [].

Definition access_in (entries : list (str * FilesystemPermissionToml)) (path : str) : option FileSystemAccessMode :=
  match (compiled entries).1 with
  | Ok (policy, _) => Some (resolve_access_with_cwd policy path (lit "/work"))
  | Err _ => None
  end.

Definition typical : list (str * FilesystemPermissionToml) :=
  [(lit "/etc", AccessToml AccessRead);
   (lit "/etc/secret/**", AccessToml AccessRead);
   (lit ":project_roots", ScopedToml [(lit ".", AccessWrite); (lit "**/*.env", AccessNone); (lit "docs", AccessRead)])].

Example typical_access :
  access_in typical (lit "/work/a") = Some AccessWrite /\ access_in typical (lit "docs/b") = Some AccessRead /\
  access_in typical (lit "/etc/passwd") = Some AccessRead /\ access_in typical (lit "/usr") = Some AccessNone.
Proof. split_and!; vm_compute; reflexivity. Qed.

(** A key with a glob that has a nested table is taken literally: what it
    denies stays readable, without a warning. *)
Example glob_key_denies_nothing :
  let entries := [(lit "/srv", AccessToml AccessRead); (lit "/srv/*", ScopedToml [(lit "secret", AccessNone)])] in
  (compiled entries).2 = [] /\ access_in entries (lit "/srv/a/secret") = Some AccessRead.
Proof. split; vm_compute; reflexivity. Qed.

(** The subtree of a directory cannot be given less than the directory: both
    keys stand for the same place. *)
Example subtree_collapses :
  access_in [(lit "/data", AccessToml AccessWrite); (lit "/data/**", AccessToml AccessRead)] (lit "/data/x") = Some AccessWrite.
Proof. vm_compute. reflexivity. Qed.

(** The error for a denied glob below a special directory asks for the access
    that it has. *)
Example denied_glob_misreported :
  (compiled [(lit ":tmpdir", ScopedToml [(lit "*.env", AccessNone)])]).1
  = Err (lit "filesystem glob path `*.env` only supports `none` access; use an exact path or trailing `/**` for `none` subtree access").
Proof. vm_compute. reflexivity. Qed.

Lemma compiled_profile_access_witness :
  access_in typical (lit "/work/a") = Some AccessWrite /\
  exists p, resolve_candidate_path (lit "a") (lit "/work") = Some p.
Proof.
  split; [vm_compute; reflexivity|].
  destruct (compiled typical) as [[[policy net]|e] ws] eqn:E; [|vm_compute in E; discriminate E].
  assert (normal_abs (lit "/work")) as Hn by (exists [lit "work"]; split; [constructor; [by apply (bool_decide_unpack _)|done]|done]).
  destruct (compiled_profile_access (lit "no current directory") (profile_of typical) (lit "dev") (lit "/work") [] ws policy net
    (lit "/work") (lit "a") E Hn) as (profile & p & _ & Hp & _).
  by exists p.
Defined.
End Examples.
