(* ===== verification/ProxySpec.v ===== *)
(** * ProxySpec: the network proxy of a session

    [core/src/config/network_proxy_spec.rs]: the settings of the proxy after the
    requirements, and the state that a session starts it with.  The parser of
    URLs, [{:?}], the set-up of interception and the globs are parameters, as
    in [ProxyState]. *)

From S2P Require Import Prelude Decimal BTree HostPaths Permissions ExecPolicy Requirements.
From S2P Require Import IpAddr DomainPolicy ProxyConfig ProxyConstraints ProxyState PermissionsToml.
Local Open Scope str_scope.

Record NetworkProxySpec : Type := mkProxySpec {
  base_config : NetworkProxyConfig;
  spec_requirements : option NetworkConstraints;
  spec_config : NetworkProxyConfig;
  spec_constraints : NetworkProxyConstraints;
  hard_deny_allowlist_misses : bool;
}.

Definition spec_enabled (self : NetworkProxySpec) : bool := enabled (network (spec_config self)).
Definition socks_enabled (self : NetworkProxySpec) : bool := enable_socks5 (network (spec_config self)).

(** ** Requirements on the settings *)

Definition managed_sandbox_active (permission_profile : PermissionProfile) : bool :=
  match permission_profile with Managed _ _ => true | _ => false end.

Definition allowlist_expansion_enabled (permission_profile : PermissionProfile) (hard_deny_allowlist_misses : bool) : bool :=
  managed_sandbox_active permission_profile && negb hard_deny_allowlist_misses.

Definition denylist_expansion_enabled (permission_profile : PermissionProfile) : bool :=
  managed_sandbox_active permission_profile.

Definition managed_allowed_domains_only (requirements : NetworkConstraints) : bool :=
  default false (nt_managed_allowed_domains_only (network_fields requirements)).

Definition merge_domain_lists (managed user_entries : list str) : list str :=
  fold_left (fun managed entry =>
      if existsb (fun managed_entry => eq_ignore_ascii_case managed_entry entry) managed
      then managed else managed ++ [entry])
    user_entries managed.

(** The scalar settings that requirements replace *)
Definition apply_scalars (n : NetworkProxySettings) (r : NetworkRequirementsToml) : NetworkProxySettings :=
  let url p := lit "http://127.0.0.1:" ++ lit (pretty (p : N)) in
  mkSettings
    (default (enabled n) (Requirements.nt_enabled r))
    (match nt_http_port r with Some p => url p | None => proxy_url n end)
    (enable_socks5 n)
    (match nt_socks_port r with Some p => url p | None => socks_url n end)
    (enable_socks5_udp n)
    (default (allow_upstream_proxy n) (Requirements.nt_allow_upstream_proxy r))
    (default (dangerously_allow_non_loopback_proxy n) (Requirements.nt_dangerously_allow_non_loopback_proxy r))
    (default (dangerously_allow_all_unix_sockets n) (Requirements.nt_dangerously_allow_all_unix_sockets r))
    (mode n) (domains n) (unix_sockets n)
    (default (allow_local_binding n) (Requirements.nt_allow_local_binding r))
    (mitm n).

Definition managed_allowed (r : NetworkRequirementsToml) (hard_deny_allowlist_misses : bool) : option (list str) :=
  let listed := d ← Requirements.nt_domains r; Requirements.allowed_domains d in
  if hard_deny_allowlist_misses then Some (default [] listed) else listed.
Definition managed_denied (r : NetworkRequirementsToml) : option (list str) :=
  d ← Requirements.nt_domains r; Requirements.denied_domains d.
Definition managed_sockets (r : NetworkRequirementsToml) : option (list str) :=
  Requirements.allow_unix_sockets <$> Requirements.nt_unix_sockets r.

(** The allowlist, then the denylist *)
Definition apply_allowed (n : NetworkProxySettings) (managed : option (list str)) (allowlist_expansion : bool)
    : NetworkProxySettings :=
  match managed with
  | Some managed =>
      set_allowed_domains n
        (if allowlist_expansion then merge_domain_lists managed (default [] (ProxyConfig.allowed_domains n)) else managed)
  | None => n
  end.
Definition apply_denied (n : NetworkProxySettings) (managed : option (list str)) (denylist_expansion : bool)
    : NetworkProxySettings :=
  match managed with
  | Some managed =>
      set_denied_domains n
        (if denylist_expansion then merge_domain_lists managed (default [] (ProxyConfig.denied_domains n)) else managed)
  | None => n
  end.

Definition apply_requirements (config : NetworkProxyConfig) (requirements : NetworkConstraints)
    (permission_profile : PermissionProfile) (hard_deny_allowlist_misses : bool)
    : NetworkProxyConfig * NetworkProxyConstraints :=
  let r := network_fields requirements in
  let allowlist_expansion := allowlist_expansion_enabled permission_profile hard_deny_allowlist_misses in
  let denylist_expansion := denylist_expansion_enabled permission_profile in
  let n := apply_scalars (network config) r in
  let n := apply_allowed n (managed_allowed r hard_deny_allowlist_misses) allowlist_expansion in
  let n := apply_denied n (managed_denied r) denylist_expansion in
  let n := match managed_sockets r with Some sockets => set_allow_unix_sockets n sockets | None => n end in
  (mkProxyConfig n,
   mkConstraints (Requirements.nt_enabled r) None (Requirements.nt_allow_upstream_proxy r)
     (Requirements.nt_dangerously_allow_non_loopback_proxy r) (Requirements.nt_dangerously_allow_all_unix_sockets r)
     (managed_allowed r hard_deny_allowlist_misses)
     ((fun _ => allowlist_expansion) <$> managed_allowed r hard_deny_allowlist_misses)
     (managed_denied r) ((fun _ => denylist_expansion) <$> managed_denied r)
     (managed_sockets r) (Requirements.nt_allow_local_binding r)).

(** Who decides about what is not on the allowlist: nobody, the decider that is
    given, or one that always asks *)
Inductive StartedDecider (D : Type) : Type := NoDecider | GivenDecider (decider : D) | AskingDecider.
Arguments NoDecider {D}.
Arguments GivenDecider {D} decider.
Arguments AskingDecider {D}.

Section Spec.
Context `{GL : Globs} `{HO : Host} {Mitm : Type}.
Context (url_host : str -> option str) (debug : list str -> str) (debug_str : str -> str).
Context (mitm_new : bool -> anyhow Mitm).
(** [Url::parse], as [host_and_port_from_network_addr] asks for it *)
Context (url_parse : str -> option (option str * option N)).

Definition proxy_host_and_port (self : NetworkProxySpec) : str :=
  host_and_port_from_network_addr url_parse (proxy_url (network (spec_config self))) 3128.

(** An [io::Error] is its text. *)
Definition check_constraints (config : NetworkProxyConfig) (constraints : NetworkProxyConstraints) : result str unit :=
  map_err (fun err => lit "network proxy constraints are invalid: " ++ show_constraint_error err)
    (validate_policy_against_constraints url_host debug config constraints).

Definition from_config_and_constraints (config : NetworkProxyConfig) (requirements : option NetworkConstraints)
    (permission_profile : PermissionProfile) : result str NetworkProxySpec :=
  let base_config := config in
  let hard_deny_allowlist_misses :=
    match requirements with Some requirements => managed_allowed_domains_only requirements | None => false end in
  let '(config, constraints) :=
    match requirements with
    | Some requirements => apply_requirements config requirements permission_profile hard_deny_allowlist_misses
    | None => (config, constraints_default)
    end in
  _ ← check_constraints config constraints;
  Ok (mkProxySpec base_config requirements config constraints hard_deny_allowlist_misses).

Definition recompute_for_permission_profile (self : NetworkProxySpec) (permission_profile : PermissionProfile)
    : result str NetworkProxySpec :=
  from_config_and_constraints (base_config self) (spec_requirements self) permission_profile.

(** ** Rules of the exec policy *)

(** [incoming] is the set of hosts that were seen. *)
Definition upsert_network_domains (n : NetworkProxySettings) (hosts : list str) (allow : bool) : NetworkProxySettings :=
  (fold_left (fun '(incoming, n) host =>
      if one_of host incoming then (incoming, n)
      else (host :: incoming,
            upsert_domain_permission n host (if allow then DomainAllow else DomainDeny) normalize_host))
    hosts ([], n)).2.

Definition apply_exec_policy_network_rules (config : NetworkProxyConfig) (exec_policy : Policy) : NetworkProxyConfig :=
  let '(allowed_domains, denied_domains) := compiled_network_domains exec_policy in
  let n := upsert_network_domains (network config) allowed_domains true in
  mkProxyConfig (upsert_network_domains n denied_domains false).

Definition with_exec_policy_network_rules (self : NetworkProxySpec) (exec_policy : Policy) : result str NetworkProxySpec :=
  let config := apply_exec_policy_network_rules (spec_config self) exec_policy in
  _ ← check_constraints config (spec_constraints self);
  Ok (mkProxySpec (base_config self) (spec_requirements self) config (spec_constraints self)
        (hard_deny_allowlist_misses self)).

(** ** Starting the proxy *)

Definition build_config_state_for_spec (self : NetworkProxySpec) : result str (ConfigState (Mitm := Mitm)) :=
  map_err (fun chain => lit "failed to build network proxy state: " ++ default [] (head chain))
    (build_config_state debug_str mitm_new (spec_config self) (spec_constraints self)).

(** [StaticNetworkProxyReloader] *)
Definition static_maybe_reload (state : ConfigState (Mitm := Mitm)) : anyhow (option (ConfigState (Mitm := Mitm))) := Ok None.
Definition static_reload_now (state : ConfigState (Mitm := Mitm)) : anyhow (ConfigState (Mitm := Mitm)) := Ok state.

(** The part of [start_proxy] before the processes *)
Definition start_proxy {D} (self : NetworkProxySpec) (permission_profile : PermissionProfile) (policy_decider : option D)
    (enable_network_approval_flow : bool) : result str (ConfigState (Mitm := Mitm) * StartedDecider D) :=
  state ← build_config_state_for_spec self;
  Ok (state,
      if enable_network_approval_flow && negb (hard_deny_allowlist_misses self)
      then match policy_decider with
           | Some policy_decider => GivenDecider policy_decider
           | None => if managed_sandbox_active permission_profile then AskingDecider else NoDecider
           end
      else NoDecider).
End Spec.

(** ** What the requirements leave *)

Lemma merge_domain_lists_elem managed user p : p ∈ merge_domain_lists managed user -> p ∈ managed \/ p ∈ user.
Proof.
  unfold merge_domain_lists. revert managed. induction user as [|u user IH]; intros managed; cbn [fold_left]; [by left|].
  intros [H|H]%IH; [|right; by right]. destruct (existsb _ managed); [by left|].
  apply elem_of_app in H as [H| ->%list_elem_of_singleton]; [by left|right; left].
Qed.

Lemma merge_domain_lists_managed managed user p : p ∈ managed -> p ∈ merge_domain_lists managed user.
Proof.
  unfold merge_domain_lists. revert managed. induction user as [|u user IH]; intros managed H; cbn [fold_left]; [done|].
  apply IH. destruct (existsb _ managed); [done|]. apply elem_of_app. by left.
Qed.

(** What the user has added is there, up to the case of letters. *)
Lemma merge_domain_lists_user managed user p : p ∈ user ->
  exists q, q ∈ merge_domain_lists managed user /\ to_ascii_lowercase q = to_ascii_lowercase p.
Proof.
  revert managed. induction user as [|u user IH]; intros managed H; [by apply elem_of_nil in H|].
  apply elem_of_cons in H as [->|H].
  - unfold merge_domain_lists. cbn [fold_left]. destruct (existsb _ managed) eqn:E.
    + apply existsb_exists in E as (q & Hq%list_elem_of_In & Eq%bool_decide_eq_true). exists q. split; [|done].
      by apply merge_domain_lists_managed.
    + exists u. split; [|done]. apply merge_domain_lists_managed, elem_of_app. right. left.
  - by apply IH.
Qed.

Lemma set_allowed_entries n l p :
  (mkDomainEntry p DomainDeny ∈ entries_or_default (set_allowed_domains n l) <-> mkDomainEntry p DomainDeny ∈ entries_or_default n) /\
  (mkDomainEntry p DomainAllow ∈ entries_or_default (set_allowed_domains n l) <-> p ∈ l).
Proof.
  unfold set_allowed_domains. rewrite !set_domain_entries_elem. cbn [de_permission]. split; split.
  - by intros [[? _]|(q & _ & [=])].
  - by left.
  - by intros [[_ []]|(q & ? & [= ->])].
  - intros H. right. by exists p.
Qed.

Lemma set_denied_entries n l p :
  (mkDomainEntry p DomainAllow ∈ entries_or_default (set_denied_domains n l) <-> mkDomainEntry p DomainAllow ∈ entries_or_default n) /\
  (mkDomainEntry p DomainDeny ∈ entries_or_default (set_denied_domains n l) <-> p ∈ l).
Proof.
  unfold set_denied_domains. rewrite !set_domain_entries_elem. cbn [de_permission]. split; split.
  - by intros [[? _]|(q & _ & [=])].
  - by left.
  - by intros [[_ []]|(q & ? & [= ->])].
  - intros H. right. by exists p.
Qed.

Lemma set_allow_sockets_spec n l s : s ∈ ProxyConfig.allow_unix_sockets (set_allow_unix_sockets n l) -> s ∈ l.
Proof.
  unfold set_allow_unix_sockets, set_unix_socket_entries, ProxyConfig.allow_unix_sockets. cbn [unix_sockets set_unix_sockets].
  set (kept := List.filter _ _).
  assert (forall kv, kv ∈ fold_left (fun map entry => tbl_insert entry UnixSocketAllow map) l kept ->
    kv.2 = UnixSocketAllow -> kv.1 ∈ l) as H.
  { assert (forall kv, kv ∈ kept -> kv.2 = UnixSocketAllow -> kv.1 ∈ l) as Hk.
    { intros kv [_ H]%elem_of_filter_list E. rewrite E in H. by rewrite bool_decide_eq_true_2 in H. }
    clearbody kept. assert (forall x : str, x ∈ l -> x ∈ l) as Hl by done. revert Hl Hk. generalize l at 1 4 as todo.
    intros todo. revert kept. induction todo as [|x todo IH]; intros kept Hl Hk; cbn [fold_left]; [done|].
    apply IH; [intros y Hy; apply Hl; by right|]. intros kv [->|Hin]%elem_of_tbl_insert E; [apply Hl; left|by apply Hk]. }
  destruct (is_empty _); [by intros ?%elem_of_nil|]. cbn [sp_entries].
  intros (kv & -> & Hin)%list_elem_of_fmap. apply elem_of_filter_list in Hin as [Hin E%bool_decide_eq_true]. by apply H.
Qed.

(** What is on the lists then; the entries for a pattern that is on both deny. *)
Lemma apply_allowed_entries n managed expansion p :
  (mkDomainEntry p DomainDeny ∈ entries_or_default (apply_allowed n managed expansion) <->
   mkDomainEntry p DomainDeny ∈ entries_or_default n) /\
  (mkDomainEntry p DomainAllow ∈ entries_or_default (apply_allowed n managed expansion) <->
   match managed with
   | Some m => p ∈ (if expansion then merge_domain_lists m (default [] (ProxyConfig.allowed_domains n)) else m)
   | None => mkDomainEntry p DomainAllow ∈ entries_or_default n
   end).
Proof. destruct managed as [m|]; [|done]. apply set_allowed_entries. Qed.

Lemma apply_denied_entries n managed expansion p :
  (mkDomainEntry p DomainAllow ∈ entries_or_default (apply_denied n managed expansion) <->
   mkDomainEntry p DomainAllow ∈ entries_or_default n) /\
  (mkDomainEntry p DomainDeny ∈ entries_or_default (apply_denied n managed expansion) <->
   match managed with
   | Some m => p ∈ (if expansion then merge_domain_lists m (default [] (ProxyConfig.denied_domains n)) else m)
   | None => mkDomainEntry p DomainDeny ∈ entries_or_default n
   end).
Proof. destruct managed as [m|]; [|done]. apply set_denied_entries. Qed.

Section Applied.
Context (config : NetworkProxyConfig) (requirements : NetworkConstraints) (profile : PermissionProfile) (hard : bool).
Notation r := (network_fields requirements).
Notation n' := (network (apply_requirements config requirements profile hard).1).
Notation c' := (apply_requirements config requirements profile hard).2.

(** The entries of the result are those of the last two steps. *)
Lemma applied_entries p q :
  mkDomainEntry p q ∈ entries_or_default n' <->
  mkDomainEntry p q ∈ entries_or_default
    (apply_denied (apply_allowed (apply_scalars (network config) r) (managed_allowed r hard)
       (allowlist_expansion_enabled profile hard)) (managed_denied r) (denylist_expansion_enabled profile)).
Proof. unfold apply_requirements. cbn [fst network]. by destruct (managed_sockets r). Qed.

(** A managed pattern is on its list, or denied. *)
Lemma managed_allowed_applied m p : managed_allowed r hard = Some m -> p ∈ m ->
  p ∈ default [] (ProxyConfig.allowed_domains n') \/ p ∈ default [] (ProxyConfig.denied_domains n').
Proof.
  intros E Hp. destruct (decide (p ∈ default [] (ProxyConfig.denied_domains n'))) as [H|H]; [by right|left].
  rewrite denied_domains_elem in H. apply allowed_domains_elem. split; [|done].
  apply applied_entries, apply_denied_entries, apply_allowed_entries. rewrite E.
  destruct (allowlist_expansion_enabled profile hard); [by apply merge_domain_lists_managed|done].
Qed.

Lemma fixed_allowed_applied m p : managed_allowed r hard = Some m -> allowlist_expansion_enabled profile hard = false ->
  p ∈ default [] (ProxyConfig.allowed_domains n') <-> p ∈ m /\ p ∉ default [] (ProxyConfig.denied_domains n').
Proof.
  intros E Ex. rewrite allowed_domains_elem, denied_domains_elem, (applied_entries p DomainAllow).
  rewrite (proj1 (apply_denied_entries _ _ _ _)), (proj2 (apply_allowed_entries _ _ _ _)), E, Ex. done.
Qed.

Lemma managed_denied_applied m p : managed_denied r = Some m -> p ∈ m -> p ∈ default [] (ProxyConfig.denied_domains n').
Proof.
  intros E Hp. apply denied_domains_elem, applied_entries, apply_denied_entries. rewrite E.
  destruct (denylist_expansion_enabled profile); [by apply merge_domain_lists_managed|done].
Qed.

Lemma fixed_denied_applied m p : managed_denied r = Some m -> denylist_expansion_enabled profile = false ->
  p ∈ default [] (ProxyConfig.denied_domains n') <-> p ∈ m.
Proof. intros E Ex. by rewrite denied_domains_elem, applied_entries, (proj2 (apply_denied_entries _ _ _ _)), E, Ex. Qed.

(** What is asked of the two configurations, where the requirements do not
    settle it *)
Record acceptable : Prop := mkAcceptable {
  ac_denied : no_global (default [] (ProxyConfig.denied_domains n'));
  ac_allowed : forall m, managed_allowed r hard = Some m -> no_global m;
  (** no managed pattern is denied in another spelling only *)
  ac_spelling : forall m p q, managed_allowed r hard = Some m -> allowlist_expansion_enabled profile hard = false ->
    p ∈ m -> p ∉ default [] (ProxyConfig.denied_domains n') -> q ∈ default [] (ProxyConfig.denied_domains n') ->
    to_ascii_lowercase p <> to_ascii_lowercase q;
  ac_sockets : managed_sockets r <> None -> Requirements.nt_dangerously_allow_all_unix_sockets r = None ->
    dangerously_allow_all_unix_sockets (network config) = false;
}.

Lemma applied_scalars :
  enabled n' = default (enabled (network config)) (Requirements.nt_enabled r) /\
  allow_upstream_proxy n' = default (allow_upstream_proxy (network config)) (Requirements.nt_allow_upstream_proxy r) /\
  dangerously_allow_non_loopback_proxy n' = default (dangerously_allow_non_loopback_proxy (network config))
    (Requirements.nt_dangerously_allow_non_loopback_proxy r) /\
  dangerously_allow_all_unix_sockets n' = default (dangerously_allow_all_unix_sockets (network config))
    (Requirements.nt_dangerously_allow_all_unix_sockets r) /\
  allow_local_binding n' = default (allow_local_binding (network config)) (Requirements.nt_allow_local_binding r).
Proof.
  unfold apply_requirements, apply_allowed, apply_denied. cbn [fst network].
  by destruct (managed_allowed r hard), (managed_denied r), (managed_sockets r).
Qed.

Lemma applied_within url_host : within url_host n' c' <-> acceptable.
Proof.
  destruct applied_scalars as (Ee & Eu & El & Es & Eb). split.
  - intros [H1 H2 H3 H4 H5 H6 H7 H8 H9 H10]. split; [done| | |].
    + intros m E. by destruct (H8 m E).
    + intros m p q E Ex Hp Hd Hq Heq. destruct (H8 m E) as [_ Hw].
      change (c_allowlist_expansion_enabled c') with ((fun _ => allowlist_expansion_enabled profile hard) <$> managed_allowed r hard) in Hw.
      rewrite E, Ex in Hw. cbn [fmap option_fmap option_map] in Hw.
      destruct (proj1 (Hw (to_ascii_lowercase p))) as [_ Hn].
      * apply lower_set_elem. by apply (fixed_allowed_applied m).
      * apply Hn. rewrite Heq. by apply lower_set_elem.
    + intros Hs Ha. rewrite Es, Ha in H6. apply H6. by right.
  - intros [H1 H2 H3 H4]. split; [done|..].
    all: try (by (rewrite ?Ee, ?Eu, ?El, ?Eb; cbn; intros ->)).
    all: cbn [apply_requirements snd c_mode c_dangerously_allow_all_unix_sockets c_allow_unix_sockets c_allowed_domains
      c_allowlist_expansion_enabled c_denied_domains c_denylist_expansion_enabled]; try done.
    + rewrite Es. intros [->|[Ha Hs]]; [done|]. rewrite Ha. by apply H4.
    + intros m E. rewrite E. split; [by apply H2|]. cbn [fmap option_fmap option_map].
      destruct (allowlist_expansion_enabled profile hard) eqn:Ex.
      * intros p Hp. destruct (managed_allowed_applied m p E Hp); [left|right]; by apply lower_set_elem.
      * intros x. split.
        -- intros (p & -> & Ha)%list_elem_of_fmap. apply (fixed_allowed_applied m) in Ha as [Hp Hn]; [|done..].
           split; [by apply lower_set_elem|]. intros (q & Hq & Hd)%list_elem_of_fmap. by apply (H3 m p q).
        -- intros [(p & -> & Hp)%list_elem_of_fmap Hn]. apply lower_set_elem, (fixed_allowed_applied m); [done..|].
           split; [done|]. intros Hd. by apply Hn, lower_set_elem.
    + intros m E. rewrite E. split; [intros p Hp; by apply H1, (managed_denied_applied m)|]. cbn [fmap option_fmap option_map].
      destruct (denylist_expansion_enabled profile) eqn:Ex.
      * intros p Hp. by apply lower_set_elem, (managed_denied_applied m).
      * intros x. split; intros (p & -> & Hp)%list_elem_of_fmap; apply lower_set_elem; by apply (fixed_denied_applied m).
    + intros m E s Hs. apply lower_set_elem. unfold apply_requirements in Hs. cbn [fst network] in Hs. rewrite E in Hs.
      by apply set_allow_sockets_spec in Hs.
Qed.
End Applied.

(** ** Which sessions get a proxy *)

Section Accepted.
Context `{GL : Globs} (url_host : str -> option str) (debug : list str -> str).

Lemma check_constraints_Ok config constraints :
  check_constraints url_host debug config constraints = Ok tt <-> within url_host (network config) constraints.
Proof.
  unfold check_constraints. rewrite <- (validate_within url_host debug config constraints).
  by destruct (validate_policy_against_constraints _ _ _ _) as [[]|].
Qed.

Lemma from_config_Ok config requirements profile spec :
  from_config_and_constraints url_host debug config requirements profile = Ok spec ->
  spec_requirements spec = requirements /\ base_config spec = config /\
  within url_host (network (spec_config spec)) (spec_constraints spec) /\
  hard_deny_allowlist_misses spec = match requirements with Some r => managed_allowed_domains_only r | None => false end /\
  (spec_config spec, spec_constraints spec) = match requirements with
    | Some r => apply_requirements config r profile (managed_allowed_domains_only r)
    | None => (config, constraints_default)
    end.
Proof.
  unfold from_config_and_constraints. destruct requirements as [r|].
  - destruct (apply_requirements config r profile _) as [n c].
    destruct (check_constraints url_host debug n c) as [[]|] eqn:E; simpl; [|done]. intros [= <-].
    by apply check_constraints_Ok in E.
  - destruct (check_constraints url_host debug config constraints_default) as [[]|] eqn:E; simpl; [|done]. intros [= <-].
    by apply check_constraints_Ok in E.
Qed.

(** A session gets the settings of its proxy exactly if no denied pattern and
    no managed allowed one is the pattern for all hosts, no managed pattern is
    denied in another spelling only where the allowlist is fixed, and all
    sockets of the host are not opened where requirements list some; then the
    settings are within the constraints that the requirements become. *)
Theorem spec_accepted (config : NetworkProxyConfig) (requirements : option NetworkConstraints) (profile : PermissionProfile) :
  match from_config_and_constraints url_host debug config requirements profile with
  | Ok spec => validate_policy_against_constraints url_host debug (spec_config spec) (spec_constraints spec) = Ok tt
  | Err _ => True
  end /\
  ((exists spec, from_config_and_constraints url_host debug config requirements profile = Ok spec) <->
   match requirements with
   | Some r => acceptable config r profile (managed_allowed_domains_only r)
   | None => no_global (default [] (ProxyConfig.denied_domains (network config)))
   end).
Proof.
  split.
  { destruct (from_config_and_constraints _ _ _ _ _) as [spec|] eqn:E; [|done].
    apply from_config_Ok in E as (_ & _ & Hw & _). by apply validate_within. }
  split.
  - intros [spec (_ & _ & Hw & _ & E)%from_config_Ok]. destruct requirements as [r|].
    + injection E as E1 E2. rewrite E1, E2 in Hw. by apply applied_within in Hw.
    + injection E as E1 E2. rewrite E1, E2 in Hw. apply Hw.
  - intros H. unfold from_config_and_constraints. destruct requirements as [r|].
    + pose proof (applied_within config r profile (managed_allowed_domains_only r) url_host) as Hw.
      destruct (apply_requirements config r profile _) as [n c]. cbn [fst snd] in Hw.
      apply Hw in H. apply check_constraints_Ok in H. rewrite H. by eexists.
    + assert (check_constraints url_host debug config constraints_default = Ok tt) as ->; [|by eexists].
      apply check_constraints_Ok. split; cbn; try done. by intros [?|[_ []]].
Qed.
End Accepted.

(** ** What the rules of the exec policy do *)

Lemma upsert_network_domains_all n hosts allow : NoDup hosts ->
  upsert_network_domains n hosts allow
  = upsert_all n (map (fun host => mkDomainEntry host (if allow then DomainAllow else DomainDeny)) hosts).
Proof.
  intros Hnd. unfold upsert_network_domains. assert (forall h, h ∈ hosts -> h ∉ (@nil str)) as Hi by (intros ? _; apply not_elem_of_nil).
  revert n Hi. generalize (@nil str) as incoming. induction Hnd as [|h hosts Hh Hnd IH]; intros incoming n Hi; [done|].
  cbn [fold_left map]. rewrite (proj2 (one_of_false h incoming)) by (apply Hi; left). rewrite IH; [done|].
  intros x Hx [->|Hin]%elem_of_cons; [done|]. apply (Hi x); [by right|done].
Qed.

Lemma last_for_map host hosts permission : Forall (fun h => normalize_host h = h) hosts -> NoDup hosts ->
  last_for host (map (fun h => mkDomainEntry h permission) hosts)
  = if decide (host ∈ hosts) then Some (mkDomainEntry host permission) else None.
Proof.
  intros Hn Hnd. unfold last_for, entries_for. induction hosts as [|h hosts IH] using rev_ind; [done|].
  apply Forall_app in Hn as [Hn [Hh _]%Forall_cons]. apply NoDup_app in Hnd as (Hnd & Hni & _).
  rewrite map_app, List.filter_app, last_app. cbn [map List.filter de_pattern]. rewrite Hh. case_bool_decide as E.
  - subst h. cbn [last]. rewrite decide_True; [done|]. apply elem_of_app. right. left.
  - cbn [last]. rewrite (IH Hn Hnd). destruct (decide (host ∈ hosts)), (decide (host ∈ hosts ++ [h])) as [H|H]; try done.
    + destruct H. apply elem_of_app. by left.
    + by apply elem_of_app in H as [?| ->%list_elem_of_singleton].
Qed.

Lemma last_decision_host host rules d : last_decision host rules = Some d -> exists r, r ∈ rules /\ nr_host r = host.
Proof.
  unfold last_decision. intros H%last_Some_elem_of. apply list_elem_of_fmap in H as (r & _ & Hr).
  apply elem_of_filter_list in Hr as [Hr [E%bool_decide_eq_true _]%andb_true_iff]. by exists r.
Qed.

(** The rules of the exec policy override the lists of domains host by host: the
    last rule about a host that allows or forbids it is all that the lists say of
    it then, and what they say of other hosts stays. *)
Theorem exec_policy_rules_decide (config : NetworkProxyConfig) (exec_policy : Policy) (host : str) :
  Forall (fun r => normalize_host (nr_host r) = nr_host r) (network_rules exec_policy) ->
  entries_for host (entries_or_default (network (apply_exec_policy_network_rules config exec_policy)))
  = match last_decision host (network_rules exec_policy) with
    | Some ExecPolicy.Allow => [mkDomainEntry host DomainAllow]
    | Some Forbidden => [mkDomainEntry host DomainDeny]
    | _ => entries_for host (entries_or_default (network config))
    end.
Proof.
  intros Hn. unfold apply_exec_policy_network_rules. pose proof (compiled_network_domains_spec exec_policy) as H.
  destruct (compiled_network_domains exec_policy) as [allowed denied]. destruct H as (Hna & Hnd & H). cbn [network].
  assert (forall l, (forall h, h ∈ l -> exists d, last_decision h (network_rules exec_policy) = Some d) ->
    Forall (fun h => normalize_host h = h) l) as Hl.
  { intros l Hd. apply Forall_forall. intros h Hh. destruct (Hd h Hh) as [d Ed].
    apply last_decision_host in Ed as (r & Hr & <-). by apply (proj1 (Forall_forall _ _) Hn). }
  assert (Forall (fun h => normalize_host h = h) allowed) as Ha
    by (apply Hl; intros h Hh; eexists; by apply (proj1 (proj1 (H h)))).
  assert (Forall (fun h => normalize_host h = h) denied) as Hd
    by (apply Hl; intros h Hh; eexists; by apply (proj1 (proj2 (H h)))).
  rewrite !upsert_network_domains_all, !upsert_all_entries, !last_for_map by done.
  destruct (H host) as [HA HD].
  destruct (decide (host ∈ denied)) as [Hin|Hin]; [by rewrite (proj1 HD Hin)|].
  destruct (decide (host ∈ allowed)) as [Hin'|Hin']; [by rewrite (proj1 HA Hin')|].
  destruct (last_decision host (network_rules exec_policy)) as [[]|]; try done; [by destruct Hin'; apply HA|by destruct Hin; apply HD].
Qed.

(** ** What a session cannot change *)

Section Kept.
Context `{GL : Globs} `{HO : Host} {Mitm : Type}.
Context (url_host : str -> option str) (debug : list str -> str) (debug_str : str -> str).
Context (mitm_new : bool -> anyhow Mitm) (lookup_host : str -> N -> option (list IpAddr)).
(** A property of constraints that every state that is brought in has *)
Context (P : NetworkProxyConstraints -> Prop).

Notation ConfigState := (ConfigState (Mitm := Mitm)).
Notation Task := (Task (Mitm := Mitm)).
Notation step_task := (step_task url_host debug debug_str mitm_new lookup_host).
Notation run := (run url_host debug debug_str mitm_new lookup_host).

Definition op_brings (op : Op (Mitm := Mitm)) : Prop :=
  match op with ReplaceState s => P (constraints s) | _ => True end.

Definition brings (t : Task) : Prop :=
  match t with
  | Starting op | Ready op => op_brings op
  | Reloading op s => op_brings op /\ P (constraints s)
  | Updating _ _ _ _ s => P (constraints s)
  | SettingMode _ _ | Forcing | Finished _ _ => True
  end.

Definition reload_brings (reload : anyhow (option ConfigState)) : Prop := forall s, reload = Ok (Some s) -> P (constraints s).

Lemma build_constraints cfg c s : build_config_state debug_str mitm_new cfg c = Ok s -> constraints s = c.
Proof.
  unfold build_config_state. destruct (validate_unix_socket_allowlist_paths _ _ _ _); simpl; [|done].
  destruct (into_anyhow _); simpl; [|done]. destruct (compile_denylist_globset _); simpl; [|done].
  destruct (compile_allowlist_globset _); simpl; [|done].
  destruct (if mitm (network cfg) then _ else _); simpl; [|done]. by intros [= <-].
Qed.

Lemma update_snapshot_brings s target host : P (constraints s) -> brings (update_snapshot url_host debug debug_str mitm_new s target host).
Proof.
  intros HP. unfold update_snapshot. destruct (_ && _); [done|].
  destruct (with_context _ (into_anyhow _) ≫= _) as [ns|] eqn:E; [|done]. apply bind_Ok in E as ([] & _ & Hb).
  apply with_context_Ok, build_constraints in Hb. cbn. by rewrite Hb.
Qed.

Lemma step_task_brings reload s t : reload_brings reload -> P (constraints s) -> brings t ->
  P (constraints (step_task reload s t).1) /\ brings (step_task reload s t).2.
Proof.
  intros Hr Hs Ht. destruct t as [op|op ns|op|target host prev snap ns|m snap| |op o]; cbn [ProxyState.step_task].
  - destruct reload as [[ns|]|]; [|done..]. split; [done|]. split; [done|]. by apply (Hr ns).
  - by destruct Ht.
  - destruct op as [target host|m|entry| |ns|host port]; cbn [fst snd]; try done.
    + split; [done|]. by apply update_snapshot_brings.
    + by destruct (with_context _ _) as [[]|].
  - by destruct (_ || _).
  - by destruct (negb _).
  - destruct reload as [[ns|]|]; [|done..]. split; [|done]. by apply (Hr ns).
  - done.
Qed.

Lemma run_brings schedule st : Forall (fun e => reload_brings e.2) schedule -> P (constraints st.1) -> Forall brings st.2 ->
  P (constraints (run st schedule).1).
Proof.
  intros Hr. revert st. induction Hr as [|e schedule He Hr IH]; intros st Hs Ht; [done|]. cbn [ProxyState.run fold_left].
  apply IH; unfold run_step; destruct (st.2 !! e.1) as [t|] eqn:E; try done;
    destruct (step_task_brings e.2 st.1 t He Hs (proj1 (Forall_lookup _ _) Ht _ _ E)) as [H1 H2];
    destruct (step_task e.2 st.1 t); [done|by apply Forall_insert].
Qed.
End Kept.

Section Session.
Context `{GL : Globs} `{HO : Host} {Mitm : Type}.
Context (url_host : str -> option str) (debug : list str -> str) (debug_str : str -> str).
Context (mitm_new : bool -> anyhow Mitm) (lookup_host : str -> N -> option (list IpAddr)).
(** The requirements of the session, which pin the allowlist *)
Context (requirements : NetworkConstraints) (managed : list str).

(** A state that the session starts the proxy with, or replaces it by: its
    settings, its permission profile and its rules may be any. *)
Definition session_state (s : ConfigState (Mitm := Mitm)) : Prop :=
  exists config profile spec spec',
    from_config_and_constraints url_host debug config (Some requirements) profile = Ok spec /\
    (spec' = spec \/ exists policy, with_exec_policy_network_rules url_host debug spec policy = Ok spec') /\
    build_config_state_for_spec debug_str mitm_new spec' = Ok s.

(** What the session does with it: any operation, and its reloader *)
Definition session_task (t : Task (Mitm := Mitm)) : Prop :=
  t = Forcing \/ exists op, t = Starting op /\ match op with ReplaceState s => session_state s | _ => True end.
Definition session_reload (reload : anyhow (option (ConfigState (Mitm := Mitm)))) : Prop :=
  exists s, session_state s /\ (reload = static_maybe_reload s \/ reload = (s ← static_reload_now s; Ok (Some s))).

Definition pinned (c : NetworkProxyConstraints) : Prop :=
  c_allowed_domains c = Some managed /\ c_allowlist_expansion_enabled c = Some false.

Lemma session_state_ok s : managed_allowed_domains_only requirements = true ->
  default [] (d ← Requirements.nt_domains (network_fields requirements); Requirements.allowed_domains d) = managed ->
  session_state s -> state_ok url_host s /\ pinned (constraints s).
Proof.
  intros Hh Hm (config & profile & spec & spec' & Hf & Hx & Hb).
  apply from_config_Ok in Hf as (_ & _ & Hw & _ & E). rewrite Hh in E. injection E as Ec Ecs.
  assert (within url_host (network (spec_config spec')) (spec_constraints spec') /\
    spec_constraints spec' = spec_constraints spec) as [Hw' Ecs'].
  { destruct Hx as [->|[policy Hp]]; [done|]. revert Hp. unfold with_exec_policy_network_rules.
    destruct (check_constraints _ _ _ _) as [[]|] eqn:Ev; simpl; [|done]. intros [= <-].
    by apply check_constraints_Ok in Ev. }
  unfold build_config_state_for_spec in Hb.
  destruct (build_config_state debug_str mitm_new (spec_config spec') (spec_constraints spec')) as [s'|] eqn:Eb; [|done].
  injection Hb as ->. destruct (build_config_state_ok url_host _ _ _ _ _ Eb Hw') as (Hok & _ & Hc).
  split; [done|]. unfold pinned. rewrite Hc, Ecs', Ecs. unfold apply_requirements. cbn [snd c_allowed_domains c_allowlist_expansion_enabled].
  unfold managed_allowed, allowlist_expansion_enabled. rewrite Hm, andb_false_r. done.
Qed.

(** What is compiled does not depend on the case of letters. *)
Lemma matched_by_lower (l l' : list str) host : (forall x, x ∈ lower_set l -> x ∈ lower_set l') ->
  matched_by l host -> matched_by l' host.
Proof.
  intros Hl (p & g & Hp & Hg & Hm). destruct (proj1 (list_elem_of_fmap _ _ _) (Hl _ (lower_set_elem _ _ Hp))) as (q & E & Hq).
  exists q, g. split; [done|]. split; [|done].
  by rewrite <- (normalize_pattern_lower q), <- E, normalize_pattern_lower.
Qed.

(** C31: where requirements pin the allowlist, nothing that a session does widens
    it: whatever its settings, its sandbox and its rules, and however answers
    of the user, changes of the mode, replaced states and reloads interleave,
    each host that the proxy's allowlist matches is one that the managed
    list matches. *)
Theorem pinned_allowlist_confines (schedule : Schedule (Mitm := Mitm)) (s : ConfigState (Mitm := Mitm))
    (tasks : list (Task (Mitm := Mitm))) (managed_set : GlobSet) (host : str) :
  managed_allowed_domains_only requirements = true ->
  default [] (d ← Requirements.nt_domains (network_fields requirements); Requirements.allowed_domains d) = managed ->
  session_state s -> Forall session_task tasks -> Forall (fun e => session_reload e.2) schedule ->
  compile_allowlist_globset managed = Ok managed_set ->
  is_match (allow_set (run url_host debug debug_str mitm_new lookup_host (s, tasks) schedule).1) host = true ->
  is_match managed_set host = true.
Proof.
  intros Hh Hm Hs Ht Hr Hc. destruct (session_state_ok s Hh Hm Hs) as [Hok Hp].
  assert (forall reload, session_reload reload -> forall s', reload = Ok (Some s') -> session_state s') as Hrel.
  { intros reload (s0 & H0 & [->| ->]) s'; [done|]. by intros [= <-]. }
  assert (Forall (starting url_host) tasks) as Hst.
  { eapply Forall_impl; [exact Ht|]. intros t [->|(op & -> & H)]; [by left|right]. exists op. split; [done|].
    destruct op; try done. by apply session_state_ok. }
  destruct (run_ok url_host debug debug_str mitm_new lookup_host schedule (s, tasks)) as [Hok' _]; [|done|by apply starting_ok|].
  { eapply Forall_impl; [exact Hr|]. intros e He s' E. by apply (session_state_ok s' Hh Hm), (Hrel e.2). }
  assert (pinned (constraints (run url_host debug debug_str mitm_new lookup_host (s, tasks) schedule).1)) as [Ha He].
  { apply run_brings; [|done|].
    - eapply Forall_impl; [exact Hr|]. intros e He s' E. by apply (session_state_ok s' Hh Hm), (Hrel e.2).
    - eapply Forall_impl; [exact Ht|]. intros t [->|(op & -> & H)]; [done|]. destruct op; try done.
      by apply session_state_ok. }
  set (s' := (run _ _ _ _ _ _ _).1) in *. clearbody s'.
  pose proof (w_allowed _ _ _ (so_within _ _ Hok') _ Ha) as [_ Hw]. rewrite He in Hw.
  intros Hmatch. apply (compiled_matched _ _ _ _ Hc). apply (compiled_matched _ _ _ _ (so_allow _ _ Hok')) in Hmatch.
  revert Hmatch. apply matched_by_lower. intros x Hx. by apply Hw in Hx as [? _].
Qed.
End Session.

(** ** Examples *)

Definition requirements_with (domains : list (str * Requirements.NetworkDomainPermissionToml)) (only : option bool) : NetworkConstraints :=
  mkNetworkConstraints (mkNetwork None None None None None None (Some (mkDomains domains)) only None None).

Definition user_settings (allowed denied : list str) : NetworkProxyConfig :=
  mkProxyConfig (set_denied_domains (set_allowed_domains settings_default allowed) denied).

Definition sandboxed : PermissionProfile := Managed ManagedUnrestricted NetRestricted.

Definition spec_of config domains only profile :=
  from_config_and_constraints Some show_list config (Some (requirements_with domains only)) profile.

(** In a sandbox the user may add to the managed allowlist, outside of it not. *)
Example expansion_in_sandbox :
  match spec_of (user_settings [lit "my.dev"] []) [(lit "a.com", Requirements.DomainAllow)] None sandboxed with
  | Ok spec => ProxyConfig.allowed_domains (network (spec_config spec)) = Some [lit "a.com"; lit "my.dev"]
  | Err _ => False
  end /\
  match spec_of (user_settings [lit "my.dev"] []) [(lit "a.com", Requirements.DomainAllow)] None Disabled with
  | Ok spec => ProxyConfig.allowed_domains (network (spec_config spec)) = Some [lit "a.com"]
  | Err _ => False
  end.
Proof. split; vm_compute; reflexivity. Qed.

(** A domain that the user denies in another spelling than the managed list
    has it keeps the session from starting. *)
Example other_spelling_fails :
  match spec_of (user_settings [] [lit "Example.com"]) [(lit "example.com", Requirements.DomainAllow)] (Some true) sandboxed with
  | Ok _ => False | Err _ => True end /\
  match spec_of (user_settings [] [lit "example.com"]) [(lit "example.com", Requirements.DomainAllow)] (Some true) sandboxed with
  | Ok spec => ProxyConfig.denied_domains (network (spec_config spec)) = Some [lit "example.com"]
  | Err _ => False
  end.
Proof. split; vm_compute; reflexivity. Qed.

(** Without a sandbox, what the user denies is forgotten when requirements deny
    anything at all. *)
Example user_denials_dropped :
  match spec_of (user_settings [lit "**.dev"] [lit "evil.dev"]) [(lit "other.org", Requirements.DomainDeny)] None Disabled with
  | Ok spec => ProxyConfig.denied_domains (network (spec_config spec)) = Some [lit "other.org"]
  | Err _ => False
  end.
Proof. vm_compute. reflexivity. Qed.

Section Witnesses.
#[local] Existing Instance wild_globs.
#[local] Existing Instance wild_laws.
#[local] Instance spec_host : Host := HostPaths.plain_host [].

Definition pinned_requirements : NetworkConstraints := requirements_with [(lit "a.com", Requirements.DomainAllow)] (Some true).
Definition pinned_state : ConfigState (Mitm := unit) :=
  match
    spec ← spec_of (user_settings [lit "my.dev"] []) [(lit "a.com", Requirements.DomainAllow)] (Some true) sandboxed;
    build_config_state_for_spec id example_mitm spec
  with
  | Ok s => s
  | Err _ => open_state
  end.

Lemma pinned_state_session : session_state Some show_list id example_mitm pinned_requirements pinned_state.
Proof.
  eexists (user_settings [lit "my.dev"] []), sandboxed, _, _. split; [vm_compute; reflexivity|].
  split; [by left|vm_compute; reflexivity].
Qed.

(** The user approves another host, which changes nothing. *)
Definition approve_evil : list (Task (Mitm := unit)) := [Starting (UpdateDomain KindAllow evil)].

Lemma pinned_allowlist_confines_witness :
  is_match (allow_set (run Some show_list id example_mitm example_lookup (pinned_state, approve_evil) (quiet 3)).1) (lit "a.com") = true /\
  is_match [lit "a.com"] (lit "a.com") = true /\ is_match [lit "a.com"] evil = false.
Proof.
  assert (is_match (allow_set (run Some show_list id example_mitm example_lookup (pinned_state, approve_evil) (quiet 3)).1)
    (lit "a.com") = true) as H by (vm_compute; reflexivity).
  split; [exact H|]. split; [|vm_compute; reflexivity].
  apply (pinned_allowlist_confines Some show_list id example_mitm example_lookup pinned_requirements [lit "a.com"] (quiet 3)
    pinned_state approve_evil [lit "a.com"] (lit "a.com") eq_refl eq_refl pinned_state_session);
    [| |vm_compute; reflexivity|exact H].
  - constructor; [|constructor]. right. eexists. split; [reflexivity|exact I].
  - repeat (constructor; [exists pinned_state; split; [exact pinned_state_session|left; reflexivity]|]). constructor.
Defined.

Definition deny_rule (host : str) : NetworkRule := mkNetworkRule host Https Forbidden None.
Definition rules_policy : Policy := mkPolicy ∅ [mkNetworkRule (lit "a.com") Https ExecPolicy.Allow None; deny_rule (lit "a.com")] ∅.

Lemma exec_policy_rules_decide_witness :
  entries_for (lit "a.com") (entries_or_default (network (apply_exec_policy_network_rules
    (user_settings [lit "A.com"] []) rules_policy)))
  = [mkDomainEntry (lit "a.com") DomainDeny].
Proof.
  apply (exec_policy_rules_decide (user_settings [lit "A.com"] []) rules_policy (lit "a.com")).
  repeat constructor.
Defined.
End Witnesses.
