(* ===== verification/ProxyLoader.v ===== *)
(** * ProxyLoader: the settings of the proxy from the layers

    [core/src/network_proxy_loader.rs], for a proxy that runs on its own: its
    settings are those of the permission profiles that the layers select, its
    constraints those of the layers that the user does not control, and it
    loads them again when a file has changed.  Loading the layers and the exec
    policy, the modification time of a file and serde's reading of the tables
    are parameters; they are asked of a world, which changes between two
    questions. *)

From S2P Require Import Prelude BTree Paths Toml ConfigLayers LayerPolicies ExecPolicy HostPaths Permissions.
From S2P Require Import IpAddr DomainPolicy ProxyConfig ProxyConstraints ProxyState PermissionsToml ProxySpec.
Local Open Scope str_scope.

(** ** The network table of a layer *)

Record NetworkTablesToml : Type := mkTables {
  default_permissions : option str;
  tables_permissions : option PermissionsToml;
}.

Definition selected_network_from_tables (parsed : NetworkTablesToml) : anyhow (option NetworkToml) :=
  match default_permissions parsed with
  | None => Ok None
  | Some default_permissions =>
      match tables_permissions parsed with
      | None => bail (lit "default_permissions requires a `[permissions]` table for network settings")
      | Some permissions =>
          profile ← map_err (fun err => [err]) (resolve_permission_profile permissions default_permissions);
          Ok (profile_network profile)
      end
  end.

Definition apply_network_tables (config : NetworkProxyConfig) (parsed : NetworkTablesToml) : anyhow NetworkProxyConfig :=
  network ← selected_network_from_tables parsed;
  Ok (match network with Some network => apply_to_network_proxy_config network config | None => config end).

(** ** Constraints *)

Definition is_user_controlled_layer (layer : ConfigLayerSource) : bool :=
  match layer with User _ | Project _ | SessionFlags => true | _ => false end.

(** The lists of domains, as the settings of an empty configuration *)
Definition overlay_domain_constraints (constraints : NetworkProxyConstraints) (domains : NetworkDomainPermissionsToml)
    : option (list str) * option (list str) :=
  let n := settings_default in
  let n := match c_allowed_domains constraints with Some l => set_allowed_domains n l | None => n end in
  let n := match c_denied_domains constraints with Some l => set_denied_domains n l | None => n end in
  let n := overlay_network_domain_permissions n domains in
  (allowed_domains n, denied_domains n).

Definition or_else {A} (o o' : option A) : option A := match o with Some _ => o | None => o' end.

Definition apply_network_constraints (network : NetworkToml) (c : NetworkProxyConstraints) : NetworkProxyConstraints :=
  let '(allowed, denied) :=
    match nt_domains network with
    | Some domains => overlay_domain_constraints c domains
    | None => (c_allowed_domains c, c_denied_domains c)
    end in
  mkConstraints
    (or_else (nt_enabled network) (c_enabled c))
    (or_else (nt_mode network) (c_mode c))
    (or_else (nt_allow_upstream_proxy network) (c_allow_upstream_proxy c))
    (or_else (nt_dangerously_allow_non_loopback_proxy network) (c_dangerously_allow_non_loopback_proxy c))
    (or_else (nt_dangerously_allow_all_unix_sockets network) (c_dangerously_allow_all_unix_sockets c))
    allowed (c_allowlist_expansion_enabled c) denied (c_denylist_expansion_enabled c)
    (or_else (toml_allow_unix_sockets <$> nt_unix_sockets network) (c_allow_unix_sockets c))
    (or_else (nt_allow_local_binding network) (c_allow_local_binding c)).

(** ** Rules of the exec policy *)

Definition upsert_network_domain (config : NetworkProxyConfig) (host : str) (permission : NetworkDomainPermission)
    : NetworkProxyConfig :=
  mkProxyConfig (upsert_domain_permission (network config) host permission normalize_host).

Definition loader_apply_rules (config : NetworkProxyConfig) (exec_policy : Policy) : NetworkProxyConfig :=
  let '(allowed_domains, denied_domains) := compiled_network_domains exec_policy in
  let config := fold_left (fun config host => upsert_network_domain config host DomainAllow) allowed_domains config in
  fold_left (fun config host => upsert_network_domain config host DomainDeny) denied_domains config.

Section Loader.
Context `{GL : Globs} `{HO : Host} {Mitm : Type}.
Context (url_host : str -> option str) (debug : list str -> str) (debug_str : str -> str).
Context (mitm_new : bool -> anyhow Mitm).
Context {Requirements RequirementsToml IoError StarlarkError : Type}.
Notation Stack := (@ConfigLayerStack Requirements RequirementsToml).
(** serde's reading of the tables *)
Context (network_tables_from_toml : TomlValue -> anyhow NetworkTablesToml).

(** A loop over the enabled layers that stops at the first error *)
Fixpoint over_layers {A} (f : A -> ConfigLayerEntry -> anyhow A) (a : A) (layers : list ConfigLayerEntry) : anyhow A :=
  match layers with [] => Ok a | layer :: layers => a ← f a layer; over_layers f a layers end.

Definition network_constraints_from_trusted_layers (layers : Stack) : anyhow NetworkProxyConstraints :=
  over_layers (fun constraints layer =>
      if is_user_controlled_layer (le_name layer) then Ok constraints
      else
        parsed ← network_tables_from_toml (le_config layer);
        network ← selected_network_from_tables parsed;
        Ok (match network with Some network => apply_network_constraints network constraints | None => constraints end))
    constraints_default (get_layers layers LowestPrecedenceFirst false).

Definition enforce_trusted_constraints (layers : Stack) (config : NetworkProxyConfig) : anyhow NetworkProxyConstraints :=
  constraints ← network_constraints_from_trusted_layers layers;
  _ ← with_context (lit "network proxy constraints")
        (into_anyhow (validate_policy_against_constraints url_host debug config constraints));
  Ok constraints.

Definition config_from_layers (layers : Stack) (exec_policy : Policy) : anyhow NetworkProxyConfig :=
  config ← over_layers (fun config layer =>
      parsed ← network_tables_from_toml (le_config layer);
      apply_network_tables config parsed)
    (mkProxyConfig settings_default) (get_layers layers LowestPrecedenceFirst false);
  Ok (loader_apply_rules config exec_policy).

(** ** Files and their times *)

Record LayerMtime : Type := mkMtime { mtime_path : str; mtime : option Z }.

Definition layer_file (layer : ConfigLayerEntry) : option str :=
  match le_name layer with
  | System file | User file | LegacyManagedConfigTomlFromFile file => Some file
  | Project dot_codex_folder => Some (join_abs dot_codex_folder CONFIG_TOML_FILE)
  | _ => None
  end.

(** [modified] is the time of a file, if its metadata can be read. *)
Definition collect_layer_mtimes (modified : str -> option Z) (stack : Stack) : list LayerMtime :=
  map (fun path => mkMtime path (modified path)) (omap layer_file (get_layers stack LowestPrecedenceFirst false)).

Definition changed (modified : str -> option Z) (layer : LayerMtime) : bool :=
  match modified (mtime_path layer), mtime layer with
  | Some new_mtime, Some old_mtime => Z.ltb old_mtime new_mtime
  | Some _, None => true
  | None, Some _ => true
  | None, None => false
  end.

Definition needs_reload (modified : str -> option Z) (layer_mtimes : list LayerMtime) : bool :=
  existsb (changed modified) layer_mtimes.

(** *** Building, in a world that changes *)

Context {World : Type} (modified_in : World -> str -> option Z).
Context (find_codex_home : World -> anyhow str) (load_config_layers_state : World -> str -> anyhow Stack).
Context (load_exec_policy : World -> Stack -> result (ExecPolicyError IoError StarlarkError) Policy).
(** [anyhow::Error] from an [ExecPolicyError] *)
Context (policy_error_chain : ExecPolicyError IoError StarlarkError -> list str).

Notation ConfigState := (ConfigState (Mitm := Mitm)).

(** [w] is the world that the layers and the policy are read in, [w'] the one
    when the files' times are. *)
Definition build_config_state_with_mtimes (w w' : World) : anyhow (ConfigState * list LayerMtime) :=
  codex_home ← with_context (lit "failed to resolve CODEX_HOME") (find_codex_home w);
  config_layer_stack ← with_context (lit "failed to load Codex config") (load_config_layers_state w codex_home);
  exec_policy ←
    match load_exec_policy w config_layer_stack with
    | Ok policy => Ok policy
    | Err (ParsePolicy _ _) => Ok policy_empty
    | Err err => Err (policy_error_chain err)
    end;
  config ← config_from_layers config_layer_stack exec_policy;
  constraints ← enforce_trusted_constraints config_layer_stack config;
  let layer_mtimes := collect_layer_mtimes (modified_in w') config_layer_stack in
  state ← build_config_state debug_str mitm_new config constraints;
  Ok (state, layer_mtimes).

(** [MtimeConfigReloader]: its state is [layer_mtimes]. *)
Definition reload_now (w w' : World) (layer_mtimes : list LayerMtime) : anyhow ConfigState * list LayerMtime :=
  match build_config_state_with_mtimes w w' with
  | Ok (state, layer_mtimes) => (Ok state, layer_mtimes)
  | Err err => (Err err, layer_mtimes)
  end.

Definition maybe_reload (w0 w w' : World) (layer_mtimes : list LayerMtime)
    : anyhow (option ConfigState) * list LayerMtime :=
  if negb (needs_reload (modified_in w0) layer_mtimes) then (Ok None, layer_mtimes)
  else
    match build_config_state_with_mtimes w w' with
    | Ok (state, layer_mtimes) => (Ok (Some state), layer_mtimes)
    | Err err => (Err err, layer_mtimes)
    end.

End Loader.

(** ** Several tables, lowest first *)

(** The value of the highest table that has one *)
Definition highest {A} (f : NetworkToml -> option A) (networks : list NetworkToml) (d : A) : A := default d (last (omap f networks)).

Definition apply_all (config : NetworkProxyConfig) (networks : list NetworkToml) : NetworkProxyConfig :=
  fold_left (fun config network => apply_to_network_proxy_config network config) networks config.

Lemma apply_all_field {A} (field : NetworkProxySettings -> A) (f : NetworkToml -> option A) config networks :
  (forall n u d, field (set_unix_sockets (set_domains n d) u) = field n) ->
  (forall t n, field (overlay_scalars t n) = default (field n) (f t)) ->
  field (network (apply_all config networks)) = highest f networks (field (network config)).
Proof.
  intros Hset Hov. unfold highest, apply_all. induction networks as [|t networks IH] using rev_ind; [done|].
  rewrite fold_left_app, omap_app. cbn [fold_left]. set (c := fold_left _ networks config) in *.
  destruct (applied_settings t c) as [u ->].
  rewrite upsert_all_set_domains, Hset, Hov, IH. cbn [omap list_omap]. destruct (f t); cbn [app]; [by rewrite last_snoc|].
  by rewrite app_nil_r.
Qed.

Lemma apply_all_entries config networks host :
  entries_for host (entries_or_default (network (apply_all config networks)))
  = match last_for host (networks ≫= domain_overlay) with
    | Some e => [e]
    | None => entries_for host (entries_or_default (network config))
    end.
Proof.
  unfold apply_all. induction networks as [|t networks IH] using rev_ind; [done|].
  rewrite fold_left_app, bind_app, last_for_app. cbn [fold_left]. set (c := fold_left _ networks config) in *.
  destruct (applied_settings t c) as [u ->].
  change (entries_or_default (set_unix_sockets ?n u)) with (entries_or_default n). rewrite upsert_all_entries.
  change (entries_or_default (overlay_scalars t (network c))) with (entries_or_default (network c)). rewrite IH.
  cbn [mbind list_bind]. rewrite app_nil_r. by destruct (last_for host (domain_overlay t)).
Qed.

(** The rules are those of [ProxySpec]: the lists have no duplicates. *)
Lemma loader_rules config policy : loader_apply_rules config policy = apply_exec_policy_network_rules config policy.
Proof.
  unfold loader_apply_rules, apply_exec_policy_network_rules. pose proof (compiled_network_domains_spec policy) as H.
  destruct (compiled_network_domains policy) as [allowed denied]. destruct H as (Ha & Hd & _).
  rewrite !upsert_network_domains_all by done.
  assert (forall l c p, fold_left (fun config host => upsert_network_domain config host p) l c
    = mkProxyConfig (upsert_all (network c) (map (fun h => mkDomainEntry h p) l))) as H.
  { intros l. induction l as [|h l IH]; intros c p; [by destruct c|]. cbn [fold_left]. by rewrite IH. }
  by rewrite !H.
Qed.

Lemma rules_settings config policy : exists d,
  network (apply_exec_policy_network_rules config policy) = set_domains (network config) d.
Proof.
  unfold apply_exec_policy_network_rules. pose proof (compiled_network_domains_spec policy) as H.
  destruct (compiled_network_domains policy) as [allowed denied]. destruct H as (Ha & Hd & _).
  rewrite !upsert_network_domains_all by done. cbn [network]. rewrite <- upsert_all_app. eexists. apply upsert_all_set_domains.
Qed.

Section Theorems.
Context `{GL : Globs} `{HO : Host} {Mitm : Type}.
Context (url_host : str -> option str) (debug : list str -> str) (debug_str : str -> str).
Context (mitm_new : bool -> anyhow Mitm).
Context {Requirements RequirementsToml IoError StarlarkError : Type}.
Notation Stack := (@ConfigLayerStack Requirements RequirementsToml).
Context (network_tables_from_toml : TomlValue -> anyhow NetworkTablesToml).

(** The tables that the enabled layers select, lowest first *)
Definition selected (layer : ConfigLayerEntry) : anyhow (option NetworkToml) :=
  parsed ← network_tables_from_toml (le_config layer); selected_network_from_tables parsed.

Lemma over_layers_Ok {A} (f : A -> ConfigLayerEntry -> anyhow A) (g : A -> NetworkToml -> A) (take : ConfigLayerEntry -> bool) l a b :
  (forall a layer, f a layer = if take layer
     then network ← selected layer; Ok (match network with Some network => g a network | None => a end) else Ok a) ->
  over_layers f a l = Ok b <->
  exists networks, Forall2 (fun layer network => selected layer = Ok network) (List.filter take l) networks /\
    b = fold_left g (omap id networks) a.
Proof.
  intros Hf. revert a. induction l as [|layer l IH]; intros a; cbn [over_layers List.filter].
  - split; [intros [= <-]; by exists []|]. intros (ns & Hn & ->). by inversion Hn.
  - rewrite Hf. destruct (take layer); [|cbn [mbind result_bind]; apply IH].
    destruct (selected layer) as [network|e] eqn:E; cbn [mbind result_bind].
    + rewrite IH. split.
      * intros (ns & Hn & ->). exists (network :: ns). split; [by constructor|]. by destruct network.
      * intros (ns & Hn & ->). inversion Hn as [|? n ? ns' En Hn']; subst. rewrite E in En. injection En as ->.
        exists ns'. split; [done|]. by destruct n.
    + split; [done|]. intros (ns & Hn & _). inversion Hn; congruence.
Qed.

Lemma config_from_layers_Ok (layers : Stack) policy config :
  config_from_layers network_tables_from_toml layers policy = Ok config <->
  exists networks, Forall2 (fun layer network => selected layer = Ok network) (get_layers layers LowestPrecedenceFirst false) networks /\
    config = loader_apply_rules (apply_all (mkProxyConfig settings_default) (omap id networks)) policy.
Proof.
  unfold config_from_layers. set (f := fun _ _ => _).
  pose proof (fun l a b => over_layers_Ok f (fun c n => apply_to_network_proxy_config n c) (fun _ => true) l a b) as H.
  assert (forall a layer, f a layer = network ← selected layer; Ok (match network with
    Some network => apply_to_network_proxy_config network a | None => a end)) as Hf
    by (intros c layer; unfold f, apply_network_tables, selected; by destruct (network_tables_from_toml _)).
  specialize (fun l a b => H l a b Hf).
  rewrite bind_Ok. setoid_rewrite H. rewrite filter_true_all. split.
  - intros (c & (ns & Hn & ->) & [= <-]). by exists ns.
  - intros (ns & Hn & ->). eexists. split; [by exists ns|done].
Qed.



(** Each setting of the proxy is that of the highest enabled layer whose selected
    profile has it; what the lists of domains say of a host is what the last rule
    of the exec policy says, or without one the last entry for it in the highest
    layer that has one, in whatever spelling. *)
Theorem layered_settings_spec (layers : Stack) (policy : Policy) (config : NetworkProxyConfig) :
  config_from_layers network_tables_from_toml layers policy = Ok config ->
  Forall (fun r => normalize_host (nr_host r) = nr_host r) (network_rules policy) ->
  exists selections, Forall2 (fun layer network => selected layer = Ok network) (get_layers layers LowestPrecedenceFirst false) selections /\
    let networks := omap id selections in
    let n := network config in
    enabled n = highest nt_enabled networks false /\ mode n = highest nt_mode networks Full /\
    proxy_url n = highest nt_proxy_url networks default_proxy_url /\ socks_url n = highest nt_socks_url networks default_socks_url /\
    allow_upstream_proxy n = highest nt_allow_upstream_proxy networks true /\
    allow_local_binding n = highest nt_allow_local_binding networks false /\
    dangerously_allow_non_loopback_proxy n = highest nt_dangerously_allow_non_loopback_proxy networks false /\
    forall host, entries_for host (entries_or_default n) =
      match last_decision host (network_rules policy) with
      | Some ExecPolicy.Allow => [mkDomainEntry host DomainAllow]
      | Some Forbidden => [mkDomainEntry host DomainDeny]
      | _ => match last_for host (networks ≫= domain_overlay) with Some e => [e] | None => [] end
      end.
Proof.
  intros (selections & Hs & ->)%config_from_layers_Ok Hr. exists selections. split; [done|]. cbv zeta.
  rewrite loader_rules. set (c := apply_all _ _). destruct (rules_settings c policy) as [d Ed].
  split_and!.
  1-7: match goal with |- ?f (network _) = highest ?g _ _ =>
    rewrite Ed; by apply (apply_all_field f g (mkProxyConfig settings_default)) end.
  intros host. rewrite exec_policy_rules_decide by done. unfold c. by rewrite apply_all_entries.
Qed.

(** *** Constraints *)

(** Layers that the device or the administrator writes *)
Definition managed_source (name : ConfigLayerSource) : bool :=
  match name with
  | Mdm _ _ | System _ | LegacyManagedConfigTomlFromFile _ | LegacyManagedConfigTomlFromMdm => true
  | User _ | Project _ | SessionFlags => false
  end.

Definition trusted (layers : Stack) : list ConfigLayerEntry :=
  List.filter (fun layer => managed_source (le_name layer)) (get_layers layers LowestPrecedenceFirst false).

Lemma user_controlled_spec name : is_user_controlled_layer name = negb (managed_source name).
Proof. by destruct name. Qed.

Lemma trusted_constraints_Ok (layers : Stack) c :
  network_constraints_from_trusted_layers network_tables_from_toml layers = Ok c <->
  exists networks, Forall2 (fun layer network => selected layer = Ok network) (trusted layers) networks /\
    c = fold_left (fun c n => apply_network_constraints n c) (omap id networks) constraints_default.
Proof.
  apply (over_layers_Ok _ (fun c n => apply_network_constraints n c)). intros a layer. unfold selected.
  rewrite user_controlled_spec. destruct (managed_source (le_name layer)); [|done]. cbn [negb]. by destruct (network_tables_from_toml (le_config layer)).
Qed.

(** The lists that the constraints keep are those of the last entries. *)
Definition lists_of (l : list NetworkDomainPermissionEntry) (c : NetworkProxyConstraints) : Prop :=
  forall p, (p ∈ default [] (c_allowed_domains c) <-> last_for (normalize_host p) l = Some (mkDomainEntry p DomainAllow)) /\
            (p ∈ default [] (c_denied_domains c) <-> last_for (normalize_host p) l = Some (mkDomainEntry p DomainDeny)).

Lemma constraint_entries c p q :
  let n := match c_allowed_domains c with Some l => set_allowed_domains settings_default l | None => settings_default end in
  let n := match c_denied_domains c with Some l => set_denied_domains n l | None => n end in
  mkDomainEntry p q ∈ entries_or_default n <->
  (q = DomainAllow /\ p ∈ default [] (c_allowed_domains c)) \/ (q = DomainDeny /\ p ∈ default [] (c_denied_domains c)).
Proof.
  cbv zeta. set (n := match c_allowed_domains c with Some _ => _ | None => _ end).
  assert (mkDomainEntry p q ∈ entries_or_default n <-> q = DomainAllow /\ p ∈ default [] (c_allowed_domains c)) as Hn.
  { subst n. destruct (c_allowed_domains c) as [l|]; cbn [default].
    - unfold set_allowed_domains. rewrite set_domain_entries_elem. cbn. rewrite elem_of_nil. split.
      + intros [[[] _]|(x & Hx & [= -> ->])]. done.
      + intros [-> H]. right. by exists p.
    - cbn. rewrite !elem_of_nil. tauto. }
  destruct (c_denied_domains c) as [l|]; cbn [default].
  - unfold set_denied_domains. rewrite set_domain_entries_elem. cbn [de_permission]. rewrite Hn. split.
    + intros [[H _]|(x & Hx & [= -> ->])]; [by left|by right].
    + intros [[-> H]|[-> H]]; [by left|]. right. by exists p.
  - rewrite Hn, elem_of_nil. tauto.
Qed.

Lemma overlay_lists_of c l domains : lists_of l c ->
  let '(allowed, denied) := overlay_domain_constraints c domains in
  forall p, (p ∈ default [] allowed <-> last_for (normalize_host p) (l ++ map overlay_entry (dt_entries domains)) = Some (mkDomainEntry p DomainAllow)) /\
            (p ∈ default [] denied <-> last_for (normalize_host p) (l ++ map overlay_entry (dt_entries domains)) = Some (mkDomainEntry p DomainDeny)).
Proof.
  intros Hl. unfold overlay_domain_constraints. rewrite overlay_upsert_all. intros p.
  set (k := map overlay_entry (dt_entries domains)). set (n := match c_denied_domains c with Some _ => _ | None => _ end).
  assert (forall q, q <> DomainNone -> mkDomainEntry p q ∈ entries_or_default (upsert_all n k) <->
    last_for (normalize_host p) (l ++ k) = Some (mkDomainEntry p q)) as H.
  { intros q Hq. rewrite upsert_all_elem, last_for_app. cbn [de_pattern]. unfold n. rewrite constraint_entries.
    destruct (Hl p) as [Ha Hd]. rewrite Ha, Hd.
    destruct (last_for (normalize_host p) k) as [e|].
    - split; [by intros [?|[? _]]|]. intros ?. by left.
    - split; [intros [?|[_ [[-> ?]|[-> ?]]]]; done|]. intros E. right. split; [done|]. destruct q; [done|left|right]; done. }
  rewrite allowed_domains_elem, denied_domains_elem, !H by done. split; [|done].
  split; [by intros [? _]|]. intros E. rewrite E. split; [done|]. by intros [=].
Qed.

Lemma constraints_lists networks :
  lists_of (networks ≫= domain_overlay) (fold_left (fun c n => apply_network_constraints n c) networks constraints_default).
Proof.
  induction networks as [|t networks IH] using rev_ind.
  - intros p. cbn. rewrite !elem_of_nil. done.
  - rewrite fold_left_app, bind_app. cbn [fold_left]. set (c := fold_left _ networks _) in *.
    cbn [mbind list_bind]. rewrite app_nil_r. unfold apply_network_constraints, domain_overlay at 2.
    destruct (nt_domains t) as [d|].
    + pose proof (overlay_lists_of c _ d IH) as H. destruct (overlay_domain_constraints c d) as [allowed denied]. exact H.
    + rewrite app_nil_r. exact IH.
Qed.

(** The constraints on a proxy that runs on its own are those of the layers that
    the user does not control, whatever the others say: the lists of domains
    have the patterns that the last of these layers that speaks of their host
    allows or denies; and the state that is built is within them. *)
Theorem trusted_layers_bind (layers : Stack) (config : NetworkProxyConfig) (constraints : NetworkProxyConstraints)
    (state : ConfigState (Mitm := Mitm)) :
  enforce_trusted_constraints url_host debug network_tables_from_toml layers config = Ok constraints ->
  build_config_state debug_str mitm_new config constraints = Ok state ->
  state_ok url_host state /\ ProxyState.constraints state = constraints /\
  (forall layers' : Stack, trusted layers' = trusted layers ->
     network_constraints_from_trusted_layers network_tables_from_toml layers' = Ok constraints) /\
  exists selections, Forall2 (fun layer network => selected layer = Ok network) (trusted layers) selections /\
    forall p, let said := last_for (normalize_host p) (omap id selections ≫= domain_overlay) in
      (p ∈ default [] (c_allowed_domains constraints) <-> said = Some (mkDomainEntry p DomainAllow)) /\
      (p ∈ default [] (c_denied_domains constraints) <-> said = Some (mkDomainEntry p DomainDeny)).
Proof.
  unfold enforce_trusted_constraints. intros (c & Hc & H)%bind_Ok Hb. cbn beta in H.
  apply bind_Ok in H as ([] & Hv & [= ->]). apply with_context_Ok, into_anyhow_Ok, validate_within in Hv.
  destruct (build_config_state_ok url_host _ _ _ _ _ Hb Hv) as (Hok & _ & Hcs). split; [done|]. split; [done|].
  pose proof (proj1 (trusted_constraints_Ok _ _) Hc) as (ns & Hn & E). split.
  - intros layers' El. apply trusted_constraints_Ok. rewrite El. by exists ns.
  - exists ns. split; [done|]. intros p. cbv zeta. rewrite E. apply constraints_lists.
Qed.

(** *** Reloading *)

Section Reload.
Context {World : Type} (modified_in : World -> str -> option Z) (find_codex_home : World -> anyhow str).
Context (load_layers : World -> str -> anyhow Stack).
Context (load_policy : World -> Stack -> result (ExecPolicyError IoError StarlarkError) Policy).
Context (chain : ExecPolicyError IoError StarlarkError -> list str).
Notation build := (build_config_state_with_mtimes url_host debug debug_str mitm_new network_tables_from_toml modified_in
  find_codex_home load_layers load_policy chain).
Notation maybe_reload := (maybe_reload url_host debug debug_str mitm_new network_tables_from_toml modified_in
  find_codex_home load_layers load_policy chain).

Lemma build_mtimes w w' state times : build w w' = Ok (state, times) ->
  exists stack : Stack, times = collect_layer_mtimes (modified_in w') stack.
Proof.
  unfold build_config_state_with_mtimes. intros (home & _ & H)%bind_Ok. apply bind_Ok in H as (stack & _ & H).
  apply bind_Ok in H as (policy & _ & H). apply bind_Ok in H as (config & _ & H). apply bind_Ok in H as (c & _ & H).
  apply bind_Ok in H as (s & _ & [= _ <-]). by exists stack.
Qed.

(** Once loaded, a state is kept until the time of a file differs. *)
Lemma reload_settles w w' w0 v v' state times : build w w' = Ok (state, times) ->
  (forall path, modified_in w0 path = modified_in w' path) -> maybe_reload w0 v v' times = (Ok None, times).
Proof.
  intros (stack & ->)%build_mtimes Hm. unfold ProxyLoader.maybe_reload, needs_reload.
  assert (existsb (changed (modified_in w0)) (collect_layer_mtimes (modified_in w') stack) = false) as ->; [|done].
  apply not_true_iff_false. intros (l & Hl & Hc)%existsb_exists. apply in_map_iff in Hl as (path & <- & _).
  unfold changed in Hc. cbn [mtime_path mtime] in Hc. rewrite Hm in Hc. destruct (modified_in w' path); [|done].
  apply Z.ltb_lt in Hc. lia.
Qed.

(** What could not be loaded is tried again. *)
Lemma failed_reload_repeats w w' w0 times e : needs_reload (modified_in w0) times = true -> build w w' = Err e ->
  maybe_reload w0 w w' times = (Err e, times).
Proof. intros Hn Hb. unfold ProxyLoader.maybe_reload. by rewrite Hn, Hb. Qed.
End Reload.
End Theorems.

(** ** Examples *)

Section Examples.
#[local] Existing Instance wild_globs.
#[local] Existing Instance wild_laws.
#[local] Instance loader_host : Host := HostPaths.plain_host [].

Definition network_table (enabled : option bool) (domains : list (str * NetworkDomainPermissionToml)) : NetworkToml :=
  mkNetworkToml enabled None None None None None None None None (Some (mkDomainsToml domains)) None None.

(** A reader of tables: a layer whose configuration is a number has that table. *)
Definition example_tables (tables : list NetworkToml) (value : TomlValue) : anyhow NetworkTablesToml :=
  match value with
  | TInteger i =>
      match tables !! Z.to_nat i with
      | Some t => Ok (mkTables (Some (lit "net")) (Some [(lit "net", mkProfileToml None (Some t))]))
      | None => Ok (mkTables None None)
      end
  | _ => Ok (mkTables None None)
  end.

Definition layer_at (name : ConfigLayerSource) (i : Z) : ConfigLayerEntry := ConfigLayers.mkEntry name (TInteger i) None [] None.
Definition stack_of (layers : list ConfigLayerEntry) : @ConfigLayerStack unit unit := mkStack layers None tt tt false.

(** A managed device allows one domain, the system denies it: nothing is left of
    the managed allowlist, and the user may open every host. *)
Definition tables : list NetworkToml :=
  [network_table None [(lit "a.com", TomlAllow)]; network_table None [(lit "a.com", TomlDeny)];
   network_table (Some true) [(lit "*", TomlAllow)]].
Definition managed_layers : list ConfigLayerEntry := [layer_at (Mdm [] []) 0; layer_at (System (lit "/etc/codex/config.toml")) 1].
Definition user_layer : ConfigLayerEntry := layer_at (User (lit "/home/u/.codex/config.toml")) 2.

Definition example_constraints (layers : list ConfigLayerEntry) :=
  config ← config_from_layers (example_tables tables) (stack_of layers) policy_empty;
  enforce_trusted_constraints Some show_list (example_tables tables) (stack_of layers) config.

Example last_denial_lifts_allowlist :
  (match example_constraints [layer_at (Mdm [] []) 0; user_layer] with Ok _ => False | Err _ => True end) /\
  match example_constraints (managed_layers ++ [user_layer]) with
  | Ok c => c_allowed_domains c = None /\ c_denied_domains c = Some [lit "a.com"]
  | Err _ => False
  end.
Proof. split; vm_compute; [exact I|split; reflexivity]. Qed.

(** A file that is replaced by an older one is not read again. *)
Example older_file_not_noticed :
  needs_reload (fun _ => Some 5%Z) [mkMtime (lit "/etc/codex/config.toml") (Some 7%Z)] = false.
Proof. reflexivity. Qed.

Lemma layered_settings_spec_witness :
  match config_from_layers (example_tables tables) (stack_of (managed_layers ++ [user_layer])) policy_empty with
  | Ok config => entries_for (lit "a.com") (entries_or_default (network config)) = [mkDomainEntry (lit "a.com") DomainDeny] /\
                 enabled (network config) = true
  | Err _ => False
  end.
Proof.
  destruct (config_from_layers (example_tables tables) (stack_of (managed_layers ++ [user_layer])) policy_empty) as [config|e] eqn:E;
    [|vm_compute in E; discriminate E].
  destruct (layered_settings_spec (example_tables tables) (stack_of (managed_layers ++ [user_layer])) policy_empty config E
    ltac:(constructor)) as (selections & Hs & H).
  assert (selections = [Some (network_table None [(lit "a.com", TomlAllow)]); Some (network_table None [(lit "a.com", TomlDeny)]);
    Some (network_table (Some true) [(lit "*", TomlAllow)])]) as ->.
  { vm_compute in Hs. inversion Hs as [|? ? ? ? E1 Hs1]; subst. inversion Hs1 as [|? ? ? ? E2 Hs2]; subst.
    inversion Hs2 as [|? ? ? ? E3 Hs3]; subst. inversion Hs3; subst. injection E1 as <-. injection E2 as <-. injection E3 as <-. reflexivity. }
  destruct H as (He & _ & _ & _ & _ & _ & _ & H). split; [rewrite (H (lit "a.com")); vm_compute; reflexivity|rewrite He; reflexivity].
Defined.

Lemma trusted_layers_bind_witness :
  match example_constraints managed_layers with
  | Ok c => lit "a.com" ∈ default [] (c_denied_domains c)
  | Err _ => False
  end.
Proof.
  destruct (config_from_layers (example_tables tables) (stack_of managed_layers) policy_empty) as [config|e] eqn:E;
    [|vm_compute in E; discriminate E].
  unfold example_constraints. rewrite E. cbn [mbind result_bind].
  destruct (enforce_trusted_constraints Some show_list (example_tables tables) (stack_of managed_layers) config) as [c|e] eqn:Ec;
    [|vm_compute in E; injection E as <-; vm_compute in Ec; discriminate Ec].
  destruct (build_config_state id example_mitm config c) as [state|e] eqn:Eb;
    [|vm_compute in E; injection E as <-; vm_compute in Ec; injection Ec as <-; vm_compute in Eb; discriminate Eb].
  destruct (trusted_layers_bind Some show_list id example_mitm (example_tables tables) (stack_of managed_layers) config c state Ec Eb)
    as (_ & _ & _ & selections & Hs & H).
  apply (H (lit "a.com")).
  vm_compute in Hs. inversion Hs as [|? ? ? ? E1 Hs1]; subst. inversion Hs1 as [|? ? ? ? E2 Hs2]; subst. inversion Hs2; subst.
  injection E1 as <-. injection E2 as <-. vm_compute. reflexivity.
Defined.
End Examples.
