(* ===== verification/NetworkApproval.v ===== *)
(** * NetworkApproval: asking the user about hosts

    [core/src/tools/network_approval.rs], the decider that a session gives its
    proxy, with [core/src/network_policy_decision.rs] and the part of
    [core/src/session/mod.rs] that makes an answer permanent.  The service has
    five locks: a request is a task whose steps are the sections under one of
    them, and tasks interleave.  What the session, its hooks, the user or the
    guardian answer are inputs of the steps. *)

From S2P Require Import Prelude Decimal DomainPolicy ExecPolicy Permissions PatchSafety.
From S2P Require Import ProxyConfig ProxyConstraints ProxyState NetworkPolicy.
Local Open Scope str_scope.

(** ** Decisions of the policy, for the user *)

Inductive NetworkApprovalProtocol : Type := ApprovalHttp | ApprovalHttps | ApprovalSocks5Tcp | ApprovalSocks5Udp.

Record NetworkApprovalContext : Type := mkApprovalContext { ac_host : str; ac_protocol : NetworkApprovalProtocol }.

Record NetworkPolicyDecisionPayload : Type := mkPayload {
  pl_decision : NetworkPolicyDecision;
  pl_source : NetworkDecisionSource;
  pl_protocol : option NetworkApprovalProtocol;
  pl_host : option str;
  pl_reason : option str;
  pl_port : option N;
}.

Definition is_ask_from_decider (self : NetworkPolicyDecisionPayload) : bool :=
  match pl_decision self, pl_source self with PolicyAsk, Decider => true | _, _ => false end.

Definition parse_network_policy_decision (value : str) : option NetworkPolicyDecision :=
  if value =? lit "deny" then Some PolicyDeny else if value =? lit "ask" then Some PolicyAsk else None.

Definition network_approval_context_from_payload (payload : NetworkPolicyDecisionPayload) : option NetworkApprovalContext :=
  if negb (is_ask_from_decider payload) then None
  else
    protocol ← pl_protocol payload;
    host ← trim <$> pl_host payload;
    if is_empty host then None else Some (mkApprovalContext host protocol).

Definition QUOTE : str := [34%N].

Definition denied_network_policy_message (blocked : BlockedRequest) : option str :=
  match br_decision blocked ≫= parse_network_policy_decision with
  | Some PolicyDeny =>
      let host := trim (br_host blocked) in
      if is_empty host then Some (lit "Network access was blocked by policy.")
      else
        let reason := br_reason blocked in
        let detail :=
          if reason =? lit "denied"
          then lit "domain is explicitly denied by policy and cannot be approved from this prompt"
          else if reason =? lit "not_allowed" then lit "domain is not on the allowlist for the current sandbox mode"
          else if reason =? lit "not_allowed_local"
          then lit "local/private network addresses are blocked by the sandbox policy"
          else if reason =? lit "method_not_allowed" then lit "request method is blocked by the current network mode"
          else if reason =? lit "proxy_disabled" then lit "network proxy is disabled"
          else lit "request is blocked by network policy" in
        Some (lit "Network access to " ++ QUOTE ++ host ++ QUOTE ++ lit " was blocked: " ++ detail ++ lit ".")
  | _ => None
  end.

Record ExecPolicyNetworkRuleAmendment : Type := mkRuleAmendment {
  ra_protocol : NetworkRuleProtocol;
  ra_decision : Decision;
  ra_justification : str;
}.

Definition execpolicy_network_rule_amendment (amendment : NetworkPolicyAmendment)
    (network_approval_context : NetworkApprovalContext) (host : str) : ExecPolicyNetworkRuleAmendment :=
  let protocol :=
    match ac_protocol network_approval_context with
    | ApprovalHttp => Http
    | ApprovalHttps => Https
    | ApprovalSocks5Tcp => Socks5Tcp
    | ApprovalSocks5Udp => Socks5Udp
    end in
  let '(decision, action_verb) :=
    match npa_action amendment with
    | NetAllow => (ExecPolicy.Allow, lit "Allow")
    | NetDeny => (Forbidden, lit "Deny")
    end in
  let protocol_label :=
    match ac_protocol network_approval_context with
    | ApprovalHttp => lit "http"
    | ApprovalHttps => lit "https_connect"
    | ApprovalSocks5Tcp => lit "socks5_tcp"
    | ApprovalSocks5Udp => lit "socks5_udp"
    end in
  mkRuleAmendment protocol decision (action_verb ++ lit " " ++ protocol_label ++ lit " access to " ++ host).

(** *** Making an answer permanent *)

Definition validated_network_policy_amendment_host (amendment : NetworkPolicyAmendment)
    (network_approval_context : NetworkApprovalContext) : anyhow str :=
  let approved_host := normalize_host (ac_host network_approval_context) in
  let amendment_host := normalize_host (npa_host amendment) in
  if negb (amendment_host =? approved_host)
  then bail (lit "network policy amendment host '" ++ npa_host amendment ++ lit "' does not match approved host '"
             ++ ac_host network_approval_context ++ lit "'")
  else Ok approved_host.

(** [anyhow!(_: {err})] shows the outermost message of the error. *)
Definition annotate {A} (msg : str) (r : anyhow A) : anyhow A :=
  map_err (fun chain => [msg ++ lit ": " ++ default [] (head chain)]) r.

Section Persist.
(** The running proxy, if there is one, and the exec policy's file *)
Context {S : Type} (proxy : option (DomainListKind -> str -> S -> anyhow unit * S)).
Context (append_network_rule_and_update : str -> NetworkRuleProtocol -> Decision -> option str -> S -> anyhow unit * S).

Definition persist_network_policy_amendment (amendment : NetworkPolicyAmendment)
    (network_approval_context : NetworkApprovalContext) (s : S) : anyhow unit * S :=
  match validated_network_policy_amendment_host amendment network_approval_context with
  | Err e => (Err e, s)
  | Ok host =>
      let execpolicy_amendment := execpolicy_network_rule_amendment amendment network_approval_context host in
      let '(updated, s) :=
        match proxy with
        | None => (Ok tt, s)
        | Some update =>
            match npa_action amendment with
            | NetAllow =>
                let '(r, s) := update KindAllow host s in
                (annotate (lit "failed to update runtime allowlist") r, s)
            | NetDeny =>
                let '(r, s) := update KindDeny host s in
                (annotate (lit "failed to update runtime denylist") r, s)
            end
        end in
      match updated with
      | Err e => (Err e, s)
      | Ok _ =>
          let '(r, s) := append_network_rule_and_update host (ra_protocol execpolicy_amendment)
            (ra_decision execpolicy_amendment) (Some (ra_justification execpolicy_amendment)) s in
          (annotate (lit "failed to persist network policy amendment to execpolicy") r, s)
      end
  end.

Lemma validated_host_Ok amendment context host :
  validated_network_policy_amendment_host amendment context = Ok host <->
  host = normalize_host (ac_host context) /\ normalize_host (npa_host amendment) = normalize_host (ac_host context).
Proof.
  unfold validated_network_policy_amendment_host. case_bool_decide as E; cbn; [|split; [done|by intros []]].
  split; [by intros [= <-]|by intros [-> _]].
Qed.

(** An answer is made permanent only for the host that was asked about: the
    running proxy first, the rule only after that. *)
Lemma persist_network_policy_amendment_spec amendment context s :
  match validated_network_policy_amendment_host amendment context with
  | Err e => persist_network_policy_amendment amendment context s = (Err e, s)
  | Ok host =>
      let update := default (fun _ _ s => (Ok tt, s)) proxy in
      let kind := match npa_action amendment with NetAllow => KindAllow | NetDeny => KindDeny end in
      let rule := execpolicy_network_rule_amendment amendment context host in
      let '(r, s1) := persist_network_policy_amendment amendment context s in
      match update kind host s with
      | (Err _, s2) => r <> Ok tt /\ s1 = s2
      | (Ok _, s2) =>
          let '(r', s3) := append_network_rule_and_update host (ra_protocol rule) (ra_decision rule)
            (Some (ra_justification rule)) s2 in
          s1 = s3 /\ (r = Ok tt <-> r' = Ok tt)
      end
  end.
Proof.
  unfold persist_network_policy_amendment. destruct (validated_network_policy_amendment_host _ _) as [host|e]; [|done].
  destruct proxy as [update|]; cbn [default from_option id].
  - destruct (npa_action amendment); destruct (update _ host s) as [[[]|e] s2]; cbn [annotate map_err]; try done.
    all: by destruct (append_network_rule_and_update _ _ _ _ s2) as [[[]|e] s3].
  - by destruct (append_network_rule_and_update _ _ _ _ s) as [[[]|e] s3].
Qed.
End Persist.

(** ** The service *)

(** What the service relies on of [tokio::sync::Notify]: a future that
    [notified()] created completes with the next [notify_waiters()], even if it
    has not been polled before. *)
Class Notify : Type := {
  notify_t : Type;
  future_t : Type;
  notify_new : notify_t;
  notified : notify_t -> future_t;
  notify_waiters : notify_t -> notify_t;
  completed : notify_t -> future_t -> bool;
  (** the future was created by it, now or before *)
  created_from : notify_t -> future_t -> Prop;
  notified_created n : created_from n (notified n);
  notify_created n f : created_from n f -> created_from (notify_waiters n) f;
  notify_completes n f : created_from n f -> completed (notify_waiters n) f = true;
}.

Definition protocol_key_label (protocol : NetworkApprovalProtocol) : str :=
  match protocol with
  | ApprovalHttp => lit "http"
  | ApprovalHttps => lit "https"
  | ApprovalSocks5Tcp => lit "socks5-tcp"
  | ApprovalSocks5Udp => lit "socks5-udp"
  end.

(** Host, protocol and port *)
Definition HostApprovalKey : Type := str * str * N.

Definition approval_protocol (protocol : NetworkProtocol) : NetworkApprovalProtocol :=
  match protocol with
  | ProtoHttp => ApprovalHttp
  | ProtoHttpsConnect => ApprovalHttps
  | ProtoSocks5Tcp => ApprovalSocks5Tcp
  | ProtoSocks5Udp => ApprovalSocks5Udp
  end.

Definition from_request (request : NetworkPolicyRequest) (protocol : NetworkApprovalProtocol) : HostApprovalKey :=
  (to_ascii_lowercase (pr_host request), protocol_key_label protocol, pr_port request).

Definition key_of (request : NetworkPolicyRequest) : HostApprovalKey :=
  from_request request (approval_protocol (pr_protocol request)).

Inductive PendingApprovalDecision : Type := AllowOnce | AllowForSession | PendingDeny.

Definition to_network_decision (self : PendingApprovalDecision) : NetworkDecision :=
  match self with
  | AllowOnce | AllowForSession => Allow
  | PendingDeny => deny (lit "not_allowed")
  end.

Inductive NetworkApprovalOutcome : Type := DeniedByUser | DeniedByPolicy (message : str).

Definition allows_network_approval_flow (policy : AskForApproval) : bool :=
  match policy with Never => false | _ => true end.

Definition permission_profile_allows_network_approval_flow (profile : PermissionProfile) : bool :=
  match profile with Managed _ _ => true | _ => false end.

Record ActiveCall : Type := mkActiveCall { call_registration_id : str; call_turn_id : str; call_command : str }.

Section Service.
Context {notify : Notify}.

(** A pending approval is known by its number; it keeps the key it was made
    for, and its [Notify]. *)
Record NetworkApprovalService : Type := mkService {
  active_calls : list (str * ActiveCall);
  call_outcomes : gmap str NetworkApprovalOutcome;
  pending_host_approvals : gmap HostApprovalKey nat;
  approvals : list (HostApprovalKey * option PendingApprovalDecision);
  notifies : gmap nat notify_t;
  session_approved_hosts : gset HostApprovalKey;
  session_denied_hosts : gset HostApprovalKey;
}.

Definition service_default : NetworkApprovalService := mkService [] ∅ ∅ [] ∅ ∅ ∅.

Definition with_calls s calls := mkService calls (call_outcomes s) (pending_host_approvals s) (approvals s)
  (notifies s) (session_approved_hosts s) (session_denied_hosts s).
Definition with_outcomes s outcomes := mkService (active_calls s) outcomes (pending_host_approvals s) (approvals s)
  (notifies s) (session_approved_hosts s) (session_denied_hosts s).
Definition with_pending s pending l := mkService (active_calls s) (call_outcomes s) pending l
  (notifies s) (session_approved_hosts s) (session_denied_hosts s).
Definition with_notifies s l := mkService (active_calls s) (call_outcomes s) (pending_host_approvals s) (approvals s)
  l (session_approved_hosts s) (session_denied_hosts s).
Definition with_hosts s approved denied := mkService (active_calls s) (call_outcomes s) (pending_host_approvals s)
  (approvals s) (notifies s) approved denied.

(** [IndexMap::insert] keeps the place of a key that is there. *)
Fixpoint index_insert {A} (key : str) (value : A) (l : list (str * A)) : list (str * A) :=
  match l with
  | [] => [(key, value)]
  | (k, v) :: l => if k =? key then (key, value) :: l else (k, v) :: index_insert key value l
  end.
Definition index_shift_remove {A} (key : str) (l : list (str * A)) : list (str * A) :=
  List.filter (fun e => negb (fst e =? key)) l.

Definition resolve_single_active_call (s : NetworkApprovalService) : option ActiveCall :=
  match active_calls s with [(_, call)] => Some call | _ => None end.

Definition record_call_outcome (s : NetworkApprovalService) (registration_id : str) (outcome : NetworkApprovalOutcome)
    : NetworkApprovalService :=
  match call_outcomes s !! registration_id with
  | Some DeniedByUser => s
  | _ => with_outcomes s (<[registration_id := outcome]> (call_outcomes s))
  end.

(** The number of the approval, and whether it is new *)
Definition get_or_create_pending_approval (s : NetworkApprovalService) (key : HostApprovalKey)
    : NetworkApprovalService * nat * bool :=
  match pending_host_approvals s !! key with
  | Some existing => (s, existing, false)
  | None =>
      let created := length (approvals s) in
      (with_pending s (<[key := created]> (pending_host_approvals s)) (approvals s ++ [(key, None)]), created, true)
  end.

Definition decision_at (s : NetworkApprovalService) (id : nat) : option PendingApprovalDecision :=
  e ← approvals s !! id; snd e.

(** [set_decision] is two steps: the section under the lock, and then the call
    of [notify_waiters]. *)
Definition store_decision (s : NetworkApprovalService) (id : nat) (decision : PendingApprovalDecision)
    : NetworkApprovalService :=
  with_pending s (pending_host_approvals s) (alter (fun e => (fst e, Some decision)) id (approvals s)).

Definition notify_at (s : NetworkApprovalService) (id : nat) : notify_t := default notify_new (notifies s !! id).
Definition call_waiters (s : NetworkApprovalService) (id : nat) : NetworkApprovalService :=
  with_notifies s (<[id := notify_waiters (notify_at s id)]> (notifies s)).

(** *** What the owner of a question meets, and does *)

(** The turn that is active: the settings that the owner reads *)
Record TurnContext : Type := mkTurn { turn_profile : PermissionProfile; turn_approval_policy : AskForApproval }.

Inductive HookDecision : Type := HookAllow | HookDeny (message : str).

(** The answer: of a hook, or of the user or the guardian, then with what the
    guardian says of a rejection; [persisted] is whether an amendment could be
    made permanent. *)
Inductive Answer : Type :=
| ByHook (decision : HookDecision)
| ByReview (guardian_rejection : option str) (decision : ReviewDecision) (persisted : bool).

Definition GUARDIAN_TIMEOUT_INSTRUCTIONS : str :=
  lit "The automatic permission approval review did not finish before its deadline. "
  ++ lit "Do not assume the action is unsafe based on the timeout alone. "
  ++ lit "You may retry once, or ask the user for guidance or explicit approval.".

(** Sections under a lock, and calls of the session *)
Inductive Action : Type :=
| SetDecision (id : nat) (decision : PendingApprovalDecision)
| NotifyWaiters (id : nat)
| RemovePending (key : HostApprovalKey)
| RecordSingle (outcome : NetworkApprovalOutcome)
| RecordCall (registration_id : str) (outcome : NetworkApprovalOutcome)
| ApproveHost (key : HostApprovalKey)
| UnapproveHost (key : HostApprovalKey)
| DenyHost (key : HostApprovalKey)
| UndenyHost (key : HostApprovalKey)
| PersistAmendment (amendment : NetworkPolicyAmendment)
| RecordAmendmentMessage (amendment : NetworkPolicyAmendment)
| Warn
| RegisterCall (call : ActiveCall)
| UnregisterCall (registration_id : str)
| ForgetOutcome (registration_id : str)
| ReplaceApproved (hosts : gset HostApprovalKey).

Definition set_decision (id : nat) (decision : PendingApprovalDecision) : list Action :=
  [SetDecision id decision; NotifyWaiters id].

Definition format_network_target (protocol host : str) (port : N) : str :=
  protocol ++ lit "://" ++ host ++ lit ":" ++ lit (pretty port).

Definition approval_id_for_key (key : HostApprovalKey) : str :=
  let '(host, protocol, port) := key in
  lit "network#" ++ protocol ++ lit "#" ++ host ++ lit "#" ++ lit (pretty port).

Definition policy_denial_message (request : NetworkPolicyRequest) : str :=
  let '(_, protocol, port) := key_of request in
  lit "Network access to " ++ QUOTE ++ format_network_target protocol (pr_host request) port ++ QUOTE
  ++ lit " was blocked by policy.".

(** Without a turn, or in one that does not ask *)
Definition refuse_actions (request : NetworkPolicyRequest) (id : nat) : list Action :=
  set_decision id PendingDeny
  ++ [RemovePending (key_of request); RecordSingle (DeniedByPolicy (policy_denial_message request))].

Definition record_for (owner_call : option ActiveCall) (outcome : NetworkApprovalOutcome) : list Action :=
  match owner_call with Some call => [RecordCall (call_registration_id call) outcome] | None => [] end.

Definition persist_actions (amendment : NetworkPolicyAmendment) (persisted : bool) : list Action :=
  [PersistAmendment amendment; if persisted then RecordAmendmentMessage amendment else Warn].

(** What a review comes to: what is done first, the decision, and whether the
    denial holds for the session *)
Definition resolve_review (owner_call : option ActiveCall) (guardian_rejection : option str)
    (decision : ReviewDecision) (persisted : bool) : list Action * PendingApprovalDecision * bool :=
  match decision with
  | Approved | ApprovedExecpolicyAmendment _ => ([], AllowOnce, false)
  | ApprovedForSession => ([], AllowForSession, false)
  | NetworkPolicyAmendmentDecision amendment =>
      match npa_action amendment with
      | NetAllow => (persist_actions amendment persisted, AllowForSession, false)
      | NetDeny => (persist_actions amendment persisted ++ record_for owner_call DeniedByUser, PendingDeny, true)
      end
  | DeniedDecision | AbortDecision =>
      (record_for owner_call (match guardian_rejection with Some message => DeniedByPolicy message | None => DeniedByUser end),
       PendingDeny, false)
  | TimedOut => (record_for owner_call (DeniedByPolicy GUARDIAN_TIMEOUT_INSTRUCTIONS), PendingDeny, false)
  end.

(** From the answer to the end *)
Definition answer_actions (request : NetworkPolicyRequest) (id : nat) (owner_call : option ActiveCall) (answer : Answer)
    : list Action * NetworkDecision :=
  let key := key_of request in
  match answer with
  | ByHook HookAllow => (set_decision id AllowOnce ++ [RemovePending key], Allow)
  | ByHook (HookDeny message) =>
      (record_for owner_call (DeniedByPolicy message) ++ set_decision id PendingDeny ++ [RemovePending key],
       deny (lit "not_allowed"))
  | ByReview guardian_rejection decision persisted =>
      let '(first, resolved, cache_session_deny) := resolve_review owner_call guardian_rejection decision persisted in
      let session :=
        match resolved with AllowForSession => [UndenyHost key; ApproveHost key] | _ => [] end
        ++ (if cache_session_deny then [UnapproveHost key; DenyHost key] else []) in
      (first ++ session ++ set_decision id resolved ++ [RemovePending key], to_network_decision resolved)
  end.

(** One section under a lock *)
Definition act (s : NetworkApprovalService) (a : Action) : NetworkApprovalService :=
  match a with
  | SetDecision id decision => store_decision s id decision
  | NotifyWaiters id => call_waiters s id
  | RemovePending key => with_pending s (delete key (pending_host_approvals s)) (approvals s)
  | RecordCall registration_id outcome => record_call_outcome s registration_id outcome
  | ApproveHost key => with_hosts s ({[key]} ∪ session_approved_hosts s) (session_denied_hosts s)
  | UnapproveHost key => with_hosts s (session_approved_hosts s ∖ {[key]}) (session_denied_hosts s)
  | DenyHost key => with_hosts s (session_approved_hosts s) ({[key]} ∪ session_denied_hosts s)
  | UndenyHost key => with_hosts s (session_approved_hosts s) (session_denied_hosts s ∖ {[key]})
  | RegisterCall call => with_calls s (index_insert (call_registration_id call) call (active_calls s))
  | UnregisterCall registration_id => with_calls s (index_shift_remove registration_id (active_calls s))
  | ForgetOutcome registration_id => with_outcomes s (delete registration_id (call_outcomes s))
  | ReplaceApproved hosts => with_hosts s hosts (session_denied_hosts s)
  | RecordSingle _ | PersistAmendment _ | RecordAmendmentMessage _ | Warn => s
  end.

(** What is left to do; [record_outcome_for_single_active_call] is two sections. *)
Definition rest (s : NetworkApprovalService) (a : Action) (l : list Action) : list Action :=
  match a with
  | RecordSingle outcome => record_for (resolve_single_active_call s) outcome ++ l
  | _ => l
  end.

(** *** Tasks *)

Inductive Stage : Type :=
| CheckDenied
| CheckApproved
| GetOrCreate
(** in [wait_for_decision]: before a future is created, with one before the
    decision is looked at, and suspended on it *)
| Waiting (id : nat)
| Listening (id : nat) (future : future_t)
| Suspended (id : nat) (future : future_t)
| Owning (id : nat)
| Asking (id : nat) (owner_call : option ActiveCall)
| Acting (id : nat) (actions : list Action) (decision : NetworkDecision)
| Decided (decision : NetworkDecision).

Inductive Task : Type :=
| RequestTask (request : NetworkPolicyRequest) (stage : Stage)
(** any other operation of the service *)
| OtherTask (actions : list Action)
(** dropped before it came to its end *)
| Dropped.

(** What a step meets *)
Inductive Input : Type :=
| Nothing
| TurnIs (turn : option TurnContext)
| AnswerIs (answer : Answer).

(** [handle_inline_policy_request], section by section *)
Definition request_step (s : NetworkApprovalService) (request : NetworkPolicyRequest) (stage : Stage) (input : Input)
    : NetworkApprovalService * Stage :=
  let key := key_of request in
  match stage with
  | CheckDenied =>
      (s, if bool_decide (key ∈ session_denied_hosts s) then Decided (deny (lit "not_allowed")) else CheckApproved)
  | CheckApproved => (s, if bool_decide (key ∈ session_approved_hosts s) then Decided Allow else GetOrCreate)
  | GetOrCreate =>
      let '(s, id, is_owner) := get_or_create_pending_approval s key in
      (s, if (is_owner : bool) then Owning id else Waiting id)
  | Waiting id => (s, Listening id (notified (notify_at s id)))
  | Listening id future =>
      (s, match decision_at s id with
          | Some decision => Decided (to_network_decision decision)
          | None => Suspended id future
          end)
  | Suspended id future => (s, if completed (notify_at s id) future then Waiting id else stage)
  | Owning id =>
      match input with
      | TurnIs turn =>
          (s, match turn with
              | Some turn =>
                  if permission_profile_allows_network_approval_flow (turn_profile turn)
                     && allows_network_approval_flow (turn_approval_policy turn)
                  then Asking id (resolve_single_active_call s)
                  else Acting id (refuse_actions request id) (deny (lit "not_allowed"))
              | None => Acting id (refuse_actions request id) (deny (lit "not_allowed"))
              end)
      | _ => (s, stage)
      end
  | Asking id owner_call =>
      match input with
      | AnswerIs answer =>
          let '(actions, decision) := answer_actions request id owner_call answer in (s, Acting id actions decision)
      | _ => (s, stage)
      end
  | Acting _ [] decision => (s, Decided decision)
  | Acting id (a :: l) decision => (act s a, Acting id (rest s a l) decision)
  | Decided _ => (s, stage)
  end.

Definition task_step (s : NetworkApprovalService) (t : Task) (input : Input) : NetworkApprovalService * Task :=
  match t with
  | RequestTask request stage => let '(s, stage) := request_step s request stage input in (s, RequestTask request stage)
  | OtherTask [] => (s, t)
  | OtherTask (a :: l) => (act s a, OtherTask (rest s a l))
  | Dropped => (s, t)
  end.

(** *** The other operations *)

Definition register_call (call : ActiveCall) : Task := OtherTask [RegisterCall call].
Definition unregister_call (registration_id : str) : Task :=
  OtherTask [UnregisterCall registration_id; ForgetOutcome registration_id].
Definition record_blocked_request (blocked : BlockedRequest) : Task :=
  OtherTask (match denied_network_policy_message blocked with
             | Some message => [RecordSingle (DeniedByPolicy message)]
             | None => []
             end).
Definition sync_session_approved_hosts_to (source : NetworkApprovalService) : Task :=
  OtherTask [ReplaceApproved (session_approved_hosts source)].

(** *** Around a tool call *)

Inductive NetworkApprovalMode : Type := Immediate | Deferred.

(** What [begin_network_approval] reads of it *)
Record NetworkApprovalSpec : Type := mkApprovalSpec {
  spec_has_network : bool;
  spec_mode : NetworkApprovalMode;
  spec_command : str;
}.

Record ActiveNetworkApproval : Type := mkActiveApproval {
  active_registration_id : option str;
  active_mode : NetworkApprovalMode;
}.

(** [new_v4] is the identifier that is drawn; without a spec or a managed
    network nothing is registered. *)
Definition begin_network_approval (new_v4 turn_id : str) (managed_network_active : bool)
    (spec : option NetworkApprovalSpec) : option (Task * ActiveNetworkApproval) :=
  spec ← spec;
  if negb managed_network_active || negb (spec_has_network spec) then None
  else Some (register_call (mkActiveCall new_v4 turn_id (spec_command spec)),
             mkActiveApproval (Some new_v4) (spec_mode spec)).

Definition into_deferred (self : ActiveNetworkApproval) : option str :=
  match active_mode self, active_registration_id self with
  | Deferred, Some registration_id => Some registration_id
  | _, _ => None
  end.

(** The outcome is taken, then the call unregistered; [finish_result] makes of
    the outcome that was there what the tool sees. *)
Definition finish_immediate_network_approval (active : ActiveNetworkApproval) : Task :=
  match active_registration_id active with
  | None => OtherTask []
  | Some registration_id =>
      OtherTask [ForgetOutcome registration_id; UnregisterCall registration_id; ForgetOutcome registration_id]
  end.
Definition finish_deferred_network_approval (deferred : option str) : Task :=
  match deferred with None => OtherTask [] | Some registration_id => unregister_call registration_id end.
Definition finish_result (outcome : option NetworkApprovalOutcome) : result str unit :=
  match outcome with
  | Some DeniedByUser => Err (lit "rejected by user")
  | Some (DeniedByPolicy message) => Err message
  | None => Ok tt
  end.

(** *** Interleavings *)

Inductive StepEvent : Type :=
| Spawn (t : Task)
| Run (i : nat) (input : Input)
| Drop (i : nat).

(** The log is ghost: who was answered what. *)
Record Conf : Type := mkConf {
  service : NetworkApprovalService;
  tasks : list Task;
  answers : list (HostApprovalKey * Answer);
}.

Definition logged (t : Task) (input : Input) : list (HostApprovalKey * Answer) :=
  match t, input with
  | RequestTask request (Asking _ _), AnswerIs answer => [(key_of request, answer)]
  | _, _ => []
  end.

Definition conf_step (c : Conf) (e : StepEvent) : Conf :=
  match e with
  | Spawn t => mkConf (service c) (tasks c ++ [t]) (answers c)
  | Drop i => mkConf (service c) (alter (fun _ => Dropped) i (tasks c)) (answers c)
  | Run i input =>
      match tasks c !! i with
      | None => c
      | Some t =>
          let '(s, t') := task_step (service c) t input in
          mkConf s (<[i := t']> (tasks c)) (answers c ++ logged t input)
      end
  end.

(** A session starts with the hosts that were approved in the one it comes from. *)
Definition conf_start (approved : gset HostApprovalKey) : Conf := mkConf (with_hosts service_default approved ∅) [] [].

Definition conf_run (approved : gset HostApprovalKey) (events : list StepEvent) : Conf :=
  fold_left conf_step events (conf_start approved).

(** ** What holds of every interleaving *)

(** A request that comes in, or another operation of the service *)
Definition is_other_action (a : Action) : Prop :=
  match a with
  | RegisterCall _ | UnregisterCall _ | ForgetOutcome _ | RecordSingle _ | RecordCall _ _ | ReplaceApproved _ => True
  | _ => False
  end.
Definition spawnable (t : Task) : Prop :=
  (exists request, t = RequestTask request CheckDenied) \/ exists l, t = OtherTask l /\ Forall is_other_action l.
Definition event_ok (e : StepEvent) : Prop := match e with Spawn t => spawnable t | _ => True end.

(** What other sessions hand in later, by [sync_session_approved_hosts_to] *)
Definition brings (a : Action) : gset HostApprovalKey := match a with ReplaceApproved hosts => hosts | _ => ∅ end.
Definition brought (e : StepEvent) : gset HostApprovalKey :=
  match e with Spawn (OtherTask l) => ⋃ (brings <$> l) | _ => ∅ end.
Definition handed (events : list StepEvent) : gset HostApprovalKey := ⋃ (brought <$> events).

(** The answer lets the request pass, or the host for the session. *)
Definition grants_session (answer : Answer) : bool :=
  match answer with
  | ByReview _ ApprovedForSession _ => true
  | ByReview _ (NetworkPolicyAmendmentDecision amendment) _ =>
      match npa_action amendment with NetAllow => true | NetDeny => false end
  | _ => false
  end.
Definition grants (answer : Answer) : bool :=
  match answer with
  | ByHook HookAllow | ByReview _ (Approved | ApprovedExecpolicyAmendment _) _ => true
  | _ => grants_session answer
  end.

Section Invariant.
(** What other sessions hand in: [synced] is what the session is synchronised
    with, [known] also has what it was started with. *)
Context (known synced : gset HostApprovalKey) (Hsynced : synced ⊆ known).

Notation Log := (list (HostApprovalKey * Answer)).

Definition granted (log : Log) (key : HostApprovalKey) : Prop := exists answer, (key, answer) ∈ log /\ grants answer = true.
Definition granted_session (log : Log) (key : HostApprovalKey) : Prop :=
  exists answer, (key, answer) ∈ log /\ grants_session answer = true.

Lemma granted_mono log log' key : granted log key -> granted (log ++ log') key.
Proof. intros (a & ? & ?). exists a. rewrite elem_of_app. auto. Qed.
Lemma granted_session_mono log log' key : granted_session log key -> granted_session (log ++ log') key.
Proof. intros (a & ? & ?). exists a. rewrite elem_of_app. auto. Qed.
Lemma granted_session_granted log key : granted_session log key -> granted log key.
Proof. intros (a & Ha & Hg). exists a. split; [done|]. by destruct a as [[]|? []]. Qed.

(** *** Lists of actions *)

Definition is_remove (a : Action) : bool := match a with RemovePending _ => true | _ => false end.
Definition removes (l : list Action) : bool := existsb is_remove l.

(** It concerns the question, and is done while the task has it. *)
Definition sensitive (a : Action) : bool :=
  match a with
  | SetDecision _ _ | ApproveHost _ | UnapproveHost _ | DenyHost _ | UndenyHost _ => true
  | _ => false
  end.

Fixpoint ordered (l : list Action) : bool :=
  match l with
  | [] => true
  | a :: l => (negb (sensitive a) || removes l) && (negb (is_remove a) || negb (removes l)) && ordered l
  end.

(** An approval that no lifted denial comes before, and the other way round *)
Fixpoint exposed_approve (l : list Action) : bool :=
  match l with [] => false | UndenyHost _ :: _ => false | ApproveHost _ :: _ => true | _ :: l => exposed_approve l end.
Fixpoint exposed_deny (l : list Action) : bool :=
  match l with [] => false | UnapproveHost _ :: _ => false | DenyHost _ :: _ => true | _ :: l => exposed_deny l end.
Definition has_approve (l : list Action) : bool := existsb (fun a => match a with ApproveHost _ => true | _ => false end) l.
Definition has_deny (l : list Action) : bool := existsb (fun a => match a with DenyHost _ => true | _ => false end) l.

Lemma exposed_approve_has l : exposed_approve l = true -> has_approve l = true.
Proof. induction l as [|[] l IH]; simpl; try done; auto. Qed.
Lemma exposed_deny_has l : exposed_deny l = true -> has_deny l = true.
Proof. induction l as [|[] l IH]; simpl; try done; auto. Qed.
Lemma has_approve_removes l : ordered l = true -> has_approve l = true -> removes l = true.
Proof.
  induction l as [|a l IH]; simpl; [done|]. intros [[Ha _]%andb_true_iff Ho]%andb_true_iff.
  rewrite !orb_true_iff. intros [H|H]; [|right; by apply IH]. destruct a; try done. simpl in Ha. by right.
Qed.
Lemma has_deny_removes l : ordered l = true -> has_deny l = true -> removes l = true.
Proof.
  induction l as [|a l IH]; simpl; [done|]. intros [[Ha _]%andb_true_iff Ho]%andb_true_iff.
  rewrite !orb_true_iff. intros [H|H]; [|right; by apply IH]. destruct a; try done. simpl in Ha. by right.
Qed.

Definition action_ok (log : Log) (key : HostApprovalKey) (id : nat) (a : Action) : Prop :=
  match a with
  | SetDecision id' decision => id' = id /\ (to_network_decision decision = Allow -> granted log key)
  | ApproveHost k => k = key /\ granted_session log key
  | RemovePending k | UnapproveHost k | DenyHost k | UndenyHost k => k = key
  | NotifyWaiters _ | RecordSingle _ | RecordCall _ _ | PersistAmendment _ | RecordAmendmentMessage _ | Warn => True
  | RegisterCall _ | UnregisterCall _ | ForgetOutcome _ | ReplaceApproved _ => False
  end.

Definition other_action (a : Action) : Prop :=
  match a with
  | RegisterCall _ | UnregisterCall _ | ForgetOutcome _ | RecordSingle _ | RecordCall _ _ => True
  | ReplaceApproved hosts => hosts ⊆ synced
  | _ => False
  end.

(** *** The invariant *)

Definition actions_ok (s : NetworkApprovalService) (log : Log) (key : HostApprovalKey) (id : nat) (l : list Action) : Prop :=
  (removes l = true -> pending_host_approvals s !! key = Some id) /\
  Forall (action_ok log key id) l /\ ordered l = true /\
  (exposed_approve l = true -> key ∉ session_denied_hosts s) /\
  (exposed_deny l = true -> key ∈ session_approved_hosts s -> key ∈ synced) /\
  has_approve l && has_deny l = false.

Definition task_ok (s : NetworkApprovalService) (log : Log) (t : Task) : Prop :=
  match t with
  | RequestTask request stage =>
      let key := key_of request in
      match stage with
      | CheckDenied | CheckApproved | GetOrCreate => True
      | Waiting id | Listening id _ | Suspended id _ => exists d, approvals s !! id = Some (key, d)
      | Owning id | Asking id _ => pending_host_approvals s !! key = Some id
      | Acting id l decision => actions_ok s log key id l /\ (decision = Allow -> granted log key)
      | Decided decision => decision = Allow -> granted log key \/ key ∈ known
      end
  | OtherTask l => Forall other_action l
  | Dropped => True
  end.

(** The question that a task has, from its creation until it is removed *)
Definition question (t : Task) : option HostApprovalKey :=
  match t with
  | RequestTask request (Owning _ | Asking _ _) => Some (key_of request)
  | RequestTask request (Acting _ l _) => if removes l then Some (key_of request) else None
  | _ => None
  end.

(** What concerns the service alone *)
Record service_ok (s : NetworkApprovalService) (log : Log) : Prop := mkServiceOk {
  so_pending : forall key id, pending_host_approvals s !! key = Some id -> exists d, approvals s !! id = Some (key, d);
  so_approved : forall key, key ∈ session_approved_hosts s -> granted_session log key \/ key ∈ known;
  so_decided : forall id key d, approvals s !! id = Some (key, Some d) -> to_network_decision d = Allow -> granted log key;
  so_disjoint : forall key, key ∈ session_approved_hosts s -> key ∈ session_denied_hosts s -> key ∈ synced;
}.

Record conf_ok (c : Conf) : Prop := mkConfOk {
  co_service : service_ok (service c) (answers c);
  co_tasks : Forall (task_ok (service c) (answers c)) (tasks c);
  (** no two tasks have a question about one key *)
  co_unique : forall i j t t' key, tasks c !! i = Some t -> tasks c !! j = Some t' ->
    question t = Some key -> question t' = Some key -> i = j;
}.

(** *** Other tasks are not disturbed *)

Lemma act_approvals s a id key d : approvals s !! id = Some (key, d) ->
  exists d', approvals (act s a) !! id = Some (key, d').
Proof.
  intros H. destruct a as [id' decision| | | |r o| | | | | | | |c|r|r|hosts]; cbn [act]; try by exists d.
  - cbn [store_decision approvals with_pending]. destruct (decide (id' = id)) as [->|Hne].
    + rewrite list_lookup_alter_eq, H. by eexists.
    + rewrite list_lookup_alter_ne by done. by exists d.
  - unfold record_call_outcome. destruct (call_outcomes s !! r) as [[]|]; by exists d.
Qed.

(** An action for one key leaves what concerns another. *)
Lemma act_other log key id s a key' : action_ok log key id a -> key' <> key ->
  pending_host_approvals (act s a) !! key' = pending_host_approvals s !! key' /\
  (key' ∈ session_denied_hosts (act s a) <-> key' ∈ session_denied_hosts s) /\
  (key' ∈ session_approved_hosts (act s a) <-> key' ∈ session_approved_hosts s).
Proof.
  intros Ha Hk. destruct a as [id' decision|nw|k| |r o|k|k|k|k| | | |c|r|r|hosts]; cbn [act]; try done.
  all: try (unfold record_call_outcome; by destruct (call_outcomes s !! r) as [[]|]).
  - cbn in *. subst k. by rewrite lookup_delete_ne.
  - cbn in *. destruct Ha as [-> _]. rewrite elem_of_union, elem_of_singleton. tauto.
  - cbn in *. subst k. rewrite elem_of_difference, elem_of_singleton. tauto.
  - cbn in *. subst k. rewrite elem_of_union, elem_of_singleton. tauto.
  - cbn in *. subst k. rewrite elem_of_difference, elem_of_singleton. tauto.
Qed.

(** An action that is neither sensitive nor the removal leaves all of it. *)
Lemma act_plain s a : sensitive a = false -> is_remove a = false ->
  (forall hosts, a <> ReplaceApproved hosts) ->
  pending_host_approvals (act s a) = pending_host_approvals s /\ approvals (act s a) = approvals s /\
  session_denied_hosts (act s a) = session_denied_hosts s /\ session_approved_hosts (act s a) = session_approved_hosts s.
Proof.
  intros Hs Hr Hn. destruct a as [id' decision|nw|k| |r o|k|k|k|k| | | |c|r|r|hosts]; cbn [act]; try done.
  - unfold record_call_outcome. by destruct (call_outcomes s !! r) as [[]|].
  - by destruct (Hn hosts).
Qed.

(** What another operation does to the service: hosts that it brings are known. *)
Lemma act_other_action s a : other_action a ->
  pending_host_approvals (act s a) = pending_host_approvals s /\ approvals (act s a) = approvals s /\
  session_denied_hosts (act s a) = session_denied_hosts s /\
  (forall key, key ∈ session_approved_hosts (act s a) -> key ∈ session_approved_hosts s \/ key ∈ synced).
Proof.
  intros Ha. destruct a as [id' decision|nw|k|o|r o|k|k|k|k|am|am| |c|r|r|hosts]; cbn in Ha |- *; try done; try tauto.
  - unfold record_call_outcome. destruct (call_outcomes s !! r) as [[]|]; cbn; tauto.
  - split_and!; try done. intros key Hk. right. by apply Ha.
Qed.

Lemma action_ok_mono log log' key id a : action_ok log key id a -> action_ok (log ++ log') key id a.
Proof.
  destruct a; simpl; try done.
  - intros [? H]. split; [done|]. intros ?. by apply granted_mono, H.
  - intros [? ?]. split; [done|]. by apply granted_session_mono.
Qed.

(** What concerns a question and has not changed; hosts that another session
    hands in may appear. *)
Definition same_for (key : HostApprovalKey) (s s' : NetworkApprovalService) : Prop :=
  pending_host_approvals s' !! key = pending_host_approvals s !! key /\
  (key ∈ session_denied_hosts s' <-> key ∈ session_denied_hosts s) /\
  (key ∈ session_approved_hosts s' -> key ∈ session_approved_hosts s \/ key ∈ synced).

(** What a task relies on *)
Lemma task_ok_frame s s' log log' t :
  task_ok s log t ->
  (forall id key d, approvals s !! id = Some (key, d) -> exists d', approvals s' !! id = Some (key, d')) ->
  (forall key, question t = Some key -> same_for key s s') ->
  task_ok s' (log ++ log') t.
Proof.
  intros Ht Hap Hq. destruct t as [request stage|l|]; [|done..]. cbn [task_ok question] in *.
  destruct stage as [| | |id|id n|id n|id|id oc|id l d|d]; try done.
  - destruct Ht as [d Hd]. by eapply Hap.
  - destruct Ht as [d Hd]. by eapply Hap.
  - destruct Ht as [d Hd]. by eapply Hap.
  - destruct (Hq _ eq_refl) as [-> _]. done.
  - destruct (Hq _ eq_refl) as [-> _]. done.
  - destruct Ht as [(Hr & Hok & Ho & Ha & Hd & Hno) Hg].
    split; [split_and!|].
    + intros H. rewrite H in Hq. destruct (Hq _ eq_refl) as [-> _]. by apply Hr.
    + eapply Forall_impl; [exact Hok|]. intros a. apply action_ok_mono.
    + done.
    + intros H. pose proof (has_approve_removes _ Ho (exposed_approve_has _ H)) as E. rewrite E in Hq.
      destruct (Hq _ eq_refl) as (_ & -> & _). by apply Ha.
    + intros H. pose proof (has_deny_removes _ Ho (exposed_deny_has _ H)) as E. rewrite E in Hq.
      destruct (Hq _ eq_refl) as (_ & _ & Ho'). intros [Hk|Hk]%Ho'; [by apply Hd|done].
    + done.
    + intros H. by apply granted_mono, Hg.
  - intros H. destruct (Ht H); [left; by apply granted_mono|by right].
Qed.

(** *** A task's own steps *)

Lemma record_for_neutral owner_call outcome l :
  removes (record_for owner_call outcome ++ l) = removes l /\ ordered (record_for owner_call outcome ++ l) = ordered l /\
  exposed_approve (record_for owner_call outcome ++ l) = exposed_approve l /\
  exposed_deny (record_for owner_call outcome ++ l) = exposed_deny l /\
  has_approve (record_for owner_call outcome ++ l) = has_approve l /\
  has_deny (record_for owner_call outcome ++ l) = has_deny l.
Proof. by destruct owner_call. Qed.

Lemma record_for_ok log key id owner_call outcome : Forall (action_ok log key id) (record_for owner_call outcome).
Proof. destruct owner_call; by repeat constructor. Qed.

Lemma answer_actions_ok s log request id owner_call answer l decision :
  answer_actions request id owner_call answer = (l, decision) -> (key_of request, answer) ∈ log ->
  pending_host_approvals s !! key_of request = Some id ->
  actions_ok s log (key_of request) id l /\ (decision = Allow -> granted log (key_of request)).
Proof.
  intros H Hin Hp.
  assert (grants answer = true -> granted log (key_of request)) as Hg by (intros ?; by exists answer).
  assert (grants_session answer = true -> granted_session log (key_of request)) as Hgs by (intros ?; by exists answer).
  unfold actions_ok. destruct answer as [[|message]|rejection review persisted]; cbn [answer_actions] in H.
  - injection H as <- <-. split_and!; try done; repeat constructor; auto.
  - injection H as <- <-.
    pose proof (record_for_neutral owner_call (DeniedByPolicy message) [SetDecision id PendingDeny; NotifyWaiters id; RemovePending (key_of request)])
      as (-> & -> & -> & -> & -> & ->).
    split_and!; try done. apply Forall_app. split; [apply record_for_ok|by repeat constructor].
  - destruct review as [|am| |[host [|]]| | |], persisted, rejection, owner_call; cbn in H; injection H as <- <-;
      (split_and!; [try done; intros _; exact Hp|repeat constructor; simpl; auto|try done..]); auto;
      intros E; discriminate E.
Qed.

Lemma refuse_actions_ok s log request id : pending_host_approvals s !! key_of request = Some id ->
  actions_ok s log (key_of request) id (refuse_actions request id).
Proof. intros Hp. split_and!; try done; by repeat constructor. Qed.

Lemma act_self s log key id a l : actions_ok s log key id (a :: l) -> actions_ok (act s a) log key id (rest s a l).
Proof.
  intros (Hr & [Ha Hok]%Forall_cons & [[Hs Hm]%andb_true_iff Ho]%andb_true_iff & Hea & Hed & Hno).
  assert (forall o l', a = RecordSingle o -> l' = rest s a l ->
    removes l' = removes l /\ ordered l' = ordered l /\ exposed_approve l' = exposed_approve l /\
    exposed_deny l' = exposed_deny l /\ has_approve l' = has_approve l /\ has_deny l' = has_deny l) as Hsingle.
  { intros o l' -> ->. apply record_for_neutral. }
  destruct a as [id' decision|nw|k|o|r o|k|k|k|k|am|am| |c|r|r|hosts]; try done; cbn [rest].
  - cbn in Hm. apply negb_true_iff in Hm. split_and!; try done. by rewrite Hm.
  - destruct (Hsingle o _ eq_refl eq_refl) as (E1 & E2 & E3 & E4 & E5 & E6). cbn [rest] in *.
    unfold actions_ok. rewrite E1, E2, E3, E4, E5, E6. split_and!; try done.
    apply Forall_app. split; [apply record_for_ok|done].
  - cbn [act]. destruct (act_plain s (RecordCall r o) eq_refl eq_refl ltac:(done)) as (E1 & _ & E2 & E3). cbn [act] in *.
    unfold actions_ok. rewrite E1, E2, E3. split_and!; done.
  - cbn in Ha, Hea. destruct Ha as [-> _]. change (has_deny l = false) in Hno. split_and!; try done.
    + intros _. by apply Hea.
    + intros H%exposed_deny_has. by rewrite H in Hno.
    + by rewrite Hno, andb_false_r.
  - cbn in Ha. subst k. split_and!; try done. intros _ Hk. cbn in Hk. rewrite elem_of_difference, elem_of_singleton in Hk. tauto.
  - cbn in Ha, Hed. subst k. change (has_approve l && true = false) in Hno. rewrite andb_true_r in Hno.
    split_and!; try done.
    + intros H%exposed_approve_has. by rewrite H in Hno.
    + intros _. by apply Hed.
    + by rewrite Hno.
  - cbn in Ha. subst k. split_and!; try done. intros _. cbn. rewrite elem_of_difference, elem_of_singleton. tauto.
Qed.

(** *** A step of a task *)

Lemma service_ok_mono s log log' : service_ok s log -> service_ok s (log ++ log').
Proof.
  intros [Hp Ha Hd Hj]. split; [done| | |done].
  - intros key Hk. destruct (Ha key Hk); [left; by apply granted_session_mono|by right].
  - intros id key d H E. by eapply granted_mono, Hd.
Qed.

Lemma act_service_ok s log key id a : service_ok s log -> action_ok log key id a ->
  (is_remove a = true \/ sensitive a = true -> pending_host_approvals s !! key = Some id) ->
  (forall k, a = ApproveHost k -> key ∉ session_denied_hosts s) ->
  (forall k, a = DenyHost k -> key ∈ session_approved_hosts s -> key ∈ synced) ->
  service_ok (act s a) log.
Proof.
  intros [Hp Ha Hd Hj] Hok Hq Happ Hden.
  destruct a as [id' decision|nw|k|o|r o|k|k|k|k|am|am| |c|r|r|hosts]; cbn [act]; try done.
  - destruct Hok as [-> Hg]. split; [|done| |done].
    + intros k j Hk. destruct (Hp k j Hk) as [d Hl]. apply (act_approvals s (SetDecision id decision) _ _ _ Hl).
    + intros j k d. cbn [store_decision with_pending approvals]. destruct (decide (id = j)) as [<-|Hne].
      * rewrite list_lookup_alter_eq. destruct (Hp key id (Hq (or_intror eq_refl))) as [d' Hl]. rewrite Hl.
        cbn. intros [= <- <-]. apply Hg.
      * rewrite list_lookup_alter_ne by done. apply Hd.
  - split; [|done..]. intros k' j Hk. cbn in Hk. apply lookup_delete_Some in Hk as [_ Hk]. by apply Hp.
  - unfold record_call_outcome. by destruct (call_outcomes s !! r) as [[]|].
  - destruct Hok as [-> Hg]. split; [done| |done|].
    + cbn. intros k. rewrite elem_of_union, elem_of_singleton. intros [->|Hk]; [by left|by apply Ha].
    + cbn. intros k. rewrite elem_of_union, elem_of_singleton. intros [->|Hk] Hd'; [by destruct (Happ key eq_refl)|by apply Hj].
  - cbn in Hok. subst k. split; [done| |done|]; cbn; intros k; rewrite elem_of_difference; intros [Hk _]; [by apply Ha|by apply Hj].
  - cbn in Hok. subst k. split; [done..|]. cbn. intros k Hk. rewrite elem_of_union, elem_of_singleton.
    intros [->|Hk']; [by eapply Hden|by apply Hj].
  - cbn in Hok. subst k. split; [done..|]. cbn. intros k Hk. rewrite elem_of_difference. intros [Hk' _]. by apply Hj.
Qed.

(** What a step does: the service and the task stay in order, other questions
    are not touched, and a question is only started if there was none. *)
Record step_ok (s : NetworkApprovalService) (log : Log) (t : Task) (s' : NetworkApprovalService) (t' : Task)
    (log' : Log) : Prop := mkStepOk {
  st_service : service_ok s' log';
  st_task : task_ok s' log' t';
  st_approvals : forall id key d, approvals s !! id = Some (key, d) -> exists d', approvals s' !! id = Some (key, d');
  st_question : forall key, question t' = Some key -> question t = Some key \/ pending_host_approvals s !! key = None;
  st_others : forall key, question t <> Some key -> pending_host_approvals s !! key <> None -> same_for key s s';
}.

(** A step that only moves the task on *)
Lemma step_ok_idle s log log' t t' : service_ok s log -> task_ok s (log ++ log') t' ->
  (forall key, question t' = Some key -> question t = Some key) -> step_ok s log t s t' (log ++ log').
Proof. intros Hs Ht Hq. split; [by apply service_ok_mono|done|eauto|auto|intros key _ _; unfold same_for; tauto]. Qed.

Lemma acting_step_ok s log request id a l decision : service_ok s log ->
  task_ok s log (RequestTask request (Acting id (a :: l) decision)) ->
  step_ok s log (RequestTask request (Acting id (a :: l) decision)) (act s a)
    (RequestTask request (Acting id (rest s a l) decision)) (log ++ []).
Proof.
  intros Hs [Hok Hg]. rewrite app_nil_r. pose proof Hok as (Hr & [Ha _]%Forall_cons & Ho & Hea & Hed & _).
  assert (is_remove a = true \/ sensitive a = true -> removes (a :: l) = true) as Hrem.
  { intros [H|H]; unfold removes; cbn [existsb]; [by rewrite H|].
    cbn [ordered] in Ho. rewrite H in Ho. apply andb_true_iff in Ho as [[Ho _]%andb_true_iff _]. cbn in Ho.
    apply orb_true_iff. by right. }
  split.
  - eapply act_service_ok; [done|exact Ha|auto| |].
    + intros k ->. by apply Hea.
    + intros k ->. by apply Hed.
  - split; [by apply act_self|done].
  - intros. by eapply act_approvals.
  - intros key. cbn [question]. intros H. left.
    assert (removes (rest s a l) = true -> removes (a :: l) = true) as Hrest.
    { intros E. unfold removes. cbn [existsb]. apply orb_true_iff. right.
      destruct a; cbn [rest] in E; try exact E.
      by rewrite (proj1 (record_for_neutral _ _ _)) in E. }
    destruct (removes (rest s a l)); [|done]. by rewrite Hrest.
  - intros key Hk _. cbn [question] in Hk.
    destruct (is_remove a) eqn:E1; [|destruct (sensitive a) eqn:E2].
    + rewrite Hrem in Hk by auto. destruct (act_other log (key_of request) id s a key Ha ltac:(congruence)) as (? & ? & ?). unfold same_for. tauto.
    + rewrite Hrem in Hk by auto. destruct (act_other log (key_of request) id s a key Ha ltac:(congruence)) as (? & ? & ?). unfold same_for. tauto.
    + destruct (act_plain s a E2 E1) as (H1 & _ & H2 & H3); [by intros hosts ->|]. unfold same_for. rewrite H1, H2, H3. tauto.
Qed.

Lemma request_step_ok s log request stage input s' stage' : service_ok s log ->
  task_ok s log (RequestTask request stage) -> request_step s request stage input = (s', stage') ->
  step_ok s log (RequestTask request stage) s' (RequestTask request stage')
    (log ++ logged (RequestTask request stage) input).
Proof.
  intros Hs Ht. destruct stage as [| | |id|id n|id n|id|id oc|id [|a l] d|d]; cbn [request_step].
  - intros [= <- <-]. apply step_ok_idle; [done| |]; case_bool_decide; try done.
  - intros [= <- <-]. apply step_ok_idle; [done| |]; case_bool_decide as Hk; try done.
    intros _. destruct (so_approved _ _ Hs _ Hk) as [H|H]; [left|by right].
    by apply granted_mono, granted_session_granted.
  - unfold get_or_create_pending_approval. destruct (pending_host_approvals s !! key_of request) as [id|] eqn:E.
    + intros [= <- <-]. apply step_ok_idle; [done| |done]. by apply (so_pending _ _ Hs).
    + intros [= <- <-]. rewrite app_nil_r. destruct Hs as [Hp Ha Hd Hj]. split.
      * split; [|done| |done].
        -- intros key id. cbn. destruct (decide (key_of request = key)) as [<-|Hne].
           ++ rewrite lookup_insert_eq. intros [= <-]. exists None. by rewrite list_lookup_middle.
           ++ rewrite lookup_insert_ne by done. intros [d Hl]%Hp. exists d. by apply lookup_app_l_Some.
        -- cbn. intros id key d [Hl|[_ Hl]]%lookup_app_Some; [by eapply Hd|].
           apply list_lookup_singleton_Some in Hl as [_ [=]].
      * cbn. by rewrite lookup_insert_eq.
      * intros id key d Hl. exists d. by apply lookup_app_l_Some.
      * intros key [= <-]. by right.
      * intros key _ Hk. split; [|cbn; tauto]. cbn. apply lookup_insert_ne. congruence.
  - intros [= <- <-]. by apply step_ok_idle.
  - intros [= <- <-]. apply step_ok_idle; [done| |by destruct (decision_at s id)].
    destruct Ht as [d Hl]. unfold decision_at. rewrite Hl. destruct d as [d|]; cbn; [|by eexists].
    intros E. left. by eapply granted_mono, (so_decided _ _ Hs).
  - intros [= <- <-]. apply step_ok_idle; [done| |by destruct (completed (notify_at s id) n)].
    destruct (completed (notify_at s id) n); exact Ht.
  - destruct input as [|turn|]; try (intros [= <- <-]; by apply step_ok_idle).
    intros [= <- <-]. cbn in Ht. destruct turn as [turn|]; [destruct (_ && _)|]; (apply step_ok_idle; [done| |done]);
      try (split; [by apply refuse_actions_ok|by intros [=]]).
    done.
  - destruct input as [| |answer]; try (intros [= <- <-]; by apply step_ok_idle).
    destruct (answer_actions request id oc answer) as [l d] eqn:E. intros [= <- <-].
    apply step_ok_idle; [done| |by cbn; destruct (removes l)].
    eapply answer_actions_ok; [exact E| |done]. apply elem_of_app. right. left.
  - intros [= <- <-]. apply step_ok_idle; [done| |done]. intros H. left. apply granted_mono. by apply Ht.
  - intros [= <- <-]. by apply acting_step_ok.
  - intros [= <- <-]. apply step_ok_idle; [done| |done]. intros H. destruct (Ht H); [left; by apply granted_mono|by right].
Qed.

Lemma task_step_ok s log t input s' t' : service_ok s log -> task_ok s log t -> task_step s t input = (s', t') ->
  step_ok s log t s' t' (log ++ logged t input).
Proof.
  intros Hs Ht. destruct t as [request stage|[|a l]|]; cbn [task_step].
  - destruct (request_step s request stage input) as [s1 stage1] eqn:E. intros [= <- <-]. by apply request_step_ok.
  - intros [= <- <-]. by apply step_ok_idle.
  - intros [= <- <-]. apply Forall_cons in Ht as [Ha Hl]. rewrite app_nil_r.
    destruct (act_other_action s a Ha) as (E1 & E2 & E3 & E4).
    split.
    + destruct Hs as [Hp Hap Hd Hj]. split; rewrite ?E1, ?E2, ?E3; [done| |done|].
      * intros key [Hk|Hk]%E4; [by apply Hap|right; by apply Hsynced].
      * intros key [Hk|Hk]%E4 Hden; [by apply Hj|done].
    + cbn. destruct a; try done. cbn [rest]. apply Forall_app. split; [|done].
      destruct (resolve_single_active_call s); by repeat constructor.
    + intros id key d H. exists d. by rewrite E2.
    + done.
    + intros key _ _. unfold same_for. rewrite E1, E3. split_and!; [done..|apply E4].
  - intros [= <- <-]. by apply step_ok_idle.
Qed.

Lemma question_pending s log t key : task_ok s log t -> question t = Some key ->
  pending_host_approvals s !! key <> None.
Proof.
  destruct t as [request stage|l|]; cbn; [|done..]. destruct stage as [| | |id|id n|id n|id|id oc|id l d|d]; cbn; try done.
  - intros H [= <-]. by rewrite H.
  - intros H [= <-]. by rewrite H.
  - intros [(Hr & _) _]. destruct (removes l); [|done]. intros [= <-]. by rewrite Hr.
Qed.

Lemma other_actions_ok l : Forall is_other_action l -> ⋃ (brings <$> l) ⊆ synced -> Forall other_action l.
Proof.
  induction 1 as [|a l Ha Hl IH]; cbn [fmap list_fmap union_list foldr]; [constructor|]. intros [H1 H2]%union_subseteq.
  constructor; [by destruct a|by apply IH].
Qed.

Definition event_known (e : StepEvent) : Prop := event_ok e /\ brought e ⊆ synced.

Lemma conf_step_ok c e : event_known e -> conf_ok c -> conf_ok (conf_step c e).
Proof.
  intros [Hsp Hbr] [Hs Ht Hu]. destruct e as [t|i input|i]; cbn [conf_step].
  - assert (question t = None /\ task_ok (service c) (answers c) t) as [Hq Hok].
    { destruct Hsp as [[request ->]|(l & -> & Hl)]; [done|]. split; [done|]. by apply other_actions_ok. }
    split; cbn; [done|apply Forall_app; split; [done|by constructor]|].
    intros i j t1 t2 key [H1|[_ H1]]%lookup_app_Some [H2|[_ H2]]%lookup_app_Some Q1 Q2.
    + by eapply Hu.
    + apply list_lookup_singleton_Some in H2 as [_ <-]. congruence.
    + apply list_lookup_singleton_Some in H1 as [_ <-]. congruence.
    + apply list_lookup_singleton_Some in H1 as [_ <-]. congruence.
  - destruct (tasks c !! i) as [t|] eqn:Ei; [|done].
    destruct (task_step (service c) t input) as [s' t'] eqn:E.
    pose proof (proj1 (Forall_lookup _ _) Ht) as Hall.
    destruct (task_step_ok _ (answers c) _ _ _ _ Hs (Hall _ _ Ei) E) as [Hs' Ht' Hap Hq Ho].
    assert (forall j tj key, tasks c !! j = Some tj -> j <> i -> question tj = Some key ->
      question t <> Some key /\ pending_host_approvals (service c) !! key <> None) as Hother.
    { intros j tj key Hj Hne Hk. split; [intros Hk'; by apply Hne; eapply Hu|by eapply question_pending; eauto]. }
    split; cbn; [done| |].
    + apply Forall_lookup. intros j tj Hj. destruct (decide (j = i)) as [->|Hne].
      * rewrite list_lookup_insert_eq in Hj by (by eapply lookup_lt_Some). by injection Hj as <-.
      * rewrite list_lookup_insert_ne in Hj by done. apply task_ok_frame with (s := service c); [by eapply Hall|done|].
        intros key Hk. destruct (Hother j tj key Hj Hne Hk). by apply Ho.
    + assert (forall j tj key, tasks c !! j = Some tj -> j <> i -> question t' = Some key -> question tj = Some key -> False) as Hno.
      { intros j tj key Hj Hne Q1 Q2. destruct (Hother j tj key Hj Hne Q2) as [N1 N2].
        destruct (Hq key Q1); [by apply N1|by apply N2]. }
      intros j k t1 t2 key H1 H2 Q1 Q2. destruct (decide (j = i)) as [->|Nj], (decide (k = i)) as [->|Nk]; [done|..].
      * rewrite list_lookup_insert_eq in H1 by (by eapply lookup_lt_Some). injection H1 as <-.
        rewrite list_lookup_insert_ne in H2 by done. by destruct (Hno k t2 key H2 Nk Q1).
      * rewrite list_lookup_insert_eq in H2 by (by eapply lookup_lt_Some). injection H2 as <-.
        rewrite list_lookup_insert_ne in H1 by done. by destruct (Hno j t1 key H1 Nj Q2).
      * rewrite list_lookup_insert_ne in H1, H2 by done. by eapply Hu.
  - assert (forall j tj, alter (fun _ => Dropped) i (tasks c) !! j = Some tj -> tj = Dropped \/ tasks c !! j = Some tj) as Hl.
    { intros j tj. destruct (decide (i = j)) as [<-|Hne].
      - rewrite list_lookup_alter_eq. destruct (tasks c !! i); [|done]. intros [= <-]. by left.
      - rewrite list_lookup_alter_ne by done. by right. }
    split; cbn; [done| |].
    + apply Forall_lookup. intros j tj [->|Hj]%Hl; [done|]. by eapply Forall_lookup_1.
    + intros j k t1 t2 key [->|H1]%Hl [->|H2]%Hl Q1 Q2; try done. by eapply Hu.
Qed.

Lemma conf_start_ok approved0 : approved0 ⊆ known -> conf_ok (conf_start approved0).
Proof.
  intros Hk. split; cbn; [|constructor|done]. split; cbn; try done. intros key Hin. right. by apply Hk.
Qed.

Lemma conf_run_ok approved0 events : approved0 ⊆ known -> Forall event_known events ->
  conf_ok (conf_run approved0 events).
Proof.
  unfold conf_run. intros Hk%conf_start_ok. revert Hk. generalize (conf_start approved0) as c.
  intros c Hc He. revert c Hc. induction He as [|e events He Hes IH]; intros c Hc; [done|]. by apply IH, conf_step_ok.
Qed.

(** *** No request waits in vain *)

(** The task will set the decision. *)
Definition settles (id : nat) (t : Task) : Prop :=
  match t with
  | RequestTask _ (Owning id' | Asking id' _) => id' = id
  | RequestTask _ (Acting id' l _) => id' = id /\ exists d, SetDecision id d ∈ l
  | _ => False
  end.

Definition attended (c : Conf) : Prop :=
  forall id key, approvals (service c) !! id = Some (key, None) -> exists j t, tasks c !! j = Some t /\ settles id t.

Lemma answer_settles request id owner_call answer : exists d, SetDecision id d ∈ (answer_actions request id owner_call answer).1.
Proof.
  destruct answer as [[|m]|rejection review persisted]; cbn [answer_actions fst].
  - exists AllowOnce. left.
  - exists PendingDeny. apply elem_of_app. right. left.
  - destruct (resolve_review _ _ _ _) as [[first resolved] deny]. exists resolved. cbn [fst].
    apply elem_of_app. right. apply elem_of_app. right. left.
Qed.

Lemma rest_keeps s a l id d : SetDecision id d ∈ l -> SetDecision id d ∈ rest s a l.
Proof. destruct a; try done. cbn [rest]. rewrite elem_of_app. by right. Qed.

Lemma act_unset s a id key : approvals (act s a) !! id = Some (key, None) ->
  approvals s !! id = Some (key, None) /\ forall d, a <> SetDecision id d.
Proof.
  destruct a as [id' decision|nw|k|o|r o|k|k|k|k|am|am| |c|r|r|hosts]; cbn [act]; try done.
  - cbn [store_decision with_pending approvals]. destruct (decide (id' = id)) as [->|Hne].
    + rewrite list_lookup_alter_eq. by destruct (approvals s !! id).
    + rewrite list_lookup_alter_ne by done. split; [done|]. by intros d [= ->].
  - unfold record_call_outcome. by destruct (call_outcomes s !! r) as [[]|].
Qed.

(** A step leaves what is unset to the task, or settles it. *)
Lemma task_step_attends s t input s' t' id key : task_step s t input = (s', t') ->
  approvals s' !! id = Some (key, None) ->
  settles id t' \/ (approvals s !! id = Some (key, None) /\ (settles id t -> settles id t')).
Proof.
  destruct t as [request stage|[|a l]|]; cbn [task_step].
  - destruct (request_step s request stage input) as [s1 stage1] eqn:E. intros [= <- <-]. revert E.
    destruct stage as [| | |i|i n|i n|i|i oc|i [|a l] d|d]; cbn [request_step].
    1,2,4,5,6,11: (intros [= <- <-] H; right; split; [done|intros []]).
    + unfold get_or_create_pending_approval. destruct (pending_host_approvals s !! key_of request); [by intros [= <- <-] H; right; split; [|intros []]|].
      intros [= <- <-]. cbn. intros [Hl|[Hlen Hl]]%lookup_app_Some; [right; split; [done|intros []]|].
      left. apply lookup_lt_Some in Hl. cbn in Hl. lia.
    + destruct input as [|turn|]; try (by intros [= <- <-]; right). intros [= <- <-] Hn. right. split; [done|].
      intros ->. destruct turn as [turn|]; [destruct (_ && _); [done|]|]; (split; [done|]; exists PendingDeny; left).
    + destruct input as [| |answer]; try (by intros [= <- <-]; right).
      pose proof (answer_settles request i oc answer) as Hset. destruct (answer_actions request i oc answer) as [l d].
      intros [= <- <-] Hn. right. split; [done|]. by intros <-.
    + intros [= <- <-] Hn. right. split; [done|]. intros [_ [? H]]. by apply elem_of_nil in H.
    + intros [= <- <-] Hn. destruct (act_unset _ _ _ _ Hn) as [Hn' Ha]. right. split; [done|].
      intros [-> [d' Hd]]. apply elem_of_cons in Hd as [<-|Hd]; [by destruct (Ha d')|]. split; [done|]. exists d'. by apply rest_keeps.
  - intros [= <- <-] Hn. by right.
  - intros [= <- <-] Hn. right. split; [by apply act_unset in Hn as []|done].
  - intros [= <- <-] Hn. by right.
Qed.

Lemma conf_step_attended c e : (forall i, e <> Drop i) -> attended c -> attended (conf_step c e).
Proof.
  intros Hd Ha. destruct e as [t|i input|i]; cbn [conf_step]; [|destruct (tasks c !! i) as [t|] eqn:Ei; [|done]|by destruct (Hd i)].
  - intros id key H. destruct (Ha id key H) as (j & tj & Hj & Hs). exists j, tj. split; [by apply lookup_app_l_Some|done].
  - destruct (task_step (service c) t input) as [s' t'] eqn:E. intros id key H. cbn in H |- *.
    assert (<[i := t']> (tasks c) !! i = Some t') as Hi by (apply list_lookup_insert_eq; by eapply lookup_lt_Some).
    destruct (task_step_attends _ _ _ _ _ _ _ E H) as [Hs|[Hn Hk]]; [by exists i, t'|].
    destruct (Ha id key Hn) as (j & tj & Hj & Hs). destruct (decide (j = i)) as [->|Hne].
    + exists i, t'. split; [done|]. apply Hk. congruence.
    + exists j, tj. by rewrite list_lookup_insert_ne.
Qed.

(** *** No wakeup is lost *)

(** The task will call [notify_waiters]. *)
Definition will_notify (id : nat) (t : Task) : Prop :=
  match t with RequestTask _ (Acting _ l _) => NotifyWaiters id ∈ l | _ => False end.

(** After each decision comes the call. *)
Fixpoint wakes_after (l : list Action) : Prop :=
  match l with [] => True | a :: l => (forall id d, a = SetDecision id d -> NotifyWaiters id ∈ l) /\ wakes_after l end.

Definition task_wakes (s : NetworkApprovalService) (t : Task) : Prop :=
  match t with
  | RequestTask _ (Acting _ l _) => wakes_after l
  | RequestTask _ (Listening id n | Suspended id n) => created_from (notify_at s id) n
  | _ => True
  end.

(** A task that is suspended, and is not woken, waits for a decision that is
    still to come or for a call that is. *)
Record no_lost_wakeup (c : Conf) : Prop := mkNoLostWakeup {
  nl_tasks : Forall (task_wakes (service c)) (tasks c);
  nl_suspended : forall i request id n, tasks c !! i = Some (RequestTask request (Suspended id n)) ->
    completed (notify_at (service c) id) n = false ->
    decision_at (service c) id = None \/ exists j t, tasks c !! j = Some t /\ will_notify id t;
}.

Lemma notify_act s a id : (a = NotifyWaiters id /\ notify_at (act s a) id = notify_waiters (notify_at s id)) \/
  (a <> NotifyWaiters id /\ notify_at (act s a) id = notify_at s id).
Proof.
  destruct a as [id' decision|nw|k|o|r o|k|k|k|k|am|am| |c|r|r|hosts]; cbn [act]; try (right; done).
  - unfold call_waiters, notify_at. cbn. destruct (decide (nw = id)) as [->|Hne].
    + left. by rewrite lookup_insert_eq.
    + right. rewrite lookup_insert_ne by done. split; [congruence|done].
  - right. unfold record_call_outcome. by destruct (call_outcomes s !! r) as [[]|].
Qed.

(** A step calls the waiters of a question, or leaves its [Notify] alone. *)
Definition moves (s s' : NetworkApprovalService) (id : nat) : Prop :=
  notify_at s' id = notify_waiters (notify_at s id) \/ notify_at s' id = notify_at s id.

Lemma moves_act s a id : moves s (act s a) id.
Proof. destruct (notify_act s a id) as [[_ E]|[_ E]]; [by left|by right]. Qed.

Lemma moves_created s s' id f : moves s s' id -> created_from (notify_at s id) f -> created_from (notify_at s' id) f.
Proof. intros [->| ->] H; [by apply notify_created|done]. Qed.

Lemma moves_completed s s' id f : moves s s' id -> created_from (notify_at s id) f ->
  completed (notify_at s id) f = true -> completed (notify_at s' id) f = true.
Proof. intros [->| ->] H; [by intros _; apply notify_completes|done]. Qed.

(** Either the service is as it was but for a new question, or an action is done. *)
Lemma request_step_service s request stage input s' stage' : request_step s request stage input = (s', stage') ->
  (exists id a l d, stage = Acting id (a :: l) d /\ s' = act s a /\ stage' = Acting id (rest s a l) d) \/
  (notifies s' = notifies s /\ forall id, decision_at s' id = decision_at s id).
Proof.
  destruct stage as [| | |i|i n|i n|i|i oc|i [|a l] d|d]; cbn [request_step]; try (intros [= <- <-]; by right).
  - unfold get_or_create_pending_approval. destruct (pending_host_approvals s !! key_of request); intros [= <- <-]; [by right|].
    right. split; [done|]. intros id. unfold decision_at. cbn.
    destruct (approvals s !! id) as [e|] eqn:E; [by rewrite (lookup_app_l_Some _ _ _ _ E)|]. cbn.
    destruct ((approvals s ++ [(key_of request, None)]) !! id) as [e|] eqn:E'; [|done].
    apply lookup_app_Some in E' as [E'|[_ E']]; [congruence|]. by apply list_lookup_singleton_Some in E' as [_ <-].
  - destruct input; intros [= <- <-]; by right.
  - destruct input as [| |answer]; [intros [= <- <-]; by right..|].
    destruct (answer_actions request i oc answer). intros [= <- <-]. by right.
  - intros [= <- <-]. left. by eexists _, _, _, _.
Qed.

Lemma task_step_moves s t input s' t' id : task_step s t input = (s', t') -> moves s s' id.
Proof.
  destruct t as [request stage|[|a l]|]; cbn [task_step]; try (intros [= <- <-]; first [apply moves_act|by right]).
  destruct (request_step s request stage input) as [s1 stage1] eqn:E. intros [= <- <-].
  destruct (request_step_service _ _ _ _ _ _ E) as [(? & ? & ? & ? & _ & -> & _)|[Hn _]]; [apply moves_act|].
  right. unfold notify_at. by rewrite Hn.
Qed.

Lemma decision_act s a id : decision_at s id = None -> decision_at (act s a) id = None \/ exists d, a = SetDecision id d.
Proof.
  unfold decision_at. intros H. destruct a as [id' d|nw|k|o|r o|k|k|k|k|am|am| |c|r|r|hosts]; cbn [act]; try (left; done).
  - destruct (decide (id' = id)) as [->|Hne]; [right; by exists d|left].
    cbn [store_decision approvals with_pending]. by rewrite list_lookup_alter_ne.
  - left. unfold record_call_outcome. by destruct (call_outcomes s !! r) as [[]|].
Qed.

Lemma decision_step s log t input s' t' id : task_ok s log t -> task_wakes s t -> task_step s t input = (s', t') ->
  decision_at s id = None -> decision_at s' id = None \/ will_notify id t'.
Proof.
  intros Hok Hw. destruct t as [request stage|[|a l]|]; cbn [task_step]; try (intros [= <- <-]; by left).
  - destruct (request_step s request stage input) as [s1 stage1] eqn:E. intros [= <- <-] Hn.
    destruct (request_step_service _ _ _ _ _ _ E) as [(i & a & l & d & -> & -> & ->)|[_ Hd]]; [|left; by rewrite Hd].
    destruct (decision_act _ a _ Hn) as [?|[d' ->]]; [by left|right]. destruct Hw as [Hw _]. by eapply Hw.
  - intros [= <- <-] Hn. left. apply Forall_cons in Hok as [Ha _].
    destruct (decision_act _ a _ Hn) as [?|[d' ->]]; [done|done].
Qed.

Lemma rest_notifies s a l id : NotifyWaiters id ∈ l -> NotifyWaiters id ∈ rest s a l.
Proof. destruct a; try done. cbn [rest]. rewrite elem_of_app. by right. Qed.

Lemma notifier_step s t input s' t' id : will_notify id t -> task_step s t input = (s', t') ->
  will_notify id t' \/ notify_at s' id = notify_waiters (notify_at s id).
Proof.
  destruct t as [request [| | |i|i n|i n|i|i oc|i [|a l] d|d]|l|]; try done; cbn [task_step request_step].
  - intros H. by apply elem_of_nil in H.
  - intros [<-|H]%elem_of_cons [= <- <-].
    + right. by destruct (notify_act s (NotifyWaiters id) id) as [[_ E]|[? _]].
    + left. by apply rest_notifies.
Qed.

Lemma wakes_after_app l l' : wakes_after l -> wakes_after l' -> wakes_after (l ++ l').
Proof.
  induction l as [|a l IH]; [done|]. intros [Ha Hl] Hl'. split; [|by apply IH].
  intros id d E. apply elem_of_app. left. by eapply Ha.
Qed.
Lemma no_set_wakes l : Forall (fun a => match a with SetDecision _ _ => False | _ => True end) l -> wakes_after l.
Proof. induction 1 as [|a l Ha Hl IH]; [done|]. split; [by intros id d ->|done]. Qed.
Lemma wakes_after_record owner_call outcome : wakes_after (record_for owner_call outcome).
Proof. apply no_set_wakes. destruct owner_call; by repeat constructor. Qed.
Lemma wakes_after_rest s a l : wakes_after l -> wakes_after (rest s a l).
Proof. destruct a; try done. intros H. apply wakes_after_app; [apply wakes_after_record|done]. Qed.
Lemma wakes_after_set id d l : wakes_after l -> wakes_after (set_decision id d ++ l).
Proof. intros H. split; [intros id' d' [= -> ->]; left|]. split; [by intros ? ? [=]|done]. Qed.

Lemma answer_wakes request id owner_call answer : wakes_after (answer_actions request id owner_call answer).1.
Proof.
  destruct answer as [[|m]|rejection review persisted]; cbn [answer_actions fst].
  - by apply wakes_after_set.
  - apply wakes_after_app; [apply wakes_after_record|by apply wakes_after_set].
  - destruct (resolve_review owner_call rejection review persisted) as [[first resolved] deny] eqn:E. cbn [fst].
    apply wakes_after_app; [|apply wakes_after_app; [|by apply wakes_after_set]]; apply no_set_wakes.
    + unfold resolve_review, persist_actions in E. destruct owner_call; repeat case_match; simplify_eq; by repeat constructor.
    + destruct resolved, deny; by repeat constructor.
Qed.

Lemma task_step_wakes s t input s' t' : task_wakes s t -> task_step s t input = (s', t') -> task_wakes s' t'.
Proof.
  destruct t as [request stage|[|a l]|]; cbn [task_step]; try (intros _ [= <- <-]; done).
  destruct (request_step s request stage input) as [s1 stage1] eqn:E. intros Hw [= <- <-]. revert E.
  destruct stage as [| | |i|i n|i n|i|i oc|i [|a l] d|d]; cbn [request_step]; try (intros [= <- <-]; done).
  - intros [= <- <-]. by case_bool_decide.
  - intros [= <- <-]. by case_bool_decide.
  - unfold get_or_create_pending_approval. destruct (pending_host_approvals s !! key_of request); by intros [= <- <-].
  - intros [= <- <-]. apply notified_created.
  - intros [= <- <-]. by destruct (decision_at s i).
  - intros [= <- <-]. by destruct (completed (notify_at s i) n).
  - destruct input as [|turn|]; try (by intros [= <- <-]). intros [= <- <-].
    destruct turn; [destruct (_ && _); [done|]|]; by apply wakes_after_set.
  - destruct input as [| |answer]; try (by intros [= <- <-]). pose proof (answer_wakes request i oc answer) as H.
    destruct (answer_actions request i oc answer). by intros [= <- <-].
  - intros [= <- <-]. apply wakes_after_rest, Hw.
Qed.

Lemma task_wakes_mono s s' t : (forall id, moves s s' id) -> task_wakes s t -> task_wakes s' t.
Proof. intros H. destruct t as [request []|l|]; cbn; try done; by apply moves_created. Qed.

Lemma suspended_step s t input s' request id n : task_step s t input = (s', RequestTask request (Suspended id n)) ->
  t = RequestTask request (Suspended id n) \/ decision_at s' id = None.
Proof.
  destruct t as [r stage|[|a l]|]; cbn [task_step]; try done.
  destruct (request_step s r stage input) as [s1 stage1] eqn:E. intros [= <- <- ->]. revert E.
  destruct stage as [| | |i|i m|i m|i|i oc|i [|a l] d|d]; cbn [request_step]; try done.
  - by case_bool_decide.
  - by case_bool_decide.
  - unfold get_or_create_pending_approval. by destruct (pending_host_approvals s !! key_of r).
  - destruct (decision_at s i) eqn:Ed; [done|]. intros [= <- <- <-]. by right.
  - destruct (completed (notify_at s i) m); [done|]. intros [= <- <- <-]. by left.
  - destruct input as [|turn|]; try done. intros [= _ E]. by destruct turn; [destruct (_ && _)|].
  - destruct input as [| |answer]; try done. by destruct (answer_actions r i oc answer).
Qed.

Lemma conf_step_wakes c e : event_known e -> (forall i, e <> Drop i) -> conf_ok c -> no_lost_wakeup c ->
  no_lost_wakeup (conf_step c e).
Proof.
  intros [He _] Hd Hc [Hw Hs]. destruct e as [t|i input|i]; cbn [conf_step]; [| |by destruct (Hd i)].
  - split; cbn.
    + apply Forall_app. split; [done|]. constructor; [|done]. by destruct He as [[r ->]|(l & -> & _)].
    + intros j r id n [Hj|[_ Hj]]%lookup_app_Some Hn.
      * destruct (Hs j r id n Hj Hn) as [?|(k & tk & Hk & Hnk)]; [by left|right].
        exists k, tk. split; [by apply lookup_app_l_Some|done].
      * apply list_lookup_singleton_Some in Hj as [_ ->]. by destruct He as [[r' [=]]|(l & [=] & _)].
  - destruct (tasks c !! i) as [t|] eqn:Ei; [|by split].
    destruct (task_step (service c) t input) as [s' t'] eqn:E.
    pose proof (proj1 (Forall_lookup _ _) Hw) as Hall.
    pose proof (fun id => task_step_moves _ _ _ _ _ id E) as Hmono.
    pose proof (proj1 (Forall_lookup _ _) (co_tasks _ Hc) _ _ Ei) as Hti.
    assert (i < length (tasks c)) as Hlen by (by eapply lookup_lt_Some).
    assert (<[i := t']> (tasks c) !! i = Some t') as Hi by (by apply list_lookup_insert_eq).
    split; cbn.
    + apply Forall_insert; [by eapply Forall_impl; [exact Hw|]; intros tt; apply task_wakes_mono|].
      eapply task_step_wakes; [by apply (Hall i)|exact E].
    + intros j r id n Hj Hn.
      assert (decision_at s' id = None \/ tasks c !! j = Some (RequestTask r (Suspended id n))) as [?|Hj']; [|by left|].
      { destruct (decide (j = i)) as [->|Hne].
        - rewrite Hi in Hj. injection Hj as ->. destruct (suspended_step _ _ _ _ _ _ _ E) as [->|?]; [by right|by left].
        - rewrite list_lookup_insert_ne in Hj by done. by right. }
      pose proof (Hall _ _ Hj') as Hle. cbn in Hle.
      assert (notify_at s' id = notify_at (service c) id) as Hsame.
      { destruct (Hmono id) as [Hm|Hm]; [|done]. rewrite Hm, notify_completes in Hn by done. done. }
      assert (completed (notify_at (service c) id) n = false) as Hn' by (by rewrite <- Hsame).
      destruct (Hs j r id n Hj' Hn') as [Hnone|(k & tk & Hk & Hnk)].
      * destruct (decision_step _ _ _ _ _ _ id Hti (Hall _ _ Ei) E Hnone) as [?|?]; [by left|right]. by exists i, t'.
      * right. destruct (decide (k = i)) as [->|Hne]; [|exists k, tk; by rewrite list_lookup_insert_ne].
        rewrite Ei in Hk. injection Hk as <-. destruct (notifier_step _ _ _ _ _ id Hnk E) as [?|Hm]; [by exists i, t'|].
        rewrite Hm, notify_completes in Hn by done. done.
Qed.

Definition is_run (e : StepEvent) : Prop := match e with Run _ _ => True | _ => False end.

(** What running the tasks can lead to *)
Definition runs (c c' : Conf) : Prop := exists more, Forall is_run more /\ fold_left conf_step more c = c'.

Lemma runs_refl c : runs c c.
Proof. by exists []. Qed.
Lemma runs_trans c1 c2 c3 : runs c1 c2 -> runs c2 c3 -> runs c1 c3.
Proof.
  intros (m1 & F1 & <-) (m2 & F2 & <-). exists (m1 ++ m2). split; [by apply Forall_app|by rewrite fold_left_app].
Qed.
Lemma runs_step c i input c' : runs (conf_step c (Run i input)) c' -> runs c c'.
Proof. apply runs_trans. exists [Run i input]. split; [by repeat constructor|done]. Qed.

(** All that holds as long as no request is dropped *)
Record live (c : Conf) : Prop := mkLive { lv_ok : conf_ok c; lv_attended : attended c; lv_wakeups : no_lost_wakeup c }.

Lemma conf_step_live c e : event_known e -> (forall i, e <> Drop i) -> live c -> live (conf_step c e).
Proof.
  intros He Hd [Hc Ha Hw]. split; [by apply conf_step_ok|by apply conf_step_attended|by apply conf_step_wakes].
Qed.

Lemma runs_live c c' : runs c c' -> live c -> live c'.
Proof.
  intros (more & F & <-). revert c. induction F as [|e more He F IH]; intros c Hc; [done|].
  apply IH, conf_step_live; [by destruct e|by intros i ->|done].
Qed.

Lemma conf_start_live approved0 : approved0 ⊆ known -> live (conf_start approved0).
Proof. intros Hk. split; [by apply conf_start_ok|by intros id key H|split; [constructor|done]]. Qed.

Lemma conf_run_live approved0 events : approved0 ⊆ known -> Forall event_known events ->
  Forall (fun e => forall i, e <> Drop i) events -> live (conf_run approved0 events).
Proof.
  unfold conf_run. intros Hk%conf_start_live He Hd. revert Hk. generalize (conf_start approved0) as c. revert Hd.
  induction He as [|e events He Hes IH]; intros Hd c Hc; [done|]. apply Forall_cons in Hd as [? ?].
  by apply IH, conf_step_live.
Qed.

Lemma act_settles s a id key o : approvals s !! id = Some (key, o) ->
  (exists d, decision_at s id = Some d) \/ (exists d, a = SetDecision id d) -> exists d, decision_at (act s a) id = Some d.
Proof.
  intros Hl [[d H]|[d ->]].
  - unfold decision_at in *. destruct (approvals (act s a) !! id) as [[k' [d'|]]|] eqn:E; [by exists d'| |].
    + apply act_unset in E as [E _]. by rewrite E in H.
    + destruct (act_approvals s a id key o Hl) as [d' Hd]. congruence.
  - unfold decision_at. cbn [act store_decision with_pending approvals]. rewrite list_lookup_alter_eq, Hl. by exists d.
Qed.

(** A decision stays. *)
Lemma decision_step_keeps s t input s' t' id d : task_step s t input = (s', t') ->
  decision_at s id = Some d -> exists d', decision_at s' id = Some d'.
Proof.
  intros E Hd. destruct (decision_at s' id) as [d'|] eqn:Hd'; [by exists d'|].
  assert (exists key o, approvals s !! id = Some (key, o)) as (key & o & Hl).
  { unfold decision_at in Hd. destruct (approvals s !! id) as [[key o]|]; [by exists key, o|done]. }
  assert (forall a, s' = act s a -> exists d', decision_at s' id = Some d') as Hact.
  { intros a ->. eapply act_settles; [exact Hl|left; by exists d]. }
  destruct t as [request stage|[|a l]|]; cbn [task_step] in E.
  - destruct (request_step s request stage input) as [s1 stage1] eqn:Es. injection E as <- <-.
    destruct (request_step_service _ _ _ _ _ _ Es) as [(i & a & l & dd & _ & -> & _)|[_ H]]; [rewrite <- Hd'; by eapply Hact|].
    rewrite H in Hd'. congruence.
  - injection E as <- <-. congruence.
  - injection E as <- <-. rewrite <- Hd'. by eapply Hact.
  - injection E as <- <-. congruence.
Qed.

(** A step of a request *)
Lemma run_request c i request stage input s' stage' : tasks c !! i = Some (RequestTask request stage) ->
  request_step (service c) request stage input = (s', stage') ->
  conf_step c (Run i input)
  = mkConf s' (<[i := RequestTask request stage']> (tasks c)) (answers c ++ logged (RequestTask request stage) input).
Proof. intros Hi E. cbn [conf_step]. rewrite Hi. cbn [task_step]. by rewrite E. Qed.

Fixpoint todo (l : list Action) : nat :=
  match l with [] => 0 | RecordSingle _ :: l => 2 + todo l | _ :: l => 1 + todo l end.

Lemma todo_rest s a l : todo (rest s a l) < todo (a :: l).
Proof. destruct a; cbn [rest todo]; try lia. destruct (resolve_single_active_call s); cbn; lia. Qed.

Definition settled (c : Conf) (id : nat) : Prop := exists d, decision_at (service c) id = Some d.

(** The task has come to its end, and the others are where they were. *)
Definition finished (c c' : Conf) (j : nat) (request : NetworkPolicyRequest) : Prop :=
  (exists d, tasks c' !! j = Some (RequestTask request (Decided d))) /\
  forall k, k <> j -> tasks c' !! k = tasks c !! k.

Lemma finished_step c c1 c' j request stage : finished c1 c' j request ->
  tasks c1 = <[j := RequestTask request stage]> (tasks c) -> finished c c' j request.
Proof. intros [Hd Ho] E. split; [done|]. intros k Hk. rewrite Ho, E by done. by apply list_lookup_insert_ne. Qed.

Lemma run_lookup c i request stage input s' stage' : tasks c !! i = Some (RequestTask request stage) ->
  request_step (service c) request stage input = (s', stage') ->
  tasks (conf_step c (Run i input)) !! i = Some (RequestTask request stage') /\ service (conf_step c (Run i input)) = s'.
Proof.
  intros Hi Es. rewrite (run_request c i request stage input _ _ Hi Es). cbn. split; [|done].
  apply list_lookup_insert_eq. by eapply lookup_lt_Some.
Qed.

(** The actions come to their end: the decision is set, those who wait for it
    are called. *)
Lemma acting_finishes n : forall c j request id l decision, todo l <= n ->
  tasks c !! j = Some (RequestTask request (Acting id l decision)) ->
  exists c', runs c c' /\ finished c c' j request /\
    (forall id' d, SetDecision id' d ∈ l -> (exists e, approvals (service c) !! id' = Some e) -> settled c' id') /\
    (forall id', settled c id' -> settled c' id') /\
    (forall id' f, created_from (notify_at (service c) id') f ->
       completed (notify_at (service c) id') f = true \/ NotifyWaiters id' ∈ l ->
       completed (notify_at (service c') id') f = true).
Proof.
  induction n as [|n IH]; intros c j request id l decision Hn Hj.
  all: destruct l as [|a l]; [|try (pose proof (todo_rest (service c) a l); lia)].
  1,2: destruct (run_lookup c j request _ Nothing _ _ Hj eq_refl) as [Hj' Hs'];
    eexists; split; [eapply runs_step, runs_refl|]; split;
    [split; [by eexists|]; intros k Hk; rewrite (run_request c j request _ Nothing _ _ Hj eq_refl); by apply list_lookup_insert_ne
    |unfold settled; rewrite Hs'; split_and!; try done; [by intros ? ? []%elem_of_nil|by intros ? ? _ [?|[]%elem_of_nil]]].
  destruct (run_lookup c j request _ Nothing _ _ Hj eq_refl) as [Hj' Hs'].
  destruct (IH _ j request id (rest (service c) a l) decision ltac:(pose proof (todo_rest (service c) a l); lia) Hj')
    as (c' & Hr & Hf & Hset & Hkeep & Hcompl).
  unfold settled in *. rewrite Hs' in *.
  assert (forall id' e, approvals (service c) !! id' = Some e -> exists e', approvals (act (service c) a) !! id' = Some e') as Hap.
  { intros id' [key o] Hl. destruct (act_approvals (service c) a id' key o Hl) as [o' Hl']. by eexists. }
  exists c'. split_and!; [by eapply runs_step| | | |].
  - eapply finished_step; [done|]. by rewrite (run_request c j request _ Nothing _ _ Hj eq_refl).
  - intros id' d [<-|Hd]%elem_of_cons [[key o] Hl].
    + apply Hkeep. eapply act_settles; [exact Hl|right; by exists d].
    + eapply Hset; [by apply rest_keeps|by eapply Hap].
  - intros id' [d Hd]. apply Hkeep.
    assert (exists key o, approvals (service c) !! id' = Some (key, o)) as (key & o & Hl).
    { unfold decision_at in Hd. destruct (approvals (service c) !! id') as [[key o]|]; [by exists key, o|done]. }
    eapply act_settles; [exact Hl|left; by exists d].
  - intros id' f Hf' Hor. apply Hcompl; [by eapply moves_created; [apply moves_act|]|].
    destruct Hor as [Hc|[<-|Hd]%elem_of_cons].
    + left. by eapply moves_completed; [apply moves_act| |].
    + left. destruct (notify_act (service c) (NotifyWaiters id') id') as [[_ E]|[? _]]; [|done].
      rewrite E. by apply notify_completes.
    + right. by apply rest_notifies.
Qed.

(** The owner of a question can always come to the end, whatever the answer
    and the turn. *)
Lemma owner_finishes c j request stage id : tasks c !! j = Some (RequestTask request stage) ->
  settles id (RequestTask request stage) ->
  exists c', runs c c' /\ finished c c' j request /\
    (forall e, approvals (service c) !! id = Some e -> settled c' id).
Proof.
  intros Hj Hs.
  assert (forall input stage', request_step (service c) request stage input = (service c, stage') ->
    (exists l decision, stage' = Acting id l decision /\ exists d, SetDecision id d ∈ l) ->
    exists c', runs c c' /\ finished c c' j request /\
      (forall e, approvals (service c) !! id = Some e -> settled c' id)) as Hgo.
  { intros input stage' Es (l & decision & -> & d & Hd). destruct (run_lookup c j request _ input _ _ Hj Es) as [Hj' Hs'].
    destruct (acting_finishes (todo l) _ j request id l decision ltac:(lia) Hj') as (c' & Hr & Hf & Hset & _).
    exists c'. split_and!; [by eapply runs_step| |].
    - eapply finished_step; [done|]. by rewrite (run_request c j request _ input _ _ Hj Es).
    - intros e Hl. eapply (Hset id d Hd). rewrite Hs'. by exists e. }
  destruct stage as [| | |i|i n|i n|i|i oc|i l d|d]; try done; cbn in Hs.
  - subst i. apply (Hgo (TurnIs None) _ eq_refl). eexists _, _. split; [done|]. exists PendingDeny. left.
  - subst i. apply (Hgo (AnswerIs (ByHook HookAllow)) _ eq_refl). eexists _, _. split; [done|]. exists AllowOnce. left.
  - destruct Hs as [-> [d' Hd]]. destruct (acting_finishes (todo l) c j request id l d ltac:(lia) Hj) as (c' & Hr & Hf & Hset & _).
    exists c'. split_and!; [done..|]. intros e Hl. eapply (Hset id d' Hd). by exists e.
Qed.

Definition can_finish (c : Conf) (i : nat) (request : NetworkPolicyRequest) : Prop :=
  exists c', runs c c' /\ exists d, tasks c' !! i = Some (RequestTask request (Decided d)).

Lemma can_finish_runs c c' i request : runs c c' -> can_finish c' i request -> can_finish c i request.
Proof. intros H (c2 & Hr & Hd). exists c2. split; [by eapply runs_trans|done]. Qed.

(** It waits for the decision of the question, and may be suspended. *)
Definition waits (id : nat) (stage : Stage) : Prop :=
  match stage with Waiting id' | Listening id' _ | Suspended id' _ => id' = id | _ => False end.
Definition awake (s : NetworkApprovalService) (stage : Stage) : Prop :=
  match stage with Suspended id f => completed (notify_at s id) f = true | _ => True end.

Lemma run_decided n : forall c i request d, tasks c !! i = Some (RequestTask request (Decided d)) ->
  tasks (fold_left conf_step (replicate n (Run i Nothing)) c) !! i = Some (RequestTask request (Decided d)).
Proof.
  induction n as [|n IH]; intros c i request d Hi; [done|]. cbn [replicate fold_left]. apply IH.
  by destruct (run_lookup c i request _ Nothing _ _ Hi eq_refl).
Qed.

(** Three steps of its own are enough, once the decision is there and it is not
    asleep. *)
Lemma awake_finishes c i request stage id d : waits id stage -> awake (service c) stage ->
  tasks c !! i = Some (RequestTask request stage) -> decision_at (service c) id = Some d ->
  tasks (fold_left conf_step (replicate 3 (Run i Nothing)) c) !! i = Some (RequestTask request (Decided (to_network_decision d))).
Proof.
  assert (forall n c k, tasks c !! i = Some (RequestTask request (Listening id k)) -> decision_at (service c) id = Some d ->
    tasks (fold_left conf_step (replicate (S n) (Run i Nothing)) c) !! i
    = Some (RequestTask request (Decided (to_network_decision d)))) as Hlisten.
  { intros n c0 k Hi Hd. cbn [replicate fold_left]. apply run_decided.
    destruct (run_lookup c0 i request _ Nothing _ _ Hi eq_refl) as [-> _]. by rewrite Hd. }
  assert (forall n c, tasks c !! i = Some (RequestTask request (Waiting id)) -> decision_at (service c) id = Some d ->
    tasks (fold_left conf_step (replicate (S (S n)) (Run i Nothing)) c) !! i
    = Some (RequestTask request (Decided (to_network_decision d)))) as Hwait.
  { intros n c0 Hi Hd. change (replicate (S (S n)) (Run i Nothing)) with (Run i Nothing :: replicate (S n) (Run i Nothing)).
    cbn [fold_left]. destruct (run_lookup c0 i request _ Nothing _ _ Hi eq_refl) as [Hi' Hs'].
    eapply Hlisten; [exact Hi'|by rewrite Hs']. }
  intros Hw Ha Hi Hd. destruct stage as [| | |i'|i' n|i' n|i'|i' oc|i' l d'|d']; try done; cbn in Hw; subst i'.
  - by apply (Hwait 1).
  - by apply (Hlisten 2 c n).
  - change (replicate 3 (Run i Nothing)) with (Run i Nothing :: replicate 2 (Run i Nothing)). cbn [fold_left].
    assert (request_step (service c) request (Suspended id n) Nothing = (service c, Waiting id)) as Es
      by (cbn [request_step]; cbn [awake] in Ha; by rewrite Ha).
    destruct (run_lookup c i request _ Nothing _ _ Hi Es) as [Hi' Hs']. apply (Hwait 0); [exact Hi'|by rewrite Hs'].
Qed.

Lemma replicate_runs c i n : runs c (fold_left conf_step (replicate n (Run i Nothing)) c).
Proof. exists (replicate n (Run i Nothing)). split; [|done]. induction n; by constructor. Qed.

Lemma settled_finishes c i request stage id : live c -> waits id stage -> tasks c !! i = Some (RequestTask request stage) ->
  settled c id -> can_finish c i request.
Proof.
  intros Hc Hw Hi [d Hd].
  assert (forall c' d', tasks c' !! i = Some (RequestTask request stage) -> awake (service c') stage ->
    decision_at (service c') id = Some d' -> can_finish c' i request) as Hlast.
  { intros c' d' Hi' Ha Hd'. eexists. split; [apply replicate_runs|]. eexists. by eapply awake_finishes. }
  destruct stage as [| | |i'|i' n|i' n|i'|i' oc|i' l d'|d']; try done; try (by eapply Hlast).
  cbn in Hw. subst i'. destruct (completed (notify_at (service c) id) n) eqn:Hn; [by eapply Hlast|].
  destruct (nl_suspended _ (lv_wakeups _ Hc) _ _ _ _ Hi Hn) as [?|(j & t & Hj & Hnt)]; [congruence|].
  destruct t as [r1 [| | |i'|i' m|i' m|i'|i' oc|i' l d'|dd]|l|]; try done.
  destruct (acting_finishes (todo l) c j r1 i' l d' ltac:(lia) Hj) as (c1 & Hr & [_ Ho] & _ & Hkeep & Hcompl).
  destruct (Hkeep id) as [d1 Hd1]; [by exists d|]. eapply can_finish_runs; [exact Hr|]. apply (Hlast c1 d1); [|cbn|done].
  - rewrite Ho; [done|]. intros ->. rewrite Hi in Hj. by injection Hj.
  - apply Hcompl; [|by right]. exact (proj1 (Forall_lookup _ _) (nl_tasks _ (lv_wakeups _ Hc)) _ _ Hi).
Qed.

Lemma waiting_finishes c i request stage id : live c -> waits id stage ->
  tasks c !! i = Some (RequestTask request stage) -> can_finish c i request.
Proof.
  intros Hc Hw Hi.
  assert (exists o, approvals (service c) !! id = Some (key_of request, o)) as [o Hl].
  { pose proof (proj1 (Forall_lookup _ _) (co_tasks _ (lv_ok _ Hc)) _ _ Hi) as H.
    destruct stage; try done; cbn in Hw; subst; exact H. }
  destruct o as [d|]; [eapply settled_finishes; [done..|]; exists d; unfold decision_at; by rewrite Hl|].
  destruct (lv_attended _ Hc id (key_of request) Hl) as (j & t & Hj & Hs). destruct t as [r1 stage1|l|]; try done.
  destruct (owner_finishes c j r1 stage1 id Hj Hs) as (c1 & Hr & [_ Ho] & Hset).
  eapply can_finish_runs; [exact Hr|]. eapply settled_finishes; [by eapply runs_live|exact Hw| |by eapply Hset].
  rewrite Ho; [done|]. intros ->. rewrite Hi in Hj. injection Hj as <- <-. by destruct stage.
Qed.

(** The steps that are left before the question *)
Definition before (stage : Stage) : nat :=
  match stage with CheckDenied => 3 | CheckApproved => 2 | GetOrCreate => 1 | _ => 0 end.

Lemma request_finishes n : forall c i request stage, before stage <= n -> live c ->
  tasks c !! i = Some (RequestTask request stage) -> can_finish c i request.
Proof.
  induction n as [|n IH]; intros c i request stage Hn Hc Hi;
    destruct stage as [| | |id|id k|id k|id|id oc|id l d|d]; cbn in Hn; try lia.
  all: try (refine (waiting_finishes c i request _ id Hc _ Hi); exact eq_refl).
  all: try (by exists c; split; [apply runs_refl|by exists d]).
  all: try (by destruct (owner_finishes c i request _ id Hi eq_refl) as (c' & Hr & [Hd _] & _); exists c').
  all: try (by destruct (acting_finishes (todo l) c i request id l d ltac:(lia) Hi) as (c' & Hr & [Hd _] & _); exists c').
  all: match type of Hi with _ = Some (RequestTask _ ?st) =>
    destruct (request_step (service c) request st Nothing) as [s' stage'] eqn:Es;
    assert (before stage' <= n) as Hb by (revert Es; cbn [request_step]; unfold get_or_create_pending_approval;
      repeat case_match; intros; simplify_eq; cbn; lia) end.
  all: destruct (run_lookup c i request _ Nothing _ _ Hi Es) as [Hi' _].
  all: assert (runs c (conf_step c (Run i Nothing))) as Hr by (eapply runs_step, runs_refl).
  all: pose proof (runs_live _ _ Hr Hc) as Hc'; eapply can_finish_runs; [exact Hr|by eapply IH].
Qed.

(** The task has a question, or is on its way to the end of one. *)
Definition owns (t : Task) : Prop :=
  match t with RequestTask _ (Owning _ | Asking _ _ | Acting _ _ _) => True | _ => False end.

(** Once all owners are done, nobody is asleep. *)
Lemma waiting_awake c i request stage id : live c -> (forall j t, tasks c !! j = Some t -> ~ owns t) ->
  waits id stage -> tasks c !! i = Some (RequestTask request stage) ->
  awake (service c) stage /\ settled c id.
Proof.
  intros Hc Hno Hw Hi.
  assert (settled c id) as [d Hd].
  { pose proof (proj1 (Forall_lookup _ _) (co_tasks _ (lv_ok _ Hc)) _ _ Hi) as H.
    assert (exists o, approvals (service c) !! id = Some (key_of request, o)) as [[d|] Hl]
      by (destruct stage; try done; cbn in Hw; subst; exact H).
    - exists d. unfold decision_at. by rewrite Hl.
    - destruct (lv_attended _ Hc id _ Hl) as (j & t & Hj & Hs). destruct (Hno j t Hj).
      destruct t as [r st|l|]; try done; by destruct st. }
  split; [|by exists d]. destruct stage as [| | |i'|i' n|i' n|i'|i' oc|i' l d'|d']; try done. cbn in Hw |- *. subst i'.
  destruct (completed (notify_at (service c) id) n) eqn:Hn; [done|].
  destruct (nl_suspended _ (lv_wakeups _ Hc) _ _ _ _ Hi Hn) as [?|(j & t & Hj & Hnt)]; [congruence|].
  destruct (Hno j t Hj). destruct t as [r st|l|]; try done; by destruct st.
Qed.
End Invariant.

(** ** The properties *)

Lemma event_known_mono synced synced' e : synced ⊆ synced' -> event_known synced e -> event_known synced' e.
Proof. intros H [? ?]. split; [done|]. by etrans. Qed.

Lemma events_known events : Forall event_ok events -> Forall (event_known (handed events)) events.
Proof.
  induction 1 as [|e events He Hes IH]; [constructor|]. constructor.
  - split; [done|]. apply union_subseteq_l.
  - eapply Forall_impl; [exact IH|]. intros e'. apply event_known_mono, union_subseteq_r.
Qed.

(** C27: however requests, answers and the other operations of the service
    interleave, dropped requests and synchronisations with another session
    included: a request is let through only if a hook, the user or the guardian
    has let one for the same host, protocol and port through, or another
    session handed it in, at the start or by a synchronisation; a host is
    remembered as approved only after an answer for the session, or when it was
    handed in; it is remembered both ways only if a synchronisation handed it
    in; and two questions about it are never open at once. *)
Theorem network_approval_sound (approved0 : gset HostApprovalKey) (events : list StepEvent) : Forall event_ok events ->
  let c := conf_run approved0 events in
  (forall i request, tasks c !! i = Some (RequestTask request (Decided Allow)) ->
     (exists answer, (key_of request, answer) ∈ answers c /\ grants answer = true)
     \/ key_of request ∈ approved0 ∪ handed events) /\
  (forall key, key ∈ session_approved_hosts (service c) ->
     (key ∈ session_denied_hosts (service c) -> key ∈ handed events) /\
     ((exists answer, (key, answer) ∈ answers c /\ grants_session answer = true) \/ key ∈ approved0 ∪ handed events)) /\
  (forall i j t t' key, tasks c !! i = Some t -> tasks c !! j = Some t' ->
     question t = Some key -> question t' = Some key -> i = j).
Proof.
  intros He c. pose proof (union_subseteq_r approved0 (handed events)) as Hsub.
  destruct (conf_run_ok (approved0 ∪ handed events) (handed events) Hsub approved0 events (union_subseteq_l _ _) (events_known _ He))
    as [Hs Ht Hu].
  split; [|split; [|exact Hu]].
  - intros i request Hi. pose proof (proj1 (Forall_lookup _ _) Ht _ _ Hi) as H. by apply H.
  - intros key Hk. split; [by apply (so_disjoint _ _ _ _ Hs)|]. by apply (so_approved _ _ _ _ Hs).
Qed.

(** C28: as long as no request is dropped, none is stuck, although waiting
    requests sleep until they are notified: wherever an interleaving has led,
    running the tasks on can bring every request to a decision; and once no
    other request is busy with a question, a request that waits for one comes to
    its decision by three steps of its own, so no wakeup is lost. *)
Theorem waiting_request_can_finish (approved0 : gset HostApprovalKey) (events : list StepEvent) (i : nat)
    (request : NetworkPolicyRequest) (stage : Stage) :
  Forall event_ok events -> Forall (fun e => forall i, e <> Drop i) events ->
  let c := conf_run approved0 events in
  tasks c !! i = Some (RequestTask request stage) ->
  (exists more d, Forall is_run more /\
     tasks (conf_run approved0 (events ++ more)) !! i = Some (RequestTask request (Decided d))) /\
  (forall id, waits id stage -> (forall j t, tasks c !! j = Some t -> ~ owns t) ->
     exists d, decision_at (service c) id = Some d /\
       tasks (conf_run approved0 (events ++ replicate 3 (Run i Nothing))) !! i
       = Some (RequestTask request (Decided (to_network_decision d)))).
Proof.
  intros He Hd c Hi. pose proof (union_subseteq_r approved0 (handed events)) as Hsub.
  pose proof (conf_run_live (approved0 ∪ handed events) (handed events) Hsub approved0 events (union_subseteq_l _ _)
    (events_known _ He) Hd) as Hc.
  split.
  - destruct (request_finishes _ _ Hsub _ c i request stage (le_n _) Hc Hi) as (c' & (more & F & Hrun) & d & Hc').
    exists more, d. split; [done|]. unfold conf_run in *. rewrite fold_left_app. by subst c'.
  - intros id Hw Hno. destruct (waiting_awake _ _ c i request stage id Hc Hno Hw Hi) as [Ha [d Hd']].
    exists d. split; [done|]. unfold conf_run in *. rewrite fold_left_app. by eapply awake_finishes.
Qed.

End Service.

(** ** Concrete interleavings *)

(** Calls are counted: a future completes when there was one after its creation. *)
#[local] Instance call_counter : Notify.
Proof.
  refine {| notify_t := nat; future_t := nat; notify_new := 0; notified n := n; notify_waiters n := S n;
            completed n f := negb (f =? n)%nat; created_from n f := f <= n |}.
  - intros n. apply le_n.
  - intros n f H. by apply le_S.
  - intros n f H. apply negb_true_iff, Nat.eqb_neq. lia.
Defined.

Definition ask_for (host : str) : NetworkPolicyRequest := mkPolicyRequest ProtoHttp host 80 None (Some (lit "GET")) None None.
Definition on_request : TurnContext := mkTurn (Managed ManagedUnrestricted NetRestricted) OnRequest.

(** Up to the question *)
Definition until_question (i : nat) (host : str) : list StepEvent :=
  [Spawn (RequestTask (ask_for host) CheckDenied); Run i Nothing; Run i Nothing; Run i Nothing].

(** Two requests for one host: one is asked about, and the user approves it
    for the session; the other one sleeps until then. *)
Definition two_requests : list StepEvent :=
  until_question 0 (lit "Example.com") ++ until_question 1 (lit "example.com") ++ replicate 2 (Run 1 Nothing)
  ++ [Run 0 (TurnIs (Some on_request)); Run 0 (AnswerIs (ByReview None ApprovedForSession false))]
  ++ replicate 6 (Run 0 Nothing) ++ replicate 3 (Run 1 Nothing).

Ltac events_ok := cbn; repeat (apply Forall_cons_2; [cbn; first [exact I|left; by eexists|by intros ?]|]); apply Forall_nil_2.

Lemma two_requests_ok : Forall event_ok two_requests.
Proof. events_ok. Qed.

Lemma network_approval_sound_witness :
  let c := conf_run ∅ two_requests in
  tasks c !! 1 = Some (RequestTask (ask_for (lit "example.com")) (Decided Allow)) /\
  ((exists answer, (key_of (ask_for (lit "example.com")), answer) ∈ answers c /\ grants answer = true)
   \/ key_of (ask_for (lit "example.com")) ∈ ∅ ∪ handed two_requests).
Proof.
  assert (tasks (conf_run ∅ two_requests) !! 1 = Some (RequestTask (ask_for (lit "example.com")) (Decided Allow))) as H
    by (vm_compute; reflexivity).
  split; [exact H|]. destruct (network_approval_sound ∅ two_requests two_requests_ok) as [Hd _]. exact (Hd 1 _ H).
Defined.

(** The second request is asleep, and the first one is still to be asked about. *)
Lemma waiting_request_can_finish_witness :
  exists more d, Forall is_run more /\
    tasks (conf_run ∅ ((until_question 0 (lit "a.com") ++ until_question 1 (lit "a.com") ++ replicate 2 (Run 1 Nothing)) ++ more)) !! 1
    = Some (RequestTask (ask_for (lit "a.com")) (Decided d)).
Proof.
  apply (waiting_request_can_finish ∅ _ 1 (ask_for (lit "a.com")) (Suspended 0 (notified notify_new))).
  - events_ok.
  - events_ok.
  - vm_compute. reflexivity.
Defined.

(** A request that looks at the decision between the two steps of
    [set_decision] takes it; one that fell asleep before is woken by the call. *)
Example between_decision_and_call :
  let events := until_question 0 (lit "a.com") ++ until_question 1 (lit "a.com") ++ until_question 2 (lit "a.com")
    ++ [Run 1 Nothing] ++ replicate 2 (Run 2 Nothing)
    ++ [Run 0 (TurnIs (Some on_request)); Run 0 (AnswerIs (ByHook HookAllow)); Run 0 Nothing; Run 1 Nothing; Run 2 Nothing] in
  map (fun t => match t with RequestTask _ stage => Some stage | _ => None end) (tasks (conf_run ∅ events))
  = [Some (Acting 0 [NotifyWaiters 0; RemovePending (key_of (ask_for (lit "a.com")))] Allow); Some (Decided Allow);
     Some (Suspended 0 (notified notify_new))] /\
  tasks (conf_run ∅ (events ++ replicate 3 (Run 0 Nothing) ++ replicate 3 (Run 2 Nothing))) !! 2
  = Some (RequestTask (ask_for (lit "a.com")) (Decided Allow)).
Proof. split; vm_compute; reflexivity. Qed.

(** A session that is synchronised while it has denied a host lists it both
    ways; the denial comes first. *)
Example handed_in_and_denied :
  let key := key_of (ask_for (lit "a.com")) in
  let c := conf_run ∅ (
    until_question 0 (lit "a.com")
    ++ [Run 0 (TurnIs (Some on_request));
        Run 0 (AnswerIs (ByReview None (NetworkPolicyAmendmentDecision (mkNetworkPolicyAmendment (lit "a.com") NetDeny)) true))]
    ++ replicate 8 (Run 0 Nothing)
    ++ [Spawn (sync_session_approved_hosts_to (with_hosts service_default {[key]} ∅)); Run 1 Nothing]
    ++ [Spawn (RequestTask (ask_for (lit "a.com")) CheckDenied); Run 2 Nothing]) in
  bool_decide (key ∈ session_approved_hosts (service c)) && bool_decide (key ∈ session_denied_hosts (service c)) = true /\
  tasks c !! 2 = Some (RequestTask (ask_for (lit "a.com")) (Decided (deny (lit "not_allowed")))).
Proof. split; vm_compute; reflexivity. Qed.

(** A request that is dropped while its question is open leaves it behind:
    whatever comes, the next request for the host is not answered. *)
Example dropped_owner_blocks :
  let c := conf_run ∅ (until_question 0 (lit "a.com") ++ [Drop 0] ++ until_question 1 (lit "a.com") ++ replicate 2 (Run 1 Nothing)) in
  tasks c = [Dropped; RequestTask (ask_for (lit "a.com")) (Suspended 0 (notified notify_new))] /\
  forall inputs, fold_left conf_step (map (Run 1) inputs) c = c.
Proof.
  intros c. split; [vm_compute; reflexivity|]. intros inputs. induction inputs as [|input inputs IH]; [done|].
  cbn [map fold_left]. replace (conf_step c (Run 1 input)) with c; [exact IH|]. vm_compute. reflexivity.
Qed.

(** A request between the two checks and the map asks again, although the
    host was approved for the session in between. *)
Example asked_twice :
  let c := conf_run ∅ (
    [Spawn (RequestTask (ask_for (lit "a.com")) CheckDenied); Run 0 Nothing; Run 0 Nothing]
    ++ until_question 1 (lit "a.com")
    ++ [Run 1 (TurnIs (Some on_request)); Run 1 (AnswerIs (ByReview None ApprovedForSession false))]
    ++ replicate 6 (Run 1 Nothing) ++ [Run 0 Nothing]) in
  tasks c !! 1 = Some (RequestTask (ask_for (lit "a.com")) (Decided Allow)) /\
  tasks c !! 0 = Some (RequestTask (ask_for (lit "a.com")) (Owning 1)).
Proof. split; vm_compute; reflexivity. Qed.
