(* ===== verification/AgentPath.v ===== *)
(** * AgentPath: the names of agents

    [protocol/src/agent_path.rs]: a path is [/morpheus], or [/root] and the
    names of agents below it.  An [AgentPath] is its text; only the functions
    here make one. *)

From S2P Require Import Prelude Paths.
Local Open Scope str_scope.

Definition ROOT : str := lit "/root".
Definition MORPHEUS : str := lit "/morpheus".
Definition ROOT_SEGMENT : str := lit "root".

Definition root : str := ROOT.
Definition morpheus : str := MORPHEUS.

Definition agent_name_char (c : N) : bool :=
  ((97 <=? c) && (c <=? 122))%N || is_ascii_digit c || N.eqb c (ch "_").

Definition validate_agent_name (agent_name : str) : result str unit :=
  if is_empty agent_name then Err (lit "agent_name must not be empty")
  else if agent_name =? ROOT_SEGMENT then Err (lit "agent_name `root` is reserved")
  else if (agent_name =? lit ".") || (agent_name =? lit "..")
  then Err (lit "agent_name `" ++ agent_name ++ lit "` is reserved")
  else if contains_char agent_name SEP then Err (lit "agent_name must not contain `/`")
  else if negb (forallb agent_name_char agent_name)
  then Err (lit "agent_name must use only lowercase letters, digits, and underscores")
  else Ok tt.

(** The loop over the segments *)
Fixpoint validate_agent_names (segments : list str) : result str unit :=
  match segments with
  | [] => Ok tt
  | segment :: segments => _ ← validate_agent_name segment; validate_agent_names segments
  end.

Definition validate_absolute_path (path : str) : result str unit :=
  if path =? MORPHEUS then Ok tt
  else
    match strip_prefix [SEP] path with
    | None => Err (lit "absolute agent paths must start with `/root` or be `/morpheus`")
    | Some stripped =>
        match split_char SEP stripped with
        | [] => Err (lit "absolute agent path must not be empty")
        | root :: segments =>
            if negb (root =? ROOT_SEGMENT)
            then Err (lit "absolute agent paths must start with `/root` or be `/morpheus`")
            else if ends_with stripped [SEP] then Err (lit "absolute agent path must not end with `/`")
            else validate_agent_names segments
        end
    end.

Definition validate_relative_reference (reference : str) : result str unit :=
  if ends_with reference [SEP] then Err (lit "relative agent path must not end with `/`")
  else validate_agent_names (split_char SEP reference).

Definition from_string (path : str) : result str str :=
  _ ← validate_absolute_path path; Ok path.

Definition is_root (self : str) : bool := self =? ROOT.

Definition name (self : str) : str :=
  if is_root self then ROOT_SEGMENT
  else match last (split_char SEP self) with
       | Some segment => if is_empty segment then ROOT_SEGMENT else segment
       | None => ROOT_SEGMENT
       end.

Definition join_agent (self agent_name : str) : result str str :=
  _ ← validate_agent_name agent_name;
  from_string (self ++ [SEP] ++ agent_name).

Definition resolve (self reference : str) : result str str :=
  if is_empty reference then Err (lit "agent path must not be empty")
  else if reference =? ROOT then Ok root
  else if starts_with reference [SEP] then from_string reference
  else
    _ ← validate_relative_reference reference;
    from_string (self ++ [SEP] ++ reference).

(** [agent_matches_prefix] of [core/src/agent/control.rs] *)
Definition agent_matches_prefix (agent_path : option str) (prefix : str) : bool :=
  if is_root prefix then true
  else match agent_path with
       | None => false
       | Some agent_path =>
           (agent_path =? prefix)
           || match strip_prefix prefix agent_path with
              | Some suffix => starts_with suffix [SEP]
              | None => false
              end
       end.

(** ** What a path is *)

Definition agent_seg (s : str) : Prop := s <> [] /\ s <> ROOT_SEGMENT /\ forallb agent_name_char s = true.

#[global] Instance agent_seg_dec s : Decision (agent_seg s).
Proof. unfold agent_seg. apply _. Defined.

Definition below (segs : list str) : str := segs ≫= (fun s => SEP :: s).
Definition agent_path_of (segs : list str) : str := ROOT ++ below segs.

Definition valid_path (p : str) : Prop := p = MORPHEUS \/ exists segs, Forall agent_seg segs /\ p = agent_path_of segs.

Lemma agent_seg_no_sep s : agent_seg s -> SEP ∉ s.
Proof.
  intros (_ & _ & Hs) Hin. rewrite forallb_forall in Hs. apply list_elem_of_In in Hin. by apply Hs in Hin.
Qed.

Lemma validate_agent_name_Ok s : validate_agent_name s = Ok tt <-> agent_seg s.
Proof.
  unfold validate_agent_name, agent_seg. split.
  - destruct (is_empty s) eqn:E1; [done|]. case_bool_decide as E2; [done|].
    destruct (_ || _); [done|]. destruct (contains_char _ _); [done|].
    destruct (forallb _ _); [|done]. apply is_empty_false in E1. done.
  - intros (H1 & H2 & H3). pose proof (agent_seg_no_sep s) as Hsep.
    rewrite (proj2 (is_empty_false s) H1), bool_decide_eq_false_2 by done.
    rewrite H3. destruct (contains_char s SEP) eqn:E; [apply contains_char_spec in E; by destruct Hsep|].
    rewrite !bool_decide_eq_false_2; [done| |]; intros ->; done.
Qed.

Lemma validate_agent_names_Ok l : validate_agent_names l = Ok tt <-> Forall agent_seg l.
Proof.
  induction l as [|s l IH]; [done|]. cbn [validate_agent_names]. rewrite Forall_cons, <- validate_agent_name_Ok, <- IH.
  destruct (validate_agent_name s) as [[]|e]; simpl; [tauto|]. split; [done|by intros [? _]].
Qed.

Lemma below_cons s segs : below (s :: segs) = SEP :: s ++ below segs.
Proof. done. Qed.

Lemma split_below segs s : SEP ∉ s -> Forall agent_seg segs -> split_char SEP (s ++ below segs) = s :: segs.
Proof.
  revert s. induction segs as [|t segs IH]; intros s Hs Hsegs.
  - rewrite app_nil_r. by apply split_char_none.
  - apply Forall_cons in Hsegs as [Ht Hsegs]. rewrite below_cons, split_char_app_sep by done.
    by rewrite IH by auto using agent_seg_no_sep.
Qed.

Lemma split_below_nil segs : Forall agent_seg segs -> split_char SEP (below segs) = [] :: segs.
Proof. apply (split_below segs []), not_elem_of_nil. Qed.

Lemma below_split s : below (split_char SEP s) = SEP :: s.
Proof.
  rewrite <- (join_split_char SEP s) at 2. generalize (split_char_not_nil SEP s).
  induction (split_char SEP s) as [|t l IH]; [done|]. intros _. destruct l as [|u l]; [by rewrite below_cons, app_nil_r|].
  rewrite below_cons, IH by done. done.
Qed.

Lemma ends_with_below s segs : s <> [] -> SEP ∉ s -> Forall agent_seg segs -> ends_with (s ++ below segs) [SEP] = false.
Proof.
  intros Hne Hs Hsegs. apply not_true_iff_false. intros H.
  assert (exists r, s ++ below segs = r ++ [SEP]) as [r E].
  { unfold ends_with in H. destruct (strip_suffix [SEP] _) as [r|] eqn:Er; [|done]. exists r. by apply strip_suffix_Some. }
  apply (f_equal (split_char SEP)) in E. rewrite split_below, split_char_app in E by done.
  apply (f_equal last) in E. simpl split_char in E. rewrite last_snoc in E.
  apply last_Some in E as [l E]. destruct l as [|x l]; [by injection E as -> _|]. injection E as -> E.
  rewrite E in Hsegs. apply Forall_app in Hsegs as [_ Hsegs]. apply Forall_singleton in Hsegs as [? _]. done.
Qed.

(** The paths that are accepted *)
Lemma from_string_Ok p q : from_string p = Ok q <-> q = p /\ valid_path p.
Proof.
  assert (validate_absolute_path p = Ok tt <-> valid_path p) as H.
  { unfold validate_absolute_path, valid_path. case_bool_decide as Em; [by split; [left|]|].
    split.
    - destruct (strip_prefix [SEP] p) as [stripped|] eqn:Es; [|done]. apply strip_prefix_Some in Es as ->.
      destruct (split_char SEP stripped) as [|r segs] eqn:Er; [done|]. case_bool_decide as Hr; [|done]. cbn [negb].
      destruct (ends_with _ _); [done|]. intros Hsegs%validate_agent_names_Ok. right. exists segs. split; [done|].
      pose proof (below_split stripped) as Hb. rewrite Er, below_cons in Hb. injection Hb as Hb. subst r.
      by rewrite <- Hb.
    - intros [->|(segs & Hsegs & ->)]; [done|].
      assert (strip_prefix [SEP] (agent_path_of segs) = Some (ROOT_SEGMENT ++ below segs)) as -> by by apply strip_prefix_Some.
      assert (SEP ∉ ROOT_SEGMENT) as Hsep by (apply (bool_decide_unpack _); by vm_compute).
      rewrite split_below by done. rewrite bool_decide_eq_true_2 by done. cbn [negb].
      rewrite ends_with_below by done. by apply validate_agent_names_Ok. }
  unfold from_string. destruct (validate_absolute_path p) as [[]|e]; simpl.
  - split; [intros [= <-]; split; [done|by apply H]|by intros [-> _]].
  - split; [done|]. intros [_ Hv]. by apply H in Hv.
Qed.

Lemma below_app l k : below (l ++ k) = below l ++ below k.
Proof. unfold below. apply bind_app. Qed.

Lemma agent_path_child segs s : agent_path_of segs ++ [SEP] ++ s = agent_path_of (segs ++ [s]).
Proof. unfold agent_path_of. by rewrite below_app, <- app_assoc, below_cons, app_nil_r. Qed.

Lemma agent_path_inj l k : Forall agent_seg l -> Forall agent_seg k -> agent_path_of l = agent_path_of k -> l = k.
Proof.
  intros Hl Hk E. unfold agent_path_of in E. apply app_inv_head in E.
  assert (split_char SEP ([] ++ below l) = split_char SEP ([] ++ below k)) as E' by by rewrite E.
  rewrite !split_below in E' by (done || apply not_elem_of_nil). by injection E'.
Qed.

Lemma agent_path_valid segs : Forall agent_seg segs -> valid_path (agent_path_of segs).
Proof. intros H. right. by exists segs. Qed.

Lemma below_join more : more <> [] -> Forall agent_seg more -> below more = [SEP] ++ join [SEP] more.
Proof.
  intros Hne H. rewrite <- (split_char_join SEP more) at 1; [by rewrite below_split|done|].
  eapply Forall_impl; [exact H|]. apply agent_seg_no_sep.
Qed.

Lemma join_agent_Ok segs s p : Forall agent_seg segs ->
  join_agent (agent_path_of segs) s = Ok p <-> p = agent_path_of (segs ++ [s]) /\ agent_seg s.
Proof.
  intros Hsegs. unfold join_agent. rewrite agent_path_child. split.
  - intros ([] & Hs%validate_agent_name_Ok & [-> _]%from_string_Ok)%result_bind_Ok. done.
  - intros [-> Hs]. rewrite (proj2 (validate_agent_name_Ok s) Hs). simpl. apply from_string_Ok. split; [done|].
    apply agent_path_valid, Forall_app. by rewrite Forall_singleton.
Qed.

Lemma resolve_relative_Ok segs reference p : Forall agent_seg segs ->
  reference <> [] -> starts_with reference [SEP] = false ->
  resolve (agent_path_of segs) reference = Ok p <->
  exists more, Forall agent_seg more /\ more <> [] /\ reference = join [SEP] more /\ p = agent_path_of (segs ++ more).
Proof.
  intros Hsegs Hne Hrel. unfold resolve. rewrite (proj2 (is_empty_false reference) Hne), bool_decide_eq_false_2, Hrel
    by (by intros ->).
  assert (forall more, more <> [] -> Forall agent_seg more ->
    agent_path_of segs ++ [SEP] ++ join [SEP] more = agent_path_of (segs ++ more)) as Hbelow.
  { intros more Hm H. unfold agent_path_of. by rewrite below_app, (below_join more), <- app_assoc. }
  unfold validate_relative_reference. split.
  - intros ([] & Hv & [-> _]%from_string_Ok)%result_bind_Ok. destruct (ends_with _ _); [done|].
    apply validate_agent_names_Ok in Hv. exists (split_char SEP reference).
    split; [done|]. split; [apply split_char_not_nil|]. split; [by rewrite join_split_char|].
    rewrite <- Hbelow by (done || apply split_char_not_nil). by rewrite join_split_char.
  - intros (more & Hmore & Hm & -> & ->).
    assert (split_char SEP (join [SEP] more) = more) as Hsplit.
    { apply split_char_join; [done|]. eapply Forall_impl; [exact Hmore|]. apply agent_seg_no_sep. }
    assert (ends_with (join [SEP] more) [SEP] = false) as ->.
    { destruct more as [|m more]; [done|]. pose proof Hmore as [Hm1 Hm2]%Forall_cons.
      pose proof (below_join (m :: more) Hm Hmore) as E. apply (f_equal tail) in E.
      change (m ++ below more = join [SEP] (m :: more)) in E. rewrite <- E.
      apply ends_with_below; [apply Hm1|by apply agent_seg_no_sep|done]. }
    rewrite Hsplit, (proj2 (validate_agent_names_Ok more) Hmore). cbn [mbind result_bind]. rewrite Hbelow by done.
    apply from_string_Ok. split; [done|]. apply agent_path_valid. by apply Forall_app.
Qed.

Lemma name_below segs : Forall agent_seg segs -> name (agent_path_of segs) = List.last segs ROOT_SEGMENT.
Proof.
  intros Hsegs. unfold name, is_root. destruct segs as [|s segs _] using rev_ind; [done|].
  rewrite bool_decide_eq_false_2.
  2:{ intros E. apply (agent_path_inj _ []) in E; [|done|done]. by apply app_eq_nil in E as [_ ?]. }
  change (agent_path_of (segs ++ [s])) with ([] ++ SEP :: ROOT_SEGMENT ++ below (segs ++ [s])).
  rewrite split_char_app, split_below; [|by apply (bool_decide_unpack _); vm_compute|done].
  cbn [split_char app]. rewrite !app_comm_cons, last_snoc, last_last.
  apply Forall_app in Hsegs as [_ [[Hs _] _]%Forall_cons]. by rewrite (proj2 (is_empty_false s) Hs).
Qed.

(** A path matches a prefix exactly if the names of the prefix begin its own. *)
Lemma matches_prefix_iff segs prefix : Forall agent_seg segs -> Forall agent_seg prefix ->
  agent_matches_prefix (Some (agent_path_of segs)) (agent_path_of prefix) = true <-> prefix `prefix_of` segs.
Proof.
  intros Hsegs Hp. unfold agent_matches_prefix, is_root. case_bool_decide as Er.
  { apply (agent_path_inj _ []) in Er as ->; [|done|done]. split; [intros; apply prefix_nil|done]. }
  rewrite orb_true_iff, bool_decide_eq_true. split.
  - intros [E|E].
    + by apply agent_path_inj in E as ->.
    + destruct (strip_prefix _ _) as [suffix|] eqn:Es; [|done]. apply strip_prefix_Some in Es.
      apply starts_with_true in E as [r ->]. unfold agent_path_of in Es. rewrite <- app_assoc in Es.
      apply app_inv_head in Es.
      apply (f_equal (split_char SEP)) in Es. cbn [app] in Es. rewrite split_char_app, !split_below_nil in Es by done.
      injection Es as ->. by exists (split_char SEP r).
  - intros [more ->]. destruct more as [|m more]; [left; by rewrite app_nil_r|right].
    assert (strip_prefix (agent_path_of prefix) (agent_path_of (prefix ++ m :: more)) = Some (below (m :: more))) as ->.
    { apply strip_prefix_Some. unfold agent_path_of. by rewrite below_app, app_assoc. }
    rewrite below_cons. apply starts_with_true. by eexists.
Qed.

(** The agents below the root are lists of names: a text is a path exactly if
    it is [/root] and names, or [/morpheus]; joining adds one name, a relative
    reference some; the name of a path is its last; and a path is listed under
    a prefix exactly if the names of the prefix begin its own. *)
Theorem agent_path_spec (segs : list str) (reference : str) :
  Forall agent_seg segs ->
  (forall p q, from_string p = Ok q <-> q = p /\ valid_path p) /\
  (forall p, join_agent (agent_path_of segs) reference = Ok p <->
     p = agent_path_of (segs ++ [reference]) /\ agent_seg reference) /\
  (forall p, reference <> [] -> starts_with reference [SEP] = false ->
     resolve (agent_path_of segs) reference = Ok p <->
     exists more, Forall agent_seg more /\ more <> [] /\ reference = join [SEP] more /\ p = agent_path_of (segs ++ more)) /\
  name (agent_path_of segs) = List.last segs ROOT_SEGMENT /\
  (forall prefix, Forall agent_seg prefix ->
     agent_matches_prefix (Some (agent_path_of segs)) (agent_path_of prefix) = true <-> prefix `prefix_of` segs).
Proof.
  intros Hsegs. split; [apply from_string_Ok|]. split; [intros; by apply join_agent_Ok|].
  split; [intros; by apply resolve_relative_Ok|]. split; [by apply name_below|]. intros. by apply matches_prefix_iff.
Qed.

Lemma agent_path_spec_witness :
  join_agent (lit "/root/a") (lit "b_2") = Ok (lit "/root/a/b_2") /\
  agent_matches_prefix (Some (lit "/root/a")) (lit "/root/ab") = false.
Proof.
  assert (Forall agent_seg [lit "a"]) as H by (apply (bool_decide_unpack _); by vm_compute).
  destruct (agent_path_spec [lit "a"] (lit "b_2") H) as (_ & Hj & _ & _ & Hp). split.
  - apply (Hj (lit "/root/a/b_2")). split; [done|]. apply (bool_decide_unpack _). by vm_compute.
  - apply not_true_iff_false. intros E. apply (Hp [lit "ab"]) in E.
    + destruct E as [r E]. by vm_compute in E.
    + apply (bool_decide_unpack _). by vm_compute.
Defined.
