(* ===== verification/AgentRegistry.v ===== *)
(** * AgentRegistry: the agents of a session

    [core/src/agent/registry.rs].  The registry is shared by all the agents of
    a session: a map behind a lock and a counter that is changed without it.  A
    reservation of a slot and the release of an agent are tasks, whose steps
    are the sections under the lock and the operations on the counter; tasks
    interleave.  A [ThreadId] is the text of its UUID; the order in which a
    [HashMap] is gone through, random choices and spurious failures of
    [compare_exchange_weak] are inputs. *)

From S2P Require Import Prelude Decimal.
From S2P Require AgentPath.
Local Open Scope str_scope.

Abbreviation ThreadId := str.

Record AgentMetadata : Type := mkAgent {
  agent_id : option ThreadId;
  agent_path : option str;
  agent_nickname : option str;
  agent_role : option str;
  last_task_message : option str;
}.

Definition agent_default : AgentMetadata := mkAgent None None None None None.

Record AgentRegistry : Type := mkRegistry {
  agent_tree : gmap str AgentMetadata;
  used_agent_nicknames : gset str;
  nickname_reset_count : N;
  total_count : N;
}.

Definition registry_default : AgentRegistry := mkRegistry ∅ ∅ 0 0.

(** [usize] *)
Definition USIZE : N := 18446744073709551616.
Definition fetch_add (n : N) : N := ((n + 1) mod USIZE)%N.
Definition fetch_sub (n : N) : N := ((n + (USIZE - 1)) mod USIZE)%N.

Definition with_tree (s : AgentRegistry) (tree : gmap str AgentMetadata) : AgentRegistry :=
  mkRegistry tree (used_agent_nicknames s) (nickname_reset_count s) (total_count s).
Definition with_count (s : AgentRegistry) (n : N) : AgentRegistry :=
  mkRegistry (agent_tree s) (used_agent_nicknames s) (nickname_reset_count s) n.

(** ** Nicknames *)

Definition ordinal_suffix (value : N) : str :=
  if ((11 <=? value mod 100) && (value mod 100 <=? 13))%N then lit "th"
  else match (value mod 10)%N with
       | 1%N => lit "st" | 2%N => lit "nd" | 3%N => lit "rd" | _ => lit "th"
       end.

Definition format_agent_nickname (name : str) (nickname_reset_count : N) : str :=
  if N.eqb nickname_reset_count 0 then name
  else
    let value := (nickname_reset_count + 1)%N in
    name ++ lit " the " ++ lit (pretty value) ++ ordinal_suffix value.

(** A random element; none of an empty list *)
Definition choose {A} (draw : nat) (l : list A) : option A := l !! (draw mod length l).

Definition reserve_agent_nickname (names : list str) (preferred : option str) (draw draw' : nat) (s : AgentRegistry)
    : option str * AgentRegistry :=
  let use nickname used count :=
    (Some nickname, mkRegistry (agent_tree s) ({[nickname]} ∪ used) count (total_count s)) in
  match preferred with
  | Some preferred => use preferred (used_agent_nicknames s) (nickname_reset_count s)
  | None =>
      if is_empty names then (None, s)
      else
        let available_names :=
          List.filter (fun name => negb (bool_decide (name ∈ used_agent_nicknames s)))
            (map (fun name => format_agent_nickname name (nickname_reset_count s)) names) in
        match choose draw available_names with
        | Some name => use name (used_agent_nicknames s) (nickname_reset_count s)
        | None =>
            let count := (nickname_reset_count s + 1)%N in
            match choose draw' names with
            | Some name => use (format_agent_nickname name count) ∅ count
            | None => (None, mkRegistry (agent_tree s) ∅ count (total_count s))
            end
        end
  end.

(** ** Depth *)

(** The depth of a spawned thread, [None] for any other source *)
Definition session_depth (depth : option Z) : Z := default 0%Z depth.
Definition next_thread_spawn_depth (depth : option Z) : Z := Z.min (session_depth depth + 1) 2147483647.
Definition exceeds_thread_spawn_depth_limit (depth max_depth : Z) : bool := (max_depth <? depth)%Z.

(** ** Sections under the lock *)

Section Registry.
(** The order of a [HashMap] *)
Context (iter : gmap str AgentMetadata -> list (str * AgentMetadata)).

Definition has_id (thread_id : ThreadId) (metadata : AgentMetadata) : bool :=
  bool_decide (agent_id metadata = Some thread_id).

Definition is_root_agent (metadata : AgentMetadata) : bool :=
  match agent_path metadata with Some path => AgentPath.is_root path | None => false end.

(** The entry of an agent *)
Definition find_agent (thread_id : ThreadId) (s : AgentRegistry) : option (str * AgentMetadata) :=
  find (fun entry => has_id thread_id entry.2) (iter (agent_tree s)).

(** The first section of [release_spawned_thread]: was a counted agent removed? *)
Definition remove_agent (thread_id : ThreadId) (s : AgentRegistry) : bool * AgentRegistry :=
  match find_agent thread_id s with
  | None => (false, s)
  | Some (key, _) =>
      match agent_tree s !! key with
      | Some metadata => (negb (is_root_agent metadata), with_tree s (delete key (agent_tree s)))
      | None => (false, s)
      end
  end.

Definition register_root_thread (thread_id : ThreadId) (s : AgentRegistry) : AgentRegistry :=
  match agent_tree s !! AgentPath.ROOT with
  | Some _ => s
  | None => with_tree s (<[AgentPath.ROOT := mkAgent (Some thread_id) (Some AgentPath.root) None None None]> (agent_tree s))
  end.

Definition agent_id_for_path (path : str) (s : AgentRegistry) : option ThreadId :=
  agent_tree s !! path ≫= agent_id.

Definition agent_metadata_for_thread (thread_id : ThreadId) (s : AgentRegistry) : option AgentMetadata :=
  snd <$> find_agent thread_id s.

(** An agent that runs and is not the root *)
Definition counted (metadata : AgentMetadata) : bool :=
  match agent_id metadata with Some _ => negb (is_root_agent metadata) | None => false end.

Definition live_agents (s : AgentRegistry) : list AgentMetadata :=
  List.filter counted (map snd (iter (agent_tree s))).

Definition update_last_task_message (thread_id : ThreadId) (message : str) (s : AgentRegistry) : AgentRegistry :=
  match find_agent thread_id s with
  | None => s
  | Some (key, m) =>
      with_tree s (<[key := mkAgent (agent_id m) (agent_path m) (agent_nickname m) (agent_role m) (Some message)]>
                     (agent_tree s))
  end.

Definition key_of (thread_id : ThreadId) (metadata : AgentMetadata) : str :=
  default (lit "thread:" ++ thread_id) (agent_path metadata).

Definition register_spawned_thread (agent_metadata : AgentMetadata) (s : AgentRegistry) : AgentRegistry :=
  match agent_id agent_metadata with
  | None => s
  | Some thread_id =>
      let used := match agent_nickname agent_metadata with
                  | Some nickname => {[nickname]} ∪ used_agent_nicknames s
                  | None => used_agent_nicknames s
                  end in
      mkRegistry (<[key_of thread_id agent_metadata := agent_metadata]> (agent_tree s)) used
        (nickname_reset_count s) (total_count s)
  end.

Definition reserve_agent_path (path : str) (s : AgentRegistry) : result str unit * AgentRegistry :=
  match agent_tree s !! path with
  | Some _ => (Err (lit "agent path `" ++ path ++ lit "` already exists"), s)
  | None => (Ok tt, with_tree s (<[path := mkAgent None (Some path) None None None]> (agent_tree s)))
  end.

Definition release_reserved_agent_path (path : str) (s : AgentRegistry) : AgentRegistry :=
  match agent_tree s !! path with
  | Some metadata =>
      match agent_id metadata with
      | None => with_tree s (delete path (agent_tree s))
      | Some _ => s
      end
  | None => s
  end.

(** ** Tasks *)

Inductive task : Type :=
(** [reserve_spawn_slot], before its first step, and before a comparison *)
| Reserving (max_threads : option N)
| Comparing (max_threads current : N)
(** [AgentLimitReached] *)
| LimitReached (max_threads : N)
(** an active [SpawnReservation], with its path *)
| Holding (reserved_agent_path : option str)
(** the two steps of its [drop] *)
| Dropping (reserved_agent_path : option str)
| Releasing
(** [release_spawned_thread], before its first step; the second is [Releasing] *)
| Removing (thread_id : ThreadId)
| Done.

Inductive input : Type :=
(** the next step of the task itself *)
| Go
(** the same, where the comparison fails although the values are equal *)
| Spurious
| ReserveNickname (names : list str) (preferred : option str) (draw draw' : nat)
| ReservePath (path : str)
| Commit (metadata : AgentMetadata)
| Drop.

(** After a load: give up, or compare *)
Definition loaded_count (max_threads current : N) : task :=
  if (max_threads <=? current)%N then LimitReached max_threads else Comparing max_threads current.

(** A step of a task; an input that the task has no use for does nothing. *)
Definition step_task (i : input) (t : task) (s : AgentRegistry) : AgentRegistry * task :=
  match t, i with
  | Reserving None, Go => (with_count s (fetch_add (total_count s)), Holding None)
  | Reserving (Some max_threads), Go => (s, loaded_count max_threads (total_count s))
  | Comparing max_threads current, Go =>
      if N.eqb (total_count s) current then (with_count s (current + 1)%N, Holding None)
      else (s, loaded_count max_threads (total_count s))
  | Comparing max_threads current, Spurious => (s, loaded_count max_threads (total_count s))
  | Holding path, ReserveNickname names preferred draw draw' =>
      ((reserve_agent_nickname names preferred draw draw' s).2, Holding path)
  | Holding path, ReservePath path' =>
      match reserve_agent_path path' s with
      | (Ok _, s) => (s, Holding (Some path'))
      | (Err _, s) => (s, Holding path)
      end
  | Holding _, Commit metadata => (register_spawned_thread metadata s, Done)
  | Holding path, Drop => (s, Dropping path)
  | Dropping path, Go =>
      (match path with Some path => release_reserved_agent_path path s | None => s end, Releasing)
  | Releasing, Go => (with_count s (fetch_sub (total_count s)), Done)
  | Removing thread_id, Go =>
      let '(removed_counted_agent, s) := remove_agent thread_id s in
      (s, if removed_counted_agent then Releasing else Done)
  | _, _ => (s, t)
  end.

(** ** Interleavings *)

Record conf : Type := mkConf { registry : AgentRegistry; tasks : list task }.

Inductive event : Type :=
| StartReservation (max_threads : option N)
| StartRelease (thread_id : ThreadId)
| StepTask (index : nat) (i : input)
| RegisterRoot (thread_id : ThreadId)
| UpdateMessage (thread_id : ThreadId) (message : str).

Definition apply_event (c : conf) (e : event) : conf :=
  match e with
  | StartReservation max_threads => mkConf (registry c) (tasks c ++ [Reserving max_threads])
  | StartRelease thread_id => mkConf (registry c) (tasks c ++ [Removing thread_id])
  | StepTask index i =>
      match tasks c !! index with
      | None => c
      | Some t => let '(s, t') := step_task i t (registry c) in mkConf s (<[index := t']> (tasks c))
      end
  | RegisterRoot thread_id => mkConf (register_root_thread thread_id (registry c)) (tasks c)
  | UpdateMessage thread_id message => mkConf (update_last_task_message thread_id message (registry c)) (tasks c)
  end.

Definition run (events : list event) : conf := fold_left apply_event events (mkConf registry_default []).
End Registry.

(** ** What is counted *)

Definition weight (m : AgentMetadata) : N := if counted m then 1 else 0.
Definition live (tree : gmap str AgentMetadata) : N :=
  N.of_nat (length (List.filter counted (map snd (map_to_list tree)))).

(** Does the task hold a slot?  Which path does it hold? *)
Definition slot (t : task) : bool :=
  match t with Holding _ | Dropping _ | Releasing => true | _ => false end.
Definition owns (t : task) : option str :=
  match t with Holding path | Dropping path => path | _ => None end.
Definition slots (ts : list task) : N := N.of_nat (length (List.filter slot ts)).

(** A limit is a [usize]; a comparison is made with a count below the limit. *)
Definition task_ok (t : task) : Prop :=
  match t with
  | Reserving (Some max_threads) => (max_threads < USIZE)%N
  | Comparing max_threads current => (current < max_threads < USIZE)%N
  | _ => True
  end.

(** An agent is registered under the key of its metadata. *)
Definition agent_at (k : str) (m : AgentMetadata) (id : ThreadId) : Prop :=
  agent_id m = Some id /\ k = key_of id m /\ forall p, agent_path m = Some p -> AgentPath.valid_path p.

Record sound (s : AgentRegistry) (ts : list task) : Prop := {
  sound_count : total_count s = ((slots ts + live (agent_tree s)) mod USIZE)%N;
  sound_tasks : Forall task_ok ts;
  sound_reserved k : (exists m, agent_tree s !! k = Some m /\ agent_id m = None) <-> k ∈ omap owns ts;
  sound_owners : NoDup (omap owns ts);
  sound_paths : Forall (fun p => AgentPath.valid_path p /\ p <> AgentPath.ROOT) (omap owns ts);
  sound_agents k m id : agent_tree s !! k = Some m -> agent_id m = Some id -> agent_at k m id;
  sound_ids k k' m m' id : agent_tree s !! k = Some m -> agent_tree s !! k' = Some m' ->
    agent_id m = Some id -> agent_id m' = Some id -> k = k';
}.

Lemma filter_perm {A} (f : A -> bool) (l k : list A) : l ≡ₚ k -> List.filter f l ≡ₚ List.filter f k.
Proof. induction 1; simpl; repeat case_match; try done; try by constructor. by etrans. Qed.

#[global] Instance slots_perm : Proper ((≡ₚ) ==> eq) slots.
Proof. intros ts ts' H. unfold slots. f_equal. by apply Permutation_length, filter_perm. Qed.

Lemma omap_perm {A B} (f : A -> option B) (l k : list A) : l ≡ₚ k -> omap f l ≡ₚ omap f k.
Proof. induction 1; csimpl; repeat case_match; try done; try by constructor. by etrans. Qed.

#[global] Instance sound_perm s : Proper ((≡ₚ) ==> impl) (sound s).
Proof.
  intros ts ts' H [Hc Ht Hr Ho Hp Ha Hi]. pose proof (omap_perm owns _ _ H) as Hm.
  split; [by rewrite <- H|by rewrite <- H| |by rewrite <- Hm|by rewrite <- Hm|done|done].
  intros k. by rewrite Hr, Hm.
Qed.

Lemma slots_cons t ts : slots (t :: ts) = ((if slot t then 1 else 0) + slots ts)%N.
Proof. unfold slots. simpl. destruct (slot t); simpl; lia. Qed.

Lemma live_perm (l : list (str * AgentMetadata)) (tree : gmap str AgentMetadata) :
  l ≡ₚ map_to_list tree -> live tree = N.of_nat (length (List.filter counted (map snd l))).
Proof. intros H. unfold live. f_equal. apply Permutation_length, filter_perm. by rewrite H. Qed.

Lemma live_delete k m tree : tree !! k = Some m -> live tree = (weight m + live (delete k tree))%N.
Proof.
  intros H. rewrite (live_perm ((k, m) :: map_to_list (delete k tree))) by by apply map_to_list_delete.
  unfold live, weight. simpl. destruct (counted m); simpl; lia.
Qed.

Lemma live_insert k m tree : live (<[k := m]> tree) = (weight m + live (delete k tree))%N.
Proof. rewrite (live_delete k m) by apply lookup_insert_eq. by rewrite delete_insert_eq. Qed.

Lemma delete_absent (k : str) (tree : gmap str AgentMetadata) : tree !! k = None -> delete k tree = tree.
Proof. apply delete_id. Qed.

Lemma perm_update {A} (l : list A) i x y : l !! i = Some x ->
  l ≡ₚ x :: delete i l /\ <[i := y]> l ≡ₚ y :: delete i l.
Proof.
  intros H. split; [by apply delete_Permutation|].
  assert (delete i l = delete i (<[i := y]> l)) as ->.
  { rewrite !delete_take_drop. rewrite take_insert_ge, drop_insert_lt by lia. done. }
  apply delete_Permutation, list_lookup_insert_eq. by eapply lookup_lt_Some.
Qed.

(** ** The invariant *)

Lemma fetch_add_mod x : fetch_add (x mod USIZE) = ((1 + x) mod USIZE)%N.
Proof. unfold fetch_add. rewrite N.Div0.add_mod_idemp_l. f_equal. lia. Qed.

Lemma fetch_sub_mod x : fetch_sub ((1 + x) mod USIZE) = (x mod USIZE)%N.
Proof.
  unfold fetch_sub. rewrite N.Div0.add_mod_idemp_l.
  replace (1 + x + (USIZE - 1))%N with (x + 1 * USIZE)%N by (unfold USIZE; lia). by rewrite N.Div0.mod_add.
Qed.

(** Steps that leave the map alone *)
Lemma sound_move s s' t t' ts : sound s (t :: ts) -> agent_tree s' = agent_tree s ->
  owns t' = owns t -> task_ok t' ->
  total_count s' = ((slots (t' :: ts) + live (agent_tree s)) mod USIZE)%N -> sound s' (t' :: ts).
Proof.
  intros [Hc Ht Hr Ho Hp Ha Hi] E Eo Hok Hn. apply Forall_cons in Ht as [_ Ht].
  assert (omap owns (t' :: ts) = omap owns (t :: ts)) as Em by (simpl; by rewrite Eo).
  split; rewrite ?E, ?Em; try done. by apply Forall_cons.
Qed.

Lemma sound_same s t t' ts : sound s (t :: ts) -> owns t' = owns t -> slot t' = slot t -> task_ok t' -> sound s (t' :: ts).
Proof.
  intros H Eo Es Hok. apply (sound_move s s t); try done. by rewrite (sound_count _ _ H), !slots_cons, Es.
Qed.

(** Entries with an identifier *)
Lemma sound_delete s t t' ts k m id : sound s (t :: ts) -> agent_tree s !! k = Some m -> agent_id m = Some id ->
  owns t' = owns t -> task_ok t' -> (if slot t' then 1 else 0)%N = ((if slot t then 1 else 0) + weight m)%N ->
  sound (with_tree s (delete k (agent_tree s))) (t' :: ts).
Proof.
  intros [Hc Ht Hr Ho Hp Ha Hi] Hk Hid Eo Hok Hw. apply Forall_cons in Ht as [_ Ht].
  assert (omap owns (t' :: ts) = omap owns (t :: ts)) as Em by (simpl; by rewrite Eo).
  split; simpl agent_tree; simpl total_count; rewrite ?Em; try done.
  - rewrite Hc, !slots_cons, (live_delete k m) by done. f_equal. rewrite Hw. lia.
  - by apply Forall_cons.
  - intros k'. rewrite <- Hr. apply exist_proper. intros m'. rewrite lookup_delete_Some. split; [tauto|].
    intros [Hm' Hn]. split; [|done]. split; [|done]. intros <-. congruence.
  - intros k' m' id' [_ Hm']%lookup_delete_Some. by apply Ha.
  - intros k' k'' m' m'' id' [_ Hm']%lookup_delete_Some [_ Hm'']%lookup_delete_Some. by apply (Hi k' k'' m' m'').
Qed.

(** An entry with a fresh identifier replaces one without, or none. *)
Lemma sound_insert s t t' ts k m id : sound s (t :: ts) -> agent_at k m id ->
  (forall k' m', agent_tree s !! k' = Some m' -> agent_id m' <> Some id) ->
  (owns t = Some k /\ owns t' = None \/ agent_tree s !! k = None /\ owns t' = owns t) -> task_ok t' ->
  ((if slot t' then 1 else 0) + weight m)%N = (if slot t then 1 else 0)%N ->
  sound (with_tree s (<[k := m]> (agent_tree s))) (t' :: ts).
Proof.
  intros [Hc Ht Hr Ho Hp Ha Hi] Hat Hfresh Hown Hok Hw. apply Forall_cons in Ht as [_ Ht]. pose proof Hat as [Hid _].
  assert (forall m', agent_tree s !! k = Some m' -> agent_id m' = None) as Hold.
  { intros m' Hm'. destruct Hown as [[Hown _]|[Hn _]]; [|congruence].
    destruct (proj2 (Hr k)) as (m0 & Hm0 & ?); [csimpl; rewrite Hown; left|]. congruence. }
  assert (forall k', (exists m', <[k := m]> (agent_tree s) !! k' = Some m' /\ agent_id m' = None) <->
    k' ∈ omap owns (t' :: ts)) as Hr'.
  { intros k'. destruct (decide (k' = k)) as [->|Hne].
    - rewrite lookup_insert_eq. split; [intros (? & [= <-] & ?); congruence|].
      intros Hin. exfalso. csimpl in Hin. destruct Hown as [[E1 E2]|[E1 E2]].
      + rewrite E2 in Hin. csimpl in Ho. rewrite E1 in Ho. by apply NoDup_cons in Ho as [? _].
      + rewrite E2 in Hin. destruct (proj2 (Hr k)) as (m0 & Hm0 & _); [by csimpl|congruence].
    - rewrite lookup_insert_ne, Hr by done. csimpl. destruct Hown as [[-> ->]|[_ ->]]; [|done].
      rewrite elem_of_cons. tauto. }
  split; simpl agent_tree; simpl total_count; try done.
  - rewrite Hc, !slots_cons, live_insert. f_equal. rewrite <- Hw.
    assert (live (delete k (agent_tree s)) = live (agent_tree s)) as ->; [|lia].
    destruct (agent_tree s !! k) as [m'|] eqn:Em'; [|by rewrite delete_absent].
    rewrite (live_delete k m' (agent_tree s)) by done. unfold weight, counted. by rewrite (Hold m').
  - by apply Forall_cons.
  - csimpl. csimpl in Ho. destruct Hown as [[E1 E2]|[E1 E2]]; rewrite E2; [|done]. rewrite E1 in Ho. by apply NoDup_cons in Ho as [_ ?].
  - csimpl. csimpl in Hp. destruct Hown as [[E1 E2]|[E1 E2]]; rewrite E2; [|done]. rewrite E1 in Hp. by apply Forall_cons in Hp as [_ ?].
  - intros k' m' id' [[<- <-]|[_ Hm']]%lookup_insert_Some Hid'; [by rewrite Hid in Hid'; injection Hid' as <-|by apply Ha].
  - intros k1 k2 m1 m2 id' [[<- <-]|[_ H1]]%lookup_insert_Some [[<- <-]|[_ H2]]%lookup_insert_Some Hid1 Hid2; try done.
    + destruct (Hfresh k2 m2); congruence.
    + destruct (Hfresh k1 m1); congruence.
    + by apply (Hi k1 k2 m1 m2 id').
Qed.

(** The message of an agent *)
Lemma sound_update s ts k m message : sound s ts -> agent_tree s !! k = Some m ->
  is_Some (agent_id m) ->
  sound (with_tree s (<[k := mkAgent (agent_id m) (agent_path m) (agent_nickname m) (agent_role m) (Some message)]>
                        (agent_tree s))) ts.
Proof.
  intros [Hc Ht Hr Ho Hp Ha Hi] Hk [id Hid].
  split; simpl agent_tree; simpl total_count; try done.
  - rewrite Hc, live_insert, (live_delete k m) by done. done.
  - intros k'. rewrite <- Hr. apply exist_proper. intros m'. rewrite lookup_insert_Some. split.
    + intros [[[<- <-]|[_ Hm']] Hn]; [simpl in Hn; congruence|done].
    + intros [Hm' Hn]. split; [|done]. right. split; [|done]. intros <-. congruence.
  - intros k' m' id' [[<- <-]|[_ Hm']]%lookup_insert_Some; [intros Hid'; exact (Ha k m id' Hk Hid')|by apply Ha].
  - intros k1 k2 m1 m2 id' [[<- <-]|[_ H1]]%lookup_insert_Some [[<- <-]|[_ H2]]%lookup_insert_Some Hid1 Hid2; try done.
    + by apply (Hi k k2 m m2 id').
    + by apply (Hi k1 k m1 m id').
    + by apply (Hi k1 k2 m1 m2 id').
Qed.

Lemma sound_idle s t ts : slot t = false -> owns t = None -> task_ok t -> sound s (t :: ts) <-> sound s ts.
Proof.
  intros Es Eo Hok. assert (omap owns (t :: ts) = omap owns ts) as Em by (csimpl; by rewrite Eo).
  split; intros [Hc Ht Hr Ho Hp Ha Hi]; split; try done; rewrite ?slots_cons, ?Es, ?Em in *; try done.
  - by apply Forall_cons in Ht as [_ ?].
  - by apply Forall_cons.
Qed.

Lemma reserve_sound s ts path path' : sound s (Holding None :: ts) -> AgentPath.valid_path path ->
  path <> AgentPath.ROOT -> agent_tree s !! path = None -> path' = path ->
  sound (with_tree s (<[path := mkAgent None (Some path) None None None]> (agent_tree s))) (Holding (Some path') :: ts).
Proof.
  intros [Hc Ht Hr Ho Hp Ha Hi] Hv Hne Hk ->. apply Forall_cons in Ht as [_ Ht].
  assert (path ∉ omap owns ts) as Hnew.
  { intros Hin. apply (Hr path) in Hin as (m & Hm & _). congruence. }
  split; simpl agent_tree; simpl total_count; csimpl.
  - by rewrite Hc, !slots_cons, live_insert, delete_absent.
  - by apply Forall_cons.
  - intros k. rewrite elem_of_cons, <- (Hr k). split.
    + intros (m & [[-> _]|[_ Hm]]%lookup_insert_Some & Hn); [by left|right; by exists m].
    + intros [->|(m & Hm & Hn)]; [eexists; by rewrite lookup_insert_eq|].
      exists m. by rewrite lookup_insert_ne by congruence.
  - by apply NoDup_cons.
  - by apply Forall_cons.
  - intros k m id [[<- <-]|[_ Hm]]%lookup_insert_Some; [done|by apply Ha].
  - intros k1 k2 m1 m2 id [[<- <-]|[_ H1]]%lookup_insert_Some [[<- <-]|[_ H2]]%lookup_insert_Some; try done.
    by apply Hi.
Qed.

Lemma release_sound s ts path : sound s (Dropping (Some path) :: ts) ->
  sound (release_reserved_agent_path path s) (Releasing :: ts).
Proof.
  intros [Hc Ht Hr Ho Hp Ha Hi]. apply Forall_cons in Ht as [_ Ht]. csimpl in Ho. csimpl in Hp.
  apply NoDup_cons in Ho as [Hnew Ho]. apply Forall_cons in Hp as [_ Hp].
  destruct (proj2 (Hr path)) as (m & Hm & Hid); [csimpl; left|].
  unfold release_reserved_agent_path. rewrite Hm, Hid.
  split; simpl agent_tree; simpl total_count; csimpl; try done.
  - rewrite Hc, !slots_cons, (live_delete path m) by done. unfold weight, counted. by rewrite Hid.
  - by apply Forall_cons.
  - intros k. split.
    + intros (m' & [Hne Hm']%lookup_delete_Some & Hn). assert (k ∈ omap owns (Dropping (Some path) :: ts)) as Hin
        by (apply Hr; by exists m'). csimpl in Hin. apply elem_of_cons in Hin as [->|]; done.
    + intros Hin. destruct (proj2 (Hr k)) as (m' & Hm' & Hn); [csimpl; by right|].
      exists m'. by rewrite lookup_delete_ne by (intros <-; done).
  - intros k m' id [_ Hm']%lookup_delete_Some. by apply Ha.
  - intros k1 k2 m1 m2 id [_ H1]%lookup_delete_Some [_ H2]%lookup_delete_Some. by apply Hi.
Qed.

(** Is there no entry with the identifier? *)
Definition fresh_id (id : ThreadId) (s : AgentRegistry) : Prop :=
  map_Forall (fun _ m => agent_id m <> Some id) (agent_tree s).

Lemma register_root_sound s ts id : sound s ts -> fresh_id id s \/ is_Some (agent_tree s !! AgentPath.ROOT) ->
  sound (register_root_thread id s) ts.
Proof.
  intros H Hf. unfold register_root_thread. destruct (agent_tree s !! AgentPath.ROOT) as [m|] eqn:Em; [done|].
  destruct Hf as [Hf|[m Hf]]; [|done]. apply (sound_idle _ Done); [done..|].
  apply (sound_insert s Done Done ts AgentPath.ROOT _ id); try done.
  - by apply sound_idle.
  - split; [done|]. split; [done|]. intros p [= <-]. right. by exists [].
  - by right.
Qed.

Lemma key_thread_not_path id segs : lit "thread:" ++ id <> AgentPath.agent_path_of segs.
Proof. done. Qed.

(** The entry of a committed agent *)
Lemma commit_key s ts path m id : sound s (Holding path :: ts) -> agent_id m = Some id -> agent_path m = path ->
  fresh_id id s ->
  agent_at (key_of id m) m id /\ counted m = true /\
  (path = Some (key_of id m) \/ path = None /\ agent_tree s !! key_of id m = None).
Proof.
  intros [Hc Ht Hr Ho Hp Ha Hi] Hid Hpath Hf. csimpl in Hp. unfold counted, is_root_agent, key_of. rewrite Hid, Hpath.
  destruct path as [p|]; simpl.
  - apply Forall_cons in Hp as [[Hv Hn] _]. unfold AgentPath.is_root. rewrite bool_decide_eq_false_2 by done.
    split; [|by auto]. split; [done|]. unfold key_of. rewrite Hpath. by split; [|intros ? [= <-]].
  - split; [|split; [done|]].
    + split; [done|]. unfold key_of. rewrite Hpath. done.
    + right. split; [done|]. destruct (agent_tree s !! _) as [m'|] eqn:Em; [|done]. exfalso.
      assert (forall p, AgentPath.valid_path p -> lit "thread:" ++ id <> p) as Hkey.
      { intros p [->|(segs & _ & ->)]; [done|apply key_thread_not_path]. }
      destruct (agent_id m') as [id'|] eqn:Eid.
      * destruct (Ha _ m' id' Em Eid) as (_ & Hk & Hv). unfold key_of in Hk.
        destruct (agent_path m') as [p|]; simpl in Hk; [by apply (Hkey p); auto|].
        apply (app_inv_head (lit "thread:")) in Hk as <-. by apply (Hf _ _ Em).
      * assert (lit "thread:" ++ id ∈ omap owns (Holding None :: ts)) as Hin by (apply Hr; eauto).
        csimpl in Hin. rewrite Forall_forall in Hp. destruct (Hp _ Hin) as [Hv _]. by apply (Hkey _ Hv).
Qed.

Lemma commit_sound s ts path m id : sound s (Holding path :: ts) -> agent_id m = Some id -> agent_path m = path ->
  fresh_id id s -> sound (register_spawned_thread m s) (Done :: ts).
Proof.
  intros H Hid Hpath Hf. destruct (commit_key s ts path m id H Hid Hpath Hf) as (Hat & Hcount & Hown).
  unfold register_spawned_thread. rewrite Hid.
  assert (sound (with_tree s (<[key_of id m := m]> (agent_tree s))) (Done :: ts)) as Hs.
  { apply (sound_insert s (Holding path) Done ts _ m id); try done.
    - destruct Hown as [->|[-> E]]; [by left|by right].
    - unfold weight. by rewrite Hcount. }
  apply (sound_move _ _ _ _ _ Hs); try done. apply (sound_count _ _ Hs).
Qed.

Section Steps.
Context (iter : gmap str AgentMetadata -> list (str * AgentMetadata)).
Context (iter_perm : forall m, iter m ≡ₚ map_to_list m).

Lemma find_agent_Some id s k m : find_agent iter id s = Some (k, m) -> agent_tree s !! k = Some m /\ agent_id m = Some id.
Proof.
  intros [Hin Hid]%List.find_some. unfold has_id in Hid. apply bool_decide_eq_true in Hid. split; [|done].
  apply elem_of_map_to_list. rewrite <- iter_perm. by apply list_elem_of_In.
Qed.

Lemma find_agent_None id s : find_agent iter id s = None <-> fresh_id id s.
Proof.
  unfold find_agent, fresh_id. split.
  - intros H k m Hk Hid. apply elem_of_map_to_list in Hk. rewrite <- iter_perm in Hk. apply list_elem_of_In in Hk.
    apply (List.find_none _ _ H) in Hk. unfold has_id in Hk. simpl in Hk. by rewrite bool_decide_eq_true_2 in Hk.
  - intros H. destruct (find _ _) as [[k m]|] eqn:E; [|done]. apply find_agent_Some in E as [Hk Hid].
    by apply (H _ _ Hk) in Hid.
Qed.

(** What the code that uses the registry does: paths are checked before they
    are reserved, one for a reservation and not the path of the root; an agent
    is committed under a new identifier and the path reserved for it; the root
    is registered under a new identifier, or again. *)
Definition disciplined (c : conf) (e : event) : Prop :=
  match e with
  | StartReservation (Some max_threads) => (max_threads < USIZE)%N
  | StepTask i (ReservePath path) =>
      AgentPath.valid_path path /\ path <> AgentPath.ROOT /\
      forall t, tasks c !! i = Some t -> owns t = None
  | StepTask i (Commit m) =>
      exists id, agent_id m = Some id /\ fresh_id id (registry c) /\
      forall path, tasks c !! i = Some (Holding path) -> agent_path m = path
  | RegisterRoot id => fresh_id id (registry c) \/ is_Some (agent_tree (registry c) !! AgentPath.ROOT)
  | _ => True
  end.

Lemma loaded_idle max_threads current : slot (loaded_count max_threads current) = false /\
  owns (loaded_count max_threads current) = None.
Proof. unfold loaded_count. by destruct (_ <=? _)%N. Qed.

Lemma loaded_ok max_threads current : (max_threads < USIZE)%N -> task_ok (loaded_count max_threads current).
Proof. unfold loaded_count. intros. destruct (N.leb_spec max_threads current); simpl; lia. Qed.

Lemma sound_loaded s t ts max_threads current : sound s (t :: ts) -> owns t = None -> slot t = false ->
  (max_threads < USIZE)%N -> sound s (loaded_count max_threads current :: ts).
Proof.
  intros H Eo Es Hm. destruct (loaded_idle max_threads current) as [E1 E2].
  apply (sound_same s t); [done|congruence|congruence|by apply loaded_ok].
Qed.

Lemma nickname_tree names preferred draw draw' s :
  let s' := (reserve_agent_nickname names preferred draw draw' s).2 in
  agent_tree s' = agent_tree s /\ total_count s' = total_count s.
Proof. unfold reserve_agent_nickname. repeat case_match; done. Qed.

Lemma step_sound c i t input ts : sound (registry c) (t :: ts) -> tasks c !! i = Some t ->
  disciplined c (StepTask i input) ->
  sound (step_task iter input t (registry c)).1 ((step_task iter input t (registry c)).2 :: ts).
Proof.
  intros H Ht Hd. set (s := registry c) in *. pose proof (sound_count _ _ H) as Hc.
  pose proof (sound_tasks _ _ H) as [Hok _]%Forall_cons.
  destruct t as [[mt|]|mt cur|mt|path|path| |id|], input as [| |names pref d d'|p|m|]; simpl; try done.
  - by apply (sound_loaded s (Reserving (Some mt))).
  - apply (sound_move s _ (Reserving None)); try done. simpl total_count. rewrite Hc, fetch_add_mod, !slots_cons.
    f_equal. simpl. lia.
  - simpl in Hok. case_match eqn:E; [|apply (sound_loaded s (Comparing mt cur)); by try lia].
    apply N.eqb_eq in E. apply (sound_move s _ (Comparing mt cur)); try done.
    simpl total_count. rewrite slots_cons in *. simpl in *. rewrite <- (N.mod_small (cur + 1) USIZE) by lia.
    rewrite <- E, Hc, N.Div0.add_mod_idemp_l. f_equal. lia.
  - simpl in Hok. apply (sound_loaded s (Comparing mt cur)); by try lia.
  - destruct (nickname_tree names pref d d' s) as [E1 E2].
    by apply (sound_move s _ (Holding path)); rewrite ?E2.
  - destruct Hd as (Hv & Hne & Hd). specialize (Hd _ Ht). simpl in Hd. subst path. unfold reserve_agent_path.
    destruct (agent_tree s !! p) as [m|] eqn:Em; simpl; [done|]. by apply reserve_sound.
  - destruct Hd as (id & Hid & Hf & Hpath). eapply commit_sound; eauto.
  - by apply (sound_same s (Holding path)).
  - destruct path as [path|]; [by apply release_sound|by apply (sound_same s (Dropping None))].
  - apply (sound_move s _ Releasing); try done. simpl total_count. rewrite Hc, !slots_cons. simpl.
    by rewrite <- N.add_assoc, fetch_sub_mod.
  - unfold remove_agent. destruct (find_agent iter id s) as [[k m]|] eqn:E; simpl; [|by apply (sound_same s (Removing id))].
    apply find_agent_Some in E as [Hk Hid]. rewrite Hk. simpl.
    apply (sound_delete s (Removing id) _ ts k m id); try done; unfold weight, counted; rewrite ?Hid; by destruct (is_root_agent m).
Qed.

Lemma apply_event_sound c e : sound (registry c) (tasks c) -> disciplined c e ->
  sound (registry (apply_event iter c e)) (tasks (apply_event iter c e)).
Proof.
  intros H Hd. destruct e as [limit|id|i input|id|id message]; simpl.
  - rewrite <- Permutation_cons_append. by apply sound_idle.
  - rewrite <- Permutation_cons_append. by apply sound_idle.
  - destruct (tasks c !! i) as [t|] eqn:Et; [|done].
    destruct (step_task iter input t (registry c)) as [s t'] eqn:Es.
    destruct (perm_update (tasks c) i t t' Et) as [H1 H2]. rewrite H1 in H.
    pose proof (step_sound c i t input _ H Et Hd) as Hs. rewrite Es in Hs. simpl. by rewrite H2.
  - by apply register_root_sound.
  - unfold update_last_task_message. destruct (find_agent iter id (registry c)) as [[k m]|] eqn:E; [|done].
    apply find_agent_Some in E as [Hk Hid]. by apply sound_update.
Qed.

(** ** Interleavings *)

Fixpoint disciplined_run (c : conf) (events : list event) : Prop :=
  match events with
  | [] => True
  | e :: events => disciplined c e /\ disciplined_run (apply_event iter c e) events
  end.

Definition initial : conf := mkConf registry_default [].

Lemma initial_sound : sound (registry initial) (tasks initial).
Proof.
  split; try done; simpl.
  - intros k. split; [intros (m & Hm & _); by rewrite lookup_empty in Hm|by intros ?%elem_of_nil].
  - constructor.
Qed.

Lemma run_ind (P : conf -> Prop) (Q : event -> Prop) events :
  P initial -> (forall c e, sound (registry c) (tasks c) -> P c -> Q e -> disciplined c e -> P (apply_event iter c e)) ->
  Forall Q events -> disciplined_run initial events -> sound (registry (run iter events)) (tasks (run iter events)) /\ P (run iter events).
Proof.
  intros H0 Hstep HQ. unfold run. change (mkConf registry_default []) with initial.
  pose proof initial_sound as Hs. revert Hs H0 HQ. generalize initial.
  induction events as [|e events IH]; intros c Hs H0 HQ Hd; [done|]. destruct Hd as [Hd1 Hd2]. apply Forall_cons in HQ as [HQ1 HQ2].
  simpl. apply IH; auto. by apply apply_event_sound.
Qed.

Lemma run_sound events : disciplined_run initial events -> sound (registry (run iter events)) (tasks (run iter events)).
Proof. intros Hd. apply (run_ind (fun _ => True) (fun _ => True)); try done. by apply Forall_true. Qed.

(** *** Limits *)

Definition limited (n : N) (e : event) : Prop :=
  match e with
  | StartReservation (Some max_threads) => (max_threads <= n)%N
  | StartReservation None => False
  | _ => True
  end.

Definition task_limited (n : N) (t : task) : Prop :=
  match t with
  | Reserving (Some max_threads) | Comparing max_threads _ => (max_threads <= n)%N
  | Reserving None => False
  | _ => True
  end.

Definition used (c : conf) : N := (slots (tasks c) + live (agent_tree (registry c)))%N.

Lemma live_delete_le k tree : (live (delete k tree) <= live tree)%N.
Proof.
  destruct (tree !! k) as [m|] eqn:E; [rewrite (live_delete k m tree) by done; lia|by rewrite delete_absent].
Qed.

Definition slot_weight (t : task) : N := if slot t then 1 else 0.

Lemma step_used input t s : let '(s', t') := step_task iter input t s in
  (slot_weight t' + live (agent_tree s') <= slot_weight t + live (agent_tree s))%N \/
  (slot_weight t' + live (agent_tree s') = 1 + live (agent_tree s))%N /\
  (t = Reserving None \/ exists max_threads, t = Comparing max_threads (total_count s)).
Proof.
  destruct t as [[mt|]|mt cur|mt|path|path| |id|], input as [| |names pref d d'|p|m|]; simpl; try (left; lia);
    unfold slot_weight; simpl; try (left; lia).
  - left. destruct (loaded_idle mt (total_count s)) as [-> _]. lia.
  - right. split; [lia|by left].
  - destruct (N.eqb (total_count s) cur) eqn:E; simpl.
    + apply N.eqb_eq in E as <-. right. split; [lia|right; by exists mt].
    + left. destruct (loaded_idle mt (total_count s)) as [-> _]. lia.
  - left. destruct (loaded_idle mt (total_count s)) as [-> _]. lia.
  - left. destruct (nickname_tree names pref d d' s) as [-> _]. lia.
  - unfold reserve_agent_path. destruct (agent_tree s !! p); simpl; left; [lia|]. rewrite live_insert.
    pose proof (live_delete_le p (agent_tree s)). unfold weight, counted. simpl. lia.
  - left. unfold register_spawned_thread. destruct (agent_id m) as [id|]; simpl; [|lia]. rewrite live_insert.
    pose proof (live_delete_le (key_of id m) (agent_tree s)). unfold weight. destruct (counted m); lia.
  - left. destruct path as [path|]; [|lia]. unfold release_reserved_agent_path. repeat case_match; simpl; try lia.
    pose proof (live_delete_le path (agent_tree s)). lia.
  - unfold remove_agent. destruct (find_agent iter id s) as [[k m]|] eqn:E; simpl; [|left; lia].
    apply find_agent_Some in E as [Hk Hid]. rewrite Hk. simpl. left. rewrite (live_delete k m (agent_tree s)) by done.
    unfold weight, counted. rewrite Hid. destruct (is_root_agent m); simpl; lia.
Qed.

Lemma step_limited n input t s : task_limited n t -> task_limited n (step_task iter input t s).2.
Proof.
  intros H. destruct t as [[mt|]|mt cur|mt|path|path| |id|], input; simpl in *; repeat case_match; simpl; try done;
    unfold loaded_count; by destruct (_ <=? _)%N.
Qed.

Lemma used_limited n c e : (n < USIZE)%N -> sound (registry c) (tasks c) ->
  (used c <= n)%N /\ Forall (task_limited n) (tasks c) -> limited n e ->
  (used (apply_event iter c e) <= n)%N /\ Forall (task_limited n) (tasks (apply_event iter c e)).
Proof.
  intros Hn Hs [Hu Hl] He. unfold used in *. destruct e as [limit|id|i input|id|id message]; simpl.
  - rewrite <- Permutation_cons_append, slots_cons. split; [done|]. apply Forall_cons. by destruct limit.
  - rewrite <- Permutation_cons_append, slots_cons. split; [done|]. by apply Forall_cons.
  - destruct (tasks c !! i) as [t|] eqn:Et; [|done]. pose proof (step_used input t (registry c)) as Hstep.
    pose proof (Forall_lookup_1 _ _ _ _ Hl Et) as Hlt. pose proof (step_limited n input t (registry c) Hlt) as Hlt'.
    destruct (step_task iter input t (registry c)) as [s t'] eqn:Es. simpl.
    destruct (perm_update (tasks c) i t t' Et) as [H1 H2]. split; [|by apply Forall_insert].
    rewrite H2, slots_cons. rewrite H1, slots_cons in Hu. fold (slot_weight t) (slot_weight t') in *.
    destruct Hstep as [|[E [->|[mt ->]]]]; [lia|done|].
    pose proof (Forall_lookup_1 _ _ _ _ (sound_tasks _ _ Hs) Et) as Hok. simpl in Hok, Hlt. unfold slot_weight at 1 in Hu. simpl in Hu.
    rewrite (sound_count _ _ Hs), H1, slots_cons in Hok. simpl in Hok. rewrite N.mod_small in Hok by lia. lia.
  - split; [|done]. unfold register_root_thread. destruct (agent_tree (registry c) !! AgentPath.ROOT) eqn:E; [done|].
    simpl. rewrite live_insert, delete_absent by done. done.
  - split; [|done]. unfold update_last_task_message. destruct (find_agent iter id (registry c)) as [[k m]|] eqn:E; [|done].
    apply find_agent_Some in E as [Hk Hid]. simpl. rewrite live_insert. rewrite (live_delete k m) in Hu by done. done.
Qed.

Lemma live_agents_live s : N.of_nat (length (live_agents iter s)) = live (agent_tree s).
Proof. unfold live_agents, live. f_equal. apply Permutation_length, filter_perm. by rewrite iter_perm. Qed.

Lemma find_agent_sound s ts k m id : sound s ts -> agent_tree s !! k = Some m -> agent_id m = Some id ->
  find_agent iter id s = Some (k, m).
Proof.
  intros Hs Hk Hid. destruct (find_agent iter id s) as [[k' m']|] eqn:E.
  - apply find_agent_Some in E as [Hk' Hid']. assert (k' = k) as -> by by apply (sound_ids _ _ Hs _ _ m' m id).
    rewrite Hk in Hk'. by injection Hk' as ->.
  - apply find_agent_None in E. by apply (E _ _ Hk) in Hid.
Qed.

Lemma owner_unique (ts : list task) i j t t' k : NoDup (omap owns ts) -> ts !! i = Some t -> ts !! j = Some t' ->
  owns t = Some k -> owns t' = Some k -> i = j.
Proof.
  intros Hn Hi Hj Ei Ej. destruct (decide (i = j)) as [|Hne]; [done|exfalso].
  rewrite (omap_perm owns _ (t :: delete i ts)) in Hn by by apply delete_Permutation.
  csimpl in Hn. rewrite Ei in Hn. apply NoDup_cons in Hn as [Hk _]. apply Hk. apply list_elem_of_omap. exists t'. split; [|done].
  apply list_elem_of_lookup. destruct (decide (j < i)%nat).
  - exists j. by rewrite list_lookup_delete_lt.
  - exists (j - 1)%nat. rewrite list_lookup_delete_ge by lia. by replace (S (j - 1)) with j by lia.
Qed.

Lemma elem_of_owns (ts : list task) k : k ∈ omap owns ts <-> exists i t, ts !! i = Some t /\ owns t = Some k.
Proof. rewrite list_elem_of_omap. setoid_rewrite list_elem_of_lookup. split; [intros (t & [i Hi] & Ht)|intros (i & t & Hi & Ht)]; eauto. Qed.
End Steps.


Definition worker : AgentMetadata :=
  mkAgent (Some (lit "t1")) (Some (lit "/root/a")) (Some (lit "Euclid")) None None.

(** Two reservations compete for the one slot; an agent is registered. *)
Definition competing : list event :=
  [RegisterRoot (lit "t0"); StartReservation (Some 1%N); StartReservation (Some 1%N);
   StepTask 0 Go; StepTask 1 Go; StepTask 0 Go; StepTask 1 Go; StepTask 0 (ReservePath (lit "/root/a"));
   StepTask 0 (Commit worker)].

Lemma worker_path : AgentPath.valid_path (lit "/root/a").
Proof. right. exists [lit "a"]. split; [|done]. apply (bool_decide_unpack _). by vm_compute. Qed.

Ltac run_disciplined :=
  repeat match goal with
  | |- disciplined_run _ _ [] => exact I
  | |- disciplined_run _ _ (_ :: _) => split
  | |- disciplined _ (StepTask _ (Commit ?m)) =>
      eexists; split; [vm_compute; reflexivity|]; split;
        [apply (bool_decide_unpack _); vm_compute; exact I|intros ?; vm_compute; by intros [= <-]]
  | |- disciplined _ (StepTask _ (ReservePath _)) =>
      split; [apply worker_path|]; split; [by vm_compute|intros ?; vm_compute; by intros [= <-]]
  | |- disciplined _ (RegisterRoot _) => left; apply (bool_decide_unpack _); vm_compute; exact I
  | |- disciplined _ _ => by vm_compute
  end.


(** A thread that two tasks resume at once, as no path is reserved for it, is
    counted twice and listed once. *)
Example committed_twice :
  let resumed := mkAgent (Some (lit "t1")) None None None None in
  let c := run map_to_list
    [StartReservation (Some 2%N); StartReservation (Some 2%N); StepTask 0 Go; StepTask 1 Go; StepTask 0 Go; StepTask 1 Go;
     StepTask 0 Go; StepTask 1 Go; StepTask 0 (Commit resumed); StepTask 1 (Commit resumed)] in
  tasks c = [Done; Done] /\ total_count (registry c) = 2%N /\ length (live_agents map_to_list (registry c)) = 1%nat.
Proof. split_and!; by vm_compute. Qed.

Lemma metadata_iff iter s ts id m : (forall m, iter m ≡ₚ map_to_list m) -> sound s ts ->
  agent_metadata_for_thread iter id s = Some m <-> exists k, agent_tree s !! k = Some m /\ agent_id m = Some id.
Proof.
  intros Hiter Hs. unfold agent_metadata_for_thread. split.
  - intros ([k m'] & H & E)%fmap_Some. simpl in E. subst m'. apply (find_agent_Some iter Hiter) in H. eauto.
  - intros (k & Hk & Hid). by rewrite (find_agent_sound iter Hiter s ts k m id).
Qed.

(** The registry after a commit *)
Lemma committed iter c i path m : (forall m, iter m ≡ₚ map_to_list m) ->
  sound (registry c) (tasks c) -> disciplined c (StepTask i (Commit m)) -> tasks c !! i = Some (Holding path) ->
  let s' := registry (apply_event iter c (StepTask i (Commit m))) in
  exists id ts', agent_id m = Some id /\ sound s' ts' /\ counted m = true /\
    agent_tree s' = <[key_of id m := m]> (agent_tree (registry c)) /\
    (forall p, path = Some p -> p = key_of id m) /\
    (forall m', agent_tree (registry c) !! key_of id m = Some m' -> agent_id m' = None).
Proof.
  intros Hiter Hs Hd Ht s'. pose proof (apply_event_sound iter Hiter _ _ Hs Hd) as Hs'. fold s' in Hs'.
  destruct Hd as (id & Hid & Hf & Hpath). specialize (Hpath path Ht).
  pose proof Hs as Hs0. rewrite (proj1 (perm_update _ _ _ Done Ht)) in Hs0.
  destruct (commit_key _ _ path m id Hs0 Hid Hpath Hf) as (_ & Hcount & Hown).
  exists id, (tasks (apply_event iter c (StepTask i (Commit m)))).
  split; [done|]. split; [done|]. split; [done|]. split; [|split].
  - unfold s', apply_event. rewrite Ht. simpl. unfold register_spawned_thread. by rewrite Hid.
  - intros p ->. destruct Hown as [[= ->]|[? _]]; done.
  - intros m' Hm'. destruct Hown as [Hown|[_ Hn]]; [|congruence].
    destruct (proj2 (sound_reserved _ _ Hs (key_of id m))) as (m0 & Hm0 & Hn0); [|congruence].
    apply elem_of_owns. eexists _, (Holding path). by split.
Qed.

(** Whatever happened before, an agent that is committed is found from then on
    by its path and by its thread, and other threads are found as before; its
    release gives its slot and its path back, and leaves the other entries. *)
Theorem agent_lifecycle iter events i path m :
  (forall m, iter m ≡ₚ map_to_list m) ->
  let c := run iter events in
  let s' := registry (apply_event iter c (StepTask i (Commit m))) in
  disciplined_run iter initial events -> disciplined c (StepTask i (Commit m)) ->
  tasks c !! i = Some (Holding path) ->
  exists id, agent_id m = Some id /\
    agent_metadata_for_thread iter id s' = Some m /\
    (forall p, path = Some p -> agent_id_for_path p s' = Some id) /\
    (forall id', id' <> id ->
       agent_metadata_for_thread iter id' s' = agent_metadata_for_thread iter id' (registry c)) /\
    let '(removed, s'') := remove_agent iter id s' in
    removed = true /\ agent_tree s'' = delete (key_of id m) (agent_tree (registry c)) /\
    (forall p, path = Some p -> (reserve_agent_path p s'').1 = Ok tt).
Proof.
  intros Hiter c s' Hd Hc Ht. pose proof (run_sound iter Hiter events Hd) as Hs. fold c in Hs.
  destruct (committed iter c i path m Hiter Hs Hc Ht) as (id & ts' & Hid & Hs' & Hcount & Es & Hp & Hold). fold s' in Hs', Es.
  assert (agent_tree s' !! key_of id m = Some m) as Hk by (rewrite Es; apply lookup_insert_eq).
  exists id. split; [done|]. split; [apply (metadata_iff iter s' ts'); eauto|]. split; [|split].
  - intros p ->%Hp. unfold agent_id_for_path. by rewrite Hk.
  - intros id' Hne. apply option_eq. intros m'. rewrite !(metadata_iff iter _ _ id' m' Hiter) by done.
    apply exist_proper. intros k. rewrite Es, lookup_insert_Some. split.
    + intros [[[<- <-]|[_ ?]] Hid']; [congruence|done].
    + intros [Hk' Hid']. split; [|done]. right. split; [|done]. intros <-. by rewrite (Hold m' Hk') in Hid'.
  - unfold remove_agent. rewrite (find_agent_sound iter Hiter s' ts' _ m id), Hk by done. simpl.
    unfold counted in Hcount. rewrite Hid in Hcount. split; [done|]. rewrite Es, delete_insert_eq. split; [done|].
    intros p ->%Hp. unfold reserve_agent_path. simpl. by rewrite lookup_delete_eq.
Qed.

Lemma agent_lifecycle_witness :
  let c := run map_to_list (take 8 competing) in
  agent_id_for_path (lit "/root/a") (registry c) = None /\
  exists id, agent_id worker = Some id /\
    forall p, Some (lit "/root/a") = Some p ->
      agent_id_for_path p (registry (apply_event map_to_list c (StepTask 0 (Commit worker)))) = Some id.
Proof.
  split; [by vm_compute|].
  destruct (agent_lifecycle map_to_list (take 8 competing) 0 (Some (lit "/root/a")) worker) as (id & H1 & _ & H2 & _);
    [done| | |by vm_compute|by exists id].
  - simpl take. run_disciplined.
  - run_disciplined.
Defined.

(** An agent that is shut down after its thread was made and before it is
    committed is registered all the same, and keeps its slot. *)
Example released_before_commit :
  let c := run map_to_list
    [StartReservation (Some 1%N); StepTask 0 Go; StepTask 0 Go; StartRelease (lit "t1"); StepTask 1 Go;
     StepTask 0 (Commit worker)] in
  tasks c = [Done; Done] /\ total_count (registry c) = 1%N /\ live_agents map_to_list (registry c) = [worker].
Proof. by vm_compute. Qed.

(** ** Nicknames are not given twice *)

(** A name that is not itself a name with an ordinal *)
Definition plain (name : str) : Prop := forall name' k, (0 < k)%N -> name <> format_agent_nickname name' k.

Lemma last_char_inj (c : N) (a b t u : str) : c ∉ t -> c ∉ u -> a ++ [c] ++ t = b ++ [c] ++ u -> t = u.
Proof.
  intros Ht Hu H. apply app_eq_inv in H as [(k & -> & E)|(k & -> & E)]; destruct k as [|x k]; simpl in E.
  - by injection E.
  - injection E as -> E. rewrite E in Hu. set_solver.
  - by injection E.
  - injection E as -> E. rewrite E in Ht. set_solver.
Qed.

Lemma ordinal_suffix_length v : length (ordinal_suffix v) = 2%nat.
Proof. unfold ordinal_suffix. destruct (_ && _); [done|]. by repeat case_match. Qed.

Lemma ordinal_no_space v : ch " " ∉ lit (pretty v) ++ ordinal_suffix v.
Proof.
  assert (ch " " ∉ ordinal_suffix v) as Hs.
  { unfold ordinal_suffix. destruct (_ && _); [|repeat case_match]; by apply (bool_decide_unpack _); vm_compute. }
  rewrite elem_of_app. intros [H|H]; [|done].
  pose proof (show_N_digits v) as Hd. rewrite Forall_forall in Hd. by apply Hd in H.
Qed.

Lemma format_ordinal name k : (0 < k)%N ->
  format_agent_nickname name k = (name ++ lit " the") ++ [ch " "] ++ lit (pretty (k + 1)%N) ++ ordinal_suffix (k + 1).
Proof. intros Hk. unfold format_agent_nickname. destruct (N.eqb_spec k 0); [lia|]. by rewrite <- !app_assoc. Qed.

Lemma format_0 name : format_agent_nickname name 0 = name.
Proof. done. Qed.

(** A nickname tells how often the pool was reset. *)
Lemma format_count name name' k k' : plain name -> plain name' ->
  format_agent_nickname name k = format_agent_nickname name' k' -> k = k'.
Proof.
  intros Hp Hp' H. destruct (decide (k = 0%N)) as [->|Hk], (decide (k' = 0%N)) as [->|Hk']; [done|..].
  - by apply Hp in H; [|lia].
  - symmetry in H. by apply Hp' in H; [|lia].
  - rewrite !format_ordinal in H by lia. apply last_char_inj in H; [|apply ordinal_no_space..].
    apply app_inj_2 in H as [H _]; [|by rewrite !ordinal_suffix_length].
    apply (f_equal (decimal 0)) in H. rewrite !decimal_show in H. lia.
Qed.

Lemma plain_no_space name : ch " " ∉ name -> plain name.
Proof.
  intros Hn name' k Hk ->. apply Hn. rewrite format_ordinal by done. rewrite !elem_of_app. right. left. by left.
Qed.

(** Requests for nicknames one after another: names, and two draws *)
Record request : Type := mkRequest { req_names : list str; req_draw : nat; req_draw' : nat }.

Fixpoint draw_nicknames (requests : list request) (s : AgentRegistry) : list (option str) :=
  match requests with
  | [] => []
  | r :: requests =>
      let '(nickname, s) := reserve_agent_nickname (req_names r) None (req_draw r) (req_draw' r) s in
      nickname :: draw_nicknames requests s
  end.

Lemma choose_Some {A} draw (l : list A) : l <> [] -> exists x, choose draw l = Some x /\ x ∈ l.
Proof.
  intros Hl. unfold choose. destruct (lookup_lt_is_Some_2 l (draw mod length l)) as [x Hx].
  - apply Nat.mod_upper_bound. by destruct l.
  - exists x. split; [done|]. by eapply list_elem_of_lookup_2.
Qed.

(** A nickname that was given and may be told from those that will be *)
Definition spent (s : AgentRegistry) (nickname : str) : Prop :=
  exists name k, plain name /\ nickname = format_agent_nickname name k /\
    (k <= nickname_reset_count s)%N /\ (k = nickname_reset_count s -> nickname ∈ used_agent_nicknames s).

Lemma reserve_nickname_new names draw draw' s : names <> [] -> Forall plain names ->
  exists nickname s', reserve_agent_nickname names None draw draw' s = (Some nickname, s') /\
    (exists name, name ∈ names /\ nickname = format_agent_nickname name (nickname_reset_count s')) /\
    ~ spent s nickname /\ spent s' nickname /\ forall n, spent s n -> spent s' n.
Proof.
  intros Hne Hp. rewrite Forall_forall in Hp. unfold reserve_agent_nickname.
  rewrite (proj2 (is_empty_false names) Hne).
  set (available := List.filter _ _). destruct (decide (available = [])) as [E|E].
  - rewrite E. destruct (choose_Some draw' names Hne) as (name & -> & Hin).
    eexists _, _. split; [by unfold choose; rewrite lookup_nil|]. simpl. split; [by exists name|]. split; [|split].
    + intros (name' & k & Hp' & H & Hk & _). apply format_count in H; [lia|by apply Hp|done].
    + exists name, (nickname_reset_count s + 1)%N. simpl. split; [by apply Hp|]. split; [done|]. split; [lia|set_solver].
    + intros n (name' & k & Hp' & -> & Hk & _). exists name', k. simpl. split; [done|]. split; [done|]. split; [lia|lia].
  - destruct (choose_Some draw available E) as (nickname & -> & Hin). unfold available in Hin.
    apply list_elem_of_In, filter_In in Hin as [Hin Hfree]. apply in_map_iff in Hin as (name & <- & Hin%list_elem_of_In).
    rewrite negb_true_iff, bool_decide_eq_false in Hfree.
    eexists _, _. split; [done|]. simpl. split; [by exists name|]. split; [|split].
    + intros (name' & k & Hp' & H & Hk & Hused). apply Hfree, Hused. symmetry. apply format_count in H; auto.
    + exists name, (nickname_reset_count s). simpl. split; [by apply Hp|]. split; [done|]. split; [lia|set_solver].
    + intros n (name' & k & Hp' & -> & Hk & Hused). exists name', k. simpl. split; [done|]. split; [done|]. split; [done|].
      intros ->. set_solver.
Qed.

(** As long as the names offered do not look like names with an ordinal, every
    request for a nickname is served from its names, with the ordinal of the
    round the pool is in, and no nickname is given twice. *)
Theorem nicknames_distinct (requests : list request) (s : AgentRegistry) :
  Forall (fun r => req_names r <> [] /\ Forall plain (req_names r)) requests ->
  exists nicknames, draw_nicknames requests s = Some <$> nicknames /\ NoDup nicknames /\
    Forall2 (fun r nickname => exists name k, name ∈ req_names r /\ nickname = format_agent_nickname name k)
      requests nicknames.
Proof.
  intros H. assert (exists nicknames, draw_nicknames requests s = Some <$> nicknames /\ NoDup nicknames /\
    Forall (fun n => ~ spent s n) nicknames /\
    Forall2 (fun r nickname => exists name k, name ∈ req_names r /\ nickname = format_agent_nickname name k)
      requests nicknames) as (l & H1 & H2 & _ & H3); [|by exists l].
  revert s. induction H as [|r requests [Hne Hp] _ IH]; intros s.
  - exists []. simpl. split; [done|]. split; [constructor|]. split; constructor.
  - destruct (reserve_nickname_new _ (req_draw r) (req_draw' r) s Hne Hp) as (n & s' & E & (name & Hin & En) & Hnew & Hsp & Hmono).
    destruct (IH s') as (l & H1 & H2 & H3 & H4). exists (n :: l). cbn [draw_nicknames]. rewrite E, H1. split; [done|].
    rewrite Forall_forall in H3. split; [|split].
    + apply NoDup_cons. split; [|done]. intros Hl. by apply H3 in Hl.
    + apply Forall_cons. split; [done|]. apply Forall_forall. intros x Hx Hs. by apply (H3 x Hx), Hmono.
    + constructor; [|done]. by exists name, (nickname_reset_count s').
Qed.

Lemma nicknames_distinct_witness :
  let r := mkRequest [lit "Ada"; lit "Euclid"] 0 1 in
  draw_nicknames [r; r; r] registry_default =
    [Some (lit "Ada"); Some (lit "Euclid"); Some (lit "Euclid the 2nd")] /\
  exists nicknames, draw_nicknames [r; r; r] registry_default = Some <$> nicknames /\ NoDup nicknames.
Proof.
  intros r. split; [by vm_compute|].
  destruct (nicknames_distinct [r; r; r] registry_default) as (l & H1 & H2 & _); [|by exists l].
  repeat apply Forall_cons_2; try apply Forall_nil_2; (split; [done|]);
    repeat apply Forall_cons_2; try apply Forall_nil_2; apply plain_no_space, (bool_decide_unpack _); by vm_compute.
Defined.
