(* ===== verification/TurnItems.v ===== *)
(** * TurnItems: what an item of a conversation is to the user

    [core/src/event_mapping.rs] and [core/src/web_search.rs], with the types of
    [protocol/src/items.rs] and [protocol/src/user_input.rs].  Fresh
    identifiers ([Uuid::new_v4]) are an input. *)

From S2P Require Import Prelude Trim ResponseItems.
Local Open Scope str_scope.

(** Model input carries no element ranges, which are left out. *)
Inductive UserInput : Type :=
| UserText (text : str)
| UserImage (image_url : str)
| UserLocalImage (path : str)
| UserSkill (name path : str)
| UserMention (name path : str).

Record UserMessageItem : Type := mkUserMessage { user_id : str; user_content : list UserInput }.

Record HookPromptFragment : Type := mkHookFragment { hook_text : str; hook_run_id : str }.
Record HookPromptItem : Type := mkHookPrompt { hook_id : str; hook_fragments : list HookPromptFragment }.

(** Model output carries no memory citation. *)
Record AgentMessageItem : Type := mkAgentMessage {
  message_id : str;
  message_content : list str;
  message_phase : option MessagePhase;
}.

Inductive TurnItem : Type :=
| TurnUserMessage (item : UserMessageItem)
| TurnHookPrompt (item : HookPromptItem)
| TurnAgentMessage (item : AgentMessageItem)
| TurnReasoning (id : str) (summary_text raw_content : list str)
| TurnWebSearch (id query : str) (action : WebSearchAction)
| TurnImageGeneration (id status : str) (revised_prompt : option str) (result : str).

Definition user_input_text (c : UserInput) : str := match c with UserText text => text | _ => [] end.

(** [UserMessageItem::message] *)
Definition message (self : UserMessageItem) : str := join [] (map user_input_text (user_content self)).

(** ** Tags around images *)

Definition IMAGE_OPEN_TAG : str := lit "<image>".
Definition IMAGE_CLOSE_TAG : str := lit "</image>".
Definition LOCAL_IMAGE_OPEN_TAG_PREFIX : str := lit "<image name=".
Definition LOCAL_IMAGE_OPEN_TAG_SUFFIX : str := lit ">".

Definition is_local_image_open_tag_text (text : str) : bool :=
  match strip_prefix LOCAL_IMAGE_OPEN_TAG_PREFIX text with
  | Some rest => ends_with rest LOCAL_IMAGE_OPEN_TAG_SUFFIX
  | None => false
  end.
Definition is_image_close_tag_text (text : str) : bool := text =? IMAGE_CLOSE_TAG.
Definition is_local_image_close_tag_text (text : str) : bool := is_image_close_tag_text text.
Definition is_image_open_tag_text (text : str) : bool := text =? IMAGE_OPEN_TAG.

Definition is_input_image (content_item : option ContentItem) : bool :=
  match content_item with Some (InputImage _ _) => true | _ => false end.

(** ** Messages *)

Section wire.
Context `{WireFormats}.

(** The body of the loop over the content *)
Definition user_input_of (message : list ContentItem) (idx : nat) (content_item : ContentItem) : option UserInput :=
  match content_item with
  | InputText text =>
      if (is_local_image_open_tag_text text || is_image_open_tag_text text)
           && is_input_image (message !! (idx + 1)%nat)
         || (0 <? idx)%nat && (is_local_image_close_tag_text text || is_image_close_tag_text text)
           && is_input_image (message !! (idx - 1)%nat)
      then None
      else Some (UserText text)
  | InputImage image_url _ => Some (UserImage image_url)
  | OutputText _ => None
  end.

Definition user_inputs (message : list ContentItem) : list UserInput :=
  omap (fun '(idx, content_item) => user_input_of message idx content_item) (imap pair message).

Definition parse_user_message (fresh : str) (message : list ContentItem) : option UserMessageItem :=
  if is_contextual_user_message_content message then None else Some (mkUserMessage fresh (user_inputs message)).

Definition parse_agent_message (fresh : str) (id : option str) (message : list ContentItem) (phase : option MessagePhase)
    : AgentMessageItem :=
  mkAgentMessage (default fresh id)
    (omap (fun content_item =>
             match content_item with InputText text | OutputText text => Some text | InputImage _ _ => None end) message)
    phase.

(** The loop of [parse_visible_hook_prompt_message] *)
Fixpoint hook_prompt_fragments (content : list ContentItem) (fragments : list HookPromptFragment)
    : option (list HookPromptFragment) :=
  match content with
  | [] => Some fragments
  | InputText text :: content =>
      match parse_hook_prompt_fragment text with
      | Some (text, hook_run_id) => hook_prompt_fragments content (fragments ++ [mkHookFragment text hook_run_id])
      | None => if is_standard_contextual_user_text text then hook_prompt_fragments content fragments else None
      end
  | _ :: _ => None
  end.

Definition parse_visible_hook_prompt_message (fresh : str) (id : option str) (content : list ContentItem)
    : option HookPromptItem :=
  fragments ← hook_prompt_fragments content [];
  if is_empty fragments then None else Some (mkHookPrompt (default fresh id) fragments).

Definition search_action_detail (query : option str) (queries : option (list str)) : str :=
  match query with
  | Some (c :: q) => c :: q
  | _ =>
      let first := default [] (queries ≫= head) in
      if match queries with Some queries => (1 <? length queries)%nat | None => false end && negb (is_empty first)
      then first ++ lit " ..." else first
  end.

Definition web_search_action_detail (action : WebSearchAction) : str :=
  match action with
  | WebSearch query queries => search_action_detail query queries
  | OpenPage url => default [] url
  | FindInPage url pattern =>
      match pattern, url with
      | Some pattern, Some url => lit "'" ++ pattern ++ lit "' in " ++ url
      | Some pattern, None => lit "'" ++ pattern ++ lit "'"
      | None, Some url => url
      | None, None => []
      end
  | WebOther => []
  end.

Definition web_search_detail (action : option WebSearchAction) (query : str) : str :=
  let detail := default [] (web_search_action_detail <$> action) in
  if is_empty detail then query else detail.

Definition summary_entry_text (entry : ReasoningItemReasoningSummary) : str := let 'SummaryText text := entry in text.
Definition content_entry_text (entry : ReasoningItemContent) : str :=
  match entry with ReasoningText text | ReasoningPlain text => text end.

Definition parse_turn_item {Json} (fresh : str) (item : ResponseItem Json) : option TurnItem :=
  match item with
  | Message id role content phase =>
      if role =? lit "user" then
        match parse_visible_hook_prompt_message fresh id content with
        | Some prompt => Some (TurnHookPrompt prompt)
        | None => TurnUserMessage <$> parse_user_message fresh content
        end
      else if role =? lit "assistant" then Some (TurnAgentMessage (parse_agent_message fresh id content phase))
      else None
  | Reasoning id summary content _ =>
      Some (TurnReasoning id (map summary_entry_text summary) (map content_entry_text (default [] content)))
  | WebSearchCall id _ action =>
      let '(action, query) := match action with
                              | Some action => (action, web_search_action_detail action)
                              | None => (WebOther, [])
                              end in
      Some (TurnWebSearch (default [] id) query action)
  | ImageGenerationCall id status revised_prompt result => Some (TurnImageGeneration id status revised_prompt result)
  | _ => None
  end.

(** ** What is shown *)

(** The text of the user's message, if the item is one *)
Definition user_message_of {Json} (item : ResponseItem Json) : option str :=
  match parse_turn_item [] item with Some (TurnUserMessage user) => Some (message user) | _ => None end.

Lemma hook_fragments_contextual content fragments fragments' :
  hook_prompt_fragments content fragments = Some fragments' ->
  Forall (fun c => is_contextual_user_fragment c = true) content.
Proof.
  revert fragments. induction content as [|c content IH]; intros fragments; [constructor|]. cbn [hook_prompt_fragments].
  destruct c as [text| |]; [|done..]. intros Hf. constructor.
  - unfold is_contextual_user_fragment. destruct (parse_hook_prompt_fragment text); [done|].
    by destruct (is_standard_contextual_user_text text).
  - destruct (parse_hook_prompt_fragment text) as [[t i]|]; [by eapply IH|].
    destruct (is_standard_contextual_user_text text); [by eapply IH|done].
Qed.

(** A message of the user is a turn of the user, and nothing injected is. *)
Lemma user_message_iff {Json} fresh (item : ResponseItem Json) :
  (exists user, parse_turn_item fresh item = Some (TurnUserMessage user)) <->
  exists id content phase, item = Message id (lit "user") content phase /\
    is_contextual_user_message_content content = false.
Proof.
  split.
  - intros [user E]. destruct item; try done; simpl in E; [|by destruct action].
    case_bool_decide as Hr; [|by case_bool_decide]. subst role. eexists _, _, _. split; [done|].
    destruct (parse_visible_hook_prompt_message fresh id content); [done|].
    unfold parse_user_message in E. by destruct (is_contextual_user_message_content content).
  - intros (id & content & phase & -> & Hc). simpl.
    destruct (parse_visible_hook_prompt_message fresh id content) as [p|] eqn:Ep.
    + exfalso. unfold parse_visible_hook_prompt_message in Ep.
      destruct (hook_prompt_fragments content []) as [l|] eqn:El; [|done]. simpl in Ep.
      destruct content as [|c content]; [simpl in El; injection El as <-; done|].
      apply hook_fragments_contextual in El. apply Forall_cons in El as [El _]. unfold is_contextual_user_message_content in Hc.
      simpl in Hc. by rewrite El in Hc.
    + unfold parse_user_message. rewrite Hc. by eexists.
Qed.

Lemma user_message_boundary {Json} fresh (item : ResponseItem Json) user :
  parse_turn_item fresh item = Some (TurnUserMessage user) -> is_user_turn_boundary item = true.
Proof.
  intros E. destruct (proj1 (user_message_iff fresh item)) as (id & content & phase & -> & Hc); [by eexists|].
  simpl. by rewrite Hc.
Qed.
End wire.
