(* ===== verification/Compaction.v ===== *)
(** * Compaction: the history that replaces a conversation

    [core/src/compact.rs]: which messages of the user are kept beside the
    summary, and where the initial context goes.  Asking the model for the
    summary is left out. *)

From S2P Require Import Prelude Utf8 Truncate ResponseItems TurnItems.
Local Open Scope str_scope.

(** [templates/compact/summary_prefix.md] *)
Definition SUMMARY_PREFIX : str :=
  lit "Another language model started to solve this problem and produced a summary of its thinking process. You also have access to the state of the tools that were used by that language model. Use this to build on the work that has already been done and avoid duplicating work. Here is the summary produced by the other language model, use the information in this summary to assist with your own analysis:".

Definition COMPACT_USER_MESSAGE_MAX_TOKENS : N := 20000.

Definition is_summary_message (message : str) : bool := starts_with message (SUMMARY_PREFIX ++ [NL]).

Section compact.
Context `{WireFormats} {Json : Type}.
Notation Item := (ResponseItem Json).

Definition collect_user_messages (items : list Item) : list str :=
  omap (fun item =>
    text ← user_message_of item;
    if is_summary_message text then None else Some text) items.

(** The scan from the end: the last message of the user or summary, and the
    last message that is no summary.  The list is reversed, with indices. *)
Fixpoint scan_user_or_summary (rev_items : list (nat * Item)) (last_user_or_summary : option nat)
    : option nat * option nat :=
  match rev_items with
  | [] => (last_user_or_summary, None)
  | (i, item) :: rev_items =>
      match user_message_of item with
      | None => scan_user_or_summary rev_items last_user_or_summary
      | Some text =>
          let last_user_or_summary := match last_user_or_summary with Some j => Some j | None => Some i end in
          if negb (is_summary_message text) then (last_user_or_summary, Some i)
          else scan_user_or_summary rev_items last_user_or_summary
      end
  end.

Definition is_compaction (item : Item) : bool := match item with Compaction _ => true | _ => false end.

Definition insert_initial_context_before_last_real_user_or_summary (compacted_history initial_context : list Item) : list Item :=
  let indexed := rev (imap pair compacted_history) in
  let '(last_user_or_summary_index, last_real_user_index) := scan_user_or_summary indexed None in
  let last_compaction_index :=
    head (omap (fun '(i, item) => if is_compaction item then Some i else None) indexed) in
  let insertion_index :=
    match last_real_user_index with
    | Some i => Some i
    | None => match last_user_or_summary_index with Some i => Some i | None => last_compaction_index end
    end in
  match insertion_index with
  | Some i => take i compacted_history ++ initial_context ++ drop i compacted_history
  | None => compacted_history ++ initial_context
  end.

(** The loop over the messages from the newest; the result is in its order. *)
Fixpoint select_messages (rev_messages : list str) (remaining : N) : option (list str) :=
  match rev_messages with
  | [] => Some []
  | message :: rev_messages =>
      if N.eqb remaining 0 then Some []
      else
        let tokens := approx_token_count message in
        if (tokens <=? remaining)%N then
          selected ← select_messages rev_messages (sat_sub remaining tokens);
          Some (message :: selected)
        else
          truncated ← truncate_text message (Tokens remaining);
          Some [truncated]
  end.

Definition user_text_item (text : str) : Item := Message None (lit "user") [InputText text] None.

Definition build_compacted_history_with_limit (history : list Item) (user_messages : list str) (summary_text : str)
    (max_tokens : N) : option (list Item) :=
  selected_messages ← (if (0 <? max_tokens)%N then @rev str <$> select_messages (rev user_messages) max_tokens else Some []);
  let summary_text := if is_empty summary_text then lit "(no summary available)" else summary_text in
  Some (history ++ map user_text_item selected_messages ++ [user_text_item summary_text]).

Definition build_compacted_history (initial_context : list Item) (user_messages : list str) (summary_text : str)
    : option (list Item) :=
  build_compacted_history_with_limit initial_context user_messages summary_text COMPACT_USER_MESSAGE_MAX_TOKENS.

(** ** Which messages are kept *)

Definition tokens_of (messages : list str) : N := foldr (fun m n => approx_token_count m + n)%N 0%N messages.

Lemma tokens_of_app a b : tokens_of (a ++ b) = (tokens_of a + tokens_of b)%N.
Proof. induction a as [|m a IH]; simpl; lia. Qed.

(** What stands for the newest message that does not fit *)
Definition cut_message (older : list str) (remaining : N) : option (list str) :=
  match last older with
  | Some message =>
      if N.eqb remaining 0 then Some [] else (fun truncated => [truncated]) <$> truncate_text message (Tokens remaining)
  | None => Some []
  end.

Lemma truncate_text_total text policy : (str_len text <= ISIZE_MAX)%N -> exists t, truncate_text text policy = Some t.
Proof.
  intros Hm%isize_max. pose proof (truncate_text_cut text policy ltac:(lia)) as Hspec.
  destruct (str_len text <=? byte_budget policy)%N; [by eexists|].
  destruct Hspec as (before & mid & after & _ & _ & Ht). by eexists.
Qed.

Lemma select_messages_spec rev_messages remaining :
  Forall (fun m => (str_len m <= ISIZE_MAX)%N) rev_messages ->
  exists kept older oldest,
    rev rev_messages = older ++ kept /\ (tokens_of kept <= remaining)%N /\
    (forall m, last older = Some m -> (remaining < tokens_of kept + approx_token_count m \/ tokens_of kept = remaining)%N) /\
    cut_message older (remaining - tokens_of kept) = Some oldest /\
    @rev str <$> select_messages rev_messages remaining = Some (oldest ++ kept).
Proof.
  revert remaining. induction rev_messages as [|m l IH]; intros remaining Hlen.
  - exists [], [], []. simpl. split; [done|]. split; [lia|]. split; [done|]. by split.
  - apply Forall_cons in Hlen as [Hm Hlen]. cbn [select_messages]. destruct (N.eqb_spec remaining 0) as [->|Hr].
    { exists [], (rev (m :: l)), []. rewrite app_nil_r. split; [done|]. split; [done|]. split; [by right|].
      split; [|done]. unfold cut_message. cbn [rev]. by rewrite last_snoc. }
    destruct (N.leb_spec (approx_token_count m) remaining) as [Hle|Hgt].
    + destruct (IH (sat_sub remaining (approx_token_count m)) Hlen) as (kept & older & oldest & E & Hk & Hlast & Hcut & Hsel).
      unfold sat_sub in *. exists (kept ++ [m]), older, oldest. rewrite tokens_of_app. cbn [tokens_of foldr rev].
      rewrite E, <- app_assoc. split; [done|]. split; [lia|]. split; [intros m' Hm'; specialize (Hlast m' Hm'); lia|].
      split; [by replace (remaining - (tokens_of kept + (approx_token_count m + 0)))%N
        with (remaining - approx_token_count m - tokens_of kept)%N by lia|].
      apply fmap_Some in Hsel as (sel & Hsel & Er). rewrite Hsel. simpl. by rewrite <- Er, app_assoc.
    + destruct (truncate_text_total m (Tokens remaining) Hm) as (t & Ht).
      exists [], (rev (m :: l)), [t]. rewrite app_nil_r. simpl tokens_of. split; [done|]. split; [lia|].
      split; [intros m'; cbn [rev]; rewrite last_snoc; intros [= <-]; by left; lia|].
      rewrite N.sub_0_r, Ht. split; [|done]. unfold cut_message. cbn [rev]. rewrite last_snoc.
      destruct (N.eqb_spec remaining 0); [done|]. by rewrite Ht.
Qed.

(** ** Where the context goes *)

Definition real_user (item : Item) : bool :=
  match user_message_of item with Some text => negb (is_summary_message text) | None => false end.
Definition user_like (item : Item) : bool := bool_decide (is_Some (user_message_of item)).

(** The last element with a property is at [i]. *)
Definition last_at (f : Item -> bool) (l : list Item) (i : nat) : Prop :=
  exists a x b, l = a ++ x :: b /\ i = length a /\ f x = true /\ Forall (fun y => f y = false) b.

Definition indexed (l : list Item) : list (nat * Item) := rev (imap pair l).

Lemma indexed_snoc l x : indexed (l ++ [x]) = (length l, x) :: indexed l.
Proof. unfold indexed. rewrite imap_app, rev_app_distr. simpl. by rewrite Nat.add_0_r. Qed.

Lemma last_at_snoc f l x i : f x = false -> last_at f l i -> last_at f (l ++ [x]) i.
Proof.
  intros Hx (a & y & b & -> & -> & Hy & Hb). exists a, y, (b ++ [x]). rewrite <- app_assoc. split; [done|].
  split; [done|]. split; [done|]. apply Forall_app. by rewrite Forall_singleton.
Qed.

Lemma last_at_here f l x : f x = true -> last_at f (l ++ [x]) (length l).
Proof. intros Hx. by exists l, x, []. Qed.

Lemma scan_spec l like : exists real like',
  scan_user_or_summary (indexed l) like = (like', real) /\
  match real with
  | Some i => last_at real_user l i
  | None =>
      Forall (fun x => real_user x = false) l /\
      match like with
      | Some j => like' = Some j
      | None => match like' with Some i => last_at user_like l i | None => Forall (fun x => user_like x = false) l end
      end
  end.
Proof.
  revert like. induction l as [|x l IH] using rev_ind; intros like.
  { exists None, like. split; [done|]. split; [constructor|]. destruct like; [done|constructor]. }
  rewrite indexed_snoc. cbn [scan_user_or_summary].
  destruct (user_message_of x) as [text|] eqn:Ex.
  - destruct (is_summary_message text) eqn:Es; cbn [negb].
    + destruct (IH (Some (default (length l) like))) as (real & like' & E & Hreal).
      exists real, like'. split; [by destruct like|].
      assert (real_user x = false) as Hx by (unfold real_user; by rewrite Ex, Es).
      destruct real as [i|]; [by apply last_at_snoc|]. destruct Hreal as [Hl ->]. split; [by apply Forall_app; rewrite Forall_singleton|].
      destruct like as [j|]; [done|]. simpl. apply last_at_here. unfold user_like. rewrite Ex. by apply bool_decide_eq_true_2.
    + eexists (Some (length l)), _. split; [reflexivity|]. apply last_at_here. unfold real_user. by rewrite Ex, Es.
  - destruct (IH like) as (real & like' & E & Hreal). exists real, like'. split; [done|].
    assert (real_user x = false) as Hx by (unfold real_user; by rewrite Ex).
    assert (user_like x = false) as Hx'.
    { unfold user_like. rewrite Ex. apply bool_decide_eq_false_2. by intros [? ?]. }
    destruct real as [i|]; [by apply last_at_snoc|]. destruct Hreal as [Hl Hlike].
    split; [by apply Forall_app; rewrite Forall_singleton|]. destruct like as [j|]; [done|].
    destruct like' as [i|]; [by apply last_at_snoc|]. by apply Forall_app; rewrite Forall_singleton.
Qed.

Lemma last_index_spec (f : Item -> bool) (l : list Item) :
  match head (omap (fun '(i, item) => if f item then Some i else None) (indexed l)) with
  | Some i => last_at f l i
  | None => Forall (fun x : Item => f x = false) l
  end.
Proof.
  induction l as [|x l IH] using rev_ind; [by constructor|]. rewrite indexed_snoc. csimpl.
  destruct (f x) eqn:Ex; [by apply last_at_here|].
  destruct (head _) as [i|]; [by apply last_at_snoc|]. by apply Forall_app; rewrite Forall_singleton.
Qed.

(** The initial context is inserted whole and nothing else changes: right
    before the last message of the user that is no summary; where there is
    none, before the last summary; where there is none, before the last
    compaction; and otherwise at the end. *)
Theorem insert_initial_context_spec (compacted_history initial_context : list Item) :
  exists a b, compacted_history = a ++ b /\
    insert_initial_context_before_last_real_user_or_summary compacted_history initial_context = a ++ initial_context ++ b /\
    let at_last f := exists x rest, b = x :: rest /\ f x = true /\ Forall (fun y => f y = false) rest in
    if existsb real_user compacted_history then at_last real_user
    else if existsb user_like compacted_history then at_last user_like
    else if existsb is_compaction compacted_history then at_last is_compaction
    else b = [].
Proof.
  set (h := compacted_history). unfold insert_initial_context_before_last_real_user_or_summary. fold h. fold (indexed h).
  assert (forall (f : Item -> bool) i, last_at f h i -> existsb f h = true /\
    exists x rest, h = take i h ++ drop i h /\ drop i h = x :: rest /\ f x = true /\ Forall (fun y => f y = false) rest) as Hat.
  { intros f i (a & x & b & E & -> & Hx & Hb). split.
    - rewrite E, existsb_app. cbn. rewrite Hx. by rewrite orb_true_r.
    - exists x, b. rewrite take_drop. split; [done|]. by rewrite E, drop_app_length. }
  assert (forall f : Item -> bool, Forall (fun x => f x = false) h -> existsb f h = false) as Hnone.
  { intros f Hf. apply not_true_iff_false. rewrite existsb_exists. intros (x & Hx%list_elem_of_In & Hfx).
    rewrite Forall_forall in Hf. rewrite (Hf x Hx) in Hfx. done. }
  destruct (scan_spec h None) as (real & like & -> & Hreal). destruct real as [i|].
  - destruct (Hat _ _ Hreal) as (-> & x & rest & Ht & Hd & Hx & Hr). exists (take i h), (drop i h). split; [done|]. split; [done|]. by exists x, rest.
  - destruct Hreal as [Hr Hlike]. rewrite (Hnone _ Hr). destruct like as [i|].
    + destruct (Hat _ _ Hlike) as (-> & x & rest & Ht & Hd & Hx & Hr'). exists (take i h), (drop i h). split; [done|]. split; [done|]. by exists x, rest.
    + rewrite (Hnone _ Hlike). pose proof (last_index_spec is_compaction h) as Hc.
      destruct (head _) as [i|].
      * destruct (Hat _ _ Hc) as (-> & x & rest & Ht & Hd & Hx & Hr'). exists (take i h), (drop i h). split; [done|]. split; [done|]. by exists x, rest.
      * rewrite (Hnone _ Hc). exists h, []. by rewrite !app_nil_r.
Qed.

(** The replacement history is the initial context, the newest messages of
    the user that fit into the limit together, and the summary; the oldest
    message that does not fit is cut to what is left of the limit. *)
Theorem compacted_history_spec (initial_context : list Item) (user_messages : list str) (summary_text : str) :
  Forall (fun m => (str_len m <= ISIZE_MAX)%N) user_messages ->
  exists older kept oldest, user_messages = older ++ kept /\
    build_compacted_history initial_context user_messages summary_text =
      Some (initial_context ++ map user_text_item (oldest ++ kept)
            ++ [user_text_item (if is_empty summary_text then lit "(no summary available)" else summary_text)]) /\
    (tokens_of kept <= COMPACT_USER_MESSAGE_MAX_TOKENS)%N /\
    cut_message older (COMPACT_USER_MESSAGE_MAX_TOKENS - tokens_of kept) = Some oldest /\
    (forall m, last older = Some m ->
       (COMPACT_USER_MESSAGE_MAX_TOKENS <= tokens_of kept + approx_token_count m)%N).
Proof.
  intros Hlen. apply List.Forall_rev in Hlen.
  destruct (select_messages_spec (rev user_messages) COMPACT_USER_MESSAGE_MAX_TOKENS Hlen)
    as (kept & older & oldest & E & Hk & Hlast & Hcut & Hsel).
  rewrite rev_involutive in E. exists older, kept, oldest. split; [done|]. split.
  - unfold build_compacted_history, build_compacted_history_with_limit.
    change (0 <? COMPACT_USER_MESSAGE_MAX_TOKENS)%N with true. cbv iota. by rewrite Hsel.
  - split; [done|]. split; [done|]. intros m Hm. specialize (Hlast m Hm). lia.
Qed.
End compact.

(** Two short messages are kept whole. *)
Lemma compacted_history_spec_witness :
  let wire : WireFormats := {| from_xml_str := fun _ => None; from_json_str := fun _ => false |} in
  exists older kept oldest, [lit "first"; lit "second"] = older ++ kept /\
    build_compacted_history (Json := unit) [] [lit "first"; lit "second"] [] =
      Some (map user_text_item (oldest ++ kept) ++ [user_text_item (lit "(no summary available)")]) /\
    older = [].
Proof.
  intros wire. destruct (compacted_history_spec (Json := unit) [] [lit "first"; lit "second"] [])
    as (older & kept & oldest & E & Hb & Hk & Hc & Hl).
  { repeat constructor; vm_compute; discriminate. }
  exists older, kept, oldest. split; [exact E|]. split; [exact Hb|].
  destruct older as [|a [|b older]]; [reflexivity| |].
  - destruct kept as [|k [|? ?]]; try discriminate. injection E as <- <-.
    specialize (Hl _ eq_refl). vm_compute in Hl. congruence.
  - destruct older as [|? ?]; [destruct kept as [|? ?]|]; try (destruct kept; discriminate).
    injection E as <- <-. specialize (Hl _ eq_refl). vm_compute in Hl. congruence.
Defined.
