(* ===== verification/Rollout.v ===== *)
(** * Rollout: a conversation from its log

    [core/src/session/rollout_reconstruction.rs], over the items of
    [protocol/src/protocol.rs].  The log is read from its end for what a resumed
    session needs, and the part behind the newest surviving checkpoint is then
    replayed.  The fields of a turn's context that the code only carries along
    are a parameter ([Rest]). *)

From S2P Require Import Prelude Truncate ResponseItems TurnItems Compaction History.
Local Open Scope str_scope.

Record TurnContextItem (Rest : Type) : Type := mkTurnContext {
  ctx_turn_id : option str;
  ctx_model : str;
  ctx_realtime_active : option bool;
  ctx_rest : Rest;
}.
Arguments mkTurnContext {_} ctx_turn_id ctx_model ctx_realtime_active ctx_rest.
Arguments ctx_turn_id {_} t.
Arguments ctx_model {_} t.
Arguments ctx_realtime_active {_} t.
Arguments ctx_rest {_} t.

Record CompactedItem (Json : Type) : Type := mkCompacted {
  compacted_message : str;
  replacement_history : option (list (ResponseItem Json));
}.
Arguments mkCompacted {_} compacted_message replacement_history.
Arguments compacted_message {_} c.
Arguments replacement_history {_} c.

(** The events that the code tells apart *)
Inductive EventMsg : Type :=
| TurnStarted (turn_id : str)
| TurnComplete (turn_id : str)
| TurnAborted (turn_id : option str)
| UserMessageEvent
| ThreadRolledBack (num_turns : N)
| OtherEvent.

Inductive RolloutItem (Json Rest : Type) : Type :=
| RResponseItem (item : ResponseItem Json)
| RCompacted (compacted : CompactedItem Json)
| RTurnContext (ctx : TurnContextItem Rest)
| REventMsg (event : EventMsg)
| RSessionMeta.
Arguments RResponseItem {_ _} item.
Arguments RCompacted {_ _} compacted.
Arguments RTurnContext {_ _} ctx.
Arguments REventMsg {_ _} event.
Arguments RSessionMeta {_ _}.

Record PreviousTurnSettings : Type := mkSettings { model : str; realtime_active : option bool }.

Inductive TurnReferenceContextItem (Rest : Type) : Type :=
| NeverSet
| Cleared
| Latest (ctx : TurnContextItem Rest).
Arguments NeverSet {_}.
Arguments Cleared {_}.
Arguments Latest {_} ctx.

Definition turn_ids_are_compatible (active_turn_id item_turn_id : option str) : bool :=
  match active_turn_id, item_turn_id with
  | Some turn_id, Some item_turn_id => item_turn_id =? turn_id
  | _, _ => true
  end.

Section rollout.
Context `{WireFormats} {Json Rest : Type}.
Notation Item := (ResponseItem Json).
Notation Rollout := (RolloutItem Json Rest).
Notation Context_ := (ContextManager Json unit).

Record ActiveReplaySegment : Type := mkSegment {
  turn_id : option str;
  counts_as_user_turn : bool;
  seg_settings : option PreviousTurnSettings;
  seg_reference : TurnReferenceContextItem Rest;
  seg_base : option (list Item);
}.

Definition segment_default : ActiveReplaySegment := mkSegment None false None NeverSet None.

Definition with_turn_id (s : ActiveReplaySegment) (id : option str) : ActiveReplaySegment :=
  mkSegment id (counts_as_user_turn s) (seg_settings s) (seg_reference s) (seg_base s).
Definition with_counts (s : ActiveReplaySegment) (b : bool) : ActiveReplaySegment :=
  mkSegment (turn_id s) b (seg_settings s) (seg_reference s) (seg_base s).

(** What is known so far: the checkpoint, the settings and the baseline, and
    the number of turns still to be skipped *)
Record Found : Type := mkFound {
  base_replacement_history : option (list Item);
  previous_turn_settings : option PreviousTurnSettings;
  reference_context : TurnReferenceContextItem Rest;
  pending_rollback_turns : N;
}.

Definition is_never_set (r : TurnReferenceContextItem Rest) : bool := match r with NeverSet => true | _ => false end.
Definition is_cleared (r : TurnReferenceContextItem Rest) : bool := match r with Cleared => true | _ => false end.

Definition finalize_active_segment (active_segment : ActiveReplaySegment) (f : Found) : Found :=
  if (0 <? pending_rollback_turns f)%N then
    mkFound (base_replacement_history f) (previous_turn_settings f) (reference_context f)
      (if counts_as_user_turn active_segment then pending_rollback_turns f - 1 else pending_rollback_turns f)
  else
    let base := match base_replacement_history f with Some base => Some base | None => seg_base active_segment end in
    let settings :=
      match previous_turn_settings f with
      | Some settings => Some settings
      | None => if counts_as_user_turn active_segment then seg_settings active_segment else None
      end in
    let reference :=
      if is_never_set (reference_context f)
         && (counts_as_user_turn active_segment || is_cleared (seg_reference active_segment))
      then seg_reference active_segment else reference_context f in
    mkFound base settings reference (pending_rollback_turns f).

(** What an item does to the segment that is being read; [TurnStarted] and
    rollbacks are not its business. *)
Definition segment_step (item : Rollout) (active : option ActiveReplaySegment) : option ActiveReplaySegment :=
  let get_or_insert := default segment_default active in
  match item with
  | RCompacted compacted =>
      let s := get_or_insert in
      let reference := if is_never_set (seg_reference s) then Cleared else seg_reference s in
      let base := match seg_base s with Some base => Some base | None => replacement_history compacted end in
      Some (mkSegment (turn_id s) (counts_as_user_turn s) (seg_settings s) reference base)
  | REventMsg (TurnComplete id) =>
      let s := get_or_insert in
      Some (match turn_id s with None => with_turn_id s (Some id) | Some _ => s end)
  | REventMsg (TurnAborted id) =>
      match active with
      | Some s => Some (match turn_id s, id with None, Some id => with_turn_id s (Some id) | _, _ => s end)
      | None => match id with Some id => Some (with_turn_id segment_default (Some id)) | None => None end
      end
  | REventMsg UserMessageEvent => Some (with_counts get_or_insert true)
  | RTurnContext ctx =>
      let s := get_or_insert in
      let s := match turn_id s with None => with_turn_id s (ctx_turn_id ctx) | Some _ => s end in
      Some (if turn_ids_are_compatible (turn_id s) (ctx_turn_id ctx)
            then mkSegment (turn_id s) (counts_as_user_turn s)
                   (Some (mkSettings (ctx_model ctx) (ctx_realtime_active ctx)))
                   (if is_never_set (seg_reference s) then Latest ctx else seg_reference s) (seg_base s)
            else s)
  | RResponseItem response_item =>
      let s := get_or_insert in
      Some (with_counts s (counts_as_user_turn s || is_user_turn_boundary response_item))
  | REventMsg _ | RSessionMeta => active
  end.

(** The state of the reverse loop *)
Record Replay : Type := mkReplay {
  found : Found;
  rollout_suffix : list Rollout;
  active_segment : option ActiveReplaySegment;
}.

(** Does the compaction become the checkpoint of the segment? *)
Definition sets_suffix (item : Rollout) (active : option ActiveReplaySegment) : bool :=
  match item with
  | RCompacted compacted =>
      bool_decide (is_Some (replacement_history compacted))
      && match seg_base (default segment_default active) with None => true | Some _ => false end
  | _ => false
  end.

(** An iteration; [newer] are the items behind the item. *)
Definition replay_step (item : Rollout) (newer : list Rollout) (r : Replay) : Replay :=
  match item with
  | REventMsg (ThreadRolledBack num_turns) =>
      mkReplay (mkFound (base_replacement_history (found r)) (previous_turn_settings (found r))
                  (reference_context (found r)) (sat_add (pending_rollback_turns (found r)) num_turns))
        (rollout_suffix r) (active_segment r)
  | REventMsg (TurnStarted id) =>
      match active_segment r with
      | Some s =>
          if turn_ids_are_compatible (turn_id s) (Some id)
          then mkReplay (finalize_active_segment s (found r)) (rollout_suffix r) None
          else r
      | None => r
      end
  | _ =>
      mkReplay (found r) (if sets_suffix item (active_segment r) then newer else rollout_suffix r)
        (segment_step item (active_segment r))
  end.

Definition all_found (f : Found) : bool :=
  bool_decide (is_Some (base_replacement_history f)) && bool_decide (is_Some (previous_turn_settings f))
  && negb (is_never_set (reference_context f)).

Fixpoint replay_loop (rev_items newer : list Rollout) (r : Replay) : Replay :=
  match rev_items with
  | [] => r
  | item :: rev_items =>
      let r := replay_step item newer r in
      if all_found (found r) then r else replay_loop rev_items (item :: newer) r
  end.

Definition finish (r : Replay) : Found :=
  match active_segment r with Some s => finalize_active_segment s (found r) | None => found r end.

(** The scan, with the suffix and what was found *)
Definition scan_rollout (rollout_items : list Rollout) : Found * list Rollout :=
  let r := replay_loop (rev rollout_items) [] (mkReplay (mkFound None None NeverSet 0) rollout_items None) in
  (finish r, rollout_suffix r).

(** The loop over the suffix, with the flag for a compaction without a
    replacement *)
Fixpoint materialize (policy : TruncationPolicy) (history : Context_) (saw_legacy : bool) (suffix : list Rollout)
    : option (Context_ * bool) :=
  match suffix with
  | [] => Some (history, saw_legacy)
  | RResponseItem response_item :: suffix =>
      history ← record_items history [response_item] policy;
      materialize policy history saw_legacy suffix
  | RCompacted compacted :: suffix =>
      match replacement_history compacted with
      | Some replacement => materialize policy (replace history replacement) saw_legacy suffix
      | None =>
          let user_messages := collect_user_messages (items history) in
          rebuilt ← build_compacted_history [] user_messages (compacted_message compacted);
          materialize policy (replace history rebuilt) true suffix
      end
  | REventMsg (ThreadRolledBack num_turns) :: suffix =>
      history ← drop_last_n_user_turns history (N.to_nat num_turns);
      materialize policy history saw_legacy suffix
  | _ :: suffix => materialize policy history saw_legacy suffix
  end.

Record RolloutReconstruction : Type := mkReconstruction {
  history : list Item;
  rec_previous_turn_settings : option PreviousTurnSettings;
  rec_reference_context_item : option (TurnContextItem Rest);
}.

Definition reconstruct_history_from_rollout (policy : TruncationPolicy) (rollout_items : list Rollout)
    : option RolloutReconstruction :=
  let '(f, rollout_suffix) := scan_rollout rollout_items in
  let start := match base_replacement_history f with
               | Some base => replace new_context base
               | None => new_context
               end in
  '(history, saw_legacy) ← materialize policy start false rollout_suffix;
  let reference := match reference_context f with NeverSet | Cleared => None | Latest ctx => Some ctx end in
  Some (mkReconstruction (items history) (previous_turn_settings f) (if (saw_legacy : bool) then None else reference)).

(** ** The history depends on the items of the context alone *)

Definition items_of (r : option (Context_ * bool)) : option (list Item) := (fun r => items r.1) <$> r.

Lemma trim_cut (c c' : Context_) snapshot first cut :
  snd <$> trim_pre_turn_context_updates c snapshot first cut = snd <$> trim_pre_turn_context_updates c' snapshot first cut.
Proof.
  revert c c'. induction cut as [|above IH]; intros c c'; [done|]. cbn [trim_pre_turn_context_updates].
  destruct (_ <? _)%nat; [|done]. destruct (snapshot !! above) as [item|]; [|done]. simpl.
  destruct (trims item) as [stale|]; [apply IH|done].
Qed.

Lemma drop_items (c c' : Context_) n : items c = items c' ->
  items <$> drop_last_n_user_turns c n = items <$> drop_last_n_user_turns c' n.
Proof.
  intros E. unfold drop_last_n_user_turns. destruct (n =? 0)%nat; [simpl; by rewrite E|]. rewrite <- E.
  destruct (user_message_positions (items c)) as [|first l]; [done|].
  destruct (if (_ <=? _)%nat then _ else _) as [cut|]; [|done]. simpl.
  pose proof (trim_cut c c' (items c) first cut) as H'.
  destruct (trim_pre_turn_context_updates c _ _ _) as [[a i]|], (trim_pre_turn_context_updates c' _ _ _) as [[b j]|];
    simpl in *; try done. by injection H' as ->.
Qed.

Lemma record_item_items (c c' : Context_) item policy : items c = items c' ->
  items <$> record_items c [item] policy = items <$> record_items c' [item] policy.
Proof.
  intros E. simpl. destruct (negb (is_api_message item)); [simpl; by rewrite E|].
  destruct (process_item item policy); [|done]. simpl. by rewrite E.
Qed.

(** A step in the option monad that gives the same items *)
Lemma bind_items (m m' : option Context_) (f g : Context_ -> option (Context_ * bool)) :
  items <$> m = items <$> m' -> (forall c c', items c = items c' -> items_of (f c) = items_of (g c')) ->
  items_of (m ≫= f) = items_of (m' ≫= g).
Proof. intros Hm Hf. destruct m as [c|], m' as [c'|]; simpl in *; try done. apply Hf. by injection Hm. Qed.

Lemma materialize_items policy suffix : forall (c c' : Context_) b b', items c = items c' ->
  items_of (materialize policy c b suffix) = items_of (materialize policy c' b' suffix).
Proof.
  induction suffix as [|item suffix IH]; intros c c' b b' E; [simpl; unfold items_of; simpl; by rewrite E|].
  destruct item as [item|[msg [repl|]]|ctx|event|]; cbn [materialize replacement_history compacted_message].
  - apply bind_items; [by apply record_item_items|]. intros; by apply IH.
  - by apply IH.
  - rewrite E. destruct (build_compacted_history _ _ _); [|done]. cbn [mbind option_bind]. by apply IH.
  - by apply IH.
  - destruct event; try by apply IH. apply bind_items; [by apply drop_items|]. intros; by apply IH.
  - by apply IH.
Qed.

(** ** Checkpoints *)

Definition checkpoint (item : Rollout) : option (list Item) :=
  match item with RCompacted compacted => replacement_history compacted | _ => None end.

Definition has_checkpoint (l : list Rollout) : bool := existsb (fun item => bool_decide (is_Some (checkpoint item))) l.

Lemma materialize_app policy c b l k :
  materialize policy c b (l ++ k) = '(c, b) ← materialize policy c b l; materialize policy c b k.
Proof.
  revert c b. induction l as [|item l IH]; intros c b; [done|]. cbn [app].
  destruct item as [item|[msg [repl|]]|ctx|event|]; cbn [materialize replacement_history compacted_message]; try apply IH.
  - destruct (record_items _ _ _); [apply IH|done].
  - destruct (build_compacted_history _ _ _); [apply IH|done].
  - destruct event; try apply IH. destruct (drop_last_n_user_turns _ _); [apply IH|done].
Qed.

(** What comes before a checkpoint does not matter. *)
Lemma materialize_from_checkpoint policy c b c' b' pre item base post :
  checkpoint item = Some base -> items c' = base ->
  is_Some (materialize policy c b (pre ++ item :: post)) ->
  items_of (materialize policy c b (pre ++ item :: post)) = items_of (materialize policy c' b' post).
Proof.
  intros Hc E. rewrite materialize_app. destruct (materialize policy c b pre) as [[c0 b0]|]; [|by intros [? ?]].
  intros _. simpl. destruct item as [|[msg repl]| | |]; try done. simpl in Hc. rewrite Hc. cbn [replacement_history].
  apply materialize_items. simpl. by rewrite E.
Qed.

(** The checkpoint of the segment that is being read *)
Definition active_base (r : Replay) : option (list Item) := seg_base (default segment_default (active_segment r)).

(** Where the suffix starts: at the beginning of the log as long as no
    checkpoint was seen; or behind one, and if there is none in the suffix, the
    one before it is the one that was found, or is the segment's, or was given
    up. *)
Definition replay_inv (older newer : list Rollout) (r : Replay) : Prop :=
  (rollout_suffix r = older ++ newer /\ has_checkpoint newer = false /\
   base_replacement_history (found r) = None /\ active_base r = None) \/
  exists pre item base,
    newer = pre ++ item :: rollout_suffix r /\ checkpoint item = Some base /\
    (has_checkpoint (rollout_suffix r) = true \/
     base_replacement_history (found r) = Some base /\ active_base r = None \/
     base_replacement_history (found r) = None /\ (active_base r = Some base \/ active_base r = None)).

Lemma segment_step_base item active :
  seg_base (default segment_default (segment_step item active)) =
  if sets_suffix item active then checkpoint item else seg_base (default segment_default active).
Proof.
  destruct item as [item|[msg repl]|ctx|event|]; simpl; try done.
  - destruct (seg_base (default segment_default active)) as [b|] eqn:E; [by rewrite andb_false_r|].
    rewrite andb_true_r. case_bool_decide as Hr; [done|]. by destruct repl; [destruct Hr|].
  - destruct (turn_ids_are_compatible _ _); cbn [seg_base]; by destruct (turn_id (default _ _)).
  - destruct event as [id|id|[id|]| | |]; simpl; try done; destruct active as [a|]; simpl; try done; by destruct (turn_id a).
Qed.

Lemma sets_suffix_checkpoint item active : sets_suffix item active = true ->
  is_Some (checkpoint item) /\ seg_base (default segment_default active) = None.
Proof.
  destruct item as [|[msg repl]| | |]; try done. simpl. intros [Hr Hs]%andb_true_iff.
  apply bool_decide_eq_true in Hr. by destruct (seg_base _).
Qed.

Lemma checkpoint_sets item active : is_Some (checkpoint item) -> sets_suffix item active = false ->
  is_Some (seg_base (default segment_default active)).
Proof.
  destruct item as [|[msg repl]| | |]; try by intros [? ?]. simpl. intros Hr Hs.
  rewrite bool_decide_eq_true_2 in Hs by done. by destruct (seg_base _).
Qed.

Lemma has_checkpoint_cons item l : has_checkpoint (item :: l) = bool_decide (is_Some (checkpoint item)) || has_checkpoint l.
Proof. done. Qed.

Lemma has_checkpoint_here pre item l : is_Some (checkpoint item) -> has_checkpoint (pre ++ item :: l) = true.
Proof.
  intros H'. unfold has_checkpoint. rewrite existsb_app. simpl. by rewrite bool_decide_eq_true_2, orb_true_r by done.
Qed.

(** Steps that leave what was found alone *)
Lemma inv_segment older newer item r :
  replay_inv (older ++ [item]) newer r ->
  replay_inv older (item :: newer)
    (mkReplay (found r) (if sets_suffix item (active_segment r) then newer else rollout_suffix r)
       (segment_step item (active_segment r))).
Proof.
  intros Hinv. unfold replay_inv, active_base in *. cbn [found rollout_suffix active_segment].
  rewrite segment_step_base. destruct (sets_suffix item (active_segment r)) eqn:Es.
  - right. apply sets_suffix_checkpoint in Es as [[base Hc] Hn]. exists [], item, base. split; [done|]. split; [done|].
    rewrite Hc. destruct Hinv as [(_ & _ & Hb & _)|(pre & x & b & -> & Hx & _)]; [right; right; by auto|].
    left. by apply has_checkpoint_here.
  - destruct Hinv as [(Hs & Hn & Hb & Ha)|(pre & x & b & -> & Hx & Hcase)].
    + left. rewrite Hs, <- app_assoc. split; [done|]. split; [|done]. rewrite has_checkpoint_cons, Hn, orb_false_r.
      apply bool_decide_eq_false_2. intros Hc. apply (checkpoint_sets _ (active_segment r)) in Hc as [? Hc]; congruence.
    + right. by exists (item :: pre), x, b.
Qed.

Lemma replay_step_inv older newer item r : replay_inv (older ++ [item]) newer r ->
  replay_inv older (item :: newer) (replay_step item newer r).
Proof.
  intros Hinv.
  assert (forall r', found r' = found r -> rollout_suffix r' = rollout_suffix r -> active_base r' = active_base r ->
    checkpoint item = None -> replay_inv older (item :: newer) r') as Hsame.
  { intros r' E1 E2 E3 Hc. unfold replay_inv in *. rewrite E1, E2, E3.
    destruct Hinv as [(Hs & Hn & Hb & Ha)|(pre & x & b & -> & Hx & Hcase)].
    - left. rewrite Hs, <- app_assoc, has_checkpoint_cons, Hn, Hc. by split.
    - right. by exists (item :: pre), x, b. }
  assert (replay_inv older (item :: newer)
    (mkReplay (found r) (if sets_suffix item (active_segment r) then newer else rollout_suffix r)
       (segment_step item (active_segment r)))) as Hseg by (apply inv_segment; auto).
  unfold replay_step. destruct item as [item|c|ctx|event|]; try exact Hseg. destruct event as [id|id|id| |n|]; try exact Hseg.
  clear Hseg. destruct (active_segment r) as [s|] eqn:Ea; [|by apply Hsame].
  destruct (turn_ids_are_compatible _ _); [|by apply Hsame].
  assert (active_base r = seg_base s) as Eb by (unfold active_base; by rewrite Ea).
  unfold replay_inv, active_base in *. cbn [found rollout_suffix active_segment default]. rewrite Ea in Hinv. simpl in Hinv.
  unfold finalize_active_segment. destruct (0 <? _)%N; cbn [base_replacement_history].
  - destruct Hinv as [(Hs & Hn & Hb & Ha)|(pre & x & b & -> & Hx & Hcase)].
    + left. rewrite Hs, <- app_assoc. by rewrite has_checkpoint_cons, Hn.
    + right. exists (REventMsg (TurnStarted id) :: pre), x, b. split; [done|]. split; [done|].
      destruct Hcase as [|[[-> _]|[-> _]]]; auto.
  - destruct Hinv as [(Hs & Hn & Hb & Ha)|(pre & x & b & -> & Hx & Hcase)].
    + left. rewrite Hs, <- app_assoc, Hb, Ha. by rewrite has_checkpoint_cons, Hn.
    + right. exists (REventMsg (TurnStarted id) :: pre), x, b. split; [done|]. split; [done|].
      destruct Hcase as [|[[-> _]|[-> [->| ->]]]]; auto.
Qed.

Lemma replay_loop_inv rev_items newer r : replay_inv (rev rev_items) newer r ->
  exists older newer', rev rev_items ++ newer = older ++ newer' /\ replay_inv older newer' (replay_loop rev_items newer r) /\
    (older = [] \/ all_found (found (replay_loop rev_items newer r)) = true).
Proof.
  revert newer r. induction rev_items as [|item l IH]; intros newer r Hinv; [exists [], newer; auto|].
  cbn [replay_loop rev] in *. apply replay_step_inv in Hinv. rewrite <- app_assoc. simpl.
  destruct (all_found _) eqn:E; [exists (rev l), (item :: newer); auto|]. by apply IH.
Qed.

Lemma finish_base r : base_replacement_history (finish r) = base_replacement_history (found r) \/
  base_replacement_history (found r) = None /\ base_replacement_history (finish r) = active_base r.
Proof.
  unfold finish, active_base. destruct (active_segment r) as [s|]; [|by left]. unfold finalize_active_segment.
  destruct (0 <? _)%N; [by left|]. simpl. destruct (base_replacement_history (found r)); auto.
Qed.

Lemma scan_suffix l : let '(f, suffix) := scan_rollout l in
  suffix = l /\ base_replacement_history f = None \/
  exists pre item base, l = pre ++ item :: suffix /\ checkpoint item = Some base /\
    (has_checkpoint suffix = true \/ base_replacement_history f = Some base \/ base_replacement_history f = None).
Proof.
  unfold scan_rollout. set (r := replay_loop _ _ _).
  destruct (replay_loop_inv (rev l) [] (mkReplay (mkFound None None NeverSet 0) l None)) as (older & newer & E & Hinv & Hend).
  { left. rewrite rev_involutive, app_nil_r. done. }
  fold r in Hinv, Hend. rewrite rev_involutive, app_nil_r in E. pose proof (finish_base r) as Hf.
  destruct Hinv as [(Hs & _ & Hb & Ha)|(pre & item & base & -> & Hc & Hcase)].
  - left. rewrite Hs. split; [done|]. rewrite Hb, Ha in Hf. by destruct Hf as [->|[_ ->]].
  - right. exists (older ++ pre), item, base. rewrite <- app_assoc. split; [done|]. split; [done|].
    destruct Hcase as [|[[Hb Ha]|[Hb Ha]]]; [by left| |]; right; rewrite Hb in Hf.
    + left. by destruct Hf as [->|[? _]].
    + destruct Hf as [->|[_ ->]]; [by right|]. by destruct Ha as [->| ->]; auto.
Qed.

(** ** The history *)

Lemma drop_last_total (c : Context_) n : is_Some (drop_last_n_user_turns c n).
Proof.
  unfold drop_last_n_user_turns. destruct (Nat.eqb_spec n 0) as [_|Hn]; [done|].
  assert (forall j p, user_message_positions (items c) !! j = Some p -> (p <= length (items c))%nat) as Hpos.
  { intros j p. rewrite user_message_positions_from. intros (a & b & rest & -> & -> & _)%positions_lookup.
    rewrite length_app. lia. }
  assert (forall cut, (cut <= length (items c))%nat -> forall first,
    is_Some ('(self, cut_idx) ← trim_pre_turn_context_updates c (items c) first cut; Some (replace self (take cut_idx (items c))))) as Htrim.
  { intros cut Hcut first. destruct (trim_spec c (take cut (items c)) (drop cut (items c)) first) as (kept & ctx & self' & _ & _ & E & _).
    rewrite take_drop, length_take, Nat.min_l in E by done. by rewrite E. }
  destruct (user_message_positions (items c)) as [|first l]; [done|].
  destruct (_ <=? _)%nat eqn:E; simpl.
  - apply Htrim, (Hpos 0%nat). done.
  - apply Nat.leb_gt in E. destruct (lookup_lt_is_Some_2 (first :: l) (length (first :: l) - n)) as [p Hp]; [simpl in *; lia|].
    simpl in Hp. rewrite Hp. simpl. eapply Htrim, Hpos, Hp.
Qed.

(** A log without compactions from before checkpoints *)
Definition modern (l : list Rollout) : bool :=
  forallb (fun item => match item with RCompacted c => bool_decide (is_Some (replacement_history c)) | _ => true end) l.

Lemma modern_app l k : modern (l ++ k) = modern l && modern k.
Proof. apply forallb_app. Qed.

(** Whether a modern log can be replayed depends on its items alone. *)
Lemma materialize_modern policy l : modern l = true -> forall c b c' b',
  is_Some (materialize policy c b l) -> is_Some (materialize policy c' b' l).
Proof.
  induction l as [|item l IH]; intros Hm c b c' b' Hs; [done|]. cbn [modern forallb] in Hm. apply andb_true_iff in Hm as [Hi Hm].
  destruct item as [item|[msg [repl|]]|ctx|event|]; cbn [materialize replacement_history compacted_message] in *.
  - simpl in *. destruct (negb (is_api_message item)); [exact (IH Hm _ _ _ _ Hs)|].
    destruct (process_item item policy); [exact (IH Hm _ _ _ _ Hs)|by destruct Hs].
  - exact (IH Hm _ _ _ _ Hs).
  - done.
  - exact (IH Hm _ _ _ _ Hs).
  - destruct event as [| | | |n|]; try exact (IH Hm _ _ _ _ Hs).
    destruct (drop_last_total c' (N.to_nat n)) as [d' ->], (drop_last_total c (N.to_nat n)) as [d Hd].
    rewrite Hd in Hs. exact (IH Hm _ _ _ _ Hs).
  - exact (IH Hm _ _ _ _ Hs).
Qed.

Definition start_of (f : Found) : Context_ :=
  match base_replacement_history f with Some base => replace new_context base | None => new_context end.

Lemma has_checkpoint_split l : has_checkpoint l = true ->
  exists pre item base post, l = pre ++ item :: post /\ checkpoint item = Some base.
Proof.
  intros (item & (pre & post & ->)%List.in_split & Hc)%existsb_exists. apply bool_decide_eq_true in Hc as [base Hc].
  by exists pre, item, base, post.
Qed.

Lemma replay_suffix policy l : let '(f, suffix) := scan_rollout l in
  is_Some (base_replacement_history f) \/ has_checkpoint l = false ->
  is_Some (materialize policy new_context false l) ->
  (modern l = true -> is_Some (materialize policy (start_of f) false suffix)) /\
  (is_Some (materialize policy (start_of f) false suffix) ->
   items_of (materialize policy (start_of f) false suffix) = items_of (materialize policy new_context false l)).
Proof.
  pose proof (scan_suffix l) as Hscan. destruct (scan_rollout l) as [f suffix]. intros Hbase Hl.
  destruct Hscan as [[-> Hb]|(pre & item & base & -> & Hc & Hcase)].
  { unfold start_of. rewrite Hb. auto. }
  assert (base_replacement_history f = None -> False) as Hsome.
  { intros Hb. rewrite Hb in Hbase. destruct Hbase as [[? ?]|Hn]; [done|]. rewrite has_checkpoint_here in Hn by (by eexists). done. }
  split.
  - intros Hm. rewrite modern_app in Hm. apply andb_true_iff in Hm as [_ Hm]. cbn [modern forallb] in Hm.
    apply andb_true_iff in Hm as [_ Hm]. rewrite materialize_app in Hl.
    destruct (materialize policy new_context false pre) as [[c b]|]; [|by destruct Hl]. simpl in Hl.
    destruct item as [|[msg repl]| | |]; try done. simpl in Hc. rewrite Hc in Hl. cbn [replacement_history] in Hl.
    by eapply materialize_modern.
  - intros Hs. destruct Hcase as [Hchk|[Hb|Hb]]; [| |by destruct Hsome].
    + apply has_checkpoint_split in Hchk as (p2 & y & b2 & q & -> & Hy).
      rewrite (materialize_from_checkpoint policy (start_of f) false (replace new_context b2) false p2 y b2 q) by done.
      rewrite app_comm_cons, app_assoc in *.
      by rewrite (materialize_from_checkpoint policy new_context false (replace new_context b2) false (pre ++ item :: p2) y b2 q).
    + rewrite (materialize_from_checkpoint policy new_context false (start_of f) false pre item base suffix); [done|done| |done].
      unfold start_of. by rewrite Hb.
Qed.

(** ** Stopping early *)

Definition known (f : Found) := (base_replacement_history f, previous_turn_settings f, reference_context f).

Fixpoint replay_all (rev_items newer : list Rollout) (r : Replay) : Replay :=
  match rev_items with
  | [] => r
  | item :: rev_items => replay_all rev_items (item :: newer) (replay_step item newer r)
  end.

Lemma finalize_known s f : all_found f = true -> known (finalize_active_segment s f) = known f.
Proof.
  unfold all_found, known, finalize_active_segment. intros [[Hb Hp]%andb_true_iff Hr]%andb_true_iff.
  apply bool_decide_eq_true in Hb as [b Hb], Hp as [p Hp]. destruct (0 <? _)%N; [done|]. simpl.
  rewrite Hb, Hp. apply negb_true_iff in Hr. by rewrite Hr.
Qed.

Lemma all_found_known f f' : known f = known f' -> all_found f = all_found f'.
Proof. unfold known, all_found. by intros [= -> -> ->]. Qed.

Lemma step_known item newer r : all_found (found r) = true -> known (found (replay_step item newer r)) = known (found r).
Proof.
  intros Hf. destruct item as [| | |event|]; try done. destruct event; try done. simpl.
  destruct (active_segment r) as [s|]; [|done]. destruct (turn_ids_are_compatible _ _); [|done]. by apply finalize_known.
Qed.

Lemma finish_known r : all_found (found r) = true -> known (finish r) = known (found r).
Proof. intros Hf. unfold finish. destruct (active_segment r); [by apply finalize_known|done]. Qed.

Lemma replay_all_known rev_items newer r : all_found (found r) = true ->
  known (finish (replay_all rev_items newer r)) = known (found r).
Proof.
  revert newer r. induction rev_items as [|item l IH]; intros newer r Hf; [by apply finish_known|]. simpl.
  pose proof (step_known item newer r Hf) as Hk. rewrite IH; [done|]. by rewrite (all_found_known _ _ Hk).
Qed.

Lemma replay_loop_all rev_items newer r :
  known (finish (replay_loop rev_items newer r)) = known (finish (replay_all rev_items newer r)).
Proof.
  revert newer r. induction rev_items as [|item l IH]; intros newer r; [done|]. simpl.
  destruct (all_found _) eqn:E; [|apply IH]. by rewrite finish_known, replay_all_known.
Qed.

(** ** Turns *)

(** A log is what was written before the first turn, and turns and rollbacks. *)
Inductive block : Type :=
| Turn (id : str) (body : list Rollout)
| Rolled (num_turns : N).

Definition flat (b : block) : list Rollout :=
  match b with
  | Turn id body => REventMsg (TurnStarted id) :: body
  | Rolled n => [REventMsg (ThreadRolledBack n)]
  end.

(** Neither starts a turn nor rolls back *)
Definition quiet (item : Rollout) : bool :=
  match item with REventMsg (TurnStarted _) | REventMsg (ThreadRolledBack _) => false | _ => true end.

(** What an item of a turn says of its identifier *)
Definition of_turn (id : str) (item : Rollout) : Prop :=
  match item with
  | REventMsg (TurnComplete id') | REventMsg (TurnAborted (Some id')) => id' = id
  | RTurnContext ctx => ctx_turn_id ctx = None \/ ctx_turn_id ctx = Some id
  | _ => True
  end.

Definition block_ok (b : block) : Prop :=
  match b with
  | Turn id body => Forall (fun item => quiet item = true /\ of_turn id item) body
  | Rolled _ => True
  end.

Definition segment_of (body : list Rollout) : option ActiveReplaySegment := foldr segment_step None body.

(** The newest [n] turns of the user go, with the turns behind and between. *)
Fixpoint drop_turns (n : N) (segments : list ActiveReplaySegment) : list ActiveReplaySegment :=
  match segments with
  | [] => []
  | s :: rest => if N.eqb n 0 then segments else drop_turns (if counts_as_user_turn s then n - 1 else n)%N rest
  end.

(** The turns that survive, the newest first: a turn is added, a rollback takes
    away. *)
Definition add_block (segments : list ActiveReplaySegment) (b : block) : list ActiveReplaySegment :=
  match b with
  | Turn _ body => match segment_of body with Some s => s :: segments | None => segments end
  | Rolled n => drop_turns n segments
  end.

Definition survivors (preamble : list Rollout) (blocks : list block) : list ActiveReplaySegment :=
  fold_left add_block blocks (option_list (segment_of preamble)).

(** What the newest of them say *)
Definition surviving_base (segments : list ActiveReplaySegment) : option (list Item) := head (omap seg_base segments).
Definition surviving_settings (segments : list ActiveReplaySegment) : option PreviousTurnSettings :=
  head (omap seg_settings (List.filter counts_as_user_turn segments)).
Definition surviving_reference (segments : list ActiveReplaySegment) : TurnReferenceContextItem Rest :=
  default NeverSet (head (List.filter (fun r => negb (is_never_set r))
    (map seg_reference (List.filter (fun s => counts_as_user_turn s || is_cleared (seg_reference s)) segments)))).

Lemma drop_turns_0 l : drop_turns 0 l = l.
Proof. by destruct l. Qed.

Lemma drop_turns_add p n l : drop_turns p (drop_turns n l) = drop_turns (n + p) l.
Proof.
  revert n p. induction l as [|s l IH]; intros n p; [done|]. simpl. destruct (N.eqb_spec n 0) as [->|Hn]; [done|].
  destruct (N.eqb_spec (n + p) 0); [lia|]. rewrite IH. f_equal. destruct (counts_as_user_turn s); lia.
Qed.

(** *** What the scan makes of a turn *)

Lemma replay_all_app l k newer r : replay_all (l ++ k) newer r = replay_all k (rev l ++ newer) (replay_all l newer r).
Proof.
  revert newer r. induction l as [|x l IH]; intros newer r; [done|]. simpl. by rewrite IH, <- app_assoc.
Qed.

Lemma replay_quiet body newer r : Forall (fun item => quiet item = true) body ->
  found (replay_all (rev body) newer r) = found r /\
  active_segment (replay_all (rev body) newer r) = foldr segment_step (active_segment r) body.
Proof.
  intros Hq. induction Hq as [|item body Hi Hq [IH1 IH2]]; [done|]. cbn [rev]. rewrite replay_all_app. simpl.
  destruct item as [| | |event|]; try destruct event; try done; simpl; by rewrite IH1, ?IH2.
Qed.

Lemma segment_turn_id id body : Forall (of_turn id) body ->
  match segment_of body with Some s => turn_id s = None \/ turn_id s = Some id | None => True end.
Proof.
  intros Hb. induction Hb as [|item body Hi Hb IH]; [done|]. cbn [segment_of foldr]. fold (segment_of body).
  assert (turn_id (default segment_default (segment_of body)) = None \/
          turn_id (default segment_default (segment_of body)) = Some id) as Hd
    by (destruct (segment_of body); [done|by left]).
  destruct item as [item|c|ctx|event|]; simpl in *; try done.
  - set (s := default _ _) in *. destruct (turn_ids_are_compatible _ _); simpl;
      destruct (turn_id s) eqn:E; simpl; rewrite ?E; auto.
  - destruct event as [i|i|[i|]| | |]; simpl in *; subst; try done.
    + set (s := default _ _) in *. destruct (turn_id s) eqn:E; simpl; rewrite ?E; auto.
    + destruct (segment_of body) as [s|]; [|by right]. destruct (turn_id s) eqn:E; simpl; rewrite ?E; auto.
    + destruct (segment_of body) as [s|]; [|done]. destruct (turn_id s) eqn:E; rewrite ?E; auto.
Qed.

(** A block of the log, as one step *)
Definition block_step (b : block) (f : Found) : Found :=
  match b with
  | Turn _ body => match segment_of body with Some s => finalize_active_segment s f | None => f end
  | Rolled n =>
      mkFound (base_replacement_history f) (previous_turn_settings f) (reference_context f)
        (sat_add (pending_rollback_turns f) n)
  end.

Lemma replay_block b newer r : block_ok b -> active_segment r = None ->
  found (replay_all (rev (flat b)) newer r) = block_step b (found r) /\
  active_segment (replay_all (rev (flat b)) newer r) = None.
Proof.
  intros Hb Ha. destruct b as [id body|n]; [|done]. cbn [flat rev]. rewrite replay_all_app. simpl in Hb.
  apply Forall_and in Hb as [Hq Ht]. destruct (replay_quiet body newer r Hq) as [E1 E2]. rewrite Ha in E2.
  fold (segment_of body) in E2. simpl. rewrite E2. pose proof (segment_turn_id id body Ht) as Hid.
  destruct (segment_of body) as [s|]; [|by rewrite E1, E2].
  assert (turn_ids_are_compatible (turn_id s) (Some id) = true) as ->.
  { destruct Hid as [->| ->]; [done|]. simpl. by apply bool_decide_eq_true_2. }
  simpl. by rewrite E1.
Qed.

Lemma replay_blocks blocks newer r : Forall block_ok blocks -> active_segment r = None ->
  found (replay_all (rev (concat (map flat blocks))) newer r) = foldr block_step (found r) blocks /\
  active_segment (replay_all (rev (concat (map flat blocks))) newer r) = None.
Proof.
  revert newer r. induction blocks as [|b blocks IH] using rev_ind; intros newer r Hok Ha; [done|].
  apply Forall_app in Hok as [Hok [Hb _]%Forall_cons]. rewrite map_app, concat_app, rev_app_distr, replay_all_app. simpl.
  rewrite app_nil_r. destruct (replay_block b newer r Hb Ha) as [E1 E2].
  rewrite foldr_app. simpl. rewrite <- E1. by apply IH.
Qed.

(** *** The newest surviving turns *)

Definition rolled_back (blocks : list block) : N :=
  foldr (fun b n => match b with Rolled k => k + n | Turn _ _ => n end)%N 0%N blocks.

Definition finalize_all (segments : list ActiveReplaySegment) (f : Found) : Found :=
  fold_left (fun f s => finalize_active_segment s f) segments f.

Definition no_pending (f : Found) : Found :=
  mkFound (base_replacement_history f) (previous_turn_settings f) (reference_context f) 0.

Lemma rolled_back_snoc blocks b :
  rolled_back (blocks ++ [b]) = ((match b with Rolled n => n | Turn _ _ => 0 end) + rolled_back blocks)%N.
Proof. unfold rolled_back. rewrite foldr_app. simpl. induction blocks as [|[]]; destruct b; simpl in *; lia. Qed.

Lemma finalize_pending s f : (0 < pending_rollback_turns f)%N ->
  no_pending (finalize_active_segment s f) = no_pending f /\
  pending_rollback_turns (finalize_active_segment s f) =
    (if counts_as_user_turn s then pending_rollback_turns f - 1 else pending_rollback_turns f)%N.
Proof. intros Hp. unfold finalize_active_segment. by rewrite (proj2 (N.ltb_lt _ _) Hp). Qed.

Lemma finalize_no_pending s f : pending_rollback_turns f = 0%N ->
  finalize_active_segment s f = finalize_active_segment s (no_pending f) /\
  no_pending (finalize_active_segment s f) = finalize_active_segment s f /\
  pending_rollback_turns (finalize_active_segment s f) = 0%N.
Proof. destruct f. simpl. intros ->. done. Qed.

(** Skipping turns when going back is dropping them when going forward. *)
Lemma finalize_skips s segments f :
  finalize_all (drop_turns (pending_rollback_turns f) (s :: segments)) (no_pending f) =
  finalize_all (drop_turns (pending_rollback_turns (finalize_active_segment s f)) segments)
    (no_pending (finalize_active_segment s f)).
Proof.
  cbn [drop_turns]. destruct (N.eqb_spec (pending_rollback_turns f) 0) as [E|Hp].
  - destruct (finalize_no_pending s f E) as (E1 & E2 & E3). rewrite E3, drop_turns_0, E2, E1. done.
  - destruct (finalize_pending s f) as [-> ->]; [lia|done].
Qed.

Lemma blocks_survivors preamble blocks f :
  (pending_rollback_turns f + rolled_back blocks <= MAX64)%N ->
  known (match segment_of preamble with
         | Some s => finalize_active_segment s (foldr block_step f blocks)
         | None => foldr block_step f blocks
         end) =
  known (finalize_all (drop_turns (pending_rollback_turns f) (survivors preamble blocks)) (no_pending f)).
Proof.
  revert f. induction blocks as [|b blocks IH] using rev_ind; intros f Hmax.
  - unfold survivors. simpl. destruct (segment_of preamble) as [s|]; [|done]. simpl option_list.
    rewrite finalize_skips. simpl. by destruct (finalize_active_segment s f).
  - rewrite rolled_back_snoc in Hmax. rewrite !foldr_app. unfold survivors. rewrite fold_left_app. fold (survivors preamble blocks).
    cbn [foldr fold_left]. destruct b as [id body|n]; cbn [block_step add_block].
    + destruct (segment_of body) as [s|]; [|by apply IH; lia]. rewrite finalize_skips. apply IH.
      unfold finalize_active_segment. destruct (0 <? _)%N; simpl; [|lia]. destruct (counts_as_user_turn s); lia.
    + rewrite drop_turns_add. assert (sat_add (pending_rollback_turns f) n = n + pending_rollback_turns f)%N as E.
      { unfold sat_add. lia. }
      rewrite E, IH; [done|]. simpl. lia.
Qed.

(** Nothing pending: the newest that says something is taken. *)
Lemma finalize_all_known segments f : pending_rollback_turns f = 0%N ->
  known (finalize_all segments f) =
  (match base_replacement_history f with Some base => Some base | None => surviving_base segments end,
   match previous_turn_settings f with Some settings => Some settings | None => surviving_settings segments end,
   if is_never_set (reference_context f) then surviving_reference segments else reference_context f).
Proof.
  revert f. induction segments as [|s segments IH]; intros f Hp.
  - unfold known. destruct f as [[b|] [p|] [| |c] n]; done.
  - unfold finalize_all. cbn [fold_left]. fold (finalize_all segments (finalize_active_segment s f)).
    destruct (finalize_no_pending s f Hp) as (_ & _ & Hp'). rewrite IH by done.
    unfold finalize_active_segment. rewrite Hp. change (0 <? 0)%N with false. cbv iota.
    unfold surviving_base, surviving_settings, surviving_reference. cbn. f_equal; [f_equal|].
    + destruct (base_replacement_history f); [done|]. by destruct (seg_base s).
    + destruct (previous_turn_settings f); [done|]. destruct (counts_as_user_turn s); [|done]. cbn. by destruct (seg_settings s).
    + destruct (reference_context f); cbn; [|done..].
      destruct (counts_as_user_turn s || is_cleared (seg_reference s)); [|done]. cbn. by destruct (seg_reference s).
Qed.

Lemma scan_survivors preamble blocks :
  Forall (fun item => quiet item = true) preamble -> Forall block_ok blocks -> (rolled_back blocks <= MAX64)%N ->
  known (scan_rollout (preamble ++ concat (map flat blocks))).1 =
  (surviving_base (survivors preamble blocks), surviving_settings (survivors preamble blocks),
   surviving_reference (survivors preamble blocks)).
Proof.
  intros Hq Hok Hmax. unfold scan_rollout. cbn [fst]. rewrite replay_loop_all, rev_app_distr, replay_all_app.
  set (l := preamble ++ _). set (r0 := mkReplay _ l None).
  destruct (replay_blocks blocks [] r0 Hok eq_refl) as [E1 E2].
  set (r1 := replay_all (rev (concat _)) [] r0) in *.
  destruct (replay_quiet preamble (rev (rev (concat (map flat blocks))) ++ []) r1 Hq) as [E3 E4].
  rewrite E2 in E4. fold (segment_of preamble) in E4. unfold finish. rewrite E4, E3, E1.
  transitivity (known (finalize_all (survivors preamble blocks) (no_pending (found r0)))).
  - rewrite <- (drop_turns_0 (survivors preamble blocks)).
    apply (blocks_survivors preamble blocks (found r0)). simpl. lia.
  - by rewrite finalize_all_known.
Qed.

(** ** The whole *)

Lemma materialize_flag policy l c b c' b' : modern l = true -> materialize policy c b l = Some (c', b') -> b' = b.
Proof.
  intros Hm. revert c. induction l as [|item l IH]; intros c E; [by injection E|].
  cbn [modern forallb] in Hm. apply andb_true_iff in Hm as [Hi Hm].
  destruct item as [item|[msg [repl|]]|ctx|event|]; cbn [materialize replacement_history] in E; try done; try by eapply IH.
  - destruct (record_items _ _ _); [by eapply IH|done].
  - destruct event; try by eapply IH. destruct (drop_last_n_user_turns _ _); [by eapply IH|done].
Qed.

(** *** What a turn says, read forwards *)

(** Does the user speak in the turn? *)
Definition user_turn (body : list Rollout) : bool :=
  existsb (fun item => match item with
    | REventMsg UserMessageEvent => true
    | RResponseItem response_item => is_user_turn_boundary response_item
    | _ => false
    end) body.

(** The settings of its first context *)
Definition settings_of (body : list Rollout) : option PreviousTurnSettings :=
  (fun ctx => mkSettings (ctx_model ctx) (ctx_realtime_active ctx))
    <$> head (omap (fun item => match item with RTurnContext ctx => Some ctx | _ => None end) body).

(** Its last context, unless a compaction follows, which leaves no baseline *)
Definition baseline_of (body : list Rollout) : TurnReferenceContextItem Rest :=
  match last (omap (fun item => match item with
    | RTurnContext ctx => Some (Some ctx)
    | RCompacted _ => Some None
    | _ => None
    end) body) with
  | None => NeverSet
  | Some None => Cleared
  | Some (Some ctx) => Latest ctx
  end.

(** Its last checkpoint *)
Definition checkpoint_of (body : list Rollout) : option (list Item) := last (omap checkpoint body).

(** A rollback takes away the newest [n] turns of the user, with the turns
    behind and between. *)
Fixpoint roll_back (n : N) (turns : list (list Rollout)) : list (list Rollout) :=
  match turns with
  | [] => []
  | body :: rest => if N.eqb n 0 then turns else roll_back (if user_turn body then n - 1 else n)%N rest
  end.

(** The turns that survive, the newest first *)
Definition turns_left (preamble : list Rollout) (blocks : list block) : list (list Rollout) :=
  fold_left (fun turns b => match b with Turn _ body => body :: turns | Rolled n => roll_back n turns end)
    blocks [preamble].

(** The settings of the newest turn of the user that has some *)
Definition settings_left (turns : list (list Rollout)) : option PreviousTurnSettings :=
  head (omap settings_of (List.filter user_turn turns)).

(** The baseline of the newest turn of the user that has one, unless a newer
    turn ends with a compaction *)
Definition baseline_left (turns : list (list Rollout)) : option (TurnContextItem Rest) :=
  default None (head (omap (fun body => match baseline_of body with
    | Latest ctx => if user_turn body then Some (Some ctx) else None
    | Cleared => Some None
    | NeverSet => None
    end) turns)).

Lemma last_cons {A} (x : A) l : last (x :: l) = Some (default x (last l)).
Proof. revert x. induction l as [|y l IH]; intros x; [done|]. change (last (x :: y :: l)) with (last (y :: l)). by rewrite !IH. Qed.

(** A turn read backwards and forwards *)
Lemma segment_says id body : Forall (fun item => quiet item = true /\ of_turn id item) body ->
  let s := default segment_default (segment_of body) in
  counts_as_user_turn s = user_turn body /\ seg_settings s = settings_of body /\
  seg_reference s = baseline_of body /\ seg_base s = checkpoint_of body.
Proof.
  intros Hb. induction Hb as [|item body [Hq Ho] Hb IH]; [done|]. cbn [segment_of foldr]. fold (segment_of body).
  pose proof (segment_turn_id id body (proj2 (proj1 (Forall_and _ _) Hb))) as Hid.
  set (s := default segment_default (segment_of body)) in *. destruct IH as (I1 & I2 & I3 & I4).
  assert (turn_id s = None \/ turn_id s = Some id) as Hs by (unfold s; destruct (segment_of body); [done|by left]).
  unfold settings_of, baseline_of, checkpoint_of, user_turn, omap in *.
  destruct item as [item|c|ctx|event|]; cbn [existsb list_omap checkpoint segment_step default] in *; fold s.
  - cbn. rewrite I1, orb_comm. done.
  - cbn. rewrite last_cons. rewrite I1, I2, I3. split_and!; [done|done| |].
    + by destruct (last _) as [[]|].
    + rewrite I4. destruct (replacement_history c) as [repl|]; [rewrite last_cons|]; cbn; by destruct (last (list_omap _ _ checkpoint body)).
  - assert (turn_ids_are_compatible (turn_id (match turn_id s with None => with_turn_id s (ctx_turn_id ctx) | Some _ => s end))
      (ctx_turn_id ctx) = true) as Hcompat.
    { destruct Hs as [E|E]; rewrite E; cbn.
      - destruct (ctx_turn_id ctx); [|done]. by apply bool_decide_eq_true.
      - rewrite E. destruct Ho as [->| ->]; [done|]. by apply bool_decide_eq_true. }
    rewrite Hcompat. cbn. rewrite last_cons.
    assert (forall {T} (f : ActiveReplaySegment -> T), (forall i, f (with_turn_id s i) = f s) ->
      f (match turn_id s with None => with_turn_id s (ctx_turn_id ctx) | Some _ => s end) = f s) as Hf.
    { intros T f Hf. by destruct (turn_id s). }
    rewrite (Hf _ counts_as_user_turn), (Hf _ seg_reference), (Hf _ seg_base), I1, I3, I4 by done.
    split_and!; [done..| |done]. by destruct (last _) as [[]|].
  - destruct event as [i|i|[i|]| | |]; cbn [of_turn quiet] in *; try done.
    all: try (by destruct (turn_id s) eqn:E).
    all: subst s; destruct (segment_of body) as [s|]; cbn in *; try done; try by destruct (turn_id s).
    all: by rewrite ?I2, ?I3, ?I4.
  - done.
Qed.

(** A body of a turn that is not started inside *)
Definition body_ok (body : list Rollout) : Prop := exists id, Forall (fun item => quiet item = true /\ of_turn id item) body.

Lemma roll_back_segments n turns : Forall body_ok turns ->
  drop_turns n (omap segment_of turns) = omap segment_of (roll_back n turns).
Proof.
  intros Hok. revert n. unfold omap. induction Hok as [|body turns [id Hb] Hok IH]; intros n; [done|].
  destruct (segment_says id body Hb) as (E & _). cbn [list_omap roll_back].
  destruct (N.eqb_spec n 0) as [->|Hn]; [by rewrite drop_turns_0|].
  destruct (segment_of body) as [s|]; cbn in E; [cbn [drop_turns]; rewrite (proj2 (N.eqb_neq _ _) Hn), E; apply IH|].
  rewrite <- E. apply IH.
Qed.

Lemma roll_back_ok n turns : Forall body_ok turns -> Forall body_ok (roll_back n turns).
Proof.
  intros Hok. revert n. induction Hok as [|body turns Hb Hok IH]; intros n; [constructor|]. simpl.
  destruct (N.eqb n 0); [by constructor|apply IH].
Qed.

Lemma survivors_turns preamble blocks : body_ok preamble -> Forall block_ok blocks ->
  Forall body_ok (turns_left preamble blocks) /\
  survivors preamble blocks = omap segment_of (turns_left preamble blocks).
Proof.
  intros Hp. induction blocks as [|b blocks IH] using rev_ind; intros Hok.
  { split; [by repeat constructor|]. unfold survivors, omap. simpl. by destruct (segment_of preamble). }
  apply Forall_app in Hok as [Hok [Hb _]%Forall_cons]. destruct (IH Hok) as [IH1 IH2].
  unfold survivors, turns_left in *. rewrite !fold_left_app. cbn [fold_left]. rewrite IH2. destruct b as [id body|n].
  - split; [constructor; [by exists id|done]|]. unfold omap. cbn. by destruct (segment_of body).
  - split; [by apply roll_back_ok|by apply roll_back_segments].
Qed.

Lemma surviving_turns turns : Forall body_ok turns ->
  surviving_settings (omap segment_of turns) = settings_left turns /\
  match surviving_reference (omap segment_of turns) with Latest ctx => Some ctx | NeverSet | Cleared => None end
    = baseline_left turns /\
  (is_Some (surviving_base (omap segment_of turns)) <-> exists body, body ∈ turns /\ is_Some (checkpoint_of body)).
Proof.
  intros Hok. unfold surviving_settings, surviving_reference, surviving_base, settings_left, baseline_left, omap.
  induction Hok as [|body turns [id Hb] Hok (I1 & I2 & I3)].
  { split; [done|]. split; [done|]. cbn. split; [by intros [? ?]|by intros (? & []%not_elem_of_nil & _)]. }
  destruct (segment_says id body Hb) as (E1 & E2 & E3 & E4). cbn [list_omap List.filter].
  assert ((exists b, b ∈ body :: turns /\ is_Some (checkpoint_of b)) <->
    is_Some (checkpoint_of body) \/ exists b, b ∈ turns /\ is_Some (checkpoint_of b)) as ->
    by (setoid_rewrite elem_of_cons; naive_solver).
  rewrite <- I3, <- E4. destruct (segment_of body) as [s|]; cbn [default from_option Datatypes.id] in *.
  - cbn [list_omap List.filter]. rewrite E1, E3. split_and!.
    + destruct (user_turn body); [|exact I1]. cbn [list_omap]. rewrite E2. destruct (settings_of body); [done|exact I1].
    + destruct (baseline_of body) as [| |ctx] eqn:Eb; cbn [is_cleared].
      * destruct (user_turn body); cbn [orb map List.filter]; rewrite ?E3; exact I2.
      * rewrite orb_true_r. cbn [map List.filter]. rewrite E3. done.
      * destruct (user_turn body); cbn [orb map List.filter]; rewrite ?E3; [done|exact I2].
    + cbn. destruct (seg_base s); cbn; [naive_solver|]. split; [by right|by intros [[? ?]|?]].
  - cbn in E1, E2, E3, E4. rewrite <- E1, <- E3. split_and!; [exact I1|exact I2|]. cbn.
    split; [by right|by intros [[? ?]|?]].
Qed.

End rollout.

(** ** Samples *)

#[local] Instance sample_formats : WireFormats := {| from_xml_str := fun _ => None; from_json_str := fun _ => false |}.

Definition sample_message (role text : string) : RolloutItem unit unit :=
  RResponseItem (Message None (lit role) [InputText (lit text)] None).
Definition sample_checkpoint (texts : list string) : RolloutItem unit unit :=
  RCompacted (mkCompacted [] (Some (map (fun text => Message None (lit "user") [InputText (lit text)] None) texts))).
Definition sample_context (id : string) : RolloutItem unit unit :=
  RTurnContext (mkTurnContext (Some (lit id)) (lit "model-" ++ lit id) None tt).

Definition first_turn : block :=
  Turn (lit "a") [REventMsg UserMessageEvent; sample_message "user" "one"; sample_context "a";
                  sample_message "assistant" "two"; REventMsg (TurnComplete (lit "a"))].
Definition plain_turn : block :=
  Turn (lit "b") [REventMsg UserMessageEvent; sample_message "user" "three"; sample_context "b";
                  REventMsg (TurnComplete (lit "b"))].

Definition user_text (text : string) : ResponseItem unit := Message None (lit "user") [InputText (lit text)] None.
Definition assistant_text (text : string) : ResponseItem unit := Message None (lit "assistant") [InputText (lit text)] None.


(** Where the only checkpoint was written in a turn that is rolled back, what
    came before that turn is lost, and what the turn left behind stays. *)
Example rolled_back_checkpoint :
  let l := concat (map flat
    [first_turn;
     Turn (lit "b") [REventMsg UserMessageEvent; sample_message "user" "three"; sample_context "b";
                     sample_checkpoint ["one"; "three"; "summary"]; sample_message "assistant" "four"; REventMsg (TurnComplete (lit "b"))];
     Rolled 1]) in
  history <$> reconstruct_history_from_rollout (Bytes 1000) l = Some [assistant_text "four"] /\
  items_of (materialize (Bytes 1000) new_context false l) = Some [user_text "one"; user_text "three"].
Proof. by vm_compute. Qed.

(** A checkpoint that leaves the settings open does not end the scan, so the
    suffix may start behind an older one and hold the newer. *)
Example checkpoint_in_suffix :
  let l := concat (map flat
    [Turn (lit "a") [REventMsg UserMessageEvent; sample_message "user" "one"; sample_checkpoint ["one"]];
     Turn (lit "b") [sample_checkpoint ["two"]; REventMsg (TurnComplete (lit "b"))]]) in
  has_checkpoint (scan_rollout l).2 = true.
Proof. by vm_compute. Qed.
