(* ===== verification/RolloutFork.v ===== *)
(** * RolloutFork: the part of a log that a fork starts from

    [core/src/thread_rollout_truncation.rs] and the filter of
    [core/src/agent/control.rs].  Reading the JSON of a message between agents,
    which tells whether it starts a turn, is a parameter. *)

From S2P Require Import Prelude Truncate ResponseItems TurnItems History Rollout.
From stdpp Require Import sorting.
Local Open Scope str_scope.

(** The flag of a message between agents, where [from_json_str] reads one *)
Class TriggerFormat : Type := { json_trigger_turn : str -> bool }.

Section fork.
Context `{WireFormats} `{TriggerFormat} {Json Rest : Type}.
Notation Item := (ResponseItem Json).
Notation Rollout := (RolloutItem Json Rest).

Definition is_real_user_message_boundary (item : Item) : bool :=
  match parse_turn_item [] item with Some (TurnUserMessage _) => true | _ => false end.

(** [InterAgentCommunication::from_message_content] and its flag *)
Definition communication_trigger (content : list ContentItem) : option bool :=
  match content with
  | [InputText text] | [OutputText text] => if from_json_str text then Some (json_trigger_turn text) else None
  | _ => None
  end.

Definition is_trigger_turn_boundary (item : Item) : bool :=
  match item with
  | Message _ role content _ => (role =? lit "assistant") && default false (communication_trigger content)
  | _ => false
  end.

Definition rollout_item_is_user_turn_boundary (item : Rollout) : bool :=
  match item with RResponseItem item => is_user_turn_boundary item | _ => false end.

(** [InitialHistory], with the log of a resumed or forked session *)
Definition initial_history_has_prior_user_turns (conversation_history : option (list Rollout)) : bool :=
  match conversation_history with
  | None => false
  | Some items => existsb rollout_item_is_user_turn_boundary items
  end.

(** The body of the loop of [user_message_positions_in_rollout] *)
Definition user_position_step (user_positions : list nat) (entry : nat * Rollout) : list nat :=
  let '(idx, item) := entry in
  match item with
  | RResponseItem item => if is_real_user_message_boundary item then user_positions ++ [idx] else user_positions
  | REventMsg (ThreadRolledBack num_turns) =>
      take (length user_positions - N.to_nat num_turns)%nat user_positions
  | _ => user_positions
  end.

Definition user_message_positions_in_rollout (items : list Rollout) : list nat :=
  fold_left user_position_step (imap pair items) [].

(** The body of the loop of [fork_turn_positions_in_rollout]: the turns that a
    rollback counts, and the turns of a fork *)
Definition fork_position_step (state : list nat * list nat) (entry : nat * Rollout) : list nat * list nat :=
  let '(rollback_turn_positions, fork_turn_positions) := state in
  let '(idx, item) := entry in
  match item with
  | RResponseItem item =>
      (if is_user_turn_boundary item then rollback_turn_positions ++ [idx] else rollback_turn_positions,
       if is_real_user_message_boundary item || is_trigger_turn_boundary item
       then fork_turn_positions ++ [idx] else fork_turn_positions)
  | REventMsg (ThreadRolledBack num_turns) =>
      let num_turns := N.to_nat num_turns in
      if (num_turns =? 0)%nat then state
      else
        let len := length rollback_turn_positions in
        let rollback_start_idx :=
          if (num_turns <=? len)%nat then rollback_turn_positions !! (len - num_turns)%nat
          else head rollback_turn_positions in
        match rollback_start_idx with
        | None => state
        | Some start =>
            (take (len - num_turns)%nat rollback_turn_positions,
             List.filter (fun position => (position <? start)%nat) fork_turn_positions)
        end
  | _ => state
  end.

Definition fork_turn_positions_in_rollout (items : list Rollout) : list nat :=
  (fold_left fork_position_step (imap pair items) ([], [])).2.

(** [None] stands for [usize::MAX]. *)
Definition truncate_rollout_before_nth_user_message_from_start (items : list Rollout) (n_from_start : option nat) : list Rollout :=
  match n_from_start with
  | None => items
  | Some n_from_start =>
      match user_message_positions_in_rollout items !! n_from_start with
      | None => items
      | Some cut_idx => take cut_idx items
      end
  end.

Definition truncate_rollout_to_last_n_fork_turns (items : list Rollout) (n_from_end : nat) : list Rollout :=
  if (n_from_end =? 0)%nat then []
  else
    let fork_turn_positions := fork_turn_positions_in_rollout items in
    if (length fork_turn_positions <=? n_from_end)%nat then items
    else match fork_turn_positions !! (length fork_turn_positions - n_from_end)%nat with
         | Some keep_idx => drop keep_idx items
         | None => items
         end.

(** Which items of the parent's log a forked agent starts with *)
Definition keep_forked_rollout_item (item : Rollout) : bool :=
  match item with
  | RResponseItem (Message _ role _ phase) =>
      if (role =? lit "system") || (role =? lit "developer") || (role =? lit "user") then true
      else if role =? lit "assistant" then match phase with Some FinalAnswer => true | _ => false end
      else false
  | RResponseItem _ => false
  | RTurnContext _ => false
  | RCompacted _ | REventMsg _ | RSessionMeta => true
  end.

(** The hints of the parent that a fork does not take over *)
Definition is_usage_hint (usage_hint_texts : list str) (item : Rollout) : bool :=
  match item with
  | RResponseItem (Message _ role [InputText text] _) =>
      (role =? lit "developer") && existsb (fun usage_hint_text => usage_hint_text =? text) usage_hint_texts
  | _ => false
  end.

Inductive SpawnAgentForkMode : Type := FullHistory | LastNTurns (n : nat).

Definition forked_rollout_items (items : list Rollout) (fork_mode : SpawnAgentForkMode) (usage_hint_texts : list str)
    : list Rollout :=
  let items := match fork_mode with
               | FullHistory => items
               | LastNTurns last_n_turns => truncate_rollout_to_last_n_fork_turns items last_n_turns
               end in
  List.filter (fun item => negb (is_usage_hint usage_hint_texts item) && keep_forked_rollout_item item) items.

(** ** What is left of a log *)

Definition is_fork_turn (item : Rollout) : bool :=
  match item with
  | RResponseItem item => is_real_user_message_boundary item || is_trigger_turn_boundary item
  | _ => false
  end.

Notation entry := (nat * Rollout)%type.
Definition turn_entry (e : entry) : bool := rollout_item_is_user_turn_boundary e.2.
Definition fork_entry (e : entry) : bool := is_fork_turn e.2.

(** Taking the newest [n] turns away, the newest entry first; what came before
    the first turn stays. *)
Fixpoint strip (n : nat) (l : list entry) : list entry :=
  match l with
  | [] => []
  | e :: rest =>
      if (n =? 0)%nat || negb (existsb turn_entry l) then l
      else strip (if turn_entry e then n - 1 else n)%nat rest
  end.

(** The entries that are left, the newest first *)
Definition survive (kept : list entry) (e : entry) : list entry :=
  match e.2 with
  | REventMsg (ThreadRolledBack num_turns) => strip (N.to_nat num_turns) kept
  | _ => e :: kept
  end.

Definition surviving (items : list Rollout) : list entry := rev (fold_left survive (imap pair items) []).

Lemma filter_lookup {A} (f : A -> bool) l j y : List.filter f l !! j = Some y ->
  exists a b, l = a ++ y :: b /\ f y = true /\ length (List.filter f a) = j.
Proof.
  revert j. induction l as [|x l IH]; intros j; [done|]. simpl. destruct (f x) eqn:Ex.
  - destruct j as [|j]; [intros [= ->]; by exists [], l|]. intros (a & b & -> & Hy & <-)%IH.
    exists (x :: a), b. simpl. rewrite Ex. done.
  - intros (a & b & -> & Hy & <-)%IH. exists (x :: a), b. simpl. by rewrite Ex.
Qed.

Lemma existsb_filter {A} (f : A -> bool) l : existsb f l = negb (is_empty (List.filter f l)).
Proof. induction l as [|x l IH]; [done|]. simpl. destruct (f x); [done|]. by rewrite IH. Qed.

(** Turns are counted from the newest. *)
Lemma strip_split n a x b : turn_entry x = true ->
  (length (List.filter turn_entry (x :: b)) = n \/
   (length (List.filter turn_entry (x :: b)) <= n)%nat /\ List.filter turn_entry a = []) ->
  strip n (rev (a ++ x :: b)) = rev a.
Proof.
  intros Hx. revert n. induction b as [|y b IH] using rev_ind; intros n Hn.
  - rewrite rev_app_distr. simpl in *. rewrite Hx in *. simpl in *. destruct (Nat.eqb_spec n 0); [lia|]. simpl.
    destruct Hn as [<-|[Hn Ha]]; [simpl; by destruct (rev a)|].
    assert (existsb turn_entry (rev a) = false) as Hr.
    { apply not_true_iff_false. rewrite existsb_exists. intros (e & He & Ht). rewrite <- in_rev in He.
      assert (e ∈ List.filter turn_entry a) as Hin by (apply list_elem_of_In, filter_In; done). rewrite Ha in Hin. by apply elem_of_nil in Hin. }
    destruct (rev a) as [|e l]; [done|]. cbn [strip]. rewrite Hr. by rewrite orb_true_r.
  - rewrite app_comm_cons, app_assoc, rev_app_distr. cbn [rev app strip].
    assert (existsb turn_entry (y :: rev (a ++ x :: b)) = true) as ->.
    { apply existsb_exists. exists x. split; [right; rewrite <- in_rev; apply in_app_iff; right; by left|done]. }
    rewrite app_comm_cons, List.filter_app, length_app in Hn. simpl in Hn. rewrite Hx in Hn. simpl in Hn.
    destruct (Nat.eqb_spec n 0); [destruct Hn; lia|]. simpl.
    apply IH. simpl. rewrite Hx. destruct (turn_entry y); simpl in *; destruct Hn as [|[? ?]]; (left; lia) || (right; split; [lia|done]).
Qed.

Lemma strip_no_turn n l : existsb turn_entry l = false -> strip n l = l.
Proof. destruct l as [|e l]; [done|]. cbn [strip]. intros ->. by rewrite orb_true_r. Qed.

Lemma strip_0 l : strip 0 l = l.
Proof. by destruct l. Qed.

(** The positions are those of what is left; indices rise. *)
Definition positions_of (f : entry -> bool) (kept : list entry) : list nat := map fst (List.filter f kept).

Lemma fork_is_turn e : fork_entry e = true -> turn_entry e = true.
Proof.
  destruct e as [i [item| | | |]]; try done. unfold fork_entry, turn_entry. simpl. intros [Hr|Ht]%orb_true_iff.
  - unfold is_real_user_message_boundary in Hr. destruct (parse_turn_item [] item) as [[u| | | | |]|] eqn:E; try done.
    by eapply user_message_boundary.
  - unfold is_trigger_turn_boundary in Ht. destruct item; try done. apply andb_true_iff in Ht as [Hr Ht].
    simpl. rewrite Hr. apply orb_true_iff. right. simpl. unfold communication_trigger in Ht. unfold is_inter_agent_instruction_content.
    destruct content as [|[text| |text] [|]]; try done; by destruct (from_json_str text).
Qed.

Lemma positions_split f a (x : entry) b : StronglySorted lt (map fst (a ++ x :: b)) ->
  List.filter (fun p => (p <? x.1)%nat) (positions_of f (a ++ x :: b)) = positions_of f a.
Proof.
  intros Hs. unfold positions_of. rewrite List.filter_app, map_app, List.filter_app. rewrite map_app in Hs.
  apply StronglySorted_app in Hs as (Hab & _ & Hx). cbn [map] in Hab, Hx. apply StronglySorted_inv in Hx as [_ Hx].
  rewrite Forall_forall in Hx.
  assert (forall l, (forall e, e ∈ l -> (e.1 < x.1)%nat) ->
    List.filter (fun p => (p <? x.1)%nat) (map fst (List.filter f l)) = map fst (List.filter f l)) as Hall.
  { induction l as [|e l IH]; intros He; [done|]. simpl. destruct (f e); simpl.
    - rewrite (proj2 (Nat.ltb_lt _ _) (He e ltac:(left))). f_equal. apply IH. intros; apply He; by right.
    - apply IH. intros; apply He; by right. }
  assert (forall l, (forall e, e ∈ l -> (x.1 <= e.1)%nat) ->
    List.filter (fun p => (p <? x.1)%nat) (map fst (List.filter f l)) = []) as Hnone.
  { induction l as [|e l IH]; intros He; [done|]. simpl. destruct (f e); simpl.
    - rewrite (proj2 (Nat.ltb_ge _ _) (He e ltac:(left))). apply IH. intros; apply He; by right.
    - apply IH. intros; apply He; by right. }
  rewrite Hall, (Hnone (x :: b)), app_nil_r; [done| |].
  - intros e [->|He]%elem_of_cons; [done|]. apply Nat.lt_le_incl, Hx. apply list_elem_of_In, in_map, list_elem_of_In, He.
  - intros e He. apply Hab; [apply list_elem_of_In, in_map, list_elem_of_In, He|left].
Qed.

Lemma length_positions_of f (l : list entry) : length (positions_of f l) = length (List.filter f l).
Proof. apply length_map. Qed.

Lemma take_positions f (a b : list entry) n : length (List.filter f a) = n ->
  take n (positions_of f (a ++ b)) = positions_of f a.
Proof.
  intros <-. unfold positions_of. rewrite List.filter_app, map_app, <- (length_map fst (List.filter f a)).
  apply take_app_length.
Qed.

(** One step of the loop keeps the positions of what is left. *)
Lemma fork_step kept idx item : StronglySorted lt (map fst (rev kept)) ->
  fork_position_step (positions_of turn_entry (rev kept), positions_of fork_entry (rev kept)) (idx, item) =
  (positions_of turn_entry (rev (survive kept (idx, item))), positions_of fork_entry (rev (survive kept (idx, item)))) /\
  exists gone, rev kept = rev (survive kept (idx, item)) ++ gone \/ survive kept (idx, item) = (idx, item) :: kept.
Proof.
  intros Hs. unfold survive. simpl snd.
  assert (forall f, positions_of f (rev ((idx, item) :: kept)) =
    positions_of f (rev kept) ++ (if f (idx, item) then [idx] else [])) as Happ.
  { intros f. unfold positions_of. simpl rev. rewrite List.filter_app, map_app. simpl. by destruct (f (idx, item)). }
  destruct item as [item|c|ctx|event|]; try (split; [rewrite !Happ; cbn; by rewrite !app_nil_r|by exists []; right]).
  - split; [|by exists []; right]. rewrite !Happ. unfold turn_entry at 2, fork_entry at 2. cbn.
    destruct (is_user_turn_boundary item), (is_real_user_message_boundary item || is_trigger_turn_boundary item);
      by rewrite ?app_nil_r.
  - destruct event as [| | | |num|]; try (split; [rewrite !Happ; cbn; by rewrite !app_nil_r|by exists []; right]).
    cbn [fork_position_step]. set (n := N.to_nat num). destruct (Nat.eqb_spec n 0) as [->|Hn].
    { rewrite strip_0. split; [done|]. exists []. left. by rewrite app_nil_r. }
    rewrite length_positions_of. set (len := length (List.filter turn_entry (rev kept))).
    pose (j := (len - n)%nat). assert ((if (n <=? len)%nat then positions_of turn_entry (rev kept) !! (len - n)%nat
        else head (positions_of turn_entry (rev kept))) = positions_of turn_entry (rev kept) !! j) as ->.
    { destruct (Nat.leb_spec n len); [done|]. assert (j = 0%nat) as -> by (unfold j; lia). by destruct (positions_of _ _). }
    destruct (positions_of turn_entry (rev kept) !! j) as [start|] eqn:Estart.
    + unfold positions_of in Estart. apply list_lookup_fmap_Some in Estart as (x & -> & Hx).
      apply filter_lookup in Hx as (a & b & Ekept & Ht & Hj).
      assert (strip n kept = rev a) as ->.
      { rewrite <- (rev_involutive kept), Ekept. apply strip_split; [done|].
        assert (len = length (List.filter turn_entry a) + length (List.filter turn_entry (x :: b)))%nat as Hlen.
        { unfold len. by rewrite Ekept, List.filter_app, length_app. }
        destruct (Nat.leb_spec n len); [left; unfold j in *; lia|right]. split; [unfold j in *; lia|].
        apply length_zero_iff_nil. unfold j in *. lia. }
      rewrite rev_involutive, Ekept. rewrite Ekept in Hs. split; [|by exists (x :: b); left].
      f_equal; [by apply take_positions|by apply positions_split].
    + assert (existsb turn_entry kept = false) as Hno.
      { apply lookup_ge_None in Estart. rewrite length_positions_of in Estart. fold len in Estart.
        assert (len = 0%nat) as Hlen0 by (unfold j in *; lia). apply length_zero_iff_nil in Hlen0.
        apply not_true_iff_false. rewrite existsb_exists. intros (e & He & Hte).
        assert (In e (List.filter turn_entry (rev kept))) as Hin by (apply filter_In; split; [by rewrite <- in_rev|done]).
        by rewrite Hlen0 in Hin. }
      rewrite strip_no_turn by done. split; [done|]. exists []. left. by rewrite app_nil_r.
Qed.

Lemma fork_positions_fold items k kept :
  StronglySorted lt (map fst (rev kept)) -> Forall (fun e => (e.1 < k)%nat) kept ->
  let kept' := fold_left survive (imap (fun i x => (k + i, x)%nat) items) kept in
  fold_left fork_position_step (imap (fun i x => (k + i, x)%nat) items)
    (positions_of turn_entry (rev kept), positions_of fork_entry (rev kept)) =
  (positions_of turn_entry (rev kept'), positions_of fork_entry (rev kept')) /\
  StronglySorted lt (map fst (rev kept')).
Proof.
  revert k kept. induction items as [|item items IH]; intros k kept Hs Hk; [done|]. cbn [imap fold_left].
  rewrite Nat.add_0_r. destruct (fork_step kept k item Hs) as (-> & gone & Hgone).
  assert (imap ((fun i x => (k + i, x)%nat) ∘ S) items = imap (fun i x => (S k + i, x)%nat) items) as ->.
  { apply imap_ext. intros i x _. simpl. f_equal. lia. }
  apply IH.
  - destruct Hgone as [E|E].
    + rewrite E, map_app in Hs. by apply StronglySorted_app in Hs as (_ & ? & _).
    + rewrite E. simpl. rewrite map_app. apply StronglySorted_app. split; [|split; [done|by repeat constructor]].
      intros i j Hi ->%list_elem_of_singleton. apply list_elem_of_In, in_map_iff in Hi as (e & <- & He).
      rewrite <- in_rev in He. rewrite Forall_forall in Hk. apply Hk. by apply list_elem_of_In.
  - destruct Hgone as [E|E].
    + apply Forall_forall. intros e He. rewrite Forall_forall in Hk. apply Nat.lt_lt_succ_r, Hk.
      apply list_elem_of_In, in_rev. rewrite E. apply in_app_iff. left. rewrite <- in_rev. by apply list_elem_of_In.
    + rewrite E. apply Forall_cons. split; [simpl; lia|]. eapply Forall_impl; [exact Hk|]. simpl. intros; lia.
Qed.

Lemma fork_positions_spec items :
  fork_turn_positions_in_rollout items = positions_of fork_entry (surviving items) /\
  StronglySorted lt (map fst (surviving items)).
Proof.
  destruct (fork_positions_fold items 0 []) as [E Hs]; [constructor|constructor|]. split; [exact (f_equal snd E)|exact Hs].
Qed.

Lemma strip_incl n l e : e ∈ strip n l -> e ∈ l.
Proof.
  revert n. induction l as [|x l IH]; intros n; [done|]. cbn [strip]. destruct (_ || _); [done|]. intros Hin%IH. by right.
Qed.

Lemma surviving_lookup items e : e ∈ surviving items -> items !! e.1 = Some e.2.
Proof.
  unfold surviving. rewrite list_elem_of_In, <- in_rev, <- list_elem_of_In.
  assert (forall kept l, (forall x, x ∈ fold_left survive l kept -> x ∈ kept \/ x ∈ l)) as Hfold.
  { intros kept l. revert kept. induction l as [|y l IH]; intros kept x; [by left|]. simpl. intros [Hx|Hx]%IH; [|right; by right].
    unfold survive in Hx. destruct y.2 as [| | |[]|]; try (apply elem_of_cons in Hx as [->|Hx]; [right; by left|by left]).
    left. by eapply strip_incl. }
  intros [H'|H']%Hfold; [by apply elem_of_nil in H'|].
  apply elem_of_lookup_imap in H' as (i & x & -> & Hx). done.
Qed.

(** The turns of a fork are counted on what the rollbacks leave of the log: a
    fork of the last [n] turns starts at the [n]-th newest surviving one, the
    whole log is kept if there are no more, and nothing for none. *)
Theorem fork_turns_survive (items : list Rollout) (n : nat) :
  let forks := List.filter fork_entry (surviving items) in
  (length forks <= n)%nat /\ n <> 0%nat /\ truncate_rollout_to_last_n_fork_turns items n = items \/
  n = 0%nat /\ truncate_rollout_to_last_n_fork_turns items n = [] \/
  exists older start newer, forks = older ++ start :: newer /\ length (start :: newer) = n /\
    items !! start.1 = Some start.2 /\ truncate_rollout_to_last_n_fork_turns items n = drop start.1 items /\
    head (drop start.1 items) = Some start.2.
Proof.
  intros forks. unfold truncate_rollout_to_last_n_fork_turns. destruct (fork_positions_spec items) as [-> _].
  rewrite length_positions_of. fold forks. destruct (Nat.eqb_spec n 0) as [->|Hn]; [right; by left|].
  destruct (Nat.leb_spec (length forks) n) as [Hle|Hgt]; [by left|]. right. right.
  destruct (lookup_lt_is_Some_2 forks (length forks - n)) as [start Hstart]; [lia|].
  pose proof (take_drop_middle _ _ _ Hstart) as Hsplit.
  exists (take (length forks - n) forks), start, (drop (S (length forks - n)) forks). split; [done|].
  split; [simpl; rewrite length_drop; lia|].
  assert (items !! start.1 = Some start.2) as Hitem.
  { apply surviving_lookup. apply list_elem_of_lookup_2 in Hstart. apply list_elem_of_In, filter_In in Hstart as [Hin _].
    by apply list_elem_of_In. }
  split; [done|]. unfold positions_of. fold forks. rewrite list_lookup_fmap, Hstart. simpl. split; [done|].
  by rewrite head_lookup, lookup_drop, Nat.add_0_r.
Qed.
End fork.
