(* ===== verification/AgentControl.v ===== *)
(** * AgentControl: the tree of agents

    [core/src/agent/control.rs] over the registry, with [status.rs],
    [mailbox.rs] and [core/src/session_prefix.rs].  The threads are a world of
    their own: which there are, in the order of a [HashMap], whether one can
    still be got, the thread that spawned it, its path, its status, and what
    sending to it answers. *)

From S2P Require Import Prelude AgentRegistry.
From S2P Require AgentPath.
From S2P Require Import Trim BTree TurnItems.
Local Open Scope str_scope.

(** ** Status *)

Inductive AgentStatus : Type :=
| PendingInit
| Running
| Interrupted
| Completed (last_agent_message : option str)
| Errored (message : str)
| Shutdown
| NotFound.

Inductive TurnAbortReason : Type := ReasonInterrupted | Replaced | ReviewEnded | BudgetLimited.

Definition reason_debug (reason : TurnAbortReason) : str :=
  match reason with
  | ReasonInterrupted => lit "Interrupted"
  | Replaced => lit "Replaced"
  | ReviewEnded => lit "ReviewEnded"
  | BudgetLimited => lit "BudgetLimited"
  end.

(** The events that the status depends on *)
Inductive StatusEvent : Type :=
| EvTurnStarted
| EvTurnComplete (last_agent_message : option str)
| EvTurnAborted (reason : TurnAbortReason)
| EvError (message : str)
| EvShutdownComplete
| EvOther.

Definition agent_status_from_event (msg : StatusEvent) : option AgentStatus :=
  match msg with
  | EvTurnStarted => Some Running
  | EvTurnComplete last_agent_message => Some (Completed last_agent_message)
  | EvTurnAborted (ReasonInterrupted | BudgetLimited) => Some Interrupted
  | EvTurnAborted reason => Some (Errored (reason_debug reason))
  | EvError message => Some (Errored message)
  | EvShutdownComplete => Some Shutdown
  | EvOther => None
  end.

Definition is_final (status : AgentStatus) : bool :=
  match status with PendingInit | Running | Interrupted => false | _ => true end.

(** ** Texts *)

Definition default_agent_nickname_list (agent_names : str) : list str :=
  List.filter (fun name => negb (is_empty name)) (map trim (lines agent_names)).

Definition format_subagent_context_line (agent_reference : str) (agent_nickname : option str) : str :=
  match agent_nickname with
  | Some (c :: nickname) => lit "- " ++ agent_reference ++ lit ": " ++ c :: nickname
  | _ => lit "- " ++ agent_reference
  end.

Inductive Op : Type :=
| OpUserInput (items : list UserInput)
| OpInterAgentCommunication (content : str)
| OpInterrupt
| OpShutdown
| OpOther.

Definition preview_item (item : UserInput) : str :=
  match item with
  | UserText text => text
  | UserImage _ => lit "[image]"
  | UserLocalImage path => lit "[local_image:" ++ path ++ lit "]"
  | UserSkill name path => lit "[skill:$" ++ name ++ lit "](" ++ path ++ lit ")"
  | UserMention name path => lit "[mention:$" ++ name ++ lit "](" ++ path ++ lit ")"
  end.

Definition render_input_preview (initial_operation : Op) : str :=
  match initial_operation with
  | OpUserInput items => join [NL] (map preview_item items)
  | OpInterAgentCommunication content => content
  | _ => []
  end.

(** ** Sources of sessions *)

(** The thread-spawn source of a thread, [None] for any other source *)
Record ThreadSpawn : Type := mkThreadSpawn {
  parent_thread_id : ThreadId;
  spawn_depth : Z;
  spawn_path : option str;
  spawn_nickname : option str;
  spawn_role : option str;
}.

Definition thread_spawn_parent_thread_id (session_source : option ThreadSpawn) : option ThreadId :=
  parent_thread_id <$> session_source.
Definition thread_spawn_depth (session_source : option ThreadSpawn) : option Z := spawn_depth <$> session_source.

(** ** What the registry does for the threads *)

Section Control.
Context (iter : gmap str AgentMetadata -> list (str * AgentMetadata)).

Definition register_session_root (current_thread_id : ThreadId) (current_session_source : option ThreadSpawn)
    (s : AgentRegistry) : AgentRegistry :=
  match thread_spawn_parent_thread_id current_session_source with
  | None => register_root_thread current_thread_id s
  | Some _ => s
  end.

Definition resolve_agent_reference (current_agent_path : option str) (agent_reference : str) (s : AgentRegistry)
    : result str ThreadId :=
  agent_path ← AgentPath.resolve (default AgentPath.root current_agent_path) agent_reference;
  match agent_id_for_path agent_path s with
  | Some thread_id => Ok thread_id
  | None => Err (lit "live agent path `" ++ agent_path ++ lit "` not found")
  end.

(** *** Spawning *)

(** [prepare_thread_spawn], for a reservation without a path: the result, the
    registry, and the path that the reservation now has *)
Definition prepare_thread_spawn (candidate_names : list str) (draw draw' : nat) (parent : ThreadId) (depth : Z)
    (path role preferred_agent_nickname : option str) (s : AgentRegistry)
    : result str (ThreadSpawn * AgentMetadata) * AgentRegistry * option str :=
  let s := if (depth =? 1)%Z then register_root_thread parent s else s in
  let '(reserved, s) := match path with
                        | Some path => reserve_agent_path path s
                        | None => (Ok tt, s)
                        end in
  match reserved with
  | Err e => (Err e, s, None)
  | Ok _ =>
      match reserve_agent_nickname candidate_names preferred_agent_nickname draw draw' s with
      | (None, s) => (Err (lit "no available agent nicknames"), s, path)
      | (Some nickname, s) =>
          (Ok (mkThreadSpawn parent depth path (Some nickname) role,
               mkAgent None path (Some nickname) role None), s, path)
      end
  end.

(** ** The world of threads *)

Record Threads : Type := mkThreads {
  list_thread_ids : list ThreadId;
  (** [get_thread], and the source of its session *)
  get_thread : ThreadId -> option (option ThreadSpawn);
  agent_status : ThreadId -> AgentStatus;
}.

(** The order of agents: by path, then by identifier *)
Definition agent_leb (left_ right_ : str * str) : bool :=
  if str_leb left_.1 right_.1 && str_leb right_.1 left_.1 then str_leb left_.2 right_.2 else str_leb left_.1 right_.1.

Definition path_text (metadata : AgentMetadata) : str := default [] (agent_path metadata).

Definition push_child (parent : ThreadId) (child : ThreadId * AgentMetadata)
    (children_by_parent : gmap ThreadId (list (ThreadId * AgentMetadata))) : gmap ThreadId (list (ThreadId * AgentMetadata)) :=
  <[parent := default [] (children_by_parent !! parent) ++ [child]]> children_by_parent.

Definition child_entry (s : AgentRegistry) (thread_id : ThreadId) : ThreadId * AgentMetadata :=
  (thread_id, default (mkAgent (Some thread_id) None None None None) (agent_metadata_for_thread iter thread_id s)).

Definition child_leb (left_ right_ : ThreadId * AgentMetadata) : bool :=
  agent_leb (path_text left_.2, left_.1) (path_text right_.2, right_.1).

Definition live_thread_spawn_children (w : Threads) (s : AgentRegistry) : gmap ThreadId (list (ThreadId * AgentMetadata)) :=
  let children_by_parent :=
    fold_left (fun children thread_id =>
      match get_thread w thread_id with
      | Some (Some source) => push_child (parent_thread_id source) (child_entry s thread_id) children
      | _ => children
      end) (list_thread_ids w) ∅ in
  sort_by child_leb <$> children_by_parent.

Definition open_thread_spawn_children (w : Threads) (s : AgentRegistry) (parent : ThreadId) : list (ThreadId * AgentMetadata) :=
  default [] (live_thread_spawn_children w s !! parent).

Definition format_environment_context_subagents (w : Threads) (s : AgentRegistry) (parent : ThreadId) : str :=
  join [NL] (map (fun '(thread_id, metadata) =>
    format_subagent_context_line
      (match agent_path metadata with Some path => AgentPath.name path | None => thread_id end)
      (agent_nickname metadata)) (open_thread_spawn_children w s parent)).

(** The loop of [live_thread_spawn_descendants]; the top of the stack is the
    head of the list. *)
Fixpoint descend (fuel : nat) (children_by_parent : gmap ThreadId (list (ThreadId * AgentMetadata)))
    (stack descendants : list ThreadId) : option (list ThreadId) :=
  match fuel with
  | O => None
  | S fuel =>
      match stack with
      | [] => Some descendants
      | thread_id :: stack =>
          let children := map fst (default [] (children_by_parent !! thread_id)) in
          descend fuel (delete thread_id children_by_parent) (children ++ stack) (descendants ++ [thread_id])
      end
  end.

(** There are at most as many iterations as threads, and one more. *)
Definition live_thread_spawn_descendants (w : Threads) (s : AgentRegistry) (root_thread_id : ThreadId)
    : option (list ThreadId) :=
  let children_by_parent := live_thread_spawn_children w s in
  descend (S (length (list_thread_ids w))) (delete root_thread_id children_by_parent)
    (map fst (default [] (children_by_parent !! root_thread_id))) [].

Definition list_live_agent_subtree_thread_ids (w : Threads) (s : AgentRegistry) (agent_id : ThreadId) : option (list ThreadId) :=
  cons agent_id <$> live_thread_spawn_descendants w s agent_id.

(** *** Listing *)

Record ListedAgent : Type := mkListed {
  agent_name : str;
  listed_status : AgentStatus;
  listed_task_message : option str;
}.

Definition ROOT_LAST_TASK_MESSAGE : str := lit "Main thread".

Definition metadata_leb (left_ right_ : AgentMetadata) : bool :=
  agent_leb (path_text left_, default [] (agent_id left_)) (path_text right_, default [] (agent_id right_)).

Definition list_agents (w : Threads) (current_agent_path : option str) (path_prefix : option str) (s : AgentRegistry)
    : result str (list ListedAgent) :=
  resolved_prefix ← (match path_prefix with
                     | None => Ok None
                     | Some prefix =>
                         p ← AgentPath.resolve (default AgentPath.root current_agent_path) prefix;
                         Ok (Some p)
                     end);
  let matches path := match resolved_prefix with
                      | None => true
                      | Some prefix => AgentPath.agent_matches_prefix path prefix
                      end in
  let live_agents := sort_by metadata_leb (live_agents iter s) in
  let root_agents :=
    if matches (Some AgentPath.root) then
      match agent_id_for_path AgentPath.root s with
      | Some root_thread_id =>
          match get_thread w root_thread_id with
          | Some _ => [mkListed AgentPath.root (agent_status w root_thread_id) (Some ROOT_LAST_TASK_MESSAGE)]
          | None => []
          end
      | None => []
      end
    else [] in
  Ok (root_agents ++ omap (fun metadata =>
    thread_id ← agent_id metadata;
    if matches (agent_path metadata) then
      match get_thread w thread_id with
      | Some _ =>
          Some (mkListed (default thread_id (agent_path metadata)) (agent_status w thread_id) (last_task_message metadata))
      | None => None
      end
    else None) live_agents).

(** *** Shutting down *)

Inductive ShutdownError : Type := ThreadNotFound | InternalAgentDied | OtherError (message : str).

(** What flushing the log of a thread and sending it the operation answer *)
Record Outcomes : Type := mkOutcomes {
  flush_rollout : ThreadId -> result ShutdownError unit;
  send_shutdown : ThreadId -> result ShutdownError str;
}.

(** Both steps of [release_spawned_thread] *)
Definition release_spawned_thread (thread_id : ThreadId) (s : AgentRegistry) : AgentRegistry :=
  let '(removed_counted_agent, s) := remove_agent iter thread_id s in
  if removed_counted_agent then with_count s (fetch_sub (total_count s)) else s.

Definition is_shutdown (status : AgentStatus) : bool := match status with Shutdown => true | _ => false end.

Definition shutdown_live_agent (w : Threads) (o : Outcomes) (agent_id : ThreadId) (s : AgentRegistry)
    : result ShutdownError str * AgentRegistry :=
  match get_thread w agent_id with
  | Some _ =>
      match flush_rollout o agent_id with
      | Err e => (Err e, s)
      | Ok _ =>
          (if is_shutdown (agent_status w agent_id) then Ok [] else send_shutdown o agent_id,
           release_spawned_thread agent_id s)
      end
  | None => (send_shutdown o agent_id, release_spawned_thread agent_id s)
  end.

(** The loop over the descendants *)
Fixpoint shutdown_descendants (w : Threads) (o : Outcomes) (descendant_ids : list ThreadId) (s : AgentRegistry)
    : result ShutdownError unit * AgentRegistry :=
  match descendant_ids with
  | [] => (Ok tt, s)
  | descendant_id :: descendant_ids =>
      match shutdown_live_agent w o descendant_id s with
      | (Err (OtherError e), s) => (Err (OtherError e), s)
      | (_, s) => shutdown_descendants w o descendant_ids s
      end
  end.

Definition shutdown_agent_tree (w : Threads) (o : Outcomes) (agent_id : ThreadId) (s : AgentRegistry)
    : option (result ShutdownError str * AgentRegistry) :=
  descendant_ids ← live_thread_spawn_descendants w s agent_id;
  let '(result, s) := shutdown_live_agent w o agent_id s in
  match shutdown_descendants w o descendant_ids s with
  | (Err e, s) => Some (Err e, s)
  | (Ok _, s) => Some (result, s)
  end.

(** ** Descendants *)

Notation Children := (gmap ThreadId (list (ThreadId * AgentMetadata))).

Definition kids (C : Children) (p : ThreadId) : list ThreadId := map fst (default [] (C !! p)).
Definition all_kids (C : Children) : list ThreadId := concat (map (fun e => map fst e.2) (map_to_list C)).

Definition spawned (w : Threads) (parent child : ThreadId) : Prop :=
  child ∈ list_thread_ids w /\ exists source, get_thread w child = Some (Some source) /\ parent_thread_id source = parent.

Lemma NoDup_bool_filter {A} (f : A -> bool) l : NoDup l -> NoDup (List.filter f l).
Proof.
  induction 1 as [|x l Hx _ IH]; simpl; [constructor|]. destruct (f x); [|done]. constructor; [|done].
  intros [Hin _]%list_elem_of_In%filter_In. apply Hx. by apply list_elem_of_In.
Qed.

Lemma concat_perm {A} (l k : list (list A)) : l ≡ₚ k -> concat l ≡ₚ concat k.
Proof.
  induction 1 as [|x l k _ IH|x y l|l k m _ IH1 _ IH2]; simpl; [done|by rewrite IH| |by rewrite IH1].
  rewrite !app_assoc. apply Permutation_app_tail, Permutation_app_comm.
Qed.

Lemma all_kids_perm (l : list (ThreadId * list (ThreadId * AgentMetadata))) (C : Children) :
  l ≡ₚ map_to_list C -> all_kids C ≡ₚ concat (map (fun e => map fst e.2) l).
Proof. intros E. unfold all_kids. apply concat_perm. by rewrite E. Qed.

Lemma all_kids_delete C p : all_kids C ≡ₚ kids C p ++ all_kids (delete p C).
Proof.
  unfold kids. destruct (C !! p) as [l|] eqn:E; simpl; [|by rewrite delete_id].
  by rewrite (all_kids_perm ((p, l) :: map_to_list (delete p C)) C) by by apply map_to_list_delete.
Qed.

Lemma all_kids_insert C p l : all_kids (<[p := l]> C) ≡ₚ map fst l ++ all_kids (delete p C).
Proof. rewrite (all_kids_delete _ p). unfold kids. by rewrite lookup_insert_eq, delete_insert_eq. Qed.

Lemma push_all_kids p e C : all_kids (push_child p e C) ≡ₚ e.1 :: all_kids C.
Proof.
  unfold push_child. rewrite all_kids_insert, map_app. simpl. rewrite <- Permutation_middle, app_nil_r.
  by rewrite (all_kids_delete C p).
Qed.

Lemma push_kids p e C q : kids (push_child p e C) q = kids C q ++ (if decide (p = q) then [e.1] else []).
Proof.
  unfold kids, push_child. destruct (decide (p = q)) as [<-|Hne].
  - rewrite lookup_insert_eq. simpl. by rewrite map_app.
  - by rewrite lookup_insert_ne, app_nil_r.
Qed.

Lemma sorted_kids C p : kids (sort_by child_leb <$> C) p ≡ₚ kids C p.
Proof.
  unfold kids. rewrite lookup_fmap. destruct (C !! p) as [l|]; [|done]. simpl. by rewrite (sort_by_perm child_leb l).
Qed.

Lemma sorted_all_kids C : all_kids (sort_by child_leb <$> C) ≡ₚ all_kids C.
Proof.
  rewrite (all_kids_perm (prod_map id (sort_by child_leb) <$> map_to_list C)) by by rewrite map_to_list_fmap.
  unfold all_kids. induction (map_to_list C) as [|[k l] L IH]; [done|]. simpl. rewrite IH. by rewrite (sort_by_perm child_leb l).
Qed.

(** The threads that were spawned, in the order of the listing *)
Definition spawned_ids (w : Threads) (ids : list ThreadId) : list ThreadId :=
  List.filter (fun id => match get_thread w id with Some (Some _) => true | _ => false end) ids.

Lemma children_fold w s ids C :
  let C' := fold_left (fun children thread_id =>
      match get_thread w thread_id with
      | Some (Some source) => push_child (parent_thread_id source) (child_entry s thread_id) children
      | _ => children
      end) ids C in
  all_kids C' ≡ₚ spawned_ids w ids ++ all_kids C /\
  forall p c, c ∈ kids C' p <-> c ∈ kids C p \/
    c ∈ ids /\ exists source, get_thread w c = Some (Some source) /\ parent_thread_id source = p.
Proof.
  revert C. induction ids as [|id ids IH]; intros C; simpl.
  { split; [done|]. intros p c. split; [by left|]. intros [|[H' _]]; [done|by apply elem_of_nil in H']. }
  destruct (get_thread w id) as [[src|]|] eqn:E; simpl.
  - destruct (IH (push_child (parent_thread_id src) (child_entry s id) C)) as [IH1 IH2]. split.
    + rewrite IH1, push_all_kids. simpl. by rewrite Permutation_middle.
    + intros p c. rewrite IH2, push_kids, elem_of_app, elem_of_cons. destruct (decide _) as [Hp|Hp]; simpl.
      * rewrite list_elem_of_singleton. split.
        -- intros [[| ->]|[? ?]]; [by left|right; split; [by left|by exists src]|right; split; [by right|done]].
        -- intros [|[[->|] ?]]; auto.
      * rewrite elem_of_nil. split; [intros [[|]|[? ?]]; [by left|done|right; split; [by right|done]]|].
        intros [|[[->|] (src' & E' & Hs)]]; [by left; left| |right; split; [done|by exists src']]. congruence.
  - destruct (IH C) as [IH1 IH2]. split; [done|]. intros p c. rewrite IH2, elem_of_cons. split; [intros [|[? ?]]; auto|].
    intros [|[[->|] (src' & E' & Hs)]]; [by left|congruence|right; split; [done|by exists src']].
  - destruct (IH C) as [IH1 IH2]. split; [done|]. intros p c. rewrite IH2, elem_of_cons. split; [intros [|[? ?]]; auto|].
    intros [|[[->|] (src' & E' & Hs)]]; [by left|congruence|right; split; [done|by exists src']].
Qed.

Lemma children_kids w s p c : c ∈ kids (live_thread_spawn_children w s) p <-> spawned w p c.
Proof.
  unfold live_thread_spawn_children. rewrite sorted_kids. destruct (children_fold w s (list_thread_ids w) ∅) as [_ ->].
  unfold spawned, kids at 1. rewrite lookup_empty. simpl. rewrite elem_of_nil. tauto.
Qed.

Lemma children_all w s : all_kids (live_thread_spawn_children w s) ≡ₚ spawned_ids w (list_thread_ids w).
Proof.
  unfold live_thread_spawn_children. rewrite sorted_all_kids. destruct (children_fold w s (list_thread_ids w) ∅) as [-> _].
  unfold all_kids at 1. by rewrite map_to_list_empty, app_nil_r.
Qed.

(** The loop ends, visits no thread twice and exactly what can be reached. *)
Lemma descend_spec (R : ThreadId -> ThreadId -> Prop) root fuel : forall C stack acc,
  (length stack + length (all_kids C) < fuel)%nat -> NoDup (acc ++ stack ++ all_kids C) ->
  (forall x, x ∈ acc ++ stack -> tc R root x) ->
  (forall x y, x = root \/ x ∈ acc -> R x y -> y ∈ acc ++ stack) ->
  (forall x y, x <> root -> x ∉ acc -> R x y -> y ∈ kids C x) ->
  (forall x y, y ∈ kids C x -> R x y) ->
  exists l, descend fuel C stack acc = Some l /\ NoDup l /\ forall x, x ∈ l <-> tc R root x.
Proof.
  induction fuel as [|fuel IH]; intros C stack acc Hfuel Hnd Hr Hc Hk Hkr; [lia|]. cbn [descend].
  destruct stack as [|t stack].
  - exists acc. split; [done|]. rewrite app_nil_r in Hr. split; [by apply NoDup_app in Hnd as [? _]|]. intros x. split; [apply Hr|].
    intros Hx. assert (forall a b, tc R a b -> a = root \/ a ∈ acc -> b ∈ acc) as Hclosed.
    { induction 1 as [a b Hab|a b c Hab _ IH']; intros Ha.
      - specialize (Hc a b Ha Hab). by rewrite app_nil_r in Hc.
      - apply IH'. right. specialize (Hc a b Ha Hab). by rewrite app_nil_r in Hc. }
    apply (Hclosed root x Hx). by left.
  - fold (kids C t). assert (Hp : all_kids C ≡ₚ kids C t ++ all_kids (delete t C)) by apply all_kids_delete.
    apply IH.
    + rewrite Hp, length_app in Hfuel. simpl in Hfuel. rewrite length_app. lia.
    + rewrite Hp in Hnd. assert ((acc ++ [t]) ++ (kids C t ++ stack) ++ all_kids (delete t C) ≡ₚ
        acc ++ (t :: stack) ++ kids C t ++ all_kids (delete t C)) as ->; [|done].
      rewrite <- !app_assoc. apply Permutation_app_head. simpl. constructor. rewrite !app_assoc.
      apply Permutation_app_tail, Permutation_app_comm.
    + intros x Hx. rewrite <- app_assoc in Hx. apply elem_of_app in Hx as [Hx|[->|[Hx|Hx]%elem_of_app]%elem_of_cons].
      * apply Hr, elem_of_app. by left.
      * apply Hr, elem_of_app. right. left.
      * eapply tc_r; [apply (Hr t), elem_of_app; right; left|by apply Hkr].
      * apply Hr, elem_of_app. right. by right.
    + intros x y Hx Hxy. assert (forall z, z ∈ acc ++ t :: stack -> z ∈ (acc ++ [t]) ++ kids C t ++ stack) as Hin.
      { intros z. rewrite !elem_of_app, elem_of_cons, list_elem_of_singleton. tauto. }
      destruct (decide (x = root)) as [Hroot|Hroot]; [apply Hin, (Hc x y); [by left|done]|].
      destruct (decide (x ∈ acc)) as [Ha|Ha]; [apply Hin, (Hc x y); [by right|done]|].
      destruct Hx as [|Hx]; [done|]. apply elem_of_app in Hx as [|Hx%list_elem_of_singleton]; [done|]. subst x.
      rewrite !elem_of_app. right. left. by apply Hk.
    + intros x y Hx Hacc Hxy. rewrite not_elem_of_app, list_elem_of_singleton in Hacc. destruct Hacc as [Hacc Hne].
      unfold kids. rewrite lookup_delete_ne by done. by apply Hk.
    + intros x y. unfold kids. destruct (decide (x = t)) as [->|Hne].
      * rewrite lookup_delete_eq. by intros ?%elem_of_nil.
      * rewrite lookup_delete_ne by done. apply Hkr.
Qed.

Lemma descendants_found (w : Threads) (s : AgentRegistry) (root_thread_id : ThreadId) :
  NoDup (list_thread_ids w) ->
  exists l, live_thread_spawn_descendants w s root_thread_id = Some l /\ NoDup l /\
    forall x, x ∈ l <-> tc (spawned w) root_thread_id x.
Proof.
  intros Hnd. unfold live_thread_spawn_descendants. set (C := live_thread_spawn_children w s).
  pose proof (children_all w s) as Hall. fold C in Hall.
  assert (NoDup (spawned_ids w (list_thread_ids w)) /\ (length (spawned_ids w (list_thread_ids w)) <= length (list_thread_ids w))%nat)
    as [Hn Hl].
  { split; [|apply filter_length_le]. by apply NoDup_bool_filter. }
  fold (kids C root_thread_id). pose proof (all_kids_delete C root_thread_id) as Hp.
  apply (descend_spec (spawned w)).
  - rewrite <- length_app, <- Hp, Hall. lia.
  - simpl. by rewrite <- Hp, Hall.
  - intros x Hx. apply tc_once. by apply (children_kids w s).
  - intros x y [->|Hx] Hxy; [by apply (children_kids w s)|by apply elem_of_nil in Hx].
  - intros x y Hne _ Hxy. unfold kids. rewrite lookup_delete_ne by done. by apply (children_kids w s).
  - intros x y. unfold kids. destruct (decide (x = root_thread_id)) as [->|Hne].
    + rewrite lookup_delete_eq. by intros ?%elem_of_nil.
    + rewrite lookup_delete_ne by done. by intros ?%(children_kids w s).
Qed.

(** ** Shutting a tree down *)

Section Shutdown.
Context (iter_perm : forall m, iter m ≡ₚ map_to_list m).

Lemma release_tree s ts id k m : sound s ts ->
  agent_tree (release_spawned_thread id s) !! k = Some m <-> agent_tree s !! k = Some m /\ agent_id m <> Some id.
Proof.
  intros Hs. unfold release_spawned_thread, remove_agent. destruct (find_agent iter id s) as [[k0 m0]|] eqn:E.
  - apply (find_agent_Some iter iter_perm) in E as [Hk Hid]. rewrite Hk.
    assert (agent_tree (with_tree s (delete k0 (agent_tree s))) !! k = Some m <->
      agent_tree s !! k = Some m /\ agent_id m <> Some id) as Hd.
    { simpl. rewrite lookup_delete_Some. split; intros [H1 H2].
      - split; [done|]. intros Hm. apply H1. by apply (sound_ids _ _ Hs k0 k m0 m id).
      - split; [|done]. intros <-. rewrite Hk in H1. by injection H1 as ->. }
    by destruct (negb (is_root_agent m0)).
  - apply (find_agent_None iter iter_perm) in E. split; [|by intros [? _]]. intros Hk. split; [done|]. by apply (E _ _ Hk).
Qed.

Lemma release_sound_run s ts id : sound s ts -> sound (release_spawned_thread id s) ts.
Proof.
  intros Hs. apply (sound_idle s (Removing id)) in Hs; [|done..].
  pose proof (step_sound iter iter_perm (mkConf s (Removing id :: ts)) 0 (Removing id) Go ts Hs eq_refl I) as H1.
  simpl in H1. unfold release_spawned_thread. destruct (remove_agent iter id s) as [[] s1]; simpl in H1.
  - pose proof (step_sound iter iter_perm (mkConf s1 (Releasing :: ts)) 0 Releasing Go ts H1 eq_refl I) as H2.
    simpl in H2. by apply sound_idle in H2.
  - by apply sound_idle in H1.
Qed.

(** Everything that is asked for is answered, or refused because the agent is
    gone. *)
Definition no_other_error (o : Outcomes) (id : ThreadId) : Prop :=
  flush_rollout o id = Ok tt /\ forall e, send_shutdown o id <> Err (OtherError e).

Lemma shutdown_releases w o id s : flush_rollout o id = Ok tt ->
  (shutdown_live_agent w o id s).2 = release_spawned_thread id s.
Proof. intros Hf. unfold shutdown_live_agent. rewrite Hf. by destruct (get_thread w id). Qed.

Lemma shutdown_no_other w o id s e : no_other_error o id -> (shutdown_live_agent w o id s).1 <> Err (OtherError e).
Proof.
  intros [Hf Hs]. unfold shutdown_live_agent. rewrite Hf. destruct (get_thread w id); [|apply Hs].
  simpl. destruct (is_shutdown _); [done|apply Hs].
Qed.

Lemma descendants_shut_down w o ids s ts : sound s ts -> Forall (no_other_error o) ids ->
  exists s', shutdown_descendants w o ids s = (Ok tt, s') /\ sound s' ts /\
    forall k m, agent_tree s' !! k = Some m <-> agent_tree s !! k = Some m /\ forall id, id ∈ ids -> agent_id m <> Some id.
Proof.
  intros Hs Ho. revert s Hs. induction Ho as [|id ids Hid Ho IH]; intros s Hs.
  - exists s. split; [done|]. split; [done|]. intros k m. split; [intros ?; split; [done|]; by intros ? ?%elem_of_nil|by intros [? _]].
  - cbn [shutdown_descendants]. destruct Hid as [Hf Hsend]. pose proof (shutdown_releases w o id s Hf) as Hrel.
    pose proof (fun e => shutdown_no_other w o id s e (conj Hf Hsend)) as Hno.
    destruct (shutdown_live_agent w o id s) as [r s1]. simpl in Hrel, Hno. subst s1.
    destruct (IH (release_spawned_thread id s) (release_sound_run s ts id Hs)) as (s' & E & Hs' & Htree).
    exists s'. split; [|split; [done|]].
    + destruct r as [|[| |e]]; try done. by destruct (Hno e).
    + intros k m. rewrite Htree, (release_tree s ts) by done. setoid_rewrite elem_of_cons. split.
      * intros [[Hk Hne] Hids]. split; [done|]. intros id' [->|]; auto.
      * intros [Hk Hids]. split; [split; [done|]; apply Hids; by left|]. intros id' Hin. apply Hids. by right.
Qed.
End Shutdown.
End Control.

(** For threads that are listed once each, whatever they say of their
    parents, cycles included, the search for an agent's subtree ends within one
    iteration per thread and one more; it finds the agent and exactly the
    threads that were spawned by one that it finds, each once but for the agent
    itself if it is below itself. *)
Theorem subtree_found (iter : gmap str AgentMetadata -> list (str * AgentMetadata)) (w : Threads) (s : AgentRegistry)
    (agent_id_ : ThreadId) :
  NoDup (list_thread_ids w) ->
  exists l, list_live_agent_subtree_thread_ids iter w s agent_id_ = Some (agent_id_ :: l) /\ NoDup l /\
    (forall x, x ∈ agent_id_ :: l <-> rtc (spawned w) agent_id_ x) /\
    (agent_id_ ∈ l <-> tc (spawned w) agent_id_ agent_id_).
Proof.
  intros Hnd. unfold list_live_agent_subtree_thread_ids.
  destruct (descendants_found iter w s agent_id_ Hnd) as (l & -> & Hl & Hr). exists l. split; [done|]. split; [done|].
  split; [|apply Hr]. intros x. rewrite elem_of_cons, Hr, rtc_tc. split; (intros [->|]; [by left|by right]).
Qed.

Definition sample_threads : Threads :=
  mkThreads [lit "c"; lit "b"; lit "a"]
    (fun id => if id =? lit "a" then Some None
               else if id =? lit "b" then Some (Some (mkThreadSpawn (lit "a") 1 None None None))
               else if id =? lit "c" then Some (Some (mkThreadSpawn (lit "b") 2 None None None)) else None)
    (fun _ => Running).

Lemma subtree_found_witness :
  list_live_agent_subtree_thread_ids map_to_list sample_threads registry_default (lit "a") =
    Some [lit "a"; lit "b"; lit "c"] /\
  rtc (spawned sample_threads) (lit "a") (lit "c").
Proof.
  destruct (subtree_found map_to_list sample_threads registry_default (lit "a")) as (l & E & _ & Hr & _).
  - apply (bool_decide_unpack _). by vm_compute.
  - assert (list_live_agent_subtree_thread_ids map_to_list sample_threads registry_default (lit "a") =
      Some [lit "a"; lit "b"; lit "c"]) as E' by by vm_compute.
    split; [done|]. apply Hr. rewrite E' in E. injection E as <-. right. right. left.
Defined.

(** Closing an agent, where no thread fails in a way of its own, takes the
    agent and everything that was spawned below it out of the registry, leaves
    the entries of all others as they were, and answers what the agent
    answered. *)
Theorem tree_shut_down (iter : gmap str AgentMetadata -> list (str * AgentMetadata)) (w : Threads) (o : Outcomes)
    (agent_id_ : ThreadId) (s : AgentRegistry) (ts : list task) :
  (forall m, iter m ≡ₚ map_to_list m) -> NoDup (list_thread_ids w) -> sound s ts ->
  (forall id, id = agent_id_ \/ tc (spawned w) agent_id_ id -> no_other_error o id) ->
  exists s', shutdown_agent_tree iter w o agent_id_ s = Some ((shutdown_live_agent iter w o agent_id_ s).1, s') /\
    sound s' ts /\
    forall k m, agent_tree s' !! k = Some m <->
      agent_tree s !! k = Some m /\
      forall id, id = agent_id_ \/ tc (spawned w) agent_id_ id -> agent_id m <> Some id.
Proof.
  intros Hiter Hnd Hs Ho. unfold shutdown_agent_tree.
  assert (exists l, live_thread_spawn_descendants iter w s agent_id_ = Some l /\
    forall x, x ∈ l <-> tc (spawned w) agent_id_ x) as (l & -> & Hl).
  { destruct (descendants_found iter w s agent_id_ Hnd) as (l & E & _ & Hl). by exists l. }
  simpl. pose proof (Ho agent_id_ (or_introl eq_refl)) as [Hf Hsend].
  pose proof (shutdown_releases iter w o agent_id_ s Hf) as Hrel.
  destruct (shutdown_live_agent iter w o agent_id_ s) as [r s1]. simpl in *. subst s1.
  destruct (descendants_shut_down iter Hiter w o l (release_spawned_thread iter agent_id_ s) ts) as (s' & -> & Hs' & Htree).
  { by apply release_sound_run. }
  { apply Forall_forall. intros x Hx. apply Ho. right. by apply Hl. }
  exists s'. split; [done|]. split; [done|]. intros k m. rewrite Htree, (release_tree iter Hiter s ts) by done. split.
  - intros [[Hk Hne] Hids]. split; [done|]. intros id [->|Hid]; [done|]. by apply Hids, Hl.
  - intros [Hk Hids]. split; [split; [done|]; apply Hids; by left|]. intros id Hin%Hl. apply Hids. by right.
Qed.

Lemma tree_shut_down_witness :
  let c := run map_to_list
    [RegisterRoot (lit "t0"); StartReservation (Some 2%N); StepTask 0 Go; StepTask 0 Go; StepTask 0 (ReservePath (lit "/root/a"));
     StepTask 0 (Commit worker)] in
  let w := mkThreads [lit "t1"; lit "t0"]
    (fun id => if id =? lit "t1" then Some (Some (mkThreadSpawn (lit "t0") 1 (Some (lit "/root/a")) None None)) else Some None)
    (fun _ => Running) in
  let o := mkOutcomes (fun _ => Ok tt) (fun _ => Ok (lit "done")) in
  live_agents map_to_list (registry c) = [worker] /\
  exists s', shutdown_agent_tree map_to_list w o (lit "t1") (registry c) = Some (Ok (lit "done"), s') /\
    agent_tree s' !! lit "/root/a" = None.
Proof.
  intros c w o. split; [by vm_compute|].
  destruct (tree_shut_down map_to_list w o (lit "t1") (registry c) (tasks c)) as (s' & E & _ & Ht).
  - done.
  - apply (bool_decide_unpack _). by vm_compute.
  - apply run_sound; [done|]. run_disciplined.
  - intros id _. by split.
  - exists s'. split; [exact E|]. destruct (agent_tree s' !! lit "/root/a") as [m|] eqn:Em; [|done].
    apply Ht in Em as [Hm Hne]. vm_compute in Hm. injection Hm as <-. exfalso. by apply (Hne (lit "t1")); [left|].
Defined.
