(* ===== verification/CommandOperands.v ===== *)
(** * CommandOperands: the words of a command

    The helpers of [shell-command/src/parse_command.rs]: connectors, flags with
    values, operands, and the paths and queries of the programs it knows. *)

From S2P Require Import Prelude Utf8 Paths.
Local Open Scope str_scope.



(** Is the flag, or the operand, on? *)
Definition flag_like (s : str) : bool := starts_with s (lit "-").
Definition all_digits (s : str) : bool := forallb is_ascii_digit s.

(** [--flag=value] *)
Definition long_with_value (s : str) : bool := starts_with s (lit "--") && contains_char s (ch "=").

(** ** Connectors *)

Definition is_connector (t : str) : bool := one_of t [lit "&&"; lit "||"; lit "|"; lit ";"].

Definition contains_connectors (tokens : list str) : bool := existsb is_connector tokens.

(** The loop of [split_on_connectors] *)
Fixpoint split_connectors (tokens : list str) (out : list (list str)) (cur : list str) : list (list str) :=
  match tokens with
  | [] => if is_empty cur then out else out ++ [cur]
  | t :: tokens =>
      if is_connector t then
        if is_empty cur then split_connectors tokens out cur else split_connectors tokens (out ++ [cur]) []
      else split_connectors tokens out (cur ++ [t])
  end.

Definition split_on_connectors (tokens : list str) : list (list str) := split_connectors tokens [] [].

Fixpoint trim_at_connector (tokens : list str) : list str :=
  match tokens with
  | [] => []
  | t :: tokens => if is_connector t then [] else t :: trim_at_connector tokens
  end.

(** ** Operands *)

(** The loop of [skip_flag_values] *)
Fixpoint skip_values (args : list str) (flags_with_vals : list str) (skip_next : bool) : list str :=
  match args with
  | [] => []
  | a :: rest =>
      if skip_next then skip_values rest flags_with_vals false
      else if a =? lit "--" then rest
      else if long_with_value a then skip_values rest flags_with_vals false
      else if one_of a flags_with_vals then skip_values rest flags_with_vals (negb (is_empty rest))
      else a :: skip_values rest flags_with_vals false
  end.

Definition skip_flag_values (args flags_with_vals : list str) : list str := skip_values args flags_with_vals false.

(** The loop of [positional_operands] *)
Fixpoint operands (args : list str) (flags_with_vals : list str) (after_double_dash skip_next : bool) : list str :=
  match args with
  | [] => []
  | arg :: rest =>
      if skip_next then operands rest flags_with_vals after_double_dash false
      else if after_double_dash then arg :: operands rest flags_with_vals true false
      else if arg =? lit "--" then operands rest flags_with_vals true false
      else if long_with_value arg then operands rest flags_with_vals false false
      else if one_of arg flags_with_vals then operands rest flags_with_vals false (negb (is_empty rest))
      else if flag_like arg then operands rest flags_with_vals false false
      else arg :: operands rest flags_with_vals false false
  end.

Definition positional_operands (args flags_with_vals : list str) : list str := operands args flags_with_vals false false.

Definition first_non_flag_operand (args flags_with_vals : list str) : option str :=
  head (positional_operands args flags_with_vals).

Definition single_non_flag_operand (args flags_with_vals : list str) : option str :=
  match positional_operands args flags_with_vals with
  | [first] => Some first
  | _ => None
  end.

(** The candidates that are no flags *)
Definition non_flags (args flags_with_vals : list str) : list str :=
  List.filter (fun arg => negb (flag_like arg)) (skip_flag_values args flags_with_vals).

(** ** Paths for display *)

Definition short_display_path (path : str) : str :=
  let normalized := map (fun c => if N.eqb c (ch "\") then SEP else c) path in
  let trimmed := trim_end_matches (fun c => N.eqb c SEP) normalized in
  let parts := List.filter (fun p => negb (is_empty p)
    && negb (one_of p [lit "build"; lit "dist"; lit "node_modules"; lit "src"])) (rev (split_char SEP trimmed)) in
  default trimmed (head parts).

Definition is_ascii_alphabetic (c : N) : bool := ((65 <=? c) && (c <=? 90) || (97 <=? c) && (c <=? 122))%N.

Definition is_abs_like (path : str) : bool :=
  is_absolute path
  || match path with
     | d :: c :: b :: _ =>
         is_ascii_alphabetic d && N.eqb c (ch ":") && N.eqb b (ch "\")
         || N.eqb d (ch "\") && N.eqb c (ch "\")
     | [d; c] => N.eqb d (ch "\") && N.eqb c (ch "\")
     | _ => false
     end.

Definition join_paths (base rel : str) : str :=
  if is_abs_like rel then rel else if is_empty base then rel else push base rel.

Definition is_pathish (s : str) : bool :=
  (s =? lit ".") || (s =? lit "..") || starts_with s (lit "./") || starts_with s (lit "../")
  || contains_char s SEP || contains_char s (ch "\").

(** ** sed *)

Definition is_valid_sed_n_arg (arg : option str) : bool :=
  match arg with
  | None => false
  | Some s =>
      match strip_suffix (lit "p") s with
      | None => false
      | Some core =>
          match split_char (ch ",") core with
          | [num] => negb (is_empty num) && all_digits num
          | [a; b] => negb (is_empty a) && negb (is_empty b) && all_digits a && all_digits b
          | _ => false
          end
      end
  end.

(** The first loop of [sed_read_path]; skipping two words may pass the end. *)
Fixpoint sed_script_flag (args : list str) (has_range_script : bool) (skip : bool) : bool :=
  match args with
  | [] => has_range_script
  | arg :: rest =>
      if skip then sed_script_flag rest has_range_script false
      else if one_of arg [lit "-e"; lit "--expression"] then
        sed_script_flag rest (has_range_script || is_valid_sed_n_arg (head rest)) true
      else if one_of arg [lit "-f"; lit "--file"] then sed_script_flag rest has_range_script true
      else sed_script_flag rest has_range_script false
  end.

Definition sed_read_path (args : list str) : option str :=
  let args_no_connector := trim_at_connector args in
  if negb (existsb (fun arg => arg =? lit "-n") args_no_connector) then None
  else
    let has_range_script :=
      sed_script_flag args_no_connector false false
      || existsb (fun arg => negb (flag_like arg) && is_valid_sed_n_arg (Some arg)) args_no_connector in
    if negb has_range_script then None
    else
      match non_flags args_no_connector [lit "-e"; lit "-f"; lit "--expression"; lit "--file"] with
      | [] => None
      | first :: rest => if is_valid_sed_n_arg (Some first) then head rest else Some first
      end.

(** ** awk, python, cd, fd, find *)

Definition awk_data_file_operand (args : list str) : option str :=
  if is_empty args then None
  else
    let args_no_connector := trim_at_connector args in
    let has_script_file := existsb (fun arg => one_of arg [lit "-f"; lit "--file"]) args_no_connector in
    let words := non_flags args_no_connector
      [lit "-F"; lit "-v"; lit "-f"; lit "--field-separator"; lit "--assign"; lit "--file"] in
    if has_script_file then head words else words !! 1%nat.

Definition WALKS : list str :=
  [lit "os.walk"; lit "os.listdir"; lit "os.scandir"; lit "glob.glob"; lit "glob.iglob"; lit "pathlib.Path"; lit ".rglob("].

Fixpoint walks_files (args : list str) : bool :=
  match args with
  | arg :: rest =>
      if arg =? lit "-c" then match rest with script :: _ => existsb (contains script) WALKS | [] => false end
      else walks_files rest
  | [] => false
  end.

Definition python_walks_files (args : list str) : bool := walks_files (trim_at_connector args).

Definition is_python_command (cmd : str) : bool :=
  one_of cmd [lit "python"; lit "python2"; lit "python3"]
  || starts_with cmd (lit "python2.") || starts_with cmd (lit "python3.").

(** The loop of [cd_target] *)
Fixpoint cd_operand (args : list str) (target : option str) : option str :=
  match args with
  | [] => target
  | arg :: rest =>
      if arg =? lit "--" then head rest
      else if one_of arg [lit "-L"; lit "-P"] then cd_operand rest target
      else if flag_like arg then cd_operand rest target
      else cd_operand rest (Some arg)
  end.

Definition cd_target (args : list str) : option str := if is_empty args then None else cd_operand args None.

Definition parse_fd_query_and_path (tail : list str) : option str * option str :=
  match non_flags (trim_at_connector tail)
          [lit "-t"; lit "--type"; lit "-e"; lit "--extension"; lit "-E"; lit "--exclude"; lit "--search-path"] with
  | [one] => if is_pathish one then (None, Some (short_display_path one)) else (Some one, None)
  | q :: p :: _ => (Some q, Some (short_display_path p))
  | [] => (None, None)
  end.

(** The second loop of [parse_find_query_and_path] *)
Fixpoint find_query (args : list str) : option str :=
  match args with
  | [] => None
  | a :: rest =>
      if one_of a [lit "-name"; lit "-iname"; lit "-path"; lit "-regex"] then head rest else find_query rest
  end.

Definition parse_find_query_and_path (tail : list str) : option str * option str :=
  let args_no_connector := trim_at_connector tail in
  let path := short_display_path <$>
    find (fun a => negb (flag_like a) && negb (one_of a [lit "!"; lit "("; lit ")"])) args_no_connector in
  (find_query args_no_connector, path).

(** ** grep *)

(** The loop of [parse_grep_like], with its operands and pattern; a word may be
    consumed as the value of the flag in front of it: as a pattern, or dropped. *)
Inductive grep_value : Type := NoValue | PatternValue | DroppedValue.

Fixpoint grep_words (args : list str) (value : grep_value) (after_double_dash : bool) (ops : list str) (pattern : option str)
    : list str * option str :=
  match args with
  | [] => (ops, pattern)
  | arg :: rest =>
      match value with
      | PatternValue =>
          grep_words rest NoValue after_double_dash ops (match pattern with Some p => Some p | None => Some arg end)
      | DroppedValue => grep_words rest NoValue after_double_dash ops pattern
      | NoValue =>
          if after_double_dash then grep_words rest NoValue true (ops ++ [arg]) pattern
          else if arg =? lit "--" then grep_words rest NoValue true ops pattern
          else if one_of arg [lit "-e"; lit "--regexp"; lit "-f"; lit "--file"]
          then grep_words rest PatternValue false ops pattern
          else if one_of arg [lit "-m"; lit "--max-count"; lit "-C"; lit "--context"; lit "-A"; lit "--after-context";
                              lit "-B"; lit "--before-context"]
          then grep_words rest DroppedValue false ops pattern
          else if flag_like arg then grep_words rest NoValue false ops pattern
          else grep_words rest NoValue false (ops ++ [arg]) pattern
      end
  end.

(** The query and the path *)
Definition grep_query_and_path (args : list str) : option str * option str :=
  let '(ops, pattern) := grep_words (trim_at_connector args) NoValue false [] None in
  let query := match pattern with Some p => Some p | None => head ops end in
  let path := short_display_path <$> ops !! (match pattern with Some _ => 0 | None => 1 end)%nat in
  (query, path).

(** ** Formatting helpers *)

(** The loop of [xargs_subcommand] *)
Fixpoint xargs_words (tokens : list str) (skip : bool) : option (list str) :=
  match tokens with
  | [] => None
  | token :: rest =>
      if skip then xargs_words rest false
      else if token =? lit "--" then if is_empty rest then None else Some rest
      else if negb (flag_like token) then Some tokens
      else xargs_words rest
             (one_of token [lit "-E"; lit "-e"; lit "-I"; lit "-L"; lit "-n"; lit "-P"; lit "-s"] && (byte_len token =? 2)%nat)
  end.

Definition xargs_subcommand (tokens : list str) : option (list str) :=
  match tokens with
  | token :: rest => if token =? lit "xargs" then xargs_words rest false else None
  | [] => None
  end.

Definition xargs_has_in_place_flag (tokens : list str) : bool :=
  existsb (fun token => (token =? lit "-i") || starts_with token (lit "-i") || (token =? lit "-pi")
                        || starts_with token (lit "-pi")) tokens.

Definition xargs_is_mutating_subcommand (tokens : list str) : bool :=
  match tokens with
  | [] => false
  | head :: tail =>
      if one_of head [lit "perl"; lit "ruby"] then xargs_has_in_place_flag tail
      else if head =? lit "sed" then xargs_has_in_place_flag tail || existsb (fun token => token =? lit "--in-place") tail
      else if head =? lit "rg" then existsb (fun token => token =? lit "--replace") tail
      else false
  end.

Definition is_mutating_xargs_command (tokens : list str) : bool :=
  match xargs_subcommand tokens with Some sub => xargs_is_mutating_subcommand sub | None => false end.

(** A count, perhaps with a sign *)
Definition tail_count (count : str) : bool :=
  all_digits count || starts_with count (lit "+") && all_digits (tail count).

Definition is_small_formatting_command (tokens : list str) : bool :=
  match tokens with
  | [] => false
  | cmd :: args =>
      if one_of cmd [lit "wc"; lit "tr"; lit "cut"; lit "sort"; lit "uniq"; lit "tee"; lit "column"; lit "yes"; lit "printf"]
      then true
      else if cmd =? lit "xargs" then negb (is_mutating_xargs_command tokens)
      else if cmd =? lit "awk" then bool_decide (awk_data_file_operand args = None)
      else if cmd =? lit "head" then
        match args with
        | [] => true
        | [arg] => flag_like arg
        | [flag; count] => one_of flag [lit "-n"; lit "-c"] && all_digits count
        | _ => false
        end
      else if cmd =? lit "tail" then
        match args with
        | [] => true
        | [arg] => flag_like arg
        | [flag; count] => one_of flag [lit "-n"; lit "-c"] && tail_count count
        | _ => false
        end
      else if cmd =? lit "sed" then bool_decide (sed_read_path args = None)
      else false
  end.

Definition drop_small_formatting_commands (commands : list (list str)) : list (list str) :=
  List.filter (fun tokens => negb (is_small_formatting_command tokens)) commands.
