(* ===== verification/CommandSummary.v ===== *)
(** * CommandSummary: what a command does, in a few words

    [parse_command] of [shell-command/src/parse_command.rs]: the summary of each
    segment of a command, the directory [cd] leaves the segments in, and the
    segments that are left out. *)

From S2P Require Import Prelude Utf8 Paths ShellParse CommandOperands.
Local Open Scope str_scope.

Inductive ParsedCommand : Type :=
| Read (cmd name path : str)
| ListFiles (cmd : str) (path : option str)
| Search (cmd : str) (query path : option str)
| Unknown (cmd : str).

(** [==]: a [PathBuf] is compared by its components. *)
Definition parsed_eqb (a b : ParsedCommand) : bool :=
  match a, b with
  | Read c n p, Read c' n' p' => (c =? c') && (n =? n') && path_eqb p p'
  | ListFiles c p, ListFiles c' p' => (c =? c') && bool_decide (p = p')
  | Search c q p, Search c' q' p' => (c =? c') && bool_decide (q = q') && bool_decide (p = p')
  | Unknown c, Unknown c' => c =? c'
  | _, _ => false
  end.

Definition is_unknown (pc : ParsedCommand) : bool := match pc with Unknown _ => true | _ => false end.

(** The loop of [parse_command] *)
Fixpoint collapse (parsed deduped : list ParsedCommand) : list ParsedCommand :=
  match parsed with
  | [] => deduped
  | cmd :: parsed =>
      if match last deduped with Some prev => parsed_eqb prev cmd | None => false end
      then collapse parsed deduped
      else collapse parsed (deduped ++ [cmd])
  end.

Definition extract_shell_command (command : list str) : option (str * str) :=
  match extract_bash_command command with
  | Some r => Some r
  | None => extract_powershell_command command
  end.

(** [iter().position(f)], and the list without the element *)
Fixpoint position {A} (f : A -> bool) (l : list A) : option nat :=
  match l with
  | [] => None
  | x :: l => if f x then Some 0%nat else S <$> position f l
  end.

Definition without {A} (idx : nat) (l : list A) : list A := take idx l ++ drop (S idx) l.

Section shlex.
(** The [shlex] crate *)
Context (shlex_split : str -> option (list str)) (shlex_try_join : list str -> option str).

Definition shlex_join (tokens : list str) : str :=
  default (lit "<command included NUL byte>") (shlex_try_join tokens).

(** ** A segment *)

Definition parse_grep_like (main_cmd args : list str) : ParsedCommand :=
  let '(query, path) := grep_query_and_path args in Search (shlex_join main_cmd) query path.

(** The cases' shared results *)
Definition read_of (main_cmd : list str) (path : option str) : ParsedCommand :=
  match path with
  | Some path => Read (shlex_join main_cmd) (short_display_path path) path
  | None => Unknown (shlex_join main_cmd)
  end.

Definition list_of (main_cmd : list str) (path : option str) : ParsedCommand :=
  ListFiles (shlex_join main_cmd) (short_display_path <$> path).

Definition search_or_list (main_cmd : list str) (found : option str * option str) : ParsedCommand :=
  let '(query, path) := found in
  match query with
  | Some _ => Search (shlex_join main_cmd) query path
  | None => ListFiles (shlex_join main_cmd) path
  end.

(** [head -n 50 file], [tail -n +10 file]: [count] tells a number of lines. *)
Definition has_valid_n (count : str -> bool) (tail : list str) : bool :=
  match tail with
  | first :: rest =>
      if first =? lit "-n" then match rest with n :: _ => count n | [] => false end
      else if starts_with first (lit "-n") then count (drop 2 first)
      else false
  | [] => false
  end.

Definition count_candidates (count : str -> bool) (tail : list str) : list str :=
  match tail with
  | first :: n :: rest => if (first =? lit "-n") && count n then rest else tail
  | _ => tail
  end.

Definition counted_read (count : str -> bool) (main_cmd tail : list str) : ParsedCommand :=
  let counted :=
    if has_valid_n count tail
    then find (fun p => negb (flag_like p)) (count_candidates count tail) else None in
  match counted with
  | Some path => read_of main_cmd (Some path)
  | None =>
      match tail with
      | [path] => if flag_like path then read_of main_cmd None else read_of main_cmd (Some path)
      | _ => read_of main_cmd None
      end
  end.

Definition head_count : str -> bool := all_digits.

Definition plus_count (n : str) : bool :=
  let s := default n (strip_prefix (lit "+") n) in negb (is_empty s) && all_digits s.

Definition LS_VALUES : list str :=
  [lit "-I"; lit "-w"; lit "--block-size"; lit "--format"; lit "--time-style"; lit "--color"; lit "--quoting-style"].
Definition EZA_VALUES : list str :=
  [lit "-I"; lit "--ignore-glob"; lit "--color"; lit "--sort"; lit "--time-style"; lit "--time"].
Definition TREE_VALUES : list str :=
  [lit "-L"; lit "-P"; lit "-I"; lit "--charset"; lit "--filelimit"; lit "--sort"].
Definition DU_VALUES : list str :=
  [lit "-d"; lit "--max-depth"; lit "-B"; lit "--block-size"; lit "--exclude"; lit "--time-style"].
Definition RG_VALUES : list str :=
  [lit "-g"; lit "--glob"; lit "--iglob"; lit "-t"; lit "--type"; lit "--type-add"; lit "--type-not"; lit "-m";
   lit "--max-count"; lit "-A"; lit "-B"; lit "-C"; lit "--context"; lit "--max-depth"].
Definition LS_FILES_VALUES : list str := [lit "--exclude"; lit "--exclude-from"; lit "--pathspec-from-file"].
Definition AG_VALUES : list str :=
  [lit "-G"; lit "-g"; lit "--file-search-regex"; lit "--ignore-dir"; lit "--ignore-file"; lit "--path-to-ignore"].
Definition BAT_VALUES : list str :=
  [lit "--theme"; lit "--language"; lit "--style"; lit "--terminal-width"; lit "--tabs"; lit "--line-range";
   lit "--map-syntax"].
Definition LESS_VALUES : list str :=
  [lit "-p"; lit "-P"; lit "-x"; lit "-y"; lit "-z"; lit "-j"; lit "--pattern"; lit "--prompt"; lit "--tabs";
   lit "--shift"; lit "--jump-target"].
Definition NL_VALUES : list str := [lit "-s"; lit "-w"; lit "-v"; lit "-i"; lit "-b"].

Definition summarize_rg (main_cmd tail : list str) : ParsedCommand :=
  let args_no_connector := trim_at_connector tail in
  let has_files_flag := existsb (fun a => a =? lit "--files") args_no_connector in
  let words := non_flags args_no_connector RG_VALUES in
  if has_files_flag then list_of main_cmd (head words)
  else Search (shlex_join main_cmd) (head words) (short_display_path <$> words !! 1%nat).

Definition summarize_git (main_cmd tail : list str) : ParsedCommand :=
  match tail with
  | subcmd :: sub_tail =>
      if subcmd =? lit "grep" then parse_grep_like main_cmd sub_tail
      else if subcmd =? lit "ls-files" then list_of main_cmd (first_non_flag_operand sub_tail LS_FILES_VALUES)
      else Unknown (shlex_join main_cmd)
  | [] => Unknown (shlex_join main_cmd)
  end.

Definition summarize_ag (main_cmd tail : list str) : ParsedCommand :=
  let words := non_flags (trim_at_connector tail) AG_VALUES in
  Search (shlex_join main_cmd) (head words) (short_display_path <$> words !! 1%nat).

Definition summarize_main_tokens (main_cmd : list str) : ParsedCommand :=
  match main_cmd with
  | [] => Unknown (shlex_join main_cmd)
  | head_ :: tail =>
      if head_ =? lit "ls" then list_of main_cmd (first_non_flag_operand tail LS_VALUES)
      else if one_of head_ [lit "eza"; lit "exa"] then list_of main_cmd (first_non_flag_operand tail EZA_VALUES)
      else if head_ =? lit "tree" then list_of main_cmd (first_non_flag_operand tail TREE_VALUES)
      else if head_ =? lit "du" then list_of main_cmd (first_non_flag_operand tail DU_VALUES)
      else if one_of head_ [lit "rg"; lit "rga"; lit "ripgrep-all"] then summarize_rg main_cmd tail
      else if head_ =? lit "git" then summarize_git main_cmd tail
      else if head_ =? lit "fd" then search_or_list main_cmd (parse_fd_query_and_path tail)
      else if head_ =? lit "find" then search_or_list main_cmd (parse_find_query_and_path tail)
      else if one_of head_ [lit "grep"; lit "egrep"; lit "fgrep"] then parse_grep_like main_cmd tail
      else if one_of head_ [lit "ag"; lit "ack"; lit "pt"] then summarize_ag main_cmd tail
      else if head_ =? lit "cat" then read_of main_cmd (single_non_flag_operand tail [])
      else if one_of head_ [lit "bat"; lit "batcat"] then read_of main_cmd (single_non_flag_operand tail BAT_VALUES)
      else if head_ =? lit "less" then read_of main_cmd (single_non_flag_operand tail LESS_VALUES)
      else if head_ =? lit "more" then read_of main_cmd (single_non_flag_operand tail [])
      else if head_ =? lit "head" then counted_read head_count main_cmd tail
      else if head_ =? lit "tail" then counted_read plus_count main_cmd tail
      else if head_ =? lit "awk" then read_of main_cmd (awk_data_file_operand tail)
      else if head_ =? lit "nl" then
        read_of main_cmd (find (fun p => negb (flag_like p)) (skip_flag_values tail NL_VALUES))
      else if head_ =? lit "sed" then read_of main_cmd (sed_read_path tail)
      else if is_python_command head_ then
        if python_walks_files tail then ListFiles (shlex_join main_cmd) None else Unknown (shlex_join main_cmd)
      else Unknown (shlex_join main_cmd)
  end.

(** ** The segments, in the directory [cd] left *)

Definition in_directory (cwd : option str) (parsed : ParsedCommand) : ParsedCommand :=
  match parsed, cwd with
  | Read cmd name path, Some base => Read cmd name (join_paths base path)
  | _, _ => parsed
  end.

Definition enter (cwd : option str) (dir : str) : str :=
  match cwd with Some base => join_paths base dir | None => dir end.

Fixpoint summarize_parts (parts : list (list str)) (cwd : option str) : list ParsedCommand :=
  match parts with
  | [] => []
  | tokens :: parts =>
      match tokens with
      | head_ :: tail =>
          if head_ =? lit "cd" then
            summarize_parts parts (match cd_target tail with Some dir => Some (enter cwd dir) | None => cwd end)
          else in_directory cwd (summarize_main_tokens tokens) :: summarize_parts parts cwd
      | [] => in_directory cwd (summarize_main_tokens tokens) :: summarize_parts parts cwd
      end
  end.

(** ** Segments that are left out *)

Definition first_word_is (word : str) (pc : ParsedCommand) : bool :=
  match pc with
  | Unknown cmd => match shlex_split cmd with Some (t :: _) => t =? word | _ => false end
  | _ => false
  end.

Definition is_true_command (pc : ParsedCommand) : bool :=
  match pc with Unknown cmd => cmd =? lit "true" | _ => false end.

Definition is_nl_filter (pc : ParsedCommand) : bool :=
  match pc with
  | Unknown cmd =>
      match shlex_split cmd with Some (t :: tokens) => (t =? lit "nl") && forallb flag_like tokens | _ => false end
  | _ => false
  end.

Definition simplify_once (commands : list ParsedCommand) : option (list ParsedCommand) :=
  if (length commands <=? 1)%nat then None
  else if match commands with first :: _ => first_word_is (lit "echo") first | [] => false end
  then Some (tail commands)
  else
    let others :=
      match position is_true_command commands with
      | Some idx => Some (without idx commands)
      | None => (fun idx => without idx commands) <$> position is_nl_filter commands
      end in
    match position (first_word_is (lit "cd")) commands with
    | Some idx => if (idx + 1 <? length commands)%nat then Some (without idx commands) else others
    | None => others
    end.

(** [while let Some(next) = simplify_once(&commands)]: a step drops one command. *)
Fixpoint simplify (fuel : nat) (commands : list ParsedCommand) : option (list ParsedCommand) :=
  match fuel with
  | O => None
  | S fuel =>
      match simplify_once commands with
      | Some next => simplify fuel next
      | None => Some commands
      end
  end.

Definition simplify_all (commands : list ParsedCommand) : option (list ParsedCommand) :=
  simplify (S (length commands)) commands.

(** ** Scripts *)

Section scripts.
Context (try_parse_shell : str -> option Tree).

Fixpoint has_sed_n (script_tokens : list str) : bool :=
  match script_tokens with
  | a :: ((b :: _) as rest) => (a =? lit "sed") && (b =? lit "-n") || has_sed_n rest
  | _ => false
  end.

(** A single summary is shown with the script's words when they are one command. *)
Definition attribute (script : str) (script_tokens : list str) (had_connectors : bool) (pc : ParsedCommand) : ParsedCommand :=
  match pc with
  | Read cmd name path =>
      if had_connectors then
        if existsb (fun t => t =? lit "|") script_tokens && has_sed_n script_tokens
        then Read script name path else Read cmd name path
      else Read (shlex_join script_tokens) name path
  | ListFiles cmd path =>
      if had_connectors then ListFiles cmd path else ListFiles (shlex_join script_tokens) path
  | Search cmd query path =>
      if had_connectors then Search cmd query path else Search (shlex_join script_tokens) query path
  | Unknown cmd => Unknown cmd
  end.

Definition summarize_script (script : str) (all_commands : list (list str)) : option (list ParsedCommand) :=
  let script_tokens := default [script] (shlex_split script) in
  let had_multiple_commands := (1 <? length all_commands)%nat in
  let filtered_commands := drop_small_formatting_commands all_commands in
  if is_empty filtered_commands then Some [Unknown script]
  else
    let commands := summarize_parts filtered_commands None in
    commands ←
      (if (1 <? length commands)%nat
       then simplify_all (List.filter (fun pc => negb (is_true_command pc)) commands)
       else Some commands);
    Some (if (length commands =? 1)%nat
          then map (attribute script script_tokens (had_multiple_commands || contains_connectors script_tokens)) commands
          else commands).

(** The outer [None] is a loop out of fuel, which does not happen. *)
Definition parse_shell_lc_commands (original : list str) : option (option (list ParsedCommand)) :=
  match extract_bash_command original with
  | None => Some None
  | Some (_, script) =>
      match try_parse_shell script with
      | None => Some (Some [Unknown script])
      | Some tree =>
          all_commands ← try_parse_word_only_commands_sequence tree;
          match all_commands with
          | None | Some [] => Some (Some [Unknown script])
          | Some all_commands => Some <$> summarize_script script all_commands
          end
      end
  end.

(** ** The command *)

Definition normalize_tokens (cmd : list str) : list str :=
  match cmd with
  | first :: second :: rest =>
      if one_of first [lit "yes"; lit "y"] && (second =? lit "|") then rest
      else if one_of first [lit "no"; lit "n"] && (second =? lit "|") then rest
      else
        match rest with
        | [script] =>
            if one_of first [lit "bash"; lit "zsh"] && one_of second [lit "-c"; lit "-lc"]
            then default [first; second; script] (shlex_split script) else cmd
        | _ => cmd
        end
  | _ => cmd
  end.

Definition parts_of (command : list str) : list (list str) :=
  let normalized := normalize_tokens command in
  if contains_connectors normalized then split_on_connectors normalized else [normalized].

Definition parse_command_impl (command : list str) : option (list ParsedCommand) :=
  shell ← parse_shell_lc_commands command;
  match shell with
  | Some commands => Some commands
  | None =>
      match extract_powershell_command command with
      | Some (_, script) => Some [Unknown script]
      | None => simplify_all (summarize_parts (parts_of command) None)
      end
  end.

Definition single_unknown_for_command (command : list str) : ParsedCommand :=
  match extract_shell_command command with
  | Some (_, shell_command) => Unknown shell_command
  | None => Unknown (shlex_join command)
  end.

Definition parse_command (command : list str) : option (list ParsedCommand) :=
  parsed ← parse_command_impl command;
  let deduped := collapse parsed [] in
  Some (if existsb is_unknown deduped then [single_unknown_for_command command] else deduped).
End scripts.
End shlex.

(** ** What the summaries leave out *)

(** A summary without the text that is only shown *)
Definition untext (pc : ParsedCommand) : ParsedCommand :=
  match pc with
  | Read _ name path => Read [] name path
  | ListFiles _ path => ListFiles [] path
  | Search _ query path => Search [] query path
  | Unknown _ => Unknown []
  end.

Lemma is_unknown_untext pc : is_unknown (untext pc) = is_unknown pc.
Proof. by destruct pc. Qed.

Lemma parsed_eqb_refl pc : parsed_eqb pc pc = true.
Proof. destruct pc; simpl; by rewrite ?bool_decide_true, ?path_eqb_refl. Qed.

Lemma parsed_eqb_untext a b : parsed_eqb a b = true -> parsed_eqb (untext a) (untext b) = true.
Proof. destruct a, b; simpl; try done; rewrite ?andb_true_iff; intros; destruct_and?; auto. Qed.

Lemma existsb_unknown l : existsb is_unknown l = true <-> exists pc, pc ∈ l /\ is_unknown pc = true.
Proof. rewrite existsb_exists. by setoid_rewrite <- list_elem_of_In. Qed.

(** *** Lists without some of their elements *)

(** [kept] is [l] without some elements that [P] lets go. *)
Inductive keeps {A} (P : A -> Prop) : list A -> list A -> Prop :=
| keeps_nil : keeps P [] []
| keeps_skip x l kept : P x -> keeps P l kept -> keeps P (x :: l) kept
| keeps_cons x l kept : keeps P l kept -> keeps P (x :: l) (x :: kept).
#[local] Hint Constructors keeps : core.

Lemma keeps_refl {A} (P : A -> Prop) l : keeps P l l.
Proof. induction l; auto. Qed.

Lemma keeps_mono {A} (P Q : A -> Prop) l kept : (forall x, x ∈ l -> P x -> Q x) -> keeps P l kept -> keeps Q l kept.
Proof. intros HPQ H. induction H; constructor; try apply IHkeeps; try apply HPQ; set_solver. Qed.

Lemma keeps_sublist {A} (P : A -> Prop) l kept : keeps P l kept -> kept `sublist_of` l.
Proof. induction 1; by constructor. Qed.

Lemma keeps_trans {A} (P : A -> Prop) l m n : keeps P l m -> keeps P m n -> keeps P l n.
Proof.
  intros H. revert n. induction H as [|x l kept Hx H IH|x l kept H IH]; intros n Hn; auto.
  inversion Hn; subst; auto.
Qed.

Lemma keeps_filter {A} (f : A -> bool) l : keeps (fun x => f x = false) l (List.filter f l).
Proof. induction l as [|x l IH]; simpl; [done|]. destruct (f x) eqn:E; auto. Qed.

Lemma keeps_without {A} (P : A -> Prop) i l x : l !! i = Some x -> P x -> keeps P l (without i l).
Proof.
  unfold without. revert i. induction l as [|y l IH]; intros [|i]; simpl; try done.
  - intros [= ->]. rewrite drop_0. auto using keeps_refl.
  - auto.
Qed.

(** What is dropped from the images is dropped from the list. *)
Lemma keeps_fmap {A B} (f : A -> B) (P : B -> Prop) l kept :
  keeps P (f <$> l) kept -> exists kept', keeps (fun x => P (f x)) l kept' /\ kept = f <$> kept'.
Proof.
  remember (f <$> l) as m eqn:Em. intros H. revert l Em. induction H as [|y m kept Hy H IH|y m kept H IH]; intros [|x l] [=]; subst.
  - by exists [].
  - destruct (IH l eq_refl) as (kept' & Hk & ->). exists kept'. auto.
  - destruct (IH l eq_refl) as (kept' & Hk & ->). exists (x :: kept'). auto.
Qed.

(** *** [collapse] *)

Definition no_repeats (l : list ParsedCommand) : Prop :=
  forall i a b, l !! i = Some a -> l !! S i = Some b -> parsed_eqb a b = false.

Lemma collapse_no_repeats parsed deduped : no_repeats deduped -> no_repeats (collapse parsed deduped).
Proof.
  revert deduped. induction parsed as [|cmd parsed IH]; intros deduped Hn; simpl; [done|].
  destruct (last deduped) as [prev|] eqn:El.
  - destruct (parsed_eqb prev cmd) eqn:Ee; apply IH; [done|].
    intros i a b Ha Hb. rewrite last_lookup in El.
    apply lookup_app_Some in Hb as [Hb|[Hl Hb]].
    + apply (Hn i); [|done]. rewrite lookup_app_l in Ha; [done|].
      apply lookup_lt_Some in Hb. lia.
    + apply list_lookup_singleton_Some in Hb as [Hi <-].
      replace (pred (length deduped)) with i in El by lia.
      rewrite lookup_app_l in Ha; [congruence|]. apply lookup_lt_Some in El. lia.
  - apply IH. apply last_None in El as ->. intros i a b Ha Hb. by destruct i.
Qed.

(** [pc] stands for a run of summaries equal to it. *)
Definition run_of (pc : ParsedCommand) (run : list ParsedCommand) : Prop :=
  run <> [] /\ Forall (fun p => parsed_eqb pc p = true) run.

Lemma collapse_runs parsed deduped runs :
  Forall2 run_of deduped runs ->
  exists runs', concat runs' = concat runs ++ parsed /\ Forall2 run_of (collapse parsed deduped) runs'.
Proof.
  revert deduped runs. induction parsed as [|cmd parsed IH]; intros deduped runs Hr; simpl.
  { exists runs. by rewrite app_nil_r. }
  assert (exists runs', concat runs' = concat (runs ++ [[cmd]]) ++ parsed
          /\ Forall2 run_of (collapse parsed (deduped ++ [cmd])) runs') as Hnew.
  { apply IH, Forall2_app; [done|]. constructor; [|done]. split; [done|]. auto using parsed_eqb_refl. }
  rewrite concat_app in Hnew. simpl in Hnew. rewrite <- app_assoc in Hnew.
  destruct deduped as [|prev deduped _] using rev_ind; [done|]. rewrite last_snoc.
  destruct (parsed_eqb prev cmd) eqn:Ee; [|done].
  apply Forall2_app_inv_l in Hr as (runs1 & r2 & H1 & H2 & ->).
  inversion H2 as [|? run ? rest [Hne Hrun] Hnil]; subst. inversion Hnil; subst.
  destruct (IH (deduped ++ [prev]) (runs1 ++ [run ++ [cmd]])) as (runs' & Hc & Hf).
  { apply Forall2_app; [done|]. constructor; [|done]. split; [by destruct run|]. apply Forall_app. auto. }
  exists runs'. split; [|done]. rewrite Hc, !concat_app. simpl. by rewrite !app_nil_r, <- !app_assoc.
Qed.

Lemma collapse_length parsed deduped : (length (collapse parsed deduped) <= length deduped + length parsed)%nat.
Proof.
  revert deduped. induction parsed as [|cmd parsed IH]; intros deduped; simpl; [lia|].
  repeat case_match; (etrans; [apply IH|]); rewrite ?length_app; simpl; lia.
Qed.

(** *** [simplify_once] *)

Lemma position_Some {A} (f : A -> bool) l i :
  position f l = Some i -> exists x, l !! i = Some x /\ f x = true.
Proof.
  revert i. induction l as [|y l IH]; intros i; simpl; [done|].
  destruct (f y) eqn:Ef; [intros [= <-]; by exists y|].
  intros (j & Hj & ->)%fmap_Some. by apply IH.
Qed.

Lemma length_without {A} i (l : list A) : (i < length l)%nat -> length (without i l) = pred (length l).
Proof. intros Hi. unfold without. rewrite length_app, length_take, length_drop. lia. Qed.

Section left_out.
Context (shlex_split : str -> option (list str)) (shlex_try_join : list str -> option str).
Notation simplify_once := (simplify_once shlex_split).
Notation simplify := (simplify shlex_split).
Notation summarize_main_tokens := (summarize_main_tokens shlex_try_join).
Notation summarize_parts := (summarize_parts shlex_try_join).
Notation shlex_join := (shlex_join shlex_try_join).

(** The summaries [simplify_once] may drop *)
Definition droppable (pc : ParsedCommand) : bool :=
  first_word_is shlex_split (lit "echo") pc || first_word_is shlex_split (lit "cd") pc
  || is_true_command pc || is_nl_filter shlex_split pc.

Lemma simplify_once_drops commands next :
  simplify_once commands = Some next ->
  exists i pc, commands !! i = Some pc /\ droppable pc = true /\ next = without i commands.
Proof.
  unfold CommandSummary.simplify_once. destruct (length commands <=? 1)%nat; [done|].
  assert (forall f idx, position f commands = Some idx -> (forall pc, f pc = true -> droppable pc = true) ->
          exists pc, commands !! idx = Some pc /\ droppable pc = true) as Hf.
  { intros f idx (pc & Hl & Hp)%position_Some Hd. exists pc. auto. }
  destruct (match commands with first :: _ => first_word_is shlex_split (lit "echo") first | [] => false end) eqn:Ee.
  { intros [= <-]. destruct commands as [|pc commands]; [done|]. exists 0%nat, pc.
    split_and!; [done| |by unfold without; simpl; rewrite drop_0]. unfold droppable. by rewrite Ee. }
  intros H. assert (exists f idx, position f commands = Some idx /\ next = without idx commands
                    /\ forall pc, f pc = true -> droppable pc = true) as (f & idx & Hp & -> & Hd).
  { destruct (position (first_word_is shlex_split (lit "cd")) commands) as [c|] eqn:Ec;
      [destruct (c + 1 <? length commands)%nat; [injection H as <-; eexists _, c; split_and!; [exact Ec|done|]|]|].
    { intros pc Hp. unfold droppable. by rewrite Hp, !orb_true_r. }
    all: destruct (position is_true_command commands) as [t|] eqn:Et;
      [injection H as <-; eexists _, t; split_and!; [exact Et|done|]
      |apply fmap_Some in H as (t' & Ht' & ->); eexists _, t'; split_and!; [exact Ht'|done|]];
      intros pc Hp; unfold droppable; by rewrite Hp, !orb_true_r. }
  destruct (Hf f idx Hp Hd) as (pc & Hl & Hpc). by exists idx, pc.
Qed.

(** Every step drops one command, so the loop ends. *)
Lemma simplify_spec fuel commands :
  (length commands < fuel)%nat ->
  exists kept, simplify fuel commands = Some kept /\ simplify_once kept = None
  /\ keeps (fun pc => droppable pc = true) commands kept.
Proof.
  revert commands. induction fuel as [|fuel IH]; intros commands Hl; [lia|]. cbn [CommandSummary.simplify].
  destruct (simplify_once commands) as [next|] eqn:E; [|exists commands; auto using keeps_refl].
  apply simplify_once_drops in E as (i & pc & Hi & Hd & ->).
  pose proof (lookup_lt_Some _ _ _ Hi). destruct (IH (without i commands)) as (kept & Hs & Hn & Hk).
  { rewrite length_without by done. lia. }
  exists kept. split_and!; [done|done|]. eapply keeps_trans; [by eapply keeps_without|done].
Qed.

Lemma simplify_all_spec commands :
  exists kept, simplify_all shlex_split commands = Some kept /\ keeps (fun pc => droppable pc = true) commands kept.
Proof. destruct (simplify_spec (S (length commands)) commands) as (kept & ? & _ & ?); [lia|eauto]. Qed.

(** *** Segments *)

Lemma droppable_unknown pc : droppable pc = true -> is_unknown pc = true.
Proof. by destruct pc. Qed.

Lemma droppable_in_directory cwd pc : droppable (in_directory cwd pc) = droppable pc.
Proof. by destruct pc, cwd. Qed.

Lemma is_unknown_in_directory cwd pc : is_unknown (in_directory cwd pc) = is_unknown pc.
Proof. by destruct pc, cwd. Qed.

Lemma summarize_unknown words cmd : summarize_main_tokens words = Unknown cmd -> cmd = shlex_join words.
Proof.
  destruct words as [|head_ tail]; [by intros [= <-]|]. unfold CommandSummary.summarize_main_tokens.
  assert (forall m p, read_of shlex_try_join m p = Unknown cmd -> cmd = shlex_join m) as Hr.
  { intros m [p|]; simpl; congruence. }
  assert (forall m f, search_or_list shlex_try_join m f = Unknown cmd -> cmd = shlex_join m) as Hs.
  { intros m [[q|] p]; simpl; congruence. }
  unfold summarize_rg, summarize_git, summarize_ag, parse_grep_like, counted_read, list_of.
  repeat case_match; try congruence; eauto.
Qed.

Definition is_cd (words : list str) : bool := match words with h :: _ => h =? lit "cd" | [] => false end.

(** The directory after a segment, if it was [cwd] before it: [None] is the one
    the command starts in. *)
Definition moved (cwd : option str) (words : list str) : option str :=
  if is_cd words then
    match cd_target (tail words) with Some dir => Some (enter cwd dir) | None => cwd end
  else cwd.

(** Each segment with its summary in the directory it runs in *)
Fixpoint placed (cwd : option str) (segs : list (list str)) : list (list str * ParsedCommand) :=
  match segs with
  | [] => []
  | words :: segs => (words, in_directory cwd (summarize_main_tokens words)) :: placed (moved cwd words) segs
  end.

Lemma placed_In x cwd segs :
  x ∈ placed cwd segs -> x.1 ∈ segs /\ exists dir, x.2 = in_directory dir (summarize_main_tokens x.1).
Proof.
  revert cwd. induction segs as [|words segs IH]; intros cwd; simpl; [by intros []%not_elem_of_nil|].
  intros [-> |(Hin & dir & E)%IH]%elem_of_cons; rewrite elem_of_cons; eauto.
Qed.

Lemma summarize_parts_placed parts cwd :
  exists kept, keeps (fun x => is_cd x.1 = true) (placed cwd parts) kept /\ summarize_parts parts cwd = kept.*2.
Proof.
  revert cwd. induction parts as [|words parts IH]; intros cwd; [exists []; split; [constructor|done]|].
  cbn [placed]. unfold moved, is_cd. destruct words as [|h t]; cbn [CommandSummary.summarize_parts tail].
  - destruct (IH cwd) as (kept & Hk & ->). exists (([], in_directory cwd (summarize_main_tokens [])) :: kept).
    split; [by constructor|done].
  - destruct (h =? lit "cd") eqn:Eh.
    + edestruct IH as (kept & Hk & ->). exists kept. split; [by constructor|done].
    + destruct (IH cwd) as (kept & Hk & ->). exists ((h :: t, in_directory cwd (summarize_main_tokens (h :: t))) :: kept).
      split; [by constructor|done].
Qed.

(** What is left out moves the others when it is a [cd] only. *)
Lemma placed_filter f segs cwd :
  (forall words, f words = false -> is_cd words = false) ->
  placed cwd (List.filter f segs) = List.filter (fun x => f x.1) (placed cwd segs).
Proof.
  intros Hf. revert cwd. induction segs as [|words segs IH]; intros cwd; [done|]. cbn [List.filter placed fst].
  destruct (f words) eqn:E; cbn [placed]; [by rewrite IH|]. rewrite IH. unfold moved. by rewrite (Hf words E).
Qed.

(** [echo …], [true] and [nl -flags] *)
Definition is_quiet (words : list str) : bool :=
  match words with
  | h :: t => (h =? lit "echo") || (h =? lit "nl") && forallb flag_like t
  | [] => false
  end || (shlex_join words =? lit "true").

(** [shlex_split] gives back the words [shlex_join] joined. *)
Definition shlex_inverts (words : list str) : Prop := shlex_split (shlex_join words) = Some words.

Lemma droppable_words words :
  shlex_inverts words -> droppable (summarize_main_tokens words) = true -> is_cd words || is_quiet words = true.
Proof.
  intros Hs Hd. pose proof (droppable_unknown _ Hd) as Hu.
  destruct (summarize_main_tokens words) as [| | |cmd] eqn:E; try done.
  apply summarize_unknown in E as ->. unfold droppable in Hd. simpl in Hd. rewrite Hs in Hd.
  unfold is_cd, is_quiet. destruct words as [|h t]; rewrite ?orb_true_iff in Hd |- *; naive_solver.
Qed.

(** *** Lists of segments *)

(** A segment no summary need show *)
Definition unshown (words : list str) : Prop := shlex_inverts words -> is_cd words || is_quiet words = true.

(** [out] shows [kept]; a single summary may have another text. *)
Definition shows (out : list ParsedCommand) (kept : list (list str * ParsedCommand)) : Prop :=
  untext <$> out = (fun x => untext x.2) <$> kept /\ ((1 < length out)%nat -> out = kept.*2).

Definition summary_of (parts : list (list str)) (out : list ParsedCommand) : Prop :=
  exists kept, keeps (fun x => unshown x.1) (placed None parts) kept /\ shows out kept.

Lemma shows_snd kept : shows kept.*2 kept.
Proof. split; [|done]. by rewrite <- list_fmap_compose. Qed.

Lemma droppable_summary parts out :
  keeps (fun pc => droppable pc = true) (summarize_parts parts None) out ->
  exists kept, keeps (fun x => unshown x.1) (placed None parts) kept /\ out = kept.*2.
Proof.
  destruct (summarize_parts_placed parts None) as (kept & Hk & ->). intros Hd.
  apply keeps_fmap in Hd as (kept' & Hk' & ->). exists kept'. split; [|done].
  eapply keeps_trans; [eapply keeps_mono; [|done]|eapply keeps_mono; [|done]]; intros x Hx Hp Hi; cbn in Hp.
  - by rewrite Hp.
  - pose proof (elem_of_sublist _ _ _ Hx (keeps_sublist _ _ _ Hk)) as (_ & dir & E)%placed_In.
    rewrite E, droppable_in_directory in Hp. by apply droppable_words.
Qed.

Lemma simplify_all_summary parts :
  exists out, simplify_all shlex_split (summarize_parts parts None) = Some out /\ summary_of parts out.
Proof.
  destruct (simplify_all_spec (summarize_parts parts None)) as (out & Ho & Hk). exists out. split; [done|].
  apply droppable_summary in Hk as (kept & Hk & ->). exists kept. auto using shows_snd.
Qed.

Lemma untext_attribute script tokens had pc : untext (attribute shlex_try_join script tokens had pc) = untext pc.
Proof. destruct pc, had; simpl; try done. by case_match. Qed.

Lemma summarize_script_summary script cmds :
  exists out, summarize_script shlex_split shlex_try_join script cmds = Some out
  /\ (drop_small_formatting_commands cmds = [] /\ out = [Unknown script]
      \/ summary_of (drop_small_formatting_commands cmds) out).
Proof.
  unfold summarize_script. destruct (drop_small_formatting_commands cmds) as [|p ps] eqn:Ed; [eauto|].
  cbn [is_empty]. set (parts := p :: ps). set (commands := summarize_parts parts None).
  assert (exists out, (if (1 <? length commands)%nat
            then simplify_all shlex_split (List.filter (fun pc => negb (is_true_command pc)) commands)
            else Some commands) = Some out /\ keeps (fun pc => droppable pc = true) commands out) as (out & -> & Hout).
  { destruct (1 <? length commands)%nat; [|eauto using keeps_refl].
    edestruct simplify_all_spec as (out & -> & Hk). exists out. split; [done|].
    eapply keeps_trans; [|done]. eapply keeps_mono; [|apply keeps_filter].
    intros pc _ Ht%negb_false_iff. unfold droppable. by rewrite Ht, !orb_true_r. }
  apply droppable_summary in Hout as (kept & Hk & ->).
  cbn. eexists. split; [done|]. right. exists kept. split; [done|].
  case_match eqn:E; [|apply shows_snd]. apply Nat.eqb_eq in E. split.
  - change (map ?f ?l) with (f <$> l). rewrite <- !list_fmap_compose. apply list_fmap_ext.
    intros i x _. apply untext_attribute.
  - rewrite length_map, E. lia.
Qed.

(** A shown summary, and the run of segments it stands for *)
Definition stands_for (several : bool) (pc : ParsedCommand) (run : list (list str * ParsedCommand)) : Prop :=
  run <> [] /\ Forall (fun x => parsed_eqb (untext pc) (untext x.2) = true
                                /\ (several = true -> parsed_eqb pc x.2 = true)) run.

Lemma shows_runs out kept :
  shows out kept ->
  exists runs, kept = concat runs
  /\ Forall2 (stands_for (1 <? length (collapse out []))%nat) (collapse out []) runs.
Proof.
  intros [Hu He]. destruct (collapse_runs out [] []) as (runs & Hc & Hr); [done|]. simpl in Hc. subst out.
  set (d := collapse (concat runs) []) in *.
  assert (length d <= length (concat runs))%nat as Hlen by apply collapse_length.
  destruct (decide (1 < length d)%nat) as [Hl|Hl].
  - specialize (He ltac:(lia)). rewrite (proj2 (Nat.ltb_lt _ _) Hl). clear Hu Hlen. clearbody d. clear Hl.
    revert kept He. induction Hr as [|pc run d runs [Hne Hrun] Hr IH]; intros kept He; simpl in He.
    { exists []. by destruct kept. }
    symmetry in He. apply fmap_app_inv in He as (k1 & k2 & E1 & E2 & ->). destruct (IH k2 E2) as (kr & -> & Hf).
    exists (k1 :: kr). split; [done|]. constructor; [|done]. subst run. split; [by intros ->|].
    rewrite Forall_fmap in Hrun. eapply Forall_impl; [done|]. intros x Hx. auto using parsed_eqb_untext.
  - assert ((1 <? length d)%nat = false) as -> by (apply Nat.ltb_ge; lia). clear He Hlen. clearbody d. clear Hl.
    revert kept Hu. induction Hr as [|pc run d runs [Hne Hrun] Hr IH]; intros kept Hu; simpl in Hu.
    { exists []. by destruct kept. }
    rewrite fmap_app in Hu. symmetry in Hu. apply fmap_app_inv in Hu as (k1 & k2 & E1 & E2 & ->).
    destruct (IH k2) as (kr & -> & Hf); [done|].
    exists (k1 :: kr). split; [done|]. constructor; [|done]. split; [by intros ->; destruct run|].
    apply Forall_forall. intros x Hx. split; [|done].
    apply (list_elem_of_fmap_2 (fun x => untext x.2)) in Hx. rewrite <- E1 in Hx.
    apply list_elem_of_fmap_1 in Hx as (p & -> & Hp). rewrite Forall_forall in Hrun. auto using parsed_eqb_untext.
Qed.

Lemma unknown_segment parts out pc :
  summary_of parts out -> pc ∈ out -> is_unknown pc = true ->
  Exists (fun words => is_unknown (summarize_main_tokens words) = true) parts.
Proof.
  intros (kept & Hk & Hu & _) Hpc Hx. apply (list_elem_of_fmap_2 untext) in Hpc. rewrite Hu in Hpc.
  apply list_elem_of_fmap_1 in Hpc as (x & E & Hin).
  pose proof (elem_of_sublist _ _ _ Hin (keeps_sublist _ _ _ Hk)) as (Hw & dir & Ex)%placed_In.
  apply Exists_exists. exists x.1. split; [done|].
  by rewrite <- (is_unknown_in_directory dir), <- Ex, <- is_unknown_untext, <- E, is_unknown_untext.
Qed.

Lemma collapse_In out pc : pc ∈ collapse out [] -> exists p, p ∈ out /\ is_unknown p = is_unknown pc.
Proof.
  destruct (collapse_runs out [] []) as (runs & Hc & Hr); [done|]. simpl in Hc. intros [i Hi]%list_elem_of_lookup_1.
  destruct (Forall2_lookup_l _ _ _ _ _ Hr Hi) as (run & Hri & Hne & Hrun). destruct run as [|p run]; [done|].
  apply Forall_cons in Hrun as [Hp _]. exists p. split; [|by destruct pc, p].
  rewrite <- Hc. apply list_elem_of_In, in_concat. exists (p :: run). split; [|by left].
  apply list_elem_of_In. by eapply list_elem_of_lookup_2.
Qed.
End left_out.

Section summary.
Context (shlex_split : str -> option (list str)) (shlex_try_join : list str -> option str).
Context (try_parse_shell : str -> option Tree).

(** The segments of a command; [None] for a script that is not a list of plain
    commands. *)
Definition segments (command : list str) : option (list (list str)) :=
  match extract_bash_command command with
  | Some (_, script) =>
      match try_parse_shell script with
      | Some tree =>
          match try_parse_word_only_commands_sequence tree with
          | Some (Some (c :: cs)) => Some (c :: cs)
          | _ => None
          end
      | None => None
      end
  | None =>
      match extract_powershell_command command with
      | Some _ => None
      | None => Some (parts_of shlex_split command)
      end
  end.

(** A helper in a script's pipeline *)
Definition is_formatting (command words : list str) : bool :=
  match extract_bash_command command with Some _ => is_small_formatting_command words | None => false end.

Lemma formatting_not_cd command words : is_formatting command words = true -> is_cd words = false.
Proof.
  unfold is_formatting, is_cd. destruct (extract_bash_command command); [|done].
  destruct words as [|h t]; [done|]. destruct (h =? lit "cd") eqn:E; [|done]. by apply bool_decide_eq_true in E as ->.
Qed.

Lemma parse_command_impl_summary command :
  exists out, parse_command_impl shlex_split shlex_try_join try_parse_shell command = Some out
  /\ match segments command with
     | None => exists cmd, out = [Unknown cmd]
     | Some segs =>
         let rest := List.filter (fun words => negb (is_formatting command words)) segs in
         rest = [] /\ segs <> [] /\ (exists cmd, out = [Unknown cmd])
         \/ summary_of shlex_split shlex_try_join rest out
     end.
Proof.
  unfold parse_command_impl, parse_shell_lc_commands, segments, is_formatting.
  destruct (extract_bash_command command) as [[shell script]|].
  - destruct (try_parse_shell script) as [tree|]; [|cbn; eauto].
    destruct (word_only_commands_spec tree) as (r & -> & _). cbn.
    destruct r as [[|c cs]|]; cbn -[summarize_script List.filter]; [eauto| |eauto].
    destruct (summarize_script_summary shlex_split shlex_try_join script (c :: cs)) as (out & -> & Hout).
    exists out. split; [done|]. destruct Hout as [[Hd ->]|Hs]; [left; eauto|by right].
  - cbn -[simplify_all List.filter]. destruct (extract_powershell_command command) as [[shell script]|]; [eauto|].
    destruct (simplify_all_summary shlex_split shlex_try_join (parts_of shlex_split command)) as (out & -> & Hout).
    exists out. split; [done|]. right.
    change (fun words => negb false) with (fun _ : list str => true). by rewrite filter_true_all.
Qed.

Notation summarize_main_tokens := (summarize_main_tokens shlex_try_join).

(** C30: A command's summary always ends, and hides little: it is the one
    [Unknown] of the whole command, as when the script is no list of plain
    commands, some segment is unknown or all are formatting helpers; or every
    summary is known, no two in a row are equal, and they stand, in order, for
    consecutive runs of the segments that are kept.  What is not kept is a
    formatting helper of a script, [cd], [echo], [true] or [nl] with flags
    alone (or a segment whose words [shlex] does not give back once it has
    joined them); the segments of a run have the summary that stands for it,
    each in the directory the [cd]s before it lead to (a single summary may be
    shown with another text). *)
Theorem known_summary_spec (command : list str) :
  exists parsed, parse_command shlex_split shlex_try_join try_parse_shell command = Some parsed
  /\ match segments command with
     | None => parsed = [single_unknown_for_command shlex_try_join command]
     | Some segs =>
         parsed = [single_unknown_for_command shlex_try_join command]
         /\ (Exists (fun words => is_unknown (summarize_main_tokens words) = true) segs
             \/ segs <> [] /\ Forall (fun words => is_formatting command words = true) segs)
         \/ Forall (fun pc => is_unknown pc = false) parsed /\ no_repeats parsed
            /\ exists runs,
                 keeps (fun x => is_formatting command x.1 = true \/ unshown shlex_split shlex_try_join x.1)
                   (placed shlex_try_join None segs) (concat runs)
                 /\ Forall2 (stands_for (1 <? length parsed)%nat) parsed runs
     end.
Proof.
  destruct (parse_command_impl_summary command) as (out & Hi & Hout). unfold parse_command. rewrite Hi. cbn -[List.filter].
  eexists. split; [done|]. destruct (segments command) as [segs|]; [|by destruct Hout as [cmd ->]].
  set (rest := List.filter (fun words => negb (is_formatting command words)) segs) in *. cbv zeta in Hout.
  destruct Hout as [(Hr & Hne & cmd & ->)|Hs].
  { left. split; [done|right]. split; [done|].
    apply Forall_forall. intros words Hw. destruct (is_formatting command words) eqn:E; [done|].
    assert (words ∈ rest) as Hin; [|rewrite Hr in Hin; by apply not_elem_of_nil in Hin].
    unfold rest. rewrite list_elem_of_In, filter_In, E, <- list_elem_of_In. done. }
  destruct (existsb is_unknown (collapse out [])) eqn:Eu.
  - left. split; [done|left]. apply existsb_unknown in Eu as (pc & (p & Hp & E)%collapse_In & Hu).
    pose proof (unknown_segment _ _ _ _ _ Hs Hp ltac:(congruence)) as (words & Hw & Hwu)%Exists_exists.
    apply Exists_exists. exists words. split; [|done]. eapply elem_of_sublist; [done|apply bool_filter_sublist].
  - right. split_and!.
    + apply Forall_forall. intros pc Hpc. destruct (is_unknown pc) eqn:E; [|done].
      assert (existsb is_unknown (collapse out []) = true) by (apply existsb_unknown; eauto). congruence.
    + by apply collapse_no_repeats.
    + destruct Hs as (kept & Hk & (runs & -> & Hr)%shows_runs). exists runs. split; [|done].
      unfold rest in Hk. rewrite placed_filter in Hk.
      * eapply keeps_trans; [eapply keeps_mono; [|apply keeps_filter]|eapply keeps_mono; [|exact Hk]]; cbn; auto.
        intros x _ H%negb_false_iff. by left.
      * intros words H%negb_false_iff. by eapply formatting_not_cd.
Qed.
End summary.

(** ** Examples *)

(** Words without quotes: split at the spaces, and joined by them. *)
Definition plain_split (s : str) : option (list str) := Some (split_char (ch " ") s).
Definition plain_join (tokens : list str) : option str := Some (join [ch " "] tokens).

Definition words_of (s : string) : list str := split_char (ch " ") (lit s).

Lemma known_summary_spec_witness :
  let command := words_of "cd src && cat a.rs && nl -ba || cat a.rs" in
  parse_command plain_split plain_join (fun _ => None) command
  = Some [Read (lit "cat a.rs") (lit "a.rs") (lit "src/a.rs")]
  /\ exists runs,
       keeps (fun x => is_formatting command x.1 = true \/ unshown plain_split plain_join x.1)
         (placed plain_join None (parts_of plain_split command)) (concat runs)
       /\ Forall2 (stands_for false) [Read (lit "cat a.rs") (lit "a.rs") (lit "src/a.rs")] runs.
Proof.
  intros command. assert (parse_command plain_split plain_join (fun _ => None) command
    = Some [Read (lit "cat a.rs") (lit "a.rs") (lit "src/a.rs")]) as E by (vm_compute; reflexivity).
  split; [exact E|].
  destruct (known_summary_spec plain_split plain_join (fun _ => None) command) as (parsed & Ep & H).
  rewrite E in Ep. injection Ep as <-.
  assert (segments plain_split (fun _ => None) command = Some (parts_of plain_split command)) as Es
    by (vm_compute; reflexivity).
  rewrite Es in H. destruct H as [[Hc _]|(_ & _ & H)]; [vm_compute in Hc; discriminate|exact H].
Defined.

(** Summaries that are the same are merged when they follow each other. *)
Example runs_are_consecutive :
  let command := words_of "cat a.rs && true && cat a.rs && ls src && cd b && cat a.rs" in
  parse_command plain_split plain_join (fun _ => None) command
  = Some [Read (lit "cat a.rs") (lit "a.rs") (lit "a.rs"); ListFiles (lit "ls src") (Some (lit "src"));
          Read (lit "cat a.rs") (lit "a.rs") (lit "b/a.rs")].
Proof. vm_compute. reflexivity. Qed.

(** [rg -l TODO | xargs rm], as the grammar gives it: only [perl], [ruby],
    [sed] and [rg] count as commands that [xargs] may change files with. *)
Definition xargs_tree : Tree :=
  mkTree (mkNode (lit "program") true 0 (Ok (lit "rg -l TODO | xargs rm"))
    [mkNode (lit "pipeline") true 0 (Ok (lit "rg -l TODO | xargs rm"))
       [simple_command 0 "rg" [leaf "word" true 3 "-l"; leaf "word" true 6 "TODO"]; leaf "|" false 11 "|";
        simple_command 13 "xargs" [leaf "word" true 19 "rm"]]]) false.

Example xargs_rm_is_a_search :
  parse_command plain_split plain_join (fun _ => Some xargs_tree) [lit "bash"; lit "-lc"; lit "rg -l TODO | xargs rm"]
  = Some [Search (lit "rg -l TODO") (Some (lit "TODO")) None].
Proof. vm_compute. reflexivity. Qed.

(** [sed] with [-i] rewrites the file. *)
Example sed_in_place_is_a_read :
  parse_command plain_split plain_join (fun _ => None) (words_of "sed -n -i 1,3p notes.txt")
  = Some [Read (lit "sed -n -i 1,3p notes.txt") (lit "notes.txt") (lit "notes.txt")].
Proof. vm_compute. reflexivity. Qed.

(** The last part of the path that is no common directory *)
Example display_name_skips_src : short_display_path (lit "webview/src/") = lit "webview".
Proof. vm_compute. reflexivity. Qed.

Example find_delete_is_a_search :
  parse_command plain_split plain_join (fun _ => None) (words_of "find . -name *.bak -delete")
  = Some [Search (lit "find . -name *.bak -delete") (Some (lit "*.bak")) (Some (lit "."))].
Proof. vm_compute. reflexivity. Qed.
