(* ===== verification/Programs.v ===== *)
(** * Programs: computations that call the outside

    A program returns, or makes a call of the signature [E] and goes on with the
    answer.  [runs] relates it to the calls of a run, whatever the answers are;
    [interp] replaces its calls by programs over another signature. *)

From S2P Require Import Prelude.

Inductive prog (E : Type -> Type) (A : Type) : Type :=
| Ret (a : A)
| Call {X : Type} (e : E X) (k : X -> prog E A).
Arguments Ret {E A} a.
Arguments Call {E A X} e k.

Section Prog.
Context {E : Type -> Type}.

Fixpoint prog_bind {A B} (f : A -> prog E B) (p : prog E A) : prog E B :=
  match p with
  | Ret a => f a
  | Call e k => Call e (fun x => prog_bind f (k x))
  end.

#[global] Instance prog_ret : MRet (prog E) := fun A a => Ret a.
#[global] Instance prog_mbind : MBind (prog E) := fun A B f p => prog_bind f p.
#[global] Instance prog_fmap : FMap (prog E) := fun A B f p => prog_bind (fun a => Ret (f a)) p.

Definition trigger {X} (e : E X) : prog E X := Call e Ret.

(** [?] on a program that may fail *)
Definition try_bind {Er A B} (p : prog E (result Er A)) (f : A -> prog E (result Er B)) : prog E (result Er B) :=
  p ≫= fun r => match r with Ok a => f a | Err e => Ret (Err e) end.

(** A call with its answer *)
Inductive call : Type :=
| Did {X : Type} (e : E X) (x : X).

Fixpoint runs {A} (p : prog E A) (tr : list call) (a : A) : Prop :=
  match p with
  | Ret b => tr = [] /\ a = b
  | Call e k => exists x tr', tr = Did e x :: tr' /\ runs (k x) tr' a
  end.

(** The run in which [h] answers *)
Fixpoint drive {A} (h : forall X, E X -> X) (p : prog E A) : list call * A :=
  match p with
  | Ret a => ([], a)
  | Call e k => let '(tr, a) := drive h (k (h _ e)) in (Did e (h _ e) :: tr, a)
  end.

Lemma runs_drive {A} (h : forall X, E X -> X) (p : prog E A) : runs p (drive h p).1 (drive h p).2.
Proof.
  induction p as [a|X e k IH]; [done|]. cbn. specialize (IH (h X e)).
  destruct (drive h (k (h X e))) as [tr a]. by exists (h X e), tr.
Qed.

Lemma runs_bind {A B} (p : prog E A) (f : A -> prog E B) tr b :
  runs (p ≫= f) tr b <-> exists tr1 tr2 a, tr = tr1 ++ tr2 /\ runs p tr1 a /\ runs (f a) tr2 b.
Proof.
  revert tr. induction p as [a|X e k IH]; intros tr; cbn.
  - split.
    + intros H. by exists [], tr, a.
    + by intros (tr1 & tr2 & a' & -> & [-> ->] & H).
  - split.
    + intros (x & tr' & -> & (tr1 & tr2 & a & -> & H1 & H2)%IH). exists (Did e x :: tr1), tr2, a. eauto 10.
    + intros (tr1 & tr2 & a & -> & (x & tr' & -> & H1) & H2). exists x, (tr' ++ tr2).
      split; [done|]. apply IH. eauto 10.
Qed.

(** ** Monitors

    A monitor watches the calls of a run and stops at one it forbids; [watched]
    is the rule of consequence of a program logic over it. *)
Section Monitors.
Context {S : Type} (observe : S -> call -> option S).

Definition observes (s : S) (tr : list call) : option S := foldl (fun s c => s ≫= fun s => observe s c) (Some s) tr.

Lemma observes_None tr : foldl (fun s c => s ≫= fun s => observe s c) None tr = None.
Proof. by induction tr. Qed.

Lemma observes_app s tr tr' : observes s (tr ++ tr') = observes s tr ≫= fun s' => observes s' tr'.
Proof.
  unfold observes. rewrite foldl_app. destruct (foldl _ (Some s) tr); [done|]. apply observes_None.
Qed.

Lemma observes_cons s c tr : observes s (c :: tr) = observe s c ≫= fun s' => observes s' tr.
Proof. unfold observes. cbn. destruct (observe s c); [done|]. apply observes_None. Qed.

Definition watched {A} (s : S) (p : prog E A) (post : S -> A -> Prop) : Prop :=
  forall tr a, runs p tr a -> exists s', observes s tr = Some s' /\ post s' a.

Lemma watched_ret {A} s (a : A) (post : S -> A -> Prop) : post s a -> watched s (Ret a) post.
Proof. intros H tr b [-> ->]. by exists s. Qed.

Lemma watched_call {A X} s (e : E X) (k : X -> prog E A) post :
  (forall x, exists s', observe s (Did e x) = Some s' /\ watched s' (k x) post) -> watched s (Call e k) post.
Proof.
  intros H tr a (x & tr' & -> & Hr). destruct (H x) as (s' & Ho & Hw). rewrite observes_cons, Ho. by apply Hw.
Qed.

Lemma watched_bind {A B} s (p : prog E A) (f : A -> prog E B) mid post :
  watched s p mid -> (forall s' a, mid s' a -> watched s' (f a) post) -> watched s (p ≫= f) post.
Proof.
  intros Hp Hf tr b (tr1 & tr2 & a & -> & H1 & H2)%runs_bind.
  destruct (Hp tr1 a H1) as (s1 & Ho & Hm). rewrite observes_app, Ho. by apply (Hf s1 a Hm).
Qed.

Lemma watched_try {Er A B} s (p : prog E (result Er A)) (f : A -> prog E (result Er B)) mid post :
  watched s p mid ->
  (forall s' a, mid s' (Ok a) -> watched s' (f a) post) ->
  (forall s' e, mid s' (Err e) -> post s' (Err e)) ->
  watched s (try_bind p f) post.
Proof.
  intros Hp Hf He. apply (watched_bind _ _ _ mid); [done|]. intros s' [a|e] Hm; [by apply Hf|].
  by apply watched_ret, He.
Qed.

Lemma watched_weaken {A} s (p : prog E A) (post post' : S -> A -> Prop) :
  watched s p post -> (forall s' a, post s' a -> post' s' a) -> watched s p post'.
Proof. intros Hp Hw tr a Hr. destruct (Hp tr a Hr) as (s' & Ho & Hpost). eauto. Qed.
End Monitors.
End Prog.
Arguments call E : clear implicits.

(** ** Interpretation *)
Section Interp.
Context {E F : Type -> Type} (h : forall X, E X -> prog F X).

Fixpoint interp {A} (p : prog E A) : prog F A :=
  match p with
  | Ret a => Ret a
  | Call e k => h _ e ≫= fun x => interp (k x)
  end.

(** The calls of [tr] are those that the interpretation of each call of [trE] makes. *)
Fixpoint refines (trE : list (call E)) (tr : list (call F)) : Prop :=
  match trE with
  | [] => tr = []
  | Did e x :: trE => exists tr1 tr2, tr = tr1 ++ tr2 /\ runs (h _ e) tr1 x /\ refines trE tr2
  end.

Lemma runs_interp {A} (p : prog E A) tr a :
  runs (interp p) tr a -> exists trE, runs p trE a /\ refines trE tr.
Proof.
  revert tr. induction p as [b|X e k IH]; intros tr; cbn.
  - intros [-> ->]. by exists [].
  - intros (tr1 & tr2 & x & -> & H1 & H2)%runs_bind. destruct (IH x tr2 H2) as (trE & Hr & Hrefines).
    exists (Did e x :: trE). cbn. eauto 10.
Qed.

Lemma refines_app trE trE' tr :
  refines (trE ++ trE') tr -> exists tr1 tr2, tr = tr1 ++ tr2 /\ refines trE tr1 /\ refines trE' tr2.
Proof.
  revert tr. induction trE as [|[X e x] trE IH]; intros tr; cbn.
  - intros H. by exists [], tr.
  - intros (tr1 & tr2 & -> & H1 & (tr3 & tr4 & -> & H3 & H4)%IH).
    exists (tr1 ++ tr3), tr4. rewrite <- app_assoc. eauto 10.
Qed.
End Interp.

Notation "'let?' x := p 'in' q" := (try_bind p (fun x => q)) (at level 200, x pattern, right associativity).
