(* ===== verification/Orchestrator.v ===== *)
(** * Orchestrator: from a tool call to its attempts

    [core/src/tools/orchestrator.rs] with the traits of
    [core/src/tools/sandboxing.rs] and the choice of a sandbox
    ([sandboxing/src/manager.rs], [policy_transforms.rs]): approval, an attempt
    in the sandbox, and another one without it.  What it asks of hooks, of
    reviewers and of the tool are the calls of a program. *)

From S2P Require Import Prelude NetworkApproval HostPaths Permissions Approval PatchSafety Programs.
Local Open Scope str_scope.

(** ** Sandboxes *)

Inductive SandboxablePreference : Type := PreferAuto | PreferRequire | PreferForbid.

#[global] Instance SandboxType_eq_dec : EqDecision SandboxType.
Proof. solve_decision. Defined.

Definition net_is_enabled (p : NetworkSandboxPolicy) : bool := match p with NetEnabled => true | NetRestricted => false end.

Section sandbox.
Context `{Host}.

Definition should_require_platform_sandbox (file_system_policy : FileSystemSandboxPolicy)
    (network_policy : NetworkSandboxPolicy) (has_managed_network_requirements : bool) : bool :=
  if has_managed_network_requirements then true
  else if negb (net_is_enabled network_policy) then
    match fs_kind file_system_policy with ExternalSandbox => false | _ => true end
  else
    match fs_kind file_system_policy with
    | Restricted => negb (has_full_disk_write_access file_system_policy)
    | Unrestricted | ExternalSandbox => false
    end.

Definition windows_enabled (level : WindowsSandboxLevel) : bool :=
  match level with LevelDisabled => false | _ => true end.

Definition select_initial (file_system_policy : FileSystemSandboxPolicy) (network_policy : NetworkSandboxPolicy)
    (pref : SandboxablePreference) (windows_sandbox_level : WindowsSandboxLevel)
    (has_managed_network_requirements : bool) : SandboxType :=
  match pref with
  | PreferForbid => NoSandbox
  | PreferRequire => default NoSandbox (get_platform_sandbox (windows_enabled windows_sandbox_level))
  | PreferAuto =>
      if should_require_platform_sandbox file_system_policy network_policy has_managed_network_requirements
      then default NoSandbox (get_platform_sandbox (windows_enabled windows_sandbox_level))
      else NoSandbox
  end.
End sandbox.

(** ** Data *)

(** The JSON object [tool_input] has these keys. *)
Record PermissionRequestPayload : Type := mkPermissionRequest {
  pq_tool_name : str;
  pq_tool_input : list (str * str);
}.

Definition bash_payload (tool_name command : str) (description : option str) : PermissionRequestPayload :=
  mkPermissionRequest tool_name ((lit "command", command)
    :: match description with Some d => [(lit "description", d)] | None => [] end).

Inductive PermissionRequestDecision : Type := HookAllow | HookDeny (message : str).

Record ApprovalCtx : Type := mkApprovalCtx {
  ctx_call_id : str;
  ctx_guardian_review_id : option str;
  ctx_retry_reason : option str;
  ctx_network_approval_context : option NetworkApprovalContext;
}.

Section Orchestrator.
(** The output of a command, and the errors of [CodexErr] but the sandbox's denial *)
Context {Output OtherError Out : Type}.

Inductive ToolError : Type :=
| Rejected (reason : str)
| SandboxDenied (output : Output) (network_policy_decision : option NetworkPolicyDecisionPayload)
| CodexError (e : OtherError).

Record SandboxAttempt : Type := mkAttempt {
  at_sandbox : SandboxType;
  at_permissions : PermissionProfile;
  at_enforce_managed_network : bool;
  at_sandbox_cwd : str;
  at_codex_linux_sandbox_exe : option str;
  at_use_legacy_landlock : bool;
  at_windows_sandbox_level : WindowsSandboxLevel;
  at_windows_sandbox_private_desktop : bool;
}.

(** What the orchestrator reads of the turn; [strict_auto_review] is the
    session's answer for it. *)
Record TurnContext : Type := mkTurn {
  turn_sub_id : str;
  turn_permission_profile : PermissionProfile;
  turn_file_system_policy : FileSystemSandboxPolicy;
  turn_network_policy : NetworkSandboxPolicy;
  turn_has_network : bool;
  turn_approval_policy : AskForApproval;
  turn_auto_review : bool;
  turn_strict_auto_review : bool;
  turn_cwd : str;
  turn_codex_linux_sandbox_exe : option str;
  turn_use_legacy_landlock : bool;
  turn_windows_sandbox_level : WindowsSandboxLevel;
  turn_windows_sandbox_private_desktop : bool;
}.

(** A tool at a request: the methods of [Approvable], [Sandboxable] and
    [ToolRuntime] that only look. *)
Record Tool : Type := mkTool {
  exec_approval_requirement : option ExecApprovalRequirement;
  sandbox_mode_for_first_attempt : SandboxOverride;
  sandbox_preference : SandboxablePreference;
  escalate_on_failure : bool;
  should_bypass_approval : AskForApproval -> bool -> bool;
  wants_no_sandbox_approval : AskForApproval -> bool;
  permission_request_payload : option PermissionRequestPayload;
  network_approval_spec : option NetworkApprovalSpec;
}.

(** *** Methods a tool gets by default *)

Definition default_should_bypass_approval (policy : AskForApproval) (already_approved : bool) : bool :=
  if already_approved then true else match policy with Never => true | _ => false end.

Definition default_wants_no_sandbox_approval (policy : AskForApproval) : bool :=
  match policy with
  | OnFailure | UnlessTrusted => true
  | Never | OnRequest => false
  | Granular granular_config => sandbox_approval granular_config
  end.

(** ** Calls *)

Inductive OrchE : Type -> Type :=
| NewGuardianReviewId : OrchE str
| RunPermissionRequestHooks (run_id : str) (request : PermissionRequestPayload) : OrchE (option PermissionRequestDecision)
| StartApproval (ctx : ApprovalCtx) : OrchE ReviewDecision
| GuardianRejectionMessage (review_id : str) : OrchE str
| BeginNetworkApproval (spec : NetworkApprovalSpec) : OrchE ActiveNetworkApproval
| FinishImmediate (active : ActiveNetworkApproval) : OrchE (result str unit)
| FinishDeferred (deferred : option str) : OrchE unit
| RunTool (attempt : SandboxAttempt) : OrchE (result ToolError Out).

Notation P := (prog OrchE).

(** ** Operations *)

Definition guardian_timeout_message : str :=
  lit "The automatic permission approval review did not finish before its deadline. Do not assume the action is unsafe based on the timeout alone. You may retry once, or ask the user for guidance or explicit approval.".

Definition build_denial_reason_from_output (output : Output) : str :=
  lit "command failed; retry without sandbox?".

Definition routes_approval_to_guardian (turn : TurnContext) : bool :=
  match turn_approval_policy turn with OnRequest | Granular _ => true | _ => false end && turn_auto_review turn.

(** [begin_network_approval]: nothing is registered without a spec or a network. *)
Definition begin_approval (managed_network_active : bool) (spec : option NetworkApprovalSpec)
    : P (option ActiveNetworkApproval) :=
  match spec with
  | Some spec =>
      if negb managed_network_active || negb (spec_has_network spec) then Ret None
      else active ← trigger (BeginNetworkApproval spec); Ret (Some active)
  | None => Ret None
  end.

(** The answer, and the network approval that stays open *)
Definition run_attempt (tool : Tool) (attempt : SandboxAttempt) (managed_network_active : bool)
    : P (result ToolError Out * option str) :=
  network_approval ← begin_approval managed_network_active (network_approval_spec tool);
  run_result ← trigger (RunTool attempt);
  match network_approval with
  | None => Ret (run_result, None)
  | Some network_approval =>
      match active_mode network_approval with
      | Immediate =>
          finalize_result ← trigger (FinishImmediate network_approval);
          match finalize_result with
          | Err err => Ret (Err (Rejected err), None)
          | Ok _ => Ret (run_result, None)
          end
      | Deferred =>
          let deferred := into_deferred network_approval in
          if negb (is_ok run_result) then
            _ ← trigger (FinishDeferred deferred);
            Ret (run_result, None)
          else Ret (run_result, deferred)
      end
  end.

Definition request_approval (tool : Tool) (permission_request_run_id : str) (approval_ctx : ApprovalCtx)
    (evaluate_permission_request_hooks : bool) : P (result ToolError ReviewDecision) :=
  answer ←
    (match permission_request_payload tool with
     | Some permission_request =>
         if evaluate_permission_request_hooks
         then trigger (RunPermissionRequestHooks permission_request_run_id permission_request)
         else Ret None
     | None => Ret None
     end);
  match answer with
  | Some HookAllow => Ret (Ok Approved)
  | Some (HookDeny message) => Ret (Err (Rejected message))
  | None => decision ← trigger (StartApproval approval_ctx); Ret (Ok decision)
  end.

Definition reject_if_not_approved (guardian_review_id : option str) (decision : ReviewDecision)
    : P (result ToolError unit) :=
  match decision with
  | DeniedDecision | AbortDecision =>
      match guardian_review_id with
      | Some review_id =>
          reason ← trigger (GuardianRejectionMessage review_id); Ret (Err (Rejected reason))
      | None => Ret (Err (Rejected (lit "rejected by user")))
      end
  | TimedOut => Ret (Err (Rejected guardian_timeout_message))
  | Approved | ApprovedExecpolicyAmendment _ | ApprovedForSession => Ret (Ok tt)
  | NetworkPolicyAmendmentDecision amendment =>
      match npa_action amendment with
      | NetAllow => Ret (Ok tt)
      | NetDeny => Ret (Err (Rejected (lit "rejected by user")))
      end
  end.

(** [use_guardian.then(new_guardian_review_id)] *)
Definition review_id_if (use_guardian : bool) : P (option str) :=
  if use_guardian then id ← trigger NewGuardianReviewId; Ret (Some id) else Ret None.

(** A question and what follows from its answer *)
Definition ask_and_check (tool : Tool) (call_id run_id : str) (guardian : bool) (retry_reason : option str)
    (network_approval_context : option NetworkApprovalContext) (hooks : bool) : P (result ToolError unit) :=
  guardian_review_id ← review_id_if guardian;
  let? decision :=
    request_approval tool run_id (mkApprovalCtx call_id guardian_review_id retry_reason network_approval_context) hooks in
  reject_if_not_approved guardian_review_id decision.

Section run.
Context `{Host} (tool : Tool) (call_id : str) (turn : TurnContext).

Definition approval_policy : AskForApproval := turn_approval_policy turn.

Definition requirement : ExecApprovalRequirement :=
  default (default_exec_approval_requirement approval_policy (turn_file_system_policy turn))
          (exec_approval_requirement tool).

Definition use_guardian : bool := routes_approval_to_guardian turn || turn_strict_auto_review turn.

(** The approval: whether it was asked for *)
Definition approve_first : P (result ToolError bool) :=
  match requirement with
  | Skip _ _ =>
      if turn_strict_auto_review turn then
        let? _ := ask_and_check tool call_id call_id true None None false in Ret (Ok true)
      else Ret (Ok false)
  | ForbiddenReq reason => Ret (Err (Rejected reason))
  | NeedsApproval reason _ =>
      let? _ := ask_and_check tool call_id call_id use_guardian reason None (negb (turn_strict_auto_review turn)) in
      Ret (Ok true)
  end.

Definition initial_sandbox : SandboxType :=
  match sandbox_mode_for_first_attempt tool with
  | BypassSandboxFirstAttempt => NoSandbox
  | NoOverride =>
      select_initial (turn_file_system_policy turn) (turn_network_policy turn) (sandbox_preference tool)
        (turn_windows_sandbox_level turn) (turn_has_network turn)
  end.

Definition attempt_in (sandbox : SandboxType) (exe : option str) : SandboxAttempt :=
  mkAttempt sandbox (turn_permission_profile turn) (turn_has_network turn) (turn_cwd turn) exe
    (turn_use_legacy_landlock turn) (turn_windows_sandbox_level turn) (turn_windows_sandbox_private_desktop turn).

Definition is_on_request (policy : AskForApproval) : bool := match policy with OnRequest => true | _ => false end.

Definition allow_on_request_network_prompt (network_approval_context : option NetworkApprovalContext) : bool :=
  is_on_request approval_policy
  && bool_decide (is_Some network_approval_context)
  && match default_exec_approval_requirement approval_policy (turn_file_system_policy turn) with
     | NeedsApproval _ _ => true
     | _ => false
     end.

Definition retry_reason_of (network_approval_context : option NetworkApprovalContext) (output : Output) : str :=
  match network_approval_context with
  | Some context => lit "Network access to " ++ QUOTE ++ ac_host context ++ QUOTE ++ lit " is blocked by policy."
  | None => build_denial_reason_from_output output
  end.

(** After a denial of the sandbox *)
Definition retry (already_approved : bool) (output : Output)
    (network_policy_decision : option NetworkPolicyDecisionPayload)
    : P (result ToolError (Out * option str)) :=
  let denied := Err (SandboxDenied output network_policy_decision) in
  let network_approval_context :=
    if turn_has_network turn then network_policy_decision ≫= network_approval_context_from_payload else None in
  if bool_decide (is_Some network_policy_decision) && bool_decide (network_approval_context = None) then Ret denied
  else if negb (escalate_on_failure tool) then Ret denied
  else if negb (wants_no_sandbox_approval tool approval_policy)
          && negb (allow_on_request_network_prompt network_approval_context) then Ret denied
  else
    let bypass_retry_approval :=
      negb (turn_strict_auto_review turn) && should_bypass_approval tool approval_policy already_approved
      && bool_decide (network_approval_context = None) in
    let? _ :=
      (if negb bypass_retry_approval
       then ask_and_check tool call_id (call_id ++ lit ":retry") use_guardian
              (Some (retry_reason_of network_approval_context output)) network_approval_context
              (negb (turn_strict_auto_review turn))
       else Ret (Ok tt)) in
    retried ← run_attempt tool (attempt_in NoSandbox None) (turn_has_network turn);
    Ret (match retried with
         | (Ok output, deferred) => Ok (output, deferred)
         | (Err err, _) => Err err
         end).

Definition run : P (result ToolError (Out * option str)) :=
  let? already_approved := approve_first in
  first ← run_attempt tool (attempt_in initial_sandbox (turn_codex_linux_sandbox_exe turn)) (turn_has_network turn);
  match first with
  | (Ok out, deferred) => Ret (Ok (out, deferred))
  | (Err (SandboxDenied output network_policy_decision), _) => retry already_approved output network_policy_decision
  | (Err err, _) => Ret (Err err)
  end.

(** ** The rules the orchestrator keeps

    A monitor of the calls: what it has seen of answers and attempts. *)

Record Monitor : Type := mkMonitor {
  refused : bool;           (* an answer was no *)
  cleared : bool;           (* an answer was yes, since the last attempt *)
  cleared_first : bool;     (* an answer was yes before the first attempt *)
  attempts : nat;
  denied : bool;            (* the sandbox denied the last attempt *)
}.

Definition start : Monitor := mkMonitor false false false 0 false.

Definition approves (decision : ReviewDecision) : bool :=
  match decision with
  | DeniedDecision | AbortDecision | TimedOut => false
  | Approved | ApprovedExecpolicyAmendment _ | ApprovedForSession => true
  | NetworkPolicyAmendmentDecision amendment => match npa_action amendment with NetAllow => true | NetDeny => false end
  end.

Definition answered (yes : bool) (m : Monitor) : Monitor :=
  if yes then mkMonitor (refused m) true (cleared_first m || (attempts m =? 0)%nat) (attempts m) (denied m)
  else mkMonitor true (cleared m) (cleared_first m) (attempts m) (denied m).

Definition is_sandbox_denied (r : result ToolError Out) : bool :=
  match r with Err (SandboxDenied _ _) => true | _ => false end.

(** May there be an attempt? *)
Definition may_run (m : Monitor) (sandbox : SandboxType) : bool :=
  negb (refused m)
  && match attempts m with
     | 0%nat =>
         bool_decide (sandbox = initial_sandbox)
         && match requirement with
            | ForbiddenReq _ => false
            | Skip _ _ => cleared m || negb (turn_strict_auto_review turn)
            | NeedsApproval _ _ => cleared m
            end
     | 1%nat =>
         bool_decide (sandbox = NoSandbox) && denied m && escalate_on_failure tool
         && (wants_no_sandbox_approval tool approval_policy || is_on_request approval_policy && cleared m)
         && (cleared m
             || negb (turn_strict_auto_review turn)
                && should_bypass_approval tool approval_policy (cleared_first m))
     | _ => false
     end.

Definition observe (m : Monitor) (c : call OrchE) : option Monitor :=
  match c with
  | Did e x =>
      match e in OrchE X return X -> option Monitor with
      | RunPermissionRequestHooks _ _ => fun answer =>
          Some (match answer with
                | Some HookAllow => answered true m
                | Some (HookDeny _) => answered false m
                | None => m
                end)
      | StartApproval _ => fun decision => Some (answered (approves decision) m)
      | RunTool attempt => fun r =>
          if may_run m (at_sandbox attempt)
          then Some (mkMonitor (refused m) false (cleared_first m) (S (attempts m)) (is_sandbox_denied r))
          else None
      | _ => fun _ => Some m
      end x
  end.

Notation watched := (watched observe).

Lemma watched_bind_quiet {A B} m (p : P A) (f : A -> P B) post :
  watched m p (fun m' _ => m' = m) -> (forall a, watched m (f a) post) -> watched m (p ≫= f) post.
Proof. intros Hp Hf. eapply watched_bind; [exact Hp|]. by intros ? a ->. Qed.

Lemma review_id_quiet m guardian : watched m (review_id_if guardian) (fun m' _ => m' = m).
Proof. destruct guardian; [apply watched_call; intros x; exists m; split; [done|]|]; by apply watched_ret. Qed.

Lemma reject_checks m id decision :
  watched m (reject_if_not_approved id decision)
    (fun m' r => m' = m /\ if approves decision then r = Ok tt else exists reason, r = Err (Rejected reason)).
Proof.
  destruct decision as [| | |amendment| | |]; cbn; try destruct (npa_action amendment); try destruct id;
    try (apply watched_ret; eauto; fail);
    (apply watched_call; intros x; exists m; split; [done|]; apply watched_ret; eauto).
Qed.

(** After a question either something said yes and nothing no, or the call is refused. *)
Lemma ask_and_check_spec m run_id guardian reason context hooks :
  refused m = false ->
  watched m (ask_and_check tool call_id run_id guardian reason context hooks)
    (fun m' r => (r = Ok tt /\ m' = answered true m)
                 \/ (exists reason, r = Err (Rejected reason)) /\ m' = answered false m).
Proof.
  intros Hm. unfold ask_and_check. apply watched_bind_quiet; [apply review_id_quiet|]. intros id.
  assert (watched m (request_approval tool run_id (mkApprovalCtx call_id id reason context) hooks)
    (fun m' r => (exists d, r = Ok d /\ m' = answered (approves d) m)
                 \/ (exists reason, r = Err (Rejected reason)) /\ m' = answered false m)) as Hr.
  { assert (forall m', m' = m -> watched m' (decision ← trigger (StartApproval (mkApprovalCtx call_id id reason context)); Ret (Ok decision))
      (fun m' (r : result ToolError ReviewDecision) => (exists d, r = Ok d /\ m' = answered (approves d) m)
                   \/ (exists reason, r = Err (Rejected reason)) /\ m' = answered false m)) as Hs.
    { intros ? ->. apply watched_call. intros d. eexists. split; [done|]. apply watched_ret. left. by exists d. }
    unfold request_approval.
    destruct (permission_request_payload tool) as [q|]; [destruct hooks|]; [|by apply Hs..].
    apply watched_call. intros answer. eexists. split; [done|].
    destruct answer as [[|msg]|]; [| |by apply Hs]; apply watched_ret; [left; by exists Approved|right; eauto]. }
  eapply watched_try; [exact Hr| |].
  - intros m' d [(d' & [= <-] & ->)|[[? ?] _]]; [|done]. eapply watched_weaken; [apply reject_checks|].
    intros m'' r [-> Hd]. destruct (approves d); [left|right]; eauto.
  - intros m' e [(d' & ? & _)|[[x [= ->]] ->]]; [done|]. right. eauto.
Qed.

Lemma run_attempt_spec m attempt :
  may_run m (at_sandbox attempt) = true ->
  watched m (run_attempt tool attempt (turn_has_network turn))
    (fun m' r => refused m' = false /\ attempts m' = S (attempts m) /\ cleared_first m' = cleared_first m
                 /\ cleared m' = false
                 /\ (is_sandbox_denied r.1 = true -> denied m' = true)).
Proof.
  intros Hm. assert (refused m = false) as Hr by (destruct m as [[] ? ? ? ?]; [done|done]).
  unfold run_attempt. apply watched_bind_quiet.
  { unfold begin_approval. destruct (network_approval_spec tool) as [spec|]; [|by apply watched_ret].
    destruct (negb (turn_has_network turn) || negb (spec_has_network spec)); [by apply watched_ret|].
    apply watched_call. intros x. exists m. split; [done|]. by apply watched_ret. }
  intros active. apply watched_call. intros r. cbn. rewrite Hm. eexists. split; [done|].
  destruct active as [active|]; [|apply watched_ret; cbn; by rewrite Hr].
  destruct (active_mode active).
  - apply watched_call. intros [[]|err]; eexists; (split; [done|]); apply watched_ret; cbn; by rewrite Hr.
  - destruct (negb (is_ok r)); [|apply watched_ret; cbn; by rewrite Hr].
    apply watched_call. intros []. eexists. split; [done|]. apply watched_ret. cbn. by rewrite Hr.
Qed.

(** What is known when the first attempt may be made *)
Lemma approve_first_spec :
  watched start approve_first
    (fun m r => attempts m = 0%nat
      /\ match r with
         | Ok already_approved =>
             refused m = false /\ already_approved = cleared_first m /\ may_run m initial_sandbox = true
         | Err err => exists reason, err = Rejected reason
         end).
Proof.
  unfold approve_first, may_run. destruct requirement as [bypass am|reason am|reason] eqn:Er.
  - destruct (turn_strict_auto_review turn) eqn:Es.
    + eapply watched_try; [by apply ask_and_check_spec| |].
      * intros m [] [[_ ->]|[[? ?] _]]; [|done]. apply watched_ret. cbn. by rewrite bool_decide_eq_true_2.
      * intros m e [[? _]|[[x [= ->]] ->]]; [done|]. cbn. eauto.
    + apply watched_ret. cbn. by rewrite bool_decide_eq_true_2.
  - eapply watched_try; [by apply ask_and_check_spec| |].
    + intros m [] [[_ ->]|[[? ?] _]]; [|done]. apply watched_ret. cbn. by rewrite bool_decide_eq_true_2.
    + intros m e [[? _]|[[x [= ->]] ->]]; [done|]. cbn. eauto.
  - apply watched_ret. cbn. eauto.
Qed.

Lemma retry_spec m already_approved output decision :
  refused m = false -> attempts m = 1%nat -> cleared m = false -> denied m = true ->
  already_approved = cleared_first m ->
  watched m (retry already_approved output decision)
    (fun m' r => (attempts m' = 1%nat \/ attempts m' = 2%nat) /\ (refused m' = true -> exists reason, r = Err (Rejected reason))).
Proof.
  intros Hr Ha Hc Hd ->. unfold retry.
  set (context := if turn_has_network turn then _ else _).
  assert (forall e, watched m (Ret (Err e))
    (fun m' (r : result ToolError (Out * option str)) => (attempts m' = 1%nat \/ attempts m' = 2%nat)
      /\ (refused m' = true -> exists reason, r = Err (Rejected reason)))) as Hstop.
  { intros e. apply watched_ret. split; [by left|by rewrite Hr]. }
  destruct (_ && bool_decide (context = None)); [apply Hstop|].
  destruct (escalate_on_failure tool) eqn:Ee; [cbn [negb]|apply Hstop].
  destruct (negb (wants_no_sandbox_approval tool approval_policy)
            && negb (allow_on_request_network_prompt context)) eqn:Ew; [apply Hstop|].
  assert (forall m', refused m' = false -> attempts m' = 1%nat ->
            may_run m' NoSandbox = true ->
            watched m' (retried ← run_attempt tool (attempt_in NoSandbox None) (turn_has_network turn);
                        Ret (match retried with (Ok output, deferred) => Ok (output, deferred) | (Err err, _) => Err err end))
              (fun m' (r : result ToolError (Out * option str)) => (attempts m' = 1%nat \/ attempts m' = 2%nat)
                /\ (refused m' = true -> exists reason, r = Err (Rejected reason)))) as Hrun.
  { intros m' Hr' Ha' Hm'. eapply watched_bind; [by apply run_attempt_spec|].
    intros m'' r (Hr'' & Ha'' & _). apply watched_ret. rewrite Hr'', Ha'', Ha'. split; [by right|done]. }
  assert (is_Some context -> is_on_request approval_policy = true \/ wants_no_sandbox_approval tool approval_policy = true) as Hwants.
  { intros _. destruct (wants_no_sandbox_approval tool approval_policy); [by right|left]. cbn in Ew.
    apply negb_false_iff in Ew. unfold allow_on_request_network_prompt in Ew. by apply andb_true_iff in Ew as [[? ?]%andb_true_iff ?]. }
  assert (wants_no_sandbox_approval tool approval_policy = true \/
          is_on_request approval_policy = true /\ is_Some context) as Hw.
  { destruct (wants_no_sandbox_approval tool approval_policy); [by left|right]. cbn in Ew. apply negb_false_iff in Ew.
    unfold allow_on_request_network_prompt in Ew. apply andb_true_iff in Ew as [[? Hc']%andb_true_iff ?].
    split; [done|]. by apply bool_decide_eq_true in Hc'. }
  destruct (negb (turn_strict_auto_review turn) && should_bypass_approval tool approval_policy (cleared_first m)
            && bool_decide (context = None)) eqn:Eb; cbn [negb].
  - apply (Hrun m Hr Ha). apply andb_true_iff in Eb as [Eb Hnone%bool_decide_eq_true].
    destruct Hw as [Hw|[_ [? Hs]]]; [|congruence]. unfold may_run. rewrite Hr, Ha, Hd, Ee, Hw, Eb, orb_true_r. done.
  - eapply watched_try; [by apply ask_and_check_spec| |].
    + intros m' [] [[_ ->]|[[? ?] _]]; [|done]. apply Hrun; [done|done|].
      unfold may_run. cbn. rewrite Hr, Ha, Hd, Ee. cbn.
      destruct Hw as [->|[-> _]]; cbn; [done|by rewrite orb_true_r].
    + intros m' e [[? _]|[[x [= ->]] ->]]; [done|]. cbn. rewrite Ha. eauto.
Qed.

Lemma run_watched :
  watched start run (fun m r => (attempts m <= 2)%nat
    /\ (refused m = true -> exists reason, r = Err (Rejected reason))
    /\ (is_ok r = true -> refused m = false /\ (0 < attempts m)%nat)).
Proof.
  unfold run. eapply watched_try; [apply approve_first_spec| |].
  - intros m already (Ha & Hr & -> & Hm).
    eapply watched_bind; [by apply (run_attempt_spec m (attempt_in initial_sandbox _))|].
    intros m' [result deferred] (Hr' & Ha' & Hc' & Hcl & Hd). rewrite Ha in Ha'.
    destruct result as [out|[reason|output decision|e]].
    + apply watched_ret. rewrite Hr', Ha'. split_and!; [lia|done|intros _; split; [done|lia]].
    + apply watched_ret. rewrite Hr', Ha'. split_and!; [lia|eauto|done].
    + eapply watched_weaken; [apply retry_spec; auto|].
      intros m'' r' [Ha'' Hr'']. split_and!; [lia|done|]. intros Hok.
      split; [|lia]. destruct (refused m''); [|done]. destruct (Hr'' eq_refl) as [x ->]. done.
    + apply watched_ret. rewrite Hr', Ha'. split_and!; [lia|done|done].
  - intros m e [Ha [x ->]]. rewrite Ha. split_and!; [lia|eauto|done].
Qed.

End run.
End Orchestrator.

(** ** Example *)

Definition sample_turn (policy : AskForApproval) (has_network : bool) : TurnContext :=
  {| turn_sub_id := lit "turn"; turn_permission_profile := Managed (ManagedRestricted [] None) NetRestricted;
     turn_file_system_policy := restricted []; turn_network_policy := NetRestricted;
     turn_has_network := has_network; turn_approval_policy := policy; turn_auto_review := false;
     turn_strict_auto_review := false; turn_cwd := lit "/work";
     turn_codex_linux_sandbox_exe := Some (lit "/bin/sandbox"); turn_use_legacy_landlock := false;
     turn_windows_sandbox_level := LevelDisabled; turn_windows_sandbox_private_desktop := false |}.

(** A tool with all default methods *)
Definition default_tool : Tool :=
  {| exec_approval_requirement := None; sandbox_mode_for_first_attempt := NoOverride;
     sandbox_preference := PreferAuto; escalate_on_failure := true;
     should_bypass_approval := default_should_bypass_approval;
     wants_no_sandbox_approval := default_wants_no_sandbox_approval;
     permission_request_payload := None; network_approval_spec := None |}.

