(* ===== verification/Runtimes.v ===== *)
(** * Runtimes: the tools that run commands and patches

    How [ShellRuntime], [UnifiedExecRuntime] and [ApplyPatchRuntime]
    ([core/src/tools/runtimes]) answer the orchestrator: their requirements and
    their questions to the guardian, the session's approvals and the user. *)

From S2P Require Import Prelude NetworkApproval HostPaths Permissions Approval PatchSafety Programs Orchestrator.
Local Open Scope str_scope.

Section Runtimes.
Context {Output OtherError Out K : Type} (to_json : K -> option str).
Notation OrchE := (OrchE (Output := Output) (OtherError := OtherError) (Out := Out)).

(** ** Calls *)

(** [ReadApprovals] and [RecordApprovals] hold the lock of the session's
    approvals; it is free while the user is asked. *)
Inductive SessE : Type -> Type :=
| Outer {X : Type} (e : OrchE X) : SessE X
| ReviewApproval (review_id : str) (retry_reason : option str) : SessE ReviewDecision
| ReadApprovals : SessE ApprovalStore
| AskUser (reason : option str) (network_approval_context : option NetworkApprovalContext) : SessE ReviewDecision
| RecordApprovals (keys : list K) : SessE unit.

Definition with_cached_approval (keys : list K) (fetch : prog SessE ReviewDecision) : prog SessE ReviewDecision :=
  if is_empty keys then fetch
  else
    store ← trigger ReadApprovals;
    if already_approved to_json store keys then Ret ApprovedForSession
    else
      decision ← fetch;
      if is_approved_for_session decision
      then _ ← trigger (RecordApprovals keys); Ret decision
      else Ret decision.

(** [or_else] *)
Definition first_some {A} (a b : option A) : option A := match a with Some x => Some x | None => b end.

(** ** Commands

    [ShellRequest] and [UnifiedExecRequest], whose methods are the same but for
    the name of the tool, the keys and the mode of network approval. *)

Record CommandRequest : Type := mkCommandRequest {
  cr_approval_keys : list K;
  cr_sandbox_permissions : SandboxPermissions;
  cr_justification : option str;
  cr_hook_command : str;
  cr_exec_approval_requirement : ExecApprovalRequirement;
  cr_has_network : bool;
}.

(** [managed_network_for_sandbox_permissions]: is there a network? *)
Definition managed_network_for_sandbox_permissions (has_network : bool) (sandbox_permissions : SandboxPermissions) : bool :=
  if requires_escalated_permissions sandbox_permissions then false else has_network.

Definition command_tool (hook_tool_name : str) (mode : NetworkApprovalMode) (req : CommandRequest) : Tool :=
  {| exec_approval_requirement := Some (cr_exec_approval_requirement req);
     sandbox_mode_for_first_attempt :=
       sandbox_override_for_first_attempt (cr_sandbox_permissions req) (cr_exec_approval_requirement req);
     sandbox_preference := PreferAuto;
     escalate_on_failure := true;
     should_bypass_approval := default_should_bypass_approval;
     wants_no_sandbox_approval := default_wants_no_sandbox_approval;
     permission_request_payload := Some (bash_payload hook_tool_name (cr_hook_command req) (cr_justification req));
     network_approval_spec :=
       if managed_network_for_sandbox_permissions (cr_has_network req) (cr_sandbox_permissions req)
       then Some (mkApprovalSpec true mode (cr_hook_command req)) else None |}.

Definition BASH_HOOK : str := lit "Bash".
Definition shell_tool : CommandRequest -> Tool := command_tool BASH_HOOK Immediate.
Definition unified_exec_tool : CommandRequest -> Tool := command_tool BASH_HOOK Deferred.

Definition command_start_approval (req : CommandRequest) (ctx : ApprovalCtx) : prog SessE ReviewDecision :=
  match ctx_guardian_review_id ctx with
  | Some review_id => trigger (ReviewApproval review_id (ctx_retry_reason ctx))
  | None =>
      with_cached_approval (cr_approval_keys req)
        (trigger (AskUser (first_some (ctx_retry_reason ctx) (cr_justification req)) (ctx_network_approval_context ctx)))
  end.

(** ** Patches *)

Record ApplyPatchRequest : Type := mkPatchRequest {
  ap_approval_keys : list K;
  ap_patch : str;
  ap_exec_approval_requirement : ExecApprovalRequirement;
  ap_permissions_preapproved : bool;
}.

Definition patch_wants_no_sandbox_approval (policy : AskForApproval) : bool :=
  match policy with
  | Never => false
  | Granular granular_config => sandbox_approval granular_config
  | OnFailure | OnRequest | UnlessTrusted => true
  end.

Definition APPLY_PATCH_HOOK : str := lit "apply_patch".

Definition apply_patch_tool (req : ApplyPatchRequest) : Tool :=
  {| exec_approval_requirement := Some (ap_exec_approval_requirement req);
     sandbox_mode_for_first_attempt := NoOverride;
     sandbox_preference := PreferAuto;
     escalate_on_failure := true;
     should_bypass_approval := default_should_bypass_approval;
     wants_no_sandbox_approval := patch_wants_no_sandbox_approval;
     permission_request_payload := Some (mkPermissionRequest APPLY_PATCH_HOOK [(lit "command", ap_patch req)]);
     network_approval_spec := None |}.

Definition patch_start_approval (req : ApplyPatchRequest) (ctx : ApprovalCtx) : prog SessE ReviewDecision :=
  match ctx_guardian_review_id ctx with
  | Some review_id => trigger (ReviewApproval review_id (ctx_retry_reason ctx))
  | None =>
      if ap_permissions_preapproved req && bool_decide (ctx_retry_reason ctx = None) then Ret Approved
      else
        match ctx_retry_reason ctx with
        | Some reason => trigger (AskUser (Some reason) None)
        | None => with_cached_approval (ap_approval_keys req) (trigger (AskUser None None))
        end
  end.

(** ** The calls of a tool call *)

Definition handle (start_approval : ApprovalCtx -> prog SessE ReviewDecision) (X : Type) (e : OrchE X) : prog SessE X :=
  match e in Orchestrator.OrchE X return prog SessE X with
  | StartApproval ctx => start_approval ctx
  | NewGuardianReviewId => trigger (Outer NewGuardianReviewId)
  | RunPermissionRequestHooks run_id request => trigger (Outer (RunPermissionRequestHooks run_id request))
  | GuardianRejectionMessage review_id => trigger (Outer (GuardianRejectionMessage review_id))
  | BeginNetworkApproval spec => trigger (Outer (BeginNetworkApproval spec))
  | FinishImmediate active => trigger (Outer (FinishImmediate active))
  | FinishDeferred deferred => trigger (Outer (FinishDeferred deferred))
  | RunTool attempt => trigger (Outer (RunTool attempt))
  end.

Definition run_command `{Host} (tool : Tool) (req : CommandRequest) (call_id : str) (turn : TurnContext) :=
  interp (handle (command_start_approval req)) (run (Output := Output) (OtherError := OtherError) (Out := Out) tool call_id turn).

Definition run_patch `{Host} (req : ApplyPatchRequest) (call_id : str) (turn : TurnContext) :=
  interp (handle (patch_start_approval req))
    (run (Output := Output) (OtherError := OtherError) (Out := Out) (apply_patch_tool req) call_id turn).

(** ** What comes before an attempt outside the sandbox *)

(** Something said yes: a hook, the guardian, the user, or the user before, for the session. *)
Definition yes (keys : list K) (c : call SessE) : bool :=
  match c with
  | Did e x =>
      match e in SessE X return X -> bool with
      | Outer e' =>
          match e' in Orchestrator.OrchE Y return Y -> bool with
          | RunPermissionRequestHooks _ _ => fun answer => match answer with Some HookAllow => true | _ => false end
          | _ => fun _ => false
          end
      | ReviewApproval _ _ => fun decision => approves decision
      | AskUser _ _ => fun decision => approves decision
      | ReadApprovals => fun store => already_approved to_json store keys
      | RecordApprovals _ => fun _ => false
      end x
  end.

(** The same for the orchestrator's calls *)
Definition outer_yes (c : call OrchE) : bool :=
  match c with
  | Did e x =>
      match e in Orchestrator.OrchE Y return Y -> bool with
      | RunPermissionRequestHooks _ _ => fun answer => match answer with Some HookAllow => true | _ => false end
      | StartApproval _ => fun decision => approves decision
      | _ => fun _ => false
      end x
  end.

(** An attempt in [sandbox] *)
Definition is_attempt (sandbox : SandboxType) (c : call SessE) : bool :=
  match c with
  | Did e x =>
      match e in SessE X return X -> bool with
      | Outer e' =>
          match e' in Orchestrator.OrchE Y return Y -> bool with
          | RunTool attempt => fun _ => bool_decide (at_sandbox attempt = sandbox)
          | _ => fun _ => false
          end
      | _ => fun _ => false
      end x
  end.

Definition is_outer_attempt (sandbox : SandboxType) (c : call OrchE) : bool :=
  match c with
  | Did e x =>
      match e in Orchestrator.OrchE Y return Y -> bool with
      | RunTool attempt => fun _ => bool_decide (at_sandbox attempt = sandbox)
      | _ => fun _ => false
      end x
  end.

Section start.
Context (keys : list K) (unasked : Prop) (start_approval : ApprovalCtx -> prog SessE ReviewDecision).

(** What the theorem needs of a runtime's [start_approval_async] *)
Definition sound_start : Prop :=
  forall ctx tr decision, runs (start_approval ctx) tr decision ->
    (approves decision = true -> Exists (fun c => yes keys c = true) tr \/ unasked)
    /\ Forall (fun c => forall sandbox, is_attempt sandbox c = false) tr.

Hypothesis Hstart : sound_start.

Lemma handle_spec (c : call OrchE) tr :
  refines (handle start_approval) [c] tr ->
  (outer_yes c = true -> Exists (fun c => yes keys c = true) tr \/ unasked)
  /\ forall sandbox pre c' post, tr = pre ++ c' :: post -> is_attempt sandbox c' = true ->
       pre = [] /\ is_outer_attempt sandbox c = true.
Proof.
  destruct c as [X e x]. intros (tr1 & tr2 & -> & Hr & Hnil). cbn in Hnil. subst tr2. rewrite app_nil_r. destruct e as [| |ctx| | | | |attempt];
    cbn in Hr; try (destruct Hr as (y & tr' & -> & -> & <-); split;
      [intros Hy; left; apply Exists_cons; by left
      |intros sandbox [|c0 pre] c' post [= <- He]; [done|by destruct pre]]).
  destruct (Hstart _ _ _ Hr) as [Hy Hn]. split; [done|].
  intros sandbox pre c' post -> Ha. apply Forall_app in Hn as [_ [Hn _]%Forall_cons]. by rewrite Hn in Ha.
Qed.

Lemma refines_yes trE tr :
  refines (handle start_approval) trE tr -> Exists (fun c => outer_yes c = true) trE ->
  Exists (fun c => yes keys c = true) tr \/ unasked.
Proof.
  revert tr. induction trE as [|c trE IH]; intros tr Hr Hy; [by apply Exists_nil in Hy|].
  apply (refines_app _ [c]) in Hr as (tr1 & tr2 & -> & H1 & H2). rewrite Exists_app.
  apply Exists_cons in Hy as [Hy|Hy].
  - destruct (handle_spec c tr1 H1) as [Hs _]. destruct (Hs Hy); tauto.
  - destruct (IH tr2 H2 Hy); tauto.
Qed.

(** The calls before an attempt are those of the orchestrator's calls before it. *)
Lemma refines_attempt trE tr sandbox pre c post :
  refines (handle start_approval) trE tr -> tr = pre ++ c :: post -> is_attempt sandbox c = true ->
  exists preE cE postE, trE = preE ++ cE :: postE /\ is_outer_attempt sandbox cE = true
    /\ refines (handle start_approval) preE pre.
Proof.
  revert tr pre. induction trE as [|cE trE IH]; intros tr pre Hr E Ha; [cbn in Hr; subst tr; by destruct pre|].
  apply (refines_app _ [cE]) in Hr as (tr1 & tr2 & -> & H1 & H2).
  destruct (handle_spec cE tr1 H1) as [_ Hc].
  destruct (decide (length pre < length tr1)%nat) as [Hlt|Hge].
  - rewrite <- (take_drop (length pre) tr1), <- app_assoc in E.
    apply app_inj_1 in E as [E1 E2]; [|rewrite length_take; lia].
    destruct (drop (length pre) tr1) as [|c1 rest] eqn:Ed.
    { apply (f_equal length) in Ed. rewrite length_drop in Ed. simpl in Ed. lia. }
    injection E2 as -> _. destruct (Hc sandbox pre c rest) as [-> Hout]; [|done|].
    { rewrite <- E1 at 1. by rewrite <- Ed, take_drop. }
    exists [], cE, trE. done.
  - rewrite <- (take_drop (length tr1) pre), <- app_assoc in E.
    apply app_inj_1 in E as [E1 E2]; [|rewrite length_take; lia].
    destruct (IH tr2 (drop (length tr1) pre) H2 E2 Ha) as (preE & c' & postE & -> & Hout & Hp).
    exists (cE :: preE), c', postE. split; [done|]. split; [done|].
    rewrite <- (take_drop (length tr1) pre), <- E1.
    destruct cE as [X e x]. destruct H1 as (t1 & t2 & -> & Hr1 & Hnil). cbn in Hnil. subst t2. rewrite app_nil_r in *. cbn. by exists t1, (drop (length t1) pre).
Qed.

Context `{Host} (tool : Tool) (call_id : str) (turn : TurnContext).
Notation observes := (observes (observe (Output := Output) (OtherError := OtherError) (Out := Out) tool turn)).

Lemma cleared_by_yes m pre m' :
  cleared m = false -> cleared_first m = false -> observes m pre = Some m' ->
  cleared m' || cleared_first m' = true -> Exists (fun c => outer_yes c = true) pre.
Proof.
  revert m. induction pre as [|[X e x] pre IH]; intros m Hc Hf Ho Hm.
  - injection Ho as <-. by rewrite Hc, Hf in Hm.
  - rewrite observes_cons in Ho. apply Exists_cons.
    assert (forall yes, answered yes m = m \/ yes = true \/ cleared (answered yes m) = false /\ cleared_first (answered yes m) = false) as Hans.
    { intros []; [right; by left|]. right. right. done. }
    destruct e; cbn in Ho |- *; try (right; by apply (IH m)).
    + destruct x as [[|msg]|]; [by left| |right; by apply (IH m)]. right.
      by apply (IH (answered false m)).
    + destruct (approves x) eqn:Ea; [by left|right; by apply (IH (answered false m))].
    + right. destruct (may_run tool turn m (at_sandbox attempt)); [|done].
      eapply IH; [| |exact Ho|done]; done.
Qed.

(** With the default [should_bypass_approval], and a tool that does not want an
    approval when questions are off *)
Lemma outside_after_yes trE r preE cE postE :
  should_bypass_approval tool = default_should_bypass_approval ->
  wants_no_sandbox_approval tool Never = false ->
  initial_sandbox tool turn <> NoSandbox ->
  runs (run tool call_id turn) trE r -> trE = preE ++ cE :: postE -> is_outer_attempt NoSandbox cE = true ->
  Exists (fun c => outer_yes c = true) preE.
Proof.
  intros Hb Hw Hi Hr -> Ha.
  destruct (run_watched tool call_id turn _ _ Hr) as (m & Ho & _).
  rewrite observes_app in Ho. destruct (observes start preE) as [m'|] eqn:Ep; [|done]. change (observes m' (cE :: postE) = Some m) in Ho.
  rewrite observes_cons in Ho. destruct cE as [X e x]. destruct e as [| | | | | | |attempt]; try done. cbn in Ha, Ho.
  apply bool_decide_eq_true in Ha. rewrite Ha in Ho.
  destruct (may_run tool turn m' NoSandbox) eqn:Em; [|done]. apply (cleared_by_yes start preE m'); [done|done|done|].
  unfold may_run in Em. apply andb_true_iff in Em as [_ Em]. destruct (attempts m') as [|[|n]]; [| |done].
  - apply andb_true_iff in Em as [Hs%bool_decide_eq_true _]. congruence.
  - rewrite !andb_true_iff in Em. destruct Em as [[_ Hwant] Hyes]. rewrite Hb in Hyes.
    destruct (cleared m'); [done|]. cbn in *. apply andb_true_iff in Hyes as [_ Hyes].
    unfold default_should_bypass_approval in Hyes. destruct (cleared_first m'); [done|].
    destruct (approval_policy turn); try done. by rewrite Hw, andb_false_r in Hwant.
Qed.
End start.

(** *** The runtimes *)

Lemma cached_sound keys reason context tr decision :
  runs (with_cached_approval keys (trigger (AskUser reason context))) tr decision ->
  (approves decision = true -> Exists (fun c => yes keys c = true) tr)
  /\ Forall (fun c => forall sandbox, is_attempt sandbox c = false) tr.
Proof.
  unfold with_cached_approval. destruct (is_empty keys).
  - intros (d & tr' & -> & -> & ->). split; [intros Hd; by apply Exists_cons; left|by repeat constructor].
  - cbn. intros (store & tr' & -> & Hr). destruct (already_approved to_json store keys) eqn:Ea.
    + destruct Hr as [-> ->]. split; [intros _; by apply Exists_cons; left|by repeat constructor].
    + destruct Hr as (d & tr'' & -> & Hr).
      assert (decision = d /\ exists rest, tr'' = rest /\ Forall (fun c => forall sandbox, is_attempt sandbox c = false) rest)
        as (-> & rest & -> & Hrest).
      { destruct (is_approved_for_session d); [destruct Hr as ([] & ? & -> & -> & ->)|destruct Hr as [-> ->]];
          split; try done; eexists; (split; [done|]); by repeat constructor. }
      split; [|by repeat constructor]. intros Hd. apply Exists_cons. right. by apply Exists_cons; left.
Qed.

Lemma command_start_sound (req : CommandRequest) : sound_start (cr_approval_keys req) False (command_start_approval req).
Proof.
  intros ctx tr decision. unfold command_start_approval. destruct (ctx_guardian_review_id ctx).
  - intros (d & tr' & -> & -> & ->). split; [intros Hd; left; by apply Exists_cons; left|by repeat constructor].
  - intros [Hy Hn]%cached_sound. split; [by left; apply Hy|done].
Qed.

Lemma patch_start_sound (req : ApplyPatchRequest) :
  sound_start (ap_approval_keys req) (ap_permissions_preapproved req = true) (patch_start_approval req).
Proof.
  intros ctx tr decision. unfold patch_start_approval.
  destruct (ctx_guardian_review_id ctx); [|destruct (ap_permissions_preapproved req && bool_decide (ctx_retry_reason ctx = None)) eqn:Ep;
    [|destruct (ctx_retry_reason ctx)]].
  - intros (d & tr' & -> & -> & ->). split; [intros Hd; left; by apply Exists_cons; left|by repeat constructor].
  - intros [-> ->]. apply andb_true_iff in Ep as [-> _]. split; [by right|constructor].
  - intros (d & tr' & -> & -> & ->). split; [intros Hd; left; by apply Exists_cons; left|by repeat constructor].
  - intros [Hy Hn]%cached_sound. split; [by left; apply Hy|done].
Qed.

(** C5: a command that is to start in the sandbox gets out of it only after a
    yes: whatever the tool, the user, the guardian, the hooks and the session's
    approvals answer, any attempt of [shell] or [unified_exec] outside the sandbox
    has before it an answer that approves this call, or finds the same command
    approved for the session. *)
Theorem sandbox_left_after_yes `{Host} (hook_tool_name : str) (mode : NetworkApprovalMode) (req : CommandRequest)
    (call_id : str) (turn : TurnContext) tr r pre c post :
  let tool := command_tool hook_tool_name mode req in
  initial_sandbox tool turn <> NoSandbox ->
  runs (run_command tool req call_id turn) tr r ->
  tr = pre ++ c :: post -> is_attempt NoSandbox c = true ->
  Exists (fun c => yes (cr_approval_keys req) c = true) pre.
Proof.
  intros tool Hi Hr E Ha. apply runs_interp in Hr as (trE & Hr & Hrefines).
  destruct (refines_attempt _ _ _ (command_start_sound req) trE tr NoSandbox pre c post Hrefines E Ha)
    as (preE & cE & postE & -> & Hout & Hpre).
  destruct (refines_yes _ _ _ (command_start_sound req) preE pre Hpre) as [|[]]; [|done].
  by eapply (outside_after_yes tool call_id turn); eauto.
Qed.

(** The same for patches, where permissions that were granted before the
    call count as a yes. *)
Theorem patch_leaves_sandbox_after_yes `{Host} (req : ApplyPatchRequest) (call_id : str) (turn : TurnContext)
    tr r pre c post :
  initial_sandbox (apply_patch_tool req) turn <> NoSandbox ->
  runs (run_patch req call_id turn) tr r ->
  tr = pre ++ c :: post -> is_attempt NoSandbox c = true ->
  Exists (fun c => yes (ap_approval_keys req) c = true) pre \/ ap_permissions_preapproved req = true.
Proof.
  intros Hi Hr E Ha. apply runs_interp in Hr as (trE & Hr & Hrefines).
  destruct (refines_attempt _ _ _ (patch_start_sound req) trE tr NoSandbox pre c post Hrefines E Ha)
    as (preE & cE & postE & -> & Hout & Hpre).
  apply (refines_yes _ _ _ (patch_start_sound req) preE pre Hpre).
  by eapply (outside_after_yes (apply_patch_tool req) call_id turn); eauto.
Qed.
End Runtimes.

(** ** Examples *)

Section examples.
#[local] Instance runtimes_host : Host := plain_host [].

Definition sample_command (has_network : bool) : CommandRequest :=
  {| cr_approval_keys := [lit "key"]; cr_sandbox_permissions := UseDefault; cr_justification := None;
     cr_hook_command := lit "curl"; cr_exec_approval_requirement := NeedsApproval None None;
     cr_has_network := has_network |}.

Notation command_call := (call (SessE (Output := unit) (OtherError := unit) (Out := nat) (K := str))).

Definition no_hook (run_id : string) (req : CommandRequest (K := str)) : command_call :=
  Did (Outer (RunPermissionRequestHooks (lit run_id) (bash_payload BASH_HOOK (cr_hook_command req) None))) None.

Lemma sandbox_left_after_yes_witness :
  let req := sample_command false in
  let turn := sample_turn UnlessTrusted false in
  let pre : list command_call :=
    [no_hook "call" req; Did ReadApprovals ∅; Did (AskUser None None) Approved;
     Did (Outer (RunTool (attempt_in turn LinuxSeccomp (Some (lit "/bin/sandbox"))))) (Err (SandboxDenied tt None))] in
  Exists (fun c => yes Some (cr_approval_keys req) c = true) pre.
Proof.
  intros req turn pre.
  apply (sandbox_left_after_yes (Output := unit) (OtherError := unit) (Out := nat) Some BASH_HOOK Immediate req (lit "call") turn
           (pre ++ [Did (Outer (RunTool (attempt_in turn NoSandbox None))) (Ok 7%nat)]) (Ok (7%nat, None)) pre
           (Did (Outer (RunTool (attempt_in turn NoSandbox None))) (Ok 7%nat)) []).
  - vm_compute. discriminate.
  - cbn. repeat eexists.
  - reflexivity.
  - vm_compute. reflexivity.
Defined.

Definition sample_patch : ApplyPatchRequest :=
  {| ap_approval_keys := [lit "/work/a"]; ap_patch := lit "*** Begin Patch";
     ap_exec_approval_requirement := Skip false None; ap_permissions_preapproved := false |}.

Definition patch_hook (run_id : string) : command_call :=
  Did (Outer (RunPermissionRequestHooks (lit run_id) (mkPermissionRequest APPLY_PATCH_HOOK [(lit "command", ap_patch sample_patch)]))) None.

Definition RETRY_REASON : str := lit "command failed; retry without sandbox?".

(** A patch that the sandbox denied *)
Definition patch_calls (turn : TurnContext) : list command_call :=
  [Did (Outer (RunTool (attempt_in turn LinuxSeccomp (Some (lit "/bin/sandbox"))))) (Err (SandboxDenied tt None));
   patch_hook "call:retry"; Did (AskUser (Some RETRY_REASON) None) Approved].

Lemma patch_leaves_sandbox_after_yes_witness :
  Exists (fun c => yes Some (ap_approval_keys sample_patch) c = true) (patch_calls (sample_turn OnFailure false))
  \/ ap_permissions_preapproved sample_patch = true.
Proof.
  apply (patch_leaves_sandbox_after_yes (Output := unit) (OtherError := unit) (Out := nat) Some sample_patch (lit "call")
           (sample_turn OnFailure false)
           (patch_calls (sample_turn OnFailure false)
              ++ [Did (Outer (RunTool (attempt_in (sample_turn OnFailure false) NoSandbox None))) (Ok 7%nat)])
           (Ok (7%nat, None)) (patch_calls (sample_turn OnFailure false))
           (Did (Outer (RunTool (attempt_in (sample_turn OnFailure false) NoSandbox None))) (Ok 7%nat)) []).
  - vm_compute. discriminate.
  - cbn. repeat eexists.
  - reflexivity.
  - vm_compute. reflexivity.
Defined.

(** A patch is tried again outside the sandbox also under [OnRequest]. *)
Example patch_retried_on_request :
  exists tr, runs (run_patch (Output := unit) (OtherError := unit) (Out := nat) Some sample_patch (lit "call")
                     (sample_turn OnRequest false)) tr (Ok (7%nat, None))
  /\ Exists (fun c => is_attempt NoSandbox c = true) tr.
Proof.
  exists (patch_calls (sample_turn OnRequest false)
          ++ [Did (Outer (RunTool (attempt_in (sample_turn OnRequest false) NoSandbox None))) (Ok 7%nat)]).
  split; [cbn; repeat eexists|]. do 3 (apply Exists_cons; right). apply Exists_cons. left. by vm_compute.
Qed.

End examples.
