(* ===== verification/Bubblewrap.v ===== *)
(** * Bubblewrap: the sandbox of Linux

    [linux-sandbox/src/bwrap.rs]: from a policy to the arguments of bubblewrap,
    in the order in which it mounts them.  An argument is kept by the operation
    it spells.  What bubblewrap makes of them is the class [Mounts]. *)

From S2P Require Import Prelude Paths HostPaths Permissions WritableRoots Decimal.
Local Open Scope str_scope.

(** ** Arguments *)

Inductive MountArg : Type :=
| RoBind (source dest : str)
| BindArg (source dest : str)
| Tmpfs (perms : option str) (dest : str)
| DevArg (dest : str)
| RoBindData (perms fd dest : str)
| RemountRo (dest : str)
| DirArg (dest : str).

Definition spell_perms (perms : str) : list str := [lit "--perms"; perms].

Definition spell (a : MountArg) : list str :=
  match a with
  | RoBind source dest => [lit "--ro-bind"; source; dest]
  | BindArg source dest => [lit "--bind"; source; dest]
  | Tmpfs perms dest => match perms with Some p => spell_perms p | None => [] end ++ [lit "--tmpfs"; dest]
  | DevArg dest => [lit "--dev"; dest]
  | RoBindData perms fd dest => spell_perms perms ++ [lit "--ro-bind-data"; fd; dest]
  | RemountRo dest => [lit "--remount-ro"; dest]
  | DirArg dest => [lit "--dir"; dest]
  end.

Definition LINUX_PLATFORM_DEFAULT_READ_ROOTS : list str :=
  [lit "/bin"; lit "/sbin"; lit "/usr"; lit "/etc"; lit "/lib"; lit "/lib64"; lit "/nix/store"; lit "/run/current-system/sw"].

Definition MAX_UNREADABLE_GLOB_MATCHES : nat := 8192.
#[local] Arguments MAX_UNREADABLE_GLOB_MATCHES : simpl never.

Inductive BwrapNetworkMode : Type := FullAccess | Isolated | ProxyOnly.

Definition should_unshare_network (mode : BwrapNetworkMode) : bool :=
  match mode with FullAccess => false | _ => true end.

Record BwrapOptions : Type := mkBwrapOptions {
  mount_proc : bool;
  network_mode : BwrapNetworkMode;
  glob_scan_max_depth : option nat;
}.

Definition default_bwrap_options : BwrapOptions := mkBwrapOptions true FullAccess None.

(** [preserved_files] holds at most the descriptor of /dev/null. *)
Record BwrapArgs {A : Type} : Type := mkBwrapArgs {
  bwrap_args : list A;
  preserved_files : list str;
}.
Arguments BwrapArgs A : clear implicits.

(** ** Paths *)

Definition DEV : str := lit "/dev".
Definition DEV_NULL : str := lit "/dev/null".

Definition path_depth (path : str) : nat := length (components path).

Definition sort_by_depth (paths : list str) : list str :=
  sort_by (fun a b => (path_depth a <=? path_depth b)%nat) paths.

(** [Ord] of paths: by components, in the order of their declaration *)
Definition component_rank (c : Component) : nat :=
  match c with RootDir => 0 | CurDir => 1 | ParentDir => 2 | Normal _ => 3 end.

Definition component_leb (a b : Component) : bool :=
  match a, b with
  | Normal s, Normal t => str_leb s t
  | _, _ => (component_rank a <=? component_rank b)%nat
  end.

Fixpoint components_leb (a b : list Component) : bool :=
  match a, b with
  | [], _ => true
  | _ :: _, [] => false
  | x :: a, y :: b => if bool_decide (x = y) then components_leb a b else component_leb x y
  end.

Definition path_leb (a b : str) : bool := components_leb (components a) (components b).

(** [Vec::dedup] of paths, and the elements of a [BTreeSet] of paths *)
Fixpoint dedup_adjacent_paths (l : list str) : list str :=
  match l with
  | [] => []
  | x :: l' =>
      match l' with
      | [] => [x]
      | y :: _ => if path_eqb x y then dedup_adjacent_paths l' else x :: dedup_adjacent_paths l'
      end
  end.

Definition path_set (l : list str) : list str := dedup_adjacent_paths (sort_by path_leb l).

(** [max_by_key(path_depth)]: the last of the deepest *)
Definition deepest (l : list str) : option str := max_by (fun a b => (path_depth a <=? path_depth b)%nat) l.

Section bwrap.
Context `{Host}.

(** The loops over the components of a path: [visit] may stop at a prefix. *)
Fixpoint walk_prefixes {A} (visit : str -> option A) (cs : list Component) (current : str) : option A :=
  match cs with
  | [] => None
  | RootDir :: cs => walk_prefixes visit cs (push current (lit "/"))
  | CurDir :: cs => walk_prefixes visit cs current
  | ParentDir :: cs => walk_prefixes visit cs (pop current)
  | Normal part :: cs =>
      let current := push current part in
      match visit current with Some r => Some r | None => walk_prefixes visit cs current end
  end.

Definition canonical_target_if_symlinked_path (path : str) : option str :=
  default None
    (walk_prefixes (fun current =>
       match h_symlink_metadata current with
       | None => Some None
       | Some true =>
           Some (target ← h_canonicalize path; if path_eqb target path then None else Some target)
       | Some false => None
       end) (components path) []).

Definition is_within_allowed_write_paths (path : str) (allowed_write_paths : list str) : bool :=
  existsb (path_starts_with path) allowed_write_paths.

Definition first_writable_symlink_component_in_path (target_path : str) (allowed_write_paths : list str) : option str :=
  default None
    (walk_prefixes (fun current =>
       match h_symlink_metadata current with
       | None => Some None
       | Some is_symlink =>
           if is_symlink && is_within_allowed_write_paths current allowed_write_paths then Some (Some current) else None
       end) (components target_path) []).

Definition find_first_non_existent_component (target_path : str) : option str :=
  walk_prefixes (fun current => if negb (h_exists current) then Some current else None) (components target_path) [].

Definition remap_paths_for_symlink_target (paths : list str) (root target : str) : list str :=
  map (fun path => match path_strip_prefix path root with
                   | Some relative => push target (path_of_components relative)
                   | None => path
                   end) paths.

Definition normalize_command_cwd_for_bwrap (command_cwd : str) : str :=
  default command_cwd (h_canonicalize command_cwd).

(** ** Globs *)

Definition is_glob_char (c : N) : bool := existsb (N.eqb c) [ch "*"; ch "?"; ch "["; ch "]"].

(** The loop of [escape_unclosed_glob_classes]; [class] is the text since an
    open bracket. *)
Fixpoint escape_classes (glob : str) (class : option str) : str :=
  match glob, class with
  | [], None => []
  | [], Some text => lit "\[" ++ text
  | c :: glob, None => if N.eqb c (ch "[") then escape_classes glob (Some []) else c :: escape_classes glob None
  | c :: glob, Some text =>
      if N.eqb c (ch "]") then ch "[" :: text ++ ch "]" :: escape_classes glob None
      else escape_classes glob (Some (text ++ [c]))
  end.

Definition escape_unclosed_glob_classes (glob : str) : str := escape_classes glob None.

Definition split_pattern_for_ripgrep (pattern cwd : str) : option (str * str) :=
  let pattern := resolve_path_against_base h_home_dir pattern cwd in
  first_glob_index ← find_index is_glob_char pattern;
  let static_prefix := take first_glob_index pattern in
  if is_empty static_prefix || (static_prefix =? lit "/") then None
  else
    let search_root_end :=
      if ends_with static_prefix (lit "/") then (length static_prefix - 1)%nat
      else default 0%nat (rfind_index (N.eqb SEP) static_prefix) in
    let search_root := if (search_root_end =? 0)%nat then lit "/" else take search_root_end pattern in
    match from_absolute_path_checked h_home_dir search_root with
    | Err _ => None
    | Ok search_root =>
        let glob := escape_unclosed_glob_classes (drop (search_root_end + 1) pattern) in
        if is_empty glob then None else Some (search_root, glob)
    end.

(** The [BTreeMap] of the patterns of each search root *)
Fixpoint add_glob (search_root glob : str) (groups : list (str * list str)) : list (str * list str) :=
  match groups with
  | [] => [(search_root, [glob])]
  | (root, globs) :: groups =>
      if path_eqb root search_root then (root, globs ++ [glob]) :: groups
      else if path_leb search_root root then (search_root, [glob]) :: (root, globs) :: groups
      else (root, globs) :: add_glob search_root glob groups
  end.

Definition too_many_matches (search_root : str) : str :=
  lit "unreadable glob expansion for " ++ search_root ++ lit " matched more than "
  ++ show_nat MAX_UNREADABLE_GLOB_MATCHES ++ lit " paths".

(** What [rg], or the walk that stands in for it, finds; the descriptor of
    /dev/null, or why it could not be opened *)
Context (ripgrep_files : str -> list str -> option nat -> result str (list str)) (null_fd : result str str).

Definition insert_path (expanded_paths : list str) (path : str) : list str :=
  if existsb (path_eqb path) expanded_paths then expanded_paths else insert_sorted path_leb path expanded_paths.

Fixpoint record_matches (search_root : str) (paths expanded_paths : list str) : result str (list str) :=
  match paths with
  | [] => Ok expanded_paths
  | path :: paths =>
      expanded_paths ←
        (match canonical_target_if_symlinked_path path with
         | Some target =>
             target ← from_absolute_path_checked h_home_dir target;
             Ok (insert_path expanded_paths target)
         | None => Ok expanded_paths
         end);
      let expanded_paths := insert_path expanded_paths path in
      if (MAX_UNREADABLE_GLOB_MATCHES <? length expanded_paths)%nat then Err (too_many_matches search_root)
      else record_matches search_root paths expanded_paths
  end.

Fixpoint expand_groups (groups : list (str * list str)) (max_depth : option nat) (expanded_paths : list str)
    : result str (list str) :=
  match groups with
  | [] => Ok expanded_paths
  | (search_root, globs) :: groups =>
      paths ← ripgrep_files search_root globs max_depth;
      expanded_paths ← record_matches search_root paths expanded_paths;
      expand_groups groups max_depth expanded_paths
  end.

Definition expand_unreadable_globs_with_ripgrep (patterns : list str) (cwd : str) (max_depth : option nat)
    : result str (list str) :=
  if is_empty patterns || bool_decide (max_depth = Some 0%nat) then Ok []
  else
    let patterns_by_search_root :=
      foldl (fun groups pattern =>
        match split_pattern_for_ripgrep pattern cwd with
        | Some (search_root, glob) => if h_is_dir search_root then add_glob search_root glob groups else groups
        | None => groups
        end) [] patterns in
    expand_groups patterns_by_search_root max_depth [].

(** ** Mounts *)

Fixpoint take_until_anchor (anchor : str) (l : list str) : list str :=
  match l with
  | [] => []
  | path :: l => if path_eqb path anchor then [] else path :: take_until_anchor anchor l
  end.

Definition append_mount_target_parent_dir_args (mount_target anchor : str) : list MountArg :=
  match (if h_is_dir mount_target then Some mount_target else parent mount_target) with
  | None => []
  | Some mount_target_dir => map DirArg (rev (take_until_anchor anchor (ancestors mount_target_dir)))
  end.

Definition crosses_symlink (what : string) (path symlink : str) : str :=
  lit "cannot enforce sandbox " ++ lit what ++ lit " path " ++ path ++ lit " because it crosses writable symlink " ++ symlink.

(** What keeps a path that does not exist from being created *)
Definition mask_missing (path : str) (allowed_write_paths : list str) : list MountArg :=
  match find_first_non_existent_component path with
  | Some first_missing_component =>
      if is_within_allowed_write_paths first_missing_component allowed_write_paths
      then [RoBind DEV_NULL first_missing_component] else []
  | None => []
  end.

Definition append_read_only_subpath_args (subpath : str) (allowed_write_paths : list str) : result str (list MountArg) :=
  match first_writable_symlink_component_in_path subpath allowed_write_paths with
  | Some symlink => Err (crosses_symlink "read-only" subpath symlink)
  | None =>
      Ok (if negb (h_exists subpath) then mask_missing subpath allowed_write_paths
          else if is_within_allowed_write_paths subpath allowed_write_paths then [RoBind subpath subpath]
          else [])
  end.

(** The arguments and the preserved files, which come before and after *)
Definition append_existing_unreadable_path_args (preserved : list str) (unreadable_root : str)
    (allowed_write_paths : list str) : result str (list MountArg * list str) :=
  if h_is_dir unreadable_root then
    let writable_descendants :=
      List.filter (fun path => negb (path_eqb path unreadable_root) && path_starts_with path unreadable_root)
        allowed_write_paths in
    Ok (Tmpfs (Some (if is_empty writable_descendants then lit "000" else lit "111")) unreadable_root
        :: concat (map (fun d => append_mount_target_parent_dir_args d unreadable_root) (sort_by_depth writable_descendants))
        ++ [RemountRo unreadable_root], preserved)
  else
    match preserved with
    | fd :: _ => Ok ([RoBindData (lit "000") fd unreadable_root], preserved)
    | [] => fd ← null_fd; Ok ([RoBindData (lit "000") fd unreadable_root], [fd])
    end.

Definition append_unreadable_root_args (preserved : list str) (unreadable_root : str) (allowed_write_paths : list str)
    : result str (list MountArg * list str) :=
  match first_writable_symlink_component_in_path unreadable_root allowed_write_paths with
  | Some symlink => Err (crosses_symlink "deny-read" unreadable_root symlink)
  | None =>
      if negb (h_exists unreadable_root) then Ok (mask_missing unreadable_root allowed_write_paths, preserved)
      else append_existing_unreadable_path_args preserved unreadable_root allowed_write_paths
  end.

(** The loops over paths to mask *)
Fixpoint mask_all (paths allowed_write_paths : list str) (preserved : list str) : result str (list MountArg * list str) :=
  match paths with
  | [] => Ok ([], preserved)
  | path :: paths =>
      '(args, preserved) ← append_unreadable_root_args preserved path allowed_write_paths;
      '(rest, preserved) ← mask_all paths allowed_write_paths preserved;
      Ok (args ++ rest, preserved)
  end.

Definition read_only_all (paths allowed_write_paths : list str) : result str (list MountArg) :=
  @concat _ <$> collect (map (fun p => append_read_only_subpath_args p allowed_write_paths) paths).

Definition contains_path (paths : list str) (path : str) : bool := existsb (path_eqb path) paths.

(** The turn of the loop for one writable root *)
Definition mount_writable_root (unreadable_roots missing_metadata allowed_write_paths : list str)
    (preserved : list str) (writable_root : WritableRoot) : result str (list MountArg * list str) :=
  let root := WritableRoots.root writable_root in
  let symlink_target := canonical_target_if_symlinked_path root in
  let remap paths :=
    match symlink_target with Some target => remap_paths_for_symlink_target paths root target | None => paths end in
  let parents :=
    match deepest (List.filter (path_starts_with root) unreadable_roots) with
    | Some masking_root => append_mount_target_parent_dir_args root masking_root
    | None => []
    end in
  let mount_root := default root symlink_target in
  let read_only_subpaths :=
    List.filter (fun path => negb (contains_path unreadable_roots path) && negb (contains_path missing_metadata path))
      (read_only_subpaths writable_root) in
  read_only ← read_only_all (sort_by_depth (remap read_only_subpaths)) allowed_write_paths;
  '(masks, preserved) ←
    mask_all (sort_by_depth (remap (List.filter (fun path => path_starts_with path root) unreadable_roots)))
      allowed_write_paths preserved;
  Ok (parents ++ [BindArg mount_root mount_root] ++ read_only ++ masks, preserved).

Fixpoint mount_writable_roots (unreadable_roots missing_metadata allowed_write_paths : list str)
    (preserved : list str) (writable_roots : list WritableRoot) : result str (list MountArg * list str) :=
  match writable_roots with
  | [] => Ok ([], preserved)
  | writable_root :: writable_roots =>
      '(args, preserved) ← mount_writable_root unreadable_roots missing_metadata allowed_write_paths preserved writable_root;
      '(rest, preserved) ← mount_writable_roots unreadable_roots missing_metadata allowed_write_paths preserved writable_roots;
      Ok (args ++ rest, preserved)
  end.

(** What everything else is mounted over *)
Definition base_mounts (policy : FileSystemSandboxPolicy) (cwd : str) (writable_roots : list WritableRoot) : list MountArg :=
  let whole := [RoBind (lit "/") (lit "/"); DevArg DEV] in
  if has_full_disk_read_access policy then whole
  else
    let readable_roots :=
      path_set (get_readable_roots_with_cwd policy cwd
                ++ (if include_platform_defaults policy
                    then List.filter h_exists LINUX_PLATFORM_DEFAULT_READ_ROOTS else [])) in
    if existsb (fun root => path_eqb root (lit "/")) readable_roots then whole
    else
      Tmpfs None (lit "/") :: DevArg DEV
      :: map (fun root =>
           let mount_root :=
             if existsb (fun w => path_starts_with root (WritableRoots.root w)) writable_roots
             then default root (canonical_target_if_symlinked_path root) else root in
           RoBind mount_root mount_root)
         (List.filter h_exists readable_roots).

(** Automatic read masks of missing metadata of the project are left out. *)
Definition missing_auto_metadata (policy : FileSystemSandboxPolicy) (cwd : str) : list str :=
  omap (fun entry =>
    match entry_path entry with
    | Special (ProjectRoots (Some subpath)) =>
        if negb (path_eqb subpath (lit ".git")) && negb (path_eqb subpath (lit ".agents")) then None
        else
          let resolved := resolve_path_against_base h_home_dir subpath cwd in
          if negb (h_exists resolved) then Some resolved else None
    | _ => None
    end) (List.filter (fun entry => bool_decide (entry_access entry = AccessRead)) (fs_entries policy)).

Definition existing_writable_roots (policy : FileSystemSandboxPolicy) (cwd : str) : list WritableRoot :=
  let writable_roots :=
    List.filter (fun w => h_exists (WritableRoots.root w)) (get_writable_roots_with_cwd policy cwd) in
  if is_empty writable_roots && has_full_disk_write_access policy
     && negb (is_empty (get_unreadable_globs_with_cwd policy cwd))
  then [mkWritableRoot (lit "/") [] []] else writable_roots.

Definition allowed_write_paths_of (writable_roots : list WritableRoot) : list str :=
  concat (map (fun w => WritableRoots.root w ::
    match canonical_target_if_symlinked_path (WritableRoots.root w) with Some target => [target] | None => [] end)
    writable_roots).

Definition sort_roots_by_depth (writable_roots : list WritableRoot) : list WritableRoot :=
  sort_by (fun a b => (path_depth (WritableRoots.root a) <=? path_depth (WritableRoots.root b))%nat) writable_roots.

Definition ancestors_to_mask (unreadable_roots allowed_write_paths : list str) : list str :=
  List.filter (fun u => negb (existsb (path_starts_with u) allowed_write_paths)
                        && existsb (fun w => path_starts_with w u) allowed_write_paths) unreadable_roots.

Definition rootless_to_mask (unreadable_roots allowed_write_paths : list str) : list str :=
  List.filter (fun u => negb (existsb (fun w => path_starts_with u w || path_starts_with w u) allowed_write_paths))
    unreadable_roots.

Definition unreadable_roots_of (policy : FileSystemSandboxPolicy) (cwd : str) (glob_scan_max_depth : option nat)
    : result str (list str) :=
  expanded ← expand_unreadable_globs_with_ripgrep (get_unreadable_globs_with_cwd policy cwd) cwd glob_scan_max_depth;
  Ok (path_set (get_unreadable_roots_with_cwd policy cwd ++ expanded)).

Definition create_filesystem_args (policy : FileSystemSandboxPolicy) (cwd : str) (glob_scan_max_depth : option nat)
    : result str (BwrapArgs MountArg) :=
  let writable_roots := existing_writable_roots policy cwd in
  unreadable_roots ← unreadable_roots_of policy cwd glob_scan_max_depth;
  let allowed_write_paths := allowed_write_paths_of writable_roots in
  '(ancestors, preserved) ←
    mask_all (sort_by_depth (ancestors_to_mask unreadable_roots allowed_write_paths)) allowed_write_paths [];
  '(roots, preserved) ←
    mount_writable_roots unreadable_roots (missing_auto_metadata policy cwd) allowed_write_paths preserved
      (sort_roots_by_depth writable_roots);
  '(rootless, preserved) ←
    mask_all (sort_by_depth (rootless_to_mask unreadable_roots allowed_write_paths)) allowed_write_paths preserved;
  Ok (mkBwrapArgs _ (base_mounts policy cwd writable_roots ++ ancestors ++ roots ++ rootless) preserved).

(** ** The command line *)

Definition new_session_args : list str := [lit "--new-session"; lit "--die-with-parent"].

Definition namespace_args (options : BwrapOptions) : list str :=
  [lit "--unshare-user"; lit "--unshare-pid"]
  ++ (if should_unshare_network (network_mode options) then [lit "--unshare-net"] else [])
  ++ (if mount_proc options then [lit "--proc"; lit "/proc"] else []).

Definition create_bwrap_flags_full_filesystem (command : list str) (options : BwrapOptions) : BwrapArgs str :=
  mkBwrapArgs _ (new_session_args ++ spell (BindArg (lit "/") (lit "/")) ++ namespace_args options ++ [lit "--"] ++ command) [].

Definition create_bwrap_flags (command : list str) (policy : FileSystemSandboxPolicy)
    (sandbox_policy_cwd command_cwd : str) (options : BwrapOptions) : result str (BwrapArgs str) :=
  filesystem ← create_filesystem_args policy sandbox_policy_cwd
    (match glob_scan_max_depth options with Some d => Some d | None => fs_glob_scan_max_depth policy end);
  let normalized_command_cwd := normalize_command_cwd_for_bwrap command_cwd in
  Ok (mkBwrapArgs _
        (new_session_args ++ concat (map spell (bwrap_args filesystem)) ++ namespace_args options
         ++ (if negb (path_eqb normalized_command_cwd command_cwd) then [lit "--chdir"; normalized_command_cwd] else [])
         ++ [lit "--"] ++ command)
        (preserved_files filesystem)).

Definition create_bwrap_command_args (command : list str) (policy : FileSystemSandboxPolicy)
    (sandbox_policy_cwd command_cwd : str) (options : BwrapOptions) : result str (BwrapArgs str) :=
  let unreadable_globs := get_unreadable_globs_with_cwd policy sandbox_policy_cwd in
  if has_full_disk_write_access policy && is_empty unreadable_globs then
    Ok (match network_mode options with
        | FullAccess => mkBwrapArgs _ command []
        | _ => create_bwrap_flags_full_filesystem command options
        end)
  else create_bwrap_flags command policy sandbox_policy_cwd command_cwd options.
End bwrap.

(** ** What the mounts show *)

Inductive Seen : Type := NotThere | Hidden | ReadOnly | Writable | Device.

Definition dest (a : MountArg) : str :=
  match a with
  | RoBind _ d | BindArg _ d | Tmpfs _ d | DevArg d | RoBindData _ _ d | RemountRo d | DirArg d => d
  end.

Definition what (a : MountArg) : option Seen :=
  match a with
  | RoBind _ _ => Some ReadOnly
  | BindArg _ _ => Some Writable
  | Tmpfs _ _ | RoBindData _ _ _ => Some Hidden
  | DevArg _ => Some Device
  | RemountRo _ | DirArg _ => None
  end.

(** Bubblewrap mounts in the order of its arguments, and a mount covers what is
    below its destination. *)
Class Mounts : Type := {
  seen : list MountArg -> str -> Seen;
  seen_nil p : seen [] p = NotThere;
  seen_mount l a p s : what a = Some s -> path_starts_with p (dest a) = true -> seen (l ++ [a]) p = s;
  seen_other l a p : what a = None \/ path_starts_with p (dest a) = false -> seen (l ++ [a]) p = seen l p;
}.

(** The last mount that covers a path *)
Fixpoint final (l : list MountArg) (p : str) : option Seen :=
  match l with
  | [] => None
  | a :: l => match final l p with
              | Some s => Some s
              | None => if path_starts_with p (dest a) then what a else None
              end
  end.

Lemma final_app l l' p : final (l ++ l') p = match final l' p with Some s => Some s | None => final l p end.
Proof. induction l as [|a l IH]; cbn; [by destruct (final l' p)|]. rewrite IH. by destruct (final l' p). Qed.

Lemma seen_final `{Mounts} l p : seen l p = default NotThere (final l p).
Proof.
  induction l as [|a l IH] using rev_ind; [apply seen_nil|]. rewrite final_app. cbn.
  destruct (path_starts_with p (dest a)) eqn:E.
  - destruct (what a) as [s|] eqn:Ew; [by apply seen_mount|]. rewrite seen_other by (by left). done.
  - rewrite seen_other by (by right). done.
Qed.

Definition quiet (l : list MountArg) : Prop := Forall (fun a => what a = None) l.

Lemma final_quiet l p : quiet l -> final l p = None.
Proof. induction 1 as [|a l Ha Hl IH]; [done|]. cbn. rewrite IH, Ha. by destruct (path_starts_with p (dest a)). Qed.

Lemma final_concat_None ls p : final (concat ls) p = None <-> Forall (fun l => final l p = None) ls.
Proof.
  induction ls as [|l ls IH]; cbn; [done|]. rewrite final_app, Forall_cons.
  destruct (final (concat ls) p) eqn:E.
  - split; [done|]. intros [_ H%IH]. done.
  - rewrite <- IH. tauto.
Qed.

Lemma final_concat_Some ls p s :
  final (concat ls) p = Some s ->
  exists before l after, ls = before ++ l :: after /\ final l p = Some s /\ Forall (fun l => final l p = None) after.
Proof.
  induction ls as [|l ls IH]; cbn; [done|]. rewrite final_app. destruct (final (concat ls) p) as [s'|] eqn:E.
  - intros [= ->]. destruct (IH eq_refl) as (before & l' & after & -> & H & Ha). by exists (l :: before), l', after.
  - intros H. exists [], l, ls. split; [done|]. split; [done|]. by apply final_concat_None.
Qed.

Section mounted.
Context `{Host} {Hok : HostOk} {Hsym : NoSymlinks}.

(** What is above an existing path exists. *)
Definition tree : Prop :=
  forall p q, normal_abs p -> normal_abs q -> path_starts_with p q = true -> h_exists p = true -> h_exists q = true.
Hypothesis Htree : tree.

Lemma walk_prefixes_spec {A} (visit : str -> option A) segs0 segs :
  Forall good_seg (segs0 ++ segs) ->
  match walk_prefixes visit (map Normal segs) (render_abs segs0) with
  | Some r => exists pre s post, segs = pre ++ s :: post /\ visit (render_abs (segs0 ++ pre ++ [s])) = Some r
  | None => forall pre s post, segs = pre ++ s :: post -> visit (render_abs (segs0 ++ pre ++ [s])) = None
  end.
Proof.
  revert segs0. induction segs as [|s segs IH]; intros segs0 Hg; cbn.
  - intros [|? ?] ? ?; discriminate.
  - rewrite push_render_abs by (apply Forall_app in Hg as [? [? ?]%Forall_cons]; done).
    destruct (visit (render_abs (segs0 ++ [s]))) as [r|] eqn:Ev; [by exists [], s, segs|].
    specialize (IH (segs0 ++ [s])). rewrite <- app_assoc in IH. specialize (IH Hg).
    destruct (walk_prefixes visit (map Normal segs) (render_abs (segs0 ++ [s]))) as [r|].
    + destruct IH as (pre & t & post & -> & Hv). exists (s :: pre), t, post. split; [done|]. by rewrite <- app_assoc in Hv.
    + intros [|t pre] u post E; injection E as <- ->; [done|]. specialize (IH pre u post eq_refl). by rewrite <- app_assoc in IH.
Qed.

Lemma walk_prefixes_all {A} (visit : str -> option A) (P : A -> Prop) cs current r :
  (forall c r, visit c = Some r -> P r) -> walk_prefixes visit cs current = Some r -> P r.
Proof.
  intros Hv. revert current. induction cs as [|[| | |s] cs IH]; intros current; cbn; [done|apply IH..|].
  destruct (visit (push current s)) as [r'|] eqn:E; [intros [= <-]; by eapply Hv|apply IH].
Qed.

Lemma no_target p : canonical_target_if_symlinked_path p = None.
Proof.
  unfold canonical_target_if_symlinked_path. destruct (walk_prefixes _ _ _) as [r|] eqn:E; [|done]. cbn.
  eapply (walk_prefixes_all _ (fun r => r = None)); [|exact E]. intros c r' Hc. cbn beta in Hc.
  pose proof (no_symlink c) as Hn. destruct (h_symlink_metadata c) as [[]|]; [done|done|by injection Hc as <-].
Qed.

Lemma no_writable_symlink p allowed : first_writable_symlink_component_in_path p allowed = None.
Proof.
  unfold first_writable_symlink_component_in_path. destruct (walk_prefixes _ _ _) as [r|] eqn:E; [|done]. cbn.
  eapply (walk_prefixes_all _ (fun r => r = None)); [|exact E]. intros c r' Hc. cbn beta in Hc.
  pose proof (no_symlink c) as Hn. destruct (h_symlink_metadata c) as [[]|]; [done|done|by injection Hc as <-].
Qed.

Lemma first_missing_spec u :
  normal_abs u -> h_exists u = false -> h_exists (lit "/") = true ->
  exists f, find_first_non_existent_component u = Some f /\ normal_abs f /\ h_exists f = false
            /\ path_starts_with u f = true.
Proof.
  intros (segs & Hg & ->) Hu Hroot. unfold find_first_non_existent_component.
  rewrite components_render_abs by done. cbn [walk_prefixes]. change (push [] (lit "/")) with (render_abs []).
  pose proof (walk_prefixes_spec (fun current => if negb (h_exists current) then Some current else None) [] segs Hg) as Hw.
  destruct (walk_prefixes _ _ _) as [f|].
  - destruct Hw as (pre & s & post & -> & Hf). cbn [app] in Hf. cbn beta in Hf. exists f. split; [done|].
    destruct (h_exists (render_abs (pre ++ [s]))) eqn:E; [done|]. injection Hf as <-.
    change (pre ++ s :: post) with (pre ++ [s] ++ post) in Hg |- *. rewrite app_assoc in Hg |- *.
    pose proof (proj1 (Forall_app _ _ _) Hg) as [Hg1 _]. split_and!; [by exists (pre ++ [s])|done|].
    apply path_starts_with_spec. rewrite !components_render_abs by done. rewrite (map_app _ (pre ++ [s])). by exists (map Normal post).
  - destruct segs as [|s segs _] using rev_ind; [change (render_abs []) with (lit "/") in Hu; congruence|].
    specialize (Hw segs s [] eq_refl). cbn [app] in Hw. cbn beta in Hw. by rewrite Hu in Hw.
Qed.

(** *** Masks *)

Lemma final_one a p : final [a] p = if path_starts_with p (dest a) then what a else None.
Proof. done. Qed.

Lemma parents_quiet t anchor : quiet (append_mount_target_parent_dir_args t anchor).
Proof.
  unfold append_mount_target_parent_dir_args, quiet. destruct (if h_is_dir t then Some t else parent t); [|constructor].
  apply Forall_forall. intros a Ha%list_elem_of_In. apply in_map_iff in Ha as (d & <- & _). done.
Qed.

Lemma quiet_concat {A} (f : A -> list MountArg) l : (forall x, quiet (f x)) -> quiet (concat (map f l)).
Proof. intros Hf. unfold quiet. induction l as [|x l IH]; cbn; [constructor|]. by apply Forall_app; split; [apply Hf|]. Qed.

(** What masks one path *)
Definition mask_piece (allowed : list str) (u : str) (l : list MountArg) : Prop :=
  if h_exists u then forall p, final l p = if path_starts_with p u then Some Hidden else None
  else l = mask_missing u allowed.

Context (null_fd : result str str).

Lemma append_unreadable_piece preserved u allowed args preserved' :
  append_unreadable_root_args null_fd preserved u allowed = Ok (args, preserved') -> mask_piece allowed u args.
Proof.
  unfold append_unreadable_root_args, mask_piece. rewrite no_writable_symlink.
  destruct (h_exists u); cbn [negb]; [|by intros [= <- _]].
  unfold append_existing_unreadable_path_args. destruct (h_is_dir u).
  - intros [= <- _] p. change (Tmpfs ?a ?b :: ?l) with ([Tmpfs a b] ++ l). rewrite final_app.
    rewrite final_quiet; [done|]. apply Forall_app. split; [apply quiet_concat; intros; apply parents_quiet|by constructor].
  - destruct preserved as [|fd preserved].
    + destruct null_fd as [fd|e]; [|done]. by intros [= <- _] p.
    + by intros [= <- _] p.
Qed.

Lemma mask_all_pieces paths allowed preserved args preserved' :
  mask_all null_fd paths allowed preserved = Ok (args, preserved') ->
  exists pieces, args = concat pieces /\ Forall2 (mask_piece allowed) paths pieces.
Proof.
  revert preserved args. induction paths as [|u paths IH]; intros preserved args; cbn.
  - intros [= <- _]. by exists [].
  - intros ([a1 p1] & H1 & ([a2 p2] & H2 & [= <- <-])%result_bind_Ok)%result_bind_Ok.
    destruct (IH _ _ H2) as (pieces & -> & Hp). exists (a1 :: pieces). split; [done|].
    constructor; [|done]. by eapply append_unreadable_piece.
Qed.

(** A mask only hides; or it keeps a missing path from being created. *)
Lemma mask_missing_final u allowed p s :
  final (mask_missing u allowed) p = Some s ->
  s = ReadOnly /\ exists f, find_first_non_existent_component u = Some f /\ path_starts_with p f = true.
Proof.
  unfold mask_missing. destruct (find_first_non_existent_component u) as [f|]; [|done].
  destruct (is_within_allowed_write_paths f allowed); [|done]. rewrite final_one. cbn.
  destruct (path_starts_with p f) eqn:E; [|done]. intros [= <-]. eauto.
Qed.

Lemma masks_not_writable paths pieces allowed p :
  Forall2 (mask_piece allowed) paths pieces -> final (concat pieces) p <> Some Writable.
Proof.
  intros Hp (before & l & after & -> & Hl & _)%final_concat_Some.
  apply Forall2_app_inv_r in Hp as (? & ? & _ & H2 & ->). inversion H2 as [|u ? ? ? Hu]; subst.
  unfold mask_piece in Hu. destruct (h_exists u).
  - rewrite Hu in Hl. by destruct (path_starts_with p u).
  - subst l. by apply mask_missing_final in Hl as [? _].
Qed.

(** A path that exists, with what is above it *)
Lemma mask_missing_exists u allowed p :
  normal_abs u -> normal_abs p -> h_exists u = false -> h_exists p = true -> final (mask_missing u allowed) p = None.
Proof.
  intros Hun Hpn Hu Hp. destruct (final _ p) as [s|] eqn:E; [|done].
  apply mask_missing_final in E as [_ (f & Hf & Hs)].
  destruct (first_missing_spec u) as (f' & Hf' & Hfn & Hfe & _); [done|done|by apply (Htree p); [done|apply normal_root|apply path_starts_with_root, normal_abs_absolute|]|].
  rewrite Hf in Hf'. injection Hf' as <-. by rewrite (Htree p f) in Hfe.
Qed.

Lemma masks_exist paths pieces allowed p :
  Forall2 (mask_piece allowed) paths pieces -> Forall normal_abs paths -> normal_abs p -> h_exists p = true ->
  final (concat pieces) p = if existsb (path_starts_with p) (List.filter h_exists paths) then Some Hidden else None.
Proof.
  intros Hp Hn Hpn Hpe. induction Hp as [|u l paths pieces Hu Hp IH]; [done|].
  apply Forall_cons in Hn as [Hun Hn]. specialize (IH Hn). cbn. rewrite final_app, IH.
  unfold mask_piece in Hu. destruct (h_exists u) eqn:E; cbn.
  - rewrite Hu. by destruct (existsb _ _), (path_starts_with p u).
  - subst l. rewrite mask_missing_exists by done. by destruct (existsb _ _).
Qed.

(** *** Read-only paths *)

Definition read_only_args (allowed : list str) (s : str) : list MountArg :=
  if negb (h_exists s) then mask_missing s allowed
  else if is_within_allowed_write_paths s allowed then [RoBind s s] else [].

Lemma append_read_only_args allowed s : append_read_only_subpath_args s allowed = Ok (read_only_args allowed s).
Proof. unfold append_read_only_subpath_args, read_only_args. by rewrite no_writable_symlink. Qed.

Lemma read_only_all_args paths allowed :
  read_only_all paths allowed = Ok (concat (map (read_only_args allowed) paths)).
Proof.
  unfold read_only_all. assert (collect (map (fun p => append_read_only_subpath_args p allowed) paths)
    = Ok (map (read_only_args allowed) paths)) as ->; [|done].
  induction paths as [|s paths IH]; [done|]. cbn [map collect]. by rewrite append_read_only_args, IH.
Qed.

Lemma read_only_args_final allowed s p v : final (read_only_args allowed s) p = Some v -> v = ReadOnly.
Proof.
  unfold read_only_args. destruct (h_exists s); cbn [negb].
  - destruct (is_within_allowed_write_paths s allowed); [|done]. rewrite final_one. cbn.
    destruct (path_starts_with p s); [by intros [= <-]|done].
  - by intros [? _]%mask_missing_final.
Qed.

Lemma read_only_final allowed l p v :
  final (concat (map (read_only_args allowed) l)) p = Some v -> v = ReadOnly.
Proof.
  intros (before & piece & after & E & Hp & _)%final_concat_Some.
  assert (piece ∈ map (read_only_args allowed) l) as Hin by (rewrite E, elem_of_app, elem_of_cons; tauto).
  apply list_elem_of_In, in_map_iff in Hin as (s & <- & _). by eapply read_only_args_final.
Qed.

(** A mask inside a place that exists and may be written *)
Lemma mask_missing_inside r s allowed p :
  normal_abs r -> normal_abs s -> h_exists r = true -> h_exists s = false -> r ∈ allowed ->
  path_starts_with s r = true -> path_starts_with p s = true -> final (mask_missing s allowed) p = Some ReadOnly.
Proof.
  intros Hr Hs Hre Hse Hin Hsr Hps.
  destruct (first_missing_spec s) as (f & Hf & Hfn & Hfe & Hsf); [done|done| |].
  { apply (Htree r); [done|apply normal_root|by apply path_starts_with_root, normal_abs_absolute|done]. }
  unfold mask_missing. rewrite Hf.
  assert (path_starts_with f r = true) as Hfr.
  { destruct (Nat.le_ge_cases (length (components r)) (length (components f))) as [Hle|Hle];
      [by apply (path_starts_with_chain s)|].
    rewrite (Htree r f) in Hfe; [done..|by apply (path_starts_with_chain s)|done]. }
  assert (is_within_allowed_write_paths f allowed = true) as ->.
  { apply existsb_exists. exists r. split; [by apply list_elem_of_In|done]. }
  rewrite final_one. cbn. by rewrite (path_starts_with_trans p s f).
Qed.

Lemma read_only_args_inside r s allowed p :
  normal_abs r -> normal_abs s -> h_exists r = true -> r ∈ allowed -> path_starts_with s r = true ->
  path_starts_with p s = true -> final (read_only_args allowed s) p = Some ReadOnly.
Proof.
  intros Hr Hs Hre Hin Hsr Hps. unfold read_only_args. destruct (h_exists s) eqn:E; cbn [negb].
  - assert (is_within_allowed_write_paths s allowed = true) as ->.
    { apply existsb_exists. exists r. split; [by apply list_elem_of_In|done]. }
    rewrite final_one. cbn. by rewrite Hps.
  - by apply (mask_missing_inside r).
Qed.

Lemma read_only_args_outside r s allowed p :
  normal_abs s -> normal_abs p -> path_starts_with s r = true -> h_exists p = true ->
  path_starts_with p r = false -> final (read_only_args allowed s) p = None.
Proof.
  intros Hs Hp Hsr Hpe Hpr. unfold read_only_args. destruct (h_exists s) eqn:E; cbn [negb].
  - destruct (is_within_allowed_write_paths s allowed); [|done]. rewrite final_one. cbn.
    destruct (path_starts_with p s) eqn:Eps; [|done]. by rewrite (path_starts_with_trans p s r) in Hpr.
  - by apply mask_missing_exists.
Qed.

(** *** The mounts of a writable root *)

Lemma contains_path_spec l p : contains_path l p = true <-> exists q, q ∈ l /\ path_eqb p q = true.
Proof.
  unfold contains_path. rewrite existsb_exists. split; intros (q & Hin & Hq); exists q;
    (split; [by apply list_elem_of_In|done]).
Qed.

Definition own_read_only (unreadable missing : list str) (w : WritableRoot) : list str :=
  sort_by_depth (List.filter (fun path => negb (contains_path unreadable path) && negb (contains_path missing path))
    (read_only_subpaths w)).

Definition nested (unreadable : list str) (w : WritableRoot) : list str :=
  sort_by_depth (List.filter (fun path => path_starts_with path (WritableRoots.root w)) unreadable).

Lemma elem_of_sort_by_depth x l : x ∈ sort_by_depth l <-> x ∈ l.
Proof. unfold sort_by_depth. by rewrite sort_by_perm. Qed.

Lemma sort_by_depth_elem x l : x ∈ sort_by_depth l -> x ∈ l.
Proof. by rewrite elem_of_sort_by_depth. Qed.

Lemma elem_of_own unreadable missing w s :
  s ∈ own_read_only unreadable missing w
  <-> s ∈ read_only_subpaths w /\ contains_path unreadable s = false /\ contains_path missing s = false.
Proof.
  unfold own_read_only. rewrite elem_of_sort_by_depth, list_elem_of_In, filter_In, <- list_elem_of_In.
  by rewrite andb_true_iff, !negb_true_iff.
Qed.

Lemma elem_of_nested unreadable w u :
  u ∈ nested unreadable w <-> u ∈ unreadable /\ path_starts_with u (WritableRoots.root w) = true.
Proof. unfold nested. by rewrite elem_of_sort_by_depth, list_elem_of_In, filter_In, <- list_elem_of_In. Qed.

Definition root_piece (unreadable missing allowed : list str) (w : WritableRoot) (l : list MountArg) : Prop :=
  exists parents masks,
    l = parents ++ [BindArg (WritableRoots.root w) (WritableRoots.root w)]
        ++ concat (map (read_only_args allowed) (own_read_only unreadable missing w)) ++ concat masks
    /\ quiet parents /\ Forall2 (mask_piece allowed) (nested unreadable w) masks.

Lemma mount_writable_root_piece unreadable missing allowed preserved w args preserved' :
  mount_writable_root null_fd unreadable missing allowed preserved w = Ok (args, preserved') ->
  root_piece unreadable missing allowed w args.
Proof.
  unfold mount_writable_root. rewrite no_target, read_only_all_args.
  intros (ro & [= <-] & ([masks p'] & Hm & [= <- <-])%result_bind_Ok)%result_bind_Ok. apply mask_all_pieces in Hm as (pieces & -> & Hp).
  eexists _, pieces. split; [reflexivity|]. split; [|exact Hp].
  destruct (deepest _); [apply parents_quiet|constructor].
Qed.

Lemma mount_writable_roots_pieces unreadable missing allowed preserved ws args preserved' :
  mount_writable_roots null_fd unreadable missing allowed preserved ws = Ok (args, preserved') ->
  exists pieces, args = concat pieces /\ Forall2 (root_piece unreadable missing allowed) ws pieces.
Proof.
  revert preserved args. induction ws as [|w ws IH]; intros preserved args; cbn.
  - intros [= <- _]. by exists [].
  - intros ([a1 p1] & H1 & ([a2 p2] & H2 & [= <- <-])%result_bind_Ok)%result_bind_Ok.
    destruct (IH _ _ H2) as (pieces & -> & Hp). exists (a1 :: pieces). split; [done|].
    constructor; [|done]. by eapply mount_writable_root_piece.
Qed.

Lemma final_quiet_l l l' p : quiet l -> final (l ++ l') p = final l' p.
Proof. intros Hq. rewrite final_app, (final_quiet l) by done. by destruct (final l' p). Qed.

(** What a root shows as writable lies below it, outside its exceptions. *)
Lemma root_piece_writable unreadable missing allowed w l p :
  root_piece unreadable missing allowed w l -> final l p = Some Writable ->
  normal_abs (WritableRoots.root w) -> h_exists (WritableRoots.root w) = true -> WritableRoots.root w ∈ allowed ->
  (forall s, s ∈ read_only_subpaths w -> normal_abs s /\ path_starts_with s (WritableRoots.root w) = true) ->
  Forall normal_abs unreadable ->
  path_starts_with p (WritableRoots.root w) = true
  /\ (forall s, s ∈ own_read_only unreadable missing w -> path_starts_with p s = false)
  /\ (forall u, u ∈ nested unreadable w -> path_starts_with p u = false).
Proof.
  intros (parents & masks & -> & Hq & Hm) Hf Hr Hre Hin Hro Hun. rewrite final_quiet_l, !final_app in Hf by done.
  destruct (final (concat masks) p) as [v|] eqn:Em.
  { injection Hf as ->. by apply masks_not_writable with (p := p) in Hm. }
  destruct (final (concat (map _ _)) p) as [v|] eqn:Es.
  { injection Hf as ->. by apply read_only_final in Es. }
  rewrite final_one in Hf. cbn in Hf. split; [by destruct (path_starts_with p _)|]. split.
  - intros s Hs. pose proof Hs as [Hs' _]%elem_of_own. destruct (Hro s Hs') as [Hsn Hsr].
    apply not_true_iff_false. intros Hps. rewrite final_concat_None, Forall_forall in Es.
    specialize (Es (read_only_args allowed s)). rewrite (read_only_args_inside (WritableRoots.root w)) in Es by done.
    discriminate Es. apply list_elem_of_In, in_map, list_elem_of_In. done.
  - intros u Hu. pose proof Hu as [Hu1 Hur]%elem_of_nested. rewrite Forall_forall in Hun. specialize (Hun u Hu1).
    apply not_true_iff_false. intros Hpu. rewrite final_concat_None, Forall_forall in Em.
    apply list_elem_of_lookup in Hu as [i Hi]. destruct (Forall2_lookup_l _ _ _ _ _ Hm Hi) as (piece & Hpi & Hpp).
    specialize (Em piece (list_elem_of_lookup_2 _ _ _ Hpi)). unfold mask_piece in Hpp. destruct (h_exists u) eqn:E.
    + by rewrite Hpp, Hpu in Em.
    + subst piece. by rewrite (mask_missing_inside (WritableRoots.root w)) in Em.
Qed.

(** What a root shows of a path that exists *)
Lemma root_piece_exists unreadable missing allowed w l p :
  root_piece unreadable missing allowed w l -> normal_abs p -> h_exists p = true ->
  normal_abs (WritableRoots.root w) -> h_exists (WritableRoots.root w) = true -> WritableRoots.root w ∈ allowed ->
  (forall s, s ∈ read_only_subpaths w -> normal_abs s /\ path_starts_with s (WritableRoots.root w) = true) ->
  Forall normal_abs unreadable ->
  (path_starts_with p (WritableRoots.root w) = false -> final l p = None)
  /\ (path_starts_with p (WritableRoots.root w) = true ->
      ((exists u, u ∈ nested unreadable w /\ path_starts_with p u = true) -> final l p = Some Hidden)
      /\ ((forall u, u ∈ nested unreadable w -> path_starts_with p u = false) ->
          (forall s, s ∈ own_read_only unreadable missing w -> path_starts_with p s = false) -> final l p = Some Writable)).
Proof.
  intros (parents & masks & -> & Hq & Hm) Hp Hpe Hr Hre Hin Hro Hun. rewrite final_quiet_l, !final_app by done.
  assert (Forall normal_abs (nested unreadable w)) as Hnn.
  { rewrite Forall_forall in Hun |- *. intros u [Hu _]%elem_of_nested. by apply Hun. }
  rewrite (masks_exist _ _ _ _ Hm Hnn Hp Hpe). rewrite final_one. cbn [dest what].
  assert (forall u, u ∈ nested unreadable w -> path_starts_with p u = true ->
          existsb (path_starts_with p) (List.filter h_exists (nested unreadable w)) = true) as Hmask.
  { intros u Hu Hpu. apply existsb_exists. exists u. split; [|done]. apply filter_In. split; [by apply list_elem_of_In|].
    rewrite Forall_forall in Hnn. by apply (Htree p); [|apply Hnn|..]. }
  assert ((forall u, u ∈ nested unreadable w -> path_starts_with p u = false) ->
          existsb (path_starts_with p) (List.filter h_exists (nested unreadable w)) = false) as Hnomask.
  { intros Hno. apply not_true_iff_false. intros (u & [Hu _]%filter_In & Hpu)%existsb_exists.
    rewrite Hno in Hpu; [done|by apply list_elem_of_In]. }
  assert ((forall s, s ∈ own_read_only unreadable missing w -> path_starts_with p s = false) ->
          final (concat (map (read_only_args allowed) (own_read_only unreadable missing w))) p = None) as Hnoro.
  { intros Hno. apply final_concat_None, Forall_forall. intros piece Hpc.
    apply list_elem_of_In, in_map_iff in Hpc as (s & <- & Hs%list_elem_of_In). specialize (Hno s Hs).
    apply elem_of_own in Hs as [Hs _]. destruct (Hro s Hs) as [Hsn Hsr]. unfold read_only_args.
    destruct (h_exists s) eqn:E; cbn [negb]; [|by apply mask_missing_exists].
    destruct (is_within_allowed_write_paths s allowed); [|done]. rewrite final_one. cbn. by rewrite Hno. }
  split; [|split].
  - intros Hpr. rewrite Hnomask, Hnoro, Hpr; [done|..].
    + intros s [Hs _]%elem_of_own. destruct (Hro s Hs) as [_ Hsr]. apply not_true_iff_false. intros Hps.
      by rewrite (path_starts_with_trans p s _) in Hpr.
    + intros u [_ Hur]%elem_of_nested. apply not_true_iff_false. intros Hpu.
      by rewrite (path_starts_with_trans p u _) in Hpr.
  - intros (u & Hu & Hpu). by rewrite (Hmask u).
  - intros Hno Hs. rewrite Hnomask, Hnoro by done. by match goal with E : _ = true |- _ => rewrite E end.
Qed.

Lemma final_concat_uniform ls p s :
  Forall (fun l => final l p = None \/ final l p = Some s) ls -> (exists l, l ∈ ls /\ final l p = Some s) ->
  final (concat ls) p = Some s.
Proof.
  intros Hall. induction Hall as [|l ls Hl Hall IH]; [by intros (l & ?%elem_of_nil & _)|].
  intros (l' & Hin & Hl'). cbn. rewrite final_app. destruct (final (concat ls) p) as [v|] eqn:E.
  - apply final_concat_Some in E as (before & m & after & -> & Hm & _).
    apply Forall_app in Hall as [_ [[?|?] _]%Forall_cons]; congruence.
  - apply elem_of_cons in Hin as [->|Hin]; [done|]. assert (None = Some s); [|done]. apply IH. by exists l'.
Qed.
End mounted.

(** ** The arguments of a policy *)

Lemma dedup_adjacent_normal l x : Forall normal_abs l -> x ∈ dedup_adjacent_paths l <-> x ∈ l.
Proof.
  intros Hn. induction Hn as [|y l Hy Hn IH]; [done|]. destruct l as [|z l]; [done|].
  cbn [dedup_adjacent_paths] in IH |- *. apply Forall_cons in Hn as [Hz Hn]. destruct (path_eqb y z) eqn:E.
  - apply path_eqb_normal in E as ->; [|done..]. rewrite IH, !elem_of_cons. tauto.
  - rewrite (elem_of_cons _ x y), (elem_of_cons (z :: l) x y). by rewrite IH.
Qed.

Lemma elem_of_path_set l x : Forall normal_abs l -> x ∈ path_set l <-> x ∈ l.
Proof.
  intros Hn. unfold path_set. rewrite dedup_adjacent_normal by by rewrite sort_by_perm. by rewrite sort_by_perm.
Qed.

Section filesystem.
Context `{Host} {Hok : HostOk} {Hsym : NoSymlinks}.
Hypothesis Htree : tree.
Context (ripgrep_files : str -> list str -> option nat -> result str (list str)) (null_fd : result str str).
Hypothesis found_normal : forall search_root globs depth l,
  ripgrep_files search_root globs depth = Ok l -> Forall normal_abs l.
Context (policy : FileSystemSandboxPolicy) (cwd : str).
Hypothesis policy_is_ok : policy_ok policy.
Hypothesis cwd_normal : normal_abs cwd.
Hypothesis policy_restricted : fs_kind policy = Restricted.
Hypothesis not_full_write : has_full_disk_write_access policy = false.

(** No .git file of a root points outside that root. *)
Definition pointers_inside : Prop :=
  forall r missing s, r ∈ writable_entries_with_cwd policy cwd ->
    s ∈ default_read_only_subpaths_for_writable_root r missing -> path_starts_with s r = true.
Hypothesis pointers_are_inside : pointers_inside.

Local Notation roots := (get_writable_roots_with_cwd policy cwd).

Lemma insert_path_normal l p : normal_abs p -> Forall normal_abs l -> Forall normal_abs (insert_path l p).
Proof.
  intros Hp Hl. unfold insert_path. destruct (existsb _ _); [done|].
  rewrite insert_sorted_perm. by constructor.
Qed.

Lemma record_matches_normal search_root paths acc l :
  record_matches search_root paths acc = Ok l -> Forall normal_abs paths -> Forall normal_abs acc -> Forall normal_abs l.
Proof.
  revert acc. induction paths as [|p paths IH]; intros acc; cbn [record_matches]; [by intros [= <-]|].
  rewrite no_target. intros (acc' & [= <-] & E)%result_bind_Ok [Hp Hps]%Forall_cons Ha. cbn zeta in E.
  match type of E with (if ?b then _ else _) = _ => destruct b end; [discriminate E|]. eapply IH; [exact E|done|]. by apply insert_path_normal.
Qed.

Lemma expand_groups_normal groups depth acc l :
  expand_groups ripgrep_files groups depth acc = Ok l -> Forall normal_abs acc -> Forall normal_abs l.
Proof.
  revert acc. induction groups as [|[r globs] groups IH]; intros acc; cbn; [by intros [= <-]|].
  intros (paths & Hp & (acc' & Ha & E)%result_bind_Ok)%result_bind_Ok Hacc. eapply IH; [exact E|].
  eapply record_matches_normal; [exact Ha|by eapply found_normal|done].
Qed.

Lemma unreadable_roots_normal depth us :
  unreadable_roots_of ripgrep_files policy cwd depth = Ok us ->
  Forall normal_abs us /\ forall u, u ∈ get_unreadable_roots_with_cwd policy cwd -> u ∈ us.
Proof.
  unfold unreadable_roots_of. intros (expanded & He & [= <-])%result_bind_Ok.
  assert (Forall normal_abs (get_unreadable_roots_with_cwd policy cwd ++ expanded)) as Hn.
  { apply Forall_app. split.
    - apply Forall_forall. intros u (_ & e & Hin & _ & <-)%elem_of_unreadable_roots; [|done..].
      by apply (resolved_entry_normal policy cwd).
    - unfold expand_unreadable_globs_with_ripgrep in He. destruct (_ || _); [injection He as <-; constructor|].
      eapply expand_groups_normal; [exact He|constructor]. }
  split.
  - apply Forall_forall. intros u Hu. apply (elem_of_path_set _ _ Hn) in Hu. rewrite Forall_forall in Hn. by apply Hn.
  - intros u Hu. apply elem_of_path_set; [done|]. rewrite elem_of_app. by left.
Qed.

Lemma root_normal w : w ∈ roots -> normal_abs (WritableRoots.root w).
Proof.
  intros (r & Hr & ->)%elem_of_writable_roots; [|done..].
  pose proof (writable_entries_normal policy cwd policy_is_ok cwd_normal) as Hn.
  rewrite Forall_forall in Hn. by apply Hn.
Qed.

Lemma read_only_inside w s :
  w ∈ roots -> s ∈ read_only_subpaths w -> normal_abs s /\ path_starts_with s (WritableRoots.root w) = true.
Proof.
  intros Hw Hs. pose proof (root_normal w Hw) as Hrn. apply elem_of_writable_roots in Hw as (r & Hr & ->); [|done..].
  cbn [writable_root_of read_only_subpaths WritableRoots.root] in *. apply dedup_subset in Hs.
  apply elem_of_app in Hs as [Hs|Hs].
  - apply list_elem_of_In, filter_In in Hs as [Hs%list_elem_of_In _].
    split; [by eapply default_read_only_normal|by eapply pointers_are_inside].
  - apply list_elem_of_omap in Hs as (e & He & Hc).
    apply list_elem_of_In, filter_In in He as [[He%list_elem_of_In _]%filter_In _].
    split; [by eapply (carveouts_normal policy cwd)|].
    eapply carveout_self; [exact Hrn|by apply (resolved_entry_normal policy cwd)| |exact Hc]. by apply (raws_self policy cwd).
Qed.

Local Notation ws := (sort_roots_by_depth (existing_writable_roots policy cwd)).
Local Notation allowed := (allowed_write_paths_of (existing_writable_roots policy cwd)).
Local Notation missing := (missing_auto_metadata policy cwd).

Lemma elem_of_existing w : w ∈ existing_writable_roots policy cwd <-> w ∈ roots /\ h_exists (WritableRoots.root w) = true.
Proof.
  unfold existing_writable_roots. rewrite not_full_write, andb_false_r. cbn [andb].
  by rewrite list_elem_of_In, filter_In, <- list_elem_of_In.
Qed.

Lemma elem_of_sorted w : w ∈ ws <-> w ∈ roots /\ h_exists (WritableRoots.root w) = true.
Proof. unfold sort_roots_by_depth. rewrite sort_by_perm. apply elem_of_existing. Qed.

Lemma elem_of_allowed a : a ∈ allowed <-> exists w, w ∈ ws /\ WritableRoots.root w = a.
Proof.
  setoid_rewrite elem_of_sorted. setoid_rewrite <- elem_of_existing. unfold allowed_write_paths_of.
  rewrite list_elem_of_In, in_concat. split.
  - intros (l & (w & <- & Hw%list_elem_of_In)%in_map_iff & Ha). rewrite no_target in Ha. exists w.
    split; [done|]. by destruct Ha as [?|[]].
  - intros (w & Hw & <-). eexists. split; [apply in_map_iff; exists w; split; [reflexivity|by apply list_elem_of_In]|by left].
Qed.

Lemma within_allowed p :
  is_within_allowed_write_paths p allowed = true
  <-> exists w, w ∈ ws /\ path_starts_with p (WritableRoots.root w) = true.
Proof.
  unfold is_within_allowed_write_paths. rewrite existsb_exists. split.
  - intros (a & (w & Hw & <-)%list_elem_of_In%elem_of_allowed & Hp). by exists w.
  - intros (w & Hw & Hp). exists (WritableRoots.root w). split; [|done]. apply list_elem_of_In, elem_of_allowed. by exists w.
Qed.

Lemma filesystem_pieces depth args us :
  create_filesystem_args ripgrep_files null_fd policy cwd depth = Ok args ->
  unreadable_roots_of ripgrep_files policy cwd depth = Ok us ->
  exists ancestors pieces rootless,
    bwrap_args args = base_mounts policy cwd (existing_writable_roots policy cwd)
                      ++ concat ancestors ++ concat pieces ++ concat rootless
    /\ Forall2 (mask_piece allowed) (sort_by_depth (ancestors_to_mask us allowed)) ancestors
    /\ Forall2 (root_piece us missing allowed) ws pieces
    /\ Forall2 (mask_piece allowed) (sort_by_depth (rootless_to_mask us allowed)) rootless.
Proof.
  unfold create_filesystem_args. intros Ha Hu. rewrite Hu in Ha.
  apply result_bind_Ok in Ha as (us' & [= <-] & ([anc p1] & H1 & ([rts p2] & H2 &
    ([less p3] & H3 & [= <-])%result_bind_Ok)%result_bind_Ok)%result_bind_Ok).
  apply mask_all_pieces in H1 as (ancestors & -> & Hanc). apply mask_all_pieces in H3 as (rootless & -> & Hless).
  apply mount_writable_roots_pieces in H2 as (pieces & -> & Hpieces). by exists ancestors, pieces, rootless.
Qed.

Lemma base_not_writable ws' p : final (base_mounts policy cwd ws') p <> Some Writable.
Proof.
  assert (Forall (fun a => what a <> Some Writable) (base_mounts policy cwd ws')) as Hb.
  { unfold base_mounts. destruct (has_full_disk_read_access policy); [by repeat constructor|].
    destruct (existsb _ _); [by repeat constructor|]. do 2 (constructor; [done|]).
    apply Forall_forall. intros a (r & <- & _)%list_elem_of_In%in_map_iff. by destruct (existsb _ _). }
  induction Hb as [|a l Ha Hl IH]; [done|]. cbn. destruct (final l p); [done|]. by destruct (path_starts_with p _).
Qed.

(** The writable root that bubblewrap lets a path be written through: the
    deepest one above the path, without an exception in between. *)
Definition open_at (us : list str) (w : WritableRoot) (p : str) : Prop :=
  w ∈ roots /\ h_exists (WritableRoots.root w) = true /\ path_starts_with p (WritableRoots.root w) = true
  /\ (forall w', w' ∈ roots -> h_exists (WritableRoots.root w') = true ->
        path_starts_with p (WritableRoots.root w') = true ->
        path_starts_with (WritableRoots.root w) (WritableRoots.root w') = true)
  /\ (forall s, s ∈ read_only_subpaths w -> path_starts_with p s = true -> contains_path missing s = true)
  /\ forall u, u ∈ us -> path_starts_with u (WritableRoots.root w) = true -> path_starts_with p u = false.

Lemma roots_sorted before w after w' :
  ws = before ++ w :: after -> w' ∈ after -> path_depth (WritableRoots.root w) <= path_depth (WritableRoots.root w').
Proof.
  intros E Hin.
  pose proof (sort_by_sorted (fun a b => (path_depth (WritableRoots.root a) <=? path_depth (WritableRoots.root b))%nat)) as Hs.
  specialize (Hs ltac:(intros ??; rewrite !Nat.leb_le; lia) ltac:(intros ???; rewrite !Nat.leb_le; lia)
              (existing_writable_roots policy cwd)).
  fold (sort_roots_by_depth (existing_writable_roots policy cwd)) in Hs. rewrite E in Hs.
  clear E. induction before as [|b before IH]; cbn in Hs; apply StronglySorted_inv in Hs as [Hs Hb]; [|by apply IH].
  rewrite Forall_forall in Hb. by apply Nat.leb_le, Hb.
Qed.

Lemma existing_root_ok w :
  w ∈ ws -> normal_abs (WritableRoots.root w) /\ h_exists (WritableRoots.root w) = true /\ WritableRoots.root w ∈ allowed
            /\ forall s, s ∈ read_only_subpaths w -> normal_abs s /\ path_starts_with s (WritableRoots.root w) = true.
Proof.
  intros Hw. pose proof Hw as [Hr He]%elem_of_sorted. split_and!; [by apply root_normal|done| |].
  - apply elem_of_allowed. by exists w.
  - intros s. by apply read_only_inside.
Qed.

Lemma root_piece_covers us w l p :
  root_piece us missing allowed w l -> path_starts_with p (WritableRoots.root w) = true -> final l p <> None.
Proof.
  intros (parents & masks & -> & Hq & _) Hp. rewrite final_quiet_l, !final_app, final_one by done. cbn. rewrite Hp.
  destruct (final (concat masks) p); [done|]. by case_match.
Qed.

Lemma covering_chain p q r :
  path_starts_with p q = true -> path_starts_with p r = true ->
  path_starts_with q r = true \/ path_starts_with r q = true.
Proof.
  intros Hq Hr. destruct (Nat.le_ge_cases (length (components r)) (length (components q)));
    [left; by apply (path_starts_with_chain p)|right; by apply (path_starts_with_chain p)].
Qed.

Lemma existing_piece us w l p :
  root_piece us missing allowed w l -> w ∈ ws -> Forall normal_abs us -> normal_abs p -> h_exists p = true ->
  (path_starts_with p (WritableRoots.root w) = false -> final l p = None)
  /\ (path_starts_with p (WritableRoots.root w) = true ->
      ((exists u, u ∈ us /\ path_starts_with u (WritableRoots.root w) = true /\ path_starts_with p u = true) ->
         final l p = Some Hidden)
      /\ (open_at us w p -> final l p = Some Writable)).
Proof.
  intros Hl Hw Hus Hp Hpe. destruct (existing_root_ok w Hw) as (Hr & Hre & Hin & Hro).
  destruct (root_piece_exists Htree us missing allowed w l p) as [Hout Hwithin]; [done..|].
  split; [done|]. intros Hpr. destruct (Hwithin Hpr) as [Hhid Hopen]. split.
  - intros (u & Hu & Hur & Hpu). apply Hhid. exists u. by rewrite elem_of_nested.
  - intros (_ & _ & _ & _ & Hs & Hu). apply Hopen.
    + intros u [Hin' Hur]%elem_of_nested. by apply Hu.
    + intros s (Hs' & _ & Hms)%elem_of_own. apply not_true_iff_false. intros Hps. by rewrite (Hs s) in Hms.
Qed.

Section arguments.
Context (depth : option nat) (args : BwrapArgs MountArg) (us : list str).
Hypothesis created : create_filesystem_args ripgrep_files null_fd policy cwd depth = Ok args.
Hypothesis unreadable : unreadable_roots_of ripgrep_files policy cwd depth = Ok us.

Lemma shown_writable p : final (bwrap_args args) p = Some Writable -> exists w, open_at us w p.
Proof.
  intros Hf. destruct (filesystem_pieces _ _ _ created unreadable) as (anc & pieces & less & E & Ha & Hp & Hless).
  destruct (unreadable_roots_normal _ _ unreadable) as [Hus _]. rewrite E, !final_app in Hf.
  destruct (final (concat less) p) as [v|] eqn:El; [injection Hf as ->; by apply masks_not_writable with (p := p) in Hless|].
  destruct (final (concat pieces) p) as [v|] eqn:Ep.
  2:{ destruct (final (concat anc) p) as [v|] eqn:Ea; [injection Hf as ->; by apply masks_not_writable with (p := p) in Ha|].
      by apply base_not_writable in Hf. }
  injection Hf as ->. apply final_concat_Some in Ep as (before & l & after & -> & Hl & Hafter).
  apply Forall2_app_inv_r in Hp as (wb & wt & Hb & Ht & Ews). apply Forall2_cons_inv_r in Ht as (w & wa & Hw & Hwa & ->).
  assert (w ∈ ws) as Hin by (rewrite Ews, elem_of_app, elem_of_cons; tauto).
  destruct (existing_root_ok w Hin) as (Hr & Hre & Hal & Hro).
  destruct (root_piece_writable Htree us missing allowed w l p) as (Hpr & Hs & Hu); [done..|].
  exists w. pose proof Hin as [Hroot _]%elem_of_sorted. split_and!; [done|done|done| | |].
  - intros w' Hw' Hwe' Hpw'. assert (w' ∈ ws) as Hin' by by apply elem_of_sorted.
    apply (path_starts_with_chain p); [done..|]. rewrite Ews in Hin'.
    apply elem_of_app in Hin' as [Hin'|[->|Hin']%elem_of_cons]; [|done|].
    + apply list_elem_of_split in Hin' as (b1 & b2 & ->).
      apply (roots_sorted b1 w' (b2 ++ w :: wa)); [by rewrite Ews, <- app_assoc|].
      rewrite elem_of_app, elem_of_cons. tauto.
    + exfalso. apply list_elem_of_lookup in Hin' as [i Hi].
      destruct (Forall2_lookup_l _ _ _ _ _ Hwa Hi) as (l' & Hl' & Hpc).
      rewrite Forall_forall in Hafter. apply (root_piece_covers _ _ _ _ Hpc Hpw'), Hafter. by eapply list_elem_of_lookup_2.
  - intros s Hs' Hps. destruct (Hro s Hs') as [Hsn Hsr]. destruct (contains_path missing s) eqn:Em; [done|].
    exfalso. destruct (contains_path us s) eqn:Eu.
    + apply contains_path_spec in Eu as (u & Hin' & Heq). rewrite Forall_forall in Hus.
      apply path_eqb_normal in Heq as ->; [|done|by apply Hus].
      by rewrite Hu in Hps by by apply elem_of_nested.
    + by rewrite Hs in Hps by by apply elem_of_own.
  - intros u Hin' Hur. apply Hu. by apply elem_of_nested.
Qed.

Lemma open_at_unique w w' p :
  open_at us w p -> open_at us w' p \/ w' ∈ ws /\ path_starts_with p (WritableRoots.root w') = true
    /\ path_depth (WritableRoots.root w) <= path_depth (WritableRoots.root w') -> w' = w.
Proof.
  intros Hw Hw'. assert (w' ∈ roots /\ WritableRoots.root w' = WritableRoots.root w) as [Hr' Er].
  { destruct Hw as (Hr & He & Hp & Hd & _). destruct Hw' as [(Hr' & He' & Hp' & Hd' & _)|([Hr' He']%elem_of_sorted & Hp' & Hle)].
    - split; [done|]. apply components_normal_inj; [by apply root_normal..|].
      apply (anti_symm prefix); apply path_starts_with_spec; [by apply Hd|by apply Hd'].
    - split; [done|]. apply components_normal_inj; [by apply root_normal..|].
      apply (anti_symm prefix); apply path_starts_with_spec; [by apply Hd|].
      by apply (path_starts_with_chain p). }
  destruct Hw as (Hr & _). apply elem_of_writable_roots in Hr as (r & _ & ->); [|done..].
  apply elem_of_writable_roots in Hr' as (r' & _ & ->); [|done..]. cbn in Er. by subst.
Qed.

Lemma rootless_outside w u p :
  u ∈ rootless_to_mask us allowed -> w ∈ ws -> path_starts_with p (WritableRoots.root w) = true ->
  path_starts_with p u = false.
Proof.
  intros Hu Hw Hpw. apply list_elem_of_In, filter_In in Hu as [_ Hu]. apply negb_true_iff, not_true_iff_false in Hu.
  apply not_true_iff_false. intros Hpu. apply Hu, existsb_exists. exists (WritableRoots.root w).
  split; [apply list_elem_of_In, elem_of_allowed; by exists w|]. apply orb_true_iff. by apply (covering_chain p).
Qed.

Lemma masked_subset (mask : list str -> list str -> list str) :
  (forall u, u ∈ mask us allowed -> u ∈ us) -> Forall normal_abs (sort_by_depth (mask us allowed)).
Proof.
  intros Hsub. apply Forall_forall. intros u Hu%sort_by_depth_elem%Hsub.
  destruct (unreadable_roots_normal _ _ unreadable) as [Hus _]. rewrite Forall_forall in Hus. by apply Hus.
Qed.

Lemma rootless_normal : Forall normal_abs (sort_by_depth (rootless_to_mask us allowed)).
Proof. apply masked_subset. intros u Hu. by apply list_elem_of_In, filter_In in Hu as [?%list_elem_of_In _]. Qed.

Lemma ancestors_normal : Forall normal_abs (sort_by_depth (ancestors_to_mask us allowed)).
Proof. apply masked_subset. intros u Hu. by apply list_elem_of_In, filter_In in Hu as [?%list_elem_of_In _]. Qed.

Lemma open_shown w p :
  normal_abs p -> h_exists p = true -> open_at us w p -> final (bwrap_args args) p = Some Writable.
Proof.
  intros Hpn Hpe Hw. destruct (filesystem_pieces _ _ _ created unreadable) as (anc & pieces & less & E & Ha & Hp & Hless).
  destruct (unreadable_roots_normal _ _ unreadable) as [Hus _]. rewrite E, !final_app. clear E.
  pose proof Hw as (Hr & Hre & Hpr & _). assert (w ∈ ws) as Hin by by apply elem_of_sorted.
  rewrite (masks_exist Htree _ _ _ _ Hless rootless_normal Hpn Hpe).
  destruct (existsb _ _) eqn:Ex.
  { apply existsb_exists in Ex as (u & [Hu%list_elem_of_In%sort_by_depth_elem _]%filter_In & Hpu).
    by rewrite (rootless_outside w) in Hpu. }
  apply list_elem_of_split in Hin as (wb & wa & Ews). rewrite Ews in Hp.
  apply Forall2_app_inv_l in Hp as (pb & pt & Hb & Ht & ->). rewrite concat_app, final_app.
  rewrite (final_concat_uniform pt p Writable); [done| |].
  - apply Forall_forall. intros l Hl. apply list_elem_of_lookup in Hl as [i Hi].
    destruct (Forall2_lookup_r _ _ _ _ _ Ht Hi) as (w' & Hw' & Hpc). apply list_elem_of_lookup_2 in Hw'.
    assert (w' ∈ ws) as Hin' by (rewrite Ews, elem_of_app; tauto).
    destruct (existing_piece us w' l p Hpc Hin' Hus Hpn Hpe) as [Hout Hwithin].
    destruct (path_starts_with p (WritableRoots.root w')) eqn:Epw; [right|left; by apply Hout].
    apply Hwithin; [done|]. assert (w' = w) as ->; [|done]. apply (open_at_unique w w' p Hw). right.
    split_and!; [done|done|]. apply elem_of_cons in Hw' as [->|Hw']; [lia|]. by eapply roots_sorted.
  - apply Forall2_cons_inv_l in Ht as (l & pa & Hl & _ & ->). exists l. split; [by left|].
    by apply (existing_piece us w l p); [|apply elem_of_sorted|..].
Qed.

Lemma shown_hidden u p :
  u ∈ us -> normal_abs p -> h_exists p = true -> path_starts_with p u = true ->
  (forall w, w ∈ roots -> h_exists (WritableRoots.root w) = true -> path_starts_with p (WritableRoots.root w) = true ->
     path_starts_with (WritableRoots.root w) u = false) ->
  final (bwrap_args args) p = Some Hidden.
Proof.
  intros Hu Hpn Hpe Hpu Hno. destruct (filesystem_pieces _ _ _ created unreadable) as (anc & pieces & less & E & Ha & Hp & Hless).
  destruct (unreadable_roots_normal _ _ unreadable) as [Hus _]. rewrite E, !final_app. clear E.
  rewrite (masks_exist Htree _ _ _ _ Hless rootless_normal Hpn Hpe), (masks_exist Htree _ _ _ _ Ha ancestors_normal Hpn Hpe).
  destruct (existsb _ (List.filter _ (sort_by_depth (rootless_to_mask _ _)))) eqn:Ex; [done|].
  assert (Forall2 (fun w l => final l p = (if path_starts_with p (WritableRoots.root w) then Some Hidden else None)) ws pieces) as Hall.
  { apply Forall2_same_length_lookup_2 with (l := ws) (k := pieces); [by eapply Forall2_length|].
    intros i w l Hw Hl. pose proof (Forall2_lookup_lr _ _ _ _ _ _ Hp Hw Hl) as Hpc.
    apply list_elem_of_lookup_2 in Hw as Hin. destruct (existing_piece us w l p Hpc Hin Hus Hpn Hpe) as [Hout Hwithin].
    destruct (path_starts_with p (WritableRoots.root w)) eqn:Epw; [|by apply Hout].
    apply Hwithin; [done|]. exists u. split_and!; [done| |done]. apply elem_of_sorted in Hin as [Hr Hre].
    destruct (covering_chain p u (WritableRoots.root w)) as [?|Hwu]; [done..|]. by rewrite (Hno w) in Hwu. }
  assert (Forall (fun l => final l p = None \/ final l p = Some Hidden) pieces) as Hforms.
  { eapply Forall2_Forall_r; [exact Hall|]. apply Forall_forall. intros w _ l ->. case_match; [by right|by left]. }
  destruct (is_within_allowed_write_paths p allowed) eqn:Ew.
  - apply within_allowed in Ew as (w & Hin & Hpw). rewrite (final_concat_uniform pieces p Hidden); [done|done|].
    apply list_elem_of_lookup in Hin as [i Hi]. destruct (Forall2_lookup_l _ _ _ _ _ Hall Hi) as (l & Hl & Hf).
    exists l. split; [by eapply list_elem_of_lookup_2|]. by rewrite Hpw in Hf.
  - assert (forall w, w ∈ ws -> path_starts_with p (WritableRoots.root w) = false) as Hnone.
    { intros w Hw. apply not_true_iff_false. intros Hpw. apply not_true_iff_false in Ew. apply Ew, within_allowed. by exists w. }
    rewrite (proj2 (final_concat_None pieces p)).
    2:{ eapply Forall2_Forall_r; [exact Hall|]. apply Forall_forall. intros w Hw l ->. by rewrite Hnone. }
    assert (h_exists u = true) as Hue.
    { rewrite Forall_forall in Hus. by apply (Htree p); [|apply Hus|..]. }
    assert (existsb (path_starts_with u) allowed = false) as Hnu.
    { apply not_true_iff_false. intros (w & Hw & Huw)%within_allowed. pose proof (Hnone w Hw) as Hf.
      by rewrite (path_starts_with_trans p u) in Hf. }
    assert (forall l, u ∈ l -> existsb (path_starts_with p) (List.filter h_exists (sort_by_depth l)) = true) as Hin.
    { intros l Hl. apply existsb_exists. exists u. split; [|done]. apply filter_In.
      split; [by apply list_elem_of_In, elem_of_sort_by_depth|done]. }
    destruct (existsb (fun w => path_starts_with w u) allowed) eqn:Ea.
    + rewrite Hin; [done|]. apply list_elem_of_In, filter_In. rewrite Hnu, Ea. split; [by apply list_elem_of_In|done].
    + rewrite Hin in Ex; [done|]. apply list_elem_of_In, filter_In. split; [by apply list_elem_of_In|].
      apply negb_true_iff, not_true_iff_false. intros (w & Hw & [Huw|Hwu]%orb_true_iff)%existsb_exists.
      * apply not_true_iff_false in Hnu. apply Hnu, existsb_exists. by exists w.
      * apply not_true_iff_false in Ea. apply Ea, existsb_exists. by exists w.
Qed.
End arguments.
End filesystem.



(** ** The hypotheses hold *)

(** What is seen is the last mount that covers a path. *)
#[local] Instance last_mount : Mounts.
Proof.
  refine {| seen l p := default NotThere (final l p) |}; [done|..].
  - intros l a p s Hw Hp. rewrite final_app. cbn. by rewrite Hp, Hw.
  - intros l a p Ho. rewrite final_app. cbn.
    assert ((if path_starts_with p (dest a) then what a else None) = None) as ->; [|done].
    destruct Ho as [-> | ->]; [by destruct (path_starts_with p _)|done].
Defined.

(** A host where the given paths and all that is above them exist *)
Definition tree_host (dirs : list str) (file : str -> option str) : Host :=
  let below p := existsb (fun d => path_starts_with d p) dirs in
  {|
    h_home_dir := None;
    h_current_dir := Some (lit "/w");
    h_tmpdir := None;
    h_is_dir p := below p && match file p with None => true | Some _ => false end;
    h_is_file p := match file p with None => false | Some _ => true end;
    h_exists := below;
    h_symlink_metadata _ := Some false;
    h_canonicalize p := Some p;
    h_read_to_string := file;
  |}.

Definition no_files (p : str) : option str := None.
Definition example_host : Host := tree_host [lit "/w/a"; lit "/w/secret/x"] no_files.

Lemma tree_host_tree dirs file : @tree (tree_host dirs file).
Proof.
  intros p q _ _ Hpq. cbn. rewrite !existsb_exists. intros (d & Hd & Hp). exists d. split; [done|].
  by eapply path_starts_with_trans.
Qed.

Lemma tree_host_ok dirs file : @HostOk (tree_host dirs file).
Proof. split; [done|]. by intros d [= <-]. Qed.

Lemma tree_host_no_symlinks dirs file : @NoSymlinks (tree_host dirs file).
Proof. split; [done|]. intros p q _. cbn. by intros [= <-]. Qed.

Definition finds_nothing (search_root : str) (globs : list str) (max_depth : option nat) : result str (list str) := Ok [].

Lemma example_found_normal root globs d l : finds_nothing root globs d = Ok l -> Forall normal_abs l.
Proof. by intros [= <-]. Qed.

Lemma example_pointers_inside : @pointers_inside example_host example_policy (lit "/w").
Proof.
  intros r missing s Hr Hs.
  assert (@writable_entries_with_cwd example_host example_policy (lit "/w") = [lit "/w"]) as E by (vm_compute; reflexivity).
  rewrite E in Hr. apply list_elem_of_singleton in Hr as ->. destruct missing.
  - assert (@default_read_only_subpaths_for_writable_root example_host (lit "/w") true = [lit "/w/.codex"]) as Ed
      by (vm_compute; reflexivity).
    rewrite Ed in Hs. by apply list_elem_of_singleton in Hs as ->.
  - assert (@default_read_only_subpaths_for_writable_root example_host (lit "/w") false = []) as Ed
      by (vm_compute; reflexivity).
    rewrite Ed in Hs. by apply elem_of_nil in Hs.
Qed.

Definition example_mounts (host : Host) (policy : FileSystemSandboxPolicy) : list MountArg :=
  match @create_filesystem_args host finds_nothing (Ok (lit "3")) policy (lit "/w") None with
  | Ok args => bwrap_args args
  | Err _ => []
  end.

Example example_mounts_spelled :
  example_mounts example_host example_policy
  = [RoBind (lit "/") (lit "/"); DevArg (lit "/dev"); BindArg (lit "/w") (lit "/w");
     RoBind DEV_NULL (lit "/w/.codex"); Tmpfs (Some (lit "000")) (lit "/w/secret"); RemountRo (lit "/w/secret")].
Proof. vm_compute. reflexivity. Qed.



(** A .git file in a writable root may name a directory below a path that another
    root masks: the mask is mounted first, so the directory can be read. *)
Definition pointer_file (p : str) : option str :=
  if path_eqb p (lit "/w/sub/.git") then Some (lit "gitdir: /w/secret/keys") else None.

Example gitdir_unmasks :
  let policy := restricted [mkEntry (Special Root) AccessRead; mkEntry (PathEntry (lit "/w")) AccessWrite;
    mkEntry (PathEntry (lit "/w/sub")) AccessWrite; mkEntry (PathEntry (lit "/w/secret")) AccessNone] in
  let host := tree_host [lit "/w/sub/.git"; lit "/w/secret/keys/id"] pointer_file in
  @can_read_path_with_cwd host policy (lit "/w/secret/keys/id") (lit "/w") = false
  /\ seen (example_mounts host policy) (lit "/w/secret/keys/id") = ReadOnly
  /\ seen (example_mounts (tree_host [lit "/w/sub/.git"; lit "/w/secret/keys/id"] no_files) policy)
       (lit "/w/secret/keys/id") = Hidden.
Proof. vm_compute. by split_and!. Qed.

(** Read entries for metadata of the project that does not exist are left out,
    for .codex excepted. *)
Example missing_git_may_be_made :
  let host := tree_host [lit "/w/a"] no_files in
  let policy := @workspace_write host [] true true in
  @can_write_path_with_cwd host policy (lit "/w/.git/config") (lit "/w") = false
  /\ seen (example_mounts host policy) (lit "/w/.git/config") = Writable
  /\ seen (example_mounts host policy) (lit "/w/.codex/config") = ReadOnly.
Proof. vm_compute. by split_and!. Qed.

(** A link that may be written is refused, not masked. *)
Example writable_symlink_refused :
  let host := {| h_home_dir := None; h_current_dir := Some (lit "/w"); h_tmpdir := None; h_is_dir _ := true;
                 h_is_file _ := false; h_exists _ := true; h_symlink_metadata p := Some (path_eqb p (lit "/w/link"));
                 h_canonicalize p := Some p; h_read_to_string _ := None |} in
  @append_read_only_subpath_args host (lit "/w/link/x") [lit "/w"]
  = Err (crosses_symlink "read-only" (lit "/w/link/x") (lit "/w/link")).
Proof. vm_compute. reflexivity. Qed.
