(* ===== verification/PolicyTransforms.v ===== *)
(** * PolicyTransforms: additional permissions

    [sandboxing/src/policy_transforms.rs] and the records of
    [protocol/src/models.rs] it works on: what a command asks for on top of the
    policy of its turn, what of it a user grants, and the policy that results.
    The first theorem says that a grant gives no more than was granted, and lets
    nothing be read that was not asked for. *)

From S2P Require Import Prelude Paths HostPaths Permissions WritableRoots.
Local Open Scope str_scope.

Record NetworkPermissions : Type := mkNetPermissions { net_enabled : option bool }.

Definition net_permissions_is_empty (self : NetworkPermissions) : bool :=
  match net_enabled self with None => true | Some _ => false end.

(** A [NonZeroUsize] is the number. *)
Record FileSystemPermissions : Type := mkFsPermissions {
  fsp_entries : list FileSystemSandboxEntry;
  fsp_glob_scan_max_depth : option nat;
}.

Definition fs_permissions_is_empty (self : FileSystemPermissions) : bool := is_empty (fsp_entries self).

Definition from_read_write_roots (read write : option (list str)) : FileSystemPermissions :=
  mkFsPermissions
    (map (fun path => mkEntry (PathEntry path) AccessRead) (default [] read)
     ++ map (fun path => mkEntry (PathEntry path) AccessWrite) (default [] write)) None.

Record AdditionalPermissionProfile : Type := mkAdditional {
  ap_network : option NetworkPermissions;
  ap_file_system : option FileSystemPermissions;
}.

Definition no_additional : AdditionalPermissionProfile := mkAdditional None None.

Definition additional_is_empty (self : AdditionalPermissionProfile) : bool :=
  match ap_network self, ap_file_system self with None, None => true | _, _ => false end.

Definition enables_network (network : option NetworkPermissions) : bool :=
  match network with Some n => bool_decide (net_enabled n = Some true) | None => false end.

Definition non_zero (n : nat) : option nat := match n with O => None | _ => Some n end.

(** [Option::filter] *)
Definition keep_if {A} (f : A -> bool) (o : option A) : option A := a ← o; if f a then Some a else None.

(** ** Lists of entries without repetitions *)

Definition contains_entry (entries : list FileSystemSandboxEntry) (entry : FileSystemSandboxEntry) : bool :=
  existsb (fun e => entry_eqb e entry) entries.

Definition push_once (entries : list FileSystemSandboxEntry) (entry : FileSystemSandboxEntry)
    : list FileSystemSandboxEntry :=
  if contains_entry entries entry then entries else entries ++ [entry].

Definition merge_permission_entries (base permissions : list FileSystemSandboxEntry) : list FileSystemSandboxEntry :=
  foldl push_once [] (base ++ permissions).

(** ** Depths of glob scans *)

Inductive GlobScanDepth : Type := Bounded (depth : nat) | Unbounded.

Definition denies_glob (entry : FileSystemSandboxEntry) : bool :=
  bool_decide (entry_access entry = AccessNone)
  && match entry_path entry with GlobPattern _ => true | _ => false end.

Definition effective_glob_scan_depth (entries : list FileSystemSandboxEntry) (depth : option nat) : option GlobScanDepth :=
  if existsb denies_glob entries
  then Some (match depth with Some depth => Bounded depth | None => Unbounded end) else None.

Definition merge_glob_scan_max_depth (left_entries : list FileSystemSandboxEntry) (left_depth : option nat)
    (right_entries : list FileSystemSandboxEntry) (right_depth : option nat) : option nat :=
  match effective_glob_scan_depth left_entries left_depth, effective_glob_scan_depth right_entries right_depth with
  | Some Unbounded, _ | _, Some Unbounded => None
  | Some (Bounded left_depth), Some (Bounded right_depth) => Some (Nat.max left_depth right_depth)
  | Some (Bounded depth), None | None, Some (Bounded depth) => Some depth
  | None, None => None
  end.

Definition access_covers (requested granted : FileSystemAccessMode) : bool :=
  match granted with
  | AccessRead => can_read requested
  | AccessWrite => can_write requested
  | AccessNone => false
  end.

Definition paths_overlap (left right : str) : bool := path_starts_with left right || path_starts_with right left.

Section transforms.
Context `{Host}.

(** ** Normalising a request *)

Fixpoint normalize_entries (l entries : list FileSystemSandboxEntry) : result str (list FileSystemSandboxEntry) :=
  match l with
  | [] => Ok entries
  | entry :: l =>
      if match entry_path entry with GlobPattern _ => true | _ => false end
         && negb (bool_decide (entry_access entry = AccessNone))
      then Err (lit "glob file system permissions only support deny-read entries")
      else
        let path :=
          match entry_path entry with
          | PathEntry path => PathEntry (default path (canonicalize_preserving_symlinks path ≫= absolute))
          | path => path
          end in
        normalize_entries l (push_once entries (mkEntry path (entry_access entry)))
  end.

Definition normalize_additional_permissions (additional_permissions : AdditionalPermissionProfile)
    : result str AdditionalPermissionProfile :=
  let network := keep_if (fun network => negb (net_permissions_is_empty network)) (ap_network additional_permissions) in
  file_system ←
    match ap_file_system additional_permissions with
    | Some file_system =>
        entries ← normalize_entries (fsp_entries file_system) [];
        let file_system := mkFsPermissions entries (fsp_glob_scan_max_depth file_system) in
        Ok (if negb (fs_permissions_is_empty file_system) then Some file_system else None)
    | None => Ok None
    end;
  Ok (mkAdditional network file_system).

(** ** Union *)

Definition merge_file_systems (base permissions : option FileSystemPermissions) : option FileSystemPermissions :=
  match base, permissions with
  | Some base, Some permissions =>
      keep_if (fun fs => negb (fs_permissions_is_empty fs))
        (Some (mkFsPermissions (merge_permission_entries (fsp_entries base) (fsp_entries permissions))
           (merge_glob_scan_max_depth (fsp_entries base) (fsp_glob_scan_max_depth base)
              (fsp_entries permissions) (fsp_glob_scan_max_depth permissions) ≫= non_zero)))
  | Some fs, None | None, Some fs => Some fs
  | None, None => None
  end.

Definition merge_permission_profiles (base permissions : option AdditionalPermissionProfile)
    : option AdditionalPermissionProfile :=
  match permissions with
  | None => base
  | Some permissions =>
      keep_if (fun p => negb (additional_is_empty p))
        (Some match base with
              | Some base =>
                  mkAdditional
                    (if enables_network (ap_network base) || enables_network (ap_network permissions)
                     then Some (mkNetPermissions (Some true)) else None)
                    (merge_file_systems (ap_file_system base) (ap_file_system permissions))
              | None => permissions
              end)
  end.

(** ** Intersection *)

Definition resolve_permission_path (path : FileSystemPath) (cwd : str) : option str :=
  match path with
  | PathEntry path => Some path
  | GlobPattern _ => None
  | Special Root => root ← last (ancestors cwd); absolute root
  | Special (ProjectRoots subpath) =>
      cwd ← absolute cwd;
      Some match subpath with
           | Some subpath => resolve_path_against_base h_home_dir subpath cwd
           | None => cwd
           end
  | Special Tmpdir => tmpdir ← h_tmpdir; if is_empty tmpdir then None else absolute tmpdir
  | Special SlashTmp => keep_if h_is_dir (absolute (lit "/tmp"))
  | Special (Minimal | UnknownSpecial _ _) => None
  end.

Definition materialize_cwd_dependent_entry (entry : FileSystemSandboxEntry) (cwd : str) : FileSystemSandboxEntry :=
  match entry_path entry with
  | Special (ProjectRoots _) =>
      match resolve_permission_path (entry_path entry) cwd with
      | Some path => mkEntry (PathEntry path) (entry_access entry)
      | None => entry
      end
  | GlobPattern pattern =>
      mkEntry (GlobPattern (resolve_path_against_base h_home_dir pattern cwd)) (entry_access entry)
  | PathEntry _ | Special _ => entry
  end.

(** [Path::parent] of a text *)
Definition glob_static_prefix_path (pattern cwd : str) : option str :=
  let resolved_pattern := resolve_path_against_base h_home_dir pattern cwd in
  prefix ←
    match find_index (fun c => existsb (N.eqb c) [ch "*"; ch "?"; ch "["; ch "]"]) resolved_pattern with
    | Some O => None
    | Some index =>
        let prefix := take index resolved_pattern in
        if ends_with prefix (lit "/") || ends_with prefix (lit "\") then Some prefix else parent prefix
    | None => Some resolved_pattern
    end;
  absolute prefix.

Context (build_glob_matcher : str -> option (str -> bool)).

Definition granted_file_system_entry_within_request (requested : FileSystemPermissions)
    (requested_policy : FileSystemSandboxPolicy) (requested_read_deny_matcher : option ReadDenyMatcher)
    (granted_entry : FileSystemSandboxEntry) (cwd : str) : bool :=
  if negb (can_read (entry_access granted_entry)) then false
  else
    match resolve_permission_path (entry_path granted_entry) cwd with
    | Some path =>
        if match requested_read_deny_matcher with Some matcher => is_read_denied matcher path | None => false end
        then false
        else access_covers (resolve_access_with_cwd requested_policy path cwd) (entry_access granted_entry)
    | None =>
        existsb (fun requested_entry =>
          access_covers (entry_access requested_entry) (entry_access granted_entry)
          && fs_path_eqb (entry_path requested_entry) (entry_path granted_entry)) (fsp_entries requested)
    end.

Definition deny_entry_constrains_accepted_grant (deny_entry : FileSystemSandboxEntry)
    (accepted_entries : list FileSystemSandboxEntry) (cwd : str) : bool :=
  existsb (fun entry =>
    match resolve_permission_path (entry_path entry) cwd with
    | None => false
    | Some grant_path =>
        match (match entry_path deny_entry with
               | GlobPattern pattern => glob_static_prefix_path pattern cwd
               | PathEntry _ | Special _ => resolve_permission_path (entry_path deny_entry) cwd
               end) with
        | Some deny_path => paths_overlap deny_path grant_path
        | None => false
        end
    end) (List.filter (fun entry => can_read (entry_access entry)) accepted_entries).

(** The entries that are kept *)
Definition constraining_deny_entries (source_entries accepted_entries : list FileSystemSandboxEntry) (cwd : str)
    : list FileSystemSandboxEntry :=
  map (fun entry => materialize_cwd_dependent_entry entry cwd)
    (List.filter (fun entry => deny_entry_constrains_accepted_grant entry accepted_entries cwd)
       (List.filter (fun entry => bool_decide (entry_access entry = AccessNone)) source_entries)).

(** The entries that are kept, and the output with them *)
Definition retain_constraining_deny_entries (source_entries accepted_entries : list FileSystemSandboxEntry) (cwd : str)
    (output_entries : list FileSystemSandboxEntry) : list FileSystemSandboxEntry * list FileSystemSandboxEntry :=
  let retained_entries := constraining_deny_entries source_entries accepted_entries cwd in
  (retained_entries, foldl push_once output_entries retained_entries).

Definition accepted_entries_of (requested_file_system granted_file_system : FileSystemPermissions) (cwd : str)
    : list FileSystemSandboxEntry :=
  let requested_policy := restricted (fsp_entries requested_file_system) in
  let requested_read_deny_matcher := new_read_deny_matcher build_glob_matcher requested_policy cwd in
  foldl push_once []
    (map (fun entry => materialize_cwd_dependent_entry entry cwd)
       (List.filter (fun entry => granted_file_system_entry_within_request requested_file_system requested_policy
                                    requested_read_deny_matcher entry cwd) (fsp_entries granted_file_system))).

Definition intersect_file_systems (requested_file_system granted_file_system : FileSystemPermissions) (cwd : str)
    : FileSystemPermissions :=
  let accepted_entries := accepted_entries_of requested_file_system granted_file_system cwd in
  let '(requested_retained, entries) :=
    retain_constraining_deny_entries (fsp_entries requested_file_system) accepted_entries cwd accepted_entries in
  let '(granted_retained, entries) :=
    retain_constraining_deny_entries (fsp_entries granted_file_system) accepted_entries cwd entries in
  mkFsPermissions entries
    (merge_glob_scan_max_depth requested_retained (fsp_glob_scan_max_depth requested_file_system)
       granted_retained (fsp_glob_scan_max_depth granted_file_system) ≫= non_zero).

Definition intersect_permission_profiles (requested granted : AdditionalPermissionProfile) (cwd : str)
    : AdditionalPermissionProfile :=
  mkAdditional
    (if enables_network (ap_network requested) && enables_network (ap_network granted)
     then Some (mkNetPermissions (Some true)) else None)
    (keep_if (fun fs => negb (fs_permissions_is_empty fs))
       (requested_file_system ← ap_file_system requested;
        Some (intersect_file_systems requested_file_system
                (default (mkFsPermissions [] None) (ap_file_system granted)) cwd))).
End transforms.

(** ** The policy that results *)

Definition merge_file_system_policy_with_additional_permissions (file_system_policy : FileSystemSandboxPolicy)
    (additional_permissions : FileSystemPermissions) : FileSystemSandboxPolicy :=
  match fs_kind file_system_policy with
  | Restricted =>
      mkFsPolicy Restricted
        (merge_glob_scan_max_depth (fs_entries file_system_policy) (fs_glob_scan_max_depth file_system_policy)
           (fsp_entries additional_permissions) (fsp_glob_scan_max_depth additional_permissions))
        (foldl push_once (fs_entries file_system_policy) (fsp_entries additional_permissions))
  | Unrestricted | ExternalSandbox => file_system_policy
  end.

Definition effective_file_system_sandbox_policy (file_system_policy : FileSystemSandboxPolicy)
    (additional_permissions : option AdditionalPermissionProfile) : FileSystemSandboxPolicy :=
  match additional_permissions ≫= ap_file_system with
  | None => file_system_policy
  | Some file_system_permissions =>
      if fs_permissions_is_empty file_system_permissions then file_system_policy
      else merge_file_system_policy_with_additional_permissions file_system_policy file_system_permissions
  end.

Definition merge_network_access (base_network_access : bool) (additional_permissions : AdditionalPermissionProfile) : bool :=
  base_network_access || enables_network (ap_network additional_permissions).

Definition effective_network_sandbox_policy (network_policy : NetworkSandboxPolicy)
    (additional_permissions : option AdditionalPermissionProfile) : NetworkSandboxPolicy :=
  match additional_permissions with
  | Some permissions => if merge_network_access (net_is_enabled network_policy) permissions then NetEnabled else NetRestricted
  | None => network_policy
  end.

Inductive SandboxEnforcement : Type := EnforcementManaged | EnforcementDisabled | EnforcementExternal.

Definition enforcement (self : PermissionProfile) : SandboxEnforcement :=
  match self with
  | Managed _ _ => EnforcementManaged
  | Disabled => EnforcementDisabled
  | External _ => EnforcementExternal
  end.

Definition to_runtime_permissions (self : PermissionProfile) : FileSystemSandboxPolicy * NetworkSandboxPolicy :=
  match self with
  | Managed file_system network => (to_sandbox_policy file_system, network)
  | Disabled => (unrestricted, NetEnabled)
  | External network => (external_sandbox, network)
  end.

Definition from_runtime_permissions_with_enforcement (enforcement : SandboxEnforcement)
    (file_system_sandbox_policy : FileSystemSandboxPolicy) (network_sandbox_policy : NetworkSandboxPolicy)
    : PermissionProfile :=
  match fs_kind file_system_sandbox_policy, enforcement with
  | ExternalSandbox, _ => External network_sandbox_policy
  | Unrestricted, EnforcementDisabled => Disabled
  | Unrestricted, _ => Managed ManagedUnrestricted network_sandbox_policy
  | Restricted, _ =>
      Managed (ManagedRestricted (fs_entries file_system_sandbox_policy)
                 (fs_glob_scan_max_depth file_system_sandbox_policy ≫= non_zero)) network_sandbox_policy
  end.

Definition effective_permission_profile (permission_profile : PermissionProfile)
    (additional_permissions : option AdditionalPermissionProfile) : PermissionProfile :=
  let '(file_system_policy, network_policy) := to_runtime_permissions permission_profile in
  from_runtime_permissions_with_enforcement (enforcement permission_profile)
    (effective_file_system_sandbox_policy file_system_policy additional_permissions)
    (effective_network_sandbox_policy network_policy additional_permissions).

Definition should_require_platform_sandbox (file_system_policy : FileSystemSandboxPolicy)
    (network_policy : NetworkSandboxPolicy) (has_managed_network_requirements : bool) : bool :=
  if has_managed_network_requirements then true
  else if negb (net_is_enabled network_policy) then
    match fs_kind file_system_policy with ExternalSandbox => false | _ => true end
  else
    match fs_kind file_system_policy with
    | Restricted => negb (has_full_disk_write_access file_system_policy)
    | Unrestricted | ExternalSandbox => false
    end.

(** ** Lists without repetitions *)

Lemma option_path_same p : option_path_eqb p p = true.
Proof. destruct p; [apply path_eqb_refl|done]. Qed.

Lemma entry_eqb_refl e : entry_eqb e e = true.
Proof.
  unfold entry_eqb. rewrite bool_decide_eq_true_2, andb_true_r by done.
  destruct (entry_path e) as [p|g|[]]; cbn; rewrite ?option_path_same, ?path_eqb_refl, ?bool_decide_eq_true_2; done.
Qed.

Lemma contains_entry_spec l e : contains_entry l e = true <-> exists x, x ∈ l /\ entry_eqb x e = true.
Proof.
  unfold contains_entry. rewrite existsb_exists. split; intros (x & Hx & He); exists x;
    (split; [by apply list_elem_of_In|done]).
Qed.

Lemma push_once_sub l e x : x ∈ l -> x ∈ push_once l e.
Proof. unfold push_once. destruct (contains_entry l e); [done|]. rewrite elem_of_app. tauto. Qed.

Lemma push_all_sub es l x : x ∈ l -> x ∈ foldl push_once l es.
Proof. revert l. induction es as [|e es IH]; intros l Hx; [done|]. cbn. by apply IH, push_once_sub. Qed.

(** Nothing else is added, and everything is there, as the code compares. *)
Lemma push_all_from es l x : x ∈ foldl push_once l es -> x ∈ l \/ x ∈ es.
Proof.
  revert l. induction es as [|e es IH]; intros l; cbn; [by left|]. intros [Hx|Hx]%IH; [|right; by right].
  unfold push_once in Hx. destruct (contains_entry l e); [by left|].
  apply elem_of_app in Hx as [?| ->%list_elem_of_singleton]; [by left|right; left].
Qed.

Lemma push_all_has es l e : e ∈ es -> exists x, x ∈ foldl push_once l es /\ entry_eqb x e = true.
Proof.
  revert l. induction es as [|e' es IH]; intros l; [by intros ?%elem_of_nil|].
  intros [->|He]%elem_of_cons; [|by apply IH]. cbn.
  assert (exists x, x ∈ push_once l e' /\ entry_eqb x e' = true) as (x & Hx & Hxe).
  { unfold push_once. destruct (contains_entry l e') eqn:E; [by apply contains_entry_spec|].
    exists e'. split; [|apply entry_eqb_refl]. rewrite elem_of_app. right. left. }
  exists x. split; [by apply push_all_sub|done].
Qed.

(** ** Entries as places *)

Section places.
Context `{Host} {Hok : HostOk}.

(** An entry that does not depend on the working directory *)
Definition settled (e : FileSystemSandboxEntry) : Prop :=
  entry_ok e /\ match entry_path e with Special (ProjectRoots _) => False | _ => True end.

Definition place_of (cwd : str) (e : FileSystemSandboxEntry) : option str := resolve_entry_path (entry_path e) (Some cwd).

Lemma settled_place cwd cwd' e : normal_abs cwd -> normal_abs cwd' -> settled e -> place_of cwd e = place_of cwd' e.
Proof.
  intros Hc Hc' [_ He]. unfold place_of, resolve_entry_path, resolve_file_system_path.
  destruct (entry_path e) as [p|g|[]]; try done. cbn [mbind option_bind]. by rewrite !absolute_root_path_normal.
Qed.

Lemma settled_eqb cwd a b :
  settled a -> settled b -> entry_eqb a b = true -> entry_access a = entry_access b /\ place_of cwd a = place_of cwd b.
Proof.
  intros [Ha Hap] [Hb Hbp] [Hp Hacc]%andb_true_iff. split; [by apply (bool_decide_eq_true _)|].
  unfold place_of, entry_ok in *. destruct (entry_path a) as [p|g|s], (entry_path b) as [p'|g'|s']; try done.
  - by apply path_eqb_normal in Hp as ->.
  - by destruct s, s'.
Qed.

Lemma resolve_permission_place path cwd :
  normal_abs cwd -> resolve_permission_path path cwd = resolve_entry_path path (Some cwd).
Proof.
  intros Hc. destruct path as [p|g|[]]; try done; cbn.
  - rewrite absolute_id by done. by destruct subpath.
  - assert (normal_abs (lit "/tmp")) as Ht.
    { exists [lit "tmp"]. split; [constructor; [by apply (bool_decide_unpack _)|done]|done]. }
    rewrite (absolute_id _ Ht). cbn. by destruct (h_is_dir _).
Qed.

Lemma materialize_settled e cwd :
  normal_abs cwd -> entry_ok e ->
  settled (materialize_cwd_dependent_entry e cwd)
  /\ entry_access (materialize_cwd_dependent_entry e cwd) = entry_access e
  /\ place_of cwd (materialize_cwd_dependent_entry e cwd) = place_of cwd e.
Proof.
  intros Hc He. unfold materialize_cwd_dependent_entry. destruct (entry_path e) as [p|g|s] eqn:Ep.
  - split_and!; [|done..]. split; [done|]. by rewrite Ep.
  - split_and!; [by split|done|]. unfold place_of. by rewrite Ep.
  - destruct s as [| |sub| | |]; try (split_and!; [split; [done|by rewrite Ep]|done..]).
    pose proof (resolve_permission_place (Special (ProjectRoots sub)) cwd Hc) as Hr.
    destruct (resolve_permission_path _ cwd) as [q|] eqn:Eq; [|by destruct sub].
    split_and!; [split; [|done]|done|].
    + cbn. apply (resolve_entry_normal e cwd); [done|done|]. by rewrite Ep.
    + unfold place_of. by rewrite Ep.
Qed.

Local Notation resolved l cwd := (resolved_entries_with_cwd (restricted l) cwd).

Lemma elem_of_resolved l cwd r :
  normal_abs cwd ->
  r ∈ resolved l cwd <-> exists e, e ∈ l /\ place_of cwd e = Some (res_path r) /\ entry_access e = res_access r.
Proof. intros Hc. rewrite resolved_entry_elem, absolute_id by done. done. Qed.

Lemma resolved_normal l cwd r : Forall entry_ok l -> normal_abs cwd -> r ∈ resolved l cwd -> normal_abs (res_path r).
Proof. intros Hl Hc. by apply resolved_entry_normal. Qed.

(** The access that a list of entries gives *)
Definition given (l : list FileSystemSandboxEntry) (cwd p : str) : FileSystemAccessMode :=
  resolve_access_with_cwd (restricted l) p cwd.

Lemma given_decides l cwd p :
  normal_abs p ->
  (exists r, decides (resolved l cwd) p r /\ given l cwd p = res_access r)
  \/ given l cwd p = AccessNone /\ forall r, r ∈ resolved l cwd -> path_starts_with p (res_path r) = false.
Proof. intros Hp. apply resolve_access_decides; [done|]. by apply resolve_candidate_id. Qed.

Lemma given_by l cwd p r : normal_abs p -> decides (resolved l cwd) p r -> given l cwd p = res_access r.
Proof.
  intros Hp Hr. destruct (given_decides l cwd p Hp) as [(r' & Hr' & ->)|[_ Hno]]; [by eapply decides_access|].
  destruct Hr as (Hin & Hs & _). by rewrite Hno in Hs.
Qed.

Lemma readable_decides l cwd p :
  normal_abs p -> can_read (given l cwd p) = true ->
  exists r, decides (resolved l cwd) p r /\ given l cwd p = res_access r /\ can_read (res_access r) = true.
Proof.
  intros Hp Hr. destruct (given_decides l cwd p Hp) as [(r & Hd & E)|[E _]]; rewrite E in Hr; [|done].
  exists r. by rewrite E.
Qed.

Lemma given_nil cwd p : normal_abs p -> given [] cwd p = AccessNone.
Proof. intros Hp. destruct (given_decides [] cwd p Hp) as [(r & (Hr%elem_of_nil & _) & _)|[-> _]]; done. Qed.

(** Lists of the same places give the same. *)
Lemma given_same l k cwd cwd' p :
  normal_abs p -> (forall r, r ∈ resolved l cwd <-> r ∈ resolved k cwd') -> given l cwd p = given k cwd' p.
Proof.
  intros Hp Hlk. destruct (given_decides l cwd p Hp) as [(r & (Hin & Hs & Hm) & ->)|[-> Hno]].
  - symmetry. apply given_by; [done|]. split; [by apply Hlk|]. split; [done|]. intros e He. by apply Hm, Hlk.
  - destruct (given_decides k cwd' p Hp) as [(r & (Hin & Hs & _) & _)|[-> _]]; [|done].
    by rewrite Hno in Hs by by apply Hlk.
Qed.

(** A place that is readable is readable below, down to a denial. *)
Lemma readable_down l cwd r p :
  normal_abs p -> r ∈ resolved l cwd -> can_read (res_access r) = true -> path_starts_with p (res_path r) = true ->
  (forall d, d ∈ resolved l cwd -> res_access d = AccessNone -> path_starts_with p (res_path d) = true ->
     path_starts_with (res_path d) (res_path r) = false) ->
  can_read (given l cwd p) = true.
Proof.
  intros Hp Hr Hrr Hpr Hno. destruct (given_decides l cwd p Hp) as [(d & (Hin & Hs & Hm) & ->)|[_ Hn]].
  - unfold can_read. apply negb_true_iff, bool_decide_eq_false_2. intros Hd.
    destruct (Hm r Hr Hpr) as [Hdr _]. by rewrite Hno in Hdr.
  - by rewrite Hn in Hpr.
Qed.

Lemma covers_readable a b : access_covers a b = true -> can_read a = true.
Proof. by destruct a, b. Qed.

Lemma readable_rank a : can_read a = true -> access_rank AccessNone <= access_rank a -> False.
Proof. destruct a; cbn; [lia..|done]. Qed.
End places.

(** ** What an intersection gives *)

Section intersection.
Context `{Host} {Hok : HostOk}.
Context (build_glob_matcher : str -> option (str -> bool)).
Context (req gr : FileSystemPermissions) (cwd : str).
Hypothesis req_ok : Forall entry_ok (fsp_entries req).
Hypothesis gr_ok : Forall entry_ok (fsp_entries gr).
Hypothesis cwd_normal : normal_abs cwd.

Local Notation resolved l := (resolved_entries_with_cwd (restricted l) cwd).
Local Notation out := (fsp_entries (intersect_file_systems build_glob_matcher req gr cwd)).
Local Notation accepted := (accepted_entries_of build_glob_matcher req gr cwd).
Local Notation mat e := (materialize_cwd_dependent_entry e cwd).

Definition within (g : FileSystemSandboxEntry) : Prop :=
  g ∈ fsp_entries gr
  /\ granted_file_system_entry_within_request req (restricted (fsp_entries req))
       (new_read_deny_matcher build_glob_matcher (restricted (fsp_entries req)) cwd) g cwd = true.

Definition denial (d : FileSystemSandboxEntry) : Prop :=
  (d ∈ fsp_entries req \/ d ∈ fsp_entries gr) /\ entry_access d = AccessNone
  /\ deny_entry_constrains_accepted_grant d accepted cwd = true.

Lemma entry_ok_of e : e ∈ fsp_entries req \/ e ∈ fsp_entries gr -> entry_ok e.
Proof. rewrite Forall_forall in req_ok, gr_ok. intros [?|?]; auto. Qed.

Lemma accepted_from x : x ∈ accepted -> exists g, within g /\ x = mat g.
Proof.
  unfold accepted_entries_of. intros [Hx%elem_of_nil|Hx]%push_all_from; [done|].
  apply list_elem_of_In, in_map_iff in Hx as (g & <- & [Hg%list_elem_of_In Hw]%filter_In). by exists g.
Qed.

Lemma accepted_has g : within g -> exists x, x ∈ accepted /\ entry_eqb x (mat g) = true.
Proof.
  intros [Hg Hw]. apply push_all_has. apply list_elem_of_In, in_map_iff. exists g. split; [done|].
  apply filter_In. split; [by apply list_elem_of_In|done].
Qed.

Lemma elem_of_constraining source x :
  x ∈ constraining_deny_entries source accepted cwd
  <-> exists d, d ∈ source /\ entry_access d = AccessNone
                /\ deny_entry_constrains_accepted_grant d accepted cwd = true /\ x = mat d.
Proof.
  unfold constraining_deny_entries. rewrite list_elem_of_In, in_map_iff. split.
  - intros (d & <- & [[Hd%list_elem_of_In Ha]%filter_In Hc]%filter_In). exists d.
    split_and!; [done|by apply (bool_decide_eq_true _)|done|done].
  - intros (d & Hd & Ha & Hc & ->). exists d. split; [done|]. rewrite !filter_In, bool_decide_eq_true.
    split_and!; [by apply list_elem_of_In|done|done].
Qed.

Lemma out_from x : x ∈ out -> exists e, (within e \/ denial e) /\ x = mat e.
Proof.
  unfold intersect_file_systems, retain_constraining_deny_entries. cbn.
  intros [[Hx|Hx]%push_all_from|Hx]%push_all_from.
  - apply accepted_from in Hx as (g & Hg & ->). exists g. split; [by left|done].
  - apply elem_of_constraining in Hx as (d & Hd & Ha & Hc & ->). exists d. split; [|done]. right. split; [by left|done].
  - apply elem_of_constraining in Hx as (d & Hd & Ha & Hc & ->). exists d. split; [|done]. right. split; [by right|done].
Qed.

Lemma out_has e : within e \/ denial e -> exists x, x ∈ out /\ entry_eqb x (mat e) = true.
Proof.
  unfold intersect_file_systems, retain_constraining_deny_entries. cbn. intros [He|([He|He] & Ha & Hc)].
  - destruct (accepted_has e He) as (x & Hx & Hxe). exists x. split; [by apply push_all_sub, push_all_sub|done].
  - destruct (push_all_has (constraining_deny_entries (fsp_entries req) accepted cwd) accepted (mat e)) as (x & Hx & Hxe).
    { apply elem_of_constraining. by exists e. }
    exists x. split; [by apply push_all_sub|done].
  - apply push_all_has. apply elem_of_constraining. by exists e.
Qed.

Lemma used_ok e : within e \/ denial e -> entry_ok e.
Proof. intros [[He _]|[He _]]; apply entry_ok_of; tauto. Qed.

Lemma out_settled : Forall settled out.
Proof.
  apply Forall_forall. intros x (e & He & ->)%out_from. by apply materialize_settled, used_ok.
Qed.

Lemma resolved_out r :
  r ∈ resolved out
  <-> exists e, (within e \/ denial e) /\ place_of cwd e = Some (res_path r) /\ entry_access e = res_access r.
Proof.
  rewrite elem_of_resolved by done. split.
  - intros (x & (e & He & ->)%out_from & Hp & Ha). exists e. split; [done|].
    destruct (materialize_settled e cwd) as (_ & Hma & Hmp); [done|by apply used_ok|]. by rewrite <- Hmp, <- Hma.
  - intros (e & He & Hp & Ha). destruct (out_has e He) as (x & Hx & Hxe). exists x. split; [done|].
    destruct (materialize_settled e cwd) as (Hs & Hma & Hmp); [done|by apply used_ok|].
    pose proof out_settled as Hos. rewrite Forall_forall in Hos.
    destruct (settled_eqb cwd _ _ (Hos x Hx) Hs Hxe) as [-> ->]. by rewrite Hmp, Hma.
Qed.

Lemma within_readable g : within g -> can_read (entry_access g) = true.
Proof. intros [_ Hw]. unfold granted_file_system_entry_within_request in Hw. by destruct (can_read _). Qed.

(** The place of a readable entry of the result was granted, and asked for. *)
Lemma out_readable r :
  r ∈ resolved out -> can_read (res_access r) = true ->
  r ∈ resolved (fsp_entries gr) /\ access_covers (given (fsp_entries req) cwd (res_path r)) (res_access r) = true
  /\ exists g, within g /\ place_of cwd g = Some (res_path r) /\ entry_access g = res_access r.
Proof.
  intros (e & [He|(_ & Hd & _)] & Hp & Ha)%resolved_out Hr; [|by rewrite Hd in Ha; rewrite <- Ha in Hr].
  split_and!; [| |by exists e].
  - apply elem_of_resolved; [done|]. exists e. by split; [apply He|].
  - destruct He as [_ Hw]. unfold granted_file_system_entry_within_request in Hw.
    rewrite resolve_permission_place in Hw by done. unfold place_of in Hp. rewrite Hp, Ha, Hr in Hw. cbn [negb] in Hw.
    destruct (match new_read_deny_matcher _ _ _ with Some m => _ | None => _ end); [done|]. exact Hw.
Qed.

(** A denial that overlaps a readable place of the result is kept. *)
Lemma denial_kept d r :
  d ∈ resolved (fsp_entries req) \/ d ∈ resolved (fsp_entries gr) -> res_access d = AccessNone ->
  r ∈ resolved out -> can_read (res_access r) = true -> paths_overlap (res_path d) (res_path r) = true ->
  d ∈ resolved out.
Proof.
  intros Hd Ha Hr Hrr Ho. destruct (out_readable r Hr Hrr) as (_ & _ & g & Hg & Hgp & Hga).
  assert (exists e, (e ∈ fsp_entries req \/ e ∈ fsp_entries gr) /\ place_of cwd e = Some (res_path d) /\ entry_access e = AccessNone)
    as (e & He & Hep & Hea).
  { rewrite <- Ha. destruct Hd as [(e & ? & ? & ?)%elem_of_resolved|(e & ? & ? & ?)%elem_of_resolved]; try done; exists e; tauto. }
  apply resolved_out. exists e. split; [|by rewrite Hea]. right. split; [done|]. split; [done|].
  unfold deny_entry_constrains_accepted_grant. apply existsb_exists.
  destruct (accepted_has g Hg) as (x & Hx & Hxe).
  assert (settled x) as Hxs.
  { apply accepted_from in Hx as (g' & Hg' & ->). apply materialize_settled, used_ok; [done|by left]. }
  destruct (materialize_settled g cwd) as (Hgs & Hma & Hmp); [done|by apply used_ok; left|].
  destruct (settled_eqb cwd x _ Hxs Hgs Hxe) as [Hxa Hxp]. exists x. split.
  { apply filter_In. split; [by apply list_elem_of_In|]. by rewrite Hxa, Hma, Hga. }
  rewrite resolve_permission_place by done. unfold place_of in Hxp, Hmp, Hgp, Hep. rewrite Hxp, Hmp, Hgp.
  destruct (entry_path e) as [q|pat|s] eqn:Eq; [|done|];
    rewrite resolve_permission_place by done; rewrite Hep; exact Ho.
Qed.

(** A denial above a path that the result lets be read lies above the place
    that lets it. *)
Lemma no_denial_below p r d :
  normal_abs p -> decides (resolved out) p r -> can_read (res_access r) = true ->
  d ∈ resolved (fsp_entries req) \/ d ∈ resolved (fsp_entries gr) -> res_access d = AccessNone ->
  path_starts_with p (res_path d) = true -> path_starts_with (res_path d) (res_path r) = false.
Proof.
  intros Hp (Hin & Hs & Hm) Hrr Hd Ha Hpd. apply not_true_iff_false. intros Hdr.
  assert (d ∈ resolved out) as Hdo.
  { eapply denial_kept; [done|done|exact Hin|done|]. unfold paths_overlap. by rewrite Hdr. }
  destruct (Hm d Hdo Hpd) as [Hrd Hrank]. apply (readable_rank (res_access r) Hrr). rewrite <- Ha. apply Hrank.
  by apply (anti_symm prefix); apply path_starts_with_spec.
Qed.

Lemma out_given_read p :
  normal_abs p -> can_read (given out cwd p) = true ->
  can_read (given (fsp_entries req) cwd p) = true /\ can_read (given (fsp_entries gr) cwd p) = true.
Proof.
  intros Hp Hread. destruct (readable_decides out cwd p Hp Hread) as (r & Hd & _ & Hrr).
  pose proof Hd as (Hin & Hs & _). destruct (out_readable r Hin Hrr) as (Hg & Hcov & _). split.
  - assert (Forall entry_ok out) as Hoo.
    { eapply Forall_impl; [exact out_settled|]. by intros e []. }
    pose proof (resolved_normal _ _ _ Hoo cwd_normal Hin) as Hrn.
    assert (can_read (given (fsp_entries req) cwd (res_path r)) = true) as Hreq.
    { by eapply covers_readable. }
    destruct (readable_decides _ _ _ Hrn Hreq) as (d0 & (Hd0 & Hs0 & Hm0) & _ & Hr0).
    apply (readable_down _ _ d0); [done|done|done|by eapply path_starts_with_trans|].
    intros d Hdin Hda Hpd. apply not_true_iff_false. intros Hdd0.
    pose proof (no_denial_below p r d Hp Hd Hrr (or_introl Hdin) Hda Hpd) as Hno.
    assert (path_starts_with (res_path r) (res_path d) = true) as Hrd.
    { destruct (Nat.le_ge_cases (length (components (res_path d))) (length (components (res_path r))));
        [by apply (path_starts_with_chain p)|]. by rewrite (path_starts_with_chain p) in Hno. }
    destruct (Hm0 d Hdin Hrd) as [Hd0d Hrank]. apply (readable_rank (res_access d0) Hr0). rewrite <- Hda. apply Hrank.
    by apply (anti_symm prefix); apply path_starts_with_spec.
  - apply (readable_down _ _ r); [done..|]. intros d Hdin Hda Hpd.
    apply (no_denial_below p r d Hp Hd Hrr (or_intror Hdin) Hda Hpd).
Qed.

(** Without links and denied patterns, nothing can be written that was only
    granted to be read. *)
Lemma out_given_write `{!NoSymlinks} p :
  get_unreadable_globs_with_cwd (restricted (fsp_entries req)) cwd = [] ->
  normal_abs p -> can_write (given out cwd p) = true -> can_write (given (fsp_entries gr) cwd p) = true.
Proof.
  intros Hglobs Hp Hwrite. assert (can_read (given out cwd p) = true) as Hread by by destruct (given out cwd p).
  destruct (readable_decides out cwd p Hp Hread) as (r & Hd & Er & Hrr). rewrite Er in Hwrite.
  pose proof Hd as (Hin & Hs & Hm). destruct (out_readable r Hin Hrr) as (Hg & _ & g & Hwg & Hgp & Hga).
  destruct (out_given_read p Hp Hread) as [_ Hgr].
  destruct (readable_decides _ cwd p Hp Hgr) as (dg & (Hdg & Hsg & Hmg) & -> & Hrg).
  destruct (res_access dg) eqn:Eg; [|done..]. exfalso.
  destruct (Hmg r Hg Hs) as [Hdr Hrank]. 
  pose proof (resolved_normal _ _ _ gr_ok cwd_normal Hdg) as Hdgn.
  pose proof (resolved_normal _ _ _ gr_ok cwd_normal Hg) as Hrn.
  assert (forall d, d ∈ resolved out -> res_access d = AccessNone -> path_starts_with p (res_path d) = true ->
            path_starts_with (res_path d) (res_path r) = false) as Hout.
  { intros d Hdin Hda Hpd. apply not_true_iff_false. intros Hdr'. destruct (Hm d Hdin Hpd) as [Hrd Hrk].
    apply (readable_rank (res_access r) Hrr). rewrite <- Hda. apply Hrk. by apply (anti_symm prefix); apply path_starts_with_spec. }
  assert (dg ∈ resolved out) as Hdgo.
  { apply elem_of_resolved in Hdg as (e & He & Hep & Hea); [|done]. apply resolved_out. exists e. split; [left|done].
    split; [done|]. unfold granted_file_system_entry_within_request.
    rewrite Hea, Eg, resolve_permission_place by done. cbn [negb]. unfold place_of in Hep. rewrite Hep.
    assert (can_read (given (fsp_entries req) cwd (res_path dg)) = true) as Hreq.
    { apply out_given_read; [done|]. apply (readable_down _ _ r); [done..|]. intros d Hdin Hda Hpd.
      apply Hout; [done|done|by eapply path_starts_with_trans]. }
    change (if negb (can_read AccessRead) then false else ?x) with x.
    destruct Hwg as [_ Hwg]. unfold granted_file_system_entry_within_request in Hwg.
    rewrite Hga, Hrr, resolve_permission_place in Hwg by done. cbn [negb] in Hwg. unfold place_of in Hgp. rewrite Hgp in Hwg.
    pose proof (fun q Hq => read_denied_spec build_glob_matcher (restricted (fsp_entries req)) cwd q req_ok cwd_normal eq_refl Hq) as Hspec.
    destruct (new_read_deny_matcher _ _ _) as [m|]; [|exact Hreq].
    destruct (is_read_denied m (res_path dg)) eqn:Edeny; [|exact Hreq].
    apply (Hspec _ Hdgn) in Edeny as [(? & Hx & _)|[(? & ? & Hx & _)|(d & Hdin & Hda & Hne & Hsd)]];
      [by rewrite Hglobs in Hx; apply elem_of_nil in Hx..|].
    assert (is_read_denied m (res_path r) = true) as Er'; [|by rewrite Er' in Hwg].
    apply (Hspec _ Hrn). right. right. exists d. split_and!; [done..|].
    assert (path_starts_with p (res_path d) = true) as Hpd by by eapply path_starts_with_trans.
    pose proof (no_denial_below p r d Hp Hd Hrr (or_introl Hdin) Hda Hpd) as Hno.
    destruct (Nat.le_ge_cases (length (components (res_path d))) (length (components (res_path r))));
      [by apply (path_starts_with_chain p)|]. by rewrite (path_starts_with_chain p) in Hno. }
  destruct (Hm dg Hdgo Hsg) as [Hrd _]. try rewrite Eg in Hrank. revert Hwrite Hrank. destruct (res_access r); [done| |done].
  intros _ Hrank. assert (1 <= 0); [apply Hrank|lia]. by apply (anti_symm prefix); apply path_starts_with_spec.
Qed.

Lemma resolve_again pattern base base' :
  is_absolute base = true -> let q := resolve_path_against_base h_home_dir pattern base in
  resolve_path_against_base h_home_dir q base' = q.
Proof.
  intros Hb q. assert (normal_abs q) as Hq by by apply absolutize_from_normal.
  unfold resolve_path_against_base. rewrite expand_absolute by by apply normal_abs_absolute. by apply absolutize_from_id.
Qed.

Lemma elem_of_globs l c q :
  q ∈ get_unreadable_globs_with_cwd (restricted l) c
  <-> exists e pattern, e ∈ l /\ entry_access e = AccessNone /\ entry_path e = GlobPattern pattern
                        /\ q = resolve_path_against_base h_home_dir pattern c.
Proof.
  unfold get_unreadable_globs_with_cwd, restricted, fs_restricted, denies_read. cbn [fs_kind fs_entries negb].
  rewrite elem_of_vec_dedup, sort_by_perm, list_elem_of_omap. split.
  - intros (e & [He%list_elem_of_In Ha]%list_elem_of_In%filter_In & Hq).
    destruct (entry_path e) as [|g|] eqn:Ep; try done. injection Hq as <-. exists e, g.
    split_and!; [done|by apply (bool_decide_eq_true _)|done|done].
  - intros (e & g & He & Ha & Hp & ->). exists e. rewrite Hp. split; [|done]. apply list_elem_of_In, filter_In.
    split; [by apply list_elem_of_In|by apply bool_decide_eq_true].
Qed.

(** A denied pattern that may match below a readable place of the result stays. *)
Lemma out_keeps_globs g prefix p :
  g ∈ get_unreadable_globs_with_cwd (restricted (fsp_entries req)) cwd
  \/ g ∈ get_unreadable_globs_with_cwd (restricted (fsp_entries gr)) cwd ->
  glob_static_prefix_path g cwd = Some prefix -> normal_abs p -> path_starts_with p prefix = true ->
  can_read (given out cwd p) = true -> g ∈ get_unreadable_globs_with_cwd (restricted out) cwd.
Proof.
  intros Hg Hprefix Hp Hpp Hread. destruct (readable_decides out cwd p Hp Hread) as (r & (Hin & Hs & _) & _ & Hrr).
  destruct (out_readable r Hin Hrr) as (_ & _ & a & Ha & Hap & Haa).
  assert (exists e pattern, (e ∈ fsp_entries req \/ e ∈ fsp_entries gr) /\ entry_access e = AccessNone
    /\ entry_path e = GlobPattern pattern /\ g = resolve_path_against_base h_home_dir pattern cwd)
    as (e & pattern & He & Hea & Hep & Eg).
  { destruct Hg as [(e & pat & ? & ? & ? & ?)%elem_of_globs|(e & pat & ? & ? & ? & ?)%elem_of_globs]; exists e, pat; tauto. }
  assert (resolve_path_against_base h_home_dir g cwd = g) as Hgg.
  { rewrite Eg. by apply resolve_again, normal_abs_absolute. }
  assert (denial e) as Hd.
  { split; [done|]. split; [done|]. destruct (accepted_has a Ha) as (x & Hx & Hxe).
    assert (settled x) as Hxs.
    { apply accepted_from in Hx as (g' & Hg' & ->). apply materialize_settled, used_ok; [done|by left]. }
    destruct (materialize_settled a cwd) as (Has & Hma & Hmp); [done|by apply used_ok; left|].
    destruct (settled_eqb cwd x _ Hxs Has Hxe) as [Hxa Hxp]. apply existsb_exists. exists x. split.
    { apply filter_In. split; [by apply list_elem_of_In|]. by rewrite Hxa, Hma, Haa. }
    rewrite resolve_permission_place by done. unfold place_of in Hxp, Hmp, Hap. rewrite Hxp, Hmp, Hap, Hep.
    unfold glob_static_prefix_path in Hprefix |- *. rewrite Hgg in Hprefix. rewrite <- Eg. rewrite Hprefix.
    unfold paths_overlap. apply orb_true_iff.
    destruct (Nat.le_ge_cases (length (components prefix)) (length (components (res_path r))));
      [right|left]; by apply (path_starts_with_chain p). }
  destruct (out_has e (or_intror Hd)) as (x & Hx & Hxe). apply elem_of_globs.
  apply andb_true_iff in Hxe as [Hxp Hxa]. apply (proj1 (bool_decide_eq_true _)) in Hxa. unfold materialize_cwd_dependent_entry in Hxp, Hxa.
  rewrite Hep in Hxp, Hxa. cbn in Hxp, Hxa. destruct (entry_path x) as [|g'|] eqn:Ex; try done.
  apply (proj1 (bool_decide_eq_true _)) in Hxp. exists x, g. rewrite <- Eg in Hxp. split_and!; [done|congruence|congruence|done].
Qed.
End intersection.

(** The entries of a profile *)
Definition entries_of (file_system : option FileSystemPermissions) : list FileSystemSandboxEntry :=
  match file_system with Some fs => fsp_entries fs | None => [] end.

Lemma entries_of_kept fs : entries_of (keep_if (fun fs => negb (fs_permissions_is_empty fs)) (Some fs)) = fsp_entries fs.
Proof. unfold keep_if, fs_permissions_is_empty. cbn. by destruct (fsp_entries fs) eqn:E; cbn. Qed.

Lemma entries_of_intersection `{Host} build requested granted cwd :
  entries_of (ap_file_system (intersect_permission_profiles build requested granted cwd))
  = match ap_file_system requested with
    | Some req => fsp_entries (intersect_file_systems build req (default (mkFsPermissions [] None) (ap_file_system granted)) cwd)
    | None => []
    end.
Proof.
  unfold intersect_permission_profiles. cbn [ap_file_system]. destruct (ap_file_system requested) as [req|]; [|done].
  cbn [mbind option_bind]. apply entries_of_kept.
Qed.

Lemma intersection_network `{Host} build requested granted cwd :
  enables_network (ap_network (intersect_permission_profiles build requested granted cwd)) = true ->
  enables_network (ap_network requested) = true /\ enables_network (ap_network granted) = true.
Proof.
  unfold intersect_permission_profiles. cbn [ap_network].
  by destruct (enables_network (ap_network requested)), (enables_network (ap_network granted)).
Qed.

Definition profile_ok (p : AdditionalPermissionProfile) : Prop := Forall entry_ok (entries_of (ap_file_system p)).

(** What a profile lets be done with a path, by itself *)
Definition gives (p : AdditionalPermissionProfile) (cwd path : str) `{Host} : FileSystemAccessMode :=
  given (entries_of (ap_file_system p)) cwd path.

Definition denied_globs (p : AdditionalPermissionProfile) (cwd : str) `{Host} : list str :=
  get_unreadable_globs_with_cwd (restricted (entries_of (ap_file_system p))) cwd.

Section profiles.
Context `{Host} {Hok : HostOk}.
Context (build : str -> option (str -> bool)) (requested granted : AdditionalPermissionProfile) (cwd p : str).
Hypothesis requested_ok : profile_ok requested.
Hypothesis granted_ok : profile_ok granted.
Hypothesis cwd_normal : normal_abs cwd.
Hypothesis p_normal : normal_abs p.
Local Notation result := (intersect_permission_profiles build requested granted cwd).

Lemma default_ok : Forall entry_ok (fsp_entries (default (mkFsPermissions [] None) (ap_file_system granted))).
Proof. unfold profile_ok in granted_ok. by destruct (ap_file_system granted). Qed.

Lemma default_gives :
  given (fsp_entries (default (mkFsPermissions [] None) (ap_file_system granted))) cwd p = gives granted cwd p.
Proof. unfold gives. by destruct (ap_file_system granted). Qed.

Lemma intersection_read :
  can_read (gives result cwd p) = true ->
  can_read (gives requested cwd p) = true /\ can_read (gives granted cwd p) = true.
Proof.
  unfold gives at 1 2. rewrite entries_of_intersection, <- default_gives. unfold profile_ok in requested_ok.
  destruct (ap_file_system requested) as [req|]; [|by rewrite given_nil].
  by apply out_given_read; [|apply default_ok|..].
Qed.

Lemma intersection_write `{!NoSymlinks} :
  denied_globs requested cwd = [] -> can_write (gives result cwd p) = true -> can_write (gives granted cwd p) = true.
Proof.
  unfold gives at 1, denied_globs. rewrite entries_of_intersection, <- default_gives. unfold profile_ok in requested_ok.
  destruct (ap_file_system requested) as [req|]; [|by rewrite given_nil].
  apply (fun Hg => out_given_write build req _ cwd requested_ok default_ok cwd_normal p Hg p_normal).
Qed.

Lemma intersection_settled : Forall settled (entries_of (ap_file_system result)).
Proof.
  rewrite entries_of_intersection. unfold profile_ok in requested_ok. destruct (ap_file_system requested); [|constructor].
  by apply out_settled; [|apply default_ok|].
Qed.
End profiles.


(** ** What additional permissions give *)

Section effective.
Context `{Host} {Hok : HostOk}.
Local Notation resolved l cwd := (resolved_entries_with_cwd (restricted l) cwd).

Lemma given_is policy cwd p :
  fs_kind policy = Restricted -> resolve_access_with_cwd policy p cwd = given (fs_entries policy) cwd p.
Proof. intros Hk. unfold given, resolve_access_with_cwd. by rewrite Hk. Qed.

Lemma eqb_settled cwd x e :
  entry_ok x -> settled e -> entry_eqb x e = true ->
  entry_access x = entry_access e /\ place_of cwd x = place_of cwd e.
Proof.
  intros Hx He Heq. apply settled_eqb; [|done..]. split; [done|]. destruct He as [_ He].
  apply andb_true_iff in Heq as [Hp _]. by destruct (entry_path x) as [| |[]], (entry_path e) as [| |[]].
Qed.

Lemma resolved_union l k cwd r :
  normal_abs cwd -> Forall entry_ok l -> Forall settled k ->
  r ∈ resolved (foldl push_once l k) cwd <-> r ∈ resolved (l ++ k) cwd.
Proof.
  intros Hc Hl Hk. rewrite !elem_of_resolved by done. rewrite Forall_forall in Hl, Hk. split.
  - intros (e & He & Hp & Ha). exists e. split; [|done]. rewrite elem_of_app. by apply push_all_from.
  - intros (e & [He|He]%elem_of_app & Hp & Ha).
    + exists e. split; [by apply push_all_sub|done].
    + destruct (push_all_has k l e He) as (x & Hx & Hxe). exists x. split; [done|].
      assert (entry_ok x) as Hxo.
      { apply push_all_from in Hx as [Hx|Hx]; [by apply Hl|by apply Hk]. }
      destruct (eqb_settled cwd x e Hxo (Hk e He) Hxe) as [-> ->]. done.
Qed.

Lemma resolved_app l k cwd r : normal_abs cwd -> r ∈ resolved (l ++ k) cwd <-> r ∈ resolved l cwd \/ r ∈ resolved k cwd.
Proof.
  intros Hc. rewrite !elem_of_resolved by done. setoid_rewrite elem_of_app. split.
  - intros (e & [?|?] & ?); [left|right]; by exists e.
  - intros [(e & ? & ?)|(e & ? & ?)]; exists e; tauto.
Qed.

(** Of two lists together one decides. *)
Lemma decides_app l k cwd p r :
  normal_abs cwd -> decides (resolved (l ++ k) cwd) p r -> decides (resolved l cwd) p r \/ decides (resolved k cwd) p r.
Proof.
  intros Hc (Hin & Hs & Hm). apply resolved_app in Hin as [Hin|Hin]; [left|right|done];
    (split; [done|]; split; [done|]; intros e He; apply Hm, resolved_app; tauto).
Qed.
End effective.

(** In a restricted policy with additional permissions, each path has the
    access that the entries of both give together; it has the access of the
    policy alone unless an additional entry covers it, and what an entry of the
    policy denies stays denied unless an additional entry strictly below that
    place covers it. *)
Theorem effective_policy_spec `{HostOk} policy additional cwd p :
  fs_kind policy = Restricted -> policy_ok policy -> Forall settled (entries_of (ap_file_system additional)) ->
  normal_abs cwd -> normal_abs p ->
  let effective := effective_file_system_sandbox_policy policy (Some additional) in
  let extra := entries_of (ap_file_system additional) in
  let places := resolved_entries_with_cwd (restricted extra) cwd in
  resolve_access_with_cwd effective p cwd = resolve_access_with_cwd (restricted (fs_entries policy ++ extra)) p cwd
  /\ ((forall a, a ∈ places -> path_starts_with p (res_path a) = false) ->
        resolve_access_with_cwd effective p cwd = resolve_access_with_cwd policy p cwd)
  /\ forall e, decides (resolved_entries_with_cwd policy cwd) p e -> res_access e = AccessNone ->
       (forall a, a ∈ places -> path_starts_with p (res_path a) = true -> path_starts_with (res_path e) (res_path a) = true) ->
       resolve_access_with_cwd effective p cwd = AccessNone.
Proof.
  intros Hk Hpol Hex Hc Hp effective extra places.
  assert (resolve_access_with_cwd effective p cwd = given (fs_entries policy ++ extra) cwd p) as E.
  { subst effective. unfold effective_file_system_sandbox_policy. cbn [mbind option_bind]. subst extra.
    destruct (ap_file_system additional) as [fs|]; [|by rewrite app_nil_r, given_is].
    cbn [entries_of] in *. unfold fs_permissions_is_empty. destruct (is_empty (fsp_entries fs)) eqn:Ee.
    - destruct (fsp_entries fs); [|done]. by rewrite app_nil_r, given_is.
    - unfold merge_file_system_policy_with_additional_permissions. rewrite Hk, given_is by done. cbn [fs_entries].
      apply given_same; [done|]. intros r. by apply resolved_union. }
  split; [exact E|]. rewrite E. split.
  - intros Hno. rewrite given_is by done.
    destruct (given_decides (fs_entries policy ++ extra) cwd p Hp) as [(r & Hd & ->)|[-> Hnone]].
    + apply decides_app in Hd as [Hd|(Hin & Hs & _)]; [|by rewrite Hno in Hs|done]. symmetry. by apply given_by.
    + destruct (given_decides (fs_entries policy) cwd p Hp) as [(r & (Hin & Hs & _) & _)|[-> _]]; [|done].
      rewrite Hnone in Hs; [done|]. apply resolved_app; [done|]. by left.
  - intros e (Hin & Hs & Hm) Ha Hbelow. rewrite <- Ha. apply given_by; [done|].
    split; [apply resolved_app; [done|by left]|]. split; [done|].
    intros e' [Hin'|Hin']%resolved_app Hs'; [by apply Hm| |done]. split; [by apply Hbelow|].
    intros _. rewrite Ha. destruct (res_access e'); cbn; lia.
Qed.

(** ** The hypotheses hold *)

Definition asks (entries : list FileSystemSandboxEntry) : AdditionalPermissionProfile :=
  mkAdditional None (Some (mkFsPermissions entries None)).

Definition no_globs (pattern : str) : option (str -> bool) := None.


Lemma effective_policy_spec_witness :
  @resolve_access_with_cwd (plain_host [])
    (effective_file_system_sandbox_policy example_policy (Some (asks [mkEntry (PathEntry (lit "/w/secret")) AccessWrite])))
    (lit "/w/secret/x") (lit "/w") = AccessNone.
Proof.
  apply (@effective_policy_spec (plain_host []) (plain_host_ok []) example_policy
    (asks [mkEntry (PathEntry (lit "/w/secret")) AccessWrite]) (lit "/w") (lit "/w/secret/x"))
    with (e := mkResolved (lit "/w/secret") AccessNone).
  - reflexivity.
  - exact example_policy_ok.
  - constructor; [split; [normal_path|exact I]|constructor].
  - normal_path.
  - normal_path.
  - replace (@resolved_entries_with_cwd (plain_host []) example_policy (lit "/w")) with
      [mkResolved (lit "/") AccessRead; mkResolved (lit "/w") AccessWrite;
       mkResolved (lit "/w/secret") AccessNone; mkResolved (lit "/w") AccessRead] by (vm_compute; reflexivity).
    split; [right; right; left|]. split; [reflexivity|]. intros e'. rewrite !elem_of_cons, elem_of_nil.
    intros [->|[->|[->|[->|[]]]]] _; (split; [reflexivity|cbn; lia]).
  - reflexivity.
  - intros a Ha _. cbn in Ha. apply list_elem_of_singleton in Ha as ->. reflexivity.
Defined.

(** Asked to write a directory but only to read one inside it, a grant of the
    outer one lets the inner one be written. *)
Example grant_exceeds_request :
  let requested := asks [mkEntry (PathEntry (lit "/w")) AccessWrite; mkEntry (PathEntry (lit "/w/ro")) AccessRead] in
  let granted := asks [mkEntry (PathEntry (lit "/w")) AccessWrite] in
  let result := @intersect_permission_profiles (plain_host []) no_globs requested granted (lit "/w") in
  @gives requested (lit "/w") (lit "/w/ro/x") (plain_host []) = AccessRead
  /\ @gives result (lit "/w") (lit "/w/ro/x") (plain_host []) = AccessWrite.
Proof. split; vm_compute; reflexivity. Qed.

(** Where the request denies the reading of a pattern that matches a read-only
    place of the grant, that place is not kept, and may be written. *)
Example pattern_drops_narrowing :
  let requested := asks [mkEntry (PathEntry (lit "/w")) AccessWrite; mkEntry (GlobPattern (lit "/w/r?")) AccessNone] in
  let granted := asks [mkEntry (PathEntry (lit "/w")) AccessWrite; mkEntry (PathEntry (lit "/w/ro")) AccessRead] in
  let build (_ : str) := Some (fun path => bool_decide (path = lit "/w/ro")) in
  let result := @intersect_permission_profiles (plain_host []) build requested granted (lit "/w") in
  @gives granted (lit "/w") (lit "/w/ro/x") (plain_host []) = AccessRead
  /\ @gives result (lit "/w") (lit "/w/ro/x") (plain_host []) = AccessWrite.
Proof. split; vm_compute; reflexivity. Qed.
