(* ===== verification/PermissionGrants.v ===== *)
(** * PermissionGrants: permissions that are asked for and kept

    A session asks the user, or the guardian, for more permissions and keeps
    what is granted, for the turn or for itself ([core/src/session/mod.rs],
    [core/src/state]); a tool call that asks for no more than that needs no
    question ([core/src/tools/handlers/mod.rs]).  Requests, answers and turns
    are events; the theorem says that what is kept was granted. *)

From S2P Require Import Prelude Paths HostPaths Permissions WritableRoots PatchSafety PolicyTransforms.
Local Open Scope str_scope.

(** ** Asking *)

Inductive PermissionGrantScope : Type := TurnScope | SessionScope.

Record RequestPermissionsResponse : Type := mkResponse {
  rp_permissions : AdditionalPermissionProfile;
  rp_scope : PermissionGrantScope;
  rp_strict_auto_review : bool;
}.

Definition nothing_granted : RequestPermissionsResponse := mkResponse no_additional TurnScope false.

Record PendingRequestPermissions : Type := mkPending {
  pr_requested_permissions : AdditionalPermissionProfile;
  pr_cwd : str;
}.

(** What is kept for one turn; [turn_id] tells the turns apart. *)
Record TurnState : Type := mkTurnState {
  turn_id : nat;
  turn_granted_permissions : option AdditionalPermissionProfile;
  strict_auto_review_enabled : bool;
  pending_request_permissions : gmap str PendingRequestPermissions;
}.

Definition new_turn (id : nat) : TurnState := mkTurnState id None false ∅.

(** [reviews] are the requests that wait for the guardian, with the turn they
    came from. *)
Record SessionGrants : Type := mkSessionGrants {
  session_granted_permissions : option AdditionalPermissionProfile;
  active_turn : option TurnState;
  next_turn : nat;
  reviews : list (option nat * PendingRequestPermissions);
}.

Definition new_session : SessionGrants := mkSessionGrants None None 0 [].

Definition map_turn (f : TurnState -> TurnState) (s : SessionGrants) : SessionGrants :=
  mkSessionGrants (session_granted_permissions s) (f <$> active_turn s) (next_turn s) (reviews s).

Definition map_pending (f : gmap str PendingRequestPermissions -> gmap str PendingRequestPermissions) (t : TurnState) : TurnState :=
  mkTurnState (turn_id t) (turn_granted_permissions t) (strict_auto_review_enabled t) (f (pending_request_permissions t)).

Section grants.
Context `{Host}.
Context (build_glob_matcher : str -> option (str -> bool)).

Definition normalize_request_permissions_response (requested_permissions : AdditionalPermissionProfile)
    (response : RequestPermissionsResponse) (cwd : str) : RequestPermissionsResponse :=
  if rp_strict_auto_review response && match rp_scope response with SessionScope => true | TurnScope => false end
  then nothing_granted
  else if additional_is_empty (rp_permissions response) then response
  else
    mkResponse (intersect_permission_profiles build_glob_matcher requested_permissions (rp_permissions response) cwd)
      (rp_scope response) (rp_strict_auto_review response).

(** [TurnState::record_granted_permissions] and [enable_strict_auto_review] *)
Definition record_in_turn (permissions : AdditionalPermissionProfile) (strict : bool) (t : TurnState) : TurnState :=
  mkTurnState (turn_id t) (merge_permission_profiles (turn_granted_permissions t) (Some permissions))
    (strict || strict_auto_review_enabled t) (pending_request_permissions t).

Definition record_granted_request_permissions_for_turn (response : RequestPermissionsResponse)
    (originating_turn_state : option nat) (s : SessionGrants) : SessionGrants :=
  if additional_is_empty (rp_permissions response) then s
  else
    match rp_scope response with
    | TurnScope =>
        map_turn (fun t => if bool_decide (originating_turn_state = Some (turn_id t))
                           then record_in_turn (rp_permissions response) (rp_strict_auto_review response) t else t) s
    | SessionScope =>
        mkSessionGrants (merge_permission_profiles (session_granted_permissions s) (Some (rp_permissions response)))
          (active_turn s) (next_turn s) (reviews s)
    end.

(** The settings of a turn under which nobody is asked *)
Definition refuses_request_permissions (approval_policy : AskForApproval) : bool :=
  match approval_policy with
  | Never => true
  | Granular granular_config => negb (request_permissions granular_config)
  | OnFailure | OnRequest | UnlessTrusted => false
  end.

Definition response_of_review (decision : ReviewDecision) (requested_permissions : AdditionalPermissionProfile)
    : RequestPermissionsResponse :=
  match decision with
  | Approved | ApprovedExecpolicyAmendment _ => mkResponse requested_permissions TurnScope false
  | ApprovedForSession => mkResponse requested_permissions SessionScope false
  | NetworkPolicyAmendmentDecision amendment =>
      match npa_action amendment with
      | NetAllow => mkResponse requested_permissions TurnScope false
      | NetDeny => nothing_granted
      end
  | AbortDecision | DeniedDecision | TimedOut => nothing_granted
  end.

(** ** Events *)

Inductive Event : Type :=
| TurnStarts
| TurnEnds
| PendingCleared
| Asked (call_id : str) (approval_policy : AskForApproval) (to_guardian : bool) (request : PendingRequestPermissions)
| Answered (call_id : str) (response : RequestPermissionsResponse)
| Cancelled (call_id : str)
| Reviewed (review : nat) (decision : ReviewDecision).

(** What was asked and what was answered *)
Record Answer : Type := mkAnswer {
  answer_requested : AdditionalPermissionProfile;
  answer_granted : AdditionalPermissionProfile;
  answer_cwd : str;
}.

Definition answer_to (request : PendingRequestPermissions) (response : RequestPermissionsResponse) : Answer :=
  mkAnswer (pr_requested_permissions request) (rp_permissions response) (pr_cwd request).

(** [notify_request_permissions_response], and the end of
    [request_permissions_for_cwd] *)
Definition take_answer (request : PendingRequestPermissions) (response : RequestPermissionsResponse)
    (originating_turn_state : option nat) (s : SessionGrants) : SessionGrants :=
  record_granted_request_permissions_for_turn
    (normalize_request_permissions_response (pr_requested_permissions request) response (pr_cwd request))
    originating_turn_state s.

Definition grants_step (s : SessionGrants) (e : Event) : SessionGrants * list Answer :=
  match e with
  | TurnStarts =>
      (mkSessionGrants (session_granted_permissions s) (Some (new_turn (next_turn s))) (S (next_turn s)) (reviews s), [])
  | TurnEnds => (mkSessionGrants (session_granted_permissions s) None (next_turn s) (reviews s), [])
  | PendingCleared => (map_turn (map_pending (fun _ => ∅)) s, [])
  | Asked call_id approval_policy to_guardian request =>
      if refuses_request_permissions approval_policy then (s, [])
      else if to_guardian then
        (mkSessionGrants (session_granted_permissions s) (active_turn s) (next_turn s)
           (reviews s ++ [(turn_id <$> active_turn s, request)]), [])
      else (map_turn (map_pending (insert call_id request)) s, [])
  | Answered call_id response =>
      match (t ← active_turn s; request ← pending_request_permissions t !! call_id; Some (t, request)) with
      | Some (t, request) =>
          (take_answer request response (Some (turn_id t)) (map_turn (map_pending (delete call_id)) s),
           [answer_to request response])
      | None => (s, [])
      end
  | Cancelled call_id => (map_turn (map_pending (delete call_id)) s, [])
  | Reviewed review decision =>
      match reviews s !! review with
      | Some (turn, request) =>
          let response := response_of_review decision (pr_requested_permissions request) in
          (take_answer request response turn
             (mkSessionGrants (session_granted_permissions s) (active_turn s) (next_turn s) (delete review (reviews s))),
           [answer_to request response])
      | None => (s, [])
      end
  end.

Fixpoint grants_run (events : list Event) (s : SessionGrants) : SessionGrants * list Answer :=
  match events with
  | [] => (s, [])
  | e :: events =>
      let '(s, answers) := grants_step s e in
      let '(s, rest) := grants_run events s in
      (s, answers ++ rest)
  end.

(** ** Tool calls *)

Definition uses_additional_permissions (p : SandboxPermissions) : bool :=
  match p with WithAdditionalPermissions => true | _ => false end.

Definition additional_eqb (a b : AdditionalPermissionProfile) : bool :=
  bool_decide ((net_enabled <$> ap_network a) = (net_enabled <$> ap_network b))
  && match ap_file_system a, ap_file_system b with
     | Some x, Some y =>
         entries_eqb (fsp_entries x) (fsp_entries y)
         && bool_decide (fsp_glob_scan_max_depth x = fsp_glob_scan_max_depth y)
     | None, None => true
     | _, _ => false
     end.

Definition permissions_are_preapproved (effective_permissions granted_permissions : AdditionalPermissionProfile)
    (cwd : str) : bool :=
  additional_eqb (intersect_permission_profiles build_glob_matcher effective_permissions granted_permissions cwd)
    (intersect_permission_profiles build_glob_matcher effective_permissions effective_permissions cwd).

Record EffectiveAdditionalPermissions : Type := mkEffective {
  eap_sandbox_permissions : SandboxPermissions;
  eap_additional_permissions : option AdditionalPermissionProfile;
  permissions_preapproved : bool;
}.

(** The grants that hold in a turn *)
Definition granted_now (s : SessionGrants) : option AdditionalPermissionProfile :=
  merge_permission_profiles (session_granted_permissions s) (active_turn s ≫= turn_granted_permissions).

Definition apply_granted_turn_permissions (s : SessionGrants) (cwd : str) (sandbox_permissions : SandboxPermissions)
    (additional_permissions : option AdditionalPermissionProfile) : EffectiveAdditionalPermissions :=
  if requires_escalated_permissions sandbox_permissions
  then mkEffective sandbox_permissions additional_permissions false
  else
    let granted_permissions := granted_now s in
    let effective_permissions := merge_permission_profiles additional_permissions granted_permissions in
    mkEffective
      (if match effective_permissions with Some _ => true | None => false end
          && negb (uses_additional_permissions sandbox_permissions)
       then WithAdditionalPermissions else sandbox_permissions)
      effective_permissions
      match effective_permissions, granted_permissions with
      | Some effective_permissions, Some granted_permissions =>
          permissions_are_preapproved effective_permissions granted_permissions cwd
      | _, _ => false
      end.

Definition implicit_granted_permissions (sandbox_permissions : SandboxPermissions)
    (additional_permissions : option AdditionalPermissionProfile)
    (effective_additional_permissions : EffectiveAdditionalPermissions) : option AdditionalPermissionProfile :=
  if negb (uses_additional_permissions sandbox_permissions)
     && negb (requires_escalated_permissions sandbox_permissions)
     && match additional_permissions with None => true | Some _ => false end
  then eap_additional_permissions effective_additional_permissions else None.

(** [show_policy] prints [{:?}]. *)
Definition normalize_and_validate_additional_permissions (show_policy : AskForApproval -> str)
    (additional_permissions_allowed : bool) (approval_policy : AskForApproval) (sandbox_permissions : SandboxPermissions)
    (additional_permissions : option AdditionalPermissionProfile) (permissions_preapproved : bool)
    : result str (option AdditionalPermissionProfile) :=
  let is_given := match additional_permissions with Some _ => true | None => false end in
  if negb permissions_preapproved && negb additional_permissions_allowed
     && (uses_additional_permissions sandbox_permissions || is_given)
  then Err (lit "additional permissions are disabled; enable `features.exec_permission_approvals` before using `with_additional_permissions`")
  else if uses_additional_permissions sandbox_permissions then
    if negb permissions_preapproved && match approval_policy with OnRequest => false | _ => true end
    then Err (lit "approval policy is " ++ show_policy approval_policy ++ lit "; reject command "
              ++ [8212%N] ++ lit " you cannot request additional permissions unless the approval policy is OnRequest")
    else
      match additional_permissions with
      | None => Err (lit "missing `additional_permissions`; provide at least one of `network` or `file_system` when using `with_additional_permissions`")
      | Some additional_permissions =>
          normalized ← normalize_additional_permissions additional_permissions;
          if additional_is_empty normalized
          then Err (lit "`additional_permissions` must include at least one requested permission in `network` or `file_system`")
          else Ok (Some normalized)
      end
  else if is_given
  then Err (lit "`additional_permissions` requires `sandbox_permissions` set to `with_additional_permissions`")
  else Ok None.

(** The additional permissions of a shell command, and whether it goes on:
    the guard of [handlers/shell.rs] *)
Definition command_permissions (show_policy : AskForApproval -> str) (exec_permission_approvals_enabled : bool)
    (request_permissions_tool_enabled : bool) (s : SessionGrants) (turn_cwd : str) (approval_policy : AskForApproval)
    (sandbox_permissions : SandboxPermissions) (additional_permissions : option AdditionalPermissionProfile)
    : result str (EffectiveAdditionalPermissions * option AdditionalPermissionProfile) :=
  let effective := apply_granted_turn_permissions s turn_cwd sandbox_permissions additional_permissions in
  let additional_permissions_allowed :=
    exec_permission_approvals_enabled || (request_permissions_tool_enabled && permissions_preapproved effective) in
  normalized ←
    match implicit_granted_permissions sandbox_permissions additional_permissions effective with
    | Some permissions => Ok (Some permissions)
    | None =>
        normalize_and_validate_additional_permissions show_policy additional_permissions_allowed approval_policy
          (eap_sandbox_permissions effective) (eap_additional_permissions effective) (permissions_preapproved effective)
    end;
  if requests_sandbox_override (eap_sandbox_permissions effective) && negb (permissions_preapproved effective)
     && match approval_policy with OnRequest => false | _ => true end
  then Err (lit "approval policy is " ++ show_policy approval_policy ++ lit "; reject command " ++ [8212%N]
            ++ lit " you should not ask for escalated permissions if the approval policy is " ++ show_policy approval_policy)
  else Ok (effective, normalized).

(** What the exec policy is asked with *)
Definition exec_policy_sandbox_permissions (effective : EffectiveAdditionalPermissions) : SandboxPermissions :=
  if permissions_preapproved effective then UseDefault else eap_sandbox_permissions effective.
End grants.

(** ** What is kept was granted *)

Section kept.
Context `{Host} {Hok : HostOk} {Hsym : NoSymlinks}.
Context (build : str -> option (str -> bool)).
Local Notation resolved l cwd := (resolved_entries_with_cwd (restricted l) cwd).

(** Some answer let the path be read that was asked for, and written if it may
    be written (as far as its request denies no pattern). *)
Definition was_granted (answers : list Answer) (p : str) (access : FileSystemAccessMode) : Prop :=
  can_read access = true ->
  exists a, a ∈ answers
    /\ can_read (gives (answer_requested a) (answer_cwd a) p) = true
    /\ can_read (gives (answer_granted a) (answer_cwd a) p) = true
    /\ (can_write access = true -> denied_globs (answer_requested a) (answer_cwd a) = [] ->
        can_write (gives (answer_granted a) (answer_cwd a) p) = true).

Definition network_granted (answers : list Answer) : Prop :=
  exists a, a ∈ answers /\ enables_network (ap_network (answer_requested a)) = true
            /\ enables_network (ap_network (answer_granted a)) = true.

Definition kept_ok (answers : list Answer) (profile : AdditionalPermissionProfile) : Prop :=
  Forall settled (entries_of (ap_file_system profile))
  /\ (forall cwd p, normal_abs cwd -> normal_abs p -> was_granted answers p (gives profile cwd p))
  /\ (enables_network (ap_network profile) = true -> network_granted answers).

Lemma was_granted_more answers answers' p access :
  answers ⊆ answers' -> was_granted answers p access -> was_granted answers' p access.
Proof. intros Hs Hg Hr. destruct (Hg Hr) as (a & Ha & ?). exists a. split; [by apply Hs|done]. Qed.

Lemma kept_more answers answers' profile : answers ⊆ answers' -> kept_ok answers profile -> kept_ok answers' profile.
Proof.
  intros Hs (H1 & H2 & H3). split_and!; [done| |].
  - intros. by eapply was_granted_more; [|apply H2].
  - intros Hn. destruct (H3 Hn) as (a & Ha & ?). exists a. split; [by apply Hs|done].
Qed.

Lemma settled_gives profile cwd cwd' p :
  Forall settled (entries_of (ap_file_system profile)) -> normal_abs cwd -> normal_abs cwd' -> normal_abs p ->
  gives profile cwd p = gives profile cwd' p.
Proof.
  intros Hs Hc Hc' Hp. unfold gives. apply given_same; [done|]. intros r. rewrite !elem_of_resolved by done.
  rewrite Forall_forall in Hs. split; intros (e & He & Hpl & Ha); exists e; (split; [done|]; split; [|done]); rewrite <- Hpl;
    symmetry; by apply settled_place; [..|apply Hs].
Qed.

Lemma answer_kept req granted cwd :
  profile_ok req -> profile_ok granted -> normal_abs cwd ->
  kept_ok [mkAnswer req granted cwd] (intersect_permission_profiles build req granted cwd).
Proof.
  intros Hr Hg Hc. pose proof (intersection_settled build req granted cwd Hr Hg Hc) as Hs. split_and!; [done| |].
  - intros cwd' p Hc' Hp. rewrite (settled_gives _ cwd' cwd) by done. intros Hread.
    destruct (intersection_read build req granted cwd p Hr Hg Hc Hp Hread). eexists. split; [left|]. cbn.
    split_and!; [done..|]. intros Hw Hglobs. by apply (intersection_write build req granted cwd p).
  - intros Hn. apply intersection_network in Hn. eexists. split; [left|exact Hn].
Qed.

Lemma settled_ok l : Forall settled l -> Forall entry_ok l.
Proof. intros Hl. eapply Forall_impl; [exact Hl|]. by intros e []. Qed.

(** What a union gives, one of the two gives. *)
Lemma given_union l k cwd p :
  Forall entry_ok l -> Forall settled k -> normal_abs cwd -> normal_abs p ->
  given (foldl push_once l k) cwd p = AccessNone \/ given (foldl push_once l k) cwd p = given l cwd p
  \/ given (foldl push_once l k) cwd p = given k cwd p.
Proof.
  intros Hl Hk Hc Hp. rewrite (given_same _ (l ++ k) cwd cwd p Hp) by (intros; by apply resolved_union).
  destruct (given_decides (l ++ k) cwd p Hp) as [(r & Hd & ->)|[-> _]]; [right|by left].
  apply decides_app in Hd as [Hd|Hd]; [left|right|done]; symmetry; by apply given_by.
Qed.

Lemma push_all_settled l k : Forall settled l -> Forall settled k -> Forall settled (foldl push_once l k).
Proof.
  rewrite !Forall_forall. intros Hl Hk x [Hx|Hx]%push_all_from; auto.
Qed.

Lemma merge_entries_gives l k cwd p :
  Forall settled l -> Forall settled k -> normal_abs cwd -> normal_abs p ->
  given (merge_permission_entries l k) cwd p = AccessNone \/ given (merge_permission_entries l k) cwd p = given l cwd p
  \/ given (merge_permission_entries l k) cwd p = given k cwd p.
Proof.
  intros Hl Hk Hc Hp. unfold merge_permission_entries. rewrite foldl_app.
  destruct (given_union (foldl push_once [] l) k cwd p) as [?|[E|?]]; [|done..|by left| |by right; right].
  { apply settled_ok, push_all_settled; [constructor|done]. }
  rewrite E. destruct (given_union [] l cwd p) as [?|[E'|?]]; [constructor|done..|by left| |by right; left].
  left. rewrite E'. by apply given_nil.
Qed.

Lemma keep_if_Some {A} (f : A -> bool) o x : keep_if f o = Some x -> o = Some x.
Proof. unfold keep_if. destruct o as [y|]; [|done]. cbn. by destruct (f y). Qed.

Lemma merge_kept answers base permissions m :
  (forall b, base = Some b -> kept_ok answers b) -> (forall q, permissions = Some q -> kept_ok answers q) ->
  merge_permission_profiles base permissions = Some m -> kept_ok answers m.
Proof.
  intros Hb Hq. unfold merge_permission_profiles. destruct permissions as [q|]; [|by apply Hb].
  specialize (Hq q eq_refl). intros Hm%keep_if_Some. destruct base as [b|]; [|by injection Hm as <-].
  specialize (Hb b eq_refl). injection Hm as <-. destruct Hb as (Hb1 & Hb2 & Hb3), Hq as (Hq1 & Hq2 & Hq3).
  unfold kept_ok, gives in *. cbn [ap_file_system ap_network]. split_and!.
  3:{ destruct (enables_network (ap_network b)) eqn:Eb; [intros _; by apply Hb3|].
      destruct (enables_network (ap_network q)) eqn:Eq; [intros _; by apply Hq3|done]. }
  - unfold merge_file_systems. destruct (ap_file_system b) as [x|], (ap_file_system q) as [y|]; try done.
    rewrite entries_of_kept. unfold merge_permission_entries. cbn [fsp_entries entries_of] in *.
    apply push_all_settled; [constructor|]. by apply Forall_app.
  - intros cwd p Hc Hp. specialize (Hb2 cwd p Hc Hp). specialize (Hq2 cwd p Hc Hp).
    unfold merge_file_systems. destruct (ap_file_system b) as [x|], (ap_file_system q) as [y|]; try done.
    rewrite entries_of_kept. cbn [fsp_entries entries_of] in *.
    by destruct (merge_entries_gives (fsp_entries x) (fsp_entries y) cwd p) as [->|[-> | ->]].
Qed.

(** *** Along the events *)

Definition request_ok (request : PendingRequestPermissions) : Prop :=
  profile_ok (pr_requested_permissions request) /\ normal_abs (pr_cwd request).

Definition event_ok (e : Event) : Prop :=
  match e with
  | Asked _ _ _ request => request_ok request
  | Answered _ response => profile_ok (rp_permissions response)
  | _ => True
  end.

Record grants_ok (answers : list Answer) (s : SessionGrants) : Prop := {
  session_kept profile : session_granted_permissions s = Some profile -> kept_ok answers profile;
  turn_kept t profile : active_turn s = Some t -> turn_granted_permissions t = Some profile -> kept_ok answers profile;
  pending_ok t call_id request : active_turn s = Some t -> pending_request_permissions t !! call_id = Some request ->
    request_ok request;
  reviews_ok i turn request : reviews s !! i = Some (turn, request) -> request_ok request;
}.

Lemma grants_more answers answers' s : answers ⊆ answers' -> grants_ok answers s -> grants_ok answers' s.
Proof. intros Hs []. constructor; eauto using kept_more. Qed.

Lemma pending_kept answers f s :
  (forall m, (forall c r, m !! c = Some r -> request_ok r) -> forall c r, f m !! c = Some r -> request_ok r) ->
  grants_ok answers s -> grants_ok answers (map_turn (map_pending f) s).
Proof.
  intros Hf [H1 H2 H3 H4]. constructor; cbn; [done| | |done].
  - intros t profile Ht. destruct (active_turn s) as [t'|] eqn:Et; [|done]. injection Ht as <-. intros Hg. by eapply H2.
  - intros t c r Ht. destruct (active_turn s) as [t'|] eqn:Et; [|done]. injection Ht as <-. cbn. apply Hf. eauto.
Qed.

Lemma take_answer_kept answers request response turn s :
  request_ok request -> profile_ok (rp_permissions response) -> grants_ok answers s ->
  grants_ok (answers ++ [answer_to request response]) (take_answer build request response turn s).
Proof.
  intros [Hr Hc] Hp Hs. assert (answers ⊆ answers ++ [answer_to request response]) as Hsub by (intros x; rewrite elem_of_app; tauto).
  assert ([answer_to request response] ⊆ answers ++ [answer_to request response]) as Hsub' by (intros x; rewrite elem_of_app; tauto).
  pose proof (grants_more _ _ _ Hsub Hs) as Hs'. destruct Hs' as [H1 H2 H3 H4].
  unfold take_answer, normalize_request_permissions_response. destruct (_ && _); [by constructor|].
  unfold record_granted_request_permissions_for_turn.
  destruct (additional_is_empty (rp_permissions response)) eqn:Ee; [rewrite Ee; by constructor|].
  cbn [rp_permissions rp_scope rp_strict_auto_review].
  destruct (additional_is_empty (intersect_permission_profiles _ _ _ _)); [by constructor|].
  pose proof (kept_more _ _ _ Hsub' (answer_kept (pr_requested_permissions request) (rp_permissions response) (pr_cwd request) Hr Hp Hc)) as Hk.
  destruct (rp_scope response).
  - constructor; cbn [map_turn session_granted_permissions active_turn reviews]; [exact H1| | |exact H4].
    + intros t profile Ht. destruct (active_turn s) as [t'|] eqn:Et; [|done]. injection Ht as <-.
      case_bool_decide; [|intros Hg; by eapply H2]. cbn [record_in_turn turn_granted_permissions]. intros Hm.
      eapply merge_kept; [| |exact Hm]; [intros b Hb; by eapply H2|by intros q [= <-]].
    + intros t c r Ht. destruct (active_turn s) as [t'|] eqn:Et; [|done]. injection Ht as <-. case_bool_decide; cbn; intros Hg; by eapply H3.
  - constructor; cbn [session_granted_permissions active_turn reviews]; [|done..]. intros profile Hm. eapply merge_kept; [| |exact Hm]; [by apply H1|by intros q [= <-]].
Qed.

Lemma grants_step_ok answers s e :
  event_ok e -> grants_ok answers s ->
  grants_ok (answers ++ snd (grants_step build s e)) (fst (grants_step build s e)).
Proof.
  intros He Hs. pose proof Hs as [H1 H2 H3 H4]. destruct e; cbn [grants_step fst snd]; rewrite ?app_nil_r.
  - constructor; cbn; [done|by intros t profile [= <-]| |done]. intros t c r [= <-]. cbn. by rewrite lookup_empty.
  - by constructor.
  - apply pending_kept; [|done]. intros m _ c r. by rewrite lookup_empty.
  - destruct (refuses_request_permissions _); cbn; rewrite ?app_nil_r; [done|].
    destruct to_guardian; cbn; rewrite ?app_nil_r.
    + constructor; cbn; [done..|]. intros i turn r [Hi|[_ Hi]]%lookup_app_Some; [by eapply H4|].
      apply list_lookup_singleton_Some in Hi as [_ [= <- <-]]. done.
    + apply pending_kept; [|done]. intros m Hm c r [[_ <-]|[_ Hc]]%lookup_insert_Some; [done|by eapply Hm].
  - destruct (active_turn s) as [t|] eqn:Et; cbn; rewrite ?app_nil_r; [|done].
    destruct (pending_request_permissions t !! call_id) as [r|] eqn:Er; cbn; rewrite ?app_nil_r; [|done].
    apply take_answer_kept; [by eapply H3|done|]. apply pending_kept; [|done].
    intros m Hm c r' [_ Hc]%lookup_delete_Some. by eapply Hm.
  - apply pending_kept; [|done]. intros m Hm c r' [_ Hc]%lookup_delete_Some. by eapply Hm.
  - destruct (reviews s !! review) as [[turn r]|] eqn:Er; cbn; rewrite ?app_nil_r; [|done].
    destruct (H4 _ _ _ Er) as [Hr Hc]. apply take_answer_kept; [done| |].
    + unfold response_of_review. destruct decision as [| | |amendment| | |]; try done; try (by constructor).
      destruct (npa_action amendment); [done|constructor].
    + constructor; cbn; [done..|]. intros i turn' r' Hi.
      apply list_elem_of_lookup_2 in Hi.
      assert ((turn', r') ∈ reviews s) as Hin.
      { rewrite (delete_take_drop (reviews s)) in Hi. apply elem_of_app in Hi as [Hi|Hi].
        - apply elem_of_take in Hi as (j & Hj & _). by eapply list_elem_of_lookup_2.
        - apply list_elem_of_lookup in Hi as [j Hj]. rewrite lookup_drop in Hj. by eapply list_elem_of_lookup_2. }
      apply list_elem_of_lookup in Hin as [j Hj]. by eapply H4.
Qed.

Lemma grants_run_ok events answers s :
  Forall event_ok events -> grants_ok answers s ->
  grants_ok (answers ++ snd (grants_run build events s)) (fst (grants_run build events s)).
Proof.
  revert answers s. induction events as [|e events IH]; intros answers s He Hs; cbn; [by rewrite app_nil_r|].
  apply Forall_cons in He as [He Hes]. pose proof (grants_step_ok answers s e He Hs) as Hs1.
  destruct (grants_step build s e) as [s1 a1]. cbn in Hs1. specialize (IH _ _ Hes Hs1).
  destruct (grants_run build events s1) as [s2 a2]. cbn in *. by rewrite app_assoc.
Qed.

Lemma new_session_ok : grants_ok [] new_session.
Proof. by constructor. Qed.

Lemma granted_now_kept answers s m : grants_ok answers s -> granted_now s = Some m -> kept_ok answers m.
Proof.
  intros [H1 H2 _ _]. apply merge_kept; [by apply H1|]. intros q Hq.
  destruct (active_turn s) as [t|] eqn:Et; [|done]. by eapply H2.
Qed.

(** *** What needs no question *)

(** The place is not covered by a denied read of the profile itself. *)
Definition not_read_denied (profile : AdditionalPermissionProfile) (cwd place : str) : Prop :=
  match new_read_deny_matcher build (restricted (entries_of (ap_file_system profile))) cwd with
  | Some m => is_read_denied m place = false
  | None => True
  end.

Lemma self_intersection profile cwd p r :
  profile_ok profile -> normal_abs cwd -> normal_abs p ->
  decides (resolved (entries_of (ap_file_system profile)) cwd) p r -> can_read (res_access r) = true ->
  not_read_denied profile cwd (res_path r) ->
  gives (intersect_permission_profiles build profile profile cwd) cwd p = res_access r.
Proof.
  intros Hpok Hc Hp Hd Hrr Hnd. unfold gives, not_read_denied, profile_ok in *. rewrite entries_of_intersection.
  destruct (ap_file_system profile) as [fs|]; cbn [entries_of default] in *.
  2:{ destruct Hd as [Hr _]. apply elem_of_resolved in Hr as (e & ?%elem_of_nil & _); done. }
  apply given_by; [done|]. pose proof Hd as (Hin & Hs & Hm). split; [|split; [done|]].
  - pose proof (resolved_normal _ _ _ Hpok Hc Hin) as Hrn. apply elem_of_resolved in Hin as (e & He & Hpl & Ha); [|done].
    apply resolved_out; [done..|]. exists e. split; [left|done]. split; [done|].
    unfold granted_file_system_entry_within_request. rewrite Ha, Hrr, resolve_permission_place by done. cbn [negb].
    unfold place_of in Hpl. rewrite Hpl.
    assert (access_covers (given (fsp_entries fs) cwd (res_path r)) (res_access r) = true) as Hcov.
    { rewrite (given_by _ _ _ r Hrn) by by eapply decides_at_place. by destruct (res_access r). }
    destruct (new_read_deny_matcher _ _ _); [|exact Hcov]. by rewrite Hnd.
  - intros d (e & He & Hpl & Ha)%resolved_out; [|done..]. apply Hm. apply elem_of_resolved; [done|]. exists e.
    split; [|done]. by destruct He as [[? _]|[[?|?] _]].
Qed.

Lemma entries_eqb_places cwd l k :
  Forall settled l -> Forall settled k -> entries_eqb l k = true ->
  Forall2 (fun e e' => entry_access e = entry_access e' /\ place_of cwd e = place_of cwd e') l k.
Proof.
  intros Hl. revert k. induction Hl as [|e l He Hl IH]; intros [|e' k] Hk Heq; try done.
  apply andb_true_iff in Heq as [Heq Hrest]. apply Forall_cons in Hk as [He' Hk].
  constructor; [by apply settled_eqb|by apply IH].
Qed.

Lemma eqb_gives a b cwd p :
  Forall settled (entries_of (ap_file_system a)) -> Forall settled (entries_of (ap_file_system b)) ->
  normal_abs cwd -> normal_abs p -> additional_eqb a b = true -> gives a cwd p = gives b cwd p.
Proof.
  intros Ha Hb Hc Hp [_ He]%andb_true_iff. unfold gives.
  destruct (ap_file_system a) as [x|], (ap_file_system b) as [y|]; try done. apply andb_true_iff in He as [He _].
  cbn [entries_of] in *. pose proof (entries_eqb_places cwd _ _ Ha Hb He) as Hall.
  apply given_same; [done|]. intros r. rewrite !elem_of_resolved by done. split.
  - intros (e & Hin & Hpl & Hac). apply list_elem_of_lookup in Hin as [i Hi].
    destruct (Forall2_lookup_l _ _ _ _ _ Hall Hi) as (e' & He' & Ea & Epl). exists e'.
    split; [by eapply list_elem_of_lookup_2|]. by rewrite <- Epl, <- Ea.
  - intros (e & Hin & Hpl & Hac). apply list_elem_of_lookup in Hin as [i Hi].
    destruct (Forall2_lookup_r _ _ _ _ _ Hall Hi) as (e' & He' & Ea & Epl). exists e'.
    split; [by eapply list_elem_of_lookup_2|]. by rewrite Epl, Ea.
Qed.

Lemma merge_ok base permissions m :
  (forall b, base = Some b -> profile_ok b) -> (forall q, permissions = Some q -> profile_ok q) ->
  merge_permission_profiles base permissions = Some m -> profile_ok m.
Proof.
  intros Hb Hq. unfold merge_permission_profiles. destruct permissions as [q|]; [|by apply Hb].
  specialize (Hq q eq_refl). intros Hm%keep_if_Some. destruct base as [b|]; [|by injection Hm as <-].
  specialize (Hb b eq_refl). injection Hm as <-. unfold profile_ok, merge_file_systems in *. cbn [ap_file_system].
  destruct (ap_file_system b) as [x|], (ap_file_system q) as [y|]; try done. rewrite entries_of_kept. cbn [fsp_entries entries_of] in *.
  rewrite Forall_forall in Hb, Hq |- *. intros e [He%elem_of_nil|[He|He]%elem_of_app]%push_all_from; auto. done.
Qed.
End kept.

(** C10: whatever is asked, answered and reviewed in a session, in whatever order
    and over whatever turns, on a host without symbolic links: if the additional
    permissions of a tool call need no question, then each path that one of
    their entries lets be read was asked for and granted in some answer, unless
    those permissions themselves deny reads at or above the place of that entry;
    it was granted to be written if the entry lets it be written, where neither
    those permissions nor the request that was answered deny a pattern; and the
    network was granted if they open it. *)
Theorem preapproved_was_granted `{HostOk} `{!NoSymlinks} build events s answers cwd sandbox_permissions additional :
  Forall event_ok events -> grants_run build events new_session = (s, answers) -> normal_abs cwd ->
  (forall requested, additional = Some requested -> profile_ok requested) ->
  let effective := apply_granted_turn_permissions build s cwd sandbox_permissions additional in
  permissions_preapproved effective = true ->
  exists profile, eap_additional_permissions effective = Some profile
    /\ (enables_network (ap_network profile) = true -> network_granted answers)
    /\ forall p r, normal_abs p ->
         decides (resolved_entries_with_cwd (restricted (entries_of (ap_file_system profile))) cwd) p r ->
         can_read (res_access r) = true -> not_read_denied build profile cwd (res_path r) ->
         was_granted answers p AccessRead
         /\ (denied_globs profile cwd = [] -> was_granted answers p (res_access r)).
Proof.
  intros Hev Hrun Hc Hadd effective. pose proof (grants_run_ok build events [] new_session Hev new_session_ok) as Hs.
  rewrite Hrun in Hs. cbn in Hs. subst effective. unfold apply_granted_turn_permissions.
  destruct (requires_escalated_permissions sandbox_permissions); [done|]. cbn [permissions_preapproved eap_additional_permissions].
  destruct (granted_now s) as [g|] eqn:Eg; [|by destruct (merge_permission_profiles _ _)].
  pose proof (granted_now_kept answers s g Hs Eg) as (Hgs & Hgg & Hgn).
  assert (profile_ok g) as Hgok by by apply settled_ok.
  destruct (merge_permission_profiles additional (Some g)) as [profile|] eqn:Em; [|done]. intros Hpre.
  assert (profile_ok profile) as Hpok by (eapply merge_ok; [exact Hadd| |exact Em]; by intros q [= <-]).
  exists profile. split; [done|]. split.
  - intros Hn. apply Hgn. apply andb_true_iff in Hpre as [Hnet _]. apply (proj1 (bool_decide_eq_true _)) in Hnet.
    unfold intersect_permission_profiles in Hnet. cbn [ap_network] in Hnet. rewrite Hn in Hnet. cbn [andb] in Hnet.
    by destruct (enables_network (ap_network g)).
  - intros p r Hp Hd Hrr Hnd.
    pose proof (self_intersection build profile cwd p r Hpok Hc Hp Hd Hrr Hnd) as Hself.
    rewrite <- (eqb_gives _ _ cwd p (intersection_settled build profile g cwd Hpok Hgok Hc)
                  (intersection_settled build profile profile cwd Hpok Hpok Hc) Hc Hp Hpre) in Hself.
    assert (can_read (gives (intersect_permission_profiles build profile g cwd) cwd p) = true) as Hread by by rewrite Hself.
    destruct (intersection_read build profile g cwd p Hpok Hgok Hc Hp Hread) as [_ Hg]. split.
    + intros _. destruct (Hgg cwd p Hc Hp Hg) as (a & ? & ? & ? & _). by exists a.
    + intros Hglobs _. destruct (Hgg cwd p Hc Hp Hg) as (a & ? & ? & ? & Hw). exists a. split_and!; [done..|].
      intros Hwr. apply Hw. apply (intersection_write build profile g cwd p Hpok Hgok Hc Hp Hglobs). by rewrite Hself.
Qed.

(** ** The hypotheses hold *)

Definition example_request : PendingRequestPermissions :=
  mkPending (asks [mkEntry (PathEntry (lit "/data")) AccessRead]) (lit "/w").

(** One request for a directory, which is granted for the turn *)
Definition example_events : list Event :=
  [TurnStarts; Asked (lit "c1") OnRequest false example_request;
   Answered (lit "c1") (mkResponse (asks [mkEntry (PathEntry (lit "/data")) AccessRead]) TurnScope false)].

Definition example_session : SessionGrants * list Answer :=
  @grants_run (plain_host []) no_globs example_events new_session.

Lemma example_events_ok : Forall event_ok example_events.
Proof.
  constructor; [exact I|]. constructor; [split; [normal_entries|normal_path]|].
  constructor; [|constructor]. cbn [event_ok rp_permissions]. unfold profile_ok. cbn [asks ap_file_system entries_of fsp_entries].
  normal_entries.
Qed.

Lemma preapproved_was_granted_witness :
  exists a, a ∈ snd example_session /\ @can_read_path_with_cwd (plain_host [])
    (restricted (entries_of (ap_file_system (answer_granted a)))) (lit "/data/x") (answer_cwd a) = true.
Proof.
  destruct (@preapproved_was_granted (plain_host []) (plain_host_ok []) (plain_host_no_symlinks []) no_globs
    example_events (fst example_session) (snd example_session) (lit "/w") UseDefault None) as (profile & Hp & _ & Hgiven).
  - exact example_events_ok.
  - vm_compute. reflexivity.
  - normal_path.
  - discriminate.
  - vm_compute. reflexivity.
  - vm_compute in Hp. injection Hp as <-.
    destruct (Hgiven (lit "/data/x") (mkResolved (lit "/data") AccessRead)) as [Hread _].
    + normal_path.
    + split; [left|]. split; [reflexivity|]. intros e' He' _.
      assert (e' ∈ [mkResolved (lit "/data") AccessRead]) as Hin by exact He'.
      apply list_elem_of_singleton in Hin as ->. split; [reflexivity|cbn; lia].
    + reflexivity.
    + vm_compute. exact I.
    + destruct (Hread eq_refl) as (a & Ha & _ & Hg & _). exists a. split; [exact Ha|exact Hg].
Defined.

(** A profile that denies a directory and grants one inside it needs no question
    once anything has been granted, and is in effect. *)
Example denial_hides_grant :
  let host := plain_host [] in
  let additional := asks [mkEntry (PathEntry (lit "/home")) AccessNone; mkEntry (PathEntry (lit "/home/u")) AccessWrite] in
  let effective := @apply_granted_turn_permissions host no_globs (fst example_session) (lit "/w") WithAdditionalPermissions (Some additional) in
  permissions_preapproved effective = true
  /\ @can_write_path_with_cwd host (effective_file_system_sandbox_policy (restricted [mkEntry (Special Root) AccessRead])
        (eap_additional_permissions effective)) (lit "/home/u/.bashrc") (lit "/w") = true
  /\ forall a, a ∈ snd example_session ->
       @gives (answer_granted a) (lit "/w") (lit "/home/u/.bashrc") host = AccessNone.
Proof.
  split; [vm_compute; reflexivity|]. split; [vm_compute; reflexivity|].
  replace (snd example_session) with [answer_to example_request
    (mkResponse (asks [mkEntry (PathEntry (lit "/data")) AccessRead]) TurnScope false)] by (vm_compute; reflexivity).
  intros a ->%list_elem_of_singleton. vm_compute. reflexivity.
Qed.
