(* ===== verification/McpTools.v ===== *)
(** * McpTools: the names of the tools of MCP servers

    [codex-mcp/src/tools.rs], with [codex_apps.rs], the listing of tools of
    [rmcp_client.rs] and [connection_manager.rs], and the names of
    [mcp/mod.rs] and [utils/plugins].  A tool keeps the names it is called
    with; the model sees sanitised ones, which are made unique and short.
    SHA-1, as its hexadecimal digits, and what a server lists are parameters. *)

From stdpp Require Import sorting.
From S2P Require Import Prelude Utf8 BTree ConfigLayers.
Local Open Scope str_scope.

(** ** Tools *)

Abbreviation JsonMap := (list (str * JsonValue)).

(** [ToolAnnotations] and [Tool] of rmcp: the fields that the source uses *)
Record ToolAnnotations : Type := mkAnnotations {
  destructive_hint : option bool;
  read_only_hint : option bool;
  open_world_hint : option bool;
}.

Record RmcpTool : Type := mkRmcpTool {
  rt_name : str;
  rt_title : option str;
  rt_description : option str;
  rt_input_schema : JsonMap;
  rt_annotations : option ToolAnnotations;
  rt_meta : option JsonMap;
}.

Record ToolInfo : Type := mkToolInfo {
  ti_server_name : str;
  ti_callable_name : str;
  ti_callable_namespace : str;
  ti_server_instructions : option str;
  ti_tool : RmcpTool;
  ti_connector_id : option str;
  ti_connector_name : option str;
  ti_plugin_display_names : list str;
  ti_connector_description : option str;
}.

Record ToolName : Type := mkToolName { tn_name : str; tn_namespace : option str }.

Definition tool_name_display (self : ToolName) : str :=
  match tn_namespace self with
  | Some namespace => namespace ++ tn_name self
  | None => tn_name self
  end.

Definition canonical_tool_name (self : ToolInfo) : ToolName :=
  mkToolName (ti_callable_name self) (Some (ti_callable_namespace self)).

Definition CODEX_APPS_MCP_SERVER_NAME : str := lit "codex_apps".
Definition MCP_TOOL_NAME_PREFIX : str := lit "mcp".
Definition MCP_TOOL_NAME_DELIMITER : str := lit "__".
Definition MAX_TOOL_NAME_LENGTH : nat := 64.
Definition CALLABLE_NAME_HASH_LEN : nat := 12.

(** ** Sanitised names *)

Definition is_ascii_alphanumeric (c : N) : bool :=
  (is_ascii_digit c || (65 <=? c) && (c <=? 90) || (97 <=? c) && (c <=? 122))%N.

Definition is_tool_char (c : N) : bool := is_ascii_alphanumeric c || (c =? ch "_")%N.

Definition sanitize_responses_api_tool_name (name : str) : str :=
  let sanitized := map (fun c => if is_tool_char c then c else ch "_") name in
  if is_empty sanitized then lit "_" else sanitized.

Definition qualified_mcp_tool_name_prefix (server_name : str) : str :=
  sanitize_responses_api_tool_name
    (MCP_TOOL_NAME_PREFIX ++ MCP_TOOL_NAME_DELIMITER ++ server_name ++ MCP_TOOL_NAME_DELIMITER).

Definition is_dash (c : N) : bool := (c =? ch "-")%N.

Definition sanitize_slug (name : str) : str :=
  let normalized :=
    map (fun c => if is_ascii_alphanumeric c then to_ascii_lowercase_char c else ch "-") name in
  let normalized := trim_end_matches is_dash (trim_start_matches is_dash normalized) in
  if is_empty normalized then lit "app" else normalized.

Definition sanitize_name (name : str) : str :=
  map (fun c => if is_dash c then ch "_" else c) (sanitize_slug name).

(** ** Connectors *)

Definition DISALLOWED_CONNECTOR_IDS : list str :=
  [lit "asdk_app_6938a94a61d881918ef32cb999ff937c";
   lit "connector_2b0a9009c9c64bf9933a3dae3f2b1254";
   lit "connector_3f8d1a79f27c4c7ba1a897ab13bf37dc";
   lit "connector_68de829bf7648191acd70a907364c67c";
   lit "connector_68e004f14af881919eb50893d3d9f523";
   lit "connector_69272cb413a081919685ec3c88d1744e"].

Definition FIRST_PARTY_CHAT_DISALLOWED_CONNECTOR_IDS : list str :=
  [lit "connector_0f9c9d4592e54d0a9a12b3f44a1e2010"].

Definition DISALLOWED_CONNECTOR_PREFIX : str := lit "connector_openai_".

Definition is_first_party_chat_originator (originator_value : str) : bool :=
  (originator_value =? lit "codex_atlas") || (originator_value =? lit "codex_chatgpt_desktop").

Definition is_connector_id_allowed_for_originator (connector_id originator_value : str) : bool :=
  let disallowed_connector_ids :=
    if is_first_party_chat_originator originator_value
    then FIRST_PARTY_CHAT_DISALLOWED_CONNECTOR_IDS else DISALLOWED_CONNECTOR_IDS in
  negb (starts_with connector_id DISALLOWED_CONNECTOR_PREFIX) && negb (one_of connector_id disallowed_connector_ids).

(** [is_connector_id_allowed] asks for the originator of the process. *)
Definition filter_disallowed_codex_apps_tools (originator : str) (tools : list ToolInfo) : list ToolInfo :=
  List.filter (fun tool =>
    match ti_connector_id tool with
    | None => true
    | Some id => is_connector_id_allowed_for_originator id originator
    end) tools.

Definition non_empty (s : option str) : option str :=
  s ≫= fun s => if is_empty s then None else Some s.

Definition strip_prefix_non_empty (prefix value : str) : option str := non_empty (strip_prefix prefix value).

Definition normalize_codex_apps_tool_title (server_name : str) (connector_name : option str) (value : str) : str :=
  if negb (server_name =? CODEX_APPS_MCP_SERVER_NAME) then value
  else
    match non_empty (trim <$> connector_name) with
    | None => value
    | Some connector_name => default value (strip_prefix_non_empty (connector_name ++ lit "_") value)
    end.

Definition normalize_codex_apps_callable_name (server_name tool_name : str)
    (connector_id connector_name : option str) : str :=
  if negb (server_name =? CODEX_APPS_MCP_SERVER_NAME) then tool_name
  else
    let tool_name := sanitize_name tool_name in
    let stripped (connector : option str) :=
      connector ← non_empty (sanitize_name ∘ trim <$> connector); strip_prefix_non_empty connector tool_name in
    match stripped connector_name with
    | Some name => name
    | None => default tool_name (stripped connector_id)
    end.

Definition normalize_codex_apps_callable_namespace (server_name : str) (connector_name : option str) : str :=
  match (if server_name =? CODEX_APPS_MCP_SERVER_NAME then connector_name else None) with
  | Some connector_name => lit "mcp__" ++ server_name ++ lit "__" ++ sanitize_name connector_name
  | None => lit "mcp__" ++ server_name ++ lit "__"
  end.

(** ** File parameters *)

Definition META_OPENAI_FILE_PARAMS : str := lit "openai/fileParams".

Definition as_str (v : JsonValue) : option str := match v with JString s => Some s | _ => None end.
Definition as_array (v : JsonValue) : option (list JsonValue) := match v with JArray l => Some l | _ => None end.
Definition as_object (v : JsonValue) : option JsonMap := match v with JObject m => Some m | _ => None end.

Definition declared_openai_file_input_param_names (meta : option JsonMap) : list str :=
  match meta with
  | None => []
  | Some meta =>
      List.filter (fun value => negb (is_empty value))
        (omap as_str (default [] (tbl_get META_OPENAI_FILE_PARAMS meta ≫= as_array)))
  end.

Definition FILE_GUIDANCE : str :=
  lit "This parameter expects an absolute local file path. If you want to upload a file, provide the absolute path to that file here.".

Definition mask_input_property_schema (schema : JsonValue) : JsonValue :=
  match schema with
  | JObject object =>
      let description := default [] (tbl_get (lit "description") object ≫= as_str) in
      let description :=
        if is_empty description then FILE_GUIDANCE
        else if negb (contains description FILE_GUIDANCE) then description ++ lit " " ++ FILE_GUIDANCE
        else description in
      let is_array :=
        bool_decide (tbl_get (lit "type") object ≫= as_str = Some (lit "array"))
        || match tbl_get (lit "items") object with Some _ => true | None => false end in
      let object := tbl_insert (lit "description") (JString description) [] in
      JObject
        (if is_array
         then tbl_insert (lit "items") (JObject [(lit "type", JString (lit "string"))])
                (tbl_insert (lit "type") (JString (lit "array")) object)
         else tbl_insert (lit "type") (JString (lit "string")) object)
  | other => other
  end.

Definition mask_input_schema_for_file_path_params (input_schema : JsonMap) (file_params : list str) : JsonMap :=
  match tbl_get (lit "properties") input_schema ≫= as_object with
  | None => input_schema
  | Some properties =>
      let properties :=
        fold_left (fun properties field_name =>
          match tbl_get field_name properties with
          | None => properties
          | Some property_schema => tbl_insert field_name (mask_input_property_schema property_schema) properties
          end) file_params properties in
      tbl_insert (lit "properties") (JObject properties) input_schema
  end.

Definition tool_with_model_visible_input_schema (tool : RmcpTool) : RmcpTool :=
  let file_params := declared_openai_file_input_param_names (rt_meta tool) in
  if is_empty file_params then tool
  else mkRmcpTool (rt_name tool) (rt_title tool) (rt_description tool)
         (mask_input_schema_for_file_path_params (rt_input_schema tool) file_params)
         (rt_annotations tool) (rt_meta tool).

(** ** Filters *)

Record ToolFilter : Type := mkToolFilter { tf_enabled : option (gset str); tf_disabled : gset str }.

(** The two lists of [McpServerConfig] *)
Definition filter_from_config (enabled_tools disabled_tools : option (list str)) : ToolFilter :=
  mkToolFilter (list_to_set <$> enabled_tools) (default ∅ (list_to_set <$> disabled_tools)).

Definition allows (self : ToolFilter) (tool_name : str) : bool :=
  if match tf_enabled self with Some enabled => negb (bool_decide (tool_name ∈ enabled)) | None => false end
  then false
  else negb (bool_decide (tool_name ∈ tf_disabled self)).

Definition filter_tools (tools : list ToolInfo) (filter : ToolFilter) : list ToolInfo :=
  List.filter (fun tool => allows filter (rt_name (ti_tool tool))) tools.

(** ** Qualified names *)

Definition NUL : str := [0%N].

Record CallableToolCandidate : Type := mkCandidate {
  cd_tool : ToolInfo;
  cd_raw_namespace_identity : str;
  cd_raw_tool_identity : str;
  cd_callable_namespace : str;
  cd_callable_name : str;
}.

Definition raw_namespace_identity (tool : ToolInfo) : str :=
  ti_server_name tool ++ NUL ++ ti_callable_namespace tool ++ NUL ++ default [] (ti_connector_id tool).

Definition raw_tool_identity (tool : ToolInfo) : str :=
  raw_namespace_identity tool ++ NUL ++ ti_callable_name tool ++ NUL ++ rt_name (ti_tool tool).

Definition candidate_of (tool : ToolInfo) : CallableToolCandidate :=
  mkCandidate tool (raw_namespace_identity tool) (raw_tool_identity tool)
    (sanitize_responses_api_tool_name (ti_callable_namespace tool))
    (sanitize_responses_api_tool_name (ti_callable_name tool)).

(** The first loop of [qualify_tools] *)
Fixpoint collect_candidates (seen_raw_names : gset str) (tools : list ToolInfo) : list CallableToolCandidate :=
  match tools with
  | [] => []
  | tool :: tools =>
      if bool_decide (raw_tool_identity tool ∈ seen_raw_names) then collect_candidates seen_raw_names tools
      else candidate_of tool :: collect_candidates ({[raw_tool_identity tool]} ∪ seen_raw_names) tools
  end.

(** The bases that stand for more than one identity *)
Definition identities_by_base {K} `{Countable K} (base : CallableToolCandidate -> K)
    (identity : CallableToolCandidate -> str) (candidates : list CallableToolCandidate) : gmap K (gset str) :=
  fold_left (fun m candidate =>
    <[base candidate := {[identity candidate]} ∪ default ∅ (m !! base candidate)]> m) candidates ∅.

Definition colliding {K} `{Countable K} (base : CallableToolCandidate -> K)
    (identity : CallableToolCandidate -> str) (candidates : list CallableToolCandidate) (k : K) : bool :=
  match identities_by_base base identity candidates !! k with
  | Some identities => (1 <? size identities)%nat
  | None => false
  end.

Definition set_callable (tool : ToolInfo) (namespace name : str) : ToolInfo :=
  mkToolInfo (ti_server_name tool) name namespace (ti_server_instructions tool) (ti_tool tool)
    (ti_connector_id tool) (ti_connector_name tool) (ti_plugin_display_names tool) (ti_connector_description tool).

Definition with_names (candidate : CallableToolCandidate) (namespace name : str) : CallableToolCandidate :=
  mkCandidate (cd_tool candidate) (cd_raw_namespace_identity candidate) (cd_raw_tool_identity candidate)
    namespace name.

Definition truncate_name (value : str) (max_len : nat) : str := take max_len value.

Definition U32_MAX : N := 4294967295.

Section Qualify.
(** [format!("{:x}")] of the SHA-1 of the bytes of a text *)
Variable sha1_hex : str -> str.

Definition callable_name_hash_suffix (raw_identity : str) : str :=
  lit "_" ++ take CALLABLE_NAME_HASH_LEN (sha1_hex raw_identity).

Definition append_hash_suffix (value raw_identity : str) : str := value ++ callable_name_hash_suffix raw_identity.

Definition append_namespace_hash_suffix (namespace raw_identity : str) : str :=
  match strip_suffix MCP_TOOL_NAME_DELIMITER namespace with
  | Some namespace => namespace ++ callable_name_hash_suffix raw_identity ++ MCP_TOOL_NAME_DELIMITER
  | None => append_hash_suffix namespace raw_identity
  end.

Definition fit_callable_parts_with_hash (namespace tool_name raw_identity : str) : str * str :=
  let suffix := callable_name_hash_suffix raw_identity in
  let max_tool_len := (MAX_TOOL_NAME_LENGTH - byte_len namespace)%nat in
  if (byte_len suffix <=? max_tool_len)%nat then
    let prefix_len := (max_tool_len - byte_len suffix)%nat in
    (namespace, truncate_name tool_name prefix_len ++ suffix)
  else
    let max_namespace_len := (MAX_TOOL_NAME_LENGTH - byte_len suffix)%nat in
    (truncate_name namespace max_namespace_len, suffix).

Definition hash_input (raw_identity : str) (attempt : N) : str :=
  if (attempt =? 0)%N then raw_identity else raw_identity ++ NUL ++ lit (pretty attempt).

Fixpoint unique_loop (fuel : nat) (namespace tool_name raw_identity : str) (attempt : N)
    (used_names : gset str) : option (str * str * str * gset str) :=
  match fuel with
  | 0%nat => None
  | S fuel =>
      let '(namespace', tool_name') :=
        fit_callable_parts_with_hash namespace tool_name (hash_input raw_identity attempt) in
      let qualified_name := namespace' ++ tool_name' in
      if bool_decide (qualified_name ∈ used_names)
      then unique_loop fuel namespace tool_name raw_identity (N.min (attempt + 1) U32_MAX) used_names
      else Some (namespace', tool_name', qualified_name, {[qualified_name]} ∪ used_names)
  end.

Definition unique_callable_parts (fuel : nat) (namespace tool_name raw_identity : str)
    (used_names : gset str) : option (str * str * str * gset str) :=
  let qualified_name := namespace ++ tool_name in
  if (byte_len qualified_name <=? MAX_TOOL_NAME_LENGTH)%nat && negb (bool_decide (qualified_name ∈ used_names))
  then Some (namespace, tool_name, qualified_name, {[qualified_name]} ∪ used_names)
  else unique_loop fuel namespace tool_name raw_identity 0 used_names.

Definition hash_namespaces (candidates : list CallableToolCandidate) : list CallableToolCandidate :=
  map (fun candidate =>
    if colliding cd_callable_namespace cd_raw_namespace_identity candidates (cd_callable_namespace candidate)
    then with_names candidate
           (append_namespace_hash_suffix (cd_callable_namespace candidate) (cd_raw_namespace_identity candidate))
           (cd_callable_name candidate)
    else candidate) candidates.

Definition callable_parts (candidate : CallableToolCandidate) : str * str :=
  (cd_callable_namespace candidate, cd_callable_name candidate).

Definition hash_names (candidates : list CallableToolCandidate) : list CallableToolCandidate :=
  map (fun candidate =>
    if colliding callable_parts cd_raw_tool_identity candidates (callable_parts candidate)
    then with_names candidate (cd_callable_namespace candidate)
           (append_hash_suffix (cd_callable_name candidate) (cd_raw_tool_identity candidate))
    else candidate) candidates.

Definition candidate_leb (left right : CallableToolCandidate) : bool :=
  str_leb (cd_raw_tool_identity left) (cd_raw_tool_identity right).

(** The last loop *)
Fixpoint assign_names (fuel : nat) (candidates : list CallableToolCandidate) (used_names : gset str)
    (qualified_tools : gmap str ToolInfo) : option (gmap str ToolInfo) :=
  match candidates with
  | [] => Some qualified_tools
  | candidate :: candidates =>
      match unique_callable_parts fuel (cd_callable_namespace candidate) (cd_callable_name candidate)
              (cd_raw_tool_identity candidate) used_names with
      | None => None
      | Some (callable_namespace, callable_name, qualified_name, used_names) =>
          assign_names fuel candidates used_names
            (<[qualified_name := set_callable (cd_tool candidate) callable_namespace callable_name]> qualified_tools)
      end
  end.

Definition sorted_candidates (tools : list ToolInfo) : list CallableToolCandidate :=
  sort_by candidate_leb (hash_names (hash_namespaces (collect_candidates ∅ tools))).

(** [None] stands for a loop that has not ended after [fuel] rounds. *)
Definition qualify_tools (fuel : nat) (tools : list ToolInfo) : option (gmap str ToolInfo) :=
  assign_names fuel (sorted_candidates tools) ∅ ∅.
End Qualify.

(** ** Text of names *)

Definition tool_text (s : str) : Prop := Forall (fun c => is_tool_char c = true) s.

Lemma tool_char_len c : is_tool_char c = true -> len_utf8 c = 1%nat.
Proof.
  unfold is_tool_char, is_ascii_alphanumeric, is_ascii_digit, len_utf8.
  rewrite !orb_true_iff, !andb_true_iff, !N.leb_le, N.eqb_eq. intros H.
  rewrite (proj2 (N.ltb_lt c 0x80)); [done|]. change (ch "_") with 95%N in H. lia.
Qed.

Lemma byte_len_tool s : tool_text s -> byte_len s = length s.
Proof. induction 1 as [|c s Hc _ IH]; [done|]. cbn. rewrite tool_char_len by done. f_equal. exact IH. Qed.

Lemma tool_text_app s t : tool_text s -> tool_text t -> tool_text (s ++ t).
Proof. by apply Forall_app_2. Qed.

Lemma tool_text_take n s : tool_text s -> tool_text (take n s).
Proof. apply Forall_take. Qed.

Lemma sanitized_ok name :
  tool_text (sanitize_responses_api_tool_name name) /\ sanitize_responses_api_tool_name name <> [].
Proof.
  unfold sanitize_responses_api_tool_name. destruct (is_empty _) eqn:E.
  - split; [by repeat constructor|done].
  - split; [|by apply is_empty_false]. apply Forall_forall. intros c (x & -> & _)%list_elem_of_fmap.
    by destruct (is_tool_char x) eqn:Hx.
Qed.

Lemma sanitized_id name : name <> [] -> tool_text name -> sanitize_responses_api_tool_name name = name.
Proof.
  intros N H. unfold sanitize_responses_api_tool_name.
  assert (map (fun c => if is_tool_char c then c else ch "_") name = name) as ->.
  { rewrite <- (map_id name) at 2. apply map_ext_Forall. eapply Forall_impl; [exact H|]. by intros c ->. }
  by rewrite (proj2 (is_empty_false name) N).
Qed.

(** ** Candidates *)

Lemma collect_candidates_spec seen tools :
  let kept := map cd_tool (collect_candidates seen tools) in
  collect_candidates seen tools = map candidate_of kept /\ kept `sublist_of` tools /\
  NoDup (map raw_tool_identity kept) /\ (forall t, t ∈ kept -> raw_tool_identity t ∉ seen).
Proof.
  cbn zeta. revert seen. induction tools as [|tool tools IH]; intros seen; cbn [collect_candidates].
  { repeat split; [constructor..|]. by intros t ?%elem_of_nil. }
  case_bool_decide as Hs.
  - destruct (IH seen) as (E & S & D & F). repeat split; try done. by constructor.
  - destruct (IH ({[raw_tool_identity tool]} ∪ seen)) as (E & S & D & F). cbn [map cd_tool candidate_of].
    repeat split.
    + by f_equal.
    + by constructor.
    + constructor; [|done]. intros (t & Et & Ht)%list_elem_of_fmap. apply F in Ht. set_solver.
    + intros t [->|Ht]%elem_of_cons; [done|]. apply F in Ht. set_solver.
Qed.

Lemma collect_candidates_first seen pre tool post :
  raw_tool_identity tool ∉ seen -> raw_tool_identity tool ∉ map raw_tool_identity pre ->
  tool ∈ map cd_tool (collect_candidates seen (pre ++ tool :: post)).
Proof.
  revert seen. induction pre as [|t pre IH]; intros seen Hs Hp; cbn [app collect_candidates].
  - rewrite bool_decide_eq_false_2 by done. cbn. constructor.
  - apply not_elem_of_cons in Hp as [Hn Hp]. case_bool_decide; [by apply IH|].
    cbn. constructor. apply IH; [set_solver|done].
Qed.

Lemma collect_candidates_NoDup tools seen :
  NoDup (map raw_tool_identity tools) -> (forall t, t ∈ tools -> raw_tool_identity t ∉ seen) ->
  collect_candidates seen tools = map candidate_of tools.
Proof.
  revert seen. induction tools as [|t tools IH]; intros seen Hd Hs; [done|].
  apply NoDup_cons in Hd as [Ht Hd]. cbn.
  rewrite bool_decide_eq_false_2 by (apply Hs; constructor). f_equal. apply IH; [done|].
  intros u Hu. assert (raw_tool_identity u ∉ seen) by (apply Hs; by constructor).
  assert (raw_tool_identity u <> raw_tool_identity t); [|set_solver].
  intros E. apply Ht. rewrite <- E. by apply list_elem_of_fmap_2.
Qed.

Lemma NoDup_map_inj {A B} (f : A -> B) l : NoDup (map f l) -> forall x y, x ∈ l -> y ∈ l -> f x = f y -> x = y.
Proof.
  induction l as [|z l IH]; [by intros _ x y ?%elem_of_nil|]. intros [Hz Hl]%NoDup_cons.
  assert (forall x, x ∈ l -> f x <> f z) as N by (intros x Hx E; apply Hz; rewrite <- E; by apply list_elem_of_fmap_2).
  intros x y [->|Hx]%elem_of_cons [->|Hy]%elem_of_cons E; [done|by destruct (N y Hy)|by destruct (N x Hx)|by apply IH].
Qed.

(** ** Collisions *)

Lemma identities_by_base_spec {K} `{Countable K} (base : CallableToolCandidate -> K) identity cs k :
  default ∅ (identities_by_base base identity cs !! k) =
    list_to_set (map identity (filter (fun c => base c = k) cs)).
Proof.
  unfold identities_by_base. set (step := fun _ _ => _).
  enough (forall m, default ∅ (fold_left step cs m !! k) =
            list_to_set (map identity (filter (fun c => base c = k) cs)) ∪ default ∅ (m !! k)) as ->.
  { rewrite lookup_empty. cbn [default]. set_solver. }
  induction cs as [|c cs IH]; intros m; cbn [fold_left]; [set_solver|].
  rewrite IH. rewrite filter_cons. unfold step. destruct (decide (base c = k)) as [->|N].
  - rewrite lookup_insert_eq. cbn [map list_to_set default]. set_solver.
  - by rewrite lookup_insert_ne.
Qed.

Lemma colliding_spec {K} `{Countable K} (base : CallableToolCandidate -> K) identity cs k :
  colliding base identity cs k =
    (1 <? size (list_to_set (C := gset str) (map identity (filter (fun c => base c = k) cs))))%nat.
Proof.
  rewrite <- identities_by_base_spec. unfold colliding. by destruct (_ !! k).
Qed.

Lemma colliding_perm {K} `{Countable K} (base : CallableToolCandidate -> K) identity cs cs' k :
  cs ≡ₚ cs' -> colliding base identity cs k = colliding base identity cs' k.
Proof.
  intros Hp. rewrite !colliding_spec. f_equal. f_equal. apply set_eq. intros x.
  rewrite !elem_of_list_to_set. by rewrite Hp.
Qed.

Section Names.
Context (sha1_hex : str -> str).
Hypothesis digits : forall s, length (sha1_hex s) = 40%nat /\ tool_text (sha1_hex s).

Notation hash_suffix := (callable_name_hash_suffix sha1_hex).

Lemma hash_suffix_ok raw : tool_text (hash_suffix raw) /\ length (hash_suffix raw) = 13%nat.
Proof.
  destruct (digits raw) as [L T]. unfold callable_name_hash_suffix. split.
  - constructor; [done|]. by apply tool_text_take.
  - rewrite length_app, length_take, L. done.
Qed.

Lemma append_hash_suffix_ok value raw : tool_text value -> tool_text (append_hash_suffix sha1_hex value raw).
Proof. intros H. apply tool_text_app; [done|apply hash_suffix_ok]. Qed.

Lemma append_namespace_hash_suffix_ok namespace raw :
  tool_text namespace -> tool_text (append_namespace_hash_suffix sha1_hex namespace raw).
Proof.
  intros H. unfold append_namespace_hash_suffix. destruct (strip_suffix _ _) as [s|] eqn:E.
  - apply strip_suffix_Some in E as ->. apply Forall_app in H as [H D].
    apply tool_text_app; [done|]. apply tool_text_app; [apply hash_suffix_ok|done].
  - by apply append_hash_suffix_ok.
Qed.

Definition parts_ok (namespace name : str) : Prop := tool_text namespace /\ tool_text name /\ name <> [].

Lemma fit_ok namespace name raw ns n :
  parts_ok namespace name -> fit_callable_parts_with_hash sha1_hex namespace name raw = (ns, n) ->
  parts_ok ns n /\ (byte_len (ns ++ n) <= MAX_TOOL_NAME_LENGTH)%nat /\ exists s, ns ++ n = s ++ hash_suffix raw.
Proof.
  intros (Hns & Hn & _). destruct (hash_suffix_ok raw) as [Ht Hl].
  assert (hash_suffix raw <> []) as Hne by (intros E; by rewrite E in Hl).
  unfold fit_callable_parts_with_hash, truncate_name. rewrite !byte_len_tool, Hl by done.
  destruct (Nat.leb_spec 13 (MAX_TOOL_NAME_LENGTH - length namespace)) as [Hle|Hle]; intros [= <- <-].
  - assert (tool_text (take (MAX_TOOL_NAME_LENGTH - length namespace - 13) name ++ hash_suffix raw)) as Ht'
      by (apply tool_text_app; [by apply tool_text_take|done]).
    split; [|split].
    + split; [done|]. split; [done|]. by intros [_ ?]%app_eq_nil.
    + rewrite byte_len_tool by (by apply tool_text_app). rewrite !length_app, Hl, length_take. lia.
    + eexists. by rewrite app_assoc.
  - assert (tool_text (take (MAX_TOOL_NAME_LENGTH - 13) namespace)) as Ht' by (by apply tool_text_take).
    split; [by repeat split|]. split; [|by eexists].
    rewrite byte_len_tool by (by apply tool_text_app). rewrite length_app, Hl, length_take.
    unfold MAX_TOOL_NAME_LENGTH. lia.
Qed.

(** The suffix tells the attempts apart. *)
Lemma fit_inj namespace name raw raw' ns n ns' n' :
  parts_ok namespace name ->
  fit_callable_parts_with_hash sha1_hex namespace name raw = (ns, n) ->
  fit_callable_parts_with_hash sha1_hex namespace name raw' = (ns', n') ->
  ns ++ n = ns' ++ n' -> take CALLABLE_NAME_HASH_LEN (sha1_hex raw) = take CALLABLE_NAME_HASH_LEN (sha1_hex raw').
Proof.
  intros Hok H H' E. apply fit_ok in H as (_ & _ & s & Es); [|done]. apply fit_ok in H' as (_ & _ & s' & Es'); [|done].
  rewrite Es, Es' in E. apply app_inj_2 in E as [_ E].
  - unfold callable_name_hash_suffix in E. by apply (app_inv_head (lit "_")).
  - by rewrite !(proj2 (hash_suffix_ok _)).
Qed.

(** ** The loop *)

Definition digest (raw : str) : str := take CALLABLE_NAME_HASH_LEN (sha1_hex raw).

(** The first attempts of an identity have different digests. *)
Definition distinct_attempts (n : nat) (raw : str) : Prop :=
  NoDup (map (fun i => digest (hash_input raw (N.of_nat i))) (seq 0 n)).

Definition attempt_name (namespace name raw : str) (attempt : N) : str :=
  let '(ns, n) := fit_callable_parts_with_hash sha1_hex namespace name (hash_input raw attempt) in ns ++ n.

Definition good_parts (used : gset str) (r : str * str * str * gset str) : Prop :=
  let '(ns, n, q, used') := r in
  q = ns ++ n /\ q ∉ used /\ used' = {[q]} ∪ used /\ parts_ok ns n /\ (byte_len q <= MAX_TOOL_NAME_LENGTH)%nat.

Lemma unique_loop_mono fuel fuel' ns n raw a used r : (fuel <= fuel')%nat ->
  unique_loop sha1_hex fuel ns n raw a used = Some r -> unique_loop sha1_hex fuel' ns n raw a used = Some r.
Proof.
  revert fuel' a. induction fuel as [|fuel IH]; intros [|fuel'] a Hle; [done..|lia|].
  cbn [unique_loop]. destruct (fit_callable_parts_with_hash _ _ _ _) as [x y].
  case_bool_decide; [apply IH; lia|done].
Qed.

Lemma unique_loop_good fuel ns n raw a used r : parts_ok ns n ->
  unique_loop sha1_hex fuel ns n raw a used = Some r -> good_parts used r.
Proof.
  intros Hok. revert a. induction fuel as [|fuel IH]; intros a; [done|]. cbn [unique_loop].
  destruct (fit_callable_parts_with_hash _ _ _ _) as [x y] eqn:E.
  case_bool_decide as Hu; [apply IH|]. intros [= <-].
  apply fit_ok in E as (Hok' & Hlen & _); [|done]. done.
Qed.

Lemma unique_loop_None fuel ns n raw a used :
  (a + N.of_nat fuel <= U32_MAX)%N -> unique_loop sha1_hex fuel ns n raw a used = None ->
  Forall (fun i => attempt_name ns n raw (a + N.of_nat i) ∈ used) (seq 0 fuel).
Proof.
  revert a. induction fuel as [|fuel IH]; intros a Hle; [constructor|]. cbn [unique_loop seq].
  destruct (fit_callable_parts_with_hash _ _ _ _) as [x y] eqn:E.
  case_bool_decide as Hu; [|done]. rewrite N.min_l by lia. intros H.
  constructor.
  - unfold attempt_name. rewrite N.add_0_r, E. done.
  - apply IH in H; [|lia]. rewrite <- seq_shift. apply Forall_map. eapply Forall_impl; [exact H|].
    intros i Hi. cbv beta in Hi |- *. by replace (a + N.of_nat (S i))%N with (a + 1 + N.of_nat i)%N by lia.
Qed.

Lemma attempt_names_NoDup k ns n raw : parts_ok ns n -> distinct_attempts k raw ->
  NoDup (map (fun i => attempt_name ns n raw (N.of_nat i)) (seq 0 k)).
Proof.
  intros Hok. unfold distinct_attempts. generalize (seq 0 k) as l. induction l as [|i l IH]; [done|].
  cbn [map]. intros [Hi Hl]%NoDup_cons. constructor; [|by apply IH].
  intros (j & E & Hj)%list_elem_of_fmap. apply Hi.
  replace (digest (hash_input raw (N.of_nat i))) with (digest (hash_input raw (N.of_nat j))).
  { by apply (list_elem_of_fmap_2 (fun i => digest (hash_input raw (N.of_nat i)))). }
  symmetry. unfold attempt_name in E.
  destruct (fit_callable_parts_with_hash _ _ _ (hash_input raw (N.of_nat i))) as [x y] eqn:Ei.
  destruct (fit_callable_parts_with_hash _ _ _ (hash_input raw (N.of_nat j))) as [x' y'] eqn:Ej.
  by apply (fit_inj ns n _ _ x y x' y').
Qed.

(** More attempts than names in use find one. *)
Lemma unique_parts_found k ns n raw used :
  parts_ok ns n -> distinct_attempts (S k) raw -> (N.of_nat k < U32_MAX)%N -> (size used <= k)%nat ->
  exists r, good_parts used r /\ forall fuel, (k < fuel)%nat ->
    unique_callable_parts sha1_hex fuel ns n raw used = Some r.
Proof.
  intros Hok Hd Hk Hs. unfold unique_callable_parts. case_bool_decide as Hu; cbn [negb].
  2: destruct (Nat.leb_spec (byte_len (ns ++ n)) MAX_TOOL_NAME_LENGTH) as [Hl|Hl]; cbn [andb].
  2: { eexists. split; [|done]. done. }
  all: rewrite ?andb_false_r.
  all: destruct (unique_loop sha1_hex (S k) ns n raw 0 used) as [r|] eqn:E.
  1,3: exists r; split; [by eapply unique_loop_good|]; intros; eapply unique_loop_mono; [|exact E]; lia.
  all: exfalso; apply unique_loop_None in E; [|lia].
  all: pose proof (attempt_names_NoDup _ _ _ _ Hok Hd) as Hn.
  all: assert (length (seq 0 (S k)) <= size used)%nat as Hc; [|rewrite length_seq in Hc; lia].
  all: rewrite <- (length_map (fun i => attempt_name ns n raw (N.of_nat i))), <- (size_list_to_set (C := gset str)) by done.
  all: apply subseteq_size; intros x (i & -> & Hi)%elem_of_list_to_set%list_elem_of_fmap.
  all: rewrite Forall_forall in E; by apply E in Hi.
Qed.

Definition named (candidate : CallableToolCandidate) (parts : str * str) : str * ToolInfo :=
  (parts.1 ++ parts.2, set_callable (cd_tool candidate) parts.1 parts.2).

Definition joined (parts : str * str) : str := parts.1 ++ parts.2.

Lemma assign_names_spec (k : nat) (candidates : list CallableToolCandidate) (used : gset str) (q : gmap str ToolInfo) :
  (N.of_nat k < U32_MAX)%N -> (size used + length candidates <= k)%nat ->
  Forall (fun c => parts_ok (cd_callable_namespace c) (cd_callable_name c) /\
                   distinct_attempts (S k) (cd_raw_tool_identity c)) candidates ->
  exists names, length names = length candidates /\ NoDup (map joined names) /\
    Forall (fun parts => joined parts ∉ used /\ parts_ok parts.1 parts.2 /\
                         (byte_len (joined parts) <= MAX_TOOL_NAME_LENGTH)%nat) names /\
    forall fuel, (k < fuel)%nat ->
      assign_names sha1_hex fuel candidates used q = Some (list_to_map (zip_with named candidates names) ∪ q).
Proof.
  intros Hk. revert used q. induction candidates as [|c cs IH]; intros used q Hs Hcs.
  { exists []. split; [done|]. split; [constructor|]. split; [constructor|]. intros. cbn. by rewrite (left_id_L ∅ (∪)). }
  apply Forall_cons in Hcs as [[Hok Hd] Hcs]. cbn [length] in Hs.
  destruct (unique_parts_found k _ _ _ used Hok Hd Hk) as ([[[ns n] x] used'] & (-> & Hx & -> & Hok' & Hl) & Hr); [lia|].
  destruct (IH ({[ns ++ n]} ∪ used) (<[ns ++ n := set_callable (cd_tool c) ns n]> q)) as (names & Hlen & Hnd & Hall & Hf).
  { rewrite size_union by set_solver. rewrite size_singleton. lia. }
  { done. }
  exists ((ns, n) :: names). split; [cbn; by rewrite Hlen|]. split.
  { cbn [map]. constructor; [|done]. intros (p & Ep & Hp)%list_elem_of_fmap.
    rewrite Forall_forall in Hall. destruct (Hall p Hp) as [Hnot _]. unfold joined in *. cbn in Ep. set_solver. }
  split.
  { constructor; [done|]. eapply Forall_impl; [exact Hall|]. intros p (Hp & ?). split; [set_solver|done]. }
  intros fuel Hfuel. cbn [assign_names]. rewrite Hr, Hf by done. cbn [zip_with list_to_map foldr]. f_equal.
  cbn [uncurry named fst snd]. rewrite <- insert_union_l, insert_union_r; [done|].
  apply not_elem_of_list_to_map. intros ([y t] & Ey & (c' & p & Ep & _ & Hp)%elem_of_zip_with)%list_elem_of_fmap.
  injection Ep as -> ->. rewrite Forall_forall in Hall. destruct (Hall p Hp) as [Hnot _].
  unfold joined in Hnot. cbn in Ey. set_solver.
Qed.

(** ** All tools *)

Lemma hash_namespaces_same cs :
  map cd_tool (hash_namespaces sha1_hex cs) = map cd_tool cs /\
  map cd_raw_tool_identity (hash_namespaces sha1_hex cs) = map cd_raw_tool_identity cs.
Proof. unfold hash_namespaces. rewrite !map_map. split; apply map_ext; intros c; by destruct (colliding _ _ _ _). Qed.

Lemma hash_names_same cs :
  map cd_tool (hash_names sha1_hex cs) = map cd_tool cs /\
  map cd_raw_tool_identity (hash_names sha1_hex cs) = map cd_raw_tool_identity cs.
Proof. unfold hash_names. rewrite !map_map. split; apply map_ext; intros c; by destruct (colliding _ _ _ _). Qed.

Lemma sorted_candidates_perm tools :
  map cd_tool (sorted_candidates sha1_hex tools) ≡ₚ map cd_tool (collect_candidates ∅ tools) /\
  map cd_raw_tool_identity (sorted_candidates sha1_hex tools) ≡ₚ
    map raw_tool_identity (map cd_tool (collect_candidates ∅ tools)).
Proof.
  unfold sorted_candidates. rewrite !(Permutation_map _ (sort_by_perm _ _)).
  rewrite (proj1 (hash_names_same _)), (proj2 (hash_names_same _)).
  rewrite (proj1 (hash_namespaces_same _)), (proj2 (hash_namespaces_same _)). split; [done|].
  rewrite (proj1 (collect_candidates_spec ∅ tools)) at 1. by rewrite map_map.
Qed.

Definition candidate_ok (c : CallableToolCandidate) : Prop :=
  parts_ok (cd_callable_namespace c) (cd_callable_name c).

Lemma candidate_of_ok tool : candidate_ok (candidate_of tool).
Proof. split; [apply sanitized_ok|]. split; apply sanitized_ok. Qed.

Lemma hash_namespaces_ok cs : Forall candidate_ok cs -> Forall candidate_ok (hash_namespaces sha1_hex cs).
Proof.
  intros H. apply Forall_map. eapply Forall_impl; [exact H|]. intros c (Hns & Hn & Hne). cbv beta.
  destruct (colliding _ _ _ _); [|done]. split; [|done]. by apply append_namespace_hash_suffix_ok.
Qed.

Lemma hash_names_ok cs : Forall candidate_ok cs -> Forall candidate_ok (hash_names sha1_hex cs).
Proof.
  intros H. apply Forall_map. eapply Forall_impl; [exact H|]. intros c (Hns & Hn & Hne). cbv beta.
  destruct (colliding _ _ _ _); [|done]. split; [done|]. split; [by apply append_hash_suffix_ok|].
  by intros [? _]%app_eq_nil.
Qed.

Lemma sorted_candidates_ok tools : Forall candidate_ok (sorted_candidates sha1_hex tools).
Proof.
  unfold sorted_candidates. rewrite sort_by_perm. apply hash_names_ok, hash_namespaces_ok.
  rewrite (proj1 (collect_candidates_spec ∅ tools)). apply Forall_map, Forall_true, candidate_of_ok.
Qed.

(** What the list of tools becomes: their first occurrences, with names. *)
Definition kept_once (tools kept : list ToolInfo) : Prop :=
  kept ⊆+ tools /\ NoDup (map raw_tool_identity kept) /\
  forall pre tool post, tools = pre ++ tool :: post -> raw_tool_identity tool ∉ map raw_tool_identity pre -> tool ∈ kept.

Lemma sorted_kept_once tools : kept_once tools (map cd_tool (sorted_candidates sha1_hex tools)).
Proof.
  destruct (collect_candidates_spec ∅ tools) as (_ & Hsub & Hnd & _).
  destruct (sorted_candidates_perm tools) as [Ht Hi]. split; [|split].
  - rewrite Ht. by apply sublist_submseteq.
  - rewrite (Permutation_map _ Ht). done.
  - intros pre tool post -> Hpre. rewrite Ht. apply collect_candidates_first; [apply not_elem_of_empty|done].
Qed.

Definition named_tool (tool : ToolInfo) (parts : str * str) : str * ToolInfo :=
  (joined parts, set_callable tool parts.1 parts.2).

Lemma named_tools cs names : zip_with named cs names = zip_with named_tool (map cd_tool cs) names.
Proof. revert names. induction cs as [|c cs IH]; intros [|p names]; cbn; [done..|]. by rewrite IH. Qed.

Lemma qualify_tools_named tools :
  (N.of_nat (length tools) < U32_MAX)%N ->
  Forall (fun tool => distinct_attempts (S (length tools)) (raw_tool_identity tool)) tools ->
  exists kept names, kept_once tools kept /\ length names = length kept /\ NoDup (map joined names) /\
    Forall (fun parts => parts_ok parts.1 parts.2 /\ (byte_len (joined parts) <= MAX_TOOL_NAME_LENGTH)%nat) names /\
    forall fuel, (length tools < fuel)%nat ->
      qualify_tools sha1_hex fuel tools = Some (list_to_map (zip_with named_tool kept names)).
Proof.
  intros Hlen Hd. pose proof (sorted_kept_once tools) as Hk. destruct Hk as (Hsub & Hk).
  destruct (assign_names_spec (length tools) (sorted_candidates sha1_hex tools) ∅ ∅ Hlen) as (names & Hl & Hnd & Hall & Hf).
  - rewrite size_empty. apply submseteq_length in Hsub. by rewrite length_map in Hsub.
  - apply Forall_and. split; [apply sorted_candidates_ok|].
    apply (proj1 (Forall_map cd_raw_tool_identity (distinct_attempts (S (length tools))) _)).
    rewrite (proj2 (sorted_candidates_perm tools)). apply Forall_map.
    destruct (collect_candidates_spec ∅ tools) as (_ & Hs & _). by eapply Forall_sublist_of.
  - exists (map cd_tool (sorted_candidates sha1_hex tools)), names. split; [done|]. split; [by rewrite length_map|].
    split; [done|]. split; [eapply Forall_impl; [exact Hall|]; by intros p (_ & ?)|].
    intros fuel Hfuel. unfold qualify_tools. rewrite Hf by done. by rewrite (right_id_L ∅ (∪)), named_tools.
Qed.

Lemma assign_names_origin fuel candidates used q m x t :
  assign_names sha1_hex fuel candidates used q = Some m -> m !! x = Some t ->
  q !! x = Some t \/ exists c ns n, c ∈ candidates /\ t = set_callable (cd_tool c) ns n.
Proof.
  revert used q. induction candidates as [|c cs IH]; intros used q; cbn [assign_names]; [intros [= ->]; by left|].
  destruct (unique_callable_parts _ _ _ _ _ _) as [[[[ns n] y] used']|]; [|done]. intros H Hx.
  destruct (IH _ _ H Hx) as [Hq|(c' & ns' & n' & Hc & ->)].
  - destruct (decide (y = x)) as [->|N].
    + rewrite lookup_insert_eq in Hq. injection Hq as <-. right. exists c, ns, n. split; [constructor|done].
    + rewrite lookup_insert_ne in Hq by done. by left.
  - right. exists c', ns', n'. split; [by constructor|done].
Qed.

(** A tool that is listed is one of the tools, under names. *)
Lemma qualify_tools_origin fuel tools m x t :
  qualify_tools sha1_hex fuel tools = Some m -> m !! x = Some t ->
  exists t0 ns n, t0 ∈ tools /\ t = set_callable t0 ns n.
Proof.
  intros H Hx. destruct (assign_names_origin _ _ _ _ _ _ _ H Hx) as [Hq|(c & ns & n & Hc & ->)].
  { by rewrite lookup_empty in Hq. }
  exists (cd_tool c), ns, n. split; [|done].
  destruct (sorted_kept_once tools) as (Hs & _). eapply elem_of_submseteq; [|exact Hs]. by apply list_elem_of_fmap_2.
Qed.

(** *** The order in which servers answer *)

Lemma hash_namespaces_perm cs cs' : cs ≡ₚ cs' -> hash_namespaces sha1_hex cs ≡ₚ hash_namespaces sha1_hex cs'.
Proof.
  intros Hp. unfold hash_namespaces. rewrite (map_ext _ (fun candidate =>
    if colliding cd_callable_namespace cd_raw_namespace_identity cs' (cd_callable_namespace candidate)
    then with_names candidate
           (append_namespace_hash_suffix sha1_hex (cd_callable_namespace candidate) (cd_raw_namespace_identity candidate))
           (cd_callable_name candidate)
    else candidate)); [by apply Permutation_map|].
  intros c. by rewrite (colliding_perm _ _ _ _ _ Hp).
Qed.

Lemma hash_names_perm cs cs' : cs ≡ₚ cs' -> hash_names sha1_hex cs ≡ₚ hash_names sha1_hex cs'.
Proof.
  intros Hp. unfold hash_names. rewrite (map_ext _ (fun candidate =>
    if colliding callable_parts cd_raw_tool_identity cs' (callable_parts candidate)
    then with_names candidate (cd_callable_namespace candidate)
           (append_hash_suffix sha1_hex (cd_callable_name candidate) (cd_raw_tool_identity candidate))
    else candidate)); [by apply Permutation_map|].
  intros c. by rewrite (colliding_perm _ _ _ _ _ Hp).
Qed.

Lemma candidate_sorted cs : StronglySorted (fun a b => candidate_leb a b = true) (sort_by candidate_leb cs).
Proof.
  apply sort_by_sorted; unfold candidate_leb.
  - intros x y. destruct (str_leb _ _) eqn:E; [by left|right]. by apply str_leb_total.
  - intros x y z. apply str_leb_trans.
Qed.

Lemma sorted_candidates_stable tools tools' :
  tools ≡ₚ tools' -> NoDup (map raw_tool_identity tools) ->
  sorted_candidates sha1_hex tools = sorted_candidates sha1_hex tools'.
Proof.
  intros Hp Hnd. destruct (sorted_candidates_perm tools) as [_ Hi].
  assert (NoDup (map raw_tool_identity tools')) as Hnd' by (by rewrite <- (Permutation_map _ Hp)).
  assert (sorted_candidates sha1_hex tools ≡ₚ sorted_candidates sha1_hex tools') as Hs.
  { unfold sorted_candidates. rewrite !sort_by_perm. apply hash_names_perm, hash_namespaces_perm.
    rewrite !collect_candidates_NoDup by (done || set_solver). by apply Permutation_map. }
  rewrite collect_candidates_NoDup in Hi by (done || set_solver).
  assert (map cd_tool (map candidate_of tools) = tools) as Em by (rewrite map_map; apply map_id).
  rewrite Em in Hi.
  assert (NoDup (map cd_raw_tool_identity (sorted_candidates sha1_hex tools))) as Hn by (by rewrite Hi).
  apply (StronglySorted_unique_strong (fun a b => candidate_leb a b = true));
    [|apply candidate_sorted..|exact Hs].
  intros x y Hx Hy Hxy Hyx. rewrite <- Hs in Hy. apply (NoDup_map_inj _ _ Hn x y Hx Hy).
  by apply str_leb_antisym.
Qed.
End Names.

(** C8: the names of the tools: each of the tools listed, taken once, is under
    exactly one name, its namespace followed by its name in it, of at most 64
    letters, digits and underscores; all else about it is as its server gave
    it.  The loop over hashes ends, where the digests of an identity's first
    attempts, one more than there are tools, are different. *)
Theorem qualify_tools_spec (sha1_hex : str -> str) (tools : list ToolInfo) :
  (forall s, length (sha1_hex s) = 40%nat /\ tool_text (sha1_hex s)) ->
  (N.of_nat (length tools) < U32_MAX)%N ->
  Forall (fun tool => distinct_attempts sha1_hex (S (length tools)) (raw_tool_identity tool)) tools ->
  exists kept names, kept_once tools kept /\ length names = length kept /\ NoDup (map joined names) /\
    Forall (fun parts => parts_ok parts.1 parts.2 /\ (byte_len (joined parts) <= MAX_TOOL_NAME_LENGTH)%nat) names /\
    forall fuel, (length tools < fuel)%nat ->
      qualify_tools sha1_hex fuel tools = Some (list_to_map (zip_with named_tool kept names)).
Proof. intros Hdigits Hlen Hd. by apply qualify_tools_named. Qed.

(** The names do not depend on the order in which the servers are asked, a map
    that has none: the same tools get the same names. *)
Theorem qualified_names_stable (sha1_hex : str -> str) (fuel : nat) (tools tools' : list ToolInfo) :
  tools ≡ₚ tools' -> NoDup (map raw_tool_identity tools) ->
  qualify_tools sha1_hex fuel tools = qualify_tools sha1_hex fuel tools'.
Proof. intros Hp Hnd. unfold qualify_tools. by rewrite (sorted_candidates_stable sha1_hex tools tools'). Qed.

(** *** Examples *)

Definition plain_tool (server name : str) : ToolInfo :=
  mkToolInfo server name (normalize_codex_apps_callable_namespace server None) None
    (mkRmcpTool name None None [] None None) None None [] None.

(** A hash of forty digits that tells short texts apart *)
Fixpoint hex_digits (k : nat) (n : N) : str :=
  match k with 0%nat => [] | S k => hex_digit (n mod 16) :: hex_digits k (n / 16) end%N.

Definition toy_hash (s : str) : str :=
  hex_digits 40 (fold_left (fun h c => (h * 131 + c) mod 281474976710597)%N s 7%N).

Lemma toy_hash_digits s : length (toy_hash s) = 40%nat /\ tool_text (toy_hash s).
Proof.
  unfold toy_hash. generalize (fold_left (fun h c => (h * 131 + c) mod 281474976710597)%N s 7%N).
  generalize 40%nat. induction n as [|k IH]; intros n; [split; [done|by constructor]|].
  destruct (IH (n / 16)%N) as [L T]. cbn [hex_digits length]. split; [by f_equal|]. constructor; [|done].
  assert (n mod 16 < 16)%N as Hm by (apply N.mod_lt; lia). revert Hm. generalize (n mod 16)%N. intros m Hm.
  unfold is_tool_char, is_ascii_alphanumeric, is_ascii_digit, hex_digit.
  rewrite !orb_true_iff, !andb_true_iff, !N.leb_le. left. destruct (N.ltb_spec m 10); [left; left|right]; lia.
Qed.

Definition clashing_tools : list ToolInfo :=
  [plain_tool (lit "a-b") (lit "search"); plain_tool (lit "a.b") (lit "search"); plain_tool (lit "c") (lit "x y")].

Lemma qualify_tools_spec_witness : exists m, qualify_tools toy_hash 4 clashing_tools = Some m /\ size m = 3%nat.
Proof.
  destruct (qualify_tools_spec toy_hash clashing_tools toy_hash_digits) as (kept & names & Hk & Hl & Hnd & _ & Hf).
  { by vm_compute. }
  { apply (bool_decide_unpack _). by vm_compute. }
  assert (size (default ∅ (qualify_tools toy_hash 4 clashing_tools)) = 3%nat) as Hs by (by vm_compute).
  eexists. split; [apply Hf; cbn; lia|]. rewrite Hf in Hs by (cbn; lia). exact Hs.
Defined.

(** Two servers whose names look the same keep their tools apart; a name that
    is alone is only sanitised. *)
Example clashing_names : map fst (map_to_list (default ∅ (qualify_tools toy_hash 4 clashing_tools))) =
  [lit "mcp__c__x_y"; lit "mcp__a_b_ea5a336d5da4__search"; lit "mcp__a_b_c4979cb5a380__search"].
Proof. vm_compute. reflexivity. Qed.

Lemma qualified_names_stable_witness :
  qualify_tools toy_hash 4 clashing_tools = qualify_tools toy_hash 4 (reverse clashing_tools).
Proof.
  apply qualified_names_stable; [by rewrite reverse_Permutation|].
  apply (bool_decide_unpack _). by vm_compute.
Defined.

(** A hyphen is replaced, although names may have it. *)
Example hyphen_replaced : sanitize_responses_api_tool_name (lit "read-file") = lit "read_file".
Proof. reflexivity. Qed.
