(* ===== verification/McpServers.v ===== *)
(** * McpServers: what the connections to MCP servers list and let be called

    [codex-mcp/src/rmcp_client.rs], [connection_manager.rs], [codex_apps.rs]
    and the effective servers of [mcp/mod.rs], with the metadata that
    [rmcp-client] reads.  A started client is an outcome; what a server
    answers, and the file of the cache, are inputs. *)

From S2P Require Import Prelude Utf8 BTree ConfigLayers DomainPolicy McpTools.
Local Open Scope str_scope.

(** ** Listing the tools of a server *)

Record ToolWithConnectorId : Type := mkWithConnector {
  wc_tool : RmcpTool;
  wc_connector_id : option str;
  wc_connector_name : option str;
  wc_connector_description : option str;
}.

Definition meta_string (meta : option JsonMap) (key : str) : option str :=
  meta ← meta; non_empty (trim <$> (tbl_get key meta ≫= as_str)).

Definition or_else {A} (x y : option A) : option A := match x with Some _ => x | None => y end.

Definition with_connector (tool : RmcpTool) : ToolWithConnectorId :=
  let meta := rt_meta tool in
  mkWithConnector tool (meta_string meta (lit "connector_id"))
    (or_else (meta_string meta (lit "connector_name")) (meta_string meta (lit "connector_display_name")))
    (or_else (meta_string meta (lit "connector_description")) (meta_string meta (lit "connectorDescription"))).

Definition UNTRUSTED_CONNECTOR_META_KEYS : list str :=
  [lit "connector_id"; lit "connector_name"; lit "connector_display_name"; lit "connector_description";
   lit "connectorDescription"].

Definition is_untrusted_connector_meta_key (key : str) : bool := one_of key UNTRUSTED_CONNECTOR_META_KEYS.

Definition with_meta (tool : RmcpTool) (meta : option JsonMap) : RmcpTool :=
  mkRmcpTool (rt_name tool) (rt_title tool) (rt_description tool) (rt_input_schema tool) (rt_annotations tool) meta.

Definition with_title (tool : RmcpTool) (title : option str) : RmcpTool :=
  mkRmcpTool (rt_name tool) title (rt_description tool) (rt_input_schema tool) (rt_annotations tool) (rt_meta tool).

Definition with_description (tool : RmcpTool) (description : option str) : RmcpTool :=
  mkRmcpTool (rt_name tool) (rt_title tool) description (rt_input_schema tool) (rt_annotations tool) (rt_meta tool).

Definition strip_untrusted_connector_meta (tool : RmcpTool) : RmcpTool :=
  with_meta tool (List.filter (fun kv => negb (is_untrusted_connector_meta_key kv.1)) <$> rt_meta tool).

Definition sanitize_tool_connector_metadata (server_name : str) (tool : ToolWithConnectorId) : ToolWithConnectorId :=
  if server_name =? CODEX_APPS_MCP_SERVER_NAME then tool
  else mkWithConnector (strip_untrusted_connector_meta (wc_tool tool)) None None None.

Definition tool_info_of (server_name : str) (server_instructions : option str) (tool : RmcpTool) : ToolInfo :=
  let '(mkWithConnector tool_def connector_id connector_name connector_description) :=
    sanitize_tool_connector_metadata server_name (with_connector tool) in
  let callable_name :=
    normalize_codex_apps_callable_name server_name (rt_name tool_def) connector_id connector_name in
  let callable_namespace := normalize_codex_apps_callable_namespace server_name connector_name in
  let tool_def :=
    with_title tool_def (normalize_codex_apps_tool_title server_name connector_name <$> rt_title tool_def) in
  mkToolInfo server_name callable_name callable_namespace server_instructions tool_def
    connector_id connector_name [] connector_description.

(** A page of a list: its items and the cursor of the next *)
Abbreviation page A := (list A * option str)%type.

(** The answer to [tools/list] without parameters *)
Definition list_tools_for_client_uncached (originator server_name : str)
    (list_tools : option str -> result str (page RmcpTool)) (server_instructions : option str)
    : result str (list ToolInfo) :=
  resp ← list_tools None;
  let tools := map (tool_info_of server_name server_instructions) resp.1 in
  Ok (if server_name =? CODEX_APPS_MCP_SERVER_NAME
      then filter_disallowed_codex_apps_tools originator tools else tools).

(** ** The cache of the apps' tools *)

Definition CODEX_APPS_TOOLS_CACHE_SCHEMA_VERSION : N := 2.

Inductive CachedCodexAppsToolsLoad : Type :=
| Hit (tools : list ToolInfo)
| Missing
| InvalidCache.

Section Cache.
Variable originator : str.
(** [serde_json] on the cache, a version and tools *)
Variable from_slice : list N -> option (N * list ToolInfo).
Variable to_vec_pretty : N * list ToolInfo -> option (list N).

(** Reading the file gives its bytes, or whether it was not found. *)
Definition load_cached_codex_apps_tools (read : result bool (list N)) : CachedCodexAppsToolsLoad :=
  match read with
  | Err not_found => if not_found then Missing else InvalidCache
  | Ok bytes =>
      match from_slice bytes with
      | None => InvalidCache
      | Some (schema_version, tools) =>
          if negb (schema_version =? CODEX_APPS_TOOLS_CACHE_SCHEMA_VERSION)%N then InvalidCache
          else Hit (filter_disallowed_codex_apps_tools originator tools)
      end
  end.

(** The bytes that are written, where the folder can be made *)
Definition write_cached_codex_apps_tools (tools : list ToolInfo) : option (list N) :=
  to_vec_pretty (CODEX_APPS_TOOLS_CACHE_SCHEMA_VERSION, filter_disallowed_codex_apps_tools originator tools).

Definition load_startup_cached_codex_apps_tools_snapshot (server_name : str)
    (cache_context : option (result bool (list N))) : option (list ToolInfo) :=
  if negb (server_name =? CODEX_APPS_MCP_SERVER_NAME) then None
  else
    read ← cache_context;
    match load_cached_codex_apps_tools read with Hit tools => Some tools | Missing | InvalidCache => None end.
End Cache.

(** ** Plugins *)

Record PluginCapabilitySummary : Type := mkPlugin {
  plugin_display_name : str;
  plugin_mcp_server_names : list str;
  plugin_app_connector_ids : list str;
}.

Record ToolPluginProvenance : Type := mkProvenance {
  by_connector_id : gmap str (list str);
  by_mcp_server_name : gmap str (list str);
}.

Definition plugin_display_names_for_connector_id (self : ToolPluginProvenance) (id : str) : list str :=
  default [] (by_connector_id self !! id).
Definition plugin_display_names_for_mcp_server_name (self : ToolPluginProvenance) (name : str) : list str :=
  default [] (by_mcp_server_name self !! name).

Definition push_name (display_name : str) (m : gmap str (list str)) (key : str) : gmap str (list str) :=
  <[key := default [] (m !! key) ++ [display_name]]> m.

Definition from_capability_summaries (capability_summaries : list PluginCapabilitySummary) : ToolPluginProvenance :=
  let tool_plugin_provenance :=
    fold_left (fun provenance plugin =>
      mkProvenance
        (fold_left (push_name (plugin_display_name plugin)) (plugin_app_connector_ids plugin) (by_connector_id provenance))
        (fold_left (push_name (plugin_display_name plugin)) (plugin_mcp_server_names plugin)
           (by_mcp_server_name provenance)))
      capability_summaries (mkProvenance ∅ ∅) in
  let sorted (names : list str) := dedup (sort_by str_leb names) in
  mkProvenance (sorted <$> by_connector_id tool_plugin_provenance) (sorted <$> by_mcp_server_name tool_plugin_provenance).

Definition BACKTICK : str := [96%N].
Definition ticked (name : str) : str := BACKTICK ++ name ++ BACKTICK.

Definition ends_sentence (s : str) : bool :=
  match last s with Some c => contains_char (lit ".!?") c | None => false end.

(** One tool in [annotate_tools] *)
Definition annotate_tool (provenance : ToolPluginProvenance) (info : ToolInfo) : ToolInfo :=
  let tool :=
    if ti_server_name info =? CODEX_APPS_MCP_SERVER_NAME
    then tool_with_model_visible_input_schema (ti_tool info) else ti_tool info in
  let plugin_names :=
    match ti_connector_id info with
    | Some connector_id => plugin_display_names_for_connector_id provenance connector_id
    | None => plugin_display_names_for_mcp_server_name provenance (ti_server_name info)
    end in
  let with_tool tool :=
    mkToolInfo (ti_server_name info) (ti_callable_name info) (ti_callable_namespace info)
      (ti_server_instructions info) tool (ti_connector_id info) (ti_connector_name info) plugin_names
      (ti_connector_description info) in
  if is_empty plugin_names then with_tool tool
  else
    let plugin_source_note :=
      match plugin_names with
      | [name] => lit "This tool is part of plugin " ++ ticked name ++ lit "."
      | _ => lit "This tool is part of plugins " ++ join (lit ", ") (map ticked plugin_names) ++ lit "."
      end in
    let description := default [] (trim <$> rt_description tool) in
    let annotated_description :=
      if is_empty description then plugin_source_note
      else if ends_sentence description then description ++ lit " " ++ plugin_source_note
      else description ++ lit ". " ++ plugin_source_note in
    with_tool (with_description tool (Some annotated_description)).

(** ** Clients *)

Inductive StartupOutcomeError : Type :=
| StartupCancelled
| StartupFailed (error : str).

Definition startup_outcome_error_message (error : StartupOutcomeError) : str :=
  match error with
  | StartupCancelled => lit "MCP startup cancelled"
  | StartupFailed error => error
  end.

(** The two lists of a server's configuration, and whether it is enabled *)
Record McpServerConfig : Type := mkServerConfig {
  sc_enabled : bool;
  sc_enabled_tools : option (list str);
  sc_disabled_tools : option (list str);
}.

Definition tool_filter_of (cfg : McpServerConfig) : ToolFilter :=
  filter_from_config (sc_enabled_tools cfg) (sc_disabled_tools cfg).

Record ManagedClient : Type := mkManaged {
  mc_tools : list ToolInfo;
  mc_tool_filter : ToolFilter;
  mc_has_cache : bool;
}.

Definition is_server_name_char (c : N) : bool := is_ascii_alphanumeric c || (c =? ch "_")%N || (c =? ch "-")%N.

Definition validate_mcp_server_name (server_name : str) : result str unit :=
  if negb (is_empty server_name) && forallb is_server_name_char server_name then Ok tt
  else Err (lit "Invalid MCP server name '" ++ server_name ++ lit "': must match pattern ^[a-zA-Z0-9_-]+$").

(** The client of a server, when all that is awaited has come: [initialized]
    is what connecting and initialising gave (the instructions), [cancelled]
    whether the start was cancelled first. *)
Definition start_client (originator server_name : str) (cfg : McpServerConfig) (cancelled : bool)
    (initialized : result str (option str)) (list_tools : option str -> result str (page RmcpTool))
    : result StartupOutcomeError ManagedClient :=
  if cancelled then Err StartupCancelled
  else
    map_err StartupFailed (
      _ ← validate_mcp_server_name server_name;
      instructions ← initialized;
      tools ← list_tools_for_client_uncached originator server_name list_tools instructions;
      let tool_filter := tool_filter_of cfg in
      Ok (mkManaged (filter_tools tools tool_filter) tool_filter (server_name =? CODEX_APPS_MCP_SERVER_NAME))).

Record AsyncManagedClient : Type := mkAsync {
  ac_client : result StartupOutcomeError ManagedClient;
  ac_startup_snapshot : option (list ToolInfo);
  ac_startup_complete : bool;
}.

(** [ManagedClient::listed_tools]; the cache is read when it is called. *)
Definition managed_listed_tools (self : ManagedClient) (cached : CachedCodexAppsToolsLoad) : list ToolInfo :=
  match cached, mc_has_cache self with
  | Hit tools, true => filter_tools tools (mc_tool_filter self)
  | _, _ => mc_tools self
  end.

Definition startup_snapshot_while_initializing (self : AsyncManagedClient) : option (list ToolInfo) :=
  if negb (ac_startup_complete self) then ac_startup_snapshot self else None.

(** The tools of a client, as in the caches *)
Definition raw_tools (cached : CachedCodexAppsToolsLoad) (self : AsyncManagedClient) : option (list ToolInfo) :=
  match startup_snapshot_while_initializing self with
  | Some startup_tools => Some startup_tools
  | None =>
      match ac_client self with
      | Ok client => Some (managed_listed_tools client cached)
      | Err _ => ac_startup_snapshot self
      end
  end.

Definition listed_tools (provenance : ToolPluginProvenance) (cached : CachedCodexAppsToolsLoad)
    (self : AsyncManagedClient) : option (list ToolInfo) :=
  map (annotate_tool provenance) <$> raw_tools cached self.

(** ** The servers of a session *)

Definition trim_end_slashes (s : str) : str := trim_end_matches (fun c => c =? ch "/")%N s.

Definition normalize_codex_apps_base_url (base_url : str) : str :=
  let base_url := trim_end_slashes base_url in
  if (starts_with base_url (lit "https://chatgpt.com") || starts_with base_url (lit "https://chat.openai.com"))
     && negb (contains base_url (lit "/backend-api"))
  then base_url ++ lit "/backend-api" else base_url.

Definition codex_apps_mcp_url_for_base_url (base_url : str) : str :=
  let base_url := normalize_codex_apps_base_url base_url in
  if contains base_url (lit "/backend-api") then base_url ++ lit "/wham/apps"
  else if contains base_url (lit "/api/codex") then base_url ++ lit "/apps"
  else base_url ++ lit "/api/codex/apps".

(** [builtin] is the configuration of the built-in server, [uses_codex_backend]
    what the login says, if there is one. *)
Definition with_codex_apps_mcp {C} (servers : gmap str C) (uses_codex_backend : option bool)
    (apps_enabled : bool) (builtin : C) : gmap str C :=
  if apps_enabled && default false uses_codex_backend
  then <[CODEX_APPS_MCP_SERVER_NAME := builtin]> servers
  else delete CODEX_APPS_MCP_SERVER_NAME servers.

(** The two lists of [codex_apps_mcp_server_config] *)
Definition codex_apps_mcp_server_config : McpServerConfig := mkServerConfig true None None.

(** What comes from outside while a server starts *)
Record ServerInputs : Type := mkInputs {
  in_cancelled : bool;
  in_initialized : result str (option str);
  in_list_tools : option str -> result str (page RmcpTool);
  in_cache : result bool (list N);
  in_complete : bool;
}.

Section Manager.
Variable originator : str.
Variable from_slice : list N -> option (N * list ToolInfo).
Variable sha1_hex : str -> str.

(** [AsyncManagedClient::new] *)
Definition async_client_new (server_name : str) (cfg : McpServerConfig) (inputs : ServerInputs) : AsyncManagedClient :=
  let tool_filter := tool_filter_of cfg in
  let cache_context := if server_name =? CODEX_APPS_MCP_SERVER_NAME then Some (in_cache inputs) else None in
  let startup_snapshot :=
    (fun tools => filter_tools tools tool_filter) <$>
      load_startup_cached_codex_apps_tools_snapshot originator from_slice server_name cache_context in
  mkAsync
    (start_client originator server_name cfg (in_cancelled inputs) (in_initialized inputs) (in_list_tools inputs))
    startup_snapshot (in_complete inputs).

(** The clients of [McpConnectionManager::new] *)
Definition manager_clients (mcp_servers : gmap str McpServerConfig) (world : str -> ServerInputs)
    : gmap str AsyncManagedClient :=
  map_imap (fun server_name cfg =>
    if sc_enabled cfg then Some (async_client_new server_name cfg (world server_name)) else None) mcp_servers.

Definition all_listed (provenance : ToolPluginProvenance) (cached : CachedCodexAppsToolsLoad)
    (clients : gmap str AsyncManagedClient) : list ToolInfo :=
  concat (omap (fun kv => listed_tools provenance cached kv.2) (map_to_list clients)).

Definition list_all_tools (fuel : nat) (provenance : ToolPluginProvenance) (cached : CachedCodexAppsToolsLoad)
    (clients : gmap str AsyncManagedClient) : option (gmap str ToolInfo) :=
  qualify_tools sha1_hex fuel (all_listed provenance cached clients).

(** [StartupOutcomeError] as text *)
Definition startup_error_display (error : StartupOutcomeError) : str :=
  match error with
  | StartupCancelled => lit "MCP startup cancelled"
  | StartupFailed error => lit "MCP startup failed: " ++ error
  end.

Definition client_by_name (clients : gmap str AsyncManagedClient) (name : str) : anyhow ManagedClient :=
  match clients !! name with
  | None => bail (lit "unknown MCP server '" ++ name ++ lit "'")
  | Some client =>
      with_context (lit "failed to get client") (map_err (fun e => [startup_error_display e]) (ac_client client))
  end.

(** [send] is the call of the tool on the server. *)
Definition call_tool {R} (send : str -> str -> anyhow R) (clients : gmap str AsyncManagedClient)
    (server tool : str) : anyhow R :=
  client ← client_by_name clients server;
  if negb (allows (mc_tool_filter client) tool)
  then bail (lit "tool '" ++ tool ++ lit "' is disabled for MCP server '" ++ server ++ lit "'")
  else with_context (lit "tool call failed for `" ++ server ++ lit "/" ++ tool ++ lit "`") (send server tool).

Definition required_startup_failures (clients : gmap str AsyncManagedClient) (required_servers : list str)
    : list (str * str) :=
  omap (fun server_name =>
    match clients !! server_name with
    | None => Some (server_name, lit "required MCP server `" ++ server_name ++ lit "` was not initialized")
    | Some client =>
        match ac_client client with
        | Ok _ => None
        | Err error => Some (server_name, startup_outcome_error_message error)
        end
    end) required_servers.
End Manager.

(** *** Lists in pages *)

Section Pages.
(** [resources/list] or [resources/templates/list] *)
Context {R : Type} (method : str) (list_page : option str -> anyhow (page R)).

(** The loop of [list_all_resources], and of [list_all_resource_templates];
    [None] stands for one that has not ended after [fuel] rounds. *)
Fixpoint list_pages (fuel : nat) (cursor : option str) (collected : list R) : option (anyhow (list R)) :=
  match fuel with
  | 0%nat => None
  | S fuel =>
      match list_page cursor with
      | Err err => Some (Err err)
      | Ok (resources, next_cursor) =>
          let collected := collected ++ resources in
          match next_cursor with
          | None => Some (Ok collected)
          | Some next =>
              if bool_decide (cursor = Some next)
              then Some (bail (method ++ lit " returned duplicate cursor"))
              else list_pages fuel (Some next) collected
          end
      end
  end.

(** The pages from a cursor on, as many as there are *)
Inductive paged : option str -> nat -> list R -> Prop :=
| paged_last cursor items : list_page cursor = Ok (items, None) -> paged cursor 1 items
| paged_next cursor items next n rest :
    list_page cursor = Ok (items, Some next) -> cursor <> Some next -> paged (Some next) n rest ->
    paged cursor (S n) (items ++ rest).

Lemma list_pages_all cursor n items fuel collected :
  paged cursor n items -> (n <= fuel)%nat -> list_pages fuel cursor collected = Some (Ok (collected ++ items)).
Proof.
  intros H. revert fuel collected. induction H as [cursor items E|cursor items next n rest E N _ IH];
    intros [|fuel] collected Hle; try lia; cbn [list_pages]; rewrite E; [done|].
  rewrite bool_decide_eq_false_2 by done. rewrite IH by lia. by rewrite app_assoc.
Qed.
End Pages.

(** ** What is listed *)

(** A tool as the filter and the servers know it *)
Definition from_server (originator server : str) (filter : ToolFilter) (t : ToolInfo) : Prop :=
  ti_server_name t = server /\ allows filter (rt_name (ti_tool t)) = true /\
  match ti_connector_id t with
  | Some id => server = CODEX_APPS_MCP_SERVER_NAME /\ is_connector_id_allowed_for_originator id originator = true
  | None => True
  end /\
  (server <> CODEX_APPS_MCP_SERVER_NAME -> ti_connector_name t = None /\ ti_connector_description t = None).

(** What a cache holds *)
Definition apps_only (tools : list ToolInfo) : Prop :=
  Forall (fun t => ti_server_name t = CODEX_APPS_MCP_SERVER_NAME) tools.

Lemma from_server_filter originator server filter tools :
  Forall (from_server originator server (mkToolFilter None ∅)) tools ->
  Forall (from_server originator server filter) (filter_tools tools filter).
Proof.
  rewrite !Forall_forall. intros H t [Ht Ha]%elem_of_filter_list. destruct (H t Ht) as (? & _ & ?). by split.
Qed.

Lemma from_server_any originator server t filter :
  from_server originator server filter t -> from_server originator server (mkToolFilter None ∅) t.
Proof. intros (H & _ & H'). split; [done|]. split; [done|exact H']. Qed.

Lemma tool_info_custom originator server instructions tool : server <> CODEX_APPS_MCP_SERVER_NAME ->
  from_server originator server (mkToolFilter None ∅) (tool_info_of server instructions tool).
Proof.
  intros N. unfold tool_info_of, sanitize_tool_connector_metadata. by rewrite bool_decide_eq_false_2.
Qed.

Lemma tool_info_server server instructions tool : ti_server_name (tool_info_of server instructions tool) = server.
Proof. unfold tool_info_of. by destruct (sanitize_tool_connector_metadata _ _). Qed.

Lemma apps_allowed originator tools : apps_only tools ->
  Forall (from_server originator CODEX_APPS_MCP_SERVER_NAME (mkToolFilter None ∅))
    (filter_disallowed_codex_apps_tools originator tools).
Proof.
  unfold apps_only. rewrite !Forall_forall. intros H t [Ht Ha]%elem_of_filter_list.
  split; [by apply H|]. split; [done|]. split; [|done]. by destruct (ti_connector_id t).
Qed.

Lemma uncached_from_server originator server list_tools instructions tools :
  list_tools_for_client_uncached originator server list_tools instructions = Ok tools ->
  Forall (from_server originator server (mkToolFilter None ∅)) tools.
Proof.
  unfold list_tools_for_client_uncached. intros (resp & _ & E)%result_bind_Ok. case_bool_decide as Es;
    injection E as <-.
  - subst server. apply apps_allowed. apply Forall_map, Forall_true. intros. apply tool_info_server.
  - apply Forall_map, Forall_true. intros. by apply tool_info_custom.
Qed.

(** The file of the cache, if it is there and can be parsed, was written by the
    program, for any originator, with tools that the built-in server listed. *)
Definition own_cache (from_slice : list N -> option (N * list ToolInfo))
    (to_vec_pretty : N * list ToolInfo -> option (list N)) (read : result bool (list N)) : Prop :=
  forall bytes, read = Ok bytes -> from_slice bytes = None \/
    exists originator list_tools instructions tools,
      list_tools_for_client_uncached originator CODEX_APPS_MCP_SERVER_NAME list_tools instructions = Ok tools /\
      write_cached_codex_apps_tools originator to_vec_pretty tools = Some bytes.

Definition cache_of_apps (from_slice : list N -> option (N * list ToolInfo)) (read : result bool (list N)) : Prop :=
  forall bytes v tools, read = Ok bytes -> from_slice bytes = Some (v, tools) -> apps_only tools.

Lemma own_cache_of_apps from_slice to_vec_pretty read :
  (forall v bytes, to_vec_pretty v = Some bytes -> from_slice bytes = Some v) ->
  own_cache from_slice to_vec_pretty read -> cache_of_apps from_slice read.
Proof.
  intros Hround Hown bytes v tools Hb Hv. destruct (Hown bytes Hb) as [?|(o & lt & ins & ts & Hl & Hw)]; [congruence|].
  apply Hround in Hw. rewrite Hw in Hv. injection Hv as <- <-. apply uncached_from_server in Hl.
  unfold apps_only. rewrite Forall_forall in Hl |- *. intros t [Ht _]%elem_of_filter_list. by apply (Hl t Ht).
Qed.

Lemma load_cached_allowed originator from_slice read tools :
  cache_of_apps from_slice read ->
  load_cached_codex_apps_tools originator from_slice read = Hit tools ->
  Forall (from_server originator CODEX_APPS_MCP_SERVER_NAME (mkToolFilter None ∅)) tools.
Proof.
  intros Happs. unfold load_cached_codex_apps_tools. destruct read as [bytes|[]]; [|done..].
  destruct (from_slice bytes) as [[v ts]|] eqn:E; [|done]. case_match; [done|]. intros [= <-].
  apply apps_allowed. by eapply Happs.
Qed.

Lemma annotate_from_server originator server filter provenance t :
  from_server originator server filter t -> from_server originator server filter (annotate_tool provenance t).
Proof.
  intros H. assert (rt_name (ti_tool (annotate_tool provenance t)) = rt_name (ti_tool t)) as E.
  { unfold annotate_tool, tool_with_model_visible_input_schema. repeat case_match; done. }
  assert (exists tool names, annotate_tool provenance t =
    mkToolInfo (ti_server_name t) (ti_callable_name t) (ti_callable_namespace t) (ti_server_instructions t) tool
      (ti_connector_id t) (ti_connector_name t) names (ti_connector_description t)) as (tool & names & Ea).
  { unfold annotate_tool. destruct (is_empty _); by eexists _, _. }
  unfold from_server in *. rewrite E, Ea. exact H.
Qed.

Lemma start_client_from_server originator server cfg cancelled initialized list_tools client :
  start_client originator server cfg cancelled initialized list_tools = Ok client ->
  mc_tool_filter client = tool_filter_of cfg /\
  mc_has_cache client = bool_decide (server = CODEX_APPS_MCP_SERVER_NAME) /\
  Forall (from_server originator server (tool_filter_of cfg)) (mc_tools client).
Proof.
  unfold start_client. destruct cancelled; [done|].
  intros (_ & _ & (instructions & _ & (tools & Ht & [= <-])%result_bind_Ok)%result_bind_Ok)%map_err_Ok%result_bind_Ok.
  cbn. split; [done|]. split; [done|]. apply from_server_filter. by eapply uncached_from_server.
Qed.

Section Listed.
Context (originator : str) (from_slice : list N -> option (N * list ToolInfo)).

Lemma new_client_listed provenance read server cfg inputs tools :
  cache_of_apps from_slice read ->
  (server = CODEX_APPS_MCP_SERVER_NAME -> cache_of_apps from_slice (in_cache inputs)) ->
  listed_tools provenance (load_cached_codex_apps_tools originator from_slice read)
    (async_client_new originator from_slice server cfg inputs) = Some tools ->
  Forall (from_server originator server (tool_filter_of cfg)) tools.
Proof.
  intros Hread Hstart. set (client := async_client_new _ _ _ _ _).
  assert (forall ts, ac_startup_snapshot client = Some ts ->
            Forall (from_server originator server (tool_filter_of cfg)) ts) as Hsnap.
  { subst client. cbn. unfold load_startup_cached_codex_apps_tools_snapshot. case_bool_decide as Es; [subst server|done].
    cbn. destruct (load_cached_codex_apps_tools _ _ _) as [ts'| |] eqn:E; [|done..]. intros ts [= <-].
    apply from_server_filter. eapply load_cached_allowed; [by apply Hstart|done]. }
  assert (forall ts, raw_tools (load_cached_codex_apps_tools originator from_slice read) client = Some ts ->
            Forall (from_server originator server (tool_filter_of cfg)) ts) as Hl.
  { intros ts. unfold raw_tools, startup_snapshot_while_initializing.
    destruct (if negb (ac_startup_complete client) then _ else None) as [ts'|] eqn:E.
    { intros [= <-]. destruct (negb _); [by apply Hsnap|done]. }
    destruct (ac_client client) as [m|e] eqn:Em; [intros [= <-]|apply Hsnap].
    apply start_client_from_server in Em as (Hf & Hc & Ht). unfold managed_listed_tools.
    destruct (load_cached_codex_apps_tools _ _ _) as [ts'| |] eqn:El; [|done..].
    rewrite Hc. case_bool_decide as Es; [|done]. subst server. rewrite Hf.
    apply from_server_filter. by eapply load_cached_allowed. }
  unfold listed_tools.
  destruct (raw_tools _ _) as [ts|]; [|done]. intros [= <-]. apply Forall_map.
  eapply Forall_impl; [by apply Hl|]. intros t. apply annotate_from_server.
Qed.
End Listed.

Lemma call_tool_sent {R} (send : str -> str -> anyhow R) clients server client tool :
  clients !! server = Some client ->
  forall m, ac_client client = Ok m ->
  call_tool send clients server tool =
    if allows (mc_tool_filter m) tool
    then with_context (lit "tool call failed for `" ++ server ++ lit "/" ++ tool ++ lit "`") (send server tool)
    else bail (lit "tool '" ++ tool ++ lit "' is disabled for MCP server '" ++ server ++ lit "'").
Proof.
  intros Hc m Hm. unfold call_tool, client_by_name. rewrite Hc, Hm. cbn. by destruct (allows _ _).
Qed.

(** C9: whatever servers answer, where the cache of the built-in server's tools, as
    it is found at start and when it is listed, is not there, cannot be parsed or
    was written by the program: a tool that is listed belongs to an enabled
    server of the configuration, whose lists let it be used; once the client of
    that server has started, a call of a tool is sent if its lists let it be
    used, and refused if not; a tool has a connector only if it comes from the
    built-in server, and one that is allowed; and under the name of the built-in
    server there is nothing else. *)
Theorem listed_tools_confined {R} (originator : str) (from_slice : list N -> option (N * list ToolInfo))
    (to_vec_pretty : N * list ToolInfo -> option (list N))
    (sha1_hex : str -> str) (send : str -> str -> anyhow R) (configured : gmap str McpServerConfig)
    (apps_enabled : bool) (uses_codex_backend : option bool) (world : str -> ServerInputs)
    (provenance : ToolPluginProvenance) (read : result bool (list N)) (fuel : nat) (listed : gmap str ToolInfo)
    (q : str) (t : ToolInfo) :
  (forall v bytes, to_vec_pretty v = Some bytes -> from_slice bytes = Some v) ->
  own_cache from_slice to_vec_pretty read ->
  own_cache from_slice to_vec_pretty (in_cache (world CODEX_APPS_MCP_SERVER_NAME)) ->
  let servers := with_codex_apps_mcp configured uses_codex_backend apps_enabled codex_apps_mcp_server_config in
  let clients := manager_clients originator from_slice servers world in
  list_all_tools sha1_hex fuel provenance (load_cached_codex_apps_tools originator from_slice read) clients = Some listed ->
  listed !! q = Some t ->
  exists cfg client, servers !! ti_server_name t = Some cfg /\ sc_enabled cfg = true /\
    clients !! ti_server_name t = Some client /\
    from_server originator (ti_server_name t) (tool_filter_of cfg) t /\
    (forall m tool, ac_client client = Ok m ->
       call_tool send clients (ti_server_name t) tool =
         if allows (tool_filter_of cfg) tool
         then with_context (lit "tool call failed for `" ++ ti_server_name t ++ lit "/" ++ tool ++ lit "`")
                (send (ti_server_name t) tool)
         else bail (lit "tool '" ++ tool ++ lit "' is disabled for MCP server '" ++ ti_server_name t ++ lit "'")) /\
    (ti_server_name t = CODEX_APPS_MCP_SERVER_NAME -> cfg = codex_apps_mcp_server_config /\
       apps_enabled = true /\ uses_codex_backend = Some true).
Proof.
  intros Hround Hread%own_cache_of_apps Hstart%own_cache_of_apps servers clients Hlist Hq; [|done..].
  destruct (qualify_tools_origin _ _ _ _ _ _ Hlist Hq) as (t0 & ns & n & Ht0 & ->).
  unfold all_listed in Ht0. apply list_elem_of_In, in_concat in Ht0 as (ts & Hts & Ht0).
  apply list_elem_of_In in Ht0. apply list_elem_of_In, list_elem_of_omap in Hts as ([server client] & Hc & Hts).
  apply elem_of_map_to_list in Hc. cbn [snd] in Hts.
  pose proof Hc as Hc'. unfold clients, manager_clients in Hc'. rewrite map_lookup_imap in Hc'.
  destruct (servers !! server) as [cfg|] eqn:Hcfg; [|done]. cbn [option_bind mbind] in Hc'.
  destruct (sc_enabled cfg) eqn:Hen; [|done]. injection Hc' as <-.
  pose proof (new_client_listed originator from_slice provenance read server cfg (world server) ts Hread
    (fun E => eq_rect_r (fun n => cache_of_apps from_slice (in_cache (world n))) Hstart E) Hts) as Hall. rewrite Forall_forall in Hall.
  destruct (Hall t0 Ht0) as (Es & Hrest). cbn [set_callable ti_server_name]. rewrite Es.
  exists cfg, (async_client_new originator from_slice server cfg (world server)).
  split; [done|]. split; [done|]. split; [done|]. split; [by split|]. split.
  - intros m tool Hm. rewrite (call_tool_sent send _ _ _ _ Hc m Hm).
    apply start_client_from_server in Hm as (-> & _). done.
  - intros ->. unfold servers, with_codex_apps_mcp in Hcfg.
    destruct apps_enabled, uses_codex_backend as [[]|]; cbn in Hcfg; rewrite ?lookup_insert_eq, ?lookup_delete_eq in Hcfg;
      by simplify_eq.
Qed.

(** *** Examples *)

Definition page_of (name : str) : RmcpTool := mkRmcpTool name None None [] None None.

Definition sample_servers : gmap str McpServerConfig :=
  {[lit "s" := mkServerConfig true None (Some [lit "rm"])]}.

#[global] Instance ToolInfo_eq_dec : EqDecision ToolInfo.
Proof.
  assert (EqDecision ToolAnnotations) by solve_decision. assert (EqDecision RmcpTool) by solve_decision. solve_decision.
Defined.

(** A cache in which the built-in server's tools were written, as bytes that
    stand for nothing else *)
Definition cached_tools : list ToolInfo :=
  [tool_info_of CODEX_APPS_MCP_SERVER_NAME None (page_of (lit "ls")); tool_info_of CODEX_APPS_MCP_SERVER_NAME None (page_of (lit "rm"))].
Definition sample_to_vec (v : N * list ToolInfo) : option (list N) :=
  if bool_decide (v = (CODEX_APPS_TOOLS_CACHE_SCHEMA_VERSION, cached_tools)) then Some [1%N] else None.
Definition sample_from_slice (bytes : list N) : option (N * list ToolInfo) :=
  if bool_decide (bytes = [1%N]) then Some (CODEX_APPS_TOOLS_CACHE_SCHEMA_VERSION, cached_tools) else None.

(** Both servers answer alike; the built-in one has not started when its tools
    are listed, so that they come from the cache. *)
Definition sample_world (server : str) : ServerInputs :=
  mkInputs false (Ok None) (fun _ => Ok ([page_of (lit "ls"); page_of (lit "rm")], None)) (Ok [1%N])
    (negb (server =? CODEX_APPS_MCP_SERVER_NAME)).

Definition sample_clients : gmap str AsyncManagedClient :=
  manager_clients [] sample_from_slice (with_codex_apps_mcp sample_servers (Some true) true codex_apps_mcp_server_config) sample_world.

Definition sample_send (server tool : str) : anyhow (str * str) := Ok (server, tool).

Lemma sample_own_cache : own_cache sample_from_slice sample_to_vec (Ok [1%N]).
Proof.
  intros bytes [= <-]. right. exists [], (fun _ => Ok ([page_of (lit "ls"); page_of (lit "rm")], None)), None, cached_tools.
  split; vm_compute; reflexivity.
Qed.

(** A tool of the custom server, and one that the cache gave *)
Lemma listed_tools_confined_witness :
  call_tool sample_send sample_clients (lit "s") (lit "ls") = Ok (lit "s", lit "ls") /\
  (exists e, call_tool sample_send sample_clients (lit "s") (lit "rm") = Err e) /\
  exists m t, list_all_tools toy_hash 3 (mkProvenance ∅ ∅) (load_cached_codex_apps_tools [] sample_from_slice (Ok [1%N])) sample_clients = Some m /\
    m !! lit "mcp__codex_apps__rm" = Some t /\
    from_server [] CODEX_APPS_MCP_SERVER_NAME (tool_filter_of codex_apps_mcp_server_config) t.
Proof.
  set (cached := load_cached_codex_apps_tools [] sample_from_slice (Ok [1%N])).
  set (m := default ∅ (list_all_tools toy_hash 3 (mkProvenance ∅ ∅) cached sample_clients)).
  assert (list_all_tools toy_hash 3 (mkProvenance ∅ ∅) cached sample_clients = Some m) as Hm by (by vm_compute).
  pose proof (fun q t => listed_tools_confined [] sample_from_slice sample_to_vec toy_hash sample_send sample_servers true
    (Some true) sample_world (mkProvenance ∅ ∅) (Ok [1%N]) 3 m q t) as H.
  assert (forall v bytes, sample_to_vec v = Some bytes -> sample_from_slice bytes = Some v) as Hround.
  { intros v bytes. unfold sample_to_vec. case_bool_decide as E; [|done]. intros [= <-]. by rewrite E. }
  specialize (fun q t => H q t Hround sample_own_cache sample_own_cache Hm).
  assert (exists t, m !! lit "mcp__s__ls" = Some t /\ ti_server_name t = lit "s") as (t & Ht & Es).
  { eexists. split; vm_compute; reflexivity. }
  assert (exists t, m !! lit "mcp__codex_apps__rm" = Some t /\ ti_server_name t = CODEX_APPS_MCP_SERVER_NAME) as (t' & Ht' & Es').
  { eexists. split; vm_compute; reflexivity. }
  destruct (H _ t Ht) as (cfg & client & Hcfg & _ & Hc & _ & Hcall & _).
  destruct (H _ t' Ht') as (cfg' & client' & Hcfg' & _ & _ & Hfrom & _ & Happs).
  rewrite Es in *. vm_compute in Hcfg. injection Hcfg as <-.
  assert (exists managed, ac_client client = Ok managed) as (managed & Hmc).
  { vm_compute in Hc. injection Hc as <-. by eexists. }
  split; [|split].
  - etransitivity; [exact (Hcall managed (lit "ls") Hmc)|]. by vm_compute.
  - eexists. etransitivity; [exact (Hcall managed (lit "rm") Hmc)|]. by vm_compute.
  - exists m, t'. split; [exact Hm|]. split; [exact Ht'|]. rewrite Es' in Hfrom. destruct (Happs Es') as [<- _]. exact Hfrom.
Defined.

(** Cursors that come back, but not at once, are not found out: such a server
    keeps the loop going for ever. *)
Definition pendulum (cursor : option str) : anyhow (page str) :=
  Ok ([lit "r"], Some (if bool_decide (cursor = Some (lit "a")) then lit "b" else lit "a")).

Lemma returning_cursors_never_end (method : str) (fuel : nat) :
  list_pages method pendulum fuel None [] = None.
Proof.
  enough (forall cursor collected, cursor ∈ [None; Some (lit "a"); Some (lit "b")] ->
    list_pages method pendulum fuel cursor collected = None) as H by (apply H; constructor).
  induction fuel as [|fuel IH]; intros cursor collected Hc; [done|].
  apply elem_of_cons in Hc as [->|[->|[->|[]%elem_of_nil]%elem_of_cons]%elem_of_cons];
    cbn [list_pages pendulum]; apply IH; repeat constructor.
Qed.

Definition two_pages (cursor : option str) : result str (page RmcpTool) :=
  match cursor with
  | None => Ok ([page_of (lit "first")], Some (lit "more"))
  | Some _ => Ok ([page_of (lit "second")], None)
  end.

(** Of the tools only the first page is read. *)
Example later_pages_not_read : map ti_callable_name <$>
  match list_tools_for_client_uncached [] (lit "s") two_pages None with Ok tools => Some tools | Err _ => None end =
  Some [lit "first"].
Proof. reflexivity. Qed.
