(* ===== verification/McpApps.v ===== *)
(** * McpApps: which tools of apps and servers may be used, and how

    The policy of apps ([core/src/connectors.rs], [config/src/types.rs]) and of
    MCP servers for their tools, the permission prompts of servers
    ([codex-mcp/src/mcp/mod.rs], [elicitation.rs]), and the templates of
    questions ([core/src/mcp_tool_approval_templates.rs]). *)

From S2P Require Import Prelude BTree ConfigLayers TextSearch Paths HostPaths Permissions Requirements McpTools.
Local Open Scope str_scope.

Inductive AppToolApproval : Type := ModeAuto | ModePrompt | ModeApprove.
#[global] Instance AppToolApproval_eq_dec : EqDecision AppToolApproval.
Proof. solve_decision. Defined.

(** ** The policy of apps *)

Record AppsDefaultConfig : Type := mkAppsDefault {
  ad_enabled : bool;
  ad_destructive_enabled : bool;
  ad_open_world_enabled : bool;
}.

Record AppToolConfig : Type := mkAppToolConfig {
  at_enabled : option bool;
  at_approval_mode : option AppToolApproval;
}.

Record AppConfig : Type := mkAppConfig {
  ac_enabled : bool;
  ac_destructive_enabled : option bool;
  ac_open_world_enabled : option bool;
  ac_default_tools_approval_mode : option AppToolApproval;
  ac_default_tools_enabled : option bool;
  ac_tools : option (gmap str AppToolConfig);
}.

(** [AppConfig::default()], which is not what serde gives an empty table *)
Definition app_config_default : AppConfig := mkAppConfig false None None None None None.

Record AppsConfigToml : Type := mkAppsConfig {
  apps_default : option AppsDefaultConfig;
  apps_apps : gmap str AppConfig;
}.

Record AppToolPolicy : Type := mkAppToolPolicy { tp_enabled : bool; tp_approval : AppToolApproval }.

Definition app_tool_policy_default : AppToolPolicy := mkAppToolPolicy true ModeAuto.

Definition set_app_enabled (enabled : bool) (app : AppConfig) : AppConfig :=
  mkAppConfig enabled (ac_destructive_enabled app) (ac_open_world_enabled app) (ac_default_tools_approval_mode app)
    (ac_default_tools_enabled app) (ac_tools app).

Definition apply_requirement (apps : gmap str AppConfig) (requirement : str * AppRequirementToml) : gmap str AppConfig :=
  let '(app_id, requirement) := requirement in
  if negb (bool_decide (app_enabled requirement = Some false)) then apps
  else <[app_id := set_app_enabled false (default app_config_default (apps !! app_id))]> apps.

Definition apply_requirements_apps_constraints (apps_config : AppsConfigToml)
    (requirements_apps_config : option AppsRequirementsToml) : AppsConfigToml :=
  match requirements_apps_config with
  | None => apps_config
  | Some requirements =>
      mkAppsConfig (apps_default apps_config)
        (fold_left apply_requirement (apps_entries requirements) (apps_apps apps_config))
  end.

Definition read_apps_config (user_apps_config : option AppsConfigToml)
    (requirements : option AppsRequirementsToml) : option AppsConfigToml :=
  let had_apps_config := bool_decide (is_Some user_apps_config) in
  let apps_config :=
    apply_requirements_apps_constraints (default (mkAppsConfig None ∅) user_apps_config) requirements in
  if had_apps_config || bool_decide (is_Some (apps_default apps_config))
     || negb (is_empty (map_to_list (apps_apps apps_config)))
  then Some apps_config else None.

Definition app_is_enabled (apps_config : AppsConfigToml) (connector_id : option str) : bool :=
  let default_enabled := default true (ad_enabled <$> apps_default apps_config) in
  default default_enabled (ac_enabled <$> (connector_id ≫= fun id => apps_apps apps_config !! id)).

Definition first_of {A} (x y : option A) : option A := match x with Some _ => x | None => y end.

Definition app_tool_policy_from_apps_config (apps_config : option AppsConfigToml) (connector_id : option str)
    (tool_name : str) (tool_title : option str) (annotations : option ToolAnnotations) : AppToolPolicy :=
  match apps_config with
  | None => app_tool_policy_default
  | Some apps_config =>
      let app := connector_id ≫= fun id => apps_apps apps_config !! id in
      let tools := app ≫= ac_tools in
      let tool_config :=
        tools ≫= fun tools => first_of (tools !! tool_name) (tool_title ≫= fun title => tools !! title) in
      let approval :=
        default ModeAuto (first_of (tool_config ≫= at_approval_mode) (app ≫= ac_default_tools_approval_mode)) in
      if negb (app_is_enabled apps_config connector_id) then mkAppToolPolicy false approval
      else
        match tool_config ≫= at_enabled with
        | Some enabled => mkAppToolPolicy enabled approval
        | None =>
            match app ≫= ac_default_tools_enabled with
            | Some enabled => mkAppToolPolicy enabled approval
            | None =>
                let app_defaults := apps_default apps_config in
                let destructive_enabled :=
                  default (default true (ad_destructive_enabled <$> app_defaults)) (app ≫= ac_destructive_enabled) in
                let open_world_enabled :=
                  default (default true (ad_open_world_enabled <$> app_defaults)) (app ≫= ac_open_world_enabled) in
                let destructive_hint := default true (annotations ≫= destructive_hint) in
                let open_world_hint := default true (annotations ≫= open_world_hint) in
                mkAppToolPolicy
                  ((destructive_enabled || negb destructive_hint) && (open_world_enabled || negb open_world_hint))
                  approval
            end
        end
  end.

Definition app_tool_policy (user_apps_config : option AppsConfigToml) (requirements : option AppsRequirementsToml)
    (connector_id : option str) (tool_name : str) (tool_title : option str)
    (annotations : option ToolAnnotations) : AppToolPolicy :=
  app_tool_policy_from_apps_config (read_apps_config user_apps_config requirements)
    connector_id tool_name tool_title annotations.

Definition codex_app_tool_is_enabled (user_apps_config : option AppsConfigToml)
    (requirements : option AppsRequirementsToml) (tool_info : ToolInfo) : bool :=
  if negb (ti_server_name tool_info =? CODEX_APPS_MCP_SERVER_NAME) then true
  else
    tp_enabled (app_tool_policy user_apps_config requirements (ti_connector_id tool_info)
      (rt_name (ti_tool tool_info)) (rt_title (ti_tool tool_info)) (rt_annotations (ti_tool tool_info))).

(** The fields of [AppInfo] that are looked at or set *)
Record AppInfo : Type := mkAppInfo { app_id : str; app_is_enabled_flag : bool }.

Definition with_app_enabled_state (connectors : list AppInfo) (user_apps_config : option AppsConfigToml)
    (requirements : option AppsRequirementsToml) : list AppInfo :=
  match user_apps_config, requirements with
  | None, None => connectors
  | _, _ =>
      map (fun connector =>
        let enabled :=
          match user_apps_config with
          | Some apps_config =>
              if bool_decide (is_Some (apps_default apps_config))
                 || bool_decide (is_Some (apps_apps apps_config !! app_id connector))
              then app_is_enabled apps_config (Some (app_id connector)) else app_is_enabled_flag connector
          | None => app_is_enabled_flag connector
          end in
        let refused :=
          match requirements ≫= fun apps => tbl_get (app_id connector) (apps_entries apps) with
          | Some app => bool_decide (app_enabled app = Some false)
          | None => false
          end in
        mkAppInfo (app_id connector) (if refused then false else enabled)) connectors
  end.

(** ** Tools of MCP servers *)

(** What [McpServerConfig] says about approval *)
Record McpServerApprovals : Type := mkServerApprovals {
  sa_tools : gmap str (option AppToolApproval);
  sa_default_tools_approval_mode : option AppToolApproval;
}.

(** [servers] is the table of servers of the configuration, if it is one. *)
Definition custom_mcp_tool_approval_mode (servers : option (gmap str McpServerApprovals)) (server tool_name : str)
    : AppToolApproval :=
  default ModeAuto (
    servers ← servers;
    server_config ← servers !! server;
    first_of (tool ← sa_tools server_config !! tool_name; tool) (sa_default_tools_approval_mode server_config)).

(** [matches!] on the hints *)
Definition requires_mcp_tool_approval (annotations : option ToolAnnotations) : bool :=
  let destructive := annotations ≫= destructive_hint in
  if bool_decide (destructive = Some true) then true
  else if default false (annotations ≫= read_only_hint) then false
  else default true destructive || default true (annotations ≫= open_world_hint).

(** ** Prompts of servers *)

Definition is_never (policy : AskForApproval) : bool := match policy with Never => true | _ => false end.

Definition mcp_permission_prompt_is_auto_approved (approval_policy : AskForApproval)
    (permission_profile : PermissionProfile) : bool :=
  if negb (is_never approval_policy) then false
  else
    match permission_profile with
    | Disabled | External _ => true
    | Managed file_system _ => has_full_disk_write_access (to_sandbox_policy file_system)
    end.

Definition elicitation_is_rejected_by_policy (approval_policy : AskForApproval) : bool :=
  match approval_policy with
  | Never => true
  | OnFailure | OnRequest | UnlessTrusted => false
  | Granular granular_config => negb (mcp_elicitations granular_config)
  end.

(** [CreateElicitationRequestParams]: the properties of a form's schema *)
Inductive CreateElicitation : Type :=
| FormElicitation (message : str) (properties : list str)
| UrlElicitation (message url elicitation_id : str).

Definition can_auto_accept_elicitation (elicitation : CreateElicitation) : bool :=
  match elicitation with
  | FormElicitation _ properties => is_empty properties
  | UrlElicitation _ _ _ => false
  end.

Inductive ElicitationAction : Type := ElicitAccept | ElicitDecline | ElicitCancel.

Record ElicitationResponse : Type := mkElicitationResponse {
  er_action : ElicitationAction;
  er_content : option JsonValue;
  er_meta : option JsonValue;
}.

Inductive RequestId : Type := NumberId (n : Z) | StringId (s : str).
#[global] Instance RequestId_eq_dec : EqDecision RequestId.
Proof. solve_decision. Defined.
#[global] Instance RequestId_countable : Countable RequestId.
Proof.
  apply (inj_countable' (fun id => match id with NumberId n => inl n | StringId s => inr s end)
           (fun x => match x with inl n => NumberId n | inr s => StringId s end)). by intros [].
Defined.

(** The requests that wait for an answer; [W] are those who wait. *)
Record ElicitationRequestManager (W : Type) : Type := mkElicitations {
  em_requests : gmap (str * RequestId) W;
  em_approval_policy : AskForApproval;
  em_permission_profile : PermissionProfile;
}.
Arguments mkElicitations {W}. Arguments em_requests {W}. Arguments em_approval_policy {W}.
Arguments em_permission_profile {W}.

Section Elicitations.
Context {W : Type}.
Implicit Types m : ElicitationRequestManager W.

(** What the server is told at once, or that the user is asked *)
Definition send_elicitation (m : ElicitationRequestManager W) (server_name : str) (id : RequestId)
    (elicitation : CreateElicitation) (waiter : W) : option ElicitationResponse * ElicitationRequestManager W :=
  if mcp_permission_prompt_is_auto_approved (em_approval_policy m) (em_permission_profile m)
     && can_auto_accept_elicitation elicitation
  then (Some (mkElicitationResponse ElicitAccept (Some (JObject [])) None), m)
  else if elicitation_is_rejected_by_policy (em_approval_policy m)
  then (Some (mkElicitationResponse ElicitDecline None None), m)
  else
    (None, mkElicitations (<[(server_name, id) := waiter]> (em_requests m)) (em_approval_policy m)
             (em_permission_profile m)).

(** [resolve]: the waiter that gets the response *)
Definition resolve_elicitation (m : ElicitationRequestManager W) (server_name : str) (id : RequestId)
    : option W * ElicitationRequestManager W :=
  match em_requests m !! (server_name, id) with
  | None => (None, m)
  | Some waiter =>
      (Some waiter, mkElicitations (delete (server_name, id) (em_requests m)) (em_approval_policy m)
                      (em_permission_profile m))
  end.

Definition set_approval_policy (m : ElicitationRequestManager W) (policy : AskForApproval) : ElicitationRequestManager W :=
  mkElicitations (em_requests m) policy (em_permission_profile m).

Definition set_permission_profile (m : ElicitationRequestManager W) (profile : PermissionProfile)
    : ElicitationRequestManager W :=
  mkElicitations (em_requests m) (em_approval_policy m) profile.
End Elicitations.

(** ** Templates of questions *)

Record ConsequentialToolTemplateParam : Type := mkTemplateParam { tpl_name : str; tpl_label : str }.

Record ConsequentialToolMessageTemplate : Type := mkTemplate {
  tm_connector_id : str;
  tm_server_name : str;
  tm_tool_title : str;
  tm_template : str;
  tm_template_params : list ConsequentialToolTemplateParam;
}.

Record RenderedMcpToolApprovalParam : Type := mkRenderedParam {
  rp_name : str;
  rp_value : JsonValue;
  rp_display_name : str;
}.

Record RenderedMcpToolApprovalTemplate : Type := mkRendered {
  rd_question : str;
  rd_elicitation_message : str;
  rd_tool_params : option JsonValue;
  rd_tool_params_display : list RenderedMcpToolApprovalParam;
}.

Definition CONSEQUENTIAL_TOOL_MESSAGE_TEMPLATES_SCHEMA_VERSION : N := 4.

(** [file] is the built-in file of templates, if it can be read. *)
Definition load_consequential_tool_message_templates (file : option (N * list ConsequentialToolMessageTemplate))
    : option (list ConsequentialToolMessageTemplate) :=
  file ← file;
  if negb (file.1 =? CONSEQUENTIAL_TOOL_MESSAGE_TEMPLATES_SCHEMA_VERSION)%N then None else Some file.2.

Definition CONNECTOR_NAME_TEMPLATE_VAR : str := lit "{connector_name}".

(** [str::replace], for a pattern that is not empty; [skip] characters of the
    last match are still to be passed. *)
Fixpoint replace_all (skip : nat) (pattern to s : str) : str :=
  match s with
  | [] => []
  | c :: s' =>
      match skip with
      | S skip => replace_all skip pattern to s'
      | 0%nat =>
          if starts_with s pattern then to ++ replace_all (length pattern - 1) pattern to s'
          else c :: replace_all 0 pattern to s'
      end
  end.

Definition render_question_template (template : str) (connector_name : option str) : option str :=
  let template := trim template in
  if is_empty template then None
  else if contains template CONNECTOR_NAME_TEMPLATE_VAR then
    connector_name ← non_empty (trim <$> connector_name);
    Some (replace_all 0 CONNECTOR_NAME_TEMPLATE_VAR connector_name template)
  else Some template.

(** The state of [render_tool_params]: what is displayed, under which names, and
    which parameters the template has taken care of *)
Definition display_state : Type := list RenderedMcpToolApprovalParam * gset str * gset str.

Fixpoint render_template_params (tool_params : JsonMap) (template_params : list ConsequentialToolTemplateParam)
    (st : display_state) : option display_state :=
  match template_params with
  | [] => Some st
  | template_param :: template_params =>
      let '(display_params, display_names, handled_names) := st in
      let label := trim (tpl_label template_param) in
      if is_empty label then None
      else
        match tbl_get (tpl_name template_param) tool_params with
        | None => render_template_params tool_params template_params st
        | Some value =>
            if bool_decide (label ∈ display_names) then None
            else
              render_template_params tool_params template_params
                (display_params ++ [mkRenderedParam (tpl_name template_param) value label],
                 {[label]} ∪ display_names, {[tpl_name template_param]} ∪ handled_names)
        end
  end.

Fixpoint render_remaining_params (remaining_params : JsonMap) (display_params : list RenderedMcpToolApprovalParam)
    (display_names : gset str) : option (list RenderedMcpToolApprovalParam) :=
  match remaining_params with
  | [] => Some display_params
  | (name, value) :: remaining_params =>
      if bool_decide (name ∈ display_names) then None
      else render_remaining_params remaining_params (display_params ++ [mkRenderedParam name value name])
             ({[name]} ∪ display_names)
  end.

Definition by_name (left right : str * JsonValue) : bool := str_leb left.1 right.1.

Definition render_tool_params (tool_params : JsonMap) (template_params : list ConsequentialToolTemplateParam)
    : option (option JsonValue * list RenderedMcpToolApprovalParam) :=
  '(display_params, display_names, handled_names) ← render_template_params tool_params template_params ([], ∅, ∅);
  let remaining_params :=
    sort_by by_name (List.filter (fun kv => negb (bool_decide (kv.1 ∈ handled_names))) tool_params) in
  display_params ← render_remaining_params remaining_params display_params display_names;
  Some (Some (JObject tool_params), display_params).

Definition render_mcp_tool_approval_template_from_templates (templates : list ConsequentialToolMessageTemplate)
    (server_name : str) (connector_id connector_name tool_title : option str) (tool_params : option JsonValue)
    : option RenderedMcpToolApprovalTemplate :=
  connector_id ← connector_id;
  tool_title ← non_empty (trim <$> tool_title);
  template ← List.find (fun template =>
    (tm_server_name template =? server_name) && (tm_connector_id template =? connector_id)
    && (tm_tool_title template =? tool_title)) templates;
  elicitation_message ← render_question_template (tm_template template) connector_name;
  '(tool_params, tool_params_display) ←
    match tool_params with
    | Some (JObject tool_params) => render_tool_params tool_params (tm_template_params template)
    | Some _ => None
    | None => Some (None, [])
    end;
  Some (mkRendered elicitation_message elicitation_message tool_params tool_params_display).

Definition build_mcp_tool_approval_display_params (tool_params : option JsonValue)
    : option (list RenderedMcpToolApprovalParam) :=
  tool_params ← tool_params ≫= as_object;
  Some (map (fun kv => mkRenderedParam kv.1 kv.2 kv.1) (sort_by by_name tool_params)).

(** ** Apps that requirements refuse *)

Definition app_refused (apps : gmap str AppConfig) (id : str) : Prop :=
  exists app, apps !! id = Some app /\ ac_enabled app = false.

Lemma apply_requirement_keeps apps requirement id : app_refused apps id -> app_refused (apply_requirement apps requirement) id.
Proof.
  intros (app & H & E). destruct requirement as [id' r]. cbn. case_bool_decide; cbn; [|by exists app].
  destruct (decide (id' = id)) as [->|N].
  - rewrite H. eexists. by rewrite lookup_insert_eq.
  - exists app. by rewrite lookup_insert_ne.
Qed.

Lemma apply_requirements_keep entries apps id : app_refused apps id -> app_refused (fold_left apply_requirement entries apps) id.
Proof. revert apps. induction entries; intros apps H; [done|]. cbn. auto using apply_requirement_keeps. Qed.

Lemma apply_requirements_refuse entries apps id r :
  (id, r) ∈ entries -> app_enabled r = Some false -> app_refused (fold_left apply_requirement entries apps) id.
Proof.
  intros Hin Hr. revert apps. induction entries as [|e es IH]; intros apps; [by apply elem_of_nil in Hin|].
  apply elem_of_cons in Hin as [<-|Hin]; cbn [fold_left]; [|by apply IH].
  apply apply_requirements_keep. cbn. rewrite bool_decide_eq_true_2 by done. cbn.
  eexists. by rewrite lookup_insert_eq.
Qed.

Lemma refused_policy config id tool_name tool_title annotations :
  app_refused (apps_apps config) id ->
  tp_enabled (app_tool_policy_from_apps_config (Some config) (Some id) tool_name tool_title annotations) = false.
Proof.
  intros (app & H & E). unfold app_tool_policy_from_apps_config, app_is_enabled. cbn. rewrite H. cbn. by rewrite E.
Qed.

(** Apps that the requirements disable stay disabled whatever the user
    configures, for each of their tools, by name or title, and in the list of
    connectors. *)
Theorem refused_app_stays_disabled (user_apps_config : option AppsConfigToml) (requirements : AppsRequirementsToml)
    (id : str) (connectors : list AppInfo) :
  sorted_tbl (apps_entries requirements) -> (id, mkApp (Some false)) ∈ apps_entries requirements ->
  (forall tool_name tool_title annotations,
     tp_enabled (app_tool_policy user_apps_config (Some requirements) (Some id) tool_name tool_title annotations) = false) /\
  (forall info, ti_server_name info = CODEX_APPS_MCP_SERVER_NAME -> ti_connector_id info = Some id ->
     codex_app_tool_is_enabled user_apps_config (Some requirements) info = false) /\
  (forall connector, connector ∈ with_app_enabled_state connectors user_apps_config (Some requirements) ->
     app_id connector = id -> app_is_enabled_flag connector = false).
Proof.
  intros Hs Hin.
  assert (forall tool_name tool_title annotations,
    tp_enabled (app_tool_policy user_apps_config (Some requirements) (Some id) tool_name tool_title annotations) = false) as Hp.
  { intros. unfold app_tool_policy, read_apps_config. cbn [apply_requirements_apps_constraints apps_apps apps_default].
    set (apps := fold_left _ _ _). assert (app_refused apps id) as Hr by (by eapply apply_requirements_refuse).
    assert (is_empty (map_to_list apps) = false) as ->.
    { apply is_empty_false. intros E. apply map_to_list_empty_iff in E. destruct Hr as (app & Hr & _).
      by rewrite E, lookup_empty in Hr. }
    rewrite orb_true_r. by apply refused_policy. }
  split; [done|]. split.
  - intros info Hn Hid. unfold codex_app_tool_is_enabled. rewrite bool_decide_eq_true_2 by done. cbn. by rewrite Hid, Hp.
  - intros connector Hc <-. apply (sorted_get _ _ _ Hs) in Hin.
    unfold with_app_enabled_state in Hc. destruct user_apps_config as [config|].
    all: apply list_elem_of_fmap in Hc as (c & Ec & _); pose proof (f_equal app_id Ec) as Ei; cbn in Ei.
    all: cbn [option_bind mbind] in Ec; rewrite <- Ei, Hin in Ec; cbn in Ec; rewrite bool_decide_eq_true_2 in Ec by done.
    all: exact (f_equal app_is_enabled_flag Ec).
Qed.

Lemma refused_app_stays_disabled_witness :
  tp_enabled (app_tool_policy (Some (mkAppsConfig None {[lit "mail" := mkAppConfig true (Some true) (Some true) None (Some true) None]}))
    (Some (mkApps [(lit "mail", mkApp (Some false))])) (Some (lit "mail")) (lit "send") None None) = false.
Proof.
  refine (proj1 (refused_app_stays_disabled _ (mkApps [(lit "mail", mkApp (Some false))]) (lit "mail") [] _ _) _ _ _).
  - apply (SSorted_cons _ (SSorted_nil _)). constructor.
  - constructor.
Defined.

(** A tool that only reads, and says no more, counts as destructive for the
    setting, though not for approval. *)
Example reading_tool_disabled :
  let reads := mkAnnotations None (Some true) (Some false) in
  let config := mkAppsConfig (Some (mkAppsDefault true false true)) ∅ in
  tp_enabled (app_tool_policy (Some config) None (Some (lit "mail")) (lit "list") None (Some reads)) = false /\
  requires_mcp_tool_approval (Some reads) = false.
Proof. by vm_compute. Qed.

(** ** What a question shows *)

Definition shows (ds : list RenderedMcpToolApprovalParam) (name : str) (value : JsonValue) : Prop :=
  exists d, d ∈ ds /\ rp_name d = name /\ rp_value d = value.

(** The names taken are those displayed, each once. *)
Definition names_ok (ds : list RenderedMcpToolApprovalParam) (display_names : gset str) : Prop :=
  NoDup (map rp_display_name ds) /\ forall x, x ∈ display_names <-> x ∈ map rp_display_name ds.

Lemma names_ok_snoc ds names d : names_ok ds names -> rp_display_name d ∉ names ->
  names_ok (ds ++ [d]) ({[rp_display_name d]} ∪ names).
Proof.
  intros [Hn Hs] Hd. split.
  - rewrite map_app, NoDup_app. split; [done|]. split; [|apply NoDup_singleton].
    intros x Hx ->%list_elem_of_singleton. by apply Hd, Hs.
  - intros x. rewrite map_app; cbn [map]; rewrite elem_of_app, elem_of_union, Hs, list_elem_of_singleton, elem_of_singleton. tauto.
Qed.

Lemma render_template_params_spec params tps ds names handled ds' names' handled' :
  render_template_params params tps (ds, names, handled) = Some (ds', names', handled') ->
  names_ok ds names ->
  (forall x, x ∈ handled <-> x ∈ map rp_name ds) ->
  (forall name value, shows ds name value -> tbl_get name params = Some value) ->
  names_ok ds' names' /\ (forall x, x ∈ handled' <-> x ∈ map rp_name ds') /\
  (forall name value, shows ds' name value -> tbl_get name params = Some value).
Proof.
  revert ds names handled. induction tps as [|tp tps IH]; intros ds names handled; cbn [render_template_params].
  { by intros [= <- <- <-]. }
  destruct (is_empty _); [done|]. destruct (tbl_get _ _) as [value|] eqn:Ev; [|apply IH].
  case_bool_decide as Hl; [done|]. intros H Hn Hh Hs. apply (IH _ _ _ H).
  - exact (names_ok_snoc ds names (mkRenderedParam (tpl_name tp) value (trim (tpl_label tp))) Hn Hl).
  - intros x. rewrite map_app; cbn [map]; rewrite elem_of_app, elem_of_union, Hh, list_elem_of_singleton, elem_of_singleton. cbn. tauto.
  - intros n v (d & [Hd| ->%list_elem_of_singleton]%elem_of_app & <- & <-); [apply Hs; by exists d|done].
Qed.

Lemma render_remaining_spec rest ds names ds' :
  render_remaining_params rest ds names = Some ds' -> names_ok ds names ->
  NoDup (map rp_display_name ds') /\
  forall name value, shows ds' name value <-> shows ds name value \/ (name, value) ∈ rest.
Proof.
  revert ds names. induction rest as [|[n v] rest IH]; intros ds names; cbn [render_remaining_params].
  { intros [= <-] [Hn _]. split; [done|]. intros. rewrite elem_of_nil. tauto. }
  case_bool_decide as Hl; [done|]. intros H Hn.
  destruct (IH _ _ H (names_ok_snoc ds names (mkRenderedParam n v n) Hn Hl)) as [Hnd Hs].
  split; [done|]. intros name value. rewrite Hs, elem_of_cons. split.
  - intros [(d & [Hd| ->%list_elem_of_singleton]%elem_of_app & <- & <-)|Hr]; [left; by exists d|right; by left|tauto].
  - intros [(d & Hd & E)|[[= -> ->]|Hr]]; [left; exists d; rewrite elem_of_app; tauto| |tauto].
    left. eexists. split; [apply elem_of_app; right; constructor|done].
Qed.

(** A question from a template hides nothing: it shows every parameter of the
    call with its value, and nothing else, under labels that are all
    different. *)
Theorem rendered_params_complete (tool_params : JsonMap) (template_params : list ConsequentialToolTemplateParam)
    shown_params display :
  sorted_tbl tool_params ->
  render_tool_params tool_params template_params = Some (shown_params, display) ->
  shown_params = Some (JObject tool_params) /\ NoDup (map rp_display_name display) /\
  forall name value, shows display name value <-> (name, value) ∈ tool_params.
Proof.
  intros Hsorted. unfold render_tool_params.
  destruct (render_template_params _ _ _) as [[[ds names] handled]|] eqn:Et; [|done]. cbn [mbind option_bind].
  destruct (render_remaining_params _ _ _) as [ds'|] eqn:Er; [|done]. intros [= <- <-].
  apply render_template_params_spec in Et as (Hn & Hh & Hs).
  2: { split; [constructor|]. intros x. set_solver. }
  2: { intros x. set_solver. }
  2: { by intros n v (d & ?%elem_of_nil & _). }
  apply render_remaining_spec in Er as [Hnd Hshows]; [|done]. split; [done|]. split; [done|].
  intros name value. rewrite Hshows, sort_by_perm, elem_of_filter_list. cbn [fst].
  rewrite negb_true_iff, bool_decide_eq_false, Hh, <- (sorted_get _ _ _ Hsorted). split.
  - intros [?|[? _]]; auto.
  - intros Hg. destruct (decide (name ∈ map rp_name ds)) as [Hin|Hnot]; [left|by right].
    apply list_elem_of_fmap in Hin as (d & En & Hd). exists d. split; [done|]. split; [done|].
    enough (Some (rp_value d) = Some value) as [=] by done.
    rewrite <- Hg. symmetry. apply Hs. by exists d.
Qed.

Lemma rendered_params_complete_witness :
  let params := [(lit "body", JString (lit "hi")); (lit "to", JString (lit "bob"))] in
  exists display, render_tool_params params [mkTemplateParam (lit "to") (lit "Recipient")]
                    = Some (Some (JObject params), display) /\
    shows display (lit "body") (JString (lit "hi")).
Proof.
  intros params. destruct (render_tool_params params [mkTemplateParam (lit "to") (lit "Recipient")])
    as [[shown display]|] eqn:E; [|by vm_compute in E].
  destruct (rendered_params_complete params [mkTemplateParam (lit "to") (lit "Recipient")] shown display) as (-> & _ & Hs).
  - apply (bool_decide_unpack _). by vm_compute.
  - exact E.
  - exists display. split; [done|]. apply Hs. constructor.
Defined.
