(* ===== verification/McpApproval.v ===== *)
(** * McpApproval: calls of MCP tools, and who is asked about them

    [core/src/mcp_tool_call.rs], with the monitor of [arc_monitor.rs] and the files
    of [mcp_openai_file.rs] that arguments name: what
    stands between a call of the model and the server.  What the outside
    answers, the monitor, hooks, the guardian, the user and the store of the
    session's approvals, are calls of a program. *)

From S2P Require Import Prelude Decimal Paths BTree ConfigLayers HostPaths Permissions PatchSafety Programs Orchestrator.
From S2P Require Import DomainPolicy McpTools McpApps.
Local Open Scope str_scope.

(** ** Data *)

Record McpInvocation : Type := mkInvocation {
  iv_server : str;
  iv_tool : str;
  iv_arguments : option JsonValue;
}.

Record McpToolApprovalMetadata : Type := mkMetadata {
  md_annotations : option ToolAnnotations;
  md_connector_id : option str;
  md_connector_name : option str;
  md_connector_description : option str;
  md_tool_title : option str;
  md_tool_description : option str;
  md_mcp_app_resource_uri : option str;
  md_codex_apps_meta : option JsonMap;
  md_openai_file_input_params : option (list str);
}.

Inductive McpToolApprovalDecision : Type :=
| McpAccept
| McpAcceptForSession
| McpAcceptAndRemember
| McpDecline (message : option str)
| McpCancel
| BlockedBySafetyMonitor (message : str).

Record McpToolApprovalKey : Type := mkApprovalKey {
  mk_server : str;
  mk_connector_id : option str;
  mk_tool_name : str;
}.

#[global] Instance McpInvocation_eq_dec : EqDecision McpInvocation.
Proof. solve_decision. Defined.
#[global] Instance McpToolApprovalKey_eq_dec : EqDecision McpToolApprovalKey.
Proof. solve_decision. Defined.

Record McpToolApprovalPromptOptions : Type := mkPromptOptions {
  allow_session_remember : bool;
  allow_persistent_approval : bool;
}.

Inductive ArcMonitorOutcome : Type := ArcOk | SteerModel (reason : str) | AskUser (reason : str).

(** What the monitor's service answers *)
Inductive ArcMonitorResultOutcome : Type := ResultOk | ResultSteerModel | ResultAskUser.
Record ArcMonitorResult : Type := mkArcResult {
  arc_outcome : ArcMonitorResultOutcome;
  arc_short_reason : str;
  arc_rationale : str;
}.

(** [GuardianApprovalRequest::McpToolCall] *)
Record GuardianMcpToolCall : Type := mkGuardianCall {
  gr_id : str;
  gr_invocation : McpInvocation;
  gr_connector_id : option str;
  gr_connector_name : option str;
  gr_connector_description : option str;
  gr_tool_title : option str;
  gr_tool_description : option str;
  gr_annotations : option ToolAnnotations;
}.

Record QuestionOption : Type := mkQuestionOption { qo_label : str; qo_description : str }.
Record RequestUserInputQuestion : Type := mkQuestion {
  qu_id : str;
  qu_header : str;
  qu_question : str;
  qu_options : list QuestionOption;
}.

(** The answers to questions, by their ids *)
Abbreviation RequestUserInputResponse := (gmap str (list str)).

Record McpElicitationRequest : Type := mkElicitationRequest {
  eq_server_name : str;
  eq_request_id : str;
  eq_meta : option JsonValue;
  eq_message : str;
}.

Record CallToolResult : Type := mkCallToolResult {
  cr_content : list JsonValue;
  cr_structured_content : option JsonValue;
  cr_is_error : option bool;
  cr_meta : option JsonValue;
}.

Definition from_error_text (text : str) : CallToolResult :=
  mkCallToolResult [JObject [(lit "text", JString text); (lit "type", JString (lit "text"))]] None (Some true) None.

Definition from_result (result : result str CallToolResult) : CallToolResult :=
  match result with Ok result => result | Err error => from_error_text error end.

(** ** Metadata *)

Definition MCP_TOOL_CODEX_APPS_META_KEY : str := lit "_codex_apps".
Definition MCP_TOOL_OPENAI_OUTPUT_TEMPLATE_META_KEY : str := lit "openai/outputTemplate".
Definition MCP_TOOL_UI_RESOURCE_URI_META_KEY : str := lit "ui/resourceUri".
Definition MCP_TOOL_THREAD_ID_META_KEY : str := lit "threadId".
Definition X_CODEX_TURN_METADATA_HEADER : str := lit "x-codex-turn-metadata".
Definition MCP_SANDBOX_STATE_META_CAPABILITY : str := lit "codex/sandbox-state-meta".

Definition openai_file_input_params_for_server (server : str) (meta : option JsonMap) : option (list str) :=
  if server =? CODEX_APPS_MCP_SERVER_NAME then
    let params := declared_openai_file_input_param_names meta in
    if is_empty params then None else Some params
  else None.

Definition get_mcp_app_resource_uri (meta : option JsonMap) : option str :=
  meta ← meta;
  let string_at key := tbl_get key meta ≫= as_str in
  first_of (ui ← tbl_get (lit "ui") meta ≫= as_object; tbl_get (lit "resourceUri") ui ≫= as_str)
    (first_of (string_at MCP_TOOL_UI_RESOURCE_URI_META_KEY) (string_at MCP_TOOL_OPENAI_OUTPUT_TEMPLATE_META_KEY)).

(** [connector_description] is what the list of connectors says of an id. *)
Definition lookup_mcp_tool_metadata (tools : gmap str ToolInfo) (connector_description : str -> option str)
    (server tool_name : str) : option McpToolApprovalMetadata :=
  tool_info ← List.find (fun info => (ti_server_name info =? server) && (rt_name (ti_tool info) =? tool_name))
                (map snd (map_to_list tools));
  let tool := ti_tool tool_info in
  Some (mkMetadata (rt_annotations tool) (ti_connector_id tool_info) (ti_connector_name tool_info)
    (if server =? CODEX_APPS_MCP_SERVER_NAME then ti_connector_id tool_info ≫= connector_description else None)
    (rt_title tool) (rt_description tool) (get_mcp_app_resource_uri (rt_meta tool))
    (rt_meta tool ≫= fun meta => tbl_get MCP_TOOL_CODEX_APPS_META_KEY meta ≫= as_object)
    (openai_file_input_params_for_server server (rt_meta tool))).

Definition build_mcp_tool_call_request_meta (turn_metadata : option JsonValue) (server call_id : str)
    (metadata : option McpToolApprovalMetadata) : option JsonValue :=
  let request_meta :=
    match turn_metadata with
    | Some turn_metadata => tbl_insert X_CODEX_TURN_METADATA_HEADER turn_metadata []
    | None => []
    end in
  let request_meta :=
    if server =? CODEX_APPS_MCP_SERVER_NAME then
      let codex_apps_meta := default [] (metadata ≫= md_codex_apps_meta) in
      tbl_insert MCP_TOOL_CODEX_APPS_META_KEY
        (JObject (tbl_insert (lit "call_id") (JString call_id) codex_apps_meta)) request_meta
    else request_meta in
  if is_empty request_meta then None else Some (JObject request_meta).

(** Putting an entry into metadata that is an object, or not there *)
Definition with_meta_entry (meta : option JsonValue) (key : str) (value : JsonValue) : option JsonValue :=
  match meta with
  | Some (JObject map) => Some (JObject (tbl_insert key value map))
  | None => Some (JObject (tbl_insert key value []))
  | other => other
  end.

Definition with_mcp_tool_call_thread_id_meta (meta : option JsonValue) (thread_id : str) : option JsonValue :=
  with_meta_entry meta MCP_TOOL_THREAD_ID_META_KEY (JString thread_id).

Definition IMAGE_OMITTED : JsonValue :=
  JObject [(lit "text", JString (lit "<image content omitted because you do not support image input>"));
           (lit "type", JString (lit "text"))].

Definition is_image_block (block : JsonValue) : bool :=
  bool_decide ((as_object block ≫= tbl_get (lit "type")) ≫= as_str = Some (lit "image")).

Definition sanitize_mcp_tool_result_for_model (supports_image_input : bool) (result : result str CallToolResult)
    : Prelude.result str CallToolResult :=
  if supports_image_input then result
  else
    match result with
    | Err e => Err e
    | Ok call_tool_result =>
        Ok (mkCallToolResult
              (map (fun block => if is_image_block block then IMAGE_OMITTED else block) (cr_content call_tool_result))
              (cr_structured_content call_tool_result) (cr_is_error call_tool_result) (cr_meta call_tool_result))
    end.

(** ** Keys *)

Definition session_mcp_tool_approval_key (invocation : McpInvocation) (metadata : option McpToolApprovalMetadata)
    (approval_mode : AppToolApproval) : option McpToolApprovalKey :=
  if negb (bool_decide (approval_mode = ModeAuto)) then None
  else
    let connector_id := metadata ≫= md_connector_id in
    if (iv_server invocation =? CODEX_APPS_MCP_SERVER_NAME) && bool_decide (connector_id = None) then None
    else Some (mkApprovalKey (iv_server invocation) connector_id (iv_tool invocation)).

Definition persistent_mcp_tool_approval_key : McpInvocation -> option McpToolApprovalMetadata -> AppToolApproval ->
    option McpToolApprovalKey := session_mcp_tool_approval_key.

Definition mcp_tool_approval_prompt_options (session_approval_key persistent_approval_key : option McpToolApprovalKey)
    (tool_call_mcp_elicitation_enabled : bool) : McpToolApprovalPromptOptions :=
  mkPromptOptions (bool_decide (is_Some session_approval_key))
    (tool_call_mcp_elicitation_enabled && bool_decide (is_Some persistent_approval_key)).

(** ** Questions *)

Definition MCP_TOOL_APPROVAL_QUESTION_ID_PREFIX : str := lit "mcp_tool_call_approval".
Definition MCP_TOOL_APPROVAL_ACCEPT : str := lit "Allow".
Definition MCP_TOOL_APPROVAL_ACCEPT_FOR_SESSION : str := lit "Allow for this session".
Definition MCP_TOOL_APPROVAL_DECLINE_SYNTHETIC : str := lit "__codex_mcp_decline__".
Definition MCP_TOOL_APPROVAL_ACCEPT_AND_REMEMBER : str := lit "Allow and don't ask me again".
Definition MCP_TOOL_APPROVAL_CANCEL : str := lit "Cancel".
Definition MCP_TOOL_APPROVAL_PERSIST_KEY : str := lit "persist".
Definition MCP_TOOL_APPROVAL_PERSIST_SESSION : str := lit "session".
Definition MCP_TOOL_APPROVAL_PERSIST_ALWAYS : str := lit "always".

Definition is_mcp_tool_approval_question_id (question_id : str) : bool :=
  match strip_prefix MCP_TOOL_APPROVAL_QUESTION_ID_PREFIX question_id with
  | Some suffix => starts_with suffix (lit "_")
  | None => false
  end.

Definition DQUOTE : str := [34%N].

Definition build_mcp_tool_approval_fallback_message (server tool_name : str) (connector_name : option str) : str :=
  let actor :=
    match non_empty (trim <$> connector_name) with
    | Some name => name
    | None =>
        if server =? CODEX_APPS_MCP_SERVER_NAME then lit "this app"
        else lit "the " ++ server ++ lit " MCP server"
    end in
  lit "Allow " ++ actor ++ lit " to run tool " ++ DQUOTE ++ tool_name ++ DQUOTE ++ lit "?".

Definition build_mcp_tool_approval_question (question_id server tool_name : str) (connector_name : option str)
    (prompt_options : McpToolApprovalPromptOptions) (question_override : option str) : RequestUserInputQuestion :=
  let question :=
    match question_override with
    | Some question => question
    | None => build_mcp_tool_approval_fallback_message server tool_name connector_name
    end in
  let question := trim_end_matches (fun c => (c =? ch "?")%N) question ++ lit "?" in
  mkQuestion question_id (lit "Approve app tool call?") question
    ([mkQuestionOption MCP_TOOL_APPROVAL_ACCEPT (lit "Run the tool and continue.")]
     ++ (if allow_session_remember prompt_options
         then [mkQuestionOption MCP_TOOL_APPROVAL_ACCEPT_FOR_SESSION
                 (lit "Run the tool and remember this choice for this session.")] else [])
     ++ (if allow_persistent_approval prompt_options
         then [mkQuestionOption MCP_TOOL_APPROVAL_ACCEPT_AND_REMEMBER
                 (lit "Run the tool and remember this choice for future tool calls.")] else [])
     ++ [mkQuestionOption MCP_TOOL_APPROVAL_CANCEL (lit "Cancel this tool call.")]).

Definition mcp_tool_approval_question_text (question : str) (monitor_reason : option str) : str :=
  match non_empty (trim <$> monitor_reason) with
  | Some reason => lit "Tool call needs your approval. Reason: " ++ reason
  | None => question
  end.

Definition arc_monitor_interrupt_message (reason : str) : str :=
  let reason := trim reason in
  if is_empty reason then lit "Tool call was cancelled because of safety risks."
  else lit "Tool call was cancelled because of safety risks: " ++ reason.

Definition opt_entry (key : str) (value : option str) (meta : JsonMap) : JsonMap :=
  match value with Some value => tbl_insert key (JString value) meta | None => meta end.

(** [RenderedMcpToolApprovalParam] as JSON *)
Definition rendered_param_json (p : RenderedMcpToolApprovalParam) : JsonValue :=
  JObject [(lit "display_name", JString (rp_display_name p)); (lit "name", JString (rp_name p));
           (lit "value", rp_value p)].

Definition build_mcp_tool_approval_elicitation_meta (server : str) (metadata : option McpToolApprovalMetadata)
    (tool_params : option JsonValue) (tool_params_display : option (list RenderedMcpToolApprovalParam))
    (prompt_options : McpToolApprovalPromptOptions) : option JsonValue :=
  let meta := tbl_insert (lit "codex_approval_kind") (JString (lit "mcp_tool_call")) [] in
  let meta :=
    match allow_session_remember prompt_options, allow_persistent_approval prompt_options with
    | true, true =>
        tbl_insert MCP_TOOL_APPROVAL_PERSIST_KEY
          (JArray [JString MCP_TOOL_APPROVAL_PERSIST_SESSION; JString MCP_TOOL_APPROVAL_PERSIST_ALWAYS]) meta
    | true, false => tbl_insert MCP_TOOL_APPROVAL_PERSIST_KEY (JString MCP_TOOL_APPROVAL_PERSIST_SESSION) meta
    | false, true => tbl_insert MCP_TOOL_APPROVAL_PERSIST_KEY (JString MCP_TOOL_APPROVAL_PERSIST_ALWAYS) meta
    | false, false => meta
    end in
  let meta :=
    match metadata with
    | None => meta
    | Some metadata =>
        let meta := opt_entry (lit "tool_title") (md_tool_title metadata) meta in
        let meta := opt_entry (lit "tool_description") (md_tool_description metadata) meta in
        if (server =? CODEX_APPS_MCP_SERVER_NAME)
           && (bool_decide (is_Some (md_connector_id metadata)) || bool_decide (is_Some (md_connector_name metadata))
               || bool_decide (is_Some (md_connector_description metadata)))
        then
          let meta := tbl_insert (lit "source") (JString (lit "connector")) meta in
          let meta := opt_entry (lit "connector_id") (md_connector_id metadata) meta in
          let meta := opt_entry (lit "connector_name") (md_connector_name metadata) meta in
          opt_entry (lit "connector_description") (md_connector_description metadata) meta
        else meta
    end in
  let meta := match tool_params with Some tool_params => tbl_insert (lit "tool_params") tool_params meta | None => meta end in
  let meta :=
    match tool_params_display with
    | Some display => tbl_insert (lit "tool_params_display") (JArray (map rendered_param_json display)) meta
    | None => meta
    end in
  if is_empty meta then None else Some (JObject meta).

(** ** Answers *)

Definition request_user_input_response_from_elicitation_content (content : option JsonValue)
    : option RequestUserInputResponse :=
  match content with
  | None => Some ∅
  | Some content =>
      content ← as_object content;
      Some (list_to_map (rev (omap (fun '(question_id, value) =>
        match value with
        | JString answer => Some (question_id, [answer])
        | JArray values => Some (question_id, omap as_str values)
        | _ => None
        end) content)))
  end.

Definition parse_mcp_tool_approval_response (response : option RequestUserInputResponse) (question_id : str)
    : McpToolApprovalDecision :=
  match response ≫= fun response => response !! question_id with
  | None => McpCancel
  | Some answers =>
      if one_of MCP_TOOL_APPROVAL_DECLINE_SYNTHETIC answers then McpDecline None
      else if one_of MCP_TOOL_APPROVAL_ACCEPT_FOR_SESSION answers then McpAcceptForSession
      else if one_of MCP_TOOL_APPROVAL_ACCEPT_AND_REMEMBER answers then McpAcceptAndRemember
      else if one_of MCP_TOOL_APPROVAL_ACCEPT answers then McpAccept
      else McpCancel
  end.

Definition parse_mcp_tool_approval_elicitation_response (response : option ElicitationResponse) (question_id : str)
    : McpToolApprovalDecision :=
  match response with
  | None => McpCancel
  | Some response =>
      match er_action response with
      | ElicitAccept =>
          let persist := ((er_meta response ≫= as_object) ≫= tbl_get MCP_TOOL_APPROVAL_PERSIST_KEY) ≫= as_str in
          if bool_decide (persist = Some MCP_TOOL_APPROVAL_PERSIST_SESSION) then McpAcceptForSession
          else if bool_decide (persist = Some MCP_TOOL_APPROVAL_PERSIST_ALWAYS) then McpAcceptAndRemember
          else
            match parse_mcp_tool_approval_response
                    (request_user_input_response_from_elicitation_content (er_content response)) question_id with
            | McpCancel => McpAccept
            | decision => decision
            end
      | ElicitDecline => McpDecline None
      | ElicitCancel => McpCancel
      end
  end.

Definition normalize_approval_decision_for_mode (decision : McpToolApprovalDecision) (approval_mode : AppToolApproval)
    : McpToolApprovalDecision :=
  match approval_mode, decision with
  | ModePrompt, (McpAcceptForSession | McpAcceptAndRemember) => McpAccept
  | _, decision => decision
  end.

(** ** The monitor *)

Definition outcome_of_result (response : ArcMonitorResult) : ArcMonitorOutcome :=
  let short_reason := trim (arc_short_reason response) in
  let rationale := trim (arc_rationale response) in
  match arc_outcome response with
  | ResultOk => ArcOk
  | ResultAskUser =>
      if negb (is_empty short_reason) then AskUser short_reason
      else if negb (is_empty rationale) then AskUser rationale
      else AskUser (lit "Additional confirmation is required before this tool call can continue.")
  | ResultSteerModel =>
      if negb (is_empty rationale) then SteerModel rationale
      else if negb (is_empty short_reason) then SteerModel short_reason
      else SteerModel (lit "Tool call was cancelled because of safety risks.")
  end.

Definition mcp_tool_approval_callsite_mode (approval_mode : AppToolApproval) : str :=
  match approval_mode with
  | ModeApprove => lit "mcp_tool_call__always_allow"
  | ModeAuto | ModePrompt => lit "mcp_tool_call__default"
  end.

Definition build_guardian_mcp_tool_review_request (call_id : str) (invocation : McpInvocation)
    (metadata : option McpToolApprovalMetadata) : GuardianMcpToolCall :=
  mkGuardianCall call_id invocation (metadata ≫= md_connector_id) (metadata ≫= md_connector_name)
    (metadata ≫= md_connector_description) (metadata ≫= md_tool_title) (metadata ≫= md_tool_description)
    (metadata ≫= md_annotations).

(** What [codex-api/src/files.rs] says of an uploaded file *)
Record UploadedOpenAiFile : Type := mkUploaded {
  up_file_id : str;
  up_uri : str;
  up_download_url : str;
  up_file_name : str;
  up_file_size_bytes : N;
  up_mime_type : option str;
}.

(** ** Calls *)

Inductive McpE : Type -> Type :=
(* the request to the monitor, whose failures are no answer *)
| PostMonitor (action : GuardianMcpToolCall) (callsite : str) : McpE (option ArcMonitorResult)
(* the session's approvals, under their lock *)
| IsRemembered (key : McpToolApprovalKey) : McpE bool
| Remember (key : McpToolApprovalKey) : McpE unit
(* hooks, the guardian, the user *)
| RunHooks (tool_name : str) (tool_input : JsonValue) : McpE (option PermissionRequestDecision)
| ReviewRequest (request : GuardianMcpToolCall) (reason : option str) : McpE ReviewDecision
| RejectionMessage : McpE str
| RequestElicitation (request : McpElicitationRequest) : McpE (option ElicitationResponse)
| RequestUserInput (call_id : str) (question : RequestUserInputQuestion) : McpE (option RequestUserInputResponse)
(* the configuration *)
| LoadGlobalMcpServers : McpE (anyhow (list str))
| SetConfigPath (folder : str) (segments : list str) (value : str) : McpE (anyhow unit)
| ReloadUserConfigLayer : McpE unit
(* the call itself *)
| NotifyBegin (invocation : McpInvocation) : McpE unit
| NotifyEnd (invocation : McpInvocation) (outcome : result str CallToolResult) : McpE unit
(* the login, and whether it is with the Codex backend *)
| Auth : McpE (option bool)
| UploadLocalFile (path : str) : McpE (result str UploadedOpenAiFile)
| SupportsSandboxState (server : str) : McpE bool
| CallTool (server tool : str) (arguments meta : option JsonValue) : McpE (result str CallToolResult).

Notation P := (prog McpE).

(** What is read of the turn and its configuration *)
Record McpTurn : Type := mkMcpTurn {
  mt_approval_policy : AskForApproval;
  mt_permission_profile : PermissionProfile;
  mt_auto_review : bool;
  mt_elicitation_enabled : bool;
  mt_monitor_authorized : bool;
  mt_codex_home : str;
  (* the project layers, highest first: their servers and folder *)
  mt_project_layers : list (option (list str) * option str);
  mt_user_apps_config : option AppsConfigToml;
  mt_requirements_apps : option Requirements.AppsRequirementsToml;
  mt_mcp_servers : option (gmap str McpServerApprovals);
  mt_templates : option (list ConsequentialToolMessageTemplate);
  mt_turn_metadata : option JsonValue;
  mt_thread_id : str;
  mt_sandbox_state : result str JsonValue;
  mt_supports_image_input : bool;
  mt_cwd : str;
  mt_home_dir : option str;
}.

(** [routes_approval_to_guardian] *)
Definition routes_mcp_approval_to_guardian (turn : McpTurn) : bool :=
  match mt_approval_policy turn with OnRequest | Granular _ => true | _ => false end && mt_auto_review turn.

Section Flow.
Variable turn : McpTurn.

(** [monitor_action]: without a login or a token the monitor is not asked. *)
Definition maybe_monitor_auto_approved_mcp_tool_call (invocation : McpInvocation)
    (metadata : option McpToolApprovalMetadata) (approval_mode : AppToolApproval) : P ArcMonitorOutcome :=
  if negb (mt_monitor_authorized turn) then Ret ArcOk
  else
    response ← trigger (PostMonitor
      (build_guardian_mcp_tool_review_request (lit "arc-monitor") invocation metadata)
      (mcp_tool_approval_callsite_mode approval_mode));
    Ret (match response with None => ArcOk | Some response => outcome_of_result response end).

Definition mcp_tool_approval_decision_from_guardian (decision : ReviewDecision) : P McpToolApprovalDecision :=
  match decision with
  | Approved | ApprovedExecpolicyAmendment _ | NetworkPolicyAmendmentDecision _ => Ret McpAccept
  | ApprovedForSession => Ret McpAcceptForSession
  | DeniedDecision => message ← trigger RejectionMessage; Ret (McpDecline (Some message))
  | TimedOut => Ret (McpDecline (Some guardian_timeout_message))
  | AbortDecision => Ret (McpDecline None)
  end.

Definition approve_edit (folder : str) (segments : list str) : P (anyhow unit) :=
  trigger (SetConfigPath folder (segments ++ [lit "approval_mode"]) (lit "approve")).

Definition persist_codex_app_tool_approval (connector_id tool_name : str) : P (anyhow unit) :=
  approve_edit (mt_codex_home turn) [lit "apps"; connector_id; lit "tools"; tool_name].

(** A layer whose table of servers cannot be read, or has not the server, is
    passed; one with the server but without a folder as well. *)
Definition project_mcp_tool_approval_config_folder (server : str) : option str :=
  head (omap (fun layer : option (list str) * option str =>
    servers ← layer.1; if one_of server servers then layer.2 else None) (mt_project_layers turn)).

Definition persist_custom_mcp_tool_approval (server tool_name : str) : P (anyhow unit) :=
  let edit folder := approve_edit folder [lit "mcp_servers"; server; lit "tools"; tool_name] in
  match project_mcp_tool_approval_config_folder server with
  | Some folder => edit folder
  | None =>
      servers ← trigger LoadGlobalMcpServers;
      match servers with
      | Err e => Ret (Err e)
      | Ok servers =>
          if negb (one_of server servers)
          then Ret (bail (lit "MCP server `" ++ server ++ lit "` is not configured in config.toml"))
          else edit (mt_codex_home turn)
      end
  end.

Definition maybe_persist_mcp_tool_approval (key : McpToolApprovalKey) : P unit :=
  let remember := trigger (Remember key) in
  let persisted (persist : P (anyhow unit)) : P unit :=
    persist_result ← persist;
    match persist_result with
    | Err _ => remember
    | Ok _ => _ ← trigger ReloadUserConfigLayer; remember
    end in
  if mk_server key =? CODEX_APPS_MCP_SERVER_NAME then
    match mk_connector_id key with
    | None => remember
    | Some connector_id => persisted (persist_codex_app_tool_approval connector_id (mk_tool_name key))
    end
  else persisted (persist_custom_mcp_tool_approval (mk_server key) (mk_tool_name key)).

Definition apply_mcp_tool_approval_decision (decision : McpToolApprovalDecision)
    (session_approval_key persistent_approval_key : option McpToolApprovalKey) : P unit :=
  match decision with
  | McpAcceptForSession =>
      match session_approval_key with Some key => trigger (Remember key) | None => Ret tt end
  | McpAcceptAndRemember =>
      match persistent_approval_key, session_approval_key with
      | Some key, _ => maybe_persist_mcp_tool_approval key
      | None, Some key => trigger (Remember key)
      | None, None => Ret tt
      end
  | McpAccept | McpDecline _ | McpCancel | BlockedBySafetyMonitor _ => Ret tt
  end.

Definition question_id_of (call_id : str) : str := MCP_TOOL_APPROVAL_QUESTION_ID_PREFIX ++ lit "_" ++ call_id.

(** The template, the display of the parameters and the question *)
Definition rendered_of (invocation : McpInvocation) (metadata : option McpToolApprovalMetadata)
    : option RenderedMcpToolApprovalTemplate :=
  templates ← mt_templates turn;
  render_mcp_tool_approval_template_from_templates templates (iv_server invocation) (metadata ≫= md_connector_id)
    (metadata ≫= md_connector_name) (metadata ≫= md_tool_title) (iv_arguments invocation).

Definition question_of (call_id : str) (invocation : McpInvocation) (metadata : option McpToolApprovalMetadata)
    (prompt_options : McpToolApprovalPromptOptions) (monitor_reason : option str) : RequestUserInputQuestion :=
  let question :=
    build_mcp_tool_approval_question (question_id_of call_id) (iv_server invocation) (iv_tool invocation)
      (metadata ≫= md_connector_name) prompt_options (rd_question <$> rendered_of invocation metadata) in
  mkQuestion (qu_id question) (qu_header question)
    (mcp_tool_approval_question_text (qu_question question) monitor_reason) (qu_options question).

Definition build_mcp_tool_approval_elicitation_request (server request_id : str)
    (metadata : option McpToolApprovalMetadata) (tool_params : option JsonValue)
    (tool_params_display : option (list RenderedMcpToolApprovalParam)) (question : RequestUserInputQuestion)
    (message_override : option str) (prompt_options : McpToolApprovalPromptOptions) : McpElicitationRequest :=
  let message := default (qu_question question) message_override in
  mkElicitationRequest server request_id
    (build_mcp_tool_approval_elicitation_meta server metadata tool_params tool_params_display prompt_options) message.

Definition elicitation_of (call_id : str) (invocation : McpInvocation) (metadata : option McpToolApprovalMetadata)
    (prompt_options : McpToolApprovalPromptOptions) (monitor_reason : option str) : McpElicitationRequest :=
  let rendered_template := rendered_of invocation metadata in
  let tool_params_display :=
    first_of (rd_tool_params_display <$> rendered_template)
      (build_mcp_tool_approval_display_params (iv_arguments invocation)) in
  build_mcp_tool_approval_elicitation_request (iv_server invocation) (question_id_of call_id) metadata
    (first_of (rendered_template ≫= rd_tool_params) (iv_arguments invocation)) tool_params_display
    (question_of call_id invocation metadata prompt_options monitor_reason)
    (rendered_template ≫= fun t => if bool_decide (monitor_reason = None) then Some (rd_elicitation_message t) else None)
    prompt_options.

(** From the keys on: is it remembered, what do hooks say, the guardian or the
    user *)
Definition ask_about (call_id hook_tool_name : str) (invocation : McpInvocation)
    (metadata : option McpToolApprovalMetadata) (approval_mode : AppToolApproval) (monitor_reason : option str)
    : P McpToolApprovalDecision :=
  let session_approval_key := session_mcp_tool_approval_key invocation metadata approval_mode in
  let persistent_approval_key := persistent_mcp_tool_approval_key invocation metadata approval_mode in
  remembered ← (match session_approval_key with Some key => trigger (IsRemembered key) | None => Ret false end);
  if (remembered : bool) then Ret McpAccept
  else
    hooks ← trigger (RunHooks hook_tool_name (default (JObject []) (iv_arguments invocation)));
    match hooks with
    | Some HookAllow => Ret McpAccept
    | Some (HookDeny message) => Ret (McpDecline (Some message))
    | None =>
        decision ← (
          if routes_mcp_approval_to_guardian turn then
            review ← trigger (ReviewRequest (build_guardian_mcp_tool_review_request call_id invocation metadata) monitor_reason);
            mcp_tool_approval_decision_from_guardian review
          else
            let prompt_options :=
              mcp_tool_approval_prompt_options session_approval_key persistent_approval_key (mt_elicitation_enabled turn) in
            if mt_elicitation_enabled turn then
              response ← trigger (RequestElicitation (elicitation_of call_id invocation metadata prompt_options monitor_reason));
              Ret (normalize_approval_decision_for_mode
                     (parse_mcp_tool_approval_elicitation_response response (question_id_of call_id)) approval_mode)
            else
              response ← trigger (RequestUserInput call_id (question_of call_id invocation metadata prompt_options monitor_reason));
              Ret (normalize_approval_decision_for_mode
                     (parse_mcp_tool_approval_response response (question_id_of call_id)) approval_mode));
        _ ← apply_mcp_tool_approval_decision decision session_approval_key persistent_approval_key;
        Ret decision
    end.

Definition maybe_request_mcp_tool_approval (call_id hook_tool_name : str) (invocation : McpInvocation)
    (metadata : option McpToolApprovalMetadata) (approval_mode : AppToolApproval) : P (option McpToolApprovalDecision) :=
  if mcp_permission_prompt_is_auto_approved (mt_approval_policy turn) (mt_permission_profile turn) then Ret None
  else
    let approval_required := requires_mcp_tool_approval (metadata ≫= md_annotations) in
    if negb approval_required && negb (bool_decide (approval_mode = ModePrompt)) then Ret None
    else
      let ask monitor_reason :=
        Some <$> ask_about call_id hook_tool_name invocation metadata approval_mode monitor_reason in
      if bool_decide (approval_mode = ModeApprove) then
        outcome ← maybe_monitor_auto_approved_mcp_tool_call invocation metadata approval_mode;
        match outcome with
        | ArcOk => Ret None
        | AskUser reason => ask (Some reason)
        | SteerModel reason => Ret (Some (BlockedBySafetyMonitor (arc_monitor_interrupt_message reason)))
        end
      else ask None.

(** ** Handling a call *)

Definition notify_mcp_tool_call_skip (invocation : McpInvocation) (message : str) (already_started : bool)
    : P (result str CallToolResult) :=
  _ ← (if negb already_started then trigger (NotifyBegin invocation) else Ret tt);
  _ ← trigger (NotifyEnd invocation (Err message));
  Ret (Err message).

Definition augment_with_sandbox_state (server : str) (meta : option JsonValue) : P (result str (option JsonValue)) :=
  supports ← trigger (SupportsSandboxState server);
  Ret (if negb supports then Ok meta
       else sandbox_state ← mt_sandbox_state turn;
            Ok (with_meta_entry meta MCP_SANDBOX_STATE_META_CAPABILITY sandbox_state)).

Definition execute_mcp_tool_call (server tool_name : str) (rewritten_arguments request_meta : option JsonValue)
    : P (result str CallToolResult) :=
  let request_meta := with_mcp_tool_call_thread_id_meta request_meta (mt_thread_id turn) in
  request_meta ← augment_with_sandbox_state server request_meta;
  match request_meta with
  | Err e => Ret (Err (lit "failed to build MCP tool request metadata: " ++ e))
  | Ok request_meta =>
      result ← trigger (CallTool server tool_name rewritten_arguments request_meta);
      Ret (match result with
           | Err e => Err (lit "tool call error: " ++ e)
           | Ok result => sanitize_mcp_tool_result_for_model (mt_supports_image_input turn) (Ok result)
           end)
  end.

Definition EMPTY_OBJECT : JsonValue := JObject [].

(** *** [mcp_openai_file.rs]: arguments that name files *)

(** [TurnContext::resolve_path] *)
Definition resolve_file (file_path : str) : str := abs_join (mt_home_dir turn) (mt_cwd turn) file_path.

Definition uploaded_json (uploaded : UploadedOpenAiFile) : JsonValue :=
  JObject (foldr (fun kv m => tbl_insert kv.1 kv.2 m) []
    [(lit "download_url", JString (up_download_url uploaded)); (lit "file_id", JString (up_file_id uploaded));
     (lit "mime_type", from_option JString JNull (up_mime_type uploaded));
     (lit "file_name", JString (up_file_name uploaded)); (lit "uri", JString (up_uri uploaded));
     (lit "file_size_bytes", JNumber (lit (pretty (up_file_size_bytes uploaded))))]).

Definition build_uploaded_local_argument_value (auth : option bool) (field_name : str) (index : option nat)
    (file_path : str) : P (result str JsonValue) :=
  let resolved_path := resolve_file file_path in
  match auth with
  | Some true =>
      uploaded ← trigger (UploadLocalFile resolved_path);
      Ret (match uploaded with
           | Ok uploaded => Ok (uploaded_json uploaded)
           | Err error =>
               let place := match index with Some index => lit "[" ++ lit (pretty index) ++ lit "]" | None => [] end in
               Err (lit "failed to upload `" ++ file_path ++ lit "` for `" ++ field_name ++ place ++ lit "`: " ++ error)
           end)
  | _ => Ret (Err (lit "ChatGPT auth is required to upload local files for Codex Apps tools"))
  end.

Fixpoint rewrite_values (auth : option bool) (field_name : str) (index : nat) (values rewritten : list JsonValue)
    : P (result str (option JsonValue)) :=
  match values with
  | [] => Ret (Ok (Some (JArray rewritten)))
  | item :: values =>
      match as_str item with
      | None => Ret (Ok None)
      | Some path_or_file_ref =>
          try_bind (build_uploaded_local_argument_value auth field_name (Some index) path_or_file_ref)
            (fun value => rewrite_values auth field_name (S index) values (rewritten ++ [value]))
      end
  end.

Definition rewrite_argument_value_for_openai_files (auth : option bool) (field_name : str) (value : JsonValue)
    : P (result str (option JsonValue)) :=
  match value with
  | JString path_or_file_ref =>
      try_bind (build_uploaded_local_argument_value auth field_name None path_or_file_ref)
        (fun rewritten => Ret (Ok (Some rewritten)))
  | JArray values => rewrite_values auth field_name 0 values []
  | _ => Ret (Ok None)
  end.

Fixpoint rewrite_fields (auth : option bool) (arguments : JsonMap) (fields : list str) (rewritten_arguments : JsonMap)
    : P (result str JsonMap) :=
  match fields with
  | [] => Ret (Ok rewritten_arguments)
  | field_name :: fields =>
      match tbl_get field_name arguments with
      | None => rewrite_fields auth arguments fields rewritten_arguments
      | Some value =>
          try_bind (rewrite_argument_value_for_openai_files auth field_name value) (fun uploaded_value =>
            rewrite_fields auth arguments fields
              (match uploaded_value with
               | Some uploaded_value => tbl_insert field_name uploaded_value rewritten_arguments
               | None => rewritten_arguments
               end))
      end
  end.

Definition rewrite_mcp_tool_arguments_for_openai_files (arguments_value : option JsonValue)
    (openai_file_input_params : option (list str)) : P (result str (option JsonValue)) :=
  match openai_file_input_params, arguments_value with
  | None, _ | Some _, None => Ret (Ok arguments_value)
  | Some fields, Some value =>
      match as_object value with
      | None => Ret (Ok arguments_value)
      | Some arguments =>
          auth ← trigger Auth;
          try_bind (rewrite_fields auth arguments fields arguments) (fun rewritten_arguments =>
            Ret (Ok (if bool_decide (rewritten_arguments = arguments) then arguments_value
                     else Some (JObject rewritten_arguments))))
      end
  end.

(** The result and the input that is reported for it *)
Definition HandledMcpToolCall : Type := CallToolResult * JsonValue.

Definition handle_approved_mcp_tool_call (invocation : McpInvocation) (metadata : option McpToolApprovalMetadata)
    (request_meta : option JsonValue) : P HandledMcpToolCall :=
  rewrite ← rewrite_mcp_tool_arguments_for_openai_files (iv_arguments invocation)
    (metadata ≫= md_openai_file_input_params);
  let tool_input :=
    match rewrite with
    | Ok (Some rewritten_arguments) => rewritten_arguments
    | Ok None | Err _ => default EMPTY_OBJECT (iv_arguments invocation)
    end in
  result ← (match rewrite with
            | Err e => Ret (Err e)
            | Ok rewritten_arguments =>
                execute_mcp_tool_call (iv_server invocation) (iv_tool invocation) rewritten_arguments request_meta
            end);
  _ ← trigger (NotifyEnd invocation result);
  Ret (from_result result, tool_input).

Definition approval_settings (server tool_name : str) (metadata : option McpToolApprovalMetadata)
    : AppToolPolicy * AppToolApproval :=
  if server =? CODEX_APPS_MCP_SERVER_NAME then
    let policy :=
      app_tool_policy (mt_user_apps_config turn) (mt_requirements_apps turn) (metadata ≫= md_connector_id) tool_name
        (metadata ≫= md_tool_title) (metadata ≫= md_annotations) in
    (policy, tp_approval policy)
  else (app_tool_policy_default, custom_mcp_tool_approval_mode (mt_mcp_servers turn) server tool_name).

(** [from_str] is [serde_json] on the arguments; [metadata] is what the list of
    tools says when the call comes. *)
Definition handle_mcp_tool_call (from_str : str -> result str JsonValue) (metadata : option McpToolApprovalMetadata)
    (call_id server tool_name hook_tool_name arguments : str) : P HandledMcpToolCall :=
  match (if is_empty (trim arguments) then Ok None else Some <$> from_str arguments) with
  | Err e => Ret (from_error_text (lit "err: " ++ e), EMPTY_OBJECT)
  | Ok arguments_value =>
      let invocation := mkInvocation server tool_name arguments_value in
      let reported (result : result str CallToolResult) : HandledMcpToolCall :=
        (from_result result, default EMPTY_OBJECT arguments_value) in
      let '(app_policy, approval_mode) := approval_settings server tool_name metadata in
      if (server =? CODEX_APPS_MCP_SERVER_NAME) && negb (tp_enabled app_policy) then
        reported <$> notify_mcp_tool_call_skip invocation (lit "MCP tool call blocked by app configuration") false
      else
        let request_meta := build_mcp_tool_call_request_meta (mt_turn_metadata turn) server call_id metadata in
        let approved := handle_approved_mcp_tool_call invocation metadata request_meta in
        _ ← trigger (NotifyBegin invocation);
        decision ← maybe_request_mcp_tool_approval call_id hook_tool_name invocation metadata approval_mode;
        let skip message := reported <$> notify_mcp_tool_call_skip invocation message true in
        match decision with
        | None | Some McpAccept | Some McpAcceptForSession | Some McpAcceptAndRemember => approved
        | Some (McpDecline message) => skip (default (lit "user rejected MCP tool call") message)
        | Some McpCancel => skip (lit "user cancelled MCP tool call")
        | Some (BlockedBySafetyMonitor message) => skip message
        end
  end.
End Flow.

(** ** The session's approvals *)

Section Store.
(** [serde_json] on keys *)
Variable to_json : McpToolApprovalKey -> option str.

Definition mcp_tool_approval_is_remembered (store : ApprovalStore) (key : McpToolApprovalKey) : bool :=
  match store_get to_json store key with Some ApprovedForSession => true | _ => false end.

Definition remember_mcp_tool_approval (store : ApprovalStore) (key : McpToolApprovalKey) : ApprovalStore :=
  store_put to_json store key ApprovedForSession.

Definition remembers (c : call McpE) : option McpToolApprovalKey :=
  match c with Did (Remember key) _ => Some key | _ => None end.

Definition store_step (store : ApprovalStore) (c : call McpE) : ApprovalStore :=
  match remembers c with Some key => remember_mcp_tool_approval store key | None => store end.

(** The calls of the session's tasks, in the order in which they are made: each
    with the number of its task; questions to the store are answered by it. *)
Definition answered_by (store : ApprovalStore) (c : call McpE) : Prop :=
  match c with
  | @Did _ X e x =>
      match e in McpE X return X -> Prop with
      | IsRemembered key => fun x => x = mcp_tool_approval_is_remembered store key
      | _ => fun _ => True
      end x
  end.

Fixpoint store_answers (store : ApprovalStore) (tr : list (nat * call McpE)) : Prop :=
  match tr with
  | [] => True
  | (_, c) :: tr => answered_by store c /\ store_answers (store_step store c) tr
  end.
End Store.

(** ** What counts as a yes *)

Record McpTask : Type := mkMcpTask {
  tk_turn : McpTurn;
  tk_from_str : str -> result str JsonValue;
  tk_metadata : option McpToolApprovalMetadata;
  tk_call_id : str;
  tk_server : str;
  tk_tool_name : str;
  tk_hook_tool_name : str;
  tk_arguments : str;
}.

Definition task_program (t : McpTask) : P HandledMcpToolCall :=
  handle_mcp_tool_call (tk_turn t) (tk_from_str t) (tk_metadata t) (tk_call_id t) (tk_server t) (tk_tool_name t)
    (tk_hook_tool_name t) (tk_arguments t).

Definition task_mode (t : McpTask) : AppToolApproval :=
  (approval_settings (tk_turn t) (tk_server t) (tk_tool_name t) (tk_metadata t)).2.

Definition task_key (t : McpTask) : McpToolApprovalKey :=
  mkApprovalKey (tk_server t) (tk_metadata t ≫= md_connector_id) (tk_tool_name t).

(** The arguments that the model gave *)
Definition task_arguments (t : McpTask) : option JsonValue :=
  if is_empty (trim (tk_arguments t)) then None
  else match tk_from_str t (tk_arguments t) with Ok value => Some value | Err _ => None end.

Definition task_invocation (t : McpTask) : McpInvocation := mkInvocation (tk_server t) (tk_tool_name t) (task_arguments t).

(** The arguments that are declared to name files *)
Definition file_params (t : McpTask) : list str := default [] (tk_metadata t ≫= md_openai_file_input_params).

(** Nothing is asked: by the policy of the turn, for a tool that changes
    nothing, or for one that is approved in the configuration where there is no
    monitor. *)
Definition unasked (t : McpTask) : bool :=
  mcp_permission_prompt_is_auto_approved (mt_approval_policy (tk_turn t)) (mt_permission_profile (tk_turn t))
  || negb (requires_mcp_tool_approval (tk_metadata t ≫= md_annotations)) && negb (bool_decide (task_mode t = ModePrompt))
  || bool_decide (task_mode t = ModeApprove) && negb (mt_monitor_authorized (tk_turn t)).

Definition accepts (d : McpToolApprovalDecision) : bool :=
  match d with McpAccept | McpAcceptForSession | McpAcceptAndRemember => true | _ => false end.

Definition for_session (d : McpToolApprovalDecision) : bool :=
  match d with McpAcceptForSession | McpAcceptAndRemember => true | _ => false end.

Definition review_accepts (d : ReviewDecision) : bool :=
  match d with
  | Approved | ApprovedExecpolicyAmendment _ | NetworkPolicyAmendmentDecision _ | ApprovedForSession => true
  | DeniedDecision | TimedOut | AbortDecision => false
  end.

Definition arc_ok (response : option ArcMonitorResult) : bool :=
  match response with
  | None => true
  | Some response => match outcome_of_result response with ArcOk => true | _ => false end
  end.

(** A question about the call of the task: with the tool and the arguments of
    the model, for hooks the arguments, for the user its id. *)
Definition asks_about (t : McpTask) {X} (e : McpE X) : bool :=
  match e with
  | PostMonitor request _ | ReviewRequest request _ => bool_decide (gr_invocation request = task_invocation t)
  | RunHooks _ tool_input => bool_decide (tool_input = default EMPTY_OBJECT (task_arguments t))
  | RequestElicitation request =>
      (eq_server_name request =? tk_server t) && (eq_request_id request =? question_id_of (tk_call_id t))
  | RequestUserInput call_id question =>
      (call_id =? tk_call_id t) && (qu_id question =? question_id_of (tk_call_id t))
  | _ => false
  end.

(** An answer that lets the call of the task be made *)
Definition says_yes (t : McpTask) (c : call McpE) : bool :=
  match c with
  | @Did _ X e x =>
      asks_about t e &&
      match e in McpE X return X -> bool with
      | PostMonitor _ _ => fun response => bool_decide (task_mode t = ModeApprove) && arc_ok response
      | RunHooks _ _ => fun hooks => match hooks with Some HookAllow => true | _ => false end
      | ReviewRequest _ _ => review_accepts
      | RequestElicitation _ => fun response =>
          accepts (parse_mcp_tool_approval_elicitation_response response (question_id_of (tk_call_id t)))
      | RequestUserInput _ _ => fun response =>
          accepts (parse_mcp_tool_approval_response response (question_id_of (tk_call_id t)))
      | _ => fun _ => false
      end x
  end.

(** An answer of the guardian or the user for the session, or for good *)
Definition says_session (t : McpTask) (c : call McpE) : bool :=
  match c with
  | @Did _ X e x =>
      asks_about t e &&
      match e in McpE X return X -> bool with
      | ReviewRequest _ _ => is_approved_for_session
      | RequestElicitation _ => fun response =>
          for_session (parse_mcp_tool_approval_elicitation_response response (question_id_of (tk_call_id t)))
      | RequestUserInput _ _ => fun response =>
          for_session (parse_mcp_tool_approval_response response (question_id_of (tk_call_id t)))
      | _ => fun _ => false
      end x
  end.

(** The store says that the task's key is approved for the session. *)
Definition says_remembered (t : McpTask) (c : call McpE) : bool :=
  match c with
  | @Did _ X e x =>
      match e in McpE X return X -> bool with
      | IsRemembered key => fun x => x && bool_decide (key = task_key t) && bool_decide (task_mode t = ModeAuto)
      | _ => fun _ => false
      end x
  end.

(** The app of the task is not disabled. *)
Definition app_open (t : McpTask) : bool :=
  negb (tk_server t =? CODEX_APPS_MCP_SERVER_NAME)
  || tp_enabled (approval_settings (tk_turn t) (tk_server t) (tk_tool_name t) (tk_metadata t)).1.

(** What leaves for the outside: the call, and the files that its arguments name *)
Definition goes_out (c : call McpE) : bool :=
  match c with Did (CallTool _ _ _ _) _ | Did (UploadLocalFile _) _ => true | _ => false end.

(** Arguments that are those of the model, but for declared fields of an object *)
Definition same_arguments (fields : list str) (arguments sent : option JsonValue) : bool :=
  bool_decide (sent = arguments)
  || match arguments, sent with
     | Some (JObject m), Some (JObject m') =>
         forallb (fun k => one_of k fields || bool_decide (tbl_get k m' = tbl_get k m)) (map fst m ++ map fst m')
     | _, _ => false
     end.

(** A file that a declared field names *)
Definition names_file (turn : McpTurn) (fields : list str) (arguments : option JsonValue) (path : str) : bool :=
  match arguments with
  | Some (JObject m) =>
      existsb (fun k =>
        match tbl_get k m with
        | Some (JString file_path) => path =? resolve_file turn file_path
        | Some (JArray values) => existsb (fun v => bool_decide (Some path = resolve_file turn <$> as_str v)) values
        | _ => false
        end) fields
  | _ => false
  end.

Definition is_call_of (t : McpTask) (c : call McpE) : bool :=
  match c with
  | Did (CallTool server tool arguments _) _ =>
      (server =? tk_server t) && (tool =? tk_tool_name t) && same_arguments (file_params t) (task_arguments t) arguments
  | Did (UploadLocalFile path) _ => names_file (tk_turn t) (file_params t) (task_arguments t) path
  | _ => false
  end.

(** ** The rules

    A monitor of the calls of a task: whether there was a yes, and one for the
    session. *)
Definition observe (t : McpTask) (s : bool * bool) (c : call McpE) : option (bool * bool) :=
  let '(yes, session) := s in
  if goes_out c && negb (is_call_of t c && app_open t && (yes || unasked t)) then None
  else
    match remembers c with
    | Some key =>
        if session && bool_decide (key = task_key t) && bool_decide (task_mode t = ModeAuto) then Some s else None
    | None => Some (yes || says_yes t c || says_remembered t c, session || says_session t c)
    end.

Section Watched.
Variable t : McpTask.
Notation watched_t := (watched (observe t)).

(** One call, of which the monitor makes [s'] *)
Lemma watched_step {A X} s (e : McpE X) (k : X -> P A) post :
  (forall x, exists s', observe t s (Did e x) = Some s' /\ watched_t s' (k x) post) ->
  watched_t s (trigger e ≫= k) post.
Proof. intros H. apply watched_call. exact H. Qed.

(** A call that the monitor does not mind *)
Definition neutral {X} (e : McpE X) : Prop := forall s x, observe t s (Did e x) = Some s.

Lemma watched_neutral {A X} s (e : McpE X) (k : X -> P A) post :
  neutral e -> (forall x, watched_t s (k x) post) -> watched_t s (trigger e ≫= k) post.
Proof. intros Hn Hk. apply watched_step. intros x. exists s. by rewrite Hn. Qed.

Lemma watched_neutral_last {X} s (e : McpE X) (post : bool * bool -> X -> Prop) :
  neutral e -> (forall x, post s x) -> watched_t s (trigger e) post.
Proof. intros Hn Hk. apply watched_call. intros x. exists s. rewrite Hn. split; [done|]. by apply watched_ret. Qed.

Ltac neutral := intros [[] []] ?; reflexivity.

Lemma watched_fmap {A B} s (p : P A) (f : A -> B) (post : bool * bool -> B -> Prop) :
  watched_t s p (fun s' a => post s' (f a)) -> watched_t s (f <$> p) post.
Proof. intros H. apply (watched_bind _ _ _ _ _ _ H). intros s' a Ha. by apply watched_ret. Qed.

Lemma watched_remember y key (post : bool * bool -> unit -> Prop) : key = task_key t -> task_mode t = ModeAuto ->
  post (y, true) tt -> watched_t (y, true) (trigger (Remember key)) post.
Proof.
  intros -> Hm Hp. apply watched_call. intros []. exists (y, true). split; [|by apply watched_ret].
  cbn. by rewrite !bool_decide_eq_true_2 by done.
Qed.

Lemma watched_persist y key : key = task_key t -> task_mode t = ModeAuto ->
  watched_t (y, true) (maybe_persist_mcp_tool_approval (tk_turn t) key) (fun s' _ => s' = (y, true)).
Proof.
  intros Hk Hm. unfold maybe_persist_mcp_tool_approval.
  assert (forall persist : P (anyhow unit), watched_t (y, true) persist (fun s' _ => s' = (y, true)) ->
    watched_t (y, true) (persist_result ← persist;
      match persist_result with
      | Err _ => trigger (Remember key)
      | Ok _ => _ ← trigger ReloadUserConfigLayer; trigger (Remember key)
      end) (fun s' _ => s' = (y, true))) as Hp.
  { intros persist H. apply (watched_bind _ _ _ _ _ _ H). intros s' [] ->; [|by apply watched_remember].
    apply watched_neutral; [neutral|]. intros _. by apply watched_remember. }
  assert (forall folder segments, watched_t (y, true) (approve_edit folder segments) (fun s' _ => s' = (y, true))) as He
    by (intros; apply watched_neutral_last; [neutral|done]).
  case_bool_decide; [destruct (mk_connector_id key); [apply Hp, He|by apply watched_remember]|].
  apply Hp. unfold persist_custom_mcp_tool_approval.
  destruct (project_mcp_tool_approval_config_folder _ _); [apply He|].
  apply watched_neutral; [neutral|]. intros [servers|e]; [|by apply watched_ret].
  destruct (negb _); [by apply watched_ret|apply He].
Qed.

Lemma session_key_task mode args key : mode = task_mode t ->
  session_mcp_tool_approval_key (mkInvocation (tk_server t) (tk_tool_name t) args) (tk_metadata t) mode = Some key ->
  key = task_key t /\ task_mode t = ModeAuto.
Proof.
  intros ->. unfold session_mcp_tool_approval_key. case_bool_decide as Hm; [|done]. cbn.
  destruct (_ && _); [done|]. by intros [= <-].
Qed.

Lemma watched_apply y z decision args : let inv := mkInvocation (tk_server t) (tk_tool_name t) args in
  (for_session decision = true -> z = true) ->
  watched_t (y, z) (apply_mcp_tool_approval_decision (tk_turn t) decision
      (session_mcp_tool_approval_key inv (tk_metadata t) (task_mode t))
      (persistent_mcp_tool_approval_key inv (tk_metadata t) (task_mode t)))
    (fun s' _ => s' = (y, z)).
Proof.
  intros inv Hz. unfold persistent_mcp_tool_approval_key.
  destruct decision; try by apply watched_ret.
  all: rewrite Hz by done; unfold apply_mcp_tool_approval_decision.
  all: destruct (session_mcp_tool_approval_key _ _ _) as [key|] eqn:E; [|by apply watched_ret].
  all: apply session_key_task in E as [Hk Hm]; [|done].
  - by apply watched_remember.
  - by apply watched_persist.
Qed.

Lemma normalized_accepts d mode : accepts (normalize_approval_decision_for_mode d mode) = accepts d.
Proof. by destruct mode, d. Qed.

Lemma normalized_for_session d mode :
  for_session (normalize_approval_decision_for_mode d mode) = true -> for_session d = true.
Proof. by destruct mode, d. Qed.

(** What is decided, as far as the monitor has seen answers *)
Definition decided (s : bool * bool) (d : McpToolApprovalDecision) : Prop :=
  (accepts d = true -> s.1 = true) /\ (for_session d = true -> s.2 = true).

Lemma watched_guardian s review :
  (review_accepts review = true -> s.1 = true) -> (is_approved_for_session review = true -> s.2 = true) ->
  watched_t s (mcp_tool_approval_decision_from_guardian review) decided.
Proof.
  intros Hy Hs. destruct review; try (by apply watched_ret; split; auto; done).
  apply watched_neutral; [neutral|]. intros. by apply watched_ret.
Qed.

Lemma watched_ask_about y z reason hook : let inv := task_invocation t in
  watched_t (y, z) (ask_about (tk_turn t) (tk_call_id t) hook inv (tk_metadata t) (task_mode t) reason)
    (fun s' d => accepts d = true -> s'.1 = true).
Proof.
  intros inv. unfold ask_about.
  set (key := session_mcp_tool_approval_key inv (tk_metadata t) (task_mode t)).
  apply (watched_bind _ _ _ _ (fun s' remembered => s'.2 = z /\ (remembered = true -> s'.1 = true))).
  { destruct key as [k|] eqn:Ek; [|by apply watched_ret]. apply session_key_task in Ek as [-> Hm]; [|done].
    apply watched_call. intros b. exists (y || b, z).
    split; [|apply watched_ret; split; [done|intros ->; apply orb_true_r]].
    cbn. rewrite !bool_decide_eq_true_2 by done. rewrite !orb_false_r, !andb_true_r. reflexivity. }
  intros [y' z'] remembered [Ez Hy]. cbn in Ez. subst z'. destruct remembered; [by apply watched_ret|]. clear Hy.
  apply watched_step. intros hooks. eexists. split; [by cbn|].
  destruct hooks as [[|message]|]; [apply watched_ret; cbn; rewrite bool_decide_eq_true_2 by done; by rewrite !orb_true_r|by apply watched_ret|].
  cbn [says_yes says_session says_remembered]. rewrite !andb_false_r, !orb_false_r.
  apply (watched_bind _ _ _ _ decided).
  { case_match.
    - apply watched_step. intros review. eexists. split; [by cbn|].
      apply watched_guardian; cbn; intros ->; rewrite bool_decide_eq_true_2 by done; by rewrite ?orb_true_r.
    - destruct (mt_elicitation_enabled _); apply watched_step; intros response; eexists; (split; [by cbn|]);
        apply watched_ret; (split; [rewrite normalized_accepts|intros Hf%normalized_for_session; revert Hf]);
        cbn; intros ->; rewrite !bool_decide_eq_true_2 by done; by rewrite ?orb_true_r. }
  intros [y2 z2] d [Ha Hs]. apply (watched_bind _ _ _ _ (fun s' _ => s' = (y2, z2))); [by apply watched_apply|].
  intros s' _ ->. by apply watched_ret.
Qed.

Lemma watched_maybe y z hook : let inv := task_invocation t in
  watched_t (y, z)
    (maybe_request_mcp_tool_approval (tk_turn t) (tk_call_id t) hook inv (tk_metadata t) (task_mode t))
    (fun s' d => match d with None => true | Some d => accepts d end = true -> s'.1 || unasked t = true).
Proof.
  intros inv. unfold maybe_request_mcp_tool_approval.
  destruct (mcp_permission_prompt_is_auto_approved _ _) eqn:Ea.
  { apply watched_ret. intros _. unfold unasked. by rewrite Ea, orb_true_r. }
  destruct (negb (requires_mcp_tool_approval _) && _) eqn:En.
  { apply watched_ret. intros _. unfold unasked. by rewrite En, !orb_true_r. }
  assert (forall y z reason, watched_t (y, z)
    (Some <$> ask_about (tk_turn t) (tk_call_id t) hook inv (tk_metadata t) (task_mode t) reason)
    (fun s' d => match d with None => true | Some d => accepts d end = true -> s'.1 || unasked t = true)) as Hask.
  { intros. apply watched_fmap. eapply watched_weaken; [apply watched_ask_about|]. intros s' d H Hd. by rewrite H. }
  destruct (bool_decide (task_mode t = ModeApprove)) eqn:Hm; [|apply Hask]. apply bool_decide_eq_true in Hm.
  unfold maybe_monitor_auto_approved_mcp_tool_call. destruct (mt_monitor_authorized (tk_turn t)) eqn:Eau; cbn [negb].
  - apply watched_step. intros response. eexists. split; [by cbn|].
    cbn [says_yes says_session says_remembered asks_about]. rewrite !bool_decide_eq_true_2 by done. cbn [andb].
    rewrite !orb_false_r. unfold arc_ok.
    destruct response as [response|]; [destruct (outcome_of_result response)|];
      [apply watched_ret; cbn; by rewrite orb_true_r|by apply watched_ret|apply Hask
      |apply watched_ret; cbn; by rewrite orb_true_r].
  - apply watched_ret. intros _. unfold unasked. rewrite Eau, (bool_decide_eq_true_2 (task_mode t = ModeApprove)) by done. by rewrite !orb_true_r.
Qed.

(** *** Files are uploaded, and arguments rewritten, as declared *)

Lemma watched_upload s auth field index file_path (post : bool * bool -> result str JsonValue -> Prop) :
  s.1 || unasked t = true -> app_open t = true ->
  names_file (tk_turn t) (file_params t) (task_arguments t) (resolve_file (tk_turn t) file_path) = true ->
  (forall r, post s r) -> watched_t s (build_uploaded_local_argument_value (tk_turn t) auth field index file_path) post.
Proof.
  intros Hs Ho Hn Hp. unfold build_uploaded_local_argument_value. destruct auth as [[]|]; [|by apply watched_ret..].
  apply watched_step. intros uploaded. exists s. split; [|by apply watched_ret].
  destruct s as [y z]. unfold observe, is_call_of. rewrite Hn, Ho. cbn in Hs |- *. rewrite Hs. cbn. by rewrite !orb_false_r.
Qed.

Section Rewritten.
Context (s : bool * bool) (auth : option bool) (m : JsonMap).
Hypothesis yes : s.1 || unasked t = true.
Hypothesis open : app_open t = true.
Hypothesis arguments : task_arguments t = Some (JObject m).

Lemma names_string field file_path : field ∈ file_params t -> tbl_get field m = Some (JString file_path) ->
  names_file (tk_turn t) (file_params t) (task_arguments t) (resolve_file (tk_turn t) file_path) = true.
Proof.
  intros Hf Hg. unfold names_file. rewrite arguments. apply existsb_exists. exists field.
  split; [by apply list_elem_of_In|]. rewrite Hg. by apply bool_decide_eq_true.
Qed.

Lemma names_item field values file_path : field ∈ file_params t -> tbl_get field m = Some (JArray values) ->
  JString file_path ∈ values ->
  names_file (tk_turn t) (file_params t) (task_arguments t) (resolve_file (tk_turn t) file_path) = true.
Proof.
  intros Hf Hg Hv. unfold names_file. rewrite arguments. apply existsb_exists. exists field.
  split; [by apply list_elem_of_In|]. rewrite Hg. apply existsb_exists. exists (JString file_path).
  split; [by apply list_elem_of_In|]. by apply bool_decide_eq_true.
Qed.

Lemma watched_values field values : field ∈ file_params t -> tbl_get field m = Some (JArray values) ->
  forall rest, (forall v, v ∈ rest -> v ∈ values) -> forall index rewritten,
  watched_t s (rewrite_values (tk_turn t) auth field index rest rewritten) (fun s' _ => s' = s).
Proof.
  intros Hf Hg. induction rest as [|item rest IH]; intros Hin index rewritten; [by apply watched_ret|]. cbn [rewrite_values].
  destruct item as [| | |file_path| |]; cbn [as_str]; try (by apply watched_ret).
  apply (watched_try _ _ _ _ (fun s' _ => s' = s)); [|intros s' v ->|by intros].
  - apply watched_upload; [done..| |done]. eapply names_item; [done..|]. apply Hin. left.
  - apply IH. intros w Hw. apply Hin. by right.
Qed.

Lemma watched_value field value : field ∈ file_params t -> tbl_get field m = Some value ->
  watched_t s (rewrite_argument_value_for_openai_files (tk_turn t) auth field value) (fun s' _ => s' = s).
Proof.
  intros Hf Hg. destruct value as [| | |file_path|values|]; cbn [rewrite_argument_value_for_openai_files]; try (by apply watched_ret).
  - apply (watched_try _ _ _ _ (fun s' _ => s' = s)); [|intros s' v ->; by apply watched_ret|by intros].
    apply watched_upload; [done..|by eapply names_string|done].
  - by apply (watched_values field values).
Qed.

(** Fields that are not declared stay. *)
Definition agrees (m' : JsonMap) : Prop := forall k, k ∉ file_params t -> tbl_get k m' = tbl_get k m.

Lemma watched_fields fields : (forall k, k ∈ fields -> k ∈ file_params t) -> forall m', agrees m' ->
  watched_t s (rewrite_fields (tk_turn t) auth m fields m')
    (fun s' r => s' = s /\ match r with Ok m' => agrees m' | Err _ => True end).
Proof.
  induction fields as [|field fields IH]; intros Hf m' Hm; [by apply watched_ret|]. cbn [rewrite_fields].
  assert (field ∈ file_params t) as Hf1 by (apply Hf; left).
  assert (forall k, k ∈ fields -> k ∈ file_params t) as Hf2 by (intros; apply Hf; by right).
  destruct (tbl_get field m) as [value|] eqn:Hg; [|by apply IH].
  apply (watched_try _ _ _ _ (fun s' _ => s' = s)); [by apply watched_value|intros s' v ->|by intros].
  apply IH; [done|]. destruct v as [v|]; [|done].
  intros k Hk. rewrite tbl_get_insert_ne; [by apply Hm|]. by intros ->.
Qed.

Lemma agrees_same m' : agrees m' -> same_arguments (file_params t) (Some (JObject m)) (Some (JObject m')) = true.
Proof.
  intros H. unfold same_arguments. apply orb_true_iff. right. apply forallb_forall. intros k _.
  apply orb_true_iff. destruct (one_of k (file_params t)) eqn:E; [by left|right]. apply bool_decide_eq_true, H.
  intros Hk%one_of_In. congruence.
Qed.
End Rewritten.

Lemma same_arguments_refl fields arguments : same_arguments fields arguments arguments = true.
Proof. unfold same_arguments. by rewrite bool_decide_eq_true_2. Qed.

Lemma watched_rewrite s : s.1 || unasked t = true -> app_open t = true ->
  watched_t s (rewrite_mcp_tool_arguments_for_openai_files (tk_turn t) (task_arguments t)
                 (tk_metadata t ≫= md_openai_file_input_params))
    (fun s' r => s' = s /\ match r with Ok sent => same_arguments (file_params t) (task_arguments t) sent = true | Err _ => True end).
Proof.
  intros Hs Ho. unfold rewrite_mcp_tool_arguments_for_openai_files.
  destruct (tk_metadata t ≫= md_openai_file_input_params) as [fields|] eqn:Ef;
    [|apply watched_ret; split; [done|apply same_arguments_refl]].
  destruct (task_arguments t) as [value|] eqn:Ea; [|apply watched_ret; split; [done|apply same_arguments_refl]].
  destruct (as_object value) as [m|] eqn:Em; [|apply watched_ret; split; [done|apply same_arguments_refl]].
  assert (value = JObject m) as -> by (destruct value; try done; by injection Em as ->).
  apply watched_neutral; [neutral|]. intros auth.
  assert (file_params t = fields) as Efp by (unfold file_params; by rewrite Ef).
  eapply watched_try; [apply (watched_fields s auth m Hs Ho Ea fields)| |].
  - by rewrite Efp.
  - by intros k _.
  - intros s' m' [-> Hm]. apply watched_ret. split; [done|]. case_bool_decide; [apply same_arguments_refl|].
    by apply agrees_same.
  - by intros s' e [-> _].
Qed.

Lemma watched_approved s meta : s.1 || unasked t = true -> app_open t = true ->
  watched_t s (handle_approved_mcp_tool_call (tk_turn t) (task_invocation t) (tk_metadata t) meta) (fun _ _ => True).
Proof.
  intros Hs Ho. unfold handle_approved_mcp_tool_call. eapply watched_bind; [by apply watched_rewrite|].
  intros s0 rewrite [-> Hr]. apply (watched_bind _ _ _ _ (fun s' _ => s' = s)).
  - destruct rewrite as [rewritten|e]; [|by apply watched_ret]. unfold execute_mcp_tool_call.
    apply (watched_bind _ _ _ _ (fun s' _ => s' = s)).
    { apply watched_neutral; [neutral|]. intros supports. by apply watched_ret. }
    intros s' [m|e] ->; [|by apply watched_ret].
    apply watched_step. intros result. exists s. split; [|by apply watched_ret].
    destruct s as [y z]. unfold observe, is_call_of. rewrite Hr. cbn in Hs |- *.
    rewrite !bool_decide_eq_true_2 by done. rewrite Ho, Hs. cbn. by rewrite !orb_false_r.
  - intros s' r ->. apply watched_neutral; [neutral|]. intros _. by apply watched_ret.
Qed.

Lemma watched_skip s inv message started :
  watched_t s (notify_mcp_tool_call_skip inv message started) (fun _ _ => True).
Proof.
  unfold notify_mcp_tool_call_skip. apply (watched_bind _ _ _ _ (fun s' _ => s' = s)).
  { destruct started; [by apply watched_ret|]. apply watched_neutral_last; [neutral|done]. }
  intros s' _ ->. apply watched_neutral; [neutral|]. intros _. by apply watched_ret.
Qed.

Lemma task_watched : watched_t (false, false) (task_program t) (fun _ _ => True).
Proof.
  unfold task_program, handle_mcp_tool_call.
  destruct (if is_empty _ then _ else _) as [arguments_value|e] eqn:Ea; [|by apply watched_ret].
  assert (arguments_value = task_arguments t) as ->.
  { unfold task_arguments. destruct (is_empty _); [by injection Ea as <-|].
    destruct (tk_from_str t (tk_arguments t)); [by injection Ea as <-|done]. }
  destruct (approval_settings _ _ _ _) as [app_policy approval_mode] eqn:Es.
  assert (approval_mode = task_mode t) as -> by (unfold task_mode; by rewrite Es).
  destruct ((tk_server t =? CODEX_APPS_MCP_SERVER_NAME) && negb (tp_enabled app_policy)) eqn:Eo.
  { apply watched_fmap, watched_skip. }
  assert (app_open t = true) as Ho.
  { unfold app_open. rewrite Es. cbn. by destruct (tk_server t =? _), (tp_enabled app_policy). }
  apply watched_neutral; [neutral|]. intros _. apply (watched_bind _ _ _ _ _ _ (watched_maybe _ _ _)).
  intros s' d Hd. destruct d as [[]|]; try (by apply watched_fmap, watched_skip).
  all: apply watched_approved; [by apply Hd|done].
Qed.
End Watched.

(** ** Sessions *)

(** The calls of one task *)
Definition calls_of (i : nat) (tr : list (nat * call McpE)) : list (call McpE) :=
  omap (fun ic => if bool_decide (ic.1 = i) then Some ic.2 else None) tr.

(** An interleaving of the tasks' runs so far *)
Definition session_run (tasks : list McpTask) (tr : list (nat * call McpE)) : Prop :=
  Forall (fun ic => is_Some (tasks !! ic.1)) tr /\
  forall i t, tasks !! i = Some t -> exists more r, runs (task_program t) (calls_of i tr ++ more) r.

Lemma calls_of_app i tr tr' : calls_of i (tr ++ tr') = calls_of i tr ++ calls_of i tr'.
Proof. apply omap_app. Qed.

Lemma calls_of_cons i c tr : calls_of i ((i, c) :: tr) = c :: calls_of i tr.
Proof. unfold calls_of. cbn. by rewrite bool_decide_eq_true_2. Qed.

Lemma elem_of_calls_of i c tr : c ∈ calls_of i tr -> (i, c) ∈ tr.
Proof. intros ([j d] & Hin & E)%list_elem_of_omap. cbn in E. case_bool_decide; naive_solver. Qed.

(** What the monitor has seen was there. *)
Lemma observed_state t tr s : observes (observe t) (false, false) tr = Some s ->
  (s.1 = true -> Exists (fun c => says_yes t c = true \/ says_remembered t c = true) tr) /\
  (s.2 = true -> Exists (fun c => says_session t c = true) tr).
Proof.
  revert s. induction tr as [|c tr IH] using rev_ind; intros s.
  { by intros [= <-]. }
  rewrite observes_app. destruct (observes _ _ tr) as [[y z]|] eqn:E; [|done].
  cbn [mbind option_bind]. rewrite observes_cons. destruct (IH _ eq_refl) as [Hy Hz]. cbn [fst snd] in Hy, Hz.
  rewrite !Exists_app, !Exists_cons, !Exists_nil. unfold observe. destruct (goes_out c && _); [done|].
  destruct (remembers c).
  { destruct (z && _ && _); [|done]. intros [= <-]. cbn. tauto. }
  intros [= <-]. cbn [fst snd]. rewrite !orb_true_iff. tauto.
Qed.

(** A call in a session, as the monitor of its task sees it *)
Lemma session_observed tasks tr pre i c post t :
  session_run tasks tr -> tr = pre ++ (i, c) :: post -> tasks !! i = Some t ->
  exists s, observes (observe t) (false, false) (calls_of i pre) = Some s /\ is_Some (observe t s c).
Proof.
  intros [_ Hr] -> Ht. destruct (Hr i t Ht) as (more & r & H). rewrite calls_of_app, calls_of_cons in H.
  apply task_watched in H as (s' & H & _). rewrite <- app_assoc, observes_app in H.
  destruct (observes (observe t) (false, false) (calls_of i pre)) as [s|]; [|done].
  exists s. split; [done|]. cbn [mbind option_bind app] in H. rewrite observes_cons in H. by destruct (observe t s c).
Qed.

Section Session.
Context (to_json : McpToolApprovalKey -> option str) (store : ApprovalStore).
Hypothesis keys_apart : forall key key' s, to_json key = Some s -> to_json key' = Some s -> key = key'.
(** The approvals that are there at the start are for other things. *)
Hypothesis fresh : forall key s, to_json key = Some s -> store !! s = None.

Definition store_after (tr : list (nat * call McpE)) : ApprovalStore :=
  foldl (fun store ic => store_step to_json store ic.2) store tr.

Lemma store_answers_at pre i c post :
  store_answers to_json store (pre ++ (i, c) :: post) -> answered_by to_json (store_after pre) c.
Proof.
  unfold store_after. clear fresh. revert store. induction pre as [|[j d] pre IH]; intros st; cbn; [by intros [H _]|].
  intros [_ H]. by apply IH.
Qed.

Lemma remembered_in tr key : mcp_tool_approval_is_remembered to_json (store_after tr) key = true ->
  exists j c, (j, c) ∈ tr /\ remembers c = Some key.
Proof.
  unfold store_after. induction tr as [|[j c] tr IH] using rev_ind; cbn.
  - unfold mcp_tool_approval_is_remembered, store_get. destruct (to_json key) as [s|] eqn:E; [|done].
    cbn. by rewrite (fresh _ _ E).
  - rewrite foldl_snoc. cbn [snd]. unfold store_step. destruct (remembers c) as [k|] eqn:Ek.
    2: { intros (j' & c' & H & Hc)%IH. exists j', c'. by rewrite elem_of_app; auto. }
    destruct (decide (k = key)) as [->|N]; [intros _; exists j, c; rewrite elem_of_app, list_elem_of_singleton; by auto|].
    intros H. destruct IH as (j' & c' & Hin & Hc); [|exists j', c'; by rewrite elem_of_app; auto].
    revert H. unfold mcp_tool_approval_is_remembered, remember_mcp_tool_approval, store_get, store_put.
    destruct (to_json key) as [s|] eqn:E; [|done]. destruct (to_json k) as [s'|] eqn:E'; [|done]. cbn.
    rewrite lookup_insert_ne; [done|]. intros ->. by apply N, (keys_apart k key s).
Qed.

(** A key is put in the store after a yes for the session, by a task with it. *)
Lemma remember_after_session tasks tr pre j c post key :
  session_run tasks tr -> tr = pre ++ (j, c) :: post -> remembers c = Some key ->
  exists u, tasks !! j = Some u /\ task_key u = key /\ task_mode u = ModeAuto /\
    Exists (fun c => says_session u c = true) (calls_of j pre).
Proof.
  intros Hrun E Hc. assert (is_Some (tasks !! j)) as [u Hu].
  { destruct Hrun as [Hall _]. rewrite E in Hall. by apply Forall_app in Hall as [_ [H _]%Forall_cons]. }
  destruct (session_observed _ _ _ _ _ _ _ Hrun E Hu) as ([y z] & Hs & Ho).
  exists u. split; [done|]. unfold observe in Ho. rewrite Hc in Ho.
  destruct (goes_out c && _); [by destruct Ho|].
  destruct (z && bool_decide (key = task_key u) && bool_decide (task_mode u = ModeAuto)) eqn:Ez; [|by destruct Ho].
  rewrite !andb_true_iff, !bool_decide_eq_true in Ez. destruct Ez as [[-> ->] Hm].
  split; [done|]. split; [done|]. by apply (observed_state _ _ _ Hs).
Qed.

Lemma remembered_yes tasks tr pre i c post t :
  session_run tasks tr -> store_answers to_json store tr -> tr = pre ++ (i, c) :: post -> says_remembered t c = true ->
  task_mode t = ModeAuto /\ exists j u, tasks !! j = Some u /\ task_key u = task_key t /\ task_mode u = ModeAuto /\
    Exists (fun c => says_session u c = true) (calls_of j pre).
Proof.
  intros Hrun Hst E Hc. rewrite E in Hst. apply store_answers_at in Hst.
  destruct c as [X e x]. destruct e; try done. cbn in Hc, Hst.
  rewrite !andb_true_iff, !bool_decide_eq_true in Hc. destruct Hc as [[-> ->] Hm]. split; [done|].
  symmetry in Hst. apply remembered_in in Hst as (j & d & Hin & Hd).
  apply list_elem_of_split in Hin as (p1 & p2 & ->). rewrite <- app_assoc in E. cbn [app] in E.
  destruct (remember_after_session _ _ _ _ _ _ _ Hrun E Hd) as (u & Hu & Hk & Hmu & Hs).
  exists j, u. split; [done|]. split; [done|]. split; [done|]. rewrite calls_of_app, Exists_app. by left.
Qed.
End Session.


(** *** Examples *)

#[global] Instance McpToolApprovalKey_countable : Countable McpToolApprovalKey.
Proof.
  apply (inj_countable' (fun k => (mk_server k, mk_connector_id k, mk_tool_name k))
           (fun x => mkApprovalKey x.1.1 x.1.2 x.2)). by intros [].
Defined.

(** Text that tells keys apart *)
Definition key_text (key : McpToolApprovalKey) : option str := Some [Npos (encode key)].

Lemma key_text_inj key key' s : key_text key = Some s -> key_text key' = Some s -> key = key'.
Proof. unfold key_text. intros [= <-] [= E]. symmetry. by apply (inj encode). Qed.

Definition asking_turn (policy : AskForApproval) (elicitation : bool) : McpTurn :=
  {| mt_approval_policy := policy; mt_permission_profile := Managed (ManagedRestricted [] None) NetRestricted;
     mt_auto_review := false; mt_elicitation_enabled := elicitation; mt_monitor_authorized := false;
     mt_codex_home := lit "/home/u/.codex"; mt_project_layers := []; mt_user_apps_config := None;
     mt_requirements_apps := None; mt_mcp_servers := None; mt_templates := None; mt_turn_metadata := None;
     mt_thread_id := lit "thread"; mt_sandbox_state := Ok JNull; mt_supports_image_input := true;
     mt_cwd := lit "/w"; mt_home_dir := None |}.

Definition sample_task (policy : AskForApproval) (elicitation : bool) (call_id : str) : McpTask :=
  mkMcpTask (asking_turn policy elicitation) (fun _ => Ok JNull) None call_id (lit "s") (lit "rm") (lit "mcp__s__rm") [].

(** The user allows the call whose id is [call_id] for the session. *)
Definition sample_answers (call_id : str) (remembered : bool) (X : Type) (e : McpE X) : X :=
  match e in McpE X return X with
  | PostMonitor _ _ => None
  | IsRemembered _ => remembered
  | Remember _ => tt
  | RunHooks _ _ => None
  | ReviewRequest _ _ => DeniedDecision
  | RejectionMessage => []
  | RequestElicitation _ => Some (mkElicitationResponse ElicitAccept None None)
  | RequestUserInput _ _ => Some {[question_id_of call_id := [MCP_TOOL_APPROVAL_ACCEPT_FOR_SESSION]]}
  | LoadGlobalMcpServers => Err []
  | SetConfigPath _ _ _ => Err []
  | ReloadUserConfigLayer => tt
  | NotifyBegin _ => tt
  | NotifyEnd _ _ => tt
  | Auth => None
  | UploadLocalFile _ => Err []
  | SupportsSandboxState _ => false
  | CallTool _ _ _ _ => Err (lit "gone")
  end.

Definition sample_run (remembered : bool) (call_id : str) : list (call McpE) :=
  (drive (sample_answers call_id remembered) (task_program (sample_task OnRequest false call_id))).1.

(** Two calls of one tool: the second is let through by the answer to the first. *)
Definition two_calls : list (nat * call McpE) :=
  map (pair 0%nat) (sample_run false (lit "a")) ++ map (pair 1%nat) (sample_run true (lit "b")).

Lemma two_calls_run : session_run [sample_task OnRequest false (lit "a"); sample_task OnRequest false (lit "b")] two_calls.
Proof.
  split; [by repeat constructor|]. intros [|[|i]] t; [intros [= <-]|intros [= <-]|done]; exists [].
  - eexists. assert (calls_of 0 two_calls ++ [] = sample_run false (lit "a")) as -> by reflexivity. apply runs_drive.
  - eexists. assert (calls_of 1 two_calls ++ [] = sample_run true (lit "b")) as -> by reflexivity. apply runs_drive.
Qed.


(** Under [Never] the user is asked about a tool, unless the sandbox lets all
    be written; and where the settings want no elicitations, one asks. *)
Definition asks_user (c : call McpE) : bool :=
  match c with Did (RequestUserInput _ _) _ | Did (RequestElicitation _) _ => true | _ => false end.

Example never_asks_about_tools :
  existsb asks_user (drive (sample_answers (lit "a") false) (task_program (sample_task Never false (lit "a")))).1 = true.
Proof. by vm_compute. Qed.

Example elicitation_although_refused :
  let policy := Granular (mkGranular true true true true false) in
  elicitation_is_rejected_by_policy policy = true /\
  existsb asks_user (drive (sample_answers (lit "a") false) (task_program (sample_task policy true (lit "a")))).1 = true.
Proof. by vm_compute. Qed.

(** A call whose argument [file] names a file: it is uploaded after the yes, and
    only this argument is another one when the call is made. *)
Definition file_task : McpTask :=
  let metadata := mkMetadata None None None None None None None None (Some [lit "file"]) in
  mkMcpTask (asking_turn OnRequest false)
    (fun _ => Ok (JObject [(lit "file", JString (lit "a.txt")); (lit "note", JString (lit "a.txt"))]))
    (Some metadata) (lit "a") (lit "s") (lit "send") (lit "mcp__s__send") (lit "{...}").

Definition file_answers (X : Type) (e : McpE X) : X :=
  match e in McpE X return X with
  | Auth => Some true
  | UploadLocalFile path => Ok (mkUploaded (lit "id") (lit "uri") (lit "url") path 3 None)
  | e => sample_answers (lit "a") false _ e
  end.

Example file_uploaded_after_yes :
  let tr := (drive file_answers (task_program file_task)).1 in
  omap (fun c => match c with
                 | Did (RequestUserInput _ _) _ => Some (inl (lit "asked"))
                 | Did (UploadLocalFile path) _ => Some (inl path)
                 | Did (CallTool _ _ arguments _) _ => Some (inr (
                     (fun v => option_map (map fst) (as_object v)) <$> arguments,
                     (v ← arguments; m ← as_object v; tbl_get (lit "note") m)))
                 | _ => None
                 end) tr
  = [inl (lit "asked"); inl (lit "/w/a.txt");
     inr (Some (Some [lit "file"; lit "note"]), Some (JString (lit "a.txt")))].
Proof. by vm_compute. Qed.
